(* ===== verification/_CoqProject ===== *)
-Q . S2P
Prelude.v
Text.v
Clock.v
CiIr.v
Schedule.v
RunnerProtocol.v
Fencing.v
Leases.v
Registry.v
Phase7.v
Planner.v
MergeQueue.v
FileSystem.v
CachePolicy.v
CacheCore.v
CacheService.v
CacheSamples.v
Evidence.v
Judge.v
Oversight.v
Rejudge.v
Compiler.v
JobCaches.v
Floats.v
Governor.v
BranchProtection.v
Paths.v
RunnerCore.v
Workcells.v
Seccomp.v
Hosts.v
Sandbox.v
SandboxLaws.v
Native.v
NativeLaws.v
Egress.v
Containers.v
WarmPool.v
Dispatch.v
Fleet.v
HostSamples.v
RunnerSamples.v
ForgeState.v
Coordinator.v
Forge.v
Transfers.v
ForgeLaws.v
ForgeInvariant.v
ForgeCalls.v
ForgeBehaviour.v
ForgeScores.v
ForgeQueries.v
BoundReviews.v
BoundReviewLaws.v
RequiredAttempts.v
RequiredStore.v
RequiredPublishers.v
RequiredLaws.v
RequiredHistory.v
Json.v
RefOperations.v
RefOperationLaws.v
RefOperationHistory.v
Accounts.v
AccountLaws.v
TransferLaws.v
ReviewHistory.v
AccountHistory.v
TransferHistory.v
GitGuard.v
BugTracker.v
Phase11.v
Operations.v
Observability.v
ForgeSamples.v
ReviewSamples.v
RequiredSamples.v
AccountSamples.v
TransferSamples.v
RefOperationSamples.v
