(* ===== verification/Prelude.v ===== *)
(** Verification of jeryu: a self-hosted forge with its CI runner, build cache and the
    autonomy gate that decides which changes merge without a human.

    This file opens the development: the header below describes all of it, the definitions
    after it are the notions the components share (results, checked and wrapping arithmetic
    of the machine widths, ordered iteration of maps and sets, insertion sort, lists).

    * The program and its model

    Paths are relative to src/components/. Every operation is a function of the state it
    reads to the state it leaves, with errors as values of [result]; what the program asks of
    the world (clock, random secrets, the file system, git, hash functions, the database) is
    a class whose fields answer it, so a theorem holds for every world of that class.

    CI pipelines (jeryu-ci-runner/crates):
    - CiIr: jeryu-ci-ir, the pipeline data model, its canonical text, content hash, validation.
    - Compiler: jeryu-ci-compiler, GitHub and native workflow files to the IR.
    - Schedule: jeryu-ci-scheduler/src/schedule.rs, deterministic rounds.
    - Leases: jeryu-ci-scheduler/src/leases, job leases, retries and results.
    - MergeQueue: jeryu-ci-scheduler/src/merge_queue.rs and simulation.rs.
    - RunnerProtocol, Registry: jeryu-runner-protocol, jeryu-runner-registry.
    - RunnerCore: jeryu-runner-core, job requests, trust tiers, runner selection, sandbox plan.
    - Workcells: jeryu-runnerd/src/workcell, agent work cells and their fences.
    - Hosts: the operating system as the runners use it, as a class of calls, with the log a
      host may promise to keep ([HostLog]) and its clock ([HostClock]). HostSamples: one such.
    - Seccomp, Sandbox: jeryu-sandbox-linux, the rules of the system calls, the launch of a
      confined child, cgroups and the watchdog. SandboxLaws: a launch fails closed.
    - Native, Containers: jeryu-runner-native, jeryu-runner-oci and jeryu-runner-microvm, the
      runners and the sessions of agents. NativeLaws: what runs, and in which environment.
    - WarmPool, Dispatch, Fleet: jeryu-runnerd, containers kept warm behind the interface
      [Engine], protocol requests to jobs to receipts, and daemons behind the Registry.
    - Egress: jeryu-egress, the allow list and one connection of the proxy of the sandboxes.
    - Governor: jeryu-ci-governor, how many workers a loaded machine is given, over Floats.
    - JobCaches: jeryu-cache-policy and jeryu-artifact-metadata, cache plans and artifacts.

    Forge engine (jeryu-core/crates/jeryu-core/src):
    - BranchProtection: branch_protection/, effective reviews and the merge gate.
    - ForgeState: model/ and engine/mod.rs, the state and its rows.
    - Forge: engine/, admission, evaluation and the calls on users, repositories, issues, pull
      requests, reviews, policies, checks and webhooks. ForgeQueries: what it answers.
    - ForgeLaws, ForgeInvariant, ForgeCalls, ForgeBehaviour, ForgeScores: the abstract engine
      ([change]) the calls refine, the invariant, runs of calls, and what single calls achieve.
    - BoundReviews: engine/bound_reviews.rs, actors.rs and storage/bound_reviews.rs,
      authenticated reviews. BoundReviewLaws: what a verdict guarantees.
    - RequiredAttempts: engine/required_attempts.rs and publisher_enrollment.rs, the values of
      required attempts and enrollments. RequiredStore: their tables, storage/required_attempts.rs
      and storage/publisher_enrollment.rs. RequiredPublishers: publisher_custody.rs and
      required_publisher_controller.rs, the calls. RequiredLaws: what one call does.
      RequiredHistory: what holds through any calls, whatever the forge does between them.
    - Accounts: engine/auth.rs and auth/crypto.rs, accounts, passwords, sessions, tokens,
      invitations and grants. AccountLaws: the changes their calls are made of.
    - Transfers: engine/repository_transfer.rs and repository_transfer_state.rs, moving a
      repository to another owner. TransferLaws: the changes its calls are made of.
    - ReviewHistory, AccountHistory, TransferHistory: engine, accounts, transfers and reviews as
      one machine ([bserve]), and what verdicts, revocations and closed transfers guarantee
      through any interleaving of its calls.
    - RefOperations: engine/ref_operations.rs and storage/ref_operations.rs, the journal of Git
      ref operations, over Json. RefOperationLaws, RefOperationHistory: its transactions, and
      what holds of journal and forge through any calls.
    - Coordinator: engine/coordinator.rs, the locks under which calls run, as threads that take
      one step at a time.
    - Phase7, Planner: jeryu-core/src/phase7.rs and jeryu-proof, owner and lane planning.
    - BugTracker: jeryu-core/crates/jeryu-bugtracker, reports, triage and the store of bugs.

    Build cache (jeryu-cache/crates): CachePolicy, CacheCore, CacheService over FileSystem.

    Autonomy gate (jeryu-intelligence/crates/jeryu-autonomy/src): Evidence (types and hard
    stops), Judge (verdicts, freeze windows, full-auto), Oversight (ledger and kill bell),
    Rejudge (verdict store, rejudge service).

    Release operations (jeryu-release-ops/crates):
    - GitGuard: jeryu-git-guard, which git command lines an agent may run, and the wrapper.
    - Phase11: jeryu-phase11-core and -audit, ids, findings, reports, JSON text and receipts.
    - Operations: jeryu-tenant, -ops, -compliance-export, -lifecycle, -replay-verifier and
      -kernel, the decisions that readiness is made of.
    - Observability: jeryu-obs, the hash-chained audit log, drills, soak runs and objectives.

    Text, Paths and Clock model what the code uses of Rust's str, std::path and chrono,
    Floats its reading and printing of f32 and f64 over the SpecFloat of the library;
    Fencing is the interface through which leases and registered nodes promise that a token
    that stopped being current never is again. The files ending in Samples hold concrete
    worlds, the witnesses, and examples of behaviour that surprises.

    * What the theorems show

    Safety of authority: who may merge, lease a job, read a cache entry or review, and that
    nothing later revives a right that was lost. Invariants of each state through any sequence
    of operations, by induction over the calls. Refinement: detailed functions against a short
    specification (the abstract engine, the cache laws, the merge gate, the judge, the
    planner). Functional behaviour of single operations on every branch, errors included.
    Termination and totality of the loops, bounds of machine integers, round trips of texts.

    * Conventions and bounds

    - Unsigned integers are [N] with the width written where it matters: checked and saturating
      additions as in the source, and the wrap of a release build where the source adds
      unchecked. Instants are those of the [Chrono] class, [None] where chrono panics.
    - Loops that are not structural take fuel: the scheduler's rounds the number of jobs plus
      one, the compiler's blocks the number of lines, word splitting the length of the text,
      score trimming the length of the list, the watchdog two turns more than the milliseconds
      of its budget, the refill of a pool what it lacks, the proxy the bytes its buffer may
      still take, the shortest digits of a float a bound on their number. Each is proved
      enough, or is the measure itself. A panic of the code is [None] where it is told from an error,
      and in the runners also a wait for the output of a child that never ends.
    - A call of the forge runs under the locks of Coordinator and is one step; questions to
      the world are answered by their number; an evaluation uses one instant where the code
      reads the clock more than once in it. The order of a hash map is arbitrary.
    - Rows of a database beside the state are a finite map; a transaction happens whole or not
      at all, and may fail at any time.

    * Not modelled

    Effects outside the program (the kernel behind the calls of Hosts, git processes, HTTP,
    SQLite text and migrations, serde), the probes of the host's capabilities, most command
    lines and the web interface, and vendored code. Of the engine, the commissioning of an
    installation; of the release tools, benchmarks, repository scanners and signing keys. *)

From Stdlib Require Export NArith Lia.
From stdpp Require Export base tactics list gmap strings sorting.

(** * Results

    Rust's [Result<T, E>], with the [?] operator as a notation in a scope of
    its own. *)

Inductive result (A E : Type) : Type :=
  | Ok (a : A)
  | Err (e : E).
Arguments Ok {A E} a.
Arguments Err {A E} e.

Declare Scope result_scope.
Delimit Scope result_scope with result.

Notation "'let?' x ':=' c 'in' k" :=
  (match c with Ok x => k | Err e => Err e end)
  (at level 10, x pattern, c at level 200, k at level 200,
   format "'[v' 'let?'  x  ':='  c  'in' '/' k ']'") : result_scope.

Definition is_ok {A E} (r : result A E) : bool :=
  match r with Ok _ => true | Err _ => false end.

Definition map_err {A E F} (f : E → F) (r : result A E) : result A F :=
  match r with Ok a => Ok a | Err e => Err (f e) end.

(** * Machine integers

    [u32], [u64] and [u128] values are [N]; the arithmetic the code uses on
    them is written out at its width. *)

Definition u32_max : N := 4294967295.
Definition u64_max : N := 18446744073709551615.
Definition u64_modulus : N := 18446744073709551616.

Definition saturating_add (m a b : N) : N := N.min (a + b) m.
Definition saturating_sub (a b : N) : N := (a - b)%N.
Definition saturating_mul (m a b : N) : N := N.min (a * b) m.
Definition checked_add (m a b : N) : option N :=
  if (a + b <=? m)%N then Some (a + b)%N else None.
Definition wrapping_add64 (a b : N) : N := ((a + b) mod u64_modulus)%N.
Definition wrapping_mul64 (a b : N) : N := ((a * b) mod u64_modulus)%N.

(** * Stable insertion sort

    Rust's [sort_by] is stable; so is this one: an element goes in front of
    the first element it is not above, and elements are inserted from the
    right. *)

Section isort.
Context {A : Type} (le : A → A → bool).

Fixpoint isort_insert (x : A) (l : list A) : list A :=
  match l with
  | [] => [x]
  | y :: l' => if le x y then x :: y :: l' else y :: isort_insert x l'
  end.

Definition isort (l : list A) : list A := foldr isort_insert [] l.
End isort.

(** * Ordered containers

    A [BTreeMap<String, V>] is a [gmap string V] together with its iteration
    order, which is the byte order of the keys; a [BTreeSet<String>] is a
    [gset string] with its iteration order. *)

Definition key_leb {V} (a b : string * V) : bool := String.leb a.1 b.1.

Definition bt_iter {V} (m : gmap string V) : list (string * V) :=
  isort key_leb (map_to_list m).
Definition bt_keys {V} (m : gmap string V) : list string := (bt_iter m).*1.
Definition bt_values {V} (m : gmap string V) : list V := (bt_iter m).*2.
Definition bset_iter (s : gset string) : list string :=
  isort String.leb (elements s).

(** A loop over [values_mut] that carries an accumulator: every value is replaced
    in place, in key order. *)
Definition bt_values_mut {A V} (f : A → V → A * V) (a : A) (m : gmap string V) :
    A * gmap string V :=
  foldl (λ am kv, ((f am.1 kv.2).1, <[kv.1 := (f am.1 kv.2).2]> am.2)) (a, m) (bt_iter m).

(** The longest prefix whose elements satisfy [p], and the rest. *)
Fixpoint span {A} (p : A → bool) (l : list A) : list A * list A :=
  match l with
  | [] => ([], [])
  | x :: l' => if p x then let '(a, b) := span p l' in (x :: a, b) else ([], l)
  end.

(** First element satisfying a boolean test ([Iterator::find]). *)
Fixpoint find_first {A} (p : A → bool) (l : list A) : option A :=
  match l with
  | [] => None
  | x :: l' => if p x then Some x else find_first p l'
  end.

(** [Vec::dedup]: runs of equal elements become one. *)
Fixpoint dedup (l : list string) : list string :=
  match l with
  | x :: ((y :: _) as l') => if bool_decide (x = y) then dedup l' else x :: dedup l'
  | _ => l
  end.

Definition sort_dedup (l : list string) : list string := dedup (isort String.leb l).

(** [Iterator::max_by]: the last of the greatest elements. *)
Definition max_last {A} (le : A → A → bool) (l : list A) : option A :=
  match l with
  | [] => None
  | x :: l => Some (foldl (λ a b, if le a b then b else a) x l)
  end.

(** * Proof automation *)

Create HintDb jeryu discriminated.
Create Rewrite HintDb jeryu.

(** Splits every [match] on an innermost scrutinee, in hypotheses and goal. *)
Ltac split_matches :=
  repeat (case_match; simplify_eq/=; try done).

(** Arithmetic with the saturating operations written out. *)
Ltac sat_lia :=
  unfold saturating_add, saturating_sub, saturating_mul, u32_max, u64_max in *;
  lia.

(** * Lemmas *)

Lemma checked_add_Some m a b c :
  checked_add m a b = Some c ↔ c = (a + b)%N ∧ (a + b ≤ m)%N.
Proof.
  unfold checked_add. destruct (N.leb_spec (a + b) m); naive_solver lia.
Qed.

Lemma checked_add_None m a b : checked_add m a b = None ↔ (m < a + b)%N.
Proof. unfold checked_add. destruct (N.leb_spec (a + b) m); naive_solver lia. Qed.

Lemma find_first_Some {A} (p : A → bool) l x :
  find_first p l = Some x ↔
  ∃ l1 l2, l = l1 ++ x :: l2 ∧ p x = true ∧ Forall (λ y, p y = false) l1.
Proof.
  induction l as [|y l IH]; simpl.
  - split; [done|]. intros ([|]&?&?&?); done.
  - destruct (p y) eqn:Hy.
    + split.
      * intros [= ->]. exists [], l. auto.
      * intros ([|z l1]&l2&Heq&Hp&Hall); simplify_eq/=; [done|].
        inversion Hall; congruence.
    + rewrite IH. split.
      * intros (l1&l2&->&Hp&Hall). exists (y :: l1), l2. auto.
      * intros ([|z l1]&l2&Heq&Hp&Hall); simplify_eq/=; [congruence|].
        inversion Hall; eauto.
Qed.

Lemma find_first_None {A} (p : A → bool) l :
  find_first p l = None ↔ Forall (λ y, p y = false) l.
Proof.
  induction l as [|y l IH]; simpl; [by split|].
  rewrite Forall_cons. destruct (p y); naive_solver.
Qed.

Lemma find_first_ext {A} (p q : A → bool) l :
  (∀ x, x ∈ l → p x = q x) → find_first p l = find_first q l.
Proof.
  induction l as [|y l IH]; simpl; intros H; [done|].
  rewrite (H y) by set_solver. rewrite IH by set_solver. done.
Qed.

(** ** Sorting *)

Section isort_lemmas.
Context {A : Type} (le : A → A → bool).

Lemma isort_insert_perm x l : isort_insert le x l ≡ₚ x :: l.
Proof.
  induction l as [|y l IH]; simpl; [done|].
  case_match; [done|]. rewrite IH. apply Permutation_swap.
Qed.

Lemma isort_perm l : isort le l ≡ₚ l.
Proof.
  induction l as [|x l IH]; simpl; [done|].
  by rewrite isort_insert_perm, IH.
Qed.

Lemma elem_of_isort x l : x ∈ isort le l ↔ x ∈ l.
Proof. by rewrite isort_perm. Qed.

Lemma isort_length l : length (isort le l) = length l.
Proof. apply Permutation_length, isort_perm. Qed.

Context (le_total : ∀ x y, le x y = true ∨ le y x = true).
Context (le_trans : ∀ x y z, le x y = true → le y z = true → le x z = true).

Lemma isort_insert_sorted x l :
  StronglySorted (λ a b, le a b = true) l →
  StronglySorted (λ a b, le a b = true) (isort_insert le x l).
Proof.
  induction 1 as [|y l Hs IH Hall]; simpl; [repeat constructor|].
  destruct (le x y) eqn:Hxy.
  - constructor; [by constructor|]. constructor; [done|].
    eapply Forall_impl; [exact Hall|]. intros z Hz; simpl in Hz. eauto.
  - constructor; [done|]. rewrite Forall_forall in *. intros z Hz.
    rewrite isort_insert_perm in Hz. apply elem_of_cons in Hz as [->|Hz].
    + destruct (le_total x y); congruence.
    + by apply Hall.
Qed.

Lemma isort_sorted l : StronglySorted (λ a b, le a b = true) (isort le l).
Proof.
  induction l as [|x l IH]; simpl; [constructor|].
  by apply isort_insert_sorted.
Qed.

(** The sorted form does not depend on the order of the input as long as
    equivalent elements are equal. *)
Lemma isort_unique l1 l2 :
  (∀ x y, x ∈ l1 → y ∈ l1 → le x y = true → le y x = true → x = y) →
  l1 ≡ₚ l2 → isort le l1 = isort le l2.
Proof.
  intros Hanti Hp.
  apply (StronglySorted_unique_strong (λ a b, le a b = true));
    [|apply isort_sorted..|by rewrite !isort_perm].
  intros x y Hx Hy. rewrite elem_of_isort in Hx, Hy.
  rewrite <-Hp in Hy. by apply Hanti.
Qed.
End isort_lemmas.

Lemma string_leb_total x y : String.leb x y = true ∨ String.leb y x = true.
Proof. destruct (String.leb_total x y) as [H|H]; auto. Qed.

Lemma string_leb_trans x y z :
  String.leb x y = true → String.leb y z = true → String.leb x z = true.
Proof.
  intros H1 H2. apply Is_true_true. change (String.le x z).
  transitivity y; by apply Is_true_true.
Qed.

Lemma string_leb_antisym x y :
  String.leb x y = true → String.leb y x = true → x = y.
Proof. apply String.leb_antisym. Qed.

#[export] Hint Resolve string_leb_total string_leb_trans string_leb_antisym : jeryu.

(** ** Ordered containers *)

Section bt_lemmas.
Context {V : Type}.
Implicit Types m : gmap string V.

Lemma bt_iter_perm m : bt_iter m ≡ₚ map_to_list m.
Proof. apply isort_perm. Qed.

Lemma elem_of_bt_iter m k v : (k, v) ∈ bt_iter m ↔ m !! k = Some v.
Proof. unfold bt_iter. by rewrite elem_of_isort, elem_of_map_to_list. Qed.

Lemma bt_iter_NoDup_keys m : NoDup (bt_keys m).
Proof.
  unfold bt_keys. rewrite bt_iter_perm. apply NoDup_fst_map_to_list.
Qed.

Lemma bt_iter_sorted m :
  StronglySorted (λ a b, key_leb a b = true) (bt_iter m).
Proof.
  apply isort_sorted; unfold key_leb; eauto with jeryu.
Qed.

Lemma elem_of_bt_keys m k : k ∈ bt_keys m ↔ is_Some (m !! k).
Proof.
  unfold bt_keys. rewrite list_elem_of_fmap. split.
  - intros ([k' v]&->&Hin). apply elem_of_bt_iter in Hin. eauto.
  - intros [v Hv]. exists (k, v). by rewrite elem_of_bt_iter.
Qed.

Lemma elem_of_bt_values m v : v ∈ bt_values m ↔ ∃ k, m !! k = Some v.
Proof.
  unfold bt_values. rewrite list_elem_of_fmap. split.
  - intros ([k v']&->&Hin). apply elem_of_bt_iter in Hin. eauto.
  - intros [k Hk]. exists (k, v). by rewrite elem_of_bt_iter.
Qed.

Lemma bt_iter_inj m1 m2 : bt_iter m1 = bt_iter m2 → m1 = m2.
Proof.
  intros Heq. apply map_eq. intros k. apply option_eq. intros v.
  by rewrite <-!elem_of_bt_iter, Heq.
Qed.

(** The iteration is the only key-sorted listing of the map. *)
Lemma bt_iter_unique m l :
  l ≡ₚ map_to_list m →
  StronglySorted (λ a b, key_leb a b = true) l → l = bt_iter m.
Proof.
  intros Hp Hs.
  apply (StronglySorted_unique_strong (λ a b, key_leb a b = true));
    [|done|apply bt_iter_sorted|by rewrite bt_iter_perm].
  intros [k1 v1] [k2 v2] H1 H2 Hle1 Hle2. unfold key_leb in *; simpl in *.
  assert (k1 = k2) as -> by eauto with jeryu.
  rewrite Hp, elem_of_map_to_list in H1. apply elem_of_bt_iter in H2.
  congruence.
Qed.
End bt_lemmas.

Lemma bt_iter_fmap {V W} (f : V → W) (m : gmap string V) :
  bt_iter (f <$> m) = prod_map id f <$> bt_iter m.
Proof.
  symmetry. apply bt_iter_unique.
  - rewrite map_to_list_fmap, bt_iter_perm. done.
  - eapply StronglySorted_fmap; [|apply bt_iter_sorted].
    by intros [k1 v1] [k2 v2].
Qed.

(** A loop whose updates do not depend on the accumulator is a map. *)
Lemma bt_values_mut_spec {A V} (f : A → V → A * V) (h : A → V → A) (g : V → V) a
    (m : gmap string V) :
  (∀ a v, f a v = (h a v, g v)) →
  bt_values_mut f a m = (foldl h a (bt_values m), g <$> m).
Proof.
  intros Hf. unfold bt_values_mut.
  assert (∀ (kvs : list (string * V)) a (m0 : gmap string V),
    NoDup kvs.*1 → (∀ k v, (k, v) ∈ kvs → m0 !! k = Some v) →
    foldl (λ am kv, ((f am.1 kv.2).1, <[kv.1 := (f am.1 kv.2).2]> am.2)) (a, m0) kvs
    = (foldl h a kvs.*2,
       map_imap (λ k v, Some (if decide (k ∈ (kvs.*1 : list string)) then g v else v)) m0))
    as Hloop.
  { induction kvs as [|[k v] kvs IH]; intros a0 m0.
    - intros _ _. cbn [foldl]. f_equal. apply map_eq. intros k. rewrite map_lookup_imap.
      by destruct (m0 !! k).
    - rewrite !fmap_cons, NoDup_cons. cbn [foldl fst snd]. intros [Hk Hnd] Hin.
      rewrite Hf. cbn [fst snd]. rewrite IH; [|done|].
      + f_equal. apply map_eq. intros k'. rewrite !map_lookup_imap.
        destruct (decide (k' = k)) as [->|Hne].
        * rewrite lookup_insert_eq, (Hin k v) by by left. cbn.
          repeat case_decide; set_solver.
        * rewrite lookup_insert_ne by done. destruct (m0 !! k'); [|done]. cbn.
          repeat case_decide; set_solver.
      + intros k' v' Hin'. rewrite lookup_insert_ne; [apply Hin; by right|].
        intros ->. apply Hk, list_elem_of_fmap. by exists (k', v'). }
  rewrite Hloop.
  - f_equal. apply map_eq. intros k. rewrite map_lookup_imap, lookup_fmap.
    destruct (m !! k) eqn:Hk; [|done]. cbn. rewrite decide_True; [done|].
    fold (bt_keys m). apply elem_of_bt_keys. eauto.
  - apply bt_iter_NoDup_keys.
  - intros k v. apply elem_of_bt_iter.
Qed.

Lemma elem_of_bset_iter s x : x ∈ bset_iter s ↔ x ∈ s.
Proof. unfold bset_iter. by rewrite elem_of_isort, elem_of_elements. Qed.

Lemma bset_iter_NoDup s : NoDup (bset_iter s).
Proof. unfold bset_iter. rewrite isort_perm. apply NoDup_elements. Qed.

Lemma bset_iter_sorted s :
  StronglySorted (λ a b, String.leb a b = true) (bset_iter s).
Proof. apply isort_sorted; eauto with jeryu. Qed.

Lemma bset_iter_nil s : bset_iter s = [] ↔ s = ∅.
Proof.
  split.
  - intros H. apply set_eq. intros x. rewrite <-elem_of_bset_iter, H. set_solver.
  - intros ->. done.
Qed.

#[export] Hint Rewrite @elem_of_bt_iter @elem_of_bt_keys @elem_of_bt_values
  elem_of_bset_iter : jeryu.

(** ** Lists *)

Lemma NoDup_fmap_eq {A B} (f : A → B) l x y :
  NoDup (f <$> l) → x ∈ l → y ∈ l → f x = f y → x = y.
Proof.
  induction l as [|z l IH]; rewrite ?fmap_cons, ?NoDup_cons; [set_solver|].
  intros [Hz Hl] [->|Hx]%elem_of_cons [->|Hy]%elem_of_cons Heq; auto.
  - exfalso. apply Hz. rewrite Heq. by apply list_elem_of_fmap_2.
  - exfalso. apply Hz. rewrite <-Heq. by apply list_elem_of_fmap_2.
Qed.

Lemma elem_of_concat {A} (x : A) (ls : list (list A)) :
  x ∈ concat ls ↔ ∃ l, x ∈ l ∧ l ∈ ls.
Proof.
  induction ls as [|l ls IH]; simpl; [set_solver|].
  rewrite elem_of_app, IH. set_solver.
Qed.

Lemma omap_cons {A B} (f : A → option B) x l :
  omap f (x :: l) = match f x with Some y => y :: omap f l | None => omap f l end.
Proof. done. Qed.

Lemma omap_nil {A B} (f : A → option B) l : omap f l = [] ↔ ∀ x, x ∈ l → f x = None.
Proof.
  rewrite <-Forall_forall. induction l as [|a l IH]; [done|].
  rewrite omap_cons, Forall_cons, <-IH. destruct (f a) as [b|]; naive_solver.
Qed.

(** Inserting the pairs of a list with distinct keys, in order. *)
Lemma foldl_insert_lookup {V} (l : list (string * V)) (m : gmap string V) k v :
  NoDup l.*1 →
  foldl (λ m kv, <[kv.1 := kv.2]> m) m l !! k = Some v ↔
  (k, v) ∈ l ∨ (k ∉ l.*1) ∧ m !! k = Some v.
Proof.
  revert m. induction l as [|[k' v'] l IH]; intros m; [set_solver|].
  rewrite fmap_cons, NoDup_cons. cbn [foldl fst snd]. intros [Hk' Hnd].
  rewrite IH by done. destruct (decide (k = k')) as [->|Hne].
  - rewrite lookup_insert_eq.
    set_solver.
  - rewrite lookup_insert_ne by done. set_solver.
Qed.

Lemma foldl_insert_bt_iter {V} (m : gmap string V) :
  foldl (λ m kv, <[kv.1 := kv.2]> m) ∅ (bt_iter m) = m.
Proof.
  apply map_eq. intros k. apply option_eq. intros v.
  rewrite foldl_insert_lookup by apply bt_iter_NoDup_keys.
  rewrite elem_of_bt_iter, lookup_empty. naive_solver.
Qed.

(** ** Sorted lists without repetition *)

Lemma dedup_spec l :
  StronglySorted (λ a b, String.leb a b = true) l →
  StronglySorted (λ a b, String.leb a b = true) (dedup l)
  ∧ NoDup (dedup l) ∧ ∀ x, x ∈ dedup l ↔ x ∈ l.
Proof.
  induction 1 as [|x l Hs IH Hall]; [by repeat constructor|].
  destruct l as [|y l]; [split_and!; [repeat constructor|apply NoDup_singleton|done]|].
  change (dedup (x :: y :: l))
    with (if bool_decide (x = y) then dedup (y :: l) else x :: dedup (y :: l)).
  destruct IH as (IH1&IH2&IH3). case_bool_decide as Hxy.
  - subst. split_and!; [done|done|]. intros z. rewrite IH3. set_solver.
  - split_and!.
    + constructor; [done|]. rewrite Forall_forall in *. intros z Hz. apply Hall, IH3, Hz.
    + apply NoDup_cons. split; [|done]. rewrite IH3. intros Hin.
      rewrite Forall_forall in Hall. apply Hxy.
      assert (String.leb y x = true) as Hyx.
      { inversion Hs as [|? ? _ Hally]; subst. apply elem_of_cons in Hin as [->|Hin];
          [by destruct (string_leb_total y y)|]. rewrite Forall_forall in Hally. by apply Hally. }
      apply string_leb_antisym; [apply Hall; by left|done].
    + intros z. rewrite !elem_of_cons, IH3, elem_of_cons. done.
Qed.

Lemma sort_dedup_spec l :
  StronglySorted (λ a b, String.leb a b = true) (sort_dedup l)
  ∧ NoDup (sort_dedup l) ∧ ∀ x, x ∈ sort_dedup l ↔ x ∈ l.
Proof.
  destruct (dedup_spec (isort String.leb l)) as (H1&H2&H3).
  { apply isort_sorted; eauto with jeryu. }
  split_and!; [done|done|]. intros x. unfold sort_dedup. by rewrite H3, elem_of_isort.
Qed.

Lemma sort_dedup_set l1 l2 : (∀ x, x ∈ l1 ↔ x ∈ l2) → sort_dedup l1 = sort_dedup l2.
Proof.
  intros Heq. destruct (sort_dedup_spec l1) as (S1&N1&E1), (sort_dedup_spec l2) as (S2&N2&E2).
  apply (StronglySorted_unique_strong (λ a b, String.leb a b = true)); [|done|done|].
  - intros x y _ _. apply string_leb_antisym.
  - apply NoDup_Permutation; [done..|]. intros x. by rewrite E1, E2, Heq.
Qed.

(** ** The greatest element *)

Lemma max_last_go {A} (le : A → A → bool) x l :
  (∀ a b, le a b = true ∨ le b a = true) →
  (∀ a b c, le a b = true → le b c = true → le a c = true) →
  ∃ l1 m l2, x :: l = l1 ++ m :: l2
    ∧ foldl (λ a b, if le a b then b else a) x l = m
    ∧ Forall (λ y, le y m = true) l1 ∧ Forall (λ y, le m y = false) l2.
Proof.
  intros Htot Htr. induction l as [|y l IH] using rev_ind.
  { exists [], x, []. split_and!; by try constructor. }
  destruct IH as (l1 & m & l2 & Heq & Hm & H1 & H2).
  rewrite foldl_app, Hm. cbn. destruct (le m y) eqn:Hle.
  - exists (x :: l), y, []. split_and!; [done|done| |constructor].
    rewrite Heq. apply Forall_app. split.
    + eapply Forall_impl; [exact H1|]. intros z Hz; cbn in Hz. eauto.
    + constructor; [done|]. eapply Forall_impl; [exact H2|]. intros z Hz; cbn in Hz.
      destruct (Htot m z) as [|Hzm]; [congruence|eauto].
  - exists l1, m, (l2 ++ [y]). split_and!; [|done|done|].
    + by rewrite app_comm_cons, Heq, <-app_assoc.
    + apply Forall_app. by repeat constructor.
Qed.

(** What [max_last] returns: nothing before it is greater, everything after is smaller. *)
Lemma max_last_Some {A} (le : A → A → bool) l m :
  (∀ a b, le a b = true ∨ le b a = true) →
  (∀ a b c, le a b = true → le b c = true → le a c = true) →
  max_last le l = Some m →
  ∃ l1 l2, l = l1 ++ m :: l2
    ∧ Forall (λ y, le y m = true) l1 ∧ Forall (λ y, le m y = false) l2.
Proof.
  intros Htot Htr. destruct l as [|x l]; [done|]. cbn. intros [= Hm].
  destruct (max_last_go le x l Htot Htr) as (l1 & m' & l2 & Heq & Hm' & H1 & H2).
  rewrite Hm in Hm'. subst m'. eauto.
Qed.

Lemma max_last_None {A} (le : A → A → bool) l : max_last le l = None ↔ l = [].
Proof. by destruct l. Qed.
