(* ===== verification/Text.v ===== *)
(** Text: the part of Rust's [str], [char] and formatting the program uses.

    A Rust string is a [string] of bytes (its UTF-8 encoding); [chars] never
    has to be decoded because every per-character test of the program is an
    ASCII test, and [trim], which is not, is written on the UTF-8 encodings of
    the Unicode [White_Space] characters. *)

From Stdlib Require Import Ascii DecimalString DecimalN.
From S2P Require Import Prelude.

(** * Characters *)

Definition code (c : ascii) : N := N_of_ascii c.

Definition in_range (lo hi x : N) : bool := (lo <=? x)%N && (x <=? hi)%N.

Definition is_ascii_digit (c : ascii) : bool := in_range 48 57 (code c).
Definition is_ascii_upper (c : ascii) : bool := in_range 65 90 (code c).
Definition is_ascii_lower (c : ascii) : bool := in_range 97 122 (code c).
Definition is_ascii_alphanumeric (c : ascii) : bool :=
  is_ascii_digit c || is_ascii_upper c || is_ascii_lower c.
Definition is_ascii_hexdigit (c : ascii) : bool :=
  is_ascii_digit c || in_range 65 70 (code c) || in_range 97 102 (code c).

Definition to_ascii_lowercase (c : ascii) : ascii :=
  if is_ascii_upper c then ascii_of_N (code c + 32) else c.

Definition newline : ascii := "010"%char.
Definition newline_str : string := String newline "".
(** The two bytes backslash, n. *)
Definition escaped_newline : string := "\n".

(** * Strings *)

Fixpoint string_all (p : ascii → bool) (s : string) : bool :=
  match s with "" => true | String c s' => p c && string_all p s' end.

Fixpoint string_map (f : ascii → ascii) (s : string) : string :=
  match s with "" => "" | String c s' => String (f c) (string_map f s') end.

Fixpoint string_filter (p : ascii → bool) (s : string) : string :=
  match s with
  | "" => ""
  | String c s' => if p c then String c (string_filter p s') else string_filter p s'
  end.

Definition lowercase (s : string) : string := string_map to_ascii_lowercase s.

Definition str_is_empty (s : string) : bool := bool_decide (s = "").

Fixpoint strip_prefix (p s : string) : option string :=
  match p, s with
  | "", _ => Some s
  | String a p', String b s' => if Ascii.eqb a b then strip_prefix p' s' else None
  | String _ _, "" => None
  end.

Definition starts_with (s p : string) : bool := bool_decide (is_Some (strip_prefix p s)).

Definition strip_suffix (p s : string) : option string :=
  String.rev <$> strip_prefix (String.rev p) (String.rev s).

Definition ends_with (s p : string) : bool := bool_decide (is_Some (strip_suffix p s)).

Fixpoint split_once (d : ascii) (s : string) : option (string * string) :=
  match s with
  | "" => None
  | String c s' =>
      if Ascii.eqb c d then Some ("", s')
      else (λ '(a, b), (String c a, b)) <$> split_once d s'
  end.

(** [str::contains] with a non-empty pattern. *)
Fixpoint str_contains (pat s : string) : bool :=
  starts_with s pat || match s with EmptyString => false | String _ s' => str_contains pat s' end.

(** [s.split(d)] for a one-character separator: never empty. *)
Fixpoint split_on (d : ascii) (s : string) : list string :=
  match s with
  | "" => [""]
  | String c s' =>
      if Ascii.eqb c d then "" :: split_on d s'
      else match split_on d s' with
           | [] => [String c ""]
           | x :: l => String c x :: l
           end
  end.

(** [str::lines]: the last line may lack its newline; a carriage return in front of a
    newline is not part of the line. *)
Definition strip_cr (s : string) : string :=
  match strip_suffix (String "013"%char "") s with Some s' => s' | None => s end.

Fixpoint lines_of (parts : list string) : list string :=
  match parts with
  | [] => []
  | [x] => if str_is_empty x then [] else [x]
  | x :: l => strip_cr x :: lines_of l
  end.

Definition lines (s : string) : list string := lines_of (split_on newline s).

(** [str::parse] for unsigned integers of the given maximum. *)
Fixpoint parse_digits (s : string) (acc : N) : option N :=
  match s with
  | "" => Some acc
  | String c s' =>
      if is_ascii_digit c then parse_digits s' (acc * 10 + (code c - 48))%N else None
  end.

Definition parse_uint (max : N) (s : string) : option N :=
  let digits := match s with String "+"%char s' => s' | _ => s end in
  if str_is_empty digits then None
  else match parse_digits digits 0 with
       | Some n => if (n <=? max)%N then Some n else None
       | None => None
       end.

(** [s.replace(c, rep)] for a one-character pattern. *)
Fixpoint replace_char (c : ascii) (rep s : string) : string :=
  match s with
  | "" => ""
  | String d s' =>
      if Ascii.eqb d c then rep +:+ replace_char c rep s'
      else String d (replace_char c rep s')
  end.

(** [s.replace(pat, rep)] for a non-empty pattern: leftmost matches that do not
    overlap; [skip] counts the bytes of a match still to be dropped. *)
Fixpoint replace_go (skip : nat) (pat rep s : string) : string :=
  match s with
  | "" => ""
  | String c s' =>
      match skip with
      | S k => replace_go k pat rep s'
      | O =>
          if starts_with s pat
          then rep +:+ replace_go (pred (String.length pat)) pat rep s'
          else String c (replace_go 0 pat rep s')
      end
  end.
Definition replace (pat rep s : string) : string := replace_go 0 pat rep s.

(** ** Trimming *)

Definition is_ascii_ws (x : N) : bool := in_range 9 13 x || (x =? 32)%N.
Definition ws2 (x y : N) : bool := (x =? 194)%N && ((y =? 133)%N || (y =? 160)%N).
Definition ws3 (x y z : N) : bool :=
  ((x =? 225) && (y =? 154) && (z =? 128))%N
  || ((x =? 226)%N && (y =? 128)%N
      && (in_range 128 138 z || (z =? 168)%N || (z =? 169)%N || (z =? 175)%N))
  || ((x =? 226) && (y =? 129) && (z =? 159))%N
  || ((x =? 227) && (y =? 128) && (z =? 128))%N.

(** One leading white-space character of [s] removed; with [rev] the bytes of
    each character are read from the end of the reversed string. *)
Definition strip_ws (rev : bool) (s : string) : option string :=
  match s with
  | "" => None
  | String a s1 =>
      if is_ascii_ws (code a) then Some s1 else
      match s1 with
      | "" => None
      | String b s2 =>
          if (if rev then ws2 (code b) (code a) else ws2 (code a) (code b))
          then Some s2 else
          match s2 with
          | "" => None
          | String c s3 =>
              if (if rev then ws3 (code c) (code b) (code a)
                  else ws3 (code a) (code b) (code c))
              then Some s3 else None
          end
      end
  end.

Fixpoint trim_go (rev : bool) (fuel : nat) (s : string) : string :=
  match fuel with
  | O => s
  | S fuel' =>
      match strip_ws rev s with
      | Some s' => trim_go rev fuel' s'
      | None => s
      end
  end.

Definition trim_start (s : string) : string := trim_go false (String.length s) s.
Definition trim_end (s : string) : string :=
  String.rev (trim_go true (String.length s) (String.rev s)).
Definition trim (s : string) : string := trim_end (trim_start s).

(** [str::split_whitespace]; [cur] is the word being read. *)
Definition push_word (cur : string) (ws : list string) : list string :=
  if str_is_empty cur then ws else cur :: ws.

Fixpoint words_go (fuel : nat) (cur s : string) : list string :=
  match fuel, s with
  | S fuel, String c s' =>
      match strip_ws false s with
      | Some rest => push_word cur (words_go fuel "" rest)
      | None => words_go fuel (cur +:+ String c "") s'
      end
  | _, _ => push_word cur []
  end.

Definition split_whitespace (s : string) : list string := words_go (String.length s) "" s.

Fixpoint trim_start_char (c : ascii) (s : string) : string :=
  match s with
  | "" => ""
  | String d s' => if Ascii.eqb d c then trim_start_char c s' else s
  end.
Definition trim_end_char (c : ascii) (s : string) : string :=
  String.rev (trim_start_char c (String.rev s)).
Definition trim_char (c : ascii) (s : string) : string :=
  trim_end_char c (trim_start_char c s).

(** * Formatting *)

Definition show_N (n : N) : string := NilZero.string_of_uint (N.to_uint n).
Definition show_bool (b : bool) : string := if b then "true" else "false".

Definition nibble (n : N) : ascii :=
  if (n <? 10)%N then ascii_of_N (48 + n) else ascii_of_N (87 + n).

(** The [k] low hexadecimal digits of [n], most significant first. *)
Fixpoint hex_digits (k : nat) (n : N) : string :=
  match k with
  | O => ""
  | S k' => hex_digits k' (n / 16)%N +:+ String (nibble (n mod 16)%N) ""
  end.

(** [{n:016x}] of a [u64]. *)
Definition hex16 (n : N) : string := hex_digits 16 n.

Fixpoint string_repeat (c : ascii) (k : nat) : string :=
  match k with O => "" | S k' => String c (string_repeat c k') end.

(** Zero padding on the left, as in [{n:02}] or [{n:03}]. *)
Definition pad_left (width : nat) (s : string) : string :=
  string_repeat "0"%char (width - String.length s) +:+ s.

Definition join (sep : string) (l : list string) : string := String.concat sep l.

(** * Lemmas *)

Lemma append_nil_l (s : string) : "" +:+ s = s.
Proof. done. Qed.

Lemma append_cons c (s t : string) : String c s +:+ t = String c (s +:+ t).
Proof. done. Qed.

Lemma append_nil_r (s : string) : s +:+ "" = s.
Proof. induction s as [|c s IH]; [done|]. by rewrite append_cons, IH. Qed.

Lemma append_assoc (s t u : string) : (s +:+ t) +:+ u = s +:+ (t +:+ u).
Proof. induction s as [|c s IH]; [done|]. by rewrite !append_cons, IH. Qed.

Lemma length_append (s t : string) :
  String.length (s +:+ t) = String.length s + String.length t.
Proof. induction s as [|c s IH]; [done|]. rewrite append_cons. simpl. by rewrite IH. Qed.

#[export] Hint Rewrite append_nil_l append_cons append_nil_r append_assoc
  length_append : jeryu.

Lemma append_inj_l (s t u : string) : s +:+ t = s +:+ u → t = u.
Proof. apply (inj (String.app s)). Qed.

Lemma append_inj_len (s s' t t' : string) :
  String.length s = String.length s' → s +:+ t = s' +:+ t' → s = s' ∧ t = t'.
Proof.
  revert s'. induction s as [|c s IH]; intros [|c' s'] Hlen Heq; try done.
  rewrite !append_cons in Heq. injection Heq as -> Heq. injection Hlen as Hlen.
  by destruct (IH s' Hlen Heq) as [-> ->].
Qed.

Lemma append_inj_r (s s' t : string) : s +:+ t = s' +:+ t → s = s'.
Proof.
  intros Heq. assert (String.length s = String.length s') as Hlen.
  { apply (f_equal String.length) in Heq. rewrite !length_append in Heq. lia. }
  by apply (append_inj_len _ _ _ _ Hlen Heq).
Qed.

Lemma string_all_append p s t :
  string_all p (s +:+ t) = string_all p s && string_all p t.
Proof.
  induction s as [|c s IH]; [done|]. rewrite append_cons. simpl.
  by rewrite IH, andb_assoc.
Qed.

Lemma strip_prefix_Some p s t : strip_prefix p s = Some t ↔ s = p +:+ t.
Proof.
  revert s. induction p as [|a p IH]; intros s; simpl.
  - rewrite append_nil_l. naive_solver.
  - destruct s as [|b s]; [done|]. rewrite append_cons.
    destruct (Ascii.eqb_spec a b) as [->|Hne]; [rewrite IH|]; naive_solver.
Qed.

Lemma starts_with_spec s p : starts_with s p = true ↔ ∃ t, s = p +:+ t.
Proof.
  unfold starts_with. rewrite bool_decide_eq_true. unfold is_Some.
  split; intros [t Ht]; exists t; by apply strip_prefix_Some.
Qed.

Lemma rev_app_append (s acc : string) :
  String.rev_app s acc = String.rev s +:+ acc.
Proof.
  unfold String.rev. revert acc. induction s as [|c s IH]; intros acc; [done|]. simpl.
  rewrite (IH (String c acc)), (IH (String c "")), append_assoc. done.
Qed.

Lemma rev_cons c (s : string) : String.rev (String c s) = String.rev s +:+ String c "".
Proof. unfold String.rev at 1. simpl. by rewrite rev_app_append. Qed.

Lemma rev_append (s t : string) :
  String.rev (s +:+ t) = String.rev t +:+ String.rev s.
Proof.
  induction s as [|c s IH]; [by rewrite append_nil_l, append_nil_r|].
  by rewrite append_cons, !rev_cons, IH, append_assoc.
Qed.

Lemma rev_involutive (s : string) : String.rev (String.rev s) = s.
Proof. induction s as [|c s IH]; [done|]. by rewrite rev_cons, rev_append, IH. Qed.

Lemma length_rev (s : string) : String.length (String.rev s) = String.length s.
Proof.
  induction s as [|c s IH]; [done|]. rewrite rev_cons, length_append, IH. simpl. lia.
Qed.

Lemma strip_suffix_Some p s t : strip_suffix p s = Some t ↔ s = t +:+ p.
Proof.
  unfold strip_suffix. rewrite fmap_Some. split.
  - intros (u&Hu&->). apply strip_prefix_Some in Hu.
    by rewrite <-(rev_involutive s), Hu, rev_append, rev_involutive.
  - intros ->. exists (String.rev t). split; [|by rewrite rev_involutive].
    apply strip_prefix_Some. by rewrite rev_append.
Qed.

Lemma ends_with_spec s p : ends_with s p = true ↔ ∃ t, s = t +:+ p.
Proof.
  unfold ends_with. rewrite bool_decide_eq_true. unfold is_Some.
  split; intros [t Ht]; exists t; by apply strip_suffix_Some.
Qed.

Lemma str_is_empty_spec s : str_is_empty s = true ↔ s = "".
Proof. apply bool_decide_eq_true. Qed.

(** ** Numbers as text *)

Lemma N_to_uint_nonnil n : N.to_uint n ≠ Decimal.Nil.
Proof. destruct n; [done|]. apply DecimalPos.Unsigned.to_uint_nonnil. Qed.

Lemma show_N_inj m n : show_N m = show_N n → m = n.
Proof.
  unfold show_N. intros Heq.
  apply (f_equal NilZero.uint_of_string) in Heq.
  rewrite !NilZero.usu in Heq by apply N_to_uint_nonnil.
  injection Heq as Heq. apply (f_equal N.of_uint) in Heq.
  by rewrite !DecimalN.Unsigned.of_to in Heq.
Qed.

Lemma hex_digits_length k n : String.length (hex_digits k n) = k.
Proof.
  revert n. induction k as [|k IH]; intros n; simpl; [done|].
  rewrite length_append, IH. simpl. lia.
Qed.

Lemma code_inj a b : code a = code b → a = b.
Proof.
  unfold code. intros H.
  by rewrite <-(ascii_N_embedding a), <-(ascii_N_embedding b), H.
Qed.
