(* ===== verification/Clock.v ===== *)
(** Clock: what the program uses of chrono, as an interface. Every component that
    handles instants is written against it. *)

From Stdlib Require Import ZArith.
From S2P Require Import Prelude.

(** [DateTime<Utc>]: its order, its arithmetic ([None] where chrono panics, out of
    the range of instants) and its two renderings. *)
Class Chrono := {
  DateTime : Type;
  #[global] DateTime_eq_dec :: EqDecision DateTime;
  dt_leb : DateTime → DateTime → bool;
  add_minutes : DateTime → Z → option DateTime;
  add_seconds : DateTime → Z → option DateTime;
  timestamp_millis : DateTime → Z;
  to_rfc3339 : DateTime → string
}.

(** The documented order of instants: they are totally ordered. *)
Class ChronoSpec `{Chrono} : Prop := {
  dt_leb_total a b : dt_leb a b = true ∨ dt_leb b a = true;
  dt_leb_trans a b c : dt_leb a b = true → dt_leb b c = true → dt_leb a c = true;
  dt_leb_antisym a b : dt_leb a b = true → dt_leb b a = true → a = b
}.

Definition dt_ltb `{Chrono} (a b : DateTime) : bool := negb (dt_leb b a).
