(* ===== verification/CiIr.v ===== *)
(** CiIr: the deterministic CI intermediate representation
    (src/components/jeryu-ci-runner/crates/jeryu-ci-ir/src): value types, the
    FNV-1a content hash, the canonical text of a pipeline, and its structural
    validation.

    A sequence of [line(&mut out, key, value)] calls is the list of its
    [(key, value)] pairs, written by [emit]. *)

From Stdlib Require Import Ascii.
From S2P Require Import Prelude Text.

(** * Enumerations (enums.rs) *)

Inductive PipelineSource : Type :=
  | PS_GitHubActions
  | PS_NativeToml
  | PS_Api
  | PS_Agent
  | PS_MergeQueue
  | PS_Hotfix
  | PS_Release
  | PS_Scheduled
  | PS_Unknown (value : string).

Definition PipelineSource_as_str (s : PipelineSource) : string :=
  match s with
  | PS_GitHubActions => "github-actions"
  | PS_NativeToml => "jit-native"
  | PS_Api => "api"
  | PS_Agent => "agent"
  | PS_MergeQueue => "merge-queue"
  | PS_Hotfix => "hotfix"
  | PS_Release => "release"
  | PS_Scheduled => "scheduled"
  | PS_Unknown value => value
  end.

Inductive TrustTier : Type :=
  | TT_ReleaseHermetic
  | TT_ProtectedInternal
  | TT_InternalBranch
  | TT_AgentAuthored
  | TT_ForkPr
  | TT_PublicUntrusted.

Definition TrustTier_as_str (t : TrustTier) : string :=
  match t with
  | TT_ReleaseHermetic => "T0-release-hermetic"
  | TT_ProtectedInternal => "T1-protected-internal"
  | TT_InternalBranch => "T2-internal-branch"
  | TT_AgentAuthored => "T3-agent-authored"
  | TT_ForkPr => "T4-fork-pr"
  | TT_PublicUntrusted => "T5-public-untrusted"
  end.

Inductive RunnerClass : Type :=
  | RC_NativeRustHot
  | RC_NativeRustClean
  | RC_CrategraphDelta
  | RC_NextestCapsule
  | RC_AgentGuard
  | RC_MergeSpec
  | RC_ReleaseHermetic
  | RC_MicrovmRust
  | RC_OciDocker
  | RC_K8sOci
  | RC_Custom (value : string).

Definition RunnerClass_default : RunnerClass := RC_NativeRustClean.

Definition RunnerClass_as_str (c : RunnerClass) : string :=
  match c with
  | RC_NativeRustHot => "native-rust-hot"
  | RC_NativeRustClean => "native-rust-clean"
  | RC_CrategraphDelta => "crategraph-delta"
  | RC_NextestCapsule => "nextest-capsule"
  | RC_AgentGuard => "agent-guard"
  | RC_MergeSpec => "merge-spec"
  | RC_ReleaseHermetic => "release-hermetic"
  | RC_MicrovmRust => "microvm-rust"
  | RC_OciDocker => "oci-docker"
  | RC_K8sOci => "k8s-oci"
  | RC_Custom value => value
  end.

Inductive NetworkPolicy : Type :=
  | NP_Deny
  | NP_Allowlist (hosts : list string)
  | NP_Open.

Inductive TokenScope : Type :=
  | TS_None
  | TS_ReadRepo
  | TS_WriteChecks
  | TS_WritePullRequest
  | TS_Custom (values : list string).

Inductive CacheMode : Type :=
  | CM_ReadOnly
  | CM_ReadWriteQuarantine
  | CM_ReadWriteTrusted.

Definition CacheMode_as_str (m : CacheMode) : string :=
  match m with
  | CM_ReadOnly => "read-only"
  | CM_ReadWriteQuarantine => "read-write-quarantine"
  | CM_ReadWriteTrusted => "read-write-trusted"
  end.

Inductive ArtifactWhen : Type :=
  | AW_Always
  | AW_OnSuccess
  | AW_OnFailure.

Definition ArtifactWhen_as_str (w : ArtifactWhen) : string :=
  match w with
  | AW_Always => "always"
  | AW_OnSuccess => "on-success"
  | AW_OnFailure => "on-failure"
  end.

#[export] Instance PipelineSource_eq_dec : EqDecision PipelineSource.
Proof. solve_decision. Defined.
#[export] Instance TrustTier_eq_dec : EqDecision TrustTier.
Proof. solve_decision. Defined.
#[export] Instance RunnerClass_eq_dec : EqDecision RunnerClass.
Proof. solve_decision. Defined.
#[export] Instance NetworkPolicy_eq_dec : EqDecision NetworkPolicy.
Proof. solve_decision. Defined.
#[export] Instance TokenScope_eq_dec : EqDecision TokenScope.
Proof. solve_decision. Defined.
#[export] Instance CacheMode_eq_dec : EqDecision CacheMode.
Proof. solve_decision. Defined.
#[export] Instance ArtifactWhen_eq_dec : EqDecision ArtifactWhen.
Proof. solve_decision. Defined.

(** * Hashing and canonical helpers (hashing.rs) *)

Definition fnv_offset : N := 0xcbf29ce484222325.
Definition fnv_prime : N := 0x100000001b3.

(** One turn of the loop: [hash ^= byte; hash = hash.wrapping_mul(prime)]. *)
Definition fnv_step (hash : N) (byte : ascii) : N :=
  wrapping_mul64 (N.lxor hash (code byte)) fnv_prime.

Fixpoint fnv_loop (hash : N) (input : string) : N :=
  match input with
  | "" => hash
  | String c rest => fnv_loop (fnv_step hash c) rest
  end.

Definition deterministic_hash (input : string) : string :=
  "fnv64:" +:+ hex16 (fnv_loop fnv_offset input).

Definition stable_id (prefix value : string) : string :=
  prefix +:+ "_" +:+ replace "fnv64:" "" (deterministic_hash value).

Definition underscore : ascii := "_"%char.

Definition ends_with_char (out : string) (c : ascii) : bool :=
  match String.rev out with "" => false | String d _ => Ascii.eqb d c end.

Fixpoint sanitize_loop (out value : string) : string :=
  match value with
  | "" => out
  | String ch rest =>
      let out :=
        if is_ascii_alphanumeric ch then out +:+ String (to_ascii_lowercase ch) ""
        else if (Ascii.eqb ch "_" || Ascii.eqb ch "-" || Ascii.eqb ch ".")%char
        then out +:+ String ch ""
        else if negb (ends_with_char out underscore)
        then out +:+ String underscore "" else out in
      sanitize_loop out rest
  end.

Definition sanitize_id (value : string) : string :=
  let trimmed := trim_char underscore (sanitize_loop "" value) in
  if str_is_empty trimmed then "unnamed" else trimmed.

Definition double_quote : ascii := ascii_of_N 34.
Definition single_quote : ascii := "'"%char.

(** The string without its last byte, and that byte. *)
Definition split_last (s : string) : option (string * ascii) :=
  match String.rev s with
  | "" => None
  | String c r => Some (String.rev r, c)
  end.

Definition trim_quotes (value : string) : string :=
  let trimmed := trim value in
  match trimmed with
  | String a rest =>
      match split_last rest with
      | Some (inner, b) =>
          if (Ascii.eqb a double_quote && Ascii.eqb b double_quote)
             || (Ascii.eqb a single_quote && Ascii.eqb b single_quote)
          then inner else trimmed
      | None => trimmed
      end
  | "" => trimmed
  end.

Definition normalize_token (value : string) : string :=
  lowercase (string_filter is_ascii_alphanumeric value).

Definition backslash : ascii := "\"%char.

Definition escape_canonical (value : string) : string :=
  replace_char newline escaped_newline (replace_char backslash "\\" value).

Definition line (out key value : string) : string :=
  out +:+ key +:+ "=" +:+ escape_canonical value +:+ newline_str.

Definition emit (out : string) (kvs : list (string * string)) : string :=
  foldl (λ out kv, line out kv.1 kv.2) out kvs.

Definition network_to_string (policy : NetworkPolicy) : string :=
  match policy with
  | NP_Deny => "deny"
  | NP_Allowlist hosts => "allowlist:" +:+ join "," hosts
  | NP_Open => "open"
  end.

Definition token_to_string (scope : TokenScope) : string :=
  match scope with
  | TS_None => "none"
  | TS_ReadRepo => "read-repo"
  | TS_WriteChecks => "write-checks"
  | TS_WritePullRequest => "write-pull-request"
  | TS_Custom values => "custom:" +:+ join "," values
  end.

(** * Parsing of enumerations (enums.rs, [FromStr]) *)

Definition TrustTier_from_str (value : string) : result TrustTier string :=
  let token := normalize_token value in
  if bool_decide (token ∈ ["t0releasehermetic"; "releasehermetic"; "release"])
  then Ok TT_ReleaseHermetic
  else if bool_decide (token ∈ ["t1protectedinternal"; "protectedinternal"; "protected"])
  then Ok TT_ProtectedInternal
  else if bool_decide (token ∈ ["t2internalbranch"; "internalbranch"; "internal"])
  then Ok TT_InternalBranch
  else if bool_decide (token ∈ ["t3agentauthored"; "agentauthored"; "agent"])
  then Ok TT_AgentAuthored
  else if bool_decide (token ∈ ["t4forkpr"; "forkpr"; "fork"])
  then Ok TT_ForkPr
  else if bool_decide (token ∈ ["t5publicuntrusted"; "publicuntrusted"; "public"; "untrusted"])
  then Ok TT_PublicUntrusted
  else Err ("unknown trust tier: " +:+ token).

Definition RunnerClass_from_str (value : string) : result RunnerClass string :=
  let trimmed := trim (trim_quotes value) in
  let token := normalize_token trimmed in
  if bool_decide (token = "nativerusthot") then Ok RC_NativeRustHot
  else if bool_decide (token ∈ ["nativerustclean"; "ubuntulatest"; "linux"])
  then Ok RC_NativeRustClean
  else if bool_decide (token = "crategraphdelta") then Ok RC_CrategraphDelta
  else if bool_decide (token = "nextestcapsule") then Ok RC_NextestCapsule
  else if bool_decide (token = "agentguard") then Ok RC_AgentGuard
  else if bool_decide (token = "mergespec") then Ok RC_MergeSpec
  else if bool_decide (token = "releasehermetic") then Ok RC_ReleaseHermetic
  else if bool_decide (token ∈ ["microvmrust"; "microvm"]) then Ok RC_MicrovmRust
  else if bool_decide (token ∈ ["ocidocker"; "docker"]) then Ok RC_OciDocker
  else if bool_decide (token ∈ ["k8soci"; "kubernetes"; "k8s"]) then Ok RC_K8sOci
  else if negb (str_is_empty trimmed) then Ok (RC_Custom trimmed)
  else Err "runner class cannot be empty".

(** * Jobs (job.rs) *)

Record RetryPolicy := { max_attempts : N; backoff_seconds : N }.
Definition RetryPolicy_default : RetryPolicy :=
  {| max_attempts := 1; backoff_seconds := 0 |}.

Record CacheMount := {
  mount_name : string;
  mount_path : string;
  mount_mode : CacheMode;
  mount_fingerprint : string
}.

Record ArtifactPath := {
  artifact_name : string;
  artifact_files : list string;
  artifact_when : ArtifactWhen;
  retention_days : N
}.

Record Step := {
  step_id : string;
  step_name : string;
  step_command : option string;
  step_uses : option string;
  step_env : gmap string string;
  working_directory : option string
}.

Definition Step_run (id name command : string) : Step :=
  {| step_id := id; step_name := name; step_command := Some command;
     step_uses := None; step_env := ∅; working_directory := None |}.

Definition Step_of_uses (id name action : string) : Step :=
  {| step_id := id; step_name := name; step_command := None;
     step_uses := Some action; step_env := ∅; working_directory := None |}.

Record Dependency := { dep_from : string; dep_to : string }.

Record Job := {
  job_id : string;
  job_name : string;
  runner_class : RunnerClass;
  steps : list Step;
  inputs : gmap string string;
  outputs : gmap string string;
  cache_mounts : list CacheMount;
  artifact_paths : list ArtifactPath;
  network_policy : NetworkPolicy;
  token_scope : TokenScope;
  timeout_seconds : N;
  retry_policy : RetryPolicy
}.

Definition Job_new (id name : string) (class : RunnerClass) : Job :=
  {| job_id := id; job_name := name; runner_class := class; steps := [];
     inputs := ∅; outputs := ∅; cache_mounts := []; artifact_paths := [];
     network_policy := NP_Deny; token_scope := TS_ReadRepo;
     timeout_seconds := 3600; retry_policy := RetryPolicy_default |}.

(** Comparison of string pairs, as tuples compare in Rust. *)
Definition pair_leb (a b : string * string) : bool :=
  match String.compare a.1 b.1 with
  | Lt => true
  | Gt => false
  | Eq => String.leb a.2 b.2
  end.

Definition mount_leb (a b : CacheMount) : bool :=
  pair_leb (mount_name a, mount_path a) (mount_name b, mount_path b).
Definition artifact_leb (a b : ArtifactPath) : bool :=
  String.leb (artifact_name a) (artifact_name b).

Definition opt_line (key : string) (v : option string) : list (string * string) :=
  match v with Some v => [(key, v)] | None => [] end.

Definition step_lines (step : Step) : list (string * string) :=
  [("job.step.id", step_id step); ("job.step.name", step_name step)]
  ++ opt_line "job.step.run" (step_command step)
  ++ opt_line "job.step.uses" (step_uses step)
  ++ opt_line "job.step.cwd" (working_directory step)
  ++ ((λ kv, ("job.step.env." +:+ kv.1, kv.2)) <$> bt_iter (step_env step)).

Definition mount_text (mount : CacheMount) : string :=
  join "|" [mount_name mount; mount_path mount;
            CacheMode_as_str (mount_mode mount); mount_fingerprint mount].

Definition artifact_text (artifact : ArtifactPath) : string :=
  join "|" [artifact_name artifact; ArtifactWhen_as_str (artifact_when artifact);
            show_N (retention_days artifact); join "," (artifact_files artifact)].

Definition job_lines (job : Job) : list (string * string) :=
  [("job.id", job_id job);
   ("job.name", job_name job);
   ("job.runner", RunnerClass_as_str (runner_class job));
   ("job.timeout_seconds", show_N (timeout_seconds job));
   ("job.retry.max_attempts", show_N (max_attempts (retry_policy job)));
   ("job.retry.backoff_seconds", show_N (backoff_seconds (retry_policy job)));
   ("job.network", network_to_string (network_policy job));
   ("job.token", token_to_string (token_scope job))]
  ++ ((λ kv, ("job.input." +:+ kv.1, kv.2)) <$> bt_iter (inputs job))
  ++ ((λ kv, ("job.output." +:+ kv.1, kv.2)) <$> bt_iter (outputs job))
  ++ ((λ m, ("job.cache", mount_text m)) <$> isort mount_leb (cache_mounts job))
  ++ ((λ a, ("job.artifact", artifact_text a)) <$> isort artifact_leb (artifact_paths job))
  ++ flat_map step_lines (steps job).

Definition canonical_into (job : Job) (out : string) : string :=
  emit out (job_lines job).

(** * Governance policies (policy.rs) *)

Record CachePolicy := {
  project_scoped : bool;
  allow_cross_project_compiled : bool;
  promote_after_green : bool;
  quarantine_untrusted_writes : bool
}.
Definition CachePolicy_default : CachePolicy :=
  {| project_scoped := true; allow_cross_project_compiled := false;
     promote_after_green := true; quarantine_untrusted_writes := true |}.

Record ArtifactPolicy := {
  allow_absolute_paths : bool;
  require_metadata : bool;
  default_retention_days : N
}.
Definition ArtifactPolicy_default : ArtifactPolicy :=
  {| allow_absolute_paths := false; require_metadata := true;
     default_retention_days := 14 |}.

Record PermissionPolicy := {
  default_token_scope : TokenScope;
  fail_closed : bool
}.
Definition PermissionPolicy_default : PermissionPolicy :=
  {| default_token_scope := TS_ReadRepo; fail_closed := true |}.

Record SecretPolicy := { secrets_available : bool; deny_on_fork : bool }.
Definition SecretPolicy_default : SecretPolicy :=
  {| secrets_available := false; deny_on_fork := true |}.

Record ProofPolicy := { proof_required : bool; proof_lane : string }.
Definition ProofPolicy_default : ProofPolicy :=
  {| proof_required := true; proof_lane := "phase3-fast" |}.

Record SigningPolicy := { provenance_required : bool; release_only : bool }.
Definition SigningPolicy_default : SigningPolicy :=
  {| provenance_required := false; release_only := true |}.

(** * Pipelines (pipeline.rs) *)

Record Pipeline := {
  pipeline_id : string;
  source : PipelineSource;
  repo : string;
  commit : string;
  trust_tier : TrustTier;
  jobs : list Job;
  edges : list Dependency;
  jeryu_cache_policy : CachePolicy;
  artifact_policy : ArtifactPolicy;
  permission_policy : PermissionPolicy;
  secret_policy : SecretPolicy;
  proof_policy : ProofPolicy;
  signing_policy : SigningPolicy
}.

Definition Pipeline_new (src : PipelineSource) (repo commit : string)
    (tier : TrustTier) : Pipeline :=
  {| pipeline_id := deterministic_hash
       (join "|" ["pipeline"; PipelineSource_as_str src; repo; commit]);
     source := src; repo := repo; commit := commit; trust_tier := tier;
     jobs := []; edges := [];
     jeryu_cache_policy := CachePolicy_default;
     artifact_policy := ArtifactPolicy_default;
     permission_policy := PermissionPolicy_default;
     secret_policy := SecretPolicy_default;
     proof_policy := ProofPolicy_default;
     signing_policy := SigningPolicy_default |}.

Definition header_lines (p : Pipeline) : list (string * string) :=
  [("pipeline.id", pipeline_id p);
   ("pipeline.source", PipelineSource_as_str (source p));
   ("pipeline.repo", repo p);
   ("pipeline.commit", commit p);
   ("pipeline.trust_tier", TrustTier_as_str (trust_tier p));
   ("cache.project_scoped", show_bool (project_scoped (jeryu_cache_policy p)));
   ("cache.allow_cross_project_compiled",
      show_bool (allow_cross_project_compiled (jeryu_cache_policy p)));
   ("cache.promote_after_green",
      show_bool (promote_after_green (jeryu_cache_policy p)));
   ("cache.quarantine_untrusted_writes",
      show_bool (quarantine_untrusted_writes (jeryu_cache_policy p)));
   ("artifact.allow_absolute_paths",
      show_bool (allow_absolute_paths (artifact_policy p)));
   ("artifact.require_metadata", show_bool (require_metadata (artifact_policy p)));
   ("artifact.default_retention_days",
      show_N (default_retention_days (artifact_policy p)));
   ("permission.fail_closed", show_bool (fail_closed (permission_policy p)));
   ("secret.secrets_available", show_bool (secrets_available (secret_policy p)));
   ("secret.deny_on_fork", show_bool (deny_on_fork (secret_policy p)));
   ("proof.required", show_bool (proof_required (proof_policy p)));
   ("proof.lane", proof_lane (proof_policy p));
   ("signing.provenance_required",
      show_bool (provenance_required (signing_policy p)));
   ("signing.release_only", show_bool (release_only (signing_policy p)))].

Definition job_leb (a b : Job) : bool := String.leb (job_id a) (job_id b).
Definition edge_leb (a b : Dependency) : bool :=
  pair_leb (dep_from a, dep_to a) (dep_from b, dep_to b).

Definition edge_line (e : Dependency) : string * string :=
  ("edge", dep_from e +:+ "->" +:+ dep_to e).

Definition canonical (p : Pipeline) : string :=
  let out := emit "" (header_lines p) in
  let out := foldl (λ out job, canonical_into job out) out (isort job_leb (jobs p)) in
  emit out (edge_line <$> isort edge_leb (edges p)).

Definition ir_hash (p : Pipeline) : string := deterministic_hash (canonical p).

Inductive ValidationError : Type :=
  | EmptyRepo
  | EmptyCommit
  | EmptyJobId
  | DuplicateJob (job : string)
  | JobHasNoSteps (job : string)
  | UnknownEdgeEndpoint (job : string)
  | SelfDependency (job : string).

Definition ValidationError_to_string (e : ValidationError) : string :=
  match e with
  | EmptyRepo => "pipeline repo cannot be empty"
  | EmptyCommit => "pipeline commit cannot be empty"
  | EmptyJobId => "job id cannot be empty"
  | DuplicateJob job => "duplicate job id: " +:+ job
  | JobHasNoSteps job => "job has no steps: " +:+ job
  | UnknownEdgeEndpoint job => "edge references unknown job: " +:+ job
  | SelfDependency job => "job cannot depend on itself: " +:+ job
  end.

(** The loop over the jobs, which returns the set of ids it has seen. *)
Fixpoint validate_jobs (seen : gset string) (js : list Job) :
    result (gset string) ValidationError :=
  match js with
  | [] => Ok seen
  | job :: js =>
      if str_is_empty (trim (job_id job)) then Err EmptyJobId
      else if bool_decide (job_id job ∈ seen) then Err (DuplicateJob (job_id job))
      else match steps job with
           | [] => Err (JobHasNoSteps (job_id job))
           | _ :: _ => validate_jobs ({[job_id job]} ∪ seen) js
           end
  end.

Fixpoint validate_edges (seen : gset string) (es : list Dependency) :
    result unit ValidationError :=
  match es with
  | [] => Ok tt
  | e :: es =>
      if bool_decide (dep_from e ∉ seen) then Err (UnknownEdgeEndpoint (dep_from e))
      else if bool_decide (dep_to e ∉ seen) then Err (UnknownEdgeEndpoint (dep_to e))
      else if bool_decide (dep_from e = dep_to e) then Err (SelfDependency (dep_from e))
      else validate_edges seen es
  end.

Definition validate (p : Pipeline) : result unit ValidationError :=
  (if str_is_empty (trim (repo p)) then Err EmptyRepo
   else if str_is_empty (trim (commit p)) then Err EmptyCommit
   else let? seen := validate_jobs ∅ (jobs p) in
        validate_edges seen (edges p))%result.

(** * Specifications *)

(** What one byte of a value becomes in the canonical text. *)
Definition escape_char (c : ascii) : string :=
  if Ascii.eqb c backslash then "\\"
  else if Ascii.eqb c newline then escaped_newline
  else String c "".

Fixpoint escape_spec (s : string) : string :=
  match s with "" => "" | String c s' => escape_char c +:+ escape_spec s' end.

(** A reader of escaped values. *)
Fixpoint unescape (s : string) : string :=
  match s with
  | "" => ""
  | String c s' =>
      if Ascii.eqb c backslash then
        match s' with
        | "" => s
        | String d s'' =>
            String (if Ascii.eqb d backslash then backslash else newline) (unescape s'')
        end
      else String c (unescape s')
  end.

(** The canonical text as a plain concatenation of lines. *)
Definition render_line (kv : string * string) : string :=
  kv.1 +:+ "=" +:+ escape_spec kv.2 +:+ newline_str.
Fixpoint render (kvs : list (string * string)) : string :=
  match kvs with [] => "" | kv :: kvs' => render_line kv +:+ render kvs' end.

Definition pipeline_lines (p : Pipeline) : list (string * string) :=
  header_lines p ++ flat_map job_lines (isort job_leb (jobs p))
  ++ (edge_line <$> isort edge_leb (edges p)).

(** A key that can be read back from its line. *)
Definition key_ok (k : string) : bool :=
  string_all (λ c, negb (Ascii.eqb c "="%char) && negb (Ascii.eqb c newline)) k.

Definition job_keys_ok (job : Job) : bool :=
  forallb key_ok (bt_keys (inputs job))
  && forallb key_ok (bt_keys (outputs job))
  && forallb (λ s, forallb key_ok (bt_keys (step_env s))) (steps job).
Definition pipeline_keys_ok (p : Pipeline) : bool := forallb job_keys_ok (jobs p).

(** The values of the lines with a given key, in order. *)
Definition values_of (key : string) (kvs : list (string * string)) : list string :=
  (filter (λ kv, kv.1 = key) kvs).*2.

(** What two pipelines with the same canonical text have in common. *)
Record same_execution (p q : Pipeline) : Prop := {
  se_id : pipeline_id p = pipeline_id q;
  se_source : PipelineSource_as_str (source p) = PipelineSource_as_str (source q);
  se_repo : repo p = repo q;
  se_commit : commit p = commit q;
  se_tier : trust_tier p = trust_tier q;
  se_cache : jeryu_cache_policy p = jeryu_cache_policy q;
  se_artifact : artifact_policy p = artifact_policy q;
  se_secret : secret_policy p = secret_policy q;
  se_proof : proof_policy p = proof_policy q;
  se_signing : signing_policy p = signing_policy q;
  se_jobs : job_id <$> isort job_leb (jobs p) = job_id <$> isort job_leb (jobs q);
  se_commands :
    flat_map (λ j, omap step_command (steps j)) (isort job_leb (jobs p))
    = flat_map (λ j, omap step_command (steps j)) (isort job_leb (jobs q));
  se_edges :
    (edge_line <$> isort edge_leb (edges p)) = (edge_line <$> isort edge_leb (edges q))
}.

Record valid_pipeline (p : Pipeline) : Prop := {
  vp_repo : trim (repo p) ≠ "";
  vp_commit : trim (commit p) ≠ "";
  vp_ids : ∀ j, j ∈ jobs p → trim (job_id j) ≠ "";
  vp_unique : NoDup (job_id <$> jobs p);
  vp_steps : ∀ j, j ∈ jobs p → steps j ≠ [];
  vp_edges : ∀ e, e ∈ edges p →
    dep_from e ∈ job_id <$> jobs p ∧ dep_to e ∈ job_id <$> jobs p
    ∧ dep_from e ≠ dep_to e
}.

(** The runner classes that survive their own string form. *)
Definition stable_class (c : RunnerClass) : Prop :=
  RunnerClass_from_str (RunnerClass_as_str c) = Ok c.

(** * Lemmas *)

Arguments step_lines : simpl never.
Arguments job_lines : simpl never.
Arguments header_lines : simpl never.

Lemma escape_canonical_spec s : escape_canonical s = escape_spec s.
Proof.
  unfold escape_canonical. induction s as [|c s IH]; [done|].
  cbn [replace_char escape_spec]. unfold escape_char.
  destruct (Ascii.eqb_spec c backslash) as [->|Hb].
  - rewrite <-IH. done.
  - cbn [replace_char]. by destruct (Ascii.eqb c newline); rewrite IH.
Qed.

Lemma escape_spec_no_newline s :
  string_all (λ c, negb (Ascii.eqb c newline)) (escape_spec s) = true.
Proof.
  induction s as [|c s IH]; [done|]. cbn [escape_spec].
  rewrite string_all_append, IH. unfold escape_char.
  destruct (Ascii.eqb c backslash); [done|].
  destruct (Ascii.eqb c newline) eqn:Hn; [done|]. simpl. by rewrite Hn.
Qed.

Lemma unescape_escape s : unescape (escape_spec s) = s.
Proof.
  induction s as [|c s IH]; [done|]. cbn [escape_spec]. unfold escape_char.
  destruct (Ascii.eqb_spec c backslash) as [->|Hb].
  - rewrite !append_cons, append_nil_l. simpl. by rewrite IH.
  - destruct (Ascii.eqb_spec c newline) as [->|Hn];
      unfold escaped_newline; rewrite !append_cons, append_nil_l.
    + simpl. by rewrite IH.
    + cbn [unescape]. apply Ascii.eqb_neq in Hb. by rewrite Hb, IH.
Qed.

Lemma escape_spec_inj s t : escape_spec s = escape_spec t → s = t.
Proof.
  intros H. by rewrite <-(unescape_escape s), <-(unescape_escape t), H.
Qed.

(** Two texts that both stop at the first [c] split the same way. *)
Lemma split_at_char c (a a' b b' : string) :
  string_all (λ d, negb (Ascii.eqb d c)) a = true →
  string_all (λ d, negb (Ascii.eqb d c)) a' = true →
  a +:+ String c b = a' +:+ String c b' → a = a' ∧ b = b'.
Proof.
  revert a'. induction a as [|x a IH]; intros [|y a']; simpl;
    rewrite ?append_cons, ?append_nil_l; intros Ha Ha' [=]; simplify_eq.
  - done.
  - rewrite Ascii.eqb_refl in Ha'. done.
  - rewrite Ascii.eqb_refl in Ha. done.
  - apply andb_prop in Ha as [_ Ha]. apply andb_prop in Ha' as [_ Ha'].
    by destruct (IH a') as [-> ->].
Qed.

Lemma string_all_impl (p q : ascii → bool) s :
  (∀ c, p c = true → q c = true) → string_all p s = true → string_all q s = true.
Proof.
  intros Hpq. induction s as [|c s IH]; [done|]. simpl.
  intros [Hc Hs]%andb_prop. by rewrite (Hpq c Hc), (IH Hs).
Qed.

Lemma key_ok_no_eq k :
  key_ok k = true → string_all (λ c, negb (Ascii.eqb c "="%char)) k = true.
Proof. apply string_all_impl. by intros c [??]%andb_prop. Qed.

Lemma render_inj l1 l2 :
  forallb (λ kv, key_ok kv.1) l1 = true → forallb (λ kv, key_ok kv.1) l2 = true →
  render l1 = render l2 → l1 = l2.
Proof.
  revert l2. induction l1 as [|[k v] l1 IH]; intros [|[k' v'] l2]; simpl; try done.
  - intros _ _ Heq. exfalso. unfold render_line in Heq. simpl in Heq.
    destruct k'; done.
  - intros _ _ Heq. exfalso. unfold render_line in Heq. simpl in Heq.
    destruct k; done.
  - intros [Hk H1]%andb_prop [Hk' H2]%andb_prop Heq.
    unfold render_line, newline_str in Heq. simpl in Heq.
    rewrite !append_assoc, !append_cons, !append_nil_l in Heq.
    apply split_at_char in Heq as [-> Heq]; [|by apply key_ok_no_eq..].
    apply split_at_char in Heq as [Hv Heq]; [|by apply escape_spec_no_newline..].
    apply escape_spec_inj in Hv as ->. f_equal. by apply IH.
Qed.

Lemma emit_render out kvs : emit out kvs = out +:+ render kvs.
Proof.
  revert out. induction kvs as [|[k v] kvs IH]; intros out; simpl.
  - by rewrite append_nil_r.
  - rewrite IH. unfold line, render_line.
    by rewrite escape_canonical_spec, !append_assoc.
Qed.

Lemma render_app l1 l2 : render (l1 ++ l2) = render l1 +:+ render l2.
Proof. induction l1 as [|kv l1 IH]; [done|]. simpl. by rewrite IH, append_assoc. Qed.

Lemma foldl_canonical_into js out :
  foldl (λ out job, canonical_into job out) out js
  = out +:+ render (flat_map job_lines js).
Proof.
  revert out. induction js as [|j js IH]; intros out.
  - simpl. by rewrite append_nil_r.
  - cbn [foldl flat_map]. rewrite IH. unfold canonical_into.
    by rewrite emit_render, render_app, append_assoc.
Qed.

(** The canonical text is the concatenation of the pipeline's lines. *)
Lemma canonical_render p : canonical p = render (pipeline_lines p).
Proof.
  unfold canonical, pipeline_lines.
  rewrite !emit_render, foldl_canonical_into, !render_app, append_nil_l.
  by rewrite append_assoc.
Qed.

(** ** What the lines say *)

Lemma values_of_app key l1 l2 :
  values_of key (l1 ++ l2) = values_of key l1 ++ values_of key l2.
Proof. unfold values_of. by rewrite filter_app, fmap_app. Qed.

Lemma values_of_none key l :
  Forall (λ kv, kv.1 ≠ key) l → values_of key l = [].
Proof.
  unfold values_of. induction 1 as [|kv l Hne _ IH]; [done|].
  by rewrite filter_cons_False.
Qed.

Lemma values_of_const {A} key (f : A → string) l :
  values_of key ((λ x, (key, f x)) <$> l) = f <$> l.
Proof.
  unfold values_of. induction l as [|x l IH]; [done|].
  rewrite fmap_cons, filter_cons_True by done. by rewrite fmap_cons, IH.
Qed.

(** A key with a given prefix differs from one without it. *)
Lemma prefixed_key_ne p k key : starts_with key p = false → p +:+ k ≠ key.
Proof.
  intros Hs Heq. assert (starts_with key p = true); [|congruence].
  apply starts_with_spec. eauto.
Qed.

Lemma values_of_prefixed {A} key p (f g : A → string) (l : list A) :
  starts_with key p = false →
  values_of key ((λ x, (p +:+ f x, g x)) <$> l) = [].
Proof.
  intros Hs. apply values_of_none, Forall_fmap, Forall_true. intros x. simpl.
  by apply prefixed_key_ne.
Qed.

Lemma values_of_flat_map {A} key (f : A → list (string * string)) (l : list A) :
  values_of key (flat_map f l) = flat_map (λ x, values_of key (f x)) l.
Proof.
  induction l as [|x l IH]; [done|]. simpl. by rewrite values_of_app, IH.
Qed.

Lemma flat_map_nil {A B} (f : A → list B) l :
  (∀ x, f x = []) → flat_map f l = [].
Proof. intros Hf. induction l as [|x l IH]; [done|]. simpl. by rewrite Hf, IH. Qed.

Lemma flat_map_ext_eq {A B} (f g : A → list B) l :
  (∀ x, f x = g x) → flat_map f l = flat_map g l.
Proof. intros Hf. induction l as [|x l IH]; [done|]. simpl. by rewrite Hf, IH. Qed.

Lemma flat_map_single {A B} (f : A → B) l : flat_map (λ x, [f x]) l = f <$> l.
Proof. induction l as [|x l IH]; [done|]. simpl. by rewrite IH. Qed.

Ltac values_of_head :=
  repeat rewrite values_of_app;
  repeat (rewrite values_of_prefixed by reflexivity).

Lemma step_lines_command s :
  values_of "job.step.run" (step_lines s) = option_list (step_command s).
Proof.
  unfold step_lines. values_of_head.
  by destruct (step_command s), (step_uses s), (working_directory s).
Qed.

Lemma step_lines_job_id s : values_of "job.id" (step_lines s) = [].
Proof.
  unfold step_lines. values_of_head.
  by destruct (step_command s), (step_uses s), (working_directory s).
Qed.

Lemma values_of_other {A} key key' (f : A → string) l :
  key' ≠ key → values_of key ((λ x, (key', f x)) <$> l) = [].
Proof. intros Hne. by apply values_of_none, Forall_fmap, Forall_true. Qed.

Lemma job_lines_job_id j : values_of "job.id" (job_lines j) = [job_id j].
Proof.
  unfold job_lines. values_of_head. rewrite !values_of_other by done.
  rewrite values_of_flat_map, (flat_map_nil _ _ step_lines_job_id). done.
Qed.

Lemma job_lines_commands j :
  values_of "job.step.run" (job_lines j) = omap step_command (steps j).
Proof.
  unfold job_lines. values_of_head. rewrite !values_of_other by done.
  rewrite values_of_flat_map, (flat_map_ext_eq _ _ _ step_lines_command). simpl.
  induction (steps j) as [|s l IH]; [done|]. simpl. rewrite IH.
  by destruct (step_command s).
Qed.

Lemma step_lines_edge s : values_of "edge" (step_lines s) = [].
Proof.
  unfold step_lines. values_of_head.
  by destruct (step_command s), (step_uses s), (working_directory s).
Qed.

Lemma job_lines_edge j : values_of "edge" (job_lines j) = [].
Proof.
  unfold job_lines. values_of_head. rewrite !values_of_other by done.
  by rewrite values_of_flat_map, (flat_map_nil _ _ step_lines_edge).
Qed.

Lemma values_of_job_lines key p (f : Job → list string) :
  (∀ j, values_of key (job_lines j) = f j) →
  values_of key (header_lines p) = [] → key ≠ "edge" →
  values_of key (pipeline_lines p) = flat_map f (isort job_leb (jobs p)).
Proof.
  intros Hf Hh Hne. unfold pipeline_lines.
  rewrite !values_of_app, Hh, values_of_flat_map, (flat_map_ext_eq _ _ _ Hf).
  unfold edge_line at 1. rewrite values_of_other by done. by rewrite app_nil_r.
Qed.

Lemma values_of_edges p :
  values_of "edge" (pipeline_lines p) = (edge_line <$> isort edge_leb (edges p)).*2.
Proof.
  unfold pipeline_lines.
  rewrite !values_of_app, values_of_flat_map, (flat_map_nil _ _ job_lines_edge).
  assert (values_of "edge" (header_lines p) = []) as -> by reflexivity.
  unfold edge_line. rewrite values_of_const, <-list_fmap_compose. done.
Qed.

(** ** The keys of a pipeline are readable when its own names are *)

Lemma key_ok_app k1 k2 : key_ok (k1 +:+ k2) = key_ok k1 && key_ok k2.
Proof. apply string_all_append. Qed.

Lemma keys_ok_prefixed p (m : gmap string string) :
  key_ok p = true → forallb key_ok (bt_keys m) = true →
  forallb (λ kv, key_ok kv.1)
    ((λ kv : string * string, (p +:+ kv.1, kv.2)) <$> bt_iter m) = true.
Proof.
  unfold bt_keys. intros Hp. induction (bt_iter m) as [|kv l IH]; [done|].
  rewrite !fmap_cons. cbn [forallb fst]. intros [Hk Hl]%andb_prop.
  by rewrite key_ok_app, Hp, Hk, IH.
Qed.

Lemma keys_ok_const {A} (key : string) (f : A → string) l :
  key_ok key = true → forallb (λ kv, key_ok kv.1) ((λ x, (key, f x)) <$> l) = true.
Proof.
  intros Hk. induction l as [|x l IH]; [done|].
  rewrite fmap_cons. cbn [forallb fst]. by rewrite Hk, IH.
Qed.

Lemma step_lines_keys_ok s :
  forallb key_ok (bt_keys (step_env s)) = true →
  forallb (λ kv, key_ok kv.1) (step_lines s) = true.
Proof.
  intros Hs. unfold step_lines. rewrite !forallb_app.
  rewrite (keys_ok_prefixed "job.step.env." _ eq_refl Hs).
  by destruct (step_command s), (step_uses s), (working_directory s).
Qed.

Lemma forallb_flat_map {A B} (f : A → list B) (p : B → bool) (l : list A) :
  (∀ x, x ∈ l → forallb p (f x) = true) → forallb p (flat_map f l) = true.
Proof.
  induction l as [|x l IH]; [done|]. intros Hf. cbn [flat_map].
  rewrite forallb_app, (Hf x) by set_solver. apply IH. set_solver.
Qed.

Lemma forallb_elem_of {A} (p : A → bool) l x :
  forallb p l = true → x ∈ l → p x = true.
Proof. rewrite forallb_forall. intros H Hx. apply H. by apply list_elem_of_In. Qed.

Lemma job_lines_keys_ok j :
  job_keys_ok j = true → forallb (λ kv, key_ok kv.1) (job_lines j) = true.
Proof.
  unfold job_keys_ok. intros [[Hi Ho]%andb_prop Hs]%andb_prop.
  unfold job_lines. rewrite !forallb_app, !andb_true_iff.
  split_and!; try by apply keys_ok_const.
  - reflexivity.
  - by apply (keys_ok_prefixed "job.input.").
  - by apply (keys_ok_prefixed "job.output.").
  - apply forallb_flat_map. intros s Hin. apply step_lines_keys_ok.
    by apply (forallb_elem_of _ _ _ Hs).
Qed.

Lemma pipeline_lines_keys_ok p :
  pipeline_keys_ok p = true → forallb (λ kv, key_ok kv.1) (pipeline_lines p) = true.
Proof.
  intros Hp. unfold pipeline_lines, edge_line. rewrite !forallb_app, !andb_true_iff.
  split_and!; [reflexivity| |by apply keys_ok_const].
  apply forallb_flat_map. intros j Hin. apply job_lines_keys_ok.
  rewrite elem_of_isort in Hin. by apply (forallb_elem_of _ _ _ Hp).
Qed.

Lemma show_bool_inj a b : show_bool a = show_bool b → a = b.
Proof. by destruct a, b. Qed.

Lemma TrustTier_as_str_inj a b : TrustTier_as_str a = TrustTier_as_str b → a = b.
Proof. by destruct a, b. Qed.

(** Header fields are recovered from the header lines. *)
Lemma header_lines_inj p q :
  header_lines p = header_lines q →
  pipeline_id p = pipeline_id q
  ∧ PipelineSource_as_str (source p) = PipelineSource_as_str (source q)
  ∧ repo p = repo q ∧ commit p = commit q ∧ trust_tier p = trust_tier q
  ∧ jeryu_cache_policy p = jeryu_cache_policy q
  ∧ artifact_policy p = artifact_policy q
  ∧ secret_policy p = secret_policy q ∧ proof_policy p = proof_policy q
  ∧ signing_policy p = signing_policy q.
Proof.
  destruct p as [? ? ? ? ? ? ? [] [] ? [] [] []],
    q as [? ? ? ? ? ? ? [] [] ? [] [] []].
  unfold header_lines. cbn -[show_bool show_N TrustTier_as_str PipelineSource_as_str].
  intros Heq. injection Heq. intros.
  repeat match goal with
  | H : show_bool _ = show_bool _ |- _ => apply show_bool_inj in H
  | H : show_N _ = show_N _ |- _ => apply show_N_inj in H
  | H : TrustTier_as_str _ = TrustTier_as_str _ |- _ => apply TrustTier_as_str_inj in H
  end. subst. repeat split; done.
Qed.

(** ** Sorting jobs and edges *)

Lemma string_compare_refl (s : string) : String.compare s s = Eq.
Proof.
  induction s as [|c s IH]; simpl; [done|].
  unfold Ascii.compare. by rewrite N.compare_refl.
Qed.

Lemma pair_leb_spec a b :
  pair_leb a b = true ↔
  (a.1 = b.1 ∧ String.leb a.2 b.2 = true) ∨ (a.1 ≠ b.1 ∧ String.leb a.1 b.1 = true).
Proof.
  unfold pair_leb, String.leb.
  destruct (String.compare a.1 b.1) eqn:Hc.
  - apply String.compare_eq_iff in Hc. naive_solver.
  - assert (a.1 ≠ b.1); [|naive_solver]. intros Heq.
    rewrite Heq, string_compare_refl in Hc. done.
  - assert (a.1 ≠ b.1); [|naive_solver]. intros Heq.
    rewrite Heq, string_compare_refl in Hc. done.
Qed.

Lemma pair_leb_total a b : pair_leb a b = true ∨ pair_leb b a = true.
Proof.
  rewrite !pair_leb_spec. destruct (decide (a.1 = b.1)).
  - destruct (string_leb_total a.2 b.2); naive_solver.
  - destruct (string_leb_total a.1 b.1); naive_solver.
Qed.

Lemma pair_leb_trans a b c :
  pair_leb a b = true → pair_leb b c = true → pair_leb a c = true.
Proof.
  rewrite !pair_leb_spec.
  intros [[H1 H2]|[H1 H2]] [[H3 H4]|[H3 H4]].
  - left. split; [congruence|]. eauto with jeryu.
  - right. rewrite H1. auto.
  - right. rewrite <-H3. auto.
  - right. split; [|eauto with jeryu]. intros Heq. apply H1.
    rewrite Heq in *. by apply string_leb_antisym.
Qed.

Lemma pair_leb_antisym a b : pair_leb a b = true → pair_leb b a = true → a = b.
Proof.
  rewrite !pair_leb_spec. destruct a as [a1 a2], b as [b1 b2]; simpl.
  intros [[H1 H2]|[H1 H2]] [[H3 H4]|[H3 H4]]; try congruence.
  - subst. f_equal. by apply string_leb_antisym.
  - exfalso. apply H1. by apply string_leb_antisym.
Qed.

Lemma isort_edges_perm es es' : es ≡ₚ es' → isort edge_leb es = isort edge_leb es'.
Proof.
  apply isort_unique; unfold edge_leb.
  - intros ??. apply pair_leb_total.
  - intros ???. apply pair_leb_trans.
  - intros [] [] _ _ H1 H2. by specialize (pair_leb_antisym _ _ H1 H2) as [= -> ->].
Qed.

Lemma isort_jobs_perm js js' :
  NoDup (job_id <$> js) → js ≡ₚ js' → isort job_leb js = isort job_leb js'.
Proof.
  intros Hnd. apply isort_unique; unfold job_leb; eauto with jeryu.
  intros x y Hx Hy H1 H2. apply (NoDup_fmap_eq _ _ _ _ Hnd); eauto with jeryu.
Qed.

Lemma ir_hash_perm p q :
  NoDup (job_id <$> jobs p) →
  jobs p ≡ₚ jobs q → edges p ≡ₚ edges q → header_lines p = header_lines q →
  ir_hash p = ir_hash q.
Proof.
  intros Hnd Hj He Hh. unfold ir_hash. rewrite !canonical_render.
  unfold pipeline_lines.
  by rewrite Hh, (isort_jobs_perm _ _ Hnd Hj), (isort_edges_perm _ _ He).
Qed.

(** ** FNV-1a *)

Definition fnv_prime_inverse : N := 14886173955864302971.

Lemma fnv_prime_inverse_spec :
  ((fnv_prime * fnv_prime_inverse) mod u64_modulus = 1)%N.
Proof. reflexivity. Qed.

Lemma code_lt_256 c : (code c < 256)%N.
Proof. apply N_ascii_bounded. Qed.

Lemma lxor_lt_modulus a b :
  (a < u64_modulus)%N → (b < u64_modulus)%N → (N.lxor a b < u64_modulus)%N.
Proof.
  change u64_modulus with (2 ^ 64)%N. intros Ha Hb.
  destruct (decide (N.lxor a b = 0%N)) as [->|Hne]; [done|].
  apply N.log2_lt_pow2; [lia|].
  eapply N.le_lt_trans; [apply N.log2_lxor|].
  apply N.max_lub_lt.
  - destruct (decide (a = 0%N)) as [->|]; [done|]. apply N.log2_lt_pow2; lia.
  - destruct (decide (b = 0%N)) as [->|]; [done|]. apply N.log2_lt_pow2; lia.
Qed.

Lemma fnv_step_bound h c : (fnv_step h c < u64_modulus)%N.
Proof. by apply N.mod_lt. Qed.

Lemma wrapping_mul_prime_inj a b :
  (a < u64_modulus)%N → (b < u64_modulus)%N →
  wrapping_mul64 a fnv_prime = wrapping_mul64 b fnv_prime → a = b.
Proof.
  unfold wrapping_mul64. intros Ha Hb Heq.
  apply (f_equal (λ x, (x * fnv_prime_inverse) mod u64_modulus)%N) in Heq.
  rewrite !N.Div0.mul_mod_idemp_l, <-!N.mul_assoc in Heq.
  rewrite <-(N.Div0.mul_mod_idemp_r a), <-(N.Div0.mul_mod_idemp_r b) in Heq.
  rewrite fnv_prime_inverse_spec, !N.mul_1_r in Heq.
  by rewrite !N.mod_small in Heq.
Qed.

Lemma fnv_step_inj h h' c c' :
  (h < u64_modulus)%N → (h' < u64_modulus)%N → fnv_step h c = fnv_step h' c' →
  N.lxor h (code c) = N.lxor h' (code c').
Proof.
  intros Hh Hh'. pose proof (code_lt_256 c). pose proof (code_lt_256 c').
  apply wrapping_mul_prime_inj; apply lxor_lt_modulus; unfold u64_modulus in *; lia.
Qed.

Lemma fnv_loop_inj h h' s :
  (h < u64_modulus)%N → (h' < u64_modulus)%N → fnv_loop h s = fnv_loop h' s → h = h'.
Proof.
  revert h h'. induction s as [|c s IH]; intros h h' Hh Hh'; simpl; [done|].
  intros Heq. apply IH in Heq; [|apply fnv_step_bound..].
  apply fnv_step_inj in Heq; [|done..].
  apply (f_equal (λ x, N.lxor x (code c))) in Heq.
  by rewrite !N.lxor_assoc, N.lxor_nilpotent, !N.lxor_0_r in Heq.
Qed.

Lemma fnv_loop_app h s t : fnv_loop h (s +:+ t) = fnv_loop (fnv_loop h s) t.
Proof. revert h. induction s as [|c s IH]; intros h; [done|]. apply IH. Qed.

Lemma fnv_loop_bound h s : (h < u64_modulus)%N → (fnv_loop h s < u64_modulus)%N.
Proof.
  revert h. induction s as [|c s IH]; intros h Hh; [done|]. apply IH, fnv_step_bound.
Qed.

(** ** Hexadecimal rendering *)

Lemma nibble_inj a b : (a < 16)%N → (b < 16)%N → nibble a = nibble b → a = b.
Proof.
  unfold nibble. intros Ha Hb Heq. apply (f_equal code) in Heq. revert Heq.
  unfold code. destruct (N.ltb_spec a 10), (N.ltb_spec b 10);
    rewrite !N_ascii_embedding by lia; lia.
Qed.

Lemma hex_digits_inj k a b :
  (a < 16 ^ N.of_nat k)%N → (b < 16 ^ N.of_nat k)%N →
  hex_digits k a = hex_digits k b → a = b.
Proof.
  revert a b. induction k as [|k IH]; intros a b Ha Hb.
  - change (16 ^ N.of_nat 0)%N with 1%N in *. intros _. lia.
  - rewrite Nat2N.inj_succ, N.pow_succ_r' in Ha, Hb. cbn [hex_digits]. intros Heq.
    apply append_inj_len in Heq as [Heq1 Heq2]; [|by rewrite !hex_digits_length].
    injection Heq2 as Heq2. apply nibble_inj in Heq2; [|by apply N.mod_lt..].
    apply IH in Heq1; [|by apply N.Div0.div_lt_upper_bound..].
    rewrite (N.div_mod a 16), (N.div_mod b 16) by done. congruence.
Qed.

Lemma deterministic_hash_eq s t :
  deterministic_hash s = deterministic_hash t ↔
  fnv_loop fnv_offset s = fnv_loop fnv_offset t.
Proof.
  unfold deterministic_hash. split; [|by intros ->].
  intros Heq%append_inj_l. by apply hex_digits_inj in Heq; [|apply fnv_loop_bound..].
Qed.

(** ** Validation *)

Lemma validate_jobs_spec seen js seen' :
  validate_jobs seen js = Ok seen' ↔
  seen' = list_to_set (job_id <$> js) ∪ seen
  ∧ (∀ j, j ∈ js → trim (job_id j) ≠ "" ∧ (job_id j ∉ seen) ∧ steps j ≠ [])
  ∧ NoDup (job_id <$> js).
Proof.
  revert seen. induction js as [|j js IH]; intros seen.
  - simpl. split.
    + intros [= <-]. split_and!; [set_solver|set_solver|constructor].
    + intros (->&_&_). f_equal. set_solver.
  - cbn [validate_jobs]. rewrite fmap_cons, NoDup_cons.
    unfold str_is_empty. case_bool_decide as Hid.
    { split; [done|]. intros (_&H&_). by destruct (H j) as [? _]; [set_solver|]. }
    case_bool_decide as Hseen.
    { split; [done|]. intros (_&H&_). by destruct (H j) as (_&?&_); [set_solver|]. }
    destruct (steps j) as [|s l] eqn:Hst.
    { split; [done|]. intros (_&H&_). by destruct (H j) as (_&_&?); [set_solver|]. }
    rewrite IH, list_to_set_cons. split.
    + intros (->&Hall&Hnd). split_and!; [set_solver| | |done].
      * intros j' [->|Hj']%elem_of_cons; [by rewrite Hst|]. set_solver.
      * intros (j'&Heq&Hj')%list_elem_of_fmap. destruct (Hall j' Hj') as (_&Hn&_).
        set_solver.
    + intros (->&Hall&Hn&Hnd). split_and!; [set_solver| |done].
      intros j' Hj'. destruct (Hall j') as (?&?&?); [set_solver|].
      split_and!; [done| |done]. intros [Heq|?]%elem_of_union; [|done].
      apply Hn. apply elem_of_singleton in Heq. rewrite <-Heq.
      by apply list_elem_of_fmap_2.
Qed.

Lemma validate_edges_spec seen es :
  validate_edges seen es = Ok tt ↔
  ∀ e, e ∈ es → dep_from e ∈ seen ∧ dep_to e ∈ seen ∧ dep_from e ≠ dep_to e.
Proof.
  induction es as [|e es IH]; simpl; [set_solver|].
  repeat case_bool_decide; try rewrite IH.
  - split; [done|]. intros H'. destruct (H' e); set_solver.
  - split; [done|]. intros H'. destruct (H' e) as (_&?&_); set_solver.
  - split; [done|]. intros H'. destruct (H' e) as (_&_&?); set_solver.
  - split.
    + intros H' e' [->|He']%elem_of_cons; [|auto].
      split_and!; done.
    + intros H' e' He'. apply H'. set_solver.
Qed.

Lemma validate_unit p u : validate p = Ok u → u = tt.
Proof. by destruct u. Qed.

(** * Properties *)

(** Two pipelines with the same canonical text run the same thing: the same
    header (identity, repository, commit, trust tier and every hashed policy),
    the same jobs in the same canonical order, the same commands in the same
    order and the same edges, provided their own input, output and environment
    names contain neither an equals sign nor a newline. *)
Theorem canonical_same_execution p q :
  pipeline_keys_ok p = true → pipeline_keys_ok q = true →
  canonical p = canonical q → same_execution p q.
Proof.
  intros Hp Hq Heq. rewrite !canonical_render in Heq.
  apply render_inj in Heq; [|by apply pipeline_lines_keys_ok..].
  pose proof (f_equal (values_of "job.id") Heq) as Hids.
  pose proof (f_equal (values_of "job.step.run") Heq) as Hruns.
  pose proof (f_equal (values_of "edge") Heq) as Hedges.
  rewrite !(values_of_job_lines _ _ _ job_lines_job_id), !flat_map_single in Hids
    by done.
  rewrite !(values_of_job_lines _ _ _ job_lines_commands) in Hruns by done.
  rewrite !values_of_edges in Hedges.
  apply app_inj_1 in Heq as [Hhead _]; [|reflexivity].
  apply header_lines_inj in Hhead as (?&?&?&?&?&?&?&?&?&?).
  split; try done. revert Hedges. generalize (isort edge_leb (edges q)).
  induction (isort edge_leb (edges p)) as [|e l IH]; intros [|e' l']; try done.
  rewrite !fmap_cons. intros [= He Hl]. unfold edge_line at 1 3. rewrite He.
  f_equal. by apply IH.
Qed.

(** The FNV-1a content hash changes whenever a single byte of its input is
    replaced by a different one, whatever surrounds it. *)
Theorem hash_detects_byte_change s c c' t :
  c ≠ c' →
  deterministic_hash (s +:+ String c t) ≠ deterministic_hash (s +:+ String c' t).
Proof.
  intros Hne Heq. apply Hne. apply deterministic_hash_eq in Heq.
  rewrite !fnv_loop_app in Heq. cbn [fnv_loop] in Heq.
  apply fnv_loop_inj in Heq; [|apply fnv_step_bound..].
  apply fnv_step_inj in Heq; [|apply fnv_loop_bound; reflexivity..].
  apply code_inj.
  apply (f_equal (N.lxor (fnv_loop fnv_offset s))) in Heq.
  by rewrite <-!N.lxor_assoc, N.lxor_nilpotent, !N.lxor_0_l in Heq.
Qed.

(** The validator against its specification. *)
Lemma validate_valid p : validate p = Ok tt ↔ valid_pipeline p.
Proof.
  unfold validate, str_is_empty.
  case_bool_decide as Hr. { split; [done|]. by intros []. }
  case_bool_decide as Hc. { split; [done|]. by intros []. }
  split.
  - destruct (validate_jobs ∅ (jobs p)) as [seen|] eqn:Hj; [|done].
    apply validate_jobs_spec in Hj as (->&Hall&Hnd).
    rewrite validate_edges_spec. intros Hes.
    split; [done|done| | | |]; [set_solver|done|set_solver|].
    intros e He. destruct (Hes e He) as (?&?&?). split_and!; [set_solver..|done].
  - intros [_ _ Hid Hnd Hst Hes].
    assert (validate_jobs ∅ (jobs p) = Ok (list_to_set (job_id <$> jobs p) ∪ ∅)) as ->.
    { apply validate_jobs_spec. split_and!; [done| |done].
      intros j Hj. split_and!; [auto|set_solver|auto]. }
    apply validate_edges_spec. intros e He.
    destruct (Hes e He) as (?&?&?). split_and!; [set_solver..|done].
Qed.

(** [validate] accepts exactly the structurally valid pipelines: a repository
    and a commit that are not blank, distinct non-blank job ids, at least one
    step per job, and edges between two different known jobs. *)
Theorem validate_ok_iff p : validate p = Ok tt ↔ valid_pipeline p.
Proof.
  rewrite validate_valid. split; intros []; by split.
Qed.

(** ** Witnesses and examples *)

Module IrSamples.
Definition fmt_job : Job :=
  let j := Job_new "fmt" "fmt" RC_NativeRustClean in
  {| job_id := job_id j; job_name := job_name j; runner_class := runner_class j;
     steps := [Step_run "fmt_0" "fmt" "cargo fmt --check"];
     inputs := {[ "channel" := "stable" ]}; outputs := ∅; cache_mounts := [];
     artifact_paths := []; network_policy := NP_Deny; token_scope := TS_ReadRepo;
     timeout_seconds := 3600; retry_policy := RetryPolicy_default |}.
Definition test_job : Job :=
  let j := Job_new "test" "test" RC_NativeRustClean in
  {| job_id := job_id j; job_name := job_name j; runner_class := runner_class j;
     steps := [Step_run "test_0" "test" "cargo test"];
     inputs := ∅; outputs := ∅; cache_mounts := [];
     artifact_paths := []; network_policy := NP_Deny; token_scope := TS_ReadRepo;
     timeout_seconds := 3600; retry_policy := RetryPolicy_default |}.
Definition with_jobs (p : Pipeline) (js : list Job) (es : list Dependency) : Pipeline :=
  {| pipeline_id := pipeline_id p; source := source p; repo := repo p;
     commit := commit p; trust_tier := trust_tier p; jobs := js; edges := es;
     jeryu_cache_policy := jeryu_cache_policy p;
     artifact_policy := artifact_policy p;
     permission_policy := permission_policy p; secret_policy := secret_policy p;
     proof_policy := proof_policy p; signing_policy := signing_policy p |}.
Definition base : Pipeline :=
  Pipeline_new PS_NativeToml "acme/demo" "abc123" TT_InternalBranch.
Definition edge : Dependency := {| dep_from := "fmt"; dep_to := "test" |}.
Definition sample : Pipeline := with_jobs base [test_job; fmt_job] [edge].
Definition shuffled : Pipeline := with_jobs base [fmt_job; test_job] [edge].
End IrSamples.

Lemma canonical_same_execution_witness :
  pipeline_keys_ok IrSamples.sample = true ∧
  same_execution IrSamples.sample IrSamples.shuffled.
Proof.
  split; [by vm_compute|].
  apply (canonical_same_execution IrSamples.sample IrSamples.shuffled);
    by vm_compute.
Defined.

Lemma hash_detects_byte_change_witness :
  deterministic_hash "runner-a" ≠ deterministic_hash "runner-b".
Proof. apply (hash_detects_byte_change "runner-" "a" "b" ""). done. Defined.

(** A separator inside an input name makes two different pipelines
    indistinguishable to [canonical], which is why [pipeline_keys_ok] is asked
    for above. *)
Definition with_input (k v : string) : Pipeline :=
  IrSamples.with_jobs IrSamples.base
    [ {| job_id := "fmt"; job_name := "fmt"; runner_class := RC_NativeRustClean;
         steps := [Step_run "fmt_0" "fmt" "cargo fmt"];
         inputs := {[ k := v ]}; outputs := ∅; cache_mounts := [];
         artifact_paths := []; network_policy := NP_Deny; token_scope := TS_ReadRepo;
         timeout_seconds := 3600; retry_policy := RetryPolicy_default |} ] [].

Lemma canonical_key_collision :
  canonical (with_input "a=b" "c") = canonical (with_input "a" "b=c") ∧
  with_input "a=b" "c" ≠ with_input "a" "b=c".
Proof.
  split; [by vm_compute|]. intros Heq.
  apply (f_equal (λ p, (λ j, inputs j !! "a") <$> jobs p)) in Heq.
  vm_compute in Heq. done.
Qed.

(** The default token scope of the permission policy is not part of the
    canonical text, hence not of the content hash. *)
Lemma ir_hash_ignores_default_token_scope p scope :
  ir_hash {| pipeline_id := pipeline_id p; source := source p; repo := repo p;
             commit := commit p; trust_tier := trust_tier p; jobs := jobs p;
             edges := edges p; jeryu_cache_policy := jeryu_cache_policy p;
             artifact_policy := artifact_policy p;
             permission_policy :=
               {| default_token_scope := scope;
                  fail_closed := fail_closed (permission_policy p) |};
             secret_policy := secret_policy p; proof_policy := proof_policy p;
             signing_policy := signing_policy p |} = ir_hash p.
Proof. reflexivity. Qed.

(** Every built-in runner class survives its string form; a custom class may
    not. *)
Lemma builtin_class_stable c : (∀ v, c ≠ RC_Custom v) → stable_class c.
Proof. intros H. destruct c; try reflexivity. by destruct (H value). Qed.

Lemma custom_docker_not_stable : ¬ stable_class (RC_Custom "docker").
Proof. by vm_compute. Qed.
