(* ===== verification/Schedule.v ===== *)
(** Schedule: deterministic scheduling of a pipeline's job graph in rounds
    (src/components/jeryu-ci-runner/crates/jeryu-ci-scheduler/src/schedule.rs).

    The [while !remaining.is_empty()] loop runs on fuel, one unit per round; it
    answers [None] only when the fuel runs out, and [schedule_decides] shows that
    the fuel given, one more than the number of jobs, is always enough. *)

From S2P Require Import Prelude Text CiIr.

Record ScheduleRound := { round_index : nat; round_jobs : list string }.

Record Schedule := { schedule_hash : string; rounds : list ScheduleRound }.

Inductive ScheduleError : Type :=
  | SE_DuplicateJob (job : string)
  | SE_UnknownJob (job : string)
  | SE_Cycle.

Definition ScheduleError_to_string (e : ScheduleError) : string :=
  match e with
  | SE_DuplicateJob job => "duplicate job id: " +:+ job
  | SE_UnknownJob job => "edge references unknown job: " +:+ job
  | SE_Cycle => "pipeline dependency graph contains a cycle"
  end.

(** The first loop: the set of job ids, refusing a repeated id. *)
Fixpoint collect_jobs (remaining : gset string) (js : list Job) :
    result (gset string) ScheduleError :=
  match js with
  | [] => Ok remaining
  | job :: js =>
      if bool_decide (job_id job ∈ remaining) then Err (SE_DuplicateJob (job_id job))
      else collect_jobs ({[job_id job]} ∪ remaining) js
  end.

(** The second loop: the dependencies of each job. *)
Fixpoint collect_dependencies (remaining : gset string)
    (deps : gmap string (gset string)) (es : list Dependency) :
    result (gmap string (gset string)) ScheduleError :=
  match es with
  | [] => Ok deps
  | e :: es =>
      if bool_decide (dep_from e ∉ remaining) then Err (SE_UnknownJob (dep_from e))
      else if bool_decide (dep_to e ∉ remaining) then Err (SE_UnknownJob (dep_to e))
      else collect_dependencies remaining
             (<[dep_to e := {[dep_from e]} ∪ default ∅ (deps !! dep_to e)]> deps) es
  end.

Definition job_ready (deps : gmap string (gset string)) (completed : gset string)
    (job : string) : bool :=
  match deps !! job with
  | None => true
  | Some d => bool_decide (d ⊆ completed)
  end.

Definition ready_jobs (deps : gmap string (gset string))
    (remaining completed : gset string) : list string :=
  filter (λ job, job_ready deps completed job = true) (bset_iter remaining).

(** [for job in &ready]: the job leaves [remaining] and enters [completed]. *)
Definition complete_ready (ready : list string) (rc : gset string * gset string) :
    gset string * gset string :=
  foldl (λ rc job, (rc.1 ∖ {[job]}, {[job]} ∪ rc.2)) rc ready.

Fixpoint rounds_loop (fuel : nat) (deps : gmap string (gset string))
    (remaining completed : gset string) (rounds : list ScheduleRound) :
    option (result (list ScheduleRound) ScheduleError) :=
  match fuel with
  | O => None
  | S fuel' =>
      if bool_decide (remaining = ∅) then Some (Ok rounds)
      else
        let ready := ready_jobs deps remaining completed in
        match ready with
        | [] => Some (Err SE_Cycle)
        | _ :: _ =>
            let rc := complete_ready ready (remaining, completed) in
            rounds_loop fuel' deps rc.1 rc.2
              (rounds ++ [{| round_index := length rounds; round_jobs := ready |}])
        end
  end.

Definition round_text (round : ScheduleRound) : string :=
  show_N (N.of_nat (round_index round)) +:+ "=" +:+ join "," (round_jobs round)
  +:+ newline_str.

Definition schedule_canonical (p : Pipeline) (rounds : list ScheduleRound) : string :=
  foldl (λ out round, out +:+ round_text round) (ir_hash p +:+ newline_str) rounds.

Definition deterministic_schedule (p : Pipeline) :
    option (result Schedule ScheduleError) :=
  match collect_jobs ∅ (jobs p) with
  | Err e => Some (Err e)
  | Ok remaining =>
      match collect_dependencies remaining ∅ (edges p) with
      | Err e => Some (Err e)
      | Ok deps =>
          match rounds_loop (S (size remaining)) deps remaining ∅ [] with
          | None => None
          | Some (Err e) => Some (Err e)
          | Some (Ok rounds) =>
              Some (Ok {| schedule_hash :=
                            deterministic_hash (schedule_canonical p rounds);
                          rounds := rounds |})
          end
      end
  end.

(** * Specification *)

Definition job_ids (p : Pipeline) : list string := job_id <$> jobs p.

(** [a] must finish before [b]. *)
Definition depends (p : Pipeline) (a b : string) : Prop :=
  ∃ e, e ∈ edges p ∧ dep_from e = a ∧ dep_to e = b.

Definition acyclic (p : Pipeline) : Prop := ∀ a, ¬ tc (depends p) a a.

Record schedulable_ids (p : Pipeline) : Prop := {
  si_unique : NoDup (job_ids p);
  si_known : ∀ e, e ∈ edges p → dep_from e ∈ job_ids p ∧ dep_to e ∈ job_ids p
}.

(** The first id that is there already. *)
Definition first_duplicate (ids : list string) (j : string) : Prop :=
  ∃ before after, ids = before ++ j :: after ∧ NoDup before ∧ j ∈ before.

(** The first edge with an end that is no job, and that end, the [from] side first. *)
Definition first_unknown (p : Pipeline) (j : string) : Prop :=
  ∃ before e after, edges p = before ++ e :: after
    ∧ (∀ x, x ∈ before → dep_from x ∈ job_ids p ∧ dep_to x ∈ job_ids p)
    ∧ (dep_from e ∉ job_ids p ∧ j = dep_from e
       ∨ dep_from e ∈ job_ids p ∧ dep_to e ∉ job_ids p ∧ j = dep_to e).

(** [b] is one of the jobs of round number [k]. *)
Definition in_round (rs : list ScheduleRound) (k : nat) (b : string) : Prop :=
  ∃ r, rs !! k = Some r ∧ b ∈ round_jobs r.

(** The layering that the loop computes, with [r] the jobs still to place and
    [c] the jobs already placed. *)
Inductive layered (deps : gmap string (gset string)) :
    nat → gset string → gset string → list ScheduleRound → Prop :=
  | layered_nil n c : layered deps n ∅ c []
  | layered_cons n r c rs :
      ready_jobs deps r c ≠ [] →
      layered deps (S n) (r ∖ list_to_set (ready_jobs deps r c))
        (list_to_set (ready_jobs deps r c) ∪ c) rs →
      layered deps n r c
        ({| round_index := n; round_jobs := ready_jobs deps r c |} :: rs).

(** * Lemmas *)

Lemma collect_jobs_spec seen js seen' :
  collect_jobs seen js = Ok seen' ↔
  seen' = list_to_set (job_id <$> js) ∪ seen
  ∧ (∀ j, j ∈ js → job_id j ∉ seen) ∧ NoDup (job_id <$> js).
Proof.
  revert seen. induction js as [|j js IH]; intros seen.
  - simpl. split.
    + intros [= <-]. split_and!; [set_solver|set_solver|constructor].
    + intros (->&_&_). f_equal. set_solver.
  - cbn [collect_jobs]. rewrite fmap_cons, NoDup_cons.
    case_bool_decide as Hseen.
    { split; [done|]. intros (_&H&_). by destruct (H j); [set_solver|]. }
    rewrite IH, list_to_set_cons. split.
    + intros (->&Hall&Hnd). split_and!; [set_solver| | |done].
      * intros j' [->|Hj']%elem_of_cons; set_solver.
      * intros (j'&Heq&Hj')%list_elem_of_fmap. specialize (Hall j' Hj'). set_solver.
    + intros (->&Hall&Hn&Hnd). split_and!; [set_solver| |done].
      intros j' Hj' [Heq|?]%elem_of_union; [|set_solver].
      apply Hn. apply elem_of_singleton in Heq. rewrite <-Heq.
      by apply list_elem_of_fmap_2.
Qed.

Lemma collect_jobs_err seen js e :
  collect_jobs seen js = Err e ↔
  ∃ before j after, job_id <$> js = before ++ j :: after ∧ NoDup before
    ∧ (∀ x, x ∈ before → x ∉ seen) ∧ (j ∈ before ∨ j ∈ seen) ∧ e = SE_DuplicateJob j.
Proof.
  revert seen. induction js as [|j js IH]; intros seen; cbn [collect_jobs fmap list_fmap].
  { split; [done|]. by intros ([]&?&?&?&_). }
  case_bool_decide as Hseen.
  - split.
    + intros [= <-]. exists [], (job_id j), (job_id <$> js). split_and!; [done|constructor| |by right|done].
      by intros x ?%elem_of_nil.
    + intros (before&i&after&Heq&_&Hb&_&->). destruct before as [|b before]; [by injection Heq as <- _|].
      injection Heq as <- _. by destruct (Hb (job_id j)); [left|].
  - rewrite IH. split.
    + intros (before&i&after&Heq&Hnd&Hb&Hi&->). exists (job_id j :: before), i, after.
      rewrite Heq. split_and!; [done| | | |done].
      * constructor; [|done]. intros Hin. specialize (Hb _ Hin). set_solver.
      * intros x [->|Hx]%elem_of_cons; [done|]. specialize (Hb _ Hx). set_solver.
      * set_solver.
    + intros (before&i&after&Heq&Hnd&Hb&Hi&->). destruct before as [|b before].
      { injection Heq as <- _. by destruct Hi as [?%elem_of_nil|]. }
      injection Heq as <- Heq. apply NoDup_cons in Hnd as [Hn Hnd].
      exists before, i, after. split_and!; [done|done| | |done]; set_solver.
Qed.

Lemma collect_dependencies_err remaining deps es e :
  collect_dependencies remaining deps es = Err e ↔
  ∃ before d after j, es = before ++ d :: after
    ∧ (∀ x, x ∈ before → dep_from x ∈ remaining ∧ dep_to x ∈ remaining)
    ∧ (dep_from d ∉ remaining ∧ j = dep_from d
       ∨ dep_from d ∈ remaining ∧ dep_to d ∉ remaining ∧ j = dep_to d)
    ∧ e = SE_UnknownJob j.
Proof.
  revert deps. induction es as [|d es IH]; intros deps; cbn [collect_dependencies].
  { split; [done|]. by intros ([]&?&?&?&?&_). }
  assert (Hhead : ∀ before d' after, d :: es = before ++ d' :: after →
    (∀ x, x ∈ before → dep_from x ∈ remaining ∧ dep_to x ∈ remaining) →
    ¬ (dep_from d ∈ remaining ∧ dep_to d ∈ remaining) → d' = d).
  { intros [|x before] d' after Heq Hb Hn; injection Heq as -> _; [done|]. destruct Hn. apply Hb. by left. }
  assert (Hfirst : ∀ j, ¬ (dep_from d ∈ remaining ∧ dep_to d ∈ remaining) →
    (dep_from d ∉ remaining ∧ j = dep_from d
     ∨ dep_from d ∈ remaining ∧ dep_to d ∉ remaining ∧ j = dep_to d) →
    Err (SE_UnknownJob j) = (Err e : result (gmap string (gset string)) ScheduleError) ↔
    ∃ before d' after j, d :: es = before ++ d' :: after
      ∧ (∀ x, x ∈ before → dep_from x ∈ remaining ∧ dep_to x ∈ remaining)
      ∧ (dep_from d' ∉ remaining ∧ j = dep_from d'
         ∨ dep_from d' ∈ remaining ∧ dep_to d' ∉ remaining ∧ j = dep_to d')
      ∧ e = SE_UnknownJob j).
  { intros j Hn Hj. split.
    - intros [= <-]. exists [], d, es, j. split_and!; [done|by intros x ?%elem_of_nil|done|done].
    - intros (before&d'&after&j'&Heq&Hb&Hj'&->).
      rewrite (Hhead _ _ _ Heq Hb Hn) in Hj'. do 2 f_equal. naive_solver. }
  case_bool_decide as Hf; [apply Hfirst; naive_solver|].
  case_bool_decide as Ht; [apply Hfirst; [naive_solver|]; right; split_and!;
    [by destruct (decide (dep_from d ∈ remaining))|done|done]|].
  assert (Hf' : dep_from d ∈ remaining) by (by destruct (decide (dep_from d ∈ remaining))).
  assert (Ht' : dep_to d ∈ remaining) by (by destruct (decide (dep_to d ∈ remaining))).
  rewrite IH. split.
  - intros (before&d'&after&j&->&Hb&Hj&->). exists (d :: before), d', after, j.
    split_and!; [done| |done|done]. by intros x [->|Hx]%elem_of_cons; [|apply Hb].
  - intros (before&d'&after&j&Heq&Hb&Hj&->). destruct before as [|x before].
    { injection Heq as <- _. naive_solver. }
    injection Heq as <- ->. exists before, d', after, j. split_and!; [done| |done|done].
    intros x Hx. apply Hb. by right.
Qed.

Lemma first_duplicate_unique (before before' after after' : list string) i j :
  before ++ i :: after = before' ++ j :: after' → NoDup before → NoDup before' →
  i ∈ before → j ∈ before' → i = j.
Proof.
  assert (Hlate : ∀ (l l' k k' : list string) x y, l ++ x :: k = l' ++ y :: k' →
    (∃ m, l = l' ++ m ∧ y :: k' = m ++ x :: k) → NoDup l → y ∈ l' → x = y).
  { intros l l' k k' x y _ ([|z m]&->&Heq) Hnd Hy; [by injection Heq as -> _|].
    injection Heq as -> _. apply NoDup_app in Hnd as (_&Hnd&_). by destruct (Hnd z Hy); left. }
  intros Heq Hb Hb' Hi Hj. pose proof Heq as [H|H]%app_eq_inv.
  - by eapply (Hlate before before').
  - symmetry. by eapply (Hlate before' before).
Qed.

Definition deps_of (deps : gmap string (gset string)) (b : string) : gset string :=
  default ∅ (deps !! b).

Lemma job_ready_spec deps c b :
  job_ready deps c b = true ↔ deps_of deps b ⊆ c.
Proof.
  unfold job_ready, deps_of. destruct (deps !! b); simpl.
  - apply bool_decide_eq_true.
  - split; [set_solver|done].
Qed.

Lemma collect_dependencies_spec remaining deps es deps' :
  collect_dependencies remaining deps es = Ok deps' →
  (∀ e, e ∈ es → dep_from e ∈ remaining ∧ dep_to e ∈ remaining)
  ∧ ∀ a b, a ∈ deps_of deps' b ↔
      a ∈ deps_of deps b ∨ ∃ e, e ∈ es ∧ dep_from e = a ∧ dep_to e = b.
Proof.
  revert deps. induction es as [|e es IH]; intros deps; simpl.
  - intros [= <-]. split; set_solver.
  - case_bool_decide; [done|]. case_bool_decide; [done|].
    intros [Hk Hd]%IH. split.
    + intros e' [->|He']%elem_of_cons; auto.
    + intros a b. rewrite Hd. unfold deps_of at 1.
      rewrite lookup_insert. case_decide as Hb; simpl.
      * subst b. fold (deps_of deps (dep_to e)). set_solver.
      * fold (deps_of deps b). set_solver.
Qed.

Lemma collect_dependencies_ok remaining deps es :
  (∀ e, e ∈ es → dep_from e ∈ remaining ∧ dep_to e ∈ remaining) →
  is_ok (collect_dependencies remaining deps es) = true.
Proof.
  revert deps. induction es as [|e es IH]; intros deps Hk; simpl; [done|].
  destruct (Hk e) as [??]; [set_solver|].
  rewrite !bool_decide_eq_false_2 by auto. apply IH. set_solver.
Qed.

Lemma complete_ready_spec ready r c :
  complete_ready ready (r, c) = (r ∖ list_to_set ready, list_to_set ready ∪ c).
Proof.
  unfold complete_ready. revert r c.
  induction ready as [|j l IH]; intros r c; simpl; [f_equal; set_solver|].
  rewrite IH. f_equal; set_solver.
Qed.

Lemma elem_of_ready deps r c b :
  b ∈ ready_jobs deps r c ↔ b ∈ r ∧ deps_of deps b ⊆ c.
Proof.
  unfold ready_jobs. rewrite list_elem_of_filter, elem_of_bset_iter, job_ready_spec.
  naive_solver.
Qed.

Lemma ready_NoDup deps r c : NoDup (ready_jobs deps r c).
Proof. apply NoDup_filter, bset_iter_NoDup. Qed.

Lemma rounds_loop_ok fuel deps r c acc out :
  rounds_loop fuel deps r c acc = Some (Ok out) →
  ∃ rs, out = acc ++ rs ∧ layered deps (length acc) r c rs.
Proof.
  revert r c acc. induction fuel as [|fuel IH]; intros r c acc; simpl; [done|].
  case_bool_decide as Hr.
  { intros [= <-]. subst r. exists []. rewrite app_nil_r. split; [done|constructor]. }
  rewrite complete_ready_spec. simpl.
  destruct (ready_jobs deps r c) as [|j l] eqn:Hready; [done|].
  intros (rs&->&Hrs)%IH. rewrite length_app, Nat.add_1_r in Hrs.
  eexists. rewrite <-app_assoc. split; [done|].
  rewrite <-Hready in *. constructor; [congruence|done].
Qed.

(** Every round places at least one job, so [size r] rounds are enough. *)
Lemma rounds_loop_total fuel deps r c acc :
  size r < fuel → is_Some (rounds_loop fuel deps r c acc).
Proof.
  revert r c acc. induction fuel as [|fuel IH]; intros r c acc Hs; simpl; [lia|].
  case_bool_decide as Hr; [eauto|].
  destruct (ready_jobs deps r c) as [|j l] eqn:Hready; [eauto|].
  rewrite complete_ready_spec, <-Hready. cbn [fst snd]. apply IH.
  assert (j ∈ r). { apply (elem_of_ready deps r c). rewrite Hready. set_solver. }
  assert (size (r ∖ list_to_set (ready_jobs deps r c)) < size r); [|lia].
  apply subset_size. split; [set_solver|]. intros Hsub.
  specialize (Hsub j ltac:(done)). rewrite Hready in Hsub. set_solver.
Qed.

(** A loop that gives up is stuck on a set of jobs that all wait for each
    other. *)
Lemma rounds_loop_cycle fuel deps r c acc e :
  rounds_loop fuel deps r c acc = Some (Err e) →
  e = SE_Cycle ∧ ∃ r' c', r' ≠ ∅ ∧ r' ⊆ r ∧ r ∪ c ⊆ r' ∪ c'
    ∧ ∀ b, b ∈ r' → ¬ deps_of deps b ⊆ c'.
Proof.
  revert r c acc. induction fuel as [|fuel IH]; intros r c acc; simpl; [done|].
  case_bool_decide as Hr; [done|].
  destruct (ready_jobs deps r c) as [|j l] eqn:Hready.
  - intros [= <-]. split; [done|]. exists r, c. split_and!; [done..|].
    intros b Hb Hsub. assert (b ∈ ready_jobs deps r c); [by apply elem_of_ready|].
    rewrite Hready in *. set_solver.
  - rewrite complete_ready_spec. intros (->&r'&c'&?&?&?&?)%IH. split; [done|].
    exists r', c'. split_and!; [done|set_solver| |done].
    intros x Hx. destruct (decide (x ∈ (list_to_set (j :: l) : gset string))); set_solver.
Qed.

(** ** What a layering is *)

Lemma layered_perm deps n r c rs :
  layered deps n r c rs → concat (round_jobs <$> rs) ≡ₚ elements r.
Proof.
  induction 1 as [n c|n r c rs Hne _ IH]; [done|]. simpl. rewrite IH.
  rewrite <-(list_to_set_elements_L r) at 2.
  apply NoDup_Permutation.
  - apply NoDup_app. split_and!; [apply ready_NoDup|set_solver|apply NoDup_elements].
  - apply NoDup_elements.
  - intros x. rewrite elem_of_app, !elem_of_elements, list_to_set_elements_L.
    rewrite elem_of_difference, elem_of_list_to_set.
    destruct (decide (x ∈ ready_jobs deps r c)) as [Hx|Hx]; [|naive_solver].
    split; [|auto]. intros _. by apply elem_of_ready in Hx as [??].
Qed.

Lemma layered_index deps n r c rs i rd :
  layered deps n r c rs → rs !! i = Some rd → round_index rd = n + i.
Proof.
  intros Hl. revert i. induction Hl as [n c|n r c rs _ _ IH]; intros i; [done|].
  destruct i as [|i]; simpl; [intros [= <-]; simpl; lia|].
  intros ->%IH. lia.
Qed.

Lemma layered_nonempty deps n r c rs rd :
  layered deps n r c rs → rd ∈ rs → round_jobs rd ≠ [].
Proof. induction 1; [set_solver|]. intros [->|?]%elem_of_cons; auto. Qed.

Lemma layered_sorted deps n r c rs rd :
  layered deps n r c rs → rd ∈ rs →
  StronglySorted (λ a b, String.leb a b = true) (round_jobs rd).
Proof.
  induction 1 as [|n r c rs _ _ IH]; [set_solver|].
  intros [->|?]%elem_of_cons; [|auto]. simpl. unfold ready_jobs.
  generalize (bset_iter_sorted r).
  induction (bset_iter r) as [|x l IHl]; intros Hs; [constructor|].
  apply StronglySorted_cons in Hs as [Hx Hs]. rewrite filter_cons.
  case_decide; [|auto]. constructor; [auto|].
  apply Forall_forall. intros y [_ Hy]%list_elem_of_filter.
  rewrite Forall_forall in Hx. auto.
Qed.

Lemma in_round_lookup rs k b :
  in_round rs k b → b ∈ concat (round_jobs <$> rs).
Proof.
  intros (r&Hr&Hb). apply elem_of_concat. exists (round_jobs r).
  split; [done|]. apply list_elem_of_fmap_2. by apply list_elem_of_lookup_2 in Hr.
Qed.

Lemma in_round_cons r rs k b :
  in_round (r :: rs) k b ↔
  match k with O => b ∈ round_jobs r | S k => in_round rs k b end.
Proof. unfold in_round. destruct k; simpl; naive_solver. Qed.

Lemma layered_mem deps n r c rs k b :
  layered deps n r c rs → in_round rs k b → b ∈ r.
Proof.
  intros Hl Hb%in_round_lookup. rewrite (layered_perm _ _ _ _ _ Hl) in Hb.
  by rewrite elem_of_elements in Hb.
Qed.

Lemma layered_exists deps n r c rs b :
  layered deps n r c rs → b ∈ r → ∃ k, in_round rs k b.
Proof.
  intros Hl Hb. rewrite <-elem_of_elements, <-(layered_perm _ _ _ _ _ Hl) in Hb.
  apply elem_of_concat in Hb as (l&Hb&Hl').
  apply list_elem_of_fmap in Hl' as (rd&->&Hrd).
  apply list_elem_of_lookup in Hrd as [k Hk]. exists k, rd. auto.
Qed.

(** A dependency that is not completed yet lies in a strictly earlier round. *)
Lemma layered_order deps n r c rs i j a b :
  layered deps n r c rs → r ## c → a ∈ deps_of deps b →
  in_round rs i a → in_round rs j b → i < j.
Proof.
  intros Hl. revert i j. induction Hl as [n c|n r c rs _ Hl IH]; intros i j Hdisj Ha.
  { by intros (?&?&?). }
  rewrite !in_round_cons. simpl. destruct i as [|i], j as [|j]; try lia.
  - intros Hia [_ Hb]%elem_of_ready. apply elem_of_ready in Hia. set_solver.
  - intros Hia%(layered_mem _ _ _ _ _ _ _ Hl) [_ Hb]%elem_of_ready. set_solver.
  - intros Hia Hjb. assert (i < j); [|lia]. apply IH; [|done..]. set_solver.
Qed.

(** No job waits longer than it has to: a job of a later round depends on a job
    of the round just before. *)
Lemma set_not_subset_witness (X Y : gset string) :
  ¬ X ⊆ Y → ∃ x, x ∈ X ∧ x ∉ Y.
Proof.
  intros Hn. destruct (decide (X ∖ Y = ∅)) as [He|He].
  - exfalso. apply Hn. intros x Hx. apply dec_stable. set_solver.
  - apply set_choose_L in He as [x Hx]. exists x. set_solver.
Qed.

Lemma layered_greedy deps n r c rs k b :
  layered deps n r c rs → in_round rs (S k) b →
  ∃ a, a ∈ deps_of deps b ∧ in_round rs k a.
Proof.
  intros Hl. revert k. induction Hl as [n c|n r c rs _ Hl IH]; intros k.
  { by intros (?&?&?). }
  rewrite in_round_cons. intros Hb. destruct k as [|k].
  - pose proof (layered_mem _ _ _ _ _ _ _ Hl Hb) as Hr.
    destruct Hb as (rd&Hrd&Hb). inversion Hl as [|? ? ? rs' ? ? Heq]; subst; [done|].
    simpl in Hrd. injection Hrd as <-. simpl in Hb.
    apply elem_of_ready in Hb as [_ Hd].
    destruct (decide (deps_of deps b ⊆ c)) as [Hc|Hc].
    + exfalso. apply elem_of_difference in Hr as [Hr Hn]. apply Hn.
      apply elem_of_list_to_set, elem_of_ready. done.
    + destruct (set_not_subset_witness _ _ Hc) as (a&Ha&Hna).
      exists a. split; [done|]. apply in_round_cons. simpl. set_solver.
  - destruct (IH k Hb) as (a&Ha&Hk). exists a. split; [done|].
    by apply in_round_cons.
Qed.

(** The layering is a function of the dependency sets. *)
Lemma ready_jobs_ext deps deps' r c :
  (∀ b, deps_of deps b = deps_of deps' b) →
  ready_jobs deps r c = ready_jobs deps' r c.
Proof.
  intros Hd. unfold ready_jobs. apply list_filter_iff. intros b.
  by rewrite !job_ready_spec, Hd.
Qed.

Lemma layered_deterministic deps deps' n r c rs rs' :
  layered deps n r c rs → (∀ b, deps_of deps b = deps_of deps' b) →
  layered deps' n r c rs' → rs = rs'.
Proof.
  intros Hl Hd. revert rs'.
  induction Hl as [n c|n r c rs Hne Hl IH]; intros rs' Hl'.
  - inversion Hl' as [|? ? ? ? Hne]; subst; [done|]. destruct Hne.
    unfold ready_jobs. by rewrite (proj2 (bset_iter_nil ∅)).
  - rewrite (ready_jobs_ext _ _ _ _ Hd) in *.
    inversion Hl' as [|? ? ? rs'' ? Hl'']; subst.
    + destruct Hne. unfold ready_jobs. by rewrite (proj2 (bset_iter_nil ∅)).
    + f_equal. by apply IH.
Qed.

(** ** Finite relations without a source have a cycle *)

Lemma tc_detour (R : relation string) x a b :
  tc (λ a b, R a b ∨ (R a x ∧ R x b)) a b → tc R a b.
Proof.
  induction 1 as [a b [?|[??]]|a b d [?|[??]] _ IH].
  - by apply tc_once.
  - eapply tc_l; [done|]. by apply tc_once.
  - by eapply tc_l.
  - eapply tc_l; [done|]. by eapply tc_l.
Qed.

Lemma finite_cycle (n : nat) (R : relation string) (X : gset string) :
  size X = n → X ≠ ∅ → (∀ x, x ∈ X → ∃ y, y ∈ X ∧ R y x) →
  ∃ x, x ∈ X ∧ tc R x x.
Proof.
  revert R X. induction n as [|n IH]; intros R X Hn Hne Hpred.
  { apply size_empty_inv in Hn. set_solver. }
  apply set_choose_L in Hne as [x Hx]. destruct (Hpred x Hx) as (y&Hy&Hyx).
  destruct (decide (y = x)) as [->|Hyne].
  { exists x. split; [done|]. by apply tc_once. }
  destruct (IH (λ a b, R a b ∨ (R a x ∧ R x b)) (X ∖ {[x]})) as (w&Hw&Hcyc).
  - rewrite size_difference, size_singleton by set_solver. lia.
  - set_solver.
  - intros z Hz. destruct (Hpred z) as (p&Hp&Hpz); [set_solver|].
    destruct (decide (p = x)) as [->|]; [exists y|exists p]; set_solver.
  - exists w. split; [set_solver|]. by apply tc_detour in Hcyc.
Qed.

(** ** From the pipeline to its layering *)

Lemma schedule_inv p s :
  deterministic_schedule p = Some (Ok s) →
  schedulable_ids p ∧ ∃ deps,
    (∀ a b, a ∈ deps_of deps b ↔ depends p a b)
    ∧ layered deps 0 (list_to_set (job_ids p)) ∅ (rounds s)
    ∧ schedule_hash s = deterministic_hash (schedule_canonical p (rounds s)).
Proof.
  unfold deterministic_schedule.
  destruct (collect_jobs ∅ (jobs p)) as [remaining|] eqn:Hj; [|done].
  apply collect_jobs_spec in Hj as (Hrem&_&Hnd).
  rewrite union_empty_r_L in Hrem. subst remaining.
  destruct (collect_dependencies _ ∅ (edges p)) as [deps|] eqn:Hd; [|done].
  apply collect_dependencies_spec in Hd as [Hk Hd].
  destruct (rounds_loop _ _ _ _ _) as [[out|]|] eqn:Hl; [|done..].
  intros [= <-]. apply rounds_loop_ok in Hl as (rs&->&Hl). simpl in *.
  split.
  { split; [done|]. intros e He. destruct (Hk e He). unfold job_ids. set_solver. }
  exists deps. split_and!; [|exact Hl|reflexivity].
  intros a b. rewrite Hd. unfold deps_of, depends. rewrite lookup_empty. set_solver.
Qed.

(** The three possible answers, in terms of the layering loop. *)
Lemma schedule_cases p :
  schedulable_ids p →
  ∃ deps r, (∀ a b, a ∈ deps_of deps b ↔ depends p a b)
    ∧ rounds_loop (S (size (list_to_set (job_ids p) : gset string))) deps
        (list_to_set (job_ids p)) ∅ [] = Some r
    ∧ deterministic_schedule p =
        Some (match r with
              | Ok rs => Ok {| schedule_hash :=
                                 deterministic_hash (schedule_canonical p rs);
                               rounds := rs |}
              | Err e => Err e
              end).
Proof.
  intros [Hnd Hk]. unfold deterministic_schedule.
  assert (collect_jobs ∅ (jobs p) = Ok (list_to_set (job_ids p))) as ->.
  { apply collect_jobs_spec. rewrite union_empty_r_L.
    split_and!; [done|set_solver|done]. }
  pose proof (collect_dependencies_ok (list_to_set (job_ids p)) ∅ (edges p)) as Hok.
  destruct (collect_dependencies _ ∅ (edges p)) as [deps|] eqn:Hd.
  2:{ exfalso. discriminate Hok. intros e' He. destruct (Hk e' He). set_solver. }
  apply collect_dependencies_spec in Hd as [_ Hd].
  destruct (rounds_loop_total (S (size (list_to_set (job_ids p) : gset string)))
    deps (list_to_set (job_ids p)) ∅ []) as [r Hr]; [lia|].
  exists deps, r. rewrite Hr. split_and!; [|done|by destruct r].
  intros a b. rewrite Hd. unfold deps_of, depends. rewrite lookup_empty. set_solver.
Qed.

Lemma depends_known p a b :
  schedulable_ids p → depends p a b → a ∈ job_ids p ∧ b ∈ job_ids p.
Proof. intros [_ Hk] (e&He&<-&<-). auto. Qed.

(** Along a dependency path the round number strictly increases. *)
Lemma layered_path p deps rs a b i j :
  schedulable_ids p → (∀ a b, a ∈ deps_of deps b ↔ depends p a b) →
  layered deps 0 (list_to_set (job_ids p)) ∅ rs →
  tc (depends p) a b → in_round rs i a → in_round rs j b → i < j.
Proof.
  intros Hs Hdeps Hl Hp. revert i.
  induction Hp as [a b Hab|a d b Had _ IH]; intros i Hi Hj.
  - eapply (layered_order _ _ _ _ _ i j); [done|set_solver| |done|done]. by apply Hdeps.
  - destruct (depends_known _ _ _ Hs Had) as [_ Hd].
    destruct (layered_exists _ _ _ _ _ d Hl) as [k Hk]; [set_solver|].
    assert (i < k); [|specialize (IH k Hk Hj); lia].
    eapply (layered_order _ _ _ _ _ i k); [done|set_solver| |done|done]. by apply Hdeps.
Qed.

Lemma schedule_ok_acyclic p s :
  deterministic_schedule p = Some (Ok s) → acyclic p.
Proof.
  intros (Hs&deps&Hdeps&Hl&_)%schedule_inv a Hcyc.
  assert (a ∈ job_ids p) as Ha.
  { inversion Hcyc as [? ? H|? ? ? H _]; subst;
      by destruct (depends_known _ _ _ Hs H). }
  destruct (layered_exists _ _ _ _ _ a Hl) as [k Hk]; [set_solver|].
  specialize (layered_path _ _ _ _ _ _ _ Hs Hdeps Hl Hcyc Hk Hk). lia.
Qed.

Lemma schedule_cycle p :
  schedulable_ids p → deterministic_schedule p = Some (Err SE_Cycle) →
  ∃ a, tc (depends p) a a.
Proof.
  intros Hs Heq. destruct (schedule_cases p Hs) as (deps&r&Hdeps&Hl&Hr).
  rewrite Heq in Hr. destruct r as [|e]; [done|]. injection Hr as <-.
  apply rounds_loop_cycle in Hl as (_&r'&c'&Hne&Hsub&Hcov&Hstuck).
  destruct (finite_cycle (size r') (depends p) r') as (x&_&Hx); [done|done| |eauto].
  intros b Hb. destruct (set_not_subset_witness _ _ (Hstuck b Hb)) as (a&Ha&Hna).
  apply Hdeps in Ha. exists a. split; [|done].
  destruct (depends_known _ _ _ Hs Ha) as [Hka _]. set_solver.
Qed.

Lemma schedule_complete p :
  schedulable_ids p → acyclic p → ∃ s, deterministic_schedule p = Some (Ok s).
Proof.
  intros Hs Ha. destruct (schedule_cases p Hs) as (deps&r&Hdeps&Hl&Hr).
  destruct r as [rs|e]; [eauto|]. exfalso.
  pose proof Hl as (->&_)%rounds_loop_cycle.
  destruct (schedule_cycle p Hs Hr) as [a Hcyc]. by apply (Ha a).
Qed.

Lemma schedule_cyclic p :
  schedulable_ids p → ¬ acyclic p → deterministic_schedule p = Some (Err SE_Cycle).
Proof.
  intros Hs Hna. destruct (schedule_cases p Hs) as (deps&r&Hdeps&Hl&Hr).
  destruct r as [rs|e].
  - destruct Hna. by apply (schedule_ok_acyclic p _ Hr).
  - apply rounds_loop_cycle in Hl as [-> _]. done.
Qed.

(** * Properties *)

(** A schedule places every job in exactly one round, puts both ends of every
    edge in rounds that respect it, numbers the rounds from zero, leaves no
    round empty and lists each round in id order. *)
Theorem schedule_sound p s :
  deterministic_schedule p = Some (Ok s) →
  concat (round_jobs <$> rounds s) ≡ₚ job_ids p
  ∧ (∀ e i j, e ∈ edges p → in_round (rounds s) i (dep_from e) →
       in_round (rounds s) j (dep_to e) → i < j)
  ∧ (∀ i rd, rounds s !! i = Some rd →
       round_index rd = i ∧ round_jobs rd ≠ []
       ∧ StronglySorted (λ a b, String.leb a b = true) (round_jobs rd)).
Proof.
  intros (Hs&deps&Hdeps&Hl&_)%schedule_inv. split_and!.
  - rewrite (layered_perm _ _ _ _ _ Hl).
    apply elements_list_to_set. apply Hs.
  - intros e i j He. eapply layered_order; [done|set_solver|].
    apply Hdeps. by exists e.
  - intros i rd Hi. pose proof (list_elem_of_lookup_2 _ _ _ Hi) as Hin. split_and!.
    + by apply (layered_index _ _ _ _ _ _ _ Hl) in Hi.
    + by apply (layered_nonempty _ _ _ _ _ _ Hl).
    + by apply (layered_sorted _ _ _ _ _ _ Hl).
Qed.

(** The answer, by the first check that fails. *)
Lemma duplicate_answer p j :
  deterministic_schedule p = Some (Err (SE_DuplicateJob j)) ↔ first_duplicate (job_ids p) j.
Proof.
  unfold deterministic_schedule, first_duplicate.
  destruct (collect_jobs ∅ (jobs p)) as [remaining|e] eqn:Hj.
  - split.
    + destruct (collect_dependencies remaining ∅ (edges p)) as [deps|e] eqn:Hd.
      * destruct (rounds_loop _ _ _ _ _) as [[rs|e]|] eqn:Hl; [done| |done].
        apply rounds_loop_cycle in Hl as [-> _]. done.
      * apply collect_dependencies_err in Hd as (?&?&?&?&_&_&_&->). done.
    + apply collect_jobs_spec in Hj as (_&_&Hnd). unfold job_ids. intros (before&after&Heq&_&Hin).
      rewrite Heq in Hnd. apply NoDup_app in Hnd as (_&Hnd&_). by destruct (Hnd j Hin); left.
  - apply collect_jobs_err in Hj as (before&i&after&Heq&Hnd&_&[Hi|?]&->); [|set_solver].
    unfold job_ids. split.
    + intros [= <-]. by exists before, after.
    + intros (before'&after'&Heq'&Hnd'&Hi'). do 3 f_equal.
      apply (first_duplicate_unique before before' after after'); [congruence|done..].
Qed.

Lemma unknown_answer p j :
  deterministic_schedule p = Some (Err (SE_UnknownJob j)) ↔
  NoDup (job_ids p) ∧ first_unknown p j.
Proof.
  unfold deterministic_schedule.
  destruct (collect_jobs ∅ (jobs p)) as [remaining|e] eqn:Hj.
  2:{ apply collect_jobs_err in Hj as (before&i&after&Heq&_&_&[Hi|?]&->); [|set_solver].
      split; [done|]. intros [Hnd _]. unfold job_ids in Hnd. rewrite Heq in Hnd.
      apply NoDup_app in Hnd as (_&Hnd&_). by destruct (Hnd i Hi); left. }
  apply collect_jobs_spec in Hj as (->&_&Hnd).
  assert (Hin : ∀ x, x ∈ (list_to_set (job_id <$> jobs p) ∪ ∅ : gset string) ↔ x ∈ job_ids p)
    by (unfold job_ids; set_solver).
  transitivity (collect_dependencies (list_to_set (job_id <$> jobs p) ∪ ∅) ∅ (edges p)
                = Err (SE_UnknownJob j)).
  - destruct (collect_dependencies _ ∅ (edges p)) as [deps|e]; [|naive_solver].
    destruct (rounds_loop _ _ _ _ _) as [[rs|e]|] eqn:Hl; [done| |done].
    apply rounds_loop_cycle in Hl as [-> _]. done.
  - rewrite collect_dependencies_err. unfold first_unknown. setoid_rewrite Hin. split.
    + intros (before&d&after&i&?&?&?&[= <-]). split; [done|]. by exists before, d, after.
    + intros (_&before&d&after&?&?&?). by exists before, d, after, j.
Qed.

Lemma schedule_answers p : deterministic_schedule p ≠ None.
Proof.
  unfold deterministic_schedule. destruct (collect_jobs _ _) as [remaining|e]; [|done].
  destruct (collect_dependencies _ _ _) as [deps|e]; [|done].
  destruct (rounds_loop_total (S (size remaining)) deps remaining ∅ []) as [r ->]; [lia|].
  by destruct r.
Qed.

(** What is answered otherwise is about schedulable ids. *)
Lemma schedulable_answer p :
  (∃ s, deterministic_schedule p = Some (Ok s)) ∨ deterministic_schedule p = Some (Err SE_Cycle) →
  schedulable_ids p.
Proof.
  unfold deterministic_schedule.
  destruct (collect_jobs ∅ (jobs p)) as [remaining|e] eqn:Hj.
  2:{ apply collect_jobs_err in Hj as (?&?&?&_&_&_&_&->). naive_solver. }
  destruct (collect_dependencies remaining ∅ (edges p)) as [deps|e] eqn:Hd.
  2:{ apply collect_dependencies_err in Hd as (?&?&?&?&_&_&_&->). naive_solver. }
  intros _. apply collect_jobs_spec in Hj as (->&_&Hnd).
  apply collect_dependencies_spec in Hd as [Hk _]. split; [done|].
  intros e He. destruct (Hk e He) as [??]. unfold job_ids. set_solver.
Qed.

(** C32: the scheduler always answers, and its answer is decided by the job graph: it is a
    schedule exactly for distinct ids, known endpoints and acyclic dependencies; the
    duplicate error exactly when an id repeats, with the first id that does; otherwise
    the unknown error exactly when an edge has an end that is no job, with that end of the
    first such edge, its source before its target; and the cycle error exactly when the
    ids are in order and the dependencies are cyclic. *)
Theorem schedule_decides p :
  deterministic_schedule p ≠ None
  ∧ ((∃ s, deterministic_schedule p = Some (Ok s)) ↔ schedulable_ids p ∧ acyclic p)
  ∧ (∀ j, deterministic_schedule p = Some (Err (SE_DuplicateJob j)) ↔
       first_duplicate (job_ids p) j)
  ∧ (∀ j, deterministic_schedule p = Some (Err (SE_UnknownJob j)) ↔
       NoDup (job_ids p) ∧ first_unknown p j)
  ∧ (deterministic_schedule p = Some (Err SE_Cycle) ↔ schedulable_ids p ∧ ¬ acyclic p).
Proof.
  split_and!.
  - apply schedule_answers.
  - split; [|by intros [??]; apply schedule_complete]. intros [s Hs].
    split; [apply schedulable_answer; eauto|by eapply schedule_ok_acyclic].
  - apply duplicate_answer.
  - apply unknown_answer.
  - split; [|by intros [??]; apply schedule_cyclic]. intros Hs.
    assert (Hids : schedulable_ids p) by (apply schedulable_answer; eauto). split; [done|].
    destruct (schedule_cycle p Hids Hs) as [a Ha]. intros Hno. by apply (Hno a).
Qed.

(** Rounds are as early as the graph allows: every job of a round after the
    first waits for some job of the round just before it. *)
Theorem schedule_earliest p s k b :
  deterministic_schedule p = Some (Ok s) → in_round (rounds s) (S k) b →
  ∃ a, depends p a b ∧ in_round (rounds s) k a.
Proof.
  intros (_&deps&Hdeps&Hl&_)%schedule_inv Hb.
  destruct (layered_greedy _ _ _ _ _ _ _ Hl Hb) as (a&Ha&Hk).
  exists a. split; [by apply Hdeps|done].
Qed.

(** A schedule, its hash included, does not depend on the order in which the
    pipeline lists its jobs and its edges. *)
Theorem schedule_order_independent p q s :
  deterministic_schedule p = Some (Ok s) →
  jobs p ≡ₚ jobs q → edges p ≡ₚ edges q → header_lines p = header_lines q →
  deterministic_schedule q = Some (Ok s).
Proof.
  intros Hp Hj He Hh. pose proof (schedule_inv _ _ Hp) as (Hs&dp&Hdp&Hlp&Hhash).
  assert (job_ids p ≡ₚ job_ids q) as Hids by (unfold job_ids; by rewrite Hj).
  assert (∀ a b, depends p a b ↔ depends q a b) as Hdep.
  { intros a b. unfold depends. by setoid_rewrite He. }
  assert (schedulable_ids q) as Hsq.
  { destruct Hs as [Hnd Hk]. split; [by rewrite <-Hids|].
    intros e Hin. rewrite <-He in Hin. rewrite <-Hids. auto. }
  destruct (schedule_complete q Hsq) as [s' Hq].
  { intros a Ha. apply (schedule_ok_acyclic _ _ Hp a).
    revert Ha. generalize a at 1 3. intros a' Ha.
    induction Ha as [x y Hxy|x y z Hxy _ IH].
    - by apply tc_once, Hdep.
    - eapply tc_l; [by apply Hdep|done]. }
  rewrite Hq. do 2 f_equal.
  pose proof (schedule_inv _ _ Hq) as (_&dq&Hdq&Hlq&Hhash').
  assert (rounds s' = rounds s) as Hrs.
  { apply (layered_deterministic dq dp 0 (list_to_set (job_ids q)) ∅); [done|..].
    - intros b. apply set_eq. intros a. by rewrite Hdq, Hdp, Hdep.
    - by rewrite <-(list_to_set_perm_L _ _ Hids). }
  destruct s as [h rs], s' as [h' rs']; simpl in *. subst. f_equal.
  unfold schedule_canonical. f_equal. f_equal. f_equal.
  symmetry. apply ir_hash_perm; [apply Hs|done..].
Qed.

(** ** Witnesses *)

Module ScheduleSamples.
Definition job (id : string) : Job :=
  {| job_id := id; job_name := id; runner_class := RC_NativeRustClean;
     steps := [Step_run (id +:+ "_0") id ("cargo " +:+ id)];
     inputs := ∅; outputs := ∅; cache_mounts := []; artifact_paths := [];
     network_policy := NP_Deny; token_scope := TS_ReadRepo;
     timeout_seconds := 3600; retry_policy := RetryPolicy_default |}.
Definition edge (a b : string) : Dependency := {| dep_from := a; dep_to := b |}.
Definition sample : Pipeline :=
  IrSamples.with_jobs IrSamples.base [job "test"; job "build"; job "fmt"]
    [edge "build" "test"; edge "fmt" "test"].
Definition shuffled : Pipeline :=
  IrSamples.with_jobs IrSamples.base [job "build"; job "test"; job "fmt"]
    [edge "fmt" "test"; edge "build" "test"].
Definition schedule : Schedule :=
  match deterministic_schedule sample with
  | Some (Ok s) => s
  | _ => {| schedule_hash := ""; rounds := [] |}
  end.
End ScheduleSamples.

Example sample_rounds :
  rounds ScheduleSamples.schedule
  = [ {| round_index := 0; round_jobs := ["build"; "fmt"] |};
      {| round_index := 1; round_jobs := ["test"] |} ].
Proof. by vm_compute. Qed.

Lemma schedule_sound_witness :
  concat (round_jobs <$> rounds ScheduleSamples.schedule)
  ≡ₚ job_ids ScheduleSamples.sample.
Proof.
  apply (schedule_sound ScheduleSamples.sample ScheduleSamples.schedule).
  by vm_compute.
Defined.

Lemma schedule_decides_witness :
  ∃ s, deterministic_schedule ScheduleSamples.sample = Some (Ok s).
Proof.
  destruct (schedule_decides ScheduleSamples.sample) as (_ & Hs & _). apply Hs. split.
  - split; [by apply (bool_decide_unpack _); vm_compute|].
    intros e He. repeat (apply elem_of_cons in He as [->|He];
      [split; by apply (bool_decide_unpack _); vm_compute|]).
    by apply elem_of_nil in He.
  - apply (schedule_ok_acyclic _ ScheduleSamples.schedule). by vm_compute.
Defined.

Lemma schedule_earliest_witness :
  ∃ a, depends ScheduleSamples.sample a "test"
       ∧ in_round (rounds ScheduleSamples.schedule) 0 a.
Proof.
  apply (schedule_earliest ScheduleSamples.sample ScheduleSamples.schedule 0 "test").
  - by vm_compute.
  - rewrite sample_rounds. eexists. split; [reflexivity|].
    by apply (bool_decide_unpack _); vm_compute.
Defined.

Lemma schedule_order_independent_witness :
  deterministic_schedule ScheduleSamples.shuffled
  = Some (Ok ScheduleSamples.schedule).
Proof.
  apply (schedule_order_independent ScheduleSamples.sample ScheduleSamples.shuffled).
  - by vm_compute.
  - apply Permutation_swap.
  - apply Permutation_swap.
  - reflexivity.
Defined.
