(* ===== verification/RunnerProtocol.v ===== *)
(** RunnerProtocol: the messages a runner and the scheduler exchange
    (src/components/jeryu-ci-runner/crates/jeryu-runner-protocol/src/lib.rs). *)

From Stdlib Require Import ZArith.
From S2P Require Import Prelude Text CiIr.

Definition PROTOCOL_VERSION : string := "jeryu.runner.v1".

(** * Canonical fields *)

(** Only newlines are escaped here, unlike in the pipeline IR. *)
Definition field (out key value : string) : string :=
  out +:+ key +:+ "=" +:+ replace_char newline escaped_newline value +:+ newline_str.

Definition emit_fields (out : string) (kvs : list (string * string)) : string :=
  foldl (λ out kv, field out kv.1 kv.2) out kvs.

(** * Runner hello *)

Record RunnerHello := {
  hello_runner_id : string;
  hello_protocol_version : string;
  hello_supported_classes : list RunnerClass;
  hello_labels : list string;
  hello_capacity : N
}.

Definition RunnerHello_new (runner_id : string) (classes : list RunnerClass) :
    RunnerHello :=
  {| hello_runner_id := runner_id; hello_protocol_version := PROTOCOL_VERSION;
     hello_supported_classes := classes; hello_labels := []; hello_capacity := 1 |}.

Definition hello_supports (hello : RunnerHello) (class : RunnerClass) : bool :=
  existsb (λ candidate, bool_decide (candidate = class)) (hello_supported_classes hello).

(** * Job requests *)

Record JobRequest := {
  request_id : string;
  req_pipeline_id : string;
  req_run_id : string;
  req_lease_id : string;
  req_job_id : string;
  req_runner_id : string;
  req_runner_epoch : N;
  req_runner_class : RunnerClass;
  req_steps : list Step;
  req_cache_mounts : list CacheMount;
  req_artifact_paths : list ArtifactPath;
  req_env : gmap string string;
  req_timeout_seconds : N
}.

Definition JobRequest_new (pipeline_id run_id lease_id job_id : string)
    (class : RunnerClass) : JobRequest :=
  {| request_id := deterministic_hash
       (join "|" ["job-request"; pipeline_id; run_id; lease_id; job_id]);
     req_pipeline_id := pipeline_id; req_run_id := run_id; req_lease_id := lease_id;
     req_job_id := job_id; req_runner_id := ""; req_runner_epoch := 0;
     req_runner_class := class; req_steps := []; req_cache_mounts := [];
     req_artifact_paths := []; req_env := ∅; req_timeout_seconds := 3600 |}.

Definition assign_runner (r : JobRequest) (runner_id : string) (runner_epoch : N) :
    JobRequest :=
  {| request_id := request_id r; req_pipeline_id := req_pipeline_id r;
     req_run_id := req_run_id r; req_lease_id := req_lease_id r;
     req_job_id := req_job_id r; req_runner_id := runner_id;
     req_runner_epoch := runner_epoch; req_runner_class := req_runner_class r;
     req_steps := req_steps r; req_cache_mounts := req_cache_mounts r;
     req_artifact_paths := req_artifact_paths r; req_env := req_env r;
     req_timeout_seconds := req_timeout_seconds r |}.

Definition request_lines (r : JobRequest) : list (string * string) :=
  [("protocol", PROTOCOL_VERSION);
   ("request_id", request_id r);
   ("pipeline_id", req_pipeline_id r);
   ("run_id", req_run_id r);
   ("lease_id", req_lease_id r);
   ("job_id", req_job_id r);
   ("runner_id", req_runner_id r);
   ("runner_epoch", show_N (req_runner_epoch r));
   ("runner_class", RunnerClass_as_str (req_runner_class r));
   ("timeout_seconds", show_N (req_timeout_seconds r))]
  ++ ((λ kv, ("env." +:+ kv.1, kv.2)) <$> bt_iter (req_env r))
  ++ flat_map (λ step, [("step.id", step_id step); ("step.name", step_name step)]
       ++ opt_line "step.run" (step_command step)
       ++ opt_line "step.uses" (step_uses step)) (req_steps r)
  ++ ((λ m, ("cache", join "|" [mount_name m; mount_path m; mount_fingerprint m]))
        <$> req_cache_mounts r)
  ++ ((λ a, ("artifact", join "|" [artifact_name a; join "," (artifact_files a)]))
        <$> req_artifact_paths r).

Definition request_canonical (r : JobRequest) : string :=
  emit_fields "" (request_lines r).

Definition wire_hash (r : JobRequest) : string :=
  deterministic_hash (request_canonical r).

(** * Heartbeats and results *)

Record Heartbeat := {
  beat_runner_id : string;
  beat_runner_epoch : N;
  beat_run_id : string;
  beat_lease_id : string;
  beat_job_id : string;
  beat_monotonic_millis : N;
  beat_message : string
}.

Inductive JobOutcome : Type :=
  | JO_Success
  | JO_Failed
  | JO_Cancelled
  | JO_TimedOut
  | JO_InfrastructureFailure.

Definition JobOutcome_as_str (o : JobOutcome) : string :=
  match o with
  | JO_Success => "success"
  | JO_Failed => "failed"
  | JO_Cancelled => "cancelled"
  | JO_TimedOut => "timed-out"
  | JO_InfrastructureFailure => "infrastructure-failure"
  end.

Record JobResult := {
  res_runner_id : string;
  res_runner_epoch : N;
  res_run_id : string;
  res_lease_id : string;
  res_job_id : string;
  res_outcome : JobOutcome;
  res_exit_code : option Z;
  res_started_at_millis : N;
  res_finished_at_millis : N;
  res_artifact_digests : list string;
  res_cache_receipts : list string;
  res_log_digest : string
}.

Definition duration_millis (r : JobResult) : N :=
  saturating_sub (res_finished_at_millis r) (res_started_at_millis r).

Definition show_Z (z : Z) : string :=
  if (z <? 0)%Z then "-" +:+ show_N (Z.to_N (- z)) else show_N (Z.to_N z).

(** [{:?}] of an [Option<i32>]. *)
Definition debug_exit_code (c : option Z) : string :=
  match c with None => "None" | Some z => "Some(" +:+ show_Z z +:+ ")" end.

Definition receipt_hash (r : JobResult) : string :=
  deterministic_hash
    (join "|" ["result"; res_runner_id r; show_N (res_runner_epoch r); res_run_id r;
               res_lease_id r; res_job_id r; JobOutcome_as_str (res_outcome r);
               debug_exit_code (res_exit_code r); show_N (res_started_at_millis r);
               show_N (res_finished_at_millis r); join "," (res_artifact_digests r);
               join "," (res_cache_receipts r); res_log_digest r]).

(** * Hello validation *)

Inductive ProtocolError : Type :=
  | VersionMismatch (expected actual : string)
  | UnsupportedRunnerClass (class : string)
  | MissingField (field_name : string).

Definition ProtocolError_to_string (e : ProtocolError) : string :=
  match e with
  | VersionMismatch expected actual =>
      "protocol mismatch: expected " +:+ expected +:+ ", got " +:+ actual
  | UnsupportedRunnerClass class => "unsupported runner class: " +:+ class
  | MissingField field_name => "missing protocol field: " +:+ field_name
  end.

Definition validate_hello (hello : RunnerHello) (requested_class : RunnerClass) :
    result unit ProtocolError :=
  if negb (bool_decide (hello_protocol_version hello = PROTOCOL_VERSION))
  then Err (VersionMismatch PROTOCOL_VERSION (hello_protocol_version hello))
  else if negb (hello_supports hello requested_class)
  then Err (UnsupportedRunnerClass (RunnerClass_as_str requested_class))
  else Ok tt.

#[export] Instance JobOutcome_eq_dec : EqDecision JobOutcome.
Proof. solve_decision. Defined.

(** * Lemmas *)

Lemma hello_supports_spec h c :
  hello_supports h c = true ↔ c ∈ hello_supported_classes h.
Proof.
  unfold hello_supports. rewrite existsb_exists. split.
  - intros (x&Hx&Heq). apply bool_decide_eq_true in Heq as ->.
    by apply list_elem_of_In.
  - intros Hc. exists c. split; [by apply list_elem_of_In|].
    by apply bool_decide_eq_true.
Qed.

Lemma validate_hello_ok h c :
  validate_hello h c = Ok tt ↔
  hello_protocol_version h = PROTOCOL_VERSION ∧ c ∈ hello_supported_classes h.
Proof.
  rewrite <-hello_supports_spec. unfold validate_hello.
  case_bool_decide; destruct (hello_supports h c); naive_solver.
Qed.
