(* ===== verification/Fencing.v ===== *)
(** Fencing: the promise that a token, once it is not current any more, never
    becomes current again. Leases (tokens are leases) and Registry (tokens are a
    node and its epoch) implement the interface; their clients' theorems use the
    one proof below. *)

From S2P Require Import Prelude.

(** A system of states and steps with tokens. [spent] is what makes a token
    useless for good; [usable] restricts the tokens the promise is about. *)
Class Fenced (State Token : Type) := {
  fenced_step : State → State → Prop;
  fenced_inv : State → Prop;
  fenced_usable : Token → Prop;
  fenced_current : State → Token → Prop;
  fenced_spent : State → Token → Prop;
  fenced_step_inv s s' : fenced_step s s' → fenced_inv s → fenced_inv s';
  fenced_spent_not_current s t :
    fenced_inv s → fenced_spent s t → ¬ fenced_current s t;
  fenced_spent_step s s' t :
    fenced_inv s → fenced_step s s' → fenced_spent s t → fenced_spent s' t;
  fenced_current_step s s' t :
    fenced_inv s → fenced_usable t → fenced_step s s' → fenced_current s t →
    fenced_current s' t ∨ fenced_spent s' t
}.

Section fenced.
Context `{Fenced State Token}.
Implicit Types (s : State) (t : Token).

Lemma fenced_steps_inv s s' : rtc fenced_step s s' → fenced_inv s → fenced_inv s'.
Proof. induction 1; eauto using fenced_step_inv. Qed.

Lemma fenced_spent_steps s s' t :
  rtc fenced_step s s' → fenced_inv s → fenced_spent s t → fenced_spent s' t.
Proof. induction 1; eauto using fenced_step_inv, fenced_spent_step. Qed.

Lemma fenced_current_steps s s' t :
  rtc fenced_step s s' → fenced_inv s → fenced_usable t → fenced_current s t →
  fenced_current s' t ∨ fenced_spent s' t.
Proof.
  induction 1 as [s|s1 s2 s3 H12 H23 IH]; intros Hi Hu Hc; [by left|].
  destruct (fenced_current_step _ _ _ Hi Hu H12 Hc) as [Hc2|Hs2];
    pose proof (fenced_step_inv _ _ H12 Hi) as Hi2; [by apply IH|].
  right. by eapply fenced_spent_steps.
Qed.

Lemma fenced_lost_spent s1 s2 t :
  fenced_inv s1 → fenced_usable t → fenced_current s1 t →
  rtc fenced_step s1 s2 → ¬ fenced_current s2 t → fenced_spent s2 t.
Proof.
  intros Hi Hu Hc H12 Hn. by destruct (fenced_current_steps _ _ _ H12 Hi Hu Hc).
Qed.

(** Lost once, lost for good. *)
Lemma fenced_never_again s1 s2 s3 t :
  fenced_inv s1 → fenced_usable t → fenced_current s1 t →
  rtc fenced_step s1 s2 → ¬ fenced_current s2 t → rtc fenced_step s2 s3 →
  fenced_spent s3 t ∧ ¬ fenced_current s3 t.
Proof.
  intros Hi Hu Hc H12 Hn H23.
  pose proof (fenced_lost_spent _ _ _ Hi Hu Hc H12 Hn) as Hs.
  pose proof (fenced_steps_inv _ _ H12 Hi) as Hi2.
  pose proof (fenced_spent_steps _ _ _ H23 Hi2 Hs) as Hs3. split; [done|].
  apply fenced_spent_not_current; [|done]. by apply (fenced_steps_inv s2).
Qed.
End fenced.
