(* ===== verification/Leases.v ===== *)
(** Leases: job leases and retries
    (src/components/jeryu-ci-runner/crates/jeryu-ci-scheduler/src/leases).

    A [&mut self] operation is a function from the book to its result and the
    new book: an error can leave the book changed, as it does when an expired
    lease exhausts the retry budget. The [expect] of [expire] is the [None] of
    an option, shown never to happen on a reachable book. *)

From S2P Require Import Prelude Text CiIr Schedule RunnerProtocol Fencing.

(** * Values (types.rs, error.rs) *)

Record JobLease := {
  lease_id : string;
  lease_job_id : string;
  worker_id : string;
  node_epoch : N;
  lease_attempt : N;
  acquired_at_epoch : N;
  expires_at_epoch : N
}.

#[export] Instance JobLease_eq_dec : EqDecision JobLease.
Proof. solve_decision. Defined.

Inductive JobLeaseState : Type :=
  | Pending
  | Leased (lease : JobLease)
  | Succeeded
  | Failed (attempts : N) (reason : string)
  | Cancelled (attempts : N) (reason : string).

Inductive LeaseEventKind : Type :=
  | EvAcquired
  | EvCompleted
  | EvRequeued
  | EvFailed
  | EvCancelled.

Definition LeaseEventKind_as_str (k : LeaseEventKind) : string :=
  match k with
  | EvAcquired => "acquired"
  | EvCompleted => "completed"
  | EvRequeued => "requeued"
  | EvFailed => "failed"
  | EvCancelled => "cancelled"
  end.

Record LeaseReceipt := {
  receipt_id : string;
  receipt_kind : LeaseEventKind;
  receipt_run_id : string;
  receipt_schedule_hash : string;
  receipt_job_id : string;
  receipt_lease_id : string;
  receipt_attempt : N;
  receipt_worker_id : string;
  receipt_node_epoch : N;
  receipt_at_epoch : N;
  receipt_reason : string;
  request_hash : option string;
  result_hash : option string
}.

(** [push_field] of types.rs is the same text as the protocol's [field]. *)
Definition push_field (out key value : string) : string :=
  out +:+ key +:+ "=" +:+ replace_char newline escaped_newline value +:+ newline_str.

Definition receipt_fields (r : LeaseReceipt) : list (string * string) :=
  [("kind", LeaseEventKind_as_str (receipt_kind r));
   ("run_id", receipt_run_id r);
   ("schedule_hash", receipt_schedule_hash r);
   ("job_id", receipt_job_id r);
   ("lease_id", receipt_lease_id r);
   ("attempt", show_N (receipt_attempt r));
   ("worker_id", receipt_worker_id r);
   ("node_epoch", show_N (receipt_node_epoch r));
   ("at_epoch", show_N (receipt_at_epoch r));
   ("reason", receipt_reason r);
   ("request_hash", default "" (request_hash r));
   ("result_hash", default "" (result_hash r))].

Definition receipt_canonical (r : LeaseReceipt) : string :=
  foldl (λ out kv, push_field out kv.1 kv.2) "" (receipt_fields r).

Definition receipt_digest (r : LeaseReceipt) : string :=
  deterministic_hash (receipt_canonical r).

Record LeasedJobRequest := {
  leased_lease : JobLease;
  leased_request : JobRequest;
  leased_receipt : LeaseReceipt
}.

Inductive LeaseError : Type :=
  | UnknownJob (job : string)
  | AlreadySucceeded (job : string)
  | PermanentlyFailed (job : string)
  | AlreadyCancelled (job : string)
  | InvalidLeaseTime (job : string)
  | LeaseExpired (job : string)
  | ActiveLease (job : string) (worker : string) (expires : N)
  | LeaseMismatch (job : string)
  | ResultMismatch (job : string)
  | FencedOut (job worker : string) (epoch active_epoch : N).

Definition LeaseError_to_string (e : LeaseError) : string :=
  match e with
  | UnknownJob job => "unknown job: " +:+ job
  | AlreadySucceeded job => "job already succeeded: " +:+ job
  | PermanentlyFailed job => "job permanently failed: " +:+ job
  | AlreadyCancelled job => "job already cancelled: " +:+ job
  | InvalidLeaseTime job => "invalid lease time for job: " +:+ job
  | LeaseExpired job => "lease expired for job: " +:+ job
  | ActiveLease job worker expires =>
      "job " +:+ job +:+ " is leased by " +:+ worker +:+ " until " +:+ show_N expires
  | LeaseMismatch job => "lease does not match job: " +:+ job
  | ResultMismatch job => "runner result does not match job: " +:+ job
  | FencedOut job worker epoch active =>
      "runner " +:+ worker +:+ " is fenced out for job " +:+ job +:+ ": epoch "
      +:+ show_N epoch +:+ " != active epoch " +:+ show_N active
  end.

(** * The book (book.rs) *)

Record JobLeaseRecord := {
  attempt : N;
  record_max_attempts : N;
  state : JobLeaseState
}.

Record LeaseBook := {
  run_id : string;
  book_schedule_hash : string;
  book_jobs : gmap string JobLeaseRecord
}.

Definition set_record (book : LeaseBook) (job : string) (r : JobLeaseRecord) : LeaseBook :=
  {| run_id := run_id book; book_schedule_hash := book_schedule_hash book;
     book_jobs := <[job := r]> (book_jobs book) |}.

Definition initial_record (job : Job) : JobLeaseRecord :=
  {| attempt := 0; record_max_attempts := N.max (max_attempts (retry_policy job)) 1;
     state := Pending |}.

Definition initial_jobs (js : list Job) : gmap string JobLeaseRecord :=
  foldl (λ m job, <[job_id job := initial_record job]> m) ∅ js.

(** The first scheduled job that the pipeline does not have, in round order. *)
Definition first_unknown_job (known : gmap string JobLeaseRecord)
    (rs : list ScheduleRound) : option string :=
  find_first (λ job, negb (bool_decide (is_Some (known !! job))))
    (concat (round_jobs <$> rs)).

Definition LeaseBook_new (run : string) (p : Pipeline) (s : Schedule) :
    result LeaseBook LeaseError :=
  let known := initial_jobs (jobs p) in
  match first_unknown_job known (rounds s) with
  | Some job => Err (UnknownJob job)
  | None => Ok {| run_id := run; book_schedule_hash := schedule_hash s;
                  book_jobs := known |}
  end.

Definition retry_or_fail (r : JobLeaseRecord) (reason : string) :
    JobLeaseRecord * LeaseEventKind :=
  if (attempt r <? record_max_attempts r)%N
  then ({| attempt := attempt r + 1; record_max_attempts := record_max_attempts r;
           state := Pending |}, EvRequeued)
  else ({| attempt := attempt r; record_max_attempts := record_max_attempts r;
           state := Failed (attempt r) reason |}, EvFailed).

Definition build_lease (run schedule_hash job worker : string)
    (epoch attempt now ttl : N) : JobLease :=
  {| lease_id := deterministic_hash
       (join "|" ["lease"; run; schedule_hash; job; show_N attempt; worker;
                  show_N epoch; show_N now]);
     lease_job_id := job; worker_id := worker; node_epoch := epoch;
     lease_attempt := attempt; acquired_at_epoch := now;
     expires_at_epoch := saturating_add u64_max now ttl |}.

(** The tail of [acquire_with_epoch]: the record gets a fresh lease. *)
Definition grant (book : LeaseBook) (job worker : string) (epoch now ttl : N)
    (r : JobLeaseRecord) : result JobLease LeaseError * LeaseBook :=
  let n := if (attempt r =? 0)%N then 1%N else attempt r in
  let lease := build_lease (run_id book) (book_schedule_hash book) job worker
                 epoch n now ttl in
  (Ok lease,
   set_record book job {| attempt := n; record_max_attempts := record_max_attempts r;
                          state := Leased lease |}).

Definition acquire_with_epoch (book : LeaseBook) (job worker : string)
    (epoch now ttl : N) : result JobLease LeaseError * LeaseBook :=
  if (ttl =? 0)%N || negb (bool_decide (is_Some (checked_add u64_max now ttl)))
  then (Err (InvalidLeaseTime job), book)
  else
    match book_jobs book !! job with
    | None => (Err (UnknownJob job), book)
    | Some r =>
        match state r with
        | Pending => grant book job worker epoch now ttl r
        | Leased lease =>
            if (now <? acquired_at_epoch lease)%N
            then (Err (InvalidLeaseTime job), book)
            else if (now <? expires_at_epoch lease)%N
            then
              if bool_decide (worker_id lease = worker)
              then
                if negb (node_epoch lease =? epoch)%N
                then (Err (FencedOut job worker epoch (node_epoch lease)), book)
                else (Ok lease, book)
              else (Err (ActiveLease job (worker_id lease) (expires_at_epoch lease)), book)
            else
              let r' := (retry_or_fail r "lease expired").1 in
              match state r' with
              | Failed _ _ => (Err (PermanentlyFailed job), set_record book job r')
              | _ => grant book job worker epoch now ttl r'
              end
        | Succeeded => (Err (AlreadySucceeded job), book)
        | Failed _ _ => (Err (PermanentlyFailed job), book)
        | Cancelled _ _ => (Err (AlreadyCancelled job), book)
        end
    end.

Definition acquire (book : LeaseBook) (job worker : string) (now ttl : N) :
    result JobLease LeaseError * LeaseBook :=
  acquire_with_epoch book job worker 0 now ttl.

Definition active_record (book : LeaseBook) (lease : JobLease) (at_epoch : N) :
    result JobLeaseRecord LeaseError :=
  match book_jobs book !! lease_job_id lease with
  | None => Err (UnknownJob (lease_job_id lease))
  | Some r =>
      if match state r with Leased active => bool_decide (active = lease) | _ => false end
      then
        if (at_epoch <? acquired_at_epoch lease)%N
        then Err (InvalidLeaseTime (lease_job_id lease))
        else if (expires_at_epoch lease <=? at_epoch)%N
        then Err (LeaseExpired (lease_job_id lease))
        else Ok r
      else Err (LeaseMismatch (lease_job_id lease))
  end.

Definition with_state (r : JobLeaseRecord) (s : JobLeaseState) : JobLeaseRecord :=
  {| attempt := attempt r; record_max_attempts := record_max_attempts r; state := s |}.

Definition complete (book : LeaseBook) (lease : JobLease) (at_epoch : N) :
    result unit LeaseError * LeaseBook :=
  match active_record book lease at_epoch with
  | Err e => (Err e, book)
  | Ok r => (Ok tt, set_record book (lease_job_id lease) (with_state r Succeeded))
  end.

Definition fail (book : LeaseBook) (lease : JobLease) (reason : string)
    (at_epoch : N) : result unit LeaseError * LeaseBook :=
  match active_record book lease at_epoch with
  | Err e => (Err e, book)
  | Ok r => (Ok tt, set_record book (lease_job_id lease) (retry_or_fail r reason).1)
  end.

Definition cancel (book : LeaseBook) (lease : JobLease) (reason : string)
    (at_epoch : N) : result unit LeaseError * LeaseBook :=
  match active_record book lease at_epoch with
  | Err e => (Err e, book)
  | Ok r => (Ok tt, set_record book (lease_job_id lease)
                      (with_state r (Cancelled (attempt r) reason)))
  end.

Definition job_state (book : LeaseBook) (job : string) : option JobLeaseState :=
  state <$> book_jobs book !! job.

Definition job_attempt (book : LeaseBook) (job : string) : option N :=
  (λ r, N.max (attempt r) 1) <$> book_jobs book !! job.

Definition lease_receipt (book : LeaseBook) (kind : LeaseEventKind)
    (lease : JobLease) (at_epoch : N) (reason : string)
    (request result : option string) : LeaseReceipt :=
  {| receipt_id := deterministic_hash
       (join "|" ["lease-receipt"; run_id book; book_schedule_hash book;
                  lease_job_id lease; lease_id lease; show_N (lease_attempt lease);
                  show_N (node_epoch lease); LeaseEventKind_as_str kind;
                  show_N at_epoch]);
     receipt_kind := kind; receipt_run_id := run_id book;
     receipt_schedule_hash := book_schedule_hash book;
     receipt_job_id := lease_job_id lease; receipt_lease_id := lease_id lease;
     receipt_attempt := lease_attempt lease; receipt_worker_id := worker_id lease;
     receipt_node_epoch := node_epoch lease; receipt_at_epoch := at_epoch;
     receipt_reason := reason; request_hash := request; result_hash := result |}.

(** The leases a sweep at [at_epoch] finds expired, in job order. *)
Definition expired_lease (at_epoch : N) (r : JobLeaseRecord) : option JobLease :=
  match state r with
  | Leased lease => if (expires_at_epoch lease <=? at_epoch)%N then Some lease else None
  | _ => None
  end.

Definition expired_leases (book : LeaseBook) (at_epoch : N) : list JobLease :=
  omap (expired_lease at_epoch) (bt_values (book_jobs book)).

(** One element of the sweep; [None] is the [expect] on a missing job. *)
Definition expire_one (book : LeaseBook) (lease : JobLease) (at_epoch : N) :
    option (LeaseReceipt * LeaseBook) :=
  match book_jobs book !! lease_job_id lease with
  | None => None
  | Some r =>
      let rk := retry_or_fail r "lease expired" in
      let book' := set_record book (lease_job_id lease) rk.1 in
      Some (lease_receipt book' rk.2 lease at_epoch "lease expired" None None, book')
  end.

Fixpoint expire_all (book : LeaseBook) (leases : list JobLease) (at_epoch : N) :
    option (list LeaseReceipt * LeaseBook) :=
  match leases with
  | [] => Some ([], book)
  | lease :: leases =>
      match expire_one book lease at_epoch with
      | None => None
      | Some (receipt, book') =>
          (λ '(receipts, book''), (receipt :: receipts, book''))
            <$> expire_all book' leases at_epoch
      end
  end.

Definition expire (book : LeaseBook) (at_epoch : N) :
    option (list LeaseReceipt * LeaseBook) :=
  expire_all book (expired_leases book at_epoch) at_epoch.

Definition runner_request_from_job (pipeline_id run : string) (lease : JobLease)
    (job : Job) : JobRequest :=
  let r := assign_runner
             (JobRequest_new pipeline_id run (lease_id lease) (job_id job)
                (runner_class job))
             (worker_id lease) (node_epoch lease) in
  {| request_id := request_id r; req_pipeline_id := req_pipeline_id r;
     req_run_id := req_run_id r; req_lease_id := req_lease_id r;
     req_job_id := req_job_id r; req_runner_id := req_runner_id r;
     req_runner_epoch := req_runner_epoch r; req_runner_class := req_runner_class r;
     req_steps := steps job; req_cache_mounts := cache_mounts job;
     req_artifact_paths := artifact_paths job; req_env := req_env r;
     req_timeout_seconds := timeout_seconds job |}.

Definition runner_request (book : LeaseBook) (p : Pipeline) (lease : JobLease) :
    result JobRequest LeaseError :=
  match find_first (λ job, bool_decide (job_id job = lease_job_id lease)) (jobs p) with
  | None => Err (UnknownJob (lease_job_id lease))
  | Some job =>
      match job_state book (lease_job_id lease) with
      | Some (Leased active) =>
          if bool_decide (lease_id active = lease_id lease)
          then Ok (runner_request_from_job (pipeline_id p) (run_id book) lease job)
          else Err (LeaseMismatch (lease_job_id lease))
      | Some _ => Err (LeaseMismatch (lease_job_id lease))
      | None => Err (UnknownJob (lease_job_id lease))
      end
  end.

Definition acquire_request_with_epoch (book : LeaseBook) (p : Pipeline)
    (job worker : string) (epoch now ttl : N) :
    result LeasedJobRequest LeaseError * LeaseBook :=
  if negb (existsb (λ j, bool_decide (job_id j = job)) (jobs p))
  then (Err (UnknownJob job), book)
  else
    match acquire_with_epoch book job worker epoch now ttl with
    | (Err e, book') => (Err e, book')
    | (Ok lease, book') =>
        match runner_request book' p lease with
        | Err e => (Err e, book')
        | Ok request =>
            (Ok {| leased_lease := lease; leased_request := request;
                   leased_receipt :=
                     lease_receipt book' EvAcquired lease now "runner request leased"
                       (Some (wire_hash request)) None |}, book')
        end
    end.

Definition acquire_request (book : LeaseBook) (p : Pipeline) (job worker : string)
    (now ttl : N) : result LeasedJobRequest LeaseError * LeaseBook :=
  acquire_request_with_epoch book p job worker 0 now ttl.

(** The lease a result speaks for, or the reason it is refused. *)
Definition result_lease (book : LeaseBook) (r : JobResult) :
    result JobLease LeaseError :=
  if negb (bool_decide (res_run_id r = run_id book))
  then Err (ResultMismatch (res_job_id r))
  else
    match job_state book (res_job_id r) with
    | Some (Leased active) =>
        if bool_decide (lease_id active = res_lease_id r)
           && bool_decide (lease_job_id active = res_job_id r)
        then
          if negb (bool_decide (worker_id active = res_runner_id r))
             || negb (node_epoch active =? res_runner_epoch r)%N
          then Err (FencedOut (res_job_id r) (res_runner_id r) (res_runner_epoch r)
                      (node_epoch active))
          else Ok active
        else Err (ResultMismatch (res_job_id r))
    | Some _ => Err (ResultMismatch (res_job_id r))
    | None => Err (UnknownJob (res_job_id r))
    end.

Definition apply_result (book : LeaseBook) (r : JobResult) (at_epoch : N) :
    result LeaseReceipt LeaseError * LeaseBook :=
  match result_lease book r with
  | Err e => (Err e, book)
  | Ok lease =>
      let hash := Some (receipt_hash r) in
      match res_outcome r with
      | JO_Success =>
          match complete book lease at_epoch with
          | (Err e, book') => (Err e, book')
          | (Ok _, book') =>
              (Ok (lease_receipt book' EvCompleted lease at_epoch
                     "runner reported success" None hash), book')
          end
      | JO_Cancelled =>
          match cancel book lease "runner reported cancelled" at_epoch with
          | (Err e, book') => (Err e, book')
          | (Ok _, book') =>
              (Ok (lease_receipt book' EvCancelled lease at_epoch
                     "runner reported cancelled" None hash), book')
          end
      | JO_Failed | JO_TimedOut | JO_InfrastructureFailure =>
          let reason := "runner reported " +:+ JobOutcome_as_str (res_outcome r) in
          match fail book lease reason at_epoch with
          | (Err e, book') => (Err e, book')
          | (Ok _, book') =>
              match job_state book' (res_job_id r) with
              | Some Pending =>
                  (Ok (lease_receipt book' EvRequeued lease at_epoch reason None hash),
                   book')
              | Some (Failed _ _) =>
                  (Ok (lease_receipt book' EvFailed lease at_epoch reason None hash),
                   book')
              | _ => (Err (ResultMismatch (res_job_id r)), book')
              end
          end
      end
  end.

(** * Specification *)

(** The operations of the book, as steps. *)
Inductive lease_step : LeaseBook → LeaseBook → Prop :=
  | step_acquire book job worker epoch now ttl :
      lease_step book (acquire_with_epoch book job worker epoch now ttl).2
  | step_acquire_request book p job worker epoch now ttl :
      lease_step book (acquire_request_with_epoch book p job worker epoch now ttl).2
  | step_complete book lease at_epoch :
      lease_step book (complete book lease at_epoch).2
  | step_fail book lease reason at_epoch :
      lease_step book (fail book lease reason at_epoch).2
  | step_cancel book lease reason at_epoch :
      lease_step book (cancel book lease reason at_epoch).2
  | step_expire book at_epoch receipts book' :
      expire book at_epoch = Some (receipts, book') → lease_step book book'
  | step_result book r at_epoch :
      lease_step book (apply_result book r at_epoch).2.

Definition reachable (book : LeaseBook) : Prop :=
  ∃ run p s book0, LeaseBook_new run p s = Ok book0 ∧ rtc lease_step book0 book.

(** What every record of a reachable book satisfies. *)
Record wf_record (job : string) (r : JobLeaseRecord) : Prop := {
  wf_budget : (1 ≤ record_max_attempts r)%N;
  wf_attempt : (attempt r ≤ record_max_attempts r)%N;
  wf_leased : ∀ lease, state r = Leased lease →
    lease_job_id lease = job ∧ lease_attempt lease = attempt r
    ∧ (1 ≤ attempt r)%N
    ∧ (acquired_at_epoch lease < expires_at_epoch lease ≤ u64_max)%N;
  wf_failed : ∀ n reason, state r = Failed n reason →
    n = attempt r ∧ attempt r = record_max_attempts r;
  wf_cancelled : ∀ n reason, state r = Cancelled n reason →
    n = attempt r ∧ (1 ≤ attempt r)%N;
  wf_succeeded : state r = Succeeded → (1 ≤ attempt r)%N
}.

Definition wf_book (book : LeaseBook) : Prop :=
  map_Forall wf_record (book_jobs book).

Definition terminal (s : JobLeaseState) : bool :=
  match s with Succeeded | Failed _ _ | Cancelled _ _ => true | _ => false end.

(** What one step may do to a record: nothing to a finished one; otherwise the
    attempt number grows, or stays when the record keeps its lease, gives it up
    for good, or is leased for the first time in this attempt. *)
Record record_progress (r r' : JobLeaseRecord) : Prop := {
  pr_budget : record_max_attempts r' = record_max_attempts r;
  pr_attempt : (attempt r ≤ attempt r')%N;
  pr_terminal : terminal (state r) = true → r' = r;
  pr_lease : ∀ lease, state r = Leased lease →
    r' = r ∨ (attempt r < attempt r')%N ∨ terminal (state r') = true
}.

Definition book_progress (b b' : LeaseBook) : Prop :=
  run_id b' = run_id b ∧ book_schedule_hash b' = book_schedule_hash b
  ∧ map_relation (λ _, record_progress) (λ _ _, False) (λ _ _, False)
      (book_jobs b) (book_jobs b').

(** [lease] is the active lease of its job. *)
Definition holds (book : LeaseBook) (lease : JobLease) : Prop :=
  job_state book (lease_job_id lease) = Some (Leased lease).

(** What a sweep does to the whole book, record by record. *)
Definition expire_record (at_epoch : N) (r : JobLeaseRecord) : JobLeaseRecord :=
  match expired_lease at_epoch r with
  | Some _ => (retry_or_fail r "lease expired").1
  | None => r
  end.

Definition expire_book (book : LeaseBook) (at_epoch : N) : LeaseBook :=
  {| run_id := run_id book; book_schedule_hash := book_schedule_hash book;
     book_jobs := expire_record at_epoch <$> book_jobs book |}.

Definition expire_receipt (book : LeaseBook) (at_epoch : N) (r : JobLeaseRecord) :
    option LeaseReceipt :=
  (λ lease, lease_receipt book (retry_or_fail r "lease expired").2 lease at_epoch
              "lease expired" None None) <$> expired_lease at_epoch r.

(** * Records *)

Lemma record_progress_refl r : record_progress r r.
Proof. split; auto; lia. Qed.

Lemma record_progress_trans r1 r2 r3 :
  record_progress r1 r2 → record_progress r2 r3 → record_progress r1 r3.
Proof.
  intros [B1 A1 T1 L1] [B2 A2 T2 L2]. split.
  - congruence.
  - lia.
  - intros HT. pose proof (T1 HT) as ->. auto.
  - intros lease HL. destruct (L1 lease HL) as [Heq|[Hlt|HT]].
    + rewrite Heq in L2. exact (L2 lease HL).
    + right; left; lia.
    + right; right. by rewrite (T2 HT).
Qed.

#[export] Instance record_progress_preorder : PreOrder record_progress.
Proof.
  split; [intros r; apply record_progress_refl|].
  intros r1 r2 r3. apply record_progress_trans.
Qed.

(** A record of [job] may be replaced by [r']. *)
Definition record_ok (job : string) (r r' : JobLeaseRecord) : Prop :=
  wf_record job r → wf_record job r' ∧ record_progress r r'.

(** Unfolds the well-formedness of the records at hand and closes the cases
    that are arithmetic or computation. *)
Ltac record_crush :=
  repeat match goal with
  | H : wf_record _ _ |- _ => destruct H
  | H : ?s = ?s → _ |- _ => specialize (H eq_refl)
  | H : ∀ l, Leased ?x = Leased l → _ |- _ => specialize (H x eq_refl)
  end; naive_solver lia.

Lemma retry_or_fail_ok job r reason lease :
  state r = Leased lease → record_ok job r (retry_or_fail r reason).1.
Proof.
  destruct r as [n m s]; cbn; intros -> Hwf.
  unfold retry_or_fail; cbn. destruct (N.ltb_spec n m); cbn.
  - split; split; cbn in *; record_crush.
  - split; split; cbn in *; record_crush.
Qed.

Lemma with_state_ok job r s lease :
  state r = Leased lease → s = Succeeded ∨ (∃ reason, s = Cancelled (attempt r) reason) →
  record_ok job r (with_state r s).
Proof.
  destruct r as [n m s0]; cbn; intros -> Hs Hwf.
  destruct Hs as [->|[reason ->]]; split; split; cbn in *; record_crush.
Qed.

(** The record [grant] writes, from a pending record or an expired one. *)
Lemma grant_record_ok job r lease n :
  state r = Pending → n = (if (attempt r =? 0)%N then 1%N else attempt r) →
  lease_job_id lease = job → lease_attempt lease = n →
  (acquired_at_epoch lease < expires_at_epoch lease ≤ u64_max)%N →
  record_ok job r {| attempt := n; record_max_attempts := record_max_attempts r;
                     state := Leased lease |}.
Proof.
  destruct r as [k m s]; cbn; intros -> Hn Hj Ha Ht Hwf.
  destruct (N.eqb_spec k 0) as [->|Hk]; subst n; split; split; cbn in *; record_crush.
Qed.

(** * Single updates *)

Definition update (b b' : LeaseBook) : Prop :=
  ∃ job r r', book_jobs b !! job = Some r ∧ record_ok job r r'
              ∧ b' = set_record b job r'.

Lemma book_progress_refl b : book_progress b b.
Proof.
  split_and!; [done..|]. intros job. destruct (book_jobs b !! job); cbn; [|done].
  apply record_progress_refl.
Qed.

Lemma book_progress_trans b1 b2 b3 :
  book_progress b1 b2 → book_progress b2 b3 → book_progress b1 b3.
Proof.
  intros (R1&S1&M1) (R2&S2&M2). split_and!; [congruence..|].
  intros job. specialize (M1 job); specialize (M2 job).
  destruct (book_jobs b1 !! job), (book_jobs b2 !! job), (book_jobs b3 !! job);
    cbn in *; try done. by etrans.
Qed.

#[export] Instance book_progress_preorder : PreOrder book_progress.
Proof.
  split; [intros b; apply book_progress_refl|].
  intros b1 b2 b3. apply book_progress_trans.
Qed.

Lemma update_wf b b' : update b b' → wf_book b → wf_book b' ∧ book_progress b b'.
Proof.
  intros (job&r&r'&Hr&Hok&->) Hwf. destruct (Hok (Hwf job r Hr)) as [Hwf' Hp].
  split.
  - by apply map_Forall_insert_2.
  - split_and!; [done..|]. intros job'. cbn.
    destruct (decide (job = job')) as [<-|Hne].
    + rewrite lookup_insert_eq, Hr. done.
    + rewrite lookup_insert_ne by done.
      destruct (book_jobs b !! job'); cbn; [apply record_progress_refl|done].
Qed.

Lemma updates_wf b b' : rtc update b b' → wf_book b → wf_book b' ∧ book_progress b b'.
Proof.
  induction 1 as [b|b1 b2 b3 H12 _ IH]; intros Hwf; [by split|].
  destruct (update_wf _ _ H12 Hwf) as [Hwf2 Hp]. destruct (IH Hwf2) as [Hwf3 Hp3].
  split; [done|]. by etrans.
Qed.

(** * Every operation is a sequence of updates *)

Lemma record_ok_trans job r1 r2 r3 :
  record_ok job r1 r2 → record_ok job r2 r3 → record_ok job r1 r3.
Proof.
  intros H12 H23 Hwf. destruct (H12 Hwf) as [Hwf2 ?]. destruct (H23 Hwf2).
  split; [done|]. by etrans.
Qed.

Lemma update_once b job r r' :
  book_jobs b !! job = Some r → record_ok job r r' → rtc update b (set_record b job r').
Proof. intros Hr Hok. apply rtc_once. by exists job, r, r'. Qed.

Lemma build_lease_times run sh job worker epoch n now ttl :
  (ttl =? 0)%N = false → is_Some (checked_add u64_max now ttl) →
  (acquired_at_epoch (build_lease run sh job worker epoch n now ttl)
   < expires_at_epoch (build_lease run sh job worker epoch n now ttl) ≤ u64_max)%N.
Proof.
  intros H0%N.eqb_neq [e [-> Hle]%checked_add_Some]. cbn. unfold saturating_add. lia.
Qed.

Lemma grant_update b job worker epoch now ttl r0 r :
  (ttl =? 0)%N = false → is_Some (checked_add u64_max now ttl) →
  book_jobs b !! job = Some r0 → record_ok job r0 r → state r = Pending →
  rtc update b (grant b job worker epoch now ttl r).2.
Proof.
  intros Httl Hsum Hr0 Hok Hs. eapply update_once; [done|].
  eapply record_ok_trans; [done|]. eapply grant_record_ok; [done..|].
  by apply build_lease_times.
Qed.

(** The guard of [acquire_with_epoch] on its times. *)
Definition valid_times (now ttl : N) : Prop :=
  (ttl =? 0)%N = false ∧ is_Some (checked_add u64_max now ttl).

Lemma valid_times_spec now ttl : valid_times now ttl ↔ (0 < ttl ∧ now + ttl ≤ u64_max)%N.
Proof.
  unfold valid_times, is_Some. rewrite N.eqb_neq. setoid_rewrite checked_add_Some.
  naive_solver lia.
Qed.

Lemma acquire_invalid_times b job worker epoch now ttl :
  ¬ valid_times now ttl →
  acquire_with_epoch b job worker epoch now ttl = (Err (InvalidLeaseTime job), b).
Proof.
  unfold valid_times, acquire_with_epoch. intros Hv.
  destruct (ttl =? 0)%N; [done|]. rewrite bool_decide_false by naive_solver. done.
Qed.

Lemma acquire_valid_times b job worker epoch now ttl :
  valid_times now ttl →
  acquire_with_epoch b job worker epoch now ttl =
    match book_jobs b !! job with
    | None => (Err (UnknownJob job), b)
    | Some r =>
        match state r with
        | Pending => grant b job worker epoch now ttl r
        | Leased lease =>
            if (now <? acquired_at_epoch lease)%N then (Err (InvalidLeaseTime job), b)
            else if (now <? expires_at_epoch lease)%N
            then if bool_decide (worker_id lease = worker)
                 then if negb (node_epoch lease =? epoch)%N
                      then (Err (FencedOut job worker epoch (node_epoch lease)), b)
                      else (Ok lease, b)
                 else (Err (ActiveLease job (worker_id lease) (expires_at_epoch lease)), b)
            else match state (retry_or_fail r "lease expired").1 with
                 | Failed _ _ => (Err (PermanentlyFailed job),
                                  set_record b job (retry_or_fail r "lease expired").1)
                 | _ => grant b job worker epoch now ttl (retry_or_fail r "lease expired").1
                 end
        | Succeeded => (Err (AlreadySucceeded job), b)
        | Failed _ _ => (Err (PermanentlyFailed job), b)
        | Cancelled _ _ => (Err (AlreadyCancelled job), b)
        end
    end.
Proof.
  intros [H0 Hs]. unfold acquire_with_epoch. rewrite H0, bool_decide_true by done. done.
Qed.

Lemma retry_or_fail_state r reason :
  state (retry_or_fail r reason).1 =
    (if (attempt r <? record_max_attempts r)%N then Pending
     else Failed (attempt r) reason).
Proof. unfold retry_or_fail. by case_match. Qed.

Lemma acquire_updates b job worker epoch now ttl :
  rtc update b (acquire_with_epoch b job worker epoch now ttl).2.
Proof.
  destruct (decide (valid_times now ttl)) as [Hv|Hv];
    [|by rewrite acquire_invalid_times by done].
  rewrite acquire_valid_times by done. destruct Hv as [H0 Hsum].
  destruct (book_jobs b !! job) as [r|] eqn:Hr; [|done].
  destruct (state r) as [|lease| | |] eqn:Hs; [by eapply grant_update| |done..].
  destruct (now <? acquired_at_epoch lease)%N; [done|].
  destruct (now <? expires_at_epoch lease)%N; [by repeat case_match|].
  destruct (state (retry_or_fail r "lease expired").1) eqn:Hs'.
  - eapply grant_update; eauto using retry_or_fail_ok.
  - rewrite retry_or_fail_state in Hs'. by case_match.
  - rewrite retry_or_fail_state in Hs'. by case_match.
  - eapply update_once; eauto using retry_or_fail_ok.
  - rewrite retry_or_fail_state in Hs'. by case_match.
Qed.

Lemma acquire_request_updates b p job worker epoch now ttl :
  rtc update b (acquire_request_with_epoch b p job worker epoch now ttl).2.
Proof.
  unfold acquire_request_with_epoch. case_match; [done|]. cbn zeta.
  pose proof (acquire_updates b job worker epoch now ttl) as Hu.
  destruct (acquire_with_epoch _ _ _ _ _ _) as [[lease|e] b']; cbn in *; [|done].
  by case_match.
Qed.

(** What a successful [active_record] has checked. *)
Lemma active_record_ok b lease t r :
  active_record b lease t = Ok r ↔
  book_jobs b !! lease_job_id lease = Some r ∧ state r = Leased lease
  ∧ (acquired_at_epoch lease ≤ t < expires_at_epoch lease)%N.
Proof.
  unfold active_record.
  destruct (book_jobs b !! lease_job_id lease) as [r'|]; [|naive_solver].
  destruct (state r') as [|active| | |] eqn:Hs; cbn [andb];
    [split; [done|intros ([= ->]&?&?); congruence]| |
     split; [done|intros ([= ->]&?&?); congruence]..].
  case_bool_decide as Ha; [subst active|split; [done|intros ([= ->]&?&?); congruence]].
  destruct (N.ltb_spec t (acquired_at_epoch lease)); [split; [done|lia]|].
  destruct (N.leb_spec (expires_at_epoch lease) t); [split; [done|lia]|].
  split; [by intros [= ->]|by intros ([= ->]&_)].
Qed.

Lemma complete_updates b lease t : rtc update b (complete b lease t).2.
Proof.
  unfold complete. destruct (active_record b lease t) as [r|] eqn:Ha; [|done].
  apply active_record_ok in Ha as (Hr&Hs&_).
  eapply update_once; eauto using with_state_ok.
Qed.

Lemma fail_updates b lease reason t : rtc update b (fail b lease reason t).2.
Proof.
  unfold fail. destruct (active_record b lease t) as [r|] eqn:Ha; [|done].
  apply active_record_ok in Ha as (Hr&Hs&_).
  eapply update_once; eauto using retry_or_fail_ok.
Qed.

Lemma cancel_updates b lease reason t : rtc update b (cancel b lease reason t).2.
Proof.
  unfold cancel. destruct (active_record b lease t) as [r|] eqn:Ha; [|done].
  apply active_record_ok in Ha as (Hr&Hs&_).
  eapply update_once; eauto 10 using with_state_ok.
Qed.

Lemma apply_result_updates b r t : rtc update b (apply_result b r t).2.
Proof.
  unfold apply_result. destruct (result_lease b r) as [lease|]; [|done].
  pose proof (complete_updates b lease t) as Hco.
  pose proof (λ reason, cancel_updates b lease reason t) as Hca.
  pose proof (λ reason, fail_updates b lease reason t) as Hf.
  destruct (res_outcome r); cbn zeta.
  - by destruct (complete _ _ _) as [[|] ?].
  - specialize (Hf ("runner reported " +:+ JobOutcome_as_str JO_Failed)).
    destruct (fail _ _ _ _) as [[|] ?]; [|done]. by repeat case_match.
  - specialize (Hca "runner reported cancelled"). by destruct (cancel _ _ _ _) as [[|] ?].
  - specialize (Hf ("runner reported " +:+ JobOutcome_as_str JO_TimedOut)).
    destruct (fail _ _ _ _) as [[|] ?]; [|done]. by repeat case_match.
  - specialize (Hf ("runner reported " +:+ JobOutcome_as_str JO_InfrastructureFailure)).
    destruct (fail _ _ _ _) as [[|] ?]; [|done]. by repeat case_match.
Qed.

(** * The sweep *)

Lemma lease_receipt_book b b' kind lease t reason rq rs :
  run_id b = run_id b' → book_schedule_hash b = book_schedule_hash b' →
  lease_receipt b kind lease t reason rq rs = lease_receipt b' kind lease t reason rq rs.
Proof. unfold lease_receipt. by intros -> ->. Qed.

Lemma expired_lease_Some t r lease :
  expired_lease t r = Some lease ↔
  state r = Leased lease ∧ (expires_at_epoch lease ≤ t)%N.
Proof.
  unfold expired_lease. destruct (state r) as [|l| | |]; [naive_solver| |naive_solver..].
  destruct (N.leb_spec (expires_at_epoch l) t); naive_solver lia.
Qed.

(** The loop over [kvs], a part of the records of the book [b0] that [b]
    still agrees with. *)
Lemma expire_all_spec t kvs b :
  NoDup kvs.*1 →
  (∀ k r, (k, r) ∈ kvs → book_jobs b !! k = Some r ∧ wf_record k r) →
  ∃ b', expire_all b (omap (expired_lease t) kvs.*2) t
          = Some (omap (expire_receipt b t) kvs.*2, b')
        ∧ run_id b' = run_id b ∧ book_schedule_hash b' = book_schedule_hash b
        ∧ ∀ k, book_jobs b' !! k =
                 if decide (k ∈ kvs.*1) then expire_record t <$> book_jobs b !! k
                 else book_jobs b !! k.
Proof.
  revert b. induction kvs as [|[k r] kvs IH]; intros b.
  { intros _ _. exists b. split_and!; [done..|]. intros k.
    by rewrite decide_False by set_solver. }
  rewrite !fmap_cons, NoDup_cons. cbn [fst snd]. intros [Hk Hnd] Hin.
  destruct (Hin k r) as [Hr Hwf]; [by left|].
  destruct (expired_lease t r) as [lease|] eqn:He.
  - rewrite !omap_cons, He. unfold expire_receipt at 1. rewrite He.
    apply expired_lease_Some in He as [Hs Hle].
    destruct (wf_leased _ _ Hwf lease Hs) as [Hj _].
    cbn [expire_all fmap option_fmap option_map]. unfold expire_one. rewrite Hj, Hr.
    set (b1 := set_record b k (retry_or_fail r "lease expired").1).
    destruct (IH b1) as (b'&He&Hrun&Hsh&Hjobs); [done| |].
    { intros k' r' Hin'. destruct (Hin k' r') as [? ?]; [by right|].
      split; [|done]. cbn. rewrite lookup_insert_ne; [done|].
      intros ->. apply Hk, list_elem_of_fmap. by exists (k', r'). }
    exists b'. fold b1. rewrite He. split_and!.
    + done.
    + done.
    + done.
    + intros k'. rewrite Hjobs. cbn.
      destruct (decide (k' = k)) as [->|Hne].
      * rewrite decide_False by done. rewrite decide_True by set_solver.
        rewrite lookup_insert_eq, Hr. cbn. unfold expire_record.
        by rewrite (proj2 (expired_lease_Some t r lease)).
      * rewrite lookup_insert_ne by done. repeat case_decide; set_solver.
  - rewrite !omap_cons, He. unfold expire_receipt at 1. rewrite He.
    destruct (IH b) as (b'&He'&Hrun&Hsh&Hjobs); [done|set_solver|].
    exists b'. split_and!; [done..|]. intros k'. rewrite Hjobs.
    destruct (decide (k' = k)) as [->|Hne].
    + rewrite decide_False by done. rewrite decide_True by set_solver.
      rewrite Hr. cbn. unfold expire_record. by rewrite He.
    + repeat case_decide; set_solver.
Qed.

Lemma expire_eq b t :
  wf_book b →
  expire b t = Some (omap (expire_receipt b t) (bt_values (book_jobs b)),
                     expire_book b t).
Proof.
  intros Hwf. unfold expire, expired_leases, bt_values.
  destruct (expire_all_spec t (bt_iter (book_jobs b)) b) as (b'&->&Hrun&Hsh&Hj).
  - apply bt_iter_NoDup_keys.
  - intros k r Hin%elem_of_bt_iter. split; [done|]. by apply Hwf.
  - do 2 f_equal. destruct b' as [run sh js]; cbn in *. unfold expire_book.
    f_equal; [done..|]. apply map_eq. intros k. rewrite Hj, lookup_fmap.
    case_decide as Hk; [done|]. destruct (book_jobs b !! k) eqn:Hl; [|done].
    exfalso. apply Hk. fold (bt_keys (book_jobs b)). apply elem_of_bt_keys; eauto.
Qed.

Lemma expire_record_ok t k r : wf_record k r → wf_record k (expire_record t r)
                                               ∧ record_progress r (expire_record t r).
Proof.
  intros Hwf. unfold expire_record.
  destruct (expired_lease t r) as [lease|] eqn:He; [|by split].
  apply expired_lease_Some in He as [Hs _]. by eapply retry_or_fail_ok.
Qed.

Lemma expire_wf b t : wf_book b → wf_book (expire_book b t) ∧ book_progress b (expire_book b t).
Proof.
  intros Hwf. split.
  - intros k r. cbn. rewrite lookup_fmap. intros (r0&Hr0&->)%fmap_Some.
    by apply expire_record_ok, Hwf.
  - split_and!; [done..|]. intros k. cbn. rewrite lookup_fmap.
    destruct (book_jobs b !! k) eqn:Hk; cbn; [|done].
    by apply (expire_record_ok t k), Hwf.
Qed.

(** * Reachable books *)

Lemma initial_record_wf k job : wf_record k (initial_record job).
Proof. split; cbn; try done; lia. Qed.

Lemma initial_jobs_wf js (m : gmap string JobLeaseRecord) :
  map_Forall wf_record m →
  map_Forall wf_record (foldl (λ m job, <[job_id job := initial_record job]> m) m js).
Proof.
  revert m. induction js as [|job js IH]; intros m Hm; [done|]. cbn.
  apply IH, map_Forall_insert_2; [apply initial_record_wf|done].
Qed.

Lemma LeaseBook_new_wf run p s b : LeaseBook_new run p s = Ok b → wf_book b.
Proof.
  unfold LeaseBook_new. case_match; [done|]. intros [= <-].
  apply initial_jobs_wf, map_Forall_empty.
Qed.

Lemma lease_step_wf b b' : lease_step b b' → wf_book b → wf_book b' ∧ book_progress b b'.
Proof.
  intros Hs Hwf. destruct Hs.
  1-5, 7: by eapply updates_wf; eauto using acquire_updates, acquire_request_updates,
    complete_updates, fail_updates, cancel_updates, apply_result_updates.
  rewrite expire_eq in * by done. simplify_eq. by apply expire_wf.
Qed.

Lemma lease_steps_wf b b' :
  rtc lease_step b b' → wf_book b → wf_book b' ∧ book_progress b b'.
Proof.
  induction 1 as [b|b1 b2 b3 H12 _ IH]; intros Hwf; [by split|].
  destruct (lease_step_wf _ _ H12 Hwf) as [Hwf2 Hp]. destruct (IH Hwf2) as [Hwf3 Hp3].
  split; [done|]. by etrans.
Qed.

Lemma reachable_wf b : reachable b → wf_book b.
Proof.
  intros (run&p&s&b0&Hnew&Hsteps). apply LeaseBook_new_wf in Hnew.
  by apply (lease_steps_wf b0).
Qed.

Lemma reachable_steps b b' : reachable b → rtc lease_step b b' → reachable b'.
Proof.
  intros (run&p&s&b0&Hnew&H0) Hs. exists run, p, s, b0. split; [done|]. by etrans.
Qed.

(** * Fencing *)

(** The attempt [lease] belongs to is over. *)
Definition lost (book : LeaseBook) (lease : JobLease) : Prop :=
  ∃ r, book_jobs book !! lease_job_id lease = Some r
       ∧ ((lease_attempt lease < attempt r)%N ∨ terminal (state r) = true).

Lemma progress_lookup b b' k r :
  book_progress b b' → book_jobs b !! k = Some r →
  ∃ r', book_jobs b' !! k = Some r' ∧ record_progress r r'.
Proof.
  intros (_&_&Hm) Hr. specialize (Hm k). rewrite Hr in Hm.
  destruct (book_jobs b' !! k); cbn in Hm; [eauto|done].
Qed.

Lemma holds_record b lease :
  holds b lease ↔ ∃ r, book_jobs b !! lease_job_id lease = Some r ∧ state r = Leased lease.
Proof. unfold holds, job_state. rewrite fmap_Some. naive_solver. Qed.

Lemma lost_progress b b' lease : book_progress b b' → lost b lease → lost b' lease.
Proof.
  intros Hp (r&Hr&Hl). destruct (progress_lookup _ _ _ _ Hp Hr) as (r'&Hr'&[_ Ha Ht _]).
  exists r'. split; [done|]. destruct Hl as [Hl|Hl]; [left; lia|].
  right. by rewrite (Ht Hl).
Qed.

Lemma holds_progress b b' lease :
  wf_book b → book_progress b b' → holds b lease → holds b' lease ∨ lost b' lease.
Proof.
  intros Hwf Hp (r&Hr&Hs)%holds_record.
  destruct (progress_lookup _ _ _ _ Hp Hr) as (r'&Hr'&Hpr).
  destruct (wf_leased _ _ (Hwf _ _ Hr) _ Hs) as (_&Ha&_).
  destruct (pr_lease _ _ Hpr lease Hs) as [->|Hl].
  - left. apply holds_record. eauto.
  - right. exists r'. split; [done|]. destruct Hl; [left; lia|by right].
Qed.

Lemma lost_not_holds b lease : wf_book b → lost b lease → ¬ holds b lease.
Proof.
  intros Hwf (r&Hr&Hl) (r'&Hr'&Hs)%holds_record. simplify_eq.
  destruct (wf_leased _ _ (Hwf _ _ Hr) _ Hs) as (_&Ha&_).
  rewrite Hs in Hl. destruct Hl; [lia|done].
Qed.

(** A lost lease is refused by every operation that needs one. *)
Lemma not_holds_refused b lease t :
  is_Some (book_jobs b !! lease_job_id lease) → ¬ holds b lease →
  active_record b lease t = Err (LeaseMismatch (lease_job_id lease)).
Proof.
  intros [r Hr] Hn. unfold active_record. rewrite Hr.
  destruct (state r) as [|active| | |] eqn:Hs; [done| |done..].
  rewrite bool_decide_false; [done|]. intros ->. apply Hn, holds_record. eauto.
Qed.

#[export] Program Instance lease_fenced : Fenced LeaseBook JobLease := {|
  fenced_step := lease_step;
  fenced_inv := wf_book;
  fenced_usable := λ _, True;
  fenced_current := holds;
  fenced_spent := lost
|}.
Next Obligation. intros b b' Hs Hwf. by apply (lease_step_wf b). Qed.
Next Obligation. intros b lease. apply lost_not_holds. Qed.
Next Obligation.
  intros b b' lease Hwf Hs. apply lost_progress. by apply lease_step_wf.
Qed.
Next Obligation.
  intros b b' lease Hwf _ Hs. apply holds_progress; [done|]. by apply lease_step_wf.
Qed.

(** C29: fencing. Once a lease that was active is not active any more (it was
    completed, failed, cancelled, or expired and was requeued, taken over or
    given up), no later sequence of operations makes it active again, and every
    [complete], [fail] and [cancel] with it is refused and changes nothing. *)
Theorem stale_lease_fenced b1 b2 b3 lease t reason :
  reachable b1 → holds b1 lease →
  rtc lease_step b1 b2 → ¬ holds b2 lease →
  rtc lease_step b2 b3 →
  ¬ holds b3 lease
  ∧ complete b3 lease t = (Err (LeaseMismatch (lease_job_id lease)), b3)
  ∧ fail b3 lease reason t = (Err (LeaseMismatch (lease_job_id lease)), b3)
  ∧ cancel b3 lease reason t = (Err (LeaseMismatch (lease_job_id lease)), b3).
Proof.
  intros Hr%reachable_wf Hh H12 Hn H23.
  destruct (fenced_never_again b1 b2 b3 lease) as [(r&?&_) Hn3]; [done..|].
  split; [done|]. unfold complete, fail, cancel. by rewrite not_holds_refused.
Qed.

(** Every reachable book is well-formed: attempt numbers stay within a
    budget that is at least one, an active lease names its job and its attempt
    and has a proper time window, and a job fails for good only when its budget
    is spent. A finished job never changes again, and attempts never go down. *)
Theorem leases_invariant b b' job r :
  reachable b → rtc lease_step b b' → book_jobs b !! job = Some r →
  wf_record job r ∧ ∃ r', book_jobs b' !! job = Some r' ∧ wf_record job r'
    ∧ record_max_attempts r' = record_max_attempts r
    ∧ (attempt r ≤ attempt r')%N
    ∧ (terminal (state r) = true → r' = r).
Proof.
  intros Hb%reachable_wf Hs Hr. destruct (lease_steps_wf _ _ Hs Hb) as [Hwf' Hp].
  split; [by apply Hb|].
  destruct (progress_lookup _ _ _ _ Hp Hr) as (r'&Hr'&[? ? ? _]).
  exists r'. split_and!; auto.
Qed.

(** * Acquiring *)

(** When a worker may have the lease of a job, from the record of the job. *)
Inductive acquirable (r : JobLeaseRecord) (worker : string) (epoch now : N) : Prop :=
  | acquirable_pending : state r = Pending → acquirable r worker epoch now
  | acquirable_renewed lease :
      state r = Leased lease → worker_id lease = worker → node_epoch lease = epoch →
      (acquired_at_epoch lease ≤ now < expires_at_epoch lease)%N →
      acquirable r worker epoch now
  | acquirable_expired lease :
      state r = Leased lease →
      (acquired_at_epoch lease ≤ now)%N → (expires_at_epoch lease ≤ now)%N →
      (attempt r < record_max_attempts r)%N → acquirable r worker epoch now.

(** A successful acquisition, taken apart. *)
Lemma acquire_ok_inv b job worker epoch now ttl lease b' :
  wf_book b →
  acquire_with_epoch b job worker epoch now ttl = (Ok lease, b') →
  valid_times now ttl ∧ ∃ r, book_jobs b !! job = Some r
  ∧ ((state r = Leased lease ∧ b' = b ∧ worker_id lease = worker
        ∧ node_epoch lease = epoch
        ∧ (acquired_at_epoch lease ≤ now < expires_at_epoch lease)%N)
     ∨ ∃ r0, (r0 = r ∧ state r = Pending
              ∨ r0 = (retry_or_fail r "lease expired").1
                ∧ (attempt r < record_max_attempts r)%N
                ∧ ∃ old, state r = Leased old ∧ (acquired_at_epoch old ≤ now)%N
                         ∧ (expires_at_epoch old ≤ now)%N)
         ∧ grant b job worker epoch now ttl r0 = (Ok lease, b')).
Proof.
  intros Hwf. destruct (decide (valid_times now ttl)) as [Hv|Hv];
    [|by rewrite acquire_invalid_times by done].
  rewrite acquire_valid_times by done. intros Heq. split; [done|].
  destruct (book_jobs b !! job) as [r|]; [|done]. exists r. split; [done|].
  destruct (state r) as [|old| | |] eqn:Hs; [by eauto 10| |done..].
  destruct (N.ltb_spec now (acquired_at_epoch old)); [done|].
  destruct (N.ltb_spec now (expires_at_epoch old)).
  - case_bool_decide; [|done]. destruct (N.eqb_spec (node_epoch old) epoch); [|done].
    left. by simplify_eq/=.
  - right. rewrite retry_or_fail_state in Heq. unfold retry_or_fail in *.
    destruct (N.ltb_spec (attempt r) (record_max_attempts r)); [|done].
    eauto 15.
Qed.

Lemma grant_inv b job worker epoch now ttl r lease b' :
  grant b job worker epoch now ttl r = (Ok lease, b') →
  lease = build_lease (run_id b) (book_schedule_hash b) job worker epoch
            (if (attempt r =? 0)%N then 1%N else attempt r) now ttl
  ∧ b' = set_record b job
           {| attempt := if (attempt r =? 0)%N then 1%N else attempt r;
              record_max_attempts := record_max_attempts r; state := Leased lease |}.
Proof. by intros [= <- <-]. Qed.

Lemma set_record_job_state b job r k :
  job_state (set_record b job r) k = if decide (job = k) then Some (state r)
                                     else job_state b k.
Proof.
  unfold job_state; cbn. case_decide as Hk.
  - by rewrite Hk, lookup_insert_eq.
  - by rewrite lookup_insert_ne.
Qed.

Lemma acquire_ok_holds b job worker epoch now ttl lease b' :
  wf_book b → acquire_with_epoch b job worker epoch now ttl = (Ok lease, b') →
  holds b' lease ∧ lease_job_id lease = job ∧ worker_id lease = worker
  ∧ node_epoch lease = epoch
  ∧ (acquired_at_epoch lease ≤ now < expires_at_epoch lease)%N.
Proof.
  intros Hwf Heq. destruct (acquire_ok_inv _ _ _ _ _ _ _ _ Hwf Heq)
    as ([Httl Hsum]&r&Hr&[(Hs&->&Hw&He&Ht)|(r0&_&Hg)]).
  - destruct (wf_leased _ _ (Hwf _ _ Hr) _ Hs) as (Hj&_). split_and!; try done; try lia.
    apply holds_record. rewrite Hj. eauto.
  - destruct (grant_inv _ _ _ _ _ _ _ _ _ Hg) as [Hl ->].
    pose proof (build_lease_times (run_id b) (book_schedule_hash b) job worker epoch
      (if (attempt r0 =? 0)%N then 1%N else attempt r0) now ttl Httl Hsum) as Ht.
    rewrite <-Hl in Ht. assert (lease_job_id lease = job) as Hj by by subst.
    assert (acquired_at_epoch lease = now) as Ha by by subst.
    split_and!; [|done|by subst..|lia|lia].
    unfold holds. by rewrite set_record_job_state, Hj, decide_True.
Qed.

(** A worker gets the lease of a job exactly when the times are valid and the
    job is pending, or already leased to this worker at this epoch and not
    expired, or its lease has expired with retry budget left. *)
Theorem acquire_succeeds_iff b job worker epoch now ttl :
  (∃ lease b', acquire_with_epoch b job worker epoch now ttl = (Ok lease, b')) ↔
  (0 < ttl)%N ∧ (now + ttl ≤ u64_max)%N
  ∧ ∃ r, book_jobs b !! job = Some r ∧ acquirable r worker epoch now.
Proof.
  pose proof (valid_times_spec now ttl) as Hvs.
  trans (valid_times now ttl ∧ ∃ r, book_jobs b !! job = Some r ∧ acquirable r worker epoch now);
    [clear Hvs|tauto]. split.
  - intros (lease&b'&Heq).
    destruct (decide (valid_times now ttl)) as [Hv|Hv];
      [split; [done|]|by rewrite acquire_invalid_times in Heq].
    rewrite acquire_valid_times in Heq by done.
    destruct (book_jobs b !! job) as [r|]; [|done]. exists r. split; [done|].
    destruct (state r) as [|old| | |] eqn:Hs; [by constructor| |done..].
    destruct (N.ltb_spec now (acquired_at_epoch old)); [done|].
    destruct (N.ltb_spec now (expires_at_epoch old)).
    + case_bool_decide; [|done]. destruct (N.eqb_spec (node_epoch old) epoch); [|done].
      by eapply acquirable_renewed.
    + rewrite retry_or_fail_state in Heq.
      destruct (N.ltb_spec (attempt r) (record_max_attempts r)); [|done].
      by eapply acquirable_expired.
  - intros (Hv&r&Hr&Ha). rewrite acquire_valid_times, Hr by done.
    destruct Ha as [Hs|old Hs Hw He [Ha Hx]|old Hs Ha Hx Hn]; rewrite Hs.
    + by do 2 eexists.
    + rewrite (proj2 (N.ltb_ge _ _)), (proj2 (N.ltb_lt _ _)) by lia.
      rewrite bool_decide_true, He, N.eqb_refl by done. by do 2 eexists.
    + rewrite !(proj2 (N.ltb_ge _ _)) by lia.
      rewrite retry_or_fail_state, (proj2 (N.ltb_lt _ _)) by lia. by do 2 eexists.
Qed.

(** Mutual exclusion. A worker that got a lease is its holder: while the lease
    has not expired nobody else, and not the same worker under another epoch,
    can acquire the job, the holder gets the very same lease again, and neither
    attempt changes the book. No other job was touched by the acquisition. *)
Theorem acquire_exclusive b b' job worker epoch now ttl lease :
  reachable b → acquire_with_epoch b job worker epoch now ttl = (Ok lease, b') →
  holds b' lease
  ∧ (∀ other, other ≠ job → book_jobs b' !! other = book_jobs b !! other)
  ∧ (∀ worker' epoch' now' ttl', valid_times now' ttl' →
       (now ≤ now' < expires_at_epoch lease)%N →
       acquire_with_epoch b' job worker' epoch' now' ttl' =
         (if decide (worker' = worker ∧ epoch' = epoch) then Ok lease
          else if decide (worker' = worker)
          then Err (FencedOut job worker' epoch' epoch)
          else Err (ActiveLease job worker (expires_at_epoch lease)), b')).
Proof.
  intros Hwf%reachable_wf Heq.
  destruct (acquire_ok_holds _ _ _ _ _ _ _ _ Hwf Heq) as (Hh&Hj&Hw&He&Ht).
  split_and!; [done| |].
  - intros other Hne. destruct (acquire_ok_inv _ _ _ _ _ _ _ _ Hwf Heq)
      as (_&r&Hr&[(_&->&_)|(r0&_&Hg)]); [done|].
    apply grant_inv in Hg as [_ ->]. cbn. by rewrite lookup_insert_ne.
  - intros worker' epoch' now' ttl' Hv Hn.
    apply holds_record in Hh as (r&Hr&Hs). rewrite Hj in Hr.
    rewrite acquire_valid_times, Hr, Hs by done.
    rewrite (proj2 (N.ltb_ge _ _)), (proj2 (N.ltb_lt _ _)) by lia.
    rewrite Hw, He. case_bool_decide as Hb; [subst worker'|].
    + destruct (N.eqb_spec epoch epoch') as [->|Hne]; cbn.
      * by rewrite decide_True.
      * rewrite decide_False by naive_solver. by rewrite decide_True.
    + rewrite !decide_False by naive_solver. done.
Qed.

(** * Runner results *)

(** The result speaks for [lease], the active lease of its job, in time. *)
Record authorised (book : LeaseBook) (r : JobResult) (t : N) (lease : JobLease) : Prop := {
  au_run : res_run_id r = run_id book;
  au_held : job_state book (res_job_id r) = Some (Leased lease);
  au_lease : lease_id lease = res_lease_id r;
  au_worker : worker_id lease = res_runner_id r;
  au_epoch : node_epoch lease = res_runner_epoch r;
  au_time : (acquired_at_epoch lease ≤ t < expires_at_epoch lease)%N
}.

Definition result_reason (o : JobOutcome) : string :=
  "runner reported " +:+ JobOutcome_as_str o.

(** What an outcome does to the record of its job, and the receipt's kind. *)
Definition outcome_record (o : JobOutcome) (r : JobLeaseRecord) : JobLeaseRecord :=
  match o with
  | JO_Success => with_state r Succeeded
  | JO_Cancelled => with_state r (Cancelled (attempt r) (result_reason o))
  | _ => (retry_or_fail r (result_reason o)).1
  end.

Definition outcome_kind (o : JobOutcome) (r : JobLeaseRecord) : LeaseEventKind :=
  match o with
  | JO_Success => EvCompleted
  | JO_Cancelled => EvCancelled
  | _ => (retry_or_fail r (result_reason o)).2
  end.

Lemma result_lease_ok b r lease :
  wf_book b →
  result_lease b r = Ok lease ↔
  res_run_id r = run_id b ∧ job_state b (res_job_id r) = Some (Leased lease)
  ∧ lease_id lease = res_lease_id r ∧ worker_id lease = res_runner_id r
  ∧ node_epoch lease = res_runner_epoch r.
Proof.
  intros Hwf. unfold result_lease.
  case_bool_decide as Hr; [cbn|split; [done|tauto]].
  destruct (job_state b (res_job_id r)) as [[|active| | |]|] eqn:Hs;
    [split; [done|intros (_&?&_); congruence]|
     |split; [done|intros (_&?&_); congruence]..].
  assert (lease_job_id active = res_job_id r) as Hj.
  { unfold job_state in Hs. apply fmap_Some in Hs as (rec&Hrec&Hs).
    by destruct (wf_leased _ _ (Hwf _ _ Hrec) active (eq_sym Hs)). }
  rewrite (bool_decide_true (lease_job_id active = _)) by done.
  case_bool_decide as Hl; cbn; [|split; [done|naive_solver]].
  case_bool_decide as Hw; cbn; [|split; [done|naive_solver]].
  destruct (N.eqb_spec (node_epoch active) (res_runner_epoch r)); cbn;
    split; try done; naive_solver.
Qed.

Lemma result_lease_err b r lease t :
  wf_book b → result_lease b r = Ok lease → ¬ authorised b r t lease →
  ∃ e, active_record b lease t = Err e.
Proof.
  intros Hwf (Hr&Hs&Hl&Hw&He)%result_lease_ok Hna; [|done].
  destruct (active_record b lease t) as [rec|e] eqn:Ha; [|eauto].
  apply active_record_ok in Ha as (_&_&Ht). exfalso. by apply Hna.
Qed.

Lemma retry_or_fail_kind r reason :
  (retry_or_fail r reason).2 =
    (if (attempt r <? record_max_attempts r)%N then EvRequeued else EvFailed).
Proof. unfold retry_or_fail. by case_match. Qed.

Lemma job_state_of_record b k r : book_jobs b !! k = Some r → job_state b k = Some (state r).
Proof. unfold job_state. by intros ->. Qed.

Lemma apply_failed_outcome b r rec lease t reason (hash : option string) :
  book_jobs b !! res_job_id r = Some rec → lease_job_id lease = res_job_id r →
  active_record b lease t = Ok rec →
  match fail b lease reason t with
  | (Err e, book') => (Err e, book')
  | (Ok _, book') =>
      match job_state book' (res_job_id r) with
      | Some Pending => (Ok (lease_receipt book' EvRequeued lease t reason None hash), book')
      | Some (Failed _ _) => (Ok (lease_receipt book' EvFailed lease t reason None hash), book')
      | _ => (Err (ResultMismatch (res_job_id r)), book')
      end
  end = (Ok (lease_receipt b (retry_or_fail rec reason).2 lease t reason None hash),
         set_record b (res_job_id r) (retry_or_fail rec reason).1).
Proof.
  intros Hrec Hj Ha. unfold fail. rewrite Ha, Hj.
  rewrite set_record_job_state, decide_True by done.
  rewrite retry_or_fail_state, retry_or_fail_kind.
  by destruct (attempt rec <? record_max_attempts rec)%N.
Qed.

(** A runner's result is accepted exactly when it comes from the current
    holder: same run, lease, worker and epoch, within the lease's time window.
    An accepted result moves its job, and only its job, to the state its outcome
    calls for (failures retry while budget is left) and yields the matching
    receipt; a refused one leaves the book as it was. *)
Theorem apply_result_spec b r t :
  reachable b →
  (∀ lease, authorised b r t lease →
     ∃ rec, book_jobs b !! res_job_id r = Some rec ∧
       apply_result b r t =
         (Ok (lease_receipt b (outcome_kind (res_outcome r) rec) lease t
                (result_reason (res_outcome r)) None (Some (receipt_hash r))),
          set_record b (res_job_id r) (outcome_record (res_outcome r) rec)))
  ∧ ((∀ lease, ¬ authorised b r t lease) → ∃ e, apply_result b r t = (Err e, b)).
Proof.
  intros Hwf%reachable_wf. split.
  - intros lease [Hrun Hs Hl Hw He Ht].
    assert (result_lease b r = Ok lease) as Hrl by by apply result_lease_ok.
    unfold job_state in Hs. apply fmap_Some in Hs as (rec&Hrec&Hs).
    exists rec. split; [done|]. symmetry in Hs.
    destruct (wf_leased _ _ (Hwf _ _ Hrec) lease Hs) as [Hj _].
    assert (active_record b lease t = Ok rec) as Ha by (apply active_record_ok; by rewrite Hj).
    unfold apply_result. rewrite Hrl.
    destruct (res_outcome r); cbn zeta.
    2, 4, 5: rewrite (apply_failed_outcome b r rec lease t) by done; done.
    + unfold complete. by rewrite Ha, Hj.
    + unfold cancel. by rewrite Ha, Hj.
  - intros Hn. unfold apply_result.
    destruct (result_lease b r) as [lease|e] eqn:Hrl; [|eauto].
    destruct (result_lease_err b r lease t Hwf Hrl (Hn lease)) as [e Ha].
    unfold complete, fail, cancel. rewrite !Ha. destruct (res_outcome r); eauto.
Qed.

(** * The sweep, as a whole *)

(** A sweep never panics. It leaves no lease that expired by then, gives every
    job whose lease had expired its next attempt or its final failure, touches
    nothing else, and writes one receipt per expired lease in the order of the
    job names. A second sweep at the same time finds nothing. *)
Theorem expire_spec b t :
  reachable b →
  ∃ receipts b', expire b t = Some (receipts, b')
  ∧ receipts = omap (expire_receipt b t) (bt_values (book_jobs b))
  ∧ receipt_job_id <$> receipts
      = filter (λ k, is_Some (book_jobs b !! k ≫= expired_lease t)) (bt_keys (book_jobs b))
  ∧ (∀ k, book_jobs b' !! k = expire_record t <$> book_jobs b !! k)
  ∧ (∀ lease, holds b' lease → (t < expires_at_epoch lease)%N)
  ∧ expire b' t = Some ([], b').
Proof.
  intros Hwf%reachable_wf. do 2 eexists. split; [by apply expire_eq|].
  assert (∀ r, expired_lease t (expire_record t r) = None) as Hnone.
  { intros r. unfold expire_record. destruct (expired_lease t r) eqn:He; [|done].
    unfold expired_lease. rewrite retry_or_fail_state. by destruct (attempt r <? record_max_attempts r)%N. }
  split_and!.
  - done.
  - unfold bt_values, bt_keys.
    assert (∀ kv, kv ∈ bt_iter (book_jobs b) → book_jobs b !! kv.1 = Some kv.2) as Hin
      by (intros [k r]; apply elem_of_bt_iter).
    revert Hin. induction (bt_iter (book_jobs b)) as [|[k r] kvs IH]; intros Hin; [done|].
    rewrite !fmap_cons, omap_cons, filter_cons. cbn [fst snd].
    assert (book_jobs b !! k = Some r) as Hk by by apply (Hin (k, r)); left.
    unfold expire_receipt at 1. destruct (expired_lease t r) as [lease|] eqn:He; cbn.
    + rewrite decide_True by by rewrite Hk; cbn; rewrite He. rewrite IH by set_solver.
      f_equal. apply expired_lease_Some in He as [Hs _].
      by destruct (wf_leased _ _ (Hwf _ _ Hk) _ Hs) as [-> _].
    + rewrite decide_False by (rewrite Hk; cbn; rewrite He; by intros []).
      apply IH. set_solver.
  - intros k. cbn. by rewrite lookup_fmap.
  - intros lease (r&Hr&Hs)%holds_record. cbn in Hr. rewrite lookup_fmap in Hr.
    apply fmap_Some in Hr as (r0&Hr0&->). specialize (Hnone r0).
    unfold expired_lease in Hnone. rewrite Hs in Hnone.
    destruct (N.leb_spec (expires_at_epoch lease) t); [done|lia].
  - rewrite expire_eq by by apply expire_wf. apply (f_equal Some), (f_equal2 pair).
    + cbn. unfold bt_values. rewrite bt_iter_fmap.
      induction (bt_iter (book_jobs b)) as [|[k r] kvs IH]; [done|].
      rewrite !fmap_cons, omap_cons. unfold expire_receipt at 1. cbn [snd prod_map].
      by rewrite Hnone.
    + unfold expire_book; cbn. f_equal. apply map_eq. intros k. rewrite !lookup_fmap.
      destruct (book_jobs b !! k) as [r|]; [|done]. cbn. f_equal.
      unfold expire_record at 1. by rewrite Hnone.
Qed.

(** * Requests *)

(** A worker that can acquire a job of the pipeline also gets its request: the
    lookup of the job and of the lease that was just taken never fails, and the
    request carries the job's steps, mounts, artifacts and timeout under the
    lease's identity. *)
Theorem acquire_request_succeeds b b' p job worker epoch now ttl lease :
  reachable b → acquire_with_epoch b job worker epoch now ttl = (Ok lease, b') →
  job ∈ job_id <$> jobs p →
  ∃ j, j ∈ jobs p ∧ job_id j = job ∧
    acquire_request_with_epoch b p job worker epoch now ttl =
      (Ok {| leased_lease := lease;
             leased_request := runner_request_from_job (pipeline_id p) (run_id b') lease j;
             leased_receipt :=
               lease_receipt b' EvAcquired lease now "runner request leased"
                 (Some (wire_hash
                          (runner_request_from_job (pipeline_id p) (run_id b') lease j)))
                 None |}, b').
Proof.
  intros Hwf%reachable_wf Heq Hin.
  destruct (acquire_ok_holds _ _ _ _ _ _ _ _ Hwf Heq) as (Hh&Hj&_).
  apply list_elem_of_fmap in Hin as (j0&Hj0&Hin).
  destruct (find_first (λ j, bool_decide (job_id j = job)) (jobs p)) as [j|] eqn:Hf.
  - pose proof Hf as (l1&l2&Hl&Hb&_)%find_first_Some.
    apply bool_decide_eq_true in Hb.
    assert (j ∈ jobs p) as Hjp by (rewrite Hl; set_solver).
    exists j. split_and!; [done..|].
    unfold acquire_request_with_epoch.
    replace (existsb _ (jobs p)) with true.
    + cbn. rewrite Heq. unfold runner_request, holds in *. rewrite Hj in *.
      by rewrite Hf, Hh, bool_decide_true.
    + symmetry. apply existsb_exists. exists j. split; [|by apply bool_decide_eq_true].
      by apply list_elem_of_In.
  - apply find_first_None in Hf. rewrite Forall_forall in Hf.
    specialize (Hf j0 Hin). apply bool_decide_eq_false in Hf. congruence.
Qed.

(** * Receipts *)

(** Unlike [escape_canonical] of the pipeline IR, [push_field] leaves a backslash
    alone, so two reasons can have the same text, and two receipts that differ in
    their reason the same digest. *)
Example receipt_reason_collision :
  push_field "" "reason" ("a" +:+ newline_str +:+ "b") = push_field "" "reason" "a\nb".
Proof. by vm_compute. Qed.

(** * Samples *)

Module LeaseSamples.
Definition job (id : string) (attempts : N) : Job :=
  {| job_id := id; job_name := id; runner_class := RC_NativeRustClean;
     steps := [Step_run (id +:+ "_0") id ("cargo " +:+ id)];
     inputs := ∅; outputs := ∅; cache_mounts := []; artifact_paths := [];
     network_policy := NP_Deny; token_scope := TS_ReadRepo;
     timeout_seconds := 3600;
     retry_policy := {| max_attempts := attempts; backoff_seconds := 0 |} |}.
Definition pipeline : Pipeline :=
  IrSamples.with_jobs IrSamples.base [job "test" 2; job "fmt" 1]
    [ScheduleSamples.edge "fmt" "test"].
Definition schedule : Schedule :=
  match deterministic_schedule pipeline with
  | Some (Ok s) => s
  | _ => {| schedule_hash := ""; rounds := [] |}
  end.
Definition empty : LeaseBook :=
  {| run_id := "run-1"; book_schedule_hash := schedule_hash schedule; book_jobs := ∅ |}.
Definition book : LeaseBook :=
  match LeaseBook_new "run-1" pipeline schedule with Ok b => b | Err _ => empty end.
Definition no_lease : JobLease := build_lease "" "" "" "" 0 0 0 0.
Definition lease_of (r : result JobLease LeaseError * LeaseBook) : JobLease :=
  match r.1 with Ok l => l | Err _ => no_lease end.
(** [test] is leased by [w1] until 30, then by [w2] from 40. *)
Definition acquired := acquire_with_epoch book "test" "w1" 7 10 20.
Definition lease : JobLease := lease_of acquired.
Definition retaken := acquire_with_epoch acquired.2 "test" "w2" 3 40 20.
Definition lease2 : JobLease := lease_of retaken.
Definition job_result (l : JobLease) (o : JobOutcome) : JobResult :=
  {| res_runner_id := worker_id l; res_runner_epoch := node_epoch l;
     res_run_id := "run-1"; res_lease_id := lease_id l;
     res_job_id := lease_job_id l; res_outcome := o; res_exit_code := Some 0%Z;
     res_started_at_millis := 0; res_finished_at_millis := 5;
     res_artifact_digests := []; res_cache_receipts := []; res_log_digest := "" |}.
End LeaseSamples.

Lemma sample_reachable : reachable LeaseSamples.book.
Proof.
  exists "run-1", LeaseSamples.pipeline, LeaseSamples.schedule, LeaseSamples.book.
  split; [by vm_compute|done].
Qed.

Lemma sample_acquired_step : rtc lease_step LeaseSamples.book LeaseSamples.acquired.2.
Proof. apply rtc_once, step_acquire. Qed.

Lemma stale_lease_fenced_witness :
  ¬ holds LeaseSamples.retaken.2 LeaseSamples.lease
  ∧ complete LeaseSamples.retaken.2 LeaseSamples.lease 20
    = (Err (LeaseMismatch "test"), LeaseSamples.retaken.2).
Proof.
  destruct (stale_lease_fenced LeaseSamples.acquired.2 LeaseSamples.retaken.2
    LeaseSamples.retaken.2 LeaseSamples.lease 20 "") as (H1&H2&_).
  - exact (reachable_steps _ _ sample_reachable sample_acquired_step).
  - by vm_compute.
  - apply rtc_once, step_acquire.
  - by vm_compute.
  - done.
  - split; [exact H1|exact H2].
Defined.

Lemma leases_invariant_witness :
  ∃ r', book_jobs LeaseSamples.retaken.2 !! "test" = Some r' ∧ wf_record "test" r'
        ∧ record_max_attempts r' = 2%N.
Proof.
  destruct (leases_invariant LeaseSamples.book LeaseSamples.retaken.2 "test"
    {| attempt := 0; record_max_attempts := 2; state := Pending |}) as (_&r'&?&?&?&_).
  - exact sample_reachable.
  - eapply rtc_l; [apply step_acquire|]. apply rtc_once, step_acquire.
  - by vm_compute.
  - exists r'. by split_and!.
Defined.

Lemma acquire_exclusive_witness :
  acquire_with_epoch LeaseSamples.acquired.2 "test" "w2" 3 29 20
  = (Err (ActiveLease "test" "w1" 30), LeaseSamples.acquired.2).
Proof.
  destruct (acquire_exclusive LeaseSamples.book LeaseSamples.acquired.2 "test" "w1" 7 10 20
    LeaseSamples.lease) as (_&_&H).
  - exact sample_reachable.
  - by vm_compute.
  - apply (H "w2" 3%N 29%N 20%N).
    + by apply valid_times_spec.
    + by vm_compute.
Defined.

Lemma apply_result_spec_witness :
  (apply_result LeaseSamples.acquired.2
     (LeaseSamples.job_result LeaseSamples.lease JO_Failed) 20).2
  = set_record LeaseSamples.acquired.2 "test"
      {| attempt := 2; record_max_attempts := 2; state := Pending |}.
Proof.
  destruct (apply_result_spec LeaseSamples.acquired.2
    (LeaseSamples.job_result LeaseSamples.lease JO_Failed) 20) as [H _].
  - exact (reachable_steps _ _ sample_reachable sample_acquired_step).
  - destruct (H LeaseSamples.lease) as (rec&Hrec&Heq).
    + by split; vm_compute.
    + rewrite Heq. vm_compute in Hrec. injection Hrec as <-. by vm_compute.
Defined.

Lemma expire_spec_witness :
  ∃ b', expire LeaseSamples.acquired.2 30
        = Some (omap (expire_receipt LeaseSamples.acquired.2 30)
                  (bt_values (book_jobs LeaseSamples.acquired.2)), b')
        ∧ expire b' 30 = Some ([], b').
Proof.
  destruct (expire_spec LeaseSamples.acquired.2 30) as (rs&b'&He&->&_&_&_&Hagain).
  - exact (reachable_steps _ _ sample_reachable sample_acquired_step).
  - exists b'. by split.
Defined.

Example expire_sample :
  match expire LeaseSamples.acquired.2 30 with
  | Some (receipts, b) => (map receipt_job_id receipts, job_state b "test")
  | None => ([], None)
  end = (["test"], Some Pending).
Proof. by vm_compute. Qed.

Lemma acquire_request_succeeds_witness :
  ∃ request, (acquire_request_with_epoch LeaseSamples.book LeaseSamples.pipeline
                "test" "w1" 7 10 20).1 = Ok request.
Proof.
  destruct (acquire_request_succeeds LeaseSamples.book LeaseSamples.acquired.2
    LeaseSamples.pipeline "test" "w1" 7 10 20 LeaseSamples.lease) as (j&_&_&Heq).
  - exact sample_reachable.
  - by vm_compute.
  - by apply (bool_decide_unpack _); vm_compute.
  - eexists. by rewrite Heq.
Defined.
