(* ===== verification/Registry.v ===== *)
(** Registry: the fleet of runner nodes
    (src/components/jeryu-ci-runner/crates/jeryu-runner-registry/src).

    [BTreeMap] iteration is key order ([bt_iter]); [values_mut] updates a record
    at its key. The JSON text of a snapshot is serde's; the wire structs that are
    written and read back are modelled. *)

From S2P Require Import Prelude Text CiIr RunnerProtocol Fencing.

(** * Nodes (lib.rs) *)

Inductive NodeState : Type :=
  | NS_Registering
  | NS_Active
  | NS_Draining
  | NS_Dead.

#[export] Instance NodeState_eq_dec : EqDecision NodeState.
Proof. solve_decision. Defined.

Definition NodeState_as_str (s : NodeState) : string :=
  match s with
  | NS_Registering => "registering"
  | NS_Active => "active"
  | NS_Draining => "draining"
  | NS_Dead => "dead"
  end.

Record NodeRecord := {
  node_id : string;
  node_state : NodeState;
  epoch : N;
  capacity : N;
  in_flight : N;
  supported_classes : list RunnerClass;
  tags : list string;
  last_heartbeat_epoch : N
}.

Definition has_capacity (n : NodeRecord) : bool := (in_flight n <? capacity n)%N.

Definition is_assignable (n : NodeRecord) : bool :=
  bool_decide (node_state n = NS_Active) && has_capacity n.

Definition supports_class (n : NodeRecord) (class : RunnerClass) : bool :=
  existsb (λ c, bool_decide (c = class)) (supported_classes n).

Definition matches_tags (n : NodeRecord) (required : list string) : bool :=
  forallb (λ need, existsb (λ have, bool_decide (have = need)) (tags n)) required.

Record RegistrationAck := {
  ack_node_id : string;
  ack_epoch : N;
  lease_ttl : N
}.

Record HeartbeatAck := { still_owner : bool; ack_drain : bool }.

Record ReapedNode := {
  reaped_node_id : string;
  fenced_epoch : N;
  orphaned_in_flight : N
}.

Record AssignSpec := {
  spec_lease_id : string;
  spec_class : RunnerClass;
  required_tags : list string
}.

Definition AssignSpec_new (lease : string) (class : RunnerClass) : AssignSpec :=
  {| spec_lease_id := lease; spec_class := class; required_tags := [] |}.

Definition with_tags (spec : AssignSpec) (tags : list string) : AssignSpec :=
  {| spec_lease_id := spec_lease_id spec; spec_class := spec_class spec;
     required_tags := tags |}.

Record Assignment := { assigned_node : string; assigned_epoch : N }.

Record NodeRegistry := {
  nodes : gmap string NodeRecord;
  heartbeat_ttl : N
}.

(** * Operations (node_registry.rs) *)

Definition NodeRegistry_new (ttl : N) : NodeRegistry :=
  {| nodes := ∅; heartbeat_ttl := ttl |}.

Definition set_node (r : NodeRegistry) (k : string) (n : NodeRecord) : NodeRegistry :=
  {| nodes := <[k := n]> (nodes r); heartbeat_ttl := heartbeat_ttl r |}.

Definition next_epoch (r : NodeRegistry) (id : string) : N :=
  match nodes r !! id with
  | None => 1
  | Some existing => saturating_add u64_max (epoch existing) 1
  end.

Definition register (r : NodeRegistry) (hello : RunnerHello) (now : N) :
    RegistrationAck * NodeRegistry :=
  let id := hello_runner_id hello in
  let e := next_epoch r id in
  ({| ack_node_id := id; ack_epoch := e; lease_ttl := heartbeat_ttl r |},
   set_node r id
     {| node_id := id; node_state := NS_Active; epoch := e;
        capacity := hello_capacity hello; in_flight := 0;
        supported_classes := hello_supported_classes hello;
        tags := hello_labels hello; last_heartbeat_epoch := now |}).

Definition with_heartbeat (n : NodeRecord) (now : N) : NodeRecord :=
  {| node_id := node_id n; node_state := node_state n; epoch := epoch n;
     capacity := capacity n; in_flight := in_flight n;
     supported_classes := supported_classes n; tags := tags n;
     last_heartbeat_epoch := now |}.

Definition heartbeat (r : NodeRegistry) (beat : Heartbeat) (now : N) :
    HeartbeatAck * NodeRegistry :=
  match nodes r !! beat_runner_id beat with
  | None => ({| still_owner := false; ack_drain := false |}, r)
  | Some n =>
      let draining := bool_decide (node_state n = NS_Draining) in
      if bool_decide (node_state n = NS_Dead)
         || negb (beat_runner_epoch beat =? epoch n)%N
      then ({| still_owner := false; ack_drain := draining |}, r)
      else ({| still_owner := true; ack_drain := draining |},
            set_node r (beat_runner_id beat) (with_heartbeat n now))
  end.

Definition is_current_owner (r : NodeRegistry) (id : string) (claimed : N) : bool :=
  match nodes r !! id with
  | None => false
  | Some n => negb (bool_decide (node_state n = NS_Dead)) && (epoch n =? claimed)%N
  end.

(** Whether a sweep at [now] reaps the node. *)
Definition overdue (ttl now : N) (n : NodeRecord) : bool :=
  negb (bool_decide (node_state n = NS_Dead))
  && (saturating_add u64_max (last_heartbeat_epoch n) ttl <? now)%N.

Definition fence (n : NodeRecord) : NodeRecord :=
  {| node_id := node_id n; node_state := NS_Dead;
     epoch := saturating_add u64_max (epoch n) 1; capacity := capacity n;
     in_flight := in_flight n; supported_classes := supported_classes n;
     tags := tags n; last_heartbeat_epoch := last_heartbeat_epoch n |}.

Definition reap_node (ttl now : N) (reaped : list ReapedNode) (n : NodeRecord) :
    list ReapedNode * NodeRecord :=
  if overdue ttl now n
  then
    let n' := fence n in
    (reaped ++ [{| reaped_node_id := node_id n'; fenced_epoch := epoch n';
                   orphaned_in_flight := in_flight n' |}], n')
  else (reaped, n).

Definition reap (r : NodeRegistry) (now : N) : list ReapedNode * NodeRegistry :=
  let (reaped, nodes') :=
    bt_values_mut (reap_node (heartbeat_ttl r) now) [] (nodes r) in
  (reaped, {| nodes := nodes'; heartbeat_ttl := heartbeat_ttl r |}).

Definition with_node_state (n : NodeRecord) (s : NodeState) : NodeRecord :=
  {| node_id := node_id n; node_state := s; epoch := epoch n;
     capacity := capacity n; in_flight := in_flight n;
     supported_classes := supported_classes n; tags := tags n;
     last_heartbeat_epoch := last_heartbeat_epoch n |}.

Definition drain (r : NodeRegistry) (id : string) : bool * NodeRegistry :=
  match nodes r !! id with
  | Some n =>
      if bool_decide (node_state n = NS_Active)
      then (true, set_node r id (with_node_state n NS_Draining))
      else (false, r)
  | None => (false, r)
  end.

Definition with_in_flight (n : NodeRecord) (k : N) : NodeRecord :=
  {| node_id := node_id n; node_state := node_state n; epoch := epoch n;
     capacity := capacity n; in_flight := k;
     supported_classes := supported_classes n; tags := tags n;
     last_heartbeat_epoch := last_heartbeat_epoch n |}.

Definition eligible (spec : AssignSpec) (n : NodeRecord) : bool :=
  is_assignable n && supports_class n (spec_class spec)
  && matches_tags n (required_tags spec).

Definition assign (r : NodeRegistry) (spec : AssignSpec) :
    option Assignment * NodeRegistry :=
  match find_first (λ kv, eligible spec kv.2) (bt_iter (nodes r)) with
  | None => (None, r)
  | Some (k, chosen) =>
      let n := with_in_flight chosen (saturating_add u32_max (in_flight chosen) 1) in
      (Some {| assigned_node := node_id n; assigned_epoch := epoch n |}, set_node r k n)
  end.

Definition release (r : NodeRegistry) (id : string) : NodeRegistry :=
  match nodes r !! id with
  | Some n => set_node r id (with_in_flight n (saturating_sub (in_flight n) 1))
  | None => r
  end.

(** * Snapshots (lib.rs) *)

Record NodeRecordWire := {
  wire_node_id : string;
  wire_state : NodeState;
  wire_epoch : N;
  wire_capacity : N;
  wire_in_flight : N;
  wire_supported_classes : list string;
  wire_tags : list string;
  wire_last_heartbeat_epoch : N
}.

Record RegistrySnapshot := {
  wire_heartbeat_ttl : N;
  wire_nodes : list NodeRecordWire
}.

Definition NodeRecordWire_from (n : NodeRecord) : NodeRecordWire :=
  {| wire_node_id := node_id n; wire_state := node_state n; wire_epoch := epoch n;
     wire_capacity := capacity n; wire_in_flight := in_flight n;
     wire_supported_classes := RunnerClass_as_str <$> supported_classes n;
     wire_tags := tags n; wire_last_heartbeat_epoch := last_heartbeat_epoch n |}.

Definition RegistrySnapshot_from (r : NodeRegistry) : RegistrySnapshot :=
  {| wire_heartbeat_ttl := heartbeat_ttl r;
     wire_nodes := NodeRecordWire_from <$> bt_values (nodes r) |}.

Definition parse_runner_class (s : string) : RunnerClass :=
  match RunnerClass_from_str s with
  | Ok class => class
  | Err _ => RunnerClass_default
  end.

Definition NodeRecord_from (w : NodeRecordWire) : NodeRecord :=
  {| node_id := wire_node_id w; node_state := wire_state w; epoch := wire_epoch w;
     capacity := wire_capacity w; in_flight := wire_in_flight w;
     supported_classes := parse_runner_class <$> wire_supported_classes w;
     tags := wire_tags w; last_heartbeat_epoch := wire_last_heartbeat_epoch w |}.

Definition NodeRegistry_from (w : RegistrySnapshot) : NodeRegistry :=
  {| nodes := foldl (λ m n, <[wire_node_id n := NodeRecord_from n]> m) ∅ (wire_nodes w);
     heartbeat_ttl := wire_heartbeat_ttl w |}.

(** * Specification *)

Inductive registry_step : NodeRegistry → NodeRegistry → Prop :=
  | step_register r hello now :
      (hello_capacity hello ≤ u32_max)%N → registry_step r (register r hello now).2
  | step_heartbeat r beat now : registry_step r (heartbeat r beat now).2
  | step_reap r now : registry_step r (reap r now).2
  | step_drain r id : registry_step r (drain r id).2
  | step_assign r spec : registry_step r (assign r spec).2
  | step_release r id : registry_step r (release r id).

Record wf_node (k : string) (n : NodeRecord) : Prop := {
  wn_id : node_id n = k;
  wn_state : node_state n ≠ NS_Registering;
  wn_epoch : (1 ≤ epoch n ≤ u64_max)%N;
  wn_in_flight : (in_flight n ≤ capacity n ≤ u32_max)%N
}.

Definition wf_registry (r : NodeRegistry) : Prop := map_Forall wf_node (nodes r).

(** What a sweep reports, and what it leaves. *)
Definition reaped_nodes (r : NodeRegistry) (now : N) : list ReapedNode :=
  (λ n, {| reaped_node_id := node_id n;
           fenced_epoch := saturating_add u64_max (epoch n) 1;
           orphaned_in_flight := in_flight n |})
    <$> filter (λ n, overdue (heartbeat_ttl r) now n = true) (bt_values (nodes r)).

Definition reaped_registry (r : NodeRegistry) (now : N) : NodeRegistry :=
  {| nodes := (λ n, if overdue (heartbeat_ttl r) now n then fence n else n) <$> nodes r;
     heartbeat_ttl := heartbeat_ttl r |}.

(** * Lemmas *)

Lemma reap_eq r now : reap r now = (reaped_nodes r now, reaped_registry r now).
Proof.
  unfold reap, reaped_nodes, reaped_registry.
  rewrite (bt_values_mut_spec _
    (λ reaped n, reaped ++ (if overdue (heartbeat_ttl r) now n
       then [{| reaped_node_id := node_id n;
                fenced_epoch := saturating_add u64_max (epoch n) 1;
                orphaned_in_flight := in_flight n |}] else []))
    (λ n, if overdue (heartbeat_ttl r) now n then fence n else n)).
  - f_equal. generalize (bt_values (nodes r)) as ns.
    assert (∀ l : list NodeRecord, ∀ acc, foldl (λ reaped n, reaped ++
      (if overdue (heartbeat_ttl r) now n
       then [{| reaped_node_id := node_id n;
                fenced_epoch := saturating_add u64_max (epoch n) 1;
                orphaned_in_flight := in_flight n |}] else [])) acc l
      = acc ++ ((λ n, {| reaped_node_id := node_id n;
           fenced_epoch := saturating_add u64_max (epoch n) 1;
           orphaned_in_flight := in_flight n |})
        <$> filter (λ n, overdue (heartbeat_ttl r) now n = true) l)) as Hl.
    { induction l as [|n l IH]; intros acc; cbn [foldl]; [by rewrite app_nil_r|].
      rewrite IH, filter_cons. destruct (overdue _ now n); cbn.
      - by rewrite <-app_assoc.
      - by rewrite app_nil_r. }
    intros ns. by rewrite Hl.
  - intros reaped n. unfold reap_node. destruct (overdue _ now n); [done|].
    by rewrite app_nil_r.
Qed.

Lemma lookup_set_node r k n k' :
  nodes (set_node r k n) !! k' = if decide (k = k') then Some n else nodes r !! k'.
Proof.
  cbn. case_decide as Hk; [by rewrite Hk, lookup_insert_eq|by rewrite lookup_insert_ne].
Qed.

Lemma wf_set_node r k n : wf_registry r → wf_node k n → wf_registry (set_node r k n).
Proof. intros. by apply map_Forall_insert_2. Qed.

Lemma assign_inv r spec a r' :
  assign r spec = (Some a, r') →
  ∃ k n, (k, n) ∈ bt_iter (nodes r) ∧ eligible spec n = true
    ∧ find_first (λ kv, eligible spec kv.2) (bt_iter (nodes r)) = Some (k, n)
    ∧ a = {| assigned_node := node_id n; assigned_epoch := epoch n |}
    ∧ r' = set_node r k (with_in_flight n (saturating_add u32_max (in_flight n) 1)).
Proof.
  unfold assign. destruct (find_first _ _) as [[k n]|] eqn:Hf; [|done].
  intros [= <- <-]. exists k, n. pose proof Hf as (l1&l2&Hl&He&_)%find_first_Some.
  split_and!; [rewrite Hl; set_solver|done..].
Qed.

Lemma eligible_spec spec n :
  eligible spec n = true ↔
  node_state n = NS_Active ∧ (in_flight n < capacity n)%N
  ∧ spec_class spec ∈ supported_classes n
  ∧ (∀ tag, tag ∈ required_tags spec → tag ∈ tags n).
Proof.
  unfold eligible, is_assignable, has_capacity, supports_class, matches_tags.
  rewrite !andb_true_iff, bool_decide_eq_true, N.ltb_lt, existsb_exists, forallb_forall.
  setoid_rewrite existsb_exists. setoid_rewrite bool_decide_eq_true.
  setoid_rewrite <-list_elem_of_In. naive_solver.
Qed.

Lemma fence_wf k n : wf_node k n → wf_node k (fence n).
Proof. intros []. split; cbn; try done. sat_lia. Qed.

Lemma registry_step_wf r r' : registry_step r r' → wf_registry r → wf_registry r'.
Proof.
  intros Hs Hwf. destruct Hs as [r hello now Hc|r beat now|r now|r id|r spec|r id].
  - apply wf_set_node; [done|]. split; cbn; try done; [|lia]. unfold next_epoch.
    destruct (nodes r !! _) as [n|] eqn:Hn; [|unfold u64_max; lia].
    destruct (Hwf _ _ Hn). sat_lia.
  - unfold heartbeat. destruct (nodes r !! _) as [n|] eqn:Hn; [|done].
    case_match; [done|]. apply wf_set_node; [done|]. by destruct (Hwf _ _ Hn).
  - rewrite reap_eq. intros k n. cbn. rewrite lookup_fmap.
    intros (n0&Hn&->)%fmap_Some. pose proof (Hwf _ _ Hn).
    case_match; [by apply fence_wf|done].
  - unfold drain. destruct (nodes r !! id) as [n|] eqn:Hn; [|done].
    case_bool_decide; [|done]. apply wf_set_node; [done|]. by destruct (Hwf _ _ Hn).
  - destruct (assign r spec) as [[a|] r'] eqn:Ha.
    + apply assign_inv in Ha as (k&n&Hin&(_&Hcap&_)%eligible_spec&_&_&->).
      apply elem_of_bt_iter in Hin. apply wf_set_node; [done|].
      destruct (Hwf _ _ Hin). split; cbn; try done. sat_lia.
    + unfold assign in Ha. destruct (find_first _ _) as [[k n]|]; [done|].
      by injection Ha as <-.
  - unfold release. destruct (nodes r !! id) as [n|] eqn:Hn; [|done].
    apply wf_set_node; [done|]. destruct (Hwf _ _ Hn). split; cbn; try done. sat_lia.
Qed.

(** ** Epochs *)

Lemma is_current_owner_spec r id e :
  is_current_owner r id e = true ↔
  ∃ n, nodes r !! id = Some n ∧ node_state n ≠ NS_Dead ∧ epoch n = e.
Proof.
  unfold is_current_owner. destruct (nodes r !! id) as [n|]; [|naive_solver].
  rewrite andb_true_iff, negb_true_iff, bool_decide_eq_false, N.eqb_eq. naive_solver.
Qed.

(** One step keeps every node, and either keeps its epoch, without reviving it, or
    moves it up. *)
Lemma registry_step_node r r' id n :
  registry_step r r' → nodes r !! id = Some n →
  ∃ n', nodes r' !! id = Some n' ∧
    (epoch n' = epoch n ∧ (node_state n' = NS_Dead ↔ node_state n = NS_Dead)
     ∨ epoch n' = saturating_add u64_max (epoch n) 1).
Proof.
  intros Hs Hn.
  assert (∃ n', nodes r !! id = Some n' ∧
    (epoch n' = epoch n ∧ (node_state n' = NS_Dead ↔ node_state n = NS_Dead)
     ∨ epoch n' = saturating_add u64_max (epoch n) 1)) as Hsame by eauto 10.
  destruct Hs as [r hello now Hc|r beat now|r now|r id'|r spec|r id'].
  - cbn [snd register]. rewrite lookup_set_node. destruct (decide (_ = id)) as [Hid|]; [|exact Hsame].
    eexists; split; [done|]. right. cbn. unfold next_epoch. by rewrite Hid, Hn.
  - unfold heartbeat. destruct (nodes r !! beat_runner_id beat) as [n0|] eqn:Hn0;
      [|exact Hsame].
    case_match; [by eauto 10|]. cbn [snd]. rewrite lookup_set_node.
    destruct (decide (_ = id)) as [Hid|]; [|exact Hsame]. simplify_eq. eexists; split; [done|]. by left.
  - rewrite reap_eq. cbn. rewrite lookup_fmap, Hn. cbn.
    eexists; split; [done|]. case_match; [by right|by left].
  - unfold drain. destruct (nodes r !! id') as [n0|] eqn:Hn0; [|exact Hsame].
    case_bool_decide as Hs; [|exact Hsame]. cbn [snd]. rewrite lookup_set_node.
    destruct (decide (_ = id)) as [Hid|]; [|exact Hsame]. simplify_eq. eexists; split; [done|].
    left. cbn. by rewrite Hs.
  - destruct (assign r spec) as [[a|] r'] eqn:Ha; cbn.
    + apply assign_inv in Ha as (k&n0&Hin%elem_of_bt_iter&_&_&_&->).
      rewrite lookup_set_node. destruct (decide (_ = id)) as [Hid|]; [|exact Hsame].
      simplify_eq. eexists; split; [done|]. by left.
    + unfold assign in Ha. destruct (find_first _ _) as [[k n0]|]; [done|].
      injection Ha as <-. exact Hsame.
  - unfold release. destruct (nodes r !! id') as [n0|] eqn:Hn0; [|exact Hsame].
    rewrite lookup_set_node. destruct (decide (_ = id)) as [Hid|]; [|exact Hsame].
    simplify_eq. eexists; split; [done|]. by left.
Qed.

(** The node has moved past the epoch. *)
Definition superseded (r : NodeRegistry) (id : string) (e : N) : Prop :=
  ∃ n, nodes r !! id = Some n ∧ (e < epoch n ≤ u64_max)%N.

Lemma superseded_step r r' id e :
  registry_step r r' → superseded r id e → superseded r' id e.
Proof.
  intros Hs (n&Hn&He). destruct (registry_step_node _ _ _ _ Hs Hn) as (n'&Hn'&Hc).
  exists n'. split; [done|]. destruct Hc as [[-> _]| ->]; [done|].
  unfold saturating_add. lia.
Qed.

Lemma superseded_not_owner r id e : superseded r id e → is_current_owner r id e = false.
Proof.
  intros (n&Hn&He). apply not_true_iff_false.
  intros (n'&Hn'&_&<-)%is_current_owner_spec. simplify_eq. lia.
Qed.

Lemma owner_step r r' id e :
  (e < u64_max)%N → registry_step r r' → is_current_owner r id e = true →
  is_current_owner r' id e = true ∨ superseded r' id e.
Proof.
  intros Hu Hs (n&Hn&Hd&He)%is_current_owner_spec.
  destruct (registry_step_node _ _ _ _ Hs Hn) as (n'&Hn'&[[He' Hst]|He']).
  - left. apply is_current_owner_spec. exists n'. naive_solver.
  - right. exists n'. split; [done|]. rewrite He', He. unfold saturating_add. lia.
Qed.

Definition fencing_token : Type := string * N.

#[export] Program Instance registry_fenced : Fenced NodeRegistry fencing_token := {|
  fenced_step := registry_step;
  fenced_inv := wf_registry;
  fenced_usable := λ t, (t.2 < u64_max)%N;
  fenced_current := λ r t, is_current_owner r t.1 t.2 = true;
  fenced_spent := λ r t, superseded r t.1 t.2
|}.
Next Obligation. intros r r'. apply registry_step_wf. Qed.
Next Obligation.
  intros r t _ Hs Ho. apply superseded_not_owner in Hs. congruence.
Qed.
Next Obligation. intros r r' t _. apply superseded_step. Qed.
Next Obligation. intros r r' t _. apply owner_step. Qed.

(** * Theorems *)

(** Fencing. Once a node epoch is not the current owner any more (the node
    re-registered or was reaped), it never is again under any later operations,
    and every heartbeat that carries it is rejected and changes nothing. *)
Theorem stale_owner_fenced r1 r2 r3 beat now :
  wf_registry r1 → (beat_runner_epoch beat < u64_max)%N →
  is_current_owner r1 (beat_runner_id beat) (beat_runner_epoch beat) = true →
  rtc registry_step r1 r2 →
  is_current_owner r2 (beat_runner_id beat) (beat_runner_epoch beat) = false →
  rtc registry_step r2 r3 →
  is_current_owner r3 (beat_runner_id beat) (beat_runner_epoch beat) = false
  ∧ ∃ draining, heartbeat r3 beat now
                = ({| still_owner := false; ack_drain := draining |}, r3).
Proof.
  intros Hwf Hu Hc H12 Hn H23.
  destruct (fenced_never_again r1 r2 r3 ((beat_runner_id beat, beat_runner_epoch beat) : fencing_token))
    as [(n&Hl&He) Hn3]; [done..|by cbn; rewrite Hn|done|]. cbn in Hl, He, Hn3.
  split; [by apply not_true_iff_false|]. unfold heartbeat. rewrite Hl.
  rewrite (proj2 (N.eqb_neq (beat_runner_epoch beat) (epoch n))) by lia.
  rewrite orb_true_r. eauto.
Qed.

(** In every registry reached from the empty one, nodes are stored under their
    own id, epochs start at one and fit in 64 bits, no node is in the
    [Registering] state, and no node holds more leases than its capacity. *)
Theorem registry_invariant ttl r : rtc registry_step (NodeRegistry_new ttl) r → wf_registry r.
Proof.
  intros Hs. refine (fenced_steps_inv (H:=registry_fenced) _ _ Hs _). apply map_Forall_empty.
Qed.

(** [assign] picks the first node, in id order, that is active, has room,
    supports the class and carries the tags; it counts the lease there, within
    capacity, and hands out the epoch that owns the node. It fails exactly when
    there is no such node, and then changes nothing. *)
Theorem assign_spec r spec :
  wf_registry r →
  match assign r spec with
  | (Some a, r') =>
      ∃ n, nodes r !! assigned_node a = Some n ∧ eligible spec n = true
        ∧ (∀ k n', nodes r !! k = Some n' → eligible spec n' = true →
             String.leb (assigned_node a) k = true)
        ∧ nodes r' = <[assigned_node a := with_in_flight n (in_flight n + 1)]> (nodes r)
        ∧ (in_flight n + 1 ≤ capacity n)%N
        ∧ is_current_owner r' (assigned_node a) (assigned_epoch a) = true
  | (None, r') => r' = r ∧ ∀ k n, nodes r !! k = Some n → eligible spec n = false
  end.
Proof.
  intros Hwf. destruct (assign r spec) as [[a|] r'] eqn:Ha.
  - apply assign_inv in Ha as (k&n&Hin&He&Hf&->&->).
    pose proof Hin as Hn%elem_of_bt_iter. destruct (Hwf _ _ Hn) as [Hid _ _ Hcap].
    pose proof He as (Hact&Hroom&_)%eligible_spec. cbn [assigned_node assigned_epoch].
    assert (saturating_add u32_max (in_flight n) 1 = in_flight n + 1)%N as Hsat
      by (unfold saturating_add; lia).
    rewrite Hid. exists n. split_and!; [done|done| | |lia|].
    + intros k' n' Hn' He'. apply find_first_Some in Hf as (l1&l2&Hl&_&Hno).
      pose proof (bt_iter_sorted (nodes r)) as Hs. rewrite Hl in Hs.
      apply elem_of_bt_iter in Hn'. rewrite Hl in Hn'.
      apply elem_of_app in Hn' as [Hn'|[Heq|Hn']%elem_of_cons].
      * rewrite Forall_forall in Hno. specialize (Hno _ Hn'). cbn in Hno. congruence.
      * injection Heq as -> ->. by destruct (string_leb_total k k).
      * apply StronglySorted_app in Hs as (_&_&Hs). inversion Hs as [|? ? _ Hall].
        rewrite Forall_forall in Hall. exact (Hall _ Hn').
    + cbn. by rewrite Hsat.
    + apply is_current_owner_spec. rewrite lookup_set_node, decide_True by done.
      eexists; split; [done|]. cbn. by rewrite Hact.
  - unfold assign in Ha. destruct (find_first _ _) as [[k n]|] eqn:Hf; [done|].
    injection Ha as <-. split; [done|]. intros k n Hn.
    apply find_first_None in Hf. rewrite Forall_forall in Hf.
    by apply (Hf (k, n)), elem_of_bt_iter.
Qed.

Lemma reaped_not_overdue ttl now n :
  overdue ttl now (if overdue ttl now n then fence n else n) = false.
Proof. by destruct (overdue ttl now n) eqn:Ho. Qed.

Lemma reap_again r now : reap (reaped_registry r now) now = ([], reaped_registry r now).
Proof.
  rewrite reap_eq. apply f_equal2.
  - unfold reaped_nodes, reaped_registry, bt_values; cbn [nodes heartbeat_ttl].
    rewrite bt_iter_fmap. induction (bt_iter (nodes r)) as [|[k n] l IH]; [done|].
    rewrite !fmap_cons, filter_cons. cbn [snd prod_map]. by rewrite reaped_not_overdue.
  - unfold reaped_registry; cbn [nodes heartbeat_ttl]. f_equal. apply map_eq. intros k.
    rewrite !lookup_fmap. destruct (nodes r !! k) as [n|]; [|done]. cbn [fmap option_fmap option_map].
    by rewrite reaped_not_overdue.
Qed.

(** A sweep fences exactly the nodes that are overdue (their epoch moves up and
    they are dead), leaves every other node as it was, reports the reaped nodes in
    id order with their orphaned leases, and a second sweep finds nothing. *)
Theorem reap_spec r now :
  ∃ r', reap r now = (reaped_nodes r now, r')
  ∧ (∀ k, nodes r' !! k = (λ n, if overdue (heartbeat_ttl r) now n then fence n else n)
                            <$> nodes r !! k)
  ∧ (∀ k n, nodes r !! k = Some n → overdue (heartbeat_ttl r) now n = true →
       ∀ e, is_current_owner r' k e = false)
  ∧ (∀ k n, nodes r' !! k = Some n → node_state n ≠ NS_Dead →
       (now ≤ saturating_add u64_max (last_heartbeat_epoch n) (heartbeat_ttl r))%N)
  ∧ reap r' now = ([], r').
Proof.
  exists (reaped_registry r now). split; [apply reap_eq|]. split_and!.
  - intros k. cbn. by rewrite lookup_fmap.
  - intros k n Hn Ho e. unfold is_current_owner. cbn [nodes reaped_registry].
    rewrite lookup_fmap, Hn. cbn. by rewrite Ho.
  - intros k n. cbn [nodes reaped_registry]. rewrite lookup_fmap.
    intros (n0&Hn0&->)%fmap_Some Hd.
    pose proof (reaped_not_overdue (heartbeat_ttl r) now n0) as Hg. unfold overdue at 1 in Hg.
    rewrite bool_decide_false in Hg by done. cbn in Hg. by apply N.ltb_ge in Hg.
  - apply reap_again.
Qed.

(** A registry survives its snapshot: writing it out and reading it back gives
    the same registry, as long as its runner classes survive their string form
    (the built-in ones do). *)
Theorem snapshot_roundtrip r :
  wf_registry r →
  (∀ k n c, nodes r !! k = Some n → c ∈ supported_classes n → stable_class c) →
  NodeRegistry_from (RegistrySnapshot_from r) = r.
Proof.
  intros Hwf Hst. destruct r as [ns ttl]. unfold NodeRegistry_from, RegistrySnapshot_from.
  cbn [nodes heartbeat_ttl wire_nodes wire_heartbeat_ttl] in *. f_equal.
  trans (foldl (λ m kv, <[kv.1 := kv.2]> m) (∅ : gmap string NodeRecord) (bt_iter ns)); [|apply foldl_insert_bt_iter].
  assert (bt_iter ns = (λ w, (wire_node_id w, NodeRecord_from w))
                         <$> (NodeRecordWire_from <$> bt_values ns)) as ->;
    [|by rewrite !foldl_fmap].
  unfold bt_values. rewrite <-!list_fmap_compose.
  rewrite <-(list_fmap_id (bt_iter ns)) at 1. apply list_fmap_ext.
  intros i [k n] Hi%list_elem_of_lookup_2%elem_of_bt_iter. cbn.
  destruct (Hwf _ _ Hi) as [Hid _ _ _]. rewrite Hid. f_equal.
  destruct n as [id st ep cap fl cls tg hb]; unfold NodeRecord_from; cbn in *. f_equal.
  rewrite <-list_fmap_compose. rewrite <-(list_fmap_id cls) at 1. apply list_fmap_ext.
  intros j c Hc%list_elem_of_lookup_2. cbn. unfold parse_runner_class.
  by rewrite (Hst k _ c Hi Hc : RunnerClass_from_str _ = _).
Qed.

(** * Samples and corner cases *)

Module RegistrySamples.
Definition hello (id : string) (cap : N) : RunnerHello :=
  {| hello_runner_id := id; hello_protocol_version := PROTOCOL_VERSION;
     hello_supported_classes := [RC_NativeRustClean]; hello_labels := ["gpu"];
     hello_capacity := cap |}.
Definition beat (id : string) (e : N) : Heartbeat :=
  {| beat_runner_id := id; beat_runner_epoch := e; beat_run_id := ""; beat_lease_id := "";
     beat_job_id := ""; beat_monotonic_millis := 0; beat_message := "" |}.
Definition spec : AssignSpec :=
  with_tags (AssignSpec_new "lease-1" RC_NativeRustClean) ["gpu"].
Definition one := (register (NodeRegistry_new 10) (hello "n2" 2) 5).2.
Definition two := (register one (hello "n1" 1) 6).2.
(** [n1] is silent, [n2] is not; then [n1] comes back. *)
Definition beaten := (heartbeat two (beat "n2" 1) 20).2.
Definition swept := (reap beaten 20).2.
Definition back := (register swept (hello "n1" 1) 30).2.
(** A node whose epoch counter is exhausted. *)
Definition worn : NodeRegistry :=
  {| nodes := {[ "n1" := {| node_id := "n1"; node_state := NS_Active; epoch := u64_max;
                            capacity := 1; in_flight := 0;
                            supported_classes := []; tags := [];
                            last_heartbeat_epoch := 0 |} ]};
     heartbeat_ttl := 10 |}.
(** A node with a class that is not built in. *)
Definition custom_hello : RunnerHello :=
  {| hello_runner_id := "n1"; hello_protocol_version := PROTOCOL_VERSION;
     hello_supported_classes := [RC_Custom "docker"]; hello_labels := [];
     hello_capacity := 1 |}.
End RegistrySamples.

Lemma sample_registry_steps :
  rtc registry_step (NodeRegistry_new 10) RegistrySamples.two.
Proof.
  eapply rtc_l; [by apply (step_register _ (RegistrySamples.hello "n2" 2) 5)|].
  apply rtc_once. by apply (step_register _ (RegistrySamples.hello "n1" 1) 6).
Qed.

Lemma sample_two_wf : wf_registry RegistrySamples.two.
Proof.
  refine (fenced_steps_inv (H:=registry_fenced) _ _ sample_registry_steps _).
  apply map_Forall_empty.
Qed.

Lemma stale_owner_fenced_witness :
  is_current_owner RegistrySamples.back "n1" 1 = false
  ∧ is_current_owner RegistrySamples.back "n1" 3 = true.
Proof.
  split; [|by vm_compute].
  destruct (stale_owner_fenced RegistrySamples.two RegistrySamples.swept
    RegistrySamples.back (RegistrySamples.beat "n1" 1) 31) as [H _].
  - exact sample_two_wf.
  - by vm_compute.
  - by vm_compute.
  - eapply rtc_l; [apply step_heartbeat|]. apply rtc_once, step_reap.
  - by vm_compute.
  - apply rtc_once. by apply step_register.
  - exact H.
Defined.

Lemma registry_invariant_witness : wf_registry RegistrySamples.two.
Proof. apply (registry_invariant 10). exact sample_registry_steps. Defined.

Lemma assign_spec_witness :
  ∃ n, nodes RegistrySamples.two !! "n1" = Some n ∧ (in_flight n + 1 ≤ capacity n)%N.
Proof.
  pose proof (assign_spec RegistrySamples.two RegistrySamples.spec sample_two_wf) as H.
  destruct (assign RegistrySamples.two RegistrySamples.spec) as [[a|] r'] eqn:Ha.
  - vm_compute in Ha. injection Ha as <- <-.
    destruct H as (n&Hn&_&_&_&Hcap&_). by exists n.
  - exfalso. vm_compute in Ha. discriminate Ha.
Defined.

Lemma snapshot_roundtrip_witness :
  NodeRegistry_from (RegistrySnapshot_from RegistrySamples.two) = RegistrySamples.two.
Proof.
  apply snapshot_roundtrip; [exact sample_two_wf|]. intros k n c Hn Hc.
  apply builtin_class_stable. intros v ->. apply elem_of_bt_iter in Hn.
  replace (bt_iter (nodes RegistrySamples.two)) with
    [("n1", {| node_id := "n1"; node_state := NS_Active; epoch := 1; capacity := 1;
               in_flight := 0; supported_classes := [RC_NativeRustClean];
               tags := ["gpu"]; last_heartbeat_epoch := 6 |});
     ("n2", {| node_id := "n2"; node_state := NS_Active; epoch := 1; capacity := 2;
               in_flight := 0; supported_classes := [RC_NativeRustClean];
               tags := ["gpu"]; last_heartbeat_epoch := 5 |})] in Hn by by vm_compute.
  repeat (apply elem_of_cons in Hn as [[= -> ->]|Hn];
    [by apply list_elem_of_singleton in Hc|]).
  by apply elem_of_nil in Hn.
Defined.

(** The epoch is not strictly increasing at the top of its range: a reaped node's
    epoch is live again after it re-registers. *)
Example saturated_epoch_revived :
  let reaped := (reap RegistrySamples.worn 11).2 in
  is_current_owner RegistrySamples.worn "n1" u64_max = true
  ∧ is_current_owner reaped "n1" u64_max = false
  ∧ is_current_owner (register reaped (RegistrySamples.hello "n1" 1) 12).2 "n1" u64_max = true.
Proof. by vm_compute. Qed.

(** A custom class can read back as a built-in one: the node can no longer be given
    the jobs it registered for. *)
Example custom_class_lost :
  let r := (register (NodeRegistry_new 10) RegistrySamples.custom_hello 0).2 in
  let spec := AssignSpec_new "lease-1" (RC_Custom "docker") in
  (assign r spec).1 = Some {| assigned_node := "n1"; assigned_epoch := 1 |}
  ∧ (assign (NodeRegistry_from (RegistrySnapshot_from r)) spec).1 = None.
Proof. by vm_compute. Qed.
