(* ===== verification/Phase7.v ===== *)
(** Phase7: the domain values that the proof engine, the merge queue and the agent
    tools share (src/components/jeryu-core/crates/jeryu-core/src/phase7.rs,
    receipt.rs, ids.rs, error.rs).

    Ids and receipts come from the process: a [World] holds the atomic id counter
    and the readings of the wall clock, and is passed through what draws on them. *)

From S2P Require Import Prelude Text.

(** * Ids and the clock (ids.rs, receipt.rs) *)

(** [clock n] is the n-th reading of [SystemTime::now] in milliseconds since the
    epoch, [None] when the clock is set before it. *)
Record World := {
  next_id : N;
  clock_reads : N;
  clock : N → option N
}.

(** [fetch_add] wraps around. *)
Definition fetch_id (w : World) : N * World :=
  (next_id w, {| next_id := wrapping_add64 (next_id w) 1;
                 clock_reads := clock_reads w; clock := clock w |}).

Definition read_clock (w : World) : option N * World :=
  (clock w (clock_reads w),
   {| next_id := next_id w; clock_reads := clock_reads w + 1; clock := clock w |}).

Definition initial_world (clock : N → option N) : World :=
  {| next_id := 1; clock_reads := 0; clock := clock |}.

(** The id types, as their strings; [prefix] is the macro's literal. *)
Definition RepoId : Type := string.
Definition PullRequestId : Type := string.
Definition QueueEntryId : Type := string.
Definition ReceiptId : Type := string.
Definition AgentId : Type := string.

Definition fresh (prefix : string) (w : World) : string * World :=
  let (n, w') := fetch_id w in (prefix +:+ "_" +:+ hex16 n, w').

Definition QueueEntryId_fresh (w : World) : QueueEntryId * World := fresh "queue" w.
Definition ReceiptId_fresh (w : World) : ReceiptId * World := fresh "receipt" w.

Inductive ReceiptKind : Type :=
  | RK_ProofPlan
  | RK_ProofWitness
  | RK_AgentDryRunPatch
  | RK_AgentProposedFix
  | RK_AgentHotfix
  | RK_MergeQueue
  | RK_Repair.

Record Receipt := {
  rc_id : ReceiptId;
  rc_kind : ReceiptKind;
  rc_repo : RepoId;
  rc_agent : option AgentId;
  rc_subject : string;
  rc_sha : string;
  rc_summary : string;
  rc_commands : list string;
  rc_residual_risk : string;
  rc_created_at_ms : N
}.

(** The clock is read before the id is drawn. *)
Definition Receipt_new (kind : ReceiptKind) (repo : RepoId) (agent : option AgentId)
    (subject sha summary : string) (commands : list string) (residual_risk : string)
    (w : World) : Receipt * World :=
  let (now, w1) := read_clock w in
  let created_at_ms := match now with Some ms => ms | None => 0%N end in
  let (id, w2) := ReceiptId_fresh w1 in
  ({| rc_id := id; rc_kind := kind; rc_repo := repo; rc_agent := agent;
      rc_subject := subject; rc_sha := sha; rc_summary := summary;
      rc_commands := commands; rc_residual_risk := residual_risk;
      rc_created_at_ms := created_at_ms |}, w2).

(** * Pull requests and witnesses (phase7.rs) *)

Record ChangedPath := { cp_path : string; cp_sensitive : bool }.

Definition ChangedPath_new (path : string) : ChangedPath :=
  {| cp_path := path; cp_sensitive := false |}.

Definition mark_sensitive (p : ChangedPath) : ChangedPath :=
  {| cp_path := cp_path p; cp_sensitive := true |}.

Record PullRequest := {
  pr_repo : RepoId;
  pr_id : PullRequestId;
  source_branch : string;
  target_branch : string;
  base_sha : string;
  head_sha : string;
  changed_paths : list ChangedPath
}.

Definition changed_path_set (pr : PullRequest) : gset string :=
  list_to_set (cp_path <$> changed_paths pr).

Record ProofWitness := {
  pw_id : ReceiptId;
  pw_repo : RepoId;
  pw_pr : PullRequestId;
  pw_head_sha : string;
  pw_changed_paths : list string;
  pw_lanes : list string;
  pw_owners : list string;
  pw_receipt : Receipt
}.

Inductive QueueEntryState : Type :=
  | Queued
  | SpeculativeMergeTesting
  | Mergeable
  | DequeuedConflict
  | DequeuedFailedValidation.

#[export] Instance QueueEntryState_eq_dec : EqDecision QueueEntryState.
Proof. solve_decision. Defined.

Record QueueEntry := {
  qe_id : QueueEntryId;
  qe_pr : PullRequest;
  proof_witness : ProofWitness;
  speculative_sha : option string;
  qe_state : QueueEntryState;
  qe_receipts : list Receipt
}.

(** * Agent scopes *)

Record AgentScope := {
  scope_agent : AgentId;
  scope_repo : RepoId;
  allowed_paths : list string;
  max_paths : N
}.

Definition permits_all (scope : AgentScope) (paths : list string) : bool :=
  negb (bool_decide (paths = []))
  && (N.of_nat (length paths) <=? max_paths scope)%N
  && forallb (λ path,
       existsb (λ prefix, bool_decide (path = prefix) || starts_with path prefix)
         (allowed_paths scope)) paths.

(** * Errors (error.rs) *)

Record AgentRepairHint := {
  hint_purpose : string;
  hint_reason : string;
  common_fixes : list string;
  docs_url : string;
  repair_hint : string
}.

Inductive JeryuError : Type :=
  | NotFound (msg : string)
  | Invalid (msg : string)
  | PolicyDenied (msg : string)
  | Conflict (msg : string)
  | MissingReceipt (msg : string)
  | MissingProofWitness (msg : string).

Definition JeryuError_to_string (e : JeryuError) : string :=
  match e with
  | NotFound msg => "not found: " +:+ msg
  | Invalid msg => "invalid: " +:+ msg
  | PolicyDenied msg => "policy denied: " +:+ msg
  | Conflict msg => "conflict: " +:+ msg
  | MissingReceipt msg => "missing receipt: " +:+ msg
  | MissingProofWitness msg => "missing proof witness: " +:+ msg
  end.

Definition agent_repair_hint (e : JeryuError) : AgentRepairHint :=
  match e with
  | NotFound _ =>
      {| hint_purpose := "load requested domain entity"; hint_reason := "not_found";
         common_fixes :=
           ["verify the repository, pull request, receipt, or queue id";
            "rerun the read model refresh before retrying mutation"];
         docs_url := "docs/errors.md#not-found";
         repair_hint := "rerun the narrow read-model or domain test for the owning path" |}
  | Invalid _ =>
      {| hint_purpose := "validate request boundary"; hint_reason := "invalid_input";
         common_fixes :=
           ["check typed ids and request fields before entering domain code";
            "add a boundary test for the rejected input shape"];
         docs_url := "docs/errors.md#invalid-input";
         repair_hint := "rerun the crate boundary tests and the mapped proof lane" |}
  | PolicyDenied _ =>
      {| hint_purpose := "enforce repository or CI policy"; hint_reason := "policy_denied";
         common_fixes :=
           ["inspect the policy reason list instead of bypassing the guard";
            "add required proof, approval, or trust receipt"];
         docs_url := "docs/errors.md#policy-denied";
         repair_hint := "rerun owner/test-map checks and the policy crate tests" |}
  | Conflict _ =>
      {| hint_purpose := "preserve merge and state consistency"; hint_reason := "conflict";
         common_fixes :=
           ["refresh the base state and recompute the merge witness";
            "retry through the queue instead of mutating state directly"];
         docs_url := "docs/errors.md#conflict";
         repair_hint := "rerun scheduler and merge-queue tests" |}
  | MissingReceipt _ =>
      {| hint_purpose := "bind mutation to durable evidence";
         hint_reason := "missing_receipt";
         common_fixes :=
           ["produce the required signed receipt before retrying";
            "verify the receipt id, digest, and operation kind"];
         docs_url := "docs/errors.md#missing-receipt";
         repair_hint := "rerun the release, cache, or scheduler receipt test for the path" |}
  | MissingProofWitness _ =>
      {| hint_purpose := "prove change eligibility before merge";
         hint_reason := "missing_proof_witness";
         common_fixes :=
           ["run the mapped proof lane for every changed owned path";
            "regenerate the witness at the exact head commit"];
         docs_url := "docs/errors.md#missing-proof-witness";
         repair_hint := "rerun proof-lane checks and merge-queue witness tests" |}
  end.

(** * Lemmas *)

Lemma imp_iff_compat (P Q R : Prop) : (Q ↔ R) → ((P → Q) ↔ (P → R)).
Proof. tauto. Qed.

Lemma permits_all_spec scope paths :
  permits_all scope paths = true ↔
  paths ≠ [] ∧ (N.of_nat (length paths) ≤ max_paths scope)%N
  ∧ ∀ path, path ∈ paths → ∃ prefix rest, prefix ∈ allowed_paths scope
                                          ∧ path = prefix +:+ rest.
Proof.
  unfold permits_all.
  rewrite !andb_true_iff, negb_true_iff, bool_decide_eq_false, N.leb_le, forallb_forall.
  rewrite Logic.and_assoc. do 2 apply and_iff_compat_l.
  apply forall_proper; intros path. rewrite <-list_elem_of_In.
  apply imp_iff_compat. rewrite existsb_exists. split.
  - intros (prefix&Hin%list_elem_of_In&Hx). rewrite orb_true_iff, bool_decide_eq_true in Hx.
    destruct Hx as [->|[t ->]%starts_with_spec]; [|eauto].
    exists prefix, "". by rewrite append_nil_r.
  - intros (prefix&rest&Hin&->). exists prefix. split; [by apply list_elem_of_In|].
    rewrite orb_true_iff. right. apply starts_with_spec. eauto.
Qed.
