(* ===== verification/Planner.v ===== *)
(** Proof: the proof engine (src/components/jeryu-core/crates/jeryu-proof/src):
    path patterns, owner, test and zone rules, proof plans, and the witness that
    verified evidence yields. *)

From S2P Require Import Prelude Text Phase7.

(** * Patterns (matcher.rs) *)

Definition PathPattern : Type := string.

Definition pattern_matches (pattern : PathPattern) (path : string) : bool :=
  if bool_decide (pattern = "**") || bool_decide (pattern = "*") then true
  else
    match strip_suffix "/**" pattern with
    | Some prefix =>
        bool_decide (path = prefix) || starts_with path (prefix +:+ "/")
    | None =>
        match strip_suffix "*" pattern with
        | Some prefix => starts_with path prefix
        | None => bool_decide (pattern = path)
        end
    end.

(** * Rules, plans and evidence (policy.rs) *)

Record OwnerRule := { owner_pattern : PathPattern; rule_owners : list string }.
Record TestRule := { test_pattern : PathPattern; rule_lanes : list string }.

Record GeneratedZone := {
  zone_pattern : PathPattern;
  allow_agent_edits : bool;
  zone_reason : string
}.

Record ProofLane := {
  lane_name : string;
  lane_commands : list string;
  required : bool
}.

Record ChangeSet := {
  cs_repo : RepoId;
  cs_pr : PullRequestId;
  cs_head_sha : string;
  cs_paths : list ChangedPath;
  agent_authored : bool
}.

Record ProofPlan := {
  plan_repo : RepoId;
  plan_pr : PullRequestId;
  plan_head_sha : string;
  plan_paths : list string;
  plan_owners : list string;
  plan_lanes : list ProofLane
}.

Record ProofEvidence := {
  ev_lane : string;
  ev_commands : list string;
  ev_success : bool;
  log_digest : string
}.

Inductive ProofBlocker : Type :=
  | OwnerlessPath (path : string)
  | UnmappedProofLane (path : string)
  | GeneratedZoneEditDenied (path reason : string)
  | MissingEvidence (lane : string)
  | FailedLane (lane : string).

Definition blocker_message (b : ProofBlocker) : string :=
  match b with
  | OwnerlessPath path => "ownerless path blocks merge: " +:+ path
  | UnmappedProofLane path => "unmapped proof lane blocks merge: " +:+ path
  | GeneratedZoneEditDenied path reason =>
      "generated zone edit denied for " +:+ path +:+ ": " +:+ reason
  | MissingEvidence lane => "missing proof evidence for lane: " +:+ lane
  | FailedLane lane => "proof lane failed: " +:+ lane
  end.

(** * The engine (engine.rs) *)

Record ProofEngine := {
  owner_rules : list OwnerRule;
  test_rules : list TestRule;
  generated_zones : list GeneratedZone;
  engine_lanes : gmap string ProofLane
}.

Definition ProofEngine_new (owners : list OwnerRule) (tests : list TestRule)
    (zones : list GeneratedZone) (lanes : list ProofLane) : ProofEngine :=
  {| owner_rules := owners; test_rules := tests; generated_zones := zones;
     engine_lanes := foldl (λ m lane, <[lane_name lane := lane]> m) ∅ lanes |}.

(** The zone that denies the edit, if the first matching one does. *)
Definition denying_zone (e : ProofEngine) (agent : bool) (path : string) :
    option GeneratedZone :=
  match find_first (λ z, pattern_matches (zone_pattern z) path) (generated_zones e) with
  | Some zone => if agent && negb (allow_agent_edits zone) then Some zone else None
  | None => None
  end.

Definition path_owners (e : ProofEngine) (path : string) : list string :=
  concat (rule_owners <$>
    filter (λ r, pattern_matches (owner_pattern r) path = true) (owner_rules e)).

Definition path_lanes (e : ProofEngine) (path : string) : list string :=
  concat (rule_lanes <$>
    filter (λ r, pattern_matches (test_pattern r) path = true) (test_rules e)).

Record PlanState := {
  ps_owners : gset string;
  ps_lane_names : gset string;
  ps_paths : list string
}.

(** One changed path. *)
Definition plan_path (e : ProofEngine) (agent : bool) (st : PlanState)
    (changed : ChangedPath) : result PlanState ProofBlocker :=
  let path := cp_path changed in
  match denying_zone e agent path with
  | Some zone => Err (GeneratedZoneEditDenied path (zone_reason zone))
  | None =>
      let owners := path_owners e path in
      if bool_decide (owners = []) then Err (OwnerlessPath path)
      else
        let lanes := path_lanes e path in
        if bool_decide (lanes = []) then Err (UnmappedProofLane path)
        else
          let names := ps_lane_names st ∪ list_to_set lanes in
          Ok {| ps_owners := ps_owners st ∪ list_to_set owners;
                ps_lane_names := if cp_sensitive changed then names ∪ {["policy"]} else names;
                ps_paths := ps_paths st ++ [path] |}
  end.

Fixpoint plan_loop (e : ProofEngine) (agent : bool) (st : PlanState)
    (paths : list ChangedPath) : result PlanState ProofBlocker :=
  match paths with
  | [] => Ok st
  | p :: paths =>
      match plan_path e agent st p with
      | Ok st' => plan_loop e agent st' paths
      | Err b => Err b
      end
  end.

Fixpoint lanes_loop (e : ProofEngine) (names : list string) (lanes : list ProofLane) :
    result (list ProofLane) ProofBlocker :=
  match names with
  | [] => Ok lanes
  | name :: names =>
      match engine_lanes e !! name with
      | Some lane => lanes_loop e names (lanes ++ [lane])
      | None => Err (UnmappedProofLane name)
      end
  end.

Definition plan (e : ProofEngine) (cs : ChangeSet) : result ProofPlan ProofBlocker :=
  match plan_loop e (agent_authored cs)
          {| ps_owners := ∅; ps_lane_names := ∅; ps_paths := [] |} (cs_paths cs) with
  | Err b => Err b
  | Ok st =>
      match lanes_loop e (bset_iter (ps_lane_names st)) [] with
      | Err b => Err b
      | Ok lanes =>
          Ok {| plan_repo := cs_repo cs; plan_pr := cs_pr cs;
                plan_head_sha := cs_head_sha cs; plan_paths := ps_paths st;
                plan_owners := bset_iter (ps_owners st); plan_lanes := lanes |}
      end
  end.

(** Collecting into a [BTreeMap] keeps the last entry of a lane. *)
Definition evidence_by_lane (evidence : list ProofEvidence) : gmap string ProofEvidence :=
  foldl (λ m entry, <[ev_lane entry := entry]> m) ∅ evidence.

Fixpoint check_lanes (by_lane : gmap string ProofEvidence) (lanes : list ProofLane) :
    result unit ProofBlocker :=
  match lanes with
  | [] => Ok tt
  | lane :: lanes =>
      if negb (required lane) then check_lanes by_lane lanes
      else
        match by_lane !! lane_name lane with
        | None => Err (MissingEvidence (lane_name lane))
        | Some entry =>
            if negb (ev_success entry) then Err (FailedLane (lane_name lane))
            else check_lanes by_lane lanes
        end
  end.

(** [verify] does not use the engine it is called on. *)
Definition verify (p : ProofPlan) (evidence : list ProofEvidence) (w : World) :
    result ProofWitness ProofBlocker * World :=
  match check_lanes (evidence_by_lane evidence) (plan_lanes p) with
  | Err b => (Err b, w)
  | Ok _ =>
      let lane_names := lane_name <$> plan_lanes p in
      let (receipt, w') :=
        Receipt_new RK_ProofWitness (plan_repo p) None (plan_pr p) (plan_head_sha p)
          ("proof witness covers " +:+ show_N (N.of_nat (length (plan_paths p)))
           +:+ " path(s) and " +:+ show_N (N.of_nat (length lane_names)) +:+ " lane(s)")
          ((λ lane, "proof-lane:" +:+ lane) <$> lane_names)
          "none: all required lanes passed" w in
      (Ok {| pw_id := rc_id receipt; pw_repo := plan_repo p; pw_pr := plan_pr p;
             pw_head_sha := plan_head_sha p; pw_changed_paths := plan_paths p;
             pw_lanes := lane_names; pw_owners := plan_owners p;
             pw_receipt := receipt |}, w')
  end.

Definition owner (pattern : string) (owners : list string) : OwnerRule :=
  {| owner_pattern := pattern; rule_owners := owners |}.
Definition test (pattern : string) (lanes : list string) : TestRule :=
  {| test_pattern := pattern; rule_lanes := lanes |}.
Definition lane (name : string) (commands : list string) (req : bool) : ProofLane :=
  {| lane_name := name; lane_commands := commands; required := req |}.

Definition default_phase7_engine : ProofEngine :=
  ProofEngine_new
    [owner "crates/jeryu_core/**" ["@jeryu_core"];
     owner "crates/jeryu_proof/**" ["@jeryu_proof"];
     owner "crates/jeryu_ci_scheduler/**" ["@scheduler"];
     owner "crates/jeryu_agentbridge/**" ["@jeryu_agentbridge"];
     owner "crates/jeryu_phase7_cli/**" ["@phase7"];
     owner "agent/**" ["@jankurai"];
     owner "ops/ci/**" ["@ops"];
     owner "scripts/**" ["@ops"];
     owner "docs/**" ["@docs"; "@phase7"];
     owner "Cargo.toml" ["@phase7"];
     owner "rust-toolchain.toml" ["@phase7"];
     owner "Justfile" ["@ops"; "@phase7"];
     owner "AGENTS.md" ["@jankurai"]]
    [test "crates/jeryu_core/**" ["unit"; "policy"];
     test "crates/jeryu_proof/**" ["unit"; "jankurai-proof"];
     test "crates/jeryu_ci_scheduler/**" ["unit"; "merge-queue-sim"];
     test "crates/jeryu_agentbridge/**" ["unit"; "agent-safety"];
     test "agent/**" ["jankurai-proof"; "policy"];
     test "ops/ci/**" ["local-ci-parity"];
     test "scripts/**" ["local-ci-parity"];
     test "docs/**" ["docs"];
     test "Cargo.toml" ["unit"; "local-ci-parity"];
     test "rust-toolchain.toml" ["unit"; "local-ci-parity"];
     test "Justfile" ["local-ci-parity"];
     test "AGENTS.md" ["jankurai-proof"]]
    [{| zone_pattern := "target/**"; allow_agent_edits := false;
        zone_reason := "Build outputs are generated." |}]
    [lane "unit" ["cargo test --workspace"] true;
     lane "jankurai-proof" ["cargo test -p jeryu_proof"] true;
     lane "merge-queue-sim" ["cargo test -p jeryu_ci_scheduler concurrent"] true;
     lane "agent-safety" ["cargo test -p jeryu_agentbridge"] true;
     lane "local-ci-parity" ["./scripts/ci-local.sh"] true;
     lane "policy" ["cargo test --workspace policy"] true;
     lane "docs" ["cargo test --workspace docs"] false].

(** * Specification *)

(** A changed path passes the three per-path checks. *)
Definition path_ok (e : ProofEngine) (agent : bool) (c : ChangedPath) : Prop :=
  denying_zone e agent (cp_path c) = None
  ∧ path_owners e (cp_path c) ≠ [] ∧ path_lanes e (cp_path c) ≠ [].

Definition path_blocker (e : ProofEngine) (agent : bool) (c : ChangedPath)
    (b : ProofBlocker) : Prop :=
  match denying_zone e agent (cp_path c) with
  | Some zone => b = GeneratedZoneEditDenied (cp_path c) (zone_reason zone)
  | None =>
      (path_owners e (cp_path c) = [] ∧ b = OwnerlessPath (cp_path c))
      ∨ (path_owners e (cp_path c) ≠ [] ∧ path_lanes e (cp_path c) = []
         ∧ b = UnmappedProofLane (cp_path c))
  end.

Definition needs_owner (e : ProofEngine) (cs : list ChangedPath) (o : string) : Prop :=
  ∃ c, c ∈ cs ∧ o ∈ path_owners e (cp_path c).

Definition needs_lane (e : ProofEngine) (cs : list ChangedPath) (name : string) : Prop :=
  ∃ c, c ∈ cs ∧ (name ∈ path_lanes e (cp_path c)
                 ∨ (cp_sensitive c = true ∧ name = "policy")).

(** The evidence that counts for a lane: the last entry that names it. *)
Definition last_evidence (evidence : list ProofEvidence) (name : string) :
    option ProofEvidence :=
  find_first (λ e, bool_decide (ev_lane e = name)) (reverse evidence).

Definition lane_proven (evidence : list ProofEvidence) (l : ProofLane) : Prop :=
  required l = true →
  ∃ entry, last_evidence evidence (lane_name l) = Some entry ∧ ev_success entry = true.

Record witness_covers (p : ProofPlan) (x : ProofWitness) : Prop := {
  wc_repo : pw_repo x = plan_repo p;
  wc_pr : pw_pr x = plan_pr p;
  wc_head : pw_head_sha x = plan_head_sha p;
  wc_paths : pw_changed_paths x = plan_paths p;
  wc_lanes : pw_lanes x = lane_name <$> plan_lanes p;
  wc_owners : pw_owners x = plan_owners p;
  wc_id : pw_id x = rc_id (pw_receipt x);
  wc_sha : rc_sha (pw_receipt x) = plan_head_sha p
}.

(** * Lemmas *)

Lemma pattern_tree prefix path :
  pattern_matches (prefix +:+ "/**") path = true ↔
  path = prefix ∨ (∃ rest, path = prefix +:+ "/" +:+ rest) ∨ prefix +:+ "/**" = "**".
Proof.
  unfold pattern_matches.
  assert (strip_suffix "/**" (prefix +:+ "/**") = Some prefix) as Hs
    by by apply strip_suffix_Some.
  rewrite Hs. assert (prefix +:+ "/**" ≠ "**" ∧ prefix +:+ "/**" ≠ "*") as [H1 H2].
  { split; intros H%(f_equal String.length); rewrite length_append in H; cbn in H; lia. }
  rewrite !bool_decide_false by done. cbn [orb].
  rewrite orb_true_iff, bool_decide_eq_true, starts_with_spec.
  setoid_rewrite append_assoc. naive_solver.
Qed.

Lemma plan_path_ok e agent st c st' :
  plan_path e agent st c = Ok st' ↔
  path_ok e agent c ∧
  st' = {| ps_owners := ps_owners st ∪ list_to_set (path_owners e (cp_path c));
           ps_lane_names :=
             if cp_sensitive c
             then ps_lane_names st ∪ list_to_set (path_lanes e (cp_path c)) ∪ {["policy"]}
             else ps_lane_names st ∪ list_to_set (path_lanes e (cp_path c));
           ps_paths := ps_paths st ++ [cp_path c] |}.
Proof.
  unfold plan_path, path_ok.
  destruct (denying_zone e agent (cp_path c)); [naive_solver|].
  case_bool_decide; [naive_solver|]. case_bool_decide; [naive_solver|].
  split; [by intros [= <-]|by intros [_ ->]].
Qed.

Lemma plan_path_err e agent st c b :
  plan_path e agent st c = Err b ↔ path_blocker e agent c b.
Proof.
  unfold plan_path, path_blocker.
  destruct (denying_zone e agent (cp_path c)); [naive_solver|].
  case_bool_decide; [naive_solver|]. case_bool_decide; naive_solver.
Qed.

Lemma exists_cons {A} (P : A → Prop) x l :
  (∃ y, y ∈ x :: l ∧ P y) ↔ P x ∨ ∃ y, y ∈ l ∧ P y.
Proof. setoid_rewrite elem_of_cons. naive_solver. Qed.

Lemma plan_loop_ok e agent cs st st' :
  plan_loop e agent st cs = Ok st' →
  Forall (path_ok e agent) cs
  ∧ (∀ o, o ∈ ps_owners st' ↔ o ∈ ps_owners st ∨ needs_owner e cs o)
  ∧ (∀ n, n ∈ ps_lane_names st' ↔ n ∈ ps_lane_names st ∨ needs_lane e cs n)
  ∧ ps_paths st' = ps_paths st ++ (cp_path <$> cs).
Proof.
  unfold needs_owner, needs_lane.
  revert st. induction cs as [|c cs IH]; intros st; cbn [plan_loop].
  - intros [= <-]. rewrite app_nil_r. split_and!; [done| | |done];
      intros x; (split; [by left|]); by intros [?|(?&[]%elem_of_nil&_)].
  - destruct (plan_path e agent st c) as [st1|] eqn:Hc; [|done].
    apply plan_path_ok in Hc as [Hok ->]. intros (Hall&Ho&Hl&Hp)%IH.
    cbn [ps_owners ps_lane_names ps_paths] in *. split_and!.
    + by constructor.
    + intros o. rewrite Ho, exists_cons, elem_of_union, elem_of_list_to_set. tauto.
    + intros n. rewrite Hl, exists_cons. destruct (cp_sensitive c);
        rewrite !elem_of_union, ?elem_of_singleton, elem_of_list_to_set; naive_solver.
    + by rewrite Hp, fmap_cons, <-app_assoc.
Qed.

Lemma plan_loop_err e agent cs st b :
  plan_loop e agent st cs = Err b →
  ∃ l1 c l2, cs = l1 ++ c :: l2 ∧ Forall (path_ok e agent) l1 ∧ path_blocker e agent c b.
Proof.
  revert st. induction cs as [|c cs IH]; intros st; cbn [plan_loop]; [done|].
  destruct (plan_path e agent st c) as [st1|b1] eqn:Hc.
  - apply plan_path_ok in Hc as [Hok _]. intros (l1&c'&l2&->&Hall&Hb)%IH.
    exists (c :: l1), c', l2. split_and!; [done|by constructor|done].
  - intros [= <-]. apply plan_path_err in Hc. by exists [], c, cs.
Qed.

Lemma lanes_loop_spec e names acc :
  match lanes_loop e names acc with
  | Ok lanes => ∃ ls, lanes = acc ++ ls
      ∧ Forall2 (λ n l, engine_lanes e !! n = Some l) names ls
  | Err b => ∃ n, n ∈ names ∧ engine_lanes e !! n = None ∧ b = UnmappedProofLane n
  end.
Proof.
  revert acc. induction names as [|n names IH]; intros acc; cbn [lanes_loop].
  - exists []. by rewrite app_nil_r.
  - destruct (engine_lanes e !! n) as [l|] eqn:Hn.
    + specialize (IH (acc ++ [l])). destruct (lanes_loop e names (acc ++ [l])).
      * destruct IH as (ls&->&Hls). exists (l :: ls). rewrite <-app_assoc. by repeat constructor.
      * destruct IH as (n'&?&?&?). exists n'. set_solver.
    + exists n. set_solver.
Qed.

(** What blocks a change set. *)
Definition plan_blocker (e : ProofEngine) (cs : ChangeSet) (b : ProofBlocker) : Prop :=
  (∃ l1 c l2, cs_paths cs = l1 ++ c :: l2
     ∧ Forall (path_ok e (agent_authored cs)) l1 ∧ path_blocker e (agent_authored cs) c b)
  ∨ (Forall (path_ok e (agent_authored cs)) (cs_paths cs)
     ∧ ∃ name, needs_lane e (cs_paths cs) name ∧ engine_lanes e !! name = None
               ∧ b = UnmappedProofLane name).

Lemma plan_ok_fields e cs p :
  plan e cs = Ok p →
  plan_repo p = cs_repo cs ∧ plan_pr p = cs_pr cs ∧ plan_head_sha p = cs_head_sha cs
  ∧ plan_paths p = cp_path <$> cs_paths cs.
Proof.
  unfold plan. destruct (plan_loop _ _ _ _) as [st|] eqn:Hl; [|done].
  destruct (lanes_loop _ _ _) as [lanes|]; [|done]. intros [= <-]. cbn.
  by apply plan_loop_ok in Hl as (_&_&_&->).
Qed.

(** A plan is made exactly when no changed path lies in a zone that denies the
    edit, every path has owners and lanes, and every lane is defined. It then
    lists the paths in order, exactly the owners and lanes those paths call for
    (with the policy lane for sensitive paths), each once and sorted. Otherwise
    the first blocking path, or an undefined lane, is reported. *)
Theorem plan_spec e cs :
  match plan e cs with
  | Ok p =>
      plan_repo p = cs_repo cs ∧ plan_pr p = cs_pr cs ∧ plan_head_sha p = cs_head_sha cs
      ∧ Forall (path_ok e (agent_authored cs)) (cs_paths cs)
      ∧ plan_paths p = cp_path <$> cs_paths cs
      ∧ NoDup (plan_owners p)
      ∧ (∀ o, o ∈ plan_owners p ↔ needs_owner e (cs_paths cs) o)
      ∧ ∃ names, NoDup names
          ∧ StronglySorted (λ a b, String.leb a b = true) names
          ∧ (∀ n, n ∈ names ↔ needs_lane e (cs_paths cs) n)
          ∧ Forall2 (λ n l, engine_lanes e !! n = Some l) names (plan_lanes p)
  | Err b => plan_blocker e cs b
  end.
Proof.
  unfold plan. destruct (plan_loop _ _ _ _) as [st|b] eqn:Hl.
  - apply plan_loop_ok in Hl as (Hall&Ho&Hn&Hp). cbn [ps_owners ps_lane_names ps_paths] in *.
    pose proof (lanes_loop_spec e (bset_iter (ps_lane_names st)) []) as Hs.
    destruct (lanes_loop _ _ _) as [lanes|b].
    + destruct Hs as (ls&->&Hls). cbn. split_and!; try done.
      * apply bset_iter_NoDup.
      * intros o. rewrite elem_of_bset_iter, Ho. set_solver.
      * exists (bset_iter (ps_lane_names st)). split_and!; [apply bset_iter_NoDup|
          apply bset_iter_sorted| |done].
        intros n. rewrite elem_of_bset_iter, Hn. set_solver.
    + destruct Hs as (n&Hin&Hnone&->). right. split; [done|]. exists n.
      rewrite elem_of_bset_iter, Hn in Hin. split_and!; [set_solver|done..].
  - left. by eapply plan_loop_err.
Qed.

(** ** Evidence *)

Lemma evidence_by_lane_lookup evidence name :
  evidence_by_lane evidence !! name = last_evidence evidence name.
Proof.
  unfold evidence_by_lane, last_evidence. rewrite <-(reverse_involutive evidence) at 1.
  induction (reverse evidence) as [|x l IH]; [done|].
  rewrite reverse_cons, foldl_snoc. cbn [find_first].
  case_bool_decide as Hx; [subst; by rewrite lookup_insert_eq|].
  by rewrite lookup_insert_ne.
Qed.

Lemma check_lanes_spec evidence lanes :
  match check_lanes (evidence_by_lane evidence) lanes with
  | Ok _ => Forall (lane_proven evidence) lanes
  | Err b => ∃ l, l ∈ lanes ∧ ¬ lane_proven evidence l
      ∧ b = match last_evidence evidence (lane_name l) with
            | None => MissingEvidence (lane_name l)
            | Some _ => FailedLane (lane_name l)
            end
  end.
Proof.
  induction lanes as [|l lanes IH]; cbn [check_lanes]; [done|].
  destruct (required l) eqn:Hr; cbn [negb].
  - rewrite evidence_by_lane_lookup.
    destruct (last_evidence evidence (lane_name l)) as [x|] eqn:Hx.
    + destruct (ev_success x) eqn:Hs; cbn [negb].
      * destruct (check_lanes _ lanes) as [[]|b].
        -- constructor; [|done]. intros _. eauto.
        -- destruct IH as (l'&Hin&Hn&->). exists l'. split_and!; [by right|done..].
      * exists l. rewrite Hx. split_and!; [by left| |done]. intros H.
        destruct (H Hr) as (y&Hy&Hsy). congruence.
    + exists l. rewrite Hx. split_and!; [by left| |done]. intros H.
      destruct (H Hr) as (y&Hy&Hsy). congruence.
  - destruct (check_lanes _ lanes) as [[]|b].
    + constructor; [|done]. by intros Hr'; rewrite Hr' in Hr.
    + destruct IH as (l'&Hin&Hn&->). exists l'. split_and!; [by right|done..].
Qed.

Lemma verify_ok_covers p evidence w x w' :
  verify p evidence w = (Ok x, w') → witness_covers p x.
Proof.
  unfold verify. destruct (check_lanes _ _); [|done]. intros [= <- <-]. by split.
Qed.

Lemma verify_ok p evidence w :
  Forall (lane_proven evidence) (plan_lanes p) → ∃ x w', verify p evidence w = (Ok x, w').
Proof.
  unfold verify. pose proof (check_lanes_spec evidence (plan_lanes p)) as H.
  destruct (check_lanes _ _) as [[]|b]; [by do 2 eexists|].
  destruct H as (l&Hin&Hn&_). rewrite Forall_forall. intros Hall. destruct (Hn (Hall l Hin)).
Qed.

(** A witness is minted exactly when the last evidence entry of every required
    lane of the plan is a success; it covers exactly the plan. Otherwise an
    unproven lane is reported, as missing or as failed, and no id is drawn. *)
Theorem verify_spec p evidence w :
  match verify p evidence w with
  | (Ok x, w') => Forall (lane_proven evidence) (plan_lanes p) ∧ witness_covers p x
                  ∧ next_id w' = wrapping_add64 (next_id w) 1
  | (Err b, w') =>
      w' = w ∧ ∃ l, l ∈ plan_lanes p ∧ ¬ lane_proven evidence l
      ∧ b = match last_evidence evidence (lane_name l) with
            | None => MissingEvidence (lane_name l)
            | Some _ => FailedLane (lane_name l)
            end
  end.
Proof.
  unfold verify. pose proof (check_lanes_spec evidence (plan_lanes p)) as H.
  destruct (check_lanes _ _) as [[]|b]; [|done].
  split_and!; [exact H|by split|done].
Qed.
