(* ===== verification/MergeQueue.v ===== *)
(** MergeQueue: the merge queue and the simulation that drives it
    (src/components/jeryu-ci-runner/crates/jeryu-ci-scheduler/src/merge_queue.rs and
    simulation.rs).

    The validator trait is a class; what the queue promises is proved for every
    validator that refuses overlapping paths, as [DeterministicValidator] does. *)

From Stdlib Require Import Ascii.
From S2P Require Import Prelude Text Phase7 Planner.

(** * Validation *)

Record SpeculativeValidation := {
  val_entry_id : QueueEntryId;
  val_pr : PullRequest;
  val_speculative_sha : string;
  accepted_paths_ahead : gset string
}.

Inductive ValidationOutcome : Type :=
  | Passed
  | Failed (reason : string).

Class SpeculativeValidator (V : Type) := {
  validate : V → SpeculativeValidation → ValidationOutcome
}.

Inductive DeterministicValidator : Type := deterministic_validator.

Definition deterministic_validate (_ : DeterministicValidator)
    (v : SpeculativeValidation) : ValidationOutcome :=
  match head (bset_iter (changed_path_set (val_pr v) ∩ accepted_paths_ahead v)) with
  | Some conflict_path => Failed ("path conflict: " +:+ conflict_path)
  | None => Passed
  end.

#[export] Instance DeterministicValidator_validator :
  SpeculativeValidator DeterministicValidator := { validate := deterministic_validate }.

(** * The queue *)

Record QueueSummary := {
  sum_mergeable : nat;
  sum_conflicts : nat;
  sum_failed : nat;
  sum_processed : nat
}.

Definition QueueSummary_default : QueueSummary :=
  {| sum_mergeable := 0; sum_conflicts := 0; sum_failed := 0; sum_processed := 0 |}.

Record MergeQueue := {
  entries : list QueueEntry;
  accepted_paths : gset string
}.

Definition MergeQueue_new : MergeQueue := {| entries := []; accepted_paths := ∅ |}.

(** The guards of [enqueue]. *)
Definition admission_error (pr : PullRequest) (witness : option ProofWitness) :
    result ProofWitness JeryuError :=
  match witness with
  | None => Err (MissingProofWitness
      ("PR " +:+ pr_id pr +:+ " cannot enter merge queue without proof witness"))
  | Some x =>
      if negb (bool_decide (pw_repo x = pr_repo pr))
         || negb (bool_decide (pw_pr x = pr_id pr))
         || negb (bool_decide (pw_head_sha x = head_sha pr))
      then Err (MissingProofWitness
        ("proof witness " +:+ pw_id x +:+ " does not cover PR " +:+ pr_id pr
         +:+ " at head " +:+ head_sha pr))
      else if negb (bool_decide (changed_path_set pr = list_to_set (pw_changed_paths x)))
      then Err (MissingProofWitness
        ("proof witness " +:+ pw_id x +:+ " path set does not match PR " +:+ pr_id pr))
      else Ok x
  end.

Definition enqueue (q : MergeQueue) (pr : PullRequest) (witness : option ProofWitness)
    (w : World) : result QueueEntryId JeryuError * MergeQueue * World :=
  match admission_error pr witness with
  | Err e => (Err e, q, w)
  | Ok x =>
      let (entry_id, w1) := QueueEntryId_fresh w in
      let (receipt, w2) :=
        Receipt_new RK_MergeQueue (pr_repo pr) None entry_id (head_sha pr)
          ("PR " +:+ pr_id pr +:+ " admitted to merge queue")
          ["merge_queue.enqueue"] "none: proof witness accepted" w1 in
      (Ok entry_id,
       {| entries := entries q ++
            [{| qe_id := entry_id; qe_pr := pr; proof_witness := x;
                speculative_sha := None; qe_state := Queued; qe_receipts := [receipt] |}];
          accepted_paths := accepted_paths q |}, w2)
  end.

Definition synthetic_sha (pr : PullRequest) : string :=
  "synthetic-" +:+ replace_char "/"%char "_" (target_branch pr) +:+ "-"
  +:+ base_sha pr +:+ "-" +:+ head_sha pr.

Definition is_mergeable (x : QueueEntry) : bool := bool_decide (qe_state x = Mergeable).
Definition is_queued (x : QueueEntry) : bool := bool_decide (qe_state x = Queued).

(** The first loop of [process_all]. *)
Definition paths_already_accepted (q : MergeQueue) : gset string :=
  foldl (λ acc x, if is_mergeable x then acc ∪ changed_path_set (qe_pr x) else acc)
    (accepted_paths q) (entries q).

(** An entry after its outcome: the new state and one more receipt. *)
Definition settle (x : QueueEntry) (sha : string) (s : QueueEntryState) (r : Receipt) :
    QueueEntry :=
  {| qe_id := qe_id x; qe_pr := qe_pr x; proof_witness := proof_witness x;
     speculative_sha := Some sha; qe_state := s; qe_receipts := qe_receipts x ++ [r] |}.

Record QueueLoop := {
  ql_accepted : gset string;
  ql_summary : QueueSummary;
  ql_world : World
}.

Section process.
Context `{SpeculativeValidator V}.

(** One turn of the second loop: the entry and the loop's variables. *)
Definition process_entry (validator : V) (st : QueueLoop) (x : QueueEntry) :
    QueueEntry * QueueLoop :=
  if negb (is_queued x) then (x, st)
  else
    let sm := ql_summary st in
    let sha := synthetic_sha (qe_pr x) in
    let validation :=
      {| val_entry_id := qe_id x; val_pr := qe_pr x; val_speculative_sha := sha;
         accepted_paths_ahead := ql_accepted st |} in
    match validate validator validation with
    | Passed =>
        let (r, w) := Receipt_new RK_MergeQueue (pr_repo (qe_pr x)) None (qe_id x) sha
          "speculative merge validation passed" ["merge_queue.speculative_validate"]
          "none" (ql_world st) in
        (settle x sha Mergeable r,
         {| ql_accepted := ql_accepted st ∪ changed_path_set (qe_pr x);
            ql_summary := {| sum_mergeable := S (sum_mergeable sm);
              sum_conflicts := sum_conflicts sm; sum_failed := sum_failed sm;
              sum_processed := S (sum_processed sm) |};
            ql_world := w |})
    | Failed reason =>
        if starts_with reason "path conflict:"
        then
          let (r, w) := Receipt_new RK_MergeQueue (pr_repo (qe_pr x)) None (qe_id x)
            (head_sha (qe_pr x)) ("dequeued due to conflict: " +:+ reason)
            ["merge_queue.conflict_dequeue"] "requires rebase or manual resolution"
            (ql_world st) in
          (settle x sha DequeuedConflict r,
           {| ql_accepted := ql_accepted st;
              ql_summary := {| sum_mergeable := sum_mergeable sm;
                sum_conflicts := S (sum_conflicts sm); sum_failed := sum_failed sm;
                sum_processed := S (sum_processed sm) |};
              ql_world := w |})
        else
          let (r, w) := Receipt_new RK_MergeQueue (pr_repo (qe_pr x)) None (qe_id x)
            (head_sha (qe_pr x)) ("dequeued due to failed validation: " +:+ reason)
            ["merge_queue.validation_dequeue"] "validation failure must be repaired"
            (ql_world st) in
          (settle x sha DequeuedFailedValidation r,
           {| ql_accepted := ql_accepted st;
              ql_summary := {| sum_mergeable := sum_mergeable sm;
                sum_conflicts := sum_conflicts sm; sum_failed := S (sum_failed sm);
                sum_processed := S (sum_processed sm) |};
              ql_world := w |})
    end.

Fixpoint process_loop (validator : V) (st : QueueLoop) (xs : list QueueEntry) :
    list QueueEntry * QueueLoop :=
  match xs with
  | [] => ([], st)
  | x :: xs =>
      let (x', st1) := process_entry validator st x in
      let (xs', st2) := process_loop validator st1 xs in
      (x' :: xs', st2)
  end.

Definition process_all (q : MergeQueue) (validator : V) (w : World) :
    QueueSummary * MergeQueue * World :=
  let (xs, st) := process_loop validator
    {| ql_accepted := paths_already_accepted q; ql_summary := QueueSummary_default;
       ql_world := w |} (entries q) in
  (ql_summary st, {| entries := xs; accepted_paths := ql_accepted st |}, ql_world st).
End process.

(** * The simulation (simulation.rs) *)

Record SimulationReceipt := {
  requested_prs : nat;
  sim_summary : QueueSummary
}.

Definition simulation_pr (i : nat) : PullRequest :=
  let n := show_N (N.of_nat i) in
  {| pr_repo := "repo_phase7"; pr_id := "pr_" +:+ n; source_branch := "agent/pr-" +:+ n;
     target_branch := "main"; base_sha := "base001"; head_sha := "head" +:+ pad_left 3 n;
     changed_paths := [ChangedPath_new
       ("crates/jeryu_ci_scheduler/src/generated_unique_" +:+ n +:+ ".rs")] |}.

Definition change_set_of (pr : PullRequest) : ChangeSet :=
  {| cs_repo := pr_repo pr; cs_pr := pr_id pr; cs_head_sha := head_sha pr;
     cs_paths := changed_paths pr; agent_authored := false |}.

Definition simulation_evidence (i : nat) (p : ProofPlan) : list ProofEvidence :=
  (λ l, {| ev_lane := lane_name l; ev_commands := lane_commands l; ev_success := true;
           log_digest := "digest:" +:+ lane_name l +:+ ":" +:+ show_N (N.of_nat i) |})
    <$> plan_lanes p.

(** What a worker does before it takes the lock; [None] is a failed [expect]. *)
Definition simulation_mint (i : nat) (w : World) : option ProofWitness * World :=
  match plan default_phase7_engine (change_set_of (simulation_pr i)) with
  | Err _ => (None, w)
  | Ok p =>
      match verify p (simulation_evidence i p) w with
      | (Err _, w') => (None, w')
      | (Ok x, w') => (Some x, w')
      end
  end.

(** The workers and what they share: the queue under its lock and the process's ids
    and clock. Each worker holds nothing, then its witness, then is done; the
    scheduler picks any worker that has a step left. The draws one action makes on the
    id counter and the clock are taken together; no outcome depends on them. *)
Inductive SimWorker : Type :=
  | SW_Start
  | SW_Minted (x : ProofWitness)
  | SW_Done
  | SW_Panicked.

Record SimState := {
  sim_queue : MergeQueue;
  sim_world : World;
  sim_workers : list SimWorker
}.

Definition SimState_init (prs : nat) (w : World) : SimState :=
  {| sim_queue := MergeQueue_new; sim_world := w; sim_workers := replicate prs SW_Start |}.

Inductive sim_step : SimState → SimState → Prop :=
  | sim_mint s i x w' :
      sim_workers s !! i = Some SW_Start →
      simulation_mint i (sim_world s) = (Some x, w') →
      sim_step s {| sim_queue := sim_queue s; sim_world := w';
                    sim_workers := <[i := SW_Minted x]> (sim_workers s) |}
  | sim_mint_panic s i w' :
      sim_workers s !! i = Some SW_Start →
      simulation_mint i (sim_world s) = (None, w') →
      sim_step s {| sim_queue := sim_queue s; sim_world := w';
                    sim_workers := <[i := SW_Panicked]> (sim_workers s) |}
  | sim_enqueue s i x id q' w' :
      sim_workers s !! i = Some (SW_Minted x) →
      enqueue (sim_queue s) (simulation_pr i) (Some x) (sim_world s) = (Ok id, q', w') →
      sim_step s {| sim_queue := q'; sim_world := w';
                    sim_workers := <[i := SW_Done]> (sim_workers s) |}
  | sim_enqueue_panic s i x e q' w' :
      sim_workers s !! i = Some (SW_Minted x) →
      enqueue (sim_queue s) (simulation_pr i) (Some x) (sim_world s) = (Err e, q', w') →
      sim_step s {| sim_queue := q'; sim_world := w';
                    sim_workers := <[i := SW_Panicked]> (sim_workers s) |}.

(** After the joins: the main thread processes the queue. *)
Definition simulation_finish (prs : nat) (s : SimState) : SimulationReceipt :=
  {| requested_prs := prs;
     sim_summary :=
       (process_all (sim_queue s) deterministic_validator (sim_world s)).1.1 |}.

(** * Specification *)

(** The law a validator owes the queue: it passes no change that touches a path
    already accepted ahead of it. *)
Class ConflictSound (V : Type) `{SpeculativeValidator V} : Prop :=
  conflict_sound (validator : V) (v : SpeculativeValidation) :
    validate validator v = Passed → changed_path_set (val_pr v) ## accepted_paths_ahead v.

Inductive queue_step : MergeQueue * World → MergeQueue * World → Prop :=
  | step_enqueue q w pr witness :
      queue_step (q, w) ((enqueue q pr witness w).1.2, (enqueue q pr witness w).2)
  | step_process `{ConflictSound V} (validator : V) q w :
      queue_step (q, w) ((process_all q validator w).1.2, (process_all q validator w).2).

(** The witness an entry was admitted with is about the entry's change. *)
Record covered (x : QueueEntry) : Prop := {
  cov_repo : pw_repo (proof_witness x) = pr_repo (qe_pr x);
  cov_pr : pw_pr (proof_witness x) = pr_id (qe_pr x);
  cov_head : pw_head_sha (proof_witness x) = head_sha (qe_pr x);
  cov_paths : list_to_set (pw_changed_paths (proof_witness x)) = changed_path_set (qe_pr x)
}.

(** The accepted paths of the entries [xs], and that no two mergeable ones share
    a path. *)
Record consistent (acc : gset string) (xs : list QueueEntry) : Prop := {
  cs_accepted : ∀ p, p ∈ acc ↔
    ∃ i x, xs !! i = Some x ∧ qe_state x = Mergeable ∧ p ∈ changed_path_set (qe_pr x);
  cs_disjoint : ∀ i j x y, i ≠ j → xs !! i = Some x → xs !! j = Some y →
    qe_state x = Mergeable → qe_state y = Mergeable →
    changed_path_set (qe_pr x) ## changed_path_set (qe_pr y)
}.

Record wf_queue (q : MergeQueue) : Prop := {
  wq_covered : Forall covered (entries q);
  wq_settled : Forall (λ x, qe_state x ≠ SpeculativeMergeTesting) (entries q);
  wq_consistent : consistent (accepted_paths q) (entries q)
}.

(** What processing does to an entry, whatever the validator. *)
Record entry_processed (x x' : QueueEntry) : Prop := {
  ep_id : qe_id x' = qe_id x;
  ep_pr : qe_pr x' = qe_pr x;
  ep_witness : proof_witness x' = proof_witness x;
  ep_other : qe_state x ≠ Queued → x' = x;
  ep_queued : qe_state x = Queued →
    speculative_sha x' = Some (synthetic_sha (qe_pr x))
    ∧ (qe_state x' = Mergeable ∨ qe_state x' = DequeuedConflict
       ∨ qe_state x' = DequeuedFailedValidation)
    ∧ length (qe_receipts x') = S (length (qe_receipts x))
}.

Definition count_queued (xs : list QueueEntry) : nat :=
  length (filter (λ x, qe_state x = Queued) xs).

Definition count_settled (s : QueueEntryState) (xs xs' : list QueueEntry) : nat :=
  length (filter (λ p, qe_state p.1 = Queued ∧ qe_state p.2 = s) (zip xs xs')).

(** First come, first served: the states a conflict-free queue settles in. *)
Fixpoint greedy (acc : gset string) (xs : list QueueEntry) : list QueueEntryState :=
  match xs with
  | [] => []
  | x :: xs =>
      if is_queued x
      then
        if decide (changed_path_set (qe_pr x) ## acc)
        then Mergeable :: greedy (acc ∪ changed_path_set (qe_pr x)) xs
        else DequeuedConflict :: greedy acc xs
      else qe_state x :: greedy acc xs
  end.

(** * Admission *)

Lemma admission_ok pr witness x :
  admission_error pr witness = Ok x ↔
  witness = Some x ∧ pw_repo x = pr_repo pr ∧ pw_pr x = pr_id pr
  ∧ pw_head_sha x = head_sha pr ∧ list_to_set (pw_changed_paths x) = changed_path_set pr.
Proof.
  unfold admission_error. destruct witness as [y|]; [|naive_solver].
  destruct (_ || _) eqn:Ho.
  - split; [done|]. intros ([= ->]&H1&H2&H3&_). rewrite H1, H2, H3 in Ho.
    by rewrite !bool_decide_true in Ho.
  - rewrite !orb_false_iff, !negb_false_iff, !bool_decide_eq_true in Ho.
    destruct Ho as [[H1 H2] H3]. case_bool_decide as Hp; cbn.
    + split; [intros [= <-]; by split_and!|]. by intros ([= ->]&_).
    + split; [done|]. intros ([= ->]&_&_&_&Heq). by rewrite Heq in Hp.
Qed.

Lemma admission_err pr witness e :
  admission_error pr witness = Err e → ∃ msg, e = MissingProofWitness msg.
Proof. unfold admission_error. repeat case_match; naive_solver. Qed.

(** A pull request enters the queue exactly with a witness for its repository,
    id, head and path set; it goes to the back of the queue, and everything ahead
    stays as it was. Otherwise the error says the witness is missing and nothing
    changes, no id is drawn. *)
Theorem enqueue_spec q pr witness w :
  match enqueue q pr witness w with
  | (Ok id, q', w') =>
      ∃ x, witness = Some x ∧ accepted_paths q' = accepted_paths q
      ∧ (∃ entry, entries q' = entries q ++ [entry] ∧ qe_id entry = id ∧ qe_pr entry = pr
           ∧ proof_witness entry = x ∧ covered entry ∧ qe_state entry = Queued)
  | (Err e, q', w') =>
      q' = q ∧ w' = w ∧ (∃ msg, e = MissingProofWitness msg)
      ∧ ∀ x, witness = Some x →
          ¬ (pw_repo x = pr_repo pr ∧ pw_pr x = pr_id pr ∧ pw_head_sha x = head_sha pr
             ∧ list_to_set (pw_changed_paths x) = changed_path_set pr)
  end.
Proof.
  unfold enqueue. destruct (admission_error pr witness) as [x|e] eqn:Ha.
  - pose proof Ha as (->&H1&H2&H3&H4)%admission_ok. cbn.
    exists x. split_and!; [done|done|]. eexists. split_and!; [done..| |done]. by split.
  - split_and!; [done|done|by eapply admission_err|]. intros x -> Hx.
    assert (admission_error pr (Some x) = Ok x) by by apply admission_ok. congruence.
Qed.

(** * Processing *)

Section processing.
Context `{SpeculativeValidator V}.
Implicit Types (validator : V) (st : QueueLoop).

Lemma process_entry_cases validator st x :
  (qe_state x ≠ Queued ∧ process_entry validator st x = (x, st))
  ∨ (qe_state x = Queued ∧ ∃ r s acc w' dm dc df,
      process_entry validator st x =
        (settle x (synthetic_sha (qe_pr x)) s r,
         {| ql_accepted := acc;
            ql_summary :=
              {| sum_mergeable := dm + sum_mergeable (ql_summary st);
                 sum_conflicts := dc + sum_conflicts (ql_summary st);
                 sum_failed := df + sum_failed (ql_summary st);
                 sum_processed := S (sum_processed (ql_summary st)) |};
            ql_world := w' |})
      ∧ ((s = Mergeable ∧ acc = ql_accepted st ∪ changed_path_set (qe_pr x)
            ∧ (dm, dc, df) = (1, 0, 0)
            ∧ validate validator
                {| val_entry_id := qe_id x; val_pr := qe_pr x;
                   val_speculative_sha := synthetic_sha (qe_pr x);
                   accepted_paths_ahead := ql_accepted st |} = Passed)
         ∨ (s = DequeuedConflict ∧ acc = ql_accepted st ∧ (dm, dc, df) = (0, 1, 0))
         ∨ (s = DequeuedFailedValidation ∧ acc = ql_accepted st
            ∧ (dm, dc, df) = (0, 0, 1)))).
Proof.
  unfold process_entry, is_queued. case_bool_decide as Hq; [right|by left].
  split; [done|]. cbn [negb].
  destruct (validate _ _) as [|reason] eqn:Hv.
  - do 4 eexists. exists 1, 0, 0. split; [reflexivity|]. left. by split_and!.
  - destruct (starts_with _ _).
    + do 4 eexists. exists 0, 1, 0. split; [reflexivity|]. right; left. by split_and!.
    + do 4 eexists. exists 0, 0, 1. split; [reflexivity|]. right; right. by split_and!.
Qed.

Lemma process_entry_processed validator st x x' st' :
  process_entry validator st x = (x', st') → entry_processed x x'.
Proof.
  intros Heq. destruct (process_entry_cases validator st x)
    as [[Hq Hp]|(Hq&r&s&acc&w'&dm&dc&df&Hp&Hs)]; rewrite Hp in Heq;
    injection Heq as <- <-; split; try done.
  intros _. split_and!; [done| |cbn; rewrite length_app; cbn; lia].
  destruct Hs as [(->&_)|[(->&_)|(->&_)]]; auto.
Qed.

Lemma process_loop_processed validator st xs xs' st' :
  process_loop validator st xs = (xs', st') → Forall2 entry_processed xs xs'.
Proof.
  revert st xs' st'. induction xs as [|x xs IH]; intros st xs' st'; cbn.
  - intros [= <- <-]. constructor.
  - destruct (process_entry validator st x) as [x1 st1] eqn:Hx.
    destruct (process_loop validator st1 xs) as [xs1 st2] eqn:Hxs.
    intros [= <- <-]. constructor; [by eapply process_entry_processed|by eapply IH].
Qed.

Lemma process_loop_counts validator st xs xs' st' :
  process_loop validator st xs = (xs', st') →
  sum_processed (ql_summary st') = sum_processed (ql_summary st) + count_queued xs
  ∧ sum_mergeable (ql_summary st')
    = sum_mergeable (ql_summary st) + count_settled Mergeable xs xs'
  ∧ sum_conflicts (ql_summary st')
    = sum_conflicts (ql_summary st) + count_settled DequeuedConflict xs xs'
  ∧ sum_failed (ql_summary st')
    = sum_failed (ql_summary st) + count_settled DequeuedFailedValidation xs xs'.
Proof.
  unfold count_queued, count_settled.
  revert st xs' st'. induction xs as [|x xs IH]; intros st xs' st'; cbn [process_loop].
  - intros [= <- <-]. cbn. lia.
  - destruct (process_entry validator st x) as [x1 st1] eqn:Hx.
    destruct (process_loop validator st1 xs) as [xs1 st2] eqn:Hxs.
    intros [= <- <-]. apply IH in Hxs as (H1&H2&H3&H4).
    cbn [zip zip_with]. rewrite !filter_cons. cbn [fst snd].
    destruct (process_entry_cases validator st x)
      as [[Hq Hp]|(Hq&r&s&acc&w'&dm&dc&df&Hp&Hs)]; rewrite Hp in Hx;
      injection Hx as <- <-; cbn [ql_summary sum_processed sum_mergeable sum_conflicts
        sum_failed settle qe_state] in *.
    + rewrite !decide_False by naive_solver. done.
    + rewrite (decide_True (P := qe_state x = Queued)) by done. cbn [length].
      destruct Hs as [(->&_&[= -> -> ->]&_)|[(->&_&[= -> -> ->])|(->&_&[= -> -> ->])]];
        repeat case_decide; cbn [length]; try lia; naive_solver.
Qed.

(** Nothing is left to do after a run. *)
Lemma process_loop_idle validator st xs :
  Forall (λ x, qe_state x ≠ Queued) xs → process_loop validator st xs = (xs, st).
Proof.
  revert st. induction xs as [|x xs IH]; intros st Hall; [done|].
  inversion Hall as [|? ? Hx Hxs]; subst. cbn.
  destruct (process_entry_cases validator st x) as [[_ ->]|[Hq _]]; [|done].
  by rewrite IH.
Qed.
End processing.

(** * Consistency *)

Lemma consistent_dequeue acc xs k x x' :
  xs !! k = Some x → qe_state x ≠ Mergeable → qe_state x' ≠ Mergeable →
  consistent acc xs → consistent acc (<[k := x']> xs).
Proof.
  intros Hk Hx Hx' [Ha Hd]. pose proof (lookup_lt_Some _ _ _ Hk) as Hlt.
  assert (∀ i y, qe_state y = Mergeable → (<[k := x']> xs !! i = Some y ↔ xs !! i = Some y))
    as Hl.
  { intros i y Hy. destruct (decide (i = k)) as [->|Hne].
    - rewrite list_lookup_insert_eq by done. naive_solver congruence.
    - by rewrite list_lookup_insert_ne. }
  split.
  - intros p. rewrite Ha. split; intros (i&y&Hi&Hy&Hp); exists i, y; by rewrite ?Hl in *.
  - intros i j y z Hne Hi Hj Hy Hz. rewrite Hl in Hi, Hj by done. by eapply (Hd i j).
Qed.

Lemma consistent_accept acc xs k x x' :
  xs !! k = Some x → qe_state x ≠ Mergeable → qe_state x' = Mergeable →
  qe_pr x' = qe_pr x → changed_path_set (qe_pr x) ## acc →
  consistent acc xs → consistent (acc ∪ changed_path_set (qe_pr x)) (<[k := x']> xs).
Proof.
  intros Hk Hx Hx' Hpr Hdisj [Ha Hd]. pose proof (lookup_lt_Some _ _ _ Hk) as Hlt.
  assert (∀ i y, <[k := x']> xs !! i = Some y ∧ qe_state y = Mergeable ↔
    (i = k ∧ y = x') ∨ (i ≠ k ∧ xs !! i = Some y ∧ qe_state y = Mergeable)) as Hl.
  { intros i y. destruct (decide (i = k)) as [->|Hne].
    - rewrite list_lookup_insert_eq by done. naive_solver congruence.
    - rewrite list_lookup_insert_ne by done. naive_solver. }
  assert (∀ i y, i ≠ k → xs !! i = Some y → qe_state y = Mergeable →
    changed_path_set (qe_pr y) ## changed_path_set (qe_pr x)) as Hold.
  { intros i y Hne Hi Hy p Hp Hpx. apply (Hdisj p Hpx), Ha. eauto. }
  split.
  - intros p. rewrite elem_of_union, Ha. split.
    + intros [(i&y&Hi&Hy&Hp)|Hp].
      * assert (i ≠ k) as Hne by (intros ->; congruence).
        exists i, y. by rewrite list_lookup_insert_ne.
      * exists k, x'. rewrite list_lookup_insert_eq, Hpr by done. done.
    + intros (i&y&Hi&Hy&Hp). destruct (proj1 (Hl i y) (conj Hi Hy)) as [[-> ->]|(?&?&?)].
      * right. by rewrite <-Hpr.
      * left. eauto.
  - intros i j y z Hne Hi Hj Hy Hz.
    destruct (proj1 (Hl i y) (conj Hi Hy)) as [[-> ->]|(Hi1&Hi2&_)],
      (proj1 (Hl j z) (conj Hj Hz)) as [[-> ->]|(Hj1&Hj2&_)]; [done| | |by eapply (Hd i j)].
    + rewrite Hpr. symmetry. by apply (Hold j).
    + rewrite Hpr. by apply (Hold i).
Qed.

Section sound.
Context `{ConflictSound V}.

Lemma process_loop_consistent (validator : V) st ds xs xs' st' :
  process_loop validator st xs = (xs', st') →
  consistent (ql_accepted st) (ds ++ xs) → consistent (ql_accepted st') (ds ++ xs').
Proof.
  revert st ds xs' st'. induction xs as [|x xs IH]; intros st ds xs' st'; cbn.
  - by intros [= <- <-].
  - destruct (process_entry validator st x) as [x1 st1] eqn:Hx.
    destruct (process_loop validator st1 xs) as [xs1 st2] eqn:Hxs.
    intros [= <- <-] Hc.
    replace (ds ++ x1 :: xs1) with ((ds ++ [x1]) ++ xs1) by by rewrite <-app_assoc.
    eapply IH; [exact Hxs|]. rewrite <-app_assoc. cbn.
    replace (ds ++ x1 :: xs) with (<[length ds := x1]> (ds ++ x :: xs))
      by by rewrite insert_app_r_alt, Nat.sub_diag.
    assert ((ds ++ x :: xs) !! length ds = Some x) as Hl by by apply list_lookup_middle.
    destruct (process_entry_cases validator st x)
      as [[Hq Hp]|(Hq&r&s&acc&w'&dm&dc&df&Hp&Hs)]; rewrite Hp in Hx;
      injection Hx as <- <-; cbn [ql_accepted].
    + by rewrite list_insert_id.
    + destruct Hs as [(->&->&_&Hv)|[(->&->&_)|(->&->&_)]].
      * apply conflict_sound in Hv. cbn in Hv.
        by eapply consistent_accept; eauto; rewrite Hq.
      * by eapply consistent_dequeue; eauto; rewrite Hq.
      * by eapply consistent_dequeue; eauto; rewrite Hq.
Qed.
End sound.

(** The first loop adds nothing to a consistent accepted set. *)
Lemma paths_already_accepted_eq q :
  consistent (accepted_paths q) (entries q) → paths_already_accepted q = accepted_paths q.
Proof.
  intros [Ha _]. unfold paths_already_accepted.
  assert (∀ xs acc, (∀ x, x ∈ xs → qe_state x = Mergeable → changed_path_set (qe_pr x) ⊆ acc) →
    foldl (λ acc x, if is_mergeable x then acc ∪ changed_path_set (qe_pr x) else acc) acc xs
    = acc) as Hf.
  { induction xs as [|x xs IH]; intros acc Hs; [done|]. cbn. unfold is_mergeable at 2.
    case_bool_decide as Hm.
    - assert (acc ∪ changed_path_set (qe_pr x) = acc) as ->
        by (pose proof (Hs x ltac:(by left) Hm); set_solver).
      apply IH. intros y Hy. apply Hs. by right.
    - apply IH. intros y Hy. apply Hs. by right. }
  apply Hf. intros x [i Hi]%list_elem_of_lookup Hm p Hp. apply Ha. eauto.
Qed.

(** * The invariant *)

Lemma processed_covered x x' : entry_processed x x' → covered x → covered x'.
Proof. intros [_ Hpr Hw _ _] []. by split; rewrite ?Hpr, ?Hw. Qed.

Lemma processed_settled x x' :
  entry_processed x x' → qe_state x ≠ SpeculativeMergeTesting →
  qe_state x' ≠ SpeculativeMergeTesting.
Proof.
  intros [_ _ _ Ho Hq] Hx. destruct (decide (qe_state x = Queued)) as [He|He].
  - destruct (Hq He) as (_&[Hs|[Hs|Hs]]&_); by rewrite Hs.
  - by rewrite (Ho He).
Qed.

Lemma processed_not_queued x x' : entry_processed x x' → qe_state x' ≠ Queued.
Proof.
  intros [_ _ _ Ho Hq]. destruct (decide (qe_state x = Queued)) as [He|He].
  - destruct (Hq He) as (_&[Hs|[Hs|Hs]]&_); by rewrite Hs.
  - by rewrite (Ho He).
Qed.

Lemma Forall2_Forall_r' {A B} (R : A → B → Prop) (P : A → Prop) (Q : B → Prop) l k :
  Forall2 R l k → (∀ x y, R x y → P x → Q y) → Forall P l → Forall Q k.
Proof.
  intros H HPQ. induction H as [|x y l k HR _ IH]; [done|].
  inversion 1; subst. constructor; eauto.
Qed.

Lemma process_all_wf `{ConflictSound V} (validator : V) q w :
  wf_queue q → wf_queue (process_all q validator w).1.2.
Proof.
  intros [Hc Hs Hk]. unfold process_all.
  destruct (process_loop _ _ _) as [xs st] eqn:Hp. cbn.
  pose proof (process_loop_processed _ _ _ _ _ Hp) as H2. split; cbn.
  - eapply Forall2_Forall_r'; [exact H2|exact processed_covered|done].
  - eapply Forall2_Forall_r'; [exact H2|exact processed_settled|done].
  - eapply (process_loop_consistent validator _ []); [exact Hp|]. cbn.
    by rewrite paths_already_accepted_eq.
Qed.

Lemma enqueue_wf q pr witness w : wf_queue q → wf_queue (enqueue q pr witness w).1.2.
Proof.
  intros [Hc Hs [Ha Hd]]. unfold enqueue.
  destruct (admission_error pr witness) as [x|e] eqn:Hx; [|by split].
  apply admission_ok in Hx as (->&H1&H2&H3&H4). cbn. split; cbn.
  - apply Forall_app. split; [done|]. constructor; [by split|done].
  - apply Forall_app. by repeat constructor.
  - set (new := {| qe_id := _ |}).
    assert (∀ i y, (entries q ++ [new]) !! i = Some y → qe_state y = Mergeable →
      entries q !! i = Some y) as Hl.
    { intros i y Hi Hy. apply lookup_app_Some in Hi as [Hi|[_ Hi]]; [done|].
      apply list_lookup_singleton_Some in Hi as [_ <-]. done. }
    split.
    + intros p. rewrite Ha. split; intros (i&y&Hi&Hy&Hp); exists i, y; split_and!; auto.
      by apply lookup_app_l_Some.
    + intros i j y z Hne Hi Hj Hy Hz. by eapply (Hd i j); eauto.
Qed.

Lemma queue_step_wf s s' : queue_step s s' → wf_queue s.1 → wf_queue s'.1.
Proof. destruct 1; cbn; [apply enqueue_wf|by apply process_all_wf]. Qed.

Lemma wf_queue_new : wf_queue MergeQueue_new.
Proof.
  split; [constructor..|]. split.
  - intros p. split; [set_solver|]. intros (i&x&Hx&_). by destruct i.
  - intros i j x y _ Hx. by destruct i.
Qed.

(** However pull requests are enqueued and the queue is processed, with any
    validators that refuse overlapping paths, every entry carries a witness for its
    own repository, pull request, head and paths, no two mergeable entries change
    a common path, and the accepted paths are those of the mergeable entries. *)
Theorem queue_invariant w s :
  rtc queue_step (MergeQueue_new, w) s → wf_queue s.1.
Proof.
  intros Hs. assert (∀ s0, rtc queue_step s0 s → wf_queue s0.1 → wf_queue s.1) as Hall.
  { induction 1; eauto using queue_step_wf. }
  apply (Hall _ Hs). exact wf_queue_new.
Qed.

(** One run of any validator settles every queued entry and no other: each gets
    its synthetic commit, one more receipt and an outcome, keeps its pull request
    and witness, and is counted once; entries that were not queued, and the order,
    do not change. Running again right away does nothing. *)
Theorem process_all_spec `{SpeculativeValidator V} (validator : V) q w :
  ∃ sm q' w', process_all q validator w = (sm, q', w')
  ∧ Forall2 entry_processed (entries q) (entries q')
  ∧ Forall (λ x, qe_state x ≠ Queued) (entries q')
  ∧ sum_processed sm = count_queued (entries q)
  ∧ sum_mergeable sm = count_settled Mergeable (entries q) (entries q')
  ∧ sum_conflicts sm = count_settled DequeuedConflict (entries q) (entries q')
  ∧ sum_failed sm = count_settled DequeuedFailedValidation (entries q) (entries q')
  ∧ sum_processed sm = sum_mergeable sm + sum_conflicts sm + sum_failed sm
  ∧ (process_all q' validator w').1.1 = QueueSummary_default
  ∧ entries (process_all q' validator w').1.2 = entries q'.
Proof.
  unfold process_all at 1. destruct (process_loop _ _ (entries q)) as [xs st] eqn:Hp.
  do 3 eexists; split; [reflexivity|]. cbn [entries].
  pose proof (process_loop_processed _ _ _ _ _ Hp) as H2.
  pose proof (process_loop_counts _ _ _ _ _ Hp) as (C1&C2&C3&C4).
  cbn [ql_summary QueueSummary_default sum_processed sum_mergeable sum_conflicts sum_failed]
    in C1, C2, C3, C4.
  assert (Forall (λ x, qe_state x ≠ Queued) xs) as Hnq.
  { eapply (Forall2_Forall_r' _ (λ _, True)); [exact H2| |by apply Forall_true].
    intros x y Hxy _. by eapply processed_not_queued. }
  split_and!; [done|done|lia|lia|lia|lia| | |].
  - rewrite C1, C2, C3, C4. cbn. clear -H2. unfold count_queued, count_settled.
    induction H2 as [|x y l k [_ _ _ Ho Hq] _ IH]; [done|].
    cbn [zip zip_with]. rewrite !filter_cons. cbn [fst snd].
    destruct (decide (qe_state x = Queued)) as [He|He].
    + destruct (Hq He) as (_&Hs&_). repeat case_decide; cbn [length]; try lia; naive_solver congruence.
    + repeat case_decide; cbn [length]; try lia; naive_solver.
  - unfold process_all. cbn [entries]. by rewrite process_loop_idle.
  - unfold process_all. cbn [entries]. by rewrite process_loop_idle.
Qed.

(** * The deterministic validator *)

Lemma deterministic_passed (v : SpeculativeValidation) :
  validate deterministic_validator v = Passed ↔
  changed_path_set (val_pr v) ## accepted_paths_ahead v.
Proof.
  cbn. unfold deterministic_validate.
  set (I := changed_path_set (val_pr v) ∩ accepted_paths_ahead v).
  destruct (bset_iter I) as [|p l] eqn:Hl; cbn.
  - split; [|done]. intros _. apply bset_iter_nil in Hl. set_solver.
  - split; [done|]. intros Hd. exfalso.
    assert (p ∈ I) by (apply elem_of_bset_iter; rewrite Hl; by left). set_solver.
Qed.

Lemma deterministic_failed (v : SpeculativeValidation) reason :
  validate deterministic_validator v = Failed reason →
  starts_with reason "path conflict:" = true.
Proof.
  cbn. unfold deterministic_validate. case_match; [|done]. intros [= <-].
  apply starts_with_spec. by eexists (" " +:+ _).
Qed.

#[export] Instance deterministic_sound : ConflictSound DeterministicValidator.
Proof. intros [] v. by intros ?%deterministic_passed. Qed.

Lemma process_loop_greedy st xs :
  qe_state <$> (process_loop deterministic_validator st xs).1 = greedy (ql_accepted st) xs.
Proof.
  revert st. induction xs as [|x xs IH]; intros st; [done|]. cbn [process_loop greedy].
  destruct (process_entry deterministic_validator st x) as [x1 st1] eqn:Hx.
  destruct (process_loop deterministic_validator st1 xs) as [xs1 st2] eqn:Hxs.
  specialize (IH st1). rewrite Hxs in IH. cbn [fst] in *. rewrite fmap_cons, IH.
  revert Hx. unfold process_entry. destruct (is_queued x); cbn [negb];
    [|by intros [= <- <-]].
  destruct (validate _ _) as [|reason] eqn:Hv; cbn [Receipt_new].
  - rewrite deterministic_passed in Hv. intros [= <- <-]. by rewrite decide_True.
  - rewrite (deterministic_failed _ _ Hv). intros [= <- <-]. cbn.
    rewrite decide_False; [done|]. intros Hd.
    assert (Passed = Failed reason) by (rewrite <-Hv; symmetry; by apply deterministic_passed).
    done.
Qed.

(** C33: with the deterministic validator the queue is first come, first served: in
    order, an entry is mergeable exactly when it shares no path with what was
    accepted before it, and is dequeued for a conflict otherwise. No entry fails
    validation for another reason. *)
Theorem process_all_greedy q w :
  qe_state <$> entries (process_all q deterministic_validator w).1.2
    = greedy (paths_already_accepted q) (entries q)
  ∧ sum_failed (process_all q deterministic_validator w).1.1 = 0.
Proof.
  unfold process_all. destruct (process_loop _ _ _) as [xs st] eqn:Hp. cbn [fst snd entries].
  pose proof (process_loop_greedy {| ql_accepted := paths_already_accepted q;
    ql_summary := QueueSummary_default; ql_world := w |} (entries q)) as Hg.
  rewrite Hp in Hg. cbn in Hg. split; [done|].
  apply process_loop_counts in Hp as (_&_&_&->). cbn [ql_summary QueueSummary_default sum_failed].
  unfold count_settled. revert Hg. clear. generalize (paths_already_accepted q) as acc.
  revert xs. induction (entries q) as [|x l IH]; intros xs acc; [done|]. cbn [greedy].
  destruct xs as [|x' xs]; [by repeat case_match|].
  rewrite fmap_cons. cbn [zip zip_with]. rewrite filter_cons. cbn [fst snd].
  unfold is_queued. case_bool_decide; [case_decide|]; intros [= Hx' Hxs];
    rewrite decide_False by (rewrite ?Hx'; naive_solver); by eapply IH.
Qed.

(** * From plan to queue *)

(** A pull request whose change set has a plan, and whose required lanes are all
    proven, is admitted: the witness minted for the plan is always accepted by the
    queue, whatever is queued already. *)
Theorem proven_change_admitted e pr agent p evidence w q :
  plan e {| cs_repo := pr_repo pr; cs_pr := pr_id pr; cs_head_sha := head_sha pr;
            cs_paths := changed_paths pr; agent_authored := agent |} = Ok p →
  Forall (lane_proven evidence) (plan_lanes p) →
  ∃ x w1 id q' w2, verify p evidence w = (Ok x, w1)
    ∧ enqueue q pr (Some x) w1 = (Ok id, q', w2)
    ∧ qe_pr <$> entries q' = (qe_pr <$> entries q) ++ [pr].
Proof.
  intros Hp Hall. destruct (verify_ok p evidence w Hall) as (x&w1&Hv).
  apply plan_ok_fields in Hp as (H1&H2&H3&H4). cbn in *.
  pose proof (verify_ok_covers _ _ _ _ _ Hv) as [? ? ? ? _ _ _ _].
  exists x, w1. unfold enqueue.
  assert (admission_error pr (Some x) = Ok x) as ->.
  { apply admission_ok. split_and!; [done|congruence..|].
    unfold changed_path_set. congruence. }
  do 3 eexists. split_and!; [done|reflexivity|]. cbn. by rewrite fmap_app.
Qed.

(** * The simulation *)

Lemma simulation_plan repo pr head tail :
  plan default_phase7_engine
    {| cs_repo := repo; cs_pr := pr; cs_head_sha := head;
       cs_paths := [ChangedPath_new
         ("crates/jeryu_ci_scheduler/src/generated_unique_" +:+ tail)];
       agent_authored := false |} =
  Ok {| plan_repo := repo; plan_pr := pr; plan_head_sha := head;
        plan_paths := ["crates/jeryu_ci_scheduler/src/generated_unique_" +:+ tail];
        plan_owners := ["@scheduler"];
        plan_lanes :=
          [lane "merge-queue-sim" ["cargo test -p jeryu_ci_scheduler concurrent"] true;
           lane "unit" ["cargo test --workspace"] true] |}.
Proof. by vm_compute. Qed.

Definition simulation_path (i : nat) : string :=
  "crates/jeryu_ci_scheduler/src/generated_unique_" +:+ show_N (N.of_nat i) +:+ ".rs".

Lemma simulation_path_inj i j : simulation_path i = simulation_path j → i = j.
Proof.
  unfold simulation_path. intros H%append_inj_l%append_inj_r%show_N_inj. lia.
Qed.

Lemma simulation_paths i : changed_path_set (simulation_pr i) = {[ simulation_path i ]}.
Proof. unfold changed_path_set. cbn. by rewrite union_empty_r_L. Qed.

(** A worker's witness is always minted, and always admits its pull request. *)
Lemma simulation_mint_ok i w :
  ∃ x w', simulation_mint i w = (Some x, w')
    ∧ admission_error (simulation_pr i) (Some x) = Ok x.
Proof.
  unfold simulation_mint, change_set_of, simulation_pr.
  cbn [pr_repo pr_id head_sha changed_paths]. rewrite simulation_plan.
  set (p := {| plan_repo := _ |}).
  destruct (verify_ok p (simulation_evidence i p) w) as (x&w'&Hv).
  { repeat constructor; intros _; eexists; split; by vm_compute. }
  rewrite Hv. exists x, w'. split; [done|].
  apply verify_ok_covers in Hv as [? ? ? Hx _ _ _ _].
  apply admission_ok. split_and!; [done..|]. unfold changed_path_set. by rewrite Hx.
Qed.

Record sim_inv (prs : nat) (s : SimState) : Prop := {
  si_length : length (sim_workers s) = prs;
  si_alive : ∀ i, sim_workers s !! i ≠ Some SW_Panicked;
  si_minted : ∀ i x, sim_workers s !! i = Some (SW_Minted x) →
    admission_error (simulation_pr i) (Some x) = Ok x;
  si_queued : Forall (λ x, qe_state x = Queued) (entries (sim_queue s));
  si_accepted : accepted_paths (sim_queue s) = ∅;
  si_entries : ∃ idxs, NoDup idxs
    ∧ qe_pr <$> entries (sim_queue s) = simulation_pr <$> idxs
    ∧ ∀ i, i ∈ idxs ↔ sim_workers s !! i = Some SW_Done
}.

Lemma sim_inv_init prs w : sim_inv prs (SimState_init prs w).
Proof.
  split; cbn.
  - apply length_replicate.
  - intros i [[=] _]%lookup_replicate.
  - intros i x [[=] _]%lookup_replicate.
  - constructor.
  - done.
  - exists []. split_and!; [constructor|done|]. intros i. split; [by intros ?%elem_of_nil|].
    by intros [[=] _]%lookup_replicate.
Qed.

(** Replacing the state of worker [i]. *)
Lemma insert_lookup_cases {A} (l : list A) i x k y :
  <[i := x]> l !! k = Some y → (k = i ∧ y = x) ∨ (k ≠ i ∧ l !! k = Some y).
Proof.
  destruct (decide (k = i)) as [->|Hne].
  - intros H. left. split; [done|]. pose proof (lookup_lt_Some _ _ _ H) as Hlt.
    rewrite length_insert in Hlt. rewrite list_lookup_insert_eq in H by done. congruence.
  - rewrite list_lookup_insert_ne by done. auto.
Qed.

Lemma sim_step_inv prs s s' : sim_step s s' → sim_inv prs s → sim_inv prs s'.
Proof.
  intros Hs [Hlen Hal Hmi Hq Hac (idxs&Hnd&Hpr&Hix)].
  destruct Hs as [s i x w' Hi Hm|s i w' Hi Hm|s i x id q' w' Hi He|s i x e q' w' Hi He].
  - destruct (simulation_mint_ok i (sim_world s)) as (x'&w''&Hm'&Hadm).
    rewrite Hm' in Hm. injection Hm as <- <-. split; cbn.
    + by rewrite length_insert.
    + intros k [[_ ?]|[_ Hk]]%insert_lookup_cases; [done|by eapply Hal].
    + intros k y [[-> [= <-]]|[_ Hk]]%insert_lookup_cases; [done|by eapply Hmi].
    + done.
    + done.
    + exists idxs. split_and!; [done..|]. intros k. rewrite Hix.
      destruct (decide (k = i)) as [->|Hne]; [|by rewrite list_lookup_insert_ne].
      rewrite list_lookup_insert_eq by by apply lookup_lt_Some in Hi.
      rewrite Hi. split; intros; congruence.
  - destruct (simulation_mint_ok i (sim_world s)) as (x'&w''&Hm'&_). congruence.
  - unfold enqueue in He. rewrite (Hmi _ _ Hi) in He. cbn in He. injection He as <- <- <-.
    split; cbn.
    + by rewrite length_insert.
    + intros k [[_ ?]|[_ Hk]]%insert_lookup_cases; [done|by eapply Hal].
    + intros k y [[_ ?]|[_ Hk]]%insert_lookup_cases; [done|by eapply Hmi].
    + apply Forall_app. by repeat constructor.
    + done.
    + exists (idxs ++ [i]). assert (i ∉ idxs) as Hni by (rewrite Hix; congruence).
      split_and!.
      * apply NoDup_app. split_and!; [done|set_solver|apply NoDup_singleton].
      * by rewrite !fmap_app, Hpr.
      * intros k. rewrite elem_of_app, Hix, list_elem_of_singleton.
        destruct (decide (k = i)) as [->|Hne].
        -- rewrite list_lookup_insert_eq by by apply lookup_lt_Some in Hi.
           split; [done|]. by right.
        -- rewrite list_lookup_insert_ne by done. split; [by intros [?|?]|by left].
  - unfold enqueue in He. rewrite (Hmi _ _ Hi) in He. done.
Qed.

(** Distinct paths never conflict. *)
Lemma greedy_simulation idxs xs acc :
  NoDup idxs → qe_pr <$> xs = simulation_pr <$> idxs →
  Forall (λ x, qe_state x = Queued) xs →
  (∀ i, i ∈ idxs → simulation_path i ∉ acc) →
  greedy acc xs = replicate (length idxs) Mergeable.
Proof.
  revert xs acc. induction idxs as [|i idxs IH]; intros xs acc Hnd Hpr Hq Hacc;
    destruct xs as [|x xs]; try done.
  rewrite !fmap_cons in Hpr. injection Hpr as Hx Hxs.
  inversion Hq as [|? ? Hqx Hqxs]; subst. apply NoDup_cons in Hnd as [Hni Hnd].
  cbn. unfold is_queued. rewrite bool_decide_true by done. rewrite Hx, simulation_paths.
  rewrite decide_True by (apply disjoint_singleton_l, Hacc; by left). f_equal.
  apply IH; [done..|]. intros j Hj. rewrite not_elem_of_union, not_elem_of_singleton.
  split; [apply Hacc; by right|]. intros ->%simulation_path_inj. done.
Qed.

Lemma count_settled_all s t xs xs' :
  Forall (λ x, qe_state x = Queued) xs →
  qe_state <$> xs' = replicate (length xs) s →
  count_settled t xs xs' = if decide (s = t) then length xs else 0.
Proof.
  unfold count_settled. revert xs'. induction xs as [|x xs IH]; intros xs' Hq Heq.
  - by case_decide.
  - destruct xs' as [|x' xs']; [done|]. rewrite fmap_cons in Heq. injection Heq as Hx Hxs.
    inversion Hq as [|? ? Hqx Hqxs]; subst. cbn [zip zip_with]. rewrite filter_cons.
    cbn [fst snd]. specialize (IH xs' Hqxs Hxs). repeat case_decide; cbn [length]; naive_solver.
Qed.

Lemma simulation_done prs s :
  sim_inv prs s → (∀ i, i < prs → sim_workers s !! i = Some SW_Done) →
  simulation_finish prs s
  = {| requested_prs := prs;
       sim_summary := {| sum_mergeable := prs; sum_conflicts := 0; sum_failed := 0;
                         sum_processed := prs |} |}.
Proof.
  intros [Hlen _ _ Hq Hac (idxs&Hnd&Hpr&Hix)] Hdone.
  assert (idxs ≡ₚ seq 0 prs) as Hperm.
  { apply NoDup_Permutation; [done|apply NoDup_ListNoDup, seq_NoDup|].
    intros i. rewrite Hix, elem_of_seq. split; [|intros; apply Hdone; lia].
    intros Hi%lookup_lt_Some. lia. }
  assert (length (entries (sim_queue s)) = prs) as Hle.
  { rewrite <-(length_fmap qe_pr), Hpr, length_fmap, Hperm. apply length_seq. }
  unfold simulation_finish, process_all. destruct (process_loop _ _ _) as [xs st] eqn:Hp.
  pose proof (process_loop_greedy {| ql_accepted := paths_already_accepted (sim_queue s);
    ql_summary := QueueSummary_default; ql_world := sim_world s |}
    (entries (sim_queue s))) as Hg.
  rewrite Hp in Hg. cbn [fst ql_accepted] in Hg.
  assert (paths_already_accepted (sim_queue s) = ∅) as Hpa.
  { unfold paths_already_accepted. rewrite Hac. clear -Hq.
    induction Hq as [|x l Hx _ IH]; [done|]. cbn. unfold is_mergeable at 2. by rewrite Hx. }
  rewrite Hpa, (greedy_simulation idxs) in Hg by (done || set_solver).
  rewrite Hperm, length_seq, <-Hle in Hg.
  apply process_loop_counts in Hp as (C1&C2&C3&C4). cbn in C1, C2, C3, C4.
  rewrite (count_settled_all Mergeable) in C2, C3, C4 by done.
  rewrite decide_True in C2 by done. rewrite decide_False in C3 by done.
  rewrite decide_False in C4 by done.
  assert (count_queued (entries (sim_queue s)) = prs) as Hcq.
  { unfold count_queued. rewrite <-Hle. clear -Hq.
    induction Hq as [|x l Hx _ IH]; [done|]. rewrite filter_cons, decide_True by done.
    cbn. by f_equal. }
  f_equal. cbn [fst]. destruct (ql_summary st) as [a b c d]; cbn in *. congruence.
Qed.

(** How many steps a worker has left. *)
Definition worker_left (x : SimWorker) : nat :=
  match x with SW_Start => 2 | SW_Minted _ => 1 | SW_Done | SW_Panicked => 0 end.

Lemma sum_list_with_insert {A} (f : A → nat) l i x y :
  l !! i = Some x → sum_list_with f (<[i := y]> l) + f x = sum_list_with f l + f y.
Proof.
  revert i. induction l as [|z l IH]; intros [|i]; cbn; [done..| |].
  - intros [= ->]. lia.
  - intros Hi. specialize (IH i Hi).
    change (f z + sum_list_with f (<[i := y]> l) + f x = f z + sum_list_with f l + f y). lia.
Qed.

Lemma sim_step_left s s' :
  sim_step s s' →
  sum_list_with worker_left (sim_workers s') < sum_list_with worker_left (sim_workers s).
Proof.
  intros [s0 i x w' Hi _|s0 i w' Hi _|s0 i x id q' w' Hi _|s0 i x e q' w' Hi _]; cbn.
  - pose proof (sum_list_with_insert worker_left _ _ _ (SW_Minted x) Hi). cbn in *. lia.
  - pose proof (sum_list_with_insert worker_left _ _ _ SW_Panicked Hi). cbn in *. lia.
  - pose proof (sum_list_with_insert worker_left _ _ _ SW_Done Hi). cbn in *. lia.
  - pose proof (sum_list_with_insert worker_left _ _ _ SW_Panicked Hi). cbn in *. lia.
Qed.

Lemma sim_progress prs s :
  sim_inv prs s → (∀ i, i < prs → sim_workers s !! i = Some SW_Done) ∨ ∃ s', sim_step s s'.
Proof.
  intros [Hlen Hal Hmi _ _ _].
  destruct (decide (Forall (λ x, worker_left x = 0) (sim_workers s))) as [Hall|Hex].
  - left. intros i Hi. rewrite <-Hlen in Hi. apply lookup_lt_is_Some in Hi as [x Hx].
    pose proof (Forall_lookup_1 _ _ _ _ Hall Hx) as Hl. specialize (Hal i).
    rewrite Hx in *. destruct x; done.
  - right. apply not_Forall_Exists in Hex; [|solve_decision].
    apply Exists_exists in Hex as (x&[i Hi]%list_elem_of_lookup&Hx). cbn in Hx.
    destruct x as [|x| |]; [| |done..].
    + destruct (simulation_mint_ok i (sim_world s)) as (x&w'&Hm&_).
      eexists. by eapply sim_mint.
    + pose proof (Hmi _ _ Hi) as Ha.
      eexists. eapply sim_enqueue; [done|]. unfold enqueue. rewrite Ha. reflexivity.
Qed.

(** In every interleaving of the simulation's workers no [expect] fails, a step is
    possible until all workers are done, there are at most two steps per worker, and
    once all are done the queue reports every pull request mergeable. *)
Theorem simulation_all_mergeable prs w k s :
  nsteps sim_step k (SimState_init prs w) s →
  (∀ i, sim_workers s !! i ≠ Some SW_Panicked)
  ∧ ((∀ i, i < prs → sim_workers s !! i = Some SW_Done) ∨ ∃ s', sim_step s s')
  ∧ k ≤ 2 * prs
  ∧ ((∀ i, i < prs → sim_workers s !! i = Some SW_Done) →
     simulation_finish prs s
     = {| requested_prs := prs;
          sim_summary := {| sum_mergeable := prs; sum_conflicts := 0; sum_failed := 0;
                            sum_processed := prs |} |}).
Proof.
  intros Hs. assert (∀ k s0, nsteps sim_step k s0 s → sim_inv prs s0 →
    sim_inv prs s ∧ k ≤ sum_list_with worker_left (sim_workers s0)) as Hall.
  { clear. intros k s0 Hs. induction Hs as [s|k s0 s1 s H01 _ IH]; intros Hi; [split; [done|lia]|].
    pose proof (sim_step_left _ _ H01).
    destruct (IH (sim_step_inv _ _ _ H01 Hi)). split; [done|lia]. }
  destruct (Hall _ _ Hs (sim_inv_init prs w)) as [Hinv Hk]. split_and!.
  - apply (si_alive _ _ Hinv).
  - by apply sim_progress.
  - cbn in Hk. assert (∀ n, sum_list_with worker_left (replicate n SW_Start) = 2 * n) as Hr
      by (induction n as [|n IH]; cbn in *; [done|lia]).
    rewrite Hr in Hk. lia.
  - by apply simulation_done.
Qed.

(** * Samples *)

Module QueueSamples.
Definition world : World := initial_world (λ n, if (n =? 0)%N then None else Some n).
Definition pr (id : string) (paths : list string) : PullRequest :=
  {| pr_repo := "repo_phase7"; pr_id := id; source_branch := "branch/" +:+ id;
     target_branch := "main"; base_sha := "base001"; head_sha := "head-" +:+ id;
     changed_paths := ChangedPath_new <$> paths |}.
Definition evidence : list ProofEvidence :=
  [{| ev_lane := "unit"; ev_commands := []; ev_success := false; log_digest := "1" |};
   {| ev_lane := "jankurai-proof"; ev_commands := []; ev_success := true; log_digest := "2" |};
   {| ev_lane := "unit"; ev_commands := []; ev_success := true; log_digest := "3" |}].
Definition a_plan : ProofPlan :=
  match plan default_phase7_engine
          (change_set_of (pr "pr_1" ["crates/jeryu_proof/src/lib.rs"])) with
  | Ok p => p
  | Err _ => {| plan_repo := ""; plan_pr := ""; plan_head_sha := ""; plan_paths := [];
                plan_owners := []; plan_lanes := [] |}
  end.
Definition witness (pr : PullRequest) : ProofWitness :=
  let r := (Receipt_new RK_ProofWitness "" None "" "" "" [] "" world).1 in
  {| pw_id := "receipt_1"; pw_repo := pr_repo pr; pw_pr := pr_id pr;
     pw_head_sha := head_sha pr; pw_changed_paths := cp_path <$> changed_paths pr;
     pw_lanes := []; pw_owners := []; pw_receipt := r |}.
Definition pr1 := pr "pr_1" ["a"; "b"].
Definition pr2 := pr "pr_2" ["b"; "c"].
Definition pr3 := pr "pr_3" ["c"].
Definition queue : MergeQueue :=
  let q1 := (enqueue MergeQueue_new pr1 (Some (witness pr1)) world).1.2 in
  let q2 := (enqueue q1 pr2 (Some (witness pr2)) world).1.2 in
  (enqueue q2 pr3 (Some (witness pr3)) world).1.2.
Definition enqueued := enqueue MergeQueue_new pr1 (Some (witness pr1)) world.
Definition processed := process_all enqueued.1.2 deterministic_validator enqueued.2.
End QueueSamples.

Example sample_process :
  map qe_state (entries
    (process_all QueueSamples.queue deterministic_validator QueueSamples.world).1.2)
  = [Mergeable; DequeuedConflict; Mergeable].
Proof. by vm_compute. Qed.

Lemma queue_invariant_witness : wf_queue QueueSamples.processed.1.2.
Proof.
  refine (queue_invariant QueueSamples.world
    (QueueSamples.processed.1.2, QueueSamples.processed.2) _).
  apply (rtc_l _ _ (QueueSamples.enqueued.1.2, QueueSamples.enqueued.2));
    [apply step_enqueue|].
  apply rtc_once. exact (step_process deterministic_validator _ _).
Defined.

Lemma proven_change_admitted_witness :
  ∃ x w1 id q' w2, verify QueueSamples.a_plan QueueSamples.evidence QueueSamples.world = (Ok x, w1)
    ∧ enqueue QueueSamples.queue (QueueSamples.pr "pr_1" ["crates/jeryu_proof/src/lib.rs"])
        (Some x) w1 = (Ok id, q', w2).
Proof.
  destruct (proven_change_admitted default_phase7_engine
    (QueueSamples.pr "pr_1" ["crates/jeryu_proof/src/lib.rs"]) false QueueSamples.a_plan
    QueueSamples.evidence QueueSamples.world QueueSamples.queue)
    as (x&w1&id&q'&w2&Hv&He&_).
  - by vm_compute.
  - repeat constructor; intros _; eexists; split; by vm_compute.
  - exists x, w1, id, q', w2. exact (conj Hv He).
Defined.

Lemma simulation_all_mergeable_witness :
  ∃ s, nsteps sim_step 1 (SimState_init 1 QueueSamples.world) s
       ∧ ∀ i, sim_workers s !! i ≠ Some SW_Panicked.
Proof.
  destruct (simulation_mint_ok 0 QueueSamples.world) as (x&w'&Hm&_).
  assert (nsteps sim_step 1 (SimState_init 1 QueueSamples.world)
    {| sim_queue := MergeQueue_new; sim_world := w'; sim_workers := [SW_Minted x] |}) as Hs.
  { apply nsteps_once. by apply (sim_mint (SimState_init 1 QueueSamples.world) 0 x w'). }
  eexists. split; [exact Hs|].
  exact (proj1 (simulation_all_mergeable 1 QueueSamples.world 1 _ Hs)).
Defined.
