(* ===== verification/FileSystem.v ===== *)
(** FileSystem: the part of [std::fs] and [std::time] the cache uses.

    Files are a map from paths to contents. Every call consults a fault oracle, so
    that a theorem about a component holds for every pattern of failing calls, torn
    writes included. Directories are not modelled: creating one can only fail. *)

From S2P Require Import Prelude Text.

(** What happens to a call: nothing special, an error with no effect, or, for a
    write, an error after [n] bytes have reached the file. *)
Inductive Fault : Type :=
  | NoFault
  | Fails
  | Tears (n : nat).

Record Machine := {
  files : gmap string string;
  op_count : N;
  faults : N → Fault;
  clock_reads : N;
  clock : N → option N
}.

Inductive IoError : Type := io_error.

Definition with_files (m : Machine) (fs : gmap string string) : Machine :=
  {| files := fs; op_count := op_count m; faults := faults m;
     clock_reads := clock_reads m; clock := clock m |}.

(** Draws the fate of the next call. *)
Definition next_fault (m : Machine) : Fault * Machine :=
  (faults m (op_count m),
   {| files := files m; op_count := op_count m + 1; faults := faults m;
      clock_reads := clock_reads m; clock := clock m |}).

(** [SystemTime::now().duration_since(UNIX_EPOCH)] in milliseconds. *)
Definition read_now (m : Machine) : option N * Machine :=
  (clock m (clock_reads m),
   {| files := files m; op_count := op_count m; faults := faults m;
      clock_reads := clock_reads m + 1; clock := clock m |}).

(** [Path::exists] answers [false] when it cannot look. *)
Definition path_exists (p : string) (m : Machine) : bool * Machine :=
  match next_fault m with
  | (NoFault, m') => (bool_decide (is_Some (files m !! p)), m')
  | (_, m') => (false, m')
  end.

Definition create_dir_all (p : string) (m : Machine) : result unit IoError * Machine :=
  match next_fault m with
  | (NoFault, m') => (Ok tt, m')
  | (_, m') => (Err io_error, m')
  end.

(** [File::create]: a new empty file, or the old one emptied. *)
Definition file_create (p : string) (m : Machine) : result unit IoError * Machine :=
  match next_fault m with
  | (NoFault, m') => (Ok tt, with_files m' (<[p := ""]> (files m')))
  | (_, m') => (Err io_error, m')
  end.

(** [write_all] on a file that has just been created. *)
Definition write_all (p bytes : string) (m : Machine) : result unit IoError * Machine :=
  match next_fault m with
  | (NoFault, m') => (Ok tt, with_files m' (<[p := bytes]> (files m')))
  | (Fails, m') => (Err io_error, m')
  | (Tears n, m') => (Err io_error, with_files m' (<[p := String.substring 0 n bytes]> (files m')))
  end.

Definition sync_all (m : Machine) : result unit IoError * Machine :=
  match next_fault m with
  | (NoFault, m') => (Ok tt, m')
  | (_, m') => (Err io_error, m')
  end.

(** [rename] is atomic and replaces its target. *)
Definition rename (src dst : string) (m : Machine) : result unit IoError * Machine :=
  match next_fault m with
  | (NoFault, m') =>
      match files m' !! src with
      | Some bytes => (Ok tt, with_files m' (<[dst := bytes]> (delete src (files m'))))
      | None => (Err io_error, m')
      end
  | (_, m') => (Err io_error, m')
  end.

Definition fs_read (p : string) (m : Machine) : result string IoError * Machine :=
  match next_fault m with
  | (NoFault, m') =>
      match files m' !! p with
      | Some bytes => (Ok bytes, m')
      | None => (Err io_error, m')
      end
  | (_, m') => (Err io_error, m')
  end.

(** [fs::write]: not atomic, a fault can leave a truncated file. *)
Definition fs_write (p bytes : string) (m : Machine) : result unit IoError * Machine :=
  match next_fault m with
  | (NoFault, m') => (Ok tt, with_files m' (<[p := bytes]> (files m')))
  | (Fails, m') => (Err io_error, m')
  | (Tears n, m') => (Err io_error, with_files m' (<[p := String.substring 0 n bytes]> (files m')))
  end.

(** [Path::join]. *)
Definition path_join (a b : string) : string := a +:+ "/" +:+ b.

(** * A state monad with errors over the machine

    [x <<- op;; k] runs [k] when [op] succeeded; an error stops with the machine as it
    is then. *)
Definition M (E A : Type) : Type := Machine → result A E * Machine.

Definition ret {E A} (a : A) : M E A := λ m, (Ok a, m).
Definition throw {E A} (e : E) : M E A := λ m, (Err e, m).
Definition bindM {E A B} (c : M E A) (k : A → M E B) : M E B := λ m,
  match c m with
  | (Ok a, m') => k a m'
  | (Err e, m') => (Err e, m')
  end.
(** An operation that cannot fail. *)
Definition pureM {E A} (c : Machine → A * Machine) : M E A := λ m,
  let (a, m') := c m in (Ok a, m').
(** An I/O operation, its error converted by [?]. *)
Definition ioM {E A} (of_io : IoError → E) (c : M IoError A) : M E A := λ m,
  let (r, m') := c m in (map_err of_io r, m').
Definition liftM {E A} (r : result A E) : M E A := λ m, (r, m).

Declare Scope machine_scope.
Delimit Scope machine_scope with machine.
Notation "x '<<-' c ';;' k" := (bindM c (λ x, k))
  (at level 100, c at next level, k at level 200, right associativity,
   format "'[v' x  '<<-'  c ';;' '/' k ']'") : machine_scope.

(** * Lemmas *)

(** What a computation does to the files. *)
Definition keeps {E A} (P : gmap string string → Prop) (c : M E A) : Prop :=
  ∀ m, P (files m) → P (files (c m).2).

Section keeps.
Context {E : Type} (P : gmap string string → Prop).

Lemma keeps_ret {A} (a : A) : keeps (E:=E) P (ret a).
Proof. by intros m. Qed.

Lemma keeps_throw {A} (e : E) : keeps (A:=A) P (throw e).
Proof. by intros m. Qed.

Lemma keeps_lift {A} (r : result A E) : keeps P (liftM r).
Proof. by intros m. Qed.

Lemma keeps_bind {A B} (c : M E A) (k : A → M E B) :
  keeps P c → (∀ a, keeps P (k a)) → keeps P (bindM c k).
Proof.
  intros Hc Hk m Hm. unfold bindM. pose proof (Hc m Hm) as H.
  destruct (c m) as [[a|e] m']; [by apply Hk|done].
Qed.

Lemma keeps_io {A} of_io (c : M IoError A) : keeps P c → keeps (E:=E) P (ioM of_io c).
Proof. intros Hc m Hm. unfold ioM. pose proof (Hc m Hm). by destruct (c m). Qed.

Lemma keeps_pure {A} (c : Machine → A * Machine) :
  (∀ m, files (c m).2 = files m) → keeps (E:=E) P (pureM c).
Proof. intros Hc m Hm. unfold pureM. pose proof (Hc m). destruct (c m). by cbn in *; congruence. Qed.
End keeps.

Lemma files_path_exists p m : files (path_exists p m).2 = files m.
Proof. unfold path_exists. cbn. by case_match. Qed.

Lemma files_read_now m : files (read_now m).2 = files m.
Proof. done. Qed.

Lemma keeps_create_dir_all P p : keeps P (create_dir_all p).
Proof. intros m Hm. unfold create_dir_all. cbn. by case_match. Qed.

Lemma keeps_sync_all P : keeps P sync_all.
Proof. intros m Hm. unfold sync_all. cbn. by case_match. Qed.

Lemma keeps_fs_read P p : keeps P (fs_read p).
Proof. intros m Hm. unfold fs_read. cbn. by repeat case_match. Qed.

(** A write keeps what does not depend on the file written. *)
Lemma keeps_fs_write (P : gmap string string → Prop) p bytes :
  (∀ fs x, P fs → P (<[p := x]> fs)) → keeps P (fs_write p bytes).
Proof. intros HP m Hm. unfold fs_write. cbn. repeat case_match; cbn; auto. Qed.

Lemma keeps_file_create (P : gmap string string → Prop) p :
  (∀ fs x, P fs → P (<[p := x]> fs)) → keeps P (file_create p).
Proof. intros HP m Hm. unfold file_create. cbn. repeat case_match; cbn; auto. Qed.

Lemma keeps_write_all (P : gmap string string → Prop) p bytes :
  (∀ fs x, P fs → P (<[p := x]> fs)) → keeps P (write_all p bytes).
Proof. intros HP m Hm. unfold write_all. cbn. repeat case_match; cbn; auto. Qed.

#[export] Hint Resolve keeps_ret keeps_throw keeps_lift keeps_bind keeps_io keeps_pure
  keeps_create_dir_all keeps_sync_all keeps_fs_read keeps_fs_write keeps_file_create
  keeps_write_all files_path_exists files_read_now : keeps.

(** Runs in which no call fails. *)
Definition no_faults (m : Machine) : Prop := ∀ n, faults m n = NoFault.

Lemma bindM_ok {E A B} (c : M E A) (k : A → M E B) m b m' :
  bindM c k m = (Ok b, m') ↔ ∃ a m1, c m = (Ok a, m1) ∧ k a m1 = (Ok b, m').
Proof. unfold bindM. destruct (c m) as [[a|e] m1]; naive_solver. Qed.
