(* ===== verification/CachePolicy.v ===== *)
(** CachePolicy: trust tiers, cache layers and the access laws of the build cache
    (src/components/jeryu-cache/crates/jeryu-cache-core/src/tier.rs and policy/). *)

From S2P Require Import Prelude Text.

(** * Trust tiers (tier.rs) *)

Inductive TrustTier : Type :=
  | T0ReleaseHermetic
  | T1ProtectedInternal
  | T2InternalBranch
  | T3AgentAuthored
  | T4ForkPr
  | T5PublicUntrusted.

#[export] Instance TrustTier_eq_dec : EqDecision TrustTier.
Proof. solve_decision. Defined.

Definition TrustTier_as_str (t : TrustTier) : string :=
  match t with
  | T0ReleaseHermetic => "t0-release-hermetic"
  | T1ProtectedInternal => "t1-protected-internal"
  | T2InternalBranch => "t2-internal-branch"
  | T3AgentAuthored => "t3-agent-authored"
  | T4ForkPr => "t4-fork-pr"
  | T5PublicUntrusted => "t5-public-untrusted"
  end.

Definition can_write_trusted_compiled_cache (t : TrustTier) : bool :=
  match t with T1ProtectedInternal => true | _ => false end.

Definition can_read_mutable_compiled_cache (t : TrustTier) : bool :=
  match t with T0ReleaseHermetic | T4ForkPr | T5PublicUntrusted => false | _ => true end.

Definition is_untrusted (t : TrustTier) : bool :=
  match t with T4ForkPr | T5PublicUntrusted => true | _ => false end.

Definition TrustTier_from_str (s : string) : result TrustTier string :=
  if bool_decide (s = "t0-release-hermetic") || bool_decide (s = "T0")
  then Ok T0ReleaseHermetic
  else if bool_decide (s = "t1-protected-internal") || bool_decide (s = "T1")
  then Ok T1ProtectedInternal
  else if bool_decide (s = "t2-internal-branch") || bool_decide (s = "T2")
  then Ok T2InternalBranch
  else if bool_decide (s = "t3-agent-authored") || bool_decide (s = "T3")
  then Ok T3AgentAuthored
  else if bool_decide (s = "t4-fork-pr") || bool_decide (s = "T4")
  then Ok T4ForkPr
  else if bool_decide (s = "t5-public-untrusted") || bool_decide (s = "T5")
  then Ok T5PublicUntrusted
  else Err ("unknown trust tier " +:+ s).

(** * Requests (policy/types.rs) *)

Inductive CacheAction : Type :=
  | CA_Read
  | CA_Write
  | CA_Restore
  | CA_Promote
  | CA_QuarantineWrite.

#[export] Instance CacheAction_eq_dec : EqDecision CacheAction.
Proof. solve_decision. Defined.

(** [{:?}]. *)
Definition CacheAction_debug (a : CacheAction) : string :=
  match a with
  | CA_Read => "Read"
  | CA_Write => "Write"
  | CA_Restore => "Restore"
  | CA_Promote => "Promote"
  | CA_QuarantineWrite => "QuarantineWrite"
  end.

Inductive CacheLayer : Type :=
  | L0JobTmpfs
  | L1RunnerLocalProject
  | L2RunnerLocalSourceBlob
  | L3RepoCompiledCas
  | L4TenantSourceCas
  | L5ExplicitSharedCompiledCas
  | L6ReleaseHermeticVendorSnapshot.

#[export] Instance CacheLayer_eq_dec : EqDecision CacheLayer.
Proof. solve_decision. Defined.

Definition is_compiled (l : CacheLayer) : bool :=
  match l with
  | L1RunnerLocalProject | L3RepoCompiledCas | L5ExplicitSharedCompiledCas => true
  | _ => false
  end.

Definition is_mutable (l : CacheLayer) : bool :=
  match l with L6ReleaseHermeticVendorSnapshot => false | _ => true end.

Definition is_trusted_compiled (l : CacheLayer) : bool :=
  match l with
  | L1RunnerLocalProject | L3RepoCompiledCas | L5ExplicitSharedCompiledCas => true
  | _ => false
  end.

Definition CacheLayer_as_str (l : CacheLayer) : string :=
  match l with
  | L0JobTmpfs => "L0-job-tmpfs"
  | L1RunnerLocalProject => "L1-runner-local-project-cache"
  | L2RunnerLocalSourceBlob => "L2-runner-local-source-blob-cache"
  | L3RepoCompiledCas => "L3-repo-compiled-cas"
  | L4TenantSourceCas => "L4-tenant-source-cas"
  | L5ExplicitSharedCompiledCas => "L5-explicit-shared-compiled-cas"
  | L6ReleaseHermeticVendorSnapshot => "L6-release-hermetic-vendor-snapshot"
  end.

Inductive CacheScope : Type :=
  | CS_Job (job_id : string)
  | CS_Repo (tenant_id repo_id : string)
  | CS_Tenant (tenant_id : string)
  | CS_ExplicitShared (tenant_id scope_id : string) (allowlisted : bool)
  | CS_ReleaseHermetic (tenant_id repo_id snapshot_id : string).

Definition scope_tenant_id (s : CacheScope) : string :=
  match s with
  | CS_Job job_id => job_id
  | CS_Repo t _ | CS_Tenant t | CS_ExplicitShared t _ _ | CS_ReleaseHermetic t _ _ => t
  end.

Definition scope_repo_id (s : CacheScope) : option string :=
  match s with
  | CS_Repo _ r | CS_ReleaseHermetic _ r _ => Some r
  | _ => None
  end.

Record CacheRequest := {
  action : CacheAction;
  layer : CacheLayer;
  actor_tier : TrustTier;
  source_repo_id : string;
  target_repo_id : string;
  scope : CacheScope;
  green_protected_policy : bool;
  has_explainable_fingerprint : bool;
  has_receipt : bool;
  is_release_lane : bool;
  is_agent_patch : bool
}.

Definition same_repo (r : CacheRequest) : bool :=
  bool_decide (source_repo_id r = target_repo_id r).

Definition explicit_shared_allowed (r : CacheRequest) : bool :=
  match scope r with CS_ExplicitShared _ _ true => true | _ => false end.

Inductive AccessDecision : Type :=
  | Allow (reasons : list string)
  | Deny (reasons : list string).

Definition allowed (d : AccessDecision) : bool :=
  match d with Allow _ => true | Deny _ => false end.

Definition reasons (d : AccessDecision) : list string :=
  match d with Allow r | Deny r => r end.

(** * The laws (policy/engine.rs) *)

(** [matches!(action, Restore | Read)] and [matches!(action, Write | Promote)]. *)
Definition is_read (a : CacheAction) : bool :=
  match a with CA_Restore | CA_Read => true | _ => false end.
Definition is_write (a : CacheAction) : bool :=
  match a with CA_Write | CA_Promote => true | _ => false end.

(** [if c { deny.push(reason) }]. *)
Definition push_if (c : bool) (reason : string) (deny : list string) : list string :=
  if c then deny ++ [reason] else deny.

Definition denials (r : CacheRequest) : list string :=
  let a := action r in
  let l := layer r in
  let t := actor_tier r in
  let deny := [] in
  let deny := push_if (is_read a && negb (has_explainable_fingerprint r))
    "CV-LAW-008: restore/read requires explainable fingerprint" deny in
  let deny := push_if (is_release_lane r && is_compiled l && is_mutable l && is_read a)
    "CV-LAW-004: release lane cannot consume mutable compiled cache" deny in
  let deny := push_if (bool_decide (t = T0ReleaseHermetic)
      && negb (bool_decide (l = L6ReleaseHermeticVendorSnapshot)) && is_read a)
    "T0 release-hermetic lanes may restore only L6 hermetic snapshots" deny in
  let deny := push_if (is_untrusted t && is_trusted_compiled l && is_read a)
    "CV-LAW-001/CV-LAW-003: untrusted jobs may read source caches only, not trusted compiled cache"
    deny in
  let deny := push_if (is_untrusted t && is_trusted_compiled l && is_write a)
    "CV-LAW-002/CV-LAW-003: untrusted jobs cannot write trusted compiled cache" deny in
  let deny := push_if (bool_decide (a = CA_Promote) && negb (has_receipt r))
    "CV-LAW-009: cache promotion requires receipt" deny in
  let deny := push_if (is_write a && is_trusted_compiled l
      && negb (can_write_trusted_compiled_cache t))
    "only T1 protected-internal can write trusted compiled cache" deny in
  let deny := push_if (is_write a && is_trusted_compiled l
      && can_write_trusted_compiled_cache t && negb (green_protected_policy r))
    "trusted compiled cache write requires green protected policy" deny in
  let deny := push_if (bool_decide (l = L5ExplicitSharedCompiledCas)
      && negb (explicit_shared_allowed r))
    "CV-LAW-005: cross-project compiled artifact sharing denied without explicit allowlist"
    deny in
  let deny := push_if (is_compiled l && negb (same_repo r)
      && negb (bool_decide (l = L5ExplicitSharedCompiledCas)))
    "CV-LAW-005: compiled artifacts are repo-scoped by default" deny in
  push_if (is_agent_patch r && is_trusted_compiled l && is_write a)
    "agent patches write quarantine cache only until proof receipt" deny.

Definition evaluate (r : CacheRequest) : AccessDecision :=
  match denials r with
  | [] =>
      Allow ([CacheLayer_as_str (layer r) +:+ " " +:+ CacheAction_debug (action r)
              +:+ " permitted for " +:+ TrustTier_as_str (actor_tier r)]
             ++ (if is_compiled (layer r)
                 then ["compiled cache access remains scoped by key material fingerprint"]
                 else []))
  | deny => Deny deny
  end.

(** * Specification *)

(** The laws, by what is asked for. *)
Record lawful_read (r : CacheRequest) : Prop := {
  lr_explainable : has_explainable_fingerprint r = true;
  lr_hermetic : actor_tier r = T0ReleaseHermetic → layer r = L6ReleaseHermeticVendorSnapshot;
  lr_compiled : is_compiled (layer r) = true →
    is_release_lane r = false ∧ actor_tier r ≠ T4ForkPr ∧ actor_tier r ≠ T5PublicUntrusted
}.

Record lawful_write (r : CacheRequest) : Prop := {
  lw_receipt : action r = CA_Promote → has_receipt r = true;
  lw_compiled : is_compiled (layer r) = true →
    actor_tier r = T1ProtectedInternal ∧ green_protected_policy r = true
    ∧ is_agent_patch r = false
}.

Record lawful_sharing (r : CacheRequest) : Prop := {
  ls_shared : layer r = L5ExplicitSharedCompiledCas →
    ∃ tenant scope_id, scope r = CS_ExplicitShared tenant scope_id true;
  ls_repo : is_compiled (layer r) = true → layer r ≠ L5ExplicitSharedCompiledCas →
    source_repo_id r = target_repo_id r
}.

Definition lawful (r : CacheRequest) : Prop :=
  lawful_sharing r
  ∧ match action r with
    | CA_Read | CA_Restore => lawful_read r
    | CA_Write | CA_Promote => lawful_write r
    | CA_QuarantineWrite => True
    end.

(** * Lemmas *)

Lemma push_if_nil c reason deny : push_if c reason deny = [] ↔ c = false ∧ deny = [].
Proof. destruct c; cbn; [|naive_solver]. split; [|naive_solver]. by destruct deny. Qed.

Lemma allowed_denials r : allowed (evaluate r) = true ↔ denials r = [].
Proof. unfold evaluate. by destruct (denials r). Qed.

Lemma explicit_shared_allowed_spec r :
  explicit_shared_allowed r = true ↔ ∃ t s, scope r = CS_ExplicitShared t s true.
Proof. unfold explicit_shared_allowed. repeat case_match; naive_solver. Qed.

Lemma trusted_compiled_eq l : is_trusted_compiled l = is_compiled l.
Proof. by destruct l. Qed.

Lemma compiled_mutable l : is_compiled l = true → is_mutable l = true.
Proof. by destruct l. Qed.

Lemma untrusted_spec t : is_untrusted t = false ↔ t ≠ T4ForkPr ∧ t ≠ T5PublicUntrusted.
Proof. destruct t; naive_solver. Qed.

Lemma writer_spec t : can_write_trusted_compiled_cache t = true ↔ t = T1ProtectedInternal.
Proof. destruct t; naive_solver. Qed.

Lemma denials_nil r :
  denials r = [] ↔
  (is_read (action r) = true → lawful_read r)
  ∧ (is_write (action r) = true → lawful_write r) ∧ lawful_sharing r.
Proof.
  unfold denials. cbn zeta. rewrite !push_if_nil, !andb_false_iff, !negb_false_iff.
  unfold same_repo. rewrite !bool_decide_eq_false, !bool_decide_eq_true,
    explicit_shared_allowed_spec.
  rewrite !trusted_compiled_eq, untrusted_spec, writer_spec.
  pose proof (compiled_mutable (layer r)) as Hm.
  split.
  - intros (H11&H10&H9&H8&H7&H6&H5&H4&H3&H2&H1&_). split_and!.
    + intros Ha. split; [by destruct H1; [congruence|]|by intros; destruct H3 as [[]|]; congruence|].
      intros Hc. rewrite (Hm Hc) in H2.
      split; [by destruct H2 as [[[]|]|]; congruence|].
      destruct H4 as [[?|?]|?]; [done|congruence..].
    + intros Ha. split; [by intros; destruct H6; congruence|]. intros Hc.
      assert (actor_tier r = T1ProtectedInternal) as Ht by (destruct H7 as [[|]|]; congruence).
      split_and!; [done| |by destruct H11 as [[]|]; congruence].
      rewrite Ht in H8. cbn in H8. destruct H8 as [[[|]|]|]; congruence.
    + split; [by intros; destruct H9|]. intros Hc Hl. destruct H10 as [[|]|]; congruence.
  - intros (Hr&Hw&[Hs1 Hs2]). split_and!; [| | | | | | | | | | |done].
    + destruct (is_write _) eqn:Ha; [|by right]. destruct (is_compiled _) eqn:Hc; [|by left; right].
      left; left. by apply (lw_compiled r (Hw eq_refl)).
    + destruct (is_compiled _) eqn:Hc; [|by left; left].
      destruct (decide (layer r = L5ExplicitSharedCompiledCas)); [by right|].
      left; right. by apply Hs2.
    + destruct (decide (layer r = L5ExplicitSharedCompiledCas)); [right; by apply Hs1|by left].
    + destruct (is_write _) eqn:Ha; [|by left; left; left].
      destruct (is_compiled _) eqn:Hc; [|by left; left; right].
      right. by apply (lw_compiled r (Hw eq_refl)).
    + destruct (is_write _) eqn:Ha; [|by left; left].
      destruct (is_compiled _) eqn:Hc; [|by left; right].
      right. by apply (lw_compiled r (Hw eq_refl)).
    + destruct (decide (action r = CA_Promote)) as [Hp|]; [right|by left].
      apply lw_receipt; [apply Hw; by rewrite Hp|done].
    + destruct (is_write _) eqn:Ha; [|by right].
      destruct (is_compiled _) eqn:Hc; [|by left; right].
      left; left. destruct (lw_compiled r (Hw eq_refl) Hc) as (->&_). done.
    + destruct (is_read _) eqn:Ha; [|by right].
      destruct (is_compiled _) eqn:Hc; [|by left; right].
      left; left. by apply (lr_compiled r (Hr eq_refl)).
    + destruct (is_read _) eqn:Ha; [|by right]. left.
      destruct (decide (actor_tier r = T0ReleaseHermetic)) as [Ht|]; [right|by left].
      by apply (lr_hermetic r (Hr eq_refl)).
    + destruct (is_read _) eqn:Ha; [|by right]. left.
      destruct (is_compiled _) eqn:Hc; [|by left; right].
      left; left. by apply (lr_compiled r (Hr eq_refl)).
    + destruct (is_read _) eqn:Ha; [|by left]. right. by apply (lr_explainable r (Hr eq_refl)).
Qed.

Lemma evaluate_lawful r : allowed (evaluate r) = true ↔ lawful r.
Proof.
  rewrite allowed_denials, denials_nil. unfold lawful.
  destruct (action r); cbn; naive_solver.
Qed.

(** The engine allows exactly the lawful requests. So an untrusted actor never
    reads or writes a compiled layer; a compiled layer is written only from the
    protected tier with green policy and not by an agent patch, within one
    repository or an allowlisted scope; the release lane and the hermetic tier
    never consume compiled entries. A refusal always gives a reason. *)
Theorem policy_lawful r :
  (allowed (evaluate r) = true ↔ lawful r)
  ∧ (allowed (evaluate r) = false → reasons (evaluate r) ≠ []).
Proof.
  split; [apply evaluate_lawful|]. unfold evaluate. by destruct (denials r).
Qed.

(** The action a request names decides which laws apply: under [QuarantineWrite]
    neither the reading nor the writing laws do. *)
Lemma quarantine_action_unrestricted r :
  action r = CA_QuarantineWrite → lawful_sharing r → allowed (evaluate r) = true.
Proof. intros Ha Hs. apply evaluate_lawful. split; [done|]. by rewrite Ha. Qed.
