(* ===== verification/CacheCore.v ===== *)
(** CacheCore: digests, cache keys, the content-addressed store, receipts, the
    quarantine store and the manifest
    (src/components/jeryu-cache/crates/jeryu-cache-core/src).

    BLAKE3 and serde's JSON encodings are not this repository's code: they are the
    operations of the class [External], and what is relied on is the class
    [ExternalSpec]. The file system is [FileSystem]'s. *)

From Stdlib Require Import Ascii.
From S2P Require Import Prelude Text FileSystem CachePolicy.
Local Open Scope machine_scope.

(** * Errors (error.rs) *)

Inductive JeryuCacheError : Type :=
  | InvalidDigest (value : string)
  | CachePolicyDenied (reason : string)
  | CacheMiss (digest : string)
  | FalseHit (reason : string)
  | MissingReceipt
  | InvalidKeyMaterial (reason : string)
  | Io
  | Json.

Definition of_io (_ : IoError) : JeryuCacheError := Io.

(** A serde call: [None] is its error. *)
Definition json {A} (r : option A) : result A JeryuCacheError :=
  match r with Some a => Ok a | None => Err Json end.

(** * Data *)

Definition Digest : Type := string.

Record CacheKeyMaterial := {
  cache_schema_version : N;
  tenant_id : string;
  repo_id_or_explicit_shared_scope : string;
  trust_tier : TrustTier;
  rustc_version : string;
  cargo_version : string;
  toolchain_channel : string;
  host_triple : string;
  target_triple : string;
  profile : string;
  feature_set : list string;
  rustflags : list string;
  linker_identity : string;
  sysroot_digest : Digest;
  cargo_lock_subgraph_digest : Digest;
  cargo_toml_digest : Digest;
  workspace_metadata_digest : Digest;
  crate_source_digest : Digest;
  build_rs_digest : Digest;
  build_rs_declared_inputs_digest : Digest;
  proc_macro_digest : Digest;
  native_deps_digest : Digest;
  env_allowlist_digest : Digest;
  runner_rootfs_digest : Digest;
  sandbox_policy_digest : Digest
}.

Record CacheKey := { key_digest : Digest; material : CacheKeyMaterial }.

Inductive CacheEvent : Type :=
  | CE_Restore
  | CE_Read
  | CE_Write
  | CE_QuarantineWrite
  | CE_Promote
  | CE_Verify
  | CE_Deny
  | CE_SafeMiss.

Record CacheReceipt := {
  receipt_id : Digest;
  event : CacheEvent;
  receipt_key_digest : option Digest;
  receipt_object_digest : option Digest;
  receipt_action : CacheAction;
  receipt_layer : CacheLayer;
  receipt_actor_tier : TrustTier;
  decision : AccessDecision;
  timestamp_ms : N;
  parent_receipt : option Digest
}.

Record CasObject := { object_digest : Digest; object_bytes : N }.

Record QuarantineRecord := {
  record_object : CasObject;
  record_reason : string;
  writer_receipt_id : Digest
}.

Record CacheEntry := {
  entry_key : CacheKey;
  entry_object_digest : Digest;
  entry_layer : CacheLayer;
  size_bytes : N;
  writer_receipt : CacheReceipt
}.

Record CacheManifest := { manifest_entries : list CacheEntry }.

(** What the cache takes from BLAKE3 (its lowercase hex form) and from serde: the
    JSON of the key material, of the object a receipt's id is computed from, of a
    receipt and of a quarantine record, and the parser of a stored receipt. *)
Class External := {
  blake3_hex : string → string;
  material_json : CacheKeyMaterial → option string;
  receipt_material_json :
    CacheEvent → option Digest → option Digest → CacheAction → CacheLayer → TrustTier →
    AccessDecision → N → option Digest → option string;
  receipt_json : CacheReceipt → option string;
  receipt_of_json : string → option CacheReceipt;
  record_json : QuarantineRecord → option string
}.

Definition is_lower_hexdigit (c : Ascii.ascii) : bool :=
  is_ascii_digit c || in_range 97 102 (code c).

(** The documented shape of a BLAKE3 hex digest. *)
Class ExternalSpec `{External} : Prop := {
  blake3_length bytes : String.length (blake3_hex bytes) = 64;
  blake3_lower bytes : string_all is_lower_hexdigit (blake3_hex bytes) = true
}.

Section core.
Context `{External}.

(** * Digests (digest.rs) *)

Definition Digest_from_bytes (bytes : string) : Digest := blake3_hex bytes.

Definition Digest_parse (value : string) : result Digest JeryuCacheError :=
  if negb (String.length value =? 64) || negb (string_all is_ascii_hexdigit value)
  then Err (InvalidDigest value)
  else Ok (lowercase value).

Definition shard_path (d : Digest) : string * string * string :=
  (String.substring 0 2 d, String.substring 2 2 d,
   String.substring 4 (String.length d - 4) d).

(** * Keys (key.rs) *)

(** The required fields, in the order of the loop. *)
Definition required_fields (m : CacheKeyMaterial) : list (string * string) :=
  [("tenant_id", tenant_id m);
   ("repo_id_or_explicit_shared_scope", repo_id_or_explicit_shared_scope m);
   ("rustc_version", rustc_version m);
   ("cargo_version", cargo_version m);
   ("host_triple", host_triple m);
   ("target_triple", target_triple m);
   ("profile", profile m)].

Definition material_validate (m : CacheKeyMaterial) : result unit JeryuCacheError :=
  if (cache_schema_version m =? 0)%N
  then Err (InvalidKeyMaterial "schema version must be non-zero")
  else
    match find_first (λ nv, str_is_empty (trim nv.2)) (required_fields m) with
    | Some nv => Err (InvalidKeyMaterial (nv.1 +:+ " is required"))
    | None => Ok tt
    end.

Definition normalize_material (m : CacheKeyMaterial) : CacheKeyMaterial :=
  {| cache_schema_version := cache_schema_version m; tenant_id := tenant_id m;
     repo_id_or_explicit_shared_scope := repo_id_or_explicit_shared_scope m;
     trust_tier := trust_tier m; rustc_version := rustc_version m;
     cargo_version := cargo_version m; toolchain_channel := toolchain_channel m;
     host_triple := host_triple m; target_triple := target_triple m;
     profile := profile m; feature_set := sort_dedup (feature_set m);
     rustflags := sort_dedup (rustflags m); linker_identity := linker_identity m;
     sysroot_digest := sysroot_digest m;
     cargo_lock_subgraph_digest := cargo_lock_subgraph_digest m;
     cargo_toml_digest := cargo_toml_digest m;
     workspace_metadata_digest := workspace_metadata_digest m;
     crate_source_digest := crate_source_digest m; build_rs_digest := build_rs_digest m;
     build_rs_declared_inputs_digest := build_rs_declared_inputs_digest m;
     proc_macro_digest := proc_macro_digest m; native_deps_digest := native_deps_digest m;
     env_allowlist_digest := env_allowlist_digest m;
     runner_rootfs_digest := runner_rootfs_digest m;
     sandbox_policy_digest := sandbox_policy_digest m |}.

Definition canonical_json (m : CacheKeyMaterial) : result string JeryuCacheError :=
  match material_validate m with
  | Err e => Err e
  | Ok _ => json (material_json (normalize_material m))
  end.

Definition derive_key (m : CacheKeyMaterial) : result CacheKey JeryuCacheError :=
  match canonical_json m with
  | Err e => Err e
  | Ok bytes => Ok {| key_digest := Digest_from_bytes bytes; material := m |}
  end.

Definition key_verify (k : CacheKey) : result unit JeryuCacheError :=
  match derive_key (material k) with
  | Err e => Err e
  | Ok expected =>
      if bool_decide (key_digest expected = key_digest k) then Ok tt
      else Err (FalseHit ("cache key digest mismatch expected " +:+ key_digest expected
                          +:+ " got " +:+ key_digest k))
  end.

(** * The content-addressed store (cas.rs) *)

Definition ContentAddressedStore : Type := string.

Definition cas_open (root : string) : M JeryuCacheError ContentAddressedStore :=
  _ <<- ioM of_io (create_dir_all (path_join root "objects"));;
  ret root.

Definition object_dir (cas : ContentAddressedStore) (d : Digest) : string :=
  let '(a, b, _) := shard_path d in
  path_join (path_join (path_join cas "objects") a) b.

Definition object_path (cas : ContentAddressedStore) (d : Digest) : string :=
  path_join (object_dir cas d) (shard_path d).2.

Definition tmp_path (cas : ContentAddressedStore) (d : Digest) : string :=
  path_join (object_dir cas d) ("." +:+ d +:+ ".tmp").

Definition cas_object (d : Digest) (bytes : string) : CasObject :=
  {| object_digest := d; object_bytes := N.of_nat (String.length bytes) |}.

Definition put_bytes (cas : ContentAddressedStore) (bytes : string) :
    M JeryuCacheError CasObject :=
  let digest := Digest_from_bytes bytes in
  let path := object_path cas digest in
  there <<- pureM (path_exists path);;
  if (there : bool) then ret (cas_object digest bytes)
  else
    let tmp := tmp_path cas digest in
    _ <<- ioM of_io (create_dir_all (object_dir cas digest));;
    _ <<- ioM of_io (file_create tmp);;
    _ <<- ioM of_io (write_all tmp bytes);;
    _ <<- ioM of_io sync_all;;
    _ <<- ioM of_io (rename tmp path);;
    ret (cas_object digest bytes).

Definition put_file (cas : ContentAddressedStore) (path : string) :
    M JeryuCacheError CasObject :=
  bytes <<- ioM of_io (fs_read path);;
  put_bytes cas bytes.

Definition get_bytes (cas : ContentAddressedStore) (digest : Digest) :
    M JeryuCacheError string :=
  let path := object_path cas digest in
  there <<- pureM (path_exists path);;
  if negb there then throw (CacheMiss digest)
  else
    bytes <<- ioM of_io (fs_read path);;
    let actual := Digest_from_bytes bytes in
    if negb (bool_decide (actual = digest))
    then throw (FalseHit ("CAS object path " +:+ digest +:+ " contained " +:+ actual))
    else ret bytes.

(** [parent] is [output.parent()]. *)
Definition write_to (cas : ContentAddressedStore) (digest : Digest)
    (parent : option string) (output : string) : M JeryuCacheError unit :=
  bytes <<- get_bytes cas digest;;
  _ <<- (match parent with
         | Some dir => ioM of_io (create_dir_all dir)
         | None => ret tt
         end);;
  ioM of_io (fs_write output bytes).

Definition contains_verified (cas : ContentAddressedStore) (digest : Digest) :
    M JeryuCacheError bool := λ m,
  match get_bytes cas digest m with
  | (Ok _, m') => (Ok true, m')
  | (Err (CacheMiss _), m') => (Ok false, m')
  | (Err e, m') => (Err e, m')
  end.

(** * Verification (verify.rs) *)

Record VerificationReport := {
  report_key_digest : Digest;
  report_object_digest : Digest;
  verified : bool;
  false_hit : option (string * string * string)
}.

Definition verify_cache_hit (store : ContentAddressedStore) (key : CacheKey)
    (object : Digest) : M JeryuCacheError VerificationReport :=
  _ <<- liftM (key_verify key);;
  bytes <<- get_bytes store object;;
  let actual := Digest_from_bytes bytes in
  if negb (bool_decide (actual = object))
  then throw (FalseHit ("object digest mismatch expected " +:+ object +:+ " got " +:+ actual))
  else ret {| report_key_digest := key_digest key; report_object_digest := object;
              verified := true; false_hit := None |}.

(** * Receipts (receipt.rs) *)

Definition CacheReceipt_new (ev : CacheEvent) (key object : option Digest)
    (a : CacheAction) (l : CacheLayer) (t : TrustTier) (d : AccessDecision)
    (parent : option Digest) : M JeryuCacheError CacheReceipt :=
  now <<- pureM read_now;;
  let timestamp := match now with Some ms => ms | None => 0%N end in
  text <<- liftM (json (receipt_material_json ev key object a l t d timestamp parent));;
  ret {| receipt_id := Digest_from_bytes text; event := ev; receipt_key_digest := key;
         receipt_object_digest := object; receipt_action := a; receipt_layer := l;
         receipt_actor_tier := t; decision := d; timestamp_ms := timestamp;
         parent_receipt := parent |}.

Definition ReceiptSink : Type := string.

Definition sink_open (root : string) : M JeryuCacheError ReceiptSink :=
  _ <<- ioM of_io (create_dir_all root);;
  ret root.

Definition receipt_path (sink : ReceiptSink) (id : Digest) : string :=
  path_join sink (id +:+ ".receipt.json").

Definition sink_write (sink : ReceiptSink) (r : CacheReceipt) : M JeryuCacheError string :=
  text <<- liftM (json (receipt_json r));;
  _ <<- ioM of_io (fs_write (receipt_path sink (receipt_id r)) text);;
  ret (receipt_path sink (receipt_id r)).

Definition sink_read (sink : ReceiptSink) (id : Digest) : M JeryuCacheError CacheReceipt :=
  text <<- ioM of_io (fs_read (receipt_path sink id));;
  liftM (json (receipt_of_json text)).

(** * Quarantine (quarantine.rs) *)

Record QuarantineStore := {
  quarantine_root : string;
  quarantine_cas : ContentAddressedStore
}.

Definition quarantine_open (root : string) : M JeryuCacheError QuarantineStore :=
  _ <<- ioM of_io (create_dir_all (path_join root "records"));;
  cas <<- cas_open (path_join root "cas");;
  ret {| quarantine_root := root; quarantine_cas := cas |}.

Definition record_path (q : QuarantineStore) (d : Digest) : string :=
  path_join (path_join (quarantine_root q) "records") (d +:+ ".json").

Definition quarantine_store_write (q : QuarantineStore) (bytes reason : string)
    (receipt : CacheReceipt) : M JeryuCacheError QuarantineRecord :=
  object <<- put_bytes (quarantine_cas q) bytes;;
  let record := {| record_object := object; record_reason := reason;
                   writer_receipt_id := receipt_id receipt |} in
  text <<- liftM (json (record_json record));;
  _ <<- ioM of_io (fs_write (record_path q (object_digest (record_object record))) text);;
  ret record.

Definition promote_to (q : QuarantineStore) (record_digest : Digest)
    (target : ContentAddressedStore) (promotion : CacheReceipt) :
    M JeryuCacheError CasObject :=
  if negb (allowed (decision promotion))
  then throw (CachePolicyDenied "promotion receipt was not allowed")
  else
    bytes <<- get_bytes (quarantine_cas q) record_digest;;
    put_bytes target bytes.

(** * The manifest (manifest.rs) *)

Definition manifest_add (m : CacheManifest) (e : CacheEntry) : CacheManifest :=
  {| manifest_entries :=
       filter (λ x, negb (bool_decide (key_digest (entry_key x) = key_digest (entry_key e)))
                    || negb (bool_decide (entry_layer x = entry_layer e)) = true)
         (manifest_entries m) ++ [e] |}.

Definition manifest_find (m : CacheManifest) (d : Digest) (l : CacheLayer) :
    option CacheEntry :=
  find_first (λ e, bool_decide (key_digest (entry_key e) = d)
                   && bool_decide (entry_layer e = l)) (manifest_entries m).
End core.

(** * Lemmas: digests and paths *)

Record is_digest (d : Digest) : Prop := {
  dg_length : String.length d = 64;
  dg_lower : string_all is_lower_hexdigit d = true
}.

Lemma substring_full s n : String.length s <= n → String.substring 0 n s = s.
Proof.
  revert n. induction s as [|c s IH]; intros [|n] Hn; cbn in *; try done; [lia|].
  f_equal. apply IH. lia.
Qed.

Lemma substring_zero s : String.substring 0 0 s = "".
Proof. by destruct s. Qed.

Lemma is_digest_split d :
  is_digest d → ∃ c1 c2 c3 c4 rest c,
    d = String c1 (String c2 (String c3 (String c4 (rest +:+ String c ""))))
    ∧ is_lower_hexdigit c = true
    ∧ shard_path d = (String c1 (String c2 ""), String c3 (String c4 ""),
                      rest +:+ String c "").
Proof.
  intros [Hl Ha]. destruct d as [|c1 [|c2 [|c3 [|c4 r]]]]; try done.
  assert (∃ rest c, r = rest +:+ String c "") as (rest&c&->).
  { clear Ha. cbn in Hl. assert (String.length r ≠ 0) as Hr by lia. clear Hl.
    induction r as [|x r IH]; [done|]. destruct r as [|y r]; [by exists "", x|].
    destruct IH as (rest&c&->); [done|]. by exists (String x rest), c. }
  exists c1, c2, c3, c4, rest, c. split_and!; [done| |].
  - cbn [string_all] in Ha. rewrite string_all_append in Ha. cbn in Ha.
    rewrite !andb_true_iff in Ha. tauto.
  - unfold shard_path. cbn [String.substring String.length].
    rewrite substring_zero, substring_full by lia. done.
Qed.

(** The text of a path from the fan-out directories on. *)
Lemma object_path_eq cas d :
  object_path cas d
  = cas +:+ "/objects/" +:+ (shard_path d).1.1 +:+ "/" +:+ (shard_path d).1.2 +:+ "/"
    +:+ (shard_path d).2.
Proof.
  unfold object_path, object_dir, path_join. destruct (shard_path d) as [[a b] r]; cbn [fst snd].
  by rewrite !append_assoc.
Qed.

Lemma length_shards d :
  is_digest d → String.length ("/objects/" +:+ (shard_path d).1.1 +:+ "/" +:+ (shard_path d).1.2
    +:+ "/" +:+ (shard_path d).2) = 75.
Proof.
  intros Hd. destruct (is_digest_split d Hd) as (c1&c2&c3&c4&rest&c&Heq&_&->).
  destruct Hd as [Hl _]. rewrite Heq in Hl. cbn [String.length] in Hl.
  rewrite !length_append in *. cbn in *. rewrite ?length_append in *. cbn in *. lia.
Qed.

Lemma object_path_inj cas1 cas2 d1 d2 :
  is_digest d1 → is_digest d2 → object_path cas1 d1 = object_path cas2 d2 →
  cas1 = cas2 ∧ d1 = d2.
Proof.
  intros H1 H2. rewrite !object_path_eq. intros Heq.
  assert (String.length cas1 = String.length cas2) as Hlen.
  { apply (f_equal String.length) in Heq. rewrite !(length_append cas1), !(length_append cas2) in Heq.
    rewrite !length_shards in Heq by done. lia. }
  apply append_inj_len in Heq as [-> Heq]; [|done]. split; [done|].
  destruct (is_digest_split d1 H1) as (a1&a2&a3&a4&r&a&->&_&Hs1).
  destruct (is_digest_split d2 H2) as (b1&b2&b3&b4&s&b&->&_&Hs2).
  rewrite Hs1, Hs2 in Heq. cbn [fst snd] in Heq. rewrite !append_cons, !append_nil_l in Heq.
  injection Heq as -> -> -> -> ->. done.
Qed.

Lemma append_last_inj (s t : string) c c' : s +:+ String c "" = t +:+ String c' "" → c = c'.
Proof.
  intros Heq. assert (String.length s = String.length t) as Hl.
  { apply (f_equal String.length) in Heq. rewrite !length_append in Heq. cbn in Heq. lia. }
  apply append_inj_len in Heq as [_ [= ->]]; done.
Qed.

(** No object lives at a path that ends in a character that is no hex digit: not
    the temporary files, nor the receipts, nor the quarantine records. *)
Lemma object_path_last cas d p c :
  is_digest d → is_lower_hexdigit c = false → object_path cas d ≠ p +:+ String c "".
Proof.
  intros Hd Hc. rewrite object_path_eq.
  destruct (is_digest_split d Hd) as (a1&a2&a3&a4&r&a&_&Ha&->). cbn [fst snd].
  intros Heq. rewrite <-!append_assoc in Heq. apply append_last_inj in Heq. congruence.
Qed.

Section cas_lemmas.
Context `{ExternalSpec}.

Lemma from_bytes_digest bytes : is_digest (Digest_from_bytes bytes).
Proof. split; [apply blake3_length|apply blake3_lower]. Qed.

(** Every stored object hashes to the digest its path says, in every store. *)
Definition sound (fs : gmap string string) : Prop :=
  ∀ cas d bytes, is_digest d → fs !! object_path cas d = Some bytes →
    Digest_from_bytes bytes = d.

(** A set of objects stays in place, up to content with the same digest. *)
Definition stored (cas : ContentAddressedStore) (d : Digest) (fs : gmap string string) : Prop :=
  sound fs ∧ is_Some (fs !! object_path cas d).

(** Files that are no objects do not matter. *)
Definition stable_under (p : string) (P : gmap string string → Prop) : Prop :=
  ∀ fs x, P fs → P (<[p := x]> fs).

Lemma sound_other p :
  (∀ cas d, is_digest d → object_path cas d ≠ p) → stable_under p sound.
Proof.
  intros Hp fs x Hs cas d bytes Hd. rewrite lookup_insert_ne; [by apply Hs|].
  intros Heq. by apply (Hp cas d).
Qed.

Lemma stored_other cas d p :
  is_digest d → (∀ cas d, is_digest d → object_path cas d ≠ p) →
  stable_under p (stored cas d).
Proof.
  intros Hd Hp fs x [Hs Hin]. split; [by apply sound_other|].
  rewrite lookup_insert_ne; [done|]. intros Heq. by apply (Hp cas d).
Qed.

Lemma object_not_suffix cas d p suffix c :
  is_digest d → is_lower_hexdigit c = false →
  object_path cas d ≠ p +:+ suffix +:+ String c "".
Proof. intros Hd Hc. rewrite <-append_assoc. by apply object_path_last. Qed.

Lemma object_not_tmp cas d cas' d' : is_digest d → object_path cas d ≠ tmp_path cas' d'.
Proof.
  intros Hd. unfold tmp_path, path_join. rewrite <-!append_assoc.
  change ".tmp" with (".tm" +:+ String "p"%char ""). rewrite <-append_assoc.
  by apply object_path_last.
Qed.

Lemma object_not_receipt cas d sink id : is_digest d → object_path cas d ≠ receipt_path sink id.
Proof.
  intros Hd. unfold receipt_path, path_join. rewrite <-!append_assoc.
  change ".receipt.json" with (".receipt.jso" +:+ String "n"%char ""). rewrite <-append_assoc.
  by apply object_path_last.
Qed.

Lemma object_not_record cas d q id : is_digest d → object_path cas d ≠ record_path q id.
Proof.
  intros Hd. unfold record_path, path_join. rewrite <-!append_assoc.
  change ".json" with (".jso" +:+ String "n"%char ""). rewrite <-append_assoc.
  by apply object_path_last.
Qed.

(** Publishing an object under the digest of its bytes. *)
Lemma sound_publish cas bytes fs :
  sound fs → sound (<[object_path cas (Digest_from_bytes bytes) := bytes]> fs).
Proof.
  intros Hs cas' d bytes' Hd.
  destruct (decide (object_path cas (Digest_from_bytes bytes) = object_path cas' d)) as [Heq|Hne].
  - rewrite Heq, lookup_insert_eq. intros [= <-].
    by apply object_path_inj in Heq as [_ ->]; [|apply from_bytes_digest|done].
  - rewrite lookup_insert_ne by done. by apply Hs.
Qed.

Lemma sound_delete p fs : sound fs → sound (delete p fs).
Proof.
  intros Hs cas d bytes Hd [_ Hl]%lookup_delete_Some. by apply (Hs cas).
Qed.

(** The tail of [put_bytes]: the file is complete and is moved into place. *)
Lemma rename_publishes cas bytes m :
  files m !! tmp_path cas (Digest_from_bytes bytes) = Some bytes → sound (files m) →
  let r := rename (tmp_path cas (Digest_from_bytes bytes))
             (object_path cas (Digest_from_bytes bytes)) m in
  sound (files r.2)
  ∧ (r.1 = Ok tt → files r.2 !! object_path cas (Digest_from_bytes bytes) = Some bytes)
  ∧ (∀ cas' d, is_digest d → is_Some (files m !! object_path cas' d) →
       is_Some (files r.2 !! object_path cas' d)).
Proof.
  intros Htmp Hs. unfold rename. cbn. destruct (faults m (op_count m)); cbn; [|by split_and!..].
  rewrite Htmp. cbn. split_and!.
  - by apply sound_publish, sound_delete.
  - intros _. by rewrite lookup_insert_eq.
  - intros cas' d Hd Hin. rewrite lookup_insert_is_Some'. right. rewrite lookup_delete_ne; [done|].
    intros Heq. by apply (object_not_tmp cas' d cas (Digest_from_bytes bytes)).
Qed.

#[local] Arguments rename : simpl never.

(** Everything that matters about [put_bytes], for every pattern of faults. *)
Lemma put_bytes_spec cas bytes m :
  sound (files m) →
  let r := put_bytes cas bytes m in
  sound (files r.2)
  ∧ (∀ cas' d, is_digest d → is_Some (files m !! object_path cas' d) →
       is_Some (files r.2 !! object_path cas' d))
  ∧ (∀ obj, r.1 = Ok obj → obj = cas_object (Digest_from_bytes bytes) bytes
       ∧ is_Some (files r.2 !! object_path cas (Digest_from_bytes bytes))).
Proof.
  intros Hs. unfold put_bytes, bindM, pureM, ret, ioM.
  set (d := Digest_from_bytes bytes). set (tmp := tmp_path cas d).
  destruct (path_exists (object_path cas d) m) as [there m1] eqn:He.
  assert (files m1 = files m) as Hf1 by (rewrite <-(files_path_exists (object_path cas d) m), He; done).
  destruct there.
  { cbn. rewrite Hf1. split_and!; [done|done|]. intros obj [= <-]. split; [done|].
    unfold path_exists in He. cbn in He. destruct (faults m (op_count m)); [|done..].
    injection He as He _. by apply bool_decide_eq_true in He. }
  assert (∀ E (c : M E unit) mm, files mm = files m → keeps (λ fs, fs = files m) c →
    files (c mm).2 = files m) as Hkeep by (intros E c mm Hmm Hc; by apply Hc).
  pose proof (Hkeep _ _ m1 Hf1 (keeps_create_dir_all _ (object_dir cas d))) as Hf2.
  destruct (create_dir_all (object_dir cas d) m1) as [[[]|[]] m2]; cbn in *;
    [|rewrite Hf2; by split_and!].
  assert (∀ x, sound (<[tmp := x]> (files m))
    ∧ (∀ cas' d', is_digest d' → is_Some (files m !! object_path cas' d') →
         is_Some (<[tmp := x]> (files m) !! object_path cas' d'))) as Htmp.
  { intros x. split.
    - apply sound_other; [|done]. intros; by apply object_not_tmp.
    - intros cas' d' Hd' Hin. rewrite lookup_insert_ne; [done|].
      intros Heq. by apply (object_not_tmp cas' d' cas d). }
  unfold file_create. cbn. destruct (faults m2 (op_count m2)); cbn;
    [|rewrite Hf2; by split_and!..].
  unfold write_all. cbn. destruct (faults m2 (op_count m2 + 1)); cbn;
    rewrite Hf2, ?insert_insert_eq; [| |].
  2-3: match goal with |- sound (<[_ := ?x]> _) ∧ _ => destruct (Htmp x) as [? ?] end;
       (split; [done|split; [done|by intros ? [=]]]).
  unfold sync_all. cbn. destruct (Htmp bytes) as [Hs3 Hin3].
  destruct (faults m2 (op_count m2 + 1 + 1)); cbn; [|by split_and!..].
  match goal with |- context [rename tmp (object_path cas d) ?mm] => set (m5 := mm) end.
  destruct (rename_publishes cas bytes m5) as (Hs5&Hok5&Hin5); [by cbn; rewrite lookup_insert_eq|done|].
  fold d in Hs5, Hok5, Hin5. fold tmp in Hs5, Hok5, Hin5.
  destruct (rename tmp (object_path cas d) m5) as [[[]|[]] m6]; cbn in *.
  - split_and!; [done|auto|]. intros obj [= <-]. split; [done|]. rewrite Hok5 by done. eauto.
  - split_and!; [done|auto|done].
Qed.
End cas_lemmas.

Section store_theorems.
Context `{ExternalSpec}.

Lemma get_bytes_hashes cas d m bytes m' :
  get_bytes cas d m = (Ok bytes, m') → Digest_from_bytes bytes = d.
Proof.
  unfold get_bytes. rewrite bindM_ok. intros (there&m1&_&Hk).
  destruct there; cbn [negb] in Hk; [|done].
  rewrite bindM_ok in Hk. destruct Hk as (b&m2&_&Hk).
  case_bool_decide as Hd; [|done]. by injection Hk as <- _.
Qed.

Lemma get_bytes_on_disk cas d m bytes m' :
  get_bytes cas d m = (Ok bytes, m') → files m !! object_path cas d = Some bytes.
Proof.
  unfold get_bytes. rewrite bindM_ok. intros (there&m1&Hex&Hk).
  assert (files m1 = files m) as Hf.
  { rewrite <-(files_path_exists (object_path cas d) m). unfold pureM in Hex.
    destruct (path_exists _ m). by injection Hex as _ ->. }
  destruct there; cbn [negb] in Hk; [|done].
  apply bindM_ok in Hk as (b&m2&Hread&Hk). case_bool_decide; [|done].
  injection Hk as <- _. unfold ioM, fs_read in Hread. cbn in Hread. rewrite Hf in Hread.
  destruct (faults m1 (op_count m1)); [|done..].
  destruct (files m !! object_path cas d); [|done]. by injection Hread as -> _.
Qed.

Lemma get_bytes_keeps P cas d : keeps P (get_bytes cas d).
Proof.
  unfold get_bytes. apply keeps_bind; [apply keeps_pure, files_path_exists|].
  intros there. case_match; [apply keeps_throw|].
  apply keeps_bind; [apply keeps_io, keeps_fs_read|]. intros b.
  case_match; [apply keeps_throw|apply keeps_ret].
Qed.

Lemma get_bytes_present cas d m bytes :
  no_faults m → files m !! object_path cas d = Some bytes → Digest_from_bytes bytes = d →
  ∃ m', get_bytes cas d m = (Ok bytes, m') ∧ no_faults m' ∧ files m' = files m.
Proof.
  intros Hnf Hb Hd. unfold get_bytes, bindM, pureM, ioM, path_exists. cbn. rewrite Hnf.
  rewrite bool_decide_true by eauto. unfold fs_read. cbn. rewrite Hnf, Hb. cbn.
  rewrite bool_decide_true by done. by eexists.
Qed.

(** Whatever the disk holds, [get_bytes] returns only bytes with the requested
    digest. And whatever calls fail, torn writes included, [put_bytes] keeps every
    stored object readable under its digest, loses none, and reports success only
    with the object in place. *)
Theorem cas_integrity :
  (∀ cas d m bytes m', get_bytes cas d m = (Ok bytes, m') → Digest_from_bytes bytes = d)
  ∧ ∀ cas bytes m, sound (files m) →
      sound (files (put_bytes cas bytes m).2)
      ∧ (∀ cas' d, is_digest d → is_Some (files m !! object_path cas' d) →
           is_Some (files (put_bytes cas bytes m).2 !! object_path cas' d))
      ∧ ∀ obj, (put_bytes cas bytes m).1 = Ok obj →
          object_digest obj = Digest_from_bytes bytes
          ∧ object_bytes obj = N.of_nat (String.length bytes)
          ∧ is_Some (files (put_bytes cas bytes m).2 !! object_path cas (object_digest obj)).
Proof.
  split; [apply get_bytes_hashes|]. intros cas bytes m Hs.
  destruct (put_bytes_spec cas bytes m Hs) as (H1&H2&H3).
  split_and!; [done|done|]. intros obj Hobj. by destruct (H3 obj Hobj) as [-> ?].
Qed.

(** When no call fails, [put_bytes] succeeds and the disk has the object. *)
Lemma put_bytes_present cas bytes m :
  no_faults m → sound (files m) →
  ∃ m' bytes', put_bytes cas bytes m = (Ok (cas_object (Digest_from_bytes bytes) bytes), m')
    ∧ no_faults m' ∧ files m' !! object_path cas (Digest_from_bytes bytes) = Some bytes'
    ∧ Digest_from_bytes bytes' = Digest_from_bytes bytes
    ∧ (files m !! object_path cas (Digest_from_bytes bytes) = None → bytes' = bytes).
Proof.
  intros Hnf Hs. unfold put_bytes, bindM, pureM, ret, ioM, path_exists. cbn. rewrite Hnf.
  case_bool_decide as Hex.
  - destruct Hex as [b Hb]. do 2 eexists. split_and!; [done|done|exact Hb| |congruence].
    eapply Hs; [|exact Hb]. apply from_bytes_digest.
  - apply eq_None_not_Some in Hex.
    unfold create_dir_all, file_create, write_all, sync_all, rename; cbn.
    rewrite !Hnf; cbn. rewrite !Hnf; cbn. rewrite !Hnf; cbn. rewrite !Hnf; cbn.
    rewrite !Hnf; cbn. rewrite lookup_insert_eq. cbn.
    do 2 eexists. split_and!; [done|done|cbn; by rewrite lookup_insert_eq|done|done].
Qed.

(** What is put can be got back. When no call fails, [put_bytes] succeeds on a
    sound store and [get_bytes] then returns the same bytes, unless the store
    already held other bytes with the same BLAKE3 digest. *)
Theorem cas_round_trip cas bytes m :
  no_faults m → sound (files m) →
  ∃ obj m1 bytes' m2, put_bytes cas bytes m = (Ok obj, m1)
    ∧ get_bytes cas (object_digest obj) m1 = (Ok bytes', m2)
    ∧ (bytes' = bytes
       ∨ files m !! object_path cas (object_digest obj) = Some bytes'
         ∧ bytes' ≠ bytes ∧ blake3_hex bytes' = blake3_hex bytes).
Proof.
  intros Hnf Hs. destruct (put_bytes_present cas bytes m Hnf Hs)
    as (m1&bytes'&Hput&Hnf1&Hb&Hd&Hnew).
  destruct (get_bytes_present cas _ m1 bytes' Hnf1 Hb Hd) as (m2&Hget&_&_).
  exists (cas_object (Digest_from_bytes bytes) bytes), m1, bytes', m2.
  split_and!; [done|done|]. cbn [object_digest cas_object].
  destruct (decide (bytes' = bytes)) as [|Hne]; [by left|right].
  destruct (files m !! object_path cas (Digest_from_bytes bytes)) as [b|] eqn:Hm;
    [|by destruct Hne; apply Hnew].
  split_and!; [|done|done].
  assert (files m1 !! object_path cas (Digest_from_bytes bytes) = Some b) as Hb1.
  { revert Hput. unfold put_bytes, bindM, pureM, path_exists. cbn. rewrite Hnf.
    rewrite bool_decide_true by eauto. by intros [= <-]. }
  congruence.
Qed.
End store_theorems.

(** * Lemmas: keys *)

(** The same material with other features and flags. *)
Definition with_lists (m : CacheKeyMaterial) (features flags : list string) :
    CacheKeyMaterial :=
  {| cache_schema_version := cache_schema_version m; tenant_id := tenant_id m;
     repo_id_or_explicit_shared_scope := repo_id_or_explicit_shared_scope m;
     trust_tier := trust_tier m; rustc_version := rustc_version m;
     cargo_version := cargo_version m; toolchain_channel := toolchain_channel m;
     host_triple := host_triple m; target_triple := target_triple m;
     profile := profile m; feature_set := features; rustflags := flags;
     linker_identity := linker_identity m; sysroot_digest := sysroot_digest m;
     cargo_lock_subgraph_digest := cargo_lock_subgraph_digest m;
     cargo_toml_digest := cargo_toml_digest m;
     workspace_metadata_digest := workspace_metadata_digest m;
     crate_source_digest := crate_source_digest m; build_rs_digest := build_rs_digest m;
     build_rs_declared_inputs_digest := build_rs_declared_inputs_digest m;
     proc_macro_digest := proc_macro_digest m; native_deps_digest := native_deps_digest m;
     env_allowlist_digest := env_allowlist_digest m;
     runner_rootfs_digest := runner_rootfs_digest m;
     sandbox_policy_digest := sandbox_policy_digest m |}.

Section keys.
Context `{External}.

Lemma material_validate_lists m fs rs : material_validate (with_lists m fs rs) = material_validate m.
Proof. done. Qed.

(** The cache key depends on which features and flags a build uses, not on how
    they are listed: reordering or repeating them gives the same digest, or the
    same error. *)
Theorem derive_key_order_independent m fs1 fs2 rs1 rs2 :
  (∀ x, x ∈ fs1 ↔ x ∈ fs2) → (∀ x, x ∈ rs1 ↔ x ∈ rs2) →
  match derive_key (with_lists m fs1 rs1), derive_key (with_lists m fs2 rs2) with
  | Ok k1, Ok k2 => key_digest k1 = key_digest k2
  | Err e1, Err e2 => e1 = e2
  | _, _ => False
  end.
Proof.
  intros Hf Hr. unfold derive_key, canonical_json. rewrite !material_validate_lists.
  destruct (material_validate m) as [[]|e]; [|done].
  assert (normalize_material (with_lists m fs1 rs1) = normalize_material (with_lists m fs2 rs2))
    as ->.
  { unfold normalize_material; cbn -[sort_dedup]. by rewrite (sort_dedup_set _ _ Hf), (sort_dedup_set _ _ Hr). }
  by destruct (material_json _).
Qed.

(** What [key_verify] establishes. *)
Lemma key_verify_ok k :
  key_verify k = Ok tt ↔
  ∃ text, canonical_json (material k) = Ok text ∧ key_digest k = Digest_from_bytes text.
Proof.
  unfold key_verify, derive_key. destruct (canonical_json (material k)) as [text|e]; cbn.
  - case_bool_decide; naive_solver.
  - naive_solver.
Qed.

Lemma derive_key_verifies m k : derive_key m = Ok k → key_verify k = Ok tt.
Proof.
  unfold derive_key. destruct (canonical_json m) as [text|] eqn:Ht; [|done].
  intros [= <-]. apply key_verify_ok. by exists text.
Qed.
End keys.

(** * Lemmas: the manifest *)

Definition same_slot (x y : CacheEntry) : Prop :=
  key_digest (entry_key x) = key_digest (entry_key y) ∧ entry_layer x = entry_layer y.

(** No two entries for one key and layer. *)
Definition unique_slots (m : CacheManifest) : Prop :=
  ∀ i j x y, manifest_entries m !! i = Some x → manifest_entries m !! j = Some y →
    same_slot x y → i = j.

Lemma elem_of_manifest_add m e x :
  x ∈ manifest_entries (manifest_add m e) ↔
  x = e ∨ (x ∈ manifest_entries m ∧ ¬ same_slot x e).
Proof.
  unfold manifest_add, same_slot. cbn.
  rewrite elem_of_app, list_elem_of_filter, list_elem_of_singleton.
  rewrite orb_true_iff, !negb_true_iff, !bool_decide_eq_false.
  destruct (decide (key_digest (entry_key x) = key_digest (entry_key e)));
    destruct (decide (entry_layer x = entry_layer e)); naive_solver.
Qed.

(** A filtered list keeps the order, so distinct positions stay distinct. *)
Lemma filter_unique (P : CacheEntry → Prop) `{∀ x, Decision (P x)} (l : list CacheEntry) :
  (∀ i j x y, l !! i = Some x → l !! j = Some y → same_slot x y → i = j) →
  ∀ i j x y, filter P l !! i = Some x → filter P l !! j = Some y → same_slot x y → i = j.
Proof.
  induction l as [|z l IH]; intros Hl i j x y; [by destruct i|].
  assert (∀ i j x y, l !! i = Some x → l !! j = Some y → same_slot x y → i = j) as Hl'
    by (intros a b u v Ha Hb Hs; pose proof (Hl (S a) (S b) u v Ha Hb Hs); lia).
  assert (∀ k w, l !! k = Some w → ¬ same_slot z w ∧ ¬ same_slot w z) as Hz.
  { intros k w Hk. split; intros Hs.
    - by specialize (Hl 0 (S k) z w eq_refl Hk Hs).
    - by specialize (Hl (S k) 0 w z Hk eq_refl Hs). }
  rewrite filter_cons. case_decide; [|by eapply IH].
  destruct i as [|i], j as [|j]; cbn; intros Hi Hj Hs; [done| | |f_equal; by eapply IH].
  - injection Hi as ->. apply list_elem_of_lookup_2, list_elem_of_filter in Hj as [_ Hj].
    apply list_elem_of_lookup in Hj as [k Hk]. by destruct (Hz k y Hk).
  - injection Hj as ->. apply list_elem_of_lookup_2, list_elem_of_filter in Hi as [_ Hi].
    apply list_elem_of_lookup in Hi as [k Hk]. by destruct (Hz k x Hk).
Qed.

Lemma manifest_add_unique m e : unique_slots m → unique_slots (manifest_add m e).
Proof.
  intros Hu i j x y Hi Hj Hs.
  assert (∀ k z, manifest_entries (manifest_add m e) !! k = Some z →
    (z = e ∧ k = length (manifest_entries (manifest_add m e)) - 1)
    ∨ (filter (λ x, negb (bool_decide (key_digest (entry_key x) = key_digest (entry_key e)))
                    || negb (bool_decide (entry_layer x = entry_layer e)) = true)
         (manifest_entries m) !! k = Some z ∧ ¬ same_slot z e)) as Hk.
  { intros k z Hk. unfold manifest_add in Hk |- *. cbn in *.
    apply lookup_app_Some in Hk as [Hk|[Hle Hk]].
    - right. split; [done|]. apply list_elem_of_lookup_2, list_elem_of_filter in Hk as [Hz _].
      rewrite orb_true_iff, !negb_true_iff, !bool_decide_eq_false in Hz.
      intros [? ?]. naive_solver.
    - left. apply list_lookup_singleton_Some in Hk as [Hk <-]. split; [done|].
      rewrite length_app. cbn. lia. }
  destruct (Hk i x Hi) as [[-> ->]|[Hi' Hx]], (Hk j y Hj) as [[-> ->]|[Hj' Hy]].
  - done.
  - exfalso. apply Hy. destruct Hs; by split.
  - exfalso. by apply Hx.
  - by eapply filter_unique.
Qed.

Lemma manifest_find_added m e :
  manifest_find (manifest_add m e) (key_digest (entry_key e)) (entry_layer e) = Some e.
Proof.
  unfold manifest_find. apply find_first_Some. unfold manifest_add. cbn.
  eexists _, []. split_and!; [done|by rewrite !bool_decide_true|].
  apply Forall_forall. intros x [Hx _]%list_elem_of_filter.
  rewrite orb_true_iff, !negb_true_iff, !bool_decide_eq_false in Hx.
  rewrite andb_false_iff, !bool_decide_eq_false. tauto.
Qed.

Lemma manifest_find_Some m d l e :
  manifest_find m d l = Some e →
  e ∈ manifest_entries m ∧ key_digest (entry_key e) = d ∧ entry_layer e = l.
Proof.
  unfold manifest_find. intros (l1&l2&Hl&Hb&_)%find_first_Some.
  rewrite andb_true_iff, !bool_decide_eq_true in Hb. split; [|done].
  rewrite Hl. set_solver.
Qed.
