(* ===== verification/CacheService.v ===== *)
(** CacheService: the cache as its clients see it: restore, write, quarantine and
    promotion (src/components/jeryu-cache/crates/jeryu-cache-service/src/service).

    An operation that takes [&mut self] returns the new cache with its outcome; on
    an error the cache is as it was, because the manifest is only changed right
    before success. *)

From S2P Require Import Prelude Text FileSystem CachePolicy CacheCore.
Local Open Scope machine_scope.

(** * Data (outcomes.rs, cache/mod.rs) *)

Record JeryuCachePaths := {
  cas_root : string;
  receipt_root : string;
  quarantine_dir : string
}.

Record RestoreOutcome := {
  hit : bool;
  restored_digest : option Digest;
  restore_receipt : CacheReceipt
}.

Record WriteOutcome := {
  written_digest : Digest;
  write_receipt : CacheReceipt
}.

Record JeryuCache := {
  cas : ContentAddressedStore;
  receipts : ReceiptSink;
  quarantine : QuarantineStore;
  manifest : CacheManifest
}.

Definition with_manifest (c : JeryuCache) (m : CacheManifest) : JeryuCache :=
  {| cas := cas c; receipts := receipts c; quarantine := quarantine c; manifest := m |}.

Section service.
Context `{External}.

Definition cache_open (paths : JeryuCachePaths) : M JeryuCacheError JeryuCache :=
  cas <<- cas_open (cas_root paths);;
  sink <<- sink_open (receipt_root paths);;
  q <<- quarantine_open (quarantine_dir paths);;
  ret {| cas := cas; receipts := sink; quarantine := q;
         manifest := {| manifest_entries := [] |} |}.

Definition key_tier_denial (r : CacheRequest) (k : CacheKey) : option AccessDecision :=
  if bool_decide (trust_tier (material k) = actor_tier r) then None
  else Some (Deny ["CV-LAW-001: cache key trust tier "
                   +:+ TrustTier_as_str (trust_tier (material k))
                   +:+ " does not match request actor tier "
                   +:+ TrustTier_as_str (actor_tier r)]).

Definition emit_receipt (c : JeryuCache) (ev : CacheEvent) (key object : option Digest)
    (r : CacheRequest) (d : AccessDecision) : M JeryuCacheError CacheReceipt :=
  receipt <<- CacheReceipt_new ev key object (action r) (layer r) (actor_tier r) d None;;
  _ <<- sink_write (receipts c) receipt;;
  ret receipt.

Definition miss (r : CacheReceipt) : RestoreOutcome :=
  {| hit := false; restored_digest := None; restore_receipt := r |}.

(** [format!("{} ({})", receipt_id, reasons.join("; "))]. *)
Definition denied (r : CacheReceipt) (d : AccessDecision) : JeryuCacheError :=
  CachePolicyDenied (receipt_id r +:+ " (" +:+ join "; " (reasons d) +:+ ")").

(** * Restore (cache/restore.rs) *)

Definition restore (c : JeryuCache) (r : CacheRequest) (key : CacheKey) :
    M JeryuCacheError RestoreOutcome :=
  _ <<- liftM (key_verify key);;
  match key_tier_denial r key with
  | Some denial =>
      receipt <<- emit_receipt c CE_Deny (Some (key_digest key)) None r denial;;
      ret (miss receipt)
  | None =>
      let d := evaluate r in
      if negb (allowed d)
      then
        receipt <<- emit_receipt c CE_Deny (Some (key_digest key)) None r d;;
        ret (miss receipt)
      else
        match manifest_find (manifest c) (key_digest key) (layer r) with
        | Some entry =>
            _ <<- verify_cache_hit (cas c) key (entry_object_digest entry);;
            receipt <<- emit_receipt c CE_Restore (Some (key_digest key))
                          (Some (entry_object_digest entry)) r d;;
            ret {| hit := true; restored_digest := Some (entry_object_digest entry);
                   restore_receipt := receipt |}
        | None =>
            receipt <<- emit_receipt c CE_SafeMiss (Some (key_digest key)) None r d;;
            ret (miss receipt)
        end
  end.

(** * Write (cache/write.rs) *)

Definition index_entry (c : JeryuCache) (key : CacheKey) (object : CasObject)
    (r : CacheRequest) (receipt : CacheReceipt) : JeryuCache :=
  with_manifest c (manifest_add (manifest c)
    {| entry_key := key; entry_object_digest := object_digest object;
       entry_layer := layer r; size_bytes := object_bytes object;
       writer_receipt := receipt |}).

Definition write (c : JeryuCache) (r : CacheRequest) (key : CacheKey) (bytes : string) :
    M JeryuCacheError (WriteOutcome * JeryuCache) :=
  _ <<- liftM (key_verify key);;
  match key_tier_denial r key with
  | Some denial =>
      receipt <<- emit_receipt c CE_Deny (Some (key_digest key)) None r denial;;
      throw (denied receipt denial)
  | None =>
      let d := evaluate r in
      if negb (allowed d)
      then
        receipt <<- emit_receipt c CE_Deny (Some (key_digest key)) None r d;;
        throw (denied receipt d)
      else
        object <<- put_bytes (cas c) bytes;;
        receipt <<- emit_receipt c CE_Write (Some (key_digest key))
                      (Some (object_digest object)) r d;;
        ret ({| written_digest := object_digest object; write_receipt := receipt |},
             index_entry c key object r receipt)
  end.

(** * Quarantine (cache/quarantine.rs) *)

Definition quarantine_write (c : JeryuCache) (r : CacheRequest) (bytes reason : string) :
    M JeryuCacheError QuarantineRecord :=
  let d := evaluate r in
  let ev := if allowed d then CE_QuarantineWrite else CE_Deny in
  receipt <<- emit_receipt c ev None None r d;;
  if negb (allowed d) then throw (CachePolicyDenied (join "; " (reasons d)))
  else quarantine_store_write (quarantine c) bytes reason receipt.

Definition promote_quarantined (c : JeryuCache) (r : CacheRequest) (key : CacheKey)
    (record_digest : Digest) : M JeryuCacheError (WriteOutcome * JeryuCache) :=
  _ <<- liftM (key_verify key);;
  match key_tier_denial r key with
  | Some denial =>
      receipt <<- emit_receipt c CE_Deny (Some (key_digest key)) (Some record_digest) r denial;;
      throw (denied receipt denial)
  | None =>
      let d := evaluate r in
      receipt <<- emit_receipt c CE_Promote (Some (key_digest key)) (Some record_digest) r d;;
      if negb (allowed d) then throw (CachePolicyDenied (join "; " (reasons d)))
      else
        object <<- promote_to (quarantine c) record_digest (cas c) receipt;;
        ret ({| written_digest := object_digest object; write_receipt := receipt |},
             index_entry c key object r receipt)
  end.
End service.

(** * Specification *)

Section spec.
Context `{ExternalSpec}.

(** The operations as steps of the cache and its disk. Any call may fail as the
    machine's oracle says, and the disk may be tampered with at any time. *)
Inductive service_step : JeryuCache * Machine → JeryuCache * Machine → Prop :=
  | step_restore c r key m : service_step (c, m) (c, (restore c r key m).2)
  | step_write c r key bytes m o c' m' :
      write c r key bytes m = (Ok (o, c'), m') → service_step (c, m) (c', m')
  | step_write_error c r key bytes m e m' :
      write c r key bytes m = (Err e, m') → service_step (c, m) (c, m')
  | step_quarantine c r bytes reason m :
      service_step (c, m) (c, (quarantine_write c r bytes reason m).2)
  | step_promote c r key d m o c' m' :
      promote_quarantined c r key d m = (Ok (o, c'), m') → service_step (c, m) (c', m')
  | step_promote_error c r key d m e m' :
      promote_quarantined c r key d m = (Err e, m') → service_step (c, m) (c, m')
  | step_tamper c m fs : service_step (c, m) (c, with_files m fs).

(** An indexed entry was written under a verified key by an actor of the key's tier,
    with a request the laws allow; its receipt says so. *)
Record entry_ok (e : CacheEntry) : Prop := {
  eo_key : key_verify (entry_key e) = Ok tt;
  eo_tier : receipt_actor_tier (writer_receipt e) = trust_tier (material (entry_key e));
  eo_layer : receipt_layer (writer_receipt e) = entry_layer e;
  eo_key_digest : receipt_key_digest (writer_receipt e) = Some (key_digest (entry_key e));
  eo_object : receipt_object_digest (writer_receipt e) = Some (entry_object_digest e);
  eo_lawful : ∃ r, lawful r ∧ decision (writer_receipt e) = evaluate r
    ∧ action r = receipt_action (writer_receipt e)
    ∧ layer r = receipt_layer (writer_receipt e)
    ∧ actor_tier r = receipt_actor_tier (writer_receipt e)
}.

Record wf_cache (c : JeryuCache) : Prop := {
  wc_entries : Forall entry_ok (manifest_entries (manifest c));
  wc_unique : unique_slots (manifest c)
}.

(** Two keys of different tiers whose canonical texts have the same digest. *)
Definition keys_collide (k1 k2 : CacheKey) : Prop :=
  trust_tier (material k1) ≠ trust_tier (material k2)
  ∧ ∃ t1 t2, canonical_json (material k1) = Ok t1 ∧ canonical_json (material k2) = Ok t2
      ∧ Digest_from_bytes t1 = Digest_from_bytes t2.

(** A call that put the entry into the manifest. *)
Definition indexed_by (s s' : JeryuCache * Machine) (e : CacheEntry) (r : CacheRequest) : Prop :=
  (∃ bytes o, write s.1 r (entry_key e) bytes s.2 = (Ok (o, s'.1), s'.2)
     ∧ entry_object_digest e = Digest_from_bytes bytes ∧ writer_receipt e = write_receipt o)
  ∨ ∃ o, promote_quarantined s.1 r (entry_key e) (entry_object_digest e) s.2
           = (Ok (o, s'.1), s'.2) ∧ writer_receipt e = write_receipt o.

(** The entry came, between [s0] and [s], from a lawful call by an actor of its key's tier. *)
Definition came_from (s0 s : JeryuCache * Machine) (e : CacheEntry) : Prop :=
  ∃ r s1 s2, rtc service_step s0 s1 ∧ indexed_by s1 s2 e r ∧ rtc service_step s2 s
    ∧ lawful r ∧ layer r = entry_layer e ∧ key_verify (entry_key e) = Ok tt
    ∧ actor_tier r = trust_tier (material (entry_key e))
    ∧ receipt_actor_tier (writer_receipt e) = actor_tier r.

(** * Lemmas *)

Lemma key_tier_denial_None r k :
  key_tier_denial r k = None ↔ trust_tier (material k) = actor_tier r.
Proof. unfold key_tier_denial. case_bool_decide; naive_solver. Qed.

Lemma key_tier_denial_deny r k d : key_tier_denial r k = Some d → allowed d = false.
Proof. unfold key_tier_denial. case_bool_decide; naive_solver. Qed.

(** The receipt that is emitted, and that nothing but its file is written. *)
Lemma emit_receipt_ok c ev key object r d m rc m' :
  emit_receipt c ev key object r d m = (Ok rc, m') →
  event rc = ev ∧ receipt_key_digest rc = key ∧ receipt_object_digest rc = object
  ∧ receipt_action rc = action r ∧ receipt_layer rc = layer r
  ∧ receipt_actor_tier rc = actor_tier r ∧ decision rc = d.
Proof.
  unfold emit_receipt. rewrite bindM_ok. intros (rc0&m1&Hn&Hk).
  apply bindM_ok in Hk as (p&m2&_&Hk). injection Hk as -> ->.
  unfold CacheReceipt_new in Hn. apply bindM_ok in Hn as (now&m3&_&Hn).
  apply bindM_ok in Hn as (text&m4&_&Hn). by injection Hn as <- _.
Qed.

Lemma emit_receipt_keeps (P : gmap string string → Prop) c ev key object r d :
  (∀ id, stable_under (receipt_path (receipts c) id) P) →
  keeps P (emit_receipt c ev key object r d).
Proof.
  intros HP. unfold emit_receipt, CacheReceipt_new, sink_write.
  apply keeps_bind; [|intros rc; apply keeps_bind; [|intros; apply keeps_ret]].
  - apply keeps_bind; [apply keeps_pure, files_read_now|]. intros now.
    apply keeps_bind; [apply keeps_lift|]. intros text. apply keeps_ret.
  - apply keeps_bind; [apply keeps_lift|]. intros text.
    apply keeps_bind; [|intros; apply keeps_ret]. apply keeps_io, keeps_fs_write, HP.
Qed.

(** What the objects of all stores are. *)
Definition same_objects (fs fs' : gmap string string) : Prop :=
  ∀ cas d, is_digest d → fs' !! object_path cas d = fs !! object_path cas d.

Lemma emit_receipt_objects c ev key object r d m :
  same_objects (files m) (files (emit_receipt c ev key object r d m).2).
Proof.
  apply (emit_receipt_keeps (same_objects (files m))); [|done].
  intros id fs x Hs cas d' Hd. rewrite lookup_insert_ne; [by apply Hs|].
  intros Heq. by apply (object_not_receipt cas d' (receipts c) id).
Qed.

Lemma sound_same fs fs' : same_objects fs fs' → sound fs → sound fs'.
Proof. intros Hs Hf cas d bytes Hd. rewrite Hs by done. by apply Hf. Qed.

Lemma emit_receipt_sound c ev key object r d : keeps sound (emit_receipt c ev key object r d).
Proof. intros m Hm. eapply sound_same; [apply emit_receipt_objects|done]. Qed.

Lemma put_bytes_keeps_sound cas bytes : keeps sound (put_bytes cas bytes).
Proof. intros m Hm. by apply put_bytes_spec. Qed.

Lemma promote_to_ok q d target rc m obj m' :
  promote_to q d target rc m = (Ok obj, m') → object_digest obj = d.
Proof.
  unfold promote_to. case_match; [done|]. rewrite bindM_ok. intros (bytes&m1&Hg&Hp).
  apply get_bytes_hashes in Hg as <-.
  revert Hp. unfold put_bytes. rewrite bindM_ok. intros (there&m2&_&Hk).
  destruct there; [by injection Hk as <- _|].
  do 5 (apply bindM_ok in Hk as (?&?&_&Hk)). by injection Hk as <- _.
Qed.

Lemma put_bytes_digest cas bytes m obj m' :
  put_bytes cas bytes m = (Ok obj, m') → obj = cas_object (Digest_from_bytes bytes) bytes.
Proof.
  unfold put_bytes. rewrite bindM_ok. intros (there&m2&_&Hk).
  destruct there; [by injection Hk as <- _|].
  do 5 (apply bindM_ok in Hk as (?&?&_&Hk)). by injection Hk as <- _.
Qed.

(** A successful write, taken apart. *)
Lemma write_ok c r key bytes m o c' m' :
  write c r key bytes m = (Ok (o, c'), m') →
  key_verify key = Ok tt ∧ trust_tier (material key) = actor_tier r ∧ lawful r
  ∧ ∃ m1 rc, put_bytes (cas c) bytes m = (Ok (cas_object (Digest_from_bytes bytes) bytes), m1)
    ∧ emit_receipt c CE_Write (Some (key_digest key)) (Some (Digest_from_bytes bytes)) r
        (evaluate r) m1 = (Ok rc, m')
    ∧ o = {| written_digest := Digest_from_bytes bytes; write_receipt := rc |}
    ∧ c' = index_entry c key (cas_object (Digest_from_bytes bytes) bytes) r rc.
Proof.
  unfold write. rewrite bindM_ok. intros ([]&m0&Hv&Hk). injection Hv as Hv <-.
  destruct (key_tier_denial r key) as [denial|] eqn:Ht.
  { by apply bindM_ok in Hk as (?&?&_&?). }
  apply key_tier_denial_None in Ht.
  destruct (allowed (evaluate r)) eqn:Ha; cbn [negb] in Hk;
    [|by apply bindM_ok in Hk as (?&?&_&?)].
  apply bindM_ok in Hk as (obj&m1&Hp&Hk). pose proof (put_bytes_digest _ _ _ _ _ Hp) as ->.
  apply bindM_ok in Hk as (rc&m2&He&Hk). injection Hk as <- <- <-.
  split_and!; [done|done|by apply evaluate_lawful|]. by exists m1, rc.
Qed.

Lemma promote_ok c r key d m o c' m' :
  promote_quarantined c r key d m = (Ok (o, c'), m') →
  key_verify key = Ok tt ∧ trust_tier (material key) = actor_tier r ∧ lawful r
  ∧ ∃ m1 rc obj, emit_receipt c CE_Promote (Some (key_digest key)) (Some d) r (evaluate r) m
                   = (Ok rc, m1)
    ∧ promote_to (quarantine c) d (cas c) rc m1 = (Ok obj, m') ∧ object_digest obj = d
    ∧ o = {| written_digest := d; write_receipt := rc |}
    ∧ c' = index_entry c key obj r rc.
Proof.
  unfold promote_quarantined. rewrite bindM_ok. intros ([]&m0&Hv&Hk). injection Hv as Hv <-.
  destruct (key_tier_denial r key) as [denial|] eqn:Ht.
  { by apply bindM_ok in Hk as (?&?&_&?). }
  apply key_tier_denial_None in Ht. apply bindM_ok in Hk as (rc&m1&He&Hk).
  destruct (allowed (evaluate r)) eqn:Ha; cbn [negb] in Hk; [|done].
  apply bindM_ok in Hk as (obj&m2&Hp&Hk). pose proof (promote_to_ok _ _ _ _ _ _ _ Hp) as Hd.
  injection Hk as <- <- <-. rewrite Hd.
  split_and!; [done|done|by apply evaluate_lawful|]. by exists m1, rc, obj.
Qed.

Lemma index_entry_wf c key obj r rc :
  wf_cache c → key_verify key = Ok tt → trust_tier (material key) = actor_tier r → lawful r →
  receipt_key_digest rc = Some (key_digest key) →
  receipt_object_digest rc = Some (object_digest obj) →
  receipt_action rc = action r → receipt_layer rc = layer r →
  receipt_actor_tier rc = actor_tier r → decision rc = evaluate r →
  wf_cache (index_entry c key obj r rc).
Proof.
  intros [He Hu] Hk Ht Hl H1 H2 H3 H4 H5 H6. split; cbn [manifest index_entry with_manifest].
  - apply Forall_forall. intros x [->|[Hx _]]%elem_of_manifest_add.
    + split; cbn; [done|congruence|done..|]. exists r. by rewrite H3, H4, H5.
    + rewrite Forall_forall in He. by apply He.
  - by apply manifest_add_unique.
Qed.

(** An entry that is there after a call was there before, or the call put it there. *)
Lemma step_entries s s' e :
  service_step s s' → e ∈ manifest_entries (manifest s'.1) →
  e ∈ manifest_entries (manifest s.1)
  ∨ ∃ r, indexed_by s s' e r ∧ lawful r ∧ layer r = entry_layer e
      ∧ key_verify (entry_key e) = Ok tt ∧ actor_tier r = trust_tier (material (entry_key e))
      ∧ receipt_actor_tier (writer_receipt e) = actor_tier r.
Proof.
  intros Hs Hin. destruct Hs as [|c r key bytes m o c' m' Hw| | |c r key d m o c' m' Hp| |];
    cbn [fst snd] in *; try by left.
  - destruct (write_ok _ _ _ _ _ _ _ _ Hw) as (Hk&Ht&Hl&m1&rc&_&He&Ho&Hc'). subst c'.
    apply elem_of_manifest_add in Hin as [->|[Hin _]]; [right|by left].
    apply emit_receipt_ok in He as (_&_&_&_&_&Htier&_). exists r. cbn. split_and!; try done.
    left. exists bytes, o. by subst o.
  - destruct (promote_ok _ _ _ _ _ _ _ _ Hp) as (Hk&Ht&Hl&m1&rc&obj&He&_&Hd&Ho&Hc'). subst c'.
    apply elem_of_manifest_add in Hin as [->|[Hin _]]; [right|by left].
    apply emit_receipt_ok in He as (_&_&_&_&_&Htier&_). exists r. cbn. split_and!; try done.
    right. exists o. rewrite Hd. by subst o.
Qed.

Lemma entries_came s0 s e :
  manifest_entries (manifest s0.1) = [] → rtc service_step s0 s →
  e ∈ manifest_entries (manifest s.1) → came_from s0 s e.
Proof.
  intros Hempty Hs. revert s Hs e.
  refine (rtc_ind_r (λ s, ∀ e, e ∈ manifest_entries (manifest s.1) → came_from s0 s e) s0 _ _).
  { intros e Hin. rewrite Hempty in Hin. by apply elem_of_nil in Hin. }
  intros s1 s2 Hs Hstep IH e Hin. destruct (step_entries _ _ _ Hstep Hin) as [Hin'|(r & Hi & Hw)].
  - destruct (IH e Hin') as (r & t1 & t2 & Ht1 & Hi & Ht2 & Hw). exists r, t1, t2.
    split_and!; try done; [by eapply rtc_r|apply Hw..].
  - by exists r, s1, s2.
Qed.

Lemma service_step_wf s s' : service_step s s' → wf_cache s.1 → wf_cache s'.1.
Proof.
  intros Hs Hwf. destruct Hs; cbn in *; try done.
  - destruct (write_ok _ _ _ _ _ _ _ _ H1) as (Hk&Ht&Hl&m1&rc&_&He&_&->).
    apply emit_receipt_ok in He as (_&?&?&?&?&?&?). by apply index_entry_wf.
  - destruct (promote_ok _ _ _ _ _ _ _ _ H1) as (Hk&Ht&Hl&m1&rc&obj&He&_&Hd&_&->).
    apply emit_receipt_ok in He as (_&?&?&?&?&?&?). apply index_entry_wf; congruence.
Qed.
End spec.

Section theorems.
Context `{ExternalSpec}.

(** From an empty manifest, through any operations, failing calls and tampering
    with the disk, the manifest has at most one entry per key and layer, and every
    entry was written under a key that verifies, by an actor of the key's tier, with
    a request the laws allow, as its receipt says. *)
Theorem cache_invariant c m s :
  manifest_entries (manifest c) = [] → rtc service_step (c, m) s → wf_cache s.1.
Proof.
  intros Hc Hs. assert (∀ s0, rtc service_step s0 s → wf_cache s0.1 → wf_cache s.1) as Hall.
  { induction 1; eauto using service_step_wf. }
  apply (Hall _ Hs). split; cbn.
  - rewrite Hc. constructor.
  - intros i j x y Hi. by rewrite Hc in Hi.
Qed.

Lemma restore_hit_inv c r key m out m' :
  restore c r key m = (Ok out, m') → hit out = true →
  key_verify key = Ok tt ∧ trust_tier (material key) = actor_tier r ∧ lawful r
  ∧ ∃ e bytes m1 m2, manifest_find (manifest c) (key_digest key) (layer r) = Some e
    ∧ get_bytes (cas c) (entry_object_digest e) m1 = (Ok bytes, m2)
    ∧ files m1 = files m
    ∧ restored_digest out = Some (entry_object_digest e).
Proof.
  unfold restore. rewrite bindM_ok. intros ([]&m0&Hv&Hk) Hhit. injection Hv as Hv <-.
  destruct (key_tier_denial r key) as [denial|] eqn:Ht.
  { apply bindM_ok in Hk as (rc&m1&_&Hk). by injection Hk as <- _. }
  apply key_tier_denial_None in Ht.
  destruct (allowed (evaluate r)) eqn:Ha; cbn [negb] in Hk;
    [|apply bindM_ok in Hk as (rc&m1&_&Hk); by injection Hk as <- _].
  destruct (manifest_find _ _ _) as [e|] eqn:Hf;
    [|apply bindM_ok in Hk as (rc&m1&_&Hk); by injection Hk as <- _].
  apply bindM_ok in Hk as (rep&m1&Hver&Hk). apply bindM_ok in Hk as (rc&m2&_&Hk).
  injection Hk as <- _. split_and!; [done|done|by apply evaluate_lawful|].
  unfold verify_cache_hit in Hver. apply bindM_ok in Hver as ([]&m3&Hv3&Hver).
  injection Hv3 as _ <-. apply bindM_ok in Hver as (bytes&m4&Hg&_).
  by exists e, bytes, m, m4.
Qed.

(** C30: a hit is trustworthy. From an empty manifest and through any operations,
    failing calls and tampering with the disk, the request of a hit was lawful and
    under a verified key of the actor's own tier; the digest handed out is that of the
    entry for this key and layer, and bytes with this digest were on the disk at that
    time; the entry was put there by a write or a promotion in this history, lawful,
    into this layer, by an actor of the tier of the entry's key, as its receipt says.
    That tier is the reader's, unless the entry's key and the requested one are keys of
    different tiers whose canonical texts have the same digest. *)
Theorem restore_hit_sound c0 m0 c m r key out m' :
  manifest_entries (manifest c0) = [] → rtc service_step (c0, m0) (c, m) →
  restore c r key m = (Ok out, m') → hit out = true →
  lawful r ∧ key_verify key = Ok tt ∧ trust_tier (material key) = actor_tier r
  ∧ ∃ e bytes, e ∈ manifest_entries (manifest c)
    ∧ key_digest (entry_key e) = key_digest key ∧ entry_layer e = layer r
    ∧ restored_digest out = Some (entry_object_digest e)
    ∧ Digest_from_bytes bytes = entry_object_digest e
    ∧ files m !! object_path (cas c) (entry_object_digest e) = Some bytes
    ∧ came_from (c0, m0) (c, m) e
    ∧ (receipt_actor_tier (writer_receipt e) = actor_tier r ∨ keys_collide (entry_key e) key).
Proof.
  intros Hempty Hs Hr Hhit.
  destruct (restore_hit_inv _ _ _ _ _ _ Hr Hhit) as (Hk&Ht&Hl&e&bytes&m1&m2&Hf&Hg&Hfm&Hd).
  split_and!; [done..|]. apply manifest_find_Some in Hf as (Hin&Hkd&Hlay).
  pose proof (entries_came (c0, m0) (c, m) e Hempty Hs Hin) as Hcame.
  exists e, bytes. split_and!; [done|done|done|done|by eapply get_bytes_hashes| |done|].
  - rewrite <-Hfm. by eapply get_bytes_on_disk.
  - destruct Hcame as (r1 & _ & _ & _ & _ & _ & _ & _ & Hke & Ht1 & Hte).
    destruct (decide (trust_tier (material (entry_key e)) = actor_tier r)) as [He|Hne].
    + left. congruence.
    + right. apply key_verify_ok in Hk as (t1&Hc1&Hd1).
      apply key_verify_ok in Hke as (t2&Hc2&Hd2).
      split; [congruence|]. exists t2, t1. split_and!; congruence.
Qed.

(** What a request needs besides the laws. *)
Definition permitted (r : CacheRequest) (key : CacheKey) : Prop :=
  lawful r ∧ trust_tier (material key) = actor_tier r.

Lemma refuse_objects {T} c ev k o r d (g : CacheReceipt → JeryuCacheError) m :
  let res := bindM (emit_receipt c ev k o r d) (λ rc, throw (A:=T) (g rc)) m in
  (∃ e, res.1 = Err e) ∧ same_objects (files m) (files res.2).
Proof.
  unfold bindM. pose proof (emit_receipt_objects c ev k o r d m) as Ho.
  destruct (emit_receipt c ev k o r d m) as [[rc|e] m1]; cbn in *; eauto.
Qed.

Lemma same_objects_refl fs : same_objects fs fs.
Proof. by intros ? ?. Qed.

Lemma write_refused c r key bytes m :
  ¬ permitted r key →
  (∃ e, (write c r key bytes m).1 = Err e)
  ∧ same_objects (files m) (files (write c r key bytes m).2).
Proof.
  intros Hn. unfold write. unfold bindM at 1 4. unfold liftM.
  destruct (key_verify key) as [[]|e]; [|split; [by exists e|apply same_objects_refl]].
  destruct (key_tier_denial r key) as [denial|] eqn:Ht; [apply refuse_objects|].
  apply key_tier_denial_None in Ht.
  destruct (allowed (evaluate r)) eqn:Ha; [|apply refuse_objects].
  exfalso. apply Hn. split; [by apply evaluate_lawful|done].
Qed.

Lemma promote_refused c r key d m :
  ¬ permitted r key →
  (∃ e, (promote_quarantined c r key d m).1 = Err e)
  ∧ same_objects (files m) (files (promote_quarantined c r key d m).2).
Proof.
  intros Hn. unfold promote_quarantined. unfold bindM at 1 4. unfold liftM.
  destruct (key_verify key) as [[]|e]; [|split; [by exists e|apply same_objects_refl]].
  destruct (key_tier_denial r key) as [denial|] eqn:Ht; [apply refuse_objects|].
  apply key_tier_denial_None in Ht.
  destruct (allowed (evaluate r)) eqn:Ha; [|apply refuse_objects].
  exfalso. apply Hn. split; [by apply evaluate_lawful|done].
Qed.

Lemma restore_refused c r key m out :
  ¬ permitted r key → (restore c r key m).1 = Ok out →
  hit out = false ∧ restored_digest out = None ∧ event (restore_receipt out) = CE_Deny.
Proof.
  intros Hn Hr. destruct (restore c r key m) as [x m'] eqn:Heq. cbn in Hr. subst x.
  unfold restore in Heq. apply bindM_ok in Heq as ([]&m0&_&Hk).
  destruct (key_tier_denial r key) as [denial|] eqn:Ht.
  { apply bindM_ok in Hk as (rc&m1&He&Hk). injection Hk as <- _.
    by apply emit_receipt_ok in He as (?&_). }
  apply key_tier_denial_None in Ht.
  destruct (allowed (evaluate r)) eqn:Ha; cbn [negb] in Hk.
  - exfalso. apply Hn. split; [by apply evaluate_lawful|done].
  - apply bindM_ok in Hk as (rc&m1&He&Hk). injection Hk as <- _.
    by apply emit_receipt_ok in He as (?&_).
Qed.

Lemma stable_receipt_objects c id fs0 :
  stable_under (receipt_path (receipts c) id) (same_objects fs0).
Proof.
  intros fs x Hs cas d' Hd. rewrite lookup_insert_ne; [by apply Hs|].
  intros Heq. by apply (object_not_receipt cas d' (receipts c) id).
Qed.

Lemma restore_objects c r key m : same_objects (files m) (files (restore c r key m).2).
Proof.
  assert (keeps (same_objects (files m)) (restore c r key)) as Hk;
    [|by apply (Hk m), same_objects_refl].
  assert (∀ ev k o d, keeps (same_objects (files m)) (emit_receipt c ev k o r d)) as He
    by (intros; apply emit_receipt_keeps; intros; apply stable_receipt_objects).
  unfold restore. apply keeps_bind; [apply keeps_lift|]. intros _.
  destruct (key_tier_denial r key); [apply keeps_bind; [apply He|intros; apply keeps_ret]|].
  case_match; [apply keeps_bind; [apply He|intros; apply keeps_ret]|].
  destruct (manifest_find _ _ _) as [e|];
    [|apply keeps_bind; [apply He|intros; apply keeps_ret]].
  apply keeps_bind; [|intros; apply keeps_bind; [apply He|intros; apply keeps_ret]].
  unfold verify_cache_hit. apply keeps_bind; [apply keeps_lift|]. intros _.
  apply keeps_bind; [apply get_bytes_keeps|]. intros bytes.
  case_match; [apply keeps_throw|apply keeps_ret].
Qed.

Lemma write_keeps_sound c r key bytes : keeps sound (write c r key bytes).
Proof.
  unfold write. apply keeps_bind; [apply keeps_lift|]. intros _.
  destruct (key_tier_denial r key);
    [apply keeps_bind; [apply emit_receipt_sound|intros; apply keeps_throw]|].
  case_match; [apply keeps_bind; [apply emit_receipt_sound|intros; apply keeps_throw]|].
  apply keeps_bind; [apply put_bytes_keeps_sound|]. intros obj.
  apply keeps_bind; [apply emit_receipt_sound|]. intros rc. apply keeps_ret.
Qed.

Lemma promote_keeps_sound c r key d : keeps sound (promote_quarantined c r key d).
Proof.
  unfold promote_quarantined. apply keeps_bind; [apply keeps_lift|]. intros _.
  destruct (key_tier_denial r key);
    [apply keeps_bind; [apply emit_receipt_sound|intros; apply keeps_throw]|].
  apply keeps_bind; [apply emit_receipt_sound|]. intros rc.
  case_match; [apply keeps_throw|]. apply keeps_bind; [|intros; apply keeps_ret].
  unfold promote_to. case_match; [apply keeps_throw|].
  apply keeps_bind; [apply get_bytes_keeps|]. intros bytes. apply put_bytes_keeps_sound.
Qed.

Lemma quarantine_keeps_sound c r bytes reason : keeps sound (quarantine_write c r bytes reason).
Proof.
  unfold quarantine_write. apply keeps_bind; [apply emit_receipt_sound|]. intros rc.
  case_match; [apply keeps_throw|]. unfold quarantine_store_write.
  apply keeps_bind; [apply put_bytes_keeps_sound|]. intros obj.
  apply keeps_bind; [apply keeps_lift|]. intros text.
  apply keeps_bind; [|intros; apply keeps_ret]. apply keeps_io, keeps_fs_write.
  intros fs x Hs cas d b Hd. rewrite lookup_insert_ne; [by apply Hs|].
  intros Heq. by apply (object_not_record cas d (quarantine c) (object_digest obj)).
Qed.

Lemma quarantine_refused c r bytes reason m :
  ¬ lawful r →
  (∃ e, (quarantine_write c r bytes reason m).1 = Err e)
  ∧ same_objects (files m) (files (quarantine_write c r bytes reason m).2).
Proof.
  intros Hn. unfold quarantine_write.
  destruct (allowed (evaluate r)) eqn:Ha; [by apply evaluate_lawful in Ha|]. apply refuse_objects.
Qed.

(** C31: the cache fails closed, however its calls fail. A request that the evaluator
    denies for the action the request names, or whose key belongs to another tier, is
    never written, promoted or quarantined and never yields a hit: it ends in an error or
    a denial receipt, and no stored object changes. In particular a request that says it
    writes or promotes is refused on a compiled layer to every tier but the protected one.
    A restore never changes a stored object, and no write, promotion or quarantine leaves,
    in any store, an object whose content does not match its digest. A request that
    names a quarantine write is restricted by the sharing laws alone, and no operation
    checks that the named action is its own. *)
Theorem cache_fails_closed c r key m :
  (¬ permitted r key →
     (∀ bytes, (∃ e, (write c r key bytes m).1 = Err e)
        ∧ same_objects (files m) (files (write c r key bytes m).2))
     ∧ (∀ d, (∃ e, (promote_quarantined c r key d m).1 = Err e)
        ∧ same_objects (files m) (files (promote_quarantined c r key d m).2))
     ∧ (∀ out, (restore c r key m).1 = Ok out →
          hit out = false ∧ restored_digest out = None
          ∧ event (restore_receipt out) = CE_Deny))
  ∧ (¬ lawful r → ∀ bytes reason,
       (∃ e, (quarantine_write c r bytes reason m).1 = Err e)
       ∧ same_objects (files m) (files (quarantine_write c r bytes reason m).2))
  ∧ (is_compiled (layer r) = true → actor_tier r ≠ T1ProtectedInternal →
       action r = CA_Write ∨ action r = CA_Promote →
       (∀ bytes, ∃ e, (write c r key bytes m).1 = Err e)
       ∧ ∀ d, ∃ e, (promote_quarantined c r key d m).1 = Err e)
  ∧ same_objects (files m) (files (restore c r key m).2)
  ∧ (sound (files m) →
       (∀ bytes, sound (files (write c r key bytes m).2))
       ∧ (∀ d, sound (files (promote_quarantined c r key d m).2))
       ∧ ∀ bytes reason, sound (files (quarantine_write c r bytes reason m).2)).
Proof.
  split_and!.
  - intros Hn. split_and!; intros;
      [by apply write_refused|by apply promote_refused|by eapply restore_refused].
  - intros Hn bytes reason. by apply quarantine_refused.
  - intros Hc Ht Ha.
    assert (Hn : ¬ permitted r key).
    { intros [[_ Hl] _]. destruct Ha as [Ha|Ha]; rewrite Ha in Hl;
        by destruct (lw_compiled r Hl Hc). }
    split; intros; [by apply write_refused|by apply promote_refused].
  - apply restore_objects.
  - intros Hs. split_and!; intros;
      [by apply write_keeps_sound|by apply promote_keeps_sound|by apply quarantine_keeps_sound].
Qed.
End theorems.

(** serde_json does not fail on these shapes, which have string keys only, while the
    timestamp fits 64 bits; [json!] would panic on a later one, half a billion years on. *)
Class SerdeTotal `{External} : Prop := {
  receipt_material_total ev k o a l t d ts p :
    is_Some (receipt_material_json ev k o a l t d ts p);
  receipt_total rc : is_Some (receipt_json rc)
}.

Section round_trip.
Context `{ExternalSpec} `{!SerdeTotal}.

Lemma emit_receipt_total c ev k o r d m :
  no_faults m →
  ∃ rc m', emit_receipt c ev k o r d m = (Ok rc, m') ∧ no_faults m'.
Proof.
  intros Hnf. unfold emit_receipt, CacheReceipt_new, sink_write, bindM, pureM, liftM, ioM, ret.
  cbn.
  destruct (receipt_material_total ev k o (action r) (layer r) (actor_tier r) d
    (match clock m (clock_reads m) with Some ms => ms | None => 0%N end) None) as [text ->].
  cbn. destruct (receipt_total {| receipt_id := Digest_from_bytes text; event := ev;
    receipt_key_digest := k; receipt_object_digest := o; receipt_action := action r;
    receipt_layer := layer r; receipt_actor_tier := actor_tier r; decision := d;
    timestamp_ms := match clock m (clock_reads m) with Some ms => ms | None => 0%N end;
    parent_receipt := None |}) as [body ->].
  cbn. unfold fs_write. cbn. rewrite Hnf. cbn. do 2 eexists. split; [reflexivity|done].
Qed.

(** C34: what is written is found. When no call fails on a sound disk, a permitted
    write succeeds, and any permitted read of the same key and layer is then a hit
    that names the written bytes' digest, under which the store has bytes. *)
Theorem write_then_restore c r r' key bytes m :
  no_faults m → sound (files m) → key_verify key = Ok tt →
  permitted r key → permitted r' key → layer r' = layer r →
  ∃ o c' m1 out m2 bytes' m3,
    write c r key bytes m = (Ok (o, c'), m1)
    ∧ written_digest o = Digest_from_bytes bytes
    ∧ restore c' r' key m1 = (Ok out, m2)
    ∧ hit out = true ∧ restored_digest out = Some (Digest_from_bytes bytes)
    ∧ get_bytes (cas c') (Digest_from_bytes bytes) m2 = (Ok bytes', m3)
    ∧ Digest_from_bytes bytes' = Digest_from_bytes bytes.
Proof.
  intros Hnf Hs Hk [Hl Ht] [Hl' Ht'] Hlay.
  destruct (put_bytes_present (cas c) bytes m Hnf Hs) as (m1&bytes'&Hput&Hnf1&Hb&Hd&_).
  destruct (emit_receipt_total c CE_Write (Some (key_digest key))
    (Some (Digest_from_bytes bytes)) r (evaluate r) m1 Hnf1) as (rc&m2&He&Hnf2).
  pose proof (emit_receipt_objects c CE_Write (Some (key_digest key))
    (Some (Digest_from_bytes bytes)) r (evaluate r) m1) as Ho2. rewrite He in Ho2.
  pose proof (from_bytes_digest bytes) as Hdig. cbn [snd] in Ho2.
  set (c' := index_entry c key (cas_object (Digest_from_bytes bytes) bytes) r rc).
  assert (files m2 !! object_path (cas c) (Digest_from_bytes bytes) = Some bytes') as Hb2
    by by rewrite Ho2.
  destruct (get_bytes_present (cas c) _ m2 bytes' Hnf2 Hb2 Hd) as (m3&Hget&Hnf3&Hf3).
  destruct (emit_receipt_total c' CE_Restore (Some (key_digest key))
    (Some (Digest_from_bytes bytes)) r' (evaluate r') m3 Hnf3) as (rc'&m4&He'&Hnf4).
  pose proof (emit_receipt_objects c' CE_Restore (Some (key_digest key))
    (Some (Digest_from_bytes bytes)) r' (evaluate r') m3) as Ho4.
  rewrite He' in Ho4. cbn [snd] in Ho4.
  destruct (get_bytes_present (cas c) (Digest_from_bytes bytes) m4 bytes' Hnf4)
    as (m5&Hget5&_&_); [by rewrite Ho4, Hf3|done|].
  apply evaluate_lawful in Hl, Hl'. apply key_tier_denial_None in Ht, Ht'.
  exists {| written_digest := Digest_from_bytes bytes; write_receipt := rc |}, c', m2,
    {| hit := true; restored_digest := Some (Digest_from_bytes bytes);
       restore_receipt := rc' |}, m4, bytes', m5.
  split_and!; [|done| |done..].
  - unfold write, bindM, liftM, ret. rewrite Hk, Ht, Hl. cbn [negb].
    rewrite Hput. cbn [object_digest cas_object]. by rewrite He.
  - unfold restore, bindM, liftM, ret. rewrite Hk, Ht', Hl'. cbn [negb].
    assert (manifest_find (manifest c') (key_digest key) (layer r')
      = Some {| entry_key := key; entry_object_digest := Digest_from_bytes bytes;
                entry_layer := layer r; size_bytes := N.of_nat (String.length bytes);
                writer_receipt := rc |}) as ->
      by (rewrite Hlay; unfold c', index_entry; apply (manifest_find_added (manifest c)
            {| entry_key := key; entry_object_digest := _ |})).
    unfold verify_cache_hit, bindM, liftM, ret. rewrite Hk. cbn [entry_object_digest].
    change (cas c') with (cas c). rewrite Hget.
    rewrite (bool_decide_true (Digest_from_bytes bytes' = _)) by done. cbn [negb].
    by rewrite He'.
Qed.
End round_trip.
