(* ===== verification/CacheSamples.v ===== *)
(** CacheSamples: the cache's theorems at concrete inputs. BLAKE3 and serde are
    instantiated by simple functions of the documented shape. *)

From Stdlib Require Import Ascii.
From S2P Require Import Prelude Text CiIr FileSystem CachePolicy CacheCore CacheService.

(** * Concrete externals *)

Definition sample_hash (bytes : string) : string :=
  string_repeat "0"%char 48 +:+ hex16 (fnv_loop fnv_offset bytes).

Definition sample_material_json (m : CacheKeyMaterial) : option string :=
  Some (join "|"
    [show_N (cache_schema_version m); tenant_id m; repo_id_or_explicit_shared_scope m;
     TrustTier_as_str (trust_tier m); rustc_version m; cargo_version m; profile m;
     join "," (feature_set m); join "," (rustflags m); crate_source_digest m]).

#[export] Instance sample_external : External := {
  blake3_hex := sample_hash;
  material_json := sample_material_json;
  receipt_material_json := λ _ k o a _ t d ts _,
    Some (join "|" [default "" k; default "" o; CacheAction_debug a; TrustTier_as_str t;
                    show_bool (allowed d); show_N ts]);
  receipt_json := λ rc, Some (receipt_id rc);
  receipt_of_json := λ _, None;
  record_json := λ r, Some (record_reason r)
}.

Lemma nibble_lower n : (n < 16)%N → is_lower_hexdigit (nibble n) = true.
Proof. intros Hn. destruct n as [|p]; [done|]. do 4 (destruct p as [p|p|]; try done; try lia). Qed.

Lemma hex_digits_lower k n : string_all is_lower_hexdigit (hex_digits k n) = true.
Proof.
  revert n. induction k as [|k IH]; intros n; [done|]. cbn [hex_digits].
  rewrite string_all_append, IH. cbn [string_all andb].
  rewrite nibble_lower; [done|]. by apply N.mod_lt.
Qed.

#[export] Instance sample_external_spec : ExternalSpec.
Proof.
  split; intros bytes; cbn; unfold sample_hash.
  - rewrite length_append. unfold hex16. by rewrite hex_digits_length.
  - rewrite string_all_append. unfold hex16. by rewrite hex_digits_lower.
Qed.

#[export] Instance sample_serde_total : SerdeTotal.
Proof. split; intros; by eexists. Qed.

(** * Samples *)

Module CacheSample.
Definition disk : Machine :=
  {| files := ∅; op_count := 0; faults := λ _, NoFault; clock_reads := 0;
     clock := λ n, Some (1000 + n)%N |}.
Definition cache : JeryuCache :=
  {| cas := "/cas"; receipts := "/receipts";
     quarantine := {| quarantine_root := "/q"; quarantine_cas := "/q/cas" |};
     manifest := {| manifest_entries := [] |} |}.
Definition material (t : TrustTier) : CacheKeyMaterial :=
  {| cache_schema_version := 1; tenant_id := "tenant";
     repo_id_or_explicit_shared_scope := "repo"; trust_tier := t;
     rustc_version := "rustc 1.78.0"; cargo_version := "cargo 1.78.0";
     toolchain_channel := "stable"; host_triple := "host"; target_triple := "target";
     profile := "dev"; feature_set := ["serde"; "default"]; rustflags := ["-Cdebuginfo=1"];
     linker_identity := "lld"; sysroot_digest := ""; cargo_lock_subgraph_digest := "";
     cargo_toml_digest := ""; workspace_metadata_digest := ""; crate_source_digest := "";
     build_rs_digest := ""; build_rs_declared_inputs_digest := ""; proc_macro_digest := "";
     native_deps_digest := ""; env_allowlist_digest := ""; runner_rootfs_digest := "";
     sandbox_policy_digest := "" |}.
Definition key (t : TrustTier) : CacheKey :=
  match derive_key (material t) with
  | Ok k => k
  | Err _ => {| key_digest := ""; CacheCore.material := material t |}
  end.
Definition request (a : CacheAction) (t : TrustTier) : CacheRequest :=
  {| action := a; layer := L3RepoCompiledCas; actor_tier := t; source_repo_id := "repo";
     target_repo_id := "repo"; scope := CS_Repo "tenant" "repo";
     green_protected_policy := bool_decide (t = T1ProtectedInternal);
     has_explainable_fingerprint := true; has_receipt := false; is_release_lane := false;
     is_agent_patch := false |}.
Definition write_request := request CA_Write T1ProtectedInternal.
Definition read_request := request CA_Restore T1ProtectedInternal.
Definition t1_key : CacheKey := Eval vm_compute in key T1ProtectedInternal.
(** After a write, and after a restore from that. *)
Definition cache' : JeryuCache := Eval vm_compute in
  match (write cache write_request t1_key "artifact" disk).1 with
  | Ok (_, c) => c
  | Err _ => cache
  end.
Definition disk' : Machine := Eval vm_compute in
  (write cache write_request t1_key "artifact" disk).2.
End CacheSample.

Lemma empty_sound fs : fs = ∅ → sound fs.
Proof. intros -> cas d bytes _. by rewrite lookup_empty. Qed.

Lemma sample_permitted a :
  a = CA_Write ∨ a = CA_Restore →
  permitted (CacheSample.request a T1ProtectedInternal) CacheSample.t1_key.
Proof.
  intros Ha. split; [|by vm_compute]. apply evaluate_lawful. by destruct Ha as [->| ->].
Qed.

Lemma sample_cache_wf : wf_cache CacheSample.cache.
Proof. split; [constructor|]. intros i j x y Hi. by destruct i. Qed.

Lemma write_step c r key bytes m c' m' :
  match write c r key bytes m with (Ok (_, c1), m1) => Some (c1, m1) | _ => None end
    = Some (c', m') →
  service_step (c, m) (c', m').
Proof.
  destruct (write c r key bytes m) as [[[o c1]|e] m1] eqn:Hw; [|done].
  intros [= <- <-]. by eapply step_write.
Qed.

Lemma sample_written_step :
  service_step (CacheSample.cache, CacheSample.disk) (CacheSample.cache', CacheSample.disk').
Proof.
  apply (write_step _ CacheSample.write_request CacheSample.t1_key "artifact").
  vm_compute. reflexivity.
Qed.

Lemma sample_written_wf : wf_cache CacheSample.cache'.
Proof. exact (service_step_wf _ _ sample_written_step sample_cache_wf). Qed.

Lemma sample_restored :
  ∃ out m, restore CacheSample.cache' CacheSample.read_request CacheSample.t1_key
             CacheSample.disk' = (Ok out, m)
    ∧ hit out = true ∧ restored_digest out = Some (sample_hash "artifact").
Proof. do 2 eexists. split; [vm_compute; reflexivity|]. split; vm_compute; reflexivity. Qed.

(** * Witnesses *)

Lemma cas_integrity_witness :
  sound (files (put_bytes "/cas" "artifact" CacheSample.disk).2).
Proof. apply (proj2 cas_integrity). exact (empty_sound ∅ eq_refl). Defined.

Lemma cas_round_trip_witness :
  ∃ obj m1 m2, put_bytes "/cas" "artifact" CacheSample.disk = (Ok obj, m1)
    ∧ get_bytes "/cas" (object_digest obj) m1 = (Ok "artifact", m2).
Proof.
  destruct (cas_round_trip "/cas" "artifact" CacheSample.disk)
    as (obj&m1&b&m2&Hput&Hget&[->|(Hin&_)]).
  - intros n. reflexivity.
  - exact (empty_sound ∅ eq_refl).
  - exists obj, m1, m2. exact (conj Hput Hget).
  - exfalso. cbn in Hin. by rewrite lookup_empty in Hin.
Defined.

Lemma derive_key_order_independent_witness :
  match derive_key (with_lists (CacheSample.material T2InternalBranch) ["a"; "b"] []),
        derive_key (with_lists (CacheSample.material T2InternalBranch) ["b"; "a"; "b"] []) with
  | Ok k1, Ok k2 => key_digest k1 = key_digest k2
  | Err e1, Err e2 => e1 = e2
  | _, _ => False
  end.
Proof.
  apply derive_key_order_independent; [|done]. intros x. rewrite !elem_of_cons. tauto.
Defined.

Lemma cache_invariant_witness : wf_cache CacheSample.cache'.
Proof.
  exact (cache_invariant CacheSample.cache CacheSample.disk
    (CacheSample.cache', CacheSample.disk') eq_refl (rtc_once _ _ sample_written_step)).
Defined.

Lemma restore_hit_sound_witness :
  lawful CacheSample.read_request
  ∧ ∃ e, e ∈ manifest_entries (manifest CacheSample.cache').
Proof.
  destruct sample_restored as (out&m&Hr&Hhit&_).
  destruct (restore_hit_sound CacheSample.cache CacheSample.disk CacheSample.cache'
    CacheSample.disk' CacheSample.read_request
    CacheSample.t1_key out m eq_refl (rtc_once _ _ sample_written_step) Hr Hhit)
    as (Hl&_&_&e&bytes&He&_).
  exact (conj Hl (ex_intro _ e He)).
Defined.

Lemma cache_fails_closed_witness :
  ∃ e, (write CacheSample.cache (CacheSample.request CA_Write T5PublicUntrusted)
          (CacheSample.key T5PublicUntrusted) "evil" CacheSample.disk).1 = Err e.
Proof.
  assert (¬ permitted (CacheSample.request CA_Write T5PublicUntrusted)
            (CacheSample.key T5PublicUntrusted)) as Hn.
  { intros [Hl _]. apply evaluate_lawful in Hl. by vm_compute in Hl. }
  destruct (cache_fails_closed CacheSample.cache
    (CacheSample.request CA_Write T5PublicUntrusted)
    (CacheSample.key T5PublicUntrusted) CacheSample.disk) as [H _].
  destruct (H Hn) as [Hw _]. exact (proj1 (Hw "evil")).
Defined.

Lemma write_then_restore_witness :
  ∃ o c' m1, write CacheSample.cache CacheSample.write_request CacheSample.t1_key
    "artifact" CacheSample.disk = (Ok (o, c'), m1)
    ∧ written_digest o = Digest_from_bytes "artifact".
Proof.
  destruct (write_then_restore CacheSample.cache CacheSample.write_request
    CacheSample.read_request CacheSample.t1_key "artifact" CacheSample.disk)
    as (o&c'&m1&_&_&_&_&Hw&Hd&_).
  - intros n. reflexivity.
  - exact (empty_sound ∅ eq_refl).
  - vm_compute. reflexivity.
  - exact (sample_permitted _ (or_introl eq_refl)).
  - exact (sample_permitted _ (or_intror eq_refl)).
  - reflexivity.
  - exists o, c', m1. exact (conj Hw Hd).
Defined.

(** * A request can name an action its operation is not *)

(** [write] does not look at the request's action, and no law restricts a
    [QuarantineWrite]: an untrusted actor that names it indexes an entry of its own
    in the compiled layer, and reads it back, although the laws let it do neither. *)
Example untrusted_writes_compiled :
  let r := CacheSample.request CA_QuarantineWrite T5PublicUntrusted in
  let k := CacheSample.key T5PublicUntrusted in
  match write CacheSample.cache r k "evil" CacheSample.disk with
  | (Ok (_, c'), m') =>
      map entry_layer (manifest_entries (manifest c')) = [L3RepoCompiledCas]
      ∧ match (restore c' r k m').1 with Ok out => hit out = true | Err _ => False end
  | (Err _, _) => False
  end
  ∧ allowed (evaluate (CacheSample.request CA_Write T5PublicUntrusted)) = false
  ∧ allowed (evaluate (CacheSample.request CA_Restore T5PublicUntrusted)) = false.
Proof. by vm_compute. Qed.
