(* ===== verification/Evidence.v ===== *)
(** Evidence: the objects the Evidence Gate reasons over and the named conditions
    that veto a change (jeryu-autonomy: [types/], [sha_bind.rs], [conditions/]).

    JSON values (serde_json) and instants (chrono) come from outside the
    repository: they are the operations of the classes [Json] and [Clock.Chrono].
    A 64-bit float is its IEEE value ([spec_float]); 32-bit sums wrap, as in the
    release build that is shipped. *)

From Stdlib Require Import SpecFloat ZArith Ascii.
From S2P Require Import Prelude Text Clock.

(** * What the gate uses of its dependencies *)

(** The [json!] values the gate builds. *)
Class Json := {
  Value : Type;
  json_null : Value;
  json_bool : bool → Value;
  json_str : string → Value;
  json_strs : list string → Value;
  json_u32 : N → Value;
  json_u64 : N → Value;
  json_f64 : spec_float → Value;
  json_object : list (string * Value) → Value
}.

(** * Arithmetic and text of the standard library *)

Definition u32_modulus : N := 4294967296.
Definition wrapping_add32 (a b : N) : N := ((a + b) mod u32_modulus)%N.

Definition to_ascii_uppercase (c : ascii) : ascii :=
  if is_ascii_lower c then ascii_of_N (code c - 32) else c.

Definition dquote : string := String "034"%char "".

(** [{:?}] of a list whose elements are already rendered. *)
Definition debug_list (l : list string) : string := "[" +:+ join ", " l +:+ "]".

(** [{:?}] of a string that needs no escapes. *)
Definition debug_str (s : string) : string := dquote +:+ s +:+ dquote.

(** [{:.2}] of a float: the exact value in hundredths, ties to even. *)
Definition hundredths (m : positive) (e : Z) : Z :=
  if (0 <=? e)%Z then (Z.pos m * 2 ^ e * 100)%Z
  else
    let d := (2 ^ (- e))%Z in let n := (Z.pos m * 100)%Z in
    let q := (n / d)%Z in
    match (2 * (n mod d) ?= d)%Z with
    | Lt => q
    | Gt => q + 1
    | Eq => if Z.even q then q else q + 1
    end%Z.

Definition show_f64_2 (x : spec_float) : string :=
  let sign (s : bool) := if s then "-" else "" in
  match x with
  | S754_nan => "NaN"
  | S754_infinity s => sign s +:+ "inf"
  | S754_zero s => sign s +:+ "0.00"
  | S754_finite s m e =>
      let h := Z.to_N (hundredths m e) in
      sign s +:+ show_N (h / 100) +:+ "."
        +:+ (if (h mod 100 <? 10)%N then "0" else "") +:+ show_N (h mod 100)
  end.

(** The 64-bit float -0.5. *)
Definition f64_minus_half : spec_float := S754_finite true 4503599627370496 (-53).

(** * Enumerations (types/common.rs) *)

Inductive RiskTier : Type := R0 | R1 | R2 | R3 | R4 | R5.

#[export] Instance RiskTier_eq_dec : EqDecision RiskTier.
Proof. solve_decision. Defined.

Definition RiskTier_debug (t : RiskTier) : string :=
  match t with
  | R0 => "R0" | R1 => "R1" | R2 => "R2" | R3 => "R3" | R4 => "R4" | R5 => "R5"
  end.

Definition auto_merge_eligible (t : RiskTier) : bool :=
  match t with R0 | R1 | R2 => true | _ => false end.

Definition tier_human_required (t : RiskTier) : bool :=
  match t with R3 | R4 | R5 => true | _ => false end.

Inductive ReviewerRole : Type :=
  | RoleSecurity | RoleTestIntegrity | RoleRuntime | RoleLockfile | RoleJudge
  | RoleReleaseShepherd | RoleNightwatch.

#[export] Instance ReviewerRole_eq_dec : EqDecision ReviewerRole.
Proof. solve_decision. Defined.

(** The derived [Debug] name and the snake-case serde name. *)
Definition ReviewerRole_debug (r : ReviewerRole) : string :=
  match r with
  | RoleSecurity => "Security" | RoleTestIntegrity => "TestIntegrity"
  | RoleRuntime => "Runtime" | RoleLockfile => "Lockfile" | RoleJudge => "Judge"
  | RoleReleaseShepherd => "ReleaseShepherd" | RoleNightwatch => "Nightwatch"
  end.

Definition ReviewerRole_name (r : ReviewerRole) : string :=
  match r with
  | RoleSecurity => "security" | RoleTestIntegrity => "test_integrity"
  | RoleRuntime => "runtime" | RoleLockfile => "lockfile" | RoleJudge => "judge"
  | RoleReleaseShepherd => "release_shepherd" | RoleNightwatch => "nightwatch"
  end.

Inductive ReviewDecision : Type := RD_Pass | RD_Concern | RD_Block | RD_Abstain.

#[export] Instance ReviewDecision_eq_dec : EqDecision ReviewDecision.
Proof. solve_decision. Defined.

Inductive Severity : Type := SevInfo | SevLow | SevMedium | SevHigh | SevCritical.

Inductive GateDecision : Type := AllowMerge | RequireHuman | Reject.

#[export] Instance GateDecision_eq_dec : EqDecision GateDecision.
Proof. solve_decision. Defined.

Definition GateDecision_debug (d : GateDecision) : string :=
  match d with
  | AllowMerge => "AllowMerge" | RequireHuman => "RequireHuman" | Reject => "Reject"
  end.

(** * Evidence packs and receipts (types/evidence.rs, types/receipt.rs) *)

(** jeryu-signing's wire signature. *)
Record Signature : Type := { sig_key_id : string; sig_algo : string; sig_value : string }.

Definition unsigned : Signature :=
  {| sig_key_id := "unsigned"; sig_algo := "unsigned"; sig_value := string_repeat "0"%char 64 |}.

Record ChangedFile : Type := {
  file_path : string; risk_tags : list string; lines_added : N; lines_removed : N
}.

Inductive ScanOutcome : Type := Scan_Passed | Scan_Failed | Scan_Skipped | Scan_Missing.

#[export] Instance ScanOutcome_eq_dec : EqDecision ScanOutcome.
Proof. solve_decision. Defined.

Inductive CiConclusion : Type :=
  | Ci_Success | Ci_Failure | Ci_Cancelled | Ci_TimedOut | Ci_Pending | Ci_Missing.

Definition CiConclusion_name (c : CiConclusion) : string :=
  match c with
  | Ci_Success => "success" | Ci_Failure => "failure" | Ci_Cancelled => "cancelled"
  | Ci_TimedOut => "timed_out" | Ci_Pending => "pending" | Ci_Missing => "missing"
  end.

Definition is_green (c : CiConclusion) : bool :=
  match c with Ci_Success => true | _ => false end.

Record CiCheck : Type := { check_name : string; conclusion : CiConclusion }.

Record TestsSection : Type := {
  targeted : list string; full_required : bool; skipped : list string;
  coverage_delta : option spec_float
}.

Record SecuritySection : Type := {
  sast : ScanOutcome; dependency_scan : ScanOutcome; secret_scan : ScanOutcome
}.

Inductive RollbackStrategy : Type :=
  | RevertCommit | FeatureFlag | DataMigrationReverse | RedeployPrevious | Manual.

Record RollbackSection : Type := {
  strategy : RollbackStrategy; feature_flag : option string;
  data_migration_reversible : option bool
}.

Record GateReceipt : Type := {
  gate_receipt_id : string; status : string; detail : string; gate_evidence : option string
}.

Record Finding : Type := {
  severity : Severity; class : string; finding_file : string; range : N * N;
  finding_evidence : option string; recommendation : option string
}.

Record TokenCounts : Type := { prompt : N; completion : N }.

Section evidence.
Context `{J : Json} `{C : Chrono}.

Record SupplyChainSection : Type := {
  dependency_changes : list Value; external_code_sources : list string;
  lockfile_only_change : bool
}.

(** The schema tags carry no data: they are left out of the records. *)
Record EvidencePack : Type := {
  pack_id : string; intent_id : option string; pack_repo : string;
  source_branch : string; pack_target_branch : string; pack_head_sha : string;
  base_sha : string; pack_policy_sha : string; pack_author_agent : option string;
  pack_risk : RiskTier; changed_files : list ChangedFile; claims : list string;
  tests : TestsSection; security : SecuritySection; supply_chain : SupplyChainSection;
  rollback : RollbackSection; gate_receipts : list GateReceipt; ci_status : list CiCheck;
  evidence_digest : string; pack_created_at : DateTime; pack_signature : option Signature
}.

Record AgentApprovalReceipt : Type := {
  receipt_id : string; evidence_pack_id : string; role : ReviewerRole; agent_id : string;
  prompt_sha : option string; provider : option string; model : option string;
  temperature : option spec_float; seed : option N; raw_response_sha : option string;
  receipt_head_sha : string; receipt_policy_sha : string; receipt_decision : ReviewDecision;
  receipt_reason : option string; findings : list Finding; not_author : bool;
  tokens : TokenCounts; receipt_created_at : DateTime; receipt_signature : Signature
}.

(** * Exact-SHA binding (sha_bind.rs) *)

Inductive ShaBindError : Type :=
  | HeadMismatch (receipt_head pack_head : string)
  | PolicyMismatch (receipt_policy pack_policy : string)
  | PackIdMismatch (receipt_pack pack : string).

Definition verify_sha_binding (p : EvidencePack) (r : AgentApprovalReceipt) :
    result unit ShaBindError :=
  if negb (bool_decide (evidence_pack_id r = pack_id p))
  then Err (PackIdMismatch (evidence_pack_id r) (pack_id p))
  else if negb (bool_decide (receipt_head_sha r = pack_head_sha p))
  then Err (HeadMismatch (receipt_head_sha r) (pack_head_sha p))
  else if negb (bool_decide (receipt_policy_sha r = pack_policy_sha p))
  then Err (PolicyMismatch (receipt_policy_sha r) (pack_policy_sha p))
  else Ok tt.

(** * Hard stops (conditions/) *)

Record HardStop : Type := { stop_name : string; stop_reason : string; details : Value }.

Definition CondFn : Type := EvidencePack → list AgentApprovalReceipt → option HardStop.

Record NamedCondition : Type := { cond_name : string; func : CondFn }.

(** [Option] of a non-empty list. *)
Definition non_empty {A} (l : list A) : option (list A) :=
  match l with [] => None | _ => Some l end.

Definition stop (n reason : string) (d : Value) : HardStop :=
  {| stop_name := n; stop_reason := reason; details := d |}.

(** paths.rs *)
Definition any_path_matches (p : EvidencePack) (exact prefixes : list string) :
    option (list string) :=
  non_empty
    (map file_path
       (filter (λ f, existsb (λ e, bool_decide (file_path f = e)) exact
                     || existsb (starts_with (file_path f)) prefixes = true)
          (changed_files p))).

(** security.rs *)
Definition SECURITY_SCANNER_CONFIG_PATHS : list string :=
  ["deny.toml"; "cargo-deny.toml"; "audit.toml"; ".trivyignore"; ".gitleaks.toml";
   "gitleaks.toml"; ".bandit"; ".semgrep.yml"; "agent/security-policy.toml"].

Definition SECURITY_SCANNER_PATH_PREFIXES : list string :=
  [".github/workflows/security"; ".jeryu/ci/security"; "agent/security-policies"].

Definition SECRET_HANDLING_PREFIXES : list string :=
  ["secrets/"; "src/secrets"; "src/llm/secrets"].

Definition cond_evidence_missing : CondFn := λ p _,
  if str_is_empty (evidence_digest p)
  then Some (stop "evidence_missing" "evidence_pack has no digest" json_null)
  else None.

Definition cond_evidence_signature_invalid : CondFn := λ p _,
  let bad reason d := Some (stop "evidence_signature_invalid" reason d) in
  let algo s := json_object [("algo", json_str (sig_algo s))] in
  match pack_signature p with
  | Some s =>
      if bool_decide (sig_algo s = "ed25519") then None
      else if bool_decide (sig_algo s = "unsigned")
      then bad "evidence pack carries an unsigned signature; not acceptable in enforcement" (algo s)
      else if bool_decide (sig_algo s = "hmac-sha256-insecure")
      then bad "evidence pack signed with insecure HMAC; ed25519 required in enforcement" (algo s)
      else bad ("evidence pack signed with unknown algo '" +:+ sig_algo s +:+ "'") (algo s)
  | None => bad "evidence pack is unsigned" json_null
  end.

(** The four conditions on scan outcomes share their shape. *)
Definition scan_is (o : ScanOutcome) (scan : SecuritySection → ScanOutcome)
    (n reason : string) : CondFn := λ p _,
  if bool_decide (scan (security p) = o) then Some (stop n reason json_null) else None.

Definition cond_secret_scan_failed : CondFn :=
  scan_is Scan_Failed secret_scan "secret_scan_failed" "secret scan reported findings".

Definition cond_secret_scan_missing : CondFn :=
  scan_is Scan_Missing secret_scan "secret_scan_missing" "secret scan never ran; fail-closed".

Definition cond_sast_failed : CondFn :=
  scan_is Scan_Failed sast "sast_failed" "SAST scan failed".

Definition cond_dependency_scan_failed : CondFn :=
  scan_is Scan_Failed dependency_scan "dependency_scan_failed"
    "dependency / advisory scan failed".

(** The conditions on changed paths. *)
Definition paths_stop (exact prefixes : list string) (n reason : string) : CondFn := λ p _,
  (λ paths, stop n reason (json_object [("paths", json_strs paths)]))
    <$> any_path_matches p exact prefixes.

Definition cond_changes_security_scanner_config : CondFn :=
  paths_stop SECURITY_SCANNER_CONFIG_PATHS SECURITY_SCANNER_PATH_PREFIXES
    "changes_security_scanner_config"
    "PR edits security scanner config; require elevated review".

Definition cond_touches_secret_handling : CondFn :=
  paths_stop [".env"; ".env.local"] SECRET_HANDLING_PREFIXES "touches_secret_handling"
    "PR edits secret-handling code or config; require security review".

(** review.rs *)
Definition with_decision (d : ReviewDecision) (rs : list AgentApprovalReceipt) :
    list AgentApprovalReceipt :=
  filter (λ r, receipt_decision r = d) rs.

Definition show_len {A} (l : list A) : string := show_N (N.of_nat (length l)).

Definition cond_reviewer_blocked : CondFn := λ _ rs,
  (λ blockers,
     stop "reviewer_blocked" (show_len blockers +:+ " reviewer(s) issued a hard block")
       (json_object [("roles", json_strs (map (λ r, ReviewerRole_name (role r)) blockers));
                     ("agents", json_strs (map agent_id blockers))]))
    <$> non_empty (with_decision RD_Block rs).

Definition cond_reviewer_abstained_required : CondFn := λ _ rs,
  if existsb (λ r, bool_decide (receipt_decision r = RD_Abstain)) rs
  then Some (stop "reviewer_abstained_required"
               "a required reviewer abstained; fail-closed unless explicit policy override"
               json_null)
  else None.

Definition cond_prompt_injection_suspected : CondFn := λ _ rs,
  (λ hits,
     stop "prompt_injection_suspected"
       (show_len hits +:+ " reviewer(s) flagged prompt-injection-class finding") json_null)
    <$> non_empty
          (filter (λ r, existsb (λ f, starts_with (class f) "prompt-injection") (findings r)
                        = true) rs).

(** supply_chain.rs *)
Definition LOCKFILE_BY_MANIFEST : list (string * string) :=
  [("Cargo.lock", "Cargo.toml"); ("package-lock.json", "package.json");
   ("yarn.lock", "package.json"); ("pnpm-lock.yaml", "package.json");
   ("Pipfile.lock", "Pipfile"); ("poetry.lock", "pyproject.toml"); ("go.sum", "go.mod");
   ("composer.lock", "composer.json"); ("Gemfile.lock", "Gemfile")].

Definition cond_lockfile_only_change : CondFn := λ p _,
  if lockfile_only_change (supply_chain p)
  then Some (stop "lockfile_only_change"
               "lockfile changed without source change (yanked-package backdoor pattern)"
               json_null)
  else None.

Definition cond_introduces_new_external_code_source : CondFn := λ p _,
  (λ sources,
     stop "introduces_new_external_code_source"
       (show_len sources +:+ " new external code source(s) declared")
       (json_object [("sources", json_strs sources)]))
    <$> non_empty (external_code_sources (supply_chain p)).

(** The file [name], at the root or in any directory, is among the changed ones. *)
Definition touched (p : EvidencePack) (name : string) : bool :=
  existsb (λ f, bool_decide (file_path f = name) || ends_with (file_path f) ("/" +:+ name))
    (changed_files p).

Definition orphan_lockfiles (p : EvidencePack) : list string :=
  map fst (filter (λ lm, touched p lm.1 && negb (touched p lm.2) = true) LOCKFILE_BY_MANIFEST).

Definition cond_lockfile_diff_without_manifest_diff : CondFn := λ p _,
  (λ orphans,
     stop "lockfile_diff_without_manifest_diff"
       ("lockfile(s) " +:+ debug_list (map debug_str orphans)
          +:+ " changed without matching manifest; classic yanked-package backdoor pattern")
       (json_object [("lockfiles", json_strs orphans)]))
    <$> non_empty (orphan_lockfiles p).

(** anti_vibe.rs *)
Definition TEST_PATH_SUBSTRINGS : list string :=
  ["/tests/"; "/test/"; "/__tests__/"; "/spec/"; ".test."; "_test."; ".spec."; "_spec."].

Definition RELEASE_DEPLOY_POLICY_PATHS : list string :=
  [".jeryu/autonomy/policies/release.yml"; ".jeryu/autonomy/policies/freeze.yml";
   "agent/proof-lanes.toml"; "proof-lanes.toml"; "Justfile"].

Definition RELEASE_DEPLOY_PATH_PREFIXES : list string :=
  [".github/workflows/release"; ".github/workflows/deploy"; ".jeryu/ci/"; "ops/ci/";
   "deploy/"; "infra/"; "k8s/"; "helm/"; "terraform/"].

Definition PROMPT_OR_JUDGE_PREFIXES : list string :=
  [".jeryu/autonomy/prompts/"; ".jeryu/autonomy/agents/";
   ".jeryu/autonomy/policies/approvals.yml"; ".jeryu/autonomy/policies/risk.yml";
   ".jeryu/autonomy/policies/protected-paths.yml"].

Definition is_test_path (p : string) : bool :=
  existsb (λ s, str_contains s p) TEST_PATH_SUBSTRINGS.

Definition weakened_tests (p : EvidencePack) : list ChangedFile :=
  filter (λ f, is_test_path (file_path f) && (lines_added f <? lines_removed f)%N = true)
    (changed_files p).

(** The sum of the net removals; no subtraction underflows after the filter. *)
Definition net_removed (fs : list ChangedFile) : N :=
  foldl (λ acc f, wrapping_add32 acc (lines_removed f - lines_added f)%N) 0%N fs.

Definition cond_removes_or_weakens_tests : CondFn := λ p _,
  let deletions := weakened_tests p in
  match deletions with
  | [] => None
  | _ =>
      let total_removed := net_removed deletions in
      if (length deletions <? 2) && (total_removed <? 20)%N then None
      else
        Some (stop "removes_or_weakens_tests"
          (show_len deletions +:+ " test file(s) lost a net " +:+ show_N total_removed
             +:+ " line(s); fail-closed without an explicit test-integrity reviewer pass")
          (json_object [("paths", json_strs (map file_path deletions));
                        ("net_lines_removed", json_u32 total_removed)]))
  end.

Definition cond_coverage_threshold_lowered : CondFn := λ p _,
  match coverage_delta (tests p) with
  | None => None
  | Some delta =>
      if SFltb delta f64_minus_half
      then Some (stop "coverage_threshold_lowered"
                   ("coverage dropped " +:+ show_f64_2 delta +:+ "pp on this change")
                   (json_object [("coverage_delta", json_f64 delta)]))
      else None
  end.

Definition is_snapshot_path (s : string) : bool :=
  str_contains "__snapshots__/" s || str_contains "/snapshots/" s || ends_with s ".snap"
  || ends_with s ".snap.json" || ends_with s ".snap.new".

(** The saturating sum of the files' line counts; the sum within one file wraps. *)
Definition snapshot_lines (fs : list ChangedFile) : N :=
  foldl (λ acc f,
           saturating_add u32_max acc (wrapping_add32 (lines_added f) (lines_removed f)))
    0%N fs.

Definition cond_snapshot_mass_replacement : CondFn := λ p _,
  let snaps := filter (λ f, is_snapshot_path (file_path f) = true) (changed_files p) in
  let snap_lines := snapshot_lines snaps in
  if (snap_lines <? 200)%N then None
  else
    Some (stop "snapshot_mass_replacement"
      (show_len snaps +:+ " snapshot file(s) changed by " +:+ show_N snap_lines
         +:+ " line(s); needs explicit rendered-diff justification")
      (json_object [("paths", json_strs (map file_path snaps)); ("lines", json_u32 snap_lines)])).

Definition cond_changes_release_or_deploy_policy : CondFn :=
  paths_stop RELEASE_DEPLOY_POLICY_PATHS RELEASE_DEPLOY_PATH_PREFIXES
    "changes_release_or_deploy_policy"
    "PR edits release/deploy policy or infra; require elevated review".

Definition cond_changes_agent_prompts_or_judge_policy : CondFn :=
  paths_stop [] PROMPT_OR_JUDGE_PREFIXES "changes_agent_prompts_or_judge_policy"
    "PR edits agent prompts or judge policy; require elevated review".

(** ci.rs, external.rs: the conditions the judge or its caller computes. *)
Definition MISSING_REQUIRED_CI_CHECK : string := "missing_required_ci_check".
Definition FAILED_REQUIRED_CI_CHECK : string := "failed_required_ci_check".

Definition cond_externally_supplied : CondFn := λ _ _, None.
Definition cond_missing_required_ci_check : CondFn := λ _ _, None.
Definition cond_failed_required_ci_check : CondFn := λ _ _, None.

(** The first report of a lane wins. *)
Definition conclusion_for (ci : list CiCheck) (lane : string) : option CiCheck :=
  find_first (λ c, bool_decide (check_name c = lane)) ci.

Definition lane_stop (p : EvidencePack) (lane : string) : option HardStop :=
  let found c := json_object [("lane", json_str lane);
                              ("conclusion", json_str (CiConclusion_name c))] in
  match conclusion_for (ci_status p) lane with
  | None =>
      Some (stop MISSING_REQUIRED_CI_CHECK
        ("required CI lane '" +:+ lane +:+ "' is absent from ci_status; fail-closed")
        (found Ci_Missing))
  | Some check =>
      if is_green (conclusion check) then None
      else
        Some (stop FAILED_REQUIRED_CI_CHECK
          ("required CI lane '" +:+ lane +:+ "' is not green (conclusion is not success)")
          (found (conclusion check)))
  end.

Definition ci_hard_stops (p : EvidencePack) (required_lanes : list string) : list HardStop :=
  omap (lane_stop p) required_lanes.

(** * The registry (conditions/mod.rs) *)

Definition named (n : string) (f : CondFn) : NamedCondition := {| cond_name := n; func := f |}.

Definition registry_table : list NamedCondition :=
  [named "evidence_missing" cond_evidence_missing;
   named "evidence_signature_invalid" cond_evidence_signature_invalid;
   named "secret_scan_failed" cond_secret_scan_failed;
   named "secret_scan_missing" cond_secret_scan_missing;
   named "sast_failed" cond_sast_failed;
   named "dependency_scan_failed" cond_dependency_scan_failed;
   named "reviewer_blocked" cond_reviewer_blocked;
   named "reviewer_abstained_required" cond_reviewer_abstained_required;
   named "lockfile_only_change" cond_lockfile_only_change;
   named "prompt_injection_suspected" cond_prompt_injection_suspected;
   named MISSING_REQUIRED_CI_CHECK cond_missing_required_ci_check;
   named FAILED_REQUIRED_CI_CHECK cond_failed_required_ci_check;
   named "coverage_threshold_lowered" cond_coverage_threshold_lowered;
   named "snapshot_mass_replacement" cond_snapshot_mass_replacement;
   named "sha_drift" cond_externally_supplied;
   named "policy_sha_drift" cond_externally_supplied;
   named "missing_required_review_role" cond_externally_supplied;
   named "missing_evidence_pack" cond_externally_supplied;
   named "codeowners_not_satisfied" cond_externally_supplied;
   named "freeze_window_active" cond_externally_supplied;
   named "budget_exceeded" cond_externally_supplied;
   named "training_use_required_but_disallowed" cond_externally_supplied;
   named "judge_signature_invalid" cond_externally_supplied;
   named "changes_security_scanner_config" cond_changes_security_scanner_config;
   named "changes_release_or_deploy_policy" cond_changes_release_or_deploy_policy;
   named "changes_agent_prompts_or_judge_policy" cond_changes_agent_prompts_or_judge_policy;
   named "touches_secret_handling" cond_touches_secret_handling;
   named "destructive_database_change" cond_externally_supplied;
   named "removes_or_weakens_tests" cond_removes_or_weakens_tests;
   named "introduces_new_external_code_source" cond_introduces_new_external_code_source;
   named "lockfile_diff_without_manifest_diff" cond_lockfile_diff_without_manifest_diff;
   named "dependency_count_delta_gte_5" cond_externally_supplied;
   named "all_files_have_targeted_tests" cond_externally_supplied;
   named "release_artifact_unsigned" cond_externally_supplied;
   named "release_sbom_missing" cond_externally_supplied;
   named "release_provenance_missing" cond_externally_supplied;
   named "rollback_drill_failed" cond_externally_supplied].

Definition lookup (name : string) : option NamedCondition :=
  find_first (λ c, bool_decide (cond_name c = name)) registry_table.

Definition names : list string := map cond_name registry_table.

Definition unknown_condition (name : string) : HardStop :=
  stop ("unknown_condition:" +:+ name)
    "policy references a condition not in the registry; fail-closed" json_null.

(** What one requested name yields. *)
Definition evaluate_one (p : EvidencePack) (rs : list AgentApprovalReceipt) (name : string) :
    option HardStop :=
  match lookup name with
  | Some c => func c p rs
  | None => Some (unknown_condition name)
  end.

Definition evaluate (requested : list string) (p : EvidencePack)
    (rs : list AgentApprovalReceipt) : list HardStop :=
  omap (evaluate_one p rs) requested.

(** * Lemmas *)

Lemma verify_sha_binding_ok p r :
  is_ok (verify_sha_binding p r) = true ↔
  evidence_pack_id r = pack_id p ∧ receipt_head_sha r = pack_head_sha p
  ∧ receipt_policy_sha r = pack_policy_sha p.
Proof.
  unfold verify_sha_binding. repeat case_bool_decide; cbn; naive_solver.
Qed.

Lemma lane_stop_None p lane :
  lane_stop p lane = None ↔
  ∃ c, conclusion_for (ci_status p) lane = Some c ∧ conclusion c = Ci_Success.
Proof.
  unfold lane_stop. destruct (conclusion_for (ci_status p) lane) as [c|].
  - destruct (conclusion c) eqn:Hc; cbn [is_green]; split; intros H; try discriminate H;
      solve [by exists c | destruct H as (c' & [= <-] & Hs); congruence].
  - split; [discriminate|]. by intros (c & ? & _).
Qed.

End evidence.
