(* ===== verification/Judge.v ===== *)
(** Judge: the approvals policy, the quorum evaluator, the judge that fuses them
    with the hard stops, freeze windows, the full-auto profile and the drift
    triggers of an issued verdict (jeryu-autonomy: [policy_yaml_types.rs],
    [policy_yaml.rs], [quorum.rs], [judge/], [freeze.rs], [full_auto.rs],
    [rejudge.rs]). YAML parsing is left to serde. *)

From Stdlib Require Import SpecFloat ZArith Ascii.
From S2P Require Import Prelude Text Clock Evidence.

#[export] Instance RiskTier_countable : Countable RiskTier.
Proof.
  refine (inj_countable'
    (λ t, match t with R0 => 0 | R1 => 1 | R2 => 2 | R3 => 3 | R4 => 4 | R5 => 5 end)
    (λ n, match n with 0 => R0 | 1 => R1 | 2 => R2 | 3 => R3 | 4 => R4 | _ => R5 end) _).
  by intros [].
Defined.

(** * The policy files (policy_yaml_types.rs) *)

Record RiskMatcher : Type := {
  paths_match : list string; paths_only_in : list string; conditions : list string;
  max_lines_changed : option N; lines_changed_gte : option N; lines_changed_lte : option N;
  all_files_have_targeted_tests : option bool; any_path_matches_protected : option bool;
  default : bool
}.

Record RiskTierEntry : Type := {
  tier_id : RiskTier; description : string; matchers : list RiskMatcher; auto_merge : bool;
  entry_human_required : bool; entry_fail_closed : bool; tier_reviews : list ReviewerRole
}.

Record RiskPolicy : Type := {
  risk_schema : string; tiers : list RiskTierEntry; evaluation_order : option string
}.

Record ApprovalRules : Type := {
  no_self_approval : bool; exact_sha_required : bool; target_branch_policy_only : bool;
  fail_closed_on_missing_evidence : bool; fail_closed_on_agent_disagreement : bool;
  require_distinct_agent_identities : bool
}.

Definition ApprovalRules_default : ApprovalRules :=
  {| no_self_approval := true; exact_sha_required := true; target_branch_policy_only := true;
     fail_closed_on_missing_evidence := true; fail_closed_on_agent_disagreement := true;
     require_distinct_agent_identities := true |}.

Record HardStopEntry : Type := { entry_name : string; entry_reason : option string }.

Record QuorumEntry : Type := {
  approvals_needed : N; roles : list ReviewerRole; human_required : bool;
  fail_closed : bool; fail_closed_without_human : bool
}.

Record ApprovalsPolicy : Type := {
  approvals_schema : string; invariants : ApprovalRules; hard_stops : list HardStopEntry;
  required_ci_lanes : list string; quorum : gmap RiskTier QuorumEntry;
  verdict_ttl_minutes : option N; re_judge_on : list string
}.

Record CanaryRollbackOn : Type := {
  error_rate_relative_increase : spec_float; p95_latency_relative_increase : spec_float;
  crash_loop : bool; security_signal : bool
}.

Record CanaryRules : Type := {
  initial_percent : N; max_percent_without_human : N; analysis_minutes : N;
  rollback_on : option CanaryRollbackOn
}.

Record NightwatchRules : Type := {
  may_rollback : bool; may_promote : bool; may_pause_pipeline : bool; may_page_human : bool
}.

Record ReleaseBuildRules : Type := {
  build_once : bool; require_sbom : bool; require_slsa_provenance : bool;
  require_artifact_signature : bool; require_rollback_plan : bool
}.

Record ReleasePolicy : Type := {
  release_schema : string; build : ReleaseBuildRules; canary : option CanaryRules;
  nightwatch : option NightwatchRules; release_ready_receipts : list string
}.

Record ProtectedPathsPolicy : Type := {
  protected_schema : string; hard_human : list string; semantic_triggers : list string
}.

Section judge.
Context `{J : Json} `{C : Chrono}.

(** freeze.rs *)
Record FreezeWindow : Type := {
  window_id : string; window_name : string; start : DateTime; window_end : DateTime;
  max_allowed_risk : RiskTier; window_reason : option string; allow_break_glass : bool
}.

Record FreezeWindows : Type := {
  freeze_schema : string; enabled : bool; windows : list FreezeWindow
}.

(** policy_yaml.rs *)
Record PolicyBundle : Type := {
  risk : RiskPolicy; approvals : ApprovalsPolicy; release : ReleasePolicy;
  protected_paths : ProtectedPathsPolicy; freeze : option FreezeWindows
}.

Definition quorum_for (p : PolicyBundle) (tier : RiskTier) : option QuorumEntry :=
  quorum (approvals p) !! tier.

(** * The quorum (quorum.rs) *)

Inductive QuorumDecision : Type := Met | Insufficient | Vetoed | HumanRequired.

Record QuorumOutcome : Type := {
  outcome_decision : QuorumDecision; passing_roles : list ReviewerRole;
  blocking_roles : list ReviewerRole; missing_roles : list ReviewerRole;
  abstaining_roles : list ReviewerRole; outcome_reason : string
}.

(** The first filter: no receipt of the author, by name or by its own admission. *)
Definition not_by_author (rules : ApprovalRules) (author : option string)
    (r : AgentApprovalReceipt) : bool :=
  if no_self_approval rules then
    match author with
    | Some a => negb (bool_decide (agent_id r = a)) && not_author r
    | None => not_author r
    end
  else true.

(** The second filter: [retain] with a set of the agents seen so far. *)
Fixpoint retain_first (seen : gset string) (l : list AgentApprovalReceipt) :
    list AgentApprovalReceipt :=
  match l with
  | [] => []
  | r :: l =>
      if bool_decide (agent_id r ∈ seen) then retain_first seen l
      else r :: retain_first ({[ agent_id r ]} ∪ seen) l
  end.

Definition counted (rules : ApprovalRules) (author : option string)
    (receipts : list AgentApprovalReceipt) : list AgentApprovalReceipt :=
  let l := filter (λ r, not_by_author rules author r = true) receipts in
  if require_distinct_agent_identities rules then retain_first ∅ l else l.

Definition roles_with (d : ReviewDecision) (l : list AgentApprovalReceipt) :
    list ReviewerRole :=
  map role (with_decision d l).

Definition quorum_reason (entry : QuorumEntry) (got : nat) : string :=
  "needed " +:+ show_N (approvals_needed entry) +:+ " approvals (roles "
    +:+ debug_list (map ReviewerRole_debug (roles entry)) +:+ "); got "
    +:+ show_N (N.of_nat got).

Definition evaluate_quorum (tier : RiskTier) (receipts : list AgentApprovalReceipt)
    (policy : ApprovalsPolicy) (author : option string) : QuorumOutcome :=
  let out d passing blocking missing abstaining reason :=
    {| outcome_decision := d; passing_roles := passing; blocking_roles := blocking;
       missing_roles := missing; abstaining_roles := abstaining; outcome_reason := reason |} in
  match quorum policy !! tier with
  | None =>
      out HumanRequired [] [] [] []
        ("missing quorum policy for " +:+ RiskTier_debug tier +:+ "; failing closed")
  | Some entry =>
      let l := counted (invariants policy) author receipts in
      let blocking := roles_with RD_Block l in
      if negb (bool_decide (blocking = [])) then
        out Vetoed [] blocking [] [] "one or more reviewers issued a hard block"
      else
        let abstaining := roles_with RD_Abstain l in
        let passing := roles_with RD_Pass l in
        let missing := filter (λ req, req ∉ passing) (roles entry) in
        if negb (bool_decide (missing = []))
           || (N.of_nat (length passing) <? approvals_needed entry)%N
        then out Insufficient passing blocking missing abstaining
               (quorum_reason entry (length (with_decision RD_Pass l)))
        else if human_required entry
        then out HumanRequired passing blocking missing abstaining
               "policy requires human approval at this tier"
        else out Met passing blocking missing abstaining
               "all required reviewers approved; quorum reached"
  end.

(** * The judge (judge/) *)

Record VerdictReceiptRef : Type := {
  ref_role : ReviewerRole; ref_agent_id : string; receipt_digest : string;
  ref_decision : ReviewDecision; ref_not_author : bool
}.

Record VibeGateVerdict : Type := {
  verdict_id : string; verdict_pack_id : string; pull_request : option string; repo : string;
  target_branch : string; head_sha : string; policy_sha : string;
  evidence_pack_digest : string; verdict_risk : RiskTier; verdict_hard_stops : list string;
  required_reviews : list ReviewerRole; approval_receipts : list VerdictReceiptRef;
  decision : GateDecision; valid_for_head_sha_only : bool; rebind_on_train : bool;
  expires_at : DateTime; created_at : DateTime; signature : Signature
}.

Record JudgeInputs : Type := {
  pack : EvidencePack; receipts : list AgentApprovalReceipt; policy : PolicyBundle;
  in_repo : string; in_target_branch : string; in_pull_request : option string;
  author_agent : option string; external_hard_stops : list HardStop
}.

Definition JudgeInputs_new (p : EvidencePack) (rs : list AgentApprovalReceipt)
    (pol : PolicyBundle) (r branch : string) : JudgeInputs :=
  {| pack := p; receipts := rs; policy := pol; in_repo := r; in_target_branch := branch;
     in_pull_request := None; author_agent := None; external_hard_stops := [] |}.

Record JudgeOutcome : Type := { verdict : VibeGateVerdict; dropped_receipts : list string }.

(** verdict_id.rs: [{:013X}] of the 64-bit time, then the tail of the head. *)
Definition hex_width (n : N) : nat :=
  if (n <? 16 ^ 13)%N then 13 else if (n <? 16 ^ 14)%N then 14
  else if (n <? 16 ^ 15)%N then 15 else 16.

Definition hex_upper_13 (millis : Z) : string :=
  let n := Z.to_N (millis mod Z.of_N u64_modulus) in
  string_map to_ascii_uppercase (hex_digits (hex_width n) n).

Definition head_tail (head : string) : string :=
  string_map to_ascii_uppercase
    (String.substring 0 13 (string_filter is_ascii_alphanumeric (String.rev head))).

Definition mint_verdict_id (now : DateTime) (head : string) : string :=
  let s := "vgv_" +:+ hex_upper_13 (timestamp_millis now) +:+ head_tail head in
  String.substring 0 30 (s +:+ string_repeat "0"%char (30 - String.length s)).

(** Step 1: the receipts bound to the pack. *)
Definition bound (i : JudgeInputs) : list AgentApprovalReceipt :=
  filter (λ r, is_ok (verify_sha_binding (pack i) r) = true) (receipts i).

Definition dropped (i : JudgeInputs) : list string :=
  map receipt_id (filter (λ r, is_ok (verify_sha_binding (pack i) r) = false) (receipts i)).

(** Step 2: every hard stop. *)
Definition hits (i : JudgeInputs) : list HardStop :=
  evaluate (map entry_name (hard_stops (approvals (policy i)))) (pack i) (bound i)
  ++ ci_hard_stops (pack i) (required_ci_lanes (approvals (policy i)))
  ++ external_hard_stops i.

Definition receipt_ref (r : AgentApprovalReceipt) : VerdictReceiptRef :=
  {| ref_role := role r; ref_agent_id := agent_id r;
     receipt_digest := from_option id "sha256:0" (raw_response_sha r);
     ref_decision := receipt_decision r; ref_not_author := not_author r |}.

(** Steps 3 and 4: the quorum's decision. *)
Definition gate_of (d : QuorumDecision) : GateDecision :=
  match d with
  | Met => AllowMerge
  | HumanRequired | Insufficient => RequireHuman
  | Vetoed => Reject
  end.

Definition quorum_outcome (i : JudgeInputs) : QuorumOutcome :=
  evaluate_quorum (pack_risk (pack i)) (bound i) (approvals (policy i)) (author_agent i).

Definition make_verdict (i : JudgeInputs) (now expires : DateTime) (stops : list string)
    (d : GateDecision) : VibeGateVerdict :=
  {| verdict_id := mint_verdict_id now (pack_head_sha (pack i));
     verdict_pack_id := pack_id (pack i); pull_request := in_pull_request i;
     repo := in_repo i; target_branch := in_target_branch i;
     head_sha := pack_head_sha (pack i); policy_sha := pack_policy_sha (pack i);
     evidence_pack_digest := evidence_digest (pack i); verdict_risk := pack_risk (pack i);
     verdict_hard_stops := stops;
     required_reviews := from_option roles [] (quorum_for (policy i) (pack_risk (pack i)));
     approval_receipts := map receipt_ref (bound i); decision := d;
     valid_for_head_sha_only := true; rebind_on_train := true; expires_at := expires;
     created_at := now; signature := unsigned |}.

(** [judge], called at [now]; [None] when the expiry is out of the range of instants. *)
Definition judge (now : DateTime) (i : JudgeInputs) : option JudgeOutcome :=
  let ttl := Z.of_N (from_option id 60%N (verdict_ttl_minutes (approvals (policy i)))) in
  match add_minutes now ttl with
  | None => None
  | Some expires =>
      let v :=
        match hits i with
        | [] => make_verdict i now expires [] (gate_of (outcome_decision (quorum_outcome i)))
        | hs => make_verdict i now expires (map stop_name hs) Reject
        end in
      Some {| verdict := v; dropped_receipts := dropped i |}
  end.

(** * Freeze windows (freeze.rs) *)

(** Shared with full_auto.rs, which repeats it. *)
Definition risk_rank (t : RiskTier) : N :=
  match t with R0 => 0 | R1 => 1 | R2 => 2 | R3 => 3 | R4 => 4 | R5 => 5 end%N.

Definition active_at (f : FreezeWindows) (now : DateTime) : option FreezeWindow :=
  if negb (enabled f) then None
  else find_first (λ w, dt_leb (start w) now && dt_ltb now (window_end w)) (windows f).

Definition freeze_reason (w : FreezeWindow) (r : RiskTier) : string :=
  "freeze window '" +:+ window_name w +:+ "' active until " +:+ to_rfc3339 (window_end w)
    +:+ "; max allowed risk is " +:+ RiskTier_debug (max_allowed_risk w)
    +:+ ", change is " +:+ RiskTier_debug r
    +:+ match window_reason w with Some extra => " (" +:+ extra +:+ ")" | None => "" end.

Definition freeze_check (f : FreezeWindows) (r : RiskTier) (now : DateTime) :
    option HardStop :=
  match active_at f now with
  | None => None
  | Some w =>
      if (risk_rank r <=? risk_rank (max_allowed_risk w))%N then None
      else
        Some (stop "freeze_window_active" (freeze_reason w r)
          (json_object
             [("window_id", json_str (window_id w)); ("window_name", json_str (window_name w));
              ("end", json_str (to_rfc3339 (window_end w)));
              ("max_allowed_risk", json_str (RiskTier_debug (max_allowed_risk w)));
              ("change_risk", json_str (RiskTier_debug r));
              ("allow_break_glass", json_bool (allow_break_glass w))]))
  end.

(** * The full-auto profile (full_auto.rs) *)

Definition FULL_AUTO_SCHEMA : string := "vibegate.full_auto_profile.v1".
Definition FULL_AUTO_MAX_AUTO_TIER : RiskTier := R4.

Inductive FullAutoError : Type :=
  | FA_Parse (e : string)
  | FA_SchemaMismatch (got : string)
  | FA_R5NotFailClosed
  | FA_UnknownTier (got : string)
  | FA_MissingR5Floor.

Definition FullAutoError_to_string (e : FullAutoError) : string :=
  match e with
  | FA_Parse e => "full-auto profile parse error: " +:+ e
  | FA_SchemaMismatch got =>
      "full-auto profile schema mismatch: expected " +:+ FULL_AUTO_SCHEMA +:+ ", got " +:+ got
  | FA_R5NotFailClosed =>
      "full-auto profile may not auto-merge R5: R5 is fail-closed (human required)"
  | FA_UnknownTier got => "full-auto profile declares unknown max_auto_tier: " +:+ got
  | FA_MissingR5Floor =>
      "policy bundle has no R5 quorum entry; the fail-closed floor cannot be guaranteed"
  end.

Record FullAutoDescriptor : Type := {
  fa_schema : string; fa_enabled : bool; max_auto_tier : RiskTier; fa_reason : option string
}.

Record FullAutoProfile : Type := { descriptor : FullAutoDescriptor; bundle : PolicyBundle }.

Definition fa_validate (p : FullAutoProfile) : result unit FullAutoError :=
  if negb (bool_decide (fa_schema (descriptor p) = FULL_AUTO_SCHEMA))
  then Err (FA_SchemaMismatch (fa_schema (descriptor p)))
  else
    match max_auto_tier (descriptor p) with
    | R5 => Err FA_R5NotFailClosed
    | _ =>
        match quorum_for (bundle p) R5 with
        | Some q => if human_required q then Ok tt else Err FA_MissingR5Floor
        | None => Err FA_MissingR5Floor
        end
    end.

Definition with_descriptor (d : FullAutoDescriptor) (b : PolicyBundle) :
    result FullAutoProfile FullAutoError :=
  let p := {| descriptor := d; bundle := b |} in
  match fa_validate p with Ok _ => Ok p | Err e => Err e end.

Definition FullAutoProfile_new (b : PolicyBundle) : result FullAutoProfile FullAutoError :=
  with_descriptor {| fa_schema := FULL_AUTO_SCHEMA; fa_enabled := true;
                     max_auto_tier := FULL_AUTO_MAX_AUTO_TIER; fa_reason := None |} b.

Definition tier_auto_merge_eligible (p : FullAutoProfile) (tier : RiskTier) : bool :=
  if negb (fa_enabled (descriptor p)) then auto_merge_eligible tier
  else
    match tier with
    | R5 => false
    | _ => (risk_rank tier <=? risk_rank (max_auto_tier (descriptor p)))%N
    end.

(** One entry of the derived quorum. *)
Definition relax (max : RiskTier) (tier : RiskTier) (q : QuorumEntry) : QuorumEntry :=
  match tier with
  | R5 => q
  | _ =>
      if (risk_rank tier <=? risk_rank max)%N then
        {| approvals_needed := approvals_needed q; roles := roles q; human_required := false;
           fail_closed := fail_closed q; fail_closed_without_human := false |}
      else q
  end.

Definition apply (p : FullAutoProfile) : PolicyBundle :=
  let b := bundle p in
  if negb (fa_enabled (descriptor p)) then b
  else
    let a := approvals b in
    {| risk := risk b;
       approvals :=
         {| approvals_schema := approvals_schema a; invariants := invariants a;
            hard_stops := hard_stops a; required_ci_lanes := required_ci_lanes a;
            quorum :=
              map_imap (λ t q, Some (relax (max_auto_tier (descriptor p)) t q)) (quorum a);
            verdict_ttl_minutes := verdict_ttl_minutes a; re_judge_on := re_judge_on a |};
       release := release b; protected_paths := protected_paths b; freeze := freeze b |}.

Definition resolve (p : FullAutoProfile) (tier : RiskTier) (d : GateDecision) : GateDecision :=
  match d with
  | Reject => Reject
  | RequireHuman => RequireHuman
  | AllowMerge => if tier_auto_merge_eligible p tier then AllowMerge else RequireHuman
  end.

(** * Drift of an issued verdict (rejudge.rs) *)

Inductive RejudgeReason : Type :=
  | NewCommitOnPr (verdict_head current_head : string)
  | TargetBranchAdvance (verdict_target current_target : string)
  | PolicyChangeOnTarget (verdict_policy current_policy : string)
  | VerdictTtlExpired (expires now : DateTime).

Definition short_name (r : RejudgeReason) : string :=
  match r with
  | NewCommitOnPr _ _ => "new_commit_on_pr"
  | TargetBranchAdvance _ _ => "target_branch_advance"
  | PolicyChangeOnTarget _ _ => "policy_change_on_target"
  | VerdictTtlExpired _ _ => "verdict_ttl_expired"
  end.

Record LiveState : Type := {
  live_head : option string; live_target : option string; live_policy : option string;
  live_now : option DateTime
}.

(** The target branch's position is looked at and deliberately not reported. *)
Definition drift_check (v : VibeGateVerdict) (live : LiveState) : list RejudgeReason :=
  (match live_head live with
   | Some h => if bool_decide (h = head_sha v) then [] else [NewCommitOnPr (head_sha v) h]
   | None => []
   end)
  ++ (match live_policy live with
      | Some p =>
          if bool_decide (p = policy_sha v) then [] else [PolicyChangeOnTarget (policy_sha v) p]
      | None => []
      end)
  ++ (match live_now live with
      | Some now =>
          if dt_ltb (expires_at v) now then [VerdictTtlExpired (expires_at v) now] else []
      | None => []
      end).

Definition must_rejudge (v : VibeGateVerdict) (live : LiveState) : bool :=
  negb (bool_decide (length (drift_check v live) = 0)).

(** * The specification *)

(** A receipt the quorum may count: bound to this very pack, and not by the author. *)
Definition eligible (i : JudgeInputs) (r : AgentApprovalReceipt) : Prop :=
  (evidence_pack_id r = pack_id (pack i) ∧ receipt_head_sha r = pack_head_sha (pack i)
   ∧ receipt_policy_sha r = pack_policy_sha (pack i))
  ∧ (no_self_approval (invariants (approvals (policy i))) = true →
     not_author r = true ∧ author_agent i ≠ Some (agent_id r)).

(** The receipt at position [k] counts: it is the first eligible one of its agent, if
    agents must be distinct. *)
Definition counts (i : JudgeInputs) (k : nat) (r : AgentApprovalReceipt) : Prop :=
  receipts i !! k = Some r ∧ eligible i r
  ∧ (require_distinct_agent_identities (invariants (approvals (policy i))) = true →
     ∀ j r', j < k → receipts i !! j = Some r' → eligible i r' → agent_id r' ≠ agent_id r).

(** The quorum entry of the pack's tier. *)
Definition tier_quorum (i : JudgeInputs) : option QuorumEntry :=
  quorum (approvals (policy i)) !! pack_risk (pack i).

(** Something speaks against the change: a named condition triggers or is unknown, a
    required lane is absent or not green in its first report, the caller found a
    hard stop, or a counted receipt blocks. *)
Definition vetoed (i : JudgeInputs) : Prop :=
  (∃ h, h ∈ hard_stops (approvals (policy i))
        ∧ is_Some (evaluate_one (pack i) (bound i) (entry_name h)))
  ∨ (∃ lane, lane ∈ required_ci_lanes (approvals (policy i))
             ∧ ¬ ∃ c, conclusion_for (ci_status (pack i)) lane = Some c
                      ∧ conclusion c = Ci_Success)
  ∨ external_hard_stops i ≠ []
  ∨ (is_Some (tier_quorum i) ∧ ∃ k r, counts i k r ∧ receipt_decision r = RD_Block).

(** The reviewers agree: every required role passed, and enough receipts pass. *)
Definition reviewed (i : JudgeInputs) (q : QuorumEntry) : Prop :=
  (∀ ro, ro ∈ roles q → ∃ k r, counts i k r ∧ receipt_decision r = RD_Pass ∧ role r = ro)
  ∧ ∃ ks, NoDup ks ∧ N.of_nat (length ks) = approvals_needed q
          ∧ ∀ k, k ∈ ks → ∃ r, counts i k r ∧ receipt_decision r = RD_Pass.

(** * The counted receipts *)

Section pick.
Variables (ok : AgentApprovalReceipt → bool) (distinct : bool).

(** The three filters in one pass. *)
Fixpoint pick (seen : gset string) (l : list AgentApprovalReceipt) :
    list AgentApprovalReceipt :=
  match l with
  | [] => []
  | r :: l =>
      if ok r && negb (distinct && bool_decide (agent_id r ∈ seen))
      then r :: pick ({[ agent_id r ]} ∪ seen) l
      else pick seen l
  end.

Definition picked (seen : gset string) (l : list AgentApprovalReceipt) (k : nat)
    (r : AgentApprovalReceipt) : Prop :=
  l !! k = Some r ∧ ok r = true
  ∧ (distinct = true →
     (agent_id r ∉ seen)
     ∧ ∀ j r', j < k → l !! j = Some r' → ok r' = true → agent_id r' ≠ agent_id r).

Lemma picked_zero seen r l :
  picked seen (r :: l) 0 r ↔ ok r && negb (distinct && bool_decide (agent_id r ∈ seen)) = true.
Proof.
  unfold picked. rewrite andb_true_iff, negb_true_iff, andb_false_iff, bool_decide_eq_false.
  split.
  - intros (_ & Hok & Hd). split; [done|]. destruct distinct; [right|by left].
    by apply Hd.
  - intros [Hok Hd]. split_and!; [done|done|]. intros ->. destruct Hd as [?|Hd]; [done|].
    split; [done|lia].
Qed.

Lemma picked_succ seen r l k x :
  picked seen (r :: l) (S k) x ↔
  picked (if ok r && negb (distinct && bool_decide (agent_id r ∈ seen))
          then {[ agent_id r ]} ∪ seen else seen) l k x.
Proof.
  unfold picked. cbn [lookup list_lookup]. split; intros (Hl & Hok & Hd); split_and!; try done.
  - intros Hdist. destruct (Hd Hdist) as [Hns Hfirst]. split.
    + destruct (ok r) eqn:Hr; cbn; [|done]. rewrite Hdist. cbn.
      case_bool_decide; [done|]. cbn. rewrite elem_of_union, elem_of_singleton.
      intros [?|?]; [|done]. by apply (Hfirst 0 r); [lia|..].
    + intros j r' Hj. apply (Hfirst (S j) r'). lia.
  - intros Hdist. destruct (Hd Hdist) as [Hns Hfirst]. rewrite Hdist in Hns. split.
    + destruct (ok r); cbn in Hns; [|done]. case_bool_decide; [done|].
      cbn in Hns. set_solver.
    + intros [|j] r' Hj Hl' Hr'; [|apply (Hfirst j r'); [lia|done..]].
      injection Hl' as <-. rewrite Hr' in Hns. cbn in Hns.
      case_bool_decide; cbn in Hns; [congruence|set_solver].
Qed.

(** The picked receipts sit at distinct positions, and nothing else is picked. *)
Lemma pick_positions seen l :
  ∃ ks, NoDup ks ∧ Forall2 (picked seen l) ks (pick seen l)
        ∧ ∀ k r, picked seen l k r → k ∈ ks.
Proof.
  revert seen. induction l as [|r l IH]; intros seen; cbn [pick].
  { exists []. split_and!; [constructor|constructor|]. by intros k r [? _]. }
  set (b := ok r && negb (distinct && bool_decide (agent_id r ∈ seen))).
  destruct (IH (if b then {[ agent_id r ]} ∪ seen else seen)) as (ks & Hnd & Hall & Hc).
  assert (Hshift : ∀ ks', Forall2 (picked seen (r :: l)) (map S ks) ks' ↔
                   Forall2 (picked (if b then {[ agent_id r ]} ∪ seen else seen) l) ks ks').
  { intros ks'. rewrite Forall2_fmap_l. split; intros H; (eapply Forall2_impl; [exact H|]);
      intros k x Hp; by apply picked_succ. }
  assert (Hnd' : NoDup (map S ks)) by (by apply NoDup_fmap_2; [apply _|]).
  assert (Hc' : ∀ k x, picked seen (r :: l) (S k) x → S k ∈ map S ks).
  { intros k x Hp%picked_succ. apply list_elem_of_fmap. exists k. eauto. }
  destruct b eqn:Hb.
  - exists (0 :: map S ks). split_and!.
    + constructor; [|done]. rewrite list_elem_of_fmap. by intros (? & ? & _).
    + constructor; [by apply picked_zero|]. by apply Hshift.
    + intros [|k] x Hp; [constructor|]. apply elem_of_cons. right. by eapply Hc'.
  - exists (map S ks). split_and!; [done|by apply Hshift|].
    intros [|k] x Hp; [|by eapply Hc'].
    assert (x = r) as -> by (destruct Hp as [[= ->] _]; done).
    apply picked_zero in Hp. unfold b in Hb. congruence.
Qed.

End pick.

Definition eligible_b (i : JudgeInputs) (r : AgentApprovalReceipt) : bool :=
  is_ok (verify_sha_binding (pack i) r)
  && not_by_author (invariants (approvals (policy i))) (author_agent i) r.

Lemma eligible_b_spec i r : eligible_b i r = true ↔ eligible i r.
Proof.
  unfold eligible_b, eligible, not_by_author. rewrite andb_true_iff, verify_sha_binding_ok.
  apply and_iff_compat_l. destruct (no_self_approval _); [|naive_solver].
  destruct (author_agent i) as [a|]; [|naive_solver].
  rewrite andb_true_iff, negb_true_iff, bool_decide_eq_false. split.
  - intros [Hne Hna] _. split; [done|]. by intros [= ->].
  - intros H. destruct (H eq_refl) as [Hna Hne]. split; [congruence|done].
Qed.

Lemma retain_first_pick ok seen l :
  retain_first seen (filter (λ r, ok r = true) l) = pick ok true seen l.
Proof.
  revert seen. induction l as [|r l IH]; intros seen; [done|].
  cbn [pick]. destruct (ok r) eqn:Hok; cbn [andb].
  - rewrite filter_cons_True by done. cbn [retain_first].
    case_bool_decide; cbn [negb]; by rewrite IH.
  - rewrite filter_cons_False by congruence. apply IH.
Qed.

Lemma filter_pick ok seen l : filter (λ r, ok r = true) l = pick ok false seen l.
Proof.
  revert seen. induction l as [|r l IH]; intros seen; [done|].
  cbn [pick]. destruct (ok r) eqn:Hok; cbn [andb negb].
  - rewrite filter_cons_True by done. by rewrite <-IH.
  - rewrite filter_cons_False by congruence. apply IH.
Qed.

Definition counted_of (i : JudgeInputs) : list AgentApprovalReceipt :=
  counted (invariants (approvals (policy i))) (author_agent i) (bound i).

Lemma counted_pick i :
  counted_of i =
  pick (eligible_b i) (require_distinct_agent_identities (invariants (approvals (policy i))))
    ∅ (receipts i).
Proof.
  unfold counted_of, counted, bound.
  assert (Hf : filter (λ r, not_by_author (invariants (approvals (policy i)))
                              (author_agent i) r = true)
                 (filter (λ r, is_ok (verify_sha_binding (pack i) r) = true) (receipts i))
               = filter (λ r, eligible_b i r = true) (receipts i)).
  { rewrite list_filter_filter. apply list_filter_iff. intros r. unfold eligible_b.
    rewrite andb_true_iff. tauto. }
  rewrite Hf. destruct (require_distinct_agent_identities _).
  - apply retain_first_pick.
  - apply filter_pick.
Qed.

Lemma picked_counts i k r :
  picked (eligible_b i)
    (require_distinct_agent_identities (invariants (approvals (policy i)))) ∅ (receipts i) k r
  ↔ counts i k r.
Proof.
  unfold picked, counts. rewrite eligible_b_spec. setoid_rewrite eligible_b_spec.
  split; intros (Hl & He & Hd); split_and!; try done; intros Hdist;
    specialize (Hd Hdist); set_solver.
Qed.

Lemma counted_positions i :
  ∃ ks, NoDup ks ∧ Forall2 (counts i) ks (counted_of i) ∧ ∀ k r, counts i k r → k ∈ ks.
Proof.
  rewrite counted_pick. destruct (pick_positions (eligible_b i)
    (require_distinct_agent_identities (invariants (approvals (policy i)))) ∅ (receipts i))
    as (ks & Hnd & Hall & Hc).
  exists ks. split_and!; [done| |].
  - eapply Forall2_impl; [exact Hall|]. intros k r. by apply picked_counts.
  - intros k r Hk%picked_counts. by eapply Hc.
Qed.

Lemma elem_of_counted i r : r ∈ counted_of i ↔ ∃ k, counts i k r.
Proof.
  destruct (counted_positions i) as (ks & _ & Hall & Hc). split.
  - intros Hr. apply list_elem_of_lookup in Hr as [n Hn].
    destruct (Forall2_lookup_r _ _ _ _ _ Hall Hn) as (k & _ & Hk). by exists k.
  - intros [k Hk]. specialize (Hc _ _ Hk). apply list_elem_of_lookup in Hc as [n Hn].
    destruct (Forall2_lookup_l _ _ _ _ _ Hall Hn) as (r' & Hr' & Hk').
    assert (r' = r) as -> by (destruct Hk as [H1 _], Hk' as [H2 _]; congruence).
    apply list_elem_of_lookup. by exists n.
Qed.

(** The positions of the counted receipts with a given decision. *)
Lemma decided_positions i d :
  ∃ ks, NoDup ks ∧ length ks = length (with_decision d (counted_of i))
        ∧ (∀ k, k ∈ ks ↔ ∃ r, counts i k r ∧ receipt_decision r = d).
Proof.
  destruct (counted_positions i) as (ks & Hnd & Hall & Hc).
  assert (∃ ks', NoDup ks' ∧ length ks' = length (with_decision d (counted_of i))
           ∧ ∀ k, k ∈ ks' ↔ k ∈ ks ∧ ∃ r, counts i k r ∧ receipt_decision r = d)
    as (ks' & Hnd' & Hlen & Hin).
  { clear Hc. induction Hall as [|k r ks l Hk Hall IH].
    { exists []. split_and!; [constructor|done|]. set_solver. }
    apply NoDup_cons in Hnd as [Hk0 Hnd]. destruct (IH Hnd) as (ks' & Hnd' & Hlen & Hin).
    assert (Hrec : (∃ x, counts i k x ∧ receipt_decision x = d) ↔ receipt_decision r = d).
    { split; [|by exists r]. intros (x & [Hx _] & Hd). destruct Hk as [Hr _]. congruence. }
    unfold with_decision. rewrite filter_cons. case_decide as Hd.
    - exists (k :: ks'). split_and!.
      + constructor; [|done]. rewrite Hin. tauto.
      + cbn. by f_equal.
      + intros n. rewrite !elem_of_cons, Hin. split; [|naive_solver].
        intros [->|[??]]; [|by auto]. split; [by left|]. by apply Hrec.
    - exists ks'. split_and!; [done|done|]. intros n. rewrite elem_of_cons, Hin.
      split; [tauto|]. intros [[->|?] Hn]; [|done]. by apply Hrec in Hn. }
  exists ks'. split_and!; [done|done|]. intros k. rewrite Hin. split; [tauto|].
  intros (r & Hr & Hd). split; [by eapply Hc|by exists r].
Qed.

(** * The decision *)

Lemma hits_nil i :
  hits i = [] ↔
  (∀ h, h ∈ hard_stops (approvals (policy i)) →
        evaluate_one (pack i) (bound i) (entry_name h) = None)
  ∧ (∀ lane, lane ∈ required_ci_lanes (approvals (policy i)) → lane_stop (pack i) lane = None)
  ∧ external_hard_stops i = [].
Proof.
  unfold hits, evaluate, ci_hard_stops. rewrite !app_nil, !omap_nil.
  apply and_iff_compat_r. split.
  - intros Hall h Hh. apply Hall, list_elem_of_fmap. eauto.
  - intros Hall x (h & -> & Hh)%list_elem_of_fmap. by apply Hall.
Qed.

Lemma hits_vetoed i : hits i ≠ [] → vetoed i.
Proof.
  intros Hh. unfold vetoed.
  destruct (decide (Forall (λ h, evaluate_one (pack i) (bound i) (entry_name h) = None)
                           (hard_stops (approvals (policy i))))) as [H1|H1];
    [|left; apply not_Forall_Exists, Exists_exists in H1 as (h & Hin & Hs);
      [exists h; split; [done|]; by apply not_eq_None_Some | apply _]].
  destruct (decide (Forall (λ l, lane_stop (pack i) l = None)
                           (required_ci_lanes (approvals (policy i))))) as [H2|H2];
    [|right; left; apply not_Forall_Exists, Exists_exists in H2 as (l & Hin & Hs);
      [exists l; split; [done|]; by rewrite <-lane_stop_None | apply _]].
  right; right; left. intros He. apply Hh, hits_nil. rewrite Forall_forall in H1. by rewrite Forall_forall in H2.
Qed.

Lemma blocking_some i :
  roles_with RD_Block (counted_of i) ≠ [] ↔
  ∃ k r, counts i k r ∧ receipt_decision r = RD_Block.
Proof.
  unfold roles_with, with_decision. split.
  - destruct (filter _ _) as [|r l] eqn:Hf; [done|]. intros _.
    assert (Hin : r ∈ filter (λ r, receipt_decision r = RD_Block) (counted_of i))
      by (rewrite Hf; constructor).
    apply list_elem_of_filter in Hin as [Hd [k Hk]%elem_of_counted]. eauto.
  - intros (k & r & Hk & Hd) Hnil%fmap_nil_inv.
    assert (Hin : r ∈ filter (λ r, receipt_decision r = RD_Block) (counted_of i)).
    { apply list_elem_of_filter. split; [done|]. apply elem_of_counted. eauto. }
    rewrite Hnil in Hin. by apply elem_of_nil in Hin.
Qed.

Lemma hits_nil_vetoed i :
  hits i = [] →
  vetoed i ↔ is_Some (tier_quorum i) ∧ ∃ k r, counts i k r ∧ receipt_decision r = RD_Block.
Proof.
  intros (H1 & H2 & H3)%hits_nil. unfold vetoed. split; [|by auto].
  intros [(h & Hin & [x Hx])|[(l & Hin & Hl)|[?|?]]]; [..|done|done].
  - by rewrite (H1 _ Hin) in Hx.
  - destruct Hl. apply lane_stop_None. by apply H2.
Qed.

Lemma elem_of_passing i ro :
  ro ∈ roles_with RD_Pass (counted_of i) ↔
  ∃ k r, counts i k r ∧ receipt_decision r = RD_Pass ∧ role r = ro.
Proof.
  unfold roles_with, with_decision. split.
  - intros (r & -> & [Hd [k Hk]%elem_of_counted]%list_elem_of_filter)%list_elem_of_fmap. eauto.
  - intros (k & r & Hk & Hd & <-). apply list_elem_of_fmap_2, list_elem_of_filter.
    split; [done|]. apply elem_of_counted. eauto.
Qed.

Lemma reviewed_spec i q :
  reviewed i q ↔
  filter (λ req, req ∉ roles_with RD_Pass (counted_of i)) (roles q) = []
  ∧ (approvals_needed q ≤ N.of_nat (length (roles_with RD_Pass (counted_of i))))%N.
Proof.
  unfold reviewed. apply Morphisms_Prop.and_iff_morphism.
  - rewrite <-Forall_forall.
    setoid_rewrite <-elem_of_passing.
    induction (roles q) as [|ro l IH]; [done|].
    rewrite Forall_cons, IH, filter_cons. case_decide; naive_solver.
  - destruct (decided_positions i RD_Pass) as (ks & Hnd & Hlen & Hin).
    unfold roles_with. rewrite length_fmap, <-Hlen. split.
    + intros (ks' & Hnd' & <- & Hall).
      assert (length ks' ≤ length ks); [|lia].
      apply submseteq_length, NoDup_submseteq; [done|]. intros k Hk. by apply Hin, Hall.
    + intros Hle. exists (take (N.to_nat (approvals_needed q)) ks). split_and!.
      * by apply sublist_NoDup with ks, sublist_take.
      * rewrite length_take. lia.
      * intros k Hk. apply Hin. eapply elem_of_sublist; [exact Hk|apply sublist_take].
Qed.

Lemma quorum_met i :
  gate_of (outcome_decision (quorum_outcome i)) = AllowMerge ↔
  (¬ ∃ k r, counts i k r ∧ receipt_decision r = RD_Block)
  ∧ ∃ q, tier_quorum i = Some q ∧ human_required q = false ∧ reviewed i q.
Proof.
  unfold quorum_outcome, evaluate_quorum. fold (tier_quorum i) (counted_of i).
  rewrite <-blocking_some. setoid_rewrite reviewed_spec.
  destruct (tier_quorum i) as [q|]; [|cbn; split; [done|]; by intros (_ & ? & ? & _)].
  case_bool_decide as Hb; cbn [negb].
  2: { split; [done|]. by intros [? _]. }
  case_bool_decide as Hm; cbn [negb orb].
  2: { split; [done|]. by intros (_ & ? & [= <-] & _ & ? & _). }
  destruct (N.ltb_spec (N.of_nat (length (roles_with RD_Pass (counted_of i))))
                       (approvals_needed q)) as [Hl|Hl].
  { split; [done|]. intros (_ & ? & [= <-] & _ & _ & ?). lia. }
  destruct (human_required q) eqn:Hh; cbn.
  - split; [done|]. intros (_ & ? & [= <-] & ? & _). congruence.
  - split; [|done]. intros _. split; [by intros []|]. by exists q.
Qed.

Lemma quorum_vetoed i :
  gate_of (outcome_decision (quorum_outcome i)) = Reject ↔
  is_Some (tier_quorum i) ∧ ∃ k r, counts i k r ∧ receipt_decision r = RD_Block.
Proof.
  unfold quorum_outcome, evaluate_quorum. fold (tier_quorum i) (counted_of i).
  rewrite <-blocking_some.
  destruct (tier_quorum i) as [q|]; [|cbn; split; [done|]; by intros [[??] _]].
  case_bool_decide as Hb; cbn [negb].
  - split; [|by intros [_ []]].
    destruct (_ || _); [done|]. by destruct (human_required q).
  - done.
Qed.

(** C35: the judge answers unless the verdict's expiry is out of range, and its answer is
    the policy's. It rejects exactly when something speaks against the change (a named
    condition, a required lane, a stop of the caller, a counted reviewer), and allows the
    merge exactly when nothing does, the tier has a quorum that asks for no human, every
    required role passed and enough counted receipts pass. The verdict is bound to the
    head and policy of the pack. *)
Theorem judge_spec now i :
  (judge now i = None ↔
   add_minutes now (Z.of_N (from_option id 60%N (verdict_ttl_minutes (approvals (policy i)))))
   = None)
  ∧ ∀ o, judge now i = Some o →
    (decision (verdict o) = Reject ↔ vetoed i)
    ∧ (decision (verdict o) = AllowMerge ↔
       ¬ vetoed i ∧ ∃ q, tier_quorum i = Some q ∧ human_required q = false ∧ reviewed i q)
    ∧ head_sha (verdict o) = pack_head_sha (pack i)
    ∧ policy_sha (verdict o) = pack_policy_sha (pack i)
    ∧ verdict_hard_stops (verdict o) = map stop_name (hits i).
Proof.
  unfold judge. destruct (add_minutes now _) as [expires|]; [|by split].
  split; [done|]. intros o [= <-]. cbn [verdict].
  destruct (hits i) as [|h hs] eqn:Hh; cbn [decision make_verdict].
  - rewrite (hits_nil_vetoed i Hh), quorum_met, quorum_vetoed. split_and!; [done| |done..].
    split.
    + intros [Hn Hq]. split; [by intros [_ ?]|done].
    + intros [Hn (q & Hq & Hr)]. split; [|by exists q]. intros Hb. apply Hn.
      rewrite Hq. by split.
  - assert (Hv : vetoed i) by (apply hits_vetoed; by rewrite Hh).
    split_and!; try done. split; [done|]. by intros [? _].
Qed.

(** The same case under another policy. *)
Definition with_policy (i : JudgeInputs) (p : PolicyBundle) : JudgeInputs :=
  {| pack := pack i; receipts := receipts i; policy := p; in_repo := in_repo i;
     in_target_branch := in_target_branch i; in_pull_request := in_pull_request i;
     author_agent := author_agent i; external_hard_stops := external_hard_stops i |}.

Lemma judge_decision now i o :
  judge now i = Some o →
  decision (verdict o) =
    match hits i with [] => gate_of (outcome_decision (quorum_outcome i)) | _ => Reject end
  ∧ verdict_hard_stops (verdict o) = map stop_name (hits i).
Proof.
  unfold judge. destruct (add_minutes now _); [|done]. intros [= <-].
  cbn [verdict]. by destruct (hits i).
Qed.

(** * Freeze windows *)

Definition within (now : DateTime) (w : FreezeWindow) : bool :=
  dt_leb (start w) now && dt_ltb now (window_end w).

Lemma freeze_check_Some f r now h :
  freeze_check f r now = Some h → stop_name h = "freeze_window_active".
Proof.
  unfold freeze_check. destruct (active_at f now); [|done]. case_match; [done|].
  by intros [= <-].
Qed.

(** A freeze window bites exactly when freezing is enabled and the first window that
    contains the instant caps the risk below the change's tier; and once its stop is
    handed to the judge, the verdict is a rejection that names the freeze, whatever the
    reviewers said. *)
Theorem freeze_blocks f r now :
  (is_Some (freeze_check f r now) ↔
   enabled f = true
   ∧ ∃ l1 w l2, windows f = l1 ++ w :: l2 ∧ within now w = true
                ∧ Forall (λ w', within now w' = false) l1
                ∧ (risk_rank (max_allowed_risk w) < risk_rank r)%N)
  ∧ ∀ h i t o, freeze_check f r now = Some h → h ∈ external_hard_stops i →
      judge t i = Some o →
      decision (verdict o) = Reject
      ∧ "freeze_window_active" ∈ verdict_hard_stops (verdict o).
Proof.
  split.
  - unfold freeze_check, active_at. destruct (enabled f); cbn [negb];
      [|split; [by intros [??]|by intros [? _]]].
    destruct (find_first _ (windows f)) as [w|] eqn:Hf.
    + apply find_first_Some in Hf as Hw. destruct Hw as (l1 & l2 & Hw & Hin & Hl1).
      assert (Huniq : ∀ l1' w' l2', windows f = l1' ++ w' :: l2' → within now w' = true →
                Forall (λ x, within now x = false) l1' → w' = w).
      { intros l1' w' l2' H1 H2 H3.
        assert (Hf' : find_first (within now) (windows f) = Some w')
          by (apply find_first_Some; eauto).
        unfold within in Hf'. congruence. }
      destruct (N.leb_spec (risk_rank r) (risk_rank (max_allowed_risk w))) as [Hr|Hr].
      * split; [by intros [??]|]. intros (_ & l1' & w' & l2' & H1 & H2 & H3 & H4).
        rewrite (Huniq _ _ _ H1 H2 H3) in H4. lia.
      * split; [|done]. intros _. split; [done|]. by exists l1, w, l2.
    + split; [by intros [??]|]. intros (_ & l1 & w & l2 & H1 & H2 & H3 & _).
      assert (Hf' : find_first (within now) (windows f) = Some w)
        by (apply find_first_Some; eauto).
      unfold within in Hf'. congruence.
  - intros h i t o Hh Hin (Hd & Hs)%judge_decision.
    assert (Hhits : h ∈ hits i) by (unfold hits; rewrite !elem_of_app; auto).
    rewrite Hs, Hd. split.
    + destruct (hits i); [by apply elem_of_nil in Hhits|done].
    + rewrite <-(freeze_check_Some _ _ _ _ Hh). by apply list_elem_of_fmap_2.
Qed.

(** * The full-auto profile *)

Lemma with_descriptor_ok d b p :
  with_descriptor d b = Ok p →
  p = {| descriptor := d; bundle := b |} ∧ fa_schema d = FULL_AUTO_SCHEMA
  ∧ max_auto_tier d ≠ R5 ∧ ∃ q, quorum_for b R5 = Some q ∧ human_required q = true.
Proof.
  unfold with_descriptor, fa_validate. cbn [descriptor bundle].
  case_bool_decide as Hs; cbn [negb]; [|done].
  destruct (decide (max_auto_tier d = R5)) as [Hm|Hm]; [by rewrite Hm|].
  intros H.
  assert (Hq : ∃ q, quorum_for b R5 = Some q ∧ human_required q = true).
  { destruct (quorum_for b R5) as [q|]; [|by destruct (max_auto_tier d)].
    exists q. split; [done|]. destruct (human_required q); [done|].
    by destruct (max_auto_tier d). }
  destruct Hq as (q & Hq & Hh). rewrite Hq, Hh in H. split_and!; [|done..|by exists q].
  destruct (max_auto_tier d); congruence.
Qed.

(** The derived policy differs from its source in the relaxed quorum entries only. *)
Lemma apply_approvals p i :
  policy i = bundle p →
  let i' := with_policy i (apply p) in
  hits i' = hits i ∧ (∀ k r, counts i' k r ↔ counts i k r)
  ∧ tier_quorum i' =
      (if fa_enabled (descriptor p)
       then relax (max_auto_tier (descriptor p)) (pack_risk (pack i)) <$> tier_quorum i
       else tier_quorum i).
Proof.
  destruct i. intros Hp. cbn in Hp. subst. unfold apply.
  destruct (fa_enabled (descriptor p)); cbn [negb]; [|done].
  split_and!; [done|done|]. unfold tier_quorum; cbn.
  rewrite map_lookup_imap. by destruct (_ !! _).
Qed.

Lemma relax_reviewers max t q :
  roles (relax max t q) = roles q ∧ approvals_needed (relax max t q) = approvals_needed q.
Proof. unfold relax. by destruct t; try case_match. Qed.

Lemma relax_human max t q :
  human_required (relax max t q) = false →
  human_required q = false ∨ (t ≠ R5 ∧ (risk_rank t ≤ risk_rank max)%N).
Proof.
  unfold relax. destruct t; try (by left);
    (case_match eqn:Hm; [apply N.leb_le in Hm; right; done|by left]).
Qed.

Lemma relax_keeps max t q : human_required q = false → human_required (relax max t q) = false.
Proof. unfold relax. by destruct t; try case_match. Qed.

(** Full-auto relaxes the human floor and nothing else. Under the derived policy the
    judge reports the same hard stops and rejects the same changes; it allows what it
    allowed before, and besides only changes of an enabled profile up to its ceiling,
    never tier R5; [resolve] lets an approval through for eligible tiers only. *)
Theorem full_auto_floor d b p i now o o' :
  with_descriptor d b = Ok p → policy i = b →
  judge now i = Some o → judge now (with_policy i (apply p)) = Some o' →
  verdict_hard_stops (verdict o') = verdict_hard_stops (verdict o)
  ∧ (decision (verdict o') = Reject ↔ decision (verdict o) = Reject)
  ∧ (decision (verdict o) = AllowMerge → decision (verdict o') = AllowMerge)
  ∧ (decision (verdict o') = AllowMerge →
     pack_risk (pack i) ≠ R5
     ∧ (decision (verdict o) = AllowMerge
        ∨ fa_enabled d = true
          ∧ (risk_rank (pack_risk (pack i)) ≤ risk_rank (max_auto_tier d))%N))
  ∧ (∀ tier dec, resolve p tier dec = AllowMerge ↔
       dec = AllowMerge ∧ tier_auto_merge_eligible p tier = true)
  ∧ tier_auto_merge_eligible p R5 = false.
Proof.
  intros (-> & _ & _ & q5 & Hq5 & Hh5)%with_descriptor_ok Hb
    [Hd Hs]%judge_decision [Hd' Hs']%judge_decision.
  destruct (apply_approvals {| descriptor := d; bundle := b |} i Hb) as (Hhits & Hc & Hq).
  set (i' := with_policy i _) in *. cbn in Hq.
  assert (HB : (∃ k r, counts i' k r ∧ receipt_decision r = RD_Block) ↔
               ∃ k r, counts i k r ∧ receipt_decision r = RD_Block)
    by (by setoid_rewrite Hc).
  assert (HR : ∀ q q', roles q' = roles q → approvals_needed q' = approvals_needed q →
                 reviewed i' q' ↔ reviewed i q).
  { intros q q' H1 H2. unfold reviewed. rewrite H1, H2. by setoid_rewrite Hc. }
  rewrite Hs', Hs, Hhits. split; [done|].
  assert (Hres : ∀ tier dec, resolve {| descriptor := d; bundle := b |} tier dec = AllowMerge ↔
       dec = AllowMerge
       ∧ tier_auto_merge_eligible {| descriptor := d; bundle := b |} tier = true).
  { intros tier []; cbn [resolve]; [|by split; [|intros [? _]]..].
    destruct (tier_auto_merge_eligible _ tier); split; [done|done|done|].
    by intros [_ ?]. }
  assert (HR5 : tier_auto_merge_eligible {| descriptor := d; bundle := b |} R5 = false)
    by (unfold tier_auto_merge_eligible; cbn; by case_match).
  rewrite Hd, Hd', Hhits. destruct (hits i); [|split_and!; try done; by intros].
  rewrite !quorum_met, !quorum_vetoed, HB.
  assert (Hsome : is_Some (tier_quorum i') ↔ is_Some (tier_quorum i)).
  { rewrite Hq. case_match; [apply fmap_is_Some|done]. }
  split_and!; [by rewrite Hsome| | |done|done].
  - intros (Hn & q & Hqi & Hh & Hr). split; [done|]. rewrite Hq, Hqi.
    destruct (fa_enabled d); cbn;
      [|exists q; split_and!; [done|done|by apply (HR q q)]].
    exists (relax (max_auto_tier d) (pack_risk (pack i)) q).
    split_and!; [done|by apply relax_keeps|]. by apply (HR q); [apply relax_reviewers..|].
  - intros (Hn & q' & Hq' & Hh & Hr). rewrite Hq in Hq'. subst b.
    assert (Hfloor : ∀ q, tier_quorum i = Some q → pack_risk (pack i) = R5 →
                     human_required q = true).
    { intros q Hqi HR5'. unfold tier_quorum in Hqi. rewrite HR5' in Hqi.
      unfold quorum_for in Hq5. congruence. }
    destruct (fa_enabled d).
    + destruct (tier_quorum i) as [q|] eqn:Hqi; [|done]. injection Hq' as <-.
      assert (Hne : pack_risk (pack i) ≠ R5).
      { intros HR5'. specialize (Hfloor q eq_refl HR5'). rewrite HR5' in Hh.
        cbn [relax] in Hh. congruence. }
      split; [done|]. apply relax_human in Hh as [Hh|[_ Hle]]; [left|by right].
      split; [done|]. exists q. split_and!; [done|done|].
      by apply (HR q) in Hr; [|apply relax_reviewers..].
    + split; [intros HR5'; specialize (Hfloor q' Hq' HR5'); congruence|left].
      split; [done|]. exists q'. split_and!; [done|done|]. by apply (HR q' q').
Qed.

End judge.

(** * Samples *)

(** JSON as its text, and instants as milliseconds with chrono's range. *)
Module GateSamples.
Definition quoted (s : string) : string := dquote +:+ s +:+ dquote.

#[export] Instance text_json : Json :=
  {| Value := string; json_null := "null"; json_bool := show_bool; json_str := quoted;
     json_strs := λ l, "[" +:+ join "," (map quoted l) +:+ "]"; json_u32 := show_N;
     json_u64 := show_N; json_f64 := show_f64_2;
     json_object := λ l,
       "{" +:+ join "," (map (λ kv : string * string, quoted kv.1 +:+ ":" +:+ kv.2) l) +:+ "}" |}.

Definition in_time_range (t : Z) : option Z :=
  if (-8334601228800000 <=? t)%Z && (t <=? 8210266876799999)%Z then Some t else None.

#[export] Instance millis_chrono : Chrono :=
  {| DateTime := Z; DateTime_eq_dec := _; dt_leb := Z.leb;
     add_minutes := λ t m, in_time_range (t + 60000 * m);
     add_seconds := λ t s, in_time_range (t + 1000 * s);
     timestamp_millis := id; to_rfc3339 := λ t, show_N (Z.to_N t) |}.

#[export] Instance millis_chrono_spec : ChronoSpec.
Proof. split; cbn; lia. Defined.

Definition at_ms (z : Z) : DateTime := z.

Definition sample_pack (t : RiskTier) (files : list ChangedFile) (ci : list CiCheck) :
    EvidencePack :=
  {| pack_id := "ep-1"; intent_id := None; pack_repo := "org/p"; source_branch := "agent/x";
     pack_target_branch := "main"; pack_head_sha := "aaaa1111"; base_sha := "bbbb";
     pack_policy_sha := "cccc"; pack_author_agent := Some "builder"; pack_risk := t;
     changed_files := files; claims := [];
     tests := {| targeted := []; full_required := false; skipped := [];
                 coverage_delta := None |};
     security := {| sast := Scan_Passed; dependency_scan := Scan_Passed;
                    secret_scan := Scan_Passed |};
     supply_chain := {| dependency_changes := []; external_code_sources := [];
                        lockfile_only_change := false |};
     rollback := {| strategy := RevertCommit; feature_flag := None;
                    data_migration_reversible := Some true |};
     gate_receipts := []; ci_status := ci; evidence_digest := "sha256:1";
     pack_created_at := 0%Z;
     pack_signature := Some {| sig_key_id := "k"; sig_algo := "ed25519"; sig_value := "v" |} |}.

Definition sample_receipt (agent : string) (ro : ReviewerRole) (d : ReviewDecision) :
    AgentApprovalReceipt :=
  {| receipt_id := "aar-" +:+ agent; evidence_pack_id := "ep-1"; role := ro; agent_id := agent;
     prompt_sha := None; provider := None; model := None; temperature := None; seed := None;
     raw_response_sha := None; receipt_head_sha := "aaaa1111"; receipt_policy_sha := "cccc";
     receipt_decision := d; receipt_reason := None; findings := []; not_author := true;
     tokens := {| prompt := 0; completion := 0 |}; receipt_created_at := 0%Z;
     receipt_signature := unsigned |}.

Definition entry (human : bool) (n : N) : QuorumEntry :=
  {| approvals_needed := n; roles := [RoleSecurity]; human_required := human;
     fail_closed := true; fail_closed_without_human := human |}.

Definition sample_policy (stops : list string) : PolicyBundle :=
  {| risk := {| risk_schema := "r"; tiers := []; evaluation_order := None |};
     approvals :=
       {| approvals_schema := "a"; invariants := ApprovalRules_default;
          hard_stops := map (λ s, {| entry_name := s; entry_reason := None |}) stops;
          required_ci_lanes := ["build"];
          quorum := {[ R1 := entry false 2; R3 := entry true 1; R5 := entry true 1 ]};
          verdict_ttl_minutes := Some 30%N; re_judge_on := [] |};
     release :=
       {| release_schema := "x"; build := {| build_once := true; require_sbom := true;
            require_slsa_provenance := true; require_artifact_signature := true;
            require_rollback_plan := true |};
          canary := None; nightwatch := None; release_ready_receipts := [] |};
     protected_paths :=
       {| protected_schema := "p"; hard_human := []; semantic_triggers := [] |};
     freeze := None |}.

Definition green : list CiCheck := [{| check_name := "build"; conclusion := Ci_Success |}].

Definition sample_inputs (t : RiskTier) (rs : list AgentApprovalReceipt) (stops : list string)
    (external : list HardStop) : JudgeInputs :=
  {| pack := sample_pack t [] green; receipts := rs; policy := sample_policy stops;
     in_repo := "org/p"; in_target_branch := "main"; in_pull_request := Some "7";
     author_agent := Some "builder"; external_hard_stops := external |}.

Definition two_passes : list AgentApprovalReceipt :=
  [sample_receipt "sec" RoleSecurity RD_Pass; sample_receipt "run" RoleRuntime RD_Pass].

Definition decision_of (o : option JudgeOutcome) : option GateDecision :=
  decision ∘ verdict <$> o.

Definition names_of (o : option HardStop) : list string := option_list (stop_name <$> o).

Definition window : FreezeWindows :=
  {| freeze_schema := "f"; enabled := true;
     windows := [{| window_id := "w"; window_name := "year end"; start := 10%Z;
                    window_end := 20%Z; max_allowed_risk := R0; window_reason := None;
                    allow_break_glass := false |}] |}.

Definition sample_descriptor : FullAutoDescriptor :=
  {| fa_schema := FULL_AUTO_SCHEMA; fa_enabled := true; max_auto_tier := R4;
     fa_reason := None |}.

Definition sample_profile : FullAutoProfile :=
  {| descriptor := sample_descriptor; bundle := sample_policy ["reviewer_blocked"] |}.

(** What the judge answers on them, evaluated. *)
Definition answer {A : Type} (o : option A) : Type :=
  match o with Some _ => A | None => unit end.

Definition expect {A : Type} (o : option A) : answer o :=
  match o with Some a => a | None => tt end.

Definition allowed_inputs : JudgeInputs := sample_inputs R1 two_passes ["reviewer_blocked"] [].
Definition allowed_outcome : JudgeOutcome :=
  expect (judge (at_ms 0) allowed_inputs).

Definition freeze_stop : HardStop :=
  expect (freeze_check window R1 (at_ms 15)).
Definition frozen_inputs : JudgeInputs := sample_inputs R1 two_passes [] [freeze_stop].
Definition frozen_outcome : JudgeOutcome :=
  expect (judge (at_ms 15) frozen_inputs).

Definition human_inputs : JudgeInputs := sample_inputs R3 two_passes ["reviewer_blocked"] [].
Definition human_outcome : JudgeOutcome :=
  expect (judge (at_ms 0) human_inputs).
Definition auto_outcome : JudgeOutcome :=
  expect (judge (at_ms 0) (with_policy human_inputs (apply sample_profile))).
End GateSamples.

Import GateSamples.

(** A first pass hides a later block of the same agent from the quorum. *)
Example quorum_block_masked :
  decision_of (judge (at_ms 0) (sample_inputs R3
    [sample_receipt "sec" RoleSecurity RD_Pass; sample_receipt "sec" RoleSecurity RD_Block]
    [] [])) = Some RequireHuman
  ∧ decision_of (judge (at_ms 0) (sample_inputs R3
    [sample_receipt "sec" RoleSecurity RD_Block; sample_receipt "sec" RoleSecurity RD_Pass]
    [] [])) = Some Reject.
Proof. by vm_compute. Qed.

(** Two line counts of one snapshot file whose sum wraps to zero pass unnoticed. *)
Example snapshot_count_wraps :
  let f n := {| file_path := "ui/__snapshots__/a.snap"; risk_tags := [];
                lines_added := n; lines_removed := n |} in
  let stops n := names_of (cond_snapshot_mass_replacement (sample_pack R1 [f n] []) []) in
  stops 2147483648%N = [] ∧ stops 100%N = ["snapshot_mass_replacement"].
Proof. by vm_compute. Qed.

Lemma judge_spec_witness :
  judge (at_ms 0) allowed_inputs = Some allowed_outcome
  ∧ decision (verdict allowed_outcome) = AllowMerge ∧ ¬ vetoed allowed_inputs.
Proof.
  assert (Hj : judge (at_ms 0) allowed_inputs = Some allowed_outcome)
    by vm_cast_no_check (eq_refl (Some allowed_outcome)).
  split; [exact Hj|split; [reflexivity|]].
  apply (proj2 (judge_spec (at_ms 0) allowed_inputs) allowed_outcome Hj). reflexivity.
Defined.

Lemma freeze_blocks_witness :
  freeze_check window R1 (at_ms 15) = Some freeze_stop
  ∧ judge (at_ms 15) frozen_inputs = Some frozen_outcome
  ∧ decision (verdict frozen_outcome) = Reject.
Proof.
  assert (Hf : freeze_check window R1 (at_ms 15) = Some freeze_stop)
    by vm_cast_no_check (eq_refl (Some freeze_stop)).
  assert (Hj : judge (at_ms 15) frozen_inputs = Some frozen_outcome)
    by vm_cast_no_check (eq_refl (Some frozen_outcome)).
  split; [exact Hf|split; [exact Hj|]].
  apply (proj2 (freeze_blocks window R1 (at_ms 15)) freeze_stop frozen_inputs (at_ms 15)
           frozen_outcome Hf); [apply list_elem_of_singleton; reflexivity|exact Hj].
Defined.

Lemma full_auto_floor_witness :
  decision (verdict human_outcome) = RequireHuman
  ∧ decision (verdict auto_outcome) = AllowMerge
  ∧ verdict_hard_stops (verdict auto_outcome) = verdict_hard_stops (verdict human_outcome).
Proof.
  assert (Hp : with_descriptor sample_descriptor (sample_policy ["reviewer_blocked"])
               = Ok sample_profile) by reflexivity.
  assert (Ho : judge (at_ms 0) human_inputs = Some human_outcome)
    by vm_cast_no_check (eq_refl (Some human_outcome)).
  assert (Ho' : judge (at_ms 0) (with_policy human_inputs (apply sample_profile))
                = Some auto_outcome) by vm_cast_no_check (eq_refl (Some auto_outcome)).
  split; [reflexivity|split; [reflexivity|]].
  apply (full_auto_floor sample_descriptor (sample_policy ["reviewer_blocked"])
           sample_profile human_inputs (at_ms 0) human_outcome auto_outcome Hp eq_refl Ho Ho').
Defined.
