(* ===== verification/Oversight.v ===== *)
(** Oversight: what watches over the gate (jeryu-autonomy: [seam.rs], [ledger/],
    [kill_bell/], [verdict_store/], [auto_rejudge/], [types/ledger.rs]; the signer of
    jeryu-signing). The ledger is an interface, [VerdictLedger], with the in-memory
    ledger as an instance; the kill bell and the rejudge service are its clients.

    The text of JSON values and the ed25519 signature itself are parameters. An
    outer [None] is a panic (an instant out of range, a value that does not
    serialise). Each [lock().unwrap()] block is one atomic step. *)

From Stdlib Require Import ZArith Ascii.
From S2P Require Import Prelude Text Clock Evidence Judge.

(** * Ledger entries (types/ledger.rs) *)

Inductive LedgerKind : Type :=
  | IntentDeclared | LeaseIssued | LeaseExpired | EvidencePackCreated | ReviewStarted
  | ReviewCompleted | VerdictIssued | MergePassportIssued | MergePassportConsumed
  | MergePassportInvalidated | ReleasePassportIssued | DeploymentStarted
  | DeploymentPromoted | RollbackInitiated | RollbackCompleted | HumanEscalationRequested
  | HumanDecisionRecorded | WebhookReceived | AutonomyPackEditProposed
  | AutonomyPackEditMerged | KillBellEngaged | KillBellResumed.

#[export] Instance LedgerKind_eq_dec : EqDecision LedgerKind.
Proof. solve_decision. Defined.

Definition kind_to_str (k : LedgerKind) : string :=
  match k with
  | IntentDeclared => "intent_declared"
  | LeaseIssued => "lease_issued"
  | LeaseExpired => "lease_expired"
  | EvidencePackCreated => "evidence_pack_created"
  | ReviewStarted => "review_started"
  | ReviewCompleted => "review_completed"
  | VerdictIssued => "verdict_issued"
  | MergePassportIssued => "merge_passport_issued"
  | MergePassportConsumed => "merge_passport_consumed"
  | MergePassportInvalidated => "merge_passport_invalidated"
  | ReleasePassportIssued => "release_passport_issued"
  | DeploymentStarted => "deployment_started"
  | DeploymentPromoted => "deployment_promoted"
  | RollbackInitiated => "rollback_initiated"
  | RollbackCompleted => "rollback_completed"
  | HumanEscalationRequested => "human_escalation_requested"
  | HumanDecisionRecorded => "human_decision_recorded"
  | WebhookReceived => "webhook_received"
  | AutonomyPackEditProposed => "autonomy_pack_edit_proposed"
  | AutonomyPackEditMerged => "autonomy_pack_edit_merged"
  | KillBellEngaged => "kill_bell_engaged"
  | KillBellResumed => "kill_bell_resumed"
  end.

Definition kinds : list LedgerKind :=
  [IntentDeclared; LeaseIssued; LeaseExpired; EvidencePackCreated; ReviewStarted;
   ReviewCompleted; VerdictIssued; MergePassportIssued; MergePassportConsumed;
   MergePassportInvalidated; ReleasePassportIssued; DeploymentStarted; DeploymentPromoted;
   RollbackInitiated; RollbackCompleted; HumanEscalationRequested; HumanDecisionRecorded;
   WebhookReceived; AutonomyPackEditProposed; AutonomyPackEditMerged; KillBellEngaged;
   KillBellResumed].

(** The match of [kind_from_str] lists the same pairs in the same order. *)
Definition kind_from_str (s : string) : result LedgerKind string :=
  match find_first (λ k, bool_decide (kind_to_str k = s)) kinds with
  | Some k => Ok k
  | None => Err ("unknown launch_ledger kind: " +:+ s)
  end.

(** seam.rs *)
Record SeamError : Type := { source : string; reason : string }.

Definition SeamError_to_string (e : SeamError) : string := source e +:+ ": " +:+ reason e.

Record LedgerFilter : Type := {
  filter_kind : option LedgerKind; filter_subject : option string;
  filter_repo : option string; limit : option Z
}.

(** An ed25519 key: its name, and the hex text of dalek's signature. *)
Record EdSigningKey : Type := { key_id : string; sign_hex : string → string }.

Definition sign_raw (k : EdSigningKey) (body : string) : Signature :=
  {| sig_key_id := key_id k; sig_algo := "ed25519"; sig_value := sign_hex k body |}.

Section entries.
Context `{J : Json} `{C : Chrono}.

Record LaunchLedgerEntry : Type := {
  entry_id : string; kind : LedgerKind; subject_id : string; entry_repo : option string;
  payload : Value; recorded_at : DateTime; actor : string; entry_signature : Signature
}.

End entries.

(** What serde_json does with entries, verdicts and payloads. *)
Class Serde `{J : Json} `{C : Chrono} := {
  entry_json : LaunchLedgerEntry → result string string;
  entry_of_json : string → result LaunchLedgerEntry string;
  verdict_value : VibeGateVerdict → option Value;
  object_insert : Value → string → Value → Value;
  value_text : Value → option string
}.

Section oversight.
Context `{S : Serde}.

(** * Signing (ledger/mod.rs) *)

Definition canonical_body_for_signing (e : LaunchLedgerEntry) : option string :=
  (λ text,
     entry_id e +:+ "|" +:+ kind_to_str (kind e) +:+ "|" +:+ subject_id e +:+ "|"
       +:+ from_option id "" (entry_repo e) +:+ "|" +:+ to_rfc3339 (recorded_at e) +:+ "|"
       +:+ text)
    <$> value_text (payload e).

Definition with_signature (e : LaunchLedgerEntry) (s : Signature) : LaunchLedgerEntry :=
  {| entry_id := entry_id e; kind := kind e; subject_id := subject_id e;
     entry_repo := entry_repo e; payload := payload e; recorded_at := recorded_at e;
     actor := actor e; entry_signature := s |}.

Definition sign_entry (e : LaunchLedgerEntry) (k : EdSigningKey) : option LaunchLedgerEntry :=
  (λ body, with_signature e (sign_raw k body)) <$> canonical_body_for_signing e.

Definition verdict_issued_entry (v : VibeGateVerdict) (who : string) :
    option LaunchLedgerEntry :=
  (λ body,
     {| entry_id := "ll_" +:+ verdict_id v;
        kind := match decision v with
                | AllowMerge => VerdictIssued
                | RequireHuman => HumanEscalationRequested
                | Reject => VerdictIssued
                end;
        subject_id := verdict_id v; entry_repo := Some (repo v); payload := body;
        recorded_at := created_at v; actor := who; entry_signature := unsigned |})
    <$> verdict_value v.

(** * The ledger interface (seam.rs) and the in-memory ledger (ledger/mod.rs) *)

Class VerdictLedger (L : Type) := {
  append : LaunchLedgerEntry → L → result unit SeamError * L;
  ledger_list : LedgerFilter → L → result (list LaunchLedgerEntry) SeamError;
  has_id : L → string → Prop;
  recorded : L → LaunchLedgerEntry → Prop
}.

(** What the trait promises: only ed25519 entries get in, nothing is lost or changed,
    a refusal has no effect, and an accepted entry is there unless its id was taken. *)
Class VerdictLedgerSpec (L : Type) `{VerdictLedger L} : Prop := {
  append_refuses e l : sig_algo (entry_signature e) ≠ "ed25519" → ∃ err, append e l = (Err err, l);
  append_err e l err l' : append e l = (Err err, l') → l' = l;
  append_keeps e l x : recorded l x → recorded (append e l).2 x;
  append_records e l l' :
    append e l = (Ok tt, l') → ¬ has_id l (entry_id e) → recorded l' e;
  append_ids e l l' i :
    append e l = (Ok tt, l') → has_id l' i ↔ has_id l i ∨ i = entry_id e;
  recorded_signed l e : recorded l e → sig_algo (entry_signature e) = "ed25519"
}.

(** Rows are pairs of an id and the raw JSON, in insertion order. *)
Record MemoryLedger : Type := { rows : list (string * string) }.

Definition MemoryLedger_new : MemoryLedger := {| rows := [] |}.

Definition validate_signature (e : LaunchLedgerEntry) : result unit SeamError :=
  if bool_decide (sig_algo (entry_signature e) = "ed25519") then Ok tt
  else
    Err {| source := "ledger";
           reason := "refusing to append entry '" +:+ entry_id e +:+ "' signed with algo '"
                       +:+ sig_algo (entry_signature e)
                       +:+ "'; only ed25519 is accepted (Law: every decision is signed)" |}.

Definition ledger_error (what e : string) : SeamError :=
  {| source := "ledger"; reason := what +:+ ": " +:+ e |}.

Definition memory_append (e : LaunchLedgerEntry) (l : MemoryLedger) :
    result unit SeamError * MemoryLedger :=
  match validate_signature e with
  | Err err => (Err err, l)
  | Ok _ =>
      match entry_json e with
      | Err e' => (Err (ledger_error "serialize entry" e'), l)
      | Ok raw =>
          if existsb (λ row, bool_decide (row.1 = entry_id e)) (rows l) then (Ok tt, l)
          else (Ok tt, {| rows := rows l ++ [(entry_id e, raw)] |})
      end
  end.

Definition matches (f : LedgerFilter) (e : LaunchLedgerEntry) : bool :=
  match filter_kind f with Some k => bool_decide (kind e = k) | None => true end
  && match filter_subject f with Some s => bool_decide (subject_id e = s) | None => true end
  && match filter_repo f with Some r => bool_decide (entry_repo e = Some r) | None => true end.

(** Every row is decoded, those the filter drops included. *)
Fixpoint decode_rows (f : LedgerFilter) (l : list (string * string)) :
    result (list LaunchLedgerEntry) SeamError :=
  match l with
  | [] => Ok []
  | (_, raw) :: l =>
      match entry_of_json raw with
      | Err e => Err (ledger_error "decode payload" e)
      | Ok e =>
          match decode_rows f l with
          | Err err => Err err
          | Ok out => Ok (if matches f e then e :: out else out)
          end
      end
  end.

Definition memory_list (f : LedgerFilter) (l : MemoryLedger) :
    result (list LaunchLedgerEntry) SeamError :=
  match decode_rows f (rows l) with
  | Err err => Err err
  | Ok out =>
      let out := isort (λ a b, dt_leb (recorded_at a) (recorded_at b)) out in
      Ok (match limit f with Some n => take (Z.to_nat (Z.max n 0)) out | None => out end)
  end.

#[export] Instance memory_ledger : VerdictLedger MemoryLedger :=
  {| append := memory_append; ledger_list := memory_list;
     has_id l i := i ∈ (rows l).*1;
     recorded l e := validate_signature e = Ok tt
                     ∧ ∃ raw, entry_json e = Ok raw ∧ (entry_id e, raw) ∈ rows l |}.

#[export] Instance memory_ledger_spec : VerdictLedgerSpec MemoryLedger.
Proof.
  assert (Hv : ∀ e, validate_signature e = Ok tt ↔ sig_algo (entry_signature e) = "ed25519").
  { intros e. unfold validate_signature. by case_bool_decide. }
  split; unfold append, has_id, recorded; cbn.
  - intros e l He. unfold memory_append, validate_signature.
    rewrite bool_decide_eq_false_2 by done. by eexists.
  - intros e l err l'. unfold memory_append. destruct (validate_signature e); [|congruence].
    destruct (entry_json e); [|congruence]. by case_match.
  - intros e l x [Hx (raw & Hraw & Hin)]. split; [done|]. exists raw. split; [done|].
    unfold memory_append. destruct (validate_signature e); [|done].
    destruct (entry_json e); [|done]. case_match; [done|].
    cbn. apply elem_of_app. by left.
  - intros e l l'. unfold memory_append. destruct (validate_signature e) as [[]|]; [|done].
    destruct (entry_json e) as [raw|]; [|done].
    destruct (existsb _ (rows l)) eqn:Hex; intros [= <-] Hid.
    + apply existsb_exists in Hex as (row & Hin & Hrow%bool_decide_eq_true).
      destruct Hid. rewrite <-Hrow. by apply list_elem_of_fmap_2, list_elem_of_In.
    + split; [done|]. exists raw. split; [done|]. cbn. apply elem_of_app. right. constructor.
  - intros e l l' i. unfold memory_append. destruct (validate_signature e); [|done].
    destruct (entry_json e) as [raw|]; [|done].
    destruct (existsb _ (rows l)) eqn:Hex; intros [= <-].
    + apply existsb_exists in Hex as (row & Hin & Hrow%bool_decide_eq_true).
      split; [by left|]. intros [?| ->]; [done|].
      rewrite <-Hrow. by apply list_elem_of_fmap_2, list_elem_of_In.
    + cbn. rewrite fmap_app, elem_of_app. cbn. by rewrite list_elem_of_singleton.
  - intros l e [He _]. by apply Hv.
Qed.

(** * The kill bell (kill_bell/mod.rs) *)

Inductive KillBellState : Type :=
  | Armed
  | Paused (pause_reason paused_by : string) (paused_at pause_expires : DateTime).

Definition is_paused_state (s : KillBellState) : bool :=
  match s with Paused _ _ _ _ => true | Armed => false end.

(** A row of the history. *)
Inductive Transition : Type :=
  | T_Armed (at_ : DateTime)
  | T_Paused (t_reason t_by : string) (t_paused_at t_expires : DateTime).

Definition at_ (t : Transition) : DateTime :=
  match t with T_Armed a => a | T_Paused _ _ a _ => a end.

(** [max_by]: of several latest rows, the last one. *)
Definition latest (h : list Transition) : option Transition :=
  foldl (λ acc t,
           match acc with
           | Some m => if dt_ltb (at_ t) (at_ m) then Some m else Some t
           | None => Some t
           end) None h.

Definition current (h : list Transition) (now : DateTime) : KillBellState :=
  match latest h with
  | None => Armed
  | Some (T_Armed _) => Armed
  | Some (T_Paused r b a x) => if dt_leb x now then Armed else Paused r b a x
  end.

Definition is_paused (h : list Transition) (now : DateTime) : bool :=
  is_paused_state (current h now).

Definition downgrade_if_paused (h : list Transition) (d : GateDecision) (now : DateTime) :
    GateDecision * option string :=
  match current h now with
  | Armed => (d, None)
  | Paused r b _ _ =>
      (RequireHuman,
       Some ("kill bell engaged by '" +:+ b +:+ "': " +:+ r +:+ "; downgraded "
               +:+ GateDecision_debug d +:+ " -> RequireHuman"))
  end.

Definition i64_max : N := 9223372036854775807.

Definition bell_entry (k : LedgerKind) (uuid : string) (body : Value) (now : DateTime)
    (who : string) : LaunchLedgerEntry :=
  {| entry_id := "ll_kb_" +:+ uuid; kind := k; subject_id := "kill_bell"; entry_repo := None;
     payload := body; recorded_at := now; actor := who; entry_signature := unsigned |}.

(** The two calls up to their ledger entry: the signed entry and the row to come. *)
Definition pause_announce (r by_ : string) (ttl_seconds : N) (key : EdSigningKey)
    (now : DateTime) (uuid : string) : option (LaunchLedgerEntry * Transition) :=
  match add_seconds now (Z.of_N (N.min ttl_seconds i64_max)) with
  | None => None
  | Some expires =>
      let body :=
        json_object [("reason", json_str r); ("paused_by", json_str by_);
                     ("ttl_seconds", json_u64 ttl_seconds);
                     ("expires_at", json_str (to_rfc3339 expires))] in
      (λ e, (e, T_Paused r by_ now expires))
        <$> sign_entry (bell_entry KillBellEngaged uuid body now by_) key
  end.

Definition resume_announce (by_ : string) (key : EdSigningKey) (now : DateTime)
    (uuid : string) : option (LaunchLedgerEntry * Transition) :=
  (λ e, (e, T_Armed now))
    <$> sign_entry
          (bell_entry KillBellResumed uuid (json_object [("resumed_by", json_str by_)]) now by_)
          key.

Definition bell_error (what : string) (e : SeamError) : SeamError :=
  {| source := "kill_bell"; reason := "append " +:+ what +:+ ": " +:+ SeamError_to_string e |}.

Section bell.
Context {L : Type} `{HL : VerdictLedger L}.

Record KillBell : Type := { history : list Transition; ledger : L }.

Definition KillBell_new (l : L) : KillBell := {| history := []; ledger := l |}.

(** The ledger entry first, the row of the history after it. *)
Definition record_then_push (what : string) (a : LaunchLedgerEntry * Transition)
    (b : KillBell) : result unit SeamError * KillBell :=
  match append a.1 (ledger b) with
  | (Err e, l) => (Err (bell_error what e), {| history := history b; ledger := l |})
  | (Ok _, l) => (Ok tt, {| history := history b ++ [a.2]; ledger := l |})
  end.

Definition pause (r by_ : string) (ttl_seconds : N) (key : EdSigningKey) (now : DateTime)
    (uuid : string) (b : KillBell) : option (result unit SeamError * KillBell) :=
  (λ a, record_then_push "KillBellEngaged" a b) <$> pause_announce r by_ ttl_seconds key now uuid.

Definition resume (by_ : string) (key : EdSigningKey) (now : DateTime) (uuid : string)
    (b : KillBell) : option (result unit SeamError * KillBell) :=
  (λ a, record_then_push "KillBellResumed" a b) <$> resume_announce by_ key now uuid.

(** * The bell over time *)

Lemma latest_elem h m : latest h = Some m → m ∈ h.
Proof.
  unfold latest. induction h as [|t h IH] using rev_ind; [done|].
  rewrite foldl_app. cbn. destruct (foldl _ None h) as [m'|].
  - case_match; intros [= <-]; apply elem_of_app; [left; by apply IH|right; constructor].
  - intros [= <-]. apply elem_of_app. right. constructor.
Qed.

Lemma latest_some t h : latest (t :: h) ≠ None.
Proof.
  unfold latest. cbn. generalize t. induction h as [|y h IH]; intros m; [done|]. cbn.
  destruct (dt_ltb _ _); apply IH.
Qed.

Lemma forallb_false_exists {A} (f : A → bool) l :
  forallb f l = false → ∃ x, x ∈ l ∧ f x = false.
Proof.
  induction l as [|x l IH]; [done|]. cbn. intros [H|H]%andb_false_iff.
  - exists x. split; [by left|done].
  - destruct (IH H) as (y & Hy & Hf). exists y. split; [by right|done].
Qed.

Lemma latest_snoc h t :
  (∀ x, x ∈ h → dt_leb (at_ x) (at_ t) = true) → latest (h ++ [t]) = Some t.
Proof.
  intros Hle. pose proof (latest_elem h) as Hin. unfold latest in *.
  rewrite foldl_app. cbn. destruct (foldl _ None h) as [m|]; [|done].
  unfold dt_ltb. by rewrite Hle by by apply Hin.
Qed.

Lemma current_snoc h t now :
  (∀ x, x ∈ h → dt_leb (at_ x) (at_ t) = true) →
  current (h ++ [t]) now =
    match t with
    | T_Armed _ => Armed
    | T_Paused r b a x => if dt_leb x now then Armed else Paused r b a x
    end.
Proof. intros Hle. unfold current. by rewrite latest_snoc by done. Qed.

Lemma record_then_push_ok what a b b' :
  record_then_push what a b = (Ok tt, b') →
  ∃ l, append a.1 (ledger b) = (Ok tt, l)
       ∧ b' = {| history := history b ++ [a.2]; ledger := l |}.
Proof.
  unfold record_then_push. destruct (append a.1 (ledger b)) as [[[]|e] l]; [|done].
  intros [= <-]. by exists l.
Qed.

Lemma pause_announce_row r by_ ttl key now uuid e t :
  pause_announce r by_ ttl key now uuid = Some (e, t) →
  ∃ x, add_seconds now (Z.of_N (N.min ttl i64_max)) = Some x ∧ t = T_Paused r by_ now x.
Proof.
  unfold pause_announce. destruct (add_seconds now _) as [x|]; [|done].
  destruct (sign_entry _ _); [|done]. intros [= _ <-]. by exists x.
Qed.

Lemma resume_announce_row by_ key now uuid e t :
  resume_announce by_ key now uuid = Some (e, t) → t = T_Armed now.
Proof.
  unfold resume_announce. destruct (sign_entry _ _); [|done]. by intros [= _ <-].
Qed.

Section clocked.
Context `{CS : !ChronoSpec} `{HLS : !VerdictLedgerSpec L}.

(** The latest row is not before any other. *)
Lemma latest_max h m x : latest h = Some m → x ∈ h → dt_leb (at_ x) (at_ m) = true.
Proof.
  revert m. unfold latest. induction h as [|t h IH] using rev_ind; [done|].
  rewrite foldl_app. cbn. destruct (foldl _ None h) as [m'|] eqn:Hl; intros m Hm Hx.
  - assert (dt_leb (at_ m') (at_ m) = true ∧ dt_leb (at_ t) (at_ m) = true) as [Hm' Ht].
    { revert Hm. unfold dt_ltb. destruct (dt_leb (at_ m') (at_ t)) eqn:Ho; intros [= <-].
      - split; [done|]. by destruct (dt_leb_total (at_ t) (at_ t)).
      - split; [by destruct (dt_leb_total (at_ m') (at_ m'))|].
        by destruct (dt_leb_total (at_ t) (at_ m')); [|congruence]. }
    apply elem_of_app in Hx as [Hx| ->%list_elem_of_singleton]; [|done].
    eapply dt_leb_trans; [by apply IH|done].
  - destruct h as [|y h]; [|by destruct (latest_some y h)].
    injection Hm as <-. apply list_elem_of_singleton in Hx as ->.
    by destruct (dt_leb_total (at_ t) (at_ t)).
Qed.

(** A row that is before another one of the history has no effect. *)
Lemma current_overtaken h t x now :
  x ∈ h → dt_leb (at_ x) (at_ t) = false → current (h ++ [t]) now = current h now.
Proof.
  intros Hx Hlate. unfold current. replace (latest (h ++ [t])) with (latest h); [done|].
  unfold latest at 2. rewrite foldl_app. cbn. fold (latest h).
  destruct (latest h) as [m|] eqn:Hm.
  - unfold dt_ltb. destruct (dt_leb (at_ m) (at_ t)) eqn:Ho; [|done].
    pose proof (latest_max _ _ _ Hm Hx) as Hle. rewrite (dt_leb_trans _ _ _ Hle Ho) in Hlate. done.
  - destruct h as [|y h]; [by apply elem_of_nil in Hx|]. by destruct (latest_some y h).
Qed.

Lemma record_then_push_kept what a b e b' :
  record_then_push what a b = (Err e, b') → b' = b.
Proof.
  unfold record_then_push. destruct (append a.1 (ledger b)) as [[[]|e'] l] eqn:Ha; [done|].
  apply append_err in Ha as ->. intros [= _ <-]. by destruct b.
Qed.

(** What a pause tells the caller of a decision it holds back. *)
Definition held (r by_ : string) (d : GateDecision) : GateDecision * option string :=
  (RequireHuman,
   Some ("kill bell engaged by '" +:+ by_ +:+ "': " +:+ r +:+ "; downgraded "
           +:+ GateDecision_debug d +:+ " -> RequireHuman")).

Definition behind (h : list Transition) (now : DateTime) : bool :=
  forallb (λ x, dt_leb (at_ x) now) h.

(** C36: the kill bell holds for as long as asked and no longer, for a caller whose clock no
    row of the history is ahead of. After a [pause] that succeeds then every decision is
    turned into [RequireHuman], with the reason, until the pause expires, and passes
    unchanged from then on; after a [resume] every decision passes at once. When some row is
    ahead of the caller's clock, the same calls succeed and change no decision at all. A
    call that fails changes neither the history nor the ledger; and whatever the history,
    once every pause in it has expired nothing is held. *)
Theorem kill_bell_holds b now key uuid by_ :
  (∀ r ttl res b', pause r by_ ttl key now uuid b = Some (res, b') →
     match res with
     | Ok _ =>
         ∃ x, add_seconds now (Z.of_N (N.min ttl i64_max)) = Some x
              ∧ ∀ d t, downgrade_if_paused (history b') d t
                       = if behind (history b) now
                         then if dt_leb x t then (d, None) else held r by_ d
                         else downgrade_if_paused (history b) d t
     | Err _ => b' = b
     end)
  ∧ (∀ res b', resume by_ key now uuid b = Some (res, b') →
       match res with
       | Ok _ => ∀ d t, downgrade_if_paused (history b') d t
                        = if behind (history b) now then (d, None)
                          else downgrade_if_paused (history b) d t
       | Err _ => b' = b
       end)
  ∧ ∀ h t d, (∀ r b' a x, T_Paused r b' a x ∈ h → dt_leb x t = true) →
      downgrade_if_paused h d t = (d, None).
Proof.
  assert (Hpush : ∀ t n, at_ t = now → current (history b ++ [t]) n
    = if behind (history b) now
      then match t with T_Armed _ => Armed
                   | T_Paused r p a x => if dt_leb x n then Armed else Paused r p a x end
      else current (history b) n).
  { intros t n <-. unfold behind. destruct (forallb _ (history b)) eqn:Hb.
    - apply current_snoc. intros x Hx. rewrite forallb_forall in Hb. by apply Hb, list_elem_of_In.
    - apply forallb_false_exists in Hb as (x & Hx & Hlate). by eapply current_overtaken. }
  split_and!.
  - intros r ttl res b'. unfold pause.
    destruct (pause_announce r by_ ttl key now uuid) as [[e t]|] eqn:Ha; [|done].
    apply pause_announce_row in Ha as (x & Hx & ->). intros [= Hr].
    destruct res as [[]|err]; [|by eapply record_then_push_kept].
    apply record_then_push_ok in Hr as (l & _ & ->). exists x. split; [done|].
    intros d t. unfold downgrade_if_paused at 1. cbn [history snd].
    rewrite Hpush by done. destruct (behind _ _); [|done]. by destruct (dt_leb x t).
  - intros res b'. unfold resume.
    destruct (resume_announce by_ key now uuid) as [[e t]|] eqn:Ha; [|done].
    apply resume_announce_row in Ha as ->. intros [= Hr].
    destruct res as [[]|err]; [|by eapply record_then_push_kept].
    apply record_then_push_ok in Hr as (l & _ & ->).
    intros d t. unfold downgrade_if_paused at 1. cbn [history snd].
    rewrite Hpush by done. by destruct (behind _ _).
  - intros h t d Hexp. unfold downgrade_if_paused, current.
    destruct (latest h) as [[a|r b' a x]|] eqn:Hl; [done| |done].
    by rewrite (Hexp r b' a x (latest_elem _ _ Hl)).
Qed.

End clocked.

(** * Interleaved calls

    Between its ledger entry and its row a call can be overtaken by others, and other
    components write the same ledger. *)

Record BellState : Type := { bell : KillBell; pending : list Transition }.

Definition announced (e : LaunchLedgerEntry) (t : Transition) : Prop :=
  (∃ r by_ ttl key now uuid, pause_announce r by_ ttl key now uuid = Some (e, t))
  ∨ (∃ by_ key now uuid, resume_announce by_ key now uuid = Some (e, t)).

Inductive bell_step : BellState → BellState → Prop :=
  | Step_announce s e t l :
      announced e t → ¬ has_id (ledger (bell s)) (entry_id e) →
      append e (ledger (bell s)) = (Ok tt, l) →
      bell_step s {| bell := {| history := history (bell s); ledger := l |};
                     pending := pending s ++ [t] |}
  | Step_append s e res l :
      append e (ledger (bell s)) = (res, l) →
      bell_step s {| bell := {| history := history (bell s); ledger := l |};
                     pending := pending s |}
  | Step_push s i t :
      pending s !! i = Some t →
      bell_step s {| bell := {| history := history (bell s) ++ [t]; ledger := ledger (bell s) |};
                     pending := delete i (pending s) |}.

Definition row_kind (t : Transition) : LedgerKind :=
  match t with T_Armed _ => KillBellResumed | T_Paused _ _ _ _ => KillBellEngaged end.

(** A row with its signed entry in the ledger. *)
Definition audited (l : L) (t : Transition) : Prop :=
  ∃ e, recorded l e ∧ kind e = row_kind t ∧ subject_id e = "kill_bell"
       ∧ recorded_at e = at_ t ∧ sig_algo (entry_signature e) = "ed25519".

Definition bell_inv (s : BellState) : Prop :=
  Forall (audited (ledger (bell s))) (history (bell s) ++ pending s).

Lemma announced_entry e t :
  announced e t →
  kind e = row_kind t ∧ subject_id e = "kill_bell" ∧ recorded_at e = at_ t
  ∧ sig_algo (entry_signature e) = "ed25519".
Proof.
  intros [(r & b & ttl & key & now & uuid & H)|(b & key & now & uuid & H)].
  - unfold pause_announce, sign_entry in H. destruct (add_seconds now _); [|done].
    destruct (canonical_body_for_signing _); [|done]. by injection H as <- <-.
  - unfold resume_announce, sign_entry in H.
    destruct (canonical_body_for_signing _); [|done]. by injection H as <- <-.
Qed.

Lemma audited_append `{HLS : !VerdictLedgerSpec L} e l res l' t :
  append e l = (res, l') → audited l t → audited l' t.
Proof.
  intros Ha (x & Hx & Hr). exists x. split; [|done].
  pose proof (append_keeps e l x Hx) as Hk. by rewrite Ha in Hk.
Qed.

Lemma bell_step_inv `{HLS : !VerdictLedgerSpec L} s s' :
  bell_step s s' → bell_inv s → bell_inv s'.
Proof.
  unfold bell_inv. intros Hstep Hs.
  destruct Hstep as [s e t l Ht Hid Ha|s e res l Ha|s i t Hi]; cbn in *.
  - rewrite app_assoc, Forall_app, Forall_singleton. split.
    + eapply Forall_impl; [exact Hs|]. intros x. by eapply audited_append.
    + exists e. split; [by eapply append_records|by apply announced_entry].
  - eapply Forall_impl; [exact Hs|]. intros x. by eapply audited_append.
  - apply delete_Permutation in Hi. rewrite Hi in Hs. by rewrite <-app_assoc.
Qed.

(** The audit trail leads. However pauses, resumes and other writers of the ledger
    interleave, every row of the bell's history has its entry in the ledger: of the
    right kind, with the row's time, signed with ed25519. *)
Theorem bell_audited `{HLS : !VerdictLedgerSpec L} l s t :
  rtc bell_step {| bell := KillBell_new l; pending := [] |} s →
  t ∈ history (bell s) → audited (ledger (bell s)) t.
Proof.
  intros Hsteps Ht.
  assert (Hinv : bell_inv s).
  { remember {| bell := KillBell_new l; pending := [] |} as s0 eqn:Hs0.
    assert (H0 : bell_inv s0) by (rewrite Hs0; constructor). clear Hs0.
    induction Hsteps; eauto using bell_step_inv. }
  unfold bell_inv in Hinv. rewrite Forall_app in Hinv. destruct Hinv as [Hh _].
  rewrite Forall_forall in Hh. by apply Hh.
Qed.

(** A call of its own is an announcement followed by its push. *)
Lemma record_then_push_steps what e t b b' p :
  announced e t → ¬ has_id (ledger b) (entry_id e) →
  record_then_push what (e, t) b = (Ok tt, b') →
  rtc bell_step {| bell := b; pending := p |} {| bell := b'; pending := p |}.
Proof.
  intros Ha Hid (l & Hl & ->)%record_then_push_ok. cbn in Hl.
  eapply rtc_l; [by eapply Step_announce|]. eapply rtc_l; [|apply rtc_refl]. cbn.
  assert (Hpush : (p ++ [t]) !! length p = Some t) by (by rewrite list_lookup_middle).
  pose proof (Step_push {| bell := {| history := history b; ledger := l |};
                           pending := p ++ [t] |} _ _ Hpush) as Hstep. cbn in Hstep.
  by rewrite delete_middle, app_nil_r in Hstep.
Qed.

End bell.
End oversight.

(** * Samples *)

Module OversightSamples.
Import GateSamples.

(** An entry's JSON is its canonical body. *)
#[export] Instance text_serde : Serde :=
  {| entry_json := λ e, Ok (entry_id e +:+ "|" +:+ kind_to_str (kind e));
     entry_of_json := λ s, Err "not needed";
     verdict_value := λ v, Some (json_str (verdict_id v));
     object_insert := λ o k v, o +:+ k +:+ v;
     value_text := λ v, Some v |}.

Definition key : EdSigningKey :=
  {| key_id := "agent.judge.v1"; sign_hex := λ body, hex16 (N.of_nat (String.length body)) |}.

Definition quiet : KillBell := KillBell_new MemoryLedger_new.

Definition bell_of {A E B} (o : option (result A E * B)) (b : B) : B :=
  match o with Some (Ok _, b') => b' | _ => b end.

Definition paused : option (result unit SeamError * KillBell) :=
  pause "drill" "ops" 60 key (at_ms 1000) "u1" quiet.
Definition paused_bell : KillBell := bell_of paused quiet.

Definition drill_row : Transition := T_Paused "drill" "ops" (at_ms 1000) (at_ms 61000).

Lemma sample_paused : paused = Some (Ok tt, paused_bell).
Proof. vm_cast_no_check (eq_refl paused). Qed.

Lemma sample_steps :
  rtc bell_step {| bell := quiet; pending := [] |} {| bell := paused_bell; pending := [] |}
  ∧ history paused_bell = [drill_row].
Proof.
  split; [|vm_cast_no_check (eq_refl [drill_row])].
  pose proof sample_paused as Hp. unfold paused, pause in Hp.
  destruct (pause_announce "drill" "ops" 60 key (at_ms 1000) "u1") as [[e t]|] eqn:Ha;
    [|discriminate Hp].
  cbn [fmap option_fmap option_map] in Hp. apply (inj Some) in Hp.
  eapply record_then_push_steps; [|by apply not_elem_of_nil|exact Hp].
  left. by repeat eexists.
Qed.
End OversightSamples.

Import GateSamples OversightSamples.

Lemma kill_bell_holds_witness :
  (downgrade_if_paused (history paused_bell) AllowMerge (at_ms 60999)).1 = RequireHuman
  ∧ (downgrade_if_paused (history paused_bell) AllowMerge (at_ms 61000)).1 = AllowMerge.
Proof.
  destruct (kill_bell_holds quiet (at_ms 1000) key "u1" "ops") as [H _].
  destruct (H "drill" 60%N _ _ sample_paused) as (x & Hx & Hd).
  assert (x = at_ms 61000) as -> by (vm_compute in Hx; by injection Hx as <-).
  by rewrite !Hd.
Defined.

Lemma bell_audited_witness : audited (ledger paused_bell) drill_row.
Proof.
  destruct sample_steps as [Hs Hh].
  apply (bell_audited MemoryLedger_new {| bell := paused_bell; pending := [] |}); [exact Hs|].
  cbn [bell]. rewrite Hh. constructor.
Defined.
