(* ===== verification/Rejudge.v ===== *)
(** Rejudge: the store of live verdicts and the service that judges a pull request
    again (jeryu-autonomy: [verdict_store/], [auto_rejudge/]). The evidence source is
    the forge behind a trait: it is a parameter of the service. *)

From Stdlib Require Import ZArith Ascii.
From S2P Require Import Prelude Text Clock Evidence Judge Oversight.

Section rejudge.
Context `{S : Serde}.

(** * The verdict store (verdict_store/mod.rs) *)

Record Row : Type := { body : VibeGateVerdict; superseded_at : option DateTime }.

Abbreviation MemoryVerdictStore := (list Row).

Definition MemoryVerdictStore_new : MemoryVerdictStore := [].

Definition is_live (r : Row) : bool :=
  match superseded_at r with None => true | Some _ => false end.

(** A row of the pull request that has not been superseded. *)
Definition live_for (repo_ : string) (pr : option string) (r : Row) : bool :=
  is_live r && bool_decide (repo (body r) = repo_)
  && bool_decide (pull_request (body r) = pr).

Definition mark (at_ : DateTime) (r : Row) : Row :=
  {| body := body r; superseded_at := Some at_ |}.

Definition save (v : VibeGateVerdict) (rows : MemoryVerdictStore) : MemoryVerdictStore :=
  if existsb (λ r, bool_decide (verdict_id (body r) = verdict_id v)) rows then rows
  else
    map (λ r, if live_for (repo v) (pull_request v) r then mark (created_at v) r else r) rows
    ++ [{| body := v; superseded_at := None |}].

(** [max_by]: the last of the latest rows. *)
Definition latest_row (rows : list Row) : option Row :=
  foldl (λ acc r,
           match acc with
           | Some m => if dt_ltb (created_at (body r)) (created_at (body m)) then Some m else Some r
           | None => Some r
           end) None rows.

Definition load_latest (repo_ : string) (pr : option string) (rows : MemoryVerdictStore) :
    option VibeGateVerdict :=
  body <$> latest_row (filter (λ r, live_for repo_ pr r = true) rows).

Definition is_active (now : DateTime) (r : Row) : bool :=
  is_live r && dt_ltb now (expires_at (body r))
  && negb (bool_decide (decision (body r) = Reject)).

Definition list_active (now : DateTime) (rows : MemoryVerdictStore) : list VibeGateVerdict :=
  isort (λ a b, dt_leb (created_at a) (created_at b))
    (map body (filter (λ r, is_active now r = true) rows)).

(** The first row with the id, marked unless it is already. *)
Fixpoint supersede (id : string) (now : DateTime) (rows : MemoryVerdictStore) :
    MemoryVerdictStore :=
  match rows with
  | [] => []
  | r :: rows =>
      if bool_decide (verdict_id (body r) = id)
      then (if is_live r then mark now r else r) :: rows
      else r :: supersede id now rows
  end.

(** * The rejudge service (auto_rejudge/mod.rs) *)

(** The forge behind the [EvidenceSource] trait. *)
Record EvidenceSource : Type := {
  build_pack : string → string → result EvidencePack SeamError;
  run_reviews : EvidencePack → list ReviewerRole → result (list AgentApprovalReceipt) SeamError
}.

Record RejudgeOutcome : Type := {
  out_repo : string; out_pr_id : string; prior_verdict_id : string; new_verdict_id : string;
  new_decision : GateDecision; out_hard_stops : list string; receipts_count : nat
}.

Definition build_auto_rejudge_entry (v : VibeGateVerdict) (prior_id : string) :
    option LaunchLedgerEntry :=
  (λ o,
     let o := object_insert o "wave_scope" (json_str "auto_rejudge") in
     {| entry_id := "ll_" +:+ verdict_id v; kind := VerdictIssued; subject_id := verdict_id v;
        entry_repo := Some (repo v); payload := object_insert o "supersedes" (json_str prior_id);
        recorded_at := created_at v; actor := "auto_rejudge"; entry_signature := unsigned |})
    <$> verdict_value v.

(** The receipts of the run: a failed orchestration counts as no receipts. *)
Definition reviews (src : EvidenceSource) (policy_ : PolicyBundle) (p : EvidencePack) :
    list AgentApprovalReceipt :=
  match run_reviews src p (from_option roles [] (quorum_for policy_ (pack_risk p))) with
  | Ok rs => rs
  | Err _ => []
  end.

Definition rejudge_inputs (src : EvidenceSource) (policy_ : PolicyBundle)
    (repo_ pr_id : string) (prior : VibeGateVerdict) (p : EvidencePack) : JudgeInputs :=
  {| pack := p; receipts := reviews src policy_ p; policy := policy_; in_repo := repo_;
     in_target_branch := target_branch prior; in_pull_request := Some pr_id;
     author_agent := None; external_hard_stops := [] |}.

Section service.
Context {L : Type} `{HL : !VerdictLedger L}.

Record World : Type := { verdicts : MemoryVerdictStore; audit : L }.

(** One run, called at [now]: the verdict is saved first, then the ledger entry is
    signed and appended. The outer [None] is a panic. *)
Definition rejudge (src : EvidenceSource) (policy_ : PolicyBundle) (key : EdSigningKey)
    (repo_ pr_id : string) (prior : VibeGateVerdict) (now : DateTime) (w : World) :
    option (result RejudgeOutcome SeamError * World) :=
  match build_pack src repo_ pr_id with
  | Err e => Some (Err e, w)
  | Ok p =>
      let i := rejudge_inputs src policy_ repo_ pr_id prior p in
      match judge now i with
      | None => None
      | Some o =>
          let v := verdict o in
          let saved := save v (verdicts w) in
          match build_auto_rejudge_entry v (verdict_id prior) with
          | None => None
          | Some unsigned_entry =>
              match sign_entry unsigned_entry key with
              | None => None
              | Some e =>
                  match append e (audit w) with
                  | (Err err, l) =>
                      Some (Err {| source := "auto_rejudge";
                                   reason := "append VerdictIssued: "
                                               +:+ SeamError_to_string err |},
                            {| verdicts := saved; audit := l |})
                  | (Ok _, l) =>
                      Some (Ok {| out_repo := repo_; out_pr_id := pr_id;
                                  prior_verdict_id := verdict_id prior;
                                  new_verdict_id := verdict_id v; new_decision := decision v;
                                  out_hard_stops := verdict_hard_stops v;
                                  receipts_count := length (receipts i) |},
                            {| verdicts := saved; audit := l |})
                  end
              end
          end
      end
  end.

End service.

(** * The store over time *)

Inductive store_step : MemoryVerdictStore → MemoryVerdictStore → Prop :=
  | Step_save v rows : store_step rows (save v rows)
  | Step_supersede id now rows : store_step rows (supersede id now rows).

Definition ids (rows : MemoryVerdictStore) : list string := map (λ r, verdict_id (body r)) rows.

(** Distinct ids, and at most one live row for each pull request. *)
Definition store_ok (rows : MemoryVerdictStore) : Prop :=
  NoDup (ids rows)
  ∧ ∀ rp pr, length (filter (λ r, live_for rp pr r = true) rows) ≤ 1.

Lemma live_for_spec rp pr r :
  live_for rp pr r = true ↔
  superseded_at r = None ∧ repo (body r) = rp ∧ pull_request (body r) = pr.
Proof.
  unfold live_for, is_live. rewrite !andb_true_iff, !bool_decide_eq_true.
  destruct (superseded_at r); naive_solver.
Qed.

Lemma live_for_mark rp pr a r : live_for rp pr (mark a r) = false.
Proof. done. Qed.

(** What saving does to the live rows of a pull request. *)
Lemma filter_marked v rp pr rows :
  filter (λ r, live_for rp pr r = true)
    (map (λ r, if live_for (repo v) (pull_request v) r then mark (created_at v) r else r) rows)
  = if decide (rp = repo v ∧ pr = pull_request v) then []
    else filter (λ r, live_for rp pr r = true) rows.
Proof.
  induction rows as [|r rows IH]; [by case_decide|]. cbn [map].
  destruct (live_for (repo v) (pull_request v) r) eqn:Hv.
  - rewrite filter_cons_False by (by rewrite live_for_mark). rewrite IH.
    case_decide as Hd; [done|]. rewrite filter_cons_False; [done|].
    intros (_ & H1 & H2)%live_for_spec. apply live_for_spec in Hv as (_ & H3 & H4).
    apply Hd. split; congruence.
  - destruct (live_for rp pr r) eqn:Hr.
    + rewrite filter_cons_True by done. rewrite IH.
      case_decide as Hd; [destruct Hd as [-> ->]; congruence|].
      by rewrite filter_cons_True.
    + rewrite filter_cons_False by congruence. rewrite IH.
      case_decide; [done|]. by rewrite filter_cons_False by congruence.
Qed.

Lemma save_fresh v rows :
  verdict_id v ∉ ids rows →
  save v rows =
    map (λ r, if live_for (repo v) (pull_request v) r then mark (created_at v) r else r) rows
    ++ [{| body := v; superseded_at := None |}].
Proof.
  intros Hid. unfold save. destruct (existsb _ rows) eqn:Hex; [|done].
  apply existsb_exists in Hex as (r & Hin & Hr%bool_decide_eq_true). destruct Hid.
  apply list_elem_of_fmap. exists r. split; [done|]. by apply list_elem_of_In.
Qed.

Lemma save_known v rows : verdict_id v ∈ ids rows → save v rows = rows.
Proof.
  intros (r & Hv & Hin)%list_elem_of_fmap. unfold save.
  destruct (existsb _ rows) eqn:Hex; [done|].
  assert (existsb (λ r, bool_decide (verdict_id (body r) = verdict_id v)) rows = true);
    [|congruence].
  apply existsb_exists. exists r. split; [by apply list_elem_of_In|].
  by apply bool_decide_eq_true.
Qed.

Lemma bodies_marked (p : Row → bool) a rows :
  map body (map (λ r, if p r then mark a r else r) rows) = map body rows.
Proof. rewrite map_map. apply map_ext. intros r. by destruct (p r). Qed.

Lemma save_live v rows rp pr :
  verdict_id v ∉ ids rows →
  filter (λ r, live_for rp pr r = true) (save v rows) =
    if decide (rp = repo v ∧ pr = pull_request v) then [{| body := v; superseded_at := None |}]
    else filter (λ r, live_for rp pr r = true) rows.
Proof.
  intros Hid. rewrite save_fresh by done. rewrite filter_app, filter_marked.
  case_decide as Hd.
  - destruct Hd as [-> ->]. cbn [app]. rewrite filter_cons_True; [done|].
    by apply live_for_spec.
  - rewrite filter_cons_False, app_nil_r; [done|].
    rewrite live_for_spec. cbn. intros (_ & ? & ?). by apply Hd.
Qed.

Lemma save_ok v rows : store_ok rows → store_ok (save v rows).
Proof.
  intros [Hnd Hlive]. destruct (decide (verdict_id v ∈ ids rows)) as [Hid|Hid];
    [by rewrite save_known|]. split.
  - rewrite save_fresh by done. unfold ids. rewrite <-(map_map body verdict_id), map_app.
    rewrite bodies_marked, map_app, map_map. apply NoDup_app. split_and!; [done| |].
    + intros x Hx ->%list_elem_of_singleton. by apply Hid.
    + apply NoDup_singleton.
  - intros rp pr. rewrite save_live by done. case_decide; cbn; [lia|apply Hlive].
Qed.

Lemma supersede_ids id now rows : map body (supersede id now rows) = map body rows.
Proof.
  induction rows as [|r rows IH]; [done|]. cbn [supersede].
  case_bool_decide; cbn; [by destruct (is_live r)|by rewrite IH].
Qed.

Lemma supersede_live id now rows rp pr :
  filter (λ r, live_for rp pr r = true) (supersede id now rows)
  `sublist_of` filter (λ r, live_for rp pr r = true) rows.
Proof.
  induction rows as [|r rows IH]; [done|]. cbn [supersede]. case_bool_decide.
  - destruct (is_live r); [|done].
    rewrite filter_cons_False by (by rewrite live_for_mark).
    rewrite filter_cons. case_decide; [by apply sublist_cons|done].
  - rewrite !filter_cons. case_decide; [by apply sublist_skip|done].
Qed.

Lemma supersede_ok id now rows : store_ok rows → store_ok (supersede id now rows).
Proof.
  intros [Hnd Hlive]. split.
  - unfold ids in *. by rewrite <-(map_map body verdict_id), supersede_ids, map_map.
  - intros rp pr. etrans; [|apply Hlive]. apply sublist_length, supersede_live.
Qed.

Lemma store_steps_ok rows : rtc store_step [] rows → store_ok rows.
Proof.
  intros Hsteps. remember ([] : MemoryVerdictStore) as r0 eqn:Hr.
  assert (H0 : store_ok r0) by (subst; split; [constructor|cbn; lia]). clear Hr.
  induction Hsteps as [|r1 r2 r3 Hstep _ IH]; [done|]. apply IH.
  destruct Hstep; [by apply save_ok|by apply supersede_ok].
Qed.

Lemma latest_row_single r : latest_row [r] = Some r.
Proof. done. Qed.

Lemma load_latest_live rp pr rows v :
  filter (λ r, live_for rp pr r = true) rows = [{| body := v; superseded_at := None |}] →
  load_latest rp pr rows = Some v.
Proof. unfold load_latest. by intros ->. Qed.

Lemma save_load v rows :
  verdict_id v ∉ ids rows → load_latest (repo v) (pull_request v) (save v rows) = Some v.
Proof.
  intros Hid. apply load_latest_live. rewrite save_live by done. by rewrite decide_True.
Qed.

Lemma elem_of_active now rows v :
  v ∈ list_active now rows ↔
  {| body := v; superseded_at := None |} ∈ rows
  ∧ dt_ltb now (expires_at v) = true ∧ decision v ≠ Reject.
Proof.
  unfold list_active. rewrite isort_perm. split.
  - intros (r & -> & [Ha Hin]%list_elem_of_filter)%list_elem_of_fmap.
    unfold is_active, is_live in Ha. destruct r as [b [a|]]; [done|]. cbn in *.
    apply andb_true_iff in Ha as [He Hd%negb_true_iff]. by apply bool_decide_eq_false in Hd.
  - intros (Hin & He & Hd). apply list_elem_of_fmap.
    exists {| body := v; superseded_at := None |}. split; [done|]. apply list_elem_of_filter.
    split; [|exact Hin]. unfold is_active. cbn. rewrite He. cbn.
    by rewrite bool_decide_eq_false_2.
Qed.

(** The store keeps exactly one live verdict per pull request. In every store reached
    by saving and superseding, ids are distinct and no pull request has two live rows.
    Saving a verdict with a new id makes it the latest of its pull request and leaves the
    others' alone; a known id changes nothing; no saved verdict is ever lost or altered.
    The active verdicts are exactly the live, unexpired ones that are not rejections. *)
Theorem verdict_store_spec rows :
  rtc store_step [] rows →
  store_ok rows
  ∧ (∀ v, verdict_id v ∉ ids rows →
       load_latest (repo v) (pull_request v) (save v rows) = Some v
       ∧ (∀ rp pr, ¬ (rp = repo v ∧ pr = pull_request v) →
            load_latest rp pr (save v rows) = load_latest rp pr rows)
       ∧ map body (save v rows) = map body rows ++ [v])
  ∧ (∀ v, verdict_id v ∈ ids rows → save v rows = rows)
  ∧ (∀ id now, map body (supersede id now rows) = map body rows)
  ∧ ∀ now v, v ∈ list_active now rows ↔
      {| body := v; superseded_at := None |} ∈ rows
      ∧ dt_ltb now (expires_at v) = true ∧ decision v ≠ Reject.
Proof.
  intros Hsteps. split; [by apply store_steps_ok|].
  split_and!; eauto using save_known, supersede_ids, elem_of_active.
  intros v Hid. split_and!; [by apply save_load| |].
  - intros rp pr Hne. unfold load_latest. by rewrite save_live, decide_False.
  - rewrite save_fresh, map_app, bodies_marked; done.
Qed.

(** * The rejudge run *)

Section run.
Context {L : Type} `{HL : !VerdictLedger L} `{HLS : !VerdictLedgerSpec L}.

Lemma empty_counted i : receipts i = [] → counted_of i = [].
Proof.
  intros Hr. destruct (counted_of i) as [|r l] eqn:Hc; [done|].
  assert (Hin : r ∈ counted_of i) by (rewrite Hc; constructor).
  apply elem_of_counted in Hin as [k [Hk _]]. by rewrite Hr in Hk.
Qed.

(** Without receipts only a quorum that asks for nothing is met. *)
Lemma allow_without_receipts now i o :
  receipts i = [] → judge now i = Some o → decision (verdict o) = AllowMerge →
  ∃ q, tier_quorum i = Some q ∧ roles q = [] ∧ approvals_needed q = 0%N
       ∧ human_required q = false.
Proof.
  intros Hr [Hd _]%judge_decision Ha. rewrite Hd in Ha. destruct (hits i); [|done].
  apply quorum_met in Ha as (_ & q & Hq & Hh & Hrev%reviewed_spec).
  unfold roles_with, with_decision in Hrev. rewrite empty_counted in Hrev by done.
  destruct Hrev as [Hroles Hn]. exists q. split_and!; [done| | |done].
  - destruct (roles q) as [|ro l]; [done|]. rewrite filter_cons_True in Hroles; [done|].
    apply not_elem_of_nil.
  - cbn in Hn. lia.
Qed.

(** A rejudge run does what it says. Without an evidence pack nothing changes.
    Otherwise its verdict is the judge's on the fresh pack, bound to the pack's head and
    policy; with a new id it becomes the live verdict of the pull request. A successful
    run leaves its signed entry in the ledger. If the reviewers could not be run it allows
    a merge only under a quorum that asks for no approval at all. *)
Theorem rejudge_spec src pol key rp pr prior now (w w' : World) res :
  rejudge src pol key rp pr prior now w = Some (res, w') →
  match build_pack src rp pr with
  | Err e => res = Err e ∧ w' = w
  | Ok p =>
      ∃ o, judge now (rejudge_inputs src pol rp pr prior p) = Some o
        ∧ head_sha (verdict o) = pack_head_sha p ∧ policy_sha (verdict o) = pack_policy_sha p
        ∧ (verdict_id (verdict o) ∉ ids (verdicts w) →
           load_latest rp (Some pr) (verdicts w') = Some (verdict o))
        ∧ (∀ x, recorded (audit w) x → recorded (audit w') x)
        ∧ (∀ out, res = Ok out →
             new_decision out = decision (verdict o)
             ∧ new_verdict_id out = verdict_id (verdict o)
             ∧ (¬ has_id (audit w) ("ll_" +:+ verdict_id (verdict o)) →
                ∃ e, recorded (audit w') e ∧ kind e = VerdictIssued
                     ∧ subject_id e = verdict_id (verdict o)
                     ∧ sig_algo (entry_signature e) = "ed25519"))
        ∧ (∀ e, run_reviews src p (from_option roles [] (quorum_for pol (pack_risk p))) = Err e →
             decision (verdict o) = AllowMerge →
             ∃ q, quorum_for pol (pack_risk p) = Some q ∧ roles q = []
                  ∧ approvals_needed q = 0%N ∧ human_required q = false)
  end.
Proof.
  unfold rejudge. destruct (build_pack src rp pr) as [p|e]; [|by intros [= <- <-]].
  set (i := rejudge_inputs src pol rp pr prior p).
  destruct (judge now i) as [o|] eqn:Hj; [|done].
  unfold build_auto_rejudge_entry. destruct (verdict_value (verdict o)) as [val|]; [|done].
  cbn [fmap option_fmap option_map]. unfold sign_entry.
  destruct (canonical_body_for_signing _) as [text|]; [|done]. cbn [fmap option_fmap option_map].
  intros Hrun. exists o. split; [done|].
  assert (Hv : head_sha (verdict o) = pack_head_sha p ∧ policy_sha (verdict o) = pack_policy_sha p
               ∧ repo (verdict o) = rp ∧ pull_request (verdict o) = Some pr).
  { clear Hrun. unfold judge in Hj. destruct (add_minutes now _); [|done]. injection Hj as <-.
    cbn [verdict]. by destruct (hits i). }
  destruct Hv as (-> & -> & Hrp & Hpr). split; [done|]. split; [done|].
  set (entry := with_signature _ _) in Hrun.
  destruct (append entry (audit w)) as [r l] eqn:Happ.
  assert (Hw : w' = {| verdicts := save (verdict o) (verdicts w); audit := l |})
    by (destruct r; by injection Hrun as _ <-).
  rewrite Hw. cbn [verdicts audit]. split_and!.
  - intros Hid. rewrite <-Hrp, <-Hpr. by apply save_load.
  - intros x Hx. pose proof (append_keeps entry _ _ Hx) as Hk. by rewrite Happ in Hk.
  - intros out ->. destruct r as [[]|]; [|done]. injection Hrun as <- _.
    split; [done|]. split; [done|]. intros Hid. exists entry.
    split_and!; [by eapply append_records|done..].
  - intros e He Ha. apply (allow_without_receipts now i o); [|done..].
    unfold i, rejudge_inputs, reviews. cbn [receipts]. by rewrite He.
Qed.

(** When the ledger refuses the entry, the verdict is live all the same. *)
Lemma refused_verdict_is_live src pol key rp pr prior now (w w' : World) err p o :
  rejudge src pol key rp pr prior now w = Some (Err err, w') →
  build_pack src rp pr = Ok p → judge now (rejudge_inputs src pol rp pr prior p) = Some o →
  verdicts w' = save (verdict o) (verdicts w) ∧ audit w' = audit w.
Proof.
  unfold rejudge. intros Hrun Hp Hj. rewrite Hp, Hj in Hrun.
  destruct (build_auto_rejudge_entry _ _); [|done]. destruct (sign_entry _ _) as [e|]; [|done].
  destruct (append e (audit w)) as [[[]|r] l'] eqn:Ha; [done|].
  injection Hrun as _ <-. split; [done|]. by eapply append_err.
Qed.

End run.
End rejudge.

(** * Samples *)

Module RejudgeSamples.
Import GateSamples OversightSamples.

Definition forge : EvidenceSource :=
  {| build_pack := λ rp pr,
       if bool_decide (pr = "0") then Err {| source := "forge"; reason := "pr not found" |}
       else Ok (sample_pack R1 [] green);
     run_reviews := λ p ro,
       if bool_decide (ro = []) then Err {| source := "forge"; reason := "no roles" |}
       else Ok two_passes |}.

Definition prior : VibeGateVerdict := verdict allowed_outcome.
Definition pol : PolicyBundle := sample_policy ["reviewer_blocked"].
Definition empty_world : World := {| verdicts := []; audit := MemoryLedger_new |}.

Definition run_on (pr : string) (now : Z) (w : World) :
    option (result RejudgeOutcome SeamError * World) :=
  rejudge forge pol key "org/p" pr prior (at_ms now) w.

Definition first_run : option (result RejudgeOutcome SeamError * World) :=
  run_on "7" 5000%Z empty_world.
Definition first_world : World := bell_of first_run empty_world.

Definition first_outcome : RejudgeOutcome :=
  {| out_repo := "org/p"; out_pr_id := "7"; prior_verdict_id := verdict_id prior;
     new_verdict_id := "vgv_00000000013881111AAAA00000"; new_decision := AllowMerge;
     out_hard_stops := []; receipts_count := 2 |}.

Lemma first_run_eq : first_run = Some (Ok first_outcome, first_world).
Proof. vm_cast_no_check (eq_refl first_run). Qed.
End RejudgeSamples.

Import GateSamples OversightSamples RejudgeSamples.

(** Two pull requests with the same head judged in the same millisecond get the same
    verdict id: the second run reports success, but its verdict is not stored. *)
Example verdict_id_collision :
  let second := run_on "8" 5000%Z first_world in
  match second with
  | Some (Ok out, w') =>
      new_verdict_id out = new_verdict_id first_outcome
      ∧ option_map verdict_id (load_latest "org/p" (Some "8") (verdicts w')) = None
  | _ => False
  end.
Proof. vm_cast_no_check (conj (eq_refl (new_verdict_id first_outcome)) (@eq_refl (option string) None)). Qed.

Lemma verdict_store_spec_witness :
  let v := verdict allowed_outcome in
  store_ok (save v []) ∧ load_latest "org/p" (Some "7") (save v []) = Some v
  ∧ v ∈ list_active (at_ms 1799999) (save v []).
Proof.
  intros v.
  assert (Hsteps : rtc store_step [] (save v [])).
  { eapply rtc_l; [apply (Step_save v)|apply rtc_refl]. }
  destruct (verdict_store_spec _ Hsteps) as (Hok & _ & _ & _ & Hact).
  destruct (verdict_store_spec [] (rtc_refl _ _)) as (_ & Hsave & _).
  split; [exact Hok|split].
  - apply (Hsave v). apply not_elem_of_nil.
  - apply Hact. split; [constructor|]. split; [vm_cast_no_check (eq_refl true)|].
    vm_compute. discriminate.
Defined.

Lemma rejudge_spec_witness :
  option_map decision (load_latest "org/p" (Some "7") (verdicts first_world)) = Some AllowMerge
  ∧ new_decision first_outcome = AllowMerge
  ∧ ∃ e, recorded (audit first_world) e
         ∧ subject_id e = new_verdict_id first_outcome
         ∧ sig_algo (entry_signature e) = "ed25519".
Proof.
  pose proof (rejudge_spec forge pol key "org/p" "7" prior (at_ms 5000) empty_world first_world
                _ first_run_eq) as H.
  change (build_pack forge "org/p" "7") with
    (@Ok EvidencePack SeamError (sample_pack R1 [] green)) in H. cbv beta iota in H.
  destruct H as (o & _ & _ & _ & Hlive & _ & Hout & _).
  destruct (Hout _ eq_refl) as (Hdec & Hid & Hrec).
  rewrite (Hlive (not_elem_of_nil _)).
  destruct (Hrec (not_elem_of_nil _)) as (e & Hr & _ & Hs & Ha).
  split; [cbn [option_map]; rewrite <-Hdec; reflexivity|]. split; [reflexivity|].
  exists e. split; [exact Hr|]. split; [by rewrite Hs, Hid|exact Ha].
Defined.
