(* ===== verification/Compiler.v ===== *)
(** Compiler: the front end that turns GitHub Actions workflows and native TOML
    definitions into the pipeline IR (jeryu-ci-compiler, every file of [src/]).

    A loop that jumps ahead ([i = next]) works on the remaining lines with fuel; the
    fuel given is the number of lines, which is enough because every round drops at
    least one ([steps_loop_fuel], [job_loop_fuel], [github_loop_fuel]). *)

From Stdlib Require Import Ascii.
From S2P Require Import Prelude Text CiIr Schedule.

(** * Errors and context (error.rs) *)

Inductive CiKind : Type := CK_GitHubActions | CK_NativeToml.

Record CompileContext : Type := {
  ctx_repo : string; ctx_commit : string; ctx_trust_tier : TrustTier;
  default_runner : RunnerClass
}.

Definition CompileContext_new (r c : string) : CompileContext :=
  {| ctx_repo := r; ctx_commit := c; ctx_trust_tier := TT_InternalBranch;
     default_runner := RC_NativeRustClean |}.

Inductive CompileError : Type :=
  | CE_EmptyInput
  | CE_MissingJobs
  | CE_MissingSteps (job : string)
  | CE_InvalidLine (line : string)
  | CE_InvalidRunner (runner : string)
  | CE_InvalidDependency (dep : string)
  | CE_Validation (error : string).

Definition CompileError_to_string (e : CompileError) : string :=
  match e with
  | CE_EmptyInput => "CI input is empty"
  | CE_MissingJobs => "CI input did not define any jobs"
  | CE_MissingSteps job => "CI job did not define executable steps: " +:+ job
  | CE_InvalidLine line => "invalid CI line: " +:+ line
  | CE_InvalidRunner runner => "invalid runner class: " +:+ runner
  | CE_InvalidDependency dep => "invalid dependency: " +:+ dep
  | CE_Validation error => "IR validation failed: " +:+ error
  end.

(** * Lines (lexer.rs) *)

Record SourceLine : Type := { indent : nat; text : string }.

Fixpoint leading_spaces (s : string) : nat :=
  match s with String " "%char s' => S (leading_spaces s') | _ => 0 end.

Definition strip_comment (raw : string) : string :=
  if starts_with (trim_start raw) "#" then "" else raw.

Definition source_line (raw : string) : option SourceLine :=
  let without_comment := strip_comment raw in
  if str_is_empty (trim without_comment) then None
  else Some {| indent := leading_spaces without_comment; text := trim without_comment |}.

Definition collect_lines (input : string) : list SourceLine := omap source_line (lines input).

(** The lines after the first one with this indent and text. *)
Fixpoint after_line (l : list SourceLine) (ind : nat) (t : string) : option (list SourceLine) :=
  match l with
  | [] => None
  | line :: l =>
      if (indent line =? ind) && bool_decide (text line = t) then Some l
      else after_line l ind t
  end.

Definition is_yaml_map_header (t : string) : bool :=
  ends_with t ":" && negb (starts_with t "-") && negb (str_contains "::" t).

Definition header_name (t : string) : string := sanitize_id (trim (trim_end_char ":"%char t)).

Definition scalar_after (t prefix : string) : option string :=
  match strip_prefix prefix t with
  | Some value => if str_is_empty (trim value) then None else Some (trim value)
  | None => None
  end.

(** The lines nested below an indent, and what follows. *)
Definition nested_slice (l : list SourceLine) (parent_indent : nat) :
    list SourceLine * list SourceLine :=
  span (λ line, parent_indent <? indent line) l.

Definition non_blank (l : list string) : list string :=
  filter (λ item, str_is_empty item = false) l.

Definition parse_array_or_scalar (value : string) : list string :=
  let trimmed := trim value in
  if str_is_empty trimmed || bool_decide (trimmed = "[]") then []
  else if starts_with trimmed "[" && ends_with trimmed "]" then
    let inner := String.substring 1 (String.length trimmed - 1 - 1) trimmed in
    non_blank (map (λ item, trim_quotes (trim item)) (split_on ","%char inner))
  else [trim_quotes trimmed].

Definition parse_yaml_list (l : list SourceLine) : list string :=
  non_blank
    (map (λ item, trim_quotes (trim item)) (omap (λ line, strip_prefix "- " (text line)) l)).

Definition is_block_scalar (value : string) : bool :=
  bool_decide (trim value ∈ ["|"; "|-"; "|+"; ">"; ">-"; ">+"]).

Definition collect_block_scalar (l : list SourceLine) (parent_indent : nat) (marker : string) :
    string * list SourceLine :=
  let '(body, rest) := nested_slice l parent_indent in
  (join (if starts_with (trim marker) ">" then " " else newline_str) (map text body), rest).

(** * Job attributes (attributes.rs) *)

(** The [paths:] key, in both loops: the paths so far, and the indent of the key once it
    was seen. *)
Record PathState : Type := { ps_paths : list string; ps_indent : option nat }.

(** [None] when the line is not about paths, that is, when the code goes on. *)
Definition paths_key (st : PathState) (line : SourceLine) : option PathState :=
  match scalar_after (text line) "paths:" with
  | Some value =>
      Some {| ps_paths := ps_paths st ++ parse_array_or_scalar value;
              ps_indent := Some (indent line) |}
  | None =>
      if bool_decide (text line = "paths:")
      then Some {| ps_paths := ps_paths st; ps_indent := Some (indent line) |}
      else None
  end.

Definition paths_item (st : PathState) (line : SourceLine) : PathState :=
  match ps_indent st, strip_prefix "- " (text line) with
  | Some ind, Some value =>
      if ind <? indent line
      then {| ps_paths := ps_paths st ++ [trim_quotes (trim value)]; ps_indent := ps_indent st |}
      else st
  | _, _ => st
  end.

Definition no_paths : PathState := {| ps_paths := []; ps_indent := None |}.

Definition cache_mount_of (origin path : string) : CacheMount :=
  {| mount_name := sanitize_id origin +:+ "-" +:+ sanitize_id path; mount_path := path;
     mount_mode := CM_ReadOnly;
     mount_fingerprint := deterministic_hash ("cache|" +:+ origin +:+ "|" +:+ path) |}.

Definition parse_cache_mounts (l : list SourceLine) (origin : string) : list CacheMount :=
  let st := foldl (λ st line,
                     match paths_key st line with
                     | Some st' => st'
                     | None => paths_item st line
                     end) no_paths l in
  map (cache_mount_of origin) (ps_paths st).

Definition default_cache_mounts (id : string) : list CacheMount :=
  [{| mount_name := id +:+ "-cargo-target"; mount_path := "target/"; mount_mode := CM_ReadOnly;
      mount_fingerprint := deterministic_hash ("default-cache|" +:+ id +:+ "|target") |}].

Fixpoint take_digits (s : string) : string :=
  match s with
  | String c s' => if is_ascii_digit c then String c (take_digits s') else ""
  | "" => ""
  end.

Definition parse_retention_days (value : string) : N :=
  let lower := lowercase (trim_quotes value) in
  let n := from_option id 14%N (parse_uint u32_max (take_digits lower)) in
  if str_contains "week" lower then saturating_mul u32_max n 7
  else if str_contains "month" lower then saturating_mul u32_max n 30
  else n.

Definition parse_when (value : string) : ArtifactWhen :=
  let v := trim_quotes value in
  if bool_decide (v ∈ ["on_failure"; "on-failure"]) then AW_OnFailure
  else if bool_decide (v ∈ ["on_success"; "on-success"]) then AW_OnSuccess
  else AW_Always.

Record ArtifactState : Type := { as_paths : PathState; as_days : N; as_when : ArtifactWhen }.

Definition artifact_line (st : ArtifactState) (line : SourceLine) : ArtifactState :=
  match paths_key (as_paths st) line with
  | Some ps => {| as_paths := ps; as_days := as_days st; as_when := as_when st |}
  | None =>
      {| as_paths := paths_item (as_paths st) line;
         as_days := match scalar_after (text line) "expire_in:" with
                    | Some value => parse_retention_days value
                    | None => as_days st
                    end;
         as_when := match scalar_after (text line) "when:" with
                    | Some value => parse_when value
                    | None => as_when st
                    end |}
  end.

Definition parse_artifacts (l : list SourceLine) (origin : string) : list ArtifactPath :=
  let st := foldl artifact_line
              {| as_paths := no_paths; as_days := 14; as_when := AW_Always |} l in
  match ps_paths (as_paths st) with
  | [] => []
  | paths =>
      [{| artifact_name := sanitize_id origin +:+ "-artifacts"; artifact_files := paths;
          artifact_when := as_when st; retention_days := as_days st |}]
  end.

Definition parse_token_scope (value : string) : TokenScope :=
  let v := trim_quotes value in
  if bool_decide (v ∈ ["{}"; "none"]) then TS_None
  else if bool_decide (v ∈ ["read"; "read-all"]) then TS_ReadRepo
  else if bool_decide (v ∈ ["write"; "write-all"]) then TS_WriteChecks
  else TS_Custom (parse_array_or_scalar v).

(** * Steps (steps.rs) *)

Record StepBuilder : Type := {
  sb_name : option string; sb_run : option string; sb_uses : option string;
  sb_env : gmap string string; sb_working_directory : option string
}.

Definition StepBuilder_default : StepBuilder :=
  {| sb_name := None; sb_run := None; sb_uses := None; sb_env := ∅;
     sb_working_directory := None |}.

Definition set_run (b : StepBuilder) (r : string) : StepBuilder :=
  {| sb_name := sb_name b; sb_run := Some r; sb_uses := sb_uses b; sb_env := sb_env b;
     sb_working_directory := sb_working_directory b |}.

Definition insert_env (b : StepBuilder) (k v : string) : StepBuilder :=
  {| sb_name := sb_name b; sb_run := sb_run b; sb_uses := sb_uses b;
     sb_env := <[k := v]> (sb_env b); sb_working_directory := sb_working_directory b |}.

Definition apply_step_attr (b : StepBuilder) (key value : string) : StepBuilder :=
  let v := Some (trim_quotes value) in
  if bool_decide (key = "name") then
    {| sb_name := v; sb_run := sb_run b; sb_uses := sb_uses b; sb_env := sb_env b;
       sb_working_directory := sb_working_directory b |}
  else if bool_decide (key = "run") then set_run b (trim_quotes value)
  else if bool_decide (key = "uses") then
    {| sb_name := sb_name b; sb_run := sb_run b; sb_uses := v; sb_env := sb_env b;
       sb_working_directory := sb_working_directory b |}
  else if bool_decide (key = "working-directory") then
    {| sb_name := sb_name b; sb_run := sb_run b; sb_uses := sb_uses b; sb_env := sb_env b;
       sb_working_directory := v |}
  else b.

(** [builders], [current], and [in_env] with its [env_indent]. *)
Record StepState : Type := {
  builders : list StepBuilder; cur : option StepBuilder; env_at : option nat
}.

Definition flush (st : StepState) : list StepBuilder :=
  match cur st with Some b => builders st ++ [b] | None => builders st end.

(** [trim_start_matches("- ")]: every leading copy. *)
Fixpoint trim_dashes (fuel : nat) (s : string) : string :=
  match fuel, strip_prefix "- " s with
  | S fuel, Some s' => trim_dashes fuel s'
  | _, _ => s
  end.

(** An attribute of builder [b], given as the text [key: value]; a block scalar after
    [run:] takes the more indented lines with it. *)
Definition step_attr (b : StepBuilder) (t : string) (ind : nat) (rest : list SourceLine) :
    StepBuilder * list SourceLine :=
  match split_once ":"%char t with
  | Some (key, value) =>
      let value := trim value in
      if bool_decide (trim key = "run") && is_block_scalar value then
        let '(body, next) := collect_block_scalar rest ind value in (set_run b body, next)
      else (apply_step_attr b (trim key) value, rest)
  | None => (b, rest)
  end.

(** One round of the loop: the new state and the lines that remain. *)
Definition step_line (st : StepState) (line : SourceLine) (rest : list SourceLine) :
    StepState * list SourceLine :=
  if starts_with (text line) "- " then
    let t := trim (trim_dashes (String.length (text line)) (text line)) in
    let '(b, next) := step_attr StepBuilder_default t (indent line) rest in
    ({| builders := flush st; cur := Some b; env_at := None |}, next)
  else
    match cur st with
    | None => (st, rest)
    | Some b =>
        let in_env := match env_at st with Some e => e <? indent line | None => false end in
        match (if in_env then split_once ":"%char (text line) else None) with
        | Some (key, value) =>
            ({| builders := builders st;
                cur := Some (insert_env b (trim key) (trim_quotes (trim value)));
                env_at := env_at st |}, rest)
        | None =>
            if bool_decide (text line = "env:") then
              ({| builders := builders st; cur := cur st; env_at := Some (indent line) |}, rest)
            else
              let '(b', next) := step_attr b (text line) (indent line) rest in
              ({| builders := builders st; cur := Some b'; env_at := None |}, next)
        end
    end.

Fixpoint steps_loop (fuel : nat) (st : StepState) (l : list SourceLine) : list StepBuilder :=
  match fuel, l with
  | S fuel, line :: rest => let '(st', next) := step_line st line rest in steps_loop fuel st' next
  | _, _ => flush st
  end.

Definition blank (o : option string) : bool :=
  match o with Some s => str_is_empty (trim s) | None => true end.

Definition show_02 (n : nat) : string := pad_left 2 (show_N (N.of_nat n)).

Definition step_from_builder (origin : string) (idx : nat) (b : StepBuilder) :
    result Step CompileError :=
  if blank (sb_run b) && blank (sb_uses b) then Err (CE_MissingSteps origin)
  else
    let name := match sb_name b, sb_run b, sb_uses b with
                | Some n, _, _ => n
                | None, Some r, _ => r
                | None, None, Some u => u
                | None, None, None => "step"
                end in
    Ok {| step_id := "step_" +:+ show_02 idx; step_name := name; step_command := sb_run b;
          step_uses := sb_uses b; step_env := sb_env b;
          working_directory := sb_working_directory b |}.

(** [collect] of results: the first error wins. *)
Fixpoint steps_from (origin : string) (idx : nat) (bs : list StepBuilder) :
    result (list Step) CompileError :=
  match bs with
  | [] => Ok []
  | b :: bs =>
      match step_from_builder origin idx b with
      | Err e => Err e
      | Ok s =>
          match steps_from origin (S idx) bs with
          | Err e => Err e
          | Ok ss => Ok (s :: ss)
          end
      end
  end.

Definition no_step : StepState := {| builders := []; cur := None; env_at := None |}.

Definition parse_steps (origin : string) (l : list SourceLine) : result (list Step) CompileError :=
  steps_from origin 0 (steps_loop (length l) no_step l).

(** * The matrix (matrix.rs, steps.rs) *)

Definition matrix_key (m : gmap string (list string)) (line : SourceLine) :
    gmap string (list string) :=
  match split_once ":"%char (text line) with
  | Some (key, value) => <[trim key := parse_array_or_scalar (trim value)]> m
  | None => m
  end.

Fixpoint matrix_loop (inside : option nat) (m : gmap string (list string))
    (l : list SourceLine) : gmap string (list string) :=
  match l with
  | [] => m
  | line :: l =>
      if bool_decide (text line = "matrix:") then matrix_loop (Some (indent line)) m l
      else
        match inside with
        | Some ind => matrix_loop inside (if ind <? indent line then matrix_key m line else m) l
        | None => matrix_loop inside m l
        end
  end.

Definition parse_matrix (l : list SourceLine) : gmap string (list string) := matrix_loop None ∅ l.

Definition extend_combos (combos : list (gmap string string)) (kv : string * list string) :
    list (gmap string string) :=
  combos ≫= λ combo, map (λ v, <[kv.1 := v]> combo) kv.2.

Definition matrix_combinations (m : gmap string (list string)) : list (gmap string string) :=
  if bool_decide (m = ∅) then [∅] else foldl extend_combos [∅] (bt_iter m).

Definition expanded_id (origin : string) (combo : gmap string string) : string :=
  if bool_decide (combo = ∅) then sanitize_id origin
  else
    sanitize_id (origin +:+ "__"
                   +:+ join "__" (map (λ kv, kv.1 +:+ "_" +:+ kv.2) (bt_iter combo))).

Definition expanded_name (origin : string) (combo : gmap string string) : string :=
  if bool_decide (combo = ∅) then origin
  else origin +:+ " (" +:+ join ", " (map (λ kv, kv.1 +:+ "=" +:+ kv.2) (bt_iter combo)) +:+ ")".

Definition matrix_needle (key : string) : string := "${{ matrix." +:+ key +:+ " }}".

Definition substitute (s : Step) (kv : string * string) : Step :=
  let r t := replace (matrix_needle kv.1) kv.2 t in
  {| step_id := step_id s; step_name := r (step_name s); step_command := r <$> step_command s;
     step_uses := r <$> step_uses s; step_env := step_env s;
     working_directory := working_directory s |}.

Definition with_step_id (s : Step) (id : string) : Step :=
  {| step_id := id; step_name := step_name s; step_command := step_command s;
     step_uses := step_uses s; step_env := step_env s;
     working_directory := working_directory s |}.

Definition steps_with_matrix (ss : list Step) (combo : gmap string string) (id : string) :
    list Step :=
  imap (λ idx s, foldl substitute (with_step_id s (id +:+ "_step_" +:+ show_02 idx))
                   (bt_iter combo)) ss.

(** * Assembly (pipeline.rs) *)

Record PendingJob : Type := { origin : string; job : Job; needs : list string }.

(** [origin_to_jobs]: the ids of each origin, in order. *)
Definition note_origin (m : gmap string (list string)) (item : PendingJob) :
    gmap string (list string) :=
  <[origin item := from_option id [] (m !! origin item) ++ [job_id (job item)]]> m.

Definition origin_to_jobs (pending : list PendingJob) : gmap string (list string) :=
  foldl note_origin ∅ pending.

(** Edges found so far: the set, and the list in the order of insertion. *)
Record EdgeState : Type := { edge_set : gset (string * string); edge_list : list Dependency }.

Definition add_edge (to_ : string) (st : EdgeState) (from : string) : EdgeState :=
  if bool_decide ((from, to_) ∈ edge_set st) then st
  else {| edge_set := {[(from, to_)]} ∪ edge_set st;
          edge_list := edge_list st ++ [{| dep_from := from; dep_to := to_ |}] |}.

Definition unknown_need (item : PendingJob) (need : string) : CompileError :=
  CE_InvalidDependency (origin item +:+ " needs unknown job " +:+ need).

Fixpoint need_edges (m : gmap string (list string)) (item : PendingJob) (ns : list string)
    (st : EdgeState) : result EdgeState CompileError :=
  match ns with
  | [] => Ok st
  | need :: ns =>
      match m !! need with
      | None => Err (unknown_need item need)
      | Some from_jobs => need_edges m item ns (foldl (add_edge (job_id (job item))) st from_jobs)
      end
  end.

Fixpoint pending_edges (m : gmap string (list string)) (items : list PendingJob)
    (st : EdgeState) : result EdgeState CompileError :=
  match items with
  | [] => Ok st
  | item :: items =>
      match need_edges m item (needs item) st with
      | Err e => Err e
      | Ok st => pending_edges m items st
      end
  end.

Definition with_jobs (p : Pipeline) (id : string) (js : list Job) (es : list Dependency) :
    Pipeline :=
  {| pipeline_id := id; source := source p; repo := repo p; commit := commit p;
     trust_tier := trust_tier p; jobs := js; edges := es;
     jeryu_cache_policy := jeryu_cache_policy p; artifact_policy := artifact_policy p;
     permission_policy := permission_policy p; secret_policy := secret_policy p;
     proof_policy := proof_policy p; signing_policy := signing_policy p |}.

Definition finish_pipeline (src : PipelineSource) (pending : list PendingJob)
    (ctx : CompileContext) : result Pipeline CompileError :=
  match pending with
  | [] => Err CE_MissingJobs
  | _ =>
      let p := Pipeline_new src (ctx_repo ctx) (ctx_commit ctx) (ctx_trust_tier ctx) in
      match pending_edges (origin_to_jobs pending) pending {| edge_set := ∅; edge_list := [] |} with
      | Err e => Err e
      | Ok st =>
          Ok (with_jobs p (pipeline_id p) (isort job_leb (map job pending))
                (isort edge_leb (edge_list st)))
      end
  end.

(** * GitHub workflows (github.rs) *)

(** The local variables of [parse_github_job]. *)
Record JobState : Type := {
  js_runner : RunnerClass; js_needs : list string; js_timeout : N; js_steps : list Step;
  js_matrix : gmap string (list string); js_token : TokenScope; js_cache : list CacheMount;
  js_artifacts : list ArtifactPath
}.

Definition JobState_init (ctx : CompileContext) : JobState :=
  {| js_runner := default_runner ctx; js_needs := []; js_timeout := 3600; js_steps := [];
     js_matrix := ∅; js_token := TS_ReadRepo; js_cache := []; js_artifacts := [] |}.

Definition set_runner st x := {| js_runner := x; js_needs := js_needs st;
  js_timeout := js_timeout st; js_steps := js_steps st; js_matrix := js_matrix st;
  js_token := js_token st; js_cache := js_cache st; js_artifacts := js_artifacts st |}.
Definition set_needs st x := {| js_runner := js_runner st; js_needs := x;
  js_timeout := js_timeout st; js_steps := js_steps st; js_matrix := js_matrix st;
  js_token := js_token st; js_cache := js_cache st; js_artifacts := js_artifacts st |}.
Definition set_timeout st x := {| js_runner := js_runner st; js_needs := js_needs st;
  js_timeout := x; js_steps := js_steps st; js_matrix := js_matrix st;
  js_token := js_token st; js_cache := js_cache st; js_artifacts := js_artifacts st |}.
Definition set_steps st x := {| js_runner := js_runner st; js_needs := js_needs st;
  js_timeout := js_timeout st; js_steps := x; js_matrix := js_matrix st;
  js_token := js_token st; js_cache := js_cache st; js_artifacts := js_artifacts st |}.
Definition set_matrix st x := {| js_runner := js_runner st; js_needs := js_needs st;
  js_timeout := js_timeout st; js_steps := js_steps st; js_matrix := x;
  js_token := js_token st; js_cache := js_cache st; js_artifacts := js_artifacts st |}.
Definition set_token st x := {| js_runner := js_runner st; js_needs := js_needs st;
  js_timeout := js_timeout st; js_steps := js_steps st; js_matrix := js_matrix st;
  js_token := x; js_cache := js_cache st; js_artifacts := js_artifacts st |}.
Definition add_cache st x := {| js_runner := js_runner st; js_needs := js_needs st;
  js_timeout := js_timeout st; js_steps := js_steps st; js_matrix := js_matrix st;
  js_token := js_token st; js_cache := js_cache st ++ x; js_artifacts := js_artifacts st |}.
Definition add_artifacts st x := {| js_runner := js_runner st; js_needs := js_needs st;
  js_timeout := js_timeout st; js_steps := js_steps st; js_matrix := js_matrix st;
  js_token := js_token st; js_cache := js_cache st; js_artifacts := js_artifacts st ++ x |}.

Definition parse_timeout (value : string) : N :=
  saturating_mul u64_max (from_option id 60%N (parse_uint u64_max (trim value))) 60.

(** A line of the job at the job's own indent: the chain of [else if]s. *)
Definition job_line (origin_ : string) (st : JobState) (line : SourceLine)
    (rest : list SourceLine) : result (JobState * list SourceLine) CompileError :=
  let '(slice, next) := nested_slice rest (indent line) in
  let key k := scalar_after (text line) k in
  let header t := bool_decide (text line = t) in
  match key "runs-on:" with
  | Some value =>
      match RunnerClass_from_str value with
      | Ok r => Ok (set_runner st r, rest)
      | Err _ => Err (CE_InvalidRunner value)
      end
  | None =>
      match key "needs:" with
      | Some value => Ok (set_needs st (parse_array_or_scalar value), rest)
      | None =>
          if header "needs:" then Ok (set_needs st (parse_yaml_list slice), next)
          else
            match key "timeout-minutes:" with
            | Some value => Ok (set_timeout st (parse_timeout value), rest)
            | None =>
                match key "permissions:" with
                | Some value => Ok (set_token st (parse_token_scope value), rest)
                | None =>
                    if header "steps:" then
                      match parse_steps origin_ slice with
                      | Ok ss => Ok (set_steps st ss, next)
                      | Err e => Err e
                      end
                    else if header "strategy:" then Ok (set_matrix st (parse_matrix slice), next)
                    else if header "cache:"
                    then Ok (add_cache st (parse_cache_mounts slice origin_), next)
                    else if header "artifacts:"
                    then Ok (add_artifacts st (parse_artifacts slice origin_), next)
                    else Ok (st, rest)
                end
            end
      end
  end.

Fixpoint job_loop (fuel : nat) (origin_ : string) (st : JobState) (l : list SourceLine) :
    result JobState CompileError :=
  match fuel, l with
  | S fuel, line :: rest =>
      if indent line =? 4 then
        match job_line origin_ st line rest with
        | Ok (st', next) => job_loop fuel origin_ st' next
        | Err e => Err e
        end
      else job_loop fuel origin_ st rest
  | _, _ => Ok st
  end.

Definition expand_job (origin_ : string) (st : JobState) (combo : gmap string string) :
    PendingJob :=
  let id := expanded_id origin_ combo in
  let base := Job_new id (expanded_name origin_ combo) (js_runner st) in
  {| origin := origin_;
     job :=
       {| job_id := id; job_name := job_name base; runner_class := runner_class base;
          steps := steps_with_matrix (js_steps st) combo id;
          inputs := kmap (λ k, "matrix." +:+ k) combo; outputs := outputs base;
          cache_mounts := match js_cache st with [] => default_cache_mounts id | c => c end;
          artifact_paths := js_artifacts st; network_policy := network_policy base;
          token_scope := js_token st; timeout_seconds := js_timeout st;
          retry_policy := retry_policy base |};
     needs := js_needs st |}.

Definition parse_github_job (origin_ : string) (block : list SourceLine)
    (ctx : CompileContext) : result (list PendingJob) CompileError :=
  match job_loop (length block) origin_ (JobState_init ctx) block with
  | Err e => Err e
  | Ok st =>
      match js_steps st with
      | [] => Err (CE_MissingSteps origin_)
      | _ => Ok (map (expand_job origin_ st) (matrix_combinations (js_matrix st)))
      end
  end.

Definition is_job_header (line : SourceLine) : bool :=
  (indent line =? 2) && is_yaml_map_header (text line).

Fixpoint github_loop (fuel : nat) (ctx : CompileContext) (l : list SourceLine) :
    result (list PendingJob) CompileError :=
  match fuel, l with
  | S fuel, line :: rest =>
      if is_job_header line then
        let '(block, next) := span (λ x, negb (is_job_header x)) rest in
        match parse_github_job (header_name (text line)) block ctx with
        | Err e => Err e
        | Ok js =>
            match github_loop fuel ctx next with
            | Err e => Err e
            | Ok more => Ok (js ++ more)
            end
        end
      else github_loop fuel ctx rest
  | _, _ => Ok []
  end.

Definition compile_github (input : string) (ctx : CompileContext) : result Pipeline CompileError :=
  match after_line (collect_lines input) 0 "jobs:" with
  | None => Err CE_MissingJobs
  | Some l =>
      match github_loop (length l) ctx l with
      | Err e => Err e
      | Ok pending => finish_pipeline PS_GitHubActions pending ctx
      end
  end.

(** * Native definitions (native.rs) *)

Fixpoint run_steps (id : string) (idx : nat) (run : list string) : list Step :=
  match run with
  | [] => []
  | command :: run =>
      Step_run (id +:+ "_run_" +:+ show_N (N.of_nat idx)) ("run " +:+ show_N (N.of_nat idx))
        command :: run_steps id (S idx) run
  end.

Definition native_job_from_maps (values : gmap string string)
    (arrays : gmap string (list string)) (ctx : CompileContext) :
    result PendingJob CompileError :=
  let id := from_option id "job" (values !! "id") in
  let name := from_option Datatypes.id id (values !! "name") in
  let runner_text :=
    match values !! "runner_class" with
    | Some r => r
    | None => from_option Datatypes.id (RunnerClass_as_str (default_runner ctx)) (values !! "runner")
    end in
  match RunnerClass_from_str runner_text with
  | Err _ => Err (CE_InvalidRunner runner_text)
  | Ok runner =>
      let run := match arrays !! "run" with
                 | Some r => Some r
                 | None => (λ v, [v]) <$> values !! "run"
                 end in
      match run with
      | None => Err (CE_MissingSteps id)
      | Some run =>
          if forallb (λ command, str_is_empty (trim command)) run then Err (CE_MissingSteps id)
          else
            let base := Job_new id name runner in
            Ok {| origin := id;
                  job :=
                    {| job_id := id; job_name := name; runner_class := runner;
                       steps := run_steps id 0 run; inputs := inputs base;
                       outputs := outputs base;
                       cache_mounts :=
                         match arrays !! "cache_mounts" with
                         | Some paths =>
                             map (λ path, {| mount_name := sanitize_id path; mount_path := path;
                                             mount_mode := CM_ReadOnly;
                                             mount_fingerprint := deterministic_hash path |}) paths
                         | None => default_cache_mounts id
                         end;
                       artifact_paths :=
                         match arrays !! "artifact_paths" with
                         | Some paths => [{| artifact_name := id +:+ "-artifacts";
                                             artifact_files := paths;
                                             artifact_when := AW_Always; retention_days := 14 |}]
                         | None => []
                         end;
                       network_policy := network_policy base; token_scope := token_scope base;
                       timeout_seconds :=
                         match values !! "timeout_seconds" with
                         | Some t => from_option Datatypes.id 3600%N (parse_uint u64_max t)
                         | None => timeout_seconds base
                         end;
                       retry_policy := retry_policy base |};
                  needs := from_option Datatypes.id [] (arrays !! "needs") |}
      end
  end.

(** The table being read: its scalars and its arrays; [None] before the first table. *)
Definition NativeTable : Type := option (gmap string string * gmap string (list string)).

Fixpoint native_loop (ctx : CompileContext) (table : NativeTable) (raws : list string) :
    result (list PendingJob) CompileError :=
  let close := match table with
               | Some (values, arrays) =>
                   match native_job_from_maps values arrays ctx with
                   | Ok j => Ok [j]
                   | Err e => Err e
                   end
               | None => Ok []
               end in
  match raws with
  | [] => close
  | raw :: raws =>
      let line := trim (strip_comment raw) in
      if str_is_empty line then native_loop ctx table raws
      else if bool_decide (line ∈ ["[[job]]"; "[[jobs]]"]) then
        match close with
        | Err e => Err e
        | Ok js =>
            match native_loop ctx (Some (∅, ∅)) raws with
            | Err e => Err e
            | Ok more => Ok (js ++ more)
            end
        end
      else
        match table with
        | None => native_loop ctx None raws
        | Some (values, arrays) =>
            match split_once "="%char line with
            | None => Err (CE_InvalidLine line)
            | Some (key, value) =>
                let key := trim key in
                let value := trim value in
                native_loop ctx
                  (Some (if starts_with value "["
                         then (values, <[key := parse_array_or_scalar value]> arrays)
                         else (<[key := trim_quotes value]> values, arrays))) raws
            end
        end
  end.

Definition compile_native (input : string) (ctx : CompileContext) : result Pipeline CompileError :=
  match native_loop ctx None (lines input) with
  | Err e => Err e
  | Ok pending => finish_pipeline PS_NativeToml pending ctx
  end.

(** * The compiler (lib.rs) *)

Definition pipeline_hash (p : Pipeline) : string :=
  deterministic_hash ("pipeline|" +:+ PipelineSource_as_str (source p) +:+ "|" +:+ repo p
                        +:+ "|" +:+ commit p +:+ "|" +:+ ir_hash p).

Definition compile (input : string) (kind : CiKind) (ctx : CompileContext) :
    result Pipeline CompileError :=
  if str_is_empty (trim input) then Err CE_EmptyInput
  else
    match (match kind with
           | CK_GitHubActions => compile_github input ctx
           | CK_NativeToml => compile_native input ctx
           end) with
    | Err e => Err e
    | Ok p =>
        let p := with_jobs p (pipeline_hash p) (jobs p) (edges p) in
        match validate p with
        | Err e => Err (CE_Validation (ValidationError_to_string e))
        | Ok _ => Ok p
        end
    end.

(** * The loops have fuel enough *)

Lemma span_length {A} (p : A → bool) l : length (span p l).2 ≤ length l.
Proof.
  induction l as [|x l IH]; [done|]. cbn. destruct (p x); [|cbn; lia].
  destruct (span p l). cbn in *. lia.
Qed.

Lemma block_scalar_length l ind m : length (collect_block_scalar l ind m).2 ≤ length l.
Proof.
  unfold collect_block_scalar, nested_slice.
  pose proof (span_length (λ line, ind <? indent line) l) as H.
  by destruct (span _ l).
Qed.

Lemma step_attr_length b t ind rest : length (step_attr b t ind rest).2 ≤ length rest.
Proof.
  unfold step_attr. destruct (split_once _ t) as [[key value]|]; [|done].
  destruct (_ && _); [|done].
  pose proof (block_scalar_length rest ind (trim value)) as H.
  by destruct (collect_block_scalar rest ind (trim value)).
Qed.

Lemma step_line_length st line rest : length (step_line st line rest).2 ≤ length rest.
Proof.
  unfold step_line. destruct (starts_with _ _).
  - pose proof (step_attr_length StepBuilder_default
      (trim (trim_dashes (String.length (text line)) (text line))) (indent line) rest) as H.
    by destruct (step_attr StepBuilder_default _ _ _).
  - destruct (cur st) as [b|]; [|done].
    pose proof (step_attr_length b (text line) (indent line) rest) as H.
    destruct (step_attr b (text line) (indent line) rest) as [b' next].
    destruct (if match env_at st with Some e => e <? indent line | None => false end
              then split_once ":" (text line) else None) as [[k v]|]; [done|].
    by destruct (bool_decide (text line = "env:")).
Qed.

Lemma steps_loop_fuel n m st l :
  length l ≤ n → length l ≤ m → steps_loop n st l = steps_loop m st l.
Proof.
  revert m st l. induction n as [|n IH]; intros m st [|line rest] Hn Hm; cbn in *; try lia;
    [by destruct m|by destruct m|].
  destruct m as [|m]; [lia|]. cbn. pose proof (step_line_length st line rest) as H.
  destruct (step_line st line rest) as [st' next]. cbn in H. apply IH; lia.
Qed.

Lemma nested_length l ind : length (nested_slice l ind).2 ≤ length l.
Proof. apply span_length. Qed.

Lemma job_line_length o st line rest st' next :
  job_line o st line rest = Ok (st', next) → length next ≤ length rest.
Proof.
  unfold job_line. pose proof (nested_length rest (indent line)) as H.
  destruct (nested_slice rest (indent line)) as [slice nx]. cbn in H.
  repeat case_match; intros [= <- <-]; lia.
Qed.

Lemma job_loop_fuel n m o st l :
  length l ≤ n → length l ≤ m → job_loop n o st l = job_loop m o st l.
Proof.
  revert m st l. induction n as [|n IH]; intros m st [|line rest] Hn Hm; cbn in *; try lia;
    [by destruct m|by destruct m|].
  destruct m as [|m]; [lia|]. cbn. destruct (indent line =? 4); [|apply IH; lia].
  destruct (job_line o st line rest) as [[st' next]|] eqn:Hl; [|done].
  apply job_line_length in Hl. apply IH; lia.
Qed.

Lemma github_loop_fuel n m ctx l :
  length l ≤ n → length l ≤ m → github_loop n ctx l = github_loop m ctx l.
Proof.
  revert m l. induction n as [|n IH]; intros m [|line rest] Hn Hm; cbn in *; try lia;
    [by destruct m|by destruct m|].
  destruct m as [|m]; [lia|]. cbn. destruct (is_job_header line); [|apply IH; lia].
  pose proof (span_length (λ x, negb (is_job_header x)) rest) as H.
  destruct (span _ rest) as [block next]. cbn in H.
  destruct (parse_github_job _ block ctx); [|done]. rewrite (IH m next) by lia. done.
Qed.

(** * The matrix *)

(** A combination picks one of the listed values for every key. *)
Definition picks (m : gmap string (list string)) (c : gmap string string) : Prop :=
  ∀ k, match m !! k with
       | Some vs => ∃ v, v ∈ vs ∧ c !! k = Some v
       | None => c !! k = None
       end.

Lemma elem_of_extend c combos kv :
  c ∈ extend_combos combos kv ↔ ∃ c0 v, c0 ∈ combos ∧ v ∈ kv.2 ∧ c = <[kv.1 := v]> c0.
Proof.
  unfold extend_combos. rewrite list_elem_of_bind. split.
  - intros (c0 & (v & -> & Hv)%list_elem_of_fmap & Hc0). by exists c0, v.
  - intros (c0 & v & Hc0 & Hv & ->). exists c0. split; [|done].
    apply list_elem_of_fmap. eauto.
Qed.

(** The maps built over a list of keys: those keys picked, the others as in the start. *)
Lemma elem_of_extend_all c l combos :
  NoDup l.*1 →
  c ∈ foldl extend_combos combos l ↔
  ∃ c0, c0 ∈ combos
    ∧ (∀ k vs, (k, vs) ∈ l → ∃ v, v ∈ vs ∧ c !! k = Some v)
    ∧ (∀ k, k ∉ l.*1 → c !! k = c0 !! k).
Proof.
  revert combos. induction l as [|[k vs] l IH]; intros combos Hnd; cbn [foldl].
  { split.
    - intros Hc. exists c. split_and!; [done| |done]. by intros k vs ?%elem_of_nil.
    - intros (c0 & Hc0 & _ & Heq). assert (c = c0) as ->; [|done].
      apply map_eq. intros k. apply Heq. apply not_elem_of_nil. }
  rewrite fmap_cons, NoDup_cons in Hnd. destruct Hnd as [Hk Hnd]. rewrite IH by done. split.
  - intros (c1 & (c0 & v & Hc0 & Hv & ->)%elem_of_extend & Hin & Heq). cbn in *.
    exists c0. split_and!; [done| |].
    + intros k' vs' [[= -> ->]|Hk']%elem_of_cons; [|by eapply Hin].
      exists v. split; [done|]. rewrite Heq by done. by rewrite lookup_insert_eq.
    + intros k' Hk'. cbn in Hk'. apply not_elem_of_cons in Hk' as [Hne Hk'].
      rewrite Heq by done. by rewrite lookup_insert_ne.
  - intros (c0 & Hc0 & Hin & Heq). cbn in *.
    destruct (Hin k vs) as (v & Hv & Hck); [constructor|].
    exists (<[k := v]> c0). split_and!.
    + apply elem_of_extend. cbn. eauto.
    + intros k' vs' Hk'. apply (Hin k' vs'). by right.
    + intros k' Hk'. destruct (decide (k' = k)) as [->|Hne].
      * by rewrite lookup_insert_eq.
      * rewrite lookup_insert_ne by done. apply Heq. rewrite not_elem_of_cons. by split.
Qed.

Lemma length_extend combos kv :
  length (extend_combos combos kv) = length combos * length kv.2.
Proof.
  unfold extend_combos. induction combos as [|c combos IH]; [done|].
  cbn [mbind list_bind]. rewrite length_app, length_map. cbn in IH. rewrite IH. cbn. lia.
Qed.

Lemma length_extend_all l combos :
  length (foldl extend_combos combos l)
  = length combos * foldr (λ kv n, length kv.2 * n) 1 l.
Proof.
  revert combos. induction l as [|kv l IH]; intros combos; cbn; [lia|].
  rewrite IH, length_extend. lia.
Qed.

(** The matrix expands to its cartesian product: the combinations are exactly the
    maps that pick one of the listed values for every key and have no other key, as
    many as the product of the lengths of the lists. *)
Theorem matrix_product m :
  (∀ c, c ∈ matrix_combinations m ↔ picks m c)
  ∧ length (matrix_combinations m) = foldr (λ kv n, length kv.2 * n) 1 (bt_iter m).
Proof.
  assert (Hm : matrix_combinations m = foldl extend_combos [∅] (bt_iter m)).
  { unfold matrix_combinations. case_bool_decide as He; [|done]. by rewrite He. }
  rewrite Hm, length_extend_all. split; [|cbn; lia]. intros c.
  rewrite elem_of_extend_all by apply bt_iter_NoDup_keys. unfold picks. split.
  - intros (c0 & ->%list_elem_of_singleton & Hin & Heq) k.
    destruct (m !! k) as [vs|] eqn:Hk.
    + apply Hin. by apply elem_of_bt_iter.
    + rewrite Heq; [apply lookup_empty|]. intros ([k' vs] & -> & Hv)%list_elem_of_fmap.
      apply elem_of_bt_iter in Hv. cbn in Hk. congruence.
  - intros Hp. exists ∅. split_and!; [by apply list_elem_of_singleton| |].
    + intros k vs Hk%elem_of_bt_iter. specialize (Hp k). by rewrite Hk in Hp.
    + intros k Hk. specialize (Hp k). destruct (m !! k) as [vs|] eqn:Hmk.
      * destruct Hk. apply list_elem_of_fmap. exists (k, vs). split; [done|].
        by apply elem_of_bt_iter.
      * by rewrite Hp, lookup_empty.
Qed.

(** * Assembly *)

Definition pending_ids (pending : list PendingJob) (o : string) : list string :=
  map (λ item, job_id (job item)) (filter (λ item, origin item = o) pending).

Lemma origin_to_jobs_go pending m o :
  (is_Some (foldl note_origin m pending !! o) ↔
   is_Some (m !! o) ∨ ∃ item, item ∈ pending ∧ origin item = o)
  ∧ from_option id [] (foldl note_origin m pending !! o)
    = from_option id [] (m !! o) ++ pending_ids pending o.
Proof.
  unfold pending_ids. revert m. induction pending as [|item pending IH]; intros m; cbn [foldl].
  { rewrite app_nil_r. split; [|done]. split; [by left|].
    intros [?|(? & ?%elem_of_nil & _)]; done. }
  destruct (IH (note_origin m item)) as [IH1 IH2]. rewrite IH1, IH2. unfold note_origin.
  rewrite filter_cons. case_decide as Ho.
  - subst o. rewrite lookup_insert_eq. cbn. rewrite <-app_assoc. split; [|done].
    split; [|by left]. intros _. right. exists item. split; [constructor|done].
  - rewrite lookup_insert_ne by done. split; [|done].
    setoid_rewrite elem_of_cons. naive_solver.
Qed.

Lemma origin_to_jobs_Some pending o ids :
  origin_to_jobs pending !! o = Some ids →
  ids = pending_ids pending o ∧ ∃ item, item ∈ pending ∧ origin item = o.
Proof.
  intros H. destruct (origin_to_jobs_go pending ∅ o) as [H1 H2].
  unfold origin_to_jobs in H. rewrite H, lookup_empty in H1. rewrite H, lookup_empty in H2.
  split; [done|]. destruct (proj1 H1) as [[? ?]|?]; [by eexists|done|done].
Qed.

Lemma origin_to_jobs_None pending o :
  origin_to_jobs pending !! o = None → ¬ ∃ item, item ∈ pending ∧ origin item = o.
Proof.
  intros H Hex. destruct (origin_to_jobs_go pending ∅ o) as [H1 _].
  unfold origin_to_jobs in H. rewrite H in H1. destruct (proj2 H1) as [? ?]; [by right|done].
Qed.

Lemma elem_of_pending_ids pending o f :
  f ∈ pending_ids pending o ↔ ∃ a, a ∈ pending ∧ origin a = o ∧ f = job_id (job a).
Proof.
  unfold pending_ids. split.
  - intros (a & -> & [Ho Ha]%list_elem_of_filter)%list_elem_of_fmap. eauto.
  - intros (a & Ha & Ho & ->). apply list_elem_of_fmap. exists a. split; [done|].
    by apply list_elem_of_filter.
Qed.

Definition edge_pair (e : Dependency) : string * string := (dep_from e, dep_to e).

Definition edges_ok (st : EdgeState) : Prop :=
  NoDup (edge_list st) ∧ ∀ e, e ∈ edge_list st ↔ edge_pair e ∈ edge_set st.

Lemma add_edge_ok to_ st from :
  edges_ok st →
  edges_ok (add_edge to_ st from)
  ∧ ∀ e, e ∈ edge_list (add_edge to_ st from) ↔
         e ∈ edge_list st ∨ e = {| dep_from := from; dep_to := to_ |}.
Proof.
  intros [Hnd Hin]. unfold add_edge. case_bool_decide as Hs.
  - split; [done|]. intros e. split; [by left|]. intros [?| ->]; [done|]. by apply Hin.
  - cbn. split; [split|]; cbn.
    + apply NoDup_app. split_and!; [done| |apply NoDup_singleton].
      intros e He%Hin ->%list_elem_of_singleton. by apply Hs.
    + intros [f t]. rewrite elem_of_app, list_elem_of_singleton, elem_of_union, Hin,
        elem_of_singleton. unfold edge_pair. cbn. naive_solver.
    + intros e. by rewrite elem_of_app, list_elem_of_singleton.
Qed.

Lemma add_edges_ok to_ froms st :
  edges_ok st →
  edges_ok (foldl (add_edge to_) st froms)
  ∧ ∀ e, e ∈ edge_list (foldl (add_edge to_) st froms) ↔
         e ∈ edge_list st ∨ (dep_to e = to_ ∧ dep_from e ∈ froms).
Proof.
  revert st. induction froms as [|f froms IH]; intros st Hst; cbn.
  { split; [done|]. intros e. split; [by left|]. by intros [?|[_ ?%elem_of_nil]]. }
  destruct (add_edge_ok to_ st f Hst) as [Hst' Hin'].
  destruct (IH _ Hst') as [Hok Hin]. split; [done|]. intros e.
  rewrite Hin, Hin', elem_of_cons. destruct e as [a b]; cbn. naive_solver.
Qed.

(** The edge [e] stands for a need of [item]. *)
Definition need_edge (pending : list PendingJob) (item : PendingJob) (e : Dependency) : Prop :=
  dep_to e = job_id (job item)
  ∧ ∃ a, a ∈ pending ∧ origin a ∈ needs item ∧ dep_from e = job_id (job a).

Definition known_needs (pending : list PendingJob) (item : PendingJob) : Prop :=
  ∀ need, need ∈ needs item → ∃ a, a ∈ pending ∧ origin a = need.

Lemma need_edges_spec pending item ns st :
  edges_ok st →
  match need_edges (origin_to_jobs pending) item ns st with
  | Ok st' =>
      edges_ok st' ∧ (∀ need, need ∈ ns → ∃ a, a ∈ pending ∧ origin a = need)
      ∧ ∀ e, e ∈ edge_list st' ↔
          e ∈ edge_list st
          ∨ (dep_to e = job_id (job item)
             ∧ ∃ a, a ∈ pending ∧ origin a ∈ ns ∧ dep_from e = job_id (job a))
  | Err err => ∃ need, need ∈ ns ∧ err = unknown_need item need
                       ∧ ¬ ∃ a, a ∈ pending ∧ origin a = need
  end.
Proof.
  revert st. induction ns as [|need ns IH]; intros st Hst; cbn [need_edges].
  { split_and!; [done|by intros ? ?%elem_of_nil|]. intros e. split; [by left|].
    intros [?|(_ & a & _ & ?%elem_of_nil & _)]; done. }
  destruct (origin_to_jobs pending !! need) as [ids|] eqn:Hm.
  - apply origin_to_jobs_Some in Hm as [-> Hex].
    destruct (add_edges_ok (job_id (job item)) (pending_ids pending need) st Hst) as [Hst' Hin'].
    specialize (IH _ Hst'). destruct (need_edges _ _ ns _) as [st'|err].
    + destruct IH as (Hok & Hknown & Hin). split; [done|]. split.
      * by intros n [->|Hn]%elem_of_cons; [|apply Hknown].
      * intros e. rewrite Hin, Hin', elem_of_pending_ids. setoid_rewrite elem_of_cons.
        split; [naive_solver|]. intros [?|(Ht & a & Ha & [Ho|Ho] & Hf)]; [by auto| |].
        -- left. right. split; [done|]. by exists a.
        -- right. split; [done|]. by exists a.
    + destruct IH as (n & Hn & -> & Hno). exists n. split_and!; [by right|done|done].
  - apply origin_to_jobs_None in Hm. exists need. split_and!; [constructor|done|done].
Qed.

Lemma pending_edges_spec pending items st :
  edges_ok st →
  match pending_edges (origin_to_jobs pending) items st with
  | Ok st' =>
      edges_ok st' ∧ Forall (known_needs pending) items
      ∧ ∀ e, e ∈ edge_list st' ↔
          e ∈ edge_list st ∨ ∃ item, item ∈ items ∧ need_edge pending item e
  | Err err => ∃ item need, item ∈ items ∧ need ∈ needs item
                 ∧ err = unknown_need item need ∧ ¬ ∃ a, a ∈ pending ∧ origin a = need
  end.
Proof.
  revert st. induction items as [|item items IH]; intros st Hst; cbn [pending_edges].
  { split_and!; [done|constructor|]. intros e. split; [by left|].
    intros [?|(? & ?%elem_of_nil & _)]; done. }
  pose proof (need_edges_spec pending item (needs item) st Hst) as Hneed.
  destruct (need_edges _ _ _ st) as [st1|err].
  - destruct Hneed as (Hst1 & Hknown & Hin1). specialize (IH _ Hst1).
    destruct (pending_edges _ items st1) as [st'|err].
    + destruct IH as (Hok & Hall & Hin). split_and!; [done|by constructor|].
      intros e. rewrite Hin, Hin1. unfold need_edge. setoid_rewrite elem_of_cons.
      split; [naive_solver|]. intros [?|(i & [->|Hi] & He)]; [by auto|left; right; exact He|].
      right. by exists i.
    + destruct IH as (i & n & Hi & Hn & -> & Hno). exists i, n.
      split_and!; [by right|done..].
  - destruct Hneed as (n & Hn & -> & Hno). exists item, n. split_and!; [constructor|done..].
Qed.

Lemma empty_edges_ok : edges_ok {| edge_set := ∅; edge_list := [] |}.
Proof.
  split; [constructor|]. intros e. cbn. rewrite elem_of_nil. set_solver.
Qed.

Lemma jobs_sorted js : StronglySorted (λ a b, job_leb a b = true) (isort job_leb js).
Proof. apply isort_sorted; unfold job_leb; eauto with jeryu. Qed.

Lemma edges_sorted es : StronglySorted (λ a b, edge_leb a b = true) (isort edge_leb es).
Proof.
  apply isort_sorted; unfold edge_leb; [intros ??; apply pair_leb_total|].
  intros ???. apply pair_leb_trans.
Qed.

(** Assembly keeps every job and turns exactly the needs into edges. It succeeds
    exactly when there is a job and every need names the origin of one; the pipeline
    then has the jobs it was given, in id order, and an edge from [f] to [t], once,
    exactly when some job [t] needs the origin that job [f] was expanded from. *)
Theorem finish_pipeline_spec src pending ctx :
  match finish_pipeline src pending ctx with
  | Ok p =>
      pending ≠ [] ∧ (∀ item, item ∈ pending → known_needs pending item)
      ∧ jobs p ≡ₚ map job pending ∧ StronglySorted (λ a b, job_leb a b = true) (jobs p)
      ∧ NoDup (edges p) ∧ StronglySorted (λ a b, edge_leb a b = true) (edges p)
      ∧ (∀ e, e ∈ edges p ↔ ∃ item, item ∈ pending ∧ need_edge pending item e)
      ∧ repo p = ctx_repo ctx ∧ commit p = ctx_commit ctx
      ∧ trust_tier p = ctx_trust_tier ctx ∧ source p = src
  | Err CE_MissingJobs => pending = []
  | Err err =>
      ∃ item need, item ∈ pending ∧ need ∈ needs item ∧ err = unknown_need item need
                   ∧ ¬ ∃ a, a ∈ pending ∧ origin a = need
  end.
Proof.
  unfold finish_pipeline. destruct pending as [|item0 rest] eqn:Hp; [done|].
  rewrite <-Hp. pose proof (pending_edges_spec pending pending _ empty_edges_ok) as H.
  destruct (pending_edges _ pending _) as [st|err].
  - destruct H as ([Hnd Hset] & Hknown & Hin). cbn [jobs edges with_jobs repo commit].
    rewrite Forall_forall in Hknown. split_and!; try done.
    + by rewrite Hp.
    + apply isort_perm.
    + apply jobs_sorted.
    + by rewrite isort_perm.
    + apply edges_sorted.
    + intros e. rewrite elem_of_isort, Hin. cbn. rewrite elem_of_nil. split; [|by right].
      by intros [[]|?].
  - destruct H as (item & need & ? & ? & -> & Hno). by exists item, need.
Qed.

(** * Compiled pipelines *)

Definition kind_source (kind : CiKind) : PipelineSource :=
  match kind with CK_GitHubActions => PS_GitHubActions | CK_NativeToml => PS_NativeToml end.

(** The jobs either front end hands to the assembly. *)
Definition front_end (input : string) (kind : CiKind) (ctx : CompileContext)
    (pending : list PendingJob) : Prop :=
  match kind with
  | CK_GitHubActions =>
      ∃ l, after_line (collect_lines input) 0 "jobs:" = Some l
           ∧ github_loop (length l) ctx l = Ok pending
  | CK_NativeToml => native_loop ctx None (lines input) = Ok pending
  end.

Lemma compile_inv input kind ctx p :
  compile input kind ctx = Ok p →
  ∃ pending q, front_end input kind ctx pending
    ∧ finish_pipeline (kind_source kind) pending ctx = Ok q
    ∧ p = with_jobs q (pipeline_hash q) (jobs q) (edges q) ∧ valid_pipeline p.
Proof.
  unfold compile. destruct (str_is_empty (trim input)); [done|].
  assert (∀ q r,
    match validate (with_jobs q (pipeline_hash q) (jobs q) (edges q)) with
    | Ok _ => Ok (with_jobs q (pipeline_hash q) (jobs q) (edges q))
    | Err e => Err (CE_Validation (ValidationError_to_string e))
    end = Ok r →
    r = with_jobs q (pipeline_hash q) (jobs q) (edges q) ∧ valid_pipeline r) as Hv.
  { intros q r. destruct (validate _) as [[]|] eqn:Hq; [|done]. intros [= <-].
    split; [done|]. by apply validate_valid. }
  destruct kind; unfold compile_github, compile_native.
  - destruct (after_line _ _ _) as [l|] eqn:Hl; [|done].
    destruct (github_loop _ ctx l) as [pending|] eqn:Hp; [|done].
    destruct (finish_pipeline _ pending ctx) as [q|] eqn:Hq; [|done].
    intros [??]%Hv. exists pending, q. split_and!; [by exists l|done..].
  - destruct (native_loop ctx None _) as [pending|] eqn:Hp; [|done].
    destruct (finish_pipeline _ pending ctx) as [q|] eqn:Hq; [|done].
    intros [??]%Hv. exists pending, q. by split_and!.
Qed.

Lemma finish_pipeline_Ok src pending ctx q :
  finish_pipeline src pending ctx = Ok q →
  source q = src ∧ repo q = ctx_repo ctx ∧ commit q = ctx_commit ctx
  ∧ trust_tier q = ctx_trust_tier ctx ∧ permission_policy q = PermissionPolicy_default
  ∧ secret_policy q = SecretPolicy_default ∧ jobs q ≡ₚ map job pending.
Proof.
  unfold finish_pipeline. destruct pending as [|item rest]; [done|].
  destruct (pending_edges _ _ _); [|done]. intros [= <-].
  split_and!; try done. apply (isort_perm _ (map job (item :: rest))).
Qed.

Lemma valid_schedulable p : valid_pipeline p → schedulable_ids p.
Proof.
  intros Hv. split; [by apply vp_unique|].
  intros e He. by destruct (vp_edges p Hv e He) as (?&?&_).
Qed.

(** The policies of every compiled pipeline, field by field. *)
Record standard_policies (p : Pipeline) : Prop := {
  sp_cache : jeryu_cache_policy p
    = {| project_scoped := true; allow_cross_project_compiled := false;
         promote_after_green := true; quarantine_untrusted_writes := true |};
  sp_artifact : artifact_policy p
    = {| allow_absolute_paths := false; require_metadata := true; default_retention_days := 14 |};
  sp_permission : permission_policy p
    = {| default_token_scope := TS_ReadRepo; fail_closed := true |};
  sp_secret : secret_policy p = {| secrets_available := false; deny_on_fork := true |};
  sp_proof : proof_policy p = {| proof_required := true; proof_lane := "phase3-fast" |};
  sp_signing : signing_policy p = {| provenance_required := false; release_only := true |}
}.

Lemma finish_pipeline_policies src pending ctx q :
  finish_pipeline src pending ctx = Ok q → standard_policies q.
Proof.
  unfold finish_pipeline. destruct pending as [|item rest]; [done|].
  destruct (pending_edges _ _ _); [|done]. by intros [= <-].
Qed.

(** A job of the source needs another: it lists the origin the other was expanded from. *)
Definition needed (pending : list PendingJob) (a b : string) : Prop :=
  ∃ x y, x ∈ pending ∧ y ∈ pending ∧ job_id (job x) = a ∧ job_id (job y) = b ∧ origin x ∈ needs y.

Lemma depends_needed src pending ctx q a b :
  finish_pipeline src pending ctx = Ok q → depends q a b ↔ needed pending a b.
Proof.
  intros Hq. pose proof (finish_pipeline_spec src pending ctx) as H. rewrite Hq in H.
  destruct H as (_&_&_&_&_&_&Hedges&_). unfold depends, needed. split.
  - intros (e & (y & Hy & Hto & x & Hx & Ho & Hfrom)%Hedges & <- & <-). by exists x, y.
  - intros (x & y & Hx & Hy & <- & <- & Ho). exists {| dep_from := job_id (job x); dep_to := job_id (job y) |}.
    split; [|done]. apply Hedges. exists y. split; [done|]. split; [done|]. by exists x.
Qed.

Lemma tc_iff {A} (R S : relation A) a b : (∀ a b, R a b ↔ S a b) → tc R a b ↔ tc S a b.
Proof.
  intros H. split; induction 1 as [x y Hxy|x y z Hxy _ IH].
  - by apply tc_once, H.
  - eapply tc_l; [by apply H|done].
  - by apply tc_once, H.
  - eapply tc_l; [by apply H|done].
Qed.

(** C37: what compiles is valid, belongs to the context it was compiled for, has the six
    standard policies (missing permissions fail closed, no secrets and none for forks,
    cache writes of the untrusted in quarantine, and so on), and keeps what its front end
    read: exactly the jobs, every need of which names one, and an edge between two of
    them exactly when the second needs the first. The scheduler then gives it rounds when
    these needs are acyclic, and reports a cycle otherwise. *)
Theorem compile_sound input kind ctx p :
  compile input kind ctx = Ok p →
  valid_pipeline p ∧ source p = kind_source kind
  ∧ repo p = ctx_repo ctx ∧ commit p = ctx_commit ctx ∧ trust_tier p = ctx_trust_tier ctx
  ∧ standard_policies p
  ∧ ∃ pending, front_end input kind ctx pending
      ∧ jobs p ≡ₚ map job pending
      ∧ (∀ item, item ∈ pending → known_needs pending item)
      ∧ (∀ a b, depends p a b ↔ needed pending a b)
      ∧ ((∀ a, ¬ tc (needed pending) a a) → ∃ s, deterministic_schedule p = Some (Ok s))
      ∧ (¬ (∀ a, ¬ tc (needed pending) a a) → deterministic_schedule p = Some (Err SE_Cycle)).
Proof.
  intros (pending & q & Hfront & Hq & Hp & Hv)%compile_inv.
  pose proof (valid_schedulable p Hv) as Hs. split; [done|].
  pose proof (finish_pipeline_spec (kind_source kind) pending ctx) as Hspec. rewrite Hq in Hspec.
  destruct Hspec as (_ & Hknown & Hjobs & _ & _ & _ & _ & Hrepo & Hcommit & Htier & Hsource).
  pose proof (finish_pipeline_policies _ _ _ _ Hq) as Hpol.
  assert (Hdep : ∀ a b, depends p a b ↔ needed pending a b).
  { intros a b. rewrite <-(depends_needed _ _ _ _ a b Hq). by subst p. }
  assert (Hacyclic : acyclic p ↔ ∀ a, ¬ tc (needed pending) a a).
  { unfold acyclic. by setoid_rewrite (tc_iff _ _ _ _ Hdep). }
  split_and!; try (by subst p); [subst p; by destruct Hpol; split|].
  exists pending. split_and!; try done; [by subst p|..].
  - intros Ha. apply schedule_complete; [done|by apply Hacyclic].
  - intros Hna. apply schedule_cyclic; [done|by rewrite Hacyclic].
Qed.

(** ** Bounds *)

Definition step_works (s : Step) : Prop := is_Some (step_command s) ∨ is_Some (step_uses s).

Definition artifact_bounded (a : ArtifactPath) : Prop := (retention_days a ≤ u32_max)%N.

(** The jobs the compiler builds: a machine-width timeout and retention, steps that all
    run a command or use an action, mounts that are read-only, no network, and the
    default retries. *)
Record compiled_job (j : Job) : Prop := {
  cj_timeout : (timeout_seconds j ≤ u64_max)%N;
  cj_steps : Forall step_works (steps j);
  cj_artifacts : Forall artifact_bounded (artifact_paths j);
  cj_mounts : Forall (λ m, mount_mode m = CM_ReadOnly) (cache_mounts j);
  cj_network : network_policy j = NP_Deny;
  cj_retry : retry_policy j = RetryPolicy_default
}.

(** The same of the local variables of the job parser. *)
Record bounded_state (st : JobState) : Prop := {
  bs_timeout : (js_timeout st ≤ u64_max)%N;
  bs_steps : Forall step_works (js_steps st);
  bs_artifacts : Forall artifact_bounded (js_artifacts st);
  bs_mounts : Forall (λ m, mount_mode m = CM_ReadOnly) (js_cache st)
}.

Lemma parse_uint_bound max s n : parse_uint max s = Some n → (n ≤ max)%N.
Proof.
  unfold parse_uint. destruct (str_is_empty _); [done|].
  destruct (parse_digits _ _) as [m|]; [|done].
  destruct (N.leb_spec m max) as [Hle|]; [|done]. by intros [= <-].
Qed.

Lemma parse_uint_default max d s : (d ≤ max)%N → (from_option id d (parse_uint max s) ≤ max)%N.
Proof. intros Hd. destruct (parse_uint max s) eqn:Hs; [by eapply parse_uint_bound|done]. Qed.

Lemma saturating_mul_bound m a b : (saturating_mul m a b ≤ m)%N.
Proof. unfold saturating_mul. lia. Qed.

Lemma retention_bound v : (parse_retention_days v ≤ u32_max)%N.
Proof.
  unfold parse_retention_days. repeat destruct (str_contains _ _);
    try apply saturating_mul_bound. by apply parse_uint_default.
Qed.

Lemma timeout_bound v : (parse_timeout v ≤ u64_max)%N.
Proof. apply saturating_mul_bound. Qed.

#[local] Hint Resolve timeout_bound retention_bound : jeryu.

Lemma artifact_line_bound st line :
  (as_days st ≤ u32_max)%N → (as_days (artifact_line st line) ≤ u32_max)%N.
Proof.
  intros Hst. unfold artifact_line. destruct (paths_key _ _); [done|]. cbn.
  destruct (scalar_after _ _); auto with jeryu.
Qed.

Lemma parse_artifacts_bound l o : Forall artifact_bounded (parse_artifacts l o).
Proof.
  unfold parse_artifacts.
  match goal with |- context [foldl artifact_line ?s l] => set (st0 := s) end.
  assert ((as_days (foldl artifact_line st0 l) ≤ u32_max)%N) as Hd.
  { assert ((as_days st0 ≤ u32_max)%N) as H0 by done. clearbody st0. revert st0 H0.
    induction l as [|line l IH]; intros st0 H0; [done|]. cbn. apply IH.
    by apply artifact_line_bound. }
  destruct (ps_paths _); [constructor|]. by repeat constructor.
Qed.

Lemma parse_mounts_readonly l o :
  Forall (λ m, mount_mode m = CM_ReadOnly) (parse_cache_mounts l o).
Proof. unfold parse_cache_mounts. apply Forall_fmap, Forall_true. done. Qed.

Lemma steps_from_work o idx bs ss : steps_from o idx bs = Ok ss → Forall step_works ss.
Proof.
  revert idx ss. induction bs as [|b bs IH]; intros idx ss; cbn; [by intros [= <-]|].
  unfold step_from_builder. destruct (blank (sb_run b) && blank (sb_uses b)) eqn:Hb; [done|].
  destruct (steps_from o (S idx) bs) as [more|] eqn:Hm; [|done]. intros [= <-].
  constructor; [|by eapply IH]. unfold step_works. cbn. unfold blank in Hb.
  destruct (sb_run b), (sb_uses b); eauto. done.
Qed.

Lemma substitute_work s kv : step_works s → step_works (substitute s kv).
Proof. intros [H|H]; [left|right]; cbn; by apply fmap_is_Some. Qed.

Lemma substitute_all_work s l : step_works s → step_works (foldl substitute s l).
Proof.
  revert s. induction l as [|kv l IH]; intros s Hs; [done|]. cbn. apply IH.
  by apply substitute_work.
Qed.

Lemma steps_with_matrix_work ss combo id :
  Forall step_works ss → Forall step_works (steps_with_matrix ss combo id).
Proof.
  intros Hss. unfold steps_with_matrix. apply Forall_lookup. intros i s'.
  rewrite list_lookup_imap. intros (s & Hs & ->)%fmap_Some. apply substitute_all_work.
  exact (Forall_lookup_1 _ _ _ _ Hss Hs).
Qed.

Lemma job_line_bounded o st line rest st' next :
  job_line o st line rest = Ok (st', next) → bounded_state st → bounded_state st'.
Proof.
  unfold job_line. destruct (nested_slice rest (indent line)) as [slice nx].
  intros Hl [Ht Hs Ha Hm].
  repeat first [progress case_match | progress simplify_eq]; split; cbn; auto with jeryu.
  - by eapply steps_from_work.
  - apply Forall_app. split; [done|apply parse_mounts_readonly].
  - apply Forall_app. split; [done|apply parse_artifacts_bound].
Qed.

Lemma job_loop_bounded fuel o st l st' :
  job_loop fuel o st l = Ok st' → bounded_state st → bounded_state st'.
Proof.
  revert st l. induction fuel as [|fuel IH]; intros st l; cbn; [by intros [= <-]|].
  destruct l as [|line rest]; [by intros [= <-]|].
  destruct (indent line =? 4); [|apply IH].
  destruct (job_line o st line rest) as [[st1 next]|] eqn:Hl; [|done].
  intros Hr Hst. apply (IH st1 next); [done|]. by eapply job_line_bounded.
Qed.

Lemma default_mounts_readonly id :
  Forall (λ m, mount_mode m = CM_ReadOnly) (default_cache_mounts id).
Proof. by repeat constructor. Qed.

Lemma expand_job_compiled o st combo : bounded_state st → compiled_job (job (expand_job o st combo)).
Proof.
  intros [Ht Hs Ha Hm]. split; cbn; [done|by apply steps_with_matrix_work|done| |done..].
  destruct (js_cache st); [apply default_mounts_readonly|done].
Qed.

Definition all_compiled (pending : list PendingJob) : Prop :=
  Forall (λ item, compiled_job (job item)) pending.

Lemma github_job_compiled o block ctx js :
  parse_github_job o block ctx = Ok js → all_compiled js.
Proof.
  unfold parse_github_job.
  destruct (job_loop _ o _ block) as [st|] eqn:Hst; [|done].
  destruct (js_steps st) eqn:Hs; [done|]. intros [= <-]. unfold all_compiled.
  apply Forall_fmap, Forall_true. intros combo. apply expand_job_compiled.
  apply (job_loop_bounded _ _ _ _ _ Hst). by split.
Qed.

Lemma github_loop_compiled fuel ctx l js : github_loop fuel ctx l = Ok js → all_compiled js.
Proof.
  revert l js. induction fuel as [|fuel IH]; intros l js; cbn; [by intros [= <-]; constructor|].
  destruct l as [|line rest]; [by intros [= <-]; constructor|].
  destruct (is_job_header line); [|apply IH]. destruct (span _ rest) as [block next].
  destruct (parse_github_job _ block ctx) as [js1|] eqn:H1; [|done].
  destruct (github_loop fuel ctx next) as [js2|] eqn:H2; [|done]. intros [= <-].
  apply Forall_app. split; [by eapply github_job_compiled|by eapply IH].
Qed.

Lemma run_steps_work id idx run : Forall step_works (run_steps id idx run).
Proof.
  revert idx. induction run as [|c run IH]; intros idx; cbn; [constructor|].
  constructor; [|apply IH]. left. by eexists.
Qed.

Lemma native_job_compiled values arrays ctx j :
  native_job_from_maps values arrays ctx = Ok j → compiled_job (job j).
Proof.
  unfold native_job_from_maps.
  match goal with |- context [RunnerClass_from_str ?t] => generalize t end. intros rt.
  destruct (RunnerClass_from_str rt) as [runner|]; [|done].
  destruct (match arrays !! "run" with Some r => Some r | None => _ end) as [run|]; [|done].
  destruct (forallb _ run); [done|]. intros [= <-].
  split; cbn; [|by apply run_steps_work| | |done..].
  - destruct (values !! "timeout_seconds"); [|done]. by apply parse_uint_default.
  - destruct (arrays !! "artifact_paths"); repeat constructor. done.
  - destruct (arrays !! "cache_mounts"); [|apply default_mounts_readonly].
    by apply Forall_fmap, Forall_true.
Qed.

Lemma native_loop_compiled ctx table raws js :
  native_loop ctx table raws = Ok js → all_compiled js.
Proof.
  assert (∀ t js', match t with
     | Some (values, arrays) =>
         match native_job_from_maps values arrays ctx with Ok j => Ok [j] | Err e => Err e end
     | None => Ok []
     end = Ok js' → all_compiled js') as Hclose.
  { intros [[values arrays]|] js'; [|by intros [= <-]; constructor].
    destruct (native_job_from_maps _ _ _) as [j|] eqn:Hj; [|done]. intros [= <-].
    repeat constructor; by apply native_job_compiled in Hj as []. }
  revert table js. induction raws as [|raw raws IH]; intros table js; cbn [native_loop].
  { apply Hclose. }
  destruct (str_is_empty _); [apply IH|].
  destruct (bool_decide _).
  - destruct (match table with Some _ => _ | None => _ end) as [js1|] eqn:H1; [|done].
    destruct (native_loop ctx (Some (∅, ∅)) raws) as [js2|] eqn:H2; [|done].
    intros [= <-]. apply Forall_app. split; [by apply (Hclose table)|by eapply IH].
  - destruct table as [[values arrays]|]; [|apply IH].
    destruct (split_once _ _) as [[key value]|]; [|done]. apply IH.
Qed.

(** Every job of a compiled pipeline is within its widths and restrictions, whatever
    numbers the text has: the timeout fits 64 bits and every retention 32 bits (the
    products saturate), every step runs a command or uses an action, every cache mount
    is read-only, the network is denied and the retries are the default ones. *)
Theorem compiled_bounds input kind ctx p :
  compile input kind ctx = Ok p → Forall compiled_job (jobs p).
Proof.
  intros (pending & q & Hf & Hq & -> & _)%compile_inv.
  apply finish_pipeline_Ok in Hq as (_&_&_&_&_&_&Hj). cbn [jobs with_jobs].
  rewrite Hj. apply Forall_fmap. destruct kind; cbn in Hf.
  - destruct Hf as (l & _ & Hl). by eapply github_loop_compiled.
  - by eapply native_loop_compiled.
Qed.

(** ** Samples *)

Module CompilerSamples.
Definition ctx : CompileContext := CompileContext_new "acme/demo" "abc123".

Definition workflow : string :=
  "name: demo
jobs:
  fmt:
    runs-on: ubuntu-latest
    steps:
      - run: cargo fmt --check
  test:
    runs-on: ubuntu-latest
    needs: [fmt]
    timeout-minutes: 20
    strategy:
      matrix:
        os: [linux, macos]
        toolchain: [stable, nightly]
    artifacts:
      paths:
        - target/report
      expire_in: 3 weeks
    steps:
      - name: test on ${{ matrix.os }}
        run: |
          echo prepare
          cargo +${{ matrix.toolchain }} test
".

Definition native : string :=
  "[[job]]
id = check
run = [cargo check]
[[job]]
id = test
needs = [check]
timeout_seconds = 99999999999999999999
run = [cargo test, cargo doc]
".

Definition compiled (input : string) (kind : CiKind) : Pipeline :=
  match compile input kind ctx with
  | Ok p => p
  | Err _ => Pipeline_new (kind_source kind) "" "" TT_InternalBranch
  end.

Definition ids (input : string) (kind : CiKind) : result (list string) CompileError :=
  match compile input kind ctx with Ok p => Ok (map job_id (jobs p)) | Err e => Err e end.
End CompilerSamples.

Lemma workflow_compiles :
  compile CompilerSamples.workflow CK_GitHubActions CompilerSamples.ctx
  = Ok (CompilerSamples.compiled CompilerSamples.workflow CK_GitHubActions).
Proof. vm_compute. reflexivity. Qed.

Lemma native_compiles :
  compile CompilerSamples.native CK_NativeToml CompilerSamples.ctx
  = Ok (CompilerSamples.compiled CompilerSamples.native CK_NativeToml).
Proof. vm_compute. reflexivity. Qed.

Example workflow_jobs :
  let p := CompilerSamples.compiled CompilerSamples.workflow CK_GitHubActions in
  map job_id (jobs p)
  = ["fmt"; "test__os_linux__toolchain_nightly"; "test__os_linux__toolchain_stable";
     "test__os_macos__toolchain_nightly"; "test__os_macos__toolchain_stable"]
  ∧ length (edges p) = 4
  ∧ map timeout_seconds (jobs p) = [3600; 1200; 1200; 1200; 1200]%N
  ∧ omap (λ j, retention_days <$> head (artifact_paths j)) (jobs p) = [21; 21; 21; 21]%N.
Proof. vm_compute. split_and!; reflexivity. Qed.

Lemma compile_sound_witness :
  let p := CompilerSamples.compiled CompilerSamples.workflow CK_GitHubActions in
  valid_pipeline p ∧ source p = PS_GitHubActions ∧ repo p = "acme/demo"
  ∧ ∃ pending, front_end CompilerSamples.workflow CK_GitHubActions CompilerSamples.ctx pending
      ∧ needed pending "fmt" "test__os_linux__toolchain_stable".
Proof.
  intros p. destruct (compile_sound _ _ _ p workflow_compiles)
    as (Hv & Hs & Hr & _ & _ & _ & pending & Hf & _ & _ & Hd & _).
  split; [exact Hv|]. split; [exact Hs|]. split; [exact Hr|]. exists pending. split; [exact Hf|].
  apply Hd. exists {| dep_from := "fmt"; dep_to := "test__os_linux__toolchain_stable" |}.
  split; [|split; reflexivity]. apply list_elem_of_In. vm_compute. tauto.
Defined.

(** A timeout beyond 64 bits does not parse, and the default is used. *)
Lemma compiled_bounds_witness :
  let p := CompilerSamples.compiled CompilerSamples.native CK_NativeToml in
  Forall compiled_job (jobs p) ∧ map timeout_seconds (jobs p) = [3600; 3600]%N.
Proof.
  intros p. split; [exact (compiled_bounds _ _ _ p native_compiles)|].
  vm_compute. reflexivity.
Defined.

(** *** Where the parser departs from the formats it reads *)

(** A job's id is lower-cased by the header, the names under [needs] are not: a job
    called [Build] cannot be needed by that name. *)
Example uppercase_job_not_needed :
  CompilerSamples.ids
    "jobs:
  Build:
    steps:
      - run: make
  test:
    needs: Build
    steps:
      - run: make test
" CK_GitHubActions = Err (CE_InvalidDependency "test needs unknown job Build").
Proof. vm_compute. reflexivity. Qed.

(** A list in block form under [matrix] is read as no values at all: the product is empty
    and the job is dropped without an error. *)
Example block_matrix_drops_job :
  CompilerSamples.ids
    "jobs:
  fmt:
    steps:
      - run: cargo fmt
  test:
    strategy:
      matrix:
        os:
          - linux
          - macos
    steps:
      - run: cargo test
" CK_GitHubActions = Ok ["fmt"].
Proof. vm_compute. reflexivity. Qed.

(** Comments are removed only when they start the line: one after [runs-on] becomes part
    of the runner's name. *)
Example trailing_comment_names_runner :
  map runner_class (jobs (CompilerSamples.compiled
    "jobs:
  fmt:
    runs-on: ubuntu-latest # default
    steps:
      - run: cargo fmt
" CK_GitHubActions)) = [RC_Custom "ubuntu-latest # default"].
Proof. vm_compute. reflexivity. Qed.

(** The jobs go on to the end of the file: a table after them is read as more jobs. *)
Example section_after_jobs_is_a_job :
  CompilerSamples.ids
    "jobs:
  fmt:
    steps:
      - run: cargo fmt
env:
  settings:
    verbose: true
" CK_GitHubActions = Err (CE_MissingSteps "settings").
Proof. vm_compute. reflexivity. Qed.
