(* ===== verification/JobCaches.v ===== *)
(** JobCaches: which caches a job may use, its fingerprint, and the artifacts it leaves.

    jeryu-cache-policy and jeryu-artifact-metadata (jeryu-ci-runner/crates), over the jobs
    and pipelines of CiIr. *)

From Stdlib Require Import Ascii.
From S2P Require Import Prelude Text CiIr.

(** * Caches of a job (types.rs) *)

Inductive CacheScope : Type :=
  | JobTmpfs
  | RunnerLocalProject
  | RunnerLocalRegistry
  | RepoCompiledCas
  | TenantSourceCas
  | ExplicitSharedCompiledCas (name : string)
  | ReleaseHermeticVendorSnapshot.

Record CacheDecision : Type := {
  scope : CacheScope;
  read_allowed : bool;
  write_allowed : bool;
  promote_after_green : bool;
  quarantine : bool;
  mutable_compiled_cache_allowed : bool;
  reason : string
}.

Record CachePlan : Type := {
  plan_job_id : string;
  decisions : list CacheDecision;
  fingerprint : string
}.

Inductive CachePolicyError : Type :=
  | CrossProjectCompiledDenied
  | ReleaseMutableCacheDenied
  | MissingFingerprintInput (input : string).

Definition CachePolicyError_to_string (e : CachePolicyError) : string :=
  match e with
  | CrossProjectCompiledDenied => "cross-project compiled cache is denied by default"
  | ReleaseMutableCacheDenied => "release lane cannot consume mutable compiled cache"
  | MissingFingerprintInput input => "missing cache fingerprint input: " +:+ input
  end.

(** * Fingerprints (fingerprint.rs) *)

Record FingerprintInputs : Type := {
  cache_schema_version : string; tenant_id : string; repo_id_or_scope : string;
  rustc_version : string; cargo_version : string; toolchain_channel : string;
  host_triple : string; target_triple : string; profile : string; feature_set : string;
  rustflags : string; linker_identity : string; sysroot_digest : string;
  cargo_lock_subgraph_digest : string; workspace_metadata_digest : string;
  crate_source_digest : string; build_rs_digest : string; proc_macro_digest : string;
  native_deps_digest : string; env_allowlist_digest : string; runner_rootfs_digest : string;
  sandbox_policy_digest : string; extra : gmap string string
}.

Definition default_for_dev : FingerprintInputs :=
  {|
     cache_schema_version := "phase3.v1"; tenant_id := "dev"; repo_id_or_scope := "repo";
     rustc_version := "unknown-rustc"; cargo_version := "unknown-cargo";
     toolchain_channel := "locked"; host_triple := "unknown-host";
     target_triple := "unknown-target"; profile := "dev"; feature_set := "default";
     rustflags := ""; linker_identity := "default"; sysroot_digest := "unknown-sysroot";
     cargo_lock_subgraph_digest := "unknown-lock";
     workspace_metadata_digest := "unknown-workspace"; crate_source_digest := "unknown-source";
     build_rs_digest := "none"; proc_macro_digest := "none"; native_deps_digest := "none";
     env_allowlist_digest := "empty"; runner_rootfs_digest := "native";
     sandbox_policy_digest := "phase3-sandbox"; extra := ∅
  |}.

(** The inputs that must not be blank, in the order they are asked for. *)
Definition required (i : FingerprintInputs) : list (string * string) :=
  [
   ("cache_schema_version", cache_schema_version i); ("tenant_id", tenant_id i);
   ("repo_id_or_scope", repo_id_or_scope i); ("rustc_version", rustc_version i);
   ("cargo_version", cargo_version i); ("host_triple", host_triple i);
   ("target_triple", target_triple i);
   ("cargo_lock_subgraph_digest", cargo_lock_subgraph_digest i);
   ("workspace_metadata_digest", workspace_metadata_digest i);
   ("crate_source_digest", crate_source_digest i); ("build_rs_digest", build_rs_digest i);
   ("proc_macro_digest", proc_macro_digest i); ("native_deps_digest", native_deps_digest i);
   ("env_allowlist_digest", env_allowlist_digest i);
   ("runner_rootfs_digest", runner_rootfs_digest i);
   ("sandbox_policy_digest", sandbox_policy_digest i)].

Fixpoint first_blank (l : list (string * string)) : option string :=
  match l with
  | [] => None
  | (name, value) :: l => if str_is_empty (trim value) then Some name else first_blank l
  end.

Definition inputs_validate (i : FingerprintInputs) : result () CachePolicyError :=
  match first_blank (required i) with
  | Some name => Err (MissingFingerprintInput name)
  | None => Ok tt
  end.

(** [push], which does not escape. *)
Definition push (out key value : string) : string :=
  out +:+ key +:+ "=" +:+ value +:+ newline_str.

(** The lines pushed, in order: the inputs of the job and the machine, the mounts, the
    extra inputs. *)
Definition fixed_lines (job : Job) (tier : TrustTier) (i : FingerprintInputs) :
    list (string * string) :=
  [
   ("cache_schema_version", cache_schema_version i); ("tenant_id", tenant_id i);
   ("repo_id_or_scope", repo_id_or_scope i); ("trust_tier", TrustTier_as_str tier);
   ("job_id", job_id job); ("runner_class", RunnerClass_as_str (runner_class job));
   ("rustc_version", rustc_version i); ("cargo_version", cargo_version i);
   ("toolchain_channel", toolchain_channel i); ("host_triple", host_triple i);
   ("target_triple", target_triple i); ("profile", profile i); ("feature_set", feature_set i);
   ("rustflags", rustflags i); ("linker_identity", linker_identity i);
   ("sysroot_digest", sysroot_digest i);
   ("cargo_lock_subgraph_digest", cargo_lock_subgraph_digest i);
   ("workspace_metadata_digest", workspace_metadata_digest i);
   ("crate_source_digest", crate_source_digest i); ("build_rs_digest", build_rs_digest i);
   ("proc_macro_digest", proc_macro_digest i); ("native_deps_digest", native_deps_digest i);
   ("env_allowlist_digest", env_allowlist_digest i);
   ("runner_rootfs_digest", runner_rootfs_digest i);
   ("sandbox_policy_digest", sandbox_policy_digest i)].

Definition mount_lines (job : Job) : list (string * string) :=
  (λ m, ("mount", mount_name m +:+ "|" +:+ mount_path m +:+ "|" +:+ mount_fingerprint m))
    <$> cache_mounts job.

Definition fingerprint_lines (job : Job) (tier : TrustTier) (i : FingerprintInputs) :
    list (string * string) :=
  fixed_lines job tier i ++ mount_lines job ++ bt_iter (extra i).

Definition fingerprint_text (job : Job) (tier : TrustTier) (i : FingerprintInputs) : string :=
  foldl (λ out kv, push out kv.1 kv.2) "" (fingerprint_lines job tier i).

Definition fingerprint_job (job : Job) (tier : TrustTier) (i : FingerprintInputs) : string :=
  deterministic_hash (fingerprint_text job tier i).

(** * Plans (plan.rs) *)

Definition decision (s : CacheScope) (r w promote q m : bool) (reason_ : string) :
    CacheDecision :=
  {| scope := s; read_allowed := r; write_allowed := w; promote_after_green := promote;
     quarantine := q; mutable_compiled_cache_allowed := m; reason := reason_ |}.

Definition tier_decision (tier : TrustTier) : CacheDecision :=
  match tier with
  | TT_ReleaseHermetic =>
      decision ReleaseHermeticVendorSnapshot true false false false false
        "release lanes use locked hermetic inputs only"
  | TT_ProtectedInternal | TT_InternalBranch =>
      decision RepoCompiledCas true true true false true
        "same repo and trusted tier may read/write project compiled cache after green"
  | TT_AgentAuthored =>
      decision RepoCompiledCas true true false true true
        "agent writes go to quarantine until proof receipts pass"
  | TT_ForkPr | TT_PublicUntrusted =>
      decision TenantSourceCas true false false false false
        "untrusted jobs may read source cache but cannot write trusted compiled cache"
  end.

Definition plan_cache_for_job (job : Job) (tier : TrustTier) : CachePlan :=
  {| plan_job_id := job_id job;
     decisions :=
       [decision JobTmpfs true true false false true "job-local tmpfs is ephemeral";
        decision RunnerLocalRegistry true
          match tier with TT_ProtectedInternal | TT_InternalBranch => true | _ => false end
          false match tier with TT_AgentAuthored => true | _ => false end false
          "registry/source cache may be shared, compiled outputs are not implied";
        tier_decision tier];
     fingerprint := fingerprint_job job tier default_for_dev |}.

Definition assert_cross_project_compiled_allowed (allow : bool) : result () CachePolicyError :=
  if allow then Ok tt else Err CrossProjectCompiledDenied.

Definition compiled_cache (s : CacheScope) : bool :=
  match s with RepoCompiledCas | ExplicitSharedCompiledCas _ => true | _ => false end.

Definition assert_release_cache_safe (plan : CachePlan) : result () CachePolicyError :=
  if existsb (λ d, compiled_cache (scope d) && mutable_compiled_cache_allowed d
                   && read_allowed d) (decisions plan)
  then Err ReleaseMutableCacheDenied else Ok tt.

(** * Artifacts (jeryu-artifact-metadata) *)

Record ArtifactRecord : Type := {
  record_id : string;
  record_pipeline_id : string;
  record_job_id : string;
  record_name : string;
  record_paths : list string;
  record_when : ArtifactWhen;
  record_retention_days : N;
  digest_hint : string;
  record_provenance_required : bool
}.

Inductive ArtifactError : Type :=
  | AbsolutePath (job_id path : string)
  | ParentTraversal (job_id path : string)
  | EmptyPath (job_id : string).

Definition ArtifactError_to_string (e : ArtifactError) : string :=
  match e with
  | AbsolutePath j p => "artifact path for " +:+ j +:+ " must be relative: " +:+ p
  | ParentTraversal j p =>
      "artifact path for " +:+ j +:+ " cannot traverse parent dirs: " +:+ p
  | EmptyPath j => "artifact path for " +:+ j +:+ " cannot be empty"
  end.

Fixpoint validate_paths (job : string) (paths : list string) (allow_absolute : bool) :
    result () ArtifactError :=
  match paths with
  | [] => Ok tt
  | path :: paths =>
      let trimmed := trim path in
      if str_is_empty trimmed then Err (EmptyPath job)
      else if negb allow_absolute && starts_with trimmed "/" then Err (AbsolutePath job path)
      else if existsb (λ part, bool_decide (part = "..")) (split_on "/" trimmed) then
        Err (ParentTraversal job path)
      else validate_paths job paths allow_absolute
  end.

Definition artifact_canonical (p : Pipeline) (j : Job) (a : ArtifactPath) : string :=
  "artifact|" +:+ pipeline_id p +:+ "|" +:+ job_id j +:+ "|" +:+ artifact_name a +:+ "|"
  +:+ ArtifactWhen_as_str (artifact_when a) +:+ "|" +:+ show_N (retention_days a) +:+ "|"
  +:+ join "," (artifact_files a).

Definition artifact_record (p : Pipeline) (j : Job) (a : ArtifactPath) : ArtifactRecord :=
  {| record_id := deterministic_hash (artifact_canonical p j a);
     record_pipeline_id := pipeline_id p; record_job_id := job_id j;
     record_name := artifact_name a; record_paths := artifact_files a;
     record_when := artifact_when a; record_retention_days := retention_days a;
     digest_hint := deterministic_hash ("digest-hint|" +:+ artifact_canonical p j a);
     record_provenance_required := provenance_required (signing_policy p) |}.

(** The two loops: every job's artifacts in order. *)
Fixpoint collect_records (p : Pipeline) (l : list (Job * ArtifactPath)) :
    result (list ArtifactRecord) ArtifactError :=
  match l with
  | [] => Ok []
  | (j, a) :: l =>
      match validate_paths (job_id j) (artifact_files a)
              (allow_absolute_paths (artifact_policy p)) with
      | Err e => Err e
      | Ok _ =>
          match collect_records p l with
          | Ok rs => Ok (artifact_record p j a :: rs)
          | Err e => Err e
          end
      end
  end.

Definition record_leb (a b : ArtifactRecord) : bool :=
  pair_leb (record_job_id a, record_name a) (record_job_id b, record_name b).

Definition pipeline_artifacts (p : Pipeline) : list (Job * ArtifactPath) :=
  flat_map (λ j, pair j <$> artifact_paths j) (jobs p).

Definition plan_artifacts (p : Pipeline) : result (list ArtifactRecord) ArtifactError :=
  match collect_records p (pipeline_artifacts p) with
  | Ok rs => Ok (isort record_leb rs)
  | Err e => Err e
  end.

(** * Fingerprints tell inputs apart *)

Definition one_line (s : string) : bool :=
  string_all (λ c, negb (Ascii.eqb c newline)) s.

(** A line that can be read back: no newline, and no equals sign in its key. *)
Definition plain (kv : string * string) : bool :=
  string_all (λ c, negb (Ascii.eqb c "=")) kv.1 && one_line kv.1 && one_line kv.2.

Definition text_of (l : list (string * string)) : string :=
  foldr (λ kv out, kv.1 +:+ "=" +:+ kv.2 +:+ newline_str +:+ out) "" l.

Lemma push_text l out : foldl (λ out kv, push out kv.1 kv.2) out l = out +:+ text_of l.
Proof.
  revert out. induction l as [|[k v] l IH]; intros out; simpl; [by rewrite append_nil_r|].
  rewrite IH. unfold push. by rewrite !append_assoc.
Qed.

Lemma text_of_inj l l' :
  forallb plain l = true → forallb plain l' = true → text_of l = text_of l' → l = l'.
Proof.
  revert l'. induction l as [|[k v] l IH]; intros [|[k' v'] l']; simpl; try done.
  - intros _ _ H. by destruct k'.
  - intros _ _ H. by destruct k.
  - unfold plain at 1 3. simpl.
    intros [[[Hk _]%andb_prop Hv]%andb_prop Hl]%andb_prop
      [[[Hk' _]%andb_prop Hv']%andb_prop Hl']%andb_prop H.
    apply (split_at_char "=" _ _ _ _ Hk Hk') in H as [-> H].
    apply (split_at_char newline _ _ _ _ Hv Hv') in H as [-> H].
    f_equal. by apply IH.
Qed.

Lemma filter_all {A} (P : A → Prop) `{∀ x, Decision (P x)} l : Forall P l → filter P l = l.
Proof. induction 1 as [|x l Hx _ IH]; [done|]. by rewrite filter_cons_True, IH. Qed.

Lemma filter_none {A} (P : A → Prop) `{∀ x, Decision (P x)} l :
  Forall (λ x, ¬ P x) l → filter P l = [].
Proof. induction 1 as [|x l Hx _ IH]; [done|]. by rewrite filter_cons_False. Qed.

Definition is_mount (kv : string * string) : Prop := kv.1 = "mount".

#[local] Instance is_mount_dec kv : Decision (is_mount kv).
Proof. unfold is_mount. apply _. Defined.

(** Mount lines and other lines can be told apart when no other line is called mount. *)
Lemma mounts_apart job (m : gmap string string) :
  m !! "mount" = None →
  filter is_mount (mount_lines job ++ bt_iter m) = mount_lines job
  ∧ filter (λ kv, ¬ is_mount kv) (mount_lines job ++ bt_iter m) = bt_iter m.
Proof.
  intros Hm.
  assert (Forall (λ kv, ¬ is_mount kv) (bt_iter m)).
  { apply Forall_forall. intros [k v] Hin%elem_of_bt_iter. unfold is_mount. simpl. congruence. }
  assert (Forall is_mount (mount_lines job)) as Hj by by apply Forall_fmap, Forall_forall.
  rewrite !filter_app. split.
  - by rewrite filter_all, filter_none, app_nil_r.
  - rewrite filter_none, filter_all; [done..|]. eapply Forall_impl; [exact Hj|]. auto.
Qed.

(** What a fingerprint hashes tells its inputs apart. When no value holds a newline and
    no extra key a newline or an equals sign, two jobs with the same text have the same
    tier, the same identifier and the same value of every input; with no extra input called
    mount they have the same mount lines and the same extra inputs too. *)
Theorem fingerprint_text_inj job job' tier tier' i i' :
  forallb plain (fingerprint_lines job tier i) = true →
  forallb plain (fingerprint_lines job' tier' i') = true →
  fingerprint_text job tier i = fingerprint_text job' tier' i' →
  tier = tier' ∧ fixed_lines job tier i = fixed_lines job' tier' i'
  ∧ (extra i !! "mount" = None → extra i' !! "mount" = None →
     mount_lines job = mount_lines job' ∧ extra i = extra i').
Proof.
  intros Hp Hp'. unfold fingerprint_text. rewrite !push_text. intros H.
  apply (text_of_inj _ _ Hp Hp') in H. unfold fingerprint_lines in H.
  apply app_inj_1 in H as [Hf H]; [|done]. split_and!; [|done|].
  - apply TrustTier_as_str_inj. by injection Hf.
  - intros [H1 H2]%(mounts_apart job) [H1' H2']%(mounts_apart job').
    rewrite H in H1, H2. split; [by rewrite <-H1, H1'|]. apply bt_iter_inj. by rewrite <-H2, H2'.
Qed.

Lemma inputs_validate_spec i :
  inputs_validate i = Ok tt ↔ ∀ name v, (name, v) ∈ required i → trim v ≠ "".
Proof.
  unfold inputs_validate. induction (required i) as [|[name v] l IH]; simpl.
  { split; [set_solver|done]. }
  destruct (str_is_empty (trim v)) eqn:Hv.
  - apply bool_decide_eq_true in Hv. split; [done|]. intros H.
    by destruct (H name v); [constructor|].
  - apply bool_decide_eq_false in Hv. rewrite IH. setoid_rewrite elem_of_cons. naive_solver.
Qed.

(** * Who may write what *)

(** In the plan of a job, writes that reach the compiled cache of the repository
    unquarantined, or are promoted once the build is green, are of trusted branches only;
    forks and the public write nothing but their own tmpfs; and a plan is fit for a release
    exactly when it is not of a tier that reads the compiled cache. *)
Theorem cache_plan_safe job tier :
  let plan := plan_cache_for_job job tier in
  (∀ d, d ∈ decisions plan → compiled_cache (scope d) = true → write_allowed d = true →
     quarantine d = false ∨ promote_after_green d = true →
     tier = TT_ProtectedInternal ∨ tier = TT_InternalBranch)
  ∧ (∀ d, d ∈ decisions plan → tier = TT_ForkPr ∨ tier = TT_PublicUntrusted →
     write_allowed d = true → scope d = JobTmpfs)
  ∧ (is_ok (assert_release_cache_safe plan)
     = bool_decide (tier ∈ [TT_ReleaseHermetic; TT_ForkPr; TT_PublicUntrusted])).
Proof.
  cbv zeta. split_and!.
  - intros d Hd. destruct tier; simpl in Hd; repeat (apply elem_of_cons in Hd as [->|Hd]);
      try (by apply elem_of_nil in Hd); simpl; naive_solver.
  - intros d Hd [-> | ->]; simpl in Hd; repeat (apply elem_of_cons in Hd as [->|Hd]);
      try (by apply elem_of_nil in Hd); done.
  - by destruct tier.
Qed.

Lemma release_cache_safe_spec plan :
  assert_release_cache_safe plan = Ok tt ↔
  ∀ d, d ∈ decisions plan → compiled_cache (scope d) = true →
    mutable_compiled_cache_allowed d = true → read_allowed d = false.
Proof.
  unfold assert_release_cache_safe. case_match eqn:He.
  - split; [done|]. apply existsb_exists in He as (d&Hd%list_elem_of_In&Hb).
    rewrite !andb_true_iff in Hb. intros H. destruct Hb as [[? ?] ?].
    by rewrite (H d) in *.
  - split; [|done]. intros _ d Hd Hc Hm. destruct (read_allowed d) eqn:Hr; [|done].
    enough (false = true) by done. rewrite <-He. apply existsb_exists. exists d.
    rewrite Hc, Hm, Hr. split; [by apply list_elem_of_In|done].
Qed.

(** * Artifacts *)

(** A path that stays below the directory it is relative to. *)
Definition safe_path (allow_absolute : bool) (path : string) : Prop :=
  trim path ≠ "" ∧ (allow_absolute = false → starts_with (trim path) "/" = false)
  ∧ ".." ∉ split_on "/" (trim path).

Lemma validate_paths_spec job paths aa :
  validate_paths job paths aa = Ok tt ↔ ∀ p, p ∈ paths → safe_path aa p.
Proof.
  induction paths as [|p paths IH]; simpl; [split; [set_solver|done]|].
  setoid_rewrite elem_of_cons. unfold safe_path in *.
  destruct (str_is_empty (trim p)) eqn:He.
  { apply bool_decide_eq_true in He. split; [done|]. intros H. by destruct (H p) as [? _]; [left|]. }
  apply bool_decide_eq_false in He.
  destruct (negb aa && starts_with (trim p) "/") eqn:Ha.
  { apply andb_prop in Ha as [Haa Ha]. split; [done|]. intros H.
    destruct (H p) as (_&Hs&_); [by left|]. rewrite Hs in Ha by (by destruct aa). done. }
  case_match eqn:Hd.
  { split; [done|]. intros H. destruct (H p) as (_&_&Hs); [by left|]. destruct Hs.
    apply existsb_exists in Hd as (x&Hx&->%bool_decide_eq_true). by apply list_elem_of_In. }
  rewrite IH. split.
  - intros H q [->|Hq]; [|by apply H]. split_and!; [done| |].
    + intros ->. done.
    + intros Hin. enough (false = true) by done. rewrite <-Hd. apply existsb_exists.
      exists "..". split; [by apply list_elem_of_In|done].
  - intros H q Hq. apply H. by right.
Qed.

Lemma collect_records_spec p l rs :
  collect_records p l = Ok rs ↔
  (∀ ja f, ja ∈ l → f ∈ artifact_files ja.2 →
     safe_path (allow_absolute_paths (artifact_policy p)) f)
  ∧ rs = (λ ja, artifact_record p ja.1 ja.2) <$> l.
Proof.
  revert rs. induction l as [|[j a] l IH]; intros rs; simpl.
  { split; [|by intros [_ ->]]. intros [= <-]. split; [set_solver|done]. }
  setoid_rewrite elem_of_cons.
  destruct (validate_paths _ _ _) as [[]|e] eqn:Hv.
  - pose proof (proj1 (validate_paths_spec _ _ _) Hv) as Hp. destruct (collect_records p l) as [rs'|e].
    + destruct (IH rs') as [H1 _]. destruct (H1 eq_refl) as [Hs ->]. split.
      * intros [= <-]. split; [|done]. intros ? f [->|?]; eauto.
      * by intros [_ ->].
    + split; [done|]. intros [Hs ->]. destruct (IH ((λ ja, artifact_record p ja.1 ja.2) <$> l)) as [_ H2].
      discriminate H2. split; [|done]. eauto.
  - split; [done|]. intros [Hs _]. exfalso.
    assert (validate_paths (job_id j) (artifact_files a)
      (allow_absolute_paths (artifact_policy p)) = Ok tt) as Hok; [|by rewrite Hv in Hok].
    apply validate_paths_spec. intros f Hf. apply (Hs (j, a)); [by left|done].
Qed.

Lemma record_leb_total a b : record_leb a b = true ∨ record_leb b a = true.
Proof. apply pair_leb_total. Qed.

Lemma record_leb_trans a b c :
  record_leb a b = true → record_leb b c = true → record_leb a c = true.
Proof. apply pair_leb_trans. Qed.

(** Planning the artifacts of a pipeline succeeds exactly when no path of them is blank,
    absolute where that is not allowed, or climbs out of its directory; it then gives one
    record for each artifact, ordered by job and name. *)
Theorem plan_artifacts_spec p :
  (∀ rs, plan_artifacts p = Ok rs →
     (∀ r f, r ∈ rs → f ∈ record_paths r →
        safe_path (allow_absolute_paths (artifact_policy p)) f)
     ∧ rs ≡ₚ (λ ja, artifact_record p ja.1 ja.2) <$> pipeline_artifacts p
     ∧ StronglySorted (λ a b, record_leb a b = true) rs)
  ∧ ((∀ ja f, ja ∈ pipeline_artifacts p → f ∈ artifact_files ja.2 →
        safe_path (allow_absolute_paths (artifact_policy p)) f) ↔ is_ok (plan_artifacts p) = true).
Proof.
  unfold plan_artifacts. split.
  - intros rs. destruct (collect_records _ _) as [rs'|] eqn:Hc; [|done].
    apply collect_records_spec in Hc as [Hs ->]. intros [= <-]. split_and!.
    + intros r f. rewrite elem_of_isort, list_elem_of_fmap. intros (ja&->&Hja) Hf. eauto.
    + by rewrite isort_perm.
    + apply isort_sorted; [apply record_leb_total|apply record_leb_trans].
  - destruct (collect_records _ _) as [rs'|e] eqn:Hc.
    + split; [done|]. intros _. by apply collect_records_spec in Hc as [Hs _].
    + split; [|done]. intros Hs. exfalso.
      assert (collect_records p (pipeline_artifacts p) =
        Ok ((λ ja, artifact_record p ja.1 ja.2) <$> pipeline_artifacts p)) as Hok
        by by apply collect_records_spec.
      by rewrite Hc in Hok.
Qed.

(** * Samples *)

Definition sample_mount : CacheMount :=
  {| mount_name := "target"; mount_path := "target/"; mount_mode := CM_ReadOnly;
     mount_fingerprint := "fp" |}.

Definition job_with (mounts : list CacheMount) (artifacts : list ArtifactPath) : Job :=
  let j := Job_new "test" "test" RC_NativeRustClean in
  {| job_id := job_id j; job_name := job_name j; runner_class := runner_class j;
     steps := []; inputs := ∅; outputs := ∅; cache_mounts := mounts;
     artifact_paths := artifacts; network_policy := network_policy j;
     token_scope := token_scope j; timeout_seconds := timeout_seconds j;
     retry_policy := retry_policy j |}.

Definition with_extra (m : gmap string string) : FingerprintInputs :=
  let i := default_for_dev in
  Build_FingerprintInputs (cache_schema_version i) (tenant_id i) (repo_id_or_scope i)
    (rustc_version i) (cargo_version i) (toolchain_channel i) (host_triple i)
    (target_triple i) (profile i) (feature_set i) (rustflags i) (linker_identity i)
    (sysroot_digest i) (cargo_lock_subgraph_digest i) (workspace_metadata_digest i)
    (crate_source_digest i) (build_rs_digest i) (proc_macro_digest i) (native_deps_digest i)
    (env_allowlist_digest i) (runner_rootfs_digest i) (sandbox_policy_digest i) m.

Lemma fingerprint_text_inj_witness :
  fixed_lines (job_with [sample_mount] []) TT_InternalBranch (with_extra {["K" := "1"]})
  = fixed_lines (job_with [sample_mount] []) TT_InternalBranch (with_extra {["K" := "1"]}).
Proof.
  apply (fingerprint_text_inj (job_with [sample_mount] []) (job_with [sample_mount] [])
    TT_InternalBranch TT_InternalBranch (with_extra {["K" := "1"]}) (with_extra {["K" := "1"]}));
    by vm_compute.
Defined.

(** The lines are not escaped and an extra input may be called mount: a mount and an extra
    input have the same fingerprint, and so have two flags and a flag with a newline. *)
Lemma fingerprint_collision :
  fingerprint_job (job_with [sample_mount] []) TT_InternalBranch (with_extra ∅)
  = fingerprint_job (job_with [] []) TT_InternalBranch (with_extra {["mount" := "target|target/|fp"]})
  ∧ fingerprint_job (job_with [] []) TT_ForkPr (with_extra {["A" := "1"; "B" := "2"]})
    = fingerprint_job (job_with [] []) TT_ForkPr
        (with_extra {["A" := "1" +:+ newline_str +:+ "B=2"]}).
Proof. by vm_compute. Qed.

Lemma cache_plan_safe_witness :
  let plan := plan_cache_for_job (job_with [] []) TT_InternalBranch in
  (∃ d, d ∈ decisions plan ∧ compiled_cache (scope d) = true ∧ write_allowed d = true
        ∧ promote_after_green d = true)
  ∧ is_ok (assert_release_cache_safe plan) = false
  ∧ (TT_InternalBranch = TT_ProtectedInternal ∨ TT_InternalBranch = TT_InternalBranch).
Proof.
  cbv zeta. destruct (cache_plan_safe (job_with [] []) TT_InternalBranch) as (H1&_&H3).
  split; [exists (tier_decision TT_InternalBranch); split_and!; [|done..]|].
  { apply list_elem_of_In. simpl. auto. }
  split; [by rewrite H3|].
  apply (H1 (tier_decision TT_InternalBranch)); [apply list_elem_of_In; simpl; auto|done|done|].
  by right.
Defined.

Definition junit (path : string) : ArtifactPath :=
  {| artifact_name := "junit"; artifact_files := [path]; artifact_when := AW_Always;
     retention_days := 14 |}.

Definition pipeline_of (j : Job) : Pipeline := IrSamples.with_jobs IrSamples.base [j] [].

Lemma plan_artifacts_spec_witness :
  ∃ rs, plan_artifacts (pipeline_of (job_with [] [junit "target/junit.xml"])) = Ok rs
    ∧ length rs = 1 ∧ ∀ r f, r ∈ rs → f ∈ record_paths r → safe_path false f.
Proof.
  destruct (plan_artifacts_spec (pipeline_of (job_with [] [junit "target/junit.xml"]))) as [H _].
  eexists. split; [reflexivity|]. split; [reflexivity|].
  destruct (H _ eq_refl) as [Hs _]. exact Hs.
Defined.

Lemma unsafe_paths_refused :
  plan_artifacts (pipeline_of (job_with [] [junit "/etc/passwd"]))
  = Err (AbsolutePath "test" "/etc/passwd")
  ∧ plan_artifacts (pipeline_of (job_with [] [junit " target/../secret"]))
    = Err (ParentTraversal "test" " target/../secret").
Proof. by vm_compute. Qed.
