(* ===== verification/Floats.v ===== *)
(** Floats: what the program uses of f32 and f64.

    A float is its IEEE value; conversions and the four operations round to nearest, ties to
    even, as SpecFloat does. Texts are those of Rust's Display and FromStr. *)

From Stdlib Require Export SpecFloat.
From Stdlib Require Import ZArith Ascii.
From S2P Require Import Prelude Text.

(** * Arithmetic *)

Notation f64 := spec_float.
Notation f32 := spec_float.
Notation f64_mul := (SFmul 53 1024).
Notation f64_div := (SFdiv 53 1024).

(** The float of the given precision nearest to [m * 10 ^ e]. *)
Definition decimal (prec emax : Z) (m : positive) (e : Z) : spec_float :=
  if (0 <=? e)%Z then binary_normalize prec emax (Z.pos m * 10 ^ e) 0 false
  else SFdiv prec emax (S754_finite false m 0) (S754_finite false (Z.to_pos (10 ^ (- e))) 0).

(** [n as f64]. *)
Definition f64_of_N (n : N) : f64 := binary_normalize 53 1024 (Z.of_N n) 0 false.

Definition f64_decimal (m : positive) (e : Z) : f64 := decimal 53 1024 m e.
Definition f32_decimal (m : positive) (e : Z) : f32 := decimal 24 128 m e.

Definition f64_neg (b : bool) (x : f64) : f64 := if b then SFopp x else x.

Definition is_finite (x : f64) : bool :=
  match x with S754_zero _ | S754_finite _ _ _ => true | _ => false end.

Definition i64_max : Z := 9223372036854775807.

(** [x.floor() as i64]: the cast saturates, and sends NaN to zero. *)
Definition floor_i64 (x : f64) : Z :=
  match x with
  | S754_nan | S754_zero _ => 0
  | S754_infinity s => if s then - i64_max - 1 else i64_max
  | S754_finite s m e =>
      let v := if s then Z.neg m else Z.pos m in
      let fl := if (0 <=? e)%Z then v * 2 ^ e else v / 2 ^ (- e) in
      Z.max (- i64_max - 1) (Z.min fl i64_max)
  end%Z.

(** The quotient to the nearest integer, ties to even. *)
Definition div_round (n d : Z) : Z :=
  let q := (n / d)%Z in
  match (2 * (n mod d) ?= d)%Z with
  | Lt => q
  | Gt => q + 1
  | Eq => if Z.even q then q else q + 1
  end%Z.

(** * Text *)

(** [{x:.k}]. *)
Definition show_fixed (k : nat) (x : f64) : string :=
  let sign (s : bool) := if s then "-" else "" in
  let unit := (10 ^ Z.of_nat k)%Z in
  let digits (v : Z) :=
    show_N (Z.to_N (v / unit))
    +:+ (if k is O then "" else "." +:+ pad_left k (show_N (Z.to_N (v mod unit)))) in
  match x with
  | S754_nan => "NaN"
  | S754_infinity s => sign s +:+ "inf"
  | S754_zero s => sign s +:+ digits 0%Z
  | S754_finite s m e =>
      sign s +:+ digits (if (0 <=? e)%Z then Z.pos m * 2 ^ e * unit
                         else div_round (Z.pos m * unit) (2 ^ (- e)))%Z
  end.

(** [str::parse::<f64>]. *)
Fixpoint take_digits (s : string) : string * string :=
  match s with
  | "" => ("", "")
  | String c s' =>
      if is_ascii_digit c then let (a, b) := take_digits s' in (String c a, b) else ("", s)
  end.

Definition strip_sign (s : string) : bool * string :=
  match s with
  | String "-"%char s' => (true, s')
  | String "+"%char s' => (false, s')
  | _ => (false, s)
  end.

Definition digits_value (s : string) : N :=
  match parse_digits s 0 with Some n => n | None => 0 end.

(** The exponent part at the end of a number, if nothing else follows. *)
Definition parse_exponent (s : string) : option Z :=
  match s with
  | "" => Some 0%Z
  | String c s' =>
      if Ascii.eqb c "e" || Ascii.eqb c "E" then
        let (neg, s') := strip_sign s' in
        let (ds, rest) := take_digits s' in
        if str_is_empty ds || negb (str_is_empty rest) then None
        else Some (if neg then - Z.of_N (digits_value ds) else Z.of_N (digits_value ds))%Z
      else None
  end.

Definition parse_f64 (s : string) : option f64 :=
  let (neg, s) := strip_sign s in
  let word := lowercase s in
  if bool_decide (word = "inf") || bool_decide (word = "infinity") then
    Some (S754_infinity neg)
  else if bool_decide (word = "nan") then Some S754_nan
  else
    let (whole, s) := take_digits s in
    let (frac, s) := match s with String "."%char s' => take_digits s' | _ => ("", s) end in
    if str_is_empty whole && str_is_empty frac then None
    else
      e ← parse_exponent s;
      Some (match digits_value (whole +:+ frac) with
            | 0%N => S754_zero neg
            | N.pos m => f64_neg neg (f64_decimal m (e - Z.of_nat (String.length frac)))
            end).


(** [{x}]: the fewest digits that read back as the same float, the closest such, written
    without an exponent. The digits of [n / d] before the point, less the zeros after it. *)
Fixpoint leading_zeros (fuel : nat) (n d : Z) : Z :=
  match fuel with
  | O => 0
  | S fuel => if (d <=? n * 10)%Z then 0 else 1 + leading_zeros fuel (n * 10) d
  end%Z.

Definition point_of (n d : Z) : Z :=
  if (d <=? n)%Z then Z.of_nat (String.length (show_N (Z.to_N (n / d))))
  else (- leading_zeros 400 n d)%Z.

(** The candidates of [k] digits next to [n / d], and the closer of those that read back. *)
Definition closest (prec emax : Z) (x : spec_float) (n d : Z) (point : Z) (k : nat) : option Z :=
  let e := (point - Z.of_nat k)%Z in
  let n' := if (0 <=? e)%Z then n else (n * 10 ^ (- e))%Z in
  let d' := if (0 <=? e)%Z then (d * 10 ^ e)%Z else d in
  let lo := (n' / d')%Z in
  let ok (c : Z) := (0 <? c)%Z && SFeqb (decimal prec emax (Z.to_pos c) e) x in
  let hi_closer := (d' <? 2 * (n' mod d'))%Z in
  if ok lo && negb (hi_closer && ok (lo + 1)%Z) then Some lo
  else if ok (lo + 1)%Z then Some (lo + 1)%Z else None.

Fixpoint shortest (prec emax : Z) (x : spec_float) (n d point : Z) (k fuel : nat) :
    option (Z * nat) :=
  match fuel with
  | O => None
  | S fuel =>
      match closest prec emax x n d point k with
      | Some c => Some (c, k)
      | None => shortest prec emax x n d point (S k) fuel
      end
  end.

(** Digits with the point after the first [point] of them. *)
Definition place_point (digits : string) (point : Z) : string :=
  let len := Z.of_nat (String.length digits) in
  if (point <=? 0)%Z then "0." +:+ string_repeat "0" (Z.to_nat (- point)) +:+ digits
  else if (len <=? point)%Z then digits +:+ string_repeat "0" (Z.to_nat (point - len))
  else String.substring 0 (Z.to_nat point) digits +:+ "."
       +:+ String.substring (Z.to_nat point) (String.length digits) digits.

Definition show_float (prec emax : Z) (x : spec_float) : string :=
  let sign (s : bool) := if s then "-" else "" in
  match x with
  | S754_nan => "NaN"
  | S754_infinity s => sign s +:+ "inf"
  | S754_zero s => sign s +:+ "0"
  | S754_finite s m e =>
      let n := (Z.pos m * 2 ^ Z.max e 0)%Z in let d := (2 ^ Z.max (- e) 0)%Z in
      let point := point_of n d in
      sign s +:+ match shortest prec emax (S754_finite false m e) n d point 1 17 with
                 | Some (c, k) =>
                     let digits := show_N (Z.to_N c) in
                     place_point digits
                       (point + Z.of_nat (String.length digits) - Z.of_nat k)%Z
                 | None => ""
                 end
  end.

Definition show_f32 (x : f32) : string := show_float 24 128 x.
Definition show_f64 (x : f64) : string := show_float 53 1024 x.

Lemma float_texts :
  show_f32 (f32_decimal 48 (-1)) = "4.8" ∧ show_f32 (f32_decimal 2 0) = "2"
  ∧ show_f32 (f32_decimal 1 (-3)) = "0.001" ∧ show_f32 (f32_decimal 16777216 0) = "16777216"
  ∧ show_f64 (f64_decimal 3 (-1)) = "0.3" ∧ show_f64 (f64_of_N 100) = "100"
  ∧ show_f64 (SFadd 53 1024 (f64_decimal 1 (-1)) (f64_decimal 2 (-1))) = "0.30000000000000004"
  ∧ parse_f64 "1e-3" = Some (f64_decimal 1 (-3)) ∧ parse_f64 "1." = Some (f64_of_N 1)
  ∧ parse_f64 "." = None.
Proof. by vm_compute. Qed.
