(* ===== verification/Governor.v ===== *)
(** Governor: how many workers a build may run.

    jeryu-ci-governor (jeryu-ci-runner/crates/jeryu-ci-governor/src): the reading of the
    system's pressure (SystemLoad::probe), the decision (decide_jobs) and the command line
    (bin/jeryu-ci-governor.rs). What /proc holds and the
    number of processors are arguments of the reading. *)

From Stdlib Require Import ZArith Ascii.
From S2P Require Import Prelude Text Floats.

(** * Pressure *)

Record SystemLoad : Type := {
  ncpu : N;
  total_mem_bytes : N;
  available_mem_bytes : N;
  swap_total_bytes : N;
  swap_used_bytes : N;
  load1 : f64
}.

Definition MIB : N := 1048576.
Definition GIB : N := 1073741824.

Definition parse_meminfo_kb (rest : string) : option N :=
  match split_whitespace rest with w :: _ => parse_uint u64_max w | [] => None end.

(** What the loop over /proc/meminfo has read. *)
Record MemInfo : Type := {
  mi_total : N; mi_available : N; mi_swap_total : N; mi_swap_free : N; mi_saw : bool
}.

Definition meminfo_line (m : MemInfo) (line : string) : MemInfo :=
  match split_once ":" line with
  | None => m
  | Some (key, rest) =>
      match parse_meminfo_kb rest with
      | None => m
      | Some kb =>
          let bytes := saturating_mul u64_max kb 1024 in
          if bool_decide (key = "MemTotal") then
            {| mi_total := bytes; mi_available := mi_available m;
               mi_swap_total := mi_swap_total m; mi_swap_free := mi_swap_free m;
               mi_saw := mi_saw m |}
          else if bool_decide (key = "MemAvailable") then
            {| mi_total := mi_total m; mi_available := bytes;
               mi_swap_total := mi_swap_total m; mi_swap_free := mi_swap_free m;
               mi_saw := true |}
          else if bool_decide (key = "SwapTotal") then
            {| mi_total := mi_total m; mi_available := mi_available m;
               mi_swap_total := bytes; mi_swap_free := mi_swap_free m; mi_saw := mi_saw m |}
          else if bool_decide (key = "SwapFree") then
            {| mi_total := mi_total m; mi_available := mi_available m;
               mi_swap_total := mi_swap_total m; mi_swap_free := bytes; mi_saw := mi_saw m |}
          else m
      end
  end.

Definition read_load1 (ncpu : N) (loadavg : option string) : f64 :=
  match (s ← loadavg; f ← head (split_whitespace s); parse_f64 f) with
  | Some v => if is_finite v && SFleb (S754_zero false) v then v else f64_of_N ncpu
  | None => f64_of_N ncpu
  end.

(** [parallelism] is [available_parallelism], if it answers; the cast to [u32] keeps its
    low bits. *)
Definition probe (parallelism : option N) (meminfo loadavg : option string) : SystemLoad :=
  let ncpu := (match parallelism with Some n => n | None => 1 end mod 4294967296)%N in
  let m := foldl meminfo_line
    {| mi_total := 0; mi_available := 0; mi_swap_total := 0; mi_swap_free := 0;
       mi_saw := false |} (match meminfo with Some s => lines s | None => [] end) in
  {| ncpu := ncpu;
     total_mem_bytes := mi_total m;
     available_mem_bytes :=
       if negb (mi_saw m) || (mi_available m =? 0)%N then 512 * MIB else mi_available m;
     swap_total_bytes := mi_swap_total m;
     swap_used_bytes := saturating_sub (mi_swap_total m) (mi_swap_free m);
     load1 := read_load1 ncpu loadavg |}.

(** * The decision *)

Inductive Bound : Type :=
  | Bound_Memory | Bound_Cpu | Bound_Load | Bound_Ceiling | Bound_Floor | Bound_Swap
  | Bound_UserRequest.

Definition label (b : Bound) : string :=
  match b with
  | Bound_Memory => "memory" | Bound_Cpu => "cpu" | Bound_Load => "load"
  | Bound_Ceiling => "ceiling" | Bound_Floor => "floor" | Bound_Swap => "swap"
  | Bound_UserRequest => "user-request"
  end.

Record JobsDecision : Type := { jobs : N; binding : Bound; reason : string }.

Record GovernorConfig : Type := {
  per_job_mem_bytes : N;
  cpu_fraction : f64;
  hard_ceiling : N;
  floor : N;
  load_high_ratio : f64;
  swap_used_high_bytes : N
}.

Definition GovernorConfig_default : GovernorConfig :=
  {| per_job_mem_bytes := 2 * GIB;
     cpu_fraction := f64_decimal 25 (-2);
     hard_ceiling := 16;
     floor := 1;
     load_high_ratio := f64_decimal 7 (-1);
     swap_used_high_bytes := GIB |}.

Definition SWAP_THRASH_CAP : N := 2.

Definition gib (bytes : N) : f64 := f64_div (f64_of_N bytes) (f64_of_N GIB).

Definition cap_reason (load : SystemLoad) (cfg : GovernorConfig) (binding : Bound)
    (cap ncpu mem_cap : N) : string :=
  match binding with
  | Bound_Memory =>
      "memory-bound: " +:+ show_N cap +:+ " = " +:+ show_fixed 0 (gib (available_mem_bytes load))
      +:+ "GiB avail / " +:+ show_fixed 0 (gib (per_job_mem_bytes cfg)) +:+ "GiB per job"
  | Bound_Cpu =>
      "cpu-bound: " +:+ show_N cap +:+ " = floor(" +:+ show_N ncpu +:+ " cpu * "
      +:+ show_fixed 2 (cpu_fraction cfg) +:+ ")"
  | Bound_Ceiling =>
      "ceiling-bound: " +:+ show_N cap +:+ " = hard ceiling (resources/request would allow more)"
  | Bound_Load =>
      "load-bound: " +:+ show_N cap +:+ "; load1 " +:+ show_fixed 2 (load1 load) +:+ " / "
      +:+ show_N ncpu +:+ " cpu > " +:+ show_fixed 2 (load_high_ratio cfg)
      +:+ " so the pool was halved"
  | Bound_Swap =>
      "swap-bound: " +:+ show_N cap +:+ "; swap in use "
      +:+ show_fixed 1 (gib (swap_used_bytes load)) +:+ "GiB > "
      +:+ show_fixed 1 (gib (swap_used_high_bytes cfg)) +:+ "GiB so the pool was clamped"
  | Bound_Floor => "floor-bound: " +:+ show_N cap +:+ " = configured minimum"
  | Bound_UserRequest => "cap " +:+ show_N cap +:+ " (mem budget " +:+ show_N mem_cap +:+ ")"
  end.

Definition u32_of_u64 (n : N) : N := if (n <=? u32_max)%N then n else u32_max.

Definition mem_cap_of (load : SystemLoad) (cfg : GovernorConfig) : N :=
  N.max (u32_of_u64 (available_mem_bytes load / N.max (per_job_mem_bytes cfg) 1)) 1.

Definition cpu_cap_of (ncpu : N) (cfg : GovernorConfig) : N :=
  Z.to_N (Z.min (Z.max (floor_i64 (f64_mul (f64_of_N ncpu) (cpu_fraction cfg))) 1)
            (Z.of_N u32_max)).

Definition load_is_high (load : SystemLoad) (ncpu : N) (cfg : GovernorConfig) : bool :=
  SFltb (S754_zero false) (f64_of_N ncpu)
  && SFltb (load_high_ratio cfg) (f64_div (load1 load) (f64_of_N ncpu)).

(** The steps that set the cap and what binds it, in the order of the source. *)
Definition apply_ceiling (cfg : GovernorConfig) (b : N * Bound) : N * Bound :=
  if (hard_ceiling cfg <? b.1)%N then (hard_ceiling cfg, Bound_Ceiling) else b.
Definition apply_load (high : bool) (b : N * Bound) : N * Bound :=
  if high then (N.max (b.1 / 2) 1, Bound_Load) else b.
Definition apply_swap (load : SystemLoad) (cfg : GovernorConfig) (b : N * Bound) : N * Bound :=
  if (swap_used_high_bytes cfg <? swap_used_bytes load)%N
  then (N.min b.1 SWAP_THRASH_CAP, Bound_Swap) else b.
Definition apply_floor (cfg : GovernorConfig) (b : N * Bound) : N * Bound :=
  if (b.1 <? floor cfg)%N then (floor cfg, Bound_Floor) else b.

Definition decide_cap (load : SystemLoad) (cfg : GovernorConfig) : N * Bound :=
  let ncpu := N.max (ncpu load) 1 in
  let mem_cap := mem_cap_of load cfg in
  let cpu_cap := cpu_cap_of ncpu cfg in
  apply_floor cfg (apply_swap load cfg (apply_load (load_is_high load ncpu cfg)
    (apply_ceiling cfg
      (if (mem_cap <=? cpu_cap)%N then (mem_cap, Bound_Memory) else (cpu_cap, Bound_Cpu))))).

Definition decide_jobs (load : SystemLoad) (request : option N) (cfg : GovernorConfig) :
    JobsDecision :=
  let (cap, binding) := decide_cap load cfg in
  let reason := cap_reason load cfg binding cap (N.max (ncpu load) 1) (mem_cap_of load cfg) in
  match request with
  | None => {| jobs := cap; binding := binding; reason := reason |}
  | Some req =>
      if (cap <? req)%N then
        {| jobs := cap; binding := binding;
           reason := reason +:+ "; clamped request " +:+ show_N req +:+ "->" +:+ show_N cap |}
      else
        let honored := N.max req (floor cfg) in
        {| jobs := honored; binding := Bound_UserRequest;
           reason := "user-request honored: " +:+ show_N honored +:+ " <= cap " +:+ show_N cap |}
  end.

(** * The command line *)

Fixpoint parse_args (args : list string) (request : option N) (explain : bool) :
    option N * bool :=
  match args with
  | [] => (request, explain)
  | arg :: args =>
      if bool_decide (arg = "--request") then
        match args with
        | [] => (None, explain)
        | v :: args => parse_args args (parse_uint u32_max v) explain
        end
      else if bool_decide (arg = "--explain") then parse_args args request true
      else match strip_prefix "--request=" arg with
           | Some value => parse_args args (parse_uint u32_max value) explain
           | None => parse_args args request explain
           end
  end.

(** What is printed: the lines of stderr, and stdout. *)
Definition main (args : list string) (load : SystemLoad) : list string * string :=
  let (request, explain) := parse_args args None false in
  let d := decide_jobs load request GovernorConfig_default in
  (if explain then
     ["binding=" +:+ label (binding d) +:+ " reason=" +:+ String "034" "" +:+ reason d
        +:+ String "034" "";
      "system: ncpu=" +:+ show_N (ncpu load) +:+ " avail_mem="
        +:+ show_N (available_mem_bytes load / MIB) +:+ "MiB total_mem="
        +:+ show_N (total_mem_bytes load / MIB) +:+ "MiB swap_used="
        +:+ show_N (swap_used_bytes load / MIB) +:+ "MiB load1=" +:+ show_fixed 2 (load1 load)]
   else [],
   show_N (jobs d)).

(** * What the decision promises *)

(** The cap as arithmetic: the smaller budget under the ceiling, halved under load, at most
    two under swap, lifted to the floor. *)
Definition safe_cap (load : SystemLoad) (cfg : GovernorConfig) : N :=
  let ncpu := N.max (ncpu load) 1 in
  let budget := N.min (N.min (mem_cap_of load cfg) (cpu_cap_of ncpu cfg)) (hard_ceiling cfg) in
  let throttled := if load_is_high load ncpu cfg then N.max (budget / 2) 1 else budget in
  let clamped := if (swap_used_high_bytes cfg <? swap_used_bytes load)%N
                 then N.min throttled SWAP_THRASH_CAP else throttled in
  N.max clamped (floor cfg).

Lemma decide_cap_spec load cfg : (decide_cap load cfg).1 = safe_cap load cfg.
Proof.
  unfold decide_cap, safe_cap, apply_ceiling.
  set (m := mem_cap_of load cfg). set (c := cpu_cap_of _ cfg).
  replace (if (_ <? (if (m <=? c)%N then _ else _).1)%N then _ else _)
    with ((if (hard_ceiling cfg <? N.min m c)%N then (hard_ceiling cfg, Bound_Ceiling)
           else (N.min m c, if (m <=? c)%N then Bound_Memory else Bound_Cpu))).
  2:{ destruct (N.leb_spec m c); simpl.
      - by rewrite N.min_l by lia.
      - by rewrite N.min_r by lia. }
  set (b := if (_ <? N.min m c)%N then _ else _).
  assert (b.1 = N.min (N.min m c) (hard_ceiling cfg)) as Hb.
  { subst b. destruct (N.ltb_spec (hard_ceiling cfg) (N.min m c)); simpl; lia. }
  unfold apply_load. set (b2 := if load_is_high _ _ _ then _ else b).
  assert (b2.1 = if load_is_high load (N.max (ncpu load) 1) cfg
                 then N.max (N.min (N.min m c) (hard_ceiling cfg) / 2) 1
                 else N.min (N.min m c) (hard_ceiling cfg)) as Hb2.
  { subst b2. rewrite <-Hb. by destruct (load_is_high _ _ _). }
  rewrite <-Hb2. unfold apply_floor, apply_swap. clearbody b2.
  destruct (swap_used_high_bytes cfg <? swap_used_bytes load)%N; simpl.
  - destruct (N.ltb_spec (N.min b2.1 SWAP_THRASH_CAP) (floor cfg)); simpl; lia.
  - destruct (N.ltb_spec b2.1 (floor cfg)); simpl; lia.
Qed.

Lemma safe_cap_floor load cfg : (floor cfg ≤ safe_cap load cfg)%N.
Proof. unfold safe_cap. lia. Qed.

Lemma jobs_spec load request cfg :
  jobs (decide_jobs load request cfg)
  = match request with
    | None => safe_cap load cfg
    | Some req => N.min (safe_cap load cfg) (N.max req (floor cfg))
    end.
Proof.
  unfold decide_jobs. pose proof (safe_cap_floor load cfg) as Hf.
  rewrite <-decide_cap_spec in *. destruct (decide_cap load cfg) as [cap b]. simpl in *.
  destruct request as [req|]; [|done].
  destruct (N.ltb_spec cap req); simpl; lia.
Qed.

Lemma safe_cap_bound load cfg :
  (safe_cap load cfg ≤ N.max (N.max (hard_ceiling cfg) 1) (floor cfg))%N.
Proof.
  unfold safe_cap. set (b := N.min _ (hard_ceiling cfg)).
  assert (b ≤ hard_ceiling cfg)%N by (unfold b; lia).
  assert (b / 2 ≤ b)%N by (apply N.Div0.div_le_upper_bound; lia).
  destruct (load_is_high _ _ _), (_ <? _)%N; lia.
Qed.

(** C38: jeryu wins on the upper bound. Whatever the load and the request, the workers are at
    least the floor and at most the ceiling (or the floor, or one, where those are higher);
    a request never gets more than no request would, and gets exactly what it asks between
    the floor and the cap; under swap there are at most two, or the floor. *)
Theorem governor_bounds load request cfg :
  let d := decide_jobs load request cfg in
  let cap := safe_cap load cfg in
  (floor cfg ≤ jobs d ∧ jobs d ≤ N.max (N.max (hard_ceiling cfg) 1) (floor cfg)
   ∧ jobs d = match request with
              | None => cap
              | Some req => N.min cap (N.max req (floor cfg))
              end
   ∧ (if swap_used_high_bytes cfg <? swap_used_bytes load
      then jobs d ≤ N.max SWAP_THRASH_CAP (floor cfg) else True))%N.
Proof.
  cbv zeta. rewrite jobs_spec.
  pose proof (safe_cap_floor load cfg). pose proof (safe_cap_bound load cfg).
  assert (if (swap_used_high_bytes cfg <? swap_used_bytes load)%N
          then (safe_cap load cfg ≤ N.max SWAP_THRASH_CAP (floor cfg))%N else True).
  { unfold safe_cap. destruct (_ <? _)%N; [|done]. lia. }
  split_and!; [destruct request; lia|destruct request; lia|done|].
  destruct (_ <? _)%N; [destruct request; lia|done].
Qed.

Lemma cpu_cap_positive n cfg : (1 ≤ cpu_cap_of n cfg)%N.
Proof. unfold cpu_cap_of, u32_max. lia. Qed.

(** When the memory of the machine cannot be read, the default configuration runs one
    worker, whatever the processors, the load and the request. *)
Theorem unreadable_memory_one_worker parallelism loadavg request :
  jobs (decide_jobs (probe parallelism None loadavg) request GovernorConfig_default) = 1%N.
Proof.
  rewrite jobs_spec. enough (safe_cap (probe parallelism None loadavg) GovernorConfig_default = 1%N)
    as -> by (destruct request; simpl; lia).
  unfold safe_cap. replace (mem_cap_of _ _) with 1%N by done.
  pose proof (cpu_cap_positive (N.max (ncpu (probe parallelism None loadavg)) 1)
                GovernorConfig_default).
  rewrite (N.min_l 1 (cpu_cap_of _ _)) by done. replace (_ <? _)%N with false by done.
  by destruct (load_is_high _ _ _).
Qed.

(** What probe reads is usable: some memory, and no more swap in use than there is. *)
Lemma probe_usable parallelism meminfo loadavg :
  let load := probe parallelism meminfo loadavg in
  (0 < available_mem_bytes load)%N ∧ (swap_used_bytes load ≤ swap_total_bytes load)%N.
Proof.
  simpl. split.
  - set (m := foldl _ _ _). destruct (mi_saw m); simpl; [|done].
    destruct (N.eqb_spec (mi_available m) 0); [done|lia].
  - unfold saturating_sub. lia.
Qed.

(** * Samples *)

Definition big_idle_box : SystemLoad :=
  {| ncpu := 128; total_mem_bytes := 125 * GIB; available_mem_bytes := 120 * GIB;
     swap_total_bytes := 64 * GIB; swap_used_bytes := 0; load1 := f64_of_N 2 |}.

Definition meminfo_sample : string :=
  "MemTotal:       131072000 kB" +:+ newline_str +:+ "MemAvailable:   125829120 kB"
  +:+ newline_str +:+ "SwapTotal:      2097152 kB" +:+ newline_str +:+ "SwapFree: 0 kB"
  +:+ newline_str.

Lemma decisions :
  reason (decide_jobs big_idle_box (Some 40%N) GovernorConfig_default)
  = "ceiling-bound: 16 = hard ceiling (resources/request would allow more); clamped request 40->16"
  ∧ reason (decide_jobs (probe (Some 128%N) (Some meminfo_sample) (Some "12.5 3.1 2.2 1/2 3"))
              None GovernorConfig_default)
    = "swap-bound: 2; swap in use 2.0GiB > 1.0GiB so the pool was clamped"
  ∧ (main ["--request"; "4"; "--explain"] big_idle_box).2 = "4"
  ∧ parse_f64 "-1.5e-3" = Some (SFopp (f64_decimal 15 (-4))).
Proof. by vm_compute. Qed.

(** On machines of up to 4096 processors the default fraction is exactly a quarter. *)
Lemma default_cpu_cap :
  Forall (λ n, cpu_cap_of n GovernorConfig_default = N.max (n / 4) 1)
    (N.of_nat <$> seq 1 4096).
Proof. apply (bool_decide_unpack _). by vm_compute. Qed.

(** The ceiling gives way to a higher floor, and nothing keeps the workers above zero when
    both are zero. *)
Lemma ceiling_below_floor :
  jobs (decide_jobs big_idle_box None
    {| per_job_mem_bytes := GIB; cpu_fraction := f64_of_N 1; hard_ceiling := 16; floor := 20;
       load_high_ratio := f64_of_N 1; swap_used_high_bytes := GIB |}) = 20%N
  ∧ jobs (decide_jobs big_idle_box (Some 0%N)
    {| per_job_mem_bytes := GIB; cpu_fraction := f64_of_N 1; hard_ceiling := 16; floor := 0;
       load_high_ratio := f64_of_N 1; swap_used_high_bytes := GIB |}) = 0%N.
Proof. by vm_compute. Qed.
