(* ===== verification/BranchProtection.v ===== *)
(** BranchProtection: the merge gate of the forge (jeryu-core, [branch_protection/]):
    which reviews count for a head, who owns a path, and what blocks a merge or a
    ref operation.

    [blocks] and [effective] say declaratively what the gate promises; the theorems
    show that the evaluator reports exactly that. *)

From Stdlib Require Import Ascii.
From S2P Require Import Prelude Text Clock.

(** * Data (model/pull_requests.rs, model/checks.rs, model/policy.rs) *)

Definition Uuid : Type := N.

Inductive PullRequestState : Type :=
  | PRS_Draft | PRS_Open | PRS_ReadyForReview | PRS_BlockedByPolicy | PRS_BlockedByChecks
  | PRS_Approved | PRS_Queued | PRS_SpeculativeMergeTesting | PRS_Mergeable | PRS_Merged
  | PRS_Closed.

#[export] Instance PullRequestState_eq_dec : EqDecision PullRequestState.
Proof. solve_decision. Defined.

Record PullRequestCommit : Type := { commit_sha : string; verified : bool; parents : N }.

Definition default_commit_parents : N := 1.

Record GitBranchRef : Type := { label : string; ref_name : string; sha : string }.

Definition GitBranchRef_new (label_ sha_ : string) : GitBranchRef :=
  {| label := label_;
     ref_name := match split_once ":"%char label_ with
                 | Some (_, branch) => branch
                 | None => label_
                 end;
     sha := sha_ |}.

Inductive ReviewState : Type :=
  | RS_Approved | RS_ChangesRequested | RS_Commented | RS_Dismissed.

#[export] Instance ReviewState_eq_dec : EqDecision ReviewState.
Proof. solve_decision. Defined.

Inductive CommitStatusState : Type := CSS_Error | CSS_Failure | CSS_Pending | CSS_Success.

#[export] Instance CommitStatusState_eq_dec : EqDecision CommitStatusState.
Proof. solve_decision. Defined.

Inductive CheckRunStatus : Type := CRS_Queued | CRS_InProgress | CRS_Completed.

#[export] Instance CheckRunStatus_eq_dec : EqDecision CheckRunStatus.
Proof. solve_decision. Defined.

Inductive CheckConclusion : Type :=
  | CC_ActionRequired | CC_Cancelled | CC_Failure | CC_Neutral | CC_Success | CC_Skipped
  | CC_Superseded | CC_TimedOut.

#[export] Instance CheckConclusion_eq_dec : EqDecision CheckConclusion.
Proof. solve_decision. Defined.

Definition check_conclusion_wire_value (c : CheckConclusion) : string :=
  match c with
  | CC_ActionRequired => "action_required" | CC_Cancelled => "cancelled"
  | CC_Failure => "failure" | CC_Neutral => "neutral" | CC_Success => "success"
  | CC_Skipped => "skipped" | CC_Superseded => "stale" | CC_TimedOut => "timed_out"
  end.

Section protection.
Context `{C : Chrono}.

Record PullRequest : Type := {
  pr_id : Uuid; pr_owner : string; pr_repo : string; number : N; issue_number : N;
  title : string; pr_body : option string; pr_state : PullRequestState; draft : bool;
  pr_author : string; source_repository : string; head : GitBranchRef; base : GitBranchRef;
  mergeable : bool; mergeable_state : string; merged : bool; merged_at : option DateTime;
  merge_commit_sha : option string; commits : list PullRequestCommit;
  changed_files : list string; pr_created_at : DateTime; pr_updated_at : DateTime
}.

Record Review : Type := {
  review_id : Uuid; review_owner : string; review_repo : string; pull_number : N;
  review_author : string; review_state : ReviewState; review_body : option string;
  review_head_sha : option string; dismissed_review_id : option Uuid; submitted_at : DateTime
}.

Record CommitStatus : Type := {
  status_id : Uuid; status_owner : string; status_repo : string; status_sha : string;
  status_state : CommitStatusState; status_context : string; description : option string;
  target_url : option string; creator : string; status_created_at : DateTime;
  status_updated_at : DateTime
}.

Record CheckRunOutput : Type := {
  output_title : string; output_summary : string; output_text : option string
}.

Record CheckRun : Type := {
  run_id : Uuid; run_owner : string; run_repo : string; run_name : string;
  run_head_sha : string; run_status : CheckRunStatus;
  run_conclusion : option CheckConclusion; details_url : option string;
  output : option CheckRunOutput; started_at : DateTime; completed_at : option DateTime
}.

Record BranchProtectionRule : Type := {
  rule_owner : string; rule_repo : string; rule_branch : string;
  required_status_checks : list string; required_approving_review_count : N;
  enforce_admins : bool; required_linear_history : bool; allow_force_pushes : bool;
  allow_deletions : bool; require_signed_commits : bool; require_jankurai_proof : bool;
  rule_updated_at : DateTime
}.

(** * Results (branch_protection/types.rs) *)

Inductive MergeBlocker : Type :=
  | DraftPullRequest
  | MissingReview (required approved : N)
  | ChangesRequested (reviewers : list string)
  | MissingStatusCheck (context : string)
  | FailedStatusCheck (context : string)
  | JankuraiProofRequired
  | ShaMismatch (expected actual : string)
  | NonLinearHistory (sha_ : string)
  | UnsignedCommits (unsigned : list string)
  | MissingCodeOwnerReview (paths owners : list string).

Inductive RefOperation : Type := ForcePush | Delete.

Inductive RefOperationBlocker : Type := ForcePushNotAllowed | DeletionNotAllowed.

Record RefOperationEvaluation : Type := {
  allowed : bool; ref_blockers : list RefOperationBlocker
}.

Record EvaluationContext : Type := {
  codeowners : option string; actor_is_admin : bool; jankurai_proof_mandatory : bool
}.

Record BranchProtectionEvaluation : Type := {
  eval_mergeable : bool; eval_state : string; blockers : list MergeBlocker
}.

Definition pass : BranchProtectionEvaluation :=
  {| eval_mergeable := true; eval_state := "clean"; blockers := [] |}.

Definition is_nil {A} (l : list A) : bool := match l with [] => true | _ => false end.

Definition from_blockers (bs : list MergeBlocker) : BranchProtectionEvaluation :=
  {| eval_mergeable := is_nil bs; eval_state := if is_nil bs then "clean" else "blocked";
     blockers := bs |}.

(** * Code owners (branch_protection/codeowners.rs) *)

Definition CodeOwners : Type := list (string * list string).

Definition owners_line (line : string) : option (string * list string) :=
  let line := trim line in
  if str_is_empty line || starts_with line "#" then None
  else
    match split_whitespace line with
    | [] => None
    | pattern :: parts =>
        Some (pattern,
              filter (λ owner, str_is_empty owner = false)
                (map (trim_start_char "@"%char) parts))
    end.

Definition CodeOwners_parse (contents : string) : CodeOwners :=
  omap owners_line (lines contents).

Definition under (prefix path : string) : bool :=
  bool_decide (path = prefix) || starts_with path (prefix +:+ "/").

Definition glob_match (pattern path : string) : bool :=
  let path := trim_start_char "/"%char path in
  if bool_decide (pattern = "*") then true
  else
    match strip_prefix "*" pattern with
    | Some suffix => ends_with path suffix
    | None =>
        let pat := trim_start_char "/"%char pattern in
        match strip_suffix "/**" pat with
        | Some prefix => under (trim_end_char "/"%char prefix) path
        | None =>
            match strip_suffix "/" pat with
            | Some prefix => under prefix path
            | None => under pat path
            end
        end
    end.

Definition owners_for (rules : CodeOwners) (path : string) : list string :=
  match find_first (λ rule, glob_match rule.1 path) (reverse rules) with
  | Some (_, owners) => owners
  | None => []
  end.

(** * Effective reviews (branch_protection/reviews.rs) *)

Definition eq_ignore_ascii_case (a b : string) : bool := bool_decide (lowercase a = lowercase b).

(** The map [latest]: the current verdict of each reviewer. *)
Abbreviation Latest := (gmap string Review).

Definition clears (dismissal current : Review) : bool :=
  match dismissed_review_id dismissal with
  | Some target => bool_decide (target = review_id current)
  | None => bool_decide (review_state current = RS_Approved)
  end.

Definition at_head (head_sha : string) (r : Review) : bool :=
  bool_decide (review_head_sha r = Some head_sha).

Definition self_approval (pr_author_ : option string) (r : Review) : bool :=
  bool_decide (review_state r = RS_Approved)
  && match pr_author_ with
     | Some author => eq_ignore_ascii_case (review_author r) author
     | None => false
     end.

Definition reduce_review (pr_author_ : option string) (latest : Latest) (r : Review) : Latest :=
  if self_approval pr_author_ r then latest
  else
    match review_state r with
    | RS_Approved | RS_ChangesRequested => <[review_author r := r]> latest
    | RS_Commented => latest
    | RS_Dismissed =>
        match latest !! review_author r with
        | Some current => if clears r current then delete (review_author r) latest else latest
        | None => latest
        end
    end.

Definition reduce_reviews (reviews : list Review) (head_sha : string)
    (pr_author_ : option string) : list Review :=
  bt_values
    (foldl (reduce_review pr_author_) ∅ (filter (λ r, at_head head_sha r = true) reviews)).

Definition effective_reviews_for_head (reviews : list Review) (head_sha : string) : list Review :=
  reduce_reviews reviews head_sha None.

Definition effective_reviews_for_pull_request (reviews : list Review) (pr : PullRequest) :
    list Review :=
  reduce_reviews reviews (sha (head pr)) (Some (pr_author pr)).

(** * Evaluation (branch_protection/evaluate.rs) *)

Inductive RequiredContextState : Type := Satisfied | Missing | Failed.

Definition check_key (c : CheckRun) : DateTime :=
  match completed_at c with Some t => t | None => started_at c end.

Definition required_context_state (context : string) (statuses : list CommitStatus)
    (check_runs : list CheckRun) : RequiredContextState :=
  match max_last (λ a b, dt_leb (status_updated_at a) (status_updated_at b))
          (filter (λ s, status_context s = context) statuses) with
  | Some s => if bool_decide (status_state s = CSS_Success) then Satisfied else Failed
  | None =>
      match max_last (λ a b, dt_leb (check_key a) (check_key b))
              (filter (λ c, run_name c = context) check_runs) with
      | Some c =>
          if bool_decide (run_status c = CRS_Completed)
             && bool_decide (run_conclusion c = Some CC_Success)
          then Satisfied else Failed
      | None => Missing
      end
  end.

Definition is_satisfied (s : RequiredContextState) : bool :=
  match s with Satisfied => true | _ => false end.

Definition jankurai_proof : string := "jankurai/proof".

Definition in_state (s : ReviewState) (reviews : list Review) : list Review :=
  filter (λ r, review_state r = s) reviews.

(** The gates that bind everybody. *)
Definition intrinsic_blockers (pr : PullRequest) (effective : list Review)
    (statuses : list CommitStatus) (check_runs : list CheckRun)
    (requested_sha : option string) (context : EvaluationContext) : list MergeBlocker :=
  (match requested_sha with
   | Some requested =>
       if bool_decide (requested = sha (head pr)) then []
       else [ShaMismatch (sha (head pr)) requested]
   | None => []
   end)
  ++ (if draft pr then [DraftPullRequest] else [])
  ++ (match map review_author (in_state RS_ChangesRequested effective) with
      | [] => []
      | reviewers => [ChangesRequested reviewers]
      end)
  ++ (if jankurai_proof_mandatory context
         && negb (is_satisfied (required_context_state jankurai_proof statuses check_runs))
      then [JankuraiProofRequired] else []).

Definition check_blocker (statuses : list CommitStatus) (check_runs : list CheckRun)
    (context : string) : option MergeBlocker :=
  match required_context_state context statuses check_runs with
  | Satisfied => None
  | Missing => Some (MissingStatusCheck context)
  | Failed => Some (FailedStatusCheck context)
  end.

(** The loop over the changed files: the paths without an owner's approval, and the
    owners they ask for. *)
Definition owner_path (rules : CodeOwners) (approvers : gset string)
    (acc : list string * gset string) (path : string) : list string * gset string :=
  let path_owners := owners_for rules path in
  if is_nil path_owners then acc
  else if existsb (λ owner, bool_decide (owner ∈ approvers)) path_owners then acc
  else (acc.1 ++ [path], acc.2 ∪ list_to_set path_owners).

Definition code_owner_blockers (pr : PullRequest) (effective : list Review)
    (context : EvaluationContext) : list MergeBlocker :=
  match codeowners context with
  | None => []
  | Some contents =>
      let approvers := list_to_set (map review_author (in_state RS_Approved effective)) in
      match foldl (owner_path (CodeOwners_parse contents) approvers) ([], ∅)
              (changed_files pr) with
      | ([], _) => []
      | (paths, owners) =>
          [MissingCodeOwnerReview (sort_dedup paths) (bset_iter owners)]
      end
  end.

(** The gates of a rule, which bind everybody or everybody but admins. *)
Definition rule_blockers (pr : PullRequest) (rule : BranchProtectionRule)
    (effective : list Review) (statuses : list CommitStatus) (check_runs : list CheckRun)
    (context : EvaluationContext) : list MergeBlocker :=
  let approved := N.of_nat (length (in_state RS_Approved effective)) in
  (if (0 <? required_approving_review_count rule)%N
      && (approved <? required_approving_review_count rule)%N
   then [MissingReview (required_approving_review_count rule) approved] else [])
  ++ omap (check_blocker statuses check_runs) (required_status_checks rule)
  ++ (if require_jankurai_proof rule && negb (jankurai_proof_mandatory context)
         && negb (is_satisfied (required_context_state jankurai_proof statuses check_runs))
      then [JankuraiProofRequired] else [])
  ++ (if required_linear_history rule then
        match find_first (λ c, (1 <? parents c)%N) (commits pr) with
        | Some c => [NonLinearHistory (commit_sha c)]
        | None => []
        end
      else [])
  ++ (if require_signed_commits rule then
        match map commit_sha (filter (λ c, verified c = false) (commits pr)) with
        | [] => []
        | unsigned => [UnsignedCommits unsigned]
        end
      else [])
  ++ code_owner_blockers pr effective context.

Definition evaluate_branch_protection_with (pr : PullRequest)
    (protection : option BranchProtectionRule) (reviews : list Review)
    (statuses : list CommitStatus) (check_runs : list CheckRun)
    (requested_sha : option string) (context : EvaluationContext) :
    BranchProtectionEvaluation :=
  let effective := effective_reviews_for_pull_request reviews pr in
  let bs := intrinsic_blockers pr effective statuses check_runs requested_sha context in
  match protection with
  | None => from_blockers bs
  | Some rule =>
      if actor_is_admin context && negb (enforce_admins rule) then from_blockers bs
      else from_blockers (bs ++ rule_blockers pr rule effective statuses check_runs context)
  end.

Definition evaluate_ref_operation (operation : RefOperation)
    (protection : option BranchProtectionRule) (context : EvaluationContext) :
    RefOperationEvaluation :=
  let bs := match protection with
            | Some rule =>
                if actor_is_admin context && negb (enforce_admins rule) then []
                else
                  match operation with
                  | ForcePush => if allow_force_pushes rule then [] else [ForcePushNotAllowed]
                  | Delete => if allow_deletions rule then [] else [DeletionNotAllowed]
                  end
            | None => []
            end in
  {| allowed := is_nil bs; ref_blockers := bs |}.

(** * Specification *)

(** A review that gives a verdict on this head: not a comment, not a dismissal, not the
    author's approval of their own change. *)
Definition counts (author : option string) (head_sha : string) (r : Review) : Prop :=
  review_head_sha r = Some head_sha ∧ self_approval author r = false
  ∧ (review_state r = RS_Approved ∨ review_state r = RS_ChangesRequested).

(** A later event that ends the verdict [r]: another verdict of the same reviewer, or a
    dismissal that is about [r]. *)
Definition overrides (author : option string) (head_sha : string) (e r : Review) : Prop :=
  review_head_sha e = Some head_sha ∧ review_author e = review_author r
  ∧ (counts author head_sha e ∨ (review_state e = RS_Dismissed ∧ clears e r = true)).

(** The verdicts in force: given at some point and not overridden since. *)
Definition effective (author : option string) (head_sha : string) (reviews : list Review)
    (r : Review) : Prop :=
  ∃ i, reviews !! i = Some r ∧ counts author head_sha r
       ∧ ∀ j e, i < j → reviews !! j = Some e → ¬ overrides author head_sha e r.

Definition has_verdict (pr : PullRequest) (reviews : list Review) (s : ReviewState)
    (u : string) : Prop :=
  ∃ r, effective (Some (pr_author pr)) (sha (head pr)) reviews r
       ∧ review_state r = s ∧ review_author r = u.

Section gate.
Context (pr : PullRequest) (reviews : list Review) (statuses : list CommitStatus)
  (check_runs : list CheckRun) (requested_sha : option string) (context : EvaluationContext).

Definition green (name : string) : Prop :=
  required_context_state name statuses check_runs = Satisfied.

(** What no one can do without. *)
Record intrinsic_open : Prop := {
  io_sha : ∀ s, requested_sha = Some s → s = sha (head pr);
  io_draft : draft pr = false;
  io_changes : ∀ u, ¬ has_verdict pr reviews RS_ChangesRequested u;
  io_jankurai : jankurai_proof_mandatory context = true → green jankurai_proof
}.

(** What a rule asks for. *)
Record rule_open (rule : BranchProtectionRule) : Prop := {
  ro_reviews : ∃ approvers : gset string,
    (∀ u, u ∈ approvers ↔ has_verdict pr reviews RS_Approved u)
    ∧ (required_approving_review_count rule ≤ N.of_nat (size approvers))%N;
  ro_checks : ∀ name, name ∈ required_status_checks rule → green name;
  ro_jankurai : require_jankurai_proof rule = true → green jankurai_proof;
  ro_linear : required_linear_history rule = true →
    ∀ c, c ∈ commits pr → (parents c ≤ 1)%N;
  ro_signed : require_signed_commits rule = true → ∀ c, c ∈ commits pr → verified c = true;
  ro_owners : ∀ contents path, codeowners context = Some contents → path ∈ changed_files pr →
    owners_for (CodeOwners_parse contents) path ≠ [] →
    ∃ u, u ∈ owners_for (CodeOwners_parse contents) path ∧ has_verdict pr reviews RS_Approved u
}.
End gate.

Definition binds (rule : BranchProtectionRule) (context : EvaluationContext) : Prop :=
  enforce_admins rule = true ∨ actor_is_admin context = false.

(** * Reviews *)

Lemma effective_nil author h r : ¬ effective author h [] r.
Proof. by intros (i & ? & _). Qed.

Lemma effective_snoc author h reviews e r :
  effective author h (reviews ++ [e]) r ↔
  (effective author h reviews r ∧ ¬ overrides author h e r) ∨ (r = e ∧ counts author h e).
Proof.
  split.
  - intros (i & Hi & Hc & Hno). apply lookup_app_Some in Hi as [Hi|[Hle Hi]].
    + left. split.
      * exists i. split_and!; [done|done|]. intros j x Hij Hj. apply (Hno j x Hij).
        by apply lookup_app_l_Some.
      * apply (Hno (length reviews)); [by apply lookup_lt_Some in Hi|].
        by rewrite list_lookup_middle.
    + right. apply list_lookup_singleton_Some in Hi as [_ ->]. done.
  - intros [[(i & Hi & Hc & Hno) He]|[-> Hc]].
    + exists i. split_and!; [by apply lookup_app_l_Some|done|].
      intros j x Hij [Hj|[_ Hj]]%lookup_app_Some; [by apply (Hno j)|].
      by apply list_lookup_singleton_Some in Hj as [_ ->].
    + exists (length reviews). split_and!; [by rewrite list_lookup_middle|done|].
      intros j x Hij Hj%lookup_lt_Some. rewrite length_app in Hj. cbn in Hj. lia.
Qed.

Lemma at_head_spec h r : at_head h r = true ↔ review_head_sha r = Some h.
Proof. apply bool_decide_eq_true. Qed.

(** One event, on the entry of its reviewer and on the others. *)
Lemma not_counting author h e :
  self_approval author e = true ∨ review_state e = RS_Commented ∨ review_state e = RS_Dismissed →
  ¬ counts author h e.
Proof. unfold counts. intros [H|[H|H]] (_ & Hs & [Hr|Hr]); congruence. Qed.

Lemma not_overriding author h e r :
  self_approval author e = true ∨ review_state e = RS_Commented → ¬ overrides author h e r.
Proof.
  intros He (_ & _ & [Hc|[Hd _]]).
  - destruct He; eapply not_counting; eauto.
  - destruct He as [Hs|]; [|congruence].
    unfold self_approval in Hs. apply andb_true_iff in Hs as [Hs%bool_decide_eq_true _].
    congruence.
Qed.

Lemma reduce_review_keeps author h (latest : Latest) e u r :
  (∀ x, ¬ overrides author h e x) → ¬ counts author h e →
  latest !! u = Some r ↔
  (latest !! u = Some r ∧ ¬ overrides author h e r)
  ∨ (r = e ∧ review_author e = u ∧ counts author h e).
Proof.
  intros Ho Hc. split; [by auto|]. by intros [[? _]|(_ & _ & ?)].
Qed.

Lemma reduce_review_spec author h (latest : Latest) e u r :
  review_head_sha e = Some h → (∀ v x, latest !! v = Some x → review_author x = v) →
  reduce_review author latest e !! u = Some r ↔
  (latest !! u = Some r ∧ ¬ overrides author h e r)
  ∨ (r = e ∧ review_author e = u ∧ counts author h e).
Proof.
  intros Hh Hkeys. unfold reduce_review.
  destruct (self_approval author e) eqn:Hself.
  { apply reduce_review_keeps; [intros x; apply not_overriding|apply not_counting]; auto. }
  destruct (review_state e) eqn:Hst.
  1, 2: assert (Hc : counts author h e) by (split_and!; auto);
    rewrite lookup_insert_Some; split;
    [intros [[<- <-]|[Hne Hl]]; [by right|left; split; [done|];
       intros (_ & Ha & _); apply Hne; rewrite Ha; by apply Hkeys]
    |intros [[Hl Hno]|(-> & <- & _)]; [|by left]; right; split; [|done]; intros <-;
       apply Hno; split_and!; [done|by rewrite (Hkeys _ _ Hl)|by left]].
  - apply reduce_review_keeps; [intros x; apply not_overriding|apply not_counting]; auto.
  - assert (Hc : ¬ counts author h e) by (apply not_counting; auto).
    assert (Hov : ∀ x, overrides author h e x ↔
      review_author e = review_author x ∧ clears e x = true).
    { intros x. split; [by intros (_ & ? & [?|[_ ?]])|]. intros [??]. split_and!; auto. }
    rewrite Hov. transitivity (latest !! u = Some r ∧ ¬ (review_author e = review_author r
      ∧ clears e r = true)); [|by split; [auto|intros [?|(_ & _ & ?)]]].
    destruct (latest !! review_author e) as [cur|] eqn:Hcur.
    + destruct (clears e cur) eqn:Hcl.
      * rewrite lookup_delete_Some. split.
        -- intros [Hne Hl]. split; [done|]. intros [Ha _]. apply Hne. rewrite Ha. by apply Hkeys.
        -- intros [Hl Hno]. split; [|done]. intros <-. rewrite Hcur in Hl. injection Hl as <-.
           apply Hno. split; [by rewrite (Hkeys _ _ Hcur)|done].
      * split; [|by intros [? _]]. intros Hl. split; [done|]. intros [Ha Hcr].
        rewrite Ha, (Hkeys _ _ Hl), Hl in Hcur. congruence.
    + split; [|by intros [? _]]. intros Hl. split; [done|]. intros [Ha _].
      rewrite Ha, (Hkeys _ _ Hl) in Hcur. congruence.
Qed.

Lemma latest_spec author h reviews u r :
  foldl (reduce_review author) ∅ (filter (λ x, at_head h x = true) reviews) !! u = Some r ↔
  review_author r = u ∧ effective author h reviews r.
Proof.
  revert u r. induction reviews as [|e reviews IH] using rev_ind; intros u r.
  { cbn. rewrite lookup_empty. split; [done|]. by intros [_ ?%effective_nil]. }
  rewrite filter_app, foldl_app, effective_snoc.
  destruct (at_head h e) eqn:Hh.
  - rewrite filter_cons_True by done. cbn. apply at_head_spec in Hh.
    rewrite (reduce_review_spec author h) by (done || by intros ?? [? _]%IH). rewrite IH.
    split; [|intros [Ha [[??]|[-> ?]]]; auto].
    intros [[[??]?]|(-> & ? & ?)]; auto.
  - rewrite filter_cons_False by congruence. cbn. rewrite IH.
    assert (Hne : review_head_sha e ≠ Some h).
    { intros He. apply at_head_spec in He. congruence. }
    unfold overrides, counts. split; [|intros (? & [[? _]|(_ & ? & _)]); done].
    intros [??]. split; [done|]. left. split; [done|]. by intros [? _].
Qed.

Lemma map_bt_values {V} (f : V → string) (m : gmap string V) :
  (∀ k v, m !! k = Some v → f v = k) → map f (bt_values m) = bt_keys m.
Proof.
  intros Hf. unfold bt_values, bt_keys. rewrite <-list_fmap_compose.
  apply list_fmap_ext. intros i [k v] Hi. cbn. apply Hf, elem_of_bt_iter.
  by eapply list_elem_of_lookup_2.
Qed.

Lemma bt_keys_sorted {V} (m : gmap string V) :
  StronglySorted (λ a b, String.leb a b = true) (bt_keys m).
Proof.
  unfold bt_keys. pose proof (bt_iter_sorted m) as Hs.
  induction Hs as [|x l Hs IH Hall]; [constructor|]. cbn. constructor; [done|].
  by apply Forall_fmap.
Qed.

Lemma effective_for_spec reviews pr r :
  r ∈ effective_reviews_for_pull_request reviews pr ↔
  effective (Some (pr_author pr)) (sha (head pr)) reviews r.
Proof.
  unfold effective_reviews_for_pull_request, reduce_reviews. rewrite elem_of_bt_values.
  setoid_rewrite latest_spec. split; [by intros (? & _ & ?)|]. intros Hr. by eexists.
Qed.

Lemma effective_for_authors reviews pr :
  NoDup (map review_author (effective_reviews_for_pull_request reviews pr))
  ∧ StronglySorted (λ a b, String.leb a b = true)
      (map review_author (effective_reviews_for_pull_request reviews pr)).
Proof.
  unfold effective_reviews_for_pull_request, reduce_reviews.
  rewrite map_bt_values by (by intros k v [? _]%latest_spec).
  split; [apply bt_iter_NoDup_keys|apply bt_keys_sorted].
Qed.

(** A review counts exactly while its verdict stands. The effective reviews of a pull
    request are the verdicts on its current head that were not the author's own approval
    and that no later verdict or targeted dismissal of the same reviewer has ended; there
    is at most one per reviewer, in order of name. *)
Theorem effective_reviews_spec reviews pr :
  (∀ r, r ∈ effective_reviews_for_pull_request reviews pr ↔
        effective (Some (pr_author pr)) (sha (head pr)) reviews r)
  ∧ NoDup (map review_author (effective_reviews_for_pull_request reviews pr))
  ∧ StronglySorted (λ a b, String.leb a b = true)
      (map review_author (effective_reviews_for_pull_request reviews pr)).
Proof. split; [intros r; apply effective_for_spec|apply effective_for_authors]. Qed.

(** * The gate *)

Lemma is_nil_app {A} (a b : list A) : is_nil (a ++ b) = is_nil a && is_nil b.
Proof. by destruct a. Qed.

Lemma is_nil_spec {A} (l : list A) : is_nil l = true ↔ l = [].
Proof. by destruct l. Qed.

Lemma is_satisfied_spec s : is_satisfied s = true ↔ s = Satisfied.
Proof. by destruct s. Qed.

Lemma in_state_authors pr reviews s u :
  u ∈ map review_author (in_state s (effective_reviews_for_pull_request reviews pr)) ↔
  has_verdict pr reviews s u.
Proof.
  unfold has_verdict, in_state. split.
  - intros (r & -> & [Hs Hr]%list_elem_of_filter)%list_elem_of_fmap.
    exists r. by rewrite <-effective_for_spec.
  - intros (r & Hr%effective_for_spec & Hs & <-). apply list_elem_of_fmap. exists r.
    split; [done|]. by apply list_elem_of_filter.
Qed.

Lemma in_state_NoDup pr reviews s :
  NoDup (map review_author (in_state s (effective_reviews_for_pull_request reviews pr))).
Proof.
  destruct (effective_for_authors reviews pr) as [Hnd _]. revert Hnd. unfold in_state.
  generalize (effective_reviews_for_pull_request reviews pr) as l.
  induction l as [|r l IH]; intros Hnd; [constructor|].
  cbn in Hnd. apply NoDup_cons in Hnd as [Hr Hnd]. rewrite filter_cons.
  case_decide; [|by apply IH]. cbn. apply NoDup_cons. split; [|by apply IH].
  intros (x & Hx & [_ Hin]%list_elem_of_filter)%list_elem_of_fmap. apply Hr.
  apply list_elem_of_fmap. by exists x.
Qed.

Section gate_lemmas.
Context (pr : PullRequest) (reviews : list Review) (statuses : list CommitStatus)
  (check_runs : list CheckRun) (requested_sha : option string) (context : EvaluationContext).

Let eff := effective_reviews_for_pull_request reviews pr.

Lemma approvals_set k :
  (k ≤ N.of_nat (length (in_state RS_Approved eff)))%N ↔
  ∃ approvers : gset string,
    (∀ u, u ∈ approvers ↔ has_verdict pr reviews RS_Approved u)
    ∧ (k ≤ N.of_nat (size approvers))%N.
Proof.
  set (X := list_to_set (map review_author (in_state RS_Approved eff)) : gset string).
  assert (HX : ∀ u, u ∈ X ↔ has_verdict pr reviews RS_Approved u).
  { intros u. unfold X. rewrite elem_of_list_to_set. apply in_state_authors. }
  assert (HS : size X = length (in_state RS_Approved eff)).
  { unfold X. rewrite size_list_to_set by apply in_state_NoDup. by rewrite length_map. }
  rewrite <-HS. split.
  - intros Hk. by exists X.
  - intros (Y & HY & Hk). assert (Y = X) as ->; [|done].
    apply set_eq. intros u. by rewrite HY, HX.
Qed.

Lemma intrinsic_gate :
  is_nil (intrinsic_blockers pr eff statuses check_runs requested_sha context) = true ↔
  intrinsic_open pr reviews statuses check_runs requested_sha context.
Proof.
  unfold intrinsic_blockers. rewrite !is_nil_app, !andb_true_iff.
  assert (Hsha : is_nil (match requested_sha with
     | Some requested => if bool_decide (requested = sha (head pr)) then []
                         else [ShaMismatch (sha (head pr)) requested]
     | None => [] end) = true ↔ ∀ s, requested_sha = Some s → s = sha (head pr)).
  { destruct requested_sha as [s|]; [|by split]. case_bool_decide as Hs; split; try done.
    - by intros _ ? [= <-].
    - intros H. by destruct Hs; apply H. }
  assert (Hch : is_nil (match map review_author (in_state RS_ChangesRequested eff) with
     | [] => [] | reviewers => [ChangesRequested reviewers] end) = true ↔
     ∀ u, ¬ has_verdict pr reviews RS_ChangesRequested u).
  { setoid_rewrite <-in_state_authors. fold eff.
    destruct (map review_author _) as [|u us]; split; try done.
    - by intros _ u ?%elem_of_nil.
    - intros H. destruct (H u). constructor. }
  assert (Hj : is_nil (if jankurai_proof_mandatory context
       && negb (is_satisfied (required_context_state jankurai_proof statuses check_runs))
     then [JankuraiProofRequired] else []) = true ↔
     (jankurai_proof_mandatory context = true → green statuses check_runs jankurai_proof)).
  { unfold green. rewrite <-is_satisfied_spec. destruct (jankurai_proof_mandatory context);
      [|by split]. destruct (is_satisfied _); split; try done. by intros ->. }
  rewrite Hsha, Hch, Hj. destruct (draft pr) eqn:Hd; cbn.
  - split; [by intros (_ & ? & _)|]. intros [_ H _ _]. congruence.
  - split; [intros (? & _ & ? & ?); by split|]. by intros [? ? ? ?].
Qed.

Lemma owner_paths rules approvers paths acc :
  (foldl (owner_path rules approvers) acc paths).1
  = acc.1 ++ filter (λ p, owners_for rules p ≠ []
                          ∧ Forall (λ u, u ∉ approvers) (owners_for rules p)) paths.
Proof.
  revert acc. induction paths as [|p paths IH]; intros acc; cbn [foldl];
    [by rewrite app_nil_r|].
  rewrite IH. clear IH. rewrite filter_cons. unfold owner_path.
  destruct (is_nil (owners_for rules p)) eqn:Hn.
  { apply is_nil_spec in Hn. rewrite Hn. by rewrite decide_False by (by intros [? _]). }
  destruct (existsb _ _) eqn:He.
  - rewrite decide_False; [done|]. intros [_ Hno]. rewrite Forall_forall in Hno.
    apply existsb_exists in He as (u & Hu & Ha%bool_decide_eq_true).
    apply (Hno u); [|done]. by apply list_elem_of_In.
  - rewrite decide_True; [cbn; by rewrite <-app_assoc|]. split.
    + intros Heq. rewrite Heq in Hn. done.
    + apply Forall_forall. intros u Hu Ha. apply not_true_iff_false in He. apply He.
      apply existsb_exists. exists u. split; [by apply list_elem_of_In|].
      by apply bool_decide_eq_true.
Qed.

Lemma owners_gate :
  is_nil (code_owner_blockers pr eff context) = true ↔
  ∀ contents path, codeowners context = Some contents → path ∈ changed_files pr →
    owners_for (CodeOwners_parse contents) path ≠ [] →
    ∃ u, u ∈ owners_for (CodeOwners_parse contents) path
         ∧ has_verdict pr reviews RS_Approved u.
Proof.
  unfold code_owner_blockers. destruct (codeowners context) as [contents|]; [|by split].
  set (rules := CodeOwners_parse contents).
  set (approvers := list_to_set _ : gset string).
  assert (Happ : ∀ u, u ∈ approvers ↔ has_verdict pr reviews RS_Approved u).
  { intros u. unfold approvers. rewrite elem_of_list_to_set. apply in_state_authors. }
  pose proof (owner_paths rules approvers (changed_files pr) ([], ∅)) as Hp. cbn in Hp.
  destruct (foldl _ _ _) as [paths owners]. cbn in Hp.
  transitivity (paths = []); [by destruct paths|]. rewrite Hp. split.
  - intros Hnil ? path [= <-] Hin Hne.
    destruct (decide (Exists (λ u, u ∈ approvers) (owners_for rules path))) as [Hex|Hex].
    { apply Exists_exists in Hex as (u & ? & ?). exists u. by rewrite <-Happ. }
    exfalso. apply (not_elem_of_nil path). rewrite <-Hnil. apply list_elem_of_filter.
    split; [|done]. split; [done|]. apply Forall_forall. intros u Hu Ha.
    apply Hex, Exists_exists. eauto.
  - intros H. apply elem_of_nil_inv. intros p [[Hne Hno] Hin]%list_elem_of_filter.
    rewrite Forall_forall in Hno.
    destruct (H contents p eq_refl Hin Hne) as (u & Hu & Hv). by apply (Hno u Hu), Happ.
Qed.

Lemma checks_gate names :
  is_nil (omap (check_blocker statuses check_runs) names) = true ↔
  ∀ name, name ∈ names → green statuses check_runs name.
Proof.
  rewrite is_nil_spec, omap_nil. unfold check_blocker, green.
  split; intros H name Hin; specialize (H name Hin);
    destruct (required_context_state name statuses check_runs); done.
Qed.

Lemma linear_gate :
  is_nil (match find_first (λ c, (1 <? parents c)%N) (commits pr) with
          | Some c => [NonLinearHistory (commit_sha c)] | None => [] end) = true ↔
  ∀ c, c ∈ commits pr → (parents c ≤ 1)%N.
Proof.
  destruct (find_first _ _) as [c|] eqn:Hf; split; try done.
  - intros H. apply find_first_Some in Hf as (l1 & l2 & Hl & Hc & _).
    assert (Hin : c ∈ commits pr) by (rewrite Hl; apply elem_of_app; right; constructor).
    specialize (H c Hin). apply N.ltb_lt in Hc. lia.
  - intros _ c Hc. rewrite find_first_None, Forall_forall in Hf. specialize (Hf c Hc).
    by apply N.ltb_ge in Hf.
Qed.

Lemma signed_gate :
  is_nil (match map commit_sha (filter (λ c, verified c = false) (commits pr)) with
          | [] => [] | unsigned => [UnsignedCommits unsigned] end) = true ↔
  ∀ c, c ∈ commits pr → verified c = true.
Proof.
  transitivity (filter (λ c, verified c = false) (commits pr) = []);
    [by destruct (filter _ _)|]. split.
  - intros Hnil c Hc. apply not_false_iff_true. intros Hv. apply (not_elem_of_nil c).
    rewrite <-Hnil. by apply list_elem_of_filter.
  - intros H. apply elem_of_nil_inv. intros c [Hv Hc]%list_elem_of_filter.
    rewrite H in Hv by done. done.
Qed.

Lemma if_gate (b : bool) (l : list MergeBlocker) (P : Prop) :
  (is_nil l = true ↔ P) → is_nil (if b then l else []) = true ↔ (b = true → P).
Proof. destruct b; [intros ->; by split; auto|by split]. Qed.

Lemma rule_gate rule :
  (jankurai_proof_mandatory context = true → green statuses check_runs jankurai_proof) →
  is_nil (rule_blockers pr rule eff statuses check_runs context) = true ↔
  rule_open pr reviews statuses check_runs context rule.
Proof.
  intros Hmand. unfold rule_blockers. rewrite !is_nil_app, !andb_true_iff.
  rewrite checks_gate, (if_gate _ _ _ linear_gate), (if_gate _ _ _ signed_gate), owners_gate.
  assert (Hrev : is_nil (if (0 <? required_approving_review_count rule)%N
      && (N.of_nat (length (in_state RS_Approved eff)) <? required_approving_review_count rule)%N
     then [MissingReview (required_approving_review_count rule)
             (N.of_nat (length (in_state RS_Approved eff)))] else []) = true ↔
     (required_approving_review_count rule ≤ N.of_nat (length (in_state RS_Approved eff)))%N).
  { destruct (N.ltb_spec 0 (required_approving_review_count rule)); cbn [andb];
      [|split; [lia|done]].
    by destruct (N.ltb_spec (N.of_nat (length (in_state RS_Approved eff)))
      (required_approving_review_count rule)); split; try done; lia. }
  assert (Hj : is_nil (if require_jankurai_proof rule && negb (jankurai_proof_mandatory context)
       && negb (is_satisfied (required_context_state jankurai_proof statuses check_runs))
     then [JankuraiProofRequired] else []) = true ↔
     (require_jankurai_proof rule = true → green statuses check_runs jankurai_proof)).
  { unfold green in *. rewrite <-is_satisfied_spec in *.
    destruct (require_jankurai_proof rule), (jankurai_proof_mandatory context),
      (is_satisfied _); split; naive_solver. }
  rewrite Hrev, Hj, approvals_set. split; [intros (?&?&?&?&?&?); by split|].
  by intros [? ? ? ? ? ?].
Qed.
End gate_lemmas.

(** C39: the merge gate lets through exactly what protection allows. A pull request is
    mergeable when it is no draft, is asked for at its own head, no reviewer's standing
    verdict asks for changes and the proof check is green where it is mandatory; and, when
    the branch has a rule that binds the caller (admins only if the rule says so), when
    enough reviewers' approvals stand, every required check is green, and its commits and
    the owners of the changed paths meet the rule. *)
Theorem merge_gate pr protection reviews statuses check_runs requested_sha context :
  eval_mergeable (evaluate_branch_protection_with pr protection reviews statuses check_runs
                    requested_sha context) = true ↔
  intrinsic_open pr reviews statuses check_runs requested_sha context
  ∧ ∀ rule, protection = Some rule → binds rule context →
      rule_open pr reviews statuses check_runs context rule.
Proof.
  unfold evaluate_branch_protection_with.
  pose proof (intrinsic_gate pr reviews statuses check_runs requested_sha context) as Hi.
  destruct protection as [rule|]; cbn.
  2:{ rewrite Hi. split; [by intros ?|by intros [? _]]. }
  assert (Hb : actor_is_admin context && negb (enforce_admins rule) = false ↔ binds rule context).
  { unfold binds. destruct (actor_is_admin context), (enforce_admins rule); cbn;
      split; auto; intros [|]; congruence. }
  destruct (actor_is_admin context && negb (enforce_admins rule)); cbn.
  - rewrite Hi. split; [|by intros [? _]]. intros ?. split; [done|].
    intros ? [= <-] Hr. by apply Hb in Hr.
  - rewrite is_nil_app, andb_true_iff, Hi. split.
    + intros [Ho Hr]. split; [done|]. intros ? [= <-] _. revert Hr.
      apply rule_gate. apply (io_jankurai _ _ _ _ _ _ Ho).
    + intros [Ho Hr]. split; [done|]. apply rule_gate; [apply (io_jankurai _ _ _ _ _ _ Ho)|].
      by apply Hr; [|apply Hb].
Qed.

(** Ref operations: only a rule that binds the caller and forbids the operation refuses. *)
Lemma ref_operation_gate operation protection context :
  allowed (evaluate_ref_operation operation protection context) = true ↔
  ∀ rule, protection = Some rule → binds rule context →
    match operation with
    | ForcePush => allow_force_pushes rule = true
    | Delete => allow_deletions rule = true
    end.
Proof.
  unfold evaluate_ref_operation, binds. destruct protection as [rule|]; cbn; [|by split].
  split.
  - intros H ? [= <-] Hb. destruct operation, (actor_is_admin context),
      (enforce_admins rule), (allow_force_pushes rule), (allow_deletions rule);
      done || (destruct Hb; done).
  - intros H. specialize (H rule eq_refl). destruct operation, (actor_is_admin context),
      (enforce_admins rule), (allow_force_pushes rule), (allow_deletions rule);
      cbn; auto; exfalso; discriminate H; auto.
Qed.

(** The last matching rule of the file owns a path. *)
Lemma owners_for_spec rules1 pattern owners rules2 path :
  glob_match pattern path = true →
  Forall (λ rule, glob_match rule.1 path = false) rules2 →
  owners_for (rules1 ++ (pattern, owners) :: rules2) path = owners.
Proof.
  intros Hm Hlast. unfold owners_for.
  assert (find_first (λ rule, glob_match rule.1 path)
            (reverse (rules1 ++ (pattern, owners) :: rules2)) = Some (pattern, owners)) as ->;
    [|done].
  apply find_first_Some. exists (reverse rules2), (reverse rules1).
  split; [|split; [exact Hm|]].
  { rewrite reverse_app, reverse_cons. by rewrite <-app_assoc. }
  rewrite Forall_forall in *. intros r Hr. apply Hlast. by rewrite elem_of_reverse in Hr.
Qed.
End protection.

(** * Samples *)

Example owners_last_rule_wins :
  let rules := CodeOwners_parse "# owners
*.rs @core
/docs/ @writers  @editor
docs/internal/** @core
" in
  owners_for rules "src/lib.rs" = ["core"]
  ∧ owners_for rules "docs/guide.md" = ["writers"; "editor"]
  ∧ owners_for rules "docs/internal/a.rs" = ["core"]
  ∧ owners_for rules "Makefile" = [].
Proof. vm_compute. split_and!; reflexivity. Qed.

Example glob_directories :
  map (λ p, glob_match p "src/a/b.rs") ["*"; "*.rs"; "src"; "/src/"; "src/**"; "sr"; "b.rs"]
  = [true; true; true; true; true; false; false].
Proof. vm_compute. reflexivity. Qed.
