(* ===== verification/Paths.v ===== *)
(** Paths: what the program uses of [std::path] on Unix, over the bytes of the path.

    [components] drops repeated slashes and inner dots as the standard library does;
    [path_starts_with] compares whole components and resolves nothing. *)

From Stdlib Require Import Ascii.
From S2P Require Import Prelude Text.

Inductive Component : Type := RootDir | CurDir | ParentDir | Normal (name : string).

#[export] Instance Component_eq_dec : EqDecision Component.
Proof. solve_decision. Defined.

Definition is_absolute (path : string) : bool := starts_with path "/".

Definition segment (s : string) : option Component :=
  if bool_decide (s ∈ [""; "."]) then None
  else if bool_decide (s = "..") then Some ParentDir else Some (Normal s).

(** A dot counts only as the first segment of a relative path. *)
Definition components (path : string) : list Component :=
  let segments := split_on "/"%char path in
  if is_absolute path then RootDir :: omap segment segments
  else match segments with
       | "." :: rest => CurDir :: omap segment rest
       | _ => omap segment segments
       end.

Fixpoint is_prefix (p l : list Component) : bool :=
  match p, l with
  | [], _ => true
  | x :: p, y :: l => bool_decide (x = y) && is_prefix p l
  | _ :: _, [] => false
  end.

(** [Path::starts_with]. *)
Definition path_starts_with (path base : string) : bool :=
  is_prefix (components base) (components path).

(** [Path::join]. *)
Definition path_join (base path : string) : string :=
  if is_absolute path || str_is_empty base then path
  else if ends_with base "/" then base +:+ path
  else base +:+ "/" +:+ path.

Lemma is_prefix_spec p l : is_prefix p l = true ↔ ∃ rest, l = p ++ rest.
Proof.
  revert l. induction p as [|x p IH]; intros l; cbn; [split; eauto|].
  destruct l as [|y l]; [split; [done|by intros [? ?]]|].
  rewrite andb_true_iff, bool_decide_eq_true, IH. split.
  - intros [-> [rest ->]]. by exists rest.
  - intros [rest [= -> ->]]. split; [done|]. by exists rest.
Qed.

Example components_examples :
  components "/a//b/./c/" = [RootDir; Normal "a"; Normal "b"; Normal "c"]
  ∧ components "./a/../b" = [CurDir; Normal "a"; ParentDir; Normal "b"]
  ∧ components "" = [].
Proof. vm_compute. split_and!; reflexivity. Qed.

Example starts_with_resolves_nothing :
  path_starts_with "/repo/../etc" "/repo" = true ∧ path_starts_with "/repository" "/repo" = false.
Proof. vm_compute. split; reflexivity. Qed.

(** * The order of paths *)

Definition component_rank (c : Component) : nat :=
  match c with RootDir => 0 | CurDir => 1 | ParentDir => 2 | Normal _ => 3 end.

Definition component_leb (a b : Component) : bool :=
  match a, b with
  | Normal x, Normal y => String.leb x y
  | _, _ => component_rank a <=? component_rank b
  end.

Fixpoint components_leb (a b : list Component) : bool :=
  match a, b with
  | [], _ => true
  | _ :: _, [] => false
  | x :: a, y :: b => if bool_decide (x = y) then components_leb a b else component_leb x y
  end.

(** [Path]s compare by their components. *)
Definition path_leb (a b : string) : bool := components_leb (components a) (components b).

(** A run of equal paths becomes its last one, as collecting into a [BTreeSet] does. *)
Fixpoint dedup_paths (l : list string) : list string :=
  match l with
  | x :: ((y :: _) as l') =>
      if bool_decide (components x = components y) then dedup_paths l' else x :: dedup_paths l'
  | _ => l
  end.

Definition path_set (l : list string) : list string := dedup_paths (isort path_leb l).

Lemma dedup_paths_components c l :
  c ∈ map components (dedup_paths l) ↔ c ∈ map components l.
Proof.
  induction l as [|x l IH]; [done|]. destruct l as [|y l]; [done|].
  change (dedup_paths (x :: y :: l))
    with (if bool_decide (components x = components y) then dedup_paths (y :: l)
          else x :: dedup_paths (y :: l)).
  case_bool_decide as Hxy; rewrite (fmap_cons components x), elem_of_cons.
  - rewrite IH. split; [by right|]. intros [->|H]; [|done]. rewrite Hxy. constructor.
  - rewrite fmap_cons, elem_of_cons. by rewrite IH.
Qed.

(** The set has the paths of the list, up to spelling. *)
Lemma path_set_components c l : c ∈ map components (path_set l) ↔ c ∈ map components l.
Proof. unfold path_set. by rewrite dedup_paths_components, isort_perm. Qed.

(** * Joining *)

Lemma split_on_cons d c s :
  split_on d (String c s)
  = if Ascii.eqb c d then "" :: split_on d s
    else match split_on d s with x :: l => String c x :: l | [] => [String c ""] end.
Proof. reflexivity. Qed.

Lemma split_on_nonempty d s : split_on d s ≠ [].
Proof.
  destruct s as [|c s]; [done|]. rewrite split_on_cons. destruct (Ascii.eqb c d); [done|].
  by destruct (split_on d s).
Qed.

Lemma split_on_app d s t :
  split_on d (s +:+ String d t) = split_on d s ++ split_on d t.
Proof.
  induction s as [|c s IH].
  - rewrite append_nil_l, split_on_cons, Ascii.eqb_refl. done.
  - rewrite append_cons, !split_on_cons, IH. destruct (Ascii.eqb c d); [done|].
    pose proof (split_on_nonempty d s) as Hne. by destruct (split_on d s).
Qed.

Definition segments (path : string) : list Component := omap segment (split_on "/"%char path).

Lemma is_absolute_cons c s : is_absolute (String c s) = Ascii.eqb "/"%char c.
Proof.
  unfold is_absolute, starts_with.
  change (strip_prefix "/" (String c s)) with (if Ascii.eqb "/" c then Some s else None).
  destruct (Ascii.eqb "/" c).
  - apply bool_decide_eq_true. by eexists.
  - apply bool_decide_eq_false. by intros [? ?].
Qed.

Lemma is_absolute_app s t : s ≠ "" → is_absolute (s +:+ t) = is_absolute s.
Proof. destruct s as [|c s]; [done|]. intros _. by rewrite append_cons, !is_absolute_cons. Qed.

(** The components of a text whose segments go on. *)
Lemma components_go base (segs more : list string) :
  split_on "/"%char base = segs →
  (if is_absolute base then RootDir :: omap segment (segs ++ more)
   else match segs ++ more with
        | "." :: rest => CurDir :: omap segment rest
        | _ => omap segment (segs ++ more)
        end)
  = components base ++ omap segment more.
Proof.
  intros Hs. unfold components. rewrite Hs. pose proof (split_on_nonempty "/"%char base) as Hne.
  rewrite Hs in Hne. destruct segs as [|x segs]; [done|].
  destruct (is_absolute base); [by rewrite omap_app|]. cbn [app].
  destruct (decide (x = ".")) as [->|Hx]; [by rewrite omap_app|].
  assert (Hm : ∀ (l : list string) (A B : list Component),
    match x :: l with "." :: rest => A | _ => B end = B).
  { intros l A B. destruct x as [|[[] [] [] [] [] [] [] []] [|? ?]]; done. }
  rewrite !app_comm_cons.
  transitivity (omap segment ((x :: segs) ++ more)).
  - destruct x as [|[[] [] [] [] [] [] [] []] [|? ?]]; done.
  - rewrite omap_app. f_equal.
    destruct x as [|[[] [] [] [] [] [] [] []] [|? ?]]; done.
Qed.

(** Joining a relative path without a leading dot appends its components. *)
Lemma components_join base path :
  is_absolute path = false → components path = segments path → base ≠ "" →
  components (path_join base path) = components base ++ components path.
Proof.
  intros Habs Hp Hb. rewrite Hp. unfold path_join. rewrite Habs. unfold str_is_empty.
  rewrite bool_decide_eq_false_2 by done. cbn [orb].
  destruct (ends_with base "/") eqn:He.
  - apply ends_with_spec in He as [b ->].
    change (b +:+ "/") with (b +:+ String "/"%char "").
    rewrite append_assoc. change (String "/"%char "" +:+ path) with (String "/"%char path).
    transitivity (components (b +:+ String "/" "") ++ segments path); [|done].
    pose proof (components_go (b +:+ String "/" "") _ (split_on "/" path) eq_refl) as Hg.
    unfold segments. rewrite <-Hg. unfold components.
    rewrite !split_on_app. replace (is_absolute (b +:+ String "/" path))
      with (is_absolute (b +:+ String "/" "")).
    2:{ destruct b; [done|]. by rewrite !is_absolute_app. }
    cbn [split_on]. rewrite <-app_assoc. cbn [app].
    destruct (is_absolute (b +:+ String "/" "")).
    + by rewrite !omap_app.
    + pose proof (split_on_nonempty "/"%char b) as Hne.
      destruct (split_on "/" b) as [|x l]; [done|]. cbn [app].
      destruct x as [|[[] [] [] [] [] [] [] []] [|? ?]]; cbn; by rewrite !omap_app.
  - change (base +:+ "/" +:+ path) with (base +:+ String "/"%char path).
    pose proof (components_go base _ (split_on "/" path) eq_refl) as Hg.
    unfold segments. rewrite <-Hg. unfold components.
    by rewrite is_absolute_app, split_on_app.
Qed.

Lemma components_relative path :
  is_absolute path = false → CurDir ∉ components path → components path = segments path.
Proof.
  unfold components, segments. intros ->. destruct (split_on "/" path) as [|x l]; [done|].
  destruct x as [|[[] [] [] [] [] [] [] []] [|? ?]]; try done.
  intros H. destruct H. constructor.
Qed.
