(* ===== verification/RunnerCore.v ===== *)
(** RunnerCore: the values every runner works on (jeryu-runner-core): job requests and
    their text form, trust tiers and runner classes, the policy that selects a runner,
    the sandbox plan and the dispatch receipts.

    Paths are their bytes; [now_ms] is an argument. *)

From Stdlib Require Import Ascii ZArith.
From S2P Require Import Prelude Text Paths.
Local Open Scope result_scope.

(** * Errors (error.rs) *)

Record RunnerError : Type := { err_code : string; err_message : string }.

Definition RunnerError_new (c m : string) : RunnerError := {| err_code := c; err_message := m |}.

Definition RunnerError_to_string (e : RunnerError) : string :=
  err_code e +:+ ": " +:+ err_message e.

Abbreviation RunnerResult A := (result A RunnerError).

(** * Trust tiers and runner classes (trust.rs) *)

Inductive TrustTier : Type :=
  | T0ReleaseHermetic | T1ProtectedInternal | T2InternalBranch | T3AgentAuthored | T4ForkPr
  | T5PublicUntrusted.

#[export] Instance TrustTier_eq_dec : EqDecision TrustTier.
Proof. solve_decision. Defined.

Definition TrustTier_as_str (t : TrustTier) : string :=
  match t with
  | T0ReleaseHermetic => "T0_RELEASE_HERMETIC"
  | T1ProtectedInternal => "T1_PROTECTED_INTERNAL"
  | T2InternalBranch => "T2_INTERNAL_BRANCH"
  | T3AgentAuthored => "T3_AGENT_AUTHORED"
  | T4ForkPr => "T4_FORK_PR"
  | T5PublicUntrusted => "T5_PUBLIC_UNTRUSTED"
  end.

Definition permits_native (t : TrustTier) : bool :=
  match t with
  | T0ReleaseHermetic | T1ProtectedInternal | T2InternalBranch | T3AgentAuthored => true
  | _ => false
  end.

Definition permits_default_secrets (t : TrustTier) : bool :=
  match t with
  | T0ReleaseHermetic | T1ProtectedInternal | T2InternalBranch => true
  | _ => false
  end.

Definition permits_trusted_cache_write (t : TrustTier) : bool :=
  match t with T1ProtectedInternal => true | _ => false end.

Definition TrustTier_from_str (value : string) : RunnerResult TrustTier :=
  let normalized := replace_char "-"%char "_" (lowercase (trim value)) in
  let among names := bool_decide (normalized ∈ names) in
  if among ["t0"; "t0_release_hermetic"; "release_hermetic"] then Ok T0ReleaseHermetic
  else if among ["t1"; "t1_protected_internal"; "protected_internal"] then Ok T1ProtectedInternal
  else if among ["t2"; "t2_internal_branch"; "internal_branch"] then Ok T2InternalBranch
  else if among ["t3"; "t3_agent_authored"; "agent_authored"] then Ok T3AgentAuthored
  else if among ["t4"; "t4_fork_pr"; "fork_pr"] then Ok T4ForkPr
  else if among ["t5"; "t5_public_untrusted"; "public_untrusted"] then Ok T5PublicUntrusted
  else Err (RunnerError_new "invalid_trust_tier" ("unknown trust tier '" +:+ value +:+ "'")).

Inductive RunnerClass : Type :=
  | NativeRustHot | NativeRustClean | AgentGuard | ReleaseHermetic | MicroVmRust | OciDocker.

#[export] Instance RunnerClass_eq_dec : EqDecision RunnerClass.
Proof. solve_decision. Defined.

Definition RunnerClass_as_str (c : RunnerClass) : string :=
  match c with
  | NativeRustHot => "native-rust-hot"
  | NativeRustClean => "native-rust-clean"
  | AgentGuard => "agent-guard"
  | ReleaseHermetic => "release-hermetic"
  | MicroVmRust => "microvm-rust"
  | OciDocker => "oci-docker"
  end.

Definition is_native (c : RunnerClass) : bool :=
  match c with
  | NativeRustHot | NativeRustClean | AgentGuard | ReleaseHermetic => true
  | _ => false
  end.

Definition RunnerClass_from_str (value : string) : RunnerResult RunnerClass :=
  let normalized := replace_char "_"%char "-" (lowercase (trim value)) in
  let among names := bool_decide (normalized ∈ names) in
  if among ["native-rust-hot"] then Ok NativeRustHot
  else if among ["native-rust-clean"] then Ok NativeRustClean
  else if among ["agent-guard"] then Ok AgentGuard
  else if among ["release-hermetic"] then Ok ReleaseHermetic
  else if among ["microvm-rust"] then Ok MicroVmRust
  else if among ["oci-docker"; "oci"; "docker"; "podman"] then Ok OciDocker
  else Err (RunnerError_new "invalid_runner_class" ("unknown runner class '" +:+ value +:+ "'")).

(** * Requested policies (job/policy.rs) *)

Inductive NetworkPolicy : Type := Deny | LoopbackOnly | EgressOnly.

#[export] Instance NetworkPolicy_eq_dec : EqDecision NetworkPolicy.
Proof. solve_decision. Defined.

Definition NetworkPolicy_as_str (p : NetworkPolicy) : string :=
  match p with
  | Deny => "deny" | LoopbackOnly => "loopback-only" | EgressOnly => "egress-only"
  end.

Definition NetworkPolicy_from_str (value : string) : RunnerResult NetworkPolicy :=
  let normalized := replace_char "_"%char "-" (lowercase (trim value)) in
  let among names := bool_decide (normalized ∈ names) in
  if among ["deny"; "none"; "off"] then Ok Deny
  else if among ["loopback"; "loopback-only"] then Ok LoopbackOnly
  else if among ["egress"; "egress-only"] then Ok EgressOnly
  else Err (RunnerError_new "invalid_network_policy"
              ("unknown network policy '" +:+ value +:+ "'")).

Inductive SecretPolicy : Type := SP_None | SP_Default | SP_Requested.

#[export] Instance SecretPolicy_eq_dec : EqDecision SecretPolicy.
Proof. solve_decision. Defined.

Definition SecretPolicy_as_str (p : SecretPolicy) : string :=
  match p with SP_None => "none" | SP_Default => "default" | SP_Requested => "requested" end.

Definition SecretPolicy_from_str (value : string) : RunnerResult SecretPolicy :=
  let normalized := lowercase (trim value) in
  let among names := bool_decide (normalized ∈ names) in
  if among ["none"; "deny"; "false"] then Ok SP_None
  else if among ["default"; "auto"] then Ok SP_Default
  else if among ["requested"; "request"; "true"] then Ok SP_Requested
  else Err (RunnerError_new "invalid_secret_policy"
              ("unknown secret policy '" +:+ value +:+ "'")).

Inductive TokenPolicy : Type := TP_None | TP_ReadOnly | TP_ScopedWrite.

#[export] Instance TokenPolicy_eq_dec : EqDecision TokenPolicy.
Proof. solve_decision. Defined.

Definition TokenPolicy_as_str (p : TokenPolicy) : string :=
  match p with
  | TP_None => "none" | TP_ReadOnly => "read-only" | TP_ScopedWrite => "scoped-write"
  end.

Definition TokenPolicy_from_str (value : string) : RunnerResult TokenPolicy :=
  let normalized := replace_char "_"%char "-" (lowercase (trim value)) in
  let among names := bool_decide (normalized ∈ names) in
  if among ["none"; "deny"] then Ok TP_None
  else if among ["read"; "read-only"; "readonly"] then Ok TP_ReadOnly
  else if among ["write"; "scoped-write"] then Ok TP_ScopedWrite
  else Err (RunnerError_new "invalid_token_policy"
              ("unknown token policy '" +:+ value +:+ "'")).

(** * Host guards (fscheck.rs) *)

Definition DENIED_HOST_PATHS : list string :=
  ["/var/run/docker.sock"; "/run/docker.sock"; "/var/run/podman/podman.sock";
   "/run/podman/podman.sock"; "/root/.ssh"; "/home/.ssh"].

Definition DENIED_ENV_VARS : list string :=
  ["SSH_AUTH_SOCK"; "DOCKER_HOST"; "AWS_ACCESS_KEY_ID"; "AWS_SECRET_ACCESS_KEY";
   "AWS_SESSION_TOKEN"; "GOOGLE_APPLICATION_CREDENTIALS"; "AZURE_CLIENT_SECRET"].

Definition deny_dangerous_host_path (path : string) : RunnerResult () :=
  if existsb (λ denied, bool_decide (path = denied) || starts_with path (denied +:+ "/"))
       DENIED_HOST_PATHS
  then Err (RunnerError_new "host_path_denied"
              ("path '" +:+ path +:+ "' is not allowed in runner sandbox"))
  else Ok tt.

Fixpoint validate_mount_sources (paths : list string) : RunnerResult () :=
  match paths with
  | [] => Ok tt
  | path :: paths =>
      match deny_dangerous_host_path path with
      | Err e => Err e
      | Ok _ => validate_mount_sources paths
      end
  end.

Definition sanitize_env (env : gmap string string) : gmap string string :=
  filter (λ kv, kv.1 ∉ DENIED_ENV_VARS) env.

(** * Fields (job/parse.rs) *)

Definition required (values : gmap string string) (key : string) : RunnerResult string :=
  match values !! key with
  | Some value =>
      if str_is_empty (trim value) then Err (RunnerError_new "missing_job_field" ("missing " +:+ key))
      else Ok value
  | None => Err (RunnerError_new "missing_job_field" ("missing " +:+ key))
  end.

Definition split_csv (value : string) : list string :=
  filter (λ part, str_is_empty part = false) (map trim (split_on ","%char value)).

(** The text of [ParseIntError] for a text that does not parse: the first digit that is
    not one, or that no longer fits. *)
Fixpoint digits_error (max acc : N) (s : string) : string :=
  match s with
  | "" => "number too large to fit in target type"
  | String c s' =>
      if negb (is_ascii_digit c) then "invalid digit found in string"
      else
        let acc := (acc * 10 + (code c - 48))%N in
        if (max <? acc)%N then "number too large to fit in target type"
        else digits_error max acc s'
  end.

Definition parse_int_error (max : N) (s : string) : string :=
  let digits := match s with String "+"%char s' => s' | _ => s end in
  if str_is_empty s then "cannot parse integer from empty string"
  else if str_is_empty digits then "invalid digit found in string"
  else digits_error max 0 digits.

Definition parse_u64 (field value : string) : RunnerResult N :=
  match parse_uint u64_max (trim value) with
  | Some n => Ok n
  | None => Err (RunnerError_new "invalid_integer"
                   (field +:+ " must be an unsigned integer: " +:+ parse_int_error u64_max (trim value)))
  end.

Definition parse_bool (field value : string) : RunnerResult bool :=
  let v := lowercase (trim value) in
  if bool_decide (v ∈ ["true"; "yes"; "1"]) then Ok true
  else if bool_decide (v ∈ ["false"; "no"; "0"]) then Ok false
  else Err (RunnerError_new "invalid_bool" (field +:+ " must be true/false")).

Definition is_env_char (c : ascii) : bool :=
  is_ascii_upper c || is_ascii_digit c || Ascii.eqb c "_"%char.

Definition valid_env_name (name : string) : bool :=
  match name with
  | "" => false
  | String c _ => string_all is_env_char name && negb (is_ascii_digit c)
  end.

Definition validate_env_name (name : string) : RunnerResult () :=
  if valid_env_name name then Ok tt
  else Err (RunnerError_new "invalid_env_name"
              ("invalid environment variable '" +:+ name +:+ "'")).

Definition validate_workspace_path (path : string) : RunnerResult () :=
  if negb (is_absolute path) then
    Err (RunnerError_new "invalid_workspace" ("workspace '" +:+ path +:+ "' must be absolute"))
  else if bool_decide (ParentDir ∈ components path) then
    Err (RunnerError_new "invalid_workspace"
           ("workspace '" +:+ path +:+ "' must not contain '..'"))
  else deny_dangerous_host_path path.

(** * Job requests (job/mod.rs) *)

Record JobRequest : Type := {
  job_id : string; repo_id : string; commit_sha : string; workspace : string;
  command : string; args : list string; env : gmap string string; trust_tier : TrustTier;
  requested_runner : option RunnerClass; network_policy : NetworkPolicy;
  secret_policy : SecretPolicy; token_policy : TokenPolicy; timeout_ms : N; fork : bool
}.

Definition JobRequest_validate (j : JobRequest) : RunnerResult () :=
  let invalid m := Err (RunnerError_new "invalid_job" m) in
  if str_is_empty (trim (job_id j)) then invalid "job_id cannot be empty"
  else if str_is_empty (trim (repo_id j)) then invalid "repo_id cannot be empty"
  else if str_is_empty (trim (commit_sha j)) then invalid "commit_sha cannot be empty"
  else if str_is_empty (trim (command j)) then invalid "command cannot be empty"
  else
    match validate_workspace_path (workspace j) with
    | Err e => Err e
    | Ok _ => if (timeout_ms j =? 0)%N then invalid "timeout_ms must be positive" else Ok tt
    end.

(** The loop over the lines: the plain fields and the environment. *)
Definition key_value_line (line_no : nat) (raw_line : string)
    (acc : gmap string string * gmap string string) :
    RunnerResult (gmap string string * gmap string string) :=
  let line := trim raw_line in
  if str_is_empty line || starts_with line "#" then Ok acc
  else
    match split_once "="%char line with
    | None => Err (RunnerError_new "invalid_job_file"
                     ("line " +:+ show_N (N.of_nat line_no + 1) +:+ " is not key=value"))
    | Some (key, value) =>
        let key := trim key in
        let value := trim value in
        match strip_prefix "env." key with
        | Some name =>
            match validate_env_name name with
            | Err e => Err e
            | Ok _ => Ok (acc.1, <[name := value]> acc.2)
            end
        | None => Ok (<[key := value]> acc.1, acc.2)
        end
    end.

Fixpoint key_value_lines (line_no : nat) (raws : list string)
    (acc : gmap string string * gmap string string) :
    RunnerResult (gmap string string * gmap string string) :=
  match raws with
  | [] => Ok acc
  | raw :: raws =>
      match key_value_line line_no raw acc with
      | Err e => Err e
      | Ok acc => key_value_lines (S line_no) raws acc
      end
  end.

(** [get(key).map(parse).transpose()?.unwrap_or(default)]. *)
Definition optional {A} (values : gmap string string) (key : string)
    (parse : string → RunnerResult A) (default : A) : RunnerResult A :=
  match values !! key with Some raw => parse raw | None => Ok default end.

Definition from_key_value (input : string) : RunnerResult JobRequest :=
  let? maps := key_value_lines 0 (lines input) (∅, ∅) in
  let values := maps.1 in
  let? job_id_ := required values "job_id" in
  let? repo_id_ := required values "repo_id" in
  let? commit_sha_ := required values "commit_sha" in
  let? workspace_ := required values "workspace" in
  let? command_ := required values "command" in
  let args_ := match values !! "args" with Some raw => split_csv raw | None => [] end in
  let? tier := optional values "trust_tier" TrustTier_from_str T5PublicUntrusted in
  let? requested := optional values "requested_runner"
                      (λ raw, let? c := RunnerClass_from_str raw in Ok (Some c)) None in
  let? network := optional values "network_policy" NetworkPolicy_from_str Deny in
  let? secret := optional values "secret_policy" SecretPolicy_from_str SP_Default in
  let? token := optional values "token_policy" TokenPolicy_from_str TP_ReadOnly in
  let? timeout := optional values "timeout_ms" (parse_u64 "timeout_ms") 600000%N in
  let? fork_ := optional values "fork" (parse_bool "fork") (bool_decide (tier = T4ForkPr)) in
  let request :=
    {| job_id := job_id_; repo_id := repo_id_; commit_sha := commit_sha_;
       workspace := workspace_; command := command_; args := args_; env := maps.2;
       trust_tier := tier; requested_runner := requested; network_policy := network;
       secret_policy := secret; token_policy := token; timeout_ms := timeout; fork := fork_ |} in
  let? _ := JobRequest_validate request in
  Ok request.

(** * Runner selection (policy.rs) *)

Inductive CacheWritePolicy : Type := CW_Deny | CW_Quarantine | CW_TrustedAfterGreen.

#[export] Instance CacheWritePolicy_eq_dec : EqDecision CacheWritePolicy.
Proof. solve_decision. Defined.

Definition CacheWritePolicy_as_str (p : CacheWritePolicy) : string :=
  match p with
  | CW_Deny => "deny" | CW_Quarantine => "quarantine"
  | CW_TrustedAfterGreen => "trusted-after-green"
  end.

Record PolicyDecision : Type := {
  runner_class : RunnerClass; eff_network : NetworkPolicy; allow_secrets : bool;
  eff_token : TokenPolicy; cache_write_policy : CacheWritePolicy; reasons : list string
}.

Definition runner_denied (m : string) : RunnerError := RunnerError_new "runner_policy_denied" m.

Definition validate_requested (tier : TrustTier) (runner : RunnerClass) : RunnerResult () :=
  match tier, runner with
  | (T4ForkPr | T5PublicUntrusted), (NativeRustHot | NativeRustClean | AgentGuard | ReleaseHermetic) =>
      Err (runner_denied (TrustTier_as_str tier +:+ " cannot run on " +:+ RunnerClass_as_str runner))
  | T5PublicUntrusted, OciDocker => Err (runner_denied "T5_PUBLIC_UNTRUSTED must use microvm-rust")
  | T3AgentAuthored, NativeRustHot =>
      Err (runner_denied "T3_AGENT_AUTHORED must use agent-guard or stronger isolation")
  | _, _ => Ok tt
  end.

Definition default_runner (tier : TrustTier) : RunnerClass :=
  match tier with
  | T0ReleaseHermetic => ReleaseHermetic
  | T1ProtectedInternal => NativeRustHot
  | T2InternalBranch => NativeRustClean
  | T3AgentAuthored => AgentGuard
  | T4ForkPr => MicroVmRust
  | T5PublicUntrusted => MicroVmRust
  end.

(** The class, and the reason pushed. *)
Definition choose_runner (j : JobRequest) : RunnerResult (RunnerClass * string) :=
  match requested_runner j with
  | Some requested =>
      let? _ := validate_requested (trust_tier j) requested in
      Ok (requested, "requested_runner=" +:+ RunnerClass_as_str requested)
  | None =>
      let default := default_runner (trust_tier j) in
      Ok (default, "default_runner=" +:+ RunnerClass_as_str default)
  end.

Definition assert_native_invariants (tier : TrustTier) (runner : RunnerClass) : RunnerResult () :=
  if is_native runner && negb (permits_native tier) then
    Err (runner_denied (TrustTier_as_str tier +:+ " does not permit native runner class "
                          +:+ RunnerClass_as_str runner))
  else if bool_decide (runner = NativeRustHot) && negb (bool_decide (tier = T1ProtectedInternal))
  then Err (runner_denied ("native-rust-hot is reserved for T1_PROTECTED_INTERNAL, got "
                             +:+ TrustTier_as_str tier))
  else Ok tt.

Definition network_denied (m : string) : RunnerError := RunnerError_new "network_policy_denied" m.

Definition effective_network (j : JobRequest) (runner : RunnerClass) :
    RunnerResult (NetworkPolicy * string) :=
  let net := network_policy j in
  let plain := "network=" +:+ NetworkPolicy_as_str net in
  match trust_tier j with
  | T4ForkPr | T5PublicUntrusted =>
      if negb (bool_decide (net = Deny))
      then Err (network_denied "fork/public jobs are network-deny by default in Phase 4")
      else Ok (Deny, "network=deny-untrusted")
  | T0ReleaseHermetic =>
      if negb (bool_decide (net = Deny))
      then Err (network_denied "release-hermetic jobs require network deny")
      else Ok (Deny, "network=deny-release-hermetic")
  | T3AgentAuthored =>
      if bool_decide (net = EgressOnly)
      then Err (network_denied "agent jobs may not request egress in Phase 4")
      else Ok (net, plain)
  | _ =>
      Ok (net, if bool_decide (runner = NativeRustHot) && bool_decide (net = EgressOnly)
               then "network=egress-native-hot-explicit" else plain)
  end.

Definition effective_secrets (j : JobRequest) : bool :=
  match secret_policy j with
  | SP_None => false
  | SP_Default | SP_Requested => permits_default_secrets (trust_tier j)
  end.

Definition effective_token (j : JobRequest) : TokenPolicy :=
  match trust_tier j with
  | T4ForkPr | T5PublicUntrusted => TP_ReadOnly
  | T3AgentAuthored => match token_policy j with TP_ScopedWrite => TP_ScopedWrite | _ => TP_ReadOnly end
  | _ => token_policy j
  end.

Definition effective_jeryu_cache_policy (tier : TrustTier) : CacheWritePolicy :=
  match tier with
  | T0ReleaseHermetic => CW_Deny
  | T1ProtectedInternal => CW_TrustedAfterGreen
  | T2InternalBranch | T3AgentAuthored => CW_Quarantine
  | T4ForkPr | T5PublicUntrusted => CW_Deny
  end.

Definition select_runner (j : JobRequest) : RunnerResult PolicyDecision :=
  let? chosen := choose_runner j in
  let? _ := assert_native_invariants (trust_tier j) chosen.1 in
  let? network := effective_network j chosen.1 in
  let secrets := effective_secrets j in
  let token := effective_token j in
  let cache := effective_jeryu_cache_policy (trust_tier j) in
  Ok {| runner_class := chosen.1; eff_network := network.1; allow_secrets := secrets;
        eff_token := token; cache_write_policy := cache;
        reasons :=
          ["trust_tier=" +:+ TrustTier_as_str (trust_tier j)]
          ++ (if fork j then ["fork=true"] else [])
          ++ [chosen.2; network.2; "secrets_allowed=" +:+ show_bool secrets;
              "token_policy=" +:+ TokenPolicy_as_str token;
              "cache_write=" +:+ CacheWritePolicy_as_str cache] |}.

(** * Sandbox plans (sandbox.rs) *)

Record CgroupLimits : Type := {
  memory_max_bytes : N; cpu_weight : N; pids_max : N; io_weight : N
}.

Definition gib (n : N) : N := (n * 1024 * 1024 * 1024)%N.

Definition CgroupLimits_default_for (c : RunnerClass) : CgroupLimits :=
  match c with
  | NativeRustHot =>
      {| memory_max_bytes := gib 8; cpu_weight := 200; pids_max := 2048; io_weight := 200 |}
  | NativeRustClean | AgentGuard =>
      {| memory_max_bytes := gib 6; cpu_weight := 150; pids_max := 1536; io_weight := 150 |}
  | ReleaseHermetic =>
      {| memory_max_bytes := gib 8; cpu_weight := 100; pids_max := 1024; io_weight := 100 |}
  | MicroVmRust | OciDocker =>
      {| memory_max_bytes := gib 4; cpu_weight := 100; pids_max := 1024; io_weight := 100 |}
  end.

Record SeccompProfile : Type := {
  seccomp_name : string; default_action : string; allow_groups : list string
}.

Definition SeccompProfile_default_for (c : RunnerClass) : SeccompProfile :=
  {| seccomp_name := RunnerClass_as_str c +:+ "-phase4-seccomp"; default_action := "kill-process";
     allow_groups :=
       ["process-basic"; "file-readwrite-workspace"; "futex"; "time"]
       ++ match c with NativeRustHot | NativeRustClean => ["rust-build-tooling"] | _ => [] end |}.

Record LandlockRule : Type := {
  rule_path : string; read : bool; write : bool; execute : bool
}.

Record MountSpec : Type := { source : string; target : string; read_only : bool }.

Record SandboxPlan : Type := {
  plan_class : RunnerClass; user_namespace : bool; mount_namespace : bool;
  pid_namespace : bool; plan_network : NetworkPolicy; cgroup_limits : CgroupLimits;
  seccomp : SeccompProfile; landlock_rules : list LandlockRule; mounts : list MountSpec;
  plan_secrets : bool; plan_cache : CacheWritePolicy; require_cgroup : bool
}.

Definition local_toolchain_rules : list LandlockRule :=
  map (λ pe, {| rule_path := pe.1; read := true; write := false; execute := pe.2 |})
    [("/home/ubuntu/.cargo/bin", true); ("/home/ubuntu/.cargo/config.toml", false);
     ("/home/ubuntu/.cargo/git/db", false); ("/home/ubuntu/.cargo/git/checkouts", false);
     ("/home/ubuntu/.cargo/registry", false); ("/home/ubuntu/.rustup", true);
     ("/home/ubuntu/.local/bin", true)].

Definition SandboxPlan_from_decision (workspace_ : string) (d : PolicyDecision) : SandboxPlan :=
  {| plan_class := runner_class d; user_namespace := true; mount_namespace := true;
     pid_namespace := true; plan_network := eff_network d;
     cgroup_limits := CgroupLimits_default_for (runner_class d);
     seccomp := SeccompProfile_default_for (runner_class d);
     landlock_rules :=
       [{| rule_path := workspace_; read := true; write := true; execute := true |};
        {| rule_path := "/nix/store"; read := true; write := false; execute := true |};
        {| rule_path := "/usr"; read := true; write := false; execute := true |};
        {| rule_path := "/dev/null"; read := true; write := true; execute := false |}]
       ++ local_toolchain_rules;
     mounts :=
       [{| source := workspace_; target := "/workspace"; read_only := false |};
        {| source := "/usr"; target := "/usr"; read_only := true |}]
       ++ map (λ r, {| source := rule_path r; target := rule_path r; read_only := true |})
            local_toolchain_rules;
     plan_secrets := allow_secrets d; plan_cache := cache_write_policy d;
     require_cgroup := false |}.

Definition with_require_cgroup (p : SandboxPlan) (b : bool) : SandboxPlan :=
  {| plan_class := plan_class p; user_namespace := user_namespace p;
     mount_namespace := mount_namespace p; pid_namespace := pid_namespace p;
     plan_network := plan_network p; cgroup_limits := cgroup_limits p; seccomp := seccomp p;
     landlock_rules := landlock_rules p; mounts := mounts p; plan_secrets := plan_secrets p;
     plan_cache := plan_cache p; require_cgroup := b |}.

Definition explain (p : SandboxPlan) : string :=
  "runner=" +:+ RunnerClass_as_str (plan_class p) +:+ " net="
    +:+ NetworkPolicy_as_str (plan_network p) +:+ " secrets=" +:+ show_bool (plan_secrets p)
    +:+ " cache=" +:+ CacheWritePolicy_as_str (plan_cache p) +:+ " seccomp="
    +:+ seccomp_name (seccomp p).

(** * Receipts (receipt.rs) *)

Inductive ReceiptStatus : Type :=
  | Planned | Passed | Failed | TimedOut | Denied.

#[export] Instance ReceiptStatus_eq_dec : EqDecision ReceiptStatus.
Proof. solve_decision. Defined.

Definition ReceiptStatus_as_str (s : ReceiptStatus) : string :=
  match s with
  | Planned => "planned" | Passed => "passed" | Failed => "failed"
  | TimedOut => "timed_out" | Denied => "denied"
  end.

Record Receipt : Type := {
  receipt_id : string; receipt_job : string; receipt_repo : string; receipt_commit : string;
  receipt_class : string; receipt_tier : string; status : ReceiptStatus;
  exit_code : option Z; started_ms : N; finished_ms : N; receipt_reasons : list string;
  sandbox : string; message : string
}.

Definition Receipt_new (j : JobRequest) (d : PolicyDecision) (p : SandboxPlan)
    (s : ReceiptStatus) (exit : option Z) (started finished : N) (m : string) : Receipt :=
  {| receipt_id := "rcpt_" +:+ job_id j +:+ "_"
       +:+ replace_char "-"%char "_" (RunnerClass_as_str (runner_class d)) +:+ "_"
       +:+ show_N finished;
     receipt_job := job_id j; receipt_repo := repo_id j; receipt_commit := commit_sha j;
     receipt_class := RunnerClass_as_str (runner_class d);
     receipt_tier := TrustTier_as_str (trust_tier j); status := s; exit_code := exit;
     started_ms := started; finished_ms := finished; receipt_reasons := reasons d;
     sandbox := explain p; message := m |}.

Definition Receipt_denied (j : JobRequest) (m : string) (now : N) : Receipt :=
  {| receipt_id := "rcpt_" +:+ job_id j +:+ "_denied_" +:+ show_N now;
     receipt_job := job_id j; receipt_repo := repo_id j; receipt_commit := commit_sha j;
     receipt_class := "denied"; receipt_tier := TrustTier_as_str (trust_tier j);
     status := Denied; exit_code := None; started_ms := now; finished_ms := now;
     receipt_reasons := ["policy_denied"]; sandbox := "none"; message := m |}.

(** [{:04x}]. *)
Definition hex4 (n : N) : string := hex_digits 4 n.

(** [escape_json], over UTF-8 bytes: the control characters are the bytes below 32, 127,
    and the two-byte characters [C2 80] to [C2 9F]. *)
Definition escape_unit (x : N) : string := "\u" +:+ hex4 x.

Definition quote_byte : ascii := "034"%char.
Definition backslash_byte : ascii := "092"%char.
Definition c2_byte : ascii := "194"%char.

Definition is_c1 (c : ascii) : bool := in_range 128 159 (code c).

Definition escape_byte (c : ascii) : string :=
  if Ascii.eqb c backslash_byte then "\\"
  else if Ascii.eqb c quote_byte then String backslash_byte (String quote_byte "")
  else if Ascii.eqb c newline then "\n"
  else if Ascii.eqb c "013"%char then "\r"
  else if Ascii.eqb c "009"%char then "\t"
  else if (code c <? 32)%N || (code c =? 127)%N then escape_unit (code c)
  else String c "".

Fixpoint escape_json (s : string) : string :=
  match s with
  | "" => ""
  | String c s' =>
      match s' with
      | String d s'' =>
          if Ascii.eqb c c2_byte && is_c1 d then escape_unit (code d) +:+ escape_json s''
          else escape_byte c +:+ escape_json s'
      | "" => escape_byte c
      end
  end.

Definition show_Z (z : Z) : string :=
  if (z <? 0)%Z then "-" +:+ show_N (Z.to_N (- z)) else show_N (Z.to_N z).

Definition quoted (s : string) : string :=
  String quote_byte (escape_json s +:+ String quote_byte "").

Definition field (k v : string) : string := String quote_byte (k +:+ String quote_byte (":" +:+ v)).

Definition to_json (r : Receipt) : string :=
  "{" +:+ join ","
    [field "receipt_id" (quoted (receipt_id r)); field "job_id" (quoted (receipt_job r));
     field "repo_id" (quoted (receipt_repo r)); field "commit_sha" (quoted (receipt_commit r));
     field "runner_class" (quoted (receipt_class r));
     field "trust_tier" (quoted (receipt_tier r));
     field "status" (quoted (ReceiptStatus_as_str (status r)));
     field "exit_code" (match exit_code r with Some z => show_Z z | None => "null" end);
     field "started_ms" (show_N (started_ms r)); field "finished_ms" (show_N (finished_ms r));
     field "reasons" ("[" +:+ join "," (map quoted (receipt_reasons r)) +:+ "]");
     field "sandbox" (quoted (sandbox r)); field "message" (quoted (message r))]
    +:+ "}".

(** * Selection *)

(** Where a tier may run, and with which network. *)
Definition permitted (tier : TrustTier) (c : RunnerClass) (net : NetworkPolicy) : bool :=
  match tier with
  | T0ReleaseHermetic => negb (bool_decide (c = NativeRustHot)) && bool_decide (net = Deny)
  | T1ProtectedInternal => true
  | T2InternalBranch => negb (bool_decide (c = NativeRustHot))
  | T3AgentAuthored =>
      negb (bool_decide (c = NativeRustHot)) && negb (bool_decide (net = EgressOnly))
  | T4ForkPr => bool_decide (c ∈ [MicroVmRust; OciDocker]) && bool_decide (net = Deny)
  | T5PublicUntrusted => bool_decide (c = MicroVmRust) && bool_decide (net = Deny)
  end.

Definition wanted_class (j : JobRequest) : RunnerClass :=
  match requested_runner j with Some c => c | None => default_runner (trust_tier j) end.

Definition untrusted (tier : TrustTier) : bool :=
  match tier with T4ForkPr | T5PublicUntrusted => true | _ => false end.

Lemma select_runner_cases j :
  match select_runner j with
  | Ok d =>
      permitted (trust_tier j) (wanted_class j) (network_policy j) = true
      ∧ runner_class d = wanted_class j ∧ eff_network d = network_policy j
      ∧ allow_secrets d = effective_secrets j ∧ eff_token d = effective_token j
      ∧ cache_write_policy d = effective_jeryu_cache_policy (trust_tier j)
  | Err e =>
      permitted (trust_tier j) (wanted_class j) (network_policy j) = false
      ∧ err_code e ∈ ["runner_policy_denied"; "network_policy_denied"]
  end.
Proof.
  destruct j as [? ? ? ? ? ? ? tier requested net ? ? ? ?].
  unfold select_runner, choose_runner, wanted_class, effective_network.
  cbn [requested_runner trust_tier network_policy].
  destruct tier, requested as [[]|], net; cbn; split_and!; try done; set_solver.
Qed.

(** Runner selection is exactly the trust table. A job is given a runner when its tier
    permits the class it asks for (or the tier's default) with the network it asks for,
    and then gets that class and network, the secrets, token and cache rights of its tier;
    otherwise the policy refuses it. *)
Theorem select_runner_spec j :
  (∀ d, select_runner j = Ok d →
     permitted (trust_tier j) (wanted_class j) (network_policy j) = true
     ∧ runner_class d = wanted_class j ∧ eff_network d = network_policy j
     ∧ allow_secrets d = effective_secrets j ∧ eff_token d = effective_token j
     ∧ cache_write_policy d = effective_jeryu_cache_policy (trust_tier j))
  ∧ (permitted (trust_tier j) (wanted_class j) (network_policy j) = true →
       is_ok (select_runner j) = true)
  ∧ (∀ e, select_runner j = Err e →
       err_code e ∈ ["runner_policy_denied"; "network_policy_denied"]).
Proof.
  pose proof (select_runner_cases j) as H. destruct (select_runner j) as [d|e].
  - split_and!; [|done|done]. intros ? [= <-]. done.
  - destruct H as [Hp He]. split_and!; [done|congruence|]. by intros ? [= <-].
Qed.

(** The rights a decision gives to code of forks and of the public. *)
Record confined (workspace_ : string) (d : PolicyDecision) (p : SandboxPlan) : Prop := {
  cf_native : is_native (runner_class d) = false;
  cf_secrets : allow_secrets d = false ∧ plan_secrets p = false;
  cf_network : plan_network p = Deny;
  cf_token : eff_token d = TP_ReadOnly;
  cf_cache : plan_cache p = CW_Deny;
  cf_namespaces : user_namespace p && mount_namespace p && pid_namespace p = true;
  cf_writes : ∀ r, r ∈ landlock_rules p → write r = true →
    rule_path r = workspace_ ∨ rule_path r = "/dev/null";
  cf_mounts : ∀ m, m ∈ mounts p → read_only m = false → source m = workspace_
}.

Lemma plan_writes w d r :
  r ∈ landlock_rules (SandboxPlan_from_decision w d) → write r = true →
  rule_path r = w ∨ rule_path r = "/dev/null".
Proof.
  cbn. intros Hr Hw.
  repeat (apply elem_of_cons in Hr as [->|Hr]; [by auto || done|]). by apply elem_of_nil in Hr.
Qed.

Lemma plan_mounts w d m :
  m ∈ mounts (SandboxPlan_from_decision w d) → read_only m = false → source m = w.
Proof.
  cbn. intros Hm Hw.
  repeat (apply elem_of_cons in Hm as [->|Hm]; [done|]). by apply elem_of_nil in Hm.
Qed.

(** Code that is not trusted is confined. Whatever a fork or public job asks for, a
    decision for it never runs natively, has no secrets, no network, no cache writes and at
    most a read-only token, and its sandbox has all namespaces and can write nowhere but
    in the workspace and to [/dev/null]. *)
Theorem untrusted_confined j d :
  untrusted (trust_tier j) = true → select_runner j = Ok d →
  confined (workspace j) d (SandboxPlan_from_decision (workspace j) d).
Proof.
  intros Ht Hd. pose proof (select_runner_cases j) as H. rewrite Hd in H.
  destruct H as (Hp & Hc & Hn & Hs & Htk & Hcw).
  unfold effective_secrets, effective_token in *.
  split; cbn; [| | | | |done|intros r; apply (plan_writes _ d)|intros m; apply (plan_mounts _ d)].
  - rewrite Hc. destruct (trust_tier j), (wanted_class j); done.
  - rewrite Hs. destruct (trust_tier j), (secret_policy j); done.
  - rewrite Hn. destruct (trust_tier j), (network_policy j), (wanted_class j); done.
  - rewrite Htk. destruct (trust_tier j); done.
  - rewrite Hcw. destruct (trust_tier j); done.
Qed.

(** No decision exposes more than the job asked for, in any tier: secrets only if wanted
    and in a tier that has them, and never another network. *)
Lemma select_least j d :
  select_runner j = Ok d →
  (allow_secrets d = true → secret_policy j ≠ SP_None ∧ permits_default_secrets (trust_tier j) = true)
  ∧ eff_network d = network_policy j
  ∧ (eff_token d = TP_ScopedWrite → token_policy j = TP_ScopedWrite).
Proof.
  intros Hd. pose proof (select_runner_cases j) as H. rewrite Hd in H.
  destruct H as (_ & _ & Hn & Hs & Htk & _). unfold effective_secrets, effective_token in *.
  split_and!; [|done|].
  - rewrite Hs. destruct (secret_policy j); [done|done..].
  - rewrite Htk. destruct (trust_tier j), (token_policy j); done.
Qed.

(** * Labels *)

(** Every label reads back: tiers, classes, network, secret and token policies parse
    from their own text form, in upper or lower case. *)
Theorem labels_round_trip :
  (∀ t, TrustTier_from_str (TrustTier_as_str t) = Ok t
        ∧ TrustTier_from_str (lowercase (TrustTier_as_str t)) = Ok t)
  ∧ (∀ c, RunnerClass_from_str (RunnerClass_as_str c) = Ok c)
  ∧ (∀ p, NetworkPolicy_from_str (NetworkPolicy_as_str p) = Ok p)
  ∧ (∀ p, SecretPolicy_from_str (SecretPolicy_as_str p) = Ok p)
  ∧ (∀ p, TokenPolicy_from_str (TokenPolicy_as_str p) = Ok p).
Proof. split_and!; intros []; vm_compute; auto. Qed.

(** * Host guards *)

Lemma sanitize_env_lookup env_ k v :
  sanitize_env env_ !! k = Some v ↔ env_ !! k = Some v ∧ k ∉ DENIED_ENV_VARS.
Proof. unfold sanitize_env. by rewrite map_lookup_filter_Some. Qed.

Definition path_is_under (denied path : string) : Prop :=
  path = denied ∨ ∃ rest, path = denied +:+ "/" +:+ rest.

Lemma deny_host_path_spec path :
  deny_dangerous_host_path path = Ok tt ↔
  ∀ denied, denied ∈ DENIED_HOST_PATHS → ¬ path_is_under denied path.
Proof.
  unfold deny_dangerous_host_path.
  destruct (existsb _ DENIED_HOST_PATHS) eqn:He.
  - split; [done|]. intros H. apply existsb_exists in He as (d & Hd%list_elem_of_In & Hp).
    destruct (H d Hd). apply orb_true_iff in Hp as [Hp%bool_decide_eq_true|Hp]; [by left|].
    right. apply starts_with_spec in Hp as [t ->]. exists t. by rewrite append_assoc.
  - split; [|done]. intros _ d Hd Hp. apply not_true_iff_false in He. apply He.
    apply existsb_exists. exists d. split; [by apply list_elem_of_In|].
    apply orb_true_iff. destruct Hp as [->|[t ->]]; [left; by apply bool_decide_eq_true|].
    right. apply starts_with_spec. exists t. by rewrite append_assoc.
Qed.

(** * Job files *)

(** What [validate] accepts. *)
Record valid_job (j : JobRequest) : Prop := {
  vj_job : trim (job_id j) ≠ ""; vj_repo : trim (repo_id j) ≠ "";
  vj_commit : trim (commit_sha j) ≠ ""; vj_command : trim (command j) ≠ "";
  vj_absolute : is_absolute (workspace j) = true;
  vj_parent : ParentDir ∉ components (workspace j);
  vj_host : ∀ denied, denied ∈ DENIED_HOST_PATHS → ¬ path_is_under denied (workspace j);
  vj_timeout : (0 < timeout_ms j)%N
}.

Lemma JobRequest_validate_spec j : JobRequest_validate j = Ok tt ↔ valid_job j.
Proof.
  unfold JobRequest_validate, validate_workspace_path, str_is_empty.
  case_bool_decide as H1; [split; [done|by intros []]|].
  case_bool_decide as H2; [split; [done|by intros []]|].
  case_bool_decide as H3; [split; [done|by intros []]|].
  case_bool_decide as H4; [split; [done|by intros []]|].
  destruct (is_absolute (workspace j)) eqn:H5; cbn; [|split; [done|intros []; congruence]].
  case_bool_decide as H6; [split; [done|by intros []]|].
  destruct (deny_dangerous_host_path (workspace j)) as [[]|] eqn:H7.
  - pose proof (proj1 (deny_host_path_spec _) H7) as H8.
    destruct (N.eqb_spec (timeout_ms j) 0); split; try done; [intros []; lia|].
    intros _. split; try done. lia.
  - split; [done|]. intros []. assert (Err e = Ok tt) as Heq; [|done].
    rewrite <-H7. by apply deny_host_path_spec.
Qed.

Lemma key_value_lines_env n raws acc maps :
  key_value_lines n raws acc = Ok maps →
  (∀ k, is_Some (acc.2 !! k) → valid_env_name k = true) →
  ∀ k, is_Some (maps.2 !! k) → valid_env_name k = true.
Proof.
  revert n acc. induction raws as [|raw raws IH]; intros n acc; cbn; [by intros [= <-]|].
  destruct (key_value_line n raw acc) as [acc1|] eqn:Hl; [|done]. intros Hr Hacc.
  apply (IH _ _ Hr). revert Hl. unfold key_value_line.
  destruct (_ || _); [by intros [= <-]|].
  destruct (split_once _ _) as [[key value]|]; [|done].
  destruct (strip_prefix "env." (trim key)) as [name|]; [|by intros [= <-]].
  unfold validate_env_name. destruct (valid_env_name name) eqn:Hv; [|done].
  intros [= <-] k. cbn. rewrite lookup_insert_is_Some. intros [->|[_ Hk]]; auto.
Qed.

(** C40: a job file that parses is a job that is valid, and fails closed: its environment
    names are well formed, and without a tier, a network, a token or a timeout in the file
    it is a public job with no network, a read-only token and ten minutes. *)
Theorem from_key_value_sound input j :
  from_key_value input = Ok j →
  valid_job j
  ∧ (∀ k, is_Some (env j !! k) → valid_env_name k = true)
  ∧ ∃ maps, key_value_lines 0 (lines input) (∅, ∅) = Ok maps ∧ env j = maps.2
      ∧ (maps.1 !! "trust_tier" = None → trust_tier j = T5PublicUntrusted)
      ∧ (maps.1 !! "requested_runner" = None → requested_runner j = None)
      ∧ (maps.1 !! "network_policy" = None → network_policy j = Deny)
      ∧ (maps.1 !! "token_policy" = None → token_policy j = TP_ReadOnly)
      ∧ (maps.1 !! "timeout_ms" = None → timeout_ms j = 600000%N)
      ∧ (maps.1 !! "fork" = None → fork j = bool_decide (trust_tier j = T4ForkPr)).
Proof.
  unfold from_key_value, optional.
  destruct (key_value_lines 0 (lines input) (∅, ∅)) as [maps|] eqn:Hm; [|done].
  repeat (match goal with
          | |- context [match required ?v ?k with _ => _ end] => destruct (required v k); [|done]
          end).
  destruct (match maps.1 !! "trust_tier" with Some raw => _ | None => _ end)
    as [tier|] eqn:Htier; [|done].
  destruct (match maps.1 !! "requested_runner" with Some raw => _ | None => _ end)
    as [req|] eqn:Hreq; [|done].
  destruct (match maps.1 !! "network_policy" with Some raw => _ | None => _ end)
    as [net|] eqn:Hnet; [|done].
  destruct (match maps.1 !! "secret_policy" with Some raw => _ | None => _ end)
    as [sec|] eqn:Hsec; [|done].
  destruct (match maps.1 !! "token_policy" with Some raw => _ | None => _ end)
    as [tok|] eqn:Htok; [|done].
  destruct (match maps.1 !! "timeout_ms" with Some raw => _ | None => _ end)
    as [tmo|] eqn:Htmo; [|done].
  destruct (match maps.1 !! "fork" with Some raw => _ | None => _ end)
    as [frk|] eqn:Hfrk; [|done].
  match goal with |- context [JobRequest_validate ?r] => set (request := r) end.
  destruct (JobRequest_validate request) as [[]|] eqn:Hv; [|done]. intros [= <-].
  split_and!.
  - by apply JobRequest_validate_spec.
  - apply (key_value_lines_env _ _ _ _ Hm). intros k. cbn. rewrite lookup_empty. by intros [? ?].
  - exists maps. unfold request. cbn. split_and!; [done|done|..]; intros Hn.
    + rewrite Hn in Htier. by injection Htier.
    + rewrite Hn in Hreq. by injection Hreq.
    + rewrite Hn in Hnet. by injection Hnet.
    + rewrite Hn in Htok. by injection Htok.
    + rewrite Hn in Htmo. by injection Htmo.
    + rewrite Hn in Hfrk. by injection Hfrk.
Qed.

(** * JSON text *)

Definition unhex (c : ascii) : N :=
  if is_ascii_digit c then (code c - 48)%N else (code c - 87)%N.

(** The reading of an escaped text. *)
Definition unescape_unit (a b c d : ascii) : string :=
  let n := (((unhex a * 16 + unhex b) * 16 + unhex c) * 16 + unhex d)%N in
  if (n <? 128)%N then String (ascii_of_N n) "" else String c2_byte (String (ascii_of_N n) "").

Fixpoint unescape_json (s : string) : string :=
  match s with
  | "" => ""
  | String c s' =>
      if Ascii.eqb c backslash_byte then
        match s' with
        | String "u"%char (String x (String y (String z (String w t)))) =>
            unescape_unit x y z w +:+ unescape_json t
        | String d t =>
            String (if Ascii.eqb d "n"%char then newline
                    else if Ascii.eqb d "r"%char then "013"%char
                    else if Ascii.eqb d "t"%char then "009"%char else d) (unescape_json t)
        | "" => s
        end
      else String c (unescape_json s')
  end.

(** No byte of the text ends the JSON string or is a control character. *)
Fixpoint json_safe (s : string) : bool :=
  match s with
  | "" => true
  | String c s' =>
      if Ascii.eqb c backslash_byte then match s' with String _ t => json_safe t | "" => false end
      else negb (Ascii.eqb c quote_byte) && negb ((code c <? 32)%N || (code c =? 127)%N)
           && json_safe s'
  end.

Lemma unescape_byte c t : unescape_json (escape_byte c +:+ t) = String c (unescape_json t).
Proof. destruct c as [[] [] [] [] [] [] [] []]; reflexivity. Qed.

Lemma unescape_c1 d t :
  is_c1 d = true →
  unescape_json (escape_unit (code d) +:+ t) = String c2_byte (String d (unescape_json t)).
Proof. destruct d as [[] [] [] [] [] [] [] []]; intros H; try discriminate H; reflexivity. Qed.

Lemma safe_byte c t : json_safe t = true → json_safe (escape_byte c +:+ t) = true.
Proof. intros Ht. destruct c as [[] [] [] [] [] [] [] []]; cbn; exact Ht. Qed.

Lemma safe_c1 d t :
  is_c1 d = true → json_safe t = true → json_safe (escape_unit (code d) +:+ t) = true.
Proof.
  intros Hd Ht. revert Hd.
  destruct d as [[] [] [] [] [] [] [] []]; intros H; try discriminate H; cbn; exact Ht.
Qed.

Lemma string_pair_ind (P : string → Prop) :
  P "" → (∀ c, P (String c "")) →
  (∀ c d s, P s → P (String d s) → P (String c (String d s))) → ∀ s, P s.
Proof.
  intros H0 H1 H2 s. assert (P s ∧ ∀ c, P (String c s)) as [? _]; [|done].
  induction s as [|d s [IH1 IH2]]; [by split|]. split; [apply IH2|].
  intros c. by apply H2.
Qed.

Lemma escape_cons c d s :
  escape_json (String c (String d s))
  = if Ascii.eqb c c2_byte && is_c1 d then escape_unit (code d) +:+ escape_json s
    else escape_byte c +:+ escape_json (String d s).
Proof. reflexivity. Qed.

(** The receipt's JSON strings are faithful and safe: reading an escaped text gives the
    text back, so different texts stay different, and an escaped text contains no byte that
    would end the string or is a control character. *)
Theorem escape_json_faithful s :
  unescape_json (escape_json s) = s ∧ json_safe (escape_json s) = true.
Proof.
  induction s as [|c|c d s [IH1 IH1'] [IH2 IH2']] using string_pair_ind; [done| |].
  - pose proof (unescape_byte c "") as H. rewrite append_nil_r in H.
    pose proof (safe_byte c "" eq_refl) as H'. rewrite append_nil_r in H'. by split.
  - rewrite escape_cons. destruct (Ascii.eqb_spec c c2_byte) as [->|_]; cbn [andb].
    + destruct (is_c1 d) eqn:Hd.
      * rewrite unescape_c1, IH1 by done. split; [done|]. by apply safe_c1.
      * rewrite unescape_byte, IH2. split; [done|]. by apply safe_byte.
    + rewrite unescape_byte, IH2. split; [done|]. by apply safe_byte.
Qed.

(** * Samples *)

Module RunnerCoreSamples.
Definition job (tier : TrustTier) (token : TokenPolicy) : JobRequest :=
  {| job_id := "job"; repo_id := "repo"; commit_sha := "abc"; workspace := "/tmp/work";
     command := "/bin/echo"; args := ["ok"]; env := ∅; trust_tier := tier;
     requested_runner := None; network_policy := Deny; secret_policy := SP_Requested;
     token_policy := token; timeout_ms := 1000; fork := false |}.

Definition decision (j : JobRequest) : PolicyDecision :=
  match select_runner j with
  | Ok d => d
  | Err _ => {| runner_class := MicroVmRust; eff_network := Deny; allow_secrets := false;
                eff_token := TP_None; cache_write_policy := CW_Deny; reasons := [] |}
  end.

Definition file : string :=
  "# a job
job_id=job_1
repo_id=org/repo
commit_sha=abc123
workspace=/tmp/work
command=/bin/echo
args=hello, world
env.RUST_LOG=info
".

Definition parsed : JobRequest :=
  match from_key_value file with Ok j => j | Err _ => job T5PublicUntrusted TP_None end.
End RunnerCoreSamples.

Lemma untrusted_confined_witness :
  let j := RunnerCoreSamples.job T4ForkPr TP_ScopedWrite in
  let d := RunnerCoreSamples.decision j in
  confined "/tmp/work" d (SandboxPlan_from_decision "/tmp/work" d)
  ∧ explain (SandboxPlan_from_decision "/tmp/work" d)
    = "runner=microvm-rust net=deny secrets=false cache=deny seccomp=microvm-rust-phase4-seccomp".
Proof.
  intros j d. split; [|vm_compute; reflexivity].
  exact (untrusted_confined j d eq_refl eq_refl).
Defined.

Lemma file_parses : from_key_value RunnerCoreSamples.file = Ok RunnerCoreSamples.parsed.
Proof. vm_compute. reflexivity. Qed.

Lemma from_key_value_sound_witness :
  valid_job RunnerCoreSamples.parsed
  ∧ trust_tier RunnerCoreSamples.parsed = T5PublicUntrusted
  ∧ args RunnerCoreSamples.parsed = ["hello"; "world"].
Proof.
  destruct (from_key_value_sound _ _ file_parses) as (Hv & _ & _).
  split; [exact Hv|]. vm_compute. split; reflexivity.
Defined.

(** A job that asks for no token is given a read-only one, in the tiers that are trusted
    least. *)
Example none_token_upgraded :
  map (λ t, eff_token (RunnerCoreSamples.decision (RunnerCoreSamples.job t TP_None)))
    [T1ProtectedInternal; T2InternalBranch; T3AgentAuthored; T4ForkPr; T5PublicUntrusted]
  = [TP_None; TP_None; TP_ReadOnly; TP_ReadOnly; TP_ReadOnly].
Proof. vm_compute. reflexivity. Qed.

(** The host paths are compared as text: the same file under another spelling passes. *)
Example respelled_socket_allowed :
  is_ok (validate_workspace_path "/var/run/docker.sock") = false
  ∧ is_ok (validate_workspace_path "/var/run/./docker.sock") = true
  ∧ is_ok (validate_workspace_path "//root/.ssh") = true
  ∧ components "/var/run/./docker.sock" = components "/var/run/docker.sock".
Proof. vm_compute. split_and!; reflexivity. Qed.
