(* ===== verification/Workcells.v ===== *)
(** Workcells: the control plane of agent work cells (jeryu-runnerd, [workcell.rs] and
    [workcell/]): the ready queue, epoch-fenced claims, the startup rebase, held and
    repaired failures, branch budgets, and the validation of archives.

    A call that would panic returns [None]; the theorems show that it does not happen. *)

From Stdlib Require Import Ascii DecimalString DecimalN.
From S2P Require Import Prelude Text Paths.

(** * Errors (workcell/error.rs) *)

Record WorkcellError : Type := {
  purpose : string; reason : string; common_fixes : list string; docs_url : string;
  repair_hint : string; err_message : string
}.

Abbreviation WorkcellResult A := (result A WorkcellError).

Definition REPAIR_HINT : string := "rerun cargo test -p jeryu-runnerd workcell --jobs 40".
Definition TESTING_DOCS : string := "docs/testing.md#workcells".
Definition BOUNDARIES_DOCS : string := "docs/boundaries.md#workcells".

Definition claim_denied (m : string) : WorkcellError :=
  {| purpose := "claim a ready workcell"; reason := "workcell_claim_denied";
     common_fixes :=
       ["fetch remote main and rebase before handing the cell to the agent";
        "keep the claim epoch attached to every heartbeat, release, and repair call"];
     docs_url := TESTING_DOCS; repair_hint := REPAIR_HINT; err_message := m |}.

Definition startup_rebase_failed (m : string) : WorkcellError :=
  {| purpose := "fetch main and rebase the workcell"; reason := "workcell_startup_rebase_failed";
     common_fixes :=
       ["refresh the failed snapshot from the frozen evidence copy";
        "rerun the startup rebase instead of bypassing the failure"];
     docs_url := TESTING_DOCS; repair_hint := REPAIR_HINT; err_message := m |}.

Definition branch_budget_denied (m : string) : WorkcellError :=
  {| purpose := "enforce the agent branch budget"; reason := "workcell_branch_budget_denied";
     common_fixes :=
       ["keep branches namespaced to the agent and workcell";
        "raise the budget only through the explicit five-branch override"];
     docs_url := BOUNDARIES_DOCS; repair_hint := REPAIR_HINT; err_message := m |}.

Definition tar_path_denied (m : string) : WorkcellError :=
  {| purpose := "validate quarantine-first tar paths"; reason := "workcell_tar_path_denied";
     common_fixes :=
       ["extract only into approved repo roots";
        "reject absolute paths, parent traversal, and special files before unpacking"];
     docs_url := TESTING_DOCS; repair_hint := REPAIR_HINT; err_message := m |}.

Definition epoch_fenced (m : string) : WorkcellError :=
  {| purpose := "fence outdated workcell epochs"; reason := "workcell_epoch_fenced";
     common_fixes :=
       ["refresh the workcell lease before retrying the mutation";
        "discard outdated heartbeats or releases that carry a prior epoch"];
     docs_url := BOUNDARIES_DOCS; repair_hint := REPAIR_HINT; err_message := m |}.

Definition MERGE_DELETE_FIXES : list string :=
  ["keep merge control in the existing review and queue path";
   "do not route delete requests through the workcell control plane"].

Definition merge_denied (m : string) : WorkcellError :=
  {| purpose := "keep merge control out of the workcell"; reason := "workcell_merge_denied";
     common_fixes := MERGE_DELETE_FIXES; docs_url := BOUNDARIES_DOCS;
     repair_hint := REPAIR_HINT; err_message := m |}.

Definition delete_denied (m : string) : WorkcellError :=
  {| purpose := "keep delete control out of the workcell"; reason := "workcell_delete_denied";
     common_fixes := MERGE_DELETE_FIXES; docs_url := BOUNDARIES_DOCS;
     repair_hint := REPAIR_HINT; err_message := m |}.

Definition repair_state_denied (m : string) : WorkcellError :=
  {| purpose := "hold a failed workcell before live repair";
     reason := "workcell_repair_state_denied";
     common_fixes :=
       ["hold the failed tree before live repair";
        "start live repair only after the workcell is in the held state"];
     docs_url := BOUNDARIES_DOCS; repair_hint := REPAIR_HINT; err_message := m |}.

Definition WorkcellError_to_string (e : WorkcellError) : string :=
  reason e +:+ ": " +:+ err_message e.

(** * Data (workcell.rs, workcell/model.rs) *)

Inductive ArchiveEntryKind : Type :=
  | File | Directory | Symlink | Hardlink | CharacterDevice | BlockDevice | Fifo | Socket.

Definition ArchiveEntryKind_as_str (k : ArchiveEntryKind) : string :=
  match k with
  | File => "file" | Directory => "directory" | Symlink => "symlink"
  | Hardlink => "hardlink" | CharacterDevice => "character-device"
  | BlockDevice => "block-device" | Fifo => "fifo" | Socket => "socket"
  end.

Record ArchiveEntry : Type := {
  entry_path : string; entry_kind : ArchiveEntryKind; link_target : option string
}.

Definition ArchiveEntry_new (p : string) (k : ArchiveEntryKind) : ArchiveEntry :=
  {| entry_path := p; entry_kind := k; link_target := None |}.

Inductive StartupSync : Type :=
  | Rebased (main_ref base_sha head_sha : string)
  | Rebase_failed (main_ref base_sha head_sha why : string).

Definition is_rebased (s : StartupSync) : bool :=
  match s with Rebased _ _ _ => true | Rebase_failed _ _ _ _ => false end.

Record BranchPolicy : Type := {
  policy_agent : string; policy_workcell : string; max_branches : N;
  open_branches : gset string; merge_allowed : bool; delete_allowed : bool
}.

Definition WORKCELL_MAX_BRANCH_BUDGET : N := 5.

Definition BranchPolicy_new (agent workcell : string) (budget : N) : BranchPolicy :=
  {| policy_agent := agent; policy_workcell := workcell;
     max_branches := N.min (N.max budget 1) WORKCELL_MAX_BRANCH_BUDGET;
     open_branches := ∅; merge_allowed := false; delete_allowed := false |}.

Definition namespaced_branch (p : BranchPolicy) (branch : string) : string :=
  "agents/" +:+ policy_agent p +:+ "/workcells/" +:+ policy_workcell p +:+ "/" +:+ branch.

(** [len() as u32]. *)
Definition as_u32 (n : N) : N := (n mod 4294967296)%N.

Definition open_branch (p : BranchPolicy) (branch : string) :
    WorkcellResult string * BranchPolicy :=
  if (max_branches p <=? as_u32 (N.of_nat (size (open_branches p))))%N then
    (Err (branch_budget_denied
            ("agent " +:+ policy_agent p +:+ " hit workcell " +:+ policy_workcell p
               +:+ " branch budget " +:+ show_N (max_branches p))), p)
  else
    let namespaced := namespaced_branch p branch in
    (Ok namespaced,
     {| policy_agent := policy_agent p; policy_workcell := policy_workcell p;
        max_branches := max_branches p; open_branches := {[namespaced]} ∪ open_branches p;
        merge_allowed := merge_allowed p; delete_allowed := delete_allowed p |}).

Definition allow_merge (p : BranchPolicy) : WorkcellResult () :=
  if merge_allowed p then Ok tt
  else Err (merge_denied ("merge control stays in review/queue for agent " +:+ policy_agent p
                            +:+ " workcell " +:+ policy_workcell p)).

Definition allow_delete (p : BranchPolicy) : WorkcellResult () :=
  if delete_allowed p then Ok tt
  else Err (delete_denied ("delete control stays out of agent " +:+ policy_agent p
                             +:+ " workcell " +:+ policy_workcell p)).

Record FrozenCiSnapshot : Type := {
  snap_ci_run : string; snap_failed_run : string; snap_failed_receipt : string;
  snap_workcell : string; snap_runner : string; snap_epoch : N; snap_root : string;
  snap_repo_roots : list string; snap_allowed : list string; snap_summary : string;
  snap_policy : BranchPolicy; snap_main_ref : string; snap_base_sha : string;
  snap_head_sha : string; snap_log_digest : string; snap_age_ms : N; snap_healthy : bool
}.

Inductive WorkcellState : Type :=
  | Warming | Ready | Claimed | Held | Repairing | Blocked | Released.

#[export] Instance WorkcellState_eq_dec : EqDecision WorkcellState.
Proof. solve_decision. Defined.

Record WorkcellClaimRequest : Type := {
  req_agent : string; req_root : string; req_repo_roots : list string; branch_budget : N;
  req_runner : string; req_epoch : N; req_summary : string; req_age_ms : option N;
  startup : StartupSync
}.

Record FreezeFailedCiRunRequest : Type := {
  freeze_ci_run : string; freeze_failed_run : string; freeze_failed_receipt : string;
  freeze_log_digest : string; freeze_age_ms : N
}.

Record HoldFailedTreeRequest : Type := {
  hold_claim : WorkcellClaimRequest; hold_ci_run : string; hold_failed_run : string;
  hold_failed_receipt : string; hold_log_digest : string
}.

Record WorkcellLease : Type := {
  workcell_id : string; state : WorkcellState; agent_id : string; workspace_root : string;
  repo_roots : list string; startup_head_sha : option string; branch_policy : BranchPolicy;
  git_status_summary : string; ci_snapshot_age_ms : option N; runner_id : string;
  runner_epoch : N; heartbeat_healthy : bool; startup_rebased : bool;
  startup_main_ref : option string; startup_base_sha : option string;
  failed_run_id : option string; failed_receipt_id : option string;
  allowed_paths : list string; failure_log_digest : option string;
  frozen_snapshot : option FrozenCiSnapshot; blocked_reason : option string
}.

Definition default_str (d : string) (o : option string) : string :=
  match o with Some s => s | None => d end.

Definition lease_paths (l : WorkcellLease) : list string :=
  path_set (repo_roots l ++ [workspace_root l]).

Definition from_workcell (ci_run failed_run failed_receipt : string) (l : WorkcellLease)
    (digest : string) (age : N) : FrozenCiSnapshot :=
  {| snap_ci_run := ci_run; snap_failed_run := failed_run;
     snap_failed_receipt := failed_receipt; snap_workcell := workcell_id l;
     snap_runner := runner_id l; snap_epoch := runner_epoch l; snap_root := workspace_root l;
     snap_repo_roots := repo_roots l; snap_allowed := lease_paths l;
     snap_summary := git_status_summary l; snap_policy := branch_policy l;
     snap_main_ref := default_str "main" (startup_main_ref l);
     snap_base_sha := default_str "unknown" (startup_base_sha l);
     snap_head_sha := default_str "unknown" (startup_head_sha l); snap_log_digest := digest;
     snap_age_ms := age; snap_healthy := heartbeat_healthy l |}.

Definition WorkcellLease_ready (id : string) : WorkcellLease :=
  {| workcell_id := id; state := Ready; agent_id := ""; workspace_root := ""; repo_roots := [];
     startup_head_sha := None; branch_policy := BranchPolicy_new "" id 1;
     git_status_summary := ""; ci_snapshot_age_ms := None; runner_id := ""; runner_epoch := 0;
     heartbeat_healthy := false; startup_rebased := false; startup_main_ref := None;
     startup_base_sha := None; failed_run_id := None; failed_receipt_id := None;
     allowed_paths := []; failure_log_digest := None; frozen_snapshot := None;
     blocked_reason := None |}.

Definition apply_claim (l : WorkcellLease) (r : WorkcellClaimRequest) : WorkcellLease :=
  {| workcell_id := workcell_id l; state := Claimed; agent_id := req_agent r;
     workspace_root := req_root r; repo_roots := req_repo_roots r; startup_head_sha := None;
     branch_policy := BranchPolicy_new (req_agent r) (workcell_id l) (branch_budget r);
     git_status_summary := req_summary r; ci_snapshot_age_ms := req_age_ms r;
     runner_id := req_runner r; runner_epoch := req_epoch r; heartbeat_healthy := true;
     startup_rebased := false; startup_main_ref := None; startup_base_sha := None;
     failed_run_id := None; failed_receipt_id := None; allowed_paths := [];
     failure_log_digest := None; frozen_snapshot := None; blocked_reason := None |}.

(** Field updates. *)
Definition set_life (l : WorkcellLease) (s : WorkcellState) (h : bool) (b : option string) :
    WorkcellLease :=
  {| workcell_id := workcell_id l; state := s; agent_id := agent_id l;
     workspace_root := workspace_root l; repo_roots := repo_roots l;
     startup_head_sha := startup_head_sha l; branch_policy := branch_policy l;
     git_status_summary := git_status_summary l; ci_snapshot_age_ms := ci_snapshot_age_ms l;
     runner_id := runner_id l; runner_epoch := runner_epoch l; heartbeat_healthy := h;
     startup_rebased := startup_rebased l; startup_main_ref := startup_main_ref l;
     startup_base_sha := startup_base_sha l; failed_run_id := failed_run_id l;
     failed_receipt_id := failed_receipt_id l; allowed_paths := allowed_paths l;
     failure_log_digest := failure_log_digest l; frozen_snapshot := frozen_snapshot l;
     blocked_reason := b |}.

Definition set_startup (l : WorkcellLease) (rebased : bool) (m b h : string) : WorkcellLease :=
  {| workcell_id := workcell_id l; state := state l; agent_id := agent_id l;
     workspace_root := workspace_root l; repo_roots := repo_roots l;
     startup_head_sha := Some h; branch_policy := branch_policy l;
     git_status_summary := git_status_summary l; ci_snapshot_age_ms := ci_snapshot_age_ms l;
     runner_id := runner_id l; runner_epoch := runner_epoch l;
     heartbeat_healthy := heartbeat_healthy l; startup_rebased := rebased;
     startup_main_ref := Some m; startup_base_sha := Some b;
     failed_run_id := failed_run_id l; failed_receipt_id := failed_receipt_id l;
     allowed_paths := allowed_paths l; failure_log_digest := failure_log_digest l;
     frozen_snapshot := frozen_snapshot l; blocked_reason := blocked_reason l |}.

Definition set_policy (l : WorkcellLease) (p : BranchPolicy) (summary : string)
    (age : option N) : WorkcellLease :=
  {| workcell_id := workcell_id l; state := state l; agent_id := agent_id l;
     workspace_root := workspace_root l; repo_roots := repo_roots l;
     startup_head_sha := startup_head_sha l; branch_policy := p;
     git_status_summary := summary; ci_snapshot_age_ms := age; runner_id := runner_id l;
     runner_epoch := runner_epoch l; heartbeat_healthy := heartbeat_healthy l;
     startup_rebased := startup_rebased l; startup_main_ref := startup_main_ref l;
     startup_base_sha := startup_base_sha l; failed_run_id := failed_run_id l;
     failed_receipt_id := failed_receipt_id l; allowed_paths := allowed_paths l;
     failure_log_digest := failure_log_digest l; frozen_snapshot := frozen_snapshot l;
     blocked_reason := blocked_reason l |}.

Definition set_failure (l : WorkcellLease) (run receipt digest : string) (paths : list string)
    (snapshot : option FrozenCiSnapshot) : WorkcellLease :=
  {| workcell_id := workcell_id l; state := state l; agent_id := agent_id l;
     workspace_root := workspace_root l; repo_roots := repo_roots l;
     startup_head_sha := startup_head_sha l; branch_policy := branch_policy l;
     git_status_summary := git_status_summary l; ci_snapshot_age_ms := ci_snapshot_age_ms l;
     runner_id := runner_id l; runner_epoch := runner_epoch l;
     heartbeat_healthy := heartbeat_healthy l; startup_rebased := startup_rebased l;
     startup_main_ref := startup_main_ref l; startup_base_sha := startup_base_sha l;
     failed_run_id := Some run; failed_receipt_id := Some receipt; allowed_paths := paths;
     failure_log_digest := Some digest; frozen_snapshot := snapshot;
     blocked_reason := blocked_reason l |}.

Definition mark_blocked (l : WorkcellLease) (why : string) : WorkcellLease :=
  set_life l Blocked false (Some why).

Definition apply_startup (l : WorkcellLease) (s : StartupSync) : WorkcellLease :=
  match s with
  | Rebased m b h => set_startup l true m b h
  | Rebase_failed m b h why =>
      mark_blocked (set_startup l (startup_rebased l) m b h) ("startup rebase failed: " +:+ why)
  end.

(** * The manager (workcell/manager.rs) *)

Record WorkcellManager : Type := {
  next_id : N; ready_queue : list string; cells : gmap string WorkcellLease
}.

Definition WorkcellManager_new : WorkcellManager :=
  {| next_id := 0; ready_queue := []; cells := ∅ |}.

Definition put_cell (m : WorkcellManager) (id : string) (l : WorkcellLease) : WorkcellManager :=
  {| next_id := next_id m; ready_queue := ready_queue m; cells := <[id := l]> (cells m) |}.

Definition set_queue (m : WorkcellManager) (q : list string) : WorkcellManager :=
  {| next_id := next_id m; ready_queue := q; cells := cells m |}.

(** [format!("wc-{:04}", n)]. *)
Definition cell_id (n : N) : string := "wc-" +:+ pad_left 4 (show_N n).

Definition spawn_ready_cell (m : WorkcellManager) : string * WorkcellManager :=
  let n := saturating_add u64_max (next_id m) 1 in
  let id := cell_id n in
  (id, {| next_id := n; ready_queue := ready_queue m ++ [id];
          cells := <[id := WorkcellLease_ready id]> (cells m) |}).

Fixpoint with_warm_pool (warm : nat) : WorkcellManager :=
  match warm with
  | 0 => WorkcellManager_new
  | S warm => (spawn_ready_cell (with_warm_pool warm)).2
  end.

Definition ready_count (m : WorkcellManager) : nat := length (ready_queue m).

Definition workcell (m : WorkcellManager) (id : string) : option WorkcellLease := cells m !! id.

Definition workcells (m : WorkcellManager) : list WorkcellLease :=
  isort (λ a b, String.leb (workcell_id a) (workcell_id b)) (bt_values (cells m)).

Definition claimed_lease (l : WorkcellLease) (r : WorkcellClaimRequest) : WorkcellLease :=
  apply_startup (apply_claim l r) (startup r).

Definition startup_outcome (id : string) (s : StartupSync) : WorkcellResult () :=
  match s with
  | Rebased _ _ _ => Ok tt
  | Rebase_failed main_ref _ _ why =>
      Err (startup_rebase_failed
             ("workcell " +:+ id +:+ " could not rebase onto " +:+ main_ref +:+ ": " +:+ why))
  end.

(** [None] when a queued id has no lease: the [expect] of the code. *)
Definition claim (m : WorkcellManager) (r : WorkcellClaimRequest) :
    option (WorkcellResult WorkcellLease * WorkcellManager) :=
  let '(id, m) := match ready_queue m with
                  | id :: q => (id, set_queue m q)
                  | [] => spawn_ready_cell m
                  end in
  match cells m !! id with
  | None => None
  | Some l =>
      let l := claimed_lease l r in
      let m := (spawn_ready_cell (put_cell m id l)).2 in
      match cells m !! id with
      | None => None
      | Some l =>
          Some (match startup_outcome (workcell_id l) (startup r) with
                | Ok _ => Ok l
                | Err e => Err e
                end, m)
      end
  end.

Definition warm_one (m : WorkcellManager) : string * WorkcellManager := spawn_ready_cell m.

(** The first occurrence goes. *)
Fixpoint remove_first (id : string) (q : list string) : list string :=
  match q with
  | [] => []
  | x :: q => if bool_decide (x = id) then q else x :: remove_first id q
  end.

Definition claim_ready (m : WorkcellManager) (id : string) (r : WorkcellClaimRequest) :
    WorkcellResult WorkcellLease * WorkcellManager :=
  let m := set_queue m (remove_first id (ready_queue m)) in
  match cells m !! id with
  | None => (Err (claim_denied ("unknown warm cell " +:+ id)), m)
  | Some l =>
      let l := claimed_lease l r in
      (match startup_outcome id (startup r) with Ok _ => Ok l | Err e => Err e end,
       put_cell m id l)
  end.

Definition repair_request (s : FrozenCiSnapshot) (st : StartupSync) : WorkcellClaimRequest :=
  {| req_agent := policy_agent (snap_policy s); req_root := snap_root s;
     req_repo_roots := snap_repo_roots s; branch_budget := max_branches (snap_policy s);
     req_runner := snap_runner s; req_epoch := saturating_add u64_max (snap_epoch s) 1;
     req_summary := snap_summary s; req_age_ms := Some (snap_age_ms s); startup := st |}.

Definition repaired_lease (l : WorkcellLease) (s : FrozenCiSnapshot) : WorkcellLease :=
  set_failure
    (set_policy (set_life l Held (snap_healthy s) (blocked_reason l)) (snap_policy s)
       (snap_summary s) (Some (snap_age_ms s)))
    (snap_failed_run s) (snap_failed_receipt s) (snap_log_digest s) (snap_allowed s) (Some s).

Definition repair_from_snapshot (m : WorkcellManager) (s : FrozenCiSnapshot) (st : StartupSync) :
    option (WorkcellResult WorkcellLease * WorkcellManager) :=
  match claim m (repair_request s st) with
  | None => None
  | Some (Err e, m) => Some (Err e, m)
  | Some (Ok lease, m) =>
      match cells m !! workcell_id lease with
      | None => None
      | Some cell =>
          let cell := repaired_lease cell s in
          Some (Ok cell, put_cell m (workcell_id lease) cell)
      end
  end.

Definition held_lease (l : WorkcellLease) (r : HoldFailedTreeRequest) : WorkcellLease :=
  let l := set_failure (set_life l Held (heartbeat_healthy l) (blocked_reason l))
             (hold_failed_run r) (hold_failed_receipt r) (hold_log_digest r) (lease_paths l)
             (frozen_snapshot l) in
  set_failure l (hold_failed_run r) (hold_failed_receipt r) (hold_log_digest r)
    (allowed_paths l)
    (Some (from_workcell (hold_ci_run r) (hold_failed_run r) (hold_failed_receipt r) l
             (hold_log_digest r)
             (match ci_snapshot_age_ms l with Some a => a | None => 0%N end))).

Definition hold_failed_tree (m : WorkcellManager) (r : HoldFailedTreeRequest) :
    option (WorkcellResult WorkcellLease * WorkcellManager) :=
  match claim m (hold_claim r) with
  | None => None
  | Some (Err e, m) => Some (Err e, m)
  | Some (Ok lease, m) =>
      match cells m !! workcell_id lease with
      | None => None
      | Some cell =>
          let cell := held_lease cell r in
          Some (Ok cell, put_cell m (workcell_id lease) cell)
      end
  end.

Definition require_epoch (l : WorkcellLease) (epoch : N) : WorkcellResult () :=
  if (runner_epoch l =? epoch)%N then Ok tt
  else Err (epoch_fenced ("workcell " +:+ workcell_id l +:+ " fenced: epoch " +:+ show_N epoch
                            +:+ " != active " +:+ show_N (runner_epoch l))).

(** The prologue of every fenced call: the cell, if it is known and of this epoch. *)
Definition fenced_cell (m : WorkcellManager) (id : string) (epoch : N) :
    WorkcellResult WorkcellLease :=
  match cells m !! id with
  | None => Err (epoch_fenced ("unknown workcell " +:+ id))
  | Some l => match require_epoch l epoch with Ok _ => Ok l | Err e => Err e end
  end.

Definition begin_live_repair (m : WorkcellManager) (id : string) (epoch : N) :
    WorkcellResult WorkcellLease * WorkcellManager :=
  match fenced_cell m id epoch with
  | Err e => (Err e, m)
  | Ok l =>
      if negb (bool_decide (state l = Held)) then
        (Err (repair_state_denied
                ("workcell " +:+ id +:+ " must be held before repair can start")), m)
      else
        let l := set_life l Repairing (heartbeat_healthy l) (blocked_reason l) in
        (Ok l, put_cell m id l)
  end.

Definition export_repair_branch (m : WorkcellManager) (id : string) (epoch : N)
    (suffix : string) : WorkcellResult string * WorkcellManager :=
  match fenced_cell m id epoch with
  | Err e => (Err e, m)
  | Ok l =>
      if negb (bool_decide (state l ∈ [Held; Repairing])) then
        (Err (repair_state_denied
                ("workcell " +:+ id +:+ " must be held or repairing before export")), m)
      else
        let '(r, p) := open_branch (branch_policy l) suffix in
        (r, put_cell m id (set_policy l p (git_status_summary l) (ci_snapshot_age_ms l)))
  end.

Definition heartbeat (m : WorkcellManager) (id : string) (epoch : N) (healthy : bool) :
    WorkcellResult () * WorkcellManager :=
  match fenced_cell m id epoch with
  | Err e => (Err e, m)
  | Ok l =>
      if negb (bool_decide (state l ∈ [Claimed; Held; Repairing])) then
        (Err (claim_denied ("workcell " +:+ id +:+ " is not active")), m)
      else (Ok tt, put_cell m id (set_life l (state l) healthy (blocked_reason l)))
  end.

Definition release (m : WorkcellManager) (id : string) (epoch : N) :
    WorkcellResult () * WorkcellManager :=
  match fenced_cell m id epoch with
  | Err e => (Err e, m)
  | Ok l => (Ok tt, put_cell m id (set_life l Released false (blocked_reason l)))
  end.

Definition block (m : WorkcellManager) (id : string) (epoch : N) (why : string) :
    WorkcellResult () * WorkcellManager :=
  match fenced_cell m id epoch with
  | Err e => (Err e, m)
  | Ok l => (Ok tt, put_cell m id (mark_blocked l why))
  end.

Definition freeze_failed_ci_run (m : WorkcellManager) (id : string) (epoch : N)
    (r : FreezeFailedCiRunRequest) : WorkcellResult FrozenCiSnapshot :=
  match fenced_cell m id epoch with
  | Err e => Err e
  | Ok l => Ok (from_workcell (freeze_ci_run r) (freeze_failed_run r) (freeze_failed_receipt r) l
                  (freeze_log_digest r) (freeze_age_ms r))
  end.

(** * Archives (workcell/archive.rs, workcell.rs) *)

Definition is_within_any_root (path : string) (roots : list string) : bool :=
  existsb (λ root, path_starts_with path root) roots.

Definition is_normal (c : Component) : bool := match c with Normal _ => true | _ => false end.

Definition forbidden_component (path : string) : WorkcellError :=
  tar_path_denied ("path " +:+ path +:+ " contains a forbidden component").

Definition validate_repository_path (path : string) : WorkcellResult () :=
  if is_absolute path then
    Err (tar_path_denied ("absolute path " +:+ path +:+ " is not allowed"))
  else if forallb is_normal (components path) then Ok tt else Err (forbidden_component path).

Definition validate_archive_entry (e : ArchiveEntry) (destination_root : string)
    (roots : list string) : WorkcellResult () :=
  match validate_repository_path (entry_path e) with
  | Err err => Err err
  | Ok _ =>
      match entry_kind e with
      | File | Directory =>
          if is_within_any_root (path_join destination_root (entry_path e)) roots then Ok tt
          else Err (tar_path_denied ("archive entry " +:+ entry_path e
                                       +:+ " extracts outside the approved repo roots"))
      | k => Err (tar_path_denied ("archive entry " +:+ entry_path e +:+ " is a "
                                     +:+ ArchiveEntryKind_as_str k +:+ " and cannot be unpacked"))
      end
  end.

Fixpoint validate_entries (entries : list ArchiveEntry) (destination_root : string)
    (roots : list string) : WorkcellResult () :=
  match entries with
  | [] => Ok tt
  | e :: entries =>
      match validate_archive_entry e destination_root roots with
      | Err err => Err err
      | Ok _ => validate_entries entries destination_root roots
      end
  end.

Definition validate_import_archive (entries : list ArchiveEntry) (destination_root : string)
    (roots : list string) : WorkcellResult () :=
  if negb (is_within_any_root destination_root roots) then
    Err (tar_path_denied ("destination root " +:+ destination_root
                            +:+ " is outside the approved repo roots"))
  else validate_entries entries destination_root roots.

Definition validate_export_path (path : string) : WorkcellResult () :=
  if forallb (λ c, is_normal c || bool_decide (c = RootDir)) (components path)
  then Ok tt else Err (forbidden_component path).

Fixpoint validate_export_paths (paths roots : list string) : WorkcellResult () :=
  match paths with
  | [] => Ok tt
  | path :: paths =>
      match validate_export_path path with
      | Err e => Err e
      | Ok _ =>
          if negb (is_within_any_root path roots) then
            Err (tar_path_denied ("export path " +:+ path
                                    +:+ " is outside the approved repo roots"))
          else validate_export_paths paths roots
      end
  end.

(** * Specification *)

Definition in_use (s : WorkcellState) : Prop := s ∈ [Claimed; Held; Repairing].

#[export] Instance in_use_dec s : Decision (in_use s).
Proof. unfold in_use. apply _. Defined.

(** The budget: one to five branches, all in the namespace of the agent and its cell,
    without the right to merge or to delete. *)
Record policy_ok (p : BranchPolicy) : Prop := {
  po_budget : (1 ≤ max_branches p ≤ WORKCELL_MAX_BRANCH_BUDGET)%N;
  po_within : (N.of_nat (size (open_branches p)) ≤ max_branches p)%N;
  po_names : ∀ b, b ∈ open_branches p → ∃ s, b = namespaced_branch p s;
  po_rights : merge_allowed p = false ∧ delete_allowed p = false
}.

(** A cell in use was rebased on main; one under repair has its evidence. *)
Record lease_ok (id : string) (l : WorkcellLease) : Prop := {
  lo_id : workcell_id l = id;
  lo_policy : policy_ok (branch_policy l);
  lo_rebased : in_use (state l) → startup_rebased l = true;
  lo_evidence : state l ∈ [Held; Repairing] →
    is_Some (failed_run_id l) ∧ is_Some (failed_receipt_id l) ∧ is_Some (frozen_snapshot l)
}.

Record manager_ok (m : WorkcellManager) : Prop := {
  mo_leases : ∀ id l, cells m !! id = Some l → lease_ok id l;
  mo_fresh : ∀ n, (next_id m < n)%N → cells m !! cell_id n = None;
  mo_queue : ∀ id, id ∈ ready_queue m → ∃ l, cells m !! id = Some l ∧ ¬ in_use (state l);
  mo_distinct : NoDup (ready_queue m)
}.

(** The calls of a manager that is kept warm: a claim finds a ready cell. *)
Inductive manager_step (m : WorkcellManager) : WorkcellManager → Prop :=
  | Step_warm : (next_id m < u64_max)%N → manager_step m (warm_one m).2
  | Step_claim r res m' :
      ready_queue m ≠ [] → (next_id m < u64_max)%N → claim m r = Some (res, m') →
      manager_step m m'
  | Step_claim_ready id r : manager_step m (claim_ready m id r).2
  | Step_repair s st res m' :
      ready_queue m ≠ [] → (next_id m < u64_max)%N → policy_ok (snap_policy s) →
      repair_from_snapshot m s st = Some (res, m') → manager_step m m'
  | Step_hold r res m' :
      ready_queue m ≠ [] → (next_id m < u64_max)%N → hold_failed_tree m r = Some (res, m') →
      manager_step m m'
  | Step_begin id e : manager_step m (begin_live_repair m id e).2
  | Step_export id e s : manager_step m (export_repair_branch m id e s).2
  | Step_heartbeat id e h : manager_step m (heartbeat m id e h).2
  | Step_release id e : manager_step m (release m id e).2
  | Step_block id e s : manager_step m (block m id e s).2.

(** * Names *)

Lemma zeros_value k s :
  N.of_uint <$> NilEmpty.uint_of_string (string_repeat "0"%char k +:+ s)
  = N.of_uint <$> NilEmpty.uint_of_string s.
Proof.
  induction k as [|k IH]; cbn [string_repeat]; [by rewrite append_nil_l|].
  rewrite append_cons. cbn [NilEmpty.uint_of_string uint_of_char].
  destruct (NilEmpty.uint_of_string (string_repeat "0" k +:+ s)) as [d|] eqn:Hd;
    rewrite <-IH; done.
Qed.

Lemma show_N_value n : N.of_uint <$> NilEmpty.uint_of_string (show_N n) = Some n.
Proof.
  unfold show_N. pose proof (N_to_uint_nonnil n) as Hn.
  assert (NilZero.string_of_uint (N.to_uint n) = NilEmpty.string_of_uint (N.to_uint n)) as ->
    by (by destruct (N.to_uint n)).
  rewrite NilEmpty.usu. cbn. by rewrite DecimalN.Unsigned.of_to.
Qed.

Lemma cell_id_inj n k : cell_id n = cell_id k → n = k.
Proof.
  unfold cell_id, pad_left. intros H%append_inj_l.
  apply (f_equal (λ s, N.of_uint <$> NilEmpty.uint_of_string s)) in H. cbn beta in H.
  rewrite !zeros_value, !show_N_value in H. by injection H.
Qed.

(** * Branches *)

Lemma policy_new_ok agent cell budget : policy_ok (BranchPolicy_new agent cell budget).
Proof.
  unfold BranchPolicy_new, WORKCELL_MAX_BRANCH_BUDGET.
  split; cbn [max_branches open_branches merge_allowed delete_allowed]; [|..|done].
  - unfold WORKCELL_MAX_BRANCH_BUDGET. lia.
  - rewrite size_empty. lia.
  - intros b Hb. set_solver.
Qed.

Lemma as_u32_small n : (n ≤ WORKCELL_MAX_BRANCH_BUDGET)%N → as_u32 n = n.
Proof. unfold as_u32, WORKCELL_MAX_BRANCH_BUDGET. intros H. apply N.mod_small. lia. Qed.

Lemma open_branch_ok p s : policy_ok p → policy_ok (open_branch p s).2.
Proof.
  intros [Hb Hw Hn Hr]. unfold open_branch. rewrite as_u32_small by lia.
  destruct (N.leb_spec (max_branches p) (N.of_nat (size (open_branches p)))); [by split|].
  split; cbn; [done| | |done].
  - pose proof (size_union_alt ({[namespaced_branch p s]} : gset string) (open_branches p)) as Hs.
    rewrite size_singleton in Hs.
    assert (size (open_branches p ∖ {[namespaced_branch p s]}) ≤ size (open_branches p))
      by (apply subseteq_size; set_solver). lia.
  - intros b [->%elem_of_singleton|Hin]%elem_of_union; [by eexists|].
    destruct (Hn b Hin) as [t ->]. by exists t.
Qed.

(** * Leases *)

Lemma ready_ok id : lease_ok id (WorkcellLease_ready id).
Proof.
  split; cbn; [done|apply policy_new_ok| |].
  - unfold in_use. cbn. set_solver.
  - set_solver.
Qed.

Lemma claimed_ok id l r :
  workcell_id l = id →
  lease_ok id (claimed_lease l r)
  ∧ state (claimed_lease l r) = (if is_rebased (startup r) then Claimed else Blocked).
Proof.
  intros Hid. unfold claimed_lease. destruct (startup r); cbn.
  - split; [|done]. split; cbn; [done|apply policy_new_ok|done|set_solver].
  - split; [|done]. split; cbn; [done|apply policy_new_ok|unfold in_use; set_solver|set_solver].
Qed.

Lemma set_life_ok id l s h b :
  lease_ok id l → (in_use s → in_use (state l)) →
  (s ∈ [Held; Repairing] → state l ∈ [Held; Repairing]) → lease_ok id (set_life l s h b).
Proof. intros [] Hu Hh. split; cbn; auto. Qed.

Lemma held_ok id l r :
  lease_ok id l → in_use (state l) → lease_ok id (held_lease l r).
Proof. intros [] Hu. split; cbn; eauto. Qed.

Lemma repaired_ok id l s :
  lease_ok id l → in_use (state l) → policy_ok (snap_policy s) → lease_ok id (repaired_lease l s).
Proof. intros [] Hu Hp. split; cbn; eauto. Qed.

(** * The invariant *)

Lemma put_cell_ok m id l :
  manager_ok m → is_Some (cells m !! id) → lease_ok id l →
  (id ∈ ready_queue m → ¬ in_use (state l)) → manager_ok (put_cell m id l).
Proof.
  intros [Hl Hf Hq Hd] Hid Hok Hidle. split; cbn; [| | |done].
  - intros id' l' [[<- <-]|[_ Hl']]%lookup_insert_Some; [done|by apply Hl].
  - intros n Hn. rewrite lookup_insert_ne; [by apply Hf|]. intros ->.
    rewrite Hf in Hid by done. by destruct Hid.
  - intros id' Hin. destruct (decide (id' = id)) as [->|Hne].
    + exists l. rewrite lookup_insert_eq. split; [done|]. by apply Hidle.
    + rewrite lookup_insert_ne by done. by apply Hq.
Qed.

Lemma spawn_fresh m :
  manager_ok m → (next_id m < u64_max)%N → cells m !! (spawn_ready_cell m).1 = None.
Proof.
  intros Hm Hn. unfold spawn_ready_cell. cbn. apply (mo_fresh m Hm).
  unfold saturating_add. lia.
Qed.

Lemma spawn_ok m :
  manager_ok m → (next_id m < u64_max)%N → manager_ok (spawn_ready_cell m).2.
Proof.
  intros Hm Hn. pose proof (spawn_fresh m Hm Hn) as Hnew. destruct Hm as [Hl Hf Hq Hd].
  unfold spawn_ready_cell in *. cbn in *.
  assert (saturating_add u64_max (next_id m) 1 = next_id m + 1)%N as Hs by sat_lia.
  rewrite Hs in *. split; cbn.
  - intros id l [[<- <-]|[_ ?]]%lookup_insert_Some; [apply ready_ok|by apply Hl].
  - intros n Hlt. rewrite lookup_insert_ne; [apply Hf; lia|]. intros <-%cell_id_inj. lia.
  - intros id [Hin| ->%list_elem_of_singleton]%elem_of_app.
    + rewrite lookup_insert_ne; [by apply Hq|]. intros <-.
      destruct (Hq _ Hin) as (l & ? & _). congruence.
    + rewrite lookup_insert_eq. eexists. split; [done|]. cbn. unfold in_use. set_solver.
  - apply NoDup_app. split_and!; [done| |apply NoDup_singleton].
    intros id Hin ->%list_elem_of_singleton. destruct (Hq _ Hin) as (l & ? & _). congruence.
Qed.

Lemma set_queue_ok m q :
  manager_ok m → sublist q (ready_queue m) → manager_ok (set_queue m q).
Proof.
  intros [Hl Hf Hq Hd] Hs. split; cbn; [done|done| |].
  - intros id Hin. apply Hq. by eapply elem_of_submseteq, sublist_submseteq.
  - by eapply sublist_NoDup.
Qed.

Lemma remove_first_sublist id q : sublist (remove_first id q) q.
Proof.
  induction q as [|x q IH]; cbn; [done|]. case_bool_decide; by constructor.
Qed.

Lemma remove_first_gone id q : NoDup q → id ∉ remove_first id q.
Proof.
  induction q as [|x q IH]; cbn; [by intros _ ?%elem_of_nil|].
  intros [Hx Hq]%NoDup_cons. case_bool_decide as He; [by subst|].
  rewrite not_elem_of_cons. split; [congruence|by apply IH].
Qed.

(** A claim of a warm manager: the front of the queue, and nothing else. *)
Lemma claim_warm m r res m' id q :
  manager_ok m → (next_id m < u64_max)%N → ready_queue m = id :: q →
  claim m r = Some (res, m') →
  ∃ l0, cells m !! id = Some l0 ∧ ¬ in_use (state l0)
    ∧ manager_ok m' ∧ cells m' !! id = Some (claimed_lease l0 r)
    ∧ res = match startup_outcome id (startup r) with
            | Ok _ => Ok (claimed_lease l0 r) | Err e => Err e end
    ∧ (∀ id' l, id' ≠ id → cells m !! id' = Some l → cells m' !! id' = Some l)
    ∧ ready_queue m' = q ++ [(spawn_ready_cell m).1].
Proof.
  intros Hm Hn Hq. unfold claim. rewrite Hq. cbn [cells set_queue].
  destruct (mo_queue m Hm id) as (l0 & Hl0 & Hidle); [rewrite Hq; constructor|]. rewrite Hl0.
  pose proof (lo_id _ _ (mo_leases m Hm _ _ Hl0)) as Hid.
  destruct (claimed_ok id l0 r Hid) as [Hok _].
  pose proof (mo_distinct m Hm) as Hnd. rewrite Hq in Hnd. apply NoDup_cons in Hnd as [Hnot _].
  assert (Hm1 : manager_ok (put_cell (set_queue m q) id (claimed_lease l0 r))).
  { apply put_cell_ok; [|by eexists|done|done].
    apply set_queue_ok; [done|]. rewrite Hq. by constructor. }
  pose proof (spawn_fresh _ Hm1 Hn) as Hnew. cbn in Hnew.
  pose proof (spawn_ok _ Hm1 Hn) as Hm2.
  assert (Hne : cell_id (saturating_add u64_max (next_id m) 1) ≠ id).
  { intros He. rewrite He, lookup_insert_eq in Hnew. done. }
  cbn [cells spawn_ready_cell snd put_cell set_queue next_id ready_queue].
  rewrite lookup_insert_ne by done. rewrite lookup_insert_eq.
  intros [= <- <-]. exists l0. split_and!; try done.
  - cbn. rewrite lookup_insert_ne by done. by rewrite lookup_insert_eq.
  - by rewrite (lo_id _ _ Hok).
  - intros id' l Hne' Hl. cbn. rewrite lookup_insert_ne.
    + by rewrite lookup_insert_ne.
    + intros <-. rewrite lookup_insert_ne, Hl in Hnew by done. done.
Qed.

Lemma fenced_cell_ok m id e l : fenced_cell m id e = Ok l → cells m !! id = Some l.
Proof.
  unfold fenced_cell. destruct (cells m !! id) as [c|]; [|done].
  destruct (require_epoch c e); [|done]. by intros [= ->].
Qed.

Lemma put_life_ok m id l s h b :
  manager_ok m → cells m !! id = Some l → (in_use s → in_use (state l)) →
  (s ∈ [Held; Repairing] → state l ∈ [Held; Repairing]) →
  manager_ok (put_cell m id (set_life l s h b)).
Proof.
  intros Hm Hl Hu Hh. apply put_cell_ok; [done|by eexists| |].
  - apply set_life_ok; [by apply (mo_leases m Hm)|done|done].
  - cbn. intros Hin Hs. destruct (mo_queue m Hm id Hin) as (l' & Hl' & Hidle).
    rewrite Hl in Hl'. injection Hl' as <-. auto.
Qed.

(** After a claim the cell is put back, held or repaired. *)
Lemma put_claimed_ok m r res m' (f : WorkcellLease → WorkcellLease) lease cell :
  manager_ok m → (next_id m < u64_max)%N → ready_queue m ≠ [] →
  claim m r = Some (res, m') → res = Ok lease → cells m' !! workcell_id lease = Some cell →
  (∀ id l, lease_ok id l → in_use (state l) → lease_ok id (f l)) →
  manager_ok (put_cell m' (workcell_id lease) (f cell)).
Proof.
  intros Hm Hn Hq Hc Hres Hcell Hf.
  destruct (ready_queue m) as [|id q] eqn:Hrq; [done|].
  destruct (claim_warm m r res m' id q Hm Hn Hrq Hc)
    as (l0 & Hl0 & Hidle & Hm' & Hid & Hres' & _ & Hq').
  rewrite Hres in Hres'. destruct (startup r) eqn:Hst; [|done]. injection Hres' as ->.
  pose proof (mo_leases m' Hm' _ _ Hid) as Hok. pose proof (lo_id _ _ Hok) as Hwid.
  rewrite Hwid in *. rewrite Hid in Hcell. injection Hcell as <-.
  assert (Hused : in_use (state (claimed_lease l0 r))).
  { unfold claimed_lease. rewrite Hst. cbn. unfold in_use. set_solver. }
  apply put_cell_ok; [done|by eexists|by apply Hf|].
  intros Hin. exfalso. destruct (mo_queue m' Hm' id Hin) as (l' & Hl' & Hno).
  rewrite Hid in Hl'. by injection Hl' as <-.
Qed.

Lemma manager_step_ok m m' : manager_step m m' → manager_ok m → manager_ok m'.
Proof.
  intros Hstep Hm. destruct Hstep as [Hn|r res m' Hq Hn Hc|id r|s st res m' Hq Hn Hp Hc
    |r res m' Hq Hn Hc|id e|id e s|id e h|id e|id e s].
  - by apply spawn_ok.
  - destruct (ready_queue m) as [|id q] eqn:Hrq; [done|].
    by destruct (claim_warm m r res m' id q Hm Hn Hrq Hc) as (_ & _ & _ & ? & _).
  - unfold claim_ready. cbn [cells set_queue].
    assert (Hm1 : manager_ok (set_queue m (remove_first id (ready_queue m))))
      by (apply set_queue_ok; [done|apply remove_first_sublist]).
    destruct (cells m !! id) as [l|] eqn:Hl; [|done].
    apply put_cell_ok; [done|by eexists| |].
    + apply claimed_ok. by apply (lo_id _ _ (mo_leases m Hm _ _ Hl)).
    + cbn. intros Hin. exfalso. by apply (remove_first_gone id _ (mo_distinct m Hm)).
  - unfold repair_from_snapshot in Hc.
    destruct (claim m (repair_request s st)) as [[[lease|e] m1]|] eqn:Hcl; [| |done].
    + destruct (cells m1 !! workcell_id lease) as [cell|] eqn:Hcell; [|done].
      injection Hc as _ <-.
      apply (put_claimed_ok m _ _ m1 (λ l, repaired_lease l s) lease cell Hm Hn Hq Hcl);
        [done|done|]. intros. by apply repaired_ok.
    + injection Hc as _ <-. destruct (ready_queue m) as [|id q] eqn:Hrq; [done|].
      by destruct (claim_warm m _ _ m1 id q Hm Hn Hrq Hcl) as (_ & _ & _ & ? & _).
  - unfold hold_failed_tree in Hc.
    destruct (claim m (hold_claim r)) as [[[lease|e] m1]|] eqn:Hcl; [| |done].
    + destruct (cells m1 !! workcell_id lease) as [cell|] eqn:Hcell; [|done].
      injection Hc as _ <-.
      apply (put_claimed_ok m _ _ m1 (λ l, held_lease l r) lease cell Hm Hn Hq Hcl);
        [done|done|]. intros. by apply held_ok.
    + injection Hc as _ <-. destruct (ready_queue m) as [|id q] eqn:Hrq; [done|].
      by destruct (claim_warm m _ _ m1 id q Hm Hn Hrq Hcl) as (_ & _ & _ & ? & _).
  - unfold begin_live_repair. destruct (fenced_cell m id e) as [l|] eqn:Hf; [|done].
    apply fenced_cell_ok in Hf. case_bool_decide as Hs; [|done]. cbn.
    apply put_life_ok; [done|done|rewrite Hs; unfold in_use; set_solver|rewrite Hs; set_solver].
  - unfold export_repair_branch. destruct (fenced_cell m id e) as [l|] eqn:Hf; [|done].
    apply fenced_cell_ok in Hf. case_bool_decide as Hs; [|done]. cbn.
    pose proof (mo_leases m Hm _ _ Hf) as Hok.
    pose proof (open_branch_ok _ s (lo_policy _ _ Hok)) as Hp.
    destruct (open_branch (branch_policy l) s) as [res p]. cbn in Hp |- *.
    apply put_cell_ok; [done|by eexists|destruct Hok; by split|]. cbn. intros Hin Hu.
    destruct (mo_queue m Hm id Hin) as (l' & Hl' & Hidle).
    rewrite Hf in Hl'. by injection Hl' as <-.
  - unfold heartbeat. destruct (fenced_cell m id e) as [l|] eqn:Hf; [|done].
    apply fenced_cell_ok in Hf. case_bool_decide as Hs; [|done]. cbn.
    by apply put_life_ok.
  - unfold release. destruct (fenced_cell m id e) as [l|] eqn:Hf; [|done].
    apply fenced_cell_ok in Hf. cbn.
    apply put_life_ok; [done|done|unfold in_use; set_solver|set_solver].
  - unfold block, mark_blocked. destruct (fenced_cell m id e) as [l|] eqn:Hf; [|done].
    apply fenced_cell_ok in Hf. cbn.
    apply put_life_ok; [done|done|unfold in_use; set_solver|set_solver].
Qed.

Lemma new_ok : manager_ok WorkcellManager_new.
Proof.
  split; cbn; [by intros ?? ?%lookup_empty_Some|intros; apply lookup_empty|
    by intros ? ?%elem_of_nil|constructor].
Qed.

Lemma warm_pool_next n : (N.of_nat n ≤ u64_max)%N → next_id (with_warm_pool n) = N.of_nat n.
Proof.
  induction n as [|n IH]; intros Hn; [done|]. cbn. rewrite IH by lia. sat_lia.
Qed.

Lemma warm_pool_ok n : (N.of_nat n ≤ u64_max)%N → manager_ok (with_warm_pool n).
Proof.
  induction n as [|n IH]; intros Hn; [apply new_ok|]. cbn [with_warm_pool].
  apply spawn_ok; [apply IH; lia|]. rewrite warm_pool_next by lia. lia.
Qed.

(** The ledger of a warm manager stays sound. Whatever calls are made, every lease is
    filed under its id, a cell in use was rebased on main first, a held or repaired cell has
    its failure evidence, no agent has more than five branches or one outside its namespace
    or may merge or delete, and the cells in the queue are distinct and not in use. *)
Theorem manager_invariant n m :
  (N.of_nat n ≤ u64_max)%N → rtc manager_step (with_warm_pool n) m → manager_ok m.
Proof.
  intros Hn Hs. pose proof (warm_pool_ok n Hn) as H0.
  induction Hs; eauto using manager_step_ok.
Qed.

(** A warm claim is exclusive. It takes the cell at the front of the queue, which nobody
    is using, leaves every other cell alone and restores the depth of the queue; the cell
    is handed over under the caller's agent and epoch if the startup rebase succeeded, and
    is blocked, with the failure reported, if it did not. *)
Theorem claim_exclusive m r id q :
  manager_ok m → (next_id m < u64_max)%N → ready_queue m = id :: q →
  ∃ res m', claim m r = Some (res, m')
    ∧ (∃ l0, cells m !! id = Some l0 ∧ ¬ in_use (state l0))
    ∧ (∀ id' l, id' ≠ id → cells m !! id' = Some l → cells m' !! id' = Some l)
    ∧ length (ready_queue m') = length (ready_queue m)
    ∧ match res with
      | Ok l =>
          cells m' !! id = Some l ∧ workcell_id l = id ∧ state l = Claimed
          ∧ agent_id l = req_agent r ∧ runner_epoch l = req_epoch r ∧ startup_rebased l = true
      | Err e =>
          is_rebased (startup r) = false ∧ reason e = "workcell_startup_rebase_failed"
          ∧ ∃ l, cells m' !! id = Some l ∧ state l = Blocked
      end.
Proof.
  intros Hm Hn Hq. destruct (claim m r) as [[res m']|] eqn:Hc.
  - destruct (claim_warm m r res m' id q Hm Hn Hq Hc)
      as (l0 & Hl0 & Hidle & Hm' & Hid & -> & Hother & Hq').
    pose proof (lo_id _ _ (mo_leases m Hm _ _ Hl0)) as Hwid.
    exists (match startup_outcome id (startup r) with
            | Ok _ => Ok (claimed_lease l0 r) | Err e => Err e end), m'.
    split_and!; [done|by exists l0|done| |].
    + rewrite Hq', Hq, length_app. cbn. lia.
    + revert Hid. unfold claimed_lease. destruct (startup r); cbn; intros Hid.
      * by split_and!.
      * split_and!; [done|done|]. by eexists.
  - exfalso. unfold claim in Hc. rewrite Hq in Hc. cbn [cells set_queue] in Hc.
    destruct (mo_queue m Hm id) as (l0 & Hl0 & _); [rewrite Hq; constructor|].
    rewrite Hl0 in Hc. cbn [cells spawn_ready_cell snd put_cell set_queue next_id] in Hc.
    destruct (<[_ := WorkcellLease_ready _]> (<[id := _]> (cells m)) !! id) eqn:He; [done|].
    rewrite lookup_insert_None in He. destruct He as [He _]. by rewrite lookup_insert_eq in He.
Qed.

(** An outdated epoch is fenced. A call with an epoch that is not the cell's, or for an
    unknown cell, is refused with the fence error and changes nothing: no repair, export,
    heartbeat, release, block or freeze. *)
Theorem outdated_epoch_fenced m id e :
  (∀ l, cells m !! id = Some l → runner_epoch l ≠ e) →
  ∃ err, reason err = "workcell_epoch_fenced"
    ∧ begin_live_repair m id e = (Err err, m)
    ∧ (∀ s, export_repair_branch m id e s = (Err err, m))
    ∧ (∀ h, heartbeat m id e h = (Err err, m))
    ∧ release m id e = (Err err, m)
    ∧ (∀ s, block m id e s = (Err err, m))
    ∧ (∀ r, freeze_failed_ci_run m id e r = Err err).
Proof.
  intros Hl. assert (∃ err, reason err = "workcell_epoch_fenced" ∧ fenced_cell m id e = Err err)
    as (err & Hr & Hf).
  { unfold fenced_cell, require_epoch. destruct (cells m !! id) as [l|].
    - specialize (Hl l eq_refl). destruct (N.eqb_spec (runner_epoch l) e); [done|].
      by eexists (epoch_fenced _).
    - by eexists (epoch_fenced _). }
  exists err. unfold begin_live_repair, export_repair_branch, heartbeat, release, block,
    freeze_failed_ci_run. rewrite Hf. by split_and!.
Qed.

(** * Archives *)

(** What can be unpacked: a file or a directory at a plain relative path. *)
Definition extractable (e : ArchiveEntry) : Prop :=
  entry_kind e ∈ [File; Directory] ∧ is_absolute (entry_path e) = false
  ∧ ∀ c, c ∈ components (entry_path e) → is_normal c = true.

Definition within (path : string) (roots : list string) : Prop :=
  ∃ root rest, root ∈ roots ∧ components path = components root ++ rest.

Lemma within_spec path roots : is_within_any_root path roots = true ↔ within path roots.
Proof.
  unfold is_within_any_root, within. rewrite existsb_exists. split.
  - intros (root & Hin & [rest Hr]%is_prefix_spec).
    exists root, rest. by rewrite list_elem_of_In.
  - intros (root & rest & Hin & Hr). exists root. rewrite <-list_elem_of_In.
    split; [done|]. apply is_prefix_spec. by exists rest.
Qed.

Lemma repository_path_spec p :
  validate_repository_path p = Ok tt
  ↔ is_absolute p = false ∧ ∀ c, c ∈ components p → is_normal c = true.
Proof.
  unfold validate_repository_path. destruct (is_absolute p); [by split; [|intros [? _]]|].
  pose proof (forallb_forall is_normal (components p)) as Hf.
  setoid_rewrite <-list_elem_of_In in Hf.
  destruct (forallb is_normal (components p)); [by split; [split; [|apply Hf]|]|].
  split; [done|]. intros [_ H]. by apply Hf in H.
Qed.

Lemma join_normal d p :
  is_absolute p = false → (∀ c, c ∈ components p → is_normal c = true) →
  components (path_join d p) = components d ++ components p.
Proof.
  intros Ha Hn. destruct (decide (d = "")) as [->|Hd]; [by unfold path_join; rewrite Ha|].
  apply components_join; [done| |done]. apply components_relative; [done|].
  intros Hc. by apply Hn in Hc.
Qed.

Lemma archive_entry_spec e d roots :
  within d roots → (validate_archive_entry e d roots = Ok tt ↔ extractable e).
Proof.
  intros (root & rest & Hroot & Hd). unfold validate_archive_entry, extractable.
  pose proof (repository_path_spec (entry_path e)) as Hp.
  destruct (validate_repository_path (entry_path e)) as [[]|err].
  - destruct (proj1 Hp eq_refl) as [Ha Hn].
    assert (Hw : is_within_any_root (path_join d (entry_path e)) roots = true).
    { apply within_spec. exists root, (rest ++ components (entry_path e)).
      by rewrite join_normal, Hd, <-app_assoc. }
    rewrite Hw. destruct (entry_kind e); (split; [intros [=]|intros [Hk _]]);
      try done; try (by rewrite !elem_of_cons, elem_of_nil in Hk; destruct Hk as [|[|]]);
      split_and!; try done; set_solver.
  - split; [done|]. intros (_ & Ha & Hn). by rewrite (proj2 Hp (conj Ha Hn)).
Qed.

Lemma entries_spec es d roots :
  within d roots → (validate_entries es d roots = Ok tt ↔ ∀ e, e ∈ es → extractable e).
Proof.
  intros Hd. induction es as [|e es IH]; cbn [validate_entries].
  { split; [by intros _ e ?%elem_of_nil|done]. }
  pose proof (archive_entry_spec e d roots Hd) as He.
  destruct (validate_archive_entry e d roots) as [[]|err].
  - rewrite IH. split; [|by intros H e' He'; apply H; right].
    intros H e' [->|Hin]%elem_of_cons; [by apply He|by apply H].
  - split; [done|]. intros H. by rewrite (proj2 He (H e (list_elem_of_here _ _))).
Qed.

(** An imported archive is contained. It is accepted exactly when its destination is in
    an approved root and every entry is a file or a directory at a relative path of plain
    names: no link, no device, no parent component. Every entry is then unpacked at its
    path below an approved root, without a parent step as long as the destination has
    none. *)
Theorem import_contained es d roots :
  (validate_import_archive es d roots = Ok tt
     ↔ within d roots ∧ ∀ e, e ∈ es → extractable e)
  ∧ (validate_import_archive es d roots = Ok tt → ∀ e, e ∈ es →
       ∃ root rest, root ∈ roots
         ∧ components (path_join d (entry_path e)) = components root ++ rest
         ∧ (ParentDir ∉ components d → ParentDir ∉ rest)).
Proof.
  assert (Hiff : validate_import_archive es d roots = Ok tt
            ↔ within d roots ∧ ∀ e, e ∈ es → extractable e).
  { unfold validate_import_archive. pose proof (within_spec d roots) as Hw.
    destruct (is_within_any_root d roots); cbn [negb].
    - destruct (proj1 Hw eq_refl) as (root & rest & Hin & Hd).
      assert (within d roots) as Hd' by (by exists root, rest).
      rewrite (entries_spec es d roots Hd'). tauto.
    - split; [done|]. by intros [Hd%Hw _]. }
  split; [done|]. intros [Hd He]%Hiff e Hin.
  destruct (He e Hin) as (_ & Ha & Hn), Hd as (root & rest & Hroot & Hd).
  exists root, (rest ++ components (entry_path e)). split; [done|].
  rewrite join_normal, Hd, <-app_assoc by done. split; [done|].
  intros Hp [Hr|Hr]%elem_of_app; [|by apply Hn in Hr].
  apply Hp. apply elem_of_app. by right.
Qed.

(** * Witnesses *)

Definition sample_claim (epoch : N) (s : StartupSync) : WorkcellClaimRequest :=
  {| req_agent := "agent"; req_root := "/repo"; req_repo_roots := ["/repo"];
     branch_budget := 2; req_runner := "runner"; req_epoch := epoch;
     req_summary := "clean"; req_age_ms := Some 5%N; startup := s |}.

Definition sample_sync : StartupSync := Rebased "origin/main" "base" "head".

Definition sample_hold : HoldFailedTreeRequest :=
  {| hold_claim := sample_claim 7 sample_sync; hold_ci_run := "ci"; hold_failed_run := "run";
     hold_failed_receipt := "receipt"; hold_log_digest := "digest" |}.

Definition after {A} (r : option (WorkcellResult A * WorkcellManager)) (m : WorkcellManager) :
    WorkcellManager :=
  match r with Some (_, m') => m' | None => m end.

Definition sample_held : WorkcellManager :=
  after (hold_failed_tree (with_warm_pool 2) sample_hold) (with_warm_pool 2).

Definition sample_repairing : WorkcellManager :=
  (export_repair_branch (begin_live_repair sample_held "wc-0001" 7).2 "wc-0001" 7 "fix").2.

Lemma manager_invariant_witness :
  rtc manager_step (with_warm_pool 2) sample_repairing
  ∧ (∃ l, cells sample_repairing !! "wc-0001" = Some l ∧ state l = Repairing
      ∧ open_branches (branch_policy l) = {["agents/agent/workcells/wc-0001/fix"]})
  ∧ manager_ok sample_repairing.
Proof.
  assert (Hr : rtc manager_step (with_warm_pool 2) sample_repairing).
  { eapply rtc_l; [|eapply rtc_l; [|eapply rtc_once]];
      [| |apply (Step_export (begin_live_repair sample_held "wc-0001" 7).2 "wc-0001" 7 "fix")].
    - eapply (Step_hold _ sample_hold); [done|by vm_compute|]. vm_compute. reflexivity.
    - exact (Step_begin sample_held "wc-0001" 7). }
  split; [exact Hr|]. split.
  - eexists. split; [vm_compute; reflexivity|]. split; [reflexivity|]. vm_compute. reflexivity.
  - apply (manager_invariant 2); [by vm_compute|exact Hr].
Defined.

Lemma claim_exclusive_witness :
  manager_ok (with_warm_pool 2)
  ∧ ∃ res m', claim (with_warm_pool 2) (sample_claim 7 sample_sync) = Some (res, m')
      ∧ length (ready_queue m') = 2.
Proof.
  assert (H2 : manager_ok (with_warm_pool 2)) by (apply warm_pool_ok; by vm_compute).
  split; [exact H2|].
  destruct (claim_exclusive (with_warm_pool 2) (sample_claim 7 sample_sync) "wc-0001"
              ["wc-0002"] H2) as (res & m' & Hc & _ & _ & Hlen & _);
    [by vm_compute|vm_compute; reflexivity|].
  exists res, m'. split; [exact Hc|exact Hlen].
Defined.

Lemma outdated_epoch_fenced_witness :
  (∃ l, cells sample_held !! "wc-0001" = Some l ∧ runner_epoch l = 7%N ∧ state l = Held)
  ∧ ∃ err, reason err = "workcell_epoch_fenced"
      ∧ begin_live_repair sample_held "wc-0001" 6 = (Err err, sample_held).
Proof.
  split; [eexists; split; [vm_compute; reflexivity|split; reflexivity]|].
  destruct (outdated_epoch_fenced sample_held "wc-0001" 6) as (err & Hr & Hb & _).
  - vm_compute. intros l [= <-]. discriminate.
  - by exists err.
Defined.

(** * What the code does at the edges *)

(** A claim that finds the queue empty spawns a cell, and leaves it in the queue: the next
    claim hands the cell in use to a second agent. *)
Example cold_claim_shares_the_cell :
  let m1 := after (claim WorkcellManager_new (sample_claim 7 sample_sync)) WorkcellManager_new in
  ready_queue m1 = ["wc-0001"; "wc-0002"]
  ∧ state <$> cells m1 !! "wc-0001" = Some Claimed
  ∧ match claim m1 (sample_claim 8 sample_sync) with
    | Some (Ok l, _) => workcell_id l = "wc-0001" ∧ runner_epoch l = 8%N
    | _ => False
    end.
Proof. vm_compute. split_and!; reflexivity. Qed.

(** [claim_ready] does not ask that the cell was queued. *)
Example claim_ready_takes_a_cell_in_use :
  (∃ l, cells sample_held !! "wc-0001" = Some l ∧ state l = Held ∧ runner_epoch l = 7%N)
  ∧ match claim_ready sample_held "wc-0001" (sample_claim 8 sample_sync) with
    | (Ok l, _) => runner_epoch l = 8%N
    | _ => False
    end.
Proof.
  split; [|vm_compute; reflexivity].
  eexists. split; [vm_compute; reflexivity|]. split; reflexivity.
Qed.

(** [Path::starts_with] resolves no parent component, so a destination that leaves the
    root is taken to be inside. *)
Example import_destination_escapes :
  validate_import_archive [ArchiveEntry_new "passwd" File] "/repo/../etc" ["/repo"] = Ok tt.
Proof. vm_compute. reflexivity. Qed.

(** A cell repaired from a snapshot keeps the branch namespace of the failed cell. *)
Example repair_keeps_the_old_namespace :
  let m := sample_held in
  match cells m !! "wc-0001" with
  | Some l =>
      let s := from_workcell "ci" "run" "receipt" l "digest" 0 in
      let m' := after (repair_from_snapshot m s sample_sync) m in
      (export_repair_branch m' "wc-0002" 8 "fix").1
      = Ok "agents/agent/workcells/wc-0001/fix"
  | None => False
  end.
Proof. vm_compute. reflexivity. Qed.
