(* ===== verification/Seccomp.v ===== *)
(** Seccomp: the system calls a native job may make
    (src/components/jeryu-ci-runner/crates/jeryu-sandbox-linux/src/seccomp_rules.rs).

    A system call is named as in [libc::SYS_*]. Conditions and rules are seccompiler's data,
    whose constructors refuse only argument numbers above five, which none here is; how the
    compiled filter reads them is the class [Seccompiler]. *)

From S2P Require Import Prelude.

(** * The rules *)

Inductive TargetArch : Type := X86_64 | Aarch64 | Riscv64.

#[export] Instance TargetArch_eq_dec : EqDecision TargetArch.
Proof. solve_decision. Defined.

(** [SeccompCmpOp], on the low word of an argument ([SeccompCmpArgLen::Dword]). *)
Inductive SeccompCmpOp : Type := CmpEq | CmpNe.

Record SeccompCondition : Type := { cond_arg : nat; cond_op : SeccompCmpOp; cond_value : N }.

Abbreviation SeccompRule := (list SeccompCondition).
Abbreviation RuleMap := (gmap string (list SeccompRule)).

(** Linux values of the libc constants. *)
Definition AF_UNIX : N := 1.
Definition AF_NETLINK : N := 16.
Definition AF_INET : N := 2.
Definition AF_INET6 : N := 10.
Definition TIOCSTI : N := 21522.

Definition socket_rule (domain : N) : SeccompRule :=
  [{| cond_arg := 0; cond_op := CmpEq; cond_value := domain |}].

Definition add_local_socket_rule (rules : RuleMap) : RuleMap :=
  <["socket" := map socket_rule [AF_UNIX; AF_NETLINK]]> rules.

Definition add_network_socket_rule (rules : RuleMap) : RuleMap :=
  <["socket" := map socket_rule [AF_UNIX; AF_NETLINK; AF_INET; AF_INET6]]> rules.

Definition add_pty_ioctl_rule (rules : RuleMap) : RuleMap :=
  <["ioctl" := [[{| cond_arg := 1; cond_op := CmpNe; cond_value := TIOCSTI |}]]]> rules.

(** * The groups *)

Definition BASELINE : list string :=
  ["read"; "write"; "close"; "mmap"; "munmap"; "mprotect"; "brk"; "rt_sigaction";
   "rt_sigprocmask"; "rt_sigreturn"; "exit"; "exit_group"; "arch_prctl"; "set_tid_address";
   "set_robust_list"; "rseq"; "prlimit64"; "getrandom"; "sigaltstack"; "gettid"; "getpid"].

Definition PROCESS_BASIC : list string :=
  ["clone"; "clone3"; "execve"; "execveat"; "wait4"; "kill"; "tgkill"; "getppid"; "getuid";
   "geteuid"; "getgid"; "getegid"; "setpgid"; "getpgrp"; "sched_getaffinity"; "sched_yield";
   "prctl"; "pipe2"; "dup"; "dup3"; "fcntl"; "poll"; "ppoll"; "epoll_create1"; "epoll_ctl";
   "epoll_pwait"; "eventfd2"; "uname"; "sysinfo"; "membarrier"].

Definition FILE_RW : list string :=
  ["openat"; "openat2"; "pread64"; "pwrite64"; "readv"; "writev"; "lseek"; "newfstatat";
   "statx"; "fstat"; "getdents64"; "getcwd"; "chdir"; "fchdir"; "mkdirat"; "unlinkat";
   "renameat"; "renameat2"; "linkat"; "symlinkat"; "readlinkat"; "fchmod"; "fchmodat";
   "fchown"; "fchownat"; "ftruncate"; "fsync"; "fdatasync"; "fadvise64"; "faccessat";
   "faccessat2"; "flock"; "utimensat"; "umask"; "ioctl"; "copy_file_range"; "sendfile"].

Definition FUTEX_GROUP : list string := ["futex"; "futex_waitv"].

Definition NETWORK_EGRESS : list string :=
  ["connect"; "sendto"; "recvfrom"; "sendmsg"; "recvmsg"; "bind"; "getsockname";
   "getpeername"; "setsockopt"; "getsockopt"; "shutdown"; "epoll_ctl"; "ppoll"].

Definition PTY_GROUP : list string := ["setsid"].

Definition LEGACY_ARCH (arch : TargetArch) : list string :=
  match arch with
  | X86_64 =>
      ["access"; "open"; "stat"; "lstat"; "fstat"; "mkdir"; "rmdir"; "rename"; "unlink";
       "link"; "symlink"; "readlink"; "chmod"; "chown"; "dup2"; "pipe"; "poll"; "epoll_wait";
       "epoll_create"; "vfork"; "getdents"; "creat"; "select"; "mknod"]
  | _ => []
  end.

Definition TIME_GROUP : list string :=
  ["clock_gettime"; "clock_getres"; "clock_nanosleep"; "nanosleep"; "gettimeofday"; "times";
   "timerfd_create"; "timerfd_settime"].

Definition RUST_BUILD : list string :=
  ["madvise"; "mremap"; "socketpair"; "connect"; "bind"; "getsockname"; "getpeername";
   "sendmsg"; "recvmsg"; "sendto"; "recvfrom"; "setsockopt"; "getsockopt"; "shutdown";
   "accept4"; "listen"; "pidfd_open"; "pidfd_send_signal"; "waitid"; "rt_sigtimedwait";
   "restart_syscall"; "sched_getparam"; "sched_getscheduler"; "get_mempolicy"; "statfs";
   "fstatfs"; "memfd_create"].

(** * The rule map *)

(** One group: the calls it allows and the conditional rules it sets. *)
Definition add_group (acc : list string * RuleMap) (group : string) : list string * RuleMap :=
  let '(allowed, conditional) := acc in
  if bool_decide (group = "process-basic") then (allowed ++ PROCESS_BASIC, conditional)
  else if bool_decide (group = "file-readwrite-workspace") then (allowed ++ FILE_RW, conditional)
  else if bool_decide (group = "futex") then (allowed ++ FUTEX_GROUP, conditional)
  else if bool_decide (group = "time") then (allowed ++ TIME_GROUP, conditional)
  else if bool_decide (group = "rust-build-tooling") then
    (allowed ++ RUST_BUILD, add_local_socket_rule conditional)
  else if bool_decide (group = "network-egress") then
    (allowed ++ NETWORK_EGRESS, add_network_socket_rule conditional)
  else if bool_decide (group = "pty") then
    (allowed ++ PTY_GROUP, add_pty_ioctl_rule conditional)
  else (allowed, conditional).

(** [rules.entry(nr).or_default()]. *)
Definition entry_or_default (rules : RuleMap) (nr : string) : RuleMap :=
  match rules !! nr with Some _ => rules | None => <[nr := []]> rules end.

Definition build_rules (groups : list string) (arch : TargetArch) : RuleMap :=
  let '(allowed, conditional) := foldl add_group (BASELINE ++ LEGACY_ARCH arch, ∅) groups in
  foldl entry_or_default conditional (sort_dedup allowed).

(** * The filter

    What seccompiler documents of a compiled filter: a call that is not in the map gets the
    mismatch action; one whose list of rules is empty, or some rule of which has every
    condition true, gets the match action. Here a match is allowed and a mismatch is
    [EPERM]. *)

Definition condition_holds (args : list N) (c : SeccompCondition) : bool :=
  let low := (nth (cond_arg c) args 0 mod 4294967296)%N in
  match cond_op c with
  | CmpEq => (low =? cond_value c)%N
  | CmpNe => negb (low =? cond_value c)%N
  end.

Definition rule_holds (args : list N) (r : SeccompRule) : bool := forallb (condition_holds args) r.

Class Seccompiler : Type := {
  filter_allows : RuleMap → string → list N → bool;
  filter_allows_spec : ∀ rules nr args,
    filter_allows rules nr args = true ↔
    ∃ rs, rules !! nr = Some rs ∧ (rs = [] ∨ ∃ r, r ∈ rs ∧ rule_holds args r = true)
}.

(** * Lemmas *)

Definition group_calls (group : string) : list string :=
  (add_group ([], ∅) group).1.

Lemma add_group_eq acc group :
  (add_group acc group).1 = acc.1 ++ group_calls group
  ∧ (add_group acc group).2 =
      (if bool_decide (group = "rust-build-tooling") then add_local_socket_rule acc.2
       else if bool_decide (group = "network-egress") then add_network_socket_rule acc.2
       else if bool_decide (group = "pty") then add_pty_ioctl_rule acc.2 else acc.2).
Proof.
  destruct acc as [allowed conditional]. unfold group_calls, add_group. cbn [fst snd app].
  repeat (case_bool_decide; [by subst|]). cbn. by rewrite app_nil_r.
Qed.

Lemma groups_allowed acc groups :
  (foldl add_group acc groups).1 = acc.1 ++ concat (map group_calls groups).
Proof.
  revert acc. induction groups as [|g groups IH]; intros acc; cbn; [by rewrite app_nil_r|].
  rewrite IH. destruct (add_group_eq acc g) as [-> _]. by rewrite app_assoc.
Qed.

(** The conditional rules a group sets for a call. *)
Definition group_rules (nr group : string) : option (list SeccompRule) :=
  (add_group ([], ∅) group).2 !! nr.

Lemma add_group_rules acc group nr :
  (add_group acc group).2 !! nr =
  match group_rules nr group with Some rs => Some rs | None => acc.2 !! nr end.
Proof.
  unfold group_rules. rewrite (proj2 (add_group_eq acc group)).
  rewrite (proj2 (add_group_eq ([], ∅) group)).
  unfold add_local_socket_rule, add_network_socket_rule, add_pty_ioctl_rule. cbn [snd].
  repeat case_bool_decide; rewrite ?lookup_insert, ?lookup_empty; by try case_decide.
Qed.

(** The rules for a call are those of the last of the groups that sets any. *)
Lemma groups_conditional acc groups nr :
  (foldl add_group acc groups).2 !! nr =
  foldl (λ v g, match group_rules nr g with Some rs => Some rs | None => v end)
    (acc.2 !! nr) groups.
Proof.
  revert acc. induction groups as [|g groups IH]; intros acc; [done|]. cbn [foldl].
  by rewrite IH, add_group_rules.
Qed.

Lemma entries_lookup rules l nr :
  foldl entry_or_default rules l !! nr =
  match rules !! nr with
  | Some rs => Some rs
  | None => if decide (nr ∈ l) then Some [] else None
  end.
Proof.
  revert rules. induction l as [|x l IH]; intros rules; cbn; [by destruct (rules !! nr)|].
  rewrite IH. unfold entry_or_default. destruct (rules !! x) as [rs|] eqn:Hx.
  - destruct (rules !! nr) as [?|] eqn:Hr; [done|].
    destruct (decide (nr ∈ l)), (decide (nr ∈ x :: l)); set_solver.
  - destruct (decide (x = nr)) as [->|Hne].
    + rewrite lookup_insert_eq, Hx. by rewrite decide_True by set_solver.
    + rewrite lookup_insert_ne by done. destruct (rules !! nr); [done|].
      destruct (decide (nr ∈ l)), (decide (nr ∈ x :: l)); set_solver.
Qed.

Definition conditional_rules (groups : list string) (nr : string) : option (list SeccompRule) :=
  foldl (λ v g, match group_rules nr g with Some rs => Some rs | None => v end) None groups.

(** What the map says of a call: the conditional rules of the groups come first, and a call
    a group allows without conditions is unconditional only if no group has rules for it. *)
Lemma build_rules_lookup groups arch nr :
  build_rules groups arch !! nr =
  match conditional_rules groups nr with
  | Some rs => Some rs
  | None =>
      if decide (nr ∈ BASELINE ++ LEGACY_ARCH arch ++ concat (map group_calls groups))
      then Some [] else None
  end.
Proof.
  unfold build_rules, conditional_rules.
  pose proof (groups_allowed (BASELINE ++ LEGACY_ARCH arch, ∅) groups) as Ha.
  pose proof (groups_conditional (BASELINE ++ LEGACY_ARCH arch, ∅) groups nr) as Hc.
  destruct (foldl add_group _ groups) as [allowed conditional]. cbn [fst snd] in *. subst.
  rewrite entries_lookup, Hc, lookup_empty, <-app_assoc.
  destruct (foldl _ None groups); [done|].
  destruct (sort_dedup_spec (BASELINE ++ LEGACY_ARCH arch ++ concat (map group_calls groups)))
    as (_ & _ & Hs).
  destruct (decide (nr ∈ sort_dedup _)) as [H|H]; rewrite Hs in H.
  - by rewrite decide_True.
  - by rewrite decide_False.
Qed.

(** Every call some group can allow without conditions. *)
Definition ALL_CALLS : list string :=
  BASELINE ++ LEGACY_ARCH X86_64 ++ PROCESS_BASIC ++ FILE_RW ++ FUTEX_GROUP ++ TIME_GROUP
  ++ RUST_BUILD ++ NETWORK_EGRESS ++ PTY_GROUP.

Lemma group_calls_known group nr : nr ∈ group_calls group → nr ∈ ALL_CALLS.
Proof.
  unfold group_calls, add_group, ALL_CALLS. rewrite !elem_of_app.
  repeat (case_bool_decide; [cbn [fst app]; tauto|]). by intros ?%elem_of_nil.
Qed.

Lemma allowed_known groups arch nr :
  nr ∈ BASELINE ++ LEGACY_ARCH arch ++ concat (map group_calls groups) → nr ∈ ALL_CALLS.
Proof.
  rewrite !elem_of_app. intros [H|[H|H]].
  - unfold ALL_CALLS. rewrite !elem_of_app. tauto.
  - unfold ALL_CALLS. rewrite !elem_of_app. destruct arch; [tauto|by apply elem_of_nil in H..].
  - apply elem_of_concat in H as (l & Hnr & Hl).
    apply list_elem_of_fmap in Hl as (g & -> & _). by eapply group_calls_known.
Qed.

(** What sets rules for a call: sockets and, with a terminal, device control. *)
Lemma group_rules_cases nr group rs :
  group_rules nr group = Some rs →
  nr = "socket" ∧ group = "rust-build-tooling" ∧ rs = map socket_rule [AF_UNIX; AF_NETLINK]
  ∨ nr = "socket" ∧ group = "network-egress"
    ∧ rs = map socket_rule [AF_UNIX; AF_NETLINK; AF_INET; AF_INET6]
  ∨ nr = "ioctl" ∧ group = "pty"
    ∧ rs = [[{| cond_arg := 1; cond_op := CmpNe; cond_value := TIOCSTI |}]].
Proof.
  unfold group_rules. rewrite (proj2 (add_group_eq ([], ∅) group)). cbn [snd].
  unfold add_local_socket_rule, add_network_socket_rule, add_pty_ioctl_rule.
  repeat case_bool_decide; rewrite ?lookup_insert_Some, ?lookup_empty; naive_solver.
Qed.

Lemma conditional_rules_Some groups nr rs :
  conditional_rules groups nr = Some rs → ∃ g, g ∈ groups ∧ group_rules nr g = Some rs.
Proof.
  unfold conditional_rules.
  assert (∀ v, foldl (λ v g, match group_rules nr g with Some rs => Some rs | None => v end)
            v groups = Some rs → v = Some rs ∨ ∃ g, g ∈ groups ∧ group_rules nr g = Some rs)
    as H.
  { induction groups as [|g groups IH]; intros v; cbn; [by left|]. intros [Hv|Hg]%IH.
    - destruct (group_rules nr g) eqn:He; [|by left]. right. exists g.
      split; [by left|]. congruence.
    - right. destruct Hg as (g' & ? & ?). exists g'. split; [by right|done]. }
  intros [?|?]%H; done.
Qed.

Lemma conditional_rules_None groups nr g :
  g ∈ groups → is_Some (group_rules nr g) → is_Some (conditional_rules groups nr).
Proof.
  unfold conditional_rules.
  assert (∀ v, is_Some v ∨ (∃ g, g ∈ groups ∧ is_Some (group_rules nr g)) →
    is_Some (foldl (λ v g, match group_rules nr g with Some rs => Some rs | None => v end)
               v groups)) as H; [|intros; apply H; eauto].
  induction groups as [|g' groups IH]; intros v; cbn.
  - intros [?|(? & ?%elem_of_nil & _)]; done.
  - intros [Hv|(g0 & [->|Hin]%elem_of_cons & Hg)]; apply IH; [|by left; destruct Hg as [? ->]|].
    + left. by destruct (group_rules nr g').
    + right. by exists g0.
Qed.

(** * Theorems *)

(** The ways out of a sandbox that no job has a use for. *)
Definition ESCAPES : list string :=
  ["ptrace"; "process_vm_readv"; "process_vm_writev"; "mount"; "umount2"; "pivot_root";
   "chroot"; "unshare"; "setns"; "bpf"; "perf_event_open"; "init_module"; "finit_module";
   "delete_module"; "kexec_load"; "reboot"; "keyctl"; "io_uring_setup"; "userfaultfd";
   "open_by_handle_at"; "acct"; "swapon"; "sethostname"; "iopl"; "ioperm"].

Lemma escapes_unknown nr : nr ∈ ESCAPES → nr ∉ ALL_CALLS ∧ nr ≠ "socket" ∧ nr ≠ "ioctl".
Proof.
  assert (forallb (λ n, bool_decide (n ∉ ALL_CALLS ∧ n ≠ "socket" ∧ n ≠ "ioctl")) ESCAPES = true)
    as H by (vm_compute; reflexivity).
  rewrite forallb_forall in H. intros Hn%list_elem_of_In. by apply H, bool_decide_eq_true in Hn.
Qed.

Section filter.
Context `{Seccompiler}.

Lemma socket_rules_hold args domains :
  (∃ r, r ∈ map socket_rule domains ∧ rule_holds args r = true) ↔
  (nth 0 args 0 mod 4294967296)%N ∈ domains.
Proof.
  split.
  - intros (r & (d & -> & Hd)%list_elem_of_fmap & Hr). cbn in Hr.
    rewrite andb_true_r in Hr. by apply N.eqb_eq in Hr as ->.
  - intros Hd. eexists. split; [by apply list_elem_of_fmap; eexists|]. cbn.
    by rewrite N.eqb_refl.
Qed.

(** No profile opens the sandbox. Whatever groups of calls a plan names, known or not,
    and on every architecture: none of the calls that lead out of a sandbox is ever allowed;
    a socket can only be opened in a local domain, or in an internet one if the plan names
    network egress; and a job with a terminal can not push input into it. *)
Theorem filter_closed groups arch args :
  (∀ nr, nr ∈ ESCAPES → filter_allows (build_rules groups arch) nr args = false)
  ∧ (filter_allows (build_rules groups arch) "socket" args = true →
     (nth 0 args 0 mod 4294967296)%N ∈ [AF_UNIX; AF_NETLINK]
     ∨ "network-egress" ∈ groups
       ∧ (nth 0 args 0 mod 4294967296)%N ∈ [AF_UNIX; AF_NETLINK; AF_INET; AF_INET6])
  ∧ ("pty" ∈ groups → filter_allows (build_rules groups arch) "ioctl" args = true →
     (nth 1 args 0 mod 4294967296)%N ≠ TIOCSTI).
Proof.
  split_and!.
  - intros nr (Hall & Hs & Hi)%escapes_unknown. apply not_true_iff_false.
    rewrite filter_allows_spec, build_rules_lookup. intros (rs & Hrs & _). revert Hrs.
    destruct (conditional_rules groups nr) as [rs'|] eqn:Hc.
    + apply conditional_rules_Some in Hc as (g & _ & Hg%group_rules_cases). naive_solver.
    + case_decide as Hin; [|done]. by apply allowed_known in Hin.
  - rewrite filter_allows_spec, build_rules_lookup. intros (rs & Hrs & Hholds). revert Hrs.
    destruct (conditional_rules groups "socket") as [rs'|] eqn:Hc.
    + intros [= ->]. apply conditional_rules_Some in Hc as (g & Hg & Hr%group_rules_cases).
      destruct Hholds as [->|Hr']; [naive_solver|].
      destruct Hr as [(_ & _ & ->)|[(_ & -> & ->)|(? & _)]]; [left|right|done].
      * by apply socket_rules_hold in Hr'.
      * split; [done|]. by apply socket_rules_hold in Hr'.
    + case_decide as Hin; [|done]. apply allowed_known in Hin. exfalso. revert Hin.
      apply (bool_decide_unpack ("socket" ∉ ALL_CALLS)). by vm_compute.
  - intros Hpty. rewrite filter_allows_spec, build_rules_lookup.
    intros (rs & Hrs & Hholds). revert Hrs.
    destruct (conditional_rules_None groups "ioctl" "pty" Hpty) as [rs' Hc].
    { vm_compute. by eexists. }
    rewrite Hc. intros [= ->]. apply conditional_rules_Some in Hc as (g & _ & Hg%group_rules_cases).
    destruct Hg as [(? & _)|[(? & _)|(_ & _ & ->)]]; [done..|].
    destruct Hholds as [|(r & ->%list_elem_of_singleton & Hr)]; [done|].
    cbn in Hr. rewrite andb_true_r in Hr. by apply negb_true_iff, N.eqb_neq in Hr.
Qed.
End filter.

(** * Samples *)

Definition reference_allows (rules : RuleMap) (nr : string) (args : list N) : bool :=
  match rules !! nr with
  | None => false
  | Some [] => true
  | Some rs => existsb (rule_holds args) rs
  end.

Lemma reference_allows_spec rules nr args :
  reference_allows rules nr args = true ↔
  ∃ rs, rules !! nr = Some rs ∧ (rs = [] ∨ ∃ r, r ∈ rs ∧ rule_holds args r = true).
Proof.
  unfold reference_allows. destruct (rules !! nr) as [[|r rs]|]; [naive_solver| |naive_solver].
  rewrite existsb_exists. setoid_rewrite <-list_elem_of_In. naive_solver.
Qed.

#[export] Instance reference_filter : Seccompiler :=
  {| filter_allows := reference_allows; filter_allows_spec := reference_allows_spec |}.

(** The order of the groups decides: egress named before the build tools is taken back. *)
Example egress_before_tooling_is_lost :
  let rules l := build_rules ("process-basic" :: l) X86_64 in
  filter_allows (rules ["rust-build-tooling"; "network-egress"]) "socket" [AF_INET; 1%N] = true
  ∧ filter_allows (rules ["network-egress"; "rust-build-tooling"]) "socket" [AF_INET; 1%N] = false.
Proof. vm_compute. split; reflexivity. Qed.
