(* ===== verification/Hosts.v ===== *)
(** Hosts: what a runner asks of the machine it runs on, and the programs over it.

    A program is a state passing function that may fail ([io]); its state is the [world] of
    the class [Host], whose fields are the calls the runner crates make: environment and
    clocks, files, processes, and the primitives of the Linux sandbox. [HostLog] is a host
    that can say what was asked of it, in order; theorems about the order and the failure
    of calls are stated on its log. *)

From Stdlib Require Import ZArith.
From S2P Require Import Prelude Seccomp.

(** * Programs *)

Definition io (W E A : Type) : Type := W → result A E * W.

#[export] Instance io_ret {W E} : MRet (io W E) := λ A a w, (Ok a, w).

#[export] Instance io_bind {W E} : MBind (io W E) := λ A B f c w,
  match c w with (Ok a, w') => f a w' | (Err e, w') => (Err e, w') end.

Definition fail {W E A} (e : E) : io W E A := λ w, (Err e, w).

(** A pure [Result] followed by the question mark. *)
Definition from_result {W E A} (r : result A E) : io W E A := λ w, (r, w).

Definition ask {W E A} (f : W → A) : io W E A := λ w, (Ok (f w), w).

Definition always {W E A} (f : W → A * W) : io W E A := λ w, let (a, w') := f w in (Ok a, w').

Definition io_map_err {W E F A} (f : E → F) (c : io W E A) : io W F A := λ w,
  let (r, w') := c w in (map_err f r, w').

(** The result as a value: a [match] on it, or [let _ =]. *)
Definition attempt {W E F A} (c : io W E A) : io W F (result A E) := λ w,
  let (r, w') := c w in (Ok r, w').

Definition when {W E} (b : bool) (c : io W E ()) : io W E () := if b then c else mret tt.

(** What holds of the result and the world a program leaves. *)
Definition iowp {W E A} (c : io W E A) (Q : result A E → W → Prop) (w : W) : Prop :=
  Q (c w).1 (c w).2.

Section iowp.
Context {W : Type}.

Lemma iowp_ret {E A} (a : A) (Q : result A E → W → Prop) w :
  Q (Ok a) w → iowp (mret a) Q w.
Proof. done. Qed.

Lemma iowp_fail {E A} (e : E) (Q : result A E → W → Prop) w : Q (Err e) w → iowp (fail e) Q w.
Proof. done. Qed.

Lemma iowp_result {E A} (r : result A E) (Q : result A E → W → Prop) w :
  Q r w → iowp (from_result r) Q w.
Proof. done. Qed.

Lemma iowp_ask {E A} (f : W → A) (Q : result A E → W → Prop) w :
  Q (Ok (f w)) w → iowp (ask f) Q w.
Proof. done. Qed.

Lemma iowp_always {E A} (f : W → A * W) (Q : result A E → W → Prop) w :
  Q (Ok (f w).1) (f w).2 → iowp (always f) Q w.
Proof. unfold iowp, always. by destruct (f w). Qed.

Lemma iowp_map_err {E F A} (f : E → F) (c : io W E A) (Q : result A F → W → Prop) w :
  iowp c (λ r, Q (map_err f r)) w → iowp (io_map_err f c) Q w.
Proof. unfold iowp, io_map_err. by destruct (c w). Qed.

Lemma iowp_attempt {E F A} (c : io W E A) (Q : result (result A E) F → W → Prop) w :
  iowp c (λ r, Q (Ok r)) w → iowp (attempt c) Q w.
Proof. unfold iowp, attempt. by destruct (c w). Qed.

Lemma iowp_mono {E A} (c : io W E A) (P Q : result A E → W → Prop) w :
  iowp c P w → (∀ r w', P r w' → Q r w') → iowp c Q w.
Proof. unfold iowp. auto. Qed.

Lemma iowp_bind {E A B} (c : io W E A) (f : A → io W E B) (Q : result B E → W → Prop) w :
  iowp c (λ r w', match r with Ok a => iowp (f a) Q w' | Err e => Q (Err e) w' end) w →
  iowp (c ≫= f) Q w.
Proof. unfold iowp, mbind, io_bind. by destruct (c w) as [[]]. Qed.

Lemma iowp_when {E} (b : bool) (c : io W E ()) (Q : result () E → W → Prop) w :
  (b = true → iowp c Q w) → (b = false → Q (Ok tt) w) → iowp (when b c) Q w.
Proof. intros H1 H2. destruct b; [by apply H1|by apply H2]. Qed.

Lemma iowp_run {E A} (c : io W E A) (Q : result A E → W → Prop) w r w' :
  iowp c Q w → c w = (r, w') → Q r w'.
Proof. unfold iowp. intros HQ Hc. by rewrite Hc in HQ. Qed.
End iowp.

Lemma io_bind_run {W E A B} (c : io W E A) (f : A → io W E B) w r w' :
  c w = (r, w') → (c ≫= f) w = match r with Ok a => f a w' | Err e => (Err e, w') end.
Proof. unfold mbind, io_bind. intros ->. by destruct r. Qed.

Lemma io_bind_Ok {W E A B} (c : io W E A) (f : A → io W E B) w b w' :
  (c ≫= f) w = (Ok b, w') → ∃ a w1, c w = (Ok a, w1) ∧ f a w1 = (Ok b, w').
Proof. unfold mbind, io_bind. destruct (c w) as [[a|] w1]; [by eauto|done]. Qed.

Lemma io_bind_Err {W E A B} (c : io W E A) (f : A → io W E B) w e w' :
  (c ≫= f) w = (Err e, w') →
  c w = (Err e, w') ∨ ∃ a w1, c w = (Ok a, w1) ∧ f a w1 = (Err e, w').
Proof.
  unfold mbind, io_bind. destruct (c w) as [[a|] w1]; [by eauto|]. intros [= <- <-]. by left.
Qed.

(** One step of a program: a goal [iowp (c ≫= f) Q w] becomes one for [c]. *)
Ltac io_step :=
  lazymatch goal with
  | |- iowp (mbind _ _) _ _ => apply iowp_bind
  | |- iowp (mret _) _ _ => apply iowp_ret
  | |- iowp (fail _) _ _ => apply iowp_fail
  | |- iowp (from_result _) _ _ => apply iowp_result
  | |- iowp (ask _) _ _ => apply iowp_ask
  | |- iowp (always _) _ _ => apply iowp_always
  | |- iowp (io_map_err _ _) _ _ => apply iowp_map_err
  | |- iowp (attempt _) _ _ => apply iowp_attempt
  | |- iowp (when _ _) _ _ => apply iowp_when; intros ?
  | |- iowp (if ?b then _ else _) _ _ => destruct b eqn:?
  | |- iowp (let (_, _) := ?p in _) _ _ => destruct p
  end; cbv beta iota.

(** * Hosts *)

(** [std::process::Output]; [exit] is [status.code()]. *)
Record Output : Type := {
  success : bool; exit : option Z; stdout : string; stderr : string
}.

(** What the parent asks of Landlock: rights on a directory tree. *)
Record Access : Type := { acc_read : bool; acc_write : bool; acc_execute : bool }.

(** The calls of the child between fork and exec. [slave] and [ruleset] are descriptors. *)
Inductive ChildCall : Type :=
  | CC_setsid
  | CC_setpgid
  | CC_tiocsctty (slave : N)
  | CC_dup2 (slave target : N)
  | CC_close (slave : N)
  | CC_join_cgroup (procs : string)
  | CC_rlimit_as (limit : N)
  | CC_no_new_privs
  | CC_unshare (user mount pid : bool)
  | CC_landlock (ruleset : N)
  | CC_seccomp (rules : RuleMap).

(** The calls that act on the host. *)
Inductive HostCall : Type :=
  | HC_create_dir_all (path : string)
  | HC_create_dir (path : string)
  | HC_remove_dir (path : string)
  | HC_write (path data : string)
  | HC_landlock_add (ruleset : N) (path : string) (access : Access)
  | HC_child (c : ChildCall).

Class Host : Type := {
  world : Type;
  (** [std::env::consts::ARCH]. *)
  host_arch : string;
  (** [format!("{:?}", text)], which asks Unicode which characters can be printed. *)
  debug_text : string → string;
  (** [std::env::var(name).ok()]. *)
  getenv : string → world → option string;
  (** [now_ms] of receipt.rs: milliseconds since the epoch, zero before it. *)
  clock_ms : world → N * world;
  (** [Instant::now()], in nanoseconds. *)
  instant : world → N;
  sleep : N → world → world;
  (** [Command::new(p).args(l).stdin(null).output()]. *)
  run_process : string → list string → io world string Output;
  (** Calls that succeed or fail with an [io::Error], as its text. *)
  call : HostCall → io world string ();
  (** [fs::read_to_string(path).ok()]. *)
  read_file : string → world → option string;
  (** [PathFd::new(path).is_ok()]. *)
  opens : string → world → bool;
  (** [Ruleset::default().handle_access(..).create()] at an ABI, and the descriptor it ends
      as, if any. *)
  landlock_create : N → io world string N;
  landlock_into_fd : N → io world string (option N);
  dup_fd : N → io world string N;
  (** [SeccompFilter::new] and [BpfProgram::try_from]. *)
  compile_filter : RuleMap → TargetArch → result () string;
  (** The exec after the calls of the child: program, arguments, directory, environment;
      the id of the child. *)
  exec : string → list string → string → gmap string string → io world string N;
  (** [try_wait], [wait] and the killing of a process group. *)
  try_wait : N → io world string (option (option Z));
  wait : N → io world string (option Z);
  kill_group : N → world → world;
  (** The joins of the two drainer threads of a child: what they collected. They read until
      every process that holds the pipes has closed them; [None] where one never does. *)
  drained : N → world → option (string * string) * world
}.

Section calls.
Context `{Host}.

Definition now_ms {E} : io world E N := always clock_ms.

Definition env_or {E} (name default : string) : io world E string :=
  ask (λ w, match getenv name w with Some v => v | None => default end).

Definition child {E} (f : string → E) (c : ChildCall) : io world E () :=
  io_map_err f (call (HC_child c)).
End calls.

(** * Logs *)

Inductive Event : Type :=
  | Did (c : HostCall)
  | Failed_to (c : HostCall)
  | Executed (program : string) (args : list string) (dir : string) (env : gmap string string)
  | Ran (program : string) (args : list string)
  | Killed (pid : N).

Definition called (c : HostCall) (ok : bool) : Event := if ok then Did c else Failed_to c.

Class HostLog (H : Host) : Type := {
  log : world → list Event;
  log_clock w : log (clock_ms w).2 = log w;
  log_sleep n w : log (sleep n w) = log w;
  log_process p l w : log (run_process p l w).2 = log w ++ [Ran p l];
  log_call c w : log (call c w).2 = log w ++ [called c (is_ok (call c w).1)];
  log_landlock_create n w : log (landlock_create n w).2 = log w;
  log_landlock_into_fd n w : log (landlock_into_fd n w).2 = log w;
  log_dup n w : log (dup_fd n w).2 = log w;
  log_exec p l d e w :
    log (exec p l d e w).2
    = log w ++ (if is_ok (exec p l d e w).1 then [Executed p l d e] else []);
  log_try_wait p w : log (try_wait p w).2 = log w;
  log_wait p w : log (wait p w).2 = log w;
  log_kill p w : log (kill_group p w) = log w ++ [Killed p];
  log_drained p w : log (drained p w).2 = log w
}.

(** A monotonic clock: [thread::sleep] lasts at least as long as it is told. *)
Class HostClock (H : Host) : Prop := {
  instant_sleep n w : (instant w + n ≤ instant (sleep n w))%N;
  instant_try_wait p w : (instant w ≤ instant (try_wait p w).2)%N
}.
