(* ===== verification/Sandbox.v ===== *)
(** Sandbox: enforcement levels, the cgroup, Landlock and seccomp payload, the calls of the
    child between fork and exec, and the watchdog
    (src/components/jeryu-ci-runner/crates/jeryu-sandbox-linux/src).

    The probes of the host are not modelled: [SandboxCapabilities] is what they found. *)

From Stdlib Require Import Ascii ZArith.
From S2P Require Import Prelude Text Paths RunnerCore Seccomp Hosts.

(** * Capabilities and levels (capability.rs) *)

Record SandboxCapabilities : Type := {
  cap_user : bool; cap_mount : bool; cap_pid : bool; landlock_abi : option N;
  seccomp_bpf : bool; cgroup_v2_subtree : option string; no_new_privs : bool
}.

Inductive EnforcementLevel : Type :=
  | Enforced
  | Degraded (missing : list string)
  | Unavailable (why : string).

Definition EnforcementLevel_as_str (l : EnforcementLevel) : string :=
  match l with
  | Enforced => "enforced" | Degraded _ => "degraded" | Unavailable _ => "unavailable"
  end.

Definition is_none {A} (o : option A) : bool := match o with None => true | Some _ => false end.

(** [if condition { missing.push(name) }]. *)
Definition push_if (condition : bool) (name : string) (missing : list string) : list string :=
  if condition then missing ++ [name] else missing.

Definition enforcement_level (caps : SandboxCapabilities) (plan : SandboxPlan) :
    EnforcementLevel :=
  if negb (no_new_privs caps) then
    Unavailable "PR_SET_NO_NEW_PRIVS unavailable: cannot fail closed"
  else if require_cgroup plan && is_none (cgroup_v2_subtree caps) then
    Unavailable
      "cgroup limits required for this job but no delegated cgroup-v2 subtree is available"
  else
    let missing := push_if (is_none (cgroup_v2_subtree caps)) "cgroup_v2" [] in
    let missing := push_if (negb (bool_decide (landlock_rules plan = []))
                            && is_none (landlock_abi caps)) "landlock" missing in
    let missing := push_if (negb (seccomp_bpf caps)) "seccomp" missing in
    let missing := push_if (user_namespace plan && negb (cap_user caps)) "user_namespace" missing in
    let missing := push_if (mount_namespace plan && negb (cap_mount caps)) "mount_namespace" missing in
    let missing := push_if (pid_namespace plan && negb (cap_pid caps)) "pid_namespace" missing in
    match missing with [] => Enforced | _ => Degraded missing end.

Definition summary (caps : SandboxCapabilities) : string :=
  "userns=" +:+ show_bool (cap_user caps) +:+ " mountns=" +:+ show_bool (cap_mount caps)
  +:+ " pidns=" +:+ show_bool (cap_pid caps) +:+ " landlock="
  +:+ match landlock_abi caps with Some abi => "abi" +:+ show_N abi | None => "none" end
  +:+ " seccomp=" +:+ show_bool (seccomp_bpf caps) +:+ " cgroup_v2="
  +:+ show_bool (negb (is_none (cgroup_v2_subtree caps))) +:+ " no_new_privs="
  +:+ show_bool (no_new_privs caps).

(** * Reports (launch.rs, launch/report.rs) *)

Definition PRIMITIVES : list string :=
  ["no_new_privs"; "cgroup_v2"; "landlock"; "seccomp"; "user_namespace"; "mount_namespace";
   "pid_namespace"].

Definition classify (level : EnforcementLevel) : list string * list string :=
  match level with
  | Enforced => (PRIMITIVES, [])
  | Unavailable _ => ([], PRIMITIVES)
  | Degraded missing => (filter (λ s, s ∉ missing) PRIMITIVES, missing)
  end.

Record EnforcementReport : Type := {
  level : string; applied : list string; skipped : list string;
  proc_no_new_privs : option N; proc_seccomp : option N
}.

(** [format!("\"{}\"", s.replace('"', "\\\""))]. *)
Definition quote_name (s : string) : string :=
  String quote_byte
    (replace_char quote_byte (String backslash_byte (String quote_byte "")) s
     +:+ String quote_byte "").

Definition opt_number (o : option N) (none : string) : string :=
  match o with Some n => show_N n | None => none end.

Definition EnforcementReport_to_json (r : EnforcementReport) : string :=
  "{" +:+ join ","
    [field "level" (String quote_byte (level r +:+ String quote_byte ""));
     field "applied" ("[" +:+ join "," (map quote_name (applied r)) +:+ "]");
     field "skipped" ("[" +:+ join "," (map quote_name (skipped r)) +:+ "]");
     field "proc_no_new_privs" (opt_number (proc_no_new_privs r) "null");
     field "proc_seccomp" (opt_number (proc_seccomp r) "null")]
  +:+ "}".

(** The number of the first line with the name that has one. *)
Definition status_field (status name : string) : option N :=
  head (omap (λ line,
    match strip_prefix name line with
    | Some rest => parse_uint 255 (trim (trim_start_char ":"%char rest))
    | None => None
    end) (lines status)).

Definition verify_enforcement `{Host} {E} (pid : N) (l : EnforcementLevel) :
    io world E EnforcementReport :=
  let '(yes, no) := classify l in
  status ← ask (λ w, match read_file ("/proc/" +:+ show_N pid +:+ "/status") w with
                     | Some s => s | None => "" end);
  mret {| level := EnforcementLevel_as_str l; applied := yes; skipped := no;
          proc_no_new_privs := status_field status "NoNewPrivs";
          proc_seccomp := status_field status "Seccomp" |}.

(** * Errors (launch.rs) *)

Record SandboxError : Type := { sb_code : string; sb_message : string }.

Definition SandboxError_new (c m : string) : SandboxError := {| sb_code := c; sb_message := m |}.

Definition SandboxError_to_string (e : SandboxError) : string := sb_code e +:+ ": " +:+ sb_message e.

Section sandbox.
Context `{Host}.

(** * Control groups (launch/cgroup.rs) *)

Definition enable_cgroup_controller (parent controller : string) (require : bool)
    (strict_code : string) (write_file : string → string → io world string ()) :
    io world SandboxError () :=
  let path := path_join parent "cgroup.subtree_control" in
  r ← attempt (write_file path ("+" +:+ controller));
  match r with
  | Ok _ => mret tt
  | Err err =>
      if require
      then fail (SandboxError_new strict_code
                   ("failed to enable cgroup controller " +:+ controller +:+ " at " +:+ path
                    +:+ ": " +:+ err))
      else mret tt
  end.

Definition write_cgroup_limit (dir filename data : string) (require : bool)
    (strict_code : string) (write_file : string → string → io world string ()) :
    io world SandboxError () :=
  let path := path_join dir filename in
  r ← attempt (write_file path data);
  match r with
  | Ok _ => mret tt
  | Err err =>
      if require
      then fail (SandboxError_new strict_code
                   ("failed to write cgroup limit " +:+ filename +:+ " at " +:+ path
                    +:+ ": " +:+ err))
      else mret tt
  end.

(** [if let Err(err) = limit { remove_dir(dir); return Err(err) }]. *)
Definition or_remove (dir : string) (c : io world SandboxError ()) : io world SandboxError () :=
  r ← attempt c;
  match r with
  | Ok _ => mret tt
  | Err err => _ ← attempt (call (HC_remove_dir dir)); fail err
  end.

Definition clamp (lo hi n : N) : N := N.min (N.max n lo) hi.

Definition create_cgroup_with_writer (parent : string) (limits : CgroupLimits) (require : bool)
    (write_file : string → string → io world string ()) : io world SandboxError string :=
  _ ← enable_cgroup_controller parent "memory" require
        "cgroup_memory_controller_enable_failed" write_file;
  _ ← enable_cgroup_controller parent "pids" require
        "cgroup_pids_controller_enable_failed" write_file;
  _ ← attempt (write_file (path_join parent "cgroup.subtree_control") "+cpu");
  now ← now_ms;
  let dir := path_join parent ("jeryu-job-" +:+ show_N now +:+ ".scope") in
  _ ← io_map_err (SandboxError_new "cgroup_create_failed") (call (HC_create_dir dir));
  _ ← or_remove dir
        (write_cgroup_limit dir "memory.max" (show_N (memory_max_bytes limits)) require
           "cgroup_memory_max_write_failed" write_file);
  _ ← or_remove dir
        (write_cgroup_limit dir "pids.max" (show_N (pids_max limits)) require
           "cgroup_pids_max_write_failed" write_file);
  _ ← attempt (E := string)
        (write_file (path_join dir "cpu.weight") (show_N (clamp 1 10000 (cpu_weight limits))));
  mret (path_join dir "cgroup.procs").

Definition create_cgroup (parent : string) (limits : CgroupLimits) (require : bool) :
    io world SandboxError string :=
  create_cgroup_with_writer parent limits require (λ path data, call (HC_write path data)).

(** * The payload (launch/internals.rs) *)

Record SandboxPayload : Type := {
  cgroup_procs : option string; apply_user_ns : bool; apply_mount_ns : bool;
  apply_pid_ns : bool; landlock : option N; seccomp_filter : option RuleMap;
  pty_slave_fd : option N; rlimit_memory : N
}.

Definition landlock_version (requested : N) : N :=
  if ((1 <=? requested) && (requested <=? 5))%N then requested else 6.

(** The rights of a rule: [from_read] of the landlock crate bundles execute. *)
Definition rule_access (abi : N) (r : LandlockRule) : Access :=
  let granted := {| acc_read := read r; acc_write := write r; acc_execute := read r |} in
  if execute r && (2 <=? abi)%N then
    {| acc_read := acc_read granted; acc_write := acc_write granted; acc_execute := true |}
  else if negb (execute r) then
    {| acc_read := acc_read granted; acc_write := acc_write granted; acc_execute := false |}
  else granted.

Definition no_access (a : Access) : bool := negb (acc_read a || acc_write a || acc_execute a).

Definition rule_target (ws : string) (r : LandlockRule) : string :=
  if is_absolute (rule_path r) then rule_path r else path_join ws (rule_path r).

Fixpoint add_landlock_rules (fd abi : N) (ws : string) (rules : list LandlockRule) :
    io world string () :=
  match rules with
  | [] => mret tt
  | r :: rules =>
      let access := rule_access abi r in
      if no_access access then add_landlock_rules fd abi ws rules
      else
        let path := rule_target ws r in
        there ← ask (opens path);
        if negb there then add_landlock_rules fd abi ws rules
        else
          _ ← call (HC_landlock_add fd path access);
          add_landlock_rules fd abi ws rules
  end.

Definition prepare_landlock (rules : list LandlockRule) (requested : N) (ws : string) :
    io world string N :=
  let abi := landlock_version requested in
  fd ← landlock_create abi;
  _ ← add_landlock_rules fd abi ws rules;
  descriptor ← landlock_into_fd fd;
  match descriptor with
  | None => fail "Landlock capability did not produce a kernel ruleset"
  | Some fd => if (fd <? 3)%N then dup_fd fd else mret fd
  end.

Definition target_arch (arch : string) : option TargetArch :=
  if bool_decide (arch = "x86_64") then Some X86_64
  else if bool_decide (arch = "aarch64") then Some Aarch64
  else if bool_decide (arch = "riscv64") then Some Riscv64 else None.

(** The program is represented by the map it is compiled from. *)
Definition compile_seccomp (plan : SandboxPlan) : result RuleMap string :=
  match target_arch host_arch with
  | None => Err ("unsupported arch for seccomp: " +:+ host_arch)
  | Some arch =>
      let rules := build_rules (allow_groups (seccomp plan)) arch in
      match compile_filter rules arch with Ok _ => Ok rules | Err e => Err e end
  end.

Definition build_payload (plan : SandboxPlan) (caps : SandboxCapabilities) (ws : string) :
    io world SandboxError SandboxPayload :=
  ll ← (match landlock_abi caps with
        | Some abi =>
            if bool_decide (landlock_rules plan = []) then mret None
            else
              fd ← io_map_err (SandboxError_new "landlock_prepare_failed")
                     (prepare_landlock (landlock_rules plan) abi ws);
              mret (Some fd)
        | None => mret None
        end);
  filter ← (if seccomp_bpf caps then
              rules ← from_result (map_err (SandboxError_new "seccomp_compile_failed")
                                     (compile_seccomp plan));
              mret (Some rules)
            else mret None);
  procs ← (match cgroup_v2_subtree caps with
           | Some parent =>
               p ← create_cgroup parent (cgroup_limits plan) (require_cgroup plan);
               mret (Some p)
           | None => mret None
           end);
  mret {| cgroup_procs := procs; apply_user_ns := user_namespace plan && cap_user caps;
          apply_mount_ns := mount_namespace plan && cap_mount caps;
          apply_pid_ns := pid_namespace plan && cap_pid caps; landlock := ll;
          seccomp_filter := filter; pty_slave_fd := None;
          rlimit_memory := memory_max_bytes (cgroup_limits plan) |}.

(** * The child (launch/internals.rs, launch/pty.rs) *)

Definition child_call (c : ChildCall) : io world string () := call (HC_child c).

Definition wire_pty_slave (slave : N) : io world string () :=
  _ ← child_call (CC_tiocsctty slave);
  _ ← child_call (CC_dup2 slave 0);
  _ ← child_call (CC_dup2 slave 1);
  _ ← child_call (CC_dup2 slave 2);
  when (2 <? slave)%N (_ ← attempt (child_call (CC_close slave)); mret tt).

Definition apply_rlimit_fallback (memory : N) : io world string () :=
  let limit := (memory * 4)%N in
  when ((limit <=? u64_max) && (0 <? limit))%N
    (_ ← attempt (child_call (CC_rlimit_as limit)); mret tt).

(** [if let Some(x) = o { f(x)? }]. *)
Definition if_some {A} (o : option A) (f : A → io world string ()) : io world string () :=
  match o with Some a => f a | None => mret tt end.

Definition apply_in_child (p : SandboxPayload) : io world string () :=
  _ ← child_call (match pty_slave_fd p with Some _ => CC_setsid | None => CC_setpgid end);
  _ ← if_some (pty_slave_fd p) wire_pty_slave;
  _ ← if_some (cgroup_procs p) (λ procs, child_call (CC_join_cgroup procs));
  _ ← apply_rlimit_fallback (rlimit_memory p);
  _ ← child_call CC_no_new_privs;
  _ ← when (apply_user_ns p || apply_mount_ns p || apply_pid_ns p)
        (child_call (CC_unshare (apply_user_ns p) (apply_mount_ns p) (apply_pid_ns p)));
  _ ← if_some (landlock p) (λ fd, child_call (CC_landlock fd));
  if_some (seccomp_filter p) (λ rules, child_call (CC_seccomp rules)).

(** * Spawning (launch.rs) *)

Inductive ChildIo : Type := Piped | Pty (slave_fd : N).

Definition with_pty (p : SandboxPayload) (slave : N) : SandboxPayload :=
  {| cgroup_procs := cgroup_procs p; apply_user_ns := apply_user_ns p;
     apply_mount_ns := apply_mount_ns p; apply_pid_ns := apply_pid_ns p;
     landlock := landlock p; seccomp_filter := seccomp_filter p; pty_slave_fd := Some slave;
     rlimit_memory := rlimit_memory p |}.

(** [Path::parent] of a path whose last component is a name. *)
Fixpoint before_last (c : Ascii.ascii) (s : string) : option string :=
  match s with
  | "" => None
  | String d s =>
      match before_last c s with
      | Some p => Some (String d p)
      | None => if Ascii.eqb c d then Some "" else None
      end
  end.

(** [cmd.spawn()] with its [pre_exec], and what follows it. *)
Definition start_child (job : JobRequest) (payload : SandboxPayload) (cleanup : option string)
    (environment : gmap string string) : io world SandboxError N :=
  spawned ← attempt (_ ← apply_in_child payload;
                     exec (command job) (args job) (workspace job) environment);
  match spawned with
  | Ok pid => mret pid
  | Err err =>
      _ ← (match cleanup ≫= before_last "/"%char with
           | Some dir => _ ← attempt (call (HC_remove_dir dir)); mret tt
           | None => mret tt
           end);
      fail (SandboxError_new "process_start_failed"
              (err +:+ " (sandbox setup may have failed closed)"))
  end.

Definition wire_io (kind : ChildIo) (p : SandboxPayload) : SandboxPayload :=
  match kind with Piped => p | Pty slave => with_pty p slave end.

Definition spawn_sandboxed_with_io (job : JobRequest) (plan : SandboxPlan)
    (caps : SandboxCapabilities) (environment : gmap string string) (kind : ChildIo) :
    io world SandboxError N :=
  _ ← (match enforcement_level caps plan with
       | Unavailable why => fail (SandboxError_new "sandbox_unavailable" why)
       | _ => mret tt
       end);
  payload ← build_payload plan caps (workspace job);
  start_child job (wire_io kind payload) (cgroup_procs payload) environment.

Definition spawn_sandboxed (job : JobRequest) (plan : SandboxPlan) (caps : SandboxCapabilities)
    (environment : gmap string string) : io world SandboxError N :=
  spawn_sandboxed_with_io job plan caps environment Piped.

(** * The watchdog (watchdog.rs)

    Durations are nanoseconds. *)

Record WatchdogOutcome : Type := {
  wd_stdout : string; wd_stderr : string; wd_exit_code : option Z; timed_out : bool;
  elapsed : N
}.

Definition millis (n : N) : N := (n * 1000000)%N.

Definition poll_interval (spent timeout : N) : N :=
  N.max (N.min (saturating_sub timeout spent) (millis 25)) (millis 1).

(** The loop; [None] when the fuel is spent. *)
Fixpoint watch (fuel : nat) (pid timeout started : N) :
    io world string (option (option Z * bool)) :=
  match fuel with
  | O => mret None
  | S fuel =>
      done_ ← try_wait pid;
      match done_ with
      | Some code => mret (Some (code, false))
      | None =>
          spent ← ask (λ w, saturating_sub (instant w) started);
          if (timeout <=? spent)%N then
            _ ← always (λ w, (tt, kill_group pid w));
            code ← wait pid;
            mret (Some (code, true))
          else
            spent ← ask (λ w, saturating_sub (instant w) started);
            _ ← always (λ w, (tt, sleep (poll_interval spent timeout) w));
            watch fuel pid timeout started
      end
  end.

(** One turn per millisecond of the budget, one more, and the last one. *)
Definition watch_fuel (timeout : N) : nat := 2 + N.to_nat (timeout / millis 1).

(** The output is collected after the loop, under no budget: [None] where a process that left
    the group, or whose parent exited in time, holds a pipe open for ever. *)
Definition run_with_watchdog (pid timeout : N) : io world string (option WatchdogOutcome) :=
  started ← ask instant;
  r ← watch (watch_fuel timeout) pid timeout started;
  match r with
  | None => mret None
  | Some (code, late) =>
      out ← always (drained pid);
      match out with
      | None => mret None
      | Some (stdout, stderr) =>
          now ← ask instant;
          mret (Some {| wd_stdout := stdout; wd_stderr := stderr; wd_exit_code := code;
                        timed_out := late; elapsed := saturating_sub now started |})
      end
  end.

End sandbox.
