(* ===== verification/SandboxLaws.v ===== *)
(** SandboxLaws: the levels are honest, a launch fails closed, the strict cgroup binds, and
    the watchdog ends. *)

From Stdlib Require Import Ascii ZArith.
From S2P Require Import Prelude Text Paths RunnerCore Seccomp Hosts Sandbox.

(** * Levels *)

(** One answer per primitive that may be missing, under its name. *)
Definition named (cg ll sc us mn pd : bool) (name : string) : bool :=
  if bool_decide (name = "cgroup_v2") then cg
  else if bool_decide (name = "landlock") then ll
  else if bool_decide (name = "seccomp") then sc
  else if bool_decide (name = "user_namespace") then us
  else if bool_decide (name = "mount_namespace") then mn
  else if bool_decide (name = "pid_namespace") then pd
  else false.

(** What the plan asks for and the host does not have. *)
Definition lacks (caps : SandboxCapabilities) (plan : SandboxPlan) : string → bool :=
  named (is_none (cgroup_v2_subtree caps))
    (negb (bool_decide (landlock_rules plan = [])) && is_none (landlock_abi caps))
    (negb (seccomp_bpf caps)) (user_namespace plan && negb (cap_user caps))
    (mount_namespace plan && negb (cap_mount caps))
    (pid_namespace plan && negb (cap_pid caps)).

Definition level_of (missing : list string) : EnforcementLevel :=
  match missing with [] => Enforced | _ => Degraded missing end.

Lemma missing_classified cg ll sc us mn pd :
  let missing :=
    push_if pd "pid_namespace" (push_if mn "mount_namespace" (push_if us "user_namespace"
      (push_if sc "seccomp" (push_if ll "landlock" (push_if cg "cgroup_v2" []))))) in
  classify (level_of missing)
    = (List.filter (λ s, negb (named cg ll sc us mn pd s)) PRIMITIVES,
       List.filter (named cg ll sc us mn pd) PRIMITIVES)
  ∧ (level_of missing = Enforced ↔ ∀ s, named cg ll sc us mn pd s = false)
  ∧ ∀ why, level_of missing ≠ Unavailable why.
Proof.
  destruct cg, ll, sc, us, mn, pd; (split; [vm_compute; reflexivity|split; [|done]]).
  all: split; [first [done|intros _ s; unfold named; by repeat case_bool_decide]|intros Hs].
  all: first [done|discriminate (Hs "cgroup_v2")|discriminate (Hs "landlock")
             |discriminate (Hs "seccomp")|discriminate (Hs "user_namespace")
             |discriminate (Hs "mount_namespace")|discriminate (Hs "pid_namespace")].
Qed.

(** What a host must have for a plan to run at all. *)
Definition can_fail_closed (caps : SandboxCapabilities) (plan : SandboxPlan) : bool :=
  no_new_privs caps && (negb (require_cgroup plan) || negb (is_none (cgroup_v2_subtree caps))).

(** The level of a plan, in terms of what it asks for and the host lacks. *)
Lemma enforcement_cases caps plan :
  match enforcement_level caps plan with
  | Unavailable _ => can_fail_closed caps plan = false
  | l =>
      can_fail_closed caps plan = true
      ∧ classify l = (List.filter (λ s, negb (lacks caps plan s)) PRIMITIVES,
                      List.filter (lacks caps plan) PRIMITIVES)
      ∧ (l = Enforced ↔ ∀ s, lacks caps plan s = false)
  end.
Proof.
  unfold enforcement_level, can_fail_closed.
  destruct (no_new_privs caps); cbn [negb andb]; [|done].
  destruct (require_cgroup plan && is_none (cgroup_v2_subtree caps)) eqn:Hr.
  - apply andb_true_iff in Hr as [-> ->]. done.
  - destruct (missing_classified (is_none (cgroup_v2_subtree caps))
      (negb (bool_decide (landlock_rules plan = [])) && is_none (landlock_abi caps))
      (negb (seccomp_bpf caps)) (user_namespace plan && negb (cap_user caps))
      (mount_namespace plan && negb (cap_mount caps))
      (pid_namespace plan && negb (cap_pid caps))) as (Hc & He & Hu).
    unfold level_of in *.
    destruct (push_if _ _ _) as [|x l]; split_and!; try done.
    all: apply andb_false_iff in Hr as [-> | ->]; [done|by rewrite orb_true_r].
Qed.

(** * What programs leave in the log *)

Definition no_exec (e : Event) : Prop :=
  match e with Executed _ _ _ _ => False | _ => True end.

Section logs.
Context {H : Host} {HL : HostLog H}.

(** A program that starts nothing. *)
Definition quiet {E A} (c : io world E A) : Prop :=
  ∀ w, ∃ evs, log (c w).2 = log w ++ evs ∧ Forall no_exec evs.

(** The given calls were made between two worlds, in order, and nothing was started. *)
Definition did (w w' : world) (calls : list HostCall) : Prop :=
  ∃ evs, log w' = log w ++ evs ∧ map Did calls `sublist_of` evs ∧ Forall no_exec evs.

(** When it succeeds, a program has made the given calls. *)
Definition does {E A} (c : io world E A) (calls : list HostCall) : Prop :=
  ∀ w a w', c w = (Ok a, w') → did w w' calls.

Lemma did_trans w1 w2 w3 ks1 ks2 : did w1 w2 ks1 → did w2 w3 ks2 → did w1 w3 (ks1 ++ ks2).
Proof.
  intros (e1 & Hl1 & Hs1 & Hn1) (e2 & Hl2 & Hs2 & Hn2). exists (e1 ++ e2).
  rewrite Hl2, Hl1, map_app, app_assoc. split_and!; [done|by apply sublist_app|by apply Forall_app].
Qed.

Lemma quiet_did {E A} (c : io world E A) w r w' : quiet c → c w = (r, w') → did w w' [].
Proof.
  intros Hc Hw. destruct (Hc w) as (evs & Hl & Hn). rewrite Hw in Hl. exists evs.
  split_and!; [done|apply sublist_nil_l|done].
Qed.

Lemma quiet_ret {E A} (a : A) : quiet (mret a : io world E A).
Proof. intros w. exists []. by rewrite app_nil_r. Qed.

Lemma quiet_fail {E A} (e : E) : quiet (fail e : io world E A).
Proof. intros w. exists []. by rewrite app_nil_r. Qed.

Lemma quiet_result {E A} (r : result A E) : quiet (from_result r : io world E A).
Proof. intros w. exists []. by rewrite app_nil_r. Qed.

Lemma quiet_ask {E A} (f : world → A) : quiet (ask f : io world E A).
Proof. intros w. exists []. by rewrite app_nil_r. Qed.

Lemma quiet_now {E} : quiet (now_ms : io world E N).
Proof.
  intros w. exists []. rewrite app_nil_r. unfold now_ms, always.
  pose proof (log_clock w). by destruct (clock_ms w).
Qed.

Lemma quiet_call c : quiet (call c).
Proof. intros w. eexists. split; [apply log_call|]. by destruct (is_ok _); repeat constructor. Qed.

Lemma quiet_bind {E A B} (c : io world E A) (f : A → io world E B) :
  quiet c → (∀ a, quiet (f a)) → quiet (c ≫= f).
Proof.
  intros Hc Hf w. destruct (Hc w) as (evs & Hl & Hn). unfold mbind, io_bind.
  destruct (c w) as [[a|e] w1]; cbn in *; [|by exists evs].
  destruct (Hf a w1) as (evs' & Hl' & Hn'). exists (evs ++ evs').
  rewrite Hl', Hl, app_assoc. split; [done|by apply Forall_app].
Qed.

Lemma quiet_attempt {E F A} (c : io world E A) :
  quiet c → quiet (attempt c : io world F (result A E)).
Proof. intros Hc w. destruct (Hc w) as (evs & Hl & Hn). exists evs. unfold attempt. by destruct (c w). Qed.

Lemma quiet_map_err {E F A} (f : E → F) (c : io world E A) : quiet c → quiet (io_map_err f c).
Proof. intros Hc w. destruct (Hc w) as (evs & Hl & Hn). exists evs. unfold io_map_err. by destruct (c w). Qed.

Lemma quiet_when {E} b (c : io world E ()) : quiet c → quiet (when b c).
Proof. destruct b; [done|]. intros _. apply quiet_ret. Qed.

Lemma quiet_if_some {A} (o : option A) f : (∀ a, quiet (f a)) → quiet (if_some o f).
Proof. destruct o; cbn; [done|]. intros _. apply quiet_ret. Qed.

Lemma quiet_create n : quiet (landlock_create n).
Proof. intros w. exists []. rewrite app_nil_r. by rewrite log_landlock_create. Qed.

Lemma quiet_into_fd n : quiet (landlock_into_fd n).
Proof. intros w. exists []. rewrite app_nil_r. by rewrite log_landlock_into_fd. Qed.

Lemma quiet_dup n : quiet (dup_fd n).
Proof. intros w. exists []. rewrite app_nil_r. by rewrite log_dup. Qed.

Lemma does_nothing {E A} (c : io world E A) : quiet c → does c [].
Proof. intros Hc w a w' Hw. by eapply quiet_did. Qed.

Lemma does_call c : does (call c) [c].
Proof.
  intros w a w' Hw. exists [Did c]. pose proof (log_call c w) as Hl. rewrite Hw in Hl.
  split_and!; [done..|by repeat constructor].
Qed.

Lemma does_bind {E A B} (c : io world E A) (f : A → io world E B) ks1 ks2 :
  does c ks1 → (∀ a, does (f a) ks2) → does (c ≫= f) (ks1 ++ ks2).
Proof.
  intros Hc Hf w b w'. unfold mbind, io_bind. destruct (c w) as [[a|] w1] eqn:Hw; [|done].
  intros Hw'. eapply did_trans; [by eapply Hc|by eapply Hf].
Qed.

Lemma does_map_err {E F A} (f : E → F) (c : io world E A) ks :
  does c ks → does (io_map_err f c) ks.
Proof.
  intros Hc w a w'. unfold io_map_err. destruct (c w) as [[a0|] w1] eqn:Hw; [|done].
  intros [= <- <-]. by eapply Hc.
Qed.

Lemma does_when {E} b (c : io world E ()) ks : does c ks → does (when b c) (if b then ks else []).
Proof. destruct b; [done|]. intros _. apply does_nothing, quiet_ret. Qed.

Lemma does_if_some {A} (o : option A) f (k : A → HostCall) :
  (∀ a, does (f a) [k a]) → does (if_some o f) (option_list (k <$> o)).
Proof. destruct o; cbn; [done|]. intros _. apply does_nothing, quiet_ret. Qed.
End logs.

Create HintDb quiet.
#[export] Hint Resolve quiet_ret quiet_fail quiet_result quiet_ask quiet_now quiet_call
  quiet_bind quiet_attempt quiet_map_err quiet_when quiet_if_some quiet_create quiet_into_fd
  quiet_dup : quiet.

Ltac quiet_steps :=
  repeat first
    [ apply quiet_bind; [|intros ?]
    | apply quiet_attempt | apply quiet_map_err | apply quiet_when
    | apply quiet_if_some; intros ?
    | solve [auto with quiet]
    | match goal with |- quiet (match ?x with _ => _ end) => destruct x end ].

Section launch.
Context {H : Host} {HL : HostLog H}.

(** * The cgroup *)

Lemma quiet_cgroup parent limits require : quiet (create_cgroup parent limits require).
Proof.
  unfold create_cgroup, create_cgroup_with_writer, enable_cgroup_controller, or_remove,
    write_cgroup_limit. quiet_steps.
Qed.

Definition writes_strictly (parent dir : string) (limits : CgroupLimits) : list HostCall :=
  [HC_write (path_join parent "cgroup.subtree_control") "+memory";
   HC_write (path_join parent "cgroup.subtree_control") "+pids";
   HC_create_dir dir;
   HC_write (path_join dir "memory.max") (show_N (memory_max_bytes limits));
   HC_write (path_join dir "pids.max") (show_N (pids_max limits))].

Lemma enable_does parent controller code :
  does (enable_cgroup_controller parent controller true code
          (λ path data, call (HC_write path data)))
    [HC_write (path_join parent "cgroup.subtree_control") ("+" +:+ controller)].
Proof.
  intros w [] w'. unfold enable_cgroup_controller, mbind, io_bind, attempt.
  destruct (call _ w) as [[[]|] w1] eqn:Hc; [|done]. intros [= <-]. by eapply does_call.
Qed.

Lemma limit_does dir filename data code :
  does (or_remove dir (write_cgroup_limit dir filename data true code
                         (λ path data, call (HC_write path data))))
    [HC_write (path_join dir filename) data].
Proof.
  intros w [] w'. unfold or_remove, write_cgroup_limit, mbind, io_bind, attempt.
  destruct (call (HC_write _ _) w) as [[[]|] w1] eqn:Hc; cbn.
  - intros [= <-]. by eapply does_call.
  - by destruct (call (HC_remove_dir dir) w1).
Qed.

Lemma attempt_never {E F A} (c : io world E A) w (e : F) w' : attempt c w ≠ (Err e, w').
Proof. unfold attempt. by destruct (c w). Qed.

Lemma enable_lenient parent controller code write w e w' :
  enable_cgroup_controller parent controller false code write w ≠ (Err e, w').
Proof.
  unfold enable_cgroup_controller, mbind, io_bind, attempt.
  by destruct (write _ _ w) as [[]].
Qed.

Lemma limit_lenient dir filename data code write w e w' :
  or_remove dir (write_cgroup_limit dir filename data false code write) w ≠ (Err e, w').
Proof.
  unfold or_remove, write_cgroup_limit, mbind, io_bind, attempt.
  by destruct (write _ _ w) as [[]].
Qed.

(** A cgroup that must bind does. If the control group of a plan that requires one is
    set up, then its memory and process controllers were enabled, its directory made, and
    both limits written, in that order; if it is not required, setting it up fails only when
    the directory can not be made. *)
Theorem strict_cgroup_binds parent limits w :
  (∀ procs w', create_cgroup parent limits true w = (Ok procs, w') →
     ∃ dir evs, procs = path_join dir "cgroup.procs" ∧ log w' = log w ++ evs
       ∧ map Did (writes_strictly parent dir limits) `sublist_of` evs)
  ∧ (∀ e w', create_cgroup parent limits false w = (Err e, w') →
       sb_code e = "cgroup_create_failed").
Proof.
  split.
  - intros procs w' Hw. unfold create_cgroup, create_cgroup_with_writer in Hw.
    apply io_bind_Ok in Hw as ([] & w1 & H1%enable_does & Hw).
    apply io_bind_Ok in Hw as ([] & w2 & H2%enable_does & Hw).
    apply io_bind_Ok in Hw as (r & w3 & H3 & Hw).
    apply quiet_did in H3; [|auto with quiet].
    apply io_bind_Ok in Hw as (now & w4 & H4 & Hw). apply quiet_did in H4; [|auto with quiet].
    apply io_bind_Ok in Hw as ([] & w5 & H5 & Hw).
    apply (does_map_err _ _ _ (does_call _)) in H5.
    apply io_bind_Ok in Hw as ([] & w6 & H6%limit_does & Hw).
    apply io_bind_Ok in Hw as ([] & w7 & H7%limit_does & Hw).
    apply io_bind_Ok in Hw as (r' & w8 & H8 & Hw). apply quiet_did in H8; [|auto with quiet].
    injection Hw as <- <-. eexists.
    destruct (did_trans _ _ _ _ _ H1 (did_trans _ _ _ _ _ H2 (did_trans _ _ _ _ _ H3
      (did_trans _ _ _ _ _ H4 (did_trans _ _ _ _ _ H5 (did_trans _ _ _ _ _ H6
        (did_trans _ _ _ _ _ H7 H8))))))) as (evs & Hl & Hs & _).
    exists evs. split_and!; [done|done|exact Hs].
  - intros e w' Hw. unfold create_cgroup, create_cgroup_with_writer in Hw.
    apply io_bind_Err in Hw as [Hw|([] & w1 & _ & Hw)]; [by apply enable_lenient in Hw|].
    apply io_bind_Err in Hw as [Hw|([] & w2 & _ & Hw)]; [by apply enable_lenient in Hw|].
    apply io_bind_Err in Hw as [Hw|(r & w3 & _ & Hw)]; [by apply attempt_never in Hw|].
    apply io_bind_Err in Hw as [Hw|(now & w4 & _ & Hw)];
      [revert Hw; unfold now_ms, always; by destruct (clock_ms w3)|].
    apply io_bind_Err in Hw as [Hw|([] & w5 & _ & Hw)].
    + revert Hw. unfold io_map_err. destruct (call _ w4) as [[]]; [done|]. by intros [= <- _].
    + apply io_bind_Err in Hw as [Hw|([] & w6 & _ & Hw)]; [by apply limit_lenient in Hw|].
      apply io_bind_Err in Hw as [Hw|([] & w7 & _ & Hw)]; [by apply limit_lenient in Hw|].
      apply io_bind_Err in Hw as [Hw|(r' & w8 & _ & Hw)]; [by apply attempt_never in Hw|done].
Qed.

(** * The launch *)

Lemma quiet_add_rules fd abi ws rules : quiet (add_landlock_rules fd abi ws rules).
Proof.
  induction rules as [|r rules IH]; cbn; [auto with quiet|]. destruct (no_access _); [done|].
  apply quiet_bind; [auto with quiet|intros []; cbn; [|done]]. quiet_steps.
Qed.

Lemma quiet_landlock rules abi ws : quiet (prepare_landlock rules abi ws).
Proof.
  unfold prepare_landlock. apply quiet_bind; [auto with quiet|intros fd].
  apply quiet_bind; [apply quiet_add_rules|intros _]. quiet_steps.
Qed.

Lemma quiet_payload plan caps ws : quiet (build_payload plan caps ws).
Proof.
  unfold build_payload. apply quiet_bind.
  { destruct (landlock_abi caps); [|auto with quiet]. case_bool_decide; [auto with quiet|].
    apply quiet_bind; [apply quiet_map_err, quiet_landlock|auto with quiet]. }
  intros ll. apply quiet_bind; [quiet_steps|intros filter]. apply quiet_bind; [|auto with quiet].
  destruct (cgroup_v2_subtree caps); [|auto with quiet].
  apply quiet_bind; [apply quiet_cgroup|auto with quiet].
Qed.

Lemma quiet_wire slave : quiet (wire_pty_slave slave).
Proof. unfold wire_pty_slave, child_call. quiet_steps. Qed.

Lemma quiet_rlimit memory : quiet (apply_rlimit_fallback memory).
Proof. unfold apply_rlimit_fallback, child_call. quiet_steps. Qed.

Lemma quiet_child p : quiet (apply_in_child p).
Proof.
  unfold apply_in_child, child_call. apply quiet_bind; [auto with quiet|intros _].
  apply quiet_bind; [apply quiet_if_some, quiet_wire|intros _].
  apply quiet_bind; [quiet_steps|intros _].
  apply quiet_bind; [apply quiet_rlimit|intros _]. quiet_steps.
Qed.

(** What confines the child of a payload, in the order of its calls. *)
Definition confinement (p : SandboxPayload) : list ChildCall :=
  [match pty_slave_fd p with Some _ => CC_setsid | None => CC_setpgid end]
  ++ option_list (CC_join_cgroup <$> cgroup_procs p)
  ++ [CC_no_new_privs]
  ++ (if apply_user_ns p || apply_mount_ns p || apply_pid_ns p
      then [CC_unshare (apply_user_ns p) (apply_mount_ns p) (apply_pid_ns p)] else [])
  ++ option_list (CC_landlock <$> landlock p)
  ++ option_list (CC_seccomp <$> seccomp_filter p).

Lemma child_does p : does (apply_in_child p) (map HC_child (confinement p)).
Proof.
  unfold confinement. rewrite !map_app. unfold apply_in_child, child_call.
  apply does_bind; [apply does_call|intros _].
  apply (does_bind _ _ []); [apply does_nothing, quiet_if_some, quiet_wire|intros _].
  apply does_bind; [|intros _].
  { replace (map _ _) with (option_list (HC_child ∘ CC_join_cgroup <$> cgroup_procs p))
      by (by destruct (cgroup_procs p)). apply does_if_some. intros. apply does_call. }
  apply (does_bind _ _ []); [apply does_nothing, quiet_rlimit|intros _].
  apply (does_bind _ _ [_]); [apply does_call|intros _]. apply does_bind; [|intros _].
  { destruct (_ || _); cbn; [apply does_call|apply does_nothing; auto with quiet]. }
  apply does_bind; [|intros _].
  - replace (map _ _) with (option_list (HC_child ∘ CC_landlock <$> landlock p))
      by (by destruct (landlock p)). apply does_if_some. intros. apply does_call.
  - replace (map _ _) with (option_list (HC_child ∘ CC_seccomp <$> seccomp_filter p))
      by (by destruct (seccomp_filter p)). apply does_if_some. intros. apply does_call.
Qed.

(** The payload holds every primitive the plan asks for and the host has. *)
Record payload_for (plan : SandboxPlan) (caps : SandboxCapabilities) (p : SandboxPayload) : Prop := {
  pf_namespaces :
    (apply_user_ns p, apply_mount_ns p, apply_pid_ns p)
    = (user_namespace plan && cap_user caps, mount_namespace plan && cap_mount caps,
       pid_namespace plan && cap_pid caps);
  pf_landlock : landlock_rules plan ≠ [] → is_Some (landlock_abi caps) → is_Some (landlock p);
  pf_seccomp : seccomp_bpf caps = true →
    ∃ arch, target_arch host_arch = Some arch
      ∧ seccomp_filter p = Some (build_rules (allow_groups (seccomp plan)) arch);
  pf_cgroup : is_Some (cgroup_v2_subtree caps) → is_Some (cgroup_procs p)
}.

Lemma payload_ok plan caps ws w p w' :
  build_payload plan caps ws w = (Ok p, w') → payload_for plan caps p.
Proof.
  unfold build_payload. intros Hw.
  apply io_bind_Ok in Hw as (ll & w1 & Hl & Hw).
  apply io_bind_Ok in Hw as (filter & w2 & Hf & Hw).
  apply io_bind_Ok in Hw as (procs & w3 & Hc & Hw). injection Hw as <- <-.
  split; cbn; [done| | |].
  - intros Hr [abi Ha]. rewrite Ha, bool_decide_false in Hl by done.
    apply io_bind_Ok in Hl as (fd & w1' & _ & Hl). injection Hl as <- _. by eexists.
  - intros Hb. rewrite Hb in Hf. apply io_bind_Ok in Hf as (rules & w2' & Hr & Hf).
    injection Hf as <- _. injection Hr as Hr _. revert Hr. unfold compile_seccomp.
    destruct (target_arch host_arch) as [arch|]; [|done]. destruct (compile_filter _ arch); [|done].
    intros [= <-]. by exists arch.
  - intros [parent Hp]. rewrite Hp in Hc. apply io_bind_Ok in Hc as (path & w3' & _ & Hc).
    injection Hc as <- _. by eexists.
Qed.

Lemma clean_up_log {A} cleanup err w :
  ∃ e w' evs,
    (_ ← (match cleanup ≫= before_last "/"%char with
          | Some dir => _ ← attempt (call (HC_remove_dir dir)); mret tt
          | None => mret tt
          end);
     fail err : io world SandboxError A) w = (Err e, w')
    ∧ log w' = log w ++ evs ∧ Forall no_exec evs.
Proof.
  match goal with |- context [?c ≫= _] => assert (quiet c) as Hq by quiet_steps;
    destruct (c w) as [r w'] eqn:Hc end.
  pose proof (quiet_did _ _ _ _ Hq Hc) as (evs & Hl & _ & Hn).
  exists (match r with Ok _ => err | Err e => e end), w', evs. split_and!; [|done..].
  rewrite (io_bind_run _ _ _ _ _ Hc). by destruct r.
Qed.

(** The program is started last, after everything that confines it. *)
Lemma start_child_log job p cleanup environment w :
  match start_child job p cleanup environment w with
  | (Ok _, w') => ∃ evs,
      log w' = log w ++ evs ++ [Executed (command job) (args job) (workspace job) environment]
      ∧ map (Did ∘ HC_child) (confinement p) `sublist_of` evs ∧ Forall no_exec evs
  | (Err _, w') => ∃ evs, log w' = log w ++ evs ∧ Forall no_exec evs
  end.
Proof.
  unfold start_child. unfold mbind at 1, io_bind at 1, attempt at 1.
  unfold mbind at 1, io_bind at 1.
  destruct (apply_in_child p w) as [[[]|err] w1] eqn:Hc.
  - apply child_does in Hc as (evs & Hl & Hs & Hn).
    pose proof (log_exec (command job) (args job) (workspace job) environment w1) as He.
    destruct (exec _ _ _ _ w1) as [[pid|err] w2]; cbn [fst snd is_ok] in He.
    + exists evs. rewrite He, Hl, <-app_assoc. split_and!; [done| |done].
      by rewrite map_map in Hs.
    + destruct (clean_up_log (A := N) cleanup (SandboxError_new "process_start_failed"
        (err +:+ " (sandbox setup may have failed closed)")) w2) as (e & w3 & e3 & -> & Hl3 & Hn3).
      exists (evs ++ e3). rewrite Hl3, He, Hl, app_nil_r, app_assoc.
      split; [done|by apply Forall_app].
  - pose proof (quiet_did _ _ _ _ (quiet_child p) Hc) as (evs & Hl & _ & Hn).
    destruct (clean_up_log (A := N) cleanup (SandboxError_new "process_start_failed"
      (err +:+ " (sandbox setup may have failed closed)")) w1) as (e & w3 & e3 & -> & Hl3 & Hn3).
    exists (evs ++ e3). rewrite Hl3, Hl, app_assoc. split; [done|by apply Forall_app].
Qed.

(** A launch, in terms of the log. *)
Lemma launch_cases job plan caps environment kind w :
  match spawn_sandboxed_with_io job plan caps environment kind w with
  | (Ok pid, w') =>
      can_fail_closed caps plan = true
      ∧ ∃ p evs, payload_for plan caps p
        ∧ log w' = log w ++ evs
                   ++ [Executed (command job) (args job) (workspace job) environment]
        ∧ map (Did ∘ HC_child) (confinement (wire_io kind p)) `sublist_of` evs
        ∧ Forall no_exec evs
  | (Err _, w') => ∃ evs, log w' = log w ++ evs ∧ Forall no_exec evs
  end.
Proof.
  pose proof (enforcement_cases caps plan) as Hlevel.
  destruct (spawn_sandboxed_with_io job plan caps environment kind w) as [[pid|e] w'] eqn:Hw.
  - apply io_bind_Ok in Hw as ([] & w1 & Hgate & Hw).
    assert (w1 = w ∧ can_fail_closed caps plan = true) as [-> Hcan].
    { destruct (enforcement_level caps plan); [..|done]; injection Hgate as <-;
        split; [done|apply Hlevel|done|apply Hlevel]. }
    apply io_bind_Ok in Hw as (p & w2 & Hp & Hw). split; [done|].
    pose proof (payload_ok _ _ _ _ _ _ Hp) as Hfor.
    apply quiet_did in Hp as (e1 & Hl1 & _ & Hn1); [|apply quiet_payload].
    pose proof (start_child_log job (wire_io kind p) (cgroup_procs p) environment w2) as Hs.
    rewrite Hw in Hs. destruct Hs as (e2 & Hl2 & Hs2 & Hn2). exists p, (e1 ++ e2).
    split_and!; [done|by rewrite Hl2, Hl1, !app_assoc|by apply sublist_inserts_l|].
    by apply Forall_app.
  - apply io_bind_Err in Hw as [Hw|([] & w1 & Hgate & Hw)].
    { exists []. destruct (enforcement_level caps plan); try done. injection Hw as _ <-.
      by rewrite app_nil_r. }
    assert (w1 = w) as ->.
    { destruct (enforcement_level caps plan); [..|done]; by injection Hgate as <-. }
    apply io_bind_Err in Hw as [Hp|(p & w2 & Hp & Hw)].
    + apply quiet_did in Hp as (e1 & Hl1 & _ & Hn1); [by exists e1|apply quiet_payload].
    + apply quiet_did in Hp as (e1 & Hl1 & _ & Hn1); [|apply quiet_payload].
      pose proof (start_child_log job (wire_io kind p) (cgroup_procs p) environment w2) as Hs.
      rewrite Hw in Hs. destruct Hs as (e2 & Hl2 & Hn2). exists (e1 ++ e2).
      rewrite Hl2, Hl1, app_assoc. split; [done|by apply Forall_app].
Qed.
End launch.

(** * The watchdog *)

Section watchdog.
Context {H : Host} {HC : HostClock H}.

Lemma poll_interval_bounds spent timeout :
  (millis 1 ≤ poll_interval spent timeout ≤ millis 25)%N.
Proof. unfold poll_interval, millis, saturating_sub. lia. Qed.

(** One turn of the loop: the child has not exited, the budget is not spent, and the watchdog
    sleeps between one and 25 milliseconds, no longer than the rest of a budget above one. *)
Definition turn (pid timeout started : N) (w w' : world) : Prop :=
  ∃ w1 n, try_wait pid w = (Ok None, w1)
    ∧ (saturating_sub (instant w1) started < timeout)%N
    ∧ (millis 1 ≤ n ≤ millis 25)%N
    ∧ (n ≤ N.max (timeout - (instant w1 - started)) (millis 1))%N
    ∧ w' = sleep n w1.

(** What ends the loop: the child's exit, a failing wait, or the budget, and only then a kill. *)
Definition loop_end (pid timeout started : N) (w : world)
    (r : result (option (option Z * bool)) string * world) : Prop :=
  match try_wait pid w with
  | (Ok (Some code), w1) => r = (Ok (Some (code, false)), w1)
  | (Err e, w1) => r = (Err e, w1)
  | (Ok None, w1) =>
      (timeout ≤ saturating_sub (instant w1) started)%N
      ∧ match wait pid (kill_group pid w1) with
        | (Ok code, w2) => r = (Ok (Some (code, true)), w2)
        | (Err e, w2) => r = (Err e, w2)
        end
  end.

(** The fuel covers what is left of the budget. *)
Lemma watch_turns fuel pid timeout started w :
  (started ≤ instant w)%N → 1 ≤ fuel →
  (timeout ≤ millis 1 * N.of_nat (fuel - 1) + (instant w - started))%N →
  ∃ n w1, n < fuel ∧ nsteps (turn pid timeout started) n w w1
    ∧ loop_end pid timeout started w1 (watch fuel pid timeout started w).
Proof.
  revert w. induction fuel as [|fuel IH]; intros w Hs Hf Hb; [lia|].
  cbn [watch]. pose proof (instant_try_wait pid w) as Ht.
  destruct (try_wait pid w) as [[[code|]|e] w1] eqn:Hw; cbn [snd] in Ht.
  1,3: exists 0, w; split; [lia|]; split; [constructor|]; unfold loop_end;
    by rewrite (io_bind_run _ _ _ _ _ Hw), Hw.
  destruct (N.leb_spec timeout (saturating_sub (instant w1) started)) as [Hl|Hl].
  - exists 0, w. split; [lia|]. split; [constructor|]. unfold loop_end. rewrite Hw. split; [done|].
    rewrite (io_bind_run _ _ _ _ _ Hw). unfold mbind, io_bind, ask, always. cbn [fst snd].
    apply N.leb_le in Hl as ->. by destruct (wait pid _) as [[]].
  - set (n := poll_interval (saturating_sub (instant w1) started) timeout).
    pose proof (poll_interval_bounds (saturating_sub (instant w1) started) timeout) as Hp.
    pose proof (instant_sleep n w1) as Hsl. fold n in Hp.
    destruct (IH (sleep n w1)) as (m & w2 & Hm & Hsteps & Hend);
      [unfold saturating_sub, millis in *; lia..|].
    exists (S m), w2. split; [lia|]. split.
    + econstructor; [|exact Hsteps]. exists w1, n. split_and!; try done; [apply Hp..|].
      unfold n, poll_interval, saturating_sub. lia.
    + rewrite (io_bind_run _ _ _ _ _ Hw). unfold mbind at 1, io_bind at 1, ask. cbn [fst snd].
      apply N.leb_gt in Hl as ->. exact Hend.
Qed.

(** The output of a child whose wait is over, and the outcome it makes. *)
Definition collected (pid started : N) (code : option Z) (late : bool) (w : world) :
    result (option WatchdogOutcome) string * world :=
  match drained pid w with
  | (None, w') => (Ok None, w')
  | (Some (out, err), w') =>
      (Ok (Some {| wd_stdout := out; wd_stderr := err; wd_exit_code := code; timed_out := late;
                   elapsed := saturating_sub (instant w') started |}), w')
  end.

(** The budget covers the child alone: a child that has exited in time does not let the call
    come back while a process it left behind holds its pipes. *)
Lemma left_over_blocks pid timeout w code w1 w2 :
  try_wait pid w = (Ok (Some code), w1) → drained pid w1 = (None, w2) →
  run_with_watchdog pid timeout w = (Ok None, w2).
Proof.
  intros Hw Hd. unfold run_with_watchdog. change (watch_fuel timeout) with (S (watch_fuel timeout - 1)).
  cbn [watch]. rewrite (io_bind_run _ _ w (Ok (instant w)) w) by done.
  rewrite (io_bind_run _ _ w (Ok (Some (code, false))) w1).
  - unfold mbind, io_bind, always. by rewrite Hd.
  - by rewrite (io_bind_run _ _ _ _ _ Hw).
Qed.

Context {HL : HostLog H}.

Lemma turns_log pid timeout started n w w1 :
  nsteps (turn pid timeout started) n w w1 → log w1 = log w.
Proof.
  induction 1 as [|n w w' w1 (w2 & m & Hw & _ & _ & _ & ->) _ IH]; [done|].
  rewrite IH, log_sleep. pose proof (log_try_wait pid w) as Ht. by rewrite Hw in Ht.
Qed.

Lemma collected_log pid started code late w : log (collected pid started code late w).2 = log w.
Proof.
  unfold collected. pose proof (log_drained pid w) as Hd. by destruct (drained pid w) as [[[]|]].
Qed.

End watchdog.

(** * Theorems *)

(** The enforcement report is honest. A plan is refused exactly when the host has no
    no-new-privileges bit, or no cgroup subtree and the plan requires one; otherwise the
    primitives reported as skipped are exactly those the plan asks for and the host lacks,
    and the applied ones all the others. *)
Theorem enforcement_honest caps plan :
  match enforcement_level caps plan with
  | Unavailable _ => can_fail_closed caps plan = false
  | l =>
      can_fail_closed caps plan = true
      ∧ classify l = (List.filter (λ s, negb (lacks caps plan s)) PRIMITIVES,
                      List.filter (lacks caps plan) PRIMITIVES)
      ∧ (l = Enforced ↔ ∀ s, lacks caps plan s = false)
  end.
Proof. apply enforcement_cases. Qed.

Section theorems.
Context {H : Host} {HL : HostLog H}.

(** A launch fails closed. If the job's program was started, the host was able to fail
    closed, the payload held every primitive the plan asks for and the host has, and all of
    them were applied to the child, in order and without a failure, before the program, its
    arguments, directory and environment; and if the launch reports an error, nothing was
    started. *)
Theorem launch_fails_closed job plan caps environment kind w :
  match spawn_sandboxed_with_io job plan caps environment kind w with
  | (Ok pid, w') =>
      can_fail_closed caps plan = true
      ∧ ∃ p evs, payload_for plan caps p
        ∧ log w' = log w ++ evs
                   ++ [Executed (command job) (args job) (workspace job) environment]
        ∧ map (Did ∘ HC_child) (confinement (wire_io kind p)) `sublist_of` evs
        ∧ Forall no_exec evs
  | (Err _, w') => ∃ evs, log w' = log w ++ evs ∧ Forall no_exec evs
  end.
Proof. apply launch_cases. Qed.
End theorems.
