(* ===== verification/Native.v ===== *)
(** Native: the native runner
    (src/components/jeryu-ci-runner/crates/jeryu-runner-native/src).

    [None] in a result is a panic, or a wait that never ends. The probed capabilities, cached once per process, are an
    argument. *)

From Stdlib Require Import Ascii ZArith.
From S2P Require Import Prelude Text Paths RunnerCore Seccomp Hosts Sandbox.
Local Open Scope result_scope.

(** * Lossy text

    [String::from_utf8_lossy]: the longest prefix of a character that is cut short, or a
    byte that starts none, becomes U+FFFD. *)

Definition is_continuation (c : ascii) : bool := in_range 128 191 (code c).

Definition REPLACEMENT : string := String "239"%char (String "191"%char (String "189"%char "")).

(** The second byte of a character of three or four bytes. *)
Definition second_of_three (a b : ascii) : bool :=
  let y := code b in
  if (code a =? 224)%N then in_range 160 191 y
  else if (code a =? 237)%N then in_range 128 159 y
  else in_range 128 191 y.

Definition second_of_four (a b : ascii) : bool :=
  let y := code b in
  if (code a =? 240)%N then in_range 144 191 y
  else if (code a =? 244)%N then in_range 128 143 y
  else in_range 128 191 y.

Fixpoint from_utf8_lossy (s : string) : string :=
  match s with
  | "" => ""
  | String a s1 =>
      if (code a <? 128)%N then String a (from_utf8_lossy s1)
      else if in_range 194 223 (code a) then
        match s1 with
        | String b s2 =>
            if is_continuation b then String a (String b (from_utf8_lossy s2))
            else REPLACEMENT +:+ from_utf8_lossy s1
        | "" => REPLACEMENT
        end
      else if in_range 224 239 (code a) then
        match s1 with
        | String b s2 =>
            if second_of_three a b then
              match s2 with
              | String c s3 =>
                  if is_continuation c
                  then String a (String b (String c (from_utf8_lossy s3)))
                  else REPLACEMENT +:+ from_utf8_lossy s2
              | "" => REPLACEMENT
              end
            else REPLACEMENT +:+ from_utf8_lossy s1
        | "" => REPLACEMENT
        end
      else if in_range 240 244 (code a) then
        match s1 with
        | String b s2 =>
            if second_of_four a b then
              match s2 with
              | String c s3 =>
                  if is_continuation c then
                    match s3 with
                    | String d s4 =>
                        if is_continuation d
                        then String a (String b (String c (String d (from_utf8_lossy s4))))
                        else REPLACEMENT +:+ from_utf8_lossy s3
                    | "" => REPLACEMENT
                    end
                  else REPLACEMENT +:+ from_utf8_lossy s2
              | "" => REPLACEMENT
              end
            else REPLACEMENT +:+ from_utf8_lossy s1
        | "" => REPLACEMENT
        end
      else REPLACEMENT +:+ from_utf8_lossy s1
  end.

Definition is_char_boundary (s : string) (i : nat) : bool :=
  bool_decide (i = 0) || bool_decide (i = String.length s)
  || match String.get i s with Some c => negb (is_continuation c) | None => false end.

(** [String::truncate] panics inside a character. *)
Definition truncate (s : string) (limit : nat) : option string :=
  if bool_decide (limit ≤ String.length s) then
    if is_char_boundary s limit then Some (String.substring 0 limit s) else None
  else Some s.

(** * Guards (guards.rs) *)

Definition preflight_enforcement (plan : SandboxPlan) (caps : SandboxCapabilities) :
    RunnerResult EnforcementLevel :=
  match enforcement_level caps plan with
  | Unavailable why => Err (RunnerError_new "sandbox_unavailable" why)
  | l => Ok l
  end.

Definition sandbox_denied (m : string) : RunnerError := RunnerError_new "sandbox_policy_denied" m.

(** Equality of paths is that of their components. *)
Definition path_eqb (a b : string) : bool := bool_decide (components a = components b).

Definition system_dir (path : string) : bool := bool_decide (path ∈ ["/usr"; "/nix/store"]).

Definition default_seccomp (p : SeccompProfile) : bool :=
  bool_decide (default_action p = "kill-process")
  && bool_decide ("process-basic" ∈ allow_groups p)
  && bool_decide ("file-readwrite-workspace" ∈ allow_groups p).

Fixpoint validate_rules (rules : list LandlockRule) : RunnerResult () :=
  match rules with
  | [] => Ok tt
  | r :: rules =>
      let? _ := deny_dangerous_host_path (rule_path r) in
      if system_dir (rule_path r) && write r
      then Err (sandbox_denied (rule_path r +:+ " must be read-only in native Landlock rules"))
      else validate_rules rules
  end.

Fixpoint validate_mounts (mounts : list MountSpec) : RunnerResult () :=
  match mounts with
  | [] => Ok tt
  | m :: mounts =>
      if (system_dir (source m) || system_dir (target m)) && negb (read_only m)
      then Err (sandbox_denied (source m +:+ " -> " +:+ target m
                                +:+ " must be read-only in native mounts"))
      else validate_mounts mounts
  end.

Definition validate_native_plan (job : JobRequest) (plan : SandboxPlan) : RunnerResult () :=
  if negb (is_native (plan_class plan)) then
    Err (RunnerError_new "invalid_native_runner"
           (RunnerClass_as_str (plan_class plan) +:+ " is not a native runner class"))
  else if negb (user_namespace plan) || negb (mount_namespace plan) || negb (pid_namespace plan)
  then Err (sandbox_denied "native plan must use user, mount, and pid namespaces")
  else if negb (default_seccomp (seccomp plan)) then
    Err (sandbox_denied
           "native plan must use fail-closed seccomp with workspace file access only")
  else if (memory_max_bytes (cgroup_limits plan) =? 0)%N
          || (cpu_weight (cgroup_limits plan) =? 0)%N
          || (pids_max (cgroup_limits plan) =? 0)%N || (io_weight (cgroup_limits plan) =? 0)%N
  then Err (sandbox_denied "native plan must include nonzero cgroup limits")
  else if negb (existsb (λ r, path_eqb (rule_path r) (workspace job)
                              && read r && write r && execute r) (landlock_rules plan))
  then Err (sandbox_denied
              "native plan must allow read/write/execute only for the job workspace")
  else
    let? _ := validate_rules (landlock_rules plan) in
    let? _ := validate_mount_sources (map source (mounts plan)) in
    let? _ := validate_mounts (mounts plan) in
    if negb (existsb (λ m, path_eqb (source m) "/usr" && path_eqb (target m) "/usr"
                           && read_only m) (mounts plan))
    then Err (sandbox_denied "native plan must mount /usr read-only")
    else if fork job && bool_decide (plan_class plan = NativeRustHot)
    then Err (sandbox_denied "fork jobs cannot run on native-rust-hot")
    else Ok tt.

(** The insertions of [sanitized_native_env], in its order. *)
Definition native_settings (job : JobRequest) (plan : SandboxPlan) (cargo_home : string) :
    list (string * string) :=
  [("CI", "true"); ("JERYU_JOB_ID", job_id job); ("JERYU_REPO_ID", repo_id job);
   ("JERYU_COMMIT_SHA", commit_sha job);
   ("JERYU_RUNNER_CLASS", RunnerClass_as_str (plan_class plan));
   ("JERYU_NETWORK_POLICY", NetworkPolicy_as_str (plan_network plan));
   ("HOME", path_join (workspace job) ".home"); ("CARGO_HOME", cargo_home);
   ("NPM_CONFIG_CACHE", path_join (workspace job) ".npm-cache");
   ("RUSTUP_HOME", "/home/ubuntu/.rustup");
   ("JERYU_JANKURAI_BIN", "/home/ubuntu/.local/bin/jankurai"); ("TMPDIR", "/tmp");
   ("GIT_CONFIG_NOSYSTEM", "1");
   ("PATH", "/home/ubuntu/.cargo/bin:/home/ubuntu/.local/bin:/usr/local/bin:/usr/bin:/bin")]
  ++ (if plan_secrets plan then [] else [("JERYU_SECRETS", "disabled")]).

Definition insert_all (kvs : list (string * string)) (m : gmap string string) :
    gmap string string :=
  foldl (λ m kv, <[kv.1 := kv.2]> m) m kvs.

Definition cargo_home (job : JobRequest) (kept : gmap string string) : string :=
  if bool_decide (kept !! "CARGO_HOME" = Some "/home/ubuntu/.cargo")
  then "/home/ubuntu/.cargo" else path_join (workspace job) ".cargo-home".

Definition sanitized_native_env (job : JobRequest) (plan : SandboxPlan) : gmap string string :=
  let kept := sanitize_env (env job) in
  foldl (λ m denied, delete denied m)
    (insert_all (native_settings job plan (cargo_home job kept)) kept) DENIED_ENV_VARS.

(** * The runner (native_runner.rs) *)

Definition opt_or_unknown (o : option N) : string := opt_number o "?".

Definition enforcement_summary (r : EnforcementReport) : string :=
  "level=" +:+ level r +:+ " applied=[" +:+ join "," (applied r) +:+ "] skipped=["
  +:+ join "," (skipped r) +:+ "] proc_no_new_privs=" +:+ opt_or_unknown (proc_no_new_privs r)
  +:+ " proc_seccomp=" +:+ opt_or_unknown (proc_seccomp r).

Definition lossy_limit (bytes : string) (limit : nat) : option string :=
  let value := from_utf8_lossy bytes in
  if bool_decide (limit < String.length value)
  then v ← truncate value limit; Some (v +:+ "...[truncated]")
  else Some value.

Definition summarize_output (out err : string) : option string :=
  m ← (if str_is_empty out then Some ""
       else v ← lossy_limit out 4096; Some ("stdout=" +:+ v));
  m ← (if str_is_empty err then Some m
       else
         v ← lossy_limit err 4096;
         Some ((if str_is_empty m then m else m +:+ " ") +:+ "stderr=" +:+ v));
  Some (if str_is_empty m then "process completed without output" else m).

Definition native_class_required (plan : SandboxPlan) : RunnerResult () :=
  if is_native (plan_class plan) then Ok tt
  else Err (RunnerError_new "invalid_native_runner"
              (RunnerClass_as_str (plan_class plan) +:+ " is not native")).

(** [From<std::io::Error>]. *)
Definition io_error (text : string) : RunnerError := RunnerError_new "io" text.

Section native.
Context `{Host}.

Definition outcome_status (o : WatchdogOutcome) : ReceiptStatus :=
  if timed_out o then TimedOut
  else if bool_decide (wd_exit_code o = Some 0%Z) then Passed else Failed.

(** The receipt of a child that was waited for. *)
Definition finished_receipt (job : JobRequest) (d : PolicyDecision) (plan : SandboxPlan)
    (report : EnforcementReport) (o : WatchdogOutcome) (started finished : N) : option Receipt :=
  m ← summarize_output (wd_stdout o) (wd_stderr o);
  let m := m +:+ " enforcement=" +:+ enforcement_summary report in
  let m := if timed_out o
           then m +:+ " timed_out_after_ms=" +:+ show_N (elapsed o / millis 1) else m in
  Some (Receipt_new job d plan (outcome_status o) (wd_exit_code o) started finished m).

(** The child under the watchdog. [None] also stands for a wait that never ends: not of the
    watchdog's loop ([watchdog_ends]), but of the joins that collect the output. *)
Definition supervise (job : JobRequest) (d : PolicyDecision) (plan : SandboxPlan)
    (caps : SandboxCapabilities) (started pid : N) : io world RunnerError (option Receipt) :=
  report ← verify_enforcement pid (enforcement_level caps plan);
  result ← attempt (run_with_watchdog pid (millis (N.max (timeout_ms job) 1)));
  match result with
  | Ok None => mret None
  | Ok (Some o) =>
      finished ← now_ms;
      mret (finished_receipt job d plan report o started finished)
  | Err err =>
      finished ← now_ms;
      mret (Some (Receipt_new job d plan Failed None started finished ("watchdog_failed: " +:+ err)))
  end.

(** The launch and what follows it. *)
Definition run_sandboxed (caps : SandboxCapabilities) (job : JobRequest) (d : PolicyDecision)
    (plan : SandboxPlan) : io world RunnerError (option Receipt) :=
  started ← now_ms;
  child ← attempt (spawn_sandboxed job plan caps (sanitized_native_env job plan));
  match child with
  | Err err =>
      finished ← now_ms;
      mret (Some (Receipt_new job d plan Failed None started finished
                    ("sandbox_launch_failed[" +:+ sb_code err +:+ "]: " +:+ sb_message err)))
  | Ok pid => supervise job d plan caps started pid
  end.

Definition NativeRunner_execute (caps : SandboxCapabilities) (job : JobRequest)
    (d : PolicyDecision) (plan : SandboxPlan) : io world RunnerError (option Receipt) :=
  _ ← from_result (JobRequest_validate job);
  _ ← from_result (validate_native_plan job plan);
  _ ← io_map_err io_error (call (HC_create_dir_all (workspace job)));
  run_sandboxed caps job d plan.

Definition NativeRunner_plan_only (job : JobRequest) (d : PolicyDecision) (plan : SandboxPlan) :
    io world RunnerError (option Receipt) :=
  _ ← from_result (JobRequest_validate job);
  _ ← from_result (validate_native_plan job plan);
  now ← now_ms;
  mret (Some (Receipt_new job d plan Planned None now now "native runner plan created")).
End native.
