(* ===== verification/NativeLaws.v ===== *)
(** NativeLaws: which plans run natively, what environment their jobs get, and that nothing
    runs unconfined. *)

From Stdlib Require Import Ascii ZArith.
From S2P Require Import Prelude Text Paths RunnerCore Seccomp Hosts Sandbox SandboxLaws Native.

(** * Plans *)

(** Workspaces a native plan can be made for. *)
Definition native_workspace (ws : string) : bool :=
  is_ok (deny_dangerous_host_path ws) && negb (system_dir ws).

Section plans.
Context (ws : string) (d : PolicyDecision).
Let plan := SandboxPlan_from_decision ws d.

Lemma plan_workspace_rule :
  existsb (λ r, path_eqb (rule_path r) ws && read r && write r && execute r)
    (landlock_rules plan) = true.
Proof.
  cbn [existsb landlock_rules plan SandboxPlan_from_decision app rule_path read write execute].
  unfold path_eqb. by rewrite bool_decide_true.
Qed.

Lemma plan_rules_valid :
  validate_rules (landlock_rules plan) = Ok tt ↔ native_workspace ws = true.
Proof.
  unfold native_workspace. change (landlock_rules plan) with
    ({| rule_path := ws; read := true; write := true; execute := true |}
       :: tail (landlock_rules plan)).
  cbn [validate_rules rule_path write]. destruct (deny_dangerous_host_path ws) as [[]|]; [|done].
  rewrite andb_true_r. destruct (system_dir ws); [done|]. by vm_compute.
Qed.

Lemma plan_sources_valid :
  validate_mount_sources (map source (mounts plan)) = deny_dangerous_host_path ws.
Proof.
  change (map source (mounts plan)) with (ws :: tail (map source (mounts plan))).
  cbn [validate_mount_sources]. destruct (deny_dangerous_host_path ws) as [[]|]; [|done].
  by vm_compute.
Qed.

Lemma plan_mounts_valid :
  validate_mounts (mounts plan) = Ok tt ↔ system_dir ws = false.
Proof.
  change (mounts plan) with
    ({| source := ws; target := "/workspace"; read_only := false |} :: tail (mounts plan)).
  cbn [validate_mounts source target read_only]. change (system_dir "/workspace") with false.
  rewrite orb_false_r, andb_true_r. destruct (system_dir ws); [done|]. by vm_compute.
Qed.

Lemma plan_usr_mounted :
  existsb (λ m, path_eqb (source m) "/usr" && path_eqb (target m) "/usr" && read_only m)
    (mounts plan) = true.
Proof.
  change (mounts plan) with
    ({| source := ws; target := "/workspace"; read_only := false |} :: tail (mounts plan)).
  cbn [existsb source target read_only]. rewrite andb_false_r. by vm_compute.
Qed.
End plans.

(** The native guards and the policy agree. The plan of a decision passes the guards of
    the native runner exactly when its class is native, its workspace is not a denied host
    path, [/usr] or the store, and it is not a fork's job on the hot class. *)
Theorem native_plan_spec j d :
  validate_native_plan j (SandboxPlan_from_decision (workspace j) d) = Ok tt ↔
  is_native (runner_class d) = true ∧ native_workspace (workspace j) = true
  ∧ (fork j = true → runner_class d ≠ NativeRustHot).
Proof.
  unfold validate_native_plan. cbn [SandboxPlan_from_decision plan_class].
  destruct (is_native (runner_class d)) eqn:Hn; cbn [negb]; [|naive_solver].
  cbn [user_namespace mount_namespace pid_namespace negb orb].
  change (seccomp _) with (SeccompProfile_default_for (runner_class d)).
  change (cgroup_limits _) with (CgroupLimits_default_for (runner_class d)).
  replace (default_seccomp _) with true by (by destruct (runner_class d)). cbn [negb].
  replace (_ || _ || _ || _) with false by (by destruct (runner_class d)).
  rewrite plan_workspace_rule, plan_sources_valid, plan_usr_mounted. cbn [negb].
  pose proof (plan_rules_valid (workspace j) d) as Hr.
  pose proof (plan_mounts_valid (workspace j) d) as Hm. unfold native_workspace in *.
  destruct (validate_rules _) as [[]|e];
    [|by split; [|intros (_ & Hw & _); apply Hr in Hw]].
  pose proof (proj1 Hr eq_refl) as Hw. revert Hw Hm.
  destruct (deny_dangerous_host_path (workspace j)) as [[]|]; [|done]. cbn [is_ok andb].
  destruct (system_dir (workspace j)); [done|]. intros _ Hm. rewrite (proj2 Hm eq_refl).
  destruct (fork j); cbn [andb]; [case_bool_decide|]; naive_solver.
Qed.

(** * The environment *)

Lemma foldl_delete_lookup (l : list string) (m : gmap string string) k :
  foldl (λ m d, delete d m) m l !! k = if decide (k ∈ l) then None else m !! k.
Proof.
  revert m. induction l as [|x l IH]; intros m; cbn [foldl]; [done|]. rewrite IH.
  destruct (decide (k = x)) as [->|Hne].
  - rewrite lookup_delete_eq. destruct (decide (x ∈ x :: l)); [by case_decide|set_solver].
  - rewrite lookup_delete_ne by done.
    destruct (decide (k ∈ l)), (decide (k ∈ x :: l)); set_solver.
Qed.

Definition controlled (plan : SandboxPlan) : list string :=
  ["CI"; "JERYU_JOB_ID"; "JERYU_REPO_ID"; "JERYU_COMMIT_SHA"; "JERYU_RUNNER_CLASS";
   "JERYU_NETWORK_POLICY"; "HOME"; "CARGO_HOME"; "NPM_CONFIG_CACHE"; "RUSTUP_HOME";
   "JERYU_JANKURAI_BIN"; "TMPDIR"; "GIT_CONFIG_NOSYSTEM"; "PATH"]
  ++ (if plan_secrets plan then [] else ["JERYU_SECRETS"]).

Lemma settings_controlled j plan c : (native_settings j plan c).*1 = controlled plan.
Proof. unfold native_settings, controlled. by destruct (plan_secrets plan). Qed.

Lemma controlled_facts plan :
  NoDup (controlled plan) ∧ ∀ k, k ∈ controlled plan → k ∉ DENIED_ENV_VARS.
Proof.
  unfold controlled. destruct (plan_secrets plan).
  all: split; [apply (bool_decide_unpack _); by vm_compute|].
  all: apply Forall_forall, (bool_decide_unpack _); by vm_compute.
Qed.

(** A native job's environment is clean. No variable that could carry a host
    credential is in it, whatever the job asks for; every variable the runner controls has
    the runner's value, which a job can not override; and every other variable is the job's
    own. *)
Theorem native_env_clean j plan k :
  (k ∈ DENIED_ENV_VARS → sanitized_native_env j plan !! k = None)
  ∧ (∀ v, (k, v) ∈ native_settings j plan (cargo_home j (sanitize_env (env j))) →
       sanitized_native_env j plan !! k = Some v)
  ∧ (k ∉ DENIED_ENV_VARS → k ∉ controlled plan →
       sanitized_native_env j plan !! k = env j !! k).
Proof.
  unfold sanitized_native_env. rewrite foldl_delete_lookup.
  destruct (controlled_facts plan) as [Hn Hc].
  rewrite <-(settings_controlled j plan (cargo_home j (sanitize_env (env j)))) in *.
  split_and!.
  - intros Hk. by rewrite decide_True.
  - intros v Hv. rewrite decide_False by (apply Hc, list_elem_of_fmap; by exists (k, v)).
    apply foldl_insert_lookup; [done|by left].
  - intros Hk Hs. rewrite decide_False by done. apply option_eq. intros v.
    unfold insert_all. rewrite foldl_insert_lookup by done. rewrite sanitize_env_lookup.
    assert ((k, v) ∉ native_settings j plan (cargo_home j (sanitize_env (env j)))) as Hno.
    { intros Hv. apply Hs, list_elem_of_fmap. by exists (k, v). }
    tauto.
Qed.

(** * Execution *)

Section execution.
Context {H : Host} {HL : HostLog H}.

Lemma quiet_watch fuel pid timeout started : quiet (watch fuel pid timeout started).
Proof.
  induction fuel as [|fuel IH]; cbn; [auto with quiet|].
  apply quiet_bind; [intros w; exists []; by rewrite app_nil_r, log_try_wait|].
  intros [code|]; [auto with quiet|]. apply quiet_bind; [auto with quiet|intros spent].
  destruct (timeout <=? spent)%N.
  - apply quiet_bind; [intros w; exists [Killed pid]; cbn; rewrite log_kill; split; [done|by repeat constructor]|].
    intros []. apply quiet_bind; [|auto with quiet].
    intros w. exists []. by rewrite app_nil_r, log_wait.
  - apply quiet_bind; [auto with quiet|intros spent'].
    apply quiet_bind; [intros w; exists []; cbn; by rewrite app_nil_r, log_sleep|done].
Qed.

Lemma quiet_watchdog pid timeout : quiet (run_with_watchdog pid timeout).
Proof.
  unfold run_with_watchdog. apply quiet_bind; [auto with quiet|intros started].
  apply quiet_bind; [apply quiet_watch|intros [[code late]|]]; [|auto with quiet].
  apply quiet_bind; [|intros [[]|]; quiet_steps].
  intros w0. exists []. unfold always. rewrite app_nil_r. pose proof (log_drained pid w0) as Hd.
  by destruct (drained pid w0).
Qed.

Lemma quiet_supervise job d plan caps started pid : quiet (supervise job d plan caps started pid).
Proof.
  unfold supervise, verify_enforcement. apply quiet_bind.
  - destruct (classify _). auto with quiet.
  - intros report. apply quiet_bind; [apply quiet_attempt, quiet_watchdog|intros [[o|]|err]; quiet_steps].
Qed.

(** The one start of a run, with what came before and after it. *)
Definition started_confined (caps : SandboxCapabilities) (job : JobRequest) (plan : SandboxPlan)
    (evs : list Event) : Prop :=
  ∃ before after payload,
    evs = before ++ [Executed (command job) (args job) (workspace job)
                       (sanitized_native_env job plan)] ++ after
    ∧ Forall no_exec before ∧ Forall no_exec after
    ∧ can_fail_closed caps plan = true ∧ payload_for plan caps payload
    ∧ map (Did ∘ HC_child) (confinement payload) `sublist_of` before.

Lemma finished_passed job d plan report o started finished r :
  finished_receipt job d plan report o started finished = Some r →
  status r = outcome_status o ∧ exit_code r = wd_exit_code o.
Proof.
  unfold finished_receipt. destruct (summarize_output _ _); [|done]. cbn.
  by intros [= <-].
Qed.

Lemma supervise_passed job d plan caps started pid w r w' :
  supervise job d plan caps started pid w = (Ok (Some r), w') →
  status r = Passed → exit_code r = Some 0%Z.
Proof.
  unfold supervise. intros Hw. apply io_bind_Ok in Hw as (report & w1 & _ & Hw).
  apply io_bind_Ok in Hw as (result & w2 & _ & Hw).
  destruct result as [[o|]|err]; [|done|]; apply io_bind_Ok in Hw as (now & w3 & _ & Hw);
    injection Hw as Hr _; [|by subst r].
  apply finished_passed in Hr as [-> ->]. unfold outcome_status.
  destruct (timed_out o); [done|]. by case_bool_decide.
Qed.

Lemma run_sandboxed_log caps job d plan w r w' :
  run_sandboxed caps job d plan w = (r, w') →
  ∃ evs, log w' = log w ++ evs
  ∧ (Forall no_exec evs ∧ (∀ rc, r = Ok (Some rc) → status rc = Failed)
     ∨ started_confined caps job plan evs
       ∧ ∀ rc, r = Ok (Some rc) → status rc = Passed → exit_code rc = Some 0%Z).
Proof.
  unfold run_sandboxed. destruct ((now_ms : io world RunnerError N) w) as [[now|e] w1] eqn:Hnow; rewrite (io_bind_run _ _ _ _ _ Hnow).
  2:{ unfold now_ms, always in Hnow. by destruct (clock_ms w). }
  apply quiet_did in Hnow as (e0 & Hl0 & _ & Hn0); [|auto with quiet].
  pose proof (launch_cases job plan caps (sanitized_native_env job plan) Piped w1) as Hs.
  unfold spawn_sandboxed. destruct (spawn_sandboxed_with_io _ _ _ _ _ w1) as [[pid|e] w2] eqn:Hw.
  - rewrite (io_bind_run _ _ w1 (Ok (Ok pid)) w2) by (unfold attempt; by rewrite Hw).
    destruct Hs as (Hcan & p & e1 & Hp & Hl1 & Hsub & Hn1). intros Hr.
    pose proof Hr as (e2 & Hl2 & _ & Hn2)%quiet_did; [|apply quiet_supervise].
    eexists. rewrite Hl2, Hl1, Hl0, <-!app_assoc. split; [done|]. right. split.
    + exists (e0 ++ e1), e2, p. rewrite <-!app_assoc. split_and!; try done; [by apply Forall_app|].
      by apply sublist_inserts_l.
    + intros rc ->. by eapply supervise_passed.
  - rewrite (io_bind_run _ _ w1 (Ok (Err e)) w2) by (unfold attempt; by rewrite Hw).
    destruct Hs as (e1 & Hl1 & Hn1). intros Hr.
    assert (quiet (finished ← now_ms; mret (Some (Receipt_new job d plan Failed None now finished
      ("sandbox_launch_failed[" +:+ sb_code e +:+ "]: " +:+ sb_message e)))
      : io world RunnerError (option Receipt))) as Hq by quiet_steps.
    pose proof Hr as (e2 & Hl2 & _ & Hn2)%quiet_did; [|exact Hq].
    eexists. rewrite Hl2, Hl1, Hl0, <-!app_assoc. split; [done|]. left.
    split; [by rewrite !Forall_app|]. intros rc ->.
    apply io_bind_Ok in Hr as (fin & w3 & _ & Hr). by injection Hr as <- _.
Qed.

(** No job runs unconfined. An execution of the native runner starts at most one
    program; if it starts one, the job and its plan passed all guards, and the program is
    the job's, in its workspace, with the sanitized environment, after every confining call;
    and a receipt says that the job passed or timed out only if it was started, and passed
    only if it exited with zero. *)
Lemma native_runs_confined caps job d plan w :
  ∃ evs, log (NativeRunner_execute caps job d plan w).2 = log w ++ evs
  ∧ (Forall no_exec evs
     ∨ valid_job job ∧ validate_native_plan job plan = Ok tt
       ∧ started_confined caps job plan evs)
  ∧ ∀ r, (NativeRunner_execute caps job d plan w).1 = Ok (Some r) →
      (status r = Passed ∨ status r = TimedOut → started_confined caps job plan evs)
      ∧ (status r = Passed → exit_code r = Some 0%Z).
Proof.
  destruct (NativeRunner_execute caps job d plan w) as [r w'] eqn:Hw. cbn [fst snd].
  assert (∀ e, r = Err e → w' = w → ∃ evs, log w' = log w ++ evs
    ∧ (Forall no_exec evs ∨ valid_job job ∧ validate_native_plan job plan = Ok tt
         ∧ started_confined caps job plan evs)
    ∧ ∀ rc, r = Ok (Some rc) →
        (status rc = Passed ∨ status rc = TimedOut → started_confined caps job plan evs)
        ∧ (status rc = Passed → exit_code rc = Some 0%Z)) as Hfail.
  { intros e -> ->. exists []. rewrite app_nil_r. split_and!; [done|by left|done]. }
  unfold NativeRunner_execute in Hw. unfold mbind at 1, io_bind at 1, from_result at 1 in Hw.
  destruct (JobRequest_validate job) as [[]|e] eqn:Hv;
    [|injection Hw as <- <-; by eapply Hfail].
  unfold mbind at 1, io_bind at 1, from_result at 1 in Hw.
  destruct (validate_native_plan job plan) as [[]|e];
    [|injection Hw as <- <-; by eapply Hfail].
  destruct (io_map_err io_error (call (HC_create_dir_all (workspace job))) w) as [r1 w1] eqn:Hd.
  rewrite (io_bind_run _ _ _ _ _ Hd) in Hw.
  apply quiet_did in Hd as (e0 & Hl0 & _ & Hn0); [|auto with quiet].
  destruct r1 as [[]|e]; [|injection Hw as <- <-; by exists e0; split_and!; [|left|]].
  apply run_sandboxed_log in Hw as (e1 & Hl1 & Hcases). exists (e0 ++ e1).
  rewrite Hl1, Hl0, app_assoc. split; [done|]. apply JobRequest_validate_spec in Hv.
  destruct Hcases as [(Hn1 & Hst)|((before & after & p & -> & Hb & Ha & Hcan & Hp & Hsub) & Hst)].
  - split; [left; by apply Forall_app|]. intros rc Hrc. rewrite (Hst _ Hrc). by split; [intros []|].
  - assert (started_confined caps job plan (e0 ++ before ++ [Executed (command job) (args job)
      (workspace job) (sanitized_native_env job plan)] ++ after)) as Hsc.
    { exists (e0 ++ before), after, p. rewrite <-!app_assoc. split_and!; try done;
        [by apply Forall_app|by apply sublist_inserts_l]. }
    split; [by right|]. intros rc Hrc. split; [done|by apply Hst].
Qed.
End execution.
