(* ===== verification/Egress.v ===== *)
(** Egress: the proxy that lets a cell reach listed hosts only.

    jeryu-egress (jeryu-ci-runner/crates/jeryu-egress/src): the allowlist (allowlist.rs), the
    verdict and the budget switch (lib.rs), and what the proxy does with one connection
    (proxy.rs). The sockets are the class [Network]; [NetworkLog] is one that can say which
    upstream connections were asked for. The bytes that flow once both sides are joined are
    the network's. *)

From Stdlib Require Import Ascii.
From S2P Require Import Prelude Text Hosts.
From S2P Require Native Evidence.

(** * Text *)

(** [s.rsplit_once(d)]. *)
Definition rsplit_once (d : ascii) (s : string) : option (string * string) :=
  (λ '(a, b), (String.rev b, String.rev a)) <$> split_once d (String.rev s).

(** [s.rsplit(d).next()]. *)
Definition after_last (d : ascii) (s : string) : string :=
  match rsplit_once d s with Some (_, b) => b | None => s end.

(** [s.split(d).next()]. *)
Definition before_first (d : ascii) (s : string) : string :=
  match split_once d s with Some (a, _) => a | None => s end.

(** What follows the first occurrence of a non-empty pattern. *)
Fixpoint after_pattern (pat s : string) : option string :=
  match strip_prefix pat s with
  | Some rest => Some rest
  | None => match s with EmptyString => None | String _ s' => after_pattern pat s' end
  end.

(** The longest prefix of characters that satisfy [p]. *)
Fixpoint take_chars (p : ascii → bool) (s : string) : string :=
  match s with
  | "" => ""
  | String c s' => if p c then String c (take_chars p s') else ""
  end.

Definition CR : ascii := "013"%char.
Definition crlf : string := String CR newline_str.

(** [text.split(crlf).flat_map(|l| l.split(newline))]: every newline ends a piece, and a
    carriage return in front of it is not part of the piece. *)
Fixpoint header_lines (s : string) : list string :=
  match s with
  | "" => [""]
  | String c s' =>
      if Ascii.eqb c newline then "" :: header_lines s'
      else match header_lines s' with
           | [] => [String c ""]
           | x :: l =>
               if Ascii.eqb c CR && starts_with s' newline_str then x :: l
               else String c x :: l
           end
  end.

(** * The allowlist *)

Definition DEFAULT_HOSTS : list string :=
  ["api.anthropic.com"; "api.openai.com"; "crates.io"; "static.crates.io"; "index.crates.io";
   "github.com"; "codeload.github.com"; "objects.githubusercontent.com"].

Definition DEFAULT_SUFFIXES : list string := [".crates.io"].

Record Allowlist : Type := { hosts : list string; suffixes : list string }.

Definition Allowlist_new (hosts_ suffixes_ : list string) : Allowlist :=
  {| hosts := filter (λ h, h ≠ "") ((λ h, lowercase (trim h)) <$> hosts_);
     suffixes :=
       (λ s, if starts_with s "." then s else "." +:+ s) <$>
         filter (λ s, s ≠ "" ∧ s ≠ ".") ((λ s, lowercase (trim s)) <$> suffixes_) |}.

Definition Allowlist_default : Allowlist := Allowlist_new DEFAULT_HOSTS DEFAULT_SUFFIXES.

(** [&suffix[1..]] panics unless a character starts at byte 1; every suffix of
    [Allowlist_new] starts with a dot. *)
Definition matches_suffix (host suffix : string) : bool :=
  match suffix with
  | "" => false
  | String _ apex => bool_decide (host = apex) || ends_with host suffix
  end.

(** The form in which a host is compared. *)
Definition normal_host (host : string) : string :=
  let host := lowercase (trim host) in
  let host := before_first ":" host in
  match strip_suffix "." host with Some h => h | None => host end.

Definition permits (allow : Allowlist) (host : string) : bool :=
  let host := normal_host host in
  if str_is_empty host then false
  else bool_decide (host ∈ hosts allow) || existsb (matches_suffix host) (suffixes allow).

(** * The verdict *)

Inductive Decision : Type := Allow | DenyNotAllowlisted | DenyBudget.

#[export] Instance Decision_eq_dec : EqDecision Decision.
Proof. solve_decision. Defined.

Definition is_allowed (d : Decision) : bool := bool_decide (d = Allow).

Definition reason (d : Decision) : string :=
  match d with
  | Allow => "allow"
  | DenyNotAllowlisted => "not-allowlisted"
  | DenyBudget => "budget-exceeded"
  end.

Definition egress_decision (host : string) (allow : Allowlist) (budget_exceeded : bool) :
    Decision :=
  if budget_exceeded then DenyBudget
  else if permits allow host then Allow else DenyNotAllowlisted.

(** * Requests *)

Record ParsedRequest : Type := { method : string; host : string; port : N }.

Definition absolute_uri_authority (target : string) : option string :=
  take_chars (λ c, negb (Ascii.eqb c "/" || Ascii.eqb c "?" || Ascii.eqb c "#"))
    <$> after_pattern "://" target.

Definition split_authority (authority : string) (default_port : N) : string * N :=
  let authority := after_last "@" (trim authority) in
  match rsplit_once ":" authority with
  | Some (host, port) =>
      if str_is_empty host then (authority, default_port)
      else (host, match parse_uint 65535 (trim port) with Some p => p | None => default_port end)
  | None => (authority, default_port)
  end.

(** The value of a [Host] header line, in the two spellings that are read. *)
Definition host_header (line : string) : option string :=
  match strip_prefix "Host:" line with Some v => Some v | None => strip_prefix "host:" line end.

Fixpoint header_request (method : string) (lines : list string) : option ParsedRequest :=
  match lines with
  | [] => None
  | line :: lines =>
      match host_header line with
      | Some value =>
          let (h, p) := split_authority (trim value) 80 in
          if str_is_empty h then header_request method lines
          else Some {| method := method; host := h; port := p |}
      | None => header_request method lines
      end
  end.

Definition parse (prelude : string) : option ParsedRequest :=
  match header_lines (Native.from_utf8_lossy prelude) with
  | [] => None
  | request_line :: lines =>
      match split_whitespace request_line with
      | m :: target :: _ =>
          let m := string_map Evidence.to_ascii_uppercase m in
          if bool_decide (m = "CONNECT") then
            let (h, p) := split_authority target 443 in
            if str_is_empty h then None else Some {| method := m; host := h; port := p |}
          else
            match absolute_uri_authority target with
            | Some authority =>
                let (h, p) := split_authority authority 80 in
                if str_is_empty h then header_request m lines
                else Some {| method := m; host := h; port := p |}
            | None => header_request m lines
            end
      | _ => None
      end
  end.

(** * One connection *)

Definition MAX_PRELUDE_BYTES : nat := 16 * 1024.

Class Network : Type := {
  net : Type;
  (** A read of one byte from the client: [None] at its end. *)
  read_byte : io net string (option ascii);
  client_write : string → io net string ();
  client_flush : io net string ();
  (** [TcpStream::connect] within its timeout, and the socket. *)
  connect : string → io net string N;
  upstream_write : N → string → io net string ();
  upstream_flush : N → io net string ();
  (** [tokio::io::copy_bidirectional]. *)
  copy_bidirectional : N → io net string ();
  (** [Budget::is_exceeded], of the switch all connections share. *)
  is_exceeded : net → bool
}.

Section proxy.
Context `{Network}.

Definition headers_end (buf : string) : bool :=
  ends_with buf (crlf +:+ crlf) || ends_with buf (newline_str +:+ newline_str).

(** The loop of read_prelude, for as many bytes as may still be buffered. *)
Fixpoint read_more (fuel : nat) (buf : string) : io net string string :=
  match fuel with
  | O => mret buf
  | S fuel =>
      n ← read_byte;
      match n with
      | None => mret buf
      | Some c =>
          let buf := buf +:+ String c "" in
          if headers_end buf then mret buf
          else if MAX_PRELUDE_BYTES <=? String.length buf then mret buf
          else read_more fuel buf
      end
  end.

Definition read_prelude : io net string string := read_more MAX_PRELUDE_BYTES "".

Definition respond_status (code : N) (text : string) : io net string () :=
  let body := show_N code +:+ " " +:+ text +:+ newline_str in
  client_write ("HTTP/1.1 " +:+ show_N code +:+ " " +:+ text +:+ crlf
    +:+ "Content-Type: text/plain" +:+ crlf
    +:+ "Content-Length: " +:+ show_N (N.of_nat (String.length body)) +:+ crlf
    +:+ "Connection: close" +:+ crlf +:+ crlf +:+ body);;
  client_flush.

Definition target_of (request : ParsedRequest) : string :=
  host request +:+ ":" +:+ show_N (port request).

Definition connect_upstream (request : ParsedRequest) : io net string (result N string) :=
  attempt (connect (target_of request)).

Definition tunnel_connect (request : ParsedRequest) : io net string () :=
  r ← connect_upstream request;
  match r with
  | Err _ => respond_status 502 "Bad Gateway"
  | Ok upstream =>
      client_write ("HTTP/1.1 200 Connection established" +:+ crlf +:+ crlf);;
      client_flush;;
      copy_bidirectional upstream
  end.

Definition forward_plain (request : ParsedRequest) (prelude : string) : io net string () :=
  r ← connect_upstream request;
  match r with
  | Err _ => respond_status 502 "Bad Gateway"
  | Ok upstream =>
      upstream_write upstream prelude;;
      upstream_flush upstream;;
      copy_bidirectional upstream
  end.

Definition handle (allowlist : Allowlist) : io net string () :=
  prelude ← read_prelude;
  match parse prelude with
  | None => respond_status 400 "Bad Request"
  | Some request =>
      exceeded ← ask is_exceeded;
      match egress_decision (host request) allowlist exceeded with
      | Allow =>
          if bool_decide (method request = "CONNECT") then tunnel_connect request
          else forward_plain request prelude
      | _ => respond_status 403 "Forbidden"
      end
  end.
End proxy.

(** * Names *)

(** What a suffix rule is about, its leading dot aside. *)
Definition domain_of (rule : string) : string :=
  let rule := lowercase (trim rule) in
  match strip_prefix "." rule with Some d => d | None => rule end.

Definition within (name domain : string) : Prop :=
  name = domain ∨ ∃ labels, name = labels +:+ "." +:+ domain.

(** A name the configuration lists: as a host, or as a domain or a name below it. *)
Definition listed (hosts_ suffixes_ : list string) (name : string) : Prop :=
  name ≠ ""
  ∧ ((∃ h, h ∈ hosts_ ∧ name = lowercase (trim h))
     ∨ ∃ s, s ∈ suffixes_ ∧ domain_of s ≠ "" ∧ within name (domain_of s)).

Lemma matches_suffix_dot name d :
  matches_suffix name ("." +:+ d) = true ↔ within name d.
Proof.
  change (bool_decide (name = d) || ends_with name ("." +:+ d) = true ↔ within name d).
  rewrite orb_true_iff, bool_decide_eq_true, ends_with_spec. done.
Qed.

(** The suffixes of an allowlist are the dot and the domain of each rule that has one: the
    slice of matches_suffix is never out of range. *)
Lemma elem_of_suffixes hs ss s :
  s ∈ suffixes (Allowlist_new hs ss) ↔ ∃ rule, rule ∈ ss ∧ domain_of rule ≠ "" ∧ s = "." +:+ domain_of rule.
Proof.
  simpl. rewrite list_elem_of_fmap. setoid_rewrite list_elem_of_filter.
  setoid_rewrite list_elem_of_fmap. unfold domain_of.
  split.
  - intros (t&->&[Ht Ht']&rule&->&Hr). exists rule. split; [done|].
    destruct (strip_prefix "." _) as [d|] eqn:Hd.
    + pose proof Hd as Hs. apply strip_prefix_Some in Hs.
      rewrite (proj2 (starts_with_spec _ _)) by eauto. rewrite Hs in Ht' |- *.
      split; [|done]. by intros ->.
    + unfold starts_with. by rewrite Hd.
  - intros (rule&Hr&Hn&->). exists (lowercase (trim rule)).
    destruct (strip_prefix "." _) as [d|] eqn:Hd.
    + pose proof Hd as Hs. apply strip_prefix_Some in Hs.
      rewrite (proj2 (starts_with_spec _ _)) by eauto. rewrite Hs.
      split; [done|]. split; [|by eauto]. split; [done|]. intros Heq.
      by apply (append_inj_l "." d "") in Heq.
    + unfold starts_with. rewrite Hd. split; [done|]. split; [|by eauto].
      split; [done|]. intros Heq. by rewrite Heq in Hd.
Qed.

Lemma permits_spec hs ss host :
  permits (Allowlist_new hs ss) host = true ↔ listed hs ss (normal_host host).
Proof.
  unfold permits, listed. destruct (str_is_empty (normal_host host)) eqn:He.
  { apply bool_decide_eq_true in He. split; [done|]. by intros []. }
  apply bool_decide_eq_false in He.
  rewrite orb_true_iff, bool_decide_eq_true, existsb_exists.
  setoid_rewrite <-list_elem_of_In. setoid_rewrite elem_of_suffixes.
  simpl. rewrite list_elem_of_filter, list_elem_of_fmap. split.
  - intros [[_ (h&Hh&?)]|(s&(rule&?&?&->)&Hm)]; (split; [done|]); [by eauto|].
    right. exists rule. split_and!; [done..|]. by apply matches_suffix_dot.
  - intros [_ [(h&?&Hh)|(rule&?&?&Hm)]]; [left; eauto|right].
    eexists. split; [by eauto|]. by apply matches_suffix_dot.
Qed.

(** * Connections asked for *)

Class NetworkLog (N : Network) : Type := {
  (** The targets of the upstream connections attempted so far. *)
  attempts : net → list string;
  attempts_read w : attempts (read_byte w).2 = attempts w;
  attempts_write s w : attempts (client_write s w).2 = attempts w;
  attempts_flush w : attempts (client_flush w).2 = attempts w;
  attempts_connect t w : attempts (connect t w).2 = attempts w ++ [t];
  attempts_upstream u s w : attempts (upstream_write u s w).2 = attempts w;
  attempts_upstream_flush u w : attempts (upstream_flush u w).2 = attempts w;
  attempts_copy u w : attempts (copy_bidirectional u w).2 = attempts w
}.

Section confinement.
Context {N : Network} {NL : NetworkLog N}.

(** The program leaves the connections as they were. *)
Definition quiet {E A} (c : io net E A) : Prop := ∀ w, attempts (c w).2 = attempts w.

Lemma quiet_then {E A B} (c : io net E A) (f : A → io net E B) :
  quiet c → (∀ a, quiet (f a)) → quiet (c ≫= f).
Proof.
  intros Hc Hf w. unfold mbind, io_bind. pose proof (Hc w) as Hw.
  destruct (c w) as [[a|e] w']; simpl in *; [|done]. by rewrite Hf.
Qed.

Lemma quiet_respond code text : quiet (respond_status code text).
Proof.
  apply quiet_then; [intros w; apply attempts_write|]. intros _ w. apply attempts_flush.
Qed.

Lemma quiet_read fuel buf : quiet (read_more fuel buf).
Proof.
  revert buf. induction fuel as [|fuel IH]; intros buf; [done|].
  apply quiet_then; [intros w; apply attempts_read|]. intros [c|]; [|done].
  cbv zeta. by do 2 (case_match; [done|]).
Qed.

Lemma connect_once request (k : result N.t string → io net string ()) w :
  (∀ r, quiet (k r)) →
  attempts ((connect_upstream request ≫= k) w).2 = attempts w ++ [target_of request].
Proof.
  intros Hk. unfold connect_upstream, attempt, mbind, io_bind.
  pose proof (attempts_connect (target_of request) w) as Hc.
  destruct (connect (target_of request) w) as [r w1]. by rewrite Hk.
Qed.

Lemma tunnel_once request w :
  attempts (tunnel_connect request w).2 = attempts w ++ [target_of request].
Proof.
  apply connect_once. intros [u|]; [|apply quiet_respond].
  apply quiet_then; [intros ?; apply attempts_write|]. intros _.
  apply quiet_then; [intros ?; apply attempts_flush|]. intros _ ?. apply attempts_copy.
Qed.

Lemma forward_once request prelude w :
  attempts (forward_plain request prelude w).2 = attempts w ++ [target_of request].
Proof.
  apply connect_once. intros [u|]; [|apply quiet_respond].
  apply quiet_then; [intros ?; apply attempts_upstream|]. intros _.
  apply quiet_then; [intros ?; apply attempts_upstream_flush|]. intros _ ?. apply attempts_copy.
Qed.

(** C27: one connection to the proxy asks for at most one upstream connection, and only
    when the request parsed, the budget was not exceeded when the headers had been read, and
    the name in the request is a host the configuration lists, or a listed domain or a name
    below one at a label boundary. The name compared is the requested one up to case, white
    space around it, a final dot and what follows a colon. *)
Theorem egress_confined hs ss w r w' :
  handle (Allowlist_new hs ss) w = (r, w') →
  attempts w' = attempts w
  ∨ ∃ prelude w1 request,
      read_prelude w = (Ok prelude, w1) ∧ parse prelude = Some request
      ∧ is_exceeded w1 = false ∧ listed hs ss (normal_host (host request))
      ∧ attempts w' = attempts w ++ [target_of request].
Proof.
  unfold handle. destruct (read_prelude w) as [[prelude|e] w1] eqn:Hp.
  2:{ rewrite (io_bind_run _ _ _ _ _ Hp). intros [= _ <-]. left.
      pose proof (quiet_read MAX_PRELUDE_BYTES "" w) as Hq.
      unfold read_prelude in Hp. by rewrite Hp in Hq. }
  rewrite (io_bind_run _ _ _ _ _ Hp).
  assert (attempts w1 = attempts w) as Hw1.
  { pose proof (quiet_read MAX_PRELUDE_BYTES "" w) as Hq.
    unfold read_prelude in Hp. by rewrite Hp in Hq. }
  assert (∀ code text, respond_status code text w1 = (r, w') → attempts w' = attempts w) as Hr.
  { intros code text Heq. rewrite <-Hw1, <-(quiet_respond code text w1). by rewrite Heq. }
  destruct (parse prelude) as [request|] eqn:Hq; [|by eauto].
  unfold mbind at 1, io_bind at 1, ask. unfold egress_decision.
  destruct (is_exceeded w1) eqn:Hx; [by eauto|].
  destruct (permits _ _) eqn:Ha; [|by eauto]. apply permits_spec in Ha.
  intros Heq. right. exists prelude, w1, request. split_and!; [done..|]. rewrite <-Hw1.
  case_bool_decide.
  - by rewrite <-tunnel_once, Heq.
  - by rewrite <-(forward_once request prelude), Heq.
Qed.
End confinement.

(** * The prelude is bounded *)

Section bounds.
Context `{Network}.

(** More fuel than bytes that may still be buffered changes nothing. *)
Lemma read_more_enough k buf w :
  String.length buf < MAX_PRELUDE_BYTES →
  read_more (MAX_PRELUDE_BYTES - String.length buf + k) buf w
  = read_more (MAX_PRELUDE_BYTES - String.length buf) buf w.
Proof.
  remember (MAX_PRELUDE_BYTES - String.length buf) as n eqn:Hn. revert buf w Hn.
  induction n as [|n IH]; intros buf w Hn Hl; [lia|].
  cbn [read_more Nat.add]. unfold mbind, io_bind.
  destruct (read_byte w) as [[[c|]|] w1]; [|done..].
  cbv zeta. case_match; [done|]. destruct (Nat.leb_spec MAX_PRELUDE_BYTES (String.length (buf +:+ String c "")));
    [done|].
  rewrite length_append in *. cbn [String.length] in *.
  apply IH; rewrite length_append; cbn [String.length]; lia.
Qed.

Lemma read_more_spec fuel buf w prelude w' :
  String.length buf + fuel ≤ MAX_PRELUDE_BYTES →
  read_more fuel buf w = (Ok prelude, w') →
  ∃ more, prelude = buf +:+ more ∧ String.length more ≤ fuel.
Proof.
  revert buf w. induction fuel as [|fuel IH]; intros buf w Hl; cbn [read_more].
  { intros [= <- _]. exists "". by rewrite append_nil_r. }
  unfold mbind, io_bind. destruct (read_byte w) as [[[c|]|] w1]; [| |done].
  2:{ intros [= <- _]. exists "". rewrite append_nil_r. simpl. split; [done|lia]. }
  assert (∀ s, s = buf +:+ String c "" → ∃ more, s = buf +:+ more ∧ String.length more ≤ S fuel)
    as Hone by (intros s ->; exists (String c ""); simpl; split; [done|lia]).
  cbv zeta. case_match; [intros [= <- _]; eauto|]. case_match; [intros [= <- _]; eauto|].
  intros (more&->&Hm)%IH; [|rewrite length_append; simpl; lia].
  exists (String c more). rewrite append_assoc. simpl. split; [done|lia].
Qed.

(** The headers of a request take at most 16 KiB of memory, however long the client
    sends: the reading stops by itself, the fuel of its model is never what ends it. *)
Theorem prelude_bounded w prelude w' :
  read_prelude w = (Ok prelude, w') →
  String.length prelude ≤ MAX_PRELUDE_BYTES
  ∧ ∀ k, read_more (MAX_PRELUDE_BYTES + k) "" w = (Ok prelude, w').
Proof.
  intros Hr. split.
  - apply read_more_spec in Hr as (more&->&Hm); [done|cbn [String.length]; lia].
  - intros k. rewrite <-Hr. apply (read_more_enough k ""). by apply Nat.ltb_lt.
Qed.
End bounds.

(** * Samples *)

(** A client that has sent its bytes, an upstream that accepts: what is left to read and
    the connections asked for. *)
#[local] Instance sample_network : Network :=
  {| net := string * list string;
     read_byte := λ '(s, l), match s with
                             | "" => (Ok None, ("", l))
                             | String c s' => (Ok (Some c), (s', l))
                             end;
     client_write := λ _ w, (Ok tt, w); client_flush := λ w, (Ok tt, w);
     connect := λ t '(s, l), (Ok 0%N, (s, l ++ [t]));
     upstream_write := λ _ _ w, (Ok tt, w); upstream_flush := λ _ w, (Ok tt, w);
     copy_bidirectional := λ _ w, (Ok tt, w); is_exceeded := λ _, false |}.

#[local] Instance sample_log : NetworkLog sample_network.
Proof.
  apply (Build_NetworkLog sample_network (snd : string * list string → list string)); try done.
  - by intros [[] ?].
  - by intros ? [].
Defined.

Definition from_client (bytes : string) : @net sample_network := (bytes, []).

Definition connect_request (authority : string) : string :=
  "CONNECT " +:+ authority +:+ " HTTP/1.1" +:+ crlf +:+ crlf.

Lemma egress_confined_witness :
  ∃ w' request,
    handle Allowlist_default (from_client (connect_request "Index.Crates.io:443")) = (Ok tt, w')
    ∧ attempts w' = ["Index.Crates.io:443"] ∧ target_of request = "Index.Crates.io:443"
    ∧ listed DEFAULT_HOSTS DEFAULT_SUFFIXES (normal_host (host request)).
Proof.
  destruct (handle Allowlist_default (from_client (connect_request "Index.Crates.io:443")))
    as [r w'] eqn:Hh.
  pose proof (egress_confined DEFAULT_HOSTS DEFAULT_SUFFIXES _ _ _ Hh) as Hc.
  assert (r = Ok tt ∧ w' = ("", ["Index.Crates.io:443"])) as [-> ->].
  { vm_compute in Hh. by injection Hh as <- <-. }
  destruct Hc as [Hc|(prelude&w1&request&Hr&Hp&Hx&Hl&Hc)]; [discriminate Hc|].
  eexists _, request. split; [reflexivity|]. split; [reflexivity|]. split; [|exact Hl].
  change (["Index.Crates.io:443"] = [target_of request]) in Hc. by injection Hc as <-.
Defined.

Lemma prelude_bounded_witness :
  ∃ w', read_prelude (from_client (connect_request "crates.io" +:+ "body")) =
    (Ok (connect_request "crates.io"), w') ∧ fst (A := string) (B := list string) w' = "body"
    ∧ String.length (connect_request "crates.io") ≤ MAX_PRELUDE_BYTES.
Proof.
  destruct (read_prelude (from_client (connect_request "crates.io" +:+ "body"))) as [r w'] eqn:Hr.
  assert (r = Ok (connect_request "crates.io") ∧ w' = ("body", [])) as [-> ->].
  { vm_compute in Hr. by injection Hr as <- <-. }
  eexists. split; [reflexivity|]. split; [reflexivity|].
  apply (prelude_bounded _ _ _ Hr).
Defined.

(** Other hosts and a spent budget are refused without a connection. *)
Lemma refused_without_connection :
  (handle Allowlist_default (from_client (connect_request "crates.io.attacker.com:443"))).2 = from_client ""
  ∧ egress_decision "crates.io" Allowlist_default true = DenyBudget.
Proof. by vm_compute. Qed.

(** The verdict is on what precedes the first colon of the host, the connection is made to
    what precedes the last one of the authority. *)
Lemma host_compared_is_not_host_reached :
  (handle Allowlist_default (from_client (connect_request "github.com:evil.example:443"))).2
  = ("", ["github.com:evil.example:443"]).
Proof. by vm_compute. Qed.

(** Requests as the proxy reads them. *)
Lemma parse_samples :
  parse ("GET http://uri.example/path HTTP/1.1" +:+ crlf +:+ "Host: header.example" +:+ crlf
         +:+ crlf)
  = Some {| method := "GET"; host := "uri.example"; port := 80 |}
  ∧ parse ("get /api HTTP/1.1" +:+ crlf +:+ "Host: a:b@index.crates.io:8080" +:+ crlf +:+ crlf)
    = Some {| method := "GET"; host := "index.crates.io"; port := 8080 |}
  ∧ parse (crlf +:+ crlf) = None
  ∧ parse ("GET /api HTTP/1.1" +:+ crlf +:+ "HOST: crates.io" +:+ crlf +:+ crlf) = None.
Proof. by vm_compute. Qed.
