(* ===== verification/Containers.v ===== *)
(** Containers: the OCI runner, agent sessions, the container life cycle and the micro-VM
    runner (src/components/jeryu-ci-runner/crates/jeryu-runner-oci/src and
    jeryu-runner-microvm/src).

    The container engine is a command line run through the host; [ContainerRuntime] and
    [ContainerLifecycle] are the traits, with the command line and the recording fake as
    implementations. *)

From Stdlib Require Import Ascii ZArith.
From S2P Require Import Prelude Text Paths RunnerCore Seccomp Hosts Native.
Local Open Scope result_scope.

(** * Launch specifications (lib.rs) *)

Record AgentHardening : Type := {
  uid : N; gid : N; hard_memory : N; hard_pids : N; cpu_shares : N; tmpfs : list string;
  seccomp_profile_path : string
}.

Record OciSpec : Type := {
  oci_runtime : string; image : string; oci_workspace : string; oci_command : list string;
  oci_network : string; oci_env : list (string * string); hardening : option AgentHardening
}.

Definition network_arg (n : NetworkPolicy) : string :=
  match n with Deny => "none" | other => NetworkPolicy_as_str other end.

Definition not_oci (plan : SandboxPlan) : RunnerError :=
  RunnerError_new "invalid_oci_runner"
    (RunnerClass_as_str (plan_class plan) +:+ " is not oci-docker").

Section specs.
Context `{Host}.

Definition oci_engine {E} : io world E string := env_or "JERYU_OCI_RUNTIME" "podman".

Definition OciSpec_from_job (job : JobRequest) (plan : SandboxPlan) :
    io world RunnerError OciSpec :=
  if negb (bool_decide (plan_class plan = OciDocker)) then fail (not_oci plan)
  else
    _ ← from_result (deny_dangerous_host_path (workspace job));
    rt ← oci_engine;
    img ← env_or "JERYU_OCI_IMAGE" "docker.io/library/rust:latest";
    mret {| oci_runtime := rt; image := img; oci_workspace := workspace job;
            oci_command := command job :: args job;
            oci_network := network_arg (plan_network plan); oci_env := []; hardening := None |}.

Definition agent_network_denied (job : JobRequest) (plan : SandboxPlan) : RunnerError :=
  RunnerError_new "invalid_agent_network_policy"
    ("agent containers require both requested and effective network policy deny; requested="
     +:+ NetworkPolicy_as_str (network_policy job) +:+ ", effective="
     +:+ NetworkPolicy_as_str (plan_network plan)
     +:+ "; model egress requires the separate proxy bridge").

Definition OciSpec_from_agent_job (job : JobRequest) (plan : SandboxPlan) :
    io world RunnerError OciSpec :=
  if negb (bool_decide (plan_class plan = OciDocker)) then fail (not_oci plan)
  else
    _ ← from_result (deny_dangerous_host_path (workspace job));
    if negb (bool_decide (network_policy job = Deny)) || negb (bool_decide (plan_network plan = Deny))
    then fail (agent_network_denied job plan)
    else
      rt ← oci_engine;
      img ← env_or "JERYU_AGENT_IMAGE" "localhost/jeryu/agent-sandbox:latest";
      dir ← env_or "JERYU_AGENT_SECCOMP_DIR" "/opt/jeryu/seccomp";
      mret {| oci_runtime := rt; image := img; oci_workspace := workspace job;
              oci_command := command job :: args job; oci_network := "none"; oci_env := [];
              hardening :=
                Some {| uid := 1000; gid := 1000;
                        hard_memory := memory_max_bytes (cgroup_limits plan);
                        hard_pids := pids_max (cgroup_limits plan);
                        cpu_shares := N.max (cpu_weight (cgroup_limits plan)) 2;
                        tmpfs := ["/tmp"];
                        seccomp_profile_path :=
                          dir +:+ "/" +:+ seccomp_name (seccomp plan) +:+ ".json" |} |}.
End specs.

Definition hardening_args (h : AgentHardening) : list string :=
  ["--read-only"]
  ++ flat_map (λ t, ["--tmpfs"; t +:+ ":rw,nosuid,nodev,noexec"]) (tmpfs h)
  ++ ["--cap-drop=ALL"; "--security-opt"; "no-new-privileges"; "--security-opt";
      "seccomp=" +:+ seccomp_profile_path h; "--user"; show_N (uid h) +:+ ":" +:+ show_N (gid h)]
  ++ (if (0 <? hard_memory h)%N then ["--memory"; show_N (hard_memory h)] else [])
  ++ (if (0 <? hard_pids h)%N then ["--pids-limit"; show_N (hard_pids h)] else [])
  ++ ["--cpu-shares"; show_N (cpu_shares h)].

Definition OciSpec_args (s : OciSpec) : list string :=
  ["run"; "--rm"]
  ++ match hardening s with Some h => hardening_args h | None => [] end
  ++ flat_map (λ kv, ["-e"; kv.1 +:+ "=" +:+ kv.2]) (oci_env s)
  ++ ["--network"; oci_network s; "-v"; oci_workspace s +:+ ":/workspace:Z"; "-w"; "/workspace";
      image s]
  ++ oci_command s.

Definition live_pty_args (s : OciSpec) (run_id : string) : list string :=
  let l := OciSpec_args s in
  let insert_at := Nat.min 2 (length l) in
  take insert_at l ++ ["-i"; "-t"; "--name"; "jeryu-agent-" +:+ run_id] ++ drop insert_at l.

Definition OciSpec_explain (s : OciSpec) : string :=
  "oci runtime=" +:+ oci_runtime s +:+ " " +:+ join " " (OciSpec_args s).

(** * Runtimes (runtime.rs, lifecycle.rs) *)

Record RuntimeOutcome : Type := { outcome_exit : option Z; ran : bool }.

Record WarmContainer : Type := { container_id : string; container_label : string }.

Definition WORKCELL_LABEL : string := "jeryu.workcell".

Record WarmContainerSpec : Type := {
  warm_runtime : string; warm_image : string; warm_network : string; warm_workcell : string
}.

Definition WarmContainerSpec_args (s : WarmContainerSpec) : list string :=
  ["run"; "--detach"; "--label"; WORKCELL_LABEL +:+ "=" +:+ warm_workcell s; "--network";
   warm_network s; warm_image s; "sleep"; "infinity"].

Definition WarmContainerSpec_argv (s : WarmContainerSpec) : list string :=
  warm_runtime s :: WarmContainerSpec_args s.

Class ContainerRuntime (W : Type) : Type := {
  runtime_name : string;
  run : OciSpec → io W RunnerError RuntimeOutcome
}.

Class ContainerLifecycle (W : Type) : Type := {
  start_warm : string → io W RunnerError string;
  list_workcells : io W RunnerError (list WarmContainer);
  remove : string → io W RunnerError ()
}.

(** ** The command line *)

Section cli.
Context `{Host}.

Definition gate_open {E} : io world E bool :=
  ask (λ w, bool_decide (getenv "JERYU_RUN_OCI" w = Some "1")).

Definition cli_run (s : OciSpec) : io world RunnerError RuntimeOutcome :=
  opened ← gate_open;
  if negb opened then mret {| outcome_exit := None; ran := false |}
  else
    out ← io_map_err (RunnerError_new "oci_start_failed")
            (run_process (oci_runtime s) (OciSpec_args s));
    mret {| outcome_exit := exit out; ran := true |}.

(** [String::from_utf8_lossy(bytes).trim()]. *)
Definition lossy_trim (bytes : string) : string := trim (from_utf8_lossy bytes).

(** An engine command, whose failure to start or to succeed has the code. *)
Definition engine_output (code program : string) (l : list string) :
    io world RunnerError Output :=
  out ← io_map_err (RunnerError_new code) (run_process program l);
  if success out then mret out else fail (RunnerError_new code (lossy_trim (stderr out))).

Definition cli_start_warm (workcell_id : string) : io world RunnerError string :=
  engine ← oci_engine;
  img ← env_or "JERYU_AGENT_IMAGE" "localhost/jeryu/agent-sandbox:latest";
  let s := {| warm_runtime := engine; warm_image := img; warm_network := "none";
              warm_workcell := workcell_id |} in
  opened ← gate_open;
  if negb opened then mret ("planned-" +:+ workcell_id)
  else
    out ← engine_output "oci_warm_failed" (warm_runtime s) (WarmContainerSpec_args s);
    mret (lossy_trim (stdout out)).

Definition tab : ascii := "009"%char.

(** One line of the listing: two columns, neither blank. *)
Definition listed (line : string) : option WarmContainer :=
  match split_once tab line with
  | None => None
  | Some (id, cell) =>
      let id := trim id in
      let cell := trim cell in
      if str_is_empty id || str_is_empty cell then None
      else Some {| container_id := id; container_label := cell |}
  end.

Definition list_args : list string :=
  ["ps"; "--all"; "--filter"; "label=" +:+ WORKCELL_LABEL; "--format";
   "{{.ID}}" +:+ String tab ("{{.Label " +:+ String quote_byte
     (WORKCELL_LABEL +:+ String quote_byte "}}"))].

Definition cli_list_workcells : io world RunnerError (list WarmContainer) :=
  opened ← gate_open;
  if negb opened then mret []
  else
    engine ← oci_engine;
    out ← engine_output "oci_list_failed" engine list_args;
    mret (omap listed (lines (from_utf8_lossy (stdout out)))).

Definition cli_remove (id : string) : io world RunnerError () :=
  opened ← gate_open;
  if negb opened then mret tt
  else
    engine ← oci_engine;
    _ ← engine_output "oci_remove_failed" engine ["rm"; "--force"; id];
    mret tt.
End cli.

Definition cli_runtime `{Host} : ContainerRuntime world :=
  {| runtime_name := "cli"; run := cli_run |}.

Definition cli_lifecycle `{Host} : ContainerLifecycle world :=
  {| start_warm := cli_start_warm; list_workcells := cli_list_workcells; remove := cli_remove |}.

(** ** The recording fake *)

Inductive LifecycleOp : Type :=
  | StartWarm (workcell container : string) (argv : list string)
  | List
  | Remove (container : string).

Record FakeContainerRuntime : Type := {
  fake_exit : Z; invocations : list (list string); lifecycle_ops : list LifecycleOp;
  warm : list WarmContainer; next_cid : N
}.

Definition FakeContainerRuntime_with_exit_code (code : Z) : FakeContainerRuntime :=
  {| fake_exit := code; invocations := []; lifecycle_ops := []; warm := []; next_cid := 0 |}.

Definition fake_container (serial : N) : string := "fake-ctr-" +:+ pad_left 4 (show_N serial).

(** The counter is atomic and wraps; so does the addition of a release build. *)
Definition fake_start_warm (workcell_id : string) : io FakeContainerRuntime RunnerError string :=
  λ f,
    let serial := wrapping_add64 (next_cid f) 1 in
    let id := fake_container serial in
    let s := {| warm_runtime := "fake"; warm_image := "agent-sandbox:fake";
                warm_network := "none"; warm_workcell := workcell_id |} in
    (Ok id,
     {| fake_exit := fake_exit f; invocations := invocations f;
        lifecycle_ops := lifecycle_ops f ++ [StartWarm workcell_id id (WarmContainerSpec_argv s)];
        warm := warm f ++ [{| container_id := id; container_label := workcell_id |}];
        next_cid := serial |}).

Definition fake_list_workcells : io FakeContainerRuntime RunnerError (list WarmContainer) :=
  λ f,
    (Ok (warm f),
     {| fake_exit := fake_exit f; invocations := invocations f;
        lifecycle_ops := lifecycle_ops f ++ [List]; warm := warm f; next_cid := next_cid f |}).

Definition fake_remove (id : string) : io FakeContainerRuntime RunnerError () :=
  λ f,
    (Ok tt,
     {| fake_exit := fake_exit f; invocations := invocations f;
        lifecycle_ops := lifecycle_ops f ++ [Remove id];
        warm := List.filter (λ c, negb (bool_decide (container_id c = id))) (warm f);
        next_cid := next_cid f |}).

Definition fake_run (s : OciSpec) : io FakeContainerRuntime RunnerError RuntimeOutcome :=
  λ f,
    (Ok {| outcome_exit := Some (fake_exit f); ran := true |},
     {| fake_exit := fake_exit f;
        invocations := invocations f ++ [oci_runtime s :: OciSpec_args s];
        lifecycle_ops := lifecycle_ops f; warm := warm f; next_cid := next_cid f |}).

#[export] Instance fake_runtime : ContainerRuntime FakeContainerRuntime :=
  {| runtime_name := "fake"; run := fake_run |}.

#[export] Instance fake_lifecycle : ContainerLifecycle FakeContainerRuntime :=
  {| start_warm := fake_start_warm; list_workcells := fake_list_workcells;
     remove := fake_remove |}.

(** * Agent sessions (session.rs) *)

Record AgentSessionPlan : Type := {
  ses_owner : string; ses_repo : string; ses_agent : string; ses_run : string;
  ses_branch : string; base_ref : string; base_oid : string; ses_workspace : string;
  git_steps : list (list string); container : OciSpec
}.

(** [chars().any(char::is_whitespace)]. *)
Fixpoint has_whitespace (s : string) : bool :=
  match s with
  | "" => false
  | String _ s' => bool_decide (is_Some (strip_ws false s)) || has_whitespace s'
  end.

Definition with_env (s : OciSpec) (e : list (string * string)) : OciSpec :=
  {| oci_runtime := oci_runtime s; image := image s; oci_workspace := oci_workspace s;
     oci_command := oci_command s; oci_network := oci_network s; oci_env := e;
     hardening := hardening s |}.

Definition session_branch (agent_id run_id : string) : string :=
  "agents/" +:+ agent_id +:+ "/sessions/" +:+ run_id.

Section runners.
Context `{Host}.

Definition valid_session_id (value : string) : bool :=
  negb (str_is_empty value) && negb (str_contains "/" value) && negb (has_whitespace value).

Definition validate_session_id (label value : string) : RunnerResult () :=
  if valid_session_id value then Ok tt
  else Err (RunnerError_new "invalid_session_id"
              (label +:+ " must be non-empty and contain no '/' or whitespace: "
               +:+ debug_text value)).

Definition plan_agent_session (owner repo agent_id run_id oid origin_url : string)
    (job : JobRequest) (plan : SandboxPlan) : io world RunnerError AgentSessionPlan :=
  _ ← from_result (validate_session_id "agent_id" agent_id);
  _ ← from_result (validate_session_id "run_id" run_id);
  let branch := session_branch agent_id run_id in
  spec ← OciSpec_from_agent_job job plan;
  mret {| ses_owner := owner; ses_repo := repo; ses_agent := agent_id; ses_run := run_id;
          ses_branch := branch; base_ref := "refs/heads/main"; base_oid := oid;
          ses_workspace := workspace job;
          git_steps :=
            [["clone"; "--single-branch"; "--branch"; "main"; origin_url; workspace job];
             ["-C"; workspace job; "checkout"; "-b"; branch; oid]];
          container :=
            with_env spec [("JERYU_BRANCH", branch); ("JERYU_REAL_GIT", "/usr/bin/git");
                           ("JANKURAI_DIFF_BASE", oid)] |}.

(** * The OCI runner (lib.rs) *)

Definition outcome_receipt_status (o : RuntimeOutcome) : ReceiptStatus :=
  if negb (ran o) then Planned
  else if bool_decide (outcome_exit o = Some 0%Z) then Passed else Failed.

Definition OciRunner_execute `{ContainerRuntime world} (job : JobRequest) (d : PolicyDecision)
    (plan : SandboxPlan) : io world RunnerError Receipt :=
  spec ← OciSpec_from_job job plan;
  started ← now_ms;
  outcome ← attempt (run spec);
  finished ← now_ms;
  mret (match outcome with
        | Ok o => Receipt_new job d plan (outcome_receipt_status o) (outcome_exit o) started
                    finished (OciSpec_explain spec)
        | Err err => Receipt_new job d plan Failed None started finished
                       (RunnerError_to_string err +:+ "; " +:+ OciSpec_explain spec)
        end).

Definition launch_session `{ContainerRuntime world} (plan : AgentSessionPlan) :
    io world RunnerError RuntimeOutcome := run (container plan).

(** * The micro-VM runner (jeryu-runner-microvm) *)

Record MicroVmSpec : Type := {
  executable : string; kernel_image : string; rootfs_image : string; vm_workspace : string;
  guest_command : list string; vm_network : string
}.

Definition MicroVmSpec_from_job (job : JobRequest) (plan : SandboxPlan) :
    io world RunnerError MicroVmSpec :=
  if negb (bool_decide (plan_class plan = MicroVmRust)) then
    fail (RunnerError_new "invalid_microvm_runner"
            (RunnerClass_as_str (plan_class plan) +:+ " is not microvm-rust"))
  else
    exe ← env_or "JERYU_MICROVM_BIN" "firecracker";
    kernel ← env_or "JERYU_MICROVM_KERNEL" "/var/lib/jeryu/microvm/vmlinux";
    rootfs ← env_or "JERYU_MICROVM_ROOTFS" "/var/lib/jeryu/microvm/rust-rootfs.ext4";
    mret {| executable := exe; kernel_image := kernel; rootfs_image := rootfs;
            vm_workspace := workspace job; guest_command := command job :: args job;
            vm_network := NetworkPolicy_as_str (plan_network plan) |}.

Definition MicroVmSpec_explain (s : MicroVmSpec) : string :=
  "microvm executable=" +:+ executable s +:+ " kernel=" +:+ kernel_image s +:+ " rootfs="
  +:+ rootfs_image s +:+ " workspace=" +:+ vm_workspace s +:+ " network=" +:+ vm_network s
  +:+ " argv=" +:+ join " " (guest_command s).

Definition MicroVmRunner_execute (job : JobRequest) (d : PolicyDecision) (plan : SandboxPlan) :
    io world RunnerError Receipt :=
  spec ← MicroVmSpec_from_job job plan;
  started ← now_ms;
  opened ← ask (λ w, bool_decide (getenv "JERYU_RUN_MICROVM" w = Some "1"));
  if negb opened then
    mret (Receipt_new job d plan Planned None started started (MicroVmSpec_explain spec))
  else
    output ← attempt (run_process (executable spec) ["--no-api"]);
    finished ← now_ms;
    mret (match output with
          | Ok out => Receipt_new job d plan (if success out then Passed else Failed) (exit out)
                        started finished (MicroVmSpec_explain spec)
          | Err err => Receipt_new job d plan Failed None started finished
                         ("microvm_start_failed: " +:+ err +:+ "; " +:+ MicroVmSpec_explain spec)
          end).
End runners.

(** * Lemmas *)

(** The options of a command line, as the engines read them: those that take a value are
    followed by it. *)
Definition VALUED : list string :=
  ["--tmpfs"; "--security-opt"; "--user"; "--memory"; "--pids-limit"; "--cpu-shares"; "-e";
   "--network"; "-v"; "-w"; "--name"].

Fixpoint option_pairs (l : list string) : list (string * option string) :=
  match l with
  | [] => []
  | x :: rest =>
      if bool_decide (x ∈ VALUED) then
        match rest with
        | v :: rest => (x, Some v) :: option_pairs rest
        | [] => [(x, None)]
        end
      else (x, None) :: option_pairs rest
  end.

Definition option_values (flag : string) (l : list string) : list (option string) :=
  snd <$> List.filter (λ kv, bool_decide (kv.1 = flag)) (option_pairs l).

Section sessions.
Context `{Host}.

Lemma agent_spec_shape job plan w spec w' :
  OciSpec_from_agent_job job plan w = (Ok spec, w') →
  plan_class plan = OciDocker ∧ network_policy job = Deny ∧ plan_network plan = Deny
  ∧ deny_dangerous_host_path (workspace job) = Ok tt
  ∧ oci_network spec = "none" ∧ oci_workspace spec = workspace job
  ∧ oci_command spec = command job :: args job
  ∧ ∃ h, hardening spec = Some h ∧ uid h = 1000%N ∧ gid h = 1000%N ∧ tmpfs h = ["/tmp"]
      ∧ hard_memory h = memory_max_bytes (cgroup_limits plan)
      ∧ hard_pids h = pids_max (cgroup_limits plan).
Proof.
  unfold OciSpec_from_agent_job. case_bool_decide as Hc; [|done]. cbn [negb].
  destruct (deny_dangerous_host_path (workspace job)) as [[]|]; [|done].
  unfold mbind at 1, io_bind at 1, from_result at 1.
  case_bool_decide as Hn; [|done]. case_bool_decide as Hp; [|done]. cbn [negb orb].
  intros [= <- <-]. cbn. split_and!; try done. by eexists.
Qed.

(** The options a container is started with: after [run], up to the image. *)
Definition oci_options (s : OciSpec) : list string :=
  "--rm" :: match hardening s with Some h => hardening_args h | None => [] end
  ++ flat_map (λ kv, ["-e"; kv.1 +:+ "=" +:+ kv.2]) (oci_env s)
  ++ ["--network"; oci_network s; "-v"; oci_workspace s +:+ ":/workspace:Z"; "-w"; "/workspace"].

Definition live_options (s : OciSpec) (run_id : string) : list string :=
  ["--rm"; "-i"; "-t"; "--name"; "jeryu-agent-" +:+ run_id] ++ tail (oci_options s).

Lemma args_options s : OciSpec_args s = "run" :: oci_options s ++ image s :: oci_command s.
Proof. unfold OciSpec_args, oci_options. cbn. by rewrite <-!app_assoc. Qed.

Lemma live_args_options s run_id :
  live_pty_args s run_id = "run" :: live_options s run_id ++ image s :: oci_command s.
Proof. unfold live_pty_args. by rewrite args_options. Qed.

(** The confinement of an agent's container, read off its options. *)
Record agent_confined (ws branch oid : string) (options : list string) : Prop := {
  ac_mounts : option_values "-v" options = [Some (ws +:+ ":/workspace:Z")];
  ac_network : option_values "--network" options = [Some "none"];
  ac_user : option_values "--user" options = [Some "1000:1000"];
  ac_security : ∃ profile,
    option_values "--security-opt" options
    = [Some "no-new-privileges"; Some ("seccomp=" +:+ profile)];
  ac_readonly : "--read-only" ∈ options ∧ "--cap-drop=ALL" ∈ options;
  ac_tmpfs : option_values "--tmpfs" options = [Some "/tmp:rw,nosuid,nodev,noexec"];
  ac_env : option_values "-e" options
    = [Some ("JERYU_BRANCH=" +:+ branch); Some "JERYU_REAL_GIT=/usr/bin/git";
       Some ("JANKURAI_DIFF_BASE=" +:+ oid)];
  ac_privileged : option_values "--privileged" options = []
}.

Lemma session_shape owner repo agent run_id oid url job plan w s w' :
  plan_agent_session owner repo agent run_id oid url job plan w = (Ok s, w') →
  valid_session_id agent = true ∧ valid_session_id run_id = true
  ∧ ses_branch s = session_branch agent run_id ∧ ses_workspace s = workspace job
  ∧ base_oid s = oid
  ∧ git_steps s =
      [["clone"; "--single-branch"; "--branch"; "main"; url; workspace job];
       ["-C"; workspace job; "checkout"; "-b"; session_branch agent run_id; oid]]
  ∧ ∃ spec w1, OciSpec_from_agent_job job plan w = (Ok spec, w1)
      ∧ container s =
          with_env spec [("JERYU_BRANCH", session_branch agent run_id);
                         ("JERYU_REAL_GIT", "/usr/bin/git"); ("JANKURAI_DIFF_BASE", oid)].
Proof.
  unfold plan_agent_session, validate_session_id, mbind, io_bind, from_result.
  destruct (valid_session_id agent); [|done]. destruct (valid_session_id run_id); [|done].
  destruct (OciSpec_from_agent_job job plan w) as [[spec|] w1]; [|done].
  intros [= <- <-]. cbn. split_and!; try done. by exists spec, w1.
Qed.

(** C24: an agent session is confined to its workspace. A session that can be planned runs,
    detached or on a terminal, in a container with one mount, the workspace, no network,
    no root, no capabilities, a read-only root file system and a seccomp profile; its
    environment is the branch, the real git and the base commit, without credentials; its
    program is the job's; and the branch it may push is checked out at the base. *)
Theorem agent_session_confined owner repo agent run_id oid url job plan w s w' :
  plan_agent_session owner repo agent run_id oid url job plan w = (Ok s, w') →
  let spec := container s in
  agent_confined (workspace job) (ses_branch s) oid (oci_options spec)
  ∧ agent_confined (workspace job) (ses_branch s) oid (live_options spec run_id)
  ∧ OciSpec_args spec = "run" :: oci_options spec ++ image spec :: command job :: args job
  ∧ live_pty_args spec run_id
    = "run" :: live_options spec run_id ++ image spec :: command job :: args job
  ∧ deny_dangerous_host_path (workspace job) = Ok tt
  ∧ last (git_steps s) = Some ["-C"; workspace job; "checkout"; "-b"; ses_branch s; oid].
Proof.
  intros (_ & _ & Hb & _ & _ & Hg & spec & w1 & Hs & Hc)%session_shape.
  cbv zeta.
  rewrite args_options, live_args_options, Hc, Hb, Hg.
  apply agent_spec_shape in Hs
    as (_ & _ & _ & Hd & Hnet & Hws & Hcmd & h & Hh & Hu & Hgid & Ht & _).
  unfold live_options, oci_options. cbn [with_env oci_network oci_workspace oci_env hardening
    oci_command image tail].
  rewrite Hnet, Hws, Hcmd, Hh. unfold hardening_args. rewrite Hu, Hgid, Ht.
  split_and!; [| |done..].
  all: destruct (0 <? hard_memory h)%N, (0 <? hard_pids h)%N.
  all: split; try reflexivity; [eexists; reflexivity|].
  all: split; apply list_elem_of_In; cbn; tauto.
Qed.

(** ** Branches *)

Lemma no_slash_cons c s :
  str_contains "/" (String c s) = false → c ≠ "/"%char ∧ str_contains "/" s = false.
Proof.
  cbn [str_contains]. intros [Hs Hr]%orb_false_iff. split; [|done]. intros ->.
  assert (starts_with (String "/" s) "/" = true) as He; [|congruence].
  apply starts_with_spec. by exists s.
Qed.

Lemma slash_split a b t u :
  str_contains "/" a = false → str_contains "/" b = false →
  a +:+ String "/" t = b +:+ String "/" u → a = b ∧ t = u.
Proof.
  revert b. induction a as [|c a IH]; intros [|d b] Ha Hb; cbn; intros He;
    simplify_eq; try done.
  apply no_slash_cons in Ha as [_ Ha]. apply no_slash_cons in Hb as [_ Hb].
  by edestruct (IH b Ha Hb) as [-> ->].
Qed.

Lemma valid_id_no_slash v : valid_session_id v = true → v ≠ "" ∧ str_contains "/" v = false.
Proof.
  unfold valid_session_id. intros [[Hn Hs]%andb_true_iff _]%andb_true_iff.
  apply negb_true_iff in Hn, Hs. split; [|done]. intros ->. by vm_compute in Hn.
Qed.

(** Sessions never share a branch. The branch of a session that can be planned is in
    its agent's name space, under its run; two sessions have the same branch only if agent
    and run are the same; and no session's branch is the main branch or a full ref. *)
Theorem session_branches_apart o r a1 r1 b1 u j p w s1 w1 o' r' a2 r2 b2 u' j' p' w' s2 w2 :
  plan_agent_session o r a1 r1 b1 u j p w = (Ok s1, w1) →
  plan_agent_session o' r' a2 r2 b2 u' j' p' w' = (Ok s2, w2) →
  (ses_branch s1 = ses_branch s2 ↔ a1 = a2 ∧ r1 = r2)
  ∧ starts_with (ses_branch s1) ("agents/" +:+ a1 +:+ "/sessions/") = true
  ∧ ses_branch s1 ≠ "main" ∧ starts_with (ses_branch s1) "refs/" = false.
Proof.
  intros (Ha1 & Hr1 & -> & _)%session_shape (Ha2 & Hr2 & -> & _)%session_shape.
  unfold session_branch. split_and!.
  - split; [|by intros [-> ->]]. cbn. intros [= He].
    apply slash_split in He as [-> He]; [|by apply valid_id_no_slash..].
    by injection He as ->.
  - apply starts_with_spec. exists r1. by rewrite !append_assoc.
  - done.
  - reflexivity.
Qed.
End sessions.
