(* ===== verification/WarmPool.v ===== *)
(** WarmPool: containers kept warm for agent sessions
    (src/components/jeryu-ci-runner/crates/jeryu-runnerd/src/warm_pool.rs).

    The pool is proved against the interface [Engine]: what a container runtime promises of
    the calls of [ContainerLifecycle]. The recording fake keeps these promises. *)

From Stdlib Require Import ZArith.
From S2P Require Import Prelude Text Paths RunnerCore Seccomp Hosts Containers Workcells.

(** * The pool *)

Record WarmEntry : Type := { entry_cell : string; entry_container : string }.

Record SessionClaim : Type := {
  sc_owner : string; sc_repo : string; sc_run : string; sc_base : string; sc_origin : string;
  sc_job : JobRequest; sc_plan : SandboxPlan; sc_claim : WorkcellClaimRequest
}.

Record ClaimedCell : Type := {
  cc_container : string; cc_lease : WorkcellLease; cc_session : AgentSessionPlan
}.

Definition ClaimedCell_branch (c : ClaimedCell) : string := ses_branch (cc_session c).

Record WarmPool : Type := {
  manager : WorkcellManager; pool_target : nat; warm_entries : list WarmEntry
}.

Definition set_manager (p : WarmPool) (m : WorkcellManager) : WarmPool :=
  {| manager := m; pool_target := pool_target p; warm_entries := warm_entries p |}.

Definition set_warm (p : WarmPool) (l : list WarmEntry) : WarmPool :=
  {| manager := manager p; pool_target := pool_target p; warm_entries := l |}.

Definition warm_depth (p : WarmPool) : nat := length (warm_entries p).

Definition warm_container_ids (p : WarmPool) : list string :=
  isort String.leb (map entry_container (warm_entries p)).

Definition workcell_to_runner (e : WorkcellError) : RunnerError :=
  RunnerError_new (reason e) (Workcells.err_message e).

Section pool.
Context `{Host} `{ContainerLifecycle world}.

(** A method of the pool: its fields and the world. *)
Abbreviation method A := (io (WarmPool * world) RunnerError A).

Definition on_world {A} (c : io world RunnerError A) : method A := λ s,
  let (r, w) := c s.2 in (r, (s.1, w)).

Definition the_pool : method WarmPool := λ s, (Ok s.1, s).

Definition put_pool (p : WarmPool) : method () := λ s, (Ok tt, (p, s.2)).

Definition warm_cell : method WarmEntry :=
  p ← the_pool;
  let (cell, m) := warm_one (manager p) in
  _ ← put_pool (set_manager p m);
  c ← on_world (start_warm cell);
  mret {| entry_cell := cell; entry_container := c |}.

(** [while warm.len() < target]: every turn adds one, so the fuel is what is missing. *)
Fixpoint refill_go (fuel : nat) : method () :=
  p ← the_pool;
  if bool_decide (warm_depth p < pool_target p) then
    match fuel with
    | O => mret tt
    | S fuel =>
        e ← warm_cell;
        p ← the_pool;
        _ ← put_pool (set_warm p (warm_entries p ++ [e]));
        refill_go fuel
    end
  else mret tt.

Definition refill : method () :=
  p ← the_pool;
  refill_go (pool_target p - warm_depth p).

(** The pool of [new], or the error of its first refill. *)
Definition WarmPool_new (target : nat) : io world RunnerError WarmPool := λ w,
  let '(r, (p, w)) :=
    refill ({| manager := WorkcellManager_new; pool_target := target; warm_entries := [] |}, w) in
  (match r with Ok _ => Ok p | Err e => Err e end, w).

Definition take_entry : method WarmEntry :=
  p ← the_pool;
  match warm_entries p with
  | e :: q => _ ← put_pool (set_warm p q); mret e
  | [] => warm_cell
  end.

Definition WarmPool_claim (r : SessionClaim) : method ClaimedCell :=
  e ← take_entry;
  p ← the_pool;
  let (lease, m) := claim_ready (manager p) (entry_cell e) (sc_claim r) in
  _ ← put_pool (set_manager p m);
  _ ← refill;
  lease ← from_result (map_err workcell_to_runner lease);
  session ← on_world (plan_agent_session (sc_owner r) (sc_repo r) (req_agent (sc_claim r))
                        (sc_run r) (sc_base r) (sc_origin r) (sc_job r) (sc_plan r));
  mret {| cc_container := entry_container e; cc_lease := lease; cc_session := session |}.

Fixpoint reap_each (active : gset string) (found : list WarmContainer) (reaped : list string) :
    io world RunnerError (list string) :=
  match found with
  | [] => mret reaped
  | c :: found =>
      if bool_decide (container_label c ∈ active) then reap_each active found reaped
      else
        _ ← remove (container_id c);
        reap_each active found (reaped ++ [container_id c])
  end.

Definition reap_orphans (active : gset string) : io world RunnerError (list string) :=
  found ← list_workcells;
  reaped ← reap_each active found [];
  mret (isort String.leb reaped).
End pool.

(** * What an engine promises *)

Class Engine (W : Type) `{ContainerLifecycle W} : Type := {
  running : W → gmap string string;
  (** How many containers can still be given a name of their own. *)
  starts_left : W → N;
  engine_ok : W → Prop;
  start_law w id r w' :
    engine_ok w → (0 < starts_left w)%N → start_warm id w = (r, w') →
    engine_ok w' ∧ (starts_left w ≤ starts_left w' + 1)%N
    ∧ match r with
      | Ok c => running w !! c = None ∧ running w' = <[c := id]> (running w)
      | Err _ => running w' = running w
      end;
  list_law w r w' :
    engine_ok w → list_workcells w = (r, w') →
    engine_ok w' ∧ starts_left w' = starts_left w ∧ running w' = running w
    ∧ match r with
      | Ok l => NoDup (map container_id l)
                ∧ ∀ c id, {| container_id := c; container_label := id |} ∈ l
                          ↔ running w !! c = Some id
      | Err _ => True
      end;
  remove_law w c r w' :
    engine_ok w → remove c w = (r, w') →
    engine_ok w' ∧ starts_left w' = starts_left w
    ∧ running w' = match r with Ok _ => delete c (running w) | Err _ => running w end
}.

(** * The invariant *)

Section laws.
Context `{Host} `{Engine world}.

(** [held] are the containers handed out to sessions. *)
Record pool_inv (m : WorkcellManager) (es held : list WarmEntry) (w : world) : Prop := {
  pi_engine : engine_ok w;
  pi_manager : manager_ok m;
  pi_running : ∀ e, e ∈ es ++ held → running w !! entry_container e = Some (entry_cell e);
  pi_apart : NoDup (map entry_container (es ++ held));
  pi_cells : NoDup (map entry_cell es);
  pi_ready : ∀ e, e ∈ es → entry_cell e ∈ ready_queue m
}.

(** Room for [n] more cells. *)
Definition pool_room (m : WorkcellManager) (w : world) (n : N) : Prop :=
  (next_id m + n ≤ u64_max)%N ∧ (n ≤ starts_left w)%N.

Lemma warm_cell_ok p w held r p' w' :
  pool_inv (manager p) (warm_entries p) held w → pool_room (manager p) w 1 →
  warm_cell (p, w) = (r, (p', w')) →
  pool_target p' = pool_target p ∧ warm_entries p' = warm_entries p
  ∧ (next_id (manager p') = next_id (manager p) + 1)%N
  ∧ (starts_left w ≤ starts_left w' + 1)%N
  ∧ match r with
    | Ok e => pool_inv (manager p') (warm_entries p ++ [e]) held w'
    | Err _ => pool_inv (manager p') (warm_entries p) held w'
    end.
Proof.
  intros [He Hm Hrun Hapart Hcells Hready] [Hid Hst].
  unfold warm_cell, warm_one, mbind, io_bind, the_pool, put_pool, on_world.
  cbn -[spawn_ready_cell].
  pose proof (spawn_fresh _ Hm ltac:(lia)) as Hfresh.
  pose proof (spawn_ok _ Hm ltac:(lia)) as Hm'.
  assert (ready_queue (spawn_ready_cell (manager p)).2
          = ready_queue (manager p) ++ [(spawn_ready_cell (manager p)).1]) as Hq by done.
  assert (next_id (spawn_ready_cell (manager p)).2 = next_id (manager p) + 1)%N as Hn.
  { cbn. sat_lia. }
  destruct (spawn_ready_cell (manager p)) as [cell m]. cbn [fst snd] in *.
  destruct (start_warm cell w) as [r0 w0] eqn:Hstart.
  destruct (start_law _ _ _ _ He ltac:(lia) Hstart) as (He' & Hst' & Hr).
  destruct r0 as [c|e]; intros [= <- <- <-]; cbn; (split_and!; [done..|]).
  - destruct Hr as [Hnone Hr].
    assert (∀ x, x ∈ warm_entries p ++ held → entry_container x ≠ c) as Hne.
    { intros x Hx <-. by rewrite (Hrun _ Hx) in Hnone. }
    split; cbn; [done|done| | | |].
    + intros x. rewrite Hr, <-app_assoc. cbn [app]. rewrite elem_of_app, elem_of_cons.
      intros Hx. destruct (decide (entry_container x = c)) as [Hc|Hc].
      * destruct Hx as [Hx|[-> | Hx]]; [|by cbn; rewrite lookup_insert_eq|];
          exfalso; apply (Hne x); set_solver.
      * rewrite lookup_insert_ne by done. destruct Hx as [Hx|[-> | Hx]]; [|done|];
          apply Hrun; set_solver.
    + rewrite <-app_assoc, !map_app in *. cbn.
      rewrite <-Permutation_middle. apply NoDup_cons. split; [|done].
      rewrite <-map_app. intros (x & Hc & Hx)%list_elem_of_fmap. by apply (Hne x).
    + rewrite map_app. apply NoDup_app. split_and!; [done| |apply NoDup_singleton].
      intros x (e & Hxe & Hx)%list_elem_of_fmap Hcell.
      apply list_elem_of_singleton in Hcell. cbn in Hcell.
      destruct (mo_queue _ Hm _ (Hready _ Hx)) as (l & Hl & _). congruence.
    + intros x [Hx| ->%list_elem_of_singleton]%elem_of_app; rewrite Hq, elem_of_app; [left; by apply Hready|].
      right. by left.
  - split; [done|done| |done|done|].
    + intros x Hx. rewrite Hr. by apply Hrun.
    + intros x Hx. rewrite Hq, elem_of_app. left. by apply Hready.
Qed.

Lemma refill_go_ok fuel p w held r p' w' :
  pool_inv (manager p) (warm_entries p) held w →
  pool_room (manager p) w (N.of_nat fuel) →
  refill_go fuel (p, w) = (r, (p', w')) →
  pool_target p' = pool_target p ∧ pool_inv (manager p') (warm_entries p') held w'
  ∧ (next_id (manager p') ≤ next_id (manager p) + N.of_nat fuel)%N
  ∧ (starts_left w ≤ starts_left w' + N.of_nat fuel)%N
  ∧ (∃ more, warm_entries p' = warm_entries p ++ more)
  ∧ (is_ok r = true → pool_target p ≤ warm_depth p + fuel →
     warm_depth p' = Nat.max (warm_depth p) (pool_target p)).
Proof.
  revert p w. induction fuel as [|fuel IH]; intros p w Hinv Hroom; cbn [refill_go];
    unfold mbind at 1, io_bind at 1, the_pool at 1; case_bool_decide as Hd; cbn [fst snd] in *.
  1,2,4: intros [= <- <- <-]; split_and!;
    [done|done|lia|lia|exists []; by rewrite app_nil_r|intros _ ?; lia].
  intros Hw. destruct (warm_cell (p, w)) as [r0 [p0 w0]] eqn:Hc.
  rewrite (io_bind_run _ _ _ _ _ Hc) in Hw. destruct Hroom as [Hr1 Hr2].
  destruct (warm_cell_ok _ _ _ _ _ _ Hinv ltac:(split; lia) Hc) as (Ht & Hwm & Hn & Hst & Hr).
  destruct r0 as [e|e].
  - unfold mbind, io_bind, the_pool, put_pool in Hw. cbn [fst snd] in Hw.
    destruct (IH (set_warm p0 (warm_entries p0 ++ [e])) w0) as (IHt & IHi & IHn & IHs & (more & IHw) & IHd).
    + cbn. by rewrite Hwm.
    + split; cbn; lia.
    + exact Hw.
    + cbn [set_warm pool_target warm_entries manager] in *. unfold warm_depth in *.
      cbn [warm_entries set_warm] in *. rewrite Hwm, length_app in *. cbn in *.
      split_and!; [congruence|done|lia|lia| |].
      * exists (e :: more). by rewrite IHw, <-app_assoc.
      * intros Hok Hlt. rewrite IHd by (done || lia). lia.
  - injection Hw as <- <- <-. rewrite Hwm. split_and!; try done; try lia.
    exists []. by rewrite app_nil_r.
Qed.

Lemma refill_ok p w held r p' w' :
  pool_inv (manager p) (warm_entries p) held w →
  pool_room (manager p) w (N.of_nat (pool_target p)) →
  refill (p, w) = (r, (p', w')) →
  pool_target p' = pool_target p ∧ pool_inv (manager p') (warm_entries p') held w'
  ∧ (∃ more, warm_entries p' = warm_entries p ++ more)
  ∧ (r = Ok tt → warm_depth p' = Nat.max (warm_depth p) (pool_target p)).
Proof.
  intros Hinv [Hr1 Hr2]. unfold refill, mbind at 1, io_bind at 1, the_pool at 1. cbn [fst snd].
  intros Hw.
  destruct (refill_go_ok (pool_target p - warm_depth p) _ _ _ _ _ _ Hinv ltac:(split; lia) Hw) as (? & ? & _ & _ & ? & Hd).
  split_and!; [done..|]. intros ->. apply Hd; [done|lia].
Qed.

Lemma take_entry_ok p w held r p' w' :
  pool_inv (manager p) (warm_entries p) held w → pool_room (manager p) w 1 →
  take_entry (p, w) = (r, (p', w')) →
  pool_target p' = pool_target p
  ∧ (next_id (manager p') ≤ next_id (manager p) + 1)%N
  ∧ (starts_left w ≤ starts_left w' + 1)%N
  ∧ match r with
    | Ok e => pool_inv (manager p') (e :: warm_entries p') held w'
              ∧ (∀ e0 q, warm_entries p = e0 :: q → e = e0 ∧ warm_entries p' = q ∧ w' = w)
    | Err _ => pool_inv (manager p') (warm_entries p') held w'
    end.
Proof.
  intros Hinv Hroom. unfold take_entry, mbind at 1, io_bind at 1, the_pool at 1. cbn [fst snd].
  destruct (warm_entries p) as [|e q] eqn:Hes.
  - intros Hw. rewrite <-Hes in Hinv.
    destruct (warm_cell_ok _ _ _ _ _ _ Hinv Hroom Hw) as (? & Hwm & ? & ? & Hr).
    rewrite Hes in *. rewrite Hwm. split_and!; [done|lia|done|].
    destruct r; [|done]. by split.
  - intros [= <- <- <-]. cbn. split_and!; [done|lia|lia|done|]. intros ? ? [= <- <-]. done.
Qed.

Lemma remove_first_keeps id x q : x ≠ id → x ∈ q → x ∈ remove_first id q.
Proof.
  intros Hne. induction q as [|y q IH]; cbn; [done|]. case_bool_decide; set_solver.
Qed.

(** The taken entry passes from the pool to its session. *)
Lemma claim_ready_ok m es held w e r :
  pool_inv m (e :: es) held w → pool_inv (claim_ready m (entry_cell e) r).2 es (e :: held) w.
Proof.
  intros [He Hm Hrun Hapart Hcells Hready]. cbn in Hcells. apply NoDup_cons in Hcells as [Hne Hcells].
  assert (es ++ e :: held ≡ₚ (e :: es) ++ held) as Hp by by rewrite <-Permutation_middle.
  split; [done| | | |done|].
  - eapply manager_step_ok; [apply Step_claim_ready|done].
  - intros x Hx. apply Hrun. by rewrite <-Hp.
  - by rewrite Hp.
  - intros x Hx.
    assert (ready_queue (claim_ready m (entry_cell e) r).2
            = remove_first (entry_cell e) (ready_queue m)) as ->.
    { unfold claim_ready. cbn [cells set_queue]. by destruct (cells m !! entry_cell e). }
    apply remove_first_keeps; [|apply Hready; by right].
    intros Heq. apply Hne. rewrite <-Heq. by apply list_elem_of_fmap_2.
Qed.

(** The lease of a taken entry. *)
Lemma claim_ready_lease m es held w e r :
  pool_inv m (e :: es) held w →
  match (claim_ready m (entry_cell e) r).1 with
  | Ok l => workcell_id l = entry_cell e ∧ state l = Claimed ∧ agent_id l = req_agent r
            ∧ runner_epoch l = req_epoch r ∧ startup_rebased l = true
  | Err err => is_rebased (startup r) = false ∧ reason err = "workcell_startup_rebase_failed"
  end.
Proof.
  intros [_ Hm _ _ _ Hready].
  destruct (mo_queue _ Hm (entry_cell e)) as (l & Hl & _); [apply Hready; by left|].
  unfold claim_ready. cbn [cells set_queue]. rewrite Hl. cbn [fst].
  pose proof (lo_id _ _ (mo_leases m Hm _ _ Hl)) as Hid.
  unfold claimed_lease. destruct (startup r); cbn; by split_and!.
Qed.

Lemma session_plan_pure owner repo agent run_id oid url job plan w :
  (plan_agent_session owner repo agent run_id oid url job plan w).2 = w.
Proof.
  change (iowp (plan_agent_session owner repo agent run_id oid url job plan) (λ _ w', w' = w) w).
  unfold plan_agent_session, OciSpec_from_agent_job.
  repeat first
    [ apply iowp_bind | apply iowp_ret | apply iowp_fail | apply iowp_result
    | case_match | progress cbv zeta | done | apply iowp_ask ].
Qed.

(** A claim, step by step: the entry, the lease, the refill and the session. *)
Lemma claim_run rq p w held res p' w' :
  pool_inv (manager p) (warm_entries p) held w →
  pool_room (manager p) w (1 + N.of_nat (pool_target p)) →
  WarmPool_claim rq (p, w) = (res, (p', w')) →
  pool_target p' = pool_target p
  ∧ match (take_entry (p, w)).1 with
    | Err e => res = Err e ∧ pool_inv (manager p') (warm_entries p') held w'
    | Ok e =>
        pool_inv (manager p') (warm_entries p') (e :: held) w'
        ∧ (∀ e0 q, warm_entries p = e0 :: q → e = e0 ∧ ∃ more, warm_entries p' = q ++ more)
        ∧ match res with
          | Err _ => True
          | Ok c =>
              pool_target p ≤ warm_depth p'
              ∧ cc_container c = entry_container e
              ∧ workcell_id (cc_lease c) = entry_cell e ∧ state (cc_lease c) = Claimed
              ∧ agent_id (cc_lease c) = req_agent (sc_claim rq)
              ∧ runner_epoch (cc_lease c) = req_epoch (sc_claim rq)
              ∧ startup_rebased (cc_lease c) = true
              ∧ plan_agent_session (sc_owner rq) (sc_repo rq) (req_agent (sc_claim rq))
                  (sc_run rq) (sc_base rq) (sc_origin rq) (sc_job rq) (sc_plan rq) w'
                = (Ok (cc_session c), w')
          end
    end.
Proof.
  intros Hinv [Hr1 Hr2] Hw. unfold WarmPool_claim in Hw.
  destruct (take_entry (p, w)) as [r0 [p0 w0]] eqn:Htake.
  rewrite (io_bind_run _ _ _ _ _ Htake) in Hw.
  destruct (take_entry_ok _ _ _ _ _ _ Hinv ltac:(split; lia) Htake) as (Ht & Hn & Hst & Hr).
  cbn [fst]. destruct r0 as [e|e]; [|by injection Hw as <- <- <-].
  destruct Hr as [Hinv0 Hfront].
  pose proof (claim_ready_lease _ _ _ _ _ (sc_claim rq) Hinv0) as Hlease.
  pose proof (claim_ready_ok _ _ _ _ _ (sc_claim rq) Hinv0) as Hinv1.
  assert (next_id (claim_ready (manager p0) (entry_cell e) (sc_claim rq)).2
          = next_id (manager p0)) as Hnext.
  { unfold claim_ready. cbn [cells set_queue]. by destruct (cells (manager p0) !! entry_cell e). }
  unfold mbind at 1, io_bind at 1, the_pool at 1 in Hw. cbn [fst snd] in Hw.
  destruct (claim_ready (manager p0) (entry_cell e) (sc_claim rq)) as [lease m].
  cbn [fst snd] in *. unfold mbind at 1, io_bind at 1, put_pool at 1 in Hw. cbn [fst snd] in Hw.
  destruct (refill (set_manager p0 m, w0)) as [r1 [p1 w1]] eqn:Hrefill.
  rewrite (io_bind_run _ _ _ _ _ Hrefill) in Hw.
  destruct (refill_ok (set_manager p0 m) _ (e :: held) _ _ _ Hinv1 ltac:(split; cbn; lia) Hrefill)
    as (Ht1 & Hinv2 & (more & Hmore) & Hdepth).
  cbn [set_manager pool_target warm_entries] in Ht1, Hmore, Hdepth.
  assert (∀ e0 q, warm_entries p = e0 :: q → e = e0 ∧ ∃ more, warm_entries p1 = q ++ more) as Hf.
  { intros e0 q Hes. destruct (Hfront e0 q Hes) as (-> & Hq & _).
    split; [done|]. exists more. by rewrite Hmore, Hq. }
  destruct r1 as [[]|e1]; [|injection Hw as <- <- <-; by split_and!; [congruence|..]].
  unfold mbind at 1, io_bind at 1, from_result at 1 in Hw.
  destruct lease as [l|err]; cbn [map_err] in Hw;
    [|injection Hw as <- <- <-; by split_and!; [congruence|..]].
  unfold mbind, io_bind, on_world in Hw. cbn [fst snd] in Hw.
  pose proof (session_plan_pure (sc_owner rq) (sc_repo rq) (req_agent (sc_claim rq))
                (sc_run rq) (sc_base rq) (sc_origin rq) (sc_job rq) (sc_plan rq) w1) as Hpure.
  destruct (plan_agent_session _ _ _ _ _ _ _ _ w1) as [[s|err] w2] eqn:Hs; cbn [snd] in Hpure;
    subst w2; injection Hw as <- <- <-; cbn; [|by split_and!; [congruence|..]].
  destruct Hlease as (? & ? & ? & ? & ?).
  split_and!; try done; [congruence|].
  rewrite Hdepth by done. unfold warm_depth. cbn. lia.
Qed.

(** What a reap leaves running: the containers of the ledger, and those it did not get to. *)
Lemma reap_each_ok active found reaped w r w' :
  engine_ok w → NoDup (map container_id found) →
  reap_each active found reaped w = (r, w') →
  engine_ok w' ∧ starts_left w' = starts_left w
  ∧ (∀ c id, running w' !! c = Some id → running w !! c = Some id)
  ∧ (∀ c id, running w !! c = Some id →
       (∀ id', {| container_id := c; container_label := id' |} ∈ found → id' ∈ active) →
       running w' !! c = Some id)
  ∧ (∀ ids, r = Ok ids →
       ids = reaped ++ map container_id
               (List.filter (λ c, negb (bool_decide (container_label c ∈ active))) found)
       ∧ ∀ c id, {| container_id := c; container_label := id |} ∈ found → id ∉ active →
                 running w' !! c = None).
Proof.
  revert reaped w. induction found as [|x found IH]; intros reaped w He Hnd.
  { intros [= <- <-]. split_and!; try done. intros ids [= <-]. rewrite app_nil_r.
    split; [done|]. by intros c id ?%elem_of_nil. }
  cbn in Hnd. apply NoDup_cons in Hnd as [Hx Hnd]. cbn [reap_each List.filter].
  destruct (bool_decide_reflect (container_label x ∈ active)) as [Hin|Hout]; cbn [negb].
  - intros Hr. destruct (IH _ _ He Hnd Hr) as (? & ? & Hsub & Hkeep & Hok).
    split_and!; [done|done|done| |].
    + intros c id Hc Hall. apply Hkeep; [done|]. intros id' Hid'. apply Hall. by right.
    + intros ids Hids. destruct (Hok ids Hids) as [-> Hgone]. split; [done|].
      intros c id [<-|Hc]%elem_of_cons Hid; [by destruct (Hid Hin)|by eapply Hgone].
  - intros Hr. destruct (remove (container_id x) w) as [r0 w0] eqn:Hrm.
    rewrite (io_bind_run _ _ _ _ _ Hrm) in Hr.
    destruct (remove_law _ _ _ _ He Hrm) as (He0 & Hst0 & Hrun0).
    destruct r0 as [[]|e].
    + destruct (IH _ _ He0 Hnd Hr) as (? & ? & Hsub & Hkeep & Hok).
      split_and!; [done|congruence| | |].
      * intros c id Hc%Hsub. rewrite Hrun0 in Hc. by apply lookup_delete_Some in Hc as [_ ?].
      * intros c id Hc Hall. apply Hkeep; [|intros id' Hid'; apply Hall; by right].
        rewrite Hrun0. apply lookup_delete_Some. split; [|done]. intros <-.
        apply Hout, (Hall (container_label x)), elem_of_cons. left. by destruct x.
      * intros ids Hids. destruct (Hok ids Hids) as [-> Hgone]. cbn [map].
        split; [by rewrite <-app_assoc|].
        intros c id [<-|Hc]%elem_of_cons Hid; [|by eapply Hgone].
        destruct (running w' !! c) as [id'|] eqn:Hc'; [|done].
        apply Hsub in Hc'. rewrite Hrun0 in Hc'. by rewrite lookup_delete_eq in Hc'.
    + injection Hr as <- <-. rewrite Hrun0. split_and!; done.
Qed.

Lemma reap_ok active w r w' :
  engine_ok w → reap_orphans active w = (r, w') →
  engine_ok w' ∧ starts_left w' = starts_left w
  ∧ (∀ c id, running w !! c = Some id → id ∈ active → running w' !! c = Some id)
  ∧ (∀ c id, running w' !! c = Some id → running w !! c = Some id)
  ∧ ∀ ids, r = Ok ids →
      running w' = filter (λ ci, ci.2 ∈ active) (running w)
      ∧ (∀ c, c ∈ ids ↔ ∃ id, running w !! c = Some id ∧ id ∉ active)
      ∧ NoDup ids ∧ StronglySorted (λ a b, String.leb a b = true) ids.
Proof.
  intros He. unfold reap_orphans. intros Hr.
  destruct (list_workcells w) as [r0 w0] eqn:Hl. rewrite (io_bind_run _ _ _ _ _ Hl) in Hr.
  destruct (list_law _ _ _ He Hl) as (He0 & Hst0 & Hrun0 & Hlist).
  destruct r0 as [found|e]; [|injection Hr as <- <-; rewrite Hrun0; by split_and!].
  destruct Hlist as [Hnd Hfound].
  destruct (reap_each active found [] w0) as [r1 w1] eqn:Heach.
  rewrite (io_bind_run _ _ _ _ _ Heach) in Hr.
  destruct (reap_each_ok _ _ _ _ _ _ He0 Hnd Heach) as (He1 & Hst1 & Hsub & Hkeep & Hok).
  rewrite Hrun0 in Hsub, Hkeep.
  assert (∀ c id, running w !! c = Some id → id ∈ active → running w1 !! c = Some id) as Hlive.
  { intros c id Hc Hin. apply Hkeep; [done|]. intros id' Hid'%Hfound. by simplify_eq. }
  destruct r1 as [ids|e]; injection Hr as <- <-; split_and!; try done; try congruence.
  intros ids' [= <-]. destruct (Hok ids eq_refl) as [-> Hgone]. cbn [app].
  split_and!.
  - apply map_eq. intros c. apply option_eq. intros id. rewrite map_lookup_filter_Some. cbn.
    split; [|by intros [? ?]; apply Hlive]. intros Hc. split; [by apply Hsub|].
    destruct (decide (id ∈ active)) as [|Hno]; [done|].
    rewrite (Hgone c id) in Hc; [done| |done]. by apply Hfound, Hsub.
  - intros c. rewrite elem_of_isort, list_elem_of_fmap. split.
    + intros ([c' id] & -> & Hx). apply list_elem_of_In, filter_In in Hx as [Hx Hno].
      exists id. rewrite <-list_elem_of_In in Hx. split; [by apply Hfound|].
      cbn in Hno. by case_bool_decide.
    + intros (id & Hc & Hno). exists {| container_id := c; container_label := id |}.
      split; [done|]. apply list_elem_of_In, filter_In. split; [by apply list_elem_of_In, Hfound|].
      cbn. by case_bool_decide.
  - rewrite isort_perm. eapply sublist_NoDup; [exact Hnd|].
    clear. induction found as [|x found IH]; cbn; [done|].
    destruct (negb _); cbn; by constructor.
  - apply isort_sorted; [apply string_leb_total|apply string_leb_trans].
Qed.

Lemma reap_pool_ok m es held active w r w' :
  pool_inv m es held w → (∀ e, e ∈ es ++ held → entry_cell e ∈ active) →
  reap_orphans active w = (r, w') → pool_inv m es held w'.
Proof.
  intros [He Hm Hrun Hapart Hcells Hready] Hact Hr.
  destruct (reap_ok _ _ _ _ He Hr) as (? & _ & Hlive & _).
  split; [done|done| |done|done|done]. intros e Hin. apply Hlive; [by apply Hrun|by apply Hact].
Qed.

(** * Histories *)

(** The container a claim takes, whatever becomes of the rest of the claim. *)
Definition taken (p : WarmPool) (w : world) : list WarmEntry :=
  match (take_entry (p, w)).1 with Ok e => [e] | Err _ => [] end.

(** The life of a pool, with the containers its claims took: a reap is given a ledger that
    covers them and the idle ones. *)
Inductive pool_run : WarmPool → list WarmEntry → world → Prop :=
  | Run_new target w p w' :
      engine_ok w → pool_room WorkcellManager_new w (N.of_nat target) →
      WarmPool_new target w = (Ok p, w') → pool_run p [] w'
  | Run_claim p held w rq res p' w' :
      pool_run p held w → pool_room (manager p) w (1 + N.of_nat (pool_target p)) →
      WarmPool_claim rq (p, w) = (res, (p', w')) → pool_run p' (taken p w ++ held) w'
  | Run_reap p held w active res w' :
      pool_run p held w → (∀ e, e ∈ warm_entries p ++ held → entry_cell e ∈ active) →
      reap_orphans active w = (res, w') → pool_run p held w'.

Lemma pool_new_ok target w p w' :
  engine_ok w → pool_room WorkcellManager_new w (N.of_nat target) →
  WarmPool_new target w = (Ok p, w') →
  pool_inv (manager p) (warm_entries p) [] w' ∧ pool_target p = target ∧ warm_depth p = target.
Proof.
  intros He Hroom. unfold WarmPool_new.
  set (p0 := {| manager := WorkcellManager_new; pool_target := target; warm_entries := [] |}).
  destruct (refill (p0, w)) as [r [p1 w1]] eqn:Hr.
  assert (pool_inv (manager p0) (warm_entries p0) [] w) as Hinv.
  { split; cbn; [done|apply new_ok| |constructor|constructor|]; by intros e ?%elem_of_nil. }
  destruct (refill_ok p0 _ _ _ _ _ Hinv Hroom Hr) as (Ht & Hp & _ & Hd).
  destruct r as [[]|]; [|done]. intros [= <- <-]. split_and!; [done|done|].
  rewrite Hd by done. cbn. lia.
Qed.

Lemma pool_run_ok p held w : pool_run p held w → pool_inv (manager p) (warm_entries p) held w.
Proof.
  induction 1 as [target w p w' He Hroom Hp|p held w rq res p' w' Hrun IH Hroom Hc
    |p held w active res w' Hrun IH Hact Hr].
  - by eapply pool_new_ok.
  - destruct (claim_run _ _ _ _ _ _ _ IH Hroom Hc) as [_ Hcase]. unfold taken.
    destruct (take_entry (p, w)).1; [by apply Hcase|by apply Hcase].
  - by eapply reap_pool_ok.
Qed.
End laws.

(** * Theorems *)

Section theorems.
Context `{Host} `{Engine world}.

(** No container is handed out twice. Whatever is claimed and reaped, the containers that
    idle and those that claims took are all different, each runs under the label of its
    cell, every idle cell is ready to be claimed, and the ledger of cells is sound. *)
Theorem warm_pool_invariant p held w :
  pool_run p held w →
  NoDup (map entry_container (warm_entries p ++ held))
  ∧ (∀ e, e ∈ warm_entries p ++ held → running w !! entry_container e = Some (entry_cell e))
  ∧ (∀ e, e ∈ warm_entries p → entry_cell e ∈ ready_queue (manager p))
  ∧ manager_ok (manager p).
Proof. intros Hrun%pool_run_ok. destruct Hrun. by split_and!. Qed.

(** A session that is claimed gets a running container of its own. It is the one that
    has idled longest, or a fresh one when none idles; nobody else holds it and it no longer
    idles; its lease is claimed under the caller's agent and epoch after the rebase; the
    session works on the agent's own branch from the base that was asked for, in the plan
    for that job, without a network; and the pool is back at its depth. *)
Theorem warm_claim_exclusive p held w rq c p' w' :
  pool_run p held w → pool_room (manager p) w (1 + N.of_nat (pool_target p)) →
  WarmPool_claim rq (p, w) = (Ok c, (p', w')) →
  (∀ e q, warm_entries p = e :: q → cc_container c = entry_container e)
  ∧ cc_container c ∉ map entry_container (warm_entries p' ++ held)
  ∧ running w' !! cc_container c = Some (workcell_id (cc_lease c))
  ∧ state (cc_lease c) = Claimed ∧ agent_id (cc_lease c) = req_agent (sc_claim rq)
  ∧ runner_epoch (cc_lease c) = req_epoch (sc_claim rq) ∧ startup_rebased (cc_lease c) = true
  ∧ ClaimedCell_branch c = session_branch (req_agent (sc_claim rq)) (sc_run rq)
  ∧ base_oid (cc_session c) = sc_base rq ∧ oci_network (container (cc_session c)) = "none"
  ∧ pool_target p' = pool_target p ∧ pool_target p ≤ warm_depth p'.
Proof.
  intros Hinv%pool_run_ok Hroom Hc.
  destruct (claim_run _ _ _ _ _ _ _ Hinv Hroom Hc) as [Ht Hcase].
  destruct (take_entry (p, w)).1 as [e|e]; [|by destruct Hcase].
  destruct Hcase as (Hinv' & Hfront & Hd & -> & -> & ? & ? & ? & ? & Hs).
  apply session_shape in Hs as (_ & _ & ? & _ & ? & _ & spec & w1 & Hspec & Hcont).
  apply agent_spec_shape in Hspec as (_ & _ & _ & _ & Hnet & _).
  destruct Hinv' as [_ _ Hrun Hapart _ _].
  split_and!; try done.
  - intros e0 q Hes. by destruct (Hfront e0 q Hes) as [-> _].
  - rewrite !map_app in *. cbn in Hapart. rewrite <-Permutation_middle in Hapart.
    by apply NoDup_cons in Hapart as [? _].
  - apply Hrun. set_solver.
  - by rewrite Hcont.
Qed.

(** A reap removes the orphans and nothing else. Even if it fails half-way, every
    container whose cell is in the ledger keeps running and none is started; if it succeeds,
    what runs is exactly what the ledger covers, and its answer is the sorted list of the
    containers that were removed. *)
Theorem reap_exact active w r w' :
  engine_ok w → reap_orphans active w = (r, w') →
  (∀ c id, running w !! c = Some id → id ∈ active → running w' !! c = Some id)
  ∧ (∀ c id, running w' !! c = Some id → running w !! c = Some id)
  ∧ ∀ ids, r = Ok ids →
      running w' = filter (λ ci, ci.2 ∈ active) (running w)
      ∧ (∀ c, c ∈ ids ↔ ∃ id, running w !! c = Some id ∧ id ∉ active)
      ∧ NoDup ids ∧ StronglySorted (λ a b, String.leb a b = true) ids.
Proof. intros He Hr. by destruct (reap_ok active w r w' He Hr) as (_ & _ & ? & ? & ?). Qed.
End theorems.

(** * The recording fake is an engine *)

Definition fake_running (f : FakeContainerRuntime) : gmap string string :=
  list_to_map (map (λ c, (container_id c, container_label c)) (warm f)).

Record fake_ok (f : FakeContainerRuntime) : Prop := {
  fo_width : (next_cid f ≤ u64_max)%N;
  fo_distinct : NoDup (map container_id (warm f));
  fo_named : ∀ c, c ∈ warm f → ∃ n, (n ≤ next_cid f)%N ∧ container_id c = fake_container n
}.

Lemma fake_container_inj n k : fake_container n = fake_container k → n = k.
Proof. intros [= Hp]. exact (cell_id_inj _ _ (f_equal (String.append "wc-") Hp)). Qed.

Lemma fake_running_Some f c id :
  fake_ok f →
  fake_running f !! c = Some id ↔ {| container_id := c; container_label := id |} ∈ warm f.
Proof.
  intros [_ Hd _]. unfold fake_running. rewrite <-elem_of_list_to_map.
  - rewrite list_elem_of_fmap. split; [|intros Hin; by exists {| container_id := c; container_label := id |}].
    by intros ([c' id'] & [= -> ->] & Hin).
  - by rewrite <-list_fmap_compose.
Qed.

Lemma fake_fresh f n c :
  fake_ok f → (next_cid f < n)%N → c ∈ warm f → container_id c ≠ fake_container n.
Proof.
  intros Hf Hn Hc Heq. destruct (fo_named _ Hf c Hc) as (k & Hk & Hk').
  rewrite Hk' in Heq. apply fake_container_inj in Heq. lia.
Qed.

Lemma fake_start_ok w id r w' :
  fake_ok w → (next_cid w < u64_max)%N → fake_start_warm id w = (r, w') →
  fake_ok w' ∧ next_cid w' = (next_cid w + 1)%N
  ∧ ∃ c, r = Ok c ∧ fake_running w !! c = None
      ∧ fake_running w' = <[c := id]> (fake_running w).
Proof.
  intros Hf Hlt [= <- <-].
  assert (wrapping_add64 (next_cid w) 1 = next_cid w + 1)%N as ->.
  { unfold wrapping_add64. apply N.mod_small. revert Hlt. unfold u64_max, u64_modulus. lia. }
  set (n := (next_cid w + 1)%N).
  assert (∀ c, c ∈ warm w → container_id c ≠ fake_container n) as Hnew
    by (intros c; apply fake_fresh; [done|lia]).
  assert (fake_running w !! fake_container n = None) as Hnone.
  { apply eq_None_not_Some. intros [l Hl%fake_running_Some]; [|done]. by apply (Hnew _ Hl). }
  destruct Hf as [Hw Hd Hnm]. split_and!; [|done|].
  - split; cbn; [lia| |].
    + rewrite map_app. apply NoDup_app. split_and!; [done| |apply NoDup_singleton].
      intros x (c & -> & Hc)%list_elem_of_fmap Hx%list_elem_of_singleton. by apply (Hnew c).
    + intros c [Hc| ->%list_elem_of_singleton]%elem_of_app; [|by exists n].
      destruct (Hnm c Hc) as (k & Hk & ->). exists k. split; [lia|done].
  - eexists. split_and!; [done|done|]. unfold fake_running. cbn. rewrite map_app, list_to_map_app.
    rewrite insert_union_singleton_r by exact Hnone. cbn [map list_to_map foldr]. by rewrite insert_empty.
Qed.

Lemma fake_remove_ok w c r w' :
  fake_ok w → fake_remove c w = (r, w') →
  fake_ok w' ∧ next_cid w' = next_cid w ∧ r = Ok tt
  ∧ fake_running w' = delete c (fake_running w).
Proof.
  intros Hf [= <- <-].
  set (keep := List.filter (λ x, negb (bool_decide (container_id x = c))) (warm w)).
  assert (∀ x, x ∈ keep ↔ x ∈ warm w ∧ container_id x ≠ c) as Hkeep.
  { intros x. unfold keep. rewrite list_elem_of_In, filter_In, <-list_elem_of_In.
    case_bool_decide; cbn; intuition congruence. }
  match goal with |- fake_ok ?w' ∧ _ => assert (fake_ok w') as Hf' end.
  { destruct Hf as [Hw Hd Hnm]. split; cbn; [done| |].
    - eapply sublist_NoDup; [exact Hd|]. fold keep. clear. unfold keep.
      induction (warm w) as [|x l IH]; cbn; [done|]. destruct (negb _); cbn; by constructor.
    - intros x [Hx _]%Hkeep. by apply Hnm. }
  split_and!; [done|done|done|]. apply map_eq. intros x. apply option_eq. intros id.
  rewrite lookup_delete_Some, !fake_running_Some by done. cbn. rewrite Hkeep. cbn.
  intuition congruence.
Qed.

#[export] Instance fake_engine : Engine FakeContainerRuntime.
Proof.
  refine {| running := fake_running; starts_left := λ f, (u64_max - next_cid f)%N;
            engine_ok := fake_ok |}.
  - intros w id r w' Hf Hleft Hs.
    destruct (fake_start_ok w id r w' Hf ltac:(lia) Hs) as (Hf' & Hn & c & -> & ? & ?).
    split_and!; [done|rewrite Hn; lia|done|done].
  - intros w r w' Hf [= <- <-]. split_and!; [|done|done|apply Hf|].
    + destruct Hf as [? ? ?]. by split.
    + intros c id. symmetry. by apply fake_running_Some.
  - intros w c r w' Hf Hr. destruct (fake_remove_ok w c r w' Hf Hr) as (? & -> & -> & ?). done.
Defined.

(** * A pool on the fake *)

(** A host on which nothing can be done: a session plan asks it for variables only. *)
Definition idle_host (W : Type) : Host :=
  {| world := W; host_arch := "x86_64"; debug_text := λ s, s; getenv := λ _ _, None;
     clock_ms := λ w, (0%N, w); instant := λ _, 0%N; sleep := λ _ w, w;
     run_process := λ _ _, fail "no processes"; call := λ _, fail "no calls";
     read_file := λ _ _, None; opens := λ _ _, false;
     landlock_create := λ _, fail "no landlock"; landlock_into_fd := λ _, fail "no landlock";
     dup_fd := λ _, fail "no descriptors"; compile_filter := λ _ _, Err "no filters";
     exec := λ _ _ _ _, fail "no exec"; try_wait := λ _, fail "no children";
     wait := λ _, fail "no children"; kill_group := λ _ w, w; drained := λ _ w, (Some ("", ""), w) |}.

#[local] Instance sample_host : Host := idle_host FakeContainerRuntime.
#[local] Instance sample_lifecycle : ContainerLifecycle world := fake_lifecycle.
#[local] Instance sample_engine : Engine world := fake_engine.

Definition sample_fake : FakeContainerRuntime := FakeContainerRuntime_with_exit_code 0.

Lemma sample_fake_ok : fake_ok sample_fake.
Proof. split; cbn; [done|constructor|by intros c ?%elem_of_nil]. Qed.

Definition sample_job : JobRequest :=
  {| job_id := "agent"; repo_id := "jeryu/jeryu"; commit_sha := "abc";
     workspace := "/tmp/agent-ws"; command := "/opt/jeryu/bin/codex"; args := ["exec"]; env := ∅;
     trust_tier := T4ForkPr; requested_runner := Some OciDocker; network_policy := Deny;
     secret_policy := SP_None; token_policy := TP_None; timeout_ms := 1000; fork := true |}.

Definition sample_plan : SandboxPlan :=
  SandboxPlan_from_decision (workspace sample_job)
    (match select_runner sample_job with
     | Ok d => d
     | Err _ => {| runner_class := OciDocker; eff_network := Deny; allow_secrets := false;
                   eff_token := TP_None; cache_write_policy := CW_Deny; reasons := [] |}
     end).

Definition sample_claim (agent run : string) : SessionClaim :=
  {| sc_owner := "jeryu"; sc_repo := "jeryu"; sc_run := run;
     sc_base := "deadbeefdeadbeefdeadbeefdeadbeefdeadbeef";
     sc_origin := "https://forge.invalid/jeryu/jeryu.git"; sc_job := sample_job;
     sc_plan := sample_plan;
     sc_claim :=
       {| req_agent := agent; req_root := "/tmp/agent-ws"; req_repo_roots := ["/tmp/agent-ws"];
          branch_budget := 1; req_runner := "xbabe0"; req_epoch := 7; req_summary := "clean";
          req_age_ms := Some 0%N; startup := Rebased "origin/main" "abc123" "def456" |} |}.

(** The pool of two, before and after a claim. *)
Definition warmed : RunnerResult WarmPool * FakeContainerRuntime := WarmPool_new 2 sample_fake.

Definition pool_of (r : RunnerResult WarmPool * FakeContainerRuntime) : WarmPool :=
  match r.1 with
  | Ok p => p
  | Err _ => {| manager := WorkcellManager_new; pool_target := 0; warm_entries := [] |}
  end.

Definition claimed_once := WarmPool_claim (sample_claim "alice" "run-1") (pool_of warmed, warmed.2).

Example claim_reuses_the_first :
  (match claimed_once.1 with
   | Ok c => [cc_container c; workcell_id (cc_lease c); ClaimedCell_branch c]
   | Err e => [RunnerCore.err_message e]
   end,
   warm_container_ids claimed_once.2.1)
  = (["fake-ctr-0001"; "wc-0001"; "agents/alice/sessions/run-1"],
     ["fake-ctr-0002"; "fake-ctr-0003"]).
Proof. vm_compute. reflexivity. Qed.

(** A pool has idle containers from the start, so a reap with the ledger of the sessions,
    which is empty after a restart, removes them: the next claim hands out a container
    that does not run. *)
Example reap_kills_the_idle :
  let after := reap_orphans ∅ warmed.2 in
  let claimed := WarmPool_claim (sample_claim "alice" "run-1") (pool_of warmed, after.2) in
  after.1 = Ok ["fake-ctr-0001"; "fake-ctr-0002"]
  ∧ match claimed.1 with
    | Ok c => running (claimed.2.2 : FakeContainerRuntime) !! cc_container c = None
    | Err _ => False
    end.
Proof. vm_compute. split; reflexivity. Qed.

(** The names of the cells begin anew with every manager: a container stranded by the last
    daemon has the name of a cell of this one, and a ledger with that cell keeps it. *)
Example stranded_cell_is_kept :
  let next := WarmPool_new 1 warmed.2 in
  let after := reap_orphans {["wc-0001"]} next.2 in
  map entry_container (warm_entries (pool_of next)) = ["fake-ctr-0003"]
  ∧ after.1 = Ok ["fake-ctr-0002"]
  ∧ running (after.2 : FakeContainerRuntime) !! "fake-ctr-0001" = Some "wc-0001".
Proof. vm_compute. split_and!; reflexivity. Qed.

(** A session id is checked after the cell is claimed: a claim that is refused has taken a
    container that is neither idle nor anybody's. *)
Example refused_session_leaks :
  let refused := WarmPool_claim (sample_claim "a/b" "run-1") (pool_of warmed, warmed.2) in
  match refused.1 with Ok _ => False | Err e => err_code e = "invalid_session_id" end
  ∧ warm_container_ids refused.2.1 = ["fake-ctr-0002"; "fake-ctr-0003"]
  ∧ running (refused.2.2 : FakeContainerRuntime) !! "fake-ctr-0001" = Some "wc-0001".
Proof. vm_compute. split_and!; reflexivity. Qed.

Lemma warmed_run : pool_run (pool_of warmed) [] warmed.2.
Proof.
  eapply (Run_new (H := sample_host) 2 sample_fake); [exact sample_fake_ok| |vm_compute; reflexivity].
  split; vm_compute; by intros.
Qed.

Lemma warm_pool_invariant_witness :
  pool_run (pool_of warmed) [] warmed.2
  ∧ NoDup (map entry_container (warm_entries (pool_of warmed) ++ [])).
Proof.
  split; [exact warmed_run|].
  exact (proj1 (warm_pool_invariant (pool_of warmed) [] warmed.2 warmed_run)).
Defined.

Lemma warm_claim_exclusive_witness :
  match claimed_once with
  | (Ok c, (p', w')) => cc_container c ∉ map entry_container (warm_entries p' ++ [])
  | _ => False
  end.
Proof.
  destruct claimed_once as [[c|e] [p' w']] eqn:Hc; [|by vm_compute in Hc].
  refine (proj1 (proj2 (warm_claim_exclusive (pool_of warmed) [] warmed.2
    (sample_claim "alice" "run-1") c p' w' warmed_run _ Hc))).
  split; vm_compute; by intros.
Defined.

Lemma reap_exact_witness :
  match @reap_orphans sample_host sample_lifecycle {["wc-0002"]} warmed.2 with
  | (Ok ids, w') =>
      ids = ["fake-ctr-0001"]
      ∧ fake_running w' = filter (λ ci, ci.2 ∈ ({["wc-0002"]} : gset string))
                            (fake_running warmed.2)
  | _ => False
  end.
Proof.
  destruct (@reap_orphans sample_host sample_lifecycle {["wc-0002"]} warmed.2) as [r w'] eqn:Hr.
  pose proof (@reap_exact sample_host sample_lifecycle sample_engine {["wc-0002"]} warmed.2 r w'
    (pi_engine _ _ _ _ (pool_run_ok _ _ _ warmed_run)) Hr) as (_ & _ & Hok).
  destruct r as [ids|e]; [|by vm_compute in Hr].
  split; [by injection Hr as <- _|]. exact (proj1 (Hok ids eq_refl)).
Defined.
