(* ===== verification/Dispatch.v ===== *)
(** Dispatch: from a job to its runner and its receipt
    (src/components/jeryu-ci-runner/crates/jeryu-runnerd/src/dispatch, job_file.rs, main.rs). *)

From Stdlib Require Import Ascii ZArith.
From S2P Require Import Prelude Text Paths CiIr.
From S2P Require RunnerProtocol.
From S2P Require Import RunnerCore Seccomp Hosts Sandbox SandboxLaws Native NativeLaws Containers.

#[local] Open Scope result_scope.

(** * Protocol jobs (adapter.rs) *)

Record ProtocolDispatchContext : Type := {
  ctx_repo : string; ctx_commit : string; ctx_workspace : string; ctx_tier : TrustTier;
  ctx_fork : bool; ctx_network : NetworkPolicy; ctx_secrets : SecretPolicy;
  ctx_token : TokenPolicy
}.

Definition adapter_error (m : string) : RunnerError :=
  RunnerError_new "protocol_adapter_denied" m.

(** The fields that may not be blank, in the order they are looked at. *)
Definition identity_fields (r : RunnerProtocol.JobRequest) : list (string * string) :=
  [("request_id", RunnerProtocol.request_id r); ("pipeline_id", RunnerProtocol.req_pipeline_id r);
   ("run_id", RunnerProtocol.req_run_id r); ("lease_id", RunnerProtocol.req_lease_id r);
   ("job_id", RunnerProtocol.req_job_id r); ("runner_id", RunnerProtocol.req_runner_id r)].

Definition stable_request_id (r : RunnerProtocol.JobRequest) : string :=
  deterministic_hash
    (join "|" ["job-request"; RunnerProtocol.req_pipeline_id r; RunnerProtocol.req_run_id r;
               RunnerProtocol.req_lease_id r; RunnerProtocol.req_job_id r]).

Definition validate_protocol_identity (r : RunnerProtocol.JobRequest) : RunnerResult () :=
  match find_first (λ fv, str_is_empty (trim fv.2)) (identity_fields r) with
  | Some (field, _) => Err (adapter_error ("protocol field '" +:+ field +:+ "' cannot be blank"))
  | None =>
      if (RunnerProtocol.req_runner_epoch r =? 0)%N then
        Err (adapter_error "protocol field 'runner_epoch' must be positive")
      else if negb (bool_decide (RunnerProtocol.request_id r = stable_request_id r)) then
        Err (adapter_error "protocol request_id does not match stable identity fields")
      else Ok tt
  end.

Definition protocol_class (c : CiIr.RunnerClass) : RunnerResult RunnerClass :=
  match c with
  | RC_NativeRustHot => Ok NativeRustHot
  | RC_NativeRustClean => Ok NativeRustClean
  | RC_AgentGuard => Ok AgentGuard
  | RC_ReleaseHermetic => Ok ReleaseHermetic
  | RC_MicrovmRust => Ok MicroVmRust
  | RC_OciDocker => Ok OciDocker
  | other => Err (adapter_error ("unsupported protocol runner class '"
                                 +:+ CiIr.RunnerClass_as_str other +:+ "'"))
  end.

(** [for (key, value) in step_env], which is in key order. *)
Fixpoint merge_entries (target : gmap string string) (entries : list (string * string)) :
    RunnerResult (gmap string string) :=
  match entries with
  | [] => Ok target
  | (key, value) :: entries =>
      match target !! key with
      | Some existing =>
          if bool_decide (existing = value) then merge_entries target entries
          else Err (adapter_error ("conflicting environment value for '" +:+ key +:+ "'"))
      | None => merge_entries (<[key := value]> target) entries
      end
  end.

Definition merge_step_env (target step_env : gmap string string) :
    RunnerResult (gmap string string) := merge_entries target (bt_iter step_env).

Definition DENIED_ENV_KEYS : list string :=
  ["SSH_AUTH_SOCK"; "AWS_ACCESS_KEY_ID"; "AWS_SECRET_ACCESS_KEY"; "AWS_SESSION_TOKEN";
   "GOOGLE_APPLICATION_CREDENTIALS"; "GITHUB_TOKEN"].

Definition is_denied_env_key (key : string) : bool := bool_decide (key ∈ DENIED_ENV_KEYS).

Definition valid_env_key (key : string) : bool :=
  match key with
  | "" => false
  | String c _ => string_all is_env_char key && negb (is_ascii_digit c)
  end.

Fixpoint validate_keys (keys : list string) : RunnerResult () :=
  match keys with
  | [] => Ok tt
  | key :: keys =>
      if negb (valid_env_key key) then
        Err (adapter_error ("invalid environment variable '" +:+ key +:+ "'"))
      else if is_denied_env_key key then
        Err (adapter_error ("ambient environment variable '" +:+ key +:+ "' is denied"))
      else validate_keys keys
  end.

Definition validate_env (e : gmap string string) : RunnerResult () := validate_keys (bt_keys e).

Definition guard (b : bool) (m : string) : RunnerResult () :=
  if b then Err (adapter_error m) else Ok tt.

(** The one step of a job and its command. *)
Definition only_step (r : RunnerProtocol.JobRequest) : RunnerResult Step :=
  match RunnerProtocol.req_steps r with
  | [step] => Ok step
  | steps => Err (adapter_error ("expected exactly one executable step, got "
                                 +:+ show_N (N.of_nat (length steps))))
  end.

Definition nul : ascii := "000"%char.

Definition step_program (step : Step) : RunnerResult string :=
  let? _ := guard (negb (is_none (step_uses step)))
              "action-style steps are not executable by jeryu_runnerd" in
  let? _ := guard (negb (is_none (working_directory step)))
              "step working directories are not supported by jeryu_runnerd" in
  match step_command step with
  | None => Err (adapter_error "protocol step is missing an executable command")
  | Some c =>
      let? _ := guard (str_is_empty (trim c)) "protocol step is missing an executable command" in
      let? _ := guard (str_contains (String nul "") c) "protocol step command contains NUL byte" in
      Ok c
  end.

Definition timeout_of (seconds : N) : RunnerResult N :=
  if (u64_max <? seconds * 1000)%N then
    Err (adapter_error "timeout_seconds overflows timeout_ms")
  else if (seconds * 1000 =? 0)%N then Err (adapter_error "timeout_seconds must be positive")
  else Ok (seconds * 1000)%N.

Definition core_job (r : RunnerProtocol.JobRequest) (ctx : ProtocolDispatchContext)
    (program : string) (e : gmap string string) (class : RunnerClass) (timeout : N) :
    JobRequest :=
  {| job_id := RunnerProtocol.req_job_id r; repo_id := ctx_repo ctx; commit_sha := ctx_commit ctx;
     workspace := ctx_workspace ctx; command := "/bin/sh"; args := ["-lc"; program]; env := e;
     trust_tier := ctx_tier ctx; requested_runner := Some class;
     network_policy := ctx_network ctx; secret_policy := ctx_secrets ctx;
     token_policy := ctx_token ctx; timeout_ms := timeout; fork := ctx_fork ctx |}.

Definition protocol_to_core_job (r : RunnerProtocol.JobRequest) (ctx : ProtocolDispatchContext) :
    RunnerResult JobRequest :=
  let? _ := validate_protocol_identity r in
  let? _ := guard (negb (bool_decide (length (RunnerProtocol.req_cache_mounts r) = 0)))
              "cache mounts are not supported by jeryu_runner_core jobs yet" in
  let? _ := guard (negb (bool_decide (length (RunnerProtocol.req_artifact_paths r) = 0)))
              "artifact paths are not supported by jeryu_runner_core jobs yet" in
  let? step := only_step r in
  let? program := step_program step in
  let? e := merge_step_env (RunnerProtocol.req_env r) (step_env step) in
  let? _ := validate_env e in
  let? timeout := timeout_of (RunnerProtocol.req_timeout_seconds r) in
  let? class := protocol_class (RunnerProtocol.req_runner_class r) in
  let job := core_job r ctx program e class timeout in
  let? _ := JobRequest_validate job in
  let? _ := select_runner job in
  Ok job.

(** * The engine (engine.rs) *)

Inductive DispatchMode : Type := Explain | Run.

Section engine.
Context {H : Host} {CR : ContainerRuntime world}.

(** The runner of the class, native ones under the probed capabilities. [None] is a panic,
    or a wait for the output of a native job that never ends. *)
Definition try_dispatch (caps : SandboxCapabilities) (job : JobRequest) (mode : DispatchMode) :
    io world RunnerError (option Receipt) :=
  d ← from_result (select_runner job);
  let plan := SandboxPlan_from_decision (workspace job) d in
  match mode, runner_class d with
  | Explain, (NativeRustHot | NativeRustClean | AgentGuard | ReleaseHermetic) =>
      NativeRunner_plan_only job d plan
  | Run, (NativeRustHot | NativeRustClean | AgentGuard | ReleaseHermetic) =>
      NativeRunner_execute caps job d plan
  | _, MicroVmRust => r ← MicroVmRunner_execute job d plan; mret (Some r)
  | _, OciDocker => r ← OciRunner_execute job d plan; mret (Some r)
  end.

Definition dispatch {E} (caps : SandboxCapabilities) (job : JobRequest) (mode : DispatchMode) :
    io world E (option Receipt) :=
  r ← attempt (try_dispatch caps job mode);
  match r with
  | Ok receipt => mret receipt
  | Err err => now ← now_ms; mret (Some (Receipt_denied job (RunnerError_to_string err) now))
  end.

Definition try_dispatch_protocol (caps : SandboxCapabilities) (r : RunnerProtocol.JobRequest)
    (ctx : ProtocolDispatchContext) (mode : DispatchMode) :
    io world RunnerError (option Receipt) :=
  job ← from_result (protocol_to_core_job r ctx);
  try_dispatch caps job mode.

(** * The command (job_file.rs, main.rs) *)

(** [fs::read_to_string], with the text of its error. *)
Context (read_to_string : string → io world string string).

Definition load_job_file (path : string) : io world RunnerError JobRequest :=
  content ← io_map_err (λ err, RunnerError_new "job_file_read_failed"
                                 ("failed to read '" +:+ path +:+ "': " +:+ err))
              (read_to_string path);
  from_result (from_key_value content).

Definition status_to_exit (s : ReceiptStatus) : N :=
  match s with Planned | Passed => 0 | Failed | TimedOut => 1 | Denied => 3 end.

(** [explain] and [run]: the receipt that is printed and the exit code, or the message. *)
Definition run_command (caps : SandboxCapabilities) (mode : DispatchMode) (path : string) :
    io world string (option (Receipt * N)) :=
  job ← io_map_err RunnerError_to_string (load_job_file path);
  r ← dispatch caps job mode;
  mret ((λ r, (r, status_to_exit (status r))) <$> r).
End engine.

(** * The adapter *)

Lemma merge_entries_spec target entries e :
  NoDup entries.*1 →
  merge_entries target entries = Ok e ↔
  (∀ k v v0, (k, v) ∈ entries → target !! k = Some v0 → v0 = v)
  ∧ e = target ∪ list_to_map entries.
Proof.
  revert target. induction entries as [|[k v] entries IH]; intros target Hnd; cbn.
  { rewrite (right_id_L ∅ (∪)). split; [intros [= ->]|intros [_ ->]; done].
    split; [|done]. by intros ? ? ? ?%elem_of_nil. }
  cbn in Hnd. apply NoDup_cons in Hnd as [Hk Hnd].
  assert (list_to_map entries !! k = (None : option string)) as Hnone
    by by apply not_elem_of_list_to_map_1.
  destruct (target !! k) as [v0|] eqn:Hv0.
  - case_bool_decide as Heq.
    + subst v0.
      assert (target ∪ <[k := v]> (list_to_map entries) = target ∪ list_to_map entries) as ->.
      { apply map_eq. intros i. rewrite !lookup_union. destruct (decide (k = i)) as [<-|].
        - by rewrite Hv0, Hnone, lookup_insert_eq.
        - by rewrite lookup_insert_ne. }
      rewrite (IH target Hnd). setoid_rewrite elem_of_cons. split; intros [Ha ->]; (split; [|done]); [|by eauto].
      intros k' v' v0' [[= -> ->]|Hin] Ht; [congruence|by eauto].
    + split; [done|]. intros [Ha _]. exfalso. apply Heq, (Ha k v); [by left|done].
  - rewrite (IH _ Hnd), <-(insert_union_l _ _ k v), <-insert_union_r by done.
    setoid_rewrite elem_of_cons. split; intros [Ha ->]; (split; [|done]).
    + intros k' v' v0' [[= -> ->]|Hin] Ht; [congruence|].
      apply (Ha k' v' v0' Hin). rewrite lookup_insert_ne; [done|].
      intros <-. apply Hk, list_elem_of_fmap. by exists (k, v').
    + intros k' v' v0' Hin Ht. apply (Ha k' v' v0'); [by right|].
      rewrite lookup_insert_ne in Ht; [done|].
      intros <-. apply Hk, list_elem_of_fmap. by exists (k, v').
Qed.

Lemma merge_step_env_spec target step_env e :
  merge_step_env target step_env = Ok e ↔
  (∀ k v v0, step_env !! k = Some v → target !! k = Some v0 → v0 = v) ∧ e = target ∪ step_env.
Proof.
  unfold merge_step_env. rewrite merge_entries_spec by apply bt_iter_NoDup_keys.
  setoid_rewrite elem_of_bt_iter.
  assert (list_to_map (bt_iter step_env) = step_env) as ->; [|done].
  rewrite <-(list_to_map_to_list step_env) at 2. apply list_to_map_proper.
  - apply bt_iter_NoDup_keys.
  - apply bt_iter_perm.
Qed.

Lemma validate_env_spec e :
  validate_env e = Ok tt ↔
  ∀ k, is_Some (e !! k) → valid_env_key k = true ∧ k ∉ DENIED_ENV_KEYS.
Proof.
  unfold validate_env. setoid_rewrite <-elem_of_bt_keys.
  rewrite <-(Forall_forall (λ k, valid_env_key k = true ∧ k ∉ DENIED_ENV_KEYS)).
  induction (bt_keys e) as [|k keys IH]; cbn [validate_keys]; [by split|].
  rewrite Forall_cons, <-IH. unfold is_denied_env_key.
  destruct (valid_env_key k); cbn [negb]; [|by split; [|intros [[? _] _]]].
  case_bool_decide; [by split; [|intros [[_ ?] _]]|by split; [|intros [_ ?]]].
Qed.

(** What a request must be to become a job. *)
Record accepts (r : RunnerProtocol.JobRequest) (step : Step) (program : string)
    (e : gmap string string) (class : RunnerClass) : Prop := {
  acc_identity : ∀ field value, (field, value) ∈ identity_fields r → trim value ≠ "";
  acc_epoch : RunnerProtocol.req_runner_epoch r ≠ 0%N;
  acc_request : RunnerProtocol.request_id r = stable_request_id r;
  acc_plain : RunnerProtocol.req_cache_mounts r = [] ∧ RunnerProtocol.req_artifact_paths r = [];
  acc_step : RunnerProtocol.req_steps r = [step];
  acc_step_plain : step_uses step = None ∧ working_directory step = None;
  acc_program : step_command step = Some program ∧ trim program ≠ ""
    ∧ str_contains (String nul "") program = false;
  acc_agree : ∀ k v v0, step_env step !! k = Some v →
    RunnerProtocol.req_env r !! k = Some v0 → v0 = v;
  acc_env : e = RunnerProtocol.req_env r ∪ step_env step;
  acc_keys : ∀ k, is_Some (e !! k) → valid_env_key k = true ∧ k ∉ DENIED_ENV_KEYS;
  acc_timeout : (0 < RunnerProtocol.req_timeout_seconds r)%N
    ∧ (RunnerProtocol.req_timeout_seconds r * 1000 ≤ u64_max)%N;
  acc_class : protocol_class (RunnerProtocol.req_runner_class r) = Ok class
}.

Lemma identity_spec r :
  validate_protocol_identity r = Ok tt ↔
  (∀ field value, (field, value) ∈ identity_fields r → trim value ≠ "")
  ∧ RunnerProtocol.req_runner_epoch r ≠ 0%N
  ∧ RunnerProtocol.request_id r = stable_request_id r.
Proof.
  unfold validate_protocol_identity.
  destruct (find_first _ (identity_fields r)) as [[field value]|] eqn:Hf.
  - split; [done|]. intros [Hall _].
    apply find_first_Some in Hf as (l1 & l2 & Hl & Hb & _). exfalso.
    apply (Hall field value); [rewrite Hl; set_solver|].
    unfold str_is_empty in Hb. cbn in Hb. by case_bool_decide.
  - assert (∀ field value, (field, value) ∈ identity_fields r → trim value ≠ "") as Hall.
    { rewrite find_first_None, Forall_forall in Hf. intros field value Hin He.
      specialize (Hf _ Hin). cbv beta iota in Hf. cbn [snd] in Hf. rewrite He in Hf. done. }
    destruct (N.eqb_spec (RunnerProtocol.req_runner_epoch r) 0); [by split; [|intros (_ & ? & _)]|].
    case_bool_decide; cbn [negb]; split; [done..| |by intros (_ & _ & ?)]. done.
Qed.

Lemma guard_Ok b m : guard b m = Ok tt ↔ b = false.
Proof. by destruct b. Qed.

Lemma step_program_spec step program :
  step_program step = Ok program ↔
  (step_uses step = None ∧ working_directory step = None)
  ∧ step_command step = Some program ∧ trim program ≠ ""
  ∧ str_contains (String nul "") program = false.
Proof.
  unfold step_program, guard, str_is_empty.
  destruct (step_uses step), (working_directory step); cbn; try (split; [done|by intros [[? ?] _]]).
  destruct (step_command step) as [c|]; [|by split; [|intros (_ & ? & _)]].
  case_bool_decide as Hc; cbn.
  { split; [done|]. intros (_ & [= <-] & ? & _). done. }
  destruct (str_contains _ c) eqn:Hn.
  { split; [done|]. intros (_ & [= <-] & _ & ?). congruence. }
  split; [intros [= <-]|intros (_ & [= <-] & _)]; done.
Qed.

Lemma timeout_spec seconds t :
  timeout_of seconds = Ok t ↔
  ((0 < seconds)%N ∧ (seconds * 1000 ≤ u64_max)%N) ∧ t = (seconds * 1000)%N.
Proof.
  unfold timeout_of. destruct (N.ltb_spec u64_max (seconds * 1000)); [split; [done|lia]|].
  destruct (N.eqb_spec (seconds * 1000) 0); [split; [done|lia]|].
  split; [intros [= <-]; lia|by intros [_ ->]].
Qed.

(** C22: a protocol request becomes exactly the job it describes, or nothing. It is accepted
    if and only if its identity is complete, fenced by an epoch and bound to its request id,
    it is one plain command without mounts, artifacts, actions or directories, the
    environments of job and step agree and have proper, not ambient, names, the timeout
    fits, the class is one that runs, and the job is valid and permitted to its tier; the
    job then runs that command in a login shell, with the union of the environments, under
    the tier, the workspace and the policies of the host and not of the request. *)
Theorem protocol_job_spec r ctx job :
  protocol_to_core_job r ctx = Ok job ↔
  ∃ step program e class,
    accepts r step program e class
    ∧ job = core_job r ctx program e class (RunnerProtocol.req_timeout_seconds r * 1000)
    ∧ valid_job job ∧ permitted (ctx_tier ctx) class (ctx_network ctx) = true.
Proof.
  unfold protocol_to_core_job. split.
  - destruct (validate_protocol_identity r) as [[]|] eqn:Hi; [|done].
    apply identity_spec in Hi as (Hi1 & Hi2 & Hi3).
    destruct (guard (negb (bool_decide (length (RunnerProtocol.req_cache_mounts r) = 0))) _)
      as [[]|] eqn:Hc; [|done].
    destruct (guard (negb (bool_decide (length (RunnerProtocol.req_artifact_paths r) = 0))) _)
      as [[]|] eqn:Ha; [|done].
    apply guard_Ok, negb_false_iff, bool_decide_eq_true, nil_length_inv in Hc, Ha.
    destruct (only_step r) as [step|] eqn:Hs; [|done].
    destruct (step_program step) as [program|] eqn:Hp; [|done].
    apply step_program_spec in Hp as (Hp1 & Hp2).
    destruct (merge_step_env _ _) as [e|] eqn:Hm; [|done].
    apply merge_step_env_spec in Hm as [Hm1 Hm2].
    destruct (validate_env e) as [[]|] eqn:Hv; [|done]. rewrite validate_env_spec in Hv.
    destruct (timeout_of _) as [t|] eqn:Ht; [|done]. apply timeout_spec in Ht as [Ht ->].
    destruct (protocol_class _) as [class|] eqn:Hcl; [|done].
    destruct (JobRequest_validate _) as [[]|] eqn:Hj; [|done].
    apply JobRequest_validate_spec in Hj.
    pose proof (select_runner_cases (core_job r ctx program e class
                  (RunnerProtocol.req_timeout_seconds r * 1000))) as Hsel.
    destruct (select_runner _) as [d|]; [|done]. intros [= <-].
    exists step, program, e, class. split_and!; [|done|done|apply Hsel].
    assert (RunnerProtocol.req_steps r = [step]) as Hsteps.
    { revert Hs. unfold only_step. destruct (RunnerProtocol.req_steps r) as [|s [|]]; [done| |done].
      by intros [= <-]. }
    by split.
  - intros (step & program & e & class & [Hi1 Hi2 Hi3 [Hc Ha] Hs Hp1 Hp2 Hm1 Hm2 Hv Ht Hcl]
      & -> & Hj & Hperm).
    rewrite (proj2 (identity_spec r)) by done. rewrite Hc, Ha. cbn [length guard].
    rewrite !bool_decide_eq_true_2 by done. cbn [negb guard].
    unfold only_step. rewrite Hs, (proj2 (step_program_spec step program)) by done.
    rewrite (proj2 (merge_step_env_spec _ _ e)) by done.
    rewrite (proj2 (validate_env_spec e)) by done.
    rewrite (proj2 (timeout_spec _ (RunnerProtocol.req_timeout_seconds r * 1000))) by done.
    rewrite Hcl, (proj2 (JobRequest_validate_spec _)) by done.
    pose proof (select_runner_cases (core_job r ctx program e class
                  (RunnerProtocol.req_timeout_seconds r * 1000))) as Hsel.
    destruct (select_runner _) as [d|]; [done|]. destruct Hsel as [Hno _].
    cbn in Hno. congruence.
Qed.

(** * What a dispatch does to the host *)

(** A container without network on the workspace, or a virtual machine. *)
Definition contained (job : JobRequest) (e : Event) : Prop :=
  (∃ spec, e = Ran (oci_runtime spec) (OciSpec_args spec) ∧ oci_network spec = "none"
     ∧ oci_workspace spec = workspace job ∧ oci_command spec = command job :: args job)
  ∨ ∃ program, e = Ran program ["--no-api"].

Section effects.
Context {H : Host} {HL : HostLog H}.

#[local] Instance dispatch_runtime : ContainerRuntime world := cli_runtime.

Lemma now_log {E} w : ∃ n w', (now_ms : io world E N) w = (Ok n, w') ∧ log w' = log w.
Proof.
  unfold now_ms, always. pose proof (log_clock w) as Hl. destruct (clock_ms w) as [n w1].
  by exists n, w1.
Qed.

Lemma oci_spec_run job plan w :
  match OciSpec_from_job job plan w with
  | (Ok s, w') =>
      w' = w ∧ plan_class plan = OciDocker ∧ oci_network s = network_arg (plan_network plan)
      ∧ oci_workspace s = workspace job ∧ oci_command s = command job :: args job
  | (Err _, w') => w' = w
  end.
Proof.
  unfold OciSpec_from_job. case_bool_decide as Hc; [|done]. cbn [negb].
  unfold mbind at 1, io_bind at 1, from_result at 1.
  by destruct (deny_dangerous_host_path (workspace job)) as [[]|].
Qed.

(** An engine is asked for at most one thing: to run the job's container. *)
Lemma oci_log job d plan w r w' :
  OciRunner_execute job d plan w = (r, w') →
  ∃ evs, log w' = log w ++ evs
    ∧ (plan_network plan = Deny → Forall (contained job) evs) ∧ Forall no_exec evs.
Proof.
  unfold OciRunner_execute. intros Hw. pose proof (oci_spec_run job plan w) as Hspec.
  destruct (OciSpec_from_job job plan w) as [[s|e] w1] eqn:Hs;
    rewrite (io_bind_run _ _ _ _ _ Hs) in Hw.
  2:{ injection Hw as <- <-. subst. exists []. by rewrite app_nil_r. }
  destruct Hspec as (-> & _ & Hnet & Hws & Hcmd).
  destruct (now_log (E := RunnerError) w) as (n & w2 & Hn & Hl).
  rewrite (io_bind_run _ _ _ _ _ Hn) in Hw.
  assert (∃ evs o w3, (attempt (run s) : io world RunnerError _) w2 = (Ok o, w3)
    ∧ log w3 = log w ++ evs ∧ evs `sublist_of` [Ran (oci_runtime s) (OciSpec_args s)])
    as (evs & o & w3 & Hrun & Hl3 & Hsub).
  { unfold attempt. cbn [run dispatch_runtime cli_runtime]. unfold cli_run, gate_open.
    unfold mbind, io_bind, ask. destruct (bool_decide _); cbn [negb].
    - unfold io_map_err. pose proof (log_process (oci_runtime s) (OciSpec_args s) w2) as Hp.
      destruct (run_process _ _ w2) as [[out|err] w3]; cbn in *;
        (eexists _, _, w3; split_and!; [done|by rewrite Hp, Hl|done]).
    - eexists [], _, w2. split_and!; [done|by rewrite app_nil_r|apply sublist_nil_l]. }
  rewrite (io_bind_run _ _ _ _ _ Hrun) in Hw.
  destruct (now_log (E := RunnerError) w3) as (n' & w4 & Hn' & Hl4).
  rewrite (io_bind_run _ _ _ _ _ Hn') in Hw. injection Hw as _ <-.
  assert (∀ e, e ∈ evs → e = Ran (oci_runtime s) (OciSpec_args s)) as Hall.
  { intros e He. apply list_elem_of_singleton.
    exact (elem_of_submseteq _ _ _ He (sublist_submseteq _ _ Hsub)). }
  exists evs. rewrite Hl4. split_and!; [done| |].
  - intros Hdeny. apply Forall_forall. intros e ->%Hall. left. exists s.
    split_and!; try done. by rewrite Hnet, Hdeny.
  - apply Forall_forall. by intros e ->%Hall.
Qed.

Lemma microvm_spec_pure job plan w :
  (MicroVmSpec_from_job job plan w).2 = w.
Proof. unfold MicroVmSpec_from_job. by case_bool_decide. Qed.

Lemma microvm_log job d plan w r w' :
  MicroVmRunner_execute job d plan w = (r, w') →
  ∃ evs, log w' = log w ++ evs ∧ Forall (contained job) evs ∧ Forall no_exec evs.
Proof.
  unfold MicroVmRunner_execute. intros Hw. pose proof (microvm_spec_pure job plan w) as Hspec.
  destruct (MicroVmSpec_from_job job plan w) as [[s|e] w1] eqn:Hs; cbn [snd] in Hspec; subst w1;
    rewrite (io_bind_run _ _ _ _ _ Hs) in Hw.
  2:{ injection Hw as <- <-. exists []. by rewrite app_nil_r. }
  destruct (now_log (E := RunnerError) w) as (n & w2 & Hn & Hl).
  rewrite (io_bind_run _ _ _ _ _ Hn) in Hw.
  unfold mbind at 1, io_bind at 1, ask at 1 in Hw. destruct (bool_decide _); cbn [negb] in Hw.
  2:{ injection Hw as <- <-. exists []. by rewrite app_nil_r. }
  destruct ((attempt (run_process (executable s) ["--no-api"]) : io world RunnerError _) w2)
    as [o w3] eqn:Hrun.
  rewrite (io_bind_run _ _ _ _ _ Hrun) in Hw.
  assert (log w3 = log w ++ [Ran (executable s) ["--no-api"]]) as Hl3.
  { pose proof (log_process (executable s) ["--no-api"] w2) as Hp. revert Hrun. unfold attempt.
    destruct (run_process _ _ w2) as [out w4]. intros [= _ <-]. by rewrite <-Hl. }
  destruct o as [o|e]; [|revert Hrun; unfold attempt; by destruct (run_process _ _ w2)].
  destruct (now_log (E := RunnerError) w3) as (n' & w4 & Hn' & Hl4).
  rewrite (io_bind_run _ _ _ _ _ Hn') in Hw. injection Hw as _ <-.
  eexists. rewrite Hl4, Hl3. split_and!; [done| |by repeat constructor].
  apply Forall_singleton. right. by eexists.
Qed.

Lemma plan_only_log job d plan w r w' :
  NativeRunner_plan_only job d plan w = (r, w') → log w' = log w.
Proof.
  unfold NativeRunner_plan_only, mbind at 1, io_bind at 1, from_result at 1.
  destruct (JobRequest_validate job) as [[]|]; [|by intros [= _ <-]].
  unfold mbind at 1, io_bind at 1, from_result at 1.
  destruct (validate_native_plan job plan) as [[]|]; [|by intros [= _ <-]].
  destruct (now_log (E := RunnerError) w) as (n & w1 & Hn & Hl). intros Hw.
  rewrite (io_bind_run _ _ _ _ _ Hn) in Hw. by injection Hw as _ <-.
Qed.

(** What a dispatch of a job may leave in the log. *)
Definition dispatched (caps : SandboxCapabilities) (job : JobRequest) (mode : DispatchMode)
    (evs : list Event) : Prop :=
  (Forall no_exec evs
   ∨ mode = Run ∧ ∃ d, select_runner job = Ok d ∧ is_native (runner_class d) = true
     ∧ valid_job job
     ∧ started_confined caps job (SandboxPlan_from_decision (workspace job) d) evs)
  ∧ (untrusted (trust_tier job) = true → Forall (contained job) evs)
  ∧ (mode = Explain → is_native (wanted_class job) = true → evs = [])
  ∧ (permitted (trust_tier job) (wanted_class job) (network_policy job) = false → evs = []).

Lemma nothing_dispatched caps job mode : dispatched caps job mode [].
Proof. split_and!; [by left|by intros|done|done]. Qed.

Lemma untrusted_decision job d :
  select_runner job = Ok d → untrusted (trust_tier job) = true →
  eff_network d = Deny ∧ is_native (runner_class d) = false.
Proof.
  intros Hd Hu. pose proof (select_runner_cases job) as Hsel. rewrite Hd in Hsel.
  destruct Hsel as (Hp & -> & -> & _).
  destruct (trust_tier job), (wanted_class job), (network_policy job); done.
Qed.

Lemma try_dispatch_log caps job mode w r w' :
  try_dispatch caps job mode w = (r, w') →
  ∃ evs, log w' = log w ++ evs ∧ dispatched caps job mode evs
  ∧ (permitted (trust_tier job) (wanted_class job) (network_policy job) = is_ok (select_runner job))
  ∧ (∀ e, select_runner job = Err e → r = Err e).
Proof.
  unfold try_dispatch, mbind at 1, io_bind at 1, from_result at 1. intros Hw.
  pose proof (select_runner_cases job) as Hsel.
  destruct (select_runner job) as [d|e] eqn:Hd.
  2:{ injection Hw as <- <-. exists []. rewrite app_nil_r. destruct Hsel as [-> _].
      split_and!; [done|apply nothing_dispatched|done|by intros ? [= <-]]. }
  destruct Hsel as (Hperm & Hclass & Hnet & _).
  cut (∃ evs, log w' = log w ++ evs ∧ dispatched caps job mode evs).
  { intros (evs & ? & ?). exists evs. by split_and!. }
  pose proof (untrusted_decision job d Hd) as Hun.
  assert (∀ evs, Forall no_exec evs → is_native (runner_class d) = false →
    (plan_network (SandboxPlan_from_decision (workspace job) d) = Deny →
     Forall (contained job) evs) → dispatched caps job mode evs) as Hother.
  { intros evs Hn Hnat Hc. split_and!; [by left| | |congruence].
    - intros [? _]%Hun. by apply Hc.
    - intros _. rewrite <-Hclass. congruence. }
  destruct (is_native (runner_class d)) eqn:Hnat.
  - assert (∀ evs, (mode = Explain → evs = []) →
      (Forall no_exec evs ∨ mode = Run ∧ valid_job job
         ∧ started_confined caps job (SandboxPlan_from_decision (workspace job) d) evs) →
      dispatched caps job mode evs) as Hnative.
    { intros evs He Hs. split_and!; [|by intros [_ ?]%Hun|by intros ? _; apply He|by rewrite Hperm].
      destruct Hs as [?|(? & ? & ?)]; [by left|right]. split; [done|]. by exists d. }
    destruct mode.
    + exists []. rewrite app_nil_r. split; [|apply nothing_dispatched].
      destruct (runner_class d); try done; by eapply plan_only_log.
    + assert (NativeRunner_execute caps job d (SandboxPlan_from_decision (workspace job) d) w
              = (r, w')) as Hx by (destruct (runner_class d); done).
      destruct (native_runs_confined caps job d (SandboxPlan_from_decision (workspace job) d) w)
        as (evs & Hl & Hs & _). rewrite Hx in Hl. exists evs. split; [done|].
      apply Hnative; [done|]. destruct Hs as [?|(? & _ & ?)]; [by left|by right].
  - assert (∀ c, ((r ← c; mret (Some r)) : io world RunnerError (option Receipt)) w = (r, w') →
      ∃ r0, (c : io world RunnerError Receipt) w = (r0, w')) as Hmap.
    { intros c. unfold mbind, io_bind. destruct (c w) as [[a|e] w1]; intros [= _ <-]; by eexists. }
    destruct (runner_class d) eqn:Hc; try done.
    + assert (∃ r0, MicroVmRunner_execute job d (SandboxPlan_from_decision (workspace job) d) w
                    = (r0, w')) as [r0 Hx] by (destruct mode; by apply Hmap).
      apply microvm_log in Hx as (evs & Hl & Hcont & Hn). exists evs. split; [done|]. by apply Hother.
    + assert (∃ r0, OciRunner_execute job d (SandboxPlan_from_decision (workspace job) d) w
                    = (r0, w')) as [r0 Hx] by (destruct mode; by apply Hmap).
      apply oci_log in Hx as (evs & Hl & Hcont & Hn). exists evs. split; [done|]. by apply Hother.
Qed.

Lemma dispatch_run {E} caps job mode w r w1 :
  try_dispatch caps job mode w = (r, w1) →
  ∃ w', (dispatch caps job mode : io world E (option Receipt)) w
        = (Ok (match r with
               | Ok receipt => receipt
               | Err e => Some (Receipt_denied job (RunnerError_to_string e) (clock_ms w1).1)
               end), w')
    ∧ log w' = log w1.
Proof.
  intros Hw. unfold dispatch.
  rewrite (io_bind_run _ _ w (Ok r) w1) by (unfold attempt; by rewrite Hw).
  destruct r as [receipt|e]; [by eexists|].
  unfold mbind, io_bind, now_ms, always. pose proof (log_clock w1) as Hl.
  destruct (clock_ms w1) as [n w2]. by eexists.
Qed.

(** C20: a dispatch starts nothing that the policy does not allow. Whatever the job and the
    mode, and whether the call answers a receipt or ends in [None] (a panic, or a wait without
    end for output that a left-over process holds back), all that is started is: a native program, only to run a
    valid job of a native class, after every confining call of its plan; for code of forks
    and of the public, nothing but a container of the job without network on its workspace or
    a virtual machine; nothing to explain a native job; and nothing for a job the trust
    table refuses, whose receipt says that it was denied. *)
Theorem dispatch_confined caps job mode w :
  ∃ r w' evs, (dispatch caps job mode : io world RunnerError (option Receipt)) w = (Ok r, w')
  ∧ log w' = log w ++ evs
  ∧ (Forall no_exec evs
     ∨ mode = Run ∧ ∃ d, select_runner job = Ok d ∧ is_native (runner_class d) = true
       ∧ valid_job job
       ∧ started_confined caps job (SandboxPlan_from_decision (workspace job) d) evs)
  ∧ (untrusted (trust_tier job) = true → Forall (contained job) evs)
  ∧ (mode = Explain → is_native (wanted_class job) = true → evs = [])
  ∧ (permitted (trust_tier job) (wanted_class job) (network_policy job) = false →
     evs = [] ∧ ∃ receipt, r = Some receipt ∧ status receipt = Denied
       ∧ receipt_job receipt = job_id job).
Proof.
  destruct (try_dispatch caps job mode w) as [r w1] eqn:Hw.
  destruct (dispatch_run (E := RunnerError) caps job mode w r w1 Hw) as (w' & Hd & Hl).
  destruct (try_dispatch_log caps job mode w r w1 Hw)
    as (evs & Hl1 & (Hs & Hu & He & Hp) & Hperm & Hr).
  eexists _, w', evs. split_and!; [exact Hd|by rewrite Hl|done|done|done|].
  intros Hno. split; [by apply Hp|].
  destruct (select_runner job) as [d|e]; [cbn in Hperm; congruence|].
  rewrite (Hr e eq_refl). by eexists.
Qed.
End effects.
