(* ===== verification/Fleet.v ===== *)
(** Fleet: runner daemons behind one registry
    (src/components/jeryu-ci-runner/crates/jeryu-runnerd/src/fleet.rs). *)

From Stdlib Require Import Ascii ZArith.
From S2P Require Import Prelude Text Paths CiIr Fencing RunnerProtocol Registry.
From S2P Require Import RunnerCore Seccomp Hosts Sandbox Native Containers Dispatch.

(** * Errors *)

Inductive FleetError : Type :=
  | PolicyDenied (why : string)
  | NoCapacity (class : string)
  | MissingDaemon (node : string)
  | FencedOut (fenced_id : string) (fenced_runner_epoch active_epoch : N).

Definition FleetError_to_string (e : FleetError) : string :=
  match e with
  | PolicyDenied why => "policy denied job before assignment: " +:+ why
  | NoCapacity class => "no runner capacity for class " +:+ class
  | MissingDaemon node => "assigned node " +:+ node +:+ " has no daemon"
  | FencedOut id e a =>
      "runner " +:+ id +:+ " fenced out: epoch " +:+ show_N e +:+ " != active epoch "
      +:+ show_N a
  end.

Definition FleetError_receipt (e : FleetError) (job : RunnerCore.JobRequest) (now : N) : Receipt :=
  Receipt_denied job ("runner_fleet_denied: " +:+ FleetError_to_string e) now.

(** * Daemons *)

Record RunnerDaemon : Type := {
  dm_runner_id : string; dm_capacity : N; dm_labels : list string;
  dm_classes : list CiIr.RunnerClass; dm_epoch : N; dm_mode : DispatchMode
}.

Definition RunnerDaemon_new (id : string) (cap : N) (classes : list CiIr.RunnerClass)
    (labels : list string) (mode : DispatchMode) : RunnerDaemon :=
  {| dm_runner_id := id; dm_capacity := cap; dm_labels := labels; dm_classes := classes;
     dm_epoch := 0; dm_mode := mode |}.

Definition hello (d : RunnerDaemon) : RunnerHello :=
  {| hello_runner_id := dm_runner_id d; hello_protocol_version := PROTOCOL_VERSION;
     hello_supported_classes := dm_classes d; hello_labels := dm_labels d;
     hello_capacity := dm_capacity d |}.

Definition accept_epoch (d : RunnerDaemon) (e : N) : RunnerDaemon :=
  {| dm_runner_id := dm_runner_id d; dm_capacity := dm_capacity d; dm_labels := dm_labels d;
     dm_classes := dm_classes d; dm_epoch := e; dm_mode := dm_mode d |}.

Definition beat_of (id : string) (e : N) : Heartbeat :=
  {| beat_runner_id := id; beat_runner_epoch := e; beat_run_id := ""; beat_lease_id := "";
     beat_job_id := ""; beat_monotonic_millis := 0; beat_message := "" |}.

(** * The fleet *)

Record ReservedJob : Type := {
  res_job : RunnerCore.JobRequest; res_runner : string; res_epoch : N
}.

Record FleetSubmission : Type := {
  sub_runner : string; sub_epoch : N; sub_receipt : Receipt
}.

Record RunnerFleet : Type := { registry : NodeRegistry; daemons : gmap string RunnerDaemon }.

Definition set_registry (f : RunnerFleet) (r : NodeRegistry) : RunnerFleet :=
  {| registry := r; daemons := daemons f |}.

Definition RunnerFleet_new (ttl : N) : RunnerFleet :=
  {| registry := NodeRegistry_new ttl; daemons := ∅ |}.

Definition fleet_register (f : RunnerFleet) (d : RunnerDaemon) (now : N) : N * RunnerFleet :=
  let (ack, r) := register (registry f) (hello d) now in
  (ack_epoch ack,
   {| registry := r; daemons := <[ack_node_id ack := accept_epoch d (ack_epoch ack)]> (daemons f) |}).

Definition fixture_daemon (mode : DispatchMode) (index : N) : RunnerDaemon :=
  RunnerDaemon_new ("xbabe" +:+ show_N index) 10 [RC_NativeRustClean; RC_NativeRustHot]
    ["rust"; "dogfood"] mode.

Definition deterministic_fixture_with_mode (mode : DispatchMode) : RunnerFleet :=
  foldl (λ f i, (fleet_register f (fixture_daemon mode i) 0).2) (RunnerFleet_new 10)
    [0; 1; 2; 3]%N.

Definition deterministic_fixture : RunnerFleet := deterministic_fixture_with_mode Run.

Definition current_epoch (f : RunnerFleet) (id : string) : N :=
  match nodes (registry f) !! id with Some n => epoch n | None => 0 end.

Definition core_class (c : RunnerCore.RunnerClass) : result CiIr.RunnerClass FleetError :=
  match c with
  | NativeRustHot => Ok RC_NativeRustHot
  | NativeRustClean => Ok RC_NativeRustClean
  | AgentGuard => Ok RC_AgentGuard
  | ReleaseHermetic => Ok RC_ReleaseHermetic
  | MicroVmRust => Ok RC_MicrovmRust
  | OciDocker => Ok RC_OciDocker
  end.

Definition fleet_heartbeat (f : RunnerFleet) (id : string) (now : N) :
    HeartbeatAck * RunnerFleet :=
  let beat := match daemons f !! id with
              | None => beat_of id 0
              | Some d => beat_of (dm_runner_id d) (dm_epoch d)
              end in
  let (ack, r) := heartbeat (registry f) beat now in
  (ack, set_registry f r).

Definition fleet_reap (f : RunnerFleet) (now : N) : list ReapedNode * RunnerFleet :=
  let (reaped, r) := reap (registry f) now in (reaped, set_registry f r).

Definition fleet_drain (f : RunnerFleet) (id : string) : bool * RunnerFleet :=
  let (b, r) := drain (registry f) id in (b, set_registry f r).

(** ** Jobs *)

Definition reserve_job (f : RunnerFleet) (job : RunnerCore.JobRequest) :
    result ReservedJob FleetError * RunnerFleet :=
  match select_runner job with
  | Err e => (Err (PolicyDenied (RunnerError_to_string e)), f)
  | Ok d =>
      match core_class (RunnerCore.runner_class d) with
      | Err e => (Err e, f)
      | Ok class =>
          match assign (registry f) (AssignSpec_new (RunnerCore.job_id job) class) with
          | (None, r) =>
              (Err (NoCapacity (RunnerCore.RunnerClass_as_str (RunnerCore.runner_class d))),
               set_registry f r)
          | (Some a, r) =>
              match daemons f !! assigned_node a with
              | None =>
                  (Err (MissingDaemon (assigned_node a)), set_registry f (release r (assigned_node a)))
              | Some _ =>
                  (Ok {| res_job := job; res_runner := assigned_node a;
                         res_epoch := assigned_epoch a |}, set_registry f r)
              end
          end
      end
  end.

Section submission.
Context {H : Host} {CR : ContainerRuntime world}.
Context (caps : SandboxCapabilities).

(** A method of the fleet; [None] is a panic, after which the fields are as they were left. *)
Abbreviation fleet_io A := (io (RunnerFleet * world) FleetError A).

Definition daemon_dispatch (d : RunnerDaemon) (job : RunnerCore.JobRequest) (e : N) :
    io world FleetError (option Receipt) :=
  if negb (dm_epoch d =? e)%N then fail (FencedOut (dm_runner_id d) e (dm_epoch d))
  else dispatch caps job (dm_mode d).

Definition run_reserved (r : ReservedJob) : fleet_io (option FleetSubmission) := λ s,
  let (f, w) := s in
  if negb (is_current_owner (registry f) (res_runner r) (res_epoch r)) then
    (Err (FencedOut (res_runner r) (res_epoch r) (current_epoch f (res_runner r))), (f, w))
  else
    match daemons f !! res_runner r with
    | None => (Err (MissingDaemon (res_runner r)), (f, w))
    | Some d =>
        match daemon_dispatch d (res_job r) (res_epoch r) w with
        | (Err e, w) => (Err e, (f, w))
        | (Ok None, w) => (Ok None, (f, w))
        | (Ok (Some receipt), w) =>
            (Ok (Some {| sub_runner := res_runner r; sub_epoch := res_epoch r;
                         sub_receipt := receipt |}),
             (set_registry f (release (registry f) (res_runner r)), w))
        end
    end.

Definition reserve (job : RunnerCore.JobRequest) : fleet_io ReservedJob := λ s,
  let (r, f) := reserve_job s.1 job in (r, (f, s.2)).

Definition submit_with_assignment (job : RunnerCore.JobRequest) :
    fleet_io (option FleetSubmission) :=
  r ← reserve job;
  run_reserved r.

Definition submit (job : RunnerCore.JobRequest) : fleet_io (option Receipt) := λ s,
  match submit_with_assignment job s with
  | (Ok sub, s) => (Ok (sub_receipt <$> sub), s)
  | (Err e, (f, w)) =>
      let (now, w) := clock_ms w in (Ok (Some (FleetError_receipt e job now)), (f, w))
  end.

Fixpoint reserve_all (jobs : list RunnerCore.JobRequest) (reserved : list ReservedJob) :
    fleet_io (list ReservedJob) :=
  match jobs with
  | [] => mret reserved
  | job :: jobs => r ← reserve job; reserve_all jobs (reserved ++ [r])
  end.

(** [collect] stops at the first error, and a panic ends it. *)
Fixpoint run_all (reserved : list ReservedJob) : fleet_io (option (list FleetSubmission)) :=
  match reserved with
  | [] => mret (Some [])
  | r :: reserved =>
      first ← run_reserved r;
      match first with
      | None => mret None
      | Some first =>
          rest ← run_all reserved;
          mret (cons first <$> rest)
      end
  end.

Definition submit_batch (jobs : list RunnerCore.JobRequest) :
    fleet_io (option (list FleetSubmission)) :=
  reserved ← reserve_all jobs [];
  run_all reserved.

(** ** The default fleet: behind a lock, which a panic poisons *)

Record DefaultFleet : Type := { locked_fleet : RunnerFleet; poisoned : bool }.

Definition DEFAULT_FLEET : DefaultFleet :=
  {| locked_fleet := deterministic_fixture; poisoned := false |}.

Definition submit_default (job : RunnerCore.JobRequest) (s : DefaultFleet * world) :
    option Receipt * (DefaultFleet * world) :=
  let (df, w) := s in
  if poisoned df then
    let (now, w) := clock_ms w in
    (Some (Receipt_denied job "runner_fleet_poisoned: default fleet lock poisoned" now), (df, w))
  else
    match submit job (locked_fleet df, w) with
    | (Ok (Some receipt), (f, w)) => (Some receipt, ({| locked_fleet := f; poisoned := false |}, w))
    | (_, (f, w)) => (None, ({| locked_fleet := f; poisoned := true |}, w))
    end.
End submission.

(** * Health *)

Record FleetNodeHealth : Type := {
  hl_runner : string; hl_source : string; hl_state : string; hl_epoch : N; hl_capacity : N;
  hl_in_flight : N; hl_labels : list string; hl_classes : list string
}.

Definition node_health (n : NodeRecord) : FleetNodeHealth :=
  {| hl_runner := node_id n; hl_source := "runnerd"; hl_state := NodeState_as_str (node_state n);
     hl_epoch := epoch n; hl_capacity := capacity n; hl_in_flight := in_flight n;
     hl_labels := tags n; hl_classes := map CiIr.RunnerClass_as_str (supported_classes n) |}.

Definition health (f : RunnerFleet) : list FleetNodeHealth :=
  map node_health (bt_values (nodes (registry f))).

Record RunnerFleetSnapshot : Type := {
  sn_nodes : N; online_runners : N; busy_runners : N; idle_runners : N; stuck_runners : N;
  total_slots : N; active_slots : N
}.

Definition no_snapshot : RunnerFleetSnapshot :=
  {| sn_nodes := 0; online_runners := 0; busy_runners := 0; idle_runners := 0;
     stuck_runners := 0; total_slots := 0; active_slots := 0 |}.

Definition DOWN_STATES : list string :=
  ["drained"; "draining"; "fenced"; "fenced_out"; "offline"; "down"; "dead"; "quarantined"].

Definition count_node (s : RunnerFleetSnapshot) (h : FleetNodeHealth) : RunnerFleetSnapshot :=
  let plus := saturating_add u32_max in
  if bool_decide (hl_state h ∈ DOWN_STATES) then
    {| sn_nodes := plus (sn_nodes s) 1%N; total_slots := plus (total_slots s) (hl_capacity h);
       stuck_runners := plus (stuck_runners s) 1%N; online_runners := online_runners s;
       active_slots := active_slots s; busy_runners := busy_runners s;
       idle_runners := idle_runners s |}
  else
    {| sn_nodes := plus (sn_nodes s) 1%N; total_slots := plus (total_slots s) (hl_capacity h);
       stuck_runners := stuck_runners s; online_runners := plus (online_runners s) 1%N;
       active_slots := plus (active_slots s) (hl_capacity h);
       busy_runners := plus (busy_runners s) (hl_in_flight h);
       idle_runners := plus (idle_runners s) (saturating_sub (hl_capacity h) (hl_in_flight h)) |}.

Definition snapshot (f : RunnerFleet) : RunnerFleetSnapshot :=
  foldl count_node no_snapshot (health f).

(** * The invariant *)

Definition current (id : string) (e : N) (r : ReservedJob) : bool :=
  bool_decide (res_runner r = id) && (res_epoch r =? e)%N.

(** Reservations that still count: for the node and its epoch. *)
Definition outstanding (held : list ReservedJob) (id : string) (e : N) : nat :=
  length (List.filter (current id e) held).

(** [held] are the reservations that were neither run nor given up. A node that is not dead
    has a daemon at its epoch, and one slot in use for each of its reservations. *)
Record fleet_ok (f : RunnerFleet) (held : list ReservedJob) : Prop := {
  fl_registry : wf_registry (registry f);
  fl_daemons : ∀ id, is_Some (daemons f !! id) ↔ is_Some (nodes (registry f) !! id);
  fl_ids : ∀ id d, daemons f !! id = Some d → dm_runner_id d = id;
  fl_epochs : ∀ id d n, daemons f !! id = Some d → nodes (registry f) !! id = Some n →
    node_state n ≠ NS_Dead → dm_epoch d = epoch n;
  fl_slots : ∀ id n, nodes (registry f) !! id = Some n → node_state n ≠ NS_Dead →
    in_flight n = N.of_nat (outstanding held id (epoch n));
  fl_past : ∀ r n, r ∈ held → nodes (registry f) !! res_runner r = Some n →
    (res_epoch r ≤ epoch n)%N;
  fl_known : ∀ r, r ∈ held → is_Some (nodes (registry f) !! res_runner r)
}.

Lemma outstanding_nil held id e :
  (∀ r, r ∈ held → res_runner r = id → (res_epoch r < e)%N) → outstanding held id e = 0.
Proof.
  intros Hall. unfold outstanding. destruct (List.filter (current id e) held) as [|r l] eqn:Hf; [done|].
  assert (r ∈ List.filter (current id e) held) as Hr by (rewrite Hf; by left).
  apply list_elem_of_In, filter_In in Hr as [Hr Hc]. rewrite <-list_elem_of_In in Hr.
  unfold current in Hc. rewrite andb_true_iff, bool_decide_eq_true, N.eqb_eq in Hc.
  destruct Hc as [Hid He]. specialize (Hall r Hr Hid). lia.
Qed.

Lemma outstanding_perm held held' id e :
  held ≡ₚ held' → outstanding held id e = outstanding held' id e.
Proof.
  intros Hp. unfold outstanding. induction Hp as [|r l l' _ IH|r r' l|]; cbn; [done| | |congruence].
  - destruct (current id e r); cbn; congruence.
  - by destruct (current id e r), (current id e r').
Qed.

Lemma outstanding_cons r held id e :
  outstanding (r :: held) id e = outstanding held id e + (if current id e r then 1 else 0).
Proof. unfold outstanding. cbn. destruct (current id e r); cbn; lia. Qed.

(** A record that changes without another epoch or load keeps the invariant. *)
Lemma fleet_set_node f held id n n' :
  fleet_ok f held → nodes (registry f) !! id = Some n → wf_node id n' →
  epoch n' = epoch n → in_flight n' = in_flight n → node_state n ≠ NS_Dead →
  fleet_ok (set_registry f (set_node (registry f) id n')) held.
Proof.
  intros [Hwf Hd Hid He Hs Hp Hk] Hn Hw' Hep Hin Halive.
  split; cbn [registry daemons set_registry].
  - by apply wf_set_node.
  - intros k. rewrite Hd, lookup_set_node. case_decide as Hki; [|done]. subst k. by rewrite Hn.
  - done.
  - intros k d m Hdk. rewrite lookup_set_node. case_decide as Hki; [|by apply He].
    subst k. intros [= <-] _. rewrite Hep. by apply He with id.
  - intros k m. rewrite lookup_set_node. case_decide as Hki; [|by apply Hs].
    subst k. intros [= <-] _. rewrite Hep, Hin. by apply Hs.
  - intros r m Hr. rewrite lookup_set_node. case_decide as Hki; [|by apply Hp].
    intros [= <-]. rewrite Hep. subst id. by apply Hp.
  - intros r Hr. rewrite lookup_set_node. case_decide; [done|by apply Hk].
Qed.

Lemma fleet_new_ok ttl : fleet_ok (RunnerFleet_new ttl) [].
Proof.
  split; cbn.
  - by intros ? ?.
  - intros id. by split; intros [? ?].
  - by intros ? ?.
  - by intros ? ? ?.
  - by intros ? ?.
  - by intros ? ? ?%elem_of_nil.
  - by intros ? ?%elem_of_nil.
Qed.

Lemma fleet_register_ok f held d now :
  fleet_ok f held → (dm_capacity d ≤ u32_max)%N →
  (current_epoch f (dm_runner_id d) < u64_max)%N →
  fleet_ok (fleet_register f d now).2 held.
Proof.
  intros [Hwf Hd Hid He Hs Hp Hk] Hcap Hlt. set (id := dm_runner_id d) in *.
  pose proof (registry_step_wf _ _ (step_register (registry f) (hello d) now Hcap) Hwf) as Hwf'.
  unfold fleet_register. cbn in *. fold id in Hwf' |- *.
  assert (∀ r, r ∈ held → res_runner r = id → (res_epoch r < next_epoch (registry f) id)%N) as Hnew.
  { intros r Hr Hrid. destruct (Hk r Hr) as [n Hn]. pose proof (Hp r n Hr Hn) as Hle.
    unfold next_epoch, current_epoch in *. rewrite Hrid in Hn. rewrite Hn in *. sat_lia. }
  split; cbn [registry daemons]; [done| | | | | |].
  - intros k. cbn. destruct (decide (id = k)) as [<-|].
    + rewrite !lookup_insert_eq. by split; eexists.
    + by rewrite !lookup_insert_ne.
  - intros k d'. destruct (decide (id = k)) as [<-|].
    + rewrite lookup_insert_eq. by intros [= <-].
    + rewrite lookup_insert_ne by done. apply Hid.
  - intros k d' m. cbn. destruct (decide (id = k)) as [<-|].
    + rewrite !lookup_insert_eq. by intros [= <-] [= <-] _.
    + rewrite !lookup_insert_ne by done. apply He.
  - intros k m. cbn. destruct (decide (id = k)) as [<-|].
    + rewrite lookup_insert_eq. intros [= <-] _. cbn. by rewrite outstanding_nil.
    + rewrite lookup_insert_ne by done. apply Hs.
  - intros r m Hr. cbn. destruct (decide (id = res_runner r)) as [Heq|].
    + rewrite <-Heq, lookup_insert_eq. intros [= <-]. cbn. apply N.lt_le_incl. by apply Hnew.
    + rewrite lookup_insert_ne by done. by apply Hp.
  - intros r Hr. cbn. destruct (decide (id = res_runner r)) as [->|].
    + rewrite lookup_insert_eq. by eexists.
    + rewrite lookup_insert_ne by done. by apply Hk.
Qed.

Lemma fleet_heartbeat_ok f held id now : fleet_ok f held → fleet_ok (fleet_heartbeat f id now).2 held.
Proof.
  intros Hf. unfold fleet_heartbeat.
  generalize (match daemons f !! id with None => beat_of id 0
              | Some d => beat_of (dm_runner_id d) (dm_epoch d) end) as beat. intros beat.
  unfold heartbeat. destruct (nodes (registry f) !! beat_runner_id beat) as [n|] eqn:Hn;
    [|by destruct f].
  destruct (bool_decide_reflect (node_state n = NS_Dead)) as [|Halive]; cbn [orb]; [by destruct f|].
  destruct (negb _); [by destruct f|].
  eapply fleet_set_node; try done. pose proof (fl_registry _ _ Hf _ _ Hn) as []. by split.
Qed.

Lemma fleet_drain_ok f held id : fleet_ok f held → fleet_ok (fleet_drain f id).2 held.
Proof.
  intros Hf. unfold fleet_drain, drain.
  destruct (nodes (registry f) !! id) as [n|] eqn:Hn; [|by destruct f].
  case_bool_decide as Ha; [|by destruct f].
  eapply fleet_set_node; try done; [|congruence].
  pose proof (fl_registry _ _ Hf _ _ Hn) as []. by split.
Qed.

Lemma fleet_reap_ok f held now : fleet_ok f held → fleet_ok (fleet_reap f now).2 held.
Proof.
  intros [Hwf Hd Hid He Hs Hp Hk].
  pose proof (registry_step_wf _ _ (step_reap (registry f) now) Hwf) as Hwf'.
  unfold fleet_reap. rewrite reap_eq in *. cbn [snd] in *.
  assert (∀ id n', nodes (reaped_registry (registry f) now) !! id = Some n' →
    ∃ n, nodes (registry f) !! id = Some n ∧ (epoch n ≤ epoch n')%N
      ∧ (node_state n' ≠ NS_Dead → n' = n)) as Hback.
  { intros id n'. cbn. rewrite lookup_fmap. intros (n & Hn & ->)%fmap_Some. exists n.
    split; [done|]. pose proof (Hwf _ _ Hn) as []. destruct (overdue _ now n); cbn; [|done].
    split; [sat_lia|done]. }
  split; cbn [registry daemons set_registry]; [done| |done| | | |].
  - intros k. rewrite Hd. cbn. rewrite lookup_fmap. by rewrite fmap_is_Some.
  - intros k d n' Hdk (n & Hn & _ & Hsame)%Hback Halive. pose proof (Hsame Halive). subst n'.
    by eapply He.
  - intros k n' (n & Hn & _ & Hsame)%Hback Halive. pose proof (Hsame Halive). subst n'. by apply Hs.
  - intros r n' Hr (n & Hn & Hle & _)%Hback. specialize (Hp r n Hr Hn). lia.
  - intros r Hr. cbn. rewrite lookup_fmap. apply fmap_is_Some. by apply Hk.
Qed.

Lemma with_in_flight_wf k n m :
  wf_node k n → (m ≤ capacity n)%N → wf_node k (with_in_flight n m).
Proof. intros []. split; cbn; [done|done|done|lia]. Qed.

(** A slot taken for a reservation. *)
Lemma fleet_take_ok f held id n r :
  fleet_ok f held → nodes (registry f) !! id = Some n → (in_flight n < capacity n)%N →
  res_runner r = id → res_epoch r = epoch n →
  fleet_ok (set_registry f (set_node (registry f) id
    (with_in_flight n (saturating_add u32_max (in_flight n) 1)))) (r :: held).
Proof.
  intros [Hwf Hd Hid He Hs Hp Hk] Hn Hlt Hrid Hre. pose proof (Hwf _ _ Hn) as Hn'.
  assert (saturating_add u32_max (in_flight n) 1 = in_flight n + 1)%N as ->.
  { destruct Hn'. sat_lia. }
  split; cbn [registry daemons set_registry].
  - apply wf_set_node; [done|]. apply with_in_flight_wf; [done|lia].
  - intros k. rewrite Hd, lookup_set_node. case_decide as Hki; [|done]. subst k. by rewrite Hn.
  - done.
  - intros k d m Hdk. rewrite lookup_set_node. case_decide as Hki; [|by apply He].
    subst k. intros [= <-]. cbn. by eapply He.
  - intros k m. rewrite lookup_set_node, outstanding_cons. unfold current. case_decide as Hki.
    + subst k. intros [= <-]. cbn. intros Halive. rewrite (Hs _ _ Hn Halive).
      rewrite bool_decide_true, Hre, N.eqb_refl by done. cbn. lia.
    + rewrite bool_decide_false by congruence. cbn. rewrite Nat.add_0_r. apply Hs.
  - intros r' m [-> | Hr]%elem_of_cons; rewrite lookup_set_node; case_decide as Hki;
      [intros [= <-]; cbn; lia|congruence| |by apply Hp].
    intros [= <-]. cbn. apply Hp; [done|congruence].
  - intros r' [-> | Hr]%elem_of_cons; rewrite lookup_set_node; case_decide;
      [done|congruence|done|by apply Hk].
Qed.

Lemma current_owner_alive f held r :
  fleet_ok f held → is_current_owner (registry f) (res_runner r) (res_epoch r) = true →
  ∃ n d, nodes (registry f) !! res_runner r = Some n ∧ node_state n ≠ NS_Dead
    ∧ epoch n = res_epoch r ∧ daemons f !! res_runner r = Some d ∧ dm_epoch d = res_epoch r.
Proof.
  intros Hf (n & Hn & Ha & He)%is_current_owner_spec.
  destruct (proj2 (fl_daemons _ _ Hf (res_runner r))) as [d Hd]; [by eexists|].
  exists n, d. rewrite <-He. split_and!; try done. by eapply fl_epochs.
Qed.

(** The slot of a current reservation given back. *)
Lemma fleet_release_ok f held rest r :
  fleet_ok f held → held ≡ₚ r :: rest →
  is_current_owner (registry f) (res_runner r) (res_epoch r) = true →
  fleet_ok (set_registry f (release (registry f) (res_runner r))) rest.
Proof.
  intros Hf Hperm Hcur. destruct (current_owner_alive _ _ _ Hf Hcur) as (n & _ & Hn & Ha & Hre & _).
  destruct Hf as [Hwf Hd Hid He Hs Hp Hk].
  assert (∀ x, x ∈ rest → x ∈ held) as Hin by (intros x; rewrite Hperm; by right).
  assert (∀ id e, outstanding held id e
                  = outstanding rest id e + (if current id e r then 1 else 0)) as Hcount.
  { intros id e. by rewrite (outstanding_perm _ _ _ _ Hperm), outstanding_cons. }
  unfold release. rewrite Hn. set (id := res_runner r) in *.
  split; cbn [registry daemons set_registry].
  - apply wf_set_node; [done|]. pose proof (Hwf _ _ Hn) as Hn'.
    apply with_in_flight_wf; [done|]. destruct Hn'. sat_lia.
  - intros k. rewrite Hd, lookup_set_node. case_decide as Hki; [|done]. subst k. by rewrite Hn.
  - done.
  - intros k d m Hdk. rewrite lookup_set_node. case_decide as Hki; [|by eapply He].
    subst k. intros [= <-]. cbn. by eapply He.
  - intros k m. rewrite lookup_set_node. case_decide as Hki.
    + subst k. intros [= <-]. cbn. intros _. rewrite (Hs _ _ Hn Ha), Hcount.
      unfold current. fold id. rewrite bool_decide_true, Hre, N.eqb_refl by done. cbn. sat_lia.
    + intros Hm Halive. rewrite (Hs _ _ Hm Halive), Hcount. unfold current. fold id.
      rewrite bool_decide_false by congruence. cbn. lia.
  - intros x m Hx%Hin. rewrite lookup_set_node. case_decide as Hki; [|by apply Hp].
    intros [= <-]. cbn. apply Hp; [done|congruence].
  - intros x Hx%Hin. rewrite lookup_set_node. case_decide; [done|by apply Hk].
Qed.

(** A reservation that is not current is given up. *)
Lemma fleet_drop_ok f held rest r :
  fleet_ok f held → held ≡ₚ r :: rest →
  is_current_owner (registry f) (res_runner r) (res_epoch r) = false → fleet_ok f rest.
Proof.
  intros [Hwf Hd Hid He Hs Hp Hk] Hperm Hcur.
  assert (∀ x, x ∈ rest → x ∈ held) as Hin by (intros x; rewrite Hperm; by right).
  split; try done; [|by intros x n Hx%Hin; apply Hp|by intros x Hx%Hin; apply Hk].
  intros id n Hn Ha. rewrite (Hs id n Hn Ha), (outstanding_perm _ _ _ _ Hperm), outstanding_cons.
  assert (current id (epoch n) r = false) as ->; [|by rewrite Nat.add_0_r].
  apply not_true_iff_false. unfold current.
  rewrite andb_true_iff, bool_decide_eq_true, N.eqb_eq. intros [<- Hre].
  apply not_true_iff_false in Hcur. apply Hcur, is_current_owner_spec. by exists n.
Qed.

(** The nodes a job could run on. *)
Definition candidate (f : RunnerFleet) (job : RunnerCore.JobRequest) (n : NodeRecord) : Prop :=
  ∃ id class, nodes (registry f) !! id = Some n ∧ core_class (wanted_class job) = Ok class
    ∧ node_state n = NS_Active ∧ (in_flight n < capacity n)%N ∧ class ∈ supported_classes n.

Definition permitted_job (job : RunnerCore.JobRequest) : bool :=
  permitted (trust_tier job) (wanted_class job) (network_policy job).

Lemma core_class_total c : ∃ class, core_class c = Ok class.
Proof. destruct c; by eexists. Qed.

Lemma reserve_job_spec f held job :
  fleet_ok f held →
  match reserve_job f job with
  | (Ok r, f') =>
      permitted_job job = true ∧ res_job r = job ∧ fleet_ok f' (r :: held)
      ∧ is_current_owner (registry f') (res_runner r) (res_epoch r) = true
      ∧ ∃ n, nodes (registry f) !! res_runner r = Some n ∧ candidate f job n
          ∧ f' = set_registry f (set_node (registry f) (res_runner r)
                   (with_in_flight n (saturating_add u32_max (in_flight n) 1)))
  | (Err e, f') =>
      f' = f ∧ ((∃ why, e = PolicyDenied why) ∧ permitted_job job = false
                ∨ e = NoCapacity (RunnerCore.RunnerClass_as_str (wanted_class job))
                  ∧ permitted_job job = true ∧ ∀ n, ¬ candidate f job n)
  end.
Proof.
  intros Hf. unfold reserve_job, permitted_job. pose proof (select_runner_cases job) as Hsel.
  destruct (select_runner job) as [d|e]; [|split; [done|left; split; [by eexists|apply Hsel]]].
  destruct Hsel as (Hperm & -> & _).
  destruct (core_class_total (wanted_class job)) as [class Hclass]. rewrite Hclass.
  destruct (assign (registry f) (AssignSpec_new (RunnerCore.job_id job) class)) as [[a|] r'] eqn:Ha.
  - apply assign_inv in Ha as (k & n & Hin%elem_of_bt_iter & Hel & _ & -> & ->).
    pose proof (fl_registry _ _ Hf _ _ Hin) as Hn'. rewrite (wn_id _ _ Hn'). cbn [assigned_node].
    destruct (proj2 (fl_daemons _ _ Hf k)) as [d' ->]; [by eexists|].
    apply eligible_spec in Hel as (Hact & Hlt & Hsup & _).
    split_and!; [done|done| | |].
    + by apply fleet_take_ok.
    + apply is_current_owner_spec. cbn. rewrite lookup_insert_eq. eexists. split_and!; [done| |done].
      cbn. congruence.
    + cbn. exists n. split_and!; [done| |done]. by exists k, class.
  - unfold assign in Ha. destruct (find_first _ _) as [[k n]|] eqn:Hfind; [done|].
    injection Ha as <-. split; [by destruct f|]. right. split_and!; [done..|].
    intros n (id & class' & Hn & Hc' & Hact & Hlt & Hsup). rewrite Hclass in Hc'.
    injection Hc' as <-. rewrite find_first_None, Forall_forall in Hfind.
    apply elem_of_bt_iter in Hn. specialize (Hfind _ Hn). cbn [snd] in Hfind.
    apply not_true_iff_false in Hfind. apply Hfind, eligible_spec.
    split_and!; try done. cbn. by intros tag ?%elem_of_nil.
Qed.

Section running.
Context {H : Host} {CR : ContainerRuntime world}.
Context (caps : SandboxCapabilities).

Lemma dispatch_answers {E} job mode w :
  ∃ o w', (dispatch caps job mode : io world E (option Receipt)) w = (Ok o, w').
Proof.
  unfold dispatch, mbind, io_bind, attempt.
  destruct (try_dispatch caps job mode w) as [[o|e] w1]; [by eexists _, _|].
  unfold now_ms, always. destruct (clock_ms w1). by eexists _, _.
Qed.

Lemma run_reserved_spec f held r w :
  fleet_ok f held →
  run_reserved caps r (f, w)
  = if is_current_owner (registry f) (res_runner r) (res_epoch r) then
      match daemons f !! res_runner r with
      | None => (Err (MissingDaemon (res_runner r)), (f, w))
      | Some d =>
          match (dispatch caps (res_job r) (dm_mode d) : io world FleetError _) w with
          | (Ok (Some receipt), w') =>
              (Ok (Some {| sub_runner := res_runner r; sub_epoch := res_epoch r;
                           sub_receipt := receipt |}),
               (set_registry f (release (registry f) (res_runner r)), w'))
          | (o, w') => (Ok None, (f, w'))
          end
      end
    else (Err (FencedOut (res_runner r) (res_epoch r) (current_epoch f (res_runner r))), (f, w)).
Proof.
  intros Hf. unfold run_reserved.
  destruct (is_current_owner _ _ _) eqn:Hcur; cbn [negb]; [|done].
  destruct (current_owner_alive _ _ _ Hf Hcur) as (n & d & _ & _ & _ & Hd & He). rewrite Hd.
  unfold daemon_dispatch. rewrite He, N.eqb_refl. cbn [negb].
  destruct (dispatch_answers (E := FleetError) (res_job r) (dm_mode d) w) as (o & w' & ->).
  by destruct o.
Qed.

(** ** Histories *)

(** The calls of a fleet and of the holders of its reservations. A panic of a dispatch keeps
    the slot. Registering a daemon needs an epoch that is still free. *)
Inductive fleet_step : RunnerFleet * list ReservedJob → RunnerFleet * list ReservedJob → Prop :=
  | FS_register f held d now :
      (dm_capacity d ≤ u32_max)%N → (current_epoch f (dm_runner_id d) < u64_max)%N →
      fleet_step (f, held) ((fleet_register f d now).2, held)
  | FS_heartbeat f held id now : fleet_step (f, held) ((fleet_heartbeat f id now).2, held)
  | FS_reap f held now : fleet_step (f, held) ((fleet_reap f now).2, held)
  | FS_drain f held id : fleet_step (f, held) ((fleet_drain f id).2, held)
  | FS_reserve f held job r f' :
      reserve_job f job = (r, f') →
      fleet_step (f, held) (f', match r with Ok r => r :: held | Err _ => held end)
  | FS_run f held rest r w res f' w' :
      held ≡ₚ r :: rest → run_reserved caps r (f, w) = (res, (f', w')) →
      fleet_step (f, held) (f', match res with Ok None => held | _ => rest end).

Lemma fleet_step_ok s s' : fleet_step s s' → fleet_ok s.1 s.2 → fleet_ok s'.1 s'.2.
Proof.
  intros Hs Hf. destruct Hs as [f held d now Hc He|f held id now|f held now|f held id
    |f held job r f' Hr|f held rest r w res f' w' Hp Hr]; cbn [fst snd] in *.
  - by apply fleet_register_ok.
  - by apply fleet_heartbeat_ok.
  - by apply fleet_reap_ok.
  - by apply fleet_drain_ok.
  - pose proof (reserve_job_spec f held job Hf) as Hspec. rewrite Hr in Hspec.
    destruct r as [r|e]; [by apply Hspec|]. by destruct Hspec as [-> _].
  - rewrite (run_reserved_spec f held r w Hf) in Hr.
    destruct (is_current_owner _ _ _) eqn:Hcur.
    2:{ injection Hr as <- <- <-. by eapply fleet_drop_ok. }
    destruct (current_owner_alive _ _ _ Hf Hcur) as (n & d & _ & _ & _ & Hd & _).
    rewrite Hd in Hr. destruct (dispatch _ _ _ w) as [[[receipt|]|e] w1]; injection Hr as <- <- <-;
      [by eapply fleet_release_ok|done|done].
Qed.

Lemma fleet_run_ok s s' : rtc fleet_step s s' → fleet_ok s.1 s.2 → fleet_ok s'.1 s'.2.
Proof. induction 1; eauto using fleet_step_ok. Qed.

(** ** Theorems *)

(** C21: the fleet keeps its books. Whatever is registered, reaped, drained, reserved, run or
    fenced, while an epoch has room in 64 bits, a node has a daemon and the daemon the node's
    epoch while the node lives; the load of a node is the number of its reservations that
    were not run yet, and never more than its capacity; and no reservation is from the
    future. *)
Theorem fleet_books ttl f held :
  rtc fleet_step (RunnerFleet_new ttl, []) (f, held) →
  ∀ id n, nodes (registry f) !! id = Some n →
    (∃ d, daemons f !! id = Some d ∧ dm_runner_id d = id
       ∧ (node_state n ≠ NS_Dead → dm_epoch d = epoch n))
    ∧ (node_state n ≠ NS_Dead → in_flight n = N.of_nat (outstanding held id (epoch n)))
    ∧ (in_flight n ≤ capacity n)%N
    ∧ ∀ r, r ∈ held → res_runner r = id → (res_epoch r ≤ epoch n)%N.
Proof.
  intros Hrun id n Hn. pose proof (fleet_run_ok _ _ Hrun (fleet_new_ok ttl)) as [Hwf Hd Hid He Hs Hp Hk].
  cbn [fst snd] in *. split_and!.
  - destruct (proj2 (Hd id)) as [d Hd']; [by eexists|]. exists d. split_and!; eauto.
  - by apply Hs.
  - apply (wn_in_flight _ _ (Hwf _ _ Hn)).
  - intros r Hr <-. by eapply Hp.
Qed.

(** An outdated reservation runs nothing. If its node is gone, dead or was registered or
    reaped since, it is fenced: the host is not touched and the fleet does not change. Any
    other reservation is run, once, by the daemon it was made for, and its slot is free
    again when the dispatch returns. *)
Theorem reservation_fenced f held r w :
  fleet_ok f held →
  (is_current_owner (registry f) (res_runner r) (res_epoch r) = false →
   run_reserved caps r (f, w)
   = (Err (FencedOut (res_runner r) (res_epoch r) (current_epoch f (res_runner r))), (f, w)))
  ∧ (is_current_owner (registry f) (res_runner r) (res_epoch r) = true →
     ∃ d o w', daemons f !! res_runner r = Some d ∧ dm_epoch d = res_epoch r
     ∧ (dispatch caps (res_job r) (dm_mode d) : io world FleetError _) w = (Ok o, w')
     ∧ run_reserved caps r (f, w)
       = (Ok ((λ receipt, {| sub_runner := res_runner r; sub_epoch := res_epoch r;
                             sub_receipt := receipt |}) <$> o),
          (match o with
           | Some _ => set_registry f (release (registry f) (res_runner r))
           | None => f
           end, w'))).
Proof.
  intros Hf. rewrite (run_reserved_spec f held r w Hf). split; intros Hcur; rewrite Hcur; [done|].
  destruct (current_owner_alive _ _ _ Hf Hcur) as (n & d & _ & _ & _ & Hd & He). rewrite Hd.
  destruct (dispatch_answers (E := FleetError) (res_job r) (dm_mode d) w) as (o & w' & Ho).
  exists d, o, w'. rewrite Ho. by destruct o.
Qed.

Lemma release_taken f id n :
  nodes (registry f) !! id = Some n → (in_flight n < capacity n ≤ u32_max)%N →
  set_registry f (release (set_node (registry f) id
    (with_in_flight n (saturating_add u32_max (in_flight n) 1))) id) = f.
Proof.
  intros Hn Hlt. unfold release. cbn. rewrite lookup_insert_eq. cbn.
  assert (saturating_sub (saturating_add u32_max (in_flight n) 1) 1 = in_flight n)%N as ->
    by sat_lia.
  unfold set_node. cbn. rewrite insert_insert_eq, insert_id.
  - by destruct f as [[] ?].
  - rewrite Hn. by destruct n.
Qed.

(** A submission leaves the fleet as it found it. It returns a receipt, and the books
    are what they were; the receipt is the dispatch of the job if the trust table permits it
    and a living node of its class has a free slot, and a denial that says why, without any
    effect, if not. Only a panic of the dispatch keeps the slot. *)
Theorem submit_balanced f held job w :
  fleet_ok f held →
  ∃ receipt f' w', submit caps job (f, w) = (Ok receipt, (f', w'))
  ∧ (is_Some receipt → f' = f)
  ∧ (permitted_job job = true → (∃ n, candidate f job n) →
     ∃ d, (∃ id, daemons f !! id = Some d)
       ∧ (dispatch caps job (dm_mode d) : io world FleetError _) w = (Ok receipt, w'))
  ∧ (permitted_job job = false ∨ (∀ n, ¬ candidate f job n) →
     ∃ e, receipt = Some (FleetError_receipt e job (clock_ms w).1) ∧ w' = (clock_ms w).2).
Proof.
  intros Hf. unfold submit, submit_with_assignment, reserve, mbind, io_bind. cbn [fst snd].
  pose proof (reserve_job_spec f held job Hf) as Hspec.
  destruct (reserve_job f job) as [[r|e] f1].
  - destruct Hspec as (Hperm & Hjob & Hf1 & Hcur & n & Hn & Hcand & ->).
    rewrite (run_reserved_spec _ _ r w Hf1), Hcur.
    destruct (current_owner_alive _ _ _ Hf1 Hcur) as (_ & d & _ & _ & _ & Hd & _). rewrite Hd.
    destruct (dispatch_answers (E := FleetError) (res_job r) (dm_mode d) w) as (o & w' & Ho).
    rewrite Ho. rewrite Hjob in Ho.
    assert (set_registry f (release (set_node (registry f) (res_runner r)
      (with_in_flight n (saturating_add u32_max (in_flight n) 1))) (res_runner r)) = f) as Hback.
    { apply release_taken; [done|]. destruct Hcand as (_ & _ & _ & _ & _ & ? & _).
      pose proof (fl_registry _ _ Hf _ _ Hn) as []. lia. }
    destruct o as [receipt|]; eexists _, _, w'; (split_and!; [done| | |]).
    + intros _. exact Hback.
    + intros _ _. exists d. by eauto.
    + intros [Hno|Hno]; [congruence|by destruct (Hno n)].
    + by intros [? ?].
    + intros _ _. exists d. by eauto.
    + intros [Hno|Hno]; [congruence|by destruct (Hno n)].
  - destruct Hspec as [-> Hwhy]. destruct (clock_ms w) as [now w'].
    eexists _, f, w'. split_and!; [done|done| |by eauto].
    intros Hperm [n Hn]. destruct Hwhy as [[_ ?]|(_ & _ & Hno)]; [congruence|by destruct (Hno n)].
Qed.

(** A batch that ends well has given back every slot it took. *)
Lemma reserve_all_ok jobs acc held f w all f' w' :
  fleet_ok f (acc ++ held) → reserve_all jobs acc (f, w) = (Ok all, (f', w')) →
  fleet_ok f' (all ++ held) ∧ length all = length acc + length jobs ∧ w' = w.
Proof.
  revert acc f. induction jobs as [|job jobs IH]; intros acc f Hf; cbn [reserve_all].
  { intros [= <- <- <-]. cbn. split_and!; [done|lia|done]. }
  unfold mbind, io_bind, reserve. cbn [fst snd].
  pose proof (reserve_job_spec f _ job Hf) as Hspec.
  destruct (reserve_job f job) as [[r|e] f1]; [|done].
  destruct Hspec as (_ & _ & Hf1 & _). intros Hall.
  destruct (IH (acc ++ [r]) f1) as (? & Hl & ?); [|done|].
  - rewrite <-app_assoc. cbn.
    assert (r :: acc ++ held ≡ₚ acc ++ r :: held) as Hp by apply Permutation_middle.
    destruct Hf1 as [? ? ? ? Hs Hpast Hk]. split; try done.
    + intros id n Hn Ha. by rewrite <-(outstanding_perm _ _ _ _ Hp), <-Hs.
    + intros x n. rewrite <-Hp. apply Hpast.
    + intros x. rewrite <-Hp. apply Hk.
  - rewrite length_app in Hl. cbn in *. split_and!; [done|lia|done].
Qed.

Lemma run_all_ok reserved held f w subs f' w' :
  fleet_ok f (reserved ++ held) →
  run_all caps reserved (f, w) = (Ok (Some subs), (f', w')) →
  fleet_ok f' held ∧ length subs = length reserved.
Proof.
  revert f w subs. induction reserved as [|r reserved IH]; intros f w subs Hf; cbn [run_all].
  { by intros [= <- <- <-]. }
  unfold mbind at 1, io_bind at 1. cbn in Hf.
  destruct (run_reserved caps r (f, w)) as [[[sub|]|e] [f1 w1]] eqn:Hr; try done.
  assert (fleet_ok f1 (reserved ++ held)) as Hf1.
  { apply (fleet_step_ok (f, r :: reserved ++ held) (f1, reserved ++ held)); [|done].
    eapply (FS_run f _ (reserved ++ held) r w (Ok (Some sub))); [done|exact Hr]. }
  unfold mbind, io_bind. destruct (run_all caps reserved (f1, w1)) as [[[rest|]|e] [f2 w2]] eqn:Hall;
    try done.
  intros [= <- <- <-]. destruct (IH _ _ _ Hf1 Hall). cbn. by split; [|f_equal].
Qed.

Lemma submit_batch_ok jobs held f w subs f' w' :
  fleet_ok f held → submit_batch caps jobs (f, w) = (Ok (Some subs), (f', w')) →
  fleet_ok f' held ∧ length subs = length jobs.
Proof.
  intros Hf. unfold submit_batch, mbind, io_bind.
  destruct (reserve_all jobs [] (f, w)) as [[all|e] [f1 w1]] eqn:Hres; [|done]. intros Hrun.
  apply (reserve_all_ok jobs [] held) in Hres as (Hf1 & Hl & _); [|done]. cbn in Hl.
  destruct (run_all_ok _ _ _ _ _ _ _ Hf1 Hrun) as [? ->]. done.
Qed.
End running.
