(* ===== verification/HostSamples.v ===== *)
(** HostSamples: a host that does what it is told and writes it down, on which the laws of
    Hosts.v hold and the runners can be evaluated. *)

From Stdlib Require Import Ascii ZArith.
From S2P Require Import Prelude Text Paths RunnerCore Seccomp Hosts Sandbox SandboxLaws Native Containers.

(** Time in nanoseconds, the log, and the variables of the environment. *)
Record Trace : Type := { now_ns : N; events : list Event; vars : gmap string string }.

Definition note (e : Event) (t : Trace) : Trace :=
  {| now_ns := now_ns t; events := events t ++ [e]; vars := vars t |}.

Definition later (n : N) (t : Trace) : Trace :=
  {| now_ns := now_ns t + n; events := events t; vars := vars t |}.

Section tracer.
(** How long a child runs. *)
Variable lasts : N.

Definition tracer : Host :=
  {| world := Trace; host_arch := "x86_64"; debug_text := λ s, s;
     getenv := λ k t, vars t !! k; clock_ms := λ t, ((now_ns t / 1000000)%N, t);
     instant := now_ns; sleep := later;
     run_process := λ p l t,
       (Ok {| success := true; exit := Some 0%Z; stdout := "done"; stderr := "" |},
        note (Ran p l) t);
     call := λ c t, (Ok tt, note (Did c) t); read_file := λ _ _, None; opens := λ _ _, true;
     landlock_create := λ _, mret 3%N; landlock_into_fd := λ _, mret (Some 4%N);
     dup_fd := λ n, mret (n + 10)%N; compile_filter := λ _ _, Ok tt;
     exec := λ p l d e t, (Ok 42%N, note (Executed p l d e) t);
     try_wait := λ _ t,
       (Ok (if (lasts <=? now_ns t)%N then Some (Some 0%Z) else None), t);
     wait := λ _, mret (Some 0%Z); kill_group := λ p t, note (Killed p) t;
     drained := λ _ t, (Some ("out", ""), t) |}.

#[export] Instance tracer_log : HostLog tracer.
Proof. refine {| log := events : @world tracer → list Event |}; by intros. Defined.

#[export] Instance tracer_clock : HostClock tracer.
Proof. split; [by intros|by intros]. Defined.
End tracer.
