(* ===== verification/RunnerSamples.v ===== *)
(** RunnerSamples: the runner daemon evaluated on the host of HostSamples. *)

From Stdlib Require Import Ascii ZArith.
From S2P Require Import Prelude Text Paths CiIr Fencing.
From S2P Require RunnerProtocol.
From S2P Require Import Registry RunnerCore Seccomp Hosts Sandbox SandboxLaws Native NativeLaws.
From S2P Require Import Containers Dispatch Fleet HostSamples.

(** A host whose children run for five milliseconds. *)
#[local] Instance sample_tracer : Host := tracer 5000000.
#[local] Instance sample_tracer_log : HostLog sample_tracer := tracer_log 5000000.
#[local] Instance sample_tracer_clock : HostClock sample_tracer := tracer_clock 5000000.
#[local] Instance sample_runtime : ContainerRuntime world := cli_runtime.

Definition start_of (vars : gmap string string) : Trace :=
  {| now_ns := 0; events := []; vars := vars |}.

Definition all_caps : SandboxCapabilities :=
  {| cap_user := true; cap_mount := true; cap_pid := true; landlock_abi := Some 5%N;
     seccomp_bpf := true; cgroup_v2_subtree := Some "/sys/fs/cgroup/jeryu"; no_new_privs := true |}.

Definition job_for (id : string) (tier : TrustTier) (class : option RunnerCore.RunnerClass) :
    RunnerCore.JobRequest :=
  {| RunnerCore.job_id := id; repo_id := "jeryu/jeryu"; commit_sha := "abc";
     workspace := "/tmp/work"; command := "/bin/echo"; args := ["ok"]; env := ∅;
     trust_tier := tier; requested_runner := class; network_policy := Deny;
     secret_policy := SP_None; token_policy := TP_ReadOnly; timeout_ms := 1000; fork := false |}.

Definition outcome {E} (r : result (option Receipt) E * Trace) :
    option (ReceiptStatus * option Z) * list Event :=
  (match r.1 with Ok (Some receipt) => Some (status receipt, exit_code receipt) | _ => None end,
   events r.2).

Definition dispatch_on (vars : gmap string string) (job : RunnerCore.JobRequest)
    (mode : DispatchMode) : result (option Receipt) RunnerError * Trace :=
  dispatch all_caps job mode (start_of vars).

(** A native job runs, once, and passes. *)
Example native_job_passes :
  let o := outcome (dispatch_on ∅ (job_for "j" T1ProtectedInternal None) Run) in
  o.1 = Some (Passed, Some 0%Z)
  ∧ map (λ e, match e with Executed p l d _ => (p, l, d) | _ => ("", [], "") end)
      (List.filter (λ e, match e with Executed _ _ _ _ => true | _ => false end) o.2)
    = [("/bin/echo", ["ok"], "/tmp/work")].
Proof. vm_compute. split; reflexivity. Qed.

(** To explain a job of a container class starts the container, where containers are
    enabled. *)
Example explain_runs_the_container :
  let o := outcome (dispatch_on {["JERYU_RUN_OCI" := "1"]} (job_for "j" T4ForkPr (Some OciDocker))
                      Explain) in
  o.1 = Some (Passed, Some 0%Z) ∧ length o.2 = 1.
Proof. vm_compute. split; reflexivity. Qed.

(** A virtual machine is started without its kernel, its disk or the command of the job, and
    the job passes if the program ends well. *)
Example microvm_runs_without_the_job :
  outcome (dispatch_on {["JERYU_RUN_MICROVM" := "1"]} (job_for "j" T5PublicUntrusted None) Run)
  = (Some (Passed, Some 0%Z), [Ran "firecracker" ["--no-api"]]).
Proof. vm_compute. reflexivity. Qed.

(** The limit of an output is in bytes, and a cut inside a character panics. *)
Definition repeat_char (n : nat) (c : ascii) : string :=
  Nat.iter n (String c) "".

Example long_output_panics :
  lossy_limit (repeat_char 4095 "a" +:+ "é") 4096 = None
  ∧ is_Some (lossy_limit (repeat_char 4096 "a" +:+ "é") 4096).
Proof. split; [vm_compute; reflexivity|by eexists]. Qed.

(** * The fleet *)

Definition forty (mode : DispatchMode) : RunnerFleet := deterministic_fixture_with_mode mode.

Definition jobs (n : nat) : list RunnerCore.JobRequest :=
  map (λ i, job_for ("job-" +:+ show_N (N.of_nat i)) T1ProtectedInternal None) (seq 0 n).

Definition batch (n : nat) :=
  submit_batch all_caps (jobs n) (forty Explain, start_of ∅).

Definition loads (f : RunnerFleet) : list N := map in_flight (bt_values (nodes (registry f))).

(** The fixture has forty slots, and a batch that fills them gives all of them back. *)
Example forty_slots :
  match batch 40 with
  | (Ok (Some subs), (f, _)) =>
      map (λ id, length (List.filter (λ s, bool_decide (sub_runner s = id)) subs))
        ["xbabe0"; "xbabe1"; "xbabe2"; "xbabe3"] = [10; 10; 10; 10]
      ∧ loads f = [0; 0; 0; 0]%N
  | _ => False
  end.
Proof. vm_compute. split; reflexivity. Qed.

(** One job more is refused, and then no slot is given back: the fleet is full of
    reservations that nobody has. *)
Example refused_batch_keeps_the_slots :
  let s := (batch 41).2 in
  (batch 41).1 = Err (NoCapacity "native-rust-hot")
  ∧ loads s.1 = [10; 10; 10; 10]%N
  ∧ (submit_with_assignment all_caps (job_for "next" T1ProtectedInternal None) s).1
    = Err (NoCapacity "native-rust-hot").
Proof. vm_compute. split_and!; reflexivity. Qed.

(** * Witnesses *)


Definition fixture_reserved : ReservedJob :=
  match reserve_job (forty Run) (job_for "j" T1ProtectedInternal None) with
  | (Ok r, _) => r
  | (Err _, _) => {| res_job := job_for "j" T1ProtectedInternal None; res_runner := "";
                     res_epoch := 0 |}
  end.

Lemma fixture_run mode :
  rtc (fleet_step all_caps) (RunnerFleet_new 10, []) (forty mode, []).
Proof.
  eapply rtc_l; [apply (FS_register all_caps _ _ (fixture_daemon mode 0) 0); [done|vm_compute; reflexivity]|].
  eapply rtc_l; [apply (FS_register all_caps _ _ (fixture_daemon mode 1) 0); [done|vm_compute; reflexivity]|].
  eapply rtc_l; [apply (FS_register all_caps _ _ (fixture_daemon mode 2) 0); [done|vm_compute; reflexivity]|].
  eapply rtc_l; [apply (FS_register all_caps _ _ (fixture_daemon mode 3) 0); [done|vm_compute; reflexivity]|].
  apply rtc_refl.
Qed.

Lemma fixture_ok mode : fleet_ok (forty mode) [].
Proof. exact (fleet_run_ok all_caps _ _ (fixture_run mode) (fleet_new_ok 10)). Qed.

Lemma fleet_books_witness :
  ∃ n, nodes (registry (forty Run)) !! "xbabe2" = Some n ∧ in_flight n = 0%N ∧ epoch n = 1%N.
Proof.
  eexists. split; [vm_compute; reflexivity|].
  destruct (fleet_books all_caps 10 (forty Run) [] (fixture_run Run) "xbabe2" _ eq_refl)
    as (_ & Hload & _).
  split; [exact (Hload ltac:(done))|reflexivity].
Defined.

Lemma reservation_fenced_witness :
  let f := (fleet_register (forty Run) (fixture_daemon Run 0) 5).2 in
  fleet_ok f []
  ∧ run_reserved all_caps fixture_reserved (f, start_of ∅)
    = (Err (FencedOut "xbabe0" 1 2), (f, start_of ∅)).
Proof.
  intros f.
  assert (fleet_ok f []) as Hf
    by (apply fleet_register_ok; [apply fixture_ok|done|vm_compute; reflexivity]).
  split; [exact Hf|].
  exact (proj1 (reservation_fenced (H := sample_tracer) all_caps f [] fixture_reserved (start_of ∅) Hf) eq_refl).
Defined.

Lemma submit_balanced_witness :
  ∃ receipt f' w',
    submit all_caps (job_for "j" T1ProtectedInternal None) (forty Run, start_of ∅)
    = (Ok receipt, (f', w')) ∧ (is_Some receipt → f' = forty Run).
Proof.
  destruct (submit_balanced (H := sample_tracer) all_caps (forty Run) [] (job_for "j" T1ProtectedInternal None)
    (start_of ∅) (fixture_ok Run)) as (receipt & f' & w' & Hs & Hf & _).
  exists receipt, f', w'. split; [exact Hs|exact Hf].
Defined.

Lemma dispatch_confined_witness :
  ∃ r w', dispatch_on ∅ (job_for "j" T5PublicUntrusted (Some RunnerCore.NativeRustHot)) Run = (Ok r, w')
  ∧ ∃ receipt, r = Some receipt ∧ status receipt = Denied.
Proof.
  destruct (@dispatch_confined sample_tracer sample_tracer_log all_caps
    (job_for "j" T5PublicUntrusted (Some RunnerCore.NativeRustHot)) Run (start_of ∅))
    as (r & w' & evs & Hr & _ & _ & _ & _ & Hno).
  exists r, w'. split; [exact Hr|].
  destruct (Hno eq_refl) as (_ & receipt & ? & ? & _). by exists receipt.
Defined.

Definition agent_job : RunnerCore.JobRequest := job_for "agent" T4ForkPr (Some OciDocker).

Definition agent_plan : SandboxPlan :=
  SandboxPlan_from_decision (workspace agent_job)
    (match select_runner agent_job with
     | Ok d => d
     | Err _ => {| RunnerCore.runner_class := OciDocker; eff_network := Deny;
                   allow_secrets := false; eff_token := TP_None; cache_write_policy := CW_Deny;
                   reasons := [] |}
     end).

Lemma agent_session_confined_witness :
  match plan_agent_session (H := sample_tracer) "jeryu" "jeryu" "alice" "run-1" "deadbeef" "https://forge.invalid/r.git"
          agent_job agent_plan (start_of ∅) with
  | (Ok s, _) =>
      agent_confined "/tmp/work" "agents/alice/sessions/run-1" "deadbeef"
        (oci_options (container s))
  | _ => False
  end.
Proof.
  destruct (plan_agent_session (H := sample_tracer) _ _ _ _ _ _ agent_job agent_plan (start_of ∅)) as [[s|e] w'] eqn:Hs;
    [|by vm_compute in Hs].
  assert (ses_branch s = "agents/alice/sessions/run-1") as Hb by (vm_compute in Hs; by injection Hs as <- _).
  rewrite <-Hb. change "/tmp/work" with (workspace agent_job).
  exact (proj1 (agent_session_confined _ _ _ _ _ _ _ _ _ _ _ Hs)).
Defined.
