(* ===== verification/ForgeState.v ===== *)
(** ForgeState: the data of the forge engine (jeryu-core, [model/] and [engine/mod.rs]):
    the [State] every call reads and writes, and the records it holds.

    Instants are those of [Clock]; uuids are numbers, zero the nil one. The maps of the
    code are hash maps: nothing here depends on an order of their entries. *)

From S2P Require Import Prelude Text Clock BranchProtection.

Definition nil_uuid : Uuid := 0%N.

(** * Errors (errors.rs) *)

Inductive ForgeError : Type :=
  | Unauthenticated (m : string)
  | PreconditionRequired (m : string)
  | NotFound (m : string)
  | Conflict (m : string)
  | Validation (m : string)
  | Forbidden (m : string)
  | WriterUnavailable (m : string)
  | BranchProtected (m : string)
  | Storage (m : string).

Definition ForgeError_to_string (e : ForgeError) : string :=
  match e with
  | Unauthenticated m => "authentication required: " +:+ m
  | PreconditionRequired m => "precondition required: " +:+ m
  | NotFound m => "not found: " +:+ m
  | Conflict m => "already exists: " +:+ m
  | Validation m => "validation failed: " +:+ m
  | Forbidden m => "forbidden: " +:+ m
  | WriterUnavailable m => "writer unavailable: " +:+ m
  | BranchProtected m => "branch protection blocked the operation: " +:+ m
  | Storage m => "storage failed: " +:+ m
  end.

(** * Enumerations *)

Inductive UserRole : Type := UR_Admin | UR_User.

#[export] Instance UserRole_eq_dec : EqDecision UserRole.
Proof. solve_decision. Defined.

Inductive AccountStatus : Type :=
  | AS_PendingActivation | AS_PendingMfa | AS_Active | AS_Disabled | AS_Locked.

#[export] Instance AccountStatus_eq_dec : EqDecision AccountStatus.
Proof. solve_decision. Defined.

Definition permits_authentication (s : AccountStatus) : bool := bool_decide (s = AS_Active).

Inductive RepoAccessLevel : Type := RA_Read | RA_Write | RA_Admin.

#[export] Instance RepoAccessLevel_eq_dec : EqDecision RepoAccessLevel.
Proof. solve_decision. Defined.

Definition allows_read (a : RepoAccessLevel) : bool := true.
Definition allows_write (a : RepoAccessLevel) : bool :=
  match a with RA_Write | RA_Admin => true | RA_Read => false end.
Definition allows_admin (a : RepoAccessLevel) : bool := bool_decide (a = RA_Admin).

Inductive IssueState : Type := IS_Open | IS_Closed.

#[export] Instance IssueState_eq_dec : EqDecision IssueState.
Proof. solve_decision. Defined.

Inductive ReviewCredentialKind : Type := CK_Session | CK_PersonalAccessToken.

#[export] Instance ReviewCredentialKind_eq_dec : EqDecision ReviewCredentialKind.
Proof. solve_decision. Defined.

Inductive RepositoryMutationBlock : Type :=
  | ReadOnly (why evidence : string)
  | ReconciliationRequired (operation_id : Uuid) (why : string).

#[export] Instance RepositoryMutationBlock_eq_dec : EqDecision RepositoryMutationBlock.
Proof. solve_decision. Defined.

Record Counters : Type := { issue_counter : N; pull_counter : N }.

Definition Counters_default : Counters := {| issue_counter := 0; pull_counter := 0 |}.

Record PullRequestMarker : Type := { marker_url : string; marker_html_url : string }.

Record CreateRepositoryRequest : Type := {
  new_name : string; new_private : bool; new_description : option string;
  new_default_branch : option string
}.

#[export] Instance CreateRepositoryRequest_eq_dec : EqDecision CreateRepositoryRequest.
Proof. solve_decision. Defined.

Record RepositoryCreation : Type := {
  creation_repository_id : Uuid; creation_owner : string;
  creation_request : CreateRepositoryRequest; materialized : bool
}.

Record WebhookConfig : Type := {
  hook_url : string; content_type : string; hook_secret : option string
}.

Record ReviewCommentInput : Type := {
  input_path : string; input_line : option N; input_body : string
}.

(** Where the managed service saw a ref (engine/bound_reviews.rs). *)
Record ManagedGitIdentity : Type := {
  storage_root : string; root_device : N; root_inode : N; repository_path : string;
  repository_device : N; repository_inode : N; git_executable : string;
  git_executable_sha256 : string
}.

Record ObservedReviewRef : Type := {
  reference : string; observed_commit : string; tree_sha : string;
  identity : ManagedGitIdentity
}.

Record ReviewGitObservation : Type := {
  observed_source : ObservedReviewRef; observed_destination : ObservedReviewRef
}.

Record ReviewGitRepository : Type := {
  git_repo_id : Uuid; git_owner : string; git_name : string
}.

Record ReviewGitTarget : Type := {
  git_source : ReviewGitRepository; git_destination : ReviewGitRepository;
  source_ref : string; destination_ref : string
}.

#[export] Instance ReviewGitTarget_eq_dec : EqDecision ReviewGitTarget.
Proof. assert (EqDecision ReviewGitRepository) by solve_decision. solve_decision. Defined.

#[export] Instance ReviewGitObservation_eq_dec : EqDecision ReviewGitObservation.
Proof.
  assert (EqDecision ManagedGitIdentity) by solve_decision.
  assert (EqDecision ObservedReviewRef) by solve_decision. solve_decision.
Defined.

Section forge.
Context `{C : Chrono}.

(** * Accounts (model/auth.rs, model/repo.rs) *)

Record User : Type := {
  user_id : Uuid; user_login : string; user_name : option string; user_email : option string;
  user_created_at : DateTime
}.

Record UserAccount : Type := {
  canonical_login : string; display_name : string; password_hash : string; role : UserRole;
  account_status : AccountStatus; auth_epoch : N; must_change_password : bool;
  account_created_at : DateTime; account_updated_at : DateTime
}.

Record WebSession : Type := {
  session_id : Uuid; session_login : string; session_epoch : N; session_token_hash : string;
  csrf_token : string; session_created_at : DateTime; session_expires_at : DateTime
}.

Record PersonalAccessToken : Type := {
  token_id : Uuid; token_login : string; token_epoch : N; token_name : string;
  token_hash : string; token_created_at : DateTime; token_expires_at : option DateTime
}.

Record RepoAccessGrant : Type := {
  grant_login : string; grant_owner : string; grant_repo : string; access : RepoAccessLevel;
  granted_by : string; granted_at : DateTime
}.

Record Organization : Type := {
  org_id : Uuid; org_login : string; org_display_name : option string;
  org_created_at : DateTime
}.

Record Team : Type := {
  team_id : Uuid; team_organization : string; team_slug : string; team_name : string;
  team_members : list string; team_created_at : DateTime
}.

Record Repository : Type := {
  repo_id : Uuid; repo_owner : string; repo_name : string; full_name : string; private : bool;
  repo_description : option string; default_branch : string; family : option string;
  archived : bool; disabled : bool; repo_created_at : DateTime; repo_updated_at : DateTime
}.

(** * Issues (model/issues.rs) *)

Record Label : Type := {
  label_id : Uuid; label_name : string; color : string; label_description : option string
}.

Record Issue : Type := {
  issue_id : Uuid; issue_owner : string; issue_repo : string; issue_no : N;
  issue_title : string; issue_body : option string; issue_state : IssueState;
  issue_author : string; issue_labels : list string; assignees : list string;
  milestone : option string; comments : N; pull_request : option PullRequestMarker;
  issue_created_at : DateTime; issue_updated_at : DateTime; closed_at : option DateTime
}.

Record IssueComment : Type := {
  comment_id : Uuid; comment_owner : string; comment_repo : string; comment_issue : N;
  comment_author : string; comment_body : string; comment_created_at : DateTime;
  comment_updated_at : DateTime
}.

(** * Reviews (model/pull_requests.rs, engine/bound_reviews.rs) *)

Record ReviewComment : Type := {
  rc_id : Uuid; rc_review : Uuid; rc_owner : string; rc_repo : string; rc_pull : N;
  rc_path : string; rc_line : option N; rc_author : string; rc_body : string;
  rc_created_at : DateTime
}.

Record ReviewActorBinding : Type := {
  actor_login : string; profile_id : Uuid; actor_created_at : DateTime; actor_epoch : N;
  credential_kind : ReviewCredentialKind; credential_id : Uuid
}.

#[global] Instance ReviewActorBinding_eq_dec : EqDecision ReviewActorBinding.
Proof. solve_decision. Defined.

Record ReviewSnapshot : Type := {
  snap_repository : Uuid; snap_pull : Uuid; snap_pull_number : N; snap_author : string;
  snap_target : ReviewGitTarget; snap_git : ReviewGitObservation; stored_head_sha : string;
  stored_base_sha : string; snap_draft : bool; snap_policy : option BranchProtectionRule;
  snap_codeowners : option string; policy_revision : string;
  snap_reviewer : ReviewActorBinding; destination_access : RepoAccessLevel;
  source_access : RepoAccessLevel; reviewer_role : UserRole;
  destination_grant : option RepoAccessGrant; source_grant : option RepoAccessGrant;
  bound_event_ids : list Uuid; advisory_reviews : list Review;
  advisory_statuses : list CommitStatus; advisory_check_runs : list CheckRun;
  advisory_commits : list PullRequestCommit; snap_changed_files : list string
}.

Record BoundReviewEvent : Type := {
  event_id : Uuid; event_repository : Uuid; event_pull : Uuid; event_pull_number : N;
  sequence : N; event_challenge : Uuid; event_actor : ReviewActorBinding;
  event_snapshot : ReviewSnapshot; event_snapshot_sha256 : string; request_sha256 : string;
  event_review : Review; event_comments : list ReviewComment; audit_id : Uuid
}.

(** * Webhooks and scores (model/webhooks.rs, model/jankurai.rs) *)

Record Webhook : Type := {
  hook_id : Uuid; hook_owner : string; hook_repo : string; hook_name : string; active : bool;
  events : list string; config : WebhookConfig; hook_created_at : DateTime;
  hook_updated_at : DateTime
}.

(** The object of an event payload: [json!] of the struct. *)
Inductive EventObject : Type :=
  | O_PullRequest (p : PullRequest)
  | O_Review (r : Review)
  | O_Issue (i : Issue)
  | O_IssueComment (c : IssueComment)
  | O_CommitStatus (c : CommitStatus)
  | O_CheckRun (c : CheckRun).

(** [event_payload(action, name, object)]: the sender is always the forge. *)
Record Payload : Type := { action : string; object_name : string; object : EventObject }.

Record WebhookDelivery : Type := {
  delivery_id : Uuid; delivery_hook : Uuid; delivery_owner : string; delivery_repo : string;
  event : string; delivery_url : string; payload : Payload; signature_256 : option string;
  delivered : bool; delivery_created_at : DateTime
}.

Record JankuraiScore : Type := {
  score_id : Uuid; score_owner : string; score_repo : string; score_branch : string;
  score_commit : string; score : option N; hard_findings : N; decision : string;
  caps_applied : list string; report_json : option string; score_created_at : DateTime
}.

(** * Invitations and activation (model/auth.rs) *)

Record InvitationBindings : Type := { bound_role : UserRole; bound_teams : list string }.

Record AccountInvitation : Type := {
  invitation_id : Uuid; invited_login : string; invited_name : string;
  activation_secret_hash : string; issuer_principal : string;
  intended_bindings : InvitationBindings; invited_at : DateTime; invitation_expires_at : DateTime;
  invitation_consumed_at : option DateTime; revoked_at : option DateTime; attempt_count : N;
  bootstrap_owner : bool
}.

Record ActivationChallenge : Type := {
  activation_id : Uuid; activation_invitation : Uuid; challenge_hash : string;
  activation_created_at : DateTime; activation_expires_at : DateTime;
  activation_consumed_at : option DateTime
}.

(** * Transfers (model/repository_transfer.rs) *)

Record RepositoryAlias : Type := {
  alias_repository : Uuid; alias_owner : string; alias_name : string; canonical_owner : string;
  canonical_name : string; alias_created_at : DateTime; alias_transaction : Uuid
}.

Inductive RepositoryTransferStatus : Type := RTS_Prepared | RTS_Committed | RTS_Failed.

#[export] Instance RepositoryTransferStatus_eq_dec : EqDecision RepositoryTransferStatus.
Proof. solve_decision. Defined.

(** The receipt is a JSON text. *)
Record RepositoryTransferJournal : Type := {
  transaction_id : Uuid; idempotency_key : string; request_fingerprint : string;
  transfer_repository : Uuid; source_owner : string; source_name : string;
  destination_owner : string; destination_name : string;
  transfer_status : RepositoryTransferStatus; prepared_at : DateTime;
  transfer_completed_at : option DateTime; transfer_failure : option string; transfer_receipt : option string
}.

(** * The state (engine/mod.rs) *)

Record State : Type := {
  users : gmap string User; accounts : gmap string UserAccount; sessions : gmap string WebSession;
  personal_tokens : gmap Uuid PersonalAccessToken; invitations : gmap Uuid AccountInvitation;
  activation_challenges : gmap string ActivationChallenge; bootstrap_owner_consumed : bool;
  repo_grants : gmap (string * string * string) RepoAccessGrant;
  organizations : gmap string Organization; teams : gmap (string * string) Team;
  repos : gmap (string * string) Repository; repository_creations : gmap Uuid RepositoryCreation;
  labels : gmap (string * string * string) Label; issues : gmap (string * string * N) Issue;
  issue_comments : gmap (string * string * N) (list IssueComment);
  pulls : gmap (string * string * N) PullRequest;
  reviews : gmap (string * string * N) (list Review); bound_reviews : list BoundReviewEvent;
  review_comments : gmap (string * string * N) (list ReviewComment);
  branch_protections : gmap (string * string * string) BranchProtectionRule;
  codeowners_ : gmap (string * string) string; readmes : gmap (string * string) string;
  statuses : gmap (string * string * string) (list CommitStatus);
  check_runs : gmap (string * string) (list CheckRun);
  webhooks : gmap (string * string) (list Webhook); webhook_deliveries : list WebhookDelivery;
  counters : gmap (string * string) Counters;
  jankurai_scores : gmap (string * string) (list JankuraiScore);
  repository_aliases : gmap (string * string) RepositoryAlias;
  repository_transfers : gmap string RepositoryTransferJournal;
  repository_mutation_blocks : gmap Uuid RepositoryMutationBlock
}.

Definition State_default : State :=
  {| users := ∅; accounts := ∅; sessions := ∅; personal_tokens := ∅; invitations := ∅;
     activation_challenges := ∅; bootstrap_owner_consumed := false; repo_grants := ∅;
     organizations := ∅; teams := ∅; repos := ∅; repository_creations := ∅; labels := ∅;
     issues := ∅; issue_comments := ∅; pulls := ∅; reviews := ∅; bound_reviews := [];
     review_comments := ∅; branch_protections := ∅; codeowners_ := ∅; readmes := ∅; statuses := ∅;
     check_runs := ∅; webhooks := ∅; webhook_deliveries := []; counters := ∅;
     jankurai_scores := ∅; repository_aliases := ∅; repository_transfers := ∅;
     repository_mutation_blocks := ∅ |}.

Definition set_users (v : gmap string User) (s : State) : State :=
  {| users := v; accounts := accounts s; sessions := sessions s;
     personal_tokens := personal_tokens s; invitations := invitations s;
     activation_challenges := activation_challenges s;
     bootstrap_owner_consumed := bootstrap_owner_consumed s; repo_grants := repo_grants s;
     organizations := organizations s; teams := teams s; repos := repos s;
     repository_creations := repository_creations s; labels := labels s; issues := issues s;
     issue_comments := issue_comments s; pulls := pulls s; reviews := reviews s;
     bound_reviews := bound_reviews s; review_comments := review_comments s;
     branch_protections := branch_protections s; codeowners_ := codeowners_ s;
     readmes := readmes s; statuses := statuses s; check_runs := check_runs s;
     webhooks := webhooks s; webhook_deliveries := webhook_deliveries s; counters := counters s;
     jankurai_scores := jankurai_scores s; repository_aliases := repository_aliases s;
     repository_transfers := repository_transfers s;
     repository_mutation_blocks := repository_mutation_blocks s |}.

Definition set_accounts (v : gmap string UserAccount) (s : State) : State :=
  {| users := users s; accounts := v; sessions := sessions s;
     personal_tokens := personal_tokens s; invitations := invitations s;
     activation_challenges := activation_challenges s;
     bootstrap_owner_consumed := bootstrap_owner_consumed s; repo_grants := repo_grants s;
     organizations := organizations s; teams := teams s; repos := repos s;
     repository_creations := repository_creations s; labels := labels s; issues := issues s;
     issue_comments := issue_comments s; pulls := pulls s; reviews := reviews s;
     bound_reviews := bound_reviews s; review_comments := review_comments s;
     branch_protections := branch_protections s; codeowners_ := codeowners_ s;
     readmes := readmes s; statuses := statuses s; check_runs := check_runs s;
     webhooks := webhooks s; webhook_deliveries := webhook_deliveries s; counters := counters s;
     jankurai_scores := jankurai_scores s; repository_aliases := repository_aliases s;
     repository_transfers := repository_transfers s;
     repository_mutation_blocks := repository_mutation_blocks s |}.

Definition set_sessions (v : gmap string WebSession) (s : State) : State :=
  {| users := users s; accounts := accounts s; sessions := v;
     personal_tokens := personal_tokens s; invitations := invitations s;
     activation_challenges := activation_challenges s;
     bootstrap_owner_consumed := bootstrap_owner_consumed s; repo_grants := repo_grants s;
     organizations := organizations s; teams := teams s; repos := repos s;
     repository_creations := repository_creations s; labels := labels s; issues := issues s;
     issue_comments := issue_comments s; pulls := pulls s; reviews := reviews s;
     bound_reviews := bound_reviews s; review_comments := review_comments s;
     branch_protections := branch_protections s; codeowners_ := codeowners_ s;
     readmes := readmes s; statuses := statuses s; check_runs := check_runs s;
     webhooks := webhooks s; webhook_deliveries := webhook_deliveries s; counters := counters s;
     jankurai_scores := jankurai_scores s; repository_aliases := repository_aliases s;
     repository_transfers := repository_transfers s;
     repository_mutation_blocks := repository_mutation_blocks s |}.

Definition set_personal_tokens (v : gmap Uuid PersonalAccessToken) (s : State) : State :=
  {| users := users s; accounts := accounts s; sessions := sessions s; personal_tokens := v;
     invitations := invitations s; activation_challenges := activation_challenges s;
     bootstrap_owner_consumed := bootstrap_owner_consumed s; repo_grants := repo_grants s;
     organizations := organizations s; teams := teams s; repos := repos s;
     repository_creations := repository_creations s; labels := labels s; issues := issues s;
     issue_comments := issue_comments s; pulls := pulls s; reviews := reviews s;
     bound_reviews := bound_reviews s; review_comments := review_comments s;
     branch_protections := branch_protections s; codeowners_ := codeowners_ s;
     readmes := readmes s; statuses := statuses s; check_runs := check_runs s;
     webhooks := webhooks s; webhook_deliveries := webhook_deliveries s; counters := counters s;
     jankurai_scores := jankurai_scores s; repository_aliases := repository_aliases s;
     repository_transfers := repository_transfers s;
     repository_mutation_blocks := repository_mutation_blocks s |}.

Definition set_invitations (v : gmap Uuid AccountInvitation) (s : State) : State :=
  {| users := users s; accounts := accounts s; sessions := sessions s;
     personal_tokens := personal_tokens s; invitations := v;
     activation_challenges := activation_challenges s;
     bootstrap_owner_consumed := bootstrap_owner_consumed s; repo_grants := repo_grants s;
     organizations := organizations s; teams := teams s; repos := repos s;
     repository_creations := repository_creations s; labels := labels s; issues := issues s;
     issue_comments := issue_comments s; pulls := pulls s; reviews := reviews s;
     bound_reviews := bound_reviews s; review_comments := review_comments s;
     branch_protections := branch_protections s; codeowners_ := codeowners_ s;
     readmes := readmes s; statuses := statuses s; check_runs := check_runs s;
     webhooks := webhooks s; webhook_deliveries := webhook_deliveries s; counters := counters s;
     jankurai_scores := jankurai_scores s; repository_aliases := repository_aliases s;
     repository_transfers := repository_transfers s;
     repository_mutation_blocks := repository_mutation_blocks s |}.

Definition set_activation_challenges (v : gmap string ActivationChallenge) (s : State) : State :=
  {| users := users s; accounts := accounts s; sessions := sessions s;
     personal_tokens := personal_tokens s; invitations := invitations s;
     activation_challenges := v; bootstrap_owner_consumed := bootstrap_owner_consumed s;
     repo_grants := repo_grants s; organizations := organizations s; teams := teams s;
     repos := repos s; repository_creations := repository_creations s; labels := labels s;
     issues := issues s; issue_comments := issue_comments s; pulls := pulls s;
     reviews := reviews s; bound_reviews := bound_reviews s; review_comments := review_comments s;
     branch_protections := branch_protections s; codeowners_ := codeowners_ s;
     readmes := readmes s; statuses := statuses s; check_runs := check_runs s;
     webhooks := webhooks s; webhook_deliveries := webhook_deliveries s; counters := counters s;
     jankurai_scores := jankurai_scores s; repository_aliases := repository_aliases s;
     repository_transfers := repository_transfers s;
     repository_mutation_blocks := repository_mutation_blocks s |}.

Definition set_bootstrap_owner_consumed (v : bool) (s : State) : State :=
  {| users := users s; accounts := accounts s; sessions := sessions s;
     personal_tokens := personal_tokens s; invitations := invitations s;
     activation_challenges := activation_challenges s; bootstrap_owner_consumed := v;
     repo_grants := repo_grants s; organizations := organizations s; teams := teams s;
     repos := repos s; repository_creations := repository_creations s; labels := labels s;
     issues := issues s; issue_comments := issue_comments s; pulls := pulls s;
     reviews := reviews s; bound_reviews := bound_reviews s; review_comments := review_comments s;
     branch_protections := branch_protections s; codeowners_ := codeowners_ s;
     readmes := readmes s; statuses := statuses s; check_runs := check_runs s;
     webhooks := webhooks s; webhook_deliveries := webhook_deliveries s; counters := counters s;
     jankurai_scores := jankurai_scores s; repository_aliases := repository_aliases s;
     repository_transfers := repository_transfers s;
     repository_mutation_blocks := repository_mutation_blocks s |}.

Definition set_repo_grants (v : gmap (string * string * string) RepoAccessGrant)
    (s : State) : State :=
  {| users := users s; accounts := accounts s; sessions := sessions s;
     personal_tokens := personal_tokens s; invitations := invitations s;
     activation_challenges := activation_challenges s;
     bootstrap_owner_consumed := bootstrap_owner_consumed s; repo_grants := v;
     organizations := organizations s; teams := teams s; repos := repos s;
     repository_creations := repository_creations s; labels := labels s; issues := issues s;
     issue_comments := issue_comments s; pulls := pulls s; reviews := reviews s;
     bound_reviews := bound_reviews s; review_comments := review_comments s;
     branch_protections := branch_protections s; codeowners_ := codeowners_ s;
     readmes := readmes s; statuses := statuses s; check_runs := check_runs s;
     webhooks := webhooks s; webhook_deliveries := webhook_deliveries s; counters := counters s;
     jankurai_scores := jankurai_scores s; repository_aliases := repository_aliases s;
     repository_transfers := repository_transfers s;
     repository_mutation_blocks := repository_mutation_blocks s |}.

Definition set_organizations (v : gmap string Organization) (s : State) : State :=
  {| users := users s; accounts := accounts s; sessions := sessions s;
     personal_tokens := personal_tokens s; invitations := invitations s;
     activation_challenges := activation_challenges s;
     bootstrap_owner_consumed := bootstrap_owner_consumed s; repo_grants := repo_grants s;
     organizations := v; teams := teams s; repos := repos s;
     repository_creations := repository_creations s; labels := labels s; issues := issues s;
     issue_comments := issue_comments s; pulls := pulls s; reviews := reviews s;
     bound_reviews := bound_reviews s; review_comments := review_comments s;
     branch_protections := branch_protections s; codeowners_ := codeowners_ s;
     readmes := readmes s; statuses := statuses s; check_runs := check_runs s;
     webhooks := webhooks s; webhook_deliveries := webhook_deliveries s; counters := counters s;
     jankurai_scores := jankurai_scores s; repository_aliases := repository_aliases s;
     repository_transfers := repository_transfers s;
     repository_mutation_blocks := repository_mutation_blocks s |}.

Definition set_teams (v : gmap (string * string) Team) (s : State) : State :=
  {| users := users s; accounts := accounts s; sessions := sessions s;
     personal_tokens := personal_tokens s; invitations := invitations s;
     activation_challenges := activation_challenges s;
     bootstrap_owner_consumed := bootstrap_owner_consumed s; repo_grants := repo_grants s;
     organizations := organizations s; teams := v; repos := repos s;
     repository_creations := repository_creations s; labels := labels s; issues := issues s;
     issue_comments := issue_comments s; pulls := pulls s; reviews := reviews s;
     bound_reviews := bound_reviews s; review_comments := review_comments s;
     branch_protections := branch_protections s; codeowners_ := codeowners_ s;
     readmes := readmes s; statuses := statuses s; check_runs := check_runs s;
     webhooks := webhooks s; webhook_deliveries := webhook_deliveries s; counters := counters s;
     jankurai_scores := jankurai_scores s; repository_aliases := repository_aliases s;
     repository_transfers := repository_transfers s;
     repository_mutation_blocks := repository_mutation_blocks s |}.

Definition set_repos (v : gmap (string * string) Repository) (s : State) : State :=
  {| users := users s; accounts := accounts s; sessions := sessions s;
     personal_tokens := personal_tokens s; invitations := invitations s;
     activation_challenges := activation_challenges s;
     bootstrap_owner_consumed := bootstrap_owner_consumed s; repo_grants := repo_grants s;
     organizations := organizations s; teams := teams s; repos := v;
     repository_creations := repository_creations s; labels := labels s; issues := issues s;
     issue_comments := issue_comments s; pulls := pulls s; reviews := reviews s;
     bound_reviews := bound_reviews s; review_comments := review_comments s;
     branch_protections := branch_protections s; codeowners_ := codeowners_ s;
     readmes := readmes s; statuses := statuses s; check_runs := check_runs s;
     webhooks := webhooks s; webhook_deliveries := webhook_deliveries s; counters := counters s;
     jankurai_scores := jankurai_scores s; repository_aliases := repository_aliases s;
     repository_transfers := repository_transfers s;
     repository_mutation_blocks := repository_mutation_blocks s |}.

Definition set_repository_creations (v : gmap Uuid RepositoryCreation) (s : State) : State :=
  {| users := users s; accounts := accounts s; sessions := sessions s;
     personal_tokens := personal_tokens s; invitations := invitations s;
     activation_challenges := activation_challenges s;
     bootstrap_owner_consumed := bootstrap_owner_consumed s; repo_grants := repo_grants s;
     organizations := organizations s; teams := teams s; repos := repos s;
     repository_creations := v; labels := labels s; issues := issues s;
     issue_comments := issue_comments s; pulls := pulls s; reviews := reviews s;
     bound_reviews := bound_reviews s; review_comments := review_comments s;
     branch_protections := branch_protections s; codeowners_ := codeowners_ s;
     readmes := readmes s; statuses := statuses s; check_runs := check_runs s;
     webhooks := webhooks s; webhook_deliveries := webhook_deliveries s; counters := counters s;
     jankurai_scores := jankurai_scores s; repository_aliases := repository_aliases s;
     repository_transfers := repository_transfers s;
     repository_mutation_blocks := repository_mutation_blocks s |}.

Definition set_labels (v : gmap (string * string * string) Label) (s : State) : State :=
  {| users := users s; accounts := accounts s; sessions := sessions s;
     personal_tokens := personal_tokens s; invitations := invitations s;
     activation_challenges := activation_challenges s;
     bootstrap_owner_consumed := bootstrap_owner_consumed s; repo_grants := repo_grants s;
     organizations := organizations s; teams := teams s; repos := repos s;
     repository_creations := repository_creations s; labels := v; issues := issues s;
     issue_comments := issue_comments s; pulls := pulls s; reviews := reviews s;
     bound_reviews := bound_reviews s; review_comments := review_comments s;
     branch_protections := branch_protections s; codeowners_ := codeowners_ s;
     readmes := readmes s; statuses := statuses s; check_runs := check_runs s;
     webhooks := webhooks s; webhook_deliveries := webhook_deliveries s; counters := counters s;
     jankurai_scores := jankurai_scores s; repository_aliases := repository_aliases s;
     repository_transfers := repository_transfers s;
     repository_mutation_blocks := repository_mutation_blocks s |}.

Definition set_issues (v : gmap (string * string * N) Issue) (s : State) : State :=
  {| users := users s; accounts := accounts s; sessions := sessions s;
     personal_tokens := personal_tokens s; invitations := invitations s;
     activation_challenges := activation_challenges s;
     bootstrap_owner_consumed := bootstrap_owner_consumed s; repo_grants := repo_grants s;
     organizations := organizations s; teams := teams s; repos := repos s;
     repository_creations := repository_creations s; labels := labels s; issues := v;
     issue_comments := issue_comments s; pulls := pulls s; reviews := reviews s;
     bound_reviews := bound_reviews s; review_comments := review_comments s;
     branch_protections := branch_protections s; codeowners_ := codeowners_ s;
     readmes := readmes s; statuses := statuses s; check_runs := check_runs s;
     webhooks := webhooks s; webhook_deliveries := webhook_deliveries s; counters := counters s;
     jankurai_scores := jankurai_scores s; repository_aliases := repository_aliases s;
     repository_transfers := repository_transfers s;
     repository_mutation_blocks := repository_mutation_blocks s |}.

Definition set_issue_comments (v : gmap (string * string * N) (list IssueComment))
    (s : State) : State :=
  {| users := users s; accounts := accounts s; sessions := sessions s;
     personal_tokens := personal_tokens s; invitations := invitations s;
     activation_challenges := activation_challenges s;
     bootstrap_owner_consumed := bootstrap_owner_consumed s; repo_grants := repo_grants s;
     organizations := organizations s; teams := teams s; repos := repos s;
     repository_creations := repository_creations s; labels := labels s; issues := issues s;
     issue_comments := v; pulls := pulls s; reviews := reviews s;
     bound_reviews := bound_reviews s; review_comments := review_comments s;
     branch_protections := branch_protections s; codeowners_ := codeowners_ s;
     readmes := readmes s; statuses := statuses s; check_runs := check_runs s;
     webhooks := webhooks s; webhook_deliveries := webhook_deliveries s; counters := counters s;
     jankurai_scores := jankurai_scores s; repository_aliases := repository_aliases s;
     repository_transfers := repository_transfers s;
     repository_mutation_blocks := repository_mutation_blocks s |}.

Definition set_pulls (v : gmap (string * string * N) PullRequest) (s : State) : State :=
  {| users := users s; accounts := accounts s; sessions := sessions s;
     personal_tokens := personal_tokens s; invitations := invitations s;
     activation_challenges := activation_challenges s;
     bootstrap_owner_consumed := bootstrap_owner_consumed s; repo_grants := repo_grants s;
     organizations := organizations s; teams := teams s; repos := repos s;
     repository_creations := repository_creations s; labels := labels s; issues := issues s;
     issue_comments := issue_comments s; pulls := v; reviews := reviews s;
     bound_reviews := bound_reviews s; review_comments := review_comments s;
     branch_protections := branch_protections s; codeowners_ := codeowners_ s;
     readmes := readmes s; statuses := statuses s; check_runs := check_runs s;
     webhooks := webhooks s; webhook_deliveries := webhook_deliveries s; counters := counters s;
     jankurai_scores := jankurai_scores s; repository_aliases := repository_aliases s;
     repository_transfers := repository_transfers s;
     repository_mutation_blocks := repository_mutation_blocks s |}.

Definition set_reviews (v : gmap (string * string * N) (list Review)) (s : State) : State :=
  {| users := users s; accounts := accounts s; sessions := sessions s;
     personal_tokens := personal_tokens s; invitations := invitations s;
     activation_challenges := activation_challenges s;
     bootstrap_owner_consumed := bootstrap_owner_consumed s; repo_grants := repo_grants s;
     organizations := organizations s; teams := teams s; repos := repos s;
     repository_creations := repository_creations s; labels := labels s; issues := issues s;
     issue_comments := issue_comments s; pulls := pulls s; reviews := v;
     bound_reviews := bound_reviews s; review_comments := review_comments s;
     branch_protections := branch_protections s; codeowners_ := codeowners_ s;
     readmes := readmes s; statuses := statuses s; check_runs := check_runs s;
     webhooks := webhooks s; webhook_deliveries := webhook_deliveries s; counters := counters s;
     jankurai_scores := jankurai_scores s; repository_aliases := repository_aliases s;
     repository_transfers := repository_transfers s;
     repository_mutation_blocks := repository_mutation_blocks s |}.

Definition set_bound_reviews (v : list BoundReviewEvent) (s : State) : State :=
  {| users := users s; accounts := accounts s; sessions := sessions s;
     personal_tokens := personal_tokens s; invitations := invitations s;
     activation_challenges := activation_challenges s;
     bootstrap_owner_consumed := bootstrap_owner_consumed s; repo_grants := repo_grants s;
     organizations := organizations s; teams := teams s; repos := repos s;
     repository_creations := repository_creations s; labels := labels s; issues := issues s;
     issue_comments := issue_comments s; pulls := pulls s; reviews := reviews s;
     bound_reviews := v; review_comments := review_comments s;
     branch_protections := branch_protections s; codeowners_ := codeowners_ s;
     readmes := readmes s; statuses := statuses s; check_runs := check_runs s;
     webhooks := webhooks s; webhook_deliveries := webhook_deliveries s; counters := counters s;
     jankurai_scores := jankurai_scores s; repository_aliases := repository_aliases s;
     repository_transfers := repository_transfers s;
     repository_mutation_blocks := repository_mutation_blocks s |}.

Definition set_review_comments (v : gmap (string * string * N) (list ReviewComment))
    (s : State) : State :=
  {| users := users s; accounts := accounts s; sessions := sessions s;
     personal_tokens := personal_tokens s; invitations := invitations s;
     activation_challenges := activation_challenges s;
     bootstrap_owner_consumed := bootstrap_owner_consumed s; repo_grants := repo_grants s;
     organizations := organizations s; teams := teams s; repos := repos s;
     repository_creations := repository_creations s; labels := labels s; issues := issues s;
     issue_comments := issue_comments s; pulls := pulls s; reviews := reviews s;
     bound_reviews := bound_reviews s; review_comments := v;
     branch_protections := branch_protections s; codeowners_ := codeowners_ s;
     readmes := readmes s; statuses := statuses s; check_runs := check_runs s;
     webhooks := webhooks s; webhook_deliveries := webhook_deliveries s; counters := counters s;
     jankurai_scores := jankurai_scores s; repository_aliases := repository_aliases s;
     repository_transfers := repository_transfers s;
     repository_mutation_blocks := repository_mutation_blocks s |}.

Definition set_branch_protections (v : gmap (string * string * string) BranchProtectionRule)
    (s : State) : State :=
  {| users := users s; accounts := accounts s; sessions := sessions s;
     personal_tokens := personal_tokens s; invitations := invitations s;
     activation_challenges := activation_challenges s;
     bootstrap_owner_consumed := bootstrap_owner_consumed s; repo_grants := repo_grants s;
     organizations := organizations s; teams := teams s; repos := repos s;
     repository_creations := repository_creations s; labels := labels s; issues := issues s;
     issue_comments := issue_comments s; pulls := pulls s; reviews := reviews s;
     bound_reviews := bound_reviews s; review_comments := review_comments s;
     branch_protections := v; codeowners_ := codeowners_ s; readmes := readmes s;
     statuses := statuses s; check_runs := check_runs s; webhooks := webhooks s;
     webhook_deliveries := webhook_deliveries s; counters := counters s;
     jankurai_scores := jankurai_scores s; repository_aliases := repository_aliases s;
     repository_transfers := repository_transfers s;
     repository_mutation_blocks := repository_mutation_blocks s |}.

Definition set_codeowners (v : gmap (string * string) string) (s : State) : State :=
  {| users := users s; accounts := accounts s; sessions := sessions s;
     personal_tokens := personal_tokens s; invitations := invitations s;
     activation_challenges := activation_challenges s;
     bootstrap_owner_consumed := bootstrap_owner_consumed s; repo_grants := repo_grants s;
     organizations := organizations s; teams := teams s; repos := repos s;
     repository_creations := repository_creations s; labels := labels s; issues := issues s;
     issue_comments := issue_comments s; pulls := pulls s; reviews := reviews s;
     bound_reviews := bound_reviews s; review_comments := review_comments s;
     branch_protections := branch_protections s; codeowners_ := v; readmes := readmes s;
     statuses := statuses s; check_runs := check_runs s; webhooks := webhooks s;
     webhook_deliveries := webhook_deliveries s; counters := counters s;
     jankurai_scores := jankurai_scores s; repository_aliases := repository_aliases s;
     repository_transfers := repository_transfers s;
     repository_mutation_blocks := repository_mutation_blocks s |}.

Definition set_readmes (v : gmap (string * string) string) (s : State) : State :=
  {| users := users s; accounts := accounts s; sessions := sessions s;
     personal_tokens := personal_tokens s; invitations := invitations s;
     activation_challenges := activation_challenges s;
     bootstrap_owner_consumed := bootstrap_owner_consumed s; repo_grants := repo_grants s;
     organizations := organizations s; teams := teams s; repos := repos s;
     repository_creations := repository_creations s; labels := labels s; issues := issues s;
     issue_comments := issue_comments s; pulls := pulls s; reviews := reviews s;
     bound_reviews := bound_reviews s; review_comments := review_comments s;
     branch_protections := branch_protections s; codeowners_ := codeowners_ s; readmes := v;
     statuses := statuses s; check_runs := check_runs s; webhooks := webhooks s;
     webhook_deliveries := webhook_deliveries s; counters := counters s;
     jankurai_scores := jankurai_scores s; repository_aliases := repository_aliases s;
     repository_transfers := repository_transfers s;
     repository_mutation_blocks := repository_mutation_blocks s |}.

Definition set_statuses (v : gmap (string * string * string) (list CommitStatus))
    (s : State) : State :=
  {| users := users s; accounts := accounts s; sessions := sessions s;
     personal_tokens := personal_tokens s; invitations := invitations s;
     activation_challenges := activation_challenges s;
     bootstrap_owner_consumed := bootstrap_owner_consumed s; repo_grants := repo_grants s;
     organizations := organizations s; teams := teams s; repos := repos s;
     repository_creations := repository_creations s; labels := labels s; issues := issues s;
     issue_comments := issue_comments s; pulls := pulls s; reviews := reviews s;
     bound_reviews := bound_reviews s; review_comments := review_comments s;
     branch_protections := branch_protections s; codeowners_ := codeowners_ s;
     readmes := readmes s; statuses := v; check_runs := check_runs s; webhooks := webhooks s;
     webhook_deliveries := webhook_deliveries s; counters := counters s;
     jankurai_scores := jankurai_scores s; repository_aliases := repository_aliases s;
     repository_transfers := repository_transfers s;
     repository_mutation_blocks := repository_mutation_blocks s |}.

Definition set_check_runs (v : gmap (string * string) (list CheckRun)) (s : State) : State :=
  {| users := users s; accounts := accounts s; sessions := sessions s;
     personal_tokens := personal_tokens s; invitations := invitations s;
     activation_challenges := activation_challenges s;
     bootstrap_owner_consumed := bootstrap_owner_consumed s; repo_grants := repo_grants s;
     organizations := organizations s; teams := teams s; repos := repos s;
     repository_creations := repository_creations s; labels := labels s; issues := issues s;
     issue_comments := issue_comments s; pulls := pulls s; reviews := reviews s;
     bound_reviews := bound_reviews s; review_comments := review_comments s;
     branch_protections := branch_protections s; codeowners_ := codeowners_ s;
     readmes := readmes s; statuses := statuses s; check_runs := v; webhooks := webhooks s;
     webhook_deliveries := webhook_deliveries s; counters := counters s;
     jankurai_scores := jankurai_scores s; repository_aliases := repository_aliases s;
     repository_transfers := repository_transfers s;
     repository_mutation_blocks := repository_mutation_blocks s |}.

Definition set_webhooks (v : gmap (string * string) (list Webhook)) (s : State) : State :=
  {| users := users s; accounts := accounts s; sessions := sessions s;
     personal_tokens := personal_tokens s; invitations := invitations s;
     activation_challenges := activation_challenges s;
     bootstrap_owner_consumed := bootstrap_owner_consumed s; repo_grants := repo_grants s;
     organizations := organizations s; teams := teams s; repos := repos s;
     repository_creations := repository_creations s; labels := labels s; issues := issues s;
     issue_comments := issue_comments s; pulls := pulls s; reviews := reviews s;
     bound_reviews := bound_reviews s; review_comments := review_comments s;
     branch_protections := branch_protections s; codeowners_ := codeowners_ s;
     readmes := readmes s; statuses := statuses s; check_runs := check_runs s; webhooks := v;
     webhook_deliveries := webhook_deliveries s; counters := counters s;
     jankurai_scores := jankurai_scores s; repository_aliases := repository_aliases s;
     repository_transfers := repository_transfers s;
     repository_mutation_blocks := repository_mutation_blocks s |}.

Definition set_webhook_deliveries (v : list WebhookDelivery) (s : State) : State :=
  {| users := users s; accounts := accounts s; sessions := sessions s;
     personal_tokens := personal_tokens s; invitations := invitations s;
     activation_challenges := activation_challenges s;
     bootstrap_owner_consumed := bootstrap_owner_consumed s; repo_grants := repo_grants s;
     organizations := organizations s; teams := teams s; repos := repos s;
     repository_creations := repository_creations s; labels := labels s; issues := issues s;
     issue_comments := issue_comments s; pulls := pulls s; reviews := reviews s;
     bound_reviews := bound_reviews s; review_comments := review_comments s;
     branch_protections := branch_protections s; codeowners_ := codeowners_ s;
     readmes := readmes s; statuses := statuses s; check_runs := check_runs s;
     webhooks := webhooks s; webhook_deliveries := v; counters := counters s;
     jankurai_scores := jankurai_scores s; repository_aliases := repository_aliases s;
     repository_transfers := repository_transfers s;
     repository_mutation_blocks := repository_mutation_blocks s |}.

Definition set_counters (v : gmap (string * string) Counters) (s : State) : State :=
  {| users := users s; accounts := accounts s; sessions := sessions s;
     personal_tokens := personal_tokens s; invitations := invitations s;
     activation_challenges := activation_challenges s;
     bootstrap_owner_consumed := bootstrap_owner_consumed s; repo_grants := repo_grants s;
     organizations := organizations s; teams := teams s; repos := repos s;
     repository_creations := repository_creations s; labels := labels s; issues := issues s;
     issue_comments := issue_comments s; pulls := pulls s; reviews := reviews s;
     bound_reviews := bound_reviews s; review_comments := review_comments s;
     branch_protections := branch_protections s; codeowners_ := codeowners_ s;
     readmes := readmes s; statuses := statuses s; check_runs := check_runs s;
     webhooks := webhooks s; webhook_deliveries := webhook_deliveries s; counters := v;
     jankurai_scores := jankurai_scores s; repository_aliases := repository_aliases s;
     repository_transfers := repository_transfers s;
     repository_mutation_blocks := repository_mutation_blocks s |}.

Definition set_jankurai_scores (v : gmap (string * string) (list JankuraiScore))
    (s : State) : State :=
  {| users := users s; accounts := accounts s; sessions := sessions s;
     personal_tokens := personal_tokens s; invitations := invitations s;
     activation_challenges := activation_challenges s;
     bootstrap_owner_consumed := bootstrap_owner_consumed s; repo_grants := repo_grants s;
     organizations := organizations s; teams := teams s; repos := repos s;
     repository_creations := repository_creations s; labels := labels s; issues := issues s;
     issue_comments := issue_comments s; pulls := pulls s; reviews := reviews s;
     bound_reviews := bound_reviews s; review_comments := review_comments s;
     branch_protections := branch_protections s; codeowners_ := codeowners_ s;
     readmes := readmes s; statuses := statuses s; check_runs := check_runs s;
     webhooks := webhooks s; webhook_deliveries := webhook_deliveries s; counters := counters s;
     jankurai_scores := v; repository_aliases := repository_aliases s;
     repository_transfers := repository_transfers s;
     repository_mutation_blocks := repository_mutation_blocks s |}.

Definition set_repository_aliases (v : gmap (string * string) RepositoryAlias)
    (s : State) : State :=
  {| users := users s; accounts := accounts s; sessions := sessions s;
     personal_tokens := personal_tokens s; invitations := invitations s;
     activation_challenges := activation_challenges s;
     bootstrap_owner_consumed := bootstrap_owner_consumed s; repo_grants := repo_grants s;
     organizations := organizations s; teams := teams s; repos := repos s;
     repository_creations := repository_creations s; labels := labels s; issues := issues s;
     issue_comments := issue_comments s; pulls := pulls s; reviews := reviews s;
     bound_reviews := bound_reviews s; review_comments := review_comments s;
     branch_protections := branch_protections s; codeowners_ := codeowners_ s;
     readmes := readmes s; statuses := statuses s; check_runs := check_runs s;
     webhooks := webhooks s; webhook_deliveries := webhook_deliveries s; counters := counters s;
     jankurai_scores := jankurai_scores s; repository_aliases := v;
     repository_transfers := repository_transfers s;
     repository_mutation_blocks := repository_mutation_blocks s |}.

Definition set_repository_transfers (v : gmap string RepositoryTransferJournal)
    (s : State) : State :=
  {| users := users s; accounts := accounts s; sessions := sessions s;
     personal_tokens := personal_tokens s; invitations := invitations s;
     activation_challenges := activation_challenges s;
     bootstrap_owner_consumed := bootstrap_owner_consumed s; repo_grants := repo_grants s;
     organizations := organizations s; teams := teams s; repos := repos s;
     repository_creations := repository_creations s; labels := labels s; issues := issues s;
     issue_comments := issue_comments s; pulls := pulls s; reviews := reviews s;
     bound_reviews := bound_reviews s; review_comments := review_comments s;
     branch_protections := branch_protections s; codeowners_ := codeowners_ s;
     readmes := readmes s; statuses := statuses s; check_runs := check_runs s;
     webhooks := webhooks s; webhook_deliveries := webhook_deliveries s; counters := counters s;
     jankurai_scores := jankurai_scores s; repository_aliases := repository_aliases s;
     repository_transfers := v; repository_mutation_blocks := repository_mutation_blocks s |}.

Definition set_repository_mutation_blocks (v : gmap Uuid RepositoryMutationBlock)
    (s : State) : State :=
  {| users := users s; accounts := accounts s; sessions := sessions s;
     personal_tokens := personal_tokens s; invitations := invitations s;
     activation_challenges := activation_challenges s;
     bootstrap_owner_consumed := bootstrap_owner_consumed s; repo_grants := repo_grants s;
     organizations := organizations s; teams := teams s; repos := repos s;
     repository_creations := repository_creations s; labels := labels s; issues := issues s;
     issue_comments := issue_comments s; pulls := pulls s; reviews := reviews s;
     bound_reviews := bound_reviews s; review_comments := review_comments s;
     branch_protections := branch_protections s; codeowners_ := codeowners_ s;
     readmes := readmes s; statuses := statuses s; check_runs := check_runs s;
     webhooks := webhooks s; webhook_deliveries := webhook_deliveries s; counters := counters s;
     jankurai_scores := jankurai_scores s; repository_aliases := repository_aliases s;
     repository_transfers := repository_transfers s; repository_mutation_blocks := v |}.

End forge.
