(* ===== verification/Coordinator.v ===== *)
(** Coordinator: the locks in front of every mutation of the forge (engine/coordinator.rs).

    A call holds the authority, shared or exclusively, and the mutexes of its repositories in
    the order of their identities, while its operation runs. The calls are threads that take
    one step at a time, in any order; a thread that has to wait has no step. *)

From S2P Require Import Prelude BranchProtection ForgeState.

(** * The coordinator *)

(** [authority] as the readers and the writer in it, the registry of mutexes, those that are
    locked, and the process it was made in. A mutex is known by the number of its entry: the
    registry only grows. *)
Record MutationCoordinator : Type := {
  readers : nat; writer : bool; repositories : gmap Uuid nat; locked : gset nat; process_id : N
}.

Definition MutationCoordinator_default (pid : N) : MutationCoordinator :=
  {| readers := 0; writer := false; repositories := ∅; locked := ∅; process_id := pid |}.

Definition check_process (k : MutationCoordinator) (current : N) : bool :=
  (process_id k =? current)%N.

(** [with_repositories] and [with_authority]. *)
Inductive Mode : Type := Shared | Exclusive.

#[export] Instance Mode_eq_dec : EqDecision Mode.
Proof. solve_decision. Defined.

(** Where a call is; the mutexes with the identities they were looked up for. *)
Inductive Phase : Type :=
  | Called
  | Refused
  | Waiting
  | Allowed
  | Locking (held todo : list (Uuid * nat))
  | Inside (held : list (Uuid * nat))
  | Leaving (held : list (Uuid * nat))
  | Returned.

Record Thread : Type := { mode : Mode; ids : list Uuid; current : N; phase : Phase }.

Definition at_phase (t : Thread) (p : Phase) : Thread :=
  {| mode := mode t; ids := ids t; current := current t; phase := p |}.

(** [sort_unstable] and [dedup]. *)
Fixpoint dedup_ids (l : list Uuid) : list Uuid :=
  match l with
  | [] => []
  | x :: ((y :: _) as l') => if (x =? y)%N then dedup_ids l' else x :: dedup_ids l'
  | [x] => [x]
  end.

Definition sorted_ids (l : list Uuid) : list Uuid := dedup_ids (isort N.leb l).

(** [registry.entry(id).or_default()]. *)
Definition entry_or_default (id : Uuid) (r : gmap Uuid nat) : nat * gmap Uuid nat :=
  match r !! id with
  | Some l => (l, r)
  | None => (size r, <[id := size r]> r)
  end.

Fixpoint collect_locks (l : list Uuid) (r : gmap Uuid nat) : list (Uuid * nat) * gmap Uuid nat :=
  match l with
  | [] => ([], r)
  | id :: l =>
      let (lock, r) := entry_or_default id r in
      let (locks, r) := collect_locks l r in
      ((id, lock) :: locks, r)
  end.

Definition set_authority (n : nat) (w : bool) (k : MutationCoordinator) : MutationCoordinator :=
  {| readers := n; writer := w; repositories := repositories k; locked := locked k;
     process_id := process_id k |}.

Definition set_repositories (r : gmap Uuid nat) (k : MutationCoordinator) : MutationCoordinator :=
  {| readers := readers k; writer := writer k; repositories := r; locked := locked k;
     process_id := process_id k |}.

Definition set_locked (l : gset nat) (k : MutationCoordinator) : MutationCoordinator :=
  {| readers := readers k; writer := writer k; repositories := repositories k; locked := l;
     process_id := process_id k |}.

(** [authority.read()] and [authority.write()], [None] while they wait. *)
Definition enter_authority (m : Mode) (k : MutationCoordinator) : option MutationCoordinator :=
  match m with
  | Shared => if writer k then None else Some (set_authority (S (readers k)) false k)
  | Exclusive => if writer k || (0 <? readers k) then None else Some (set_authority 0 true k)
  end.

Definition leave_authority (m : Mode) (k : MutationCoordinator) : MutationCoordinator :=
  match m with
  | Shared => set_authority (pred (readers k)) (writer k) k
  | Exclusive => set_authority (readers k) false k
  end.

(** One step of a call. The operation runs [Inside]; whether it returns or panics, the guards
    go in the order they were taken, the authority last. *)
Definition advance (k : MutationCoordinator) (t : Thread) : option (MutationCoordinator * Thread) :=
  match phase t with
  | Called =>
      Some (k, at_phase t (if check_process k (current t) then Waiting else Refused))
  | Waiting => (λ k', (k', at_phase t Allowed)) <$> enter_authority (mode t) k
  | Allowed =>
      let (locks, r) := collect_locks (sorted_ids (ids t)) (repositories k) in
      Some (set_repositories r k, at_phase t (Locking [] locks))
  | Locking held [] => Some (k, at_phase t (Inside held))
  | Locking held (l :: todo) =>
      if bool_decide (l.2 ∈ locked k) then None
      else Some (set_locked ({[l.2]} ∪ locked k) k, at_phase t (Locking (held ++ [l]) todo))
  | Inside held => Some (k, at_phase t (Leaving held))
  | Leaving (l :: held) => Some (set_locked (locked k ∖ {[l.2]}) k, at_phase t (Leaving held))
  | Leaving [] => Some (leave_authority (mode t) k, at_phase t Returned)
  | Refused | Returned => None
  end.

(** * Interleavings *)

Definition System : Type := MutationCoordinator * list Thread.

Inductive step : System → System → Prop :=
  | Step k ts i t k' t' :
      ts !! i = Some t → advance k t = Some (k', t') → step (k, ts) (k', <[i := t']> ts).

(** A lock that is fair lets no reader past a writer that waits. *)
Definition waits_to_write (t : Thread) : bool :=
  match phase t, mode t with Waiting, Exclusive => true | _, _ => false end.

Definition gives_way (ts : list Thread) (t : Thread) : bool :=
  match phase t, mode t with Waiting, Shared => existsb waits_to_write ts | _, _ => false end.

Inductive fair_step : System → System → Prop :=
  | Fair_step k ts i t k' t' :
      ts !! i = Some t → gives_way ts t = false → advance k t = Some (k', t') →
      fair_step (k, ts) (k', <[i := t']> ts).

(** A run starts with calls that have taken nothing. *)
Definition initial (pid : N) (ts : list Thread) : Prop := Forall (λ t, phase t = Called) ts.

Definition reachable (pid : N) (s : System) : Prop :=
  ∃ ts, initial pid ts ∧ rtc step (MutationCoordinator_default pid, ts) s.

Definition finished (t : Thread) : bool :=
  match phase t with Refused | Returned => true | _ => false end.

(** What a thread holds. *)
Definition held_of (t : Thread) : list (Uuid * nat) :=
  match phase t with Locking held _ | Inside held | Leaving held => held | _ => [] end.

Definition looked_up (t : Thread) : list (Uuid * nat) :=
  match phase t with Locking held todo => held ++ todo | Inside held | Leaving held => held | _ => [] end.

Definition in_authority (m : Mode) (t : Thread) : bool :=
  match phase t with
  | Allowed | Locking _ _ | Inside _ | Leaving _ => bool_decide (mode t = m)
  | _ => false
  end.

Definition inside (t : Thread) : bool := match phase t with Inside _ => true | _ => false end.

(** * The order of the identities *)

Lemma dedup_ids_spec l :
  StronglySorted (λ a b, N.leb a b = true) l →
  StronglySorted N.lt (dedup_ids l) ∧ ∀ x, x ∈ dedup_ids l ↔ x ∈ l.
Proof.
  induction 1 as [|x l Hs IH Hall]; [by split; [constructor|]|].
  destruct l as [|y l]; [by split; [repeat constructor|]|].
  change (dedup_ids (x :: y :: l))
    with (if (x =? y)%N then dedup_ids (y :: l) else x :: dedup_ids (y :: l)).
  destruct IH as [IH1 IH2]. destruct (N.eqb_spec x y) as [<-|Hne].
  - split; [done|]. intros z. rewrite IH2. set_solver.
  - split; [|intros z; by rewrite !elem_of_cons, IH2, elem_of_cons].
    constructor; [done|]. rewrite Forall_forall in *. intros z Hz%IH2.
    assert (Hxy : (x < y)%N).
    { specialize (Hall y (list_elem_of_here _ _)). apply N.leb_le in Hall. lia. }
    inversion Hs as [|? ? _ Hy]; subst. rewrite Forall_forall in Hy.
    apply elem_of_cons in Hz as [->|Hz]; [done|]. specialize (Hy z Hz). apply N.leb_le in Hy. lia.
Qed.

Lemma sorted_ids_spec l :
  StronglySorted N.lt (sorted_ids l) ∧ ∀ x, x ∈ sorted_ids l ↔ x ∈ l.
Proof.
  destruct (dedup_ids_spec (isort N.leb l)) as [H1 H2].
  - apply isort_sorted; [intros a b; rewrite !N.leb_le; lia|].
    intros a b c ?%N.leb_le ?%N.leb_le. apply N.leb_le. lia.
  - split; [done|]. intros x. unfold sorted_ids. by rewrite H2, elem_of_isort.
Qed.

(** * Counting threads *)

Definition count (p : Thread → bool) (ts : list Thread) : nat :=
  sum_list_with (λ t, if p t then 1 else 0) ts.

#[local] Arguments count : simpl never.
#[local] Arguments sorted_ids : simpl never.

Lemma sum_insert (f : Thread → nat) ts i t t' :
  ts !! i = Some t → sum_list_with f (<[i := t']> ts) + f t = sum_list_with f ts + f t'.
Proof.
  revert i. induction ts as [|x ts IH]; intros [|i] Hi; [done|done|injection Hi as ->; cbn; lia|].
  change (f x + sum_list_with f (<[i := t']> ts) + f t = f x + sum_list_with f ts + f t').
  specialize (IH i Hi). lia.
Qed.

Lemma count_zero p ts : count p ts = 0 → ∀ i t, ts !! i = Some t → p t = false.
Proof.
  revert p. intros p. induction ts as [|x ts IH]; [done|]. unfold count in *. cbn. intros H [|i] t Ht.
  - injection Ht as ->. by destruct (p t).
  - by eapply IH; [lia|].
Qed.

Lemma count_pos p ts i t : ts !! i = Some t → p t = true → 0 < count p ts.
Proof.
  intros Hi Hp. destruct (count p ts) eqn:Hc; [|lia]. eapply count_zero in Hc; [|done]. congruence.
Qed.

Lemma count_two p ts i j t u :
  ts !! i = Some t → ts !! j = Some u → i ≠ j → p t = true → p u = true → 2 ≤ count p ts.
Proof.
  unfold count. revert i j. induction ts as [|x ts IH]; [done|]. intros [|i] [|j] Hi Hj Hne Ht Hu; cbn in *.
  - done.
  - injection Hi as ->. rewrite Ht. pose proof (count_pos p ts j u Hj Hu) as H. unfold count in H. lia.
  - injection Hj as ->. rewrite Hu. pose proof (count_pos p ts i t Hi Ht) as H. unfold count in H. lia.
  - assert (Hij : i ≠ j) by congruence. specialize (IH i j Hi Hj Hij Ht Hu). lia.
Qed.

(** * Looking the mutexes up *)

Definition registry_ok (r : gmap Uuid nat) : Prop :=
  (∀ id l, r !! id = Some l → l < size r) ∧ ∀ id id' l, r !! id = Some l → r !! id' = Some l → id = id'.

Lemma entry_spec id r :
  registry_ok r →
  let (l, r') := entry_or_default id r in
  registry_ok r' ∧ r ⊆ r' ∧ r' !! id = Some l.
Proof.
  intros [H1 H2]. unfold entry_or_default. destruct (r !! id) as [l|] eqn:Hid; [by split_and!|].
  split_and!; [|by apply insert_subseteq|by apply lookup_insert_eq]. split.
  - intros i l. rewrite map_size_insert_None by done. intros [[<- <-]|[_ Hl%H1]]%lookup_insert_Some; lia.
  - intros i j l [[<- <-]|[Hi Hl]]%lookup_insert_Some [[<- Heq]|[Hj Hl']]%lookup_insert_Some; [done|..].
    + apply H1 in Hl'. lia.
    + subst. apply H1 in Hl. lia.
    + by eapply H2.
Qed.

Lemma collect_spec l r :
  registry_ok r →
  let (locks, r') := collect_locks l r in
  registry_ok r' ∧ r ⊆ r' ∧ locks.*1 = l ∧ Forall (λ p, r' !! p.1 = Some p.2) locks.
Proof.
  revert r. induction l as [|id l IH]; intros r Hr; cbn; [by split_and!|].
  pose proof (entry_spec id r Hr) as He. destruct (entry_or_default id r) as [lock r1].
  destruct He as (Hr1 & Hsub & Hid). specialize (IH r1 Hr1).
  destruct (collect_locks l r1) as [locks r2]. destruct IH as (Hr2 & Hsub2 & <- & Hall).
  split_and!; [done|by etrans|done|]. constructor; [|done]. by eapply lookup_weaken.
Qed.

(** * What holds of every reachable system *)

Definition thread_ok (r : gmap Uuid nat) (t : Thread) : Prop :=
  Forall (λ p, r !! p.1 = Some p.2) (looked_up t)
  ∧ StronglySorted N.lt (looked_up t).*1
  ∧ match phase t with
    | Locking held todo => (held ++ todo).*1 = sorted_ids (ids t)
    | Inside held => held.*1 = sorted_ids (ids t)
    | _ => True
    end.

(** Who holds which mutex. *)
Definition holds (ts : list Thread) (i : nat) (l : nat) : Prop :=
  ∃ t, ts !! i = Some t ∧ l ∈ (held_of t).*2.

Record system_ok (s : System) : Prop := {
  si_registry : registry_ok (repositories s.1);
  si_threads i t : s.2 !! i = Some t → thread_ok (repositories s.1) t;
  si_readers : readers s.1 = count (in_authority Shared) s.2;
  si_writer : (if writer s.1 then 1 else 0) = count (in_authority Exclusive) s.2;
  si_one : writer s.1 = true → readers s.1 = 0;
  si_locked l : l ∈ locked s.1 ↔ ∃ i, holds s.2 i l;
  si_owner i j l : holds s.2 i l → holds s.2 j l → i = j
}.

Lemma holds_insert ts i t' j l :
  i < length ts →
  holds (<[i := t']> ts) j l ↔ (j = i ∧ l ∈ (held_of t').*2) ∨ (j ≠ i ∧ holds ts j l).
Proof.
  intros Hlen. unfold holds. destruct (decide (j = i)) as [->|Hne].
  - rewrite list_lookup_insert_eq by done. naive_solver.
  - rewrite list_lookup_insert_ne by done. naive_solver.
Qed.

Lemma holds_at ts i t l : ts !! i = Some t → holds ts i l ↔ l ∈ (held_of t).*2.
Proof. intros Hi. unfold holds. rewrite Hi. naive_solver. Qed.

Lemma thread_ok_weaken r r' t : r ⊆ r' → thread_ok r t → thread_ok r' t.
Proof.
  intros Hsub (H1 & H2 & H3). split_and!; [|done|done]. eapply Forall_impl; [exact H1|].
  intros p Hp. exact (lookup_weaken _ _ _ _ Hp Hsub).
Qed.

(** The other threads stay, the one that moved is as it should be. *)
Lemma threads_insert r r' (ts : list Thread) i t' :
  r ⊆ r' → (∀ j t, ts !! j = Some t → thread_ok r t) → thread_ok r' t' →
  ∀ j t, <[i := t']> ts !! j = Some t → thread_ok r' t.
Proof.
  intros Hsub Hall Ht' j t [(-> & <- & _)|(_ & Hj)]%list_lookup_insert_Some; [done|].
  eapply thread_ok_weaken; [done|by eapply Hall].
Qed.

(** The mutexes in the hands of one thread are different ones. *)
Lemma held_NoDup r t :
  registry_ok r → thread_ok r t → NoDup (looked_up t).*2.
Proof.
  intros [_ Hinj] (Hall & Hs & _). induction (looked_up t) as [|[id l] ps IH]; [constructor|].
  cbn in *. inversion Hall as [|? ? Hp Hps]; subst. inversion Hs as [|? ? Hs' Hlt]; subst.
  constructor; [|by apply IH]. intros ([id' l'] & Heq & Hin)%list_elem_of_fmap. cbn in *. subst l'.
  rewrite Forall_forall in Hps. rewrite Forall_forall in Hlt. pose proof (Hps _ Hin) as Hp'.
  assert (id = id') as -> by (by eapply Hinj).
  assert (Hlt' : (id' < id')%N) by (apply Hlt, list_elem_of_fmap; by exists (id', l)). lia.
Qed.

Lemma held_looked_up t : held_of t ⊆ looked_up t.
Proof. unfold held_of, looked_up. destruct (phase t); try done. intros x. rewrite elem_of_app. by left. Qed.

Lemma initial_ok pid ts : initial pid ts → system_ok (MutationCoordinator_default pid, ts).
Proof.
  intros Hall. assert (Hc : ∀ i t, ts !! i = Some t → phase t = Called).
  { intros i t Hi. unfold initial in Hall. rewrite Forall_lookup in Hall. by eapply Hall. }
  assert (Hheld : ∀ i l, ¬ holds ts i l).
  { intros i l (t & Hi & Hl). unfold held_of in Hl. rewrite (Hc i t Hi) in Hl. by apply elem_of_nil in Hl. }
  assert (Hcount : ∀ m, count (in_authority m) ts = 0).
  { intros m. clear Hc Hheld. induction Hall as [|t ts Ht _ IH]; [done|]. unfold count in *. cbn.
    unfold in_authority at 1. by rewrite Ht. }
  split; cbn; [|intros i t Hi|symmetry; apply Hcount|symmetry; apply Hcount|done| |].
  - split; intros ? ?; by rewrite lookup_empty.
  - unfold thread_ok, looked_up. rewrite (Hc i t Hi). repeat split; constructor.
  - intros l. split; [set_solver|]. intros [i Hi]. by destruct (Hheld i l).
  - intros i j l Hi. by destruct (Hheld i l).
Qed.

(** A thread that takes free mutexes and leaves some of its own. *)
Lemma locks_ok k ts i t t' (lk : gset nat) :
  system_ok (k, ts) → ts !! i = Some t →
  (∀ l, l ∈ (held_of t').*2 → l ∈ (held_of t).*2 ∨ l ∉ locked k) →
  (∀ l, l ∈ lk ↔ (l ∈ locked k ∧ l ∉ (held_of t).*2) ∨ l ∈ (held_of t').*2) →
  (∀ l, l ∈ lk ↔ ∃ j, holds (<[i := t']> ts) j l)
  ∧ ∀ j j' l, holds (<[i := t']> ts) j l → holds (<[i := t']> ts) j' l → j = j'.
Proof.
  intros Hok Hi Htake Hlk. pose proof (lookup_lt_Some _ _ _ Hi) as Hlen.
  pose proof (si_locked _ Hok) as Hin. pose proof (si_owner _ Hok) as Hown. cbn in Hin, Hown.
  pose proof (λ l, holds_at ts i t l Hi) as Hheld. split.
  - intros l. rewrite Hlk. split.
    + intros [[[j Hj]%Hin Hno]|Hl]; [|exists i; apply holds_insert; auto].
      exists j. apply holds_insert; [done|]. right. split; [|done]. intros ->. by apply Hno, Hheld.
    + intros [j [[-> Hl]|[Hne Hj]]%holds_insert]; [by right| |done]. left. split; [apply Hin; by exists j|].
      intros Hl%Hheld. apply Hne. by eapply Hown.
  - assert (Hclash : ∀ j l, j ≠ i → holds ts j l → l ∈ (held_of t').*2 → False).
    { intros j l Hne Hj Hl. destruct (Htake l Hl) as [Hl'%Hheld|Hfree]; [by apply Hne; eapply Hown|].
      apply Hfree, Hin. by exists j. }
    intros j j' l [[-> Hl]|[Hne Hj]]%holds_insert [[-> Hl']|[Hne' Hj']]%holds_insert; try done.
    + exfalso. by eapply Hclash.
    + exfalso. by eapply Hclash.
    + by eapply Hown.
Qed.

Lemma locks_same k ts i t t' :
  system_ok (k, ts) → ts !! i = Some t → held_of t' = held_of t →
  (∀ l, l ∈ locked k ↔ ∃ j, holds (<[i := t']> ts) j l)
  ∧ ∀ j j' l, holds (<[i := t']> ts) j l → holds (<[i := t']> ts) j' l → j = j'.
Proof.
  intros Hok Hi Heq. eapply locks_ok; [done|done|rewrite Heq; by left|]. intros l. rewrite Heq.
  assert (Hl : l ∈ (held_of t).*2 → l ∈ locked k).
  { intros H. apply (si_locked _ Hok). exists i. by exists t. }
  destruct (decide (l ∈ (held_of t).*2)); tauto.
Qed.

Lemma count_move m ts i t t' :
  ts !! i = Some t →
  count (in_authority m) (<[i := t']> ts) + (if in_authority m t then 1 else 0)
  = count (in_authority m) ts + (if in_authority m t' then 1 else 0).
Proof. intros Hi. exact (sum_insert (λ t, if in_authority m t then 1 else 0) ts i t t' Hi). Qed.

(** A step that neither enters nor leaves the authority. *)
Lemma move_ok k k' ts i t t' :
  system_ok (k, ts) → ts !! i = Some t →
  readers k' = readers k → writer k' = writer k →
  registry_ok (repositories k') → repositories k ⊆ repositories k' → thread_ok (repositories k') t' →
  (∀ m, in_authority m t' = in_authority m t) →
  (∀ l, l ∈ locked k' ↔ ∃ j, holds (<[i := t']> ts) j l)
  ∧ (∀ j j' l, holds (<[i := t']> ts) j l → holds (<[i := t']> ts) j' l → j = j') →
  system_ok (k', <[i := t']> ts).
Proof.
  intros Hok Hi Hr Hw Hreg Hsub Ht' Ha [H1 H2].
  pose proof (λ m, count_move m ts i t t' Hi) as Hcount. setoid_rewrite Ha in Hcount.
  split; cbn; rewrite ?Hr, ?Hw; [done| | | | |done|done].
  - apply (threads_insert (repositories k)); [done|apply (si_threads _ Hok)|done].
  - pose proof (si_readers _ Hok) as H. cbn in H. specialize (Hcount Shared). lia.
  - pose proof (si_writer _ Hok) as H. cbn in H. specialize (Hcount Exclusive). lia.
  - apply (si_one _ Hok).
Qed.

Lemma enter_ok k k' ts i t :
  system_ok (k, ts) → ts !! i = Some t → phase t = Waiting → enter_authority (mode t) k = Some k' →
  system_ok (k', <[i := at_phase t Allowed]> ts).
Proof.
  intros Hok Hi Hp Hen. pose proof (si_readers _ Hok) as Hr. pose proof (si_writer _ Hok) as Hw.
  pose proof (locks_same k ts i t (at_phase t Allowed) Hok Hi) as Hl.
  unfold held_of in Hl. rewrite Hp in Hl. cbn in Hl, Hr, Hw. destruct (Hl eq_refl) as [H1 H2].
  pose proof (λ m, count_move m ts i t (at_phase t Allowed) Hi) as Hcount.
  pose proof (Hcount Shared) as Hs. pose proof (Hcount Exclusive) as He. clear Hcount.
  unfold in_authority at 2 4 in Hs. unfold in_authority at 2 4 in He. rewrite Hp in Hs, He. cbn in Hs, He.
  assert (Hthr : ∀ j u, <[i := at_phase t Allowed]> ts !! j = Some u → thread_ok (repositories k) u).
  { apply (threads_insert (repositories k)); [done|apply (si_threads _ Hok)|].
    unfold thread_ok, looked_up. cbn. repeat split; constructor. }
  unfold enter_authority in Hen. destruct (mode t) eqn:Hm.
  - rewrite bool_decide_eq_true_2 in Hs by done. rewrite bool_decide_eq_false_2 in He by done.
    destruct (writer k) eqn:Hwk; [done|]. injection Hen as <-.
    split; cbn; [apply Hok|exact Hthr|lia|lia|done|done|done].
  - rewrite bool_decide_eq_false_2 in Hs by done. rewrite bool_decide_eq_true_2 in He by done.
    destruct (writer k) eqn:Hwk; [done|]. destruct (Nat.ltb_spec 0 (readers k)) as [?|Hz]; [done|].
    injection Hen as <-. split; cbn; [apply Hok|exact Hthr|lia|lia|done|done|done].
Qed.

Lemma leave_ok k ts i t :
  system_ok (k, ts) → ts !! i = Some t → phase t = Leaving [] →
  system_ok (leave_authority (mode t) k, <[i := at_phase t Returned]> ts).
Proof.
  intros Hok Hi Hp. pose proof (si_readers _ Hok) as Hr. pose proof (si_writer _ Hok) as Hw.
  pose proof (si_one _ Hok) as Hone.
  pose proof (locks_same k ts i t (at_phase t Returned) Hok Hi) as Hl.
  unfold held_of in Hl. rewrite Hp in Hl. cbn in Hl, Hr, Hw, Hone. destruct (Hl eq_refl) as [H1 H2].
  pose proof (λ m, count_move m ts i t (at_phase t Returned) Hi) as Hcount.
  pose proof (Hcount Shared) as Hs. pose proof (Hcount Exclusive) as He. clear Hcount.
  unfold in_authority at 2 4 in Hs. unfold in_authority at 2 4 in He. rewrite Hp in Hs, He. cbn in Hs, He.
  assert (Hthr : ∀ j u, <[i := at_phase t Returned]> ts !! j = Some u → thread_ok (repositories k) u).
  { apply (threads_insert (repositories k)); [done|apply (si_threads _ Hok)|].
    unfold thread_ok, looked_up. cbn. repeat split; constructor. }
  destruct (mode t) eqn:Hm; cbn.
  - rewrite bool_decide_eq_true_2 in Hs by done. rewrite bool_decide_eq_false_2 in He by done.
    split; cbn; [apply Hok|exact Hthr|lia|lia| |done|done]. intros Hwk. specialize (Hone Hwk). lia.
  - rewrite bool_decide_eq_false_2 in Hs by done. rewrite bool_decide_eq_true_2 in He by done.
    assert (Hwk : writer k = true) by (destruct (writer k); [done|lia]). rewrite Hwk in Hw.
    split; cbn; [apply Hok|exact Hthr|lia|lia|done|done|done].
Qed.

Lemma step_ok s s' : step s s' → system_ok s → system_ok s'.
Proof.
  destruct 1 as [k ts i t k' t' Hi Hadv]. intros Hok. pose proof (si_threads _ Hok i t Hi) as (Hlk & Hsort & Hids).
  pose proof (si_registry _ Hok) as Hreg. cbn in Hlk, Hreg.
  unfold advance in Hadv. destruct (phase t) as [ | | | |held [ |l todo] |held|[ |l held] | ] eqn:Hp.
  - injection Hadv as <- <-. assert (Hq : ∀ p, p = Waiting ∨ p = Refused →
      system_ok (k, <[i := at_phase t p]> ts)).
    { intros p Hpp. eapply move_ok; [done|done|done|done|done|done| | |].
      - destruct Hpp as [-> | ->]; unfold thread_ok, looked_up; cbn; repeat split; constructor.
      - intros m. unfold in_authority. rewrite Hp. by destruct Hpp as [-> | ->].
      - apply (locks_same k ts i t); [done|done|]. unfold held_of. rewrite Hp.
        by destruct Hpp as [-> | ->]. }
    destruct (check_process _ _); apply Hq; auto.
  - done.
  - destruct (enter_authority (mode t) k) as [k1|] eqn:Hen; [|done]. injection Hadv as <- <-.
    by eapply enter_ok.
  - pose proof (collect_spec (sorted_ids (ids t)) (repositories k) Hreg) as Hc.
    destruct (collect_locks _ _) as [locks r]. destruct Hc as (Hr & Hsub & Hfst & Hall).
    injection Hadv as <- <-. eapply (move_ok k); [done|done|done|done|done|done| | |].
    + split_and!; [done|cbn; rewrite Hfst; apply sorted_ids_spec|exact Hfst].
    + intros m. unfold in_authority. by rewrite Hp.
    + apply (locks_same k ts i t); [done|done|]. unfold held_of. by rewrite Hp.
  - injection Hadv as <- <-. unfold looked_up in *. rewrite Hp, app_nil_r in *.
    eapply (move_ok k); [done|done|done|done|done|done| | |].
    + by split_and!.
    + intros m. unfold in_authority. by rewrite Hp.
    + apply (locks_same k ts i t); [done|done|]. unfold held_of. by rewrite Hp.
  - case_bool_decide as Hfree; [done|]. injection Hadv as <- <-.
    unfold looked_up in *. rewrite Hp in *.
    eapply (move_ok k); [done|done|done|done|done|done| | |].
    + split_and!; unfold looked_up; cbn; by rewrite <-app_assoc.
    + intros m. unfold in_authority. by rewrite Hp.
    + apply (locks_ok k ts i t); [done|done|..].
      * intros x. unfold held_of. rewrite Hp. cbn. rewrite fmap_app, elem_of_app.
        intros [H|H%list_elem_of_singleton]; [by left|right; congruence].
      * intros x. unfold held_of. rewrite Hp. cbn. rewrite fmap_app, elem_of_app.
        change ([l].*2) with [l.2]. rewrite list_elem_of_singleton.
        assert (Hin : x ∈ held.*2 → x ∈ locked k).
        { intros H. apply (si_locked _ Hok). exists i. eapply holds_at; [done|]. unfold held_of. by rewrite Hp. }
        destruct (decide (x ∈ held.*2)); set_solver.
  - injection Hadv as <- <-. unfold looked_up in *. rewrite Hp in *.
    eapply (move_ok k); [done|done|done|done|done|done| | |].
    + by split_and!.
    + intros m. unfold in_authority. by rewrite Hp.
    + apply (locks_same k ts i t); [done|done|]. unfold held_of. by rewrite Hp.
  - injection Hadv as <- <-. by apply leave_ok.
  - injection Hadv as <- <-.
    assert (Hnd : NoDup (l :: held).*2).
    { pose proof (held_NoDup _ _ Hreg (si_threads _ Hok i t Hi)) as H. unfold looked_up in H. by rewrite Hp in H. }
    unfold looked_up in *. rewrite Hp in *.
    eapply (move_ok k); [done|done|done|done|done|done| | |].
    + inversion Hlk; subst. cbn in Hsort. inversion Hsort; subst. by split_and!.
    + intros m. unfold in_authority. by rewrite Hp.
    + cbn in Hnd. apply NoDup_cons in Hnd as [Hno _]. apply (locks_ok k ts i t); [done|done|..].
      * intros x. unfold held_of. rewrite Hp. cbn. intros H. left. by right.
      * intros x. unfold held_of. rewrite Hp. cbn. rewrite elem_of_cons.
        assert (Hin : x ∈ held.*2 → x ∈ locked k).
        { intros H. apply (si_locked _ Hok). exists i. eapply holds_at; [done|]. unfold held_of.
          rewrite Hp. by right. }
        destruct (decide (x ∈ held.*2)); set_solver.
  - done.
Qed.

Lemma reachable_ok pid s : reachable pid s → system_ok s.
Proof.
  intros (ts & Hinit & Hrtc). pose proof (initial_ok pid ts Hinit) as Hok.
  clear Hinit. induction Hrtc as [s|s s1 s' Hstep _ IH]; [done|]. by apply IH, step_ok with s.
Qed.

(** * Exclusion *)

Lemma inside_held r t : thread_ok r t → inside t = true → ∀ id, id ∈ ids t →
  ∃ l, r !! id = Some l ∧ l ∈ (held_of t).*2.
Proof.
  intros (Hlk & _ & Hids) Hin id Hid. unfold looked_up, held_of, inside in *.
  destruct (phase t) as [ | | | | |held| | ]; try done.
  assert (Hfst : id ∈ held.*1) by (rewrite Hids; by apply sorted_ids_spec).
  apply list_elem_of_fmap in Hfst as (p & -> & Hp). rewrite Forall_forall in Hlk.
  exists p.2. split; [by apply Hlk|]. apply list_elem_of_fmap. by exists p.
Qed.

Lemma inside_authority t : inside t = true → in_authority (mode t) t = true.
Proof. unfold inside, in_authority. destruct (phase t); try done. intros _. by apply bool_decide_eq_true_2. Qed.

(** C11: while an operation runs under the coordinator it is alone with what it named. No other
    call is inside the authority beside an exclusive one, no two running operations name a
    common repository, and each running one holds the mutex of every repository it named. *)
Theorem coordinator_excludes pid s i j t u :
  reachable pid s → s.2 !! i = Some t → s.2 !! j = Some u → i ≠ j → inside t = true →
  (mode t = Exclusive → ∀ m, in_authority m u = false)
  ∧ (inside u = true → ∀ id, id ∈ ids t → id ∉ ids u)
  ∧ ∀ id, id ∈ ids t → ∃ l, repositories s.1 !! id = Some l ∧ l ∈ locked s.1 ∧ holds s.2 i l.
Proof.
  intros Hok%reachable_ok Ht Hu Hne Hin. pose proof (si_threads _ Hok _ _ Ht) as Hokt.
  pose proof (inside_held _ _ Hokt Hin) as Hheld. split_and!.
  - intros Hm m. pose proof (inside_authority _ Hin) as Ha. rewrite Hm in Ha.
    destruct (in_authority m u) eqn:Hb; [|done]. exfalso.
    pose proof (si_writer _ Hok) as Hw. pose proof (count_pos _ _ _ _ Ht Ha) as Hpos. destruct m.
    + pose proof (count_pos _ _ _ _ Hu Hb) as Hpos'. pose proof (si_readers _ Hok) as Hr.
      destruct (writer s.1) eqn:Hwr; [|lia]. pose proof (si_one _ Hok Hwr). lia.
    + pose proof (count_two _ _ _ _ _ _ Ht Hu Hne Ha Hb). destruct (writer s.1); lia.
  - intros Hin' id Hid Hid'. apply Hne.
    destruct (Hheld id Hid) as (l & Hl & Hown).
    destruct (inside_held _ _ (si_threads _ Hok _ _ Hu) Hin' id Hid') as (l' & Hl' & Hown').
    assert (l' = l) as -> by congruence.
    by apply (si_owner _ Hok i j l); eapply holds_at.
  - intros id Hid. destruct (Hheld id Hid) as (l & Hl & Hown). exists l. split; [done|].
    assert (Hh : holds s.2 i l) by by eapply holds_at. split; [|done]. apply (si_locked _ Hok). by exists i.
Qed.

(** * Every call returns *)

(** The steps a call has left, at most. *)
Definition weight (t : Thread) : nat :=
  let n := length (sorted_ids (ids t)) in
  match phase t with
  | Called => 2 * n + 6
  | Waiting => 2 * n + 5
  | Allowed => 2 * n + 4
  | Locking held todo => length held + 2 * length todo + 3
  | Inside held => length held + 2
  | Leaving held => length held + 1
  | Refused | Returned => 0
  end.

Definition work (s : System) : nat := sum_list_with weight s.2.

Lemma advance_weight k t k' t' : advance k t = Some (k', t') → weight t' < weight t.
Proof.
  unfold advance, weight. destruct (phase t) as [ | | | |held [ |l todo] |held|[ |l held] | ] eqn:Hp; try done.
  - intros [= <- <-]. destruct (check_process _ _); cbn; lia.
  - destruct (enter_authority _ _); [|done]. intros [= <- <-]. cbn. lia.
  - assert (Hlen : ∀ l r, length (collect_locks l r).1 = length l).
    { intros l. induction l as [|x l IH]; intros r; [done|]. cbn. destruct (entry_or_default x r) as [y r1].
      specialize (IH r1). destruct (collect_locks l r1). cbn in *. by rewrite IH. }
    specialize (Hlen (sorted_ids (ids t)) (repositories k)). destruct (collect_locks _ _) as [locks r].
    intros [= <- <-]. cbn in *. lia.
  - intros [= <- <-]. cbn. lia.
  - case_bool_decide; [done|]. intros [= <- <-]. cbn. rewrite length_app. cbn. lia.
  - intros [= <- <-]. cbn. lia.
  - intros [= <- <-]. cbn. lia.
  - intros [= <- <-]. cbn. lia.
Qed.

Lemma step_work s s' : step s s' → work s' < work s.
Proof.
  destruct 1 as [k ts i t k' t' Hi Hadv%advance_weight]. unfold work. cbn.
  pose proof (sum_insert weight ts i t t' Hi). lia.
Qed.

Lemma fair_step_step s s' : fair_step s s' → step s s'.
Proof. destruct 1. by econstructor. Qed.

(** A list in which everything has something greater is empty. *)
Lemma no_greatest (l : list N) : (∀ x, x ∈ l → ∃ y, y ∈ l ∧ (x < y)%N) → l = [].
Proof.
  intros H. destruct l as [|x l]; [done|]. exfalso. set (L := x :: l) in *.
  assert (Hmax : ∃ m, m ∈ L ∧ ∀ y, y ∈ L → (y ≤ m)%N).
  { subst L. clear H. revert x. induction l as [|y l IH]; intros x.
    - exists x. split; [by left|]. intros z ->%list_elem_of_singleton. lia.
    - destruct (IH y) as (m & Hm & Hle). destruct (N.le_gt_cases x m) as [Hx|Hx].
      + exists m. split; [by right|]. intros z [->|Hz]%elem_of_cons; [done|by apply Hle].
      + exists x. split; [by left|]. intros z [->|Hz]%elem_of_cons; [lia|]. specialize (Hle z Hz). lia. }
  destruct Hmax as (m & Hm & Hle). destruct (H m Hm) as (y & Hy & Hlt). specialize (Hle y Hy). lia.
Qed.

(** The identity whose mutex a thread waits for. *)
Definition awaits (t : Thread) : option Uuid :=
  match phase t with Locking _ (l :: _) => Some l.1 | _ => None end.

(** Nobody can move. *)
Definition stuck (k : MutationCoordinator) (ts : list Thread) : Prop :=
  ∀ i t, ts !! i = Some t → gives_way ts t = false → advance k t = None.

(** A thread that waits for a mutex waits for one that waits for a greater one. *)
Lemma awaits_greater k ts x :
  system_ok (k, ts) → stuck k ts → x ∈ omap awaits ts → ∃ y, y ∈ omap awaits ts ∧ (x < y)%N.
Proof.
  intros Hok Hstuck (t & Ht & Haw)%list_elem_of_omap.
  apply list_elem_of_lookup in Ht as [i Hi]. unfold awaits in Haw.
  pose proof (si_threads _ Hok _ _ Hi) as (Hlk & _ & _). pose proof (Hstuck i t Hi) as Hno.
  unfold gives_way, advance in Hno. unfold looked_up in Hlk.
  destruct (phase t) as [ | | | |held [ |l todo] | | | ] eqn:Hp; try done. injection Haw as <-.
  specialize (Hno eq_refl). case_bool_decide as Hbusy; [|done].
  apply (si_locked _ Hok) in Hbusy as (j & u & Hj & Hheld). cbn in Hj.
  pose proof (si_threads _ Hok _ _ Hj) as (Hlk' & Hsort & _). pose proof (Hstuck j u Hj) as Hno'.
  unfold gives_way, advance in Hno'. unfold held_of, looked_up in *.
  destruct (phase u) as [ | | | |held' [ |l' todo'] |held'|[ |l0 held'] | ] eqn:Hq;
    try (by apply elem_of_nil in Hheld); try (by specialize (Hno' eq_refl)).
  exists l'.1. split.
  { apply list_elem_of_omap. exists u. split; [by eapply list_elem_of_lookup_2|]. unfold awaits. by rewrite Hq. }
  apply list_elem_of_fmap in Hheld as (p & Hpl & Hin).
  assert (Hpx : p.1 = l.1).
  { apply (proj2 (si_registry _ Hok)) with l.2.
    - rewrite Forall_forall in Hlk'. rewrite Hpl. apply Hlk', elem_of_app. by left.
    - rewrite Forall_forall in Hlk. apply Hlk, elem_of_app. right. by left. }
  rewrite <-Hpx. rewrite fmap_app in Hsort. cbn in Hsort.
  eapply (StronglySorted_app_1_elem_of _ held'.*1); [exact Hsort| |by left].
  apply list_elem_of_fmap. by exists p.
Qed.

(** Whoever is in the authority can move, unless it waits for a mutex. *)
Lemma authority_moves k ts i t m :
  stuck k ts → ts !! i = Some t → in_authority m t = true → awaits t = None → False.
Proof.
  intros Hstuck Hi Ha Hno. specialize (Hstuck i t Hi). unfold gives_way, advance in Hstuck.
  unfold in_authority, awaits in *.
  destruct (phase t) as [ | | | |held [ |l todo] |held|[ |l held] | ]; try done;
    specialize (Hstuck eq_refl); try done. by destruct (collect_locks _ _).
Qed.

Lemma stuck_finished k ts :
  system_ok (k, ts) → stuck k ts → ∀ i t, ts !! i = Some t → finished t = true.
Proof.
  intros Hok Hstuck.
  assert (Haw : omap awaits ts = []) by (apply no_greatest; intros x Hx; by eapply awaits_greater).
  assert (Hnone : ∀ i t, ts !! i = Some t → awaits t = None).
  { intros i t Hi. destruct (awaits t) as [x|] eqn:Hx; [|done]. exfalso.
    assert (Hin : x ∈ omap awaits ts) by (apply list_elem_of_omap; exists t; split; [by eapply list_elem_of_lookup_2|done]).
    rewrite Haw in Hin. by apply elem_of_nil in Hin. }
  assert (Hempty : ∀ m, count (in_authority m) ts = 0).
  { intros m. destruct (count (in_authority m) ts) eqn:Hc; [done|]. exfalso.
    assert (Hex : ∃ i t, ts !! i = Some t ∧ in_authority m t = true).
    { clear -Hc. revert n Hc. induction ts as [|u ts IH]; intros n Hc; [done|]. unfold count in *. cbn in Hc.
      destruct (in_authority m u) eqn:Hu; [by exists 0, u|]. destruct (IH n Hc) as (i & t & Hi & Ht).
      by exists (S i), t. }
    destruct Hex as (i & t & Hi & Ht). eapply authority_moves; eauto. }
  assert (Hfree : writer k = false ∧ readers k = 0).
  { pose proof (si_writer _ Hok) as Hw. pose proof (si_readers _ Hok) as Hr. cbn in Hw, Hr.
    rewrite Hempty in Hw, Hr. by destruct (writer k). }
  assert (Hwrite : existsb waits_to_write ts = false).
  { apply not_true_iff_false. intros (t & Ht & Hw)%existsb_exists. apply list_elem_of_In in Ht.
    apply list_elem_of_lookup in Ht as [i Hi]. specialize (Hstuck i t Hi).
    unfold waits_to_write, gives_way, advance, enter_authority in *. destruct Hfree as [Hf1 Hf2].
    destruct (phase t); try done. destruct (mode t); [done|]. specialize (Hstuck eq_refl).
    by rewrite Hf1, Hf2 in Hstuck. }
  intros i t Hi. specialize (Hnone i t Hi). specialize (Hstuck i t Hi). destruct Hfree as [Hf1 Hf2].
  unfold gives_way, advance, enter_authority, awaits, finished in *. rewrite Hwrite in Hstuck.
  destruct (phase t) as [ | | | |held [ |l todo] |held|[ |l held] | ]; try done;
    try (by specialize (Hstuck eq_refl)).
  - exfalso. destruct (mode t); specialize (Hstuck eq_refl); [by rewrite Hf1 in Hstuck|by rewrite Hf1, Hf2 in Hstuck].
  - exfalso. specialize (Hstuck eq_refl). by destruct (collect_locks _ _).
Qed.

(** C10: no call waits for ever. In every system that calls can reach, every step uses up work,
    and as long as a call has neither returned nor been refused some call can take a step,
    even where readers let waiting writers go first; and so a run that goes on as long as it
    can ends, with every call returned or refused. *)
Theorem coordinator_live pid s :
  reachable pid s →
  (∀ s', step s s' → work s' < work s)
  ∧ ((∃ i t, s.2 !! i = Some t ∧ finished t = false) → ∃ s', fair_step s s')
  ∧ ∃ s', rtc fair_step s s' ∧ ∀ i t, s'.2 !! i = Some t → finished t = true.
Proof.
  intros Hok%reachable_ok. split; [apply step_work|].
  assert (Hmove : ∀ s, system_ok s →
            (∃ s', fair_step s s') ∨ ∀ i t, s.2 !! i = Some t → finished t = true).
  { intros [k ts] Hs.
    destruct (decide (Exists (λ t, gives_way ts t = false ∧ is_Some (advance k t)) ts)) as [Hex|Hno].
    - left. apply Exists_exists in Hex as (t & Ht & Hg & [[k' t'] Ha]).
      apply list_elem_of_lookup in Ht as [i Hi]. exists (k', <[i := t']> ts). by econstructor.
    - right. apply (stuck_finished k ts Hs). intros i t Hi Hg. apply eq_None_not_Some. intros Hsome.
      apply Hno, Exists_exists. exists t. split; [by eapply list_elem_of_lookup_2|done]. }
  split.
  - intros (i & t & Hi & Hf). destruct (Hmove s Hok) as [?|H]; [done|]. specialize (H i t Hi). congruence.
  - remember (work s) as n eqn:Hn. revert s Hn Hok. induction (lt_wf n) as [n _ IH]. intros s -> Hok.
    destruct (Hmove s Hok) as [[s1 H1]|H]; [|by exists s].
    destruct (IH (work s1)) with s1 as (s' & Hs' & Hfin);
      [by apply step_work, fair_step_step|done|by eapply step_ok; [apply fair_step_step|]|].
    exists s'. split; [by eapply rtc_l|done].
Qed.

(** * A run *)

Definition caller (m : Mode) (l : list Uuid) : Thread :=
  {| mode := m; ids := l; current := 1%N; phase := Called |}.

Definition three_calls : list Thread :=
  [caller Shared [9; 4; 9]%N; caller Shared [4]%N; caller Exclusive []].

(** Each thread in turn takes a step if it can. *)
Fixpoint round (n : nat) (s : System) : System :=
  match n with
  | 0 => s
  | S n =>
      match s.2 !! n with
      | Some t => match advance s.1 t with
                  | Some (k, t') => round n (k, <[n := t']> s.2)
                  | None => round n s
                  end
      | None => round n s
      end
  end.

Lemma round_steps n s : rtc step s (round n s).
Proof.
  revert s. induction n as [|n IH]; intros [k ts]; [done|]. cbn.
  destruct (ts !! n) as [t|] eqn:Ht; [|apply IH]. destruct (advance k t) as [[k' t']|] eqn:Ha; [|apply IH].
  eapply rtc_l; [by econstructor|apply IH].
Qed.

(** The writer went in first; the readers wait. *)
Definition after (n : nat) : System := Nat.iter n (round 3) (MutationCoordinator_default 1, three_calls).

Lemma after_reachable n : reachable 1 (after n).
Proof.
  exists three_calls. split; [by repeat constructor|].
  induction n as [|n IH]; [done|]. etrans; [exact IH|]. apply round_steps.
Qed.

Lemma coordinator_excludes_witness :
  map inside (after 4).2 = [false; false; true]
  ∧ in_authority Shared (caller Shared [4]%N) = false
  ∧ ∀ u, (after 4).2 !! 1 = Some u → ∀ m, in_authority m u = false.
Proof.
  split; [vm_compute; reflexivity|]. split; [reflexivity|]. intros u Hu.
  destruct ((after 4).2 !! 2) as [t|] eqn:Ht; [|vm_compute in Ht; discriminate Ht].
  apply (coordinator_excludes 1 (after 4) 2 1 t u (after_reachable 4) Ht Hu); [discriminate|..];
    vm_compute in Ht; injection Ht as <-; reflexivity.
Defined.

Lemma coordinator_live_witness :
  (∃ s', rtc fair_step (after 2) s' ∧ ∀ i t, s'.2 !! i = Some t → finished t = true)
  ∧ forallb finished (after 2).2 = false.
Proof.
  split; [|vm_compute; reflexivity].
  destruct (coordinator_live 1 (after 2) (after_reachable 2)) as (_ & _ & H). exact H.
Defined.
