(* ===== verification/Forge.v ===== *)
(** Forge: the engine of the forge (jeryu-core, [engine/]): the admission of mutations, the
    evaluation of pull requests on authenticated reviews, and the calls on repositories,
    pull requests, reviews, issues, policies, checks and webhooks.

    A call runs under the write lock of the state, so it is one step. What it asks of the
    world (the clock, fresh uuids, the guards of the writer, the database, the materializer)
    is answered by [ForgeEnv], by the number of questions asked so far; the database is the
    last state saved. Only the database can fail after the checks of a call have passed:
    [commit] then puts the old state back. *)

From Stdlib Require Import Ascii.
From S2P Require Import Prelude Text Clock BranchProtection ForgeState.

Declare Scope forge_scope.
Delimit Scope forge_scope with forge.

#[export] Instance BranchProtectionRule_eq_dec `{C : Chrono} : EqDecision BranchProtectionRule.
Proof. solve_decision. Defined.

(** * The world *)

Class ForgeEnv `{C : Chrono} := {
  now_at : nat → DateTime;
  uuid_at : nat → Uuid;
  process_error : nat → option ForgeError;
  ordinary_error : nat → option ForgeError;
  persist_error : nat → option ForgeError;
  validate_repository : string → string → string → nat → option ForgeError;
  materialize_repository : Repository → nat → option ForgeError;
  (** HMAC-SHA256 of a payload under a secret, in hex, and the JSON text of a payload. *)
  hmac_hex : string → string → string;
  to_vec : Payload → string;
  (** [JERYU_AUDIT_ENFORCE_MERGE]. *)
  audit_env : option string;
  (** An instant and a nanosecond, where chrono can hold it. *)
  next_nanosecond : DateTime → option DateTime;
  (** The order in which a hash map yields these keys. *)
  pull_order : list (string * string * N) → list (string * string * N)
}.

Class ForgeEnvSpec `{E : ForgeEnv} : Prop := {
  pull_order_perm l : pull_order l ≡ₚ l
}.

(** [len() as u32]. *)
Definition as_u32 (n : N) : N := (n mod 4294967296)%N.

Section forge.
Context `{E : ForgeEnv}.

Record Core : Type := { state : State; stored : option State; asked : nat }.

Definition M (A : Type) : Type := Core → result A ForgeError * Core.

Definition ret {A} (x : A) : M A := λ c, (Ok x, c).
Definition throw {A} (e : ForgeError) : M A := λ c, (Err e, c).
Definition bind {A B} (m : M A) (k : A → M B) : M B :=
  λ c, match m c with (Ok x, c') => k x c' | (Err e, c') => (Err e, c') end.
Definition lift {A} (r : result A ForgeError) : M A :=
  match r with Ok x => ret x | Err e => throw e end.
Definition read_state : M State := λ c, (Ok (state c), c).

(** A question to the world. *)
Definition ask {A} (f : nat → A) : M A :=
  λ c, (Ok (f (asked c)), {| state := state c; stored := stored c; asked := S (asked c) |}).

End forge.

Notation "x <<- c ;; k" := (bind c (λ x, k))
  (at level 100, c at next level, right associativity) : forge_scope.
Local Open Scope forge_scope.

Section calls.
Context `{E : ForgeEnv}.

Definition guard (f : nat → option ForgeError) : M unit :=
  e <<- ask f;; match e with None => ret tt | Some e => throw e end.

Definition now : M DateTime := ask now_at.
Definition new_v4 : M Uuid := ask uuid_at.

(** [persist_after_mutation]: the new state is saved, or the old one is put back. *)
Definition commit (s : State) : M unit :=
  λ c, match stored c with
       | None => (Ok tt, {| state := s; stored := None; asked := asked c |})
       | Some _ =>
           match persist_error (asked c) with
           | Some e => (Err e, {| state := state c; stored := stored c; asked := S (asked c) |})
           | None => (Ok tt, {| state := s; stored := Some s; asked := S (asked c) |})
           end
       end.

Definition require_name (field value : string) : result unit ForgeError :=
  if str_is_empty (trim value) then Err (Validation (field +:+ " cannot be empty")) else Ok tt.

(** * Admission (engine/mutation.rs) *)

Definition slug (owner name : string) : string := owner +:+ "/" +:+ name.

Definition repository_by_id (s : State) (id : Uuid) : option Repository :=
  find_first (λ r, (repo_id r =? id)%N) (map_to_list (repos s)).*2.

Definition require_repository_admissible (s : State) (id : Uuid) (writes : bool) :
    result unit ForgeError :=
  match repository_by_id s id with
  | None => Err (NotFound ("repository UUID " +:+ show_N id))
  | Some r =>
      if writes && (archived r || disabled r) then
        Err (Forbidden ("repository " +:+ full_name r +:+ " is archived or disabled"))
      else
        match repository_mutation_blocks s !! id with
        | Some (ReadOnly why _) =>
            if writes
            then Err (Forbidden ("repository " +:+ full_name r +:+ " is read-only: " +:+ why))
            else Ok tt
        | Some (ReconciliationRequired op why) =>
            Err (WriterUnavailable ("repository " +:+ full_name r
                   +:+ " requires reconciliation of " +:+ show_N op +:+ ": " +:+ why))
        | None => Ok tt
        end
  end.

Record RepositoryHint : Type := {
  hint_owner : string; hint_name : string; hint_id : Uuid; hint_writes : bool
}.

(** The first repository is written, the others are read. *)
Fixpoint named_hints (s : State) (writes : bool) (names : list (string * string)) :
    result (list RepositoryHint) ForgeError :=
  match names with
  | [] => Ok []
  | (owner, name) :: names =>
      match repos s !! (owner, name) with
      | None => Err (NotFound ("repository " +:+ slug owner name))
      | Some r =>
          match named_hints s false names with
          | Err e => Err e
          | Ok hints =>
              Ok ({| hint_owner := owner; hint_name := name; hint_id := repo_id r;
                     hint_writes := writes |} :: hints)
          end
      end
  end.

Fixpoint check_hints (s : State) (hints : list RepositoryHint) : result unit ForgeError :=
  match hints with
  | [] => Ok tt
  | h :: hints =>
      match repos s !! (hint_owner h, hint_name h) with
      | Some r =>
          if (repo_id r =? hint_id h)%N then
            match require_repository_admissible s (hint_id h) (hint_writes h) with
            | Err e => Err e
            | Ok _ => check_hints s hints
            end
          else Err (Conflict "repository identity changed before admission")
      | None => Err (Conflict "repository identity changed before admission")
      end
  end.

(** What runs once the locks of the repositories are held. *)
Definition admitted {A} (hints : list RepositoryHint) (operation : M A) : M A :=
  _ <<- guard ordinary_error;;
  s <<- read_state;;
  _ <<- lift (check_hints s hints);;
  operation.

(** The authority flag of the code picks the mode of a lock and is left out. *)
Definition with_named_mutation {A} (names : list (string * string)) (operation : M A) : M A :=
  _ <<- guard process_error;;
  s <<- read_state;;
  hints <<- lift (named_hints s true names);;
  admitted hints operation.

Definition with_repository_mutation {A} (owner repo : string) (operation : M A) : M A :=
  with_named_mutation [(owner, repo)] operation.

Definition with_profile_mutation {A} (owner repo : string) (operation : M A) : M A :=
  _ <<- guard process_error;;
  with_named_mutation [(owner, repo)] operation.

Definition source_names (source : option string) : result (list (string * string)) ForgeError :=
  match source with
  | None => Ok []
  | Some source =>
      let source := trim source in
      if str_is_empty source then Ok []
      else
        match split_once "/"%char source with
        | Some on => Ok [on]
        | None => Err (Validation "source repository must be owner/name")
        end
  end.

Definition with_source_mutation {A} (owner repo : string) (source : option string)
    (operation : M A) : M A :=
  _ <<- guard process_error;;
  names <<- lift (source_names source);;
  with_named_mutation ((owner, repo) :: names) operation.

Definition pull_missing (owner repo : string) (number : N) : ForgeError :=
  NotFound ("pull request " +:+ slug owner repo +:+ "#" +:+ show_N number).

Definition stored_source_names (source : string) : result (list (string * string)) ForgeError :=
  if str_is_empty source then Ok []
  else
    match split_once "/"%char source with
    | Some on => Ok [on]
    | None => Err (Validation "stored source repository must be owner/name")
    end.

Definition with_pull_mutation {A} (owner repo : string) (number : N) (operation : M A) : M A :=
  _ <<- guard process_error;;
  s <<- read_state;;
  match pulls s !! (owner, repo, number) with
  | None => throw (pull_missing owner repo number)
  | Some pr =>
      let source := source_repository pr in
      names <<- lift (stored_source_names source);;
      with_named_mutation ((owner, repo) :: names)
        (s <<- read_state;;
         match pulls s !! (owner, repo, number) with
         | Some pr =>
             if bool_decide (source_repository pr = source) then operation
             else throw (Conflict "pull request source identity changed")
         | None => throw (Conflict "pull request source identity changed")
         end)
  end.

Definition with_global_mutation {A} (operation : M A) : M A :=
  _ <<- guard process_error;;
  _ <<- guard ordinary_error;;
  operation.

Definition is_nil_uuid (id : Uuid) : bool := (id =? nil_uuid)%N.

Definition block_invalid (b : RepositoryMutationBlock) : option ForgeError :=
  match b with
  | ReadOnly why evidence =>
      if str_is_empty (trim why) || str_is_empty (trim evidence)
      then Some (Validation "read-only custody requires reason and evidence") else None
  | ReconciliationRequired op why =>
      if is_nil_uuid op || str_is_empty (trim why)
      then Some (Validation "reconciliation requires operation ID and reason") else None
  end.

Definition block_repository_mutations (id : Uuid) (b : RepositoryMutationBlock) :
    M RepositoryMutationBlock :=
  _ <<- guard process_error;;
  match block_invalid b with
  | Some e => throw e
  | None =>
      _ <<- guard ordinary_error;;
      s <<- read_state;;
      match repository_by_id s id with
      | None => throw (NotFound ("repository UUID " +:+ show_N id))
      | Some _ =>
          match repository_mutation_blocks s !! id with
          | Some existing =>
              if bool_decide (existing = b) then ret existing
              else throw (Conflict "repository mutation restriction is already recorded")
          | None =>
              _ <<- commit (set_repository_mutation_blocks
                              (<[id := b]> (repository_mutation_blocks s)) s);;
              ret b
          end
      end
  end.

(** * Evaluation (engine/mod.rs, engine/actors.rs, engine/bound_reviews.rs) *)

Definition audit_merge_enforced : bool :=
  match audit_env with
  | Some v => bool_decide (trim v ∈ ["1"; "true"; "yes"; "on"])
  | None => false
  end.

Definition invalid_credential : ForgeError :=
  Unauthenticated "credential is absent, expired, revoked or no longer eligible".

Definition unexpired (at_ : DateTime) (expiry : option DateTime) : bool :=
  match expiry with None => true | Some x => dt_ltb at_ x end.

(** The credential behind a binding still exists, for the same login and epoch. *)
Definition live_credential (at_ : DateTime) (s : State) (b : ReviewActorBinding) : bool :=
  match credential_kind b with
  | CK_PersonalAccessToken =>
      match personal_tokens s !! credential_id b with
      | Some t => bool_decide (token_login t = actor_login b)
                  && (token_epoch t =? actor_epoch b)%N && unexpired at_ (token_expires_at t)
      | None => false
      end
  | CK_Session =>
      existsb (λ x, (session_id x =? credential_id b)%N
                    && bool_decide (session_login x = actor_login b)
                    && (session_epoch x =? actor_epoch b)%N
                    && dt_ltb at_ (session_expires_at x))
        (map_to_list (sessions s)).*2
  end.

Definition validate_actor_binding (at_ : DateTime) (s : State) (b : ReviewActorBinding) :
    result ReviewActorBinding ForgeError :=
  match accounts s !! actor_login b with
  | None => Err invalid_credential
  | Some a =>
      if negb (permits_authentication (account_status a)) || must_change_password a
         || negb (auth_epoch a =? actor_epoch b)%N
         || negb (bool_decide (account_created_at a = actor_created_at b))
         || match users s !! actor_login b with
            | Some u => negb (user_id u =? profile_id b)%N
            | None => true
            end
      then Err invalid_credential
      else if live_credential at_ s b then Ok b else Err invalid_credential
  end.

Definition require_access (s : State) (login : string) (r : ReviewGitRepository) (write : bool) :
    result RepoAccessLevel ForgeError :=
  match accounts s !! login with
  | None => Err (Unauthenticated "account disappeared")
  | Some a =>
      let acc :=
        if bool_decide (role a = UR_Admin) then Some RA_Admin
        else
          match repo_grants s !! (login, git_owner r, git_name r) with
          | Some g => Some (access g)
          | None =>
              if negb write && match repos s !! (git_owner r, git_name r) with
                               | Some r => negb (private r) | None => false end
              then Some RA_Read else None
          end in
      match acc with
      | Some l =>
          if (if write then allows_write l else allows_read l) then Ok l
          else Err (Forbidden ("current repository " +:+ (if write then "write" else "read")
                                 +:+ " access is required"))
      | None => Err (Forbidden ("current repository " +:+ (if write then "write" else "read")
                                  +:+ " access is required"))
      end
  end.

(** The current verdict of each reviewer's profile. *)
Definition reduce_event (pr : PullRequest) (latest : gmap Uuid BoundReviewEvent)
    (e : BoundReviewEvent) : gmap Uuid BoundReviewEvent :=
  match review_state (event_review e) with
  | RS_Approved =>
      if eq_ignore_ascii_case (pr_author pr) (actor_login (event_actor e)) then latest
      else <[profile_id (event_actor e) := e]> latest
  | RS_ChangesRequested => <[profile_id (event_actor e) := e]> latest
  | RS_Commented => latest
  | RS_Dismissed =>
      match latest !! profile_id (event_actor e) with
      | Some current =>
          if bool_decide (Some (review_id (event_review current))
                          = dismissed_review_id (event_review e))
          then delete (profile_id (event_actor e)) latest else latest
      | None => latest
      end
  end.

Definition events_at_head (s : State) (pr : PullRequest) : list BoundReviewEvent :=
  isort (λ a b, (sequence a <=? sequence b)%N)
    (filter (λ e, event_pull e = pr_id pr
                  ∧ review_head_sha (event_review e) = Some (sha (head pr)))
       (bound_reviews s)).

(** The values of a [BTreeMap] over uuids. *)
Definition uuid_values {V} (m : gmap Uuid V) : list V :=
  (isort (λ a b, (a.1 <=? b.1)%N) (map_to_list m)).*2.

Definition reduced_bound_events (s : State) (pr : PullRequest) : list BoundReviewEvent :=
  uuid_values (foldl (reduce_event pr) ∅ (events_at_head s pr)).

Definition protection_of (s : State) (pr : PullRequest) : option BranchProtectionRule :=
  branch_protections s !! (pr_owner pr, pr_repo pr, ref_name (base pr)).

Definition codeowners_of (s : State) (pr : PullRequest) : option string :=
  codeowners_ s !! (pr_owner pr, pr_repo pr).

(** A rejection stands; an approval only under the policy and with the rights it was
    given with. *)
Definition event_counts (at_ : DateTime) (s : State) (pr : PullRequest) (e : BoundReviewEvent) :
    bool :=
  bool_decide (review_state (event_review e) = RS_ChangesRequested)
  || (bool_decide (snap_policy (event_snapshot e) = protection_of s pr)
      && bool_decide (snap_codeowners (event_snapshot e) = codeowners_of s pr)
      && is_ok (validate_actor_binding at_ s (event_actor e))
      && is_ok (require_access s (actor_login (event_actor e))
                  (git_destination (snap_target (event_snapshot e))) true)).

Definition bound_reviews_for_evaluation (at_ : DateTime) (s : State) (pr : PullRequest) :
    list Review :=
  map event_review (filter (λ e, event_counts at_ s pr e = true) (reduced_bound_events s pr)).

Definition evaluate_locked (at_ : DateTime) (s : State) (pr : PullRequest)
    (requested_sha : option string) : BranchProtectionEvaluation :=
  evaluate_branch_protection_with pr (protection_of s pr)
    (bound_reviews_for_evaluation at_ s pr) [] [] requested_sha
    {| codeowners := codeowners_of s pr; actor_is_admin := false;
       jankurai_proof_mandatory := audit_merge_enforced |}.

(** The fields of a pull request that the evaluation sets. *)
Definition set_mergeability (pr : PullRequest) (st : PullRequestState) (m : bool)
    (ms : string) : PullRequest :=
  {| pr_id := pr_id pr; pr_owner := pr_owner pr; pr_repo := pr_repo pr; number := number pr;
     issue_number := issue_number pr; title := title pr; pr_body := pr_body pr;
     pr_state := st; draft := draft pr; pr_author := pr_author pr;
     source_repository := source_repository pr; head := head pr; base := base pr;
     mergeable := m; mergeable_state := ms; merged := merged pr; merged_at := merged_at pr;
     merge_commit_sha := merge_commit_sha pr; commits := commits pr;
     changed_files := changed_files pr; pr_created_at := pr_created_at pr;
     pr_updated_at := pr_updated_at pr |}.

Definition apply_evaluation (pr : PullRequest) (e : BranchProtectionEvaluation) : PullRequest :=
  if merged pr || bool_decide (pr_state pr = PRS_Merged) then
    set_mergeability pr (pr_state pr) false "merged"
  else if bool_decide (pr_state pr = PRS_Closed) then
    set_mergeability pr (pr_state pr) false "closed"
  else
    set_mergeability pr
      (if draft pr then PRS_Draft
       else if eval_mergeable e then PRS_Mergeable else PRS_BlockedByChecks)
      (eval_mergeable e) (eval_state e).

Definition reevaluate (at_ : DateTime) (s : State) (pr : PullRequest) : PullRequest :=
  apply_evaluation pr (evaluate_locked at_ s pr None).

Definition put_pull (key : string * string * N) (pr : PullRequest) (s : State) : State :=
  set_pulls (<[key := pr]> (pulls s)) s.

(** The keys of the pull requests of a head, in any order: each is re-evaluated alone. *)
Definition refresh_pull_mergeability_for_sha (at_ : DateTime) (owner repo sha_ : string)
    (s : State) : State :=
  foldl (λ s key, match pulls s !! key with
                  | Some pr => put_pull key (reevaluate at_ s pr) s
                  | None => s
                  end) s
    (filter (λ kp, kp.1.1 = (owner, repo) ∧ sha (head kp.2) = sha_) (map_to_list (pulls s))).*1.

(** * Events (webhooks.rs, engine/mod.rs) *)

Definition sign_webhook_payload (secret bytes : string) : string :=
  "sha256=" +:+ hmac_hex secret bytes.

Definition should_deliver (h : Webhook) (ev : string) : bool :=
  active h && (bool_decide ("*" ∈ events h) || bool_decide (ev ∈ events h)).

Definition event_payload (action_ name : string) (o : EventObject) : Payload :=
  {| action := action_; object_name := name; object := o |}.

Definition hooks_of (s : State) (owner repo : string) : list Webhook :=
  match webhooks s !! (owner, repo) with Some hooks => hooks | None => [] end.

Fixpoint deliveries (hooks : list Webhook) (owner repo ev : string) (p : Payload) :
    M (list WebhookDelivery) :=
  match hooks with
  | [] => ret []
  | h :: hooks =>
      id <<- new_v4;;
      t <<- now;;
      rest <<- deliveries hooks owner repo ev p;;
      ret ({| delivery_id := id; delivery_hook := hook_id h; delivery_owner := owner;
              delivery_repo := repo; event := ev; delivery_url := hook_url (config h);
              payload := p;
              signature_256 := match hook_secret (config h) with
                               | Some secret => Some (sign_webhook_payload secret (to_vec p))
                               | None => None
                               end;
              delivered := false; delivery_created_at := t |} :: rest)
  end.

(** The new state with the deliveries of an event appended. *)
Definition emit_event (owner repo ev : string) (p : Payload) (s : State) : M State :=
  ds <<- deliveries (filter (λ h, should_deliver h ev = true) (hooks_of s owner repo))
           owner repo ev p;;
  ret (set_webhook_deliveries (webhook_deliveries s ++ ds) s).

(** * Accounts and repositories (engine/accounts.rs, engine/repositories.rs,
      engine/repository_creation.rs) *)

Definition create_user_admitted (login : string) (name email : option string) : M User :=
  _ <<- lift (require_name "login" login);;
  s <<- read_state;;
  match users s !! login with
  | Some _ => throw (Conflict ("user " +:+ login))
  | None =>
      id <<- new_v4;;
      t <<- now;;
      let user := {| user_id := id; user_login := login; user_name := name;
                     user_email := email; user_created_at := t |} in
      _ <<- commit (set_users (<[login := user]> (users s)) s);;
      ret user
  end.

Definition create_user (login : string) (name email : option string) : M User :=
  with_global_mutation (create_user_admitted login name email).

Definition ensure_user_admitted (login : string) : M User :=
  s <<- read_state;;
  match users s !! login with
  | Some user => ret user
  | None => create_user_admitted login None None
  end.

Definition ensure_user (login : string) : M User :=
  with_global_mutation (ensure_user_admitted login).

Definition create_organization (login : string) (display : option string) : M Organization :=
  with_global_mutation
    (_ <<- lift (require_name "login" login);;
     s <<- read_state;;
     match organizations s !! login with
     | Some _ => throw (Conflict ("organization " +:+ login))
     | None =>
         id <<- new_v4;;
         t <<- now;;
         let org := {| org_id := id; org_login := login; org_display_name := display;
                       org_created_at := t |} in
         _ <<- commit (set_organizations (<[login := org]> (organizations s)) s);;
         ret org
     end).

(** The lower case of a character outside ASCII is outside ASCII, and becomes hyphens as
    the character itself would, except for two: the Kelvin sign (U+212A) is lower-cased to
    k, and I with a dot above (U+0130) to i and a combining dot (U+0307). *)
Definition to_lowercase (s : string) : string :=
  lowercase
    (replace (String "196" (String "176" "")) (String "i" (String "204" (String "135" "")))
       (replace (String "226" (String "132" (String "170" ""))) "k" s)).

Definition slugify (value : string) : string :=
  join "-" (filter (λ part, part ≠ "")
    (split_on "-"%char
       (string_map (λ c, if is_ascii_alphanumeric c then c else "-"%char)
          (to_lowercase (trim value))))).

Record CreateTeamRequest : Type := {
  ct_name : string; ct_slug : option string; ct_members : list string
}.

Definition create_team (org : string) (r : CreateTeamRequest) : M Team :=
  with_global_mutation
    (_ <<- lift (require_name "team name" (ct_name r));;
     let slug_ := match ct_slug r with Some x => x | None => slugify (ct_name r) end in
     _ <<- lift (require_name "team slug" slug_);;
     s <<- read_state;;
     match organizations s !! org with
     | None => throw (NotFound ("organization " +:+ org))
     | Some _ =>
         match teams s !! (org, slug_) with
         | Some _ => throw (Conflict ("team " +:+ org +:+ "/" +:+ slug_))
         | None =>
             id <<- new_v4;;
             t <<- now;;
             let team := {| team_id := id; team_organization := org; team_slug := slug_;
                            team_name := ct_name r; team_members := ct_members r;
                            team_created_at := t |} in
             _ <<- commit (set_teams (<[(org, slug_) := team]> (teams s)) s);;
             ret team
         end
     end).

Definition get_repository (s : State) (owner repo : string) : result Repository ForgeError :=
  match repos s !! (owner, repo) with
  | Some r => Ok r
  | None => Err (NotFound ("repository " +:+ slug owner repo))
  end.

Definition ensure_repo_exists (owner repo : string) : M unit :=
  s <<- read_state;; _ <<- lift (get_repository s owner repo);; ret tt.

Definition default_branch_protection_rule (owner repo branch : string) (t : DateTime) :
    BranchProtectionRule :=
  {| rule_owner := owner; rule_repo := repo; rule_branch := branch;
     required_status_checks := []; required_approving_review_count := 0;
     enforce_admins := false; required_linear_history := true; allow_force_pushes := false;
     allow_deletions := false; require_signed_commits := false;
     require_jankurai_proof := false; rule_updated_at := t |}.

Definition ensure_default_branch_protection (r : Repository) (t : DateTime) (s : State) : State :=
  let key := (repo_owner r, repo_name r, default_branch r) in
  match branch_protections s !! key with
  | Some _ => s
  | None =>
      set_branch_protections
        (<[key := default_branch_protection_rule (repo_owner r) (repo_name r)
                    (default_branch r) t]> (branch_protections s)) s
  end.

Definition or_main (o : option string) : string :=
  match o with Some b => b | None => "main" end.

Definition new_repository (id : Uuid) (owner : string) (r : CreateRepositoryRequest)
    (t : DateTime) : Repository :=
  {| repo_id := id; repo_owner := owner; repo_name := new_name r;
     full_name := slug owner (new_name r); private := new_private r;
     repo_description := new_description r; default_branch := or_main (new_default_branch r);
     family := None; archived := false; disabled := false; repo_created_at := t;
     repo_updated_at := t |}.

Definition add_repository (id : Uuid) (owner : string) (req : CreateRepositoryRequest)
    (r : Repository) (t : DateTime) (s : State) : State :=
  let key := (owner, new_name req) in
  let s := set_counters (<[key := Counters_default]> (counters s)) s in
  let s := set_repos (<[key := r]> (repos s)) s in
  let s := ensure_default_branch_protection r t s in
  set_repository_creations
    (<[id := {| creation_repository_id := id; creation_owner := owner; creation_request := req;
                materialized := false |}]> (repository_creations s)) s.

Definition mark_materialized (j : RepositoryCreation) : RepositoryCreation :=
  {| creation_repository_id := creation_repository_id j; creation_owner := creation_owner j;
     creation_request := creation_request j; materialized := true |}.

(** The row of a creation: the repository, and whether it is complete already. *)
Definition creation_row (id : Uuid) (owner : string) (req : CreateRepositoryRequest) :
    M (Repository * bool) :=
  s <<- read_state;;
  let key := (owner, new_name req) in
  match repository_creations s !! id with
  | Some j =>
      if negb (bool_decide (creation_owner j = owner) && bool_decide (creation_request j = req))
      then throw (Conflict "creation UUID belongs to another request")
      else
        match repos s !! key with
        | Some r =>
            if (repo_id r =? id)%N then ret (r, materialized j)
            else throw (Conflict "original repository was removed or moved")
        | None => throw (Conflict "original repository was removed or moved")
        end
  | None =>
      if bool_decide (is_Some (repos s !! key)) || bool_decide (is_Some (repository_by_id s id))
      then throw (Conflict ("repository " +:+ slug owner (new_name req)))
      else
        t <<- now;;
        let r := new_repository id owner req t in
        t' <<- now;;
        _ <<- commit (add_repository id owner req r t' s);;
        ret (r, false)
  end.

(** The journal entry is there: the row was just read or written. *)
Definition create_repository_with_id_admitted (id : Uuid) (owner : string)
    (req : CreateRepositoryRequest) : M Repository :=
  _ <<- lift (require_name "repository name" (new_name req));;
  if is_nil_uuid id then throw (Validation "creation UUID must not be nil")
  else
    _ <<- guard (validate_repository owner (new_name req) (or_main (new_default_branch req)));;
    row <<- creation_row id owner req;;
    if row.2 then ret row.1
    else
      _ <<- guard (materialize_repository row.1);;
      s <<- read_state;;
      match repos s !! (owner, new_name req) with
      | Some current =>
          if (repo_id current =? id)%N then
            _ <<- commit (set_repository_creations
                            (alter mark_materialized id (repository_creations s)) s);;
            ret current
          else throw (Conflict "repository changed during creation")
      | None => throw (Conflict "repository changed during creation")
      end.

Definition create_repository_with_id (id : Uuid) (owner : string)
    (req : CreateRepositoryRequest) : M Repository :=
  _ <<- guard process_error;;
  s <<- read_state;;
  match repository_by_id s id with
  | Some _ =>
      _ <<- lift (require_repository_admissible s id true);;
      create_repository_with_id_admitted id owner req
  | None => create_repository_with_id_admitted id owner req
  end.

Definition create_repository (owner : string) (req : CreateRepositoryRequest) : M Repository :=
  id <<- new_v4;; create_repository_with_id id owner req.

Definition set_repo_fields (r : Repository) (priv : bool) (fam : option string) (t : DateTime) :
    Repository :=
  {| repo_id := repo_id r; repo_owner := repo_owner r; repo_name := repo_name r;
     full_name := full_name r; private := priv; repo_description := repo_description r;
     default_branch := default_branch r; family := fam; archived := archived r;
     disabled := disabled r; repo_created_at := repo_created_at r; repo_updated_at := t |}.

Definition set_repository_family_for_identity (owner repo : string) (id : option Uuid)
    (fam : option string) : M Repository :=
  with_repository_mutation owner repo
    (fam <<- (match fam with
              | Some value =>
                  let trimmed := trim value in
                  if str_is_empty trimmed
                  then throw (Validation "family must not be blank; send null to clear it")
                  else ret (Some trimmed)
              | None => ret None
              end);;
     s <<- read_state;;
     match repos s !! (owner, repo) with
     | None => throw (NotFound ("repository " +:+ slug owner repo))
     | Some r =>
         if match id with Some id => negb (repo_id r =? id)%N | None => false end
         then throw (Conflict "repository identity changed during creation")
         else
           t <<- now;;
           let r := set_repo_fields r (private r) fam t in
           _ <<- commit (set_repos (<[(owner, repo) := r]> (repos s)) s);;
           ret r
     end).

(** [updated_at] always advances. *)
Definition set_repository_visibility (owner repo : string) (priv : bool) : M Repository :=
  with_repository_mutation owner repo
    (s <<- read_state;;
     match repos s !! (owner, repo) with
     | None => throw (NotFound ("repository " +:+ slug owner repo))
     | Some r =>
         if Bool.eqb (private r) priv then ret r
         else
           t <<- now;;
           at_ <<- (if dt_ltb (repo_updated_at r) t then ret t
                    else match next_nanosecond (repo_updated_at r) with
                         | Some t => ret t
                         | None => throw (Validation ("repository " +:+ slug owner repo
                                            +:+ " updated_at cannot advance"))
                         end);;
           let r := set_repo_fields r priv (family r) at_ in
           _ <<- commit (set_repos (<[(owner, repo) := r]> (repos s)) s);;
           ret r
     end).

(** * Deletion (engine/repositories.rs) *)

(** [drain_scoped] and [drain_scoped_vecs]: the entries of other repositories stay. *)
Definition other_repo {K} (owner repo : string) (k : string * string * K) : bool :=
  negb (bool_decide (k.1 = (owner, repo))).

Definition undrained {K} `{Countable K} {V} (owner repo : string)
    (m : gmap (string * string * K) V) : gmap (string * string * K) V :=
  filter (λ kv, other_repo owner repo kv.1 = true) m.

Definition drained {K} `{Countable K} {V} (owner repo : string)
    (m : gmap (string * string * K) V) : gmap (string * string * K) V :=
  filter (λ kv, other_repo owner repo kv.1 = false) m.

Definition drain_count {K} `{Countable K} {V} (owner repo : string)
    (m : gmap (string * string * K) V) : N := as_u32 (N.of_nat (size (drained owner repo m))).

Definition drain_elements {K} `{Countable K} {V} (owner repo : string)
    (m : gmap (string * string * K) (list V)) : N :=
  foldr (λ l n, as_u32 (as_u32 (N.of_nat (length l)) + n)) 0%N
    (map_to_list (drained owner repo m)).*2.

Definition bucket_count {V} (o : option (list V)) : N :=
  match o with Some l => as_u32 (N.of_nat (length l)) | None => 0%N end.

Definition entry_count {V} (o : option V) : N := match o with Some _ => 1%N | None => 0%N end.

Definition drop_repository (owner repo : string) (s : State) : State :=
  let key := (owner, repo) in
  let s := set_repos (delete key (repos s)) s in
  let s := set_labels (undrained owner repo (labels s)) s in
  let s := set_issues (undrained owner repo (issues s)) s in
  let s := set_issue_comments (undrained owner repo (issue_comments s)) s in
  let s := set_pulls (undrained owner repo (pulls s)) s in
  let s := set_reviews (undrained owner repo (reviews s)) s in
  let s := set_review_comments (undrained owner repo (review_comments s)) s in
  let s := set_branch_protections (undrained owner repo (branch_protections s)) s in
  let s := set_codeowners (delete key (codeowners_ s)) s in
  let s := set_readmes (delete key (readmes s)) s in
  let s := set_statuses (undrained owner repo (statuses s)) s in
  let s := set_check_runs (delete key (check_runs s)) s in
  let s := set_webhooks (delete key (webhooks s)) s in
  let s := set_webhook_deliveries
             (filter (λ d, ¬ (delivery_owner d = owner ∧ delivery_repo d = repo))
                (webhook_deliveries s)) s in
  let s := set_counters (delete key (counters s)) s in
  let s := set_jankurai_scores (delete key (jankurai_scores s)) s in
  set_repo_grants
    (filter (λ kg, ¬ (kg.1.1.2 = owner ∧ kg.1.2 = repo)) (repo_grants s)) s.

Record RepositoryDeletion : Type := {
  deleted : Repository; removed_counts : list (string * N)
}.

Definition deletion_counts (owner repo : string) (s : State) : list (string * N) :=
  let key := (owner, repo) in
  [("labels", drain_count owner repo (labels s));
   ("issues", drain_count owner repo (issues s));
   ("issue_comments", drain_elements owner repo (issue_comments s));
   ("pulls", drain_count owner repo (pulls s));
   ("reviews", drain_elements owner repo (reviews s));
   ("review_comments", drain_elements owner repo (review_comments s));
   ("branch_protections", drain_count owner repo (branch_protections s));
   ("codeowners", entry_count (codeowners_ s !! key));
   ("readmes", entry_count (readmes s !! key));
   ("commit_statuses", drain_elements owner repo (statuses s));
   ("check_runs", bucket_count (check_runs s !! key));
   ("webhooks", bucket_count (webhooks s !! key));
   ("webhook_deliveries",
    as_u32 (N.of_nat (length (webhook_deliveries s)
                      - length (webhook_deliveries (drop_repository owner repo s)))));
   ("counters", entry_count (counters s !! key));
   ("jankurai_scores", bucket_count (jankurai_scores s !! key));
   ("repo_grants",
    as_u32 (N.of_nat (size (filter (λ kg, kg.1.1.2 = owner ∧ kg.1.2 = repo)
                              (repo_grants s)))))].

Definition delete_repository (owner repo : string) : M RepositoryDeletion :=
  with_repository_mutation owner repo
    (s <<- read_state;;
     match repos s !! (owner, repo) with
     | None => throw (NotFound ("repository " +:+ slug owner repo))
     | Some r =>
         _ <<- commit (drop_repository owner repo s);;
         ret {| deleted := r; removed_counts := deletion_counts owner repo s |}
     end).

(** * Pull requests (engine/pull_requests.rs) *)

Definition counters_of (s : State) (owner repo : string) : Counters :=
  match counters s !! (owner, repo) with Some c => c | None => Counters_default end.

Definition next_issue_number (owner repo : string) (s : State) : N * State :=
  let c := counters_of s owner repo in
  let n := wrapping_add64 (issue_counter c) 1 in
  (n, set_counters (<[(owner, repo) := {| issue_counter := n; pull_counter := pull_counter c |}]>
                      (counters s)) s).

Definition next_pull_number (owner repo : string) (s : State) : N * State :=
  let c := counters_of s owner repo in
  let n := wrapping_add64 (pull_counter c) 1 in
  (n, set_counters (<[(owner, repo) := {| issue_counter := issue_counter c; pull_counter := n |}]>
                      (counters s)) s).

Record CreatePullRequestRequest : Type := {
  cp_title : string; cp_body : option string; cp_head : string; cp_base : string;
  cp_head_sha : option string; cp_base_sha : option string; cp_source : option string;
  cp_draft : bool; cp_commits : list PullRequestCommit; cp_files : list string
}.

Definition normalize_source_repository (owner repo : string) (source : option string) : string :=
  match source with
  | Some value =>
      let value := trim value in if str_is_empty value then slug owner repo else value
  | None => slug owner repo
  end.

Definition pull_issue (id : Uuid) (owner repo author : string) (issue_number_ pull_number_ : N)
    (r : CreatePullRequestRequest) (t : DateTime) : Issue :=
  {| issue_id := id; issue_owner := owner; issue_repo := repo; issue_no := issue_number_;
     issue_title := cp_title r; issue_body := cp_body r; issue_state := IS_Open;
     issue_author := author; issue_labels := []; assignees := []; milestone := None;
     comments := 0;
     pull_request :=
       Some {| marker_url := "/repos/" +:+ slug owner repo +:+ "/pulls/" +:+ show_N pull_number_;
               marker_html_url := "/" +:+ slug owner repo +:+ "/pull/" +:+ show_N pull_number_ |};
     issue_created_at := t; issue_updated_at := t; closed_at := None |}.

Definition new_pull (id : Uuid) (owner repo author : string) (issue_number_ pull_number_ : N)
    (r : CreatePullRequestRequest) (t : DateTime) : PullRequest :=
  {| pr_id := id; pr_owner := owner; pr_repo := repo; number := pull_number_;
     issue_number := issue_number_; title := cp_title r; pr_body := cp_body r;
     pr_state := if cp_draft r then PRS_Draft else PRS_Open; draft := cp_draft r;
     pr_author := author;
     source_repository := normalize_source_repository owner repo (cp_source r);
     head := GitBranchRef_new (cp_head r)
               (match cp_head_sha r with
                | Some h => h | None => "head-" +:+ show_N pull_number_ end);
     base := GitBranchRef_new (cp_base r)
               (match cp_base_sha r with Some b => b | None => "base" end);
     mergeable := false; mergeable_state := "unknown"; merged := false; merged_at := None;
     merge_commit_sha := None; commits := cp_commits r; changed_files := cp_files r;
     pr_created_at := t; pr_updated_at := t |}.

Definition create_pull_request (owner repo author : string) (r : CreatePullRequestRequest) :
    M PullRequest :=
  with_source_mutation owner repo (cp_source r)
    (_ <<- lift (require_name "pull request title" (cp_title r));;
     _ <<- lift (require_name "head" (cp_head r));;
     _ <<- lift (require_name "base" (cp_base r));;
     _ <<- ensure_repo_exists owner repo;;
     _ <<- ensure_user_admitted author;;
     s <<- read_state;;
     let (issue_number_, s1) := next_issue_number owner repo s in
     let (pull_number_, s2) := next_pull_number owner repo s1 in
     t <<- now;;
     issue_id_ <<- new_v4;;
     pull_id_ <<- new_v4;;
     t' <<- now;;
     let pr := reevaluate t' s2
                 (new_pull pull_id_ owner repo author issue_number_ pull_number_ r t) in
     let s3 := set_issues (<[(owner, repo, issue_number_) :=
                 pull_issue issue_id_ owner repo author issue_number_ pull_number_ r t]>
                 (issues s2)) s2 in
     let s4 := put_pull (owner, repo, pull_number_) pr s3 in
     s5 <<- emit_event owner repo "pull_request"
              (event_payload "opened" "pull_request" (O_PullRequest pr)) s4;;
     _ <<- commit s5;;
     ret pr).

Definition or_else {A} (o : option A) (d : A) : A := match o with Some x => x | None => d end.

Definition get_pull_request (t : DateTime) (s : State) (owner repo : string) (n : N) :
    result PullRequest ForgeError :=
  match pulls s !! (owner, repo, n) with
  | Some pr => Ok (reevaluate t s pr)
  | None => Err (pull_missing owner repo n)
  end.

Definition list_pull_requests (t : DateTime) (s : State) (owner repo : string)
    (state_filter : option PullRequestState) : result (list PullRequest) ForgeError :=
  match get_repository s owner repo with
  | Err e => Err e
  | Ok _ =>
      Ok (isort (λ a b, (number a <=? number b)%N)
            (map (reevaluate t s)
               (filter (λ pr, pr_owner pr = owner ∧ pr_repo pr = repo
                              ∧ or_else state_filter (pr_state pr) = pr_state pr)
                  (map_to_list (pulls s)).*2)))
  end.

Record UpdatePullRequestRequest : Type := {
  up_title : option string; up_body : option string; up_state : option PullRequestState;
  up_draft : option bool; up_commits : option (list PullRequestCommit);
  up_files : option (list string)
}.

Definition edit_pull (pr : PullRequest) (r : UpdatePullRequestRequest) (t : DateTime) :
    PullRequest :=
  let state1 := match up_draft r with
                | Some true => PRS_Draft | Some false => PRS_Open | None => pr_state pr end in
  let state2 := or_else (up_state r) state1 in
  let draft2 := match up_state r with
                | Some st => bool_decide (st = PRS_Draft)
                | None => or_else (up_draft r) (draft pr)
                end in
  {| pr_id := pr_id pr; pr_owner := pr_owner pr; pr_repo := pr_repo pr; number := number pr;
     issue_number := issue_number pr; title := or_else (up_title r) (title pr);
     pr_body := match up_body r with Some b => Some b | None => pr_body pr end;
     pr_state := state2; draft := draft2; pr_author := pr_author pr;
     source_repository := source_repository pr; head := head pr; base := base pr;
     mergeable := mergeable pr; mergeable_state := mergeable_state pr; merged := merged pr;
     merged_at := merged_at pr; merge_commit_sha := merge_commit_sha pr;
     commits := or_else (up_commits r) (commits pr);
     changed_files := or_else (up_files r) (changed_files pr);
     pr_created_at := pr_created_at pr; pr_updated_at := t |}.

Definition require_title (r : UpdatePullRequestRequest) : result unit ForgeError :=
  match up_title r with Some v => require_name "pull request title" v | None => Ok tt end.

Definition update_pull_request (owner repo : string) (n : N) (r : UpdatePullRequestRequest) :
    M PullRequest :=
  with_pull_mutation owner repo n
    (s <<- read_state;;
     match pulls s !! (owner, repo, n) with
     | None => throw (pull_missing owner repo n)
     | Some pr =>
         _ <<- lift (require_title r);;
         t <<- now;;
         let edited := edit_pull pr r t in
         let s1 := put_pull (owner, repo, n) edited s in
         t' <<- now;;
         let updated := reevaluate t' s1 edited in
         s2 <<- emit_event owner repo "pull_request"
                  (event_payload "edited" "pull_request" (O_PullRequest updated))
                  (put_pull (owner, repo, n) updated s1);;
         _ <<- commit s2;;
         ret updated
     end).

Definition is_open_pull (pr : PullRequest) : bool :=
  negb (merged pr) && negb (bool_decide (pr_state pr ∈ [PRS_Closed; PRS_Merged])).

Definition set_head_sha (pr : PullRequest) (h : string) (t : DateTime) : PullRequest :=
  {| pr_id := pr_id pr; pr_owner := pr_owner pr; pr_repo := pr_repo pr; number := number pr;
     issue_number := issue_number pr; title := title pr; pr_body := pr_body pr;
     pr_state := pr_state pr; draft := draft pr; pr_author := pr_author pr;
     source_repository := source_repository pr;
     head := {| label := label (head pr); ref_name := ref_name (head pr); sha := h |};
     base := base pr; mergeable := mergeable pr; mergeable_state := mergeable_state pr;
     merged := merged pr; merged_at := merged_at pr; merge_commit_sha := merge_commit_sha pr;
     commits := commits pr; changed_files := changed_files pr;
     pr_created_at := pr_created_at pr; pr_updated_at := t |}.

Definition head_keys (owner repo ref_ : string) (s : State) : list (string * string * N) :=
  pull_order
    (filter (λ kp, pr_owner kp.2 = owner ∧ pr_repo kp.2 = repo ∧ ref_name (head kp.2) = ref_
                   ∧ is_open_pull kp.2 = true) (map_to_list (pulls s))).*1.

Fixpoint refresh_heads (keys : list (string * string * N)) (owner repo h : string)
    (t : DateTime) (s : State) : M (list PullRequest * State) :=
  match keys with
  | [] => ret ([], s)
  | key :: keys =>
      match pulls s !! key with
      | None => refresh_heads keys owner repo h t s
      | Some pr =>
          let pr := set_head_sha pr h t in
          let s := put_pull key pr s in
          t' <<- now;;
          let pr := reevaluate t' s pr in
          s <<- emit_event owner repo "pull_request"
                  (event_payload "synchronize" "pull_request" (O_PullRequest pr))
                  (put_pull key pr s);;
          rest <<- refresh_heads keys owner repo h t s;;
          ret (pr :: rest.1, rest.2)
      end
  end.

Definition refresh_pull_request_heads_for_ref (owner repo ref_ h : string) :
    M (list PullRequest) :=
  with_repository_mutation owner repo
    (_ <<- ensure_repo_exists owner repo;;
     s <<- read_state;;
     t <<- now;;
     match head_keys owner repo ref_ s with
     | [] => ret []
     | keys =>
         updated <<- refresh_heads keys owner repo h t s;;
         _ <<- commit updated.2;;
         ret updated.1
     end).

Definition merge_executor_unavailable : ForgeError :=
  WriterUnavailable
    "authenticated required-check attempts and Core-owned durable merge execution are unavailable; split merge dispatch is retired".

(** [evaluate_merge_readiness], [finalize_merge] and [merge_pull_request] are retired. *)
Definition merge_pull_request (owner repo : string) (n : N) : M unit :=
  with_pull_mutation owner repo n (throw merge_executor_unavailable).

(** * Reviews (engine/reviews.rs) *)

Record CreateReviewRequest : Type := {
  cr_body : option string; cr_event : ReviewState; cr_comments : list ReviewCommentInput;
  cr_expected_head : option string
}.

Record DismissReviewRequest : Type := {
  dr_review : Uuid; dr_expected_head : string; dr_reason : string
}.

Definition is_login_char (c : ascii) : bool :=
  is_ascii_lower c || is_ascii_digit c || Ascii.eqb c "-"%char || Ascii.eqb c "_"%char.

Definition require_login (login : string) : result unit ForgeError :=
  match require_name "login" login with
  | Err e => Err e
  | Ok _ =>
      if negb (bool_decide (trim login = login)) || negb (string_all is_login_char login) then
        Err (Validation "login must be canonical lowercase ASCII using letters, numbers, hyphen, or underscore")
      else Ok tt
  end.

(** The head a review binds to, if the reviewer may give it. *)
Definition review_head (owner repo : string) (n : N) (pr : PullRequest) (author : string)
    (r : CreateReviewRequest) : result string ForgeError :=
  if bool_decide (cr_event r = RS_Approved) && eq_ignore_ascii_case (pr_author pr) author then
    Err (Forbidden "pull request authors cannot approve their own changes")
  else
    if match cr_expected_head r with
       | Some expected => negb (bool_decide (expected = sha (head pr)))
       | None => false
       end
    then Err (Conflict ("pull request " +:+ slug owner repo +:+ "#" +:+ show_N n
                          +:+ " head changed"))
    else Ok (sha (head pr)).

Definition reviews_of (s : State) (key : string * string * N) : list Review :=
  match reviews s !! key with Some l => l | None => [] end.

Definition check_dismissal (s : State) (owner repo : string) (n : N) (author head_ : string)
    (target_id : Uuid) : result unit ForgeError :=
  let rs := reviews_of s (owner, repo, n) in
  match find_first (λ r, (review_id r =? target_id)%N) rs with
  | None => Err (NotFound ("review " +:+ show_N target_id +:+ " in " +:+ slug owner repo +:+ "#"
                             +:+ show_N n))
  | Some target =>
      if negb (bool_decide (review_author target = author)) then
        Err (Forbidden "reviewers may dismiss only their own verdicts")
      else if negb (bool_decide (review_state target ∈ [RS_Approved; RS_ChangesRequested])) then
        Err (Validation "dismissal target must be an explicit review verdict")
      else if negb (bool_decide (review_head_sha target = Some head_))
              || negb (existsb (λ r, (review_id r =? target_id)%N)
                         (effective_reviews_for_head rs head_)) then
        Err (Conflict "dismissal target is not the reviewer's current-head verdict")
      else Ok tt
  end.

Definition add_profile (login : string) (s : State) : M State :=
  match users s !! login with
  | Some _ => ret s
  | None =>
      id <<- new_v4;;
      t <<- now;;
      ret (set_users (<[login := {| user_id := id; user_login := login; user_name := None;
                                    user_email := None; user_created_at := t |}]> (users s)) s)
  end.

Fixpoint review_comment_rows (inputs : list ReviewCommentInput) (review : Uuid)
    (owner repo : string) (n : N) (author : string) : M (list ReviewComment) :=
  match inputs with
  | [] => ret []
  | c :: inputs =>
      id <<- new_v4;;
      t <<- now;;
      rest <<- review_comment_rows inputs review owner repo n author;;
      ret ({| rc_id := id; rc_review := review; rc_owner := owner; rc_repo := repo; rc_pull := n;
              rc_path := input_path c; rc_line := input_line c; rc_author := author;
              rc_body := input_body c; rc_created_at := t |} :: rest)
  end.

Definition comments_of (s : State) (key : string * string * N) : list ReviewComment :=
  match review_comments s !! key with Some l => l | None => [] end.

Definition add_review (key : string * string * N) (r : Review) (cs : list ReviewComment)
    (s : State) : State :=
  let s := set_reviews (<[key := reviews_of s key ++ [r]]> (reviews s)) s in
  set_review_comments (<[key := comments_of s key ++ cs]> (review_comments s)) s.

Definition record_review (owner repo : string) (n : N) (author : string)
    (r : CreateReviewRequest) (dismissed : option Uuid) : M Review :=
  with_profile_mutation owner repo
    (_ <<- lift (require_login author);;
     s <<- read_state;;
     let key := (owner, repo, n) in
     match pulls s !! key with
     | None => throw (pull_missing owner repo n)
     | Some pr =>
         head_ <<- lift (review_head owner repo n pr author r);;
         _ <<- lift (match dismissed with
                     | Some target => check_dismissal s owner repo n author head_ target
                     | None => Ok tt
                     end);;
         s1 <<- add_profile author s;;
         id <<- new_v4;;
         t' <<- now;;
         let review :=
           {| review_id := id; review_owner := owner; review_repo := repo; pull_number := n;
              review_author := author; review_state := cr_event r; review_body := cr_body r;
              review_head_sha := Some head_; dismissed_review_id := dismissed;
              submitted_at := t' |} in
         cs <<- review_comment_rows (cr_comments r) id owner repo n author;;
         t'' <<- now;;
         let s2 := add_review key review cs s1 in
         let s3 := put_pull key (reevaluate t'' s2 pr) s2 in
         s4 <<- emit_event owner repo "pull_request_review"
                  (event_payload "submitted" "review" (O_Review review)) s3;;
         _ <<- commit s4;;
         ret review
     end).

Definition create_review (owner repo : string) (n : N) (author : string)
    (r : CreateReviewRequest) : M Review :=
  if bool_decide (cr_event r = RS_Dismissed) then
    throw (Validation "use dismiss_review with a target review, exact head and reason")
  else record_review owner repo n author r None.

Definition is_lower_hex (c : ascii) : bool :=
  is_ascii_digit c || in_range 97 102 (code c).

Definition dismiss_review (owner repo : string) (n : N) (actor : string)
    (r : DismissReviewRequest) : M Review :=
  if str_is_empty (trim (dr_reason r)) then
    throw (Validation "review dismissal requires a non-empty reason")
  else if negb (String.length (dr_expected_head r) =? 40)
          || negb (string_all is_lower_hex (dr_expected_head r)) then
    throw (Validation "review dismissal requires a full lowercase SHA-1 head")
  else
    record_review owner repo n actor
      {| cr_body := Some (dr_reason r); cr_event := RS_Dismissed; cr_comments := [];
         cr_expected_head := Some (dr_expected_head r) |} (Some (dr_review r)).

(** * Policies (engine/branch_protection.rs, engine/readmes.rs) *)

Record SetBranchProtectionRequest : Type := {
  sp_checks : list string; sp_count : N; sp_admins : bool; sp_linear : bool; sp_force : bool;
  sp_deletions : bool; sp_signed : bool; sp_proof : bool
}.

Definition requested_rule (owner repo branch : string) (r : SetBranchProtectionRequest)
    (t : DateTime) : BranchProtectionRule :=
  {| rule_owner := owner; rule_repo := repo; rule_branch := branch;
     required_status_checks := sp_checks r; required_approving_review_count := sp_count r;
     enforce_admins := sp_admins r; required_linear_history := sp_linear r;
     allow_force_pushes := sp_force r; allow_deletions := sp_deletions r;
     require_signed_commits := sp_signed r; require_jankurai_proof := sp_proof r;
     rule_updated_at := t |}.

Definition set_branch_protection (owner repo branch : string) (r : SetBranchProtectionRequest) :
    M BranchProtectionRule :=
  with_repository_mutation owner repo
    (_ <<- ensure_repo_exists owner repo;;
     _ <<- lift (require_name "branch" branch);;
     t <<- now;;
     let rule := requested_rule owner repo branch r t in
     s <<- read_state;;
     _ <<- commit (set_branch_protections
                     (<[(owner, repo, branch) := rule]> (branch_protections s)) s);;
     ret rule).

Definition get_branch_protection (s : State) (owner repo branch : string) :
    result BranchProtectionRule ForgeError :=
  match branch_protections s !! (owner, repo, branch) with
  | Some rule => Ok rule
  | None => Err (NotFound ("branch protection " +:+ slug owner repo +:+ ":" +:+ branch))
  end.

Definition store_codeowners (owner repo contents : string) : M unit :=
  with_repository_mutation owner repo
    (_ <<- ensure_repo_exists owner repo;;
     s <<- read_state;;
     commit (set_codeowners (<[(owner, repo) := contents]> (codeowners_ s)) s)).

Definition set_repository_readme (owner repo markdown : string) : M string :=
  with_repository_mutation owner repo
    (_ <<- ensure_repo_exists owner repo;;
     s <<- read_state;;
     _ <<- commit (set_readmes (<[(owner, repo) := markdown]> (readmes s)) s);;
     ret markdown).

Definition evaluate_pull_request (t : DateTime) (s : State) (owner repo : string) (n : N)
    (requested : option string) : result BranchProtectionEvaluation ForgeError :=
  match pulls s !! (owner, repo, n) with
  | Some pr => Ok (evaluate_locked t s pr requested)
  | None => Err (pull_missing owner repo n)
  end.

Definition ref_evaluation (s : State) (owner repo branch : string) (op : RefOperation)
    (admin : bool) : result RefOperationEvaluation ForgeError :=
  match get_repository s owner repo with
  | Err e => Err e
  | Ok _ =>
      Ok (evaluate_ref_operation op (branch_protections s !! (owner, repo, branch))
            {| codeowners := None; actor_is_admin := admin; jankurai_proof_mandatory := false |})
  end.

Definition blocker_debug (b : RefOperationBlocker) : string :=
  match b with
  | ForcePushNotAllowed => "ForcePushNotAllowed" | DeletionNotAllowed => "DeletionNotAllowed"
  end.

Definition ref_operation (owner repo branch : string) (op : RefOperation) (admin : bool) :
    M unit :=
  with_repository_mutation owner repo
    (s <<- read_state;;
     e <<- lift (ref_evaluation s owner repo branch op admin);;
     if allowed e then ret tt
     else throw (BranchProtected ("[" +:+ join ", " (map blocker_debug (ref_blockers e)) +:+ "]"))).

Definition force_push (owner repo branch : string) (admin : bool) : M unit :=
  ref_operation owner repo branch ForcePush admin.

Definition delete_ref (owner repo branch : string) (admin : bool) : M unit :=
  ref_operation owner repo branch Delete admin.

(** * Issues and labels (engine/issues.rs, engine/repositories.rs) *)

Record CreateIssueRequest : Type := {
  ci_title : string; ci_body : option string; ci_labels : list string;
  ci_assignees : list string; ci_milestone : option string
}.

Definition new_issue (id : Uuid) (owner repo author : string) (n : N) (r : CreateIssueRequest)
    (t : DateTime) : Issue :=
  {| issue_id := id; issue_owner := owner; issue_repo := repo; issue_no := n;
     issue_title := ci_title r; issue_body := ci_body r; issue_state := IS_Open;
     issue_author := author; issue_labels := ci_labels r; assignees := ci_assignees r;
     milestone := ci_milestone r; comments := 0; pull_request := None;
     issue_created_at := t; issue_updated_at := t; closed_at := None |}.

Definition create_issue (owner repo author : string) (r : CreateIssueRequest) : M Issue :=
  with_profile_mutation owner repo
    (_ <<- lift (require_name "issue title" (ci_title r));;
     _ <<- ensure_repo_exists owner repo;;
     _ <<- ensure_user_admitted author;;
     s <<- read_state;;
     let (n, s1) := next_issue_number owner repo s in
     t <<- now;;
     id <<- new_v4;;
     let issue := new_issue id owner repo author n r t in
     s2 <<- emit_event owner repo "issues" (event_payload "opened" "issue" (O_Issue issue))
              (set_issues (<[(owner, repo, n) := issue]> (issues s1)) s1);;
     _ <<- commit s2;;
     ret issue).

Definition list_issues (s : State) (owner repo : string) (state_filter : option IssueState) :
    result (list Issue) ForgeError :=
  match get_repository s owner repo with
  | Err e => Err e
  | Ok _ =>
      Ok (isort (λ a b, (issue_no a <=? issue_no b)%N)
            (filter (λ i, issue_owner i = owner ∧ issue_repo i = repo
                          ∧ or_else state_filter (issue_state i) = issue_state i)
               (map_to_list (issues s)).*2))
  end.

Definition issue_missing (owner repo : string) (n : N) : ForgeError :=
  NotFound ("issue " +:+ slug owner repo +:+ "#" +:+ show_N n).

Record UpdateIssueRequest : Type := {
  ui_title : option string; ui_body : option string; ui_state : option IssueState;
  ui_labels : option (list string); ui_assignees : option (list string);
  ui_milestone : option string
}.

Definition some_or {A} (o d : option A) : option A :=
  match o with Some x => Some x | None => d end.

(** [close]: the instant of closing, when the request closes the issue. *)
Definition edit_issue (i : Issue) (r : UpdateIssueRequest) (close t : DateTime) : Issue :=
  {| issue_id := issue_id i; issue_owner := issue_owner i; issue_repo := issue_repo i;
     issue_no := issue_no i; issue_title := or_else (ui_title r) (issue_title i);
     issue_body := some_or (ui_body r) (issue_body i);
     issue_state := or_else (ui_state r) (issue_state i); issue_author := issue_author i;
     issue_labels := or_else (ui_labels r) (issue_labels i);
     assignees := or_else (ui_assignees r) (assignees i);
     milestone := some_or (ui_milestone r) (milestone i); comments := comments i;
     pull_request := pull_request i; issue_created_at := issue_created_at i;
     issue_updated_at := t;
     closed_at := match ui_state r with
                  | Some IS_Closed => Some close | Some IS_Open => None
                  | None => closed_at i
                  end |}.

Definition issue_action (r : UpdateIssueRequest) : string :=
  match ui_state r with
  | Some IS_Open => "reopened" | Some IS_Closed => "closed" | None => "edited"
  end.

Definition require_issue_title (r : UpdateIssueRequest) : result unit ForgeError :=
  match ui_title r with Some v => require_name "issue title" v | None => Ok tt end.

Definition update_issue (owner repo : string) (n : N) (r : UpdateIssueRequest) : M Issue :=
  with_repository_mutation owner repo
    (s <<- read_state;;
     match issues s !! (owner, repo, n) with
     | None => throw (issue_missing owner repo n)
     | Some i =>
         _ <<- lift (require_issue_title r);;
         close <<- (match ui_state r with Some IS_Closed => now | _ => ret (issue_created_at i) end);;
         t <<- now;;
         let updated := edit_issue i r close t in
         s1 <<- emit_event owner repo "issues"
                  (event_payload (issue_action r) "issue" (O_Issue updated))
                  (set_issues (<[(owner, repo, n) := updated]> (issues s)) s);;
         _ <<- commit s1;;
         ret updated
     end).

Definition count_comment (i : Issue) (t : DateTime) : Issue :=
  {| issue_id := issue_id i; issue_owner := issue_owner i; issue_repo := issue_repo i;
     issue_no := issue_no i; issue_title := issue_title i; issue_body := issue_body i;
     issue_state := issue_state i; issue_author := issue_author i;
     issue_labels := issue_labels i; assignees := assignees i; milestone := milestone i;
     comments := wrapping_add64 (comments i) 1; pull_request := pull_request i;
     issue_created_at := issue_created_at i; issue_updated_at := t; closed_at := closed_at i |}.

Definition issue_comments_of (s : State) (key : string * string * N) : list IssueComment :=
  match issue_comments s !! key with Some l => l | None => [] end.

Definition add_issue_comment (owner repo : string) (n : N) (author body : string) :
    M IssueComment :=
  with_profile_mutation owner repo
    (_ <<- lift (require_name "comment body" body);;
     _ <<- ensure_user_admitted author;;
     s <<- read_state;;
     let key := (owner, repo, n) in
     match issues s !! key with
     | None => throw (issue_missing owner repo n)
     | Some i =>
         t <<- now;;
         id <<- new_v4;;
         t' <<- now;;
         t'' <<- now;;
         let c := {| comment_id := id; comment_owner := owner; comment_repo := repo;
                     comment_issue := n; comment_author := author; comment_body := body;
                     comment_created_at := t'; comment_updated_at := t'' |} in
         let s1 := set_issues (<[key := count_comment i t]> (issues s)) s in
         let s2 := set_issue_comments
                     (<[key := issue_comments_of s1 key ++ [c]]> (issue_comments s1)) s1 in
         s3 <<- emit_event owner repo "issue_comment"
                  (event_payload "created" "comment" (O_IssueComment c)) s2;;
         _ <<- commit s3;;
         ret c
     end).

Definition create_label (owner repo name color_ : string) (desc : option string) : M Label :=
  with_repository_mutation owner repo
    (_ <<- lift (require_name "label name" name);;
     _ <<- ensure_repo_exists owner repo;;
     s <<- read_state;;
     match labels s !! (owner, repo, name) with
     | Some _ => throw (Conflict ("label " +:+ slug owner repo +:+ "/" +:+ name))
     | None =>
         id <<- new_v4;;
         let l := {| label_id := id; label_name := name; color := color_;
                     label_description := desc |} in
         _ <<- commit (set_labels (<[(owner, repo, name) := l]> (labels s)) s);;
         ret l
     end).

(** * Statuses, checks, webhooks and scores (engine/commit_status.rs, engine/check_runs.rs,
      engine/webhooks.rs, engine/jankurai.rs) *)

Definition statuses_of (s : State) (owner repo sha_ : string) : list CommitStatus :=
  match statuses s !! (owner, repo, sha_) with Some l => l | None => [] end.

Definition create_commit_status (owner repo sha_ creator_ : string) (st : CommitStatusState)
    (context_ : string) (desc target : option string) : M CommitStatus :=
  with_profile_mutation owner repo
    (_ <<- lift (require_name "sha" sha_);;
     _ <<- ensure_repo_exists owner repo;;
     _ <<- ensure_user_admitted creator_;;
     t <<- now;;
     id <<- new_v4;;
     let c := {| status_id := id; status_owner := owner; status_repo := repo;
                 status_sha := sha_; status_state := st; status_context := context_;
                 description := desc; target_url := target; creator := creator_;
                 status_created_at := t; status_updated_at := t |} in
     s <<- read_state;;
     t' <<- now;;
     let s1 := set_statuses
                 (<[(owner, repo, sha_) := statuses_of s owner repo sha_ ++ [c]]> (statuses s)) s in
     s2 <<- emit_event owner repo "status" (event_payload "created" "status" (O_CommitStatus c))
              (refresh_pull_mergeability_for_sha t' owner repo sha_ s1);;
     _ <<- commit s2;;
     ret c).

Definition in_status (st : CommitStatusState) (l : list CommitStatus) : bool :=
  existsb (λ c, bool_decide (status_state c = st)) l.

Definition combined_state (l : list CommitStatus) : CommitStatusState :=
  if in_status CSS_Error l then CSS_Error
  else if in_status CSS_Failure l then CSS_Failure
  else if is_nil l || in_status CSS_Pending l then CSS_Pending
  else CSS_Success.

Definition runs_of (s : State) (owner repo : string) : list CheckRun :=
  match check_runs s !! (owner, repo) with Some l => l | None => [] end.

Record CreateCheckRunRequest : Type := {
  cc_name : string; cc_head : string; cc_status : option CheckRunStatus;
  cc_conclusion : option CheckConclusion; cc_details : option string;
  cc_output : option CheckRunOutput
}.

Definition check_completed (r : CreateCheckRunRequest) : bool :=
  bool_decide (cc_status r = Some CRS_Completed) || bool_decide (is_Some (cc_conclusion r)).

Definition create_check_run (owner repo : string) (r : CreateCheckRunRequest) : M CheckRun :=
  with_repository_mutation owner repo
    (_ <<- lift (require_name "check run name" (cc_name r));;
     _ <<- lift (require_name "head sha" (cc_head r));;
     _ <<- ensure_repo_exists owner repo;;
     id <<- new_v4;;
     t <<- now;;
     finished <<- (if check_completed r then t <<- now;; ret (Some t) else ret None);;
     let run :=
       {| run_id := id; run_owner := owner; run_repo := repo; run_name := cc_name r;
          run_head_sha := cc_head r;
          run_status := or_else (cc_status r)
                          (if check_completed r then CRS_Completed else CRS_Queued);
          run_conclusion := cc_conclusion r; details_url := cc_details r;
          output := cc_output r; started_at := t; completed_at := finished |} in
     s <<- read_state;;
     t' <<- now;;
     let s1 := set_check_runs
                 (<[(owner, repo) := runs_of s owner repo ++ [run]]> (check_runs s)) s in
     s2 <<- emit_event owner repo "check_run" (event_payload "created" "check_run" (O_CheckRun run))
              (refresh_pull_mergeability_for_sha t' owner repo (cc_head r) s1);;
     _ <<- commit s2;;
     ret run).

Record CreateWebhookRequest : Type := {
  cw_name : string; cw_active : bool; cw_events : list string; cw_config : WebhookConfig
}.

Definition create_webhook (owner repo : string) (r : CreateWebhookRequest) : M Webhook :=
  with_repository_mutation owner repo
    (_ <<- ensure_repo_exists owner repo;;
     _ <<- lift (require_name "webhook url" (hook_url (cw_config r)));;
     t <<- now;;
     id <<- new_v4;;
     let h := {| hook_id := id; hook_owner := owner; hook_repo := repo; hook_name := cw_name r;
                 active := cw_active r; events := cw_events r; config := cw_config r;
                 hook_created_at := t; hook_updated_at := t |} in
     s <<- read_state;;
     _ <<- commit (set_webhooks (<[(owner, repo) := hooks_of s owner repo ++ [h]]> (webhooks s)) s);;
     ret h).

Record RecordJankuraiScoreRequest : Type := {
  rs_branch : string; rs_commit : string; rs_score : option N; rs_findings : option N;
  rs_decision : string; rs_caps : list string; rs_report : option string;
  rs_tool_exit : option Z
}.

Definition show_i64 (z : Z) : string :=
  if (z <? 0)%Z then "-" +:+ show_N (Z.to_N (- z)) else show_N (Z.to_N z).

(** [rs_report]: the JSON text of the report. *)
Definition score_report (r : RecordJankuraiScoreRequest) : option string :=
  match rs_report r, rs_tool_exit r with
  | Some report, _ => Some report
  | None, Some exit => Some ("{" +:+ String "034"%char "tool_exit" +:+ String "034"%char ":" +:+ show_i64 exit +:+ "}")
  | None, None => None
  end.

Definition MAX_SCORES_PER_BRANCH : nat := 200.

Definition scores_of (s : State) (owner repo : string) : list JankuraiScore :=
  match jankurai_scores s !! (owner, repo) with Some l => l | None => [] end.

Definition on_branch (branch : string) (l : list JankuraiScore) : list JankuraiScore :=
  filter (λ x, score_branch x = branch) l.

(** [min_by_key] of the creation time over the branch, the first of equals, taken out. *)
Definition remove_oldest (branch : string) (l : list JankuraiScore) : list JankuraiScore :=
  match find_first
          (λ ix, bool_decide (score_branch ix.2 = branch)
                 && forallb (λ y, dt_leb (score_created_at ix.2) (score_created_at y))
                      (on_branch branch l))
          (zip (seq 0 (length l)) l) with
  | Some (i, _) => delete i l
  | None => l
  end.

(** The trimming loop: one entry goes at a time, so its length is fuel enough. *)
Fixpoint trim_scores (fuel : nat) (branch : string) (l : list JankuraiScore) :
    list JankuraiScore :=
  match fuel with
  | O => l
  | S fuel =>
      if MAX_SCORES_PER_BRANCH <? length (on_branch branch l)
      then trim_scores fuel branch (remove_oldest branch l) else l
  end.

Definition add_score (x : JankuraiScore) (l : list JankuraiScore) : list JankuraiScore :=
  let l := filter (λ y, ¬ (score_branch y = score_branch x ∧ score_commit y = score_commit x)) l
           ++ [x] in
  trim_scores (length l) (score_branch x) l.

Definition record_jankurai_score (owner repo : string) (r : RecordJankuraiScoreRequest) :
    M JankuraiScore :=
  with_repository_mutation owner repo
    (_ <<- lift (require_name "branch" (rs_branch r));;
     _ <<- lift (require_name "commit sha" (rs_commit r));;
     _ <<- lift (require_name "decision" (rs_decision r));;
     _ <<- lift (match rs_score r with
                 | Some v => if (100 <? v)%N
                             then Err (Validation ("score must be 0-100, got " +:+ show_N v))
                             else Ok tt
                 | None => Ok tt
                 end);;
     _ <<- ensure_repo_exists owner repo;;
     id <<- new_v4;;
     t <<- now;;
     let x := {| score_id := id; score_owner := owner; score_repo := repo;
                 score_branch := trim (rs_branch r); score_commit := trim (rs_commit r);
                 score := rs_score r; hard_findings := or_else (rs_findings r) 0%N;
                 decision := trim (rs_decision r); caps_applied := rs_caps r;
                 report_json := score_report r; score_created_at := t |} in
     s <<- read_state;;
     _ <<- commit (set_jankurai_scores
                     (<[(owner, repo) := add_score x (scores_of s owner repo)]>
                        (jankurai_scores s)) s);;
     ret x).

Definition matches {A} `{EqDecision A} (o : option A) (x : A) : bool :=
  match o with Some y => bool_decide (x = y) | None => true end.

Definition list_jankurai_scores (s : State) (owner repo : string) (branch commit : option string) :
    result (list JankuraiScore) ForgeError :=
  match get_repository s owner repo with
  | Err e => Err e
  | Ok _ =>
      Ok (isort (λ a b, dt_leb (score_created_at b) (score_created_at a))
            (filter (λ x, matches branch (score_branch x) && matches commit (score_commit x) = true)
               (scores_of s owner repo)))
  end.

(** [max_by_key]: the last of the newest. *)
Definition latest_jankurai_score (s : State) (owner repo branch : string) : option JankuraiScore :=
  foldl (λ best x, match best with
                   | Some y => if dt_leb (score_created_at y) (score_created_at x)
                               then Some x else best
                   | None => Some x
                   end) None (on_branch branch (scores_of s owner repo)).

End calls.

(** The Kelvin sign in the middle of a name is its letter k. *)
Example slugify_samples :
  slugify " Core  Team! " = "core-team"
  ∧ slugify ("Ice" +:+ String "226" (String "132" (String "170" "")) +:+ "Øen") = "icek-en".
Proof. vm_compute. split; reflexivity. Qed.
