(* ===== verification/Transfers.v ===== *)
(** Transfers: moving a repository to another owner (engine/repository_transfer.rs,
    engine/repository_transfer_state.rs, the admission of engine/mutation.rs): a journal entry
    is prepared, the storage is moved outside, and the entry is committed, which moves every
    row, or marked failed. *)

From Stdlib Require Import Ascii.
From S2P Require Import Prelude Text Clock BranchProtection ForgeState Forge.
Local Open Scope forge_scope.

(** * Moving the rows of a repository (engine/repository_transfer_state.rs) *)

Definition rekey_pairs {V} (m : gmap (string * string) V) (old new : string * string)
    (update : V → V) : gmap (string * string) V :=
  match m !! old with
  | Some v => <[new := update v]> (delete old m)
  | None => m
  end.

(** One key after the other: its row is taken out, updated and put under the new key. *)
Definition rekey_one {K} `{Countable K} {V} (to : K → K) (update : V → V) (m : gmap K V) (key : K) :
    gmap K V :=
  match m !! key with
  | Some v => <[to key := update v]> (delete key m)
  | None => m
  end.

Definition rekey_triples {K} `{Countable K} {V} (m : gmap ((string * string) * K) V)
    (old new : string * string) (update : V → V) : gmap ((string * string) * K) V :=
  foldl (rekey_one (λ key, (new, key.2)) update) m
    (filter (λ key, key.1 = old) (map_to_list m).*1).

Section transfers.
Context `{E : ForgeEnv}.

Implicit Types new : string * string.

Definition move_issue new (i : Issue) : Issue :=
  {| issue_id := issue_id i; issue_owner := new.1; issue_repo := new.2; issue_no := issue_no i;
     issue_title := issue_title i; issue_body := issue_body i; issue_state := issue_state i;
     issue_author := issue_author i; issue_labels := issue_labels i; assignees := assignees i;
     milestone := milestone i; comments := comments i; pull_request := pull_request i;
     issue_created_at := issue_created_at i; issue_updated_at := issue_updated_at i;
     closed_at := closed_at i |}.

Definition move_comment new (c : IssueComment) : IssueComment :=
  {| comment_id := comment_id c; comment_owner := new.1; comment_repo := new.2;
     comment_issue := comment_issue c; comment_author := comment_author c;
     comment_body := comment_body c; comment_created_at := comment_created_at c;
     comment_updated_at := comment_updated_at c |}.

(** A pull request from the repository itself follows it; one from a fork keeps its source. *)
Definition move_pull (old new : string * string) (p : PullRequest) : PullRequest :=
  {| pr_id := pr_id p; pr_owner := new.1; pr_repo := new.2; number := number p;
     issue_number := issue_number p; title := title p; pr_body := pr_body p;
     pr_state := pr_state p; draft := draft p; pr_author := pr_author p;
     source_repository := if String.eqb (source_repository p) (slug old.1 old.2)
                          then slug new.1 new.2 else source_repository p;
     head := head p; base := base p; mergeable := mergeable p;
     mergeable_state := mergeable_state p; merged := merged p; merged_at := merged_at p;
     merge_commit_sha := merge_commit_sha p; commits := commits p;
     changed_files := changed_files p; pr_created_at := pr_created_at p;
     pr_updated_at := pr_updated_at p |}.

Definition move_review new (r : Review) : Review :=
  {| review_id := review_id r; review_owner := new.1; review_repo := new.2;
     pull_number := pull_number r; review_author := review_author r;
     review_state := review_state r; review_body := review_body r;
     review_head_sha := review_head_sha r; dismissed_review_id := dismissed_review_id r;
     submitted_at := submitted_at r |}.

Definition move_review_comment new (c : ReviewComment) : ReviewComment :=
  {| rc_id := rc_id c; rc_review := rc_review c; rc_owner := new.1; rc_repo := new.2;
     rc_pull := rc_pull c; rc_path := rc_path c; rc_line := rc_line c; rc_author := rc_author c;
     rc_body := rc_body c; rc_created_at := rc_created_at c |}.

Definition move_rule new (r : BranchProtectionRule) : BranchProtectionRule :=
  {| rule_owner := new.1; rule_repo := new.2; rule_branch := rule_branch r;
     required_status_checks := required_status_checks r;
     required_approving_review_count := required_approving_review_count r;
     enforce_admins := enforce_admins r; required_linear_history := required_linear_history r;
     allow_force_pushes := allow_force_pushes r; allow_deletions := allow_deletions r;
     require_signed_commits := require_signed_commits r;
     require_jankurai_proof := require_jankurai_proof r; rule_updated_at := rule_updated_at r |}.

Definition move_status new (c : CommitStatus) : CommitStatus :=
  {| status_id := status_id c; status_owner := new.1; status_repo := new.2;
     status_sha := status_sha c; status_state := status_state c;
     status_context := status_context c; description := description c;
     target_url := target_url c; creator := creator c; status_created_at := status_created_at c;
     status_updated_at := status_updated_at c |}.

Definition move_run new (r : CheckRun) : CheckRun :=
  {| run_id := run_id r; run_owner := new.1; run_repo := new.2; run_name := run_name r;
     run_head_sha := run_head_sha r; run_status := run_status r;
     run_conclusion := run_conclusion r; details_url := details_url r; output := output r;
     started_at := started_at r; completed_at := completed_at r |}.

Definition move_hook new (h : Webhook) : Webhook :=
  {| hook_id := hook_id h; hook_owner := new.1; hook_repo := new.2; hook_name := hook_name h;
     active := active h; events := events h; config := config h;
     hook_created_at := hook_created_at h; hook_updated_at := hook_updated_at h |}.

Definition move_score new (x : JankuraiScore) : JankuraiScore :=
  {| score_id := score_id x; score_owner := new.1; score_repo := new.2;
     score_branch := score_branch x; score_commit := score_commit x; score := score x;
     hard_findings := hard_findings x; decision := decision x; caps_applied := caps_applied x;
     report_json := report_json x; score_created_at := score_created_at x |}.

Definition move_grant new (g : RepoAccessGrant) : RepoAccessGrant :=
  {| grant_login := grant_login g; grant_owner := new.1; grant_repo := new.2;
     access := access g; granted_by := granted_by g; granted_at := granted_at g |}.

Definition move_delivery (old new : string * string) (d : WebhookDelivery) : WebhookDelivery :=
  if String.eqb (delivery_owner d) old.1 && String.eqb (delivery_repo d) old.2 then
    {| delivery_id := delivery_id d; delivery_hook := delivery_hook d; delivery_owner := new.1;
       delivery_repo := new.2; event := event d; delivery_url := delivery_url d;
       payload := payload d; signature_256 := signature_256 d; delivered := delivered d;
       delivery_created_at := delivery_created_at d |}
  else d.

Definition move_repo new (t : DateTime) (r : Repository) : Repository :=
  {| repo_id := repo_id r; repo_owner := new.1; repo_name := new.2;
     full_name := slug new.1 new.2; private := private r; repo_description := repo_description r;
     default_branch := default_branch r; family := family r; archived := archived r;
     disabled := disabled r; repo_created_at := repo_created_at r; repo_updated_at := t |}.

(** [rekey_grants]: the grants are keyed by login first. *)
Definition rekey_grants (old new : string * string)
    (m : gmap (string * string * string) RepoAccessGrant) :
    gmap (string * string * string) RepoAccessGrant :=
  foldl (rekey_one (λ key, (key.1.1, new.1, new.2)) (move_grant new)) m
    (filter (λ key, (key.1.2, key.2) = old) (map_to_list m).*1).

Definition moved_from (j : RepositoryTransferJournal) : string * string :=
  (source_owner j, source_name j).
Definition moved_to (j : RepositoryTransferJournal) : string * string :=
  (destination_owner j, destination_name j).

(** The refusals of [rekey_repository], which leave nothing behind, and the repository. *)
Definition rekey_source (s : State) (j : RepositoryTransferJournal) : result Repository ForgeError :=
  if bool_decide (is_Some (repos s !! moved_to j))
     || bool_decide (is_Some (repository_aliases s !! moved_to j))
  then Err (Conflict ("destination repository " +:+ slug (destination_owner j) (destination_name j)))
  else
    match repos s !! moved_from j with
    | None => Err (NotFound ("repository " +:+ slug (source_owner j) (source_name j)))
    | Some r =>
        if (repo_id r =? transfer_repository j)%N then Ok r
        else Err (Validation ("repository UUID drift for " +:+ slug (source_owner j) (source_name j)))
    end.

Definition rekey_repository (t : DateTime) (r : Repository) (old new : string * string) (s : State) :
    State :=
  let s := set_repos (<[new := move_repo new t r]> (delete old (repos s))) s in
  let s := set_labels (rekey_triples (labels s) old new id) s in
  let s := set_issues (rekey_triples (issues s) old new (move_issue new)) s in
  let s := set_issue_comments (rekey_triples (issue_comments s) old new (map (move_comment new))) s in
  let s := set_pulls (rekey_triples (pulls s) old new (move_pull old new)) s in
  let s := set_reviews (rekey_triples (reviews s) old new (map (move_review new))) s in
  let s := set_review_comments
             (rekey_triples (review_comments s) old new (map (move_review_comment new))) s in
  let s := set_branch_protections
             (rekey_triples (branch_protections s) old new (move_rule new)) s in
  let s := set_codeowners (rekey_pairs (codeowners_ s) old new id) s in
  let s := set_readmes (rekey_pairs (readmes s) old new id) s in
  let s := set_statuses (rekey_triples (statuses s) old new (map (move_status new))) s in
  let s := set_check_runs (rekey_pairs (check_runs s) old new (map (move_run new))) s in
  let s := set_webhooks (rekey_pairs (webhooks s) old new (map (move_hook new))) s in
  let s := set_counters (rekey_pairs (counters s) old new id) s in
  let s := set_jankurai_scores (rekey_pairs (jankurai_scores s) old new (map (move_score new))) s in
  let s := set_repo_grants (rekey_grants old new (repo_grants s)) s in
  set_webhook_deliveries (map (move_delivery old new) (webhook_deliveries s)) s.

(** * The journal (engine/repository_transfer.rs) *)

Record PrepareRepositoryTransfer : Type := {
  prepare_repository : Uuid; expected_source_owner : string; expected_source_name : string;
  prepare_destination : string; prepare_fingerprint : string; prepare_key : string
}.

Definition get_repository_by_id (s : State) (id : Uuid) : result Repository ForgeError :=
  match repository_by_id s id with
  | Some r => Ok r
  | None => Err (NotFound ("repository UUID " +:+ show_N id))
  end.

Definition get_repository_transfer (s : State) (key : string) : option RepositoryTransferJournal :=
  repository_transfers s !! key.

Definition get_repository_alias (s : State) (owner name : string) : option RepositoryAlias :=
  repository_aliases s !! (owner, name).

Definition transfer_missing (id : Uuid) : ForgeError :=
  NotFound ("repository transfer " +:+ show_N id).

(** The entry of a transaction; of several a hash map may yield any. *)
Definition transfer_of_id (s : State) (id : Uuid) : option (string * RepositoryTransferJournal) :=
  find_first (λ x, (transaction_id x.2 =? id)%N) (map_to_list (repository_transfers s)).

Definition transfer_key_for_id (s : State) (id : Uuid) : result string ForgeError :=
  match transfer_of_id s id with
  | Some (key, _) => Ok key
  | None => Err (transfer_missing id)
  end.

Definition with_repository_id_mutation {A} (id : Uuid) (operation : M A) : M A :=
  _ <<- guard process_error;;
  _ <<- guard ordinary_error;;
  s <<- read_state;;
  _ <<- lift (require_repository_admissible s id true);;
  operation.

Definition with_transfer_prepare_mutation {A} (id : Uuid) (key fingerprint : string)
    (operation : M A) : M A :=
  _ <<- guard process_error;;
  _ <<- guard ordinary_error;;
  s <<- read_state;;
  if match repository_transfers s !! key with
     | Some j => negb (transfer_repository j =? id)%N
                 || negb (String.eqb (request_fingerprint j) fingerprint)
     | None => false
     end
  then throw (Conflict ("idempotency key " +:+ key +:+ " is already bound to another transfer"))
  else
    _ <<- lift (require_repository_admissible s id true);;
    operation.

Definition with_transfer_mutation {A} (id : Uuid) (operation : M A) : M A :=
  _ <<- guard process_error;;
  s <<- read_state;;
  match transfer_of_id s id with
  | None => throw (transfer_missing id)
  | Some (_, j) =>
      with_repository_id_mutation (transfer_repository j)
        (s <<- read_state;;
         if existsb (λ x, (transaction_id x =? id)%N
                          && (transfer_repository x =? transfer_repository j)%N)
              (map_to_list (repository_transfers s)).*2
         then operation
         else throw (Conflict "repository transfer identity changed"))
  end.

Definition put_transfer (key : string) (j : RepositoryTransferJournal) (s : State) : State :=
  set_repository_transfers (<[key := j]> (repository_transfers s)) s.

Definition prepare_repository_transfer (r : PrepareRepositoryTransfer) : M RepositoryTransferJournal :=
  with_transfer_prepare_mutation (prepare_repository r) (prepare_key r) (prepare_fingerprint r)
    (_ <<- lift (require_name "expected source owner" (expected_source_owner r));;
     _ <<- lift (require_name "expected source name" (expected_source_name r));;
     _ <<- lift (require_name "destination owner" (prepare_destination r));;
     _ <<- lift (require_name "request fingerprint" (prepare_fingerprint r));;
     _ <<- lift (require_name "idempotency key" (prepare_key r));;
     s <<- read_state;;
     match repository_transfers s !! prepare_key r with
     | Some existing => ret existing
     | None =>
         x <<- lift (get_repository_by_id s (prepare_repository r));;
         if negb (String.eqb (repo_owner x) (expected_source_owner r))
            || negb (String.eqb (repo_name x) (expected_source_name r))
         then throw (Validation ("repository source drift: expected "
                 +:+ slug (expected_source_owner r) (expected_source_name r)
                 +:+ ", found " +:+ full_name x))
         else if String.eqb (repo_owner x) (prepare_destination r)
         then throw (Validation "destination owner must differ from source owner")
         else
           let destination := (prepare_destination r, repo_name x) in
           if bool_decide (is_Some (repos s !! destination))
              || bool_decide (is_Some (repository_aliases s !! destination))
           then throw (Conflict ("destination repository " +:+ slug destination.1 destination.2))
           else
             id <<- new_v4;;
             t <<- now;;
             let j := {| transaction_id := id; idempotency_key := prepare_key r;
                         request_fingerprint := prepare_fingerprint r;
                         transfer_repository := repo_id x; source_owner := repo_owner x;
                         source_name := repo_name x; destination_owner := prepare_destination r;
                         destination_name := repo_name x; transfer_status := RTS_Prepared;
                         prepared_at := t; transfer_completed_at := None;
                         transfer_failure := None; transfer_receipt := None |} in
             _ <<- commit (put_transfer (prepare_key r) j s);;
             ret j
     end).

Definition close_journal (j : RepositoryTransferJournal) (st : RepositoryTransferStatus) (t : DateTime)
    (failure receipt : option string) : RepositoryTransferJournal :=
  {| transaction_id := transaction_id j; idempotency_key := idempotency_key j;
     request_fingerprint := request_fingerprint j; transfer_repository := transfer_repository j;
     source_owner := source_owner j; source_name := source_name j;
     destination_owner := destination_owner j; destination_name := destination_name j;
     transfer_status := st; prepared_at := prepared_at j; transfer_completed_at := Some t;
     transfer_failure := failure; transfer_receipt := receipt |}.

(** The aliases of the repository name its new place, and its old slug becomes one. *)
Definition retarget_alias (j : RepositoryTransferJournal) (a : RepositoryAlias) : RepositoryAlias :=
  if (alias_repository a =? transfer_repository j)%N then
    {| alias_repository := alias_repository a; alias_owner := alias_owner a;
       alias_name := alias_name a; canonical_owner := destination_owner j;
       canonical_name := destination_name j; alias_created_at := alias_created_at a;
       alias_transaction := alias_transaction a |}
  else a.

Definition new_alias (j : RepositoryTransferJournal) (id : Uuid) (t : DateTime) : RepositoryAlias :=
  {| alias_repository := transfer_repository j; alias_owner := source_owner j;
     alias_name := source_name j; canonical_owner := destination_owner j;
     canonical_name := destination_name j; alias_created_at := t; alias_transaction := id |}.

Definition commit_repository_transfer (id : Uuid) (receipt : string) : M RepositoryTransferJournal :=
  with_transfer_mutation id
    (s <<- read_state;;
     key <<- lift (transfer_key_for_id s id);;
     match repository_transfers s !! key with
     | None => throw (transfer_missing id)
     | Some j =>
         match transfer_status j with
         | RTS_Committed => ret j
         | RTS_Failed => throw (Conflict ("repository transfer " +:+ show_N id +:+ " already failed"))
         | RTS_Prepared =>
             r <<- lift (rekey_source s j);;
             t <<- now;;
             let s := rekey_repository t r (moved_from j) (moved_to j) s in
             t' <<- now;;
             let s := set_repository_aliases
                        (<[moved_from j := new_alias j id t']>
                           (retarget_alias j <$> repository_aliases s)) s in
             t'' <<- now;;
             let j := close_journal j RTS_Committed t'' (transfer_failure j) (Some receipt) in
             _ <<- commit (put_transfer key j s);;
             ret j
         end
     end).

Definition fail_repository_transfer (id : Uuid) (reason : string) : M RepositoryTransferJournal :=
  with_transfer_mutation id
    (_ <<- lift (require_name "transfer failure reason" reason);;
     s <<- read_state;;
     key <<- lift (transfer_key_for_id s id);;
     match repository_transfers s !! key with
     | None => throw (transfer_missing id)
     | Some j =>
         match transfer_status j with
         | RTS_Committed =>
             throw (Conflict ("repository transfer " +:+ show_N id +:+ " is already committed"))
         | RTS_Failed =>
             if bool_decide (transfer_failure j = Some reason) then ret j
             else throw (Conflict ("repository transfer " +:+ show_N id
                           +:+ " already failed with a different reason"))
         | RTS_Prepared =>
             t <<- now;;
             let j := close_journal j RTS_Failed t (Some reason) (transfer_receipt j) in
             _ <<- commit (put_transfer key j s);;
             ret j
         end
     end).

End transfers.
