(* ===== verification/ForgeLaws.v ===== *)
(** ForgeLaws: what the calls of the forge engine do to its state.

    [change] is the abstract engine: the ways in which the state may move. Every call is
    shown to refine it, whatever the world answers, so that the laws of the state (its
    numbering, its restrictions, its deletions) are laws of [change]. *)

From S2P Require Import Prelude Text Clock BranchProtection ForgeState Forge.
Local Open Scope forge_scope.

(** * The abstract engine *)

Section spec.
Context `{E : ForgeEnv}.

(** The repository is there and takes writes. *)
Definition writable (s : State) (o n : string) : Prop :=
  ∃ r, repos s !! (o, n) = Some r ∧ require_repository_admissible s (repo_id r) true = Ok tt.

(** A review row: at the head of its pull request, no approval of the author's own, and a
    dismissal only of the reviewer's own standing verdict. *)
Definition lawful_review (s : State) (key : string * string * N) (pr : PullRequest)
    (r : Review) : Prop :=
  (review_owner r, review_repo r, pull_number r) = key
  ∧ review_head_sha r = Some (sha (head pr))
  ∧ self_approval (Some (pr_author pr)) r = false
  ∧ match dismissed_review_id r with
    | None => review_state r ≠ RS_Dismissed
    | Some d =>
        review_state r = RS_Dismissed
        ∧ ∃ target, target ∈ effective_reviews_for_head (reviews_of s key) (sha (head pr))
            ∧ review_id target = d
    end.

(** The changes that number a row; a call makes one at most. *)
Inductive opening (o n : string) (s : State) : State → Prop :=
  | Op_pull id id' author r t t' i k s1 s2 :
      next_issue_number o n s = (i, s1) → next_pull_number o n s1 = (k, s2) →
      opening o n s
        (put_pull (o, n, k) (reevaluate t' s2 (new_pull id' o n author i k r t))
           (set_issues (<[(o, n, i) := pull_issue id o n author i k r t]> (issues s2)) s2))
  | Op_issue id author r t i s1 :
      next_issue_number o n s = (i, s1) →
      opening o n s
        (set_issues (<[(o, n, i) := new_issue id o n author i r t]> (issues s1)) s1).

(** The other changes within a repository. *)
Inductive repo_change (o n : string) (s : State) : State → Prop :=
  | Rc_fields r priv fam t :
      repos s !! (o, n) = Some r →
      repo_change o n s (set_repos (<[(o, n) := set_repo_fields r priv fam t]> (repos s)) s)
  | Rc_delete : repo_change o n s (drop_repository o n s)
  | Rc_rule branch rule :
      repo_change o n s
        (set_branch_protections (<[(o, n, branch) := rule]> (branch_protections s)) s)
  | Rc_codeowners contents :
      repo_change o n s (set_codeowners (<[(o, n) := contents]> (codeowners_ s)) s)
  | Rc_readme markdown :
      repo_change o n s (set_readmes (<[(o, n) := markdown]> (readmes s)) s)
  | Rc_pull_edited k pr r t :
      pulls s !! (o, n, k) = Some pr → repo_change o n s (put_pull (o, n, k) (edit_pull pr r t) s)
  | Rc_pull_head k pr h t :
      pulls s !! (o, n, k) = Some pr → is_open_pull pr = true →
      repo_change o n s (put_pull (o, n, k) (set_head_sha pr h t) s)
  | Rc_pull_evaluated k pr t :
      pulls s !! (o, n, k) = Some pr → repo_change o n s (put_pull (o, n, k) (reevaluate t s pr) s)
  | Rc_review k pr r cs :
      pulls s !! (o, n, k) = Some pr → lawful_review s (o, n, k) pr r →
      repo_change o n s (add_review (o, n, k) r cs s)
  | Rc_issue_edited k i r close t :
      issues s !! (o, n, k) = Some i →
      repo_change o n s (set_issues (<[(o, n, k) := edit_issue i r close t]> (issues s)) s)
  | Rc_comment k i c t :
      issues s !! (o, n, k) = Some i →
      let s1 := set_issues (<[(o, n, k) := count_comment i t]> (issues s)) s in
      repo_change o n s
        (set_issue_comments
           (<[(o, n, k) := issue_comments_of s1 (o, n, k) ++ [c]]> (issue_comments s1)) s1)
  | Rc_label name l :
      labels s !! (o, n, name) = None →
      repo_change o n s (set_labels (<[(o, n, name) := l]> (labels s)) s)
  | Rc_status sha_ c :
      repo_change o n s
        (set_statuses (<[(o, n, sha_) := statuses_of s o n sha_ ++ [c]]> (statuses s)) s)
  | Rc_check c :
      repo_change o n s (set_check_runs (<[(o, n) := runs_of s o n ++ [c]]> (check_runs s)) s)
  | Rc_webhook h :
      repo_change o n s (set_webhooks (<[(o, n) := hooks_of s o n ++ [h]]> (webhooks s)) s)
  | Rc_score x :
      repo_change o n s
        (set_jankurai_scores (<[(o, n) := add_score x (scores_of s o n)]> (jankurai_scores s)) s)
  | Rc_deliver ds :
      Forall (λ d, delivery_owner d = o ∧ delivery_repo d = n) ds →
      repo_change o n s (set_webhook_deliveries (webhook_deliveries s ++ ds) s).

(** A display profile for a login that has none. *)
Inductive user_change (s : State) : State → Prop :=
  | Uc_profile login u :
      users s !! login = None → user_login u = login →
      user_change s (set_users (<[login := u]> (users s)) s).

(** An organization or a team that was not there. *)
Inductive group_change (s : State) : State → Prop :=
  | Gc_organization login org :
      organizations s !! login = None →
      group_change s (set_organizations (<[login := org]> (organizations s)) s)
  | Gc_team org slug_ t :
      is_Some (organizations s !! org) → teams s !! (org, slug_) = None →
      group_change s (set_teams (<[(org, slug_) := t]> (teams s)) s).

(** The creation of a repository, in two commits. *)
Inductive creation_change (s : State) : State → Prop :=
  | Cc_row id owner req t t' :
      id ≠ nil_uuid → repos s !! (owner, new_name req) = None →
      repository_by_id s id = None → repository_creations s !! id = None →
      creation_change s (add_repository id owner req (new_repository id owner req t) t' s)
  | Cc_materialized id :
      creation_change s
        (set_repository_creations (alter mark_materialized id (repository_creations s)) s).

(** What a call may do: profiles, a creation, a restriction, or, in one repository that
    takes writes, a row numbered and changes. *)
Inductive change (s : State) : State → Prop :=
  | Ch_users s' : rtc user_change s s' → change s s'
  | Ch_group s' : group_change s s' → change s s'
  | Ch_creation s' : rtc creation_change s s' → change s s'
  | Ch_block id b :
      is_Some (repository_by_id s id) → repository_mutation_blocks s !! id = None →
      change s (set_repository_mutation_blocks (<[id := b]> (repository_mutation_blocks s)) s)
  | Ch_repo o n s1 s2 s' :
      rtc user_change s s1 → writable s1 o n → s2 = s1 ∨ opening o n s1 s2 →
      rtc (repo_change o n) s2 s' → change s s'.

(** The database holds the live state. *)
Definition saved (c : Core) : Prop :=
  match stored c with Some s => s = state c | None => True end.

End spec.

(** * Running calls *)

Section wp.
Context `{E : ForgeEnv}.

Definition wp {A} (m : M A) (Q : result A ForgeError → Core → Prop) (c : Core) : Prop :=
  Q (m c).1 (m c).2.

(** What follows a step that may have been refused. *)
Definition then_ {A B} (k : A → M B) (Q : result B ForgeError → Core → Prop) :
    result A ForgeError → Core → Prop :=
  λ r c, match r with Ok x => wp (k x) Q c | Err e => Q (Err e) c end.

Lemma wp_bind {A B} (m : M A) (k : A → M B) Q c : wp m (then_ k Q) c → wp (bind m k) Q c.
Proof. unfold wp, then_, bind. by destruct (m c) as [[x|e] c']. Qed.

Lemma wp_ret {A} (x : A) Q c : Q (Ok x) c → wp (ret x) Q c.
Proof. done. Qed.

Lemma wp_throw {A} e (Q : result A ForgeError → Core → Prop) c : Q (Err e) c → wp (throw e) Q c.
Proof. done. Qed.

Lemma wp_read Q c : Q (Ok (state c)) c → wp read_state Q c.
Proof. done. Qed.

Lemma wp_lift {A} (r : result A ForgeError) Q c : Q r c → wp (lift r) Q c.
Proof. by destruct r. Qed.

Lemma wp_ask {A} (f : nat → A) Q c s :
  saved c → state c = s → (∀ x c', saved c' → state c' = s → Q (Ok x) c') → wp (ask f) Q c.
Proof. intros Hc Hs H. by apply H. Qed.

Lemma wp_guard f Q c s :
  saved c → state c = s → (∀ c', saved c' → state c' = s → Q (Ok tt) c') →
  (∀ e c', saved c' → state c' = s → Q (Err e) c') → wp (guard f) Q c.
Proof.
  intros Hc Hs H1 H2. unfold guard. apply wp_bind, (wp_ask f _ _ s Hc Hs).
  intros [e|] c' Hc' Hs'; [by apply H2|by apply H1].
Qed.

Lemma wp_commit s' Q c s :
  saved c → state c = s → (∀ c', saved c' → state c' = s' → Q (Ok tt) c') →
  (∀ e c', saved c' → state c' = s → Q (Err e) c') → wp (commit s') Q c.
Proof.
  intros Hc Hs H1 H2. unfold wp, commit. destruct (stored c) as [s0|] eqn:Hst.
  - destruct (persist_error (asked c)) as [e|]; [|by apply H1].
    apply H2; [|done]. unfold saved in *. cbn. by rewrite Hst in *.
  - by apply H1.
Qed.

Lemma wp_mono {A} (m : M A) (P Q : result A ForgeError → Core → Prop) c :
  wp m P c → (∀ r c', P r c' → Q r c') → wp m Q c.
Proof. unfold wp. auto. Qed.

End wp.

(** One step of a call; the state of the core is kept as a named value. *)
Ltac wp_step :=
  match goal with
  | |- then_ _ _ (Ok _) _ => unfold then_; cbv beta iota
  | |- then_ _ _ (Err _) _ => unfold then_; cbv beta iota
  | |- then_ _ _ ?r _ => destruct r eqn:?
  | |- wp (bind _ _) _ _ => apply wp_bind
  | |- wp (ret _) _ _ => apply wp_ret
  | |- wp (throw _) _ _ => apply wp_throw
  | Hs : state ?c = _ |- wp read_state _ ?c => apply wp_read; rewrite Hs
  | |- wp (lift _) _ _ => apply wp_lift
  | Hc : saved ?c, Hs : state ?c = _ |- wp (guard _) _ ?c =>
      apply (wp_guard _ _ c _ Hc Hs); clear c Hc Hs; [intros ? ? ?|intros ? ? ? ?]
  | Hc : saved ?c, Hs : state ?c = _ |- wp (ask _) _ ?c =>
      apply (wp_ask _ _ c _ Hc Hs); clear c Hc Hs; intros ? ? ? ?
  | Hc : saved ?c, Hs : state ?c = _ |- wp now _ ?c =>
      apply (wp_ask _ _ c _ Hc Hs); clear c Hc Hs; intros ? ? ? ?
  | Hc : saved ?c, Hs : state ?c = _ |- wp new_v4 _ ?c =>
      apply (wp_ask _ _ c _ Hc Hs); clear c Hc Hs; intros ? ? ? ?
  | Hc : saved ?c, Hs : state ?c = _ |- wp (commit _) _ ?c =>
      apply (wp_commit _ _ c _ Hc Hs); clear c Hc Hs; [intros ? ? ?|intros ? ? ? ?]
  | |- wp (if ?b then _ else _) _ _ => destruct b eqn:?
  | |- wp (match ?x with _ => _ end) _ _ => destruct x eqn:?
  | |- wp _ _ _ => progress (cbv zeta beta)
  end.

Section refinement.
Context `{E : ForgeEnv}.

(** A call that succeeds makes changes; one that is refused may have left a profile. *)
Definition post {A} (s0 : State) (r : result A ForgeError) (c : Core) : Prop :=
  saved c ∧ match r with
            | Ok _ => change s0 (state c)
            | Err _ => rtc user_change s0 (state c)
            end.

Lemma post_err {A} s0 e c :
  saved c → rtc user_change s0 (state c) → post (A := A) s0 (Err e) c.
Proof. by split. Qed.

Lemma post_same {A} s0 (r : result A ForgeError) c : saved c → state c = s0 → post s0 r c.
Proof. intros Hc <-. split; [done|]. destruct r; [by apply Ch_users|done]. Qed.

Lemma user_change_frame s s' : user_change s s' → s' = set_users (users s') s.
Proof. by intros []. Qed.

Lemma writable_user s s' o n : rtc user_change s s' → writable s o n → writable s' o n.
Proof.
  induction 1 as [|s s1 s' Hu _ IH]; [done|]. intros Hw. apply IH. by destruct Hu.
Qed.

Lemma post_open {A} s0 s s2 s' o n (x : A) c :
  saved c → state c = s' → rtc user_change s0 s → writable s o n → opening o n s s2 →
  rtc (repo_change o n) s2 s' → post s0 (Ok x) c.
Proof. intros Hc <- Hu Hw Ho Hr. split; [done|]. eapply Ch_repo; eauto. Qed.

Lemma post_repo {A} s0 s s' o n (x : A) c :
  saved c → state c = s' → rtc user_change s0 s → writable s o n →
  rtc (repo_change o n) s s' → post s0 (Ok x) c.
Proof. intros Hc <- Hu Hw Hr. split; [done|]. eapply Ch_repo; eauto. Qed.

(** ** Admission *)

Lemma check_hints_writable s o n names hints u :
  named_hints s true ((o, n) :: names) = Ok hints → check_hints s hints = Ok u → writable s o n.
Proof.
  cbn [named_hints]. destruct (repos s !! (o, n)) as [r|] eqn:Hr; [|done].
  destruct (named_hints s false names); [|done]. intros [= <-].
  cbn [check_hints hint_owner hint_name hint_id hint_writes]. rewrite Hr, N.eqb_refl.
  destruct (require_repository_admissible s (repo_id r) true) as [[]|] eqn:Ha; [|done].
  intros _. by exists r.
Qed.

Lemma wp_named {A} (op : M A) Q c s o n names :
  saved c → state c = s →
  (∀ c', saved c' → state c' = s → writable s o n → wp op Q c') →
  (∀ e c', saved c' → state c' = s → Q (Err e) c') →
  wp (with_named_mutation ((o, n) :: names) op) Q c.
Proof.
  intros Hc Hs Hop Herr. unfold with_named_mutation, admitted.
  repeat wp_step; try (by apply Herr).
  apply Hop; [done|done|]. by eapply check_hints_writable.
Qed.

Lemma wp_repository {A} (op : M A) Q c s o n :
  saved c → state c = s →
  (∀ c', saved c' → state c' = s → writable s o n → wp op Q c') →
  (∀ e c', saved c' → state c' = s → Q (Err e) c') →
  wp (with_repository_mutation o n op) Q c.
Proof. apply wp_named. Qed.

Lemma wp_profile {A} (op : M A) Q c s o n :
  saved c → state c = s →
  (∀ c', saved c' → state c' = s → writable s o n → wp op Q c') →
  (∀ e c', saved c' → state c' = s → Q (Err e) c') →
  wp (with_profile_mutation o n op) Q c.
Proof.
  intros Hc Hs Hop Herr. unfold with_profile_mutation.
  repeat wp_step; [|by apply Herr]. by eapply wp_named.
Qed.

Lemma wp_source {A} (op : M A) Q c s o n source :
  saved c → state c = s →
  (∀ c', saved c' → state c' = s → writable s o n → wp op Q c') →
  (∀ e c', saved c' → state c' = s → Q (Err e) c') →
  wp (with_source_mutation o n source op) Q c.
Proof.
  intros Hc Hs Hop Herr. unfold with_source_mutation.
  repeat wp_step; try (by apply Herr). by eapply wp_named.
Qed.

Lemma wp_pull {A} (op : M A) Q c s o n k :
  saved c → state c = s →
  (∀ c', saved c' → state c' = s → writable s o n → wp op Q c') →
  (∀ e c', saved c' → state c' = s → Q (Err e) c') →
  wp (with_pull_mutation o n k op) Q c.
Proof.
  intros Hc Hs Hop Herr. unfold with_pull_mutation.
  repeat wp_step; try (by apply Herr). eapply wp_named; [done|done| |done].
  intros d Hd Hsd Hw. repeat wp_step; try (by apply Herr); by apply Hop.
Qed.

(** ** Parts of calls *)

Lemma wp_deliveries hooks o n ev p Q c s :
  saved c → state c = s →
  (∀ ds c', saved c' → state c' = s → Forall (λ d, delivery_owner d = o ∧ delivery_repo d = n) ds →
     Q (Ok ds) c') →
  wp (deliveries hooks o n ev p) Q c.
Proof.
  revert Q c. induction hooks as [|h hooks IH]; intros Q c Hc Hs H; cbn [deliveries].
  - wp_step. by apply H.
  - repeat wp_step. eapply IH; [done|done|]. intros ds d Hd Hsd Hds. repeat wp_step.
    apply H; [done|done|]. by constructor.
Qed.

Lemma wp_emit o n ev p s' Q c s :
  saved c → state c = s →
  (∀ ds c', saved c' → state c' = s → Forall (λ d, delivery_owner d = o ∧ delivery_repo d = n) ds →
     Q (Ok (set_webhook_deliveries (webhook_deliveries s' ++ ds) s')) c') →
  wp (emit_event o n ev p s') Q c.
Proof.
  intros Hc Hs H. unfold emit_event. wp_step. eapply wp_deliveries; [done|done|].
  intros. repeat wp_step. by apply H.
Qed.

Lemma wp_ensure_repo o n Q c s :
  saved c → state c = s →
  (∀ r c', saved c' → state c' = s → repos s !! (o, n) = Some r → Q (Ok tt) c') →
  (∀ e c', saved c' → state c' = s → Q (Err e) c') →
  wp (ensure_repo_exists o n) Q c.
Proof.
  intros Hc Hs Hok Herr. unfold ensure_repo_exists, get_repository.
  destruct (repos s !! (o, n)) as [r|] eqn:Hr; repeat wp_step; rewrite Hr in *; try done.
  - by eapply Hok.
  - by apply Herr.
Qed.

Lemma wp_create_user login name email Q c s :
  saved c → state c = s → users s !! login = None →
  (∀ u c', saved c' → user_change s (state c') → Q (Ok u) c') →
  (∀ e c', saved c' → state c' = s → Q (Err e) c') →
  wp (create_user_admitted login name email) Q c.
Proof.
  intros Hc Hs Hu Hok Herr. unfold create_user_admitted.
  repeat wp_step; try (by apply Herr). apply Hok; [done|].
  match goal with H : state _ = set_users _ _ |- _ => rewrite H end. by apply Uc_profile.
Qed.

Lemma wp_ensure_user login Q c s :
  saved c → state c = s →
  (∀ u c' s', saved c' → state c' = s' → rtc user_change s s' → Q (Ok u) c') →
  (∀ e c', saved c' → state c' = s → Q (Err e) c') →
  wp (ensure_user_admitted login) Q c.
Proof.
  intros Hc Hs Hok Herr. unfold ensure_user_admitted. repeat wp_step; [by eapply Hok|].
  eapply wp_create_user; [done|done|done| |done].
  intros u d Hd Hch. eapply Hok; [done|done|by apply rtc_once].
Qed.

End refinement.

Ltac forge_step :=
  match goal with
  | Hc : saved ?c, Hs : state ?c = _ |- wp (emit_event _ _ _ _ _) _ ?c =>
      eapply (wp_emit _ _ _ _ _ _ c _ Hc Hs); clear c Hc Hs; intros ? ? ? ? ?
  | Hc : saved ?c, Hs : state ?c = _ |- wp (ensure_repo_exists _ _) _ ?c =>
      eapply (wp_ensure_repo _ _ _ c _ Hc Hs); clear c Hc Hs; [intros ? ? ? ? ?|intros ? ? ? ?]
  | Hc : saved ?c, Hs : state ?c = _ |- wp (ensure_user_admitted _) _ ?c =>
      eapply (wp_ensure_user _ _ c _ Hc Hs); clear c Hc Hs; [intros ? ? ? ? ? ?|intros ? ? ? ?]
  | |- wp (let (_, _) := ?x in _) _ _ => destruct x eqn:?
  | _ => wp_step
  end.

(** Every refusal leaves the state, or a profile more. *)
Ltac refused :=
  match goal with
  | H : state ?c = _ |- post _ (Err _) ?c => apply post_err; [done|rewrite H; done]
  end.

(** The call refines the abstract engine, whatever the world answers. *)
Definition refines `{E : ForgeEnv} {A} (m : M A) : Prop :=
  ∀ c s, saved c → state c = s → wp m (post s) c.

Ltac start rule :=
  intros c0 s Hc0 Hs0; eapply rule; [exact Hc0|exact Hs0| |by intros; apply post_same];
  clear c0 Hc0 Hs0; intros c Hc Hs Hw.

Ltac finish :=
  match goal with
  | H : state ?c = _ |- post _ (Ok _) ?c =>
      eapply post_repo; [done|exact H|eassumption || reflexivity|
        eassumption || (eapply writable_user; eassumption)|]
  end.

Ltac opens :=
  match goal with
  | H : state ?c = _ |- post _ (Ok _) ?c =>
      eapply post_open; [done|exact H|eassumption || reflexivity|
        eassumption || (eapply writable_user; eassumption)| |]
  end.

Section calls_refine.
Context `{E : ForgeEnv}.

Lemma create_user_refines login name email : refines (create_user login name email).
Proof.
  intros c s Hc Hs. unfold create_user, with_global_mutation, create_user_admitted. repeat forge_step; try refused.
  split; [done|]. match goal with H : state _ = set_users _ _ |- _ => rewrite H end.
  by apply Ch_users, rtc_once, Uc_profile.
Qed.

Lemma block_refines id b : refines (block_repository_mutations id b).
Proof.
  intros c s Hc Hs. unfold block_repository_mutations. repeat forge_step; try refused; [by apply post_same|].
  split; [done|]. match goal with H : state ?c = set_repository_mutation_blocks _ _ |- _ => rewrite H end.
  apply Ch_block; [by eexists|done].
Qed.

Lemma family_refines o n id fam : refines (set_repository_family_for_identity o n id fam).
Proof.
  start @wp_repository. repeat forge_step; try refused; finish; by eapply rtc_once, Rc_fields.
Qed.

Lemma visibility_refines o n priv : refines (set_repository_visibility o n priv).
Proof.
  start @wp_repository.
  repeat forge_step; try refused; try (by apply post_same); finish; by eapply rtc_once, Rc_fields.
Qed.

Lemma create_organization_refines login display : refines (create_organization login display).
Proof.
  intros c s Hc Hs. unfold create_organization, with_global_mutation. repeat forge_step; try refused.
  split; [done|]. match goal with H : state _ = set_organizations _ _ |- _ => rewrite H end.
  by apply Ch_group, Gc_organization.
Qed.

Lemma create_team_refines org r : refines (create_team org r).
Proof.
  intros c s Hc Hs. unfold create_team, with_global_mutation. repeat forge_step; try refused.
  all: split; [done|]; match goal with H : state _ = set_teams _ _ |- _ => rewrite H end.
  all: apply Ch_group, Gc_team; [by eexists|done].
Qed.

Lemma delete_repository_refines o n : refines (delete_repository o n).
Proof. start @wp_repository. repeat forge_step; try refused; finish. apply rtc_once, Rc_delete. Qed.

Lemma set_branch_protection_refines o n branch r : refines (set_branch_protection o n branch r).
Proof. start @wp_repository. repeat forge_step; try refused; finish. apply rtc_once, Rc_rule. Qed.

Lemma store_codeowners_refines o n x : refines (store_codeowners o n x).
Proof.
  start @wp_repository. repeat forge_step; try refused; finish. apply rtc_once, Rc_codeowners.
Qed.

Lemma set_readme_refines o n x : refines (set_repository_readme o n x).
Proof. start @wp_repository. repeat forge_step; try refused; finish. apply rtc_once, Rc_readme. Qed.

Lemma ref_operation_refines o n branch op admin : refines (ref_operation o n branch op admin).
Proof.
  start @wp_repository. repeat forge_step; try refused. by apply post_same.
Qed.

Lemma create_label_refines o n name col desc : refines (create_label o n name col desc).
Proof.
  start @wp_repository. repeat forge_step; try refused; finish. by apply rtc_once, Rc_label.
Qed.

Lemma create_webhook_refines o n r : refines (create_webhook o n r).
Proof. start @wp_repository. repeat forge_step; try refused; finish. apply rtc_once, Rc_webhook. Qed.

Lemma record_score_refines o n r : refines (record_jankurai_score o n r).
Proof.
  start @wp_repository. repeat forge_step; try refused; finish; apply rtc_once, Rc_score.
Qed.

Lemma merge_refines o n k : refines (merge_pull_request o n k).
Proof. start @wp_pull. repeat forge_step. refused. Qed.

(** ** Issues *)

Lemma rc_events o n s s1 ds :
  rtc (repo_change o n) s s1 → Forall (λ d, delivery_owner d = o ∧ delivery_repo d = n) ds →
  rtc (repo_change o n) s (set_webhook_deliveries (webhook_deliveries s1 ++ ds) s1).
Proof. intros H Hds. eapply rtc_r; [done|]. by apply Rc_deliver. Qed.

Lemma create_issue_refines o n author r : refines (create_issue o n author r).
Proof.
  start @wp_profile. repeat forge_step; try refused; opens; [|by apply rc_events].
  by apply Op_issue.
Qed.

Lemma update_issue_refines o n k r : refines (update_issue o n k r).
Proof.
  start @wp_repository.
  repeat forge_step; try refused; finish; (apply rc_events; [|done]); by eapply rtc_once, Rc_issue_edited.
Qed.

Lemma add_issue_comment_refines o n k author body : refines (add_issue_comment o n k author body).
Proof.
  start @wp_profile. repeat forge_step; try refused; finish. apply rc_events; [|done].
  by eapply rtc_once, Rc_comment.
Qed.

End calls_refine.

(** ** Pull requests *)

Section pulls_refine.
Context `{E : ForgeEnv}.

Lemma pulls_put key pr s : pulls (put_pull key pr s) !! key = Some pr.
Proof. apply lookup_insert_eq. Qed.

Lemma create_pull_request_refines o n author r : refines (create_pull_request o n author r).
Proof.
  start @wp_source. repeat forge_step; try refused; opens; [|by apply rc_events].
  by eapply Op_pull.
Qed.

Lemma update_pull_request_refines o n k r : refines (update_pull_request o n k r).
Proof.
  start @wp_pull. repeat forge_step; try refused; finish. apply rc_events; [|done].
  eapply rtc_l; [by eapply Rc_pull_edited|]. eapply rtc_once, Rc_pull_evaluated, pulls_put.
Qed.

Lemma is_open_reevaluate t s pr : is_open_pull (reevaluate t s pr) = is_open_pull pr.
Proof.
  unfold reevaluate, apply_evaluation, is_open_pull.
  destruct (merged pr) eqn:Hm; cbn [orb]; [cbn; by rewrite Hm|].
  case_bool_decide as H1; [cbn; by rewrite Hm|].
  case_bool_decide as H2; [cbn; by rewrite Hm|]. cbn. rewrite Hm. cbn. f_equal.
  rewrite (bool_decide_eq_false_2 (pr_state pr ∈ [PRS_Closed; PRS_Merged]))
    by (rewrite !elem_of_cons; set_solver).
  apply bool_decide_eq_false_2. rewrite !elem_of_cons.
  destruct (draft pr), (eval_mergeable (evaluate_locked t s pr None)); intros [?|[?|?%elem_of_nil]]; done.
Qed.

(** The keys whose head moves: open pull requests of the repository. *)
Definition open_key (o n : string) (s : State) (key : string * string * N) : Prop :=
  ∃ k pr, key = (o, n, k) ∧ pulls s !! key = Some pr ∧ is_open_pull pr = true.

Lemma open_key_put o n s key pr x :
  is_open_pull pr = true → open_key o n s x → open_key o n (put_pull key pr s) x.
Proof.
  intros Hp (k & q & -> & Hq & Ho). destruct (decide (key = (o, n, k))) as [->|Hne].
  - exists k, pr. by rewrite pulls_put.
  - exists k, q. split_and!; [done| |done]. cbn. by rewrite lookup_insert_ne.
Qed.

Lemma wp_refresh_heads keys o n h t s Q c s0 :
  saved c → state c = s0 → Forall (open_key o n s) keys →
  (∀ prs s' c', saved c' → state c' = s0 → rtc (repo_change o n) s s' → Q (Ok (prs, s')) c') →
  wp (refresh_heads keys o n h t s) Q c.
Proof.
  revert s Q c. induction keys as [|key keys IH]; intros s Q c Hc Hs Hk HQ; cbn [refresh_heads].
  { wp_step. by apply HQ. }
  apply Forall_cons in Hk as [(k & pr & -> & Hpr & Ho) Hk]. rewrite Hpr.
  repeat forge_step. eapply IH; [done|done| |].
  - eapply Forall_impl; [exact Hk|]. intros y Hx.
    destruct Hx as (k' & q & -> & Hq & Hoq).
    destruct (decide (k' = k)) as [->|Hne].
    + eexists k, _. split; [done|]. cbn. rewrite lookup_insert_eq. split; [done|].
      by rewrite is_open_reevaluate.
    + exists k', q. split; [done|]. cbn. rewrite !lookup_insert_ne by congruence. done.
  - intros prs s' d Hd Hsd Hr. repeat forge_step. apply HQ; [done|done|]. etrans; [|exact Hr].
    apply rc_events; [|done]. eapply rtc_l; [by eapply Rc_pull_head|].
    eapply rtc_once, Rc_pull_evaluated, pulls_put.
Qed.

(** ** Statuses and checks *)

Lemma refresh_sha_changes t o n sha_ s :
  rtc (repo_change o n) s (refresh_pull_mergeability_for_sha t o n sha_ s).
Proof.
  unfold refresh_pull_mergeability_for_sha.
  assert (Hk : Forall (λ key, key.1 = (o, n))
    (filter (λ kp, kp.1.1 = (o, n) ∧ sha (head kp.2) = sha_) (map_to_list (pulls s))).*1).
  { apply Forall_forall. intros key (kp & -> & Hkp)%list_elem_of_fmap.
    by apply list_elem_of_filter in Hkp as [[? _] _]. }
  revert Hk. generalize (filter (λ kp, kp.1.1 = (o, n) ∧ sha (head kp.2) = sha_)
    (map_to_list (pulls s))).*1. intros keys. revert s.
  induction keys as [|[[o' n'] k] keys IH]; intros s Hk; [done|]. cbn [foldl].
  apply Forall_cons in Hk as [Hkey Hk]. cbn in Hkey. injection Hkey as -> ->.
  destruct (pulls s !! (o, n, k)) as [pr|] eqn:Hpr; [|by apply IH].
  eapply rtc_l; [by eapply Rc_pull_evaluated|by apply IH].
Qed.

Lemma create_commit_status_refines o n sha_ creator_ st ctx desc target :
  refines (create_commit_status o n sha_ creator_ st ctx desc target).
Proof.
  start @wp_profile. repeat forge_step; try refused; finish. apply rc_events; [|done].
  eapply rtc_l; [apply Rc_status|]. apply refresh_sha_changes.
Qed.

Lemma create_check_run_refines o n r : refines (create_check_run o n r).
Proof.
  start @wp_repository.
  repeat forge_step; try refused; finish; (apply rc_events; [|done]);
    (eapply rtc_l; [apply Rc_check|]); apply refresh_sha_changes.
Qed.

(** ** Reviews *)

Lemma eq_ignore_case_sym a b : eq_ignore_ascii_case a b = eq_ignore_ascii_case b a.
Proof. unfold eq_ignore_ascii_case. by apply bool_decide_ext. Qed.

Lemma wp_add_profile login s0 Q c s :
  saved c → state c = s →
  (∀ s1 c', saved c' → state c' = s → rtc user_change s0 s1 → reviews s1 = reviews s0 →
     pulls s1 = pulls s0 → Q (Ok s1) c') →
  wp (add_profile login s0) Q c.
Proof.
  intros Hc Hs HQ. unfold add_profile. repeat wp_step; apply HQ; try done.
  by apply rtc_once, Uc_profile.
Qed.

Lemma wp_review_comments inputs id o n k author Q c s :
  saved c → state c = s → (∀ cs c', saved c' → state c' = s → Q (Ok cs) c') →
  wp (review_comment_rows inputs id o n k author) Q c.
Proof.
  revert Q c. induction inputs as [|x inputs IH]; intros Q c Hc Hs HQ; cbn [review_comment_rows].
  - wp_step. by apply HQ.
  - repeat wp_step. eapply IH; [done|done|]. intros cs d Hd Hsd. repeat wp_step. by apply HQ.
Qed.

Lemma review_head_lawful o n k pr author r h :
  review_head o n k pr author r = Ok h →
  h = sha (head pr) ∧ (cr_event r = RS_Approved → eq_ignore_ascii_case (pr_author pr) author = false).
Proof.
  unfold review_head. case_bool_decide as Ha; cbn [andb].
  - destruct (eq_ignore_ascii_case _ _); [done|].
    destruct (match cr_expected_head r with Some _ => _ | None => _ end); [done|]. by intros [= <-].
  - destruct (match cr_expected_head r with Some _ => _ | None => _ end); [done|].
    intros [= <-]. done.
Qed.

Lemma check_dismissal_lawful s o n k author h d u :
  check_dismissal s o n k author h d = Ok u →
  ∃ target, target ∈ effective_reviews_for_head (reviews_of s (o, n, k)) h ∧ review_id target = d.
Proof.
  unfold check_dismissal. destruct (find_first _ _) as [t|]; [|done].
  do 2 (destruct (negb _); [done|]). destruct (negb _ || negb _) eqn:He; [done|]. intros _.
  apply orb_false_iff in He as [_ He%negb_false_iff%existsb_exists].
  destruct He as (r & Hr & Hid). exists r. rewrite <-list_elem_of_In in Hr.
  split; [done|]. by apply N.eqb_eq.
Qed.

(** Creating and dismissing agree on what a dismissal is. *)
Definition review_kind (r : CreateReviewRequest) (dismissed : option Uuid) : Prop :=
  match dismissed with
  | None => cr_event r ≠ RS_Dismissed
  | Some _ => cr_event r = RS_Dismissed
  end.

Lemma recorded_lawful s s1 o n k pr author r h d id t u :
  review_kind r d → review_head o n k pr author r = Ok h → reviews s1 = reviews s →
  match d with Some x => check_dismissal s o n k author h x | None => Ok tt end = Ok u →
  lawful_review s1 (o, n, k) pr
    {| review_id := id; review_owner := o; review_repo := n; pull_number := k;
       review_author := author; review_state := cr_event r; review_body := cr_body r;
       review_head_sha := Some h; dismissed_review_id := d; submitted_at := t |}.
Proof.
  intros Hk [-> Hself]%review_head_lawful Hr Hd. unfold lawful_review. split_and!; [done|done| |].
  - unfold self_approval. cbn [review_state review_author].
    destruct (decide (cr_event r = RS_Approved)) as [Ha|Ha].
    + rewrite eq_ignore_case_sym, (Hself Ha). by rewrite andb_false_r.
    + by rewrite bool_decide_eq_false_2.
  - destruct d as [x|]; [|exact Hk]. split; [exact Hk|]. cbn [review_head_sha].
    unfold reviews_of. rewrite Hr. by eapply check_dismissal_lawful.
Qed.

Lemma record_review_refines o n k author r dismissed :
  review_kind r dismissed → refines (record_review o n k author r dismissed).
Proof.
  intros Hkind. start @wp_profile. repeat forge_step; try refused;
    (eapply wp_add_profile; [done|done|]; intros s1 d Hd Hsd Hu Hrev Hpulls; repeat forge_step);
    (eapply wp_review_comments; [done|done|]; intros cs d' Hd' Hsd'; repeat forge_step);
    try refused; finish; (apply rc_events; [|done]).
  all: eapply rtc_l; [eapply Rc_review; [by rewrite Hpulls|by eapply recorded_lawful]|].
  all: eapply rtc_once, Rc_pull_evaluated; cbn; by rewrite Hpulls.
Qed.

Lemma create_review_refines o n k author r : refines (create_review o n k author r).
Proof.
  intros c s Hc Hs. unfold create_review. case_bool_decide as He; [wp_step; by apply post_same|].
  by apply record_review_refines.
Qed.

Lemma dismiss_review_refines o n k actor r : refines (dismiss_review o n k actor r).
Proof.
  intros c s Hc Hs. unfold dismiss_review.
  repeat (wp_step; try (by apply post_same)). by apply record_review_refines.
Qed.

End pulls_refine.
