(* ===== verification/ForgeInvariant.v ===== *)
(** ForgeInvariant: what holds of every state of the forge, and what no call can touch.

    The laws are shown of [change], the abstract engine of [ForgeLaws], and carried to the
    calls: rows stand under the keys their fields name, numbers lie within the counters,
    every pull request has its issue, no stored review is an author's own approval, and a
    restricted repository stays as it is. *)

From S2P Require Import Prelude Text Clock BranchProtection ForgeState Forge ForgeLaws.
Local Open Scope forge_scope.

Section invariant.
Context `{E : ForgeEnv}.

Definition issue_ok (s : State) (key : string * string * N) (i : Issue) : Prop :=
  (issue_owner i, issue_repo i, issue_no i) = key
  ∧ (1 ≤ key.2 ≤ issue_counter (counters_of s key.1.1 key.1.2))%N
  ∧ is_Some (repos s !! key.1).

Definition pull_ok (s : State) (key : string * string * N) (pr : PullRequest) : Prop :=
  (pr_owner pr, pr_repo pr, number pr) = key
  ∧ (1 ≤ key.2 ≤ pull_counter (counters_of s key.1.1 key.1.2))%N
  ∧ is_Some (repos s !! key.1)
  ∧ ∃ i, issues s !! (key.1, issue_number pr) = Some i ∧ is_Some (pull_request i).

Definition review_ok (s : State) (key : string * string * N) (l : list Review) : Prop :=
  ∃ pr, pulls s !! key = Some pr
    ∧ Forall (λ r, (review_owner r, review_repo r, pull_number r) = key
                   ∧ self_approval (Some (pr_author pr)) r = false) l.

Record state_ok (s : State) : Prop := {
  ok_repos key r : repos s !! key = Some r → (repo_owner r, repo_name r) = key;
  ok_ids key key' r r' :
    repos s !! key = Some r → repos s !! key' = Some r' → repo_id r = repo_id r' → key = key';
  ok_issues key i : issues s !! key = Some i → issue_ok s key i;
  ok_pulls key pr : pulls s !! key = Some pr → pull_ok s key pr;
  ok_reviews key l : reviews s !! key = Some l → review_ok s key l
}.

(** Numbers are left to hand out. *)
Definition room (k : N) (s : State) : Prop :=
  ∀ o n, (issue_counter (counters_of s o n) + k < 18446744073709551616
          ∧ pull_counter (counters_of s o n) + k < 18446744073709551616)%N.

(** ** Rows replaced by rows of the same identity *)

Definition same_pull (pr pr' : PullRequest) : Prop :=
  (pr_owner pr', pr_repo pr', number pr', issue_number pr', pr_author pr')
  = (pr_owner pr, pr_repo pr, number pr, issue_number pr, pr_author pr).

Lemma same_reevaluate t s pr : same_pull pr (reevaluate t s pr).
Proof.
  unfold reevaluate, apply_evaluation.
  by destruct (merged pr || _); [|destruct (bool_decide (pr_state pr = PRS_Closed))].
Qed.

Lemma pull_ok_same s key pr pr' : same_pull pr pr' → pull_ok s key pr → pull_ok s key pr'.
Proof. intros [= Ho Hr Hn Hi Ha]. unfold pull_ok. by rewrite Ho, Hr, Hn, Hi. Qed.

Lemma ok_put_pull s key pr pr' :
  state_ok s → pulls s !! key = Some pr → same_pull pr pr' → state_ok (put_pull key pr' s).
Proof.
  intros [H1 H2 H3 H4 H5] Hpr Hsame. split; [exact H1|exact H2|exact H3| |].
  - intros k q. cbn. intros [[<- <-]|[_ Hq]]%lookup_insert_Some; [|by apply H4].
    by eapply pull_ok_same, H4.
  - injection Hsame as _ _ _ _ Ha. intros k l Hl. destruct (H5 k l Hl) as (q & Hq & Hall). unfold review_ok. cbn.
    destruct (decide (key = k)) as [->|Hne].
    + exists pr'. rewrite lookup_insert_eq, Ha. by rewrite Hq in Hpr; injection Hpr as ->.
    + exists q. by rewrite lookup_insert_ne.
Qed.

Definition same_issue (i i' : Issue) : Prop :=
  (issue_owner i', issue_repo i', issue_no i', pull_request i')
  = (issue_owner i, issue_repo i, issue_no i, pull_request i).

Lemma ok_put_issue s key i i' :
  state_ok s → issues s !! key = Some i → same_issue i i' →
  state_ok (set_issues (<[key := i']> (issues s)) s).
Proof.
  intros [H1 H2 H3 H4 H5] Hi [= Ho Hr Hn Hm]. split; [exact H1|exact H2| | |exact H5].
  - intros k j. cbn. intros [[<- <-]|[_ Hj]]%lookup_insert_Some; [|by apply H3].
    unfold issue_ok. rewrite Ho, Hr, Hn. by apply H3.
  - intros k q Hq. destruct (H4 k q Hq) as (? & ? & ? & j & Hj & Hmark).
    split; [done|split; [done|split; [done|]]]. cbn.
    destruct (decide (key = (k.1, issue_number q))) as [->|Hne].
    + exists i'. rewrite lookup_insert_eq, Hm. by rewrite Hj in Hi; injection Hi as ->.
    + exists j. by rewrite lookup_insert_ne.
Qed.

Lemma ok_fields s o n r priv fam t :
  state_ok s → repos s !! (o, n) = Some r →
  state_ok (set_repos (<[(o, n) := set_repo_fields r priv fam t]> (repos s)) s).
Proof.
  intros [H1 H2 H3 H4 H5] Hr.
  assert (Hlook : ∀ key q, repos (set_repos (<[(o, n) := set_repo_fields r priv fam t]>
      (repos s)) s) !! key = Some q →
    ∃ q', repos s !! key = Some q' ∧ repo_id q' = repo_id q ∧ repo_owner q' = repo_owner q
      ∧ repo_name q' = repo_name q).
  { intros key q. cbn. intros [[<- <-]|[_ Hq]]%lookup_insert_Some; [by exists r|by exists q]. }
  assert (Hsome : ∀ key, is_Some (repos s !! key) →
    is_Some (<[(o, n) := set_repo_fields r priv fam t]> (repos s) !! key)).
  { intros key Hk. by apply lookup_insert_is_Some'; right. }
  split; [| | | |exact H5].
  - intros key q (q' & Hq & _ & <- & <-)%Hlook. by apply H1.
  - intros k1 k2 q1 q2 (q1' & Hq1 & <- & _)%Hlook (q2' & Hq2 & <- & _)%Hlook. by eapply H2.
  - intros key i Hi. destruct (H3 key i Hi) as (? & ? & ?). split; [done|split; [done|by apply Hsome]].
  - intros key q Hq. destruct (H4 key q Hq) as (? & ? & ? & ?).
    split; [done|split; [done|split; [by apply Hsome|done]]].
Qed.

Lemma ok_add_review s key pr r cs :
  state_ok s → pulls s !! key = Some pr → (review_owner r, review_repo r, pull_number r) = key →
  self_approval (Some (pr_author pr)) r = false → state_ok (add_review key r cs s).
Proof.
  intros [H1 H2 H3 H4 H5] Hpr Hkey Hself. split; [done|done|done|done|].
  intros k l. cbn. intros [[<- <-]|[_ Hl]]%lookup_insert_Some; [|by apply H5].
  exists pr. split; [exact Hpr|]. apply Forall_app. split; [|by constructor].
  unfold reviews_of. destruct (reviews s !! key) as [l|] eqn:Hl; [|done].
  destruct (H5 _ _ Hl) as (q & Hq & Hall). by rewrite Hpr in Hq; injection Hq as ->.
Qed.

(** ** Deletion *)

Lemma undrained_Some {K} `{Countable K} {V} (o n : string)
    (m : gmap (string * string * K) V) (k : string * string * K) (v : V) :
  undrained o n m !! k = Some v ↔ m !! k = Some v ∧ k.1 ≠ (o, n).
Proof.
  unfold undrained, other_repo. rewrite map_lookup_filter_Some. cbn.
  by rewrite negb_true_iff, bool_decide_eq_false.
Qed.

Lemma counters_drop o n o' n' s :
  (o', n') ≠ (o, n) → counters_of (drop_repository o n s) o' n' = counters_of s o' n'.
Proof. intros Hne. unfold counters_of. cbn. by rewrite lookup_delete_ne. Qed.

Lemma ok_drop s o n : state_ok s → state_ok (drop_repository o n s).
Proof.
  intros [H1 H2 H3 H4 H5]. split.
  - intros key r. cbn. intros [_ Hr]%lookup_delete_Some. by apply H1.
  - intros k1 k2 r1 r2. cbn. intros [_ Hr1]%lookup_delete_Some [_ Hr2]%lookup_delete_Some.
    by eapply H2.
  - intros [[o' n'] k] i [Hi Hne]%undrained_Some. destruct (H3 _ i Hi) as (? & Hk & ?).
    cbn in Hne, Hk |- *. split; [done|split]; cbn.
    + by rewrite counters_drop.
    + by rewrite lookup_delete_ne.
  - intros [[o' n'] k] q [Hq Hne]%undrained_Some. destruct (H4 _ q Hq) as (? & Hk & ? & i & Hi & Hm).
    cbn in Hne, Hk, Hi |- *. split; [done|split; [|split]]; cbn.
    + by rewrite counters_drop.
    + by rewrite lookup_delete_ne.
    + exists i. by rewrite undrained_Some.
  - intros key l [Hl Hne]%undrained_Some. destruct (H5 _ l Hl) as (q & Hq & Hall).
    exists q. split; [|done]. by apply undrained_Some.
Qed.

(** ** Numbering *)

Lemma counters_set o n c s o' n' :
  counters_of (set_counters (<[(o, n) := c]> (counters s)) s) o' n'
  = if decide ((o, n) = (o', n')) then c else counters_of s o' n'.
Proof.
  unfold counters_of. cbn. case_decide as Heq; [by rewrite Heq, lookup_insert_eq|].
  by rewrite lookup_insert_ne.
Qed.

Lemma ok_raise s o n c :
  state_ok s →
  (issue_counter (counters_of s o n) ≤ issue_counter c)%N →
  (pull_counter (counters_of s o n) ≤ pull_counter c)%N →
  state_ok (set_counters (<[(o, n) := c]> (counters s)) s).
Proof.
  intros [H1 H2 H3 H4 H5] Hi Hp. split; [exact H1|exact H2| | |exact H5].
  - intros [[o' n'] k] i Hk. destruct (H3 _ i Hk) as (? & ? & ?).
    split; [done|split; [|done]]. rewrite counters_set. cbn in *.
    case_decide as Heq; [|done]. injection Heq as -> ->. lia.
  - intros [[o' n'] k] q Hk. destruct (H4 _ q Hk) as (? & ? & ? & ?).
    split; [done|split; [|done]]. rewrite counters_set. cbn in *.
    case_decide as Heq; [|done]. injection Heq as -> ->. lia.
Qed.

Lemma ok_new_issue s key i :
  state_ok s → issues s !! key = None → issue_ok s key i →
  state_ok (set_issues (<[key := i]> (issues s)) s).
Proof.
  intros [H1 H2 H3 H4 H5] Hn Hi. split; [exact H1|exact H2| | |exact H5].
  - intros k j. cbn. intros [[<- <-]|[_ Hj]]%lookup_insert_Some; [exact Hi|by apply H3].
  - intros k q Hq. destruct (H4 k q Hq) as (? & ? & ? & j & Hj & Hm).
    split; [done|split; [done|split; [done|]]]. exists j. cbn.
    rewrite lookup_insert_ne; [done|]. intros ->. by rewrite Hj in Hn.
Qed.

Lemma ok_new_pull s key pr :
  state_ok s → pulls s !! key = None → pull_ok s key pr → state_ok (put_pull key pr s).
Proof.
  intros [H1 H2 H3 H4 H5] Hn Hp. split; [exact H1|exact H2|exact H3| |].
  - intros k q. cbn. intros [[<- <-]|[_ Hq]]%lookup_insert_Some; [exact Hp|by apply H4].
  - intros k l Hl. destruct (H5 k l Hl) as (q & Hq & Hall). exists q. split; [|done]. cbn.
    rewrite lookup_insert_ne; [done|]. intros ->. by rewrite Hq in Hn.
Qed.

Lemma fresh_issue s o n k :
  state_ok s → (issue_counter (counters_of s o n) < k)%N → issues s !! (o, n, k) = None.
Proof.
  intros Hok Hk. destruct (issues s !! (o, n, k)) as [i|] eqn:Hi; [|done].
  destruct (ok_issues _ Hok _ _ Hi) as (_ & Hle & _). cbn in Hle. lia.
Qed.

Lemma fresh_pull s o n k :
  state_ok s → (pull_counter (counters_of s o n) < k)%N → pulls s !! (o, n, k) = None.
Proof.
  intros Hok Hk. destruct (pulls s !! (o, n, k)) as [i|] eqn:Hi; [|done].
  destruct (ok_pulls _ Hok _ _ Hi) as (_ & Hle & _). cbn in Hle. lia.
Qed.

(** The state after a number was drawn. *)
Lemma next_issue_ok s o n i s' :
  state_ok s → (issue_counter (counters_of s o n) + 1 < 18446744073709551616)%N →
  next_issue_number o n s = (i, s') →
  i = (issue_counter (counters_of s o n) + 1)%N ∧ state_ok s'
  ∧ counters_of s' o n = {| issue_counter := i; pull_counter := pull_counter (counters_of s o n) |}
  ∧ issues s' = issues s ∧ pulls s' = pulls s ∧ repos s' = repos s.
Proof.
  intros Hok Hr [= <- <-]. unfold wrapping_add64. rewrite N.mod_small by (unfold u64_modulus; lia).
  split_and!; [done| |by rewrite counters_set, decide_True|done..]. apply ok_raise; cbn; [done|lia|lia].
Qed.

Lemma next_pull_ok s o n k s' :
  state_ok s → (pull_counter (counters_of s o n) + 1 < 18446744073709551616)%N →
  next_pull_number o n s = (k, s') →
  k = (pull_counter (counters_of s o n) + 1)%N ∧ state_ok s'
  ∧ counters_of s' o n = {| issue_counter := issue_counter (counters_of s o n); pull_counter := k |}
  ∧ issues s' = issues s ∧ pulls s' = pulls s ∧ repos s' = repos s.
Proof.
  intros Hok Hr [= <- <-]. unfold wrapping_add64. rewrite N.mod_small by (unfold u64_modulus; lia).
  split_and!; [done| |by rewrite counters_set, decide_True|done..]. apply ok_raise; cbn; [done|lia|lia].
Qed.

Lemma ok_opening s s' o n :
  state_ok s → room 1 s → is_Some (repos s !! (o, n)) → opening o n s s' → state_ok s'.
Proof.
  intros Hok Hroom Hrepo. destruct (Hroom o n) as [Hi Hp].
  destruct 1 as [id id' author r t t' i k s1 s2 Hn1 Hn2|id author r t i s1 Hn1];
    apply (next_issue_ok s o n i s1 Hok Hi) in Hn1 as (Hin & Hok1 & Hc1 & Hi1 & Hp1 & Hr1).
  - apply next_pull_ok in Hn2 as (Hkn & Hok2 & Hc2 & Hi2 & Hp2 & Hr2); [|done|by rewrite Hc1].
    rewrite Hc1 in Hkn, Hc2. cbn in Hkn, Hc2. rewrite <-Hr1, <-Hr2 in Hrepo.
    apply ok_new_pull.
    + apply ok_new_issue; [done| |].
      * rewrite Hi2, Hi1. apply fresh_issue; [done|lia].
      * split; [done|]. cbn [fst snd]. rewrite Hc2. cbn. split; [lia|done].
    + cbn. rewrite Hp2, Hp1. apply fresh_pull; [done|lia].
    + eapply pull_ok_same; [apply same_reevaluate|]. split; [done|]. cbn [fst snd].
      split; [|split].
      * change (1 ≤ k ≤ pull_counter (counters_of s2 o n))%N. rewrite Hc2. cbn. lia.
      * exact Hrepo.
      * eexists. cbn [issue_number new_pull]. split; [apply lookup_insert_eq|by eexists].
  - rewrite <-Hr1 in Hrepo. apply ok_new_issue; [done| |].
    + rewrite Hi1. apply fresh_issue; [done|lia].
    + split; [done|]. cbn [fst snd]. rewrite Hc1. cbn. split; [lia|done].
Qed.

(** ** Every change *)

Lemma ok_frame s s' :
  repos s' = repos s → issues s' = issues s → pulls s' = pulls s → reviews s' = reviews s →
  counters s' = counters s → state_ok s → state_ok s'.
Proof.
  intros Hr Hi Hp Hv Hc [H1 H2 H3 H4 H5].
  split; unfold issue_ok, pull_ok, review_ok, counters_of; rewrite ?Hr, ?Hi, ?Hp, ?Hv, ?Hc; done.
Qed.

Lemma ok_repo_change s s' o n : state_ok s → repo_change o n s s' → state_ok s'.
Proof.
  intros Hok. destruct 1; try (by apply (ok_frame s)).
  - by apply ok_fields.
  - by apply ok_drop.
  - by eapply ok_put_pull.
  - by eapply ok_put_pull.
  - by eapply ok_put_pull; [..|apply same_reevaluate].
  - match goal with H : lawful_review _ _ _ _ |- _ => destruct H as (? & _ & ? & _) end.
    by eapply ok_add_review.
  - by eapply ok_put_issue.
  - apply (ok_frame s1); [done..|]. by eapply ok_put_issue.
Qed.

Lemma ok_user_change s s' : state_ok s → user_change s s' → state_ok s'.
Proof. intros Hok []. by apply (ok_frame s). Qed.

Lemma repository_by_id_None s id key r :
  repository_by_id s id = None → repos s !! key = Some r → repo_id r ≠ id.
Proof.
  unfold repository_by_id. intros Hn%find_first_None Hr.
  assert (Hin : r ∈ (map_to_list (repos s)).*2).
  { apply list_elem_of_fmap. exists (key, r). split; [done|]. by apply elem_of_map_to_list. }
  rewrite Forall_forall in Hn. by apply N.eqb_neq, (Hn r).
Qed.

Lemma by_id_of s key r :
  state_ok s → repos s !! key = Some r → repository_by_id s (repo_id r) = Some r.
Proof.
  intros Hok Hr. unfold repository_by_id. destruct (find_first _ _) as [r'|] eqn:Hf.
  - apply find_first_Some in Hf as (l1 & l2 & Hl & Hid & _).
    assert (Hin : r' ∈ (map_to_list (repos s)).*2) by (rewrite Hl; set_solver).
    apply list_elem_of_fmap in Hin as ([key' q] & -> & Hin%elem_of_map_to_list). cbn in Hid |- *.
    apply N.eqb_eq in Hid. assert (key' = key) as -> by (by eapply ok_ids).
    by rewrite Hin in Hr.
  - by destruct (repository_by_id_None s (repo_id r) key r Hf Hr).
Qed.

Lemma ok_add_repository s id owner req t t' :
  state_ok s → repos s !! (owner, new_name req) = None → repository_by_id s id = None →
  state_ok (add_repository id owner req (new_repository id owner req t) t' s).
Proof.
  intros Hok Hkey Hid. set (key := (owner, new_name req)) in *.
  set (r := new_repository id owner req t).
  apply (ok_frame (set_repos (<[key := r]> (repos s))
                     (set_counters (<[key := Counters_default]> (counters s)) s)));
    try (by unfold add_repository, ensure_default_branch_protection;
         destruct (branch_protections _ !! _)).
  destruct Hok as [H1 H2 H3 H4 H5].
  assert (Hcount : ∀ o n, (o, n) ≠ key → counters_of (set_repos (<[key := r]> (repos s))
    (set_counters (<[key := Counters_default]> (counters s)) s)) o n = counters_of s o n).
  { intros o n Hne. unfold counters_of. cbn. by rewrite lookup_insert_ne. }
  split; [| | | |exact H5].
  - intros k q. cbn. intros [[<- <-]|[_ Hq]]%lookup_insert_Some; [done|by apply H1].
  - intros k1 k2 q1 q2. cbn.
    intros [[<- <-]|[_ Hq1]]%lookup_insert_Some [[<- <-]|[_ Hq2]]%lookup_insert_Some; cbn.
    + done.
    + intros Heq. by destruct (repository_by_id_None _ _ _ _ Hid Hq2).
    + intros Heq. by destruct (repository_by_id_None _ _ _ _ Hid Hq1).
    + by eapply H2.
  - intros [[o n] k] i Hi. destruct (H3 _ i Hi) as (? & Hle & Hsome).
    assert ((o, n) ≠ key) by (intros <-; cbn in Hsome; by rewrite Hkey in Hsome; destruct Hsome).
    split; [done|]. cbn in *. rewrite Hcount, lookup_insert_ne by done. done.
  - intros [[o n] k] i Hi. destruct (H4 _ i Hi) as (? & Hle & Hsome & ?).
    assert ((o, n) ≠ key) by (intros <-; cbn in Hsome; by rewrite Hkey in Hsome; destruct Hsome).
    split; [done|]. cbn in *. rewrite Hcount, lookup_insert_ne by done. done.
Qed.

Lemma ok_creation_change s s' : state_ok s → creation_change s s' → state_ok s'.
Proof. intros Hok []; [by apply ok_add_repository|by apply (ok_frame s)]. Qed.

Lemma room_user s s' k : room k s → rtc user_change s s' → room k s'.
Proof. intros Hroom. induction 1 as [|s s1 s' []]; auto. Qed.

Lemma ok_rtc {R : State → State → Prop} s s' :
  (∀ a b, state_ok a → R a b → state_ok b) → state_ok s → rtc R s s' → state_ok s'.
Proof. intros HR Hok. induction 1; eauto. Qed.

Lemma ok_change s s' : state_ok s → room 1 s → change s s' → state_ok s'.
Proof.
  intros Hok Hroom [s1 Hu|s1 Hg|s1 Hc|id b _ _|o n s1 s2 s3 Hu Hw Ho Hr].
  - eapply ok_rtc; [apply ok_user_change|done|done].
  - destruct Hg; by apply (ok_frame s).
  - eapply ok_rtc; [apply ok_creation_change|done|done].
  - by apply (ok_frame s).
  - assert (Hok1 : state_ok s1) by (eapply ok_rtc; [apply ok_user_change|done|done]).
    eapply ok_rtc; [intros ? ?; apply ok_repo_change| |exact Hr].
    destruct Ho as [->|Ho]; [done|]. eapply ok_opening; [done| | |done].
    + by eapply room_user.
    + destruct Hw as (r & Hrepo & _). by eexists.
Qed.

(** ** A change takes one number of a repository at most *)

Lemma counters_repo_change s s' o n k :
  room k s → repo_change o n s s' → room k s'.
Proof.
  intros Hroom. destruct 1; try exact Hroom. intros o' n'. unfold counters_of. cbn.
  destruct (decide ((o, n) = (o', n'))) as [->|Hne].
  - rewrite lookup_delete_eq. cbn. specialize (Hroom o' n'). lia.
  - rewrite lookup_delete_ne by done. apply Hroom.
Qed.

Lemma room_mono j k s : (j ≤ k)%N → room k s → room j s.
Proof. intros Hle Hroom o n. specialize (Hroom o n). lia. Qed.

Lemma room_opening s s' o n k : room (1 + k) s → opening o n s s' → room k s'.
Proof.
  intros Hroom.
  assert (Hcount : ∀ s1 c, (issue_counter c + k < 18446744073709551616)%N →
    (pull_counter c + k < 18446744073709551616)%N →
    room k s1 → room k (set_counters (<[(o, n) := c]> (counters s1)) s1)).
  { intros s1 c Hi Hp H1 o' n'. rewrite counters_set. case_decide; [done|apply H1]. }
  destruct (Hroom o n) as [Hi Hp].
  assert (Hk : room k s) by (apply (room_mono _ (1 + k)); [lia|done]).
  destruct 1 as [id id' author r t t' i m s1 s2 Hn1 Hn2|id author r t i s1 Hn1].
  - intros o' n'. change (issue_counter (counters_of s2 o' n') + k < 18446744073709551616
      ∧ pull_counter (counters_of s2 o' n') + k < 18446744073709551616)%N. revert o' n'.
    change (room k s2). injection Hn1 as <- <-. injection Hn2 as <- <-.
    apply Hcount; cbn; rewrite ?counters_set, ?decide_True by done; cbn.
    1-2: unfold wrapping_add64, u64_modulus; rewrite N.mod_small by lia; lia.
    apply Hcount; cbn; [|lia|done]. unfold wrapping_add64, u64_modulus; rewrite N.mod_small by lia; lia.
  - injection Hn1 as <- <-.
    apply Hcount; cbn; [|lia|done]. unfold wrapping_add64, u64_modulus; rewrite N.mod_small by lia; lia.
Qed.

End invariant.
