(* ===== verification/ForgeCalls.v ===== *)
(** ForgeCalls: the calls of the forge as one machine, and the laws of its runs.

    [Call] lists the mutations of the engine and [run] executes one; [serve] a sequence of
    them. Each call refines [change]; a run keeps the invariant of [ForgeInvariant] as long
    as there are numbers left, and never touches a restricted repository. *)

From S2P Require Import Prelude Text Clock BranchProtection ForgeState Forge ForgeLaws.
From S2P Require Import ForgeInvariant.
Local Open Scope forge_scope.

Section heads.
Context `{ES : ForgeEnvSpec}.

(** ** The remaining calls *)

Lemma head_keys_open o n ref_ s : state_ok s → Forall (open_key o n s) (head_keys o n ref_ s).
Proof.
  intros Hok. unfold head_keys. apply Forall_forall. intros key Hkey.
  rewrite pull_order_perm in Hkey.
  apply list_elem_of_fmap in Hkey as ([k pr] & -> & Hin).
  apply list_elem_of_filter in Hin as [(Ho & Hn & _ & Hopen) Hin].
  apply elem_of_map_to_list in Hin. destruct (ok_pulls _ Hok _ _ Hin) as (Hk & _). cbn in *.
  exists (number pr), pr. split_and!; [by rewrite <-Hk, Ho, Hn|done|done].
Qed.

Lemma refresh_for_ref_refines o n ref_ h c :
  saved c → state_ok (state c) →
  wp (refresh_pull_request_heads_for_ref o n ref_ h) (post (state c)) c.
Proof.
  intros Hsaved Hok. eapply wp_repository; [exact Hsaved|done| |by intros; apply post_same].
  clear Hsaved. revert Hok. generalize (state c) as s. clear c. intros s Hok c Hc Hs Hw.
  repeat forge_step; try refused; [by apply post_same|].
  match goal with H : head_keys _ _ _ _ = _ |- _ => rename H into Hkeys end.
  pose proof (head_keys_open o n ref_ s Hok) as Hall. rewrite Hkeys in Hall.
  eapply wp_refresh_heads; [done|done|done|]. intros prs s' d Hd Hsd Hr.
  repeat forge_step; try refused. finish. exact Hr.
Qed.

Lemma ensure_user_refines login : refines (ensure_user login).
Proof.
  intros c s Hc Hs. unfold ensure_user, with_global_mutation.
  repeat forge_step; try refused.
  split; [done|]. match goal with H : state ?c = _ |- _ => rewrite H end. by apply Ch_users.
Qed.

(** A creation may leave its row when it fails afterwards. *)
Definition post_creation {A} (s0 : State) (r : result A ForgeError) (c : Core) : Prop :=
  saved c ∧ rtc creation_change s0 (state c).

Lemma post_creation_at {A} s0 (r : result A ForgeError) c s :
  saved c → state c = s → rtc creation_change s0 s → post_creation s0 r c.
Proof. by intros Hc <- Hr. Qed.

Lemma create_admitted_refines id o req c s :
  saved c → state c = s → wp (create_repository_with_id_admitted id o req) (post_creation s) c.
Proof.
  intros Hc Hs. unfold create_repository_with_id_admitted, creation_row.
  repeat wp_step; eapply post_creation_at; try done; try eassumption.
  all: try (apply rtc_once, Cc_materialized).
  all: repeat match goal with H : _ || _ = false |- _ => apply orb_false_iff in H as [? ?] end.
  all: repeat match goal with H : bool_decide _ = false |- _ => apply bool_decide_eq_false in H end.
  all: repeat match goal with H : ¬ is_Some _ |- _ => apply eq_None_not_Some in H end.
  all: match goal with H : is_nil_uuid _ = false |- _ => apply N.eqb_neq in H end.
  all: try (by apply rtc_once, Cc_row).
  all: eapply rtc_l; [by apply Cc_row|]; by apply rtc_once, Cc_materialized.
Qed.

Lemma create_with_id_refines id o req c s :
  saved c → state c = s → wp (create_repository_with_id id o req) (post_creation s) c.
Proof.
  intros Hc Hs. unfold create_repository_with_id. repeat wp_step.
  all: try (eapply post_creation_at; done).
  all: by apply create_admitted_refines.
Qed.

Lemma create_repository_refines o req c s :
  saved c → state c = s → wp (create_repository o req) (post_creation s) c.
Proof. intros Hc Hs. unfold create_repository. repeat wp_step. by apply create_with_id_refines. Qed.

(** ** The machine *)

(** The mutations of [ForgeEngine]. *)
Inductive Call : Type :=
  | C_create_user (login : string) (name email : option string)
  | C_ensure_user (login : string)
  | C_create_repository (owner : string) (r : CreateRepositoryRequest)
  | C_create_repository_with_id (id : Uuid) (owner : string) (r : CreateRepositoryRequest)
  | C_set_repository_family (owner repo : string) (id : option Uuid) (fam : option string)
  | C_set_repository_visibility (owner repo : string) (priv : bool)
  | C_create_organization (login : string) (display : option string)
  | C_create_team (org : string) (r : CreateTeamRequest)
  | C_delete_repository (owner repo : string)
  | C_block_repository_mutations (id : Uuid) (b : RepositoryMutationBlock)
  | C_set_branch_protection (owner repo branch : string) (r : SetBranchProtectionRequest)
  | C_store_codeowners (owner repo contents : string)
  | C_set_repository_readme (owner repo markdown : string)
  | C_ref_operation (owner repo branch : string) (op : RefOperation) (admin : bool)
  | C_create_pull_request (owner repo author : string) (r : CreatePullRequestRequest)
  | C_update_pull_request (owner repo : string) (n : N) (r : UpdatePullRequestRequest)
  | C_refresh_pull_request_heads_for_ref (owner repo ref_ h : string)
  | C_merge_pull_request (owner repo : string) (n : N)
  | C_create_review (owner repo : string) (n : N) (author : string) (r : CreateReviewRequest)
  | C_dismiss_review (owner repo : string) (n : N) (actor : string) (r : DismissReviewRequest)
  | C_create_issue (owner repo author : string) (r : CreateIssueRequest)
  | C_update_issue (owner repo : string) (n : N) (r : UpdateIssueRequest)
  | C_add_issue_comment (owner repo : string) (n : N) (author body : string)
  | C_create_label (owner repo name color_ : string) (desc : option string)
  | C_create_commit_status (owner repo sha_ creator_ : string) (st : CommitStatusState)
      (context_ : string) (desc target : option string)
  | C_create_check_run (owner repo : string) (r : CreateCheckRunRequest)
  | C_create_webhook (owner repo : string) (r : CreateWebhookRequest)
  | C_record_jankurai_score (owner repo : string) (r : RecordJankuraiScoreRequest).

Definition discard {A} (m : M A) : M unit := _ <<- m;; ret tt.

Definition run (call : Call) : M unit :=
  match call with
  | C_create_user login name email => discard (create_user login name email)
  | C_ensure_user login => discard (ensure_user login)
  | C_create_repository owner r => discard (create_repository owner r)
  | C_create_repository_with_id id owner r => discard (create_repository_with_id id owner r)
  | C_set_repository_family o n id fam => discard (set_repository_family_for_identity o n id fam)
  | C_set_repository_visibility o n priv => discard (set_repository_visibility o n priv)
  | C_create_organization login display => discard (create_organization login display)
  | C_create_team org r => discard (create_team org r)
  | C_delete_repository o n => discard (delete_repository o n)
  | C_block_repository_mutations id b => discard (block_repository_mutations id b)
  | C_set_branch_protection o n branch r => discard (set_branch_protection o n branch r)
  | C_store_codeowners o n contents => store_codeowners o n contents
  | C_set_repository_readme o n markdown => discard (set_repository_readme o n markdown)
  | C_ref_operation o n branch op admin => ref_operation o n branch op admin
  | C_create_pull_request o n author r => discard (create_pull_request o n author r)
  | C_update_pull_request o n k r => discard (update_pull_request o n k r)
  | C_refresh_pull_request_heads_for_ref o n ref_ h =>
      discard (refresh_pull_request_heads_for_ref o n ref_ h)
  | C_merge_pull_request o n k => merge_pull_request o n k
  | C_create_review o n k author r => discard (create_review o n k author r)
  | C_dismiss_review o n k actor r => discard (dismiss_review o n k actor r)
  | C_create_issue o n author r => discard (create_issue o n author r)
  | C_update_issue o n k r => discard (update_issue o n k r)
  | C_add_issue_comment o n k author body => discard (add_issue_comment o n k author body)
  | C_create_label o n name col desc => discard (create_label o n name col desc)
  | C_create_commit_status o n sha_ creator_ st ctx desc target =>
      discard (create_commit_status o n sha_ creator_ st ctx desc target)
  | C_create_check_run o n r => discard (create_check_run o n r)
  | C_create_webhook o n r => discard (create_webhook o n r)
  | C_record_jankurai_score o n r => discard (record_jankurai_score o n r)
  end.

(** Calls one after the other, refused or not. *)
Fixpoint serve (calls : list Call) (c : Core) : Core :=
  match calls with
  | [] => c
  | call :: calls => serve calls (run call c).2
  end.

(** What a refused call may leave behind. *)
Definition leftover (call : Call) : State → State → Prop :=
  match call with
  | C_create_repository _ _ | C_create_repository_with_id _ _ _ => rtc creation_change
  | _ => rtc user_change
  end.

Definition call_post (call : Call) (s0 : State) (r : result unit ForgeError) (c : Core) : Prop :=
  saved c ∧ match r with
            | Ok _ => change s0 (state c)
            | Err _ => leftover call s0 (state c)
            end.

Lemma wp_discard {A} (m : M A) (Q : result unit ForgeError → Core → Prop) c :
  wp m (λ r c', Q (match r with Ok _ => Ok tt | Err e => Err e end) c') c → wp (discard m) Q c.
Proof. unfold wp, discard, bind. by destruct (m c) as [[x|e] c']. Qed.

Lemma discard_post {A} (m : M A) call c s :
  leftover call = rtc user_change → wp m (post s) c → wp (discard m) (call_post call s) c.
Proof.
  intros Hl Hm. apply wp_discard. eapply wp_mono; [exact Hm|]. intros [x|e] c' [Hc H]; split;
    rewrite ?Hl; done.
Qed.

Lemma discard_creation {A} (m : M A) call c s :
  leftover call = rtc creation_change → wp m (post_creation s) c →
  wp (discard m) (call_post call s) c.
Proof.
  intros Hl Hm. apply wp_discard. eapply wp_mono; [exact Hm|]. intros [x|e] c' [Hc H]; split;
    rewrite ?Hl; try done. by apply Ch_creation.
Qed.

Hint Resolve create_user_refines ensure_user_refines family_refines visibility_refines
  create_organization_refines create_team_refines delete_repository_refines
  block_refines set_branch_protection_refines set_readme_refines create_pull_request_refines
  update_pull_request_refines create_review_refines dismiss_review_refines create_issue_refines
  update_issue_refines add_issue_comment_refines create_label_refines
  create_commit_status_refines create_check_run_refines create_webhook_refines
  record_score_refines refresh_for_ref_refines create_repository_refines
  create_with_id_refines : core.

Lemma discard_refines {A} (m : M A) call c :
  refines m → leftover call = rtc user_change → saved c →
  wp (discard m) (call_post call (state c)) c.
Proof. intros Hm Hl Hc. apply discard_post; [done|]. by apply Hm. Qed.

Lemma run_refines call c :
  saved c → state_ok (state c) → wp (run call) (call_post call (state c)) c.
Proof.
  intros Hc Hok. destruct call; cbn [run];
    try (apply discard_refines; [by auto|done|done]);
    try (apply discard_creation; [done|by auto]);
    try (apply discard_post; [done|by auto]).
  - by apply store_codeowners_refines.
  - by apply ref_operation_refines.
  - by apply merge_refines.
Qed.

Lemma ok_leftover call s s' : state_ok s → leftover call s s' → state_ok s'.
Proof.
  intros Hok Hl. destruct call; cbn in Hl; (eapply ok_rtc; [|exact Hok|exact Hl]);
    (apply ok_user_change || apply ok_creation_change).
Qed.

(** ** Runs *)

Lemma room_creation s s' k : room k s → creation_change s s' → room k s'.
Proof.
  intros Hroom [id owner req t t' _ _ _ _|id]; [|exact Hroom]. intros o n.
  assert (Hc : counters (add_repository id owner req (new_repository id owner req t) t' s)
    = <[(owner, new_name req) := Counters_default]> (counters s)).
  { unfold add_repository, ensure_default_branch_protection.
    by destruct (branch_protections _ !! _). }
  unfold counters_of. rewrite Hc. specialize (Hroom o n). unfold counters_of in Hroom.
  destruct (decide ((owner, new_name req) = (o, n))) as [->|Hne].
  - rewrite lookup_insert_eq. cbn. lia.
  - by rewrite lookup_insert_ne.
Qed.

Lemma room_rtc {R : State → State → Prop} k s s' :
  (∀ a b, room k a → R a b → room k b) → room k s → rtc R s s' → room k s'.
Proof. intros HR Hroom. induction 1; eauto. Qed.

Lemma room_change s s' k : room (1 + k) s → change s s' → room k s'.
Proof.
  intros Hroom [s1 Hu|s1 Hg|s1 Hc|id b _ _|o n s1 s2 s3 Hu Hw Ho Hr];
    assert (Hk : room k s) by (apply (room_mono _ (1 + k)); [lia|done]).
  - by eapply room_user.
  - by destruct Hg.
  - eapply room_rtc; [intros ? ?; apply room_creation|done|done].
  - done.
  - eapply room_rtc; [intros ? ? ? ?; by eapply counters_repo_change| |exact Hr].
    assert (Hk1 : room (1 + k) s1) by (by eapply room_user).
    destruct Ho as [->|Ho]; [apply (room_mono _ (1 + k)); [lia|done]|by eapply room_opening].
Qed.

Lemma room_leftover call s s' k : room k s → leftover call s s' → room k s'.
Proof.
  intros Hroom Hl. destruct call; cbn in Hl;
    first [by eapply room_user | eapply room_rtc; [intros ? ?; apply room_creation|done|done]].
Qed.

Lemma run_ok call c k :
  saved c → state_ok (state c) → room (1 + k) (state c) →
  saved (run call c).2 ∧ state_ok (state (run call c).2) ∧ room k (state (run call c).2).
Proof.
  intros Hc Hok Hroom. destruct (run_refines call c Hc Hok) as [Hs Hpost]. split; [done|].
  destruct (run call c).1 as [u|e].
  - split; [eapply ok_change; [done| |done]|by eapply room_change].
    apply (room_mono _ (1 + k)); [lia|done].
  - split; [by eapply ok_leftover|]. eapply room_leftover; [|done].
    apply (room_mono _ (1 + k)); [lia|done].
Qed.

Lemma serve_ok calls c k :
  saved c → state_ok (state c) → room (N.of_nat (length calls) + k) (state c) →
  saved (serve calls c) ∧ state_ok (state (serve calls c)) ∧ room k (state (serve calls c)).
Proof.
  revert c. induction calls as [|call calls IH]; intros c Hc Hok Hroom; [done|].
  destruct (run_ok call c (N.of_nat (length calls) + k) Hc Hok) as (Hc' & Hok' & Hroom').
  { replace (1 + _)%N with (N.of_nat (length (call :: calls)) + k)%N by (cbn [length]; lia). done. }
  by apply IH.
Qed.

(** ** What another repository sees *)

(** The rows of a repository. *)
Definition same_repo (o n : string) (s s' : State) : Prop :=
  let key := (o, n) in
  repos s' !! key = repos s !! key
  ∧ (∀ k, labels s' !! (key, k) = labels s !! (key, k))
  ∧ (∀ k, issues s' !! (key, k) = issues s !! (key, k))
  ∧ (∀ k, issue_comments s' !! (key, k) = issue_comments s !! (key, k))
  ∧ (∀ k, pulls s' !! (key, k) = pulls s !! (key, k))
  ∧ (∀ k, reviews s' !! (key, k) = reviews s !! (key, k))
  ∧ (∀ k, review_comments s' !! (key, k) = review_comments s !! (key, k))
  ∧ (∀ k, branch_protections s' !! (key, k) = branch_protections s !! (key, k))
  ∧ codeowners_ s' !! key = codeowners_ s !! key
  ∧ readmes s' !! key = readmes s !! key
  ∧ (∀ k, statuses s' !! (key, k) = statuses s !! (key, k))
  ∧ check_runs s' !! key = check_runs s !! key
  ∧ webhooks s' !! key = webhooks s !! key
  ∧ filter (λ d, (delivery_owner d, delivery_repo d) = key) (webhook_deliveries s')
    = filter (λ d, (delivery_owner d, delivery_repo d) = key) (webhook_deliveries s)
  ∧ counters s' !! key = counters s !! key
  ∧ jankurai_scores s' !! key = jankurai_scores s !! key.

#[export] Instance same_repo_refl o n : Reflexive (same_repo o n).
Proof. intros s. unfold same_repo. by split_and!. Qed.

#[export] Instance same_repo_trans o n : Transitive (same_repo o n).
Proof.
  intros s1 s2 s3 H1 H2. unfold same_repo in *.
  decompose [and] H1. decompose [and] H2. split_and!; intros; etrans; eauto.
Qed.

Lemma filter_deliveries_app o n o' n' (l ds : list WebhookDelivery) :
  (o', n') ≠ (o, n) → Forall (λ d, delivery_owner d = o' ∧ delivery_repo d = n') ds →
  filter (λ d, (delivery_owner d, delivery_repo d) = (o, n)) (l ++ ds)
  = filter (λ d, (delivery_owner d, delivery_repo d) = (o, n)) l.
Proof.
  intros Hne Hds. rewrite filter_app. induction Hds as [|d ds [<- <-] _ IH]; [by rewrite app_nil_r|].
  by rewrite filter_cons_False.
Qed.

Lemma undrained_ne {K} `{Countable K} {V} (o n : string) (m : gmap (string * string * K) V) k j :
  k ≠ (o, n) → undrained o n m !! (k, j) = m !! (k, j).
Proof.
  intros Hne. apply option_eq. intros v. rewrite undrained_Some. cbn. naive_solver.
Qed.

(** Changes of another repository: only their own keys are written. *)
Ltac elsewhere :=
  unfold same_repo; cbn; split_and!; intros;
  rewrite ?lookup_insert_ne, ?lookup_delete_ne, ?undrained_ne by congruence; try done.

Lemma repo_change_elsewhere o n o' n' s s' :
  (o', n') ≠ (o, n) → repo_change o' n' s s' → same_repo o n s s'.
Proof.
  intros Hne. destruct 1; try (elsewhere; by rewrite lookup_insert_ne by congruence).
  - elsewhere. by rewrite list_filter_filter_l by naive_solver.
  - elsewhere. by apply (filter_deliveries_app o n o' n').
Qed.

Lemma opening_elsewhere o n o' n' s s' :
  (o', n') ≠ (o, n) → opening o' n' s s' → same_repo o n s s'.
Proof.
  intros Hne. destruct 1 as [id id' author r t t' i k s1 s2 [= <- <-] [= <- <-]
                            |id author r t i s1 [= <- <-]]; elsewhere.
Qed.

Lemma user_elsewhere o n s s' : user_change s s' → same_repo o n s s'.
Proof. intros []. elsewhere. Qed.

Lemma creation_elsewhere o n s s' :
  is_Some (repos s !! (o, n)) → creation_change s s' → same_repo o n s s'.
Proof.
  intros [r Hr] [id owner req t t' _ Hnew _ _|id]; [|elsewhere].
  assert ((owner, new_name req) ≠ (o, n)) by (intros Heq; by rewrite Heq, Hr in Hnew).
  unfold add_repository, ensure_default_branch_protection. cbn.
  destruct (branch_protections s !! _); elsewhere.
Qed.

(** A restricted repository: the reason why it takes no writes. *)
Definition restricted (o n : string) (e : ForgeError) (s : State) : Prop :=
  ∃ r, repos s !! (o, n) = Some r ∧ require_repository_admissible s (repo_id r) true = Err e.

Lemma restricted_keep o n e s s' :
  state_ok s → state_ok s' → repos s' !! (o, n) = repos s !! (o, n) →
  (∀ id b, repository_mutation_blocks s !! id = Some b →
     repository_mutation_blocks s' !! id = Some b) →
  restricted o n e s → restricted o n e s'.
Proof.
  intros Hok Hok' Hr Hb (r & Hs & He). exists r. rewrite Hr. split; [done|].
  revert He. unfold require_repository_admissible.
  rewrite (by_id_of s (o, n) r Hok Hs), (by_id_of s' (o, n) r Hok' (eq_trans Hr Hs)).
  destruct (true && _); [done|].
  destruct (repository_mutation_blocks s !! repo_id r) as [b|] eqn:Hblock; [|done].
  by rewrite (Hb _ _ Hblock).
Qed.

Lemma restricted_not_writable o n e s : restricted o n e s → ¬ writable s o n.
Proof. intros (r & Hr & He) (r' & Hr' & Ha). rewrite Hr in Hr'. injection Hr' as <-. by rewrite He in Ha. Qed.

(** ** Restricted repositories *)

(** Restrictions are recorded once and never lifted. *)
Definition blocks_kept (s s' : State) : Prop :=
  ∀ id b, repository_mutation_blocks s !! id = Some b →
          repository_mutation_blocks s' !! id = Some b.

Definition untouched (o n : string) (s s' : State) : Prop :=
  same_repo o n s s' ∧ blocks_kept s s'.

Lemma untouched_trans o n s1 s2 s3 :
  untouched o n s1 s2 → untouched o n s2 s3 → untouched o n s1 s3.
Proof. intros [H1 B1] [H2 B2]. split; [by etrans|]. intros id b Hb. by apply B2, B1. Qed.

Lemma untouched_refl o n s : untouched o n s s.
Proof. split; [done|by intros id b]. Qed.

Lemma same_repo_row o n s s' : same_repo o n s s' → repos s' !! (o, n) = repos s !! (o, n).
Proof. by intros [H _]. Qed.

Lemma untouched_rtc {R : State → State → Prop} o n s s' :
  (∀ a b, is_Some (repos a !! (o, n)) → R a b → untouched o n a b) →
  is_Some (repos s !! (o, n)) → rtc R s s' → untouched o n s s'.
Proof.
  intros HR Hsome. induction 1 as [s|s s1 s' H1 _ IH]; [apply untouched_refl|].
  pose proof (HR _ _ Hsome H1) as Hu. eapply untouched_trans; [exact Hu|]. apply IH.
  by rewrite (same_repo_row o n s s1) by apply Hu.
Qed.

Lemma user_untouched o n s s' : user_change s s' → untouched o n s s'.
Proof. intros H. split; [by apply user_elsewhere|]. destruct H. by intros ? ?. Qed.

Lemma creation_untouched o n s s' :
  is_Some (repos s !! (o, n)) → creation_change s s' → untouched o n s s'.
Proof.
  intros Hr H. split; [by apply creation_elsewhere|].
  destruct H as [id owner req t t' _ _ _ _|]; [|by intros ? ?].
  unfold add_repository, ensure_default_branch_protection, blocks_kept.
  destruct (branch_protections _ !! _); by intros ? ?.
Qed.

Lemma repo_change_untouched o n o' n' s s' :
  (o', n') ≠ (o, n) → repo_change o' n' s s' → untouched o n s s'.
Proof. intros Hne H. split; [by eapply repo_change_elsewhere|]. destruct H; by intros ? ?. Qed.

Lemma opening_untouched o n o' n' s s' :
  (o', n') ≠ (o, n) → opening o' n' s s' → untouched o n s s'.
Proof.
  intros Hne H. split; [by eapply opening_elsewhere|].
  destruct H as [? ? ? ? ? ? ? ? s1 s2 [= <- <-] [= <- <-]|? ? ? ? ? s1 [= <- <-]]; by intros ? ?.
Qed.

Lemma restricted_user o n e s s' : rtc user_change s s' → restricted o n e s → restricted o n e s'.
Proof. induction 1 as [|s s1 s' Hu _ IH]; [done|]. intros Hr. apply IH. by destruct Hu. Qed.

Lemma restricted_untouched o n e s s' :
  restricted o n e s → change s s' → untouched o n s s'.
Proof.
  intros Hr. assert (Hsome : is_Some (repos s !! (o, n))) by (destruct Hr as (r & Hr & _); by eexists).
  intros [s1 Hu|s1 Hg|s1 Hc|id b _ Hnew|o' n' s1 s2 s3 Hu Hw Ho Hch].
  - eapply untouched_rtc; [intros; by apply user_untouched|done|done].
  - destruct Hg; split; [elsewhere|by intros ? ?|elsewhere|by intros ? ?].
  - eapply untouched_rtc; [intros ? ? ?; by apply creation_untouched|done|done].
  - split; [done|]. intros id' b' Hb. cbn. destruct (decide (id = id')) as [->|Hne].
    + by rewrite Hnew in Hb.
    + by rewrite lookup_insert_ne.
  - assert (Hne : (o', n') ≠ (o, n)).
    { intros [= -> ->]. apply (restricted_not_writable o n e s1); [|done]. by eapply restricted_user. }
    assert (U1 : untouched o n s s1).
    { eapply untouched_rtc; [intros; by apply user_untouched|done|done]. }
    assert (U2 : untouched o n s s2).
    { destruct Ho as [->|Ho]; [done|]. eapply untouched_trans; [done|]. by eapply opening_untouched. }
    eapply untouched_trans; [exact U2|].
    eapply untouched_rtc; [intros; by eapply repo_change_untouched| |done].
    by rewrite (same_repo_row o n s s2) by apply U2.
Qed.

Lemma leftover_untouched call o n s s' :
  is_Some (repos s !! (o, n)) → leftover call s s' → untouched o n s s'.
Proof.
  intros Hsome Hl.
  destruct call; cbn in Hl; (eapply untouched_rtc; [|done|exact Hl]);
    intros; (by apply user_untouched) || (by apply creation_untouched).
Qed.

(** C7: every call of the engine is a move of the abstract engine: if it succeeds, what it did
    is one [change] (profiles, a creation, a restriction, or numbered rows and changes in one
    repository that takes writes), and if it is refused it left nothing but display profiles,
    or the row of an unfinished creation. The database always holds the live state. *)
Theorem forge_calls_refine call c :
  saved c → state_ok (state c) →
  saved (run call c).2
  ∧ match (run call c).1 with
    | Ok _ => change (state c) (state (run call c).2)
    | Err _ => leftover call (state c) (state (run call c).2)
    end.
Proof. intros Hc Hok. apply (run_refines call c Hc Hok). Qed.

(** C4: the state of the forge stays well formed through any sequence of calls for which there
    are numbers left: rows stand under the keys their fields name, identities are unique,
    issue and pull request numbers lie within the counters of their repository, every pull
    request has its issue, and no stored review is the author's own approval. *)
Theorem forge_invariant calls c :
  saved c → state_ok (state c) → room (N.of_nat (length calls)) (state c) →
  saved (serve calls c) ∧ state_ok (state (serve calls c)).
Proof.
  intros Hc Hok Hroom. destruct (serve_ok calls c 0 Hc Hok) as (? & ? & _); [|done].
  by rewrite N.add_0_r.
Qed.

(** C6: a repository that is archived, disabled, read-only or awaiting reconciliation keeps
    every row it has, its counters, policies and deliveries included, through any sequence of
    calls, and stays refused for the same reason. *)
Theorem restricted_repository_frozen calls c o n e :
  saved c → state_ok (state c) → room (N.of_nat (length calls)) (state c) →
  restricted o n e (state c) →
  same_repo o n (state c) (state (serve calls c)) ∧ restricted o n e (state (serve calls c)).
Proof.
  revert c. induction calls as [|call calls IH]; intros c Hc Hok Hroom Hr; [done|].
  destruct (run_ok call c (N.of_nat (length calls)) Hc Hok) as (Hc' & Hok' & Hroom').
  { replace (1 + _)%N with (N.of_nat (length (call :: calls))) by (cbn [length]; lia). done. }
  assert (U : untouched o n (state c) (state (run call c).2)).
  { destruct (run_refines call c Hc Hok) as [_ Hpost].
    destruct (run call c).1 as [u|x]; [by eapply restricted_untouched|].
    eapply leftover_untouched; [|done]. destruct Hr as (r & Hr & _). by eexists. }
  assert (Hr' : restricted o n e (state (run call c).2)).
  { eapply restricted_keep; [exact Hok|done|apply same_repo_row, U|apply U|done]. }
  destruct (IH _ Hc' Hok' Hroom' Hr') as [Hsame Hres]. split; [|done]. cbn [serve].
  etrans; [apply U|done].
Qed.

End heads.
