(* ===== verification/ForgeBehaviour.v ===== *)
(** ForgeBehaviour: what particular calls of the forge achieve.

    Advisory rows never move the merge gate; a deletion leaves nothing behind and touches
    nothing else; a creation that failed to materialize is resumed by asking again; a push
    takes every open pull request of the branch to the new head, where only reviews bound
    to that head count; the score history is bounded. *)

From S2P Require Import Prelude Text Clock BranchProtection ForgeState Forge ForgeLaws.
From S2P Require Import ForgeInvariant ForgeCalls.
Local Open Scope forge_scope.

Section inert.
Context `{E : ForgeEnv}.

(** ** Advisory rows *)

(** A pull request but for what the evaluation itself writes. *)
Definition settled (pr : PullRequest) : PullRequest := set_mergeability pr PRS_Open false "".

Lemma settled_reevaluate t s pr : settled (reevaluate t s pr) = settled pr.
Proof.
  unfold reevaluate, apply_evaluation.
  by destruct (merged pr || _); [|destruct (bool_decide (pr_state pr = PRS_Closed))].
Qed.

(** All that a merge verdict reads. *)
Record same_gate (s s' : State) : Prop := {
  sg_rules : branch_protections s' = branch_protections s;
  sg_owners : codeowners_ s' = codeowners_ s;
  sg_bound : bound_reviews s' = bound_reviews s;
  sg_accounts : accounts s' = accounts s;
  sg_users : users s' = users s;
  sg_sessions : sessions s' = sessions s;
  sg_tokens : personal_tokens s' = personal_tokens s;
  sg_grants : repo_grants s' = repo_grants s;
  sg_repos : repos s' = repos s;
  sg_pulls key : settled <$> pulls s' !! key = settled <$> pulls s !! key
}.

Lemma same_gate_refl s : same_gate s s.
Proof. by split. Qed.

Lemma same_gate_trans s1 s2 s3 : same_gate s1 s2 → same_gate s2 s3 → same_gate s1 s3.
Proof. intros [] []. split; intros; etrans; eauto. Qed.

Lemma gate_put_pull s s' key pr t s1 :
  pulls s' !! key = Some pr → same_gate s s' → same_gate s (put_pull key (reevaluate t s1 pr) s').
Proof.
  intros Hpr [H1 H2 H3 H4 H5 H6 H7 H8 H9 H10]. split; try done. intros k. rewrite <-H10. cbn.
  destruct (decide (key = k)) as [->|Hne].
  - by rewrite lookup_insert_eq, Hpr; cbn [fmap option_fmap option_map]; rewrite settled_reevaluate.
  - by rewrite lookup_insert_ne.
Qed.

Lemma evaluate_settled t s pr req :
  evaluate_locked t s (settled pr) req = evaluate_locked t s pr req.
Proof. reflexivity. Qed.

Lemma evaluate_same_gate t s s' pr req :
  same_gate s s' → evaluate_locked t s' pr req = evaluate_locked t s pr req.
Proof.
  intros [H1 H2 H3 H4 H5 H6 H7 H8 H9 _].
  unfold evaluate_locked, bound_reviews_for_evaluation, reduced_bound_events, events_at_head,
    event_counts, validate_actor_binding, live_credential, require_access, protection_of,
    codeowners_of.
  by rewrite H1, H2, H3, H4, H5, H6, H7, H8, H9.
Qed.

Lemma evaluate_pull_same_gate t s s' o n k req :
  same_gate s s' → evaluate_pull_request t s' o n k req = evaluate_pull_request t s o n k req.
Proof.
  intros Hg. pose proof (sg_pulls _ _ Hg (o, n, k)) as Hp. unfold evaluate_pull_request.
  destruct (pulls s' !! (o, n, k)) as [p'|], (pulls s !! (o, n, k)) as [p|]; try done.
  apply (inj Some) in Hp. f_equal.
  rewrite <-(evaluate_settled t s' p'), <-(evaluate_settled t s p).
  rewrite Hp. by apply evaluate_same_gate.
Qed.

Lemma gate_refresh_sha t o n sha_ s :
  same_gate s (refresh_pull_mergeability_for_sha t o n sha_ s).
Proof.
  unfold refresh_pull_mergeability_for_sha.
  generalize (filter (λ kp, kp.1.1 = (o, n) ∧ sha (head kp.2) = sha_) (map_to_list (pulls s))).*1.
  intros keys. revert s. induction keys as [|key keys IH]; intros s; [apply same_gate_refl|].
  cbn [foldl]. destruct (pulls s !! key) as [pr|] eqn:Hpr; [|apply IH].
  eapply same_gate_trans; [|apply IH]. apply gate_put_pull; [done|apply same_gate_refl].
Qed.

Lemma gate_deliveries s s1 ds :
  same_gate s s1 → same_gate s (set_webhook_deliveries ds s1).
Proof. by intros []; split. Qed.

Lemma gate_refresh t o n sha_ s s1 :
  same_gate s s1 → same_gate s (refresh_pull_mergeability_for_sha t o n sha_ s1).
Proof. intros H. eapply same_gate_trans; [exact H|apply gate_refresh_sha]. Qed.

(** The advisory calls. *)
Definition advisory (call : Call) : bool :=
  match call with
  | C_set_repository_readme _ _ _ | C_ref_operation _ _ _ _ _ | C_merge_pull_request _ _ _
  | C_create_review _ _ _ _ _ | C_dismiss_review _ _ _ _ _ | C_create_issue _ _ _ _
  | C_update_issue _ _ _ _ | C_add_issue_comment _ _ _ _ _ | C_create_label _ _ _ _ _
  | C_create_commit_status _ _ _ _ _ _ _ _ | C_create_check_run _ _ _ | C_create_webhook _ _ _
  | C_record_jankurai_score _ _ _ | C_block_repository_mutations _ _
  | C_create_organization _ _ | C_create_team _ _ => true
  | _ => false
  end.

(** The login a call may give a display profile to. *)
Definition call_author (call : Call) : option string :=
  match call with
  | C_create_review _ _ _ author _ | C_dismiss_review _ _ _ author _
  | C_create_issue _ _ author _ | C_add_issue_comment _ _ _ author _
  | C_create_commit_status _ _ _ author _ _ _ _ => Some author
  | _ => None
  end.

Lemma wp_known_user login Q c s u :
  saved c → state c = s → users s !! login = Some u → Q (Ok u) c → wp (ensure_user_admitted login) Q c.
Proof. intros _ Hs Hu HQ. unfold wp, ensure_user_admitted, bind, read_state. by rewrite Hs, Hu. Qed.

Lemma wp_known_profile login s Q c u :
  users s !! login = Some u → Q (Ok s) c → wp (add_profile login s) Q c.
Proof. intros Hu HQ. unfold add_profile. by rewrite Hu. Qed.

End inert.

(** Refusals, and commits that only touch rows the gate does not read. *)
Ltac gate_done :=
  repeat match goal with H : next_issue_number _ _ _ = _ |- _ => injection H as <- <- end;
  match goal with
  | H : state ?c = _ |- same_gate _ (state ?c) => rewrite H
  end;
  repeat first [apply gate_deliveries | apply gate_refresh | apply gate_put_pull];
  first [apply same_gate_refl | by split | done].

Ltac gate_step :=
  match goal with
  | Hc : saved ?c, Hs : state ?c = ?s, Hu : users ?s !! ?a = Some _
      |- wp (ensure_user_admitted ?a) _ ?c => eapply (wp_known_user a _ c s _ Hc Hs Hu)
  | Hu : users ?s !! ?a = Some _ |- wp (add_profile ?a ?s) _ ?c => eapply (wp_known_profile a s _ c _ Hu)
  | _ => forge_step
  end.

Ltac gate_start rule :=
  match goal with
  | Hc : saved ?c, Hs : state ?c = _ |- wp _ _ ?c =>
      eapply rule; [exact Hc|exact Hs| |by intros; gate_done]; clear c Hc Hs; intros ? ? ? ?
  end.

Section advisory.
Context `{E : ForgeEnv}.

(** A call leaves the gate alone, whatever becomes of it, if its author has a profile. *)
Definition inert (author : option string) {A} (m : M A) : Prop :=
  ∀ c s, saved c → state c = s →
  match author with Some a => is_Some (users s !! a) | None => True end →
  wp m (λ _ c', same_gate s (state c')) c.

Lemma create_issue_inert o n author r : inert (Some author) (create_issue o n author r).
Proof. intros c s Hc Hs [u Hu]. gate_start @wp_profile. repeat gate_step; gate_done. Qed.

Lemma update_issue_inert o n k r : inert None (update_issue o n k r).
Proof. intros c s Hc Hs _. gate_start @wp_repository. repeat gate_step; gate_done. Qed.

Lemma comment_inert o n k author body : inert (Some author) (add_issue_comment o n k author body).
Proof. intros c s Hc Hs [u Hu]. gate_start @wp_profile. repeat gate_step; gate_done. Qed.

Lemma label_inert o n name col desc : inert None (create_label o n name col desc).
Proof. intros c s Hc Hs _. gate_start @wp_repository. repeat gate_step; gate_done. Qed.

Lemma webhook_inert o n r : inert None (create_webhook o n r).
Proof. intros c s Hc Hs _. gate_start @wp_repository. repeat gate_step; gate_done. Qed.

Lemma score_inert o n r : inert None (record_jankurai_score o n r).
Proof. intros c s Hc Hs _. gate_start @wp_repository. repeat gate_step; gate_done. Qed.

Lemma readme_inert o n x : inert None (set_repository_readme o n x).
Proof. intros c s Hc Hs _. gate_start @wp_repository. repeat gate_step; gate_done. Qed.

Lemma ref_operation_inert o n branch op admin : inert None (ref_operation o n branch op admin).
Proof. intros c s Hc Hs _. gate_start @wp_repository. repeat gate_step; gate_done. Qed.

Lemma merge_inert o n k : inert None (merge_pull_request o n k).
Proof. intros c s Hc Hs _. gate_start @wp_pull. repeat gate_step; gate_done. Qed.

Lemma block_inert id b : inert None (block_repository_mutations id b).
Proof.
  intros c s Hc Hs _. unfold block_repository_mutations. repeat gate_step; gate_done.
Qed.

Lemma organization_inert login display : inert None (create_organization login display).
Proof.
  intros c s Hc Hs _. unfold create_organization, with_global_mutation. repeat gate_step; gate_done.
Qed.

Lemma team_inert org r : inert None (create_team org r).
Proof.
  intros c s Hc Hs _. unfold create_team, with_global_mutation. repeat gate_step; gate_done.
Qed.

Lemma status_inert o n sha_ author st ctx desc target :
  inert (Some author) (create_commit_status o n sha_ author st ctx desc target).
Proof. intros c s Hc Hs [u Hu]. gate_start @wp_profile. repeat gate_step; gate_done. Qed.

Lemma check_inert o n r : inert None (create_check_run o n r).
Proof. intros c s Hc Hs _. gate_start @wp_repository. repeat gate_step; gate_done. Qed.

Lemma record_review_inert o n k author r d : inert (Some author) (record_review o n k author r d).
Proof.
  intros c s Hc Hs [u Hu]. gate_start @wp_profile. repeat gate_step; try gate_done;
    (eapply wp_review_comments; [done|done|]; intros cs d' Hd' Hsd'; repeat gate_step);
    gate_done.
Qed.


Lemma create_review_inert o n k author r : inert (Some author) (create_review o n k author r).
Proof.
  intros c s Hc Hs Hu. unfold create_review. case_bool_decide; [wp_step; gate_done|].
  by apply record_review_inert.
Qed.

Lemma dismiss_review_inert o n k actor r : inert (Some actor) (dismiss_review o n k actor r).
Proof.
  intros c s Hc Hs Hu. unfold dismiss_review. repeat (wp_step; try gate_done).
  by apply record_review_inert.
Qed.

Lemma discard_inert a {A} (m : M A) : inert a m → inert a (discard m).
Proof. intros Hm c s Hc Hs Ha. apply wp_discard. eapply wp_mono; [by apply Hm|done]. Qed.

Hint Resolve create_issue_inert update_issue_inert comment_inert label_inert webhook_inert
  score_inert organization_inert team_inert readme_inert ref_operation_inert merge_inert block_inert status_inert check_inert
  create_review_inert dismiss_review_inert discard_inert : core.

Lemma advisory_inert call : advisory call = true → inert (call_author call) (run call).
Proof. destruct call; try done; intros _; cbn [run call_author]; auto. Qed.

(** Advisory rows cannot open the gate: reviews and dismissals recorded by login, commit
    statuses, check runs, issues, comments, labels, scores, webhooks, readmes and refused or
    retired calls leave the branch-protection verdict on every pull request, for every
    requested head and at every instant, exactly as it was (their author having a profile
    already). *)
Theorem advisory_rows_inert call c t o n k req :
  saved c → advisory call = true →
  match call_author call with Some a => is_Some (users (state c) !! a) | None => True end →
  evaluate_pull_request t (state (run call c).2) o n k req
  = evaluate_pull_request t (state c) o n k req.
Proof.
  intros Hc Hadv Ha. apply evaluate_pull_same_gate.
  exact (advisory_inert call Hadv c (state c) Hc eq_refl Ha).
Qed.

(** ** Deletion *)

(** No row of the repository is left. *)
Definition cleared (o n : string) (s : State) : Prop :=
  let key := (o, n) in
  repos s !! key = None
  ∧ (∀ k, labels s !! (key, k) = None) ∧ (∀ k, issues s !! (key, k) = None)
  ∧ (∀ k, issue_comments s !! (key, k) = None) ∧ (∀ k, pulls s !! (key, k) = None)
  ∧ (∀ k, reviews s !! (key, k) = None) ∧ (∀ k, review_comments s !! (key, k) = None)
  ∧ (∀ k, branch_protections s !! (key, k) = None)
  ∧ codeowners_ s !! key = None ∧ readmes s !! key = None
  ∧ (∀ k, statuses s !! (key, k) = None) ∧ check_runs s !! key = None
  ∧ webhooks s !! key = None
  ∧ filter (λ d, (delivery_owner d, delivery_repo d) = key) (webhook_deliveries s) = []
  ∧ counters s !! key = None ∧ jankurai_scores s !! key = None
  ∧ ∀ login, repo_grants s !! (login, o, n) = None.

Lemma undrained_eq {K} `{Countable K} {V} (o n : string) (m : gmap (string * string * K) V) j :
  undrained o n m !! (o, n, j) = None.
Proof. apply eq_None_not_Some. intros [v [_ Hne]%undrained_Some]. done. Qed.

Lemma filter_empty {A} (P : A → Prop) `{∀ x, Decision (P x)} (l : list A) :
  (∀ x, x ∈ l → ¬ P x) → filter P l = [].
Proof.
  induction l as [|x l IH]; intros Hn; [done|]. rewrite filter_cons_False.
  - apply IH. intros y Hy. apply Hn. by apply list_elem_of_further.
  - apply Hn, list_elem_of_here.
Qed.

Lemma drop_cleared o n s : cleared o n (drop_repository o n s).
Proof.
  unfold cleared. cbn. split_and!; intros; rewrite ?lookup_delete_eq, ?undrained_eq; try done.
  - rewrite list_filter_filter. apply filter_empty. intros d _ [[= -> ->] Hne]. by apply Hne.
  - apply map_lookup_filter_None. right. intros g _. cbn. naive_solver.
Qed.

Lemma drop_elsewhere o n o' n' s :
  (o, n) ≠ (o', n') → same_repo o' n' s (drop_repository o n s).
Proof. intros Hne. apply (repo_change_elsewhere o' n' o n); [done|apply Rc_delete]. Qed.

Lemma delete_runs o n c s :
  saved c → state c = s →
  wp (delete_repository o n)
    (λ r c', match r with
             | Ok d => repos s !! (o, n) = Some (deleted d) ∧ state c' = drop_repository o n s
                       ∧ removed_counts d = deletion_counts o n s
             | Err _ => state c' = s
             end) c.
Proof.
  intros Hc Hs. eapply wp_repository; [exact Hc|exact Hs| |by intros].
  clear c Hc Hs. intros c Hc Hs Hw. by repeat forge_step.
Qed.

(** A deletion is complete and local. If it succeeds, the deleted row is the one that was
    stored, no row of the repository is left in any table (labels, issues, pull requests,
    reviews, policies, statuses, hooks, deliveries, counters, scores, grants), and every
    other repository keeps all of its own; if it is refused, the state is unchanged. *)
Theorem deletion_complete o n c :
  saved c →
  match delete_repository o n c with
  | (Ok d, c') =>
      repos (state c) !! (o, n) = Some (deleted d)
      ∧ cleared o n (state c')
      ∧ ∀ o' n', (o', n') ≠ (o, n) → same_repo o' n' (state c) (state c')
  | (Err _, c') => state c' = state c
  end.
Proof.
  intros Hc. pose proof (delete_runs o n c (state c) Hc eq_refl) as Hrun. unfold wp in Hrun.
  destruct (delete_repository o n c) as [[d|e] c']; [|done].
  cbn [fst snd] in Hrun. destruct Hrun as (Hr & Hs & _). rewrite !Hs. split; [done|]. split; [apply drop_cleared|].
  intros o' n' Hne. by apply drop_elsewhere.
Qed.

(** ** What the merge gate counts *)

Lemma reduce_event_source pr latest e u x (es : list BoundReviewEvent) :
  (∀ v y, latest !! v = Some y → y ∈ es) → reduce_event pr latest e !! u = Some x → x ∈ e :: es.
Proof.
  intros Hl Hx.
  assert (Hold : ∀ v y, latest !! v = Some y → y ∈ e :: es)
    by (intros v y Hy; apply list_elem_of_further; by eapply Hl).
  assert (Hins : ∀ v, <[v := e]> latest !! u = Some x → x ∈ e :: es).
  { intros v [[_ <-]|[_ Hy]]%lookup_insert_Some; [apply list_elem_of_here|by eapply Hold]. }
  unfold reduce_event in Hx.
  destruct (review_state (event_review e)); [|by eapply Hins|by eapply Hold|].
  - destruct (eq_ignore_ascii_case _ _); [by eapply Hold|by eapply Hins].
  - destruct (latest !! profile_id (event_actor e)) as [cur|]; [|by eapply Hold].
    case_bool_decide; [|by eapply Hold].
    apply lookup_delete_Some in Hx as [_ Hx]. by eapply Hold.
Qed.

Lemma fold_events_source pr (es : list BoundReviewEvent) latest (seen : list BoundReviewEvent) u x :
  (∀ v y, latest !! v = Some y → y ∈ seen) →
  foldl (reduce_event pr) latest es !! u = Some x → x ∈ seen ∨ x ∈ es.
Proof.
  revert latest seen. induction es as [|e es IH]; intros latest seen Hl Hx; [left; by eapply Hl|].
  cbn in Hx. apply (IH _ (e :: seen)) in Hx.
  - destruct Hx as [[->|Hx]%elem_of_cons|Hx]; [right; apply list_elem_of_here|by left|].
    right. by apply list_elem_of_further.
  - intros v y Hy. by eapply reduce_event_source.
Qed.

(** Only authenticated events of this pull request and this head count. *)
Lemma bound_reviews_source t s pr r :
  r ∈ bound_reviews_for_evaluation t s pr →
  ∃ e, e ∈ bound_reviews s ∧ event_review e = r ∧ event_pull e = pr_id pr
       ∧ review_head_sha r = Some (sha (head pr)) ∧ event_counts t s pr e = true.
Proof.
  unfold bound_reviews_for_evaluation. intros (e & -> & [Hc He]%list_elem_of_filter)%list_elem_of_fmap.
  exists e. unfold reduced_bound_events, uuid_values in He.
  apply list_elem_of_fmap in He as ([u x] & -> & He). rewrite elem_of_isort in He.
  apply elem_of_map_to_list, (fold_events_source pr _ _ []) in He; [|done].
  destruct He as [He|He]; [by apply elem_of_nil in He|].
  unfold events_at_head in He. rewrite elem_of_isort in He.
  by apply list_elem_of_filter in He as [[? ?] ?].
Qed.

(** The event [e] is an approval of [pr] by [u] that counts under [rule] at [t]. *)
Record binding_approval (t : DateTime) (s : State) (pr : PullRequest)
    (rule : BranchProtectionRule) (u : string) (e : BoundReviewEvent) : Prop := {
  ba_event : e ∈ bound_reviews s;
  ba_pull : event_pull e = pr_id pr;
  ba_author : review_author (event_review e) = u;
  ba_approved : review_state (event_review e) = RS_Approved;
  ba_head : review_head_sha (event_review e) = Some (sha (head pr));
  ba_other : eq_ignore_ascii_case u (pr_author pr) = false;
  ba_policy : snap_policy (event_snapshot e) = Some rule;
  ba_owners : snap_codeowners (event_snapshot e) = codeowners_of s pr;
  ba_live : validate_actor_binding t s (event_actor e) = Ok (event_actor e);
  ba_write : is_ok (require_access s (actor_login (event_actor e))
                      (git_destination (snap_target (event_snapshot e))) true) = true
}.

(** C3: what opens the merge gate. On a branch whose rule asks for approvals, a pull request
    is mergeable only with that many different approvers, each of them by an authenticated
    review event bound to this pull request at exactly its current head, not its author's,
    taken under the policy and code owners still in force, by a credential that is still
    live and whose account still has write access to the destination. *)
Theorem mergeable_needs_bound_approvals t s pr req rule :
  protection_of s pr = Some rule → eval_mergeable (evaluate_locked t s pr req) = true →
  ∃ approvers : gset string,
    (required_approving_review_count rule ≤ N.of_nat (size approvers))%N
    ∧ ∀ u, u ∈ approvers → ∃ e, binding_approval t s pr rule u e.
Proof.
  intros Hrule Hm. unfold evaluate_locked in Hm. rewrite Hrule in Hm. cbn in Hm.
  rewrite is_nil_app, andb_true_iff in Hm. destruct Hm as [Hi Hr].
  apply intrinsic_gate in Hi. apply rule_gate in Hr; [|apply (io_jankurai _ _ _ _ _ _ Hi)].
  destruct (ro_reviews _ _ _ _ _ _ Hr) as (X & HX & Hcount). exists X. split; [done|].
  intros u (r & (i & Hl & (_ & Hself & _) & _) & Hst & Hau)%HX.
  apply list_elem_of_lookup_2, bound_reviews_source in Hl as (e & He & <- & Hp & Hh & Hc).
  exists e. revert Hself. unfold self_approval. rewrite Hst, Hau, bool_decide_eq_true_2 by done.
  cbn [andb]. intros Hself. unfold event_counts in Hc. rewrite Hst in Hc.
  rewrite bool_decide_eq_false_2 in Hc by done. cbn [orb] in Hc.
  repeat rewrite andb_true_iff in Hc. destruct Hc as [[[Hpol Hown] Hact] Hacc].
  apply bool_decide_eq_true in Hpol, Hown. rewrite Hrule in Hpol.
  split; try done. revert Hact. unfold validate_actor_binding.
  destruct (accounts s !! _); [|done]. destruct (_ || _); [done|]. by destruct (live_credential _ _ _).
Qed.

(** ** A push *)

(** The pull requests at these keys have the new head; the others are as they were. *)
Definition moved (keys : list (string * string * N)) (h : string) (s s' : State) : Prop :=
  ∀ key pr', pulls s' !! key = Some pr' →
    ∃ pr, pulls s !! key = Some pr
      ∧ if decide (key ∈ keys) then sha (head pr') = h ∧ pr_id pr' = pr_id pr else pr' = pr.

Lemma head_reevaluate t s pr : head (reevaluate t s pr) = head pr ∧ pr_id (reevaluate t s pr) = pr_id pr.
Proof.
  unfold reevaluate, apply_evaluation.
  by destruct (merged pr || _); [|destruct (bool_decide (pr_state pr = PRS_Closed))].
Qed.

Lemma wp_heads_moved keys o n h t s Q c s0 :
  saved c → state c = s0 →
  (∀ prs s' c', saved c' → state c' = s0 → moved keys h s s' → Q (Ok (prs, s')) c') →
  wp (refresh_heads keys o n h t s) Q c.
Proof.
  revert s Q c. induction keys as [|key0 keys IH]; intros s Q c Hc Hs HQ; cbn [refresh_heads].
  { wp_step. apply HQ; [done|done|]. intros key pr Hpr. exists pr. split; [done|].
    by rewrite decide_False by apply not_elem_of_nil. }
  destruct (pulls s !! key0) as [pr0|] eqn:H0.
  - repeat forge_step. eapply IH; [done|done|]. intros prs s' d Hd Hsd Hmoved. repeat forge_step.
    apply HQ; [done|done|]. intros key pr' Hpr'.
    destruct (Hmoved key pr' Hpr') as (pr1 & Hpr1 & Hif). cbn in Hpr1.
    destruct (decide (key0 = key)) as [<-|Hne].
    + rewrite lookup_insert_eq in Hpr1. injection Hpr1 as <-. exists pr0. split; [done|].
      rewrite decide_True by apply list_elem_of_here.
      match goal with H : context [reevaluate ?a ?b ?p] |- _ =>
        destruct (head_reevaluate a b p) as [Hh Hid] end.
      case_decide.
      * by rewrite Hid in Hif.
      * by rewrite Hif, Hh, Hid.
    + rewrite !lookup_insert_ne in Hpr1 by done. exists pr1. split; [done|].
      destruct (decide (key ∈ keys)) as [Hin|Hin].
      * by rewrite decide_True by by apply list_elem_of_further.
      * rewrite decide_False; [done|]. by intros [Heq|?]%elem_of_cons.
  - eapply IH; [done|done|]. intros prs s' d Hd Hsd Hmoved. apply HQ; [done|done|].
    intros key pr' Hpr'. destruct (Hmoved key pr' Hpr') as (pr1 & Hpr1 & Hif).
    exists pr1. split; [done|]. assert (key ≠ key0) by (intros ->; by rewrite H0 in Hpr1).
    destruct (decide (key ∈ keys)) as [Hin|Hin].
    + by rewrite decide_True by by apply list_elem_of_further.
    + rewrite decide_False; [done|]. by intros [Heq|?]%elem_of_cons.
Qed.

Lemma elem_of_head_keys `{!ForgeEnvSpec} o n ref_ s key :
  key ∈ head_keys o n ref_ s ↔
  ∃ pr, pulls s !! key = Some pr ∧ pr_owner pr = o ∧ pr_repo pr = n
        ∧ ref_name (head pr) = ref_ ∧ is_open_pull pr = true.
Proof.
  unfold head_keys. rewrite pull_order_perm, list_elem_of_fmap. split.
  - intros ([k pr] & -> & [Hf Hin]%list_elem_of_filter). apply elem_of_map_to_list in Hin.
    exists pr. naive_solver.
  - intros (pr & Hpr & Hf). exists (key, pr). split; [done|].
    apply list_elem_of_filter. split; [done|]. by apply elem_of_map_to_list.
Qed.

(** The pull requests a push to a branch moves. *)
Definition follows (o n ref_ : string) (key : string * string * N) (pr : PullRequest) : Prop :=
  key.1 = (o, n) ∧ ref_name (head pr) = ref_ ∧ is_open_pull pr = true.

#[export] Instance follows_dec o n ref_ key pr : Decision (follows o n ref_ key pr).
Proof. apply and_dec; [apply _|]. apply and_dec; apply _. Defined.

Lemma refresh_moves `{!ForgeEnvSpec} o n ref_ h c s :
  saved c → state c = s → state_ok s →
  wp (refresh_pull_request_heads_for_ref o n ref_ h)
    (λ r c', match r with
             | Ok _ => moved (head_keys o n ref_ s) h s (state c')
             | Err _ => state c' = s
             end) c.
Proof.
  intros Hc Hs Hok. eapply wp_repository; [exact Hc|exact Hs| |by intros].
  clear c Hc Hs. intros c Hc Hs Hw. repeat forge_step; try done.
  - match goal with H : state ?c = s |- context [state ?c] => rewrite H end.
    intros key pr Hpr. exists pr. split; [done|]. by rewrite decide_False by apply not_elem_of_nil.
  - eapply wp_heads_moved; [done|done|]. intros prs s' d Hd Hsd Hm. repeat forge_step; [|done].
    match goal with H : state ?c = _ |- context [state ?c] => rewrite H end. exact Hm.
Qed.

(** A push to a branch carries its open pull requests with it: after the refresh each of
    them is at the new head, where no review of an earlier head counts any more, and every
    other pull request is exactly as it was; if the refresh is refused, nothing moved. *)
Theorem push_moves_heads `{!ForgeEnvSpec} o n ref_ h c :
  saved c → state_ok (state c) →
  match refresh_pull_request_heads_for_ref o n ref_ h c with
  | (Ok _, c') =>
      ∀ key pr', pulls (state c') !! key = Some pr' →
        ∃ pr, pulls (state c) !! key = Some pr
          ∧ if decide (follows o n ref_ key pr)
            then sha (head pr') = h
                 ∧ ∀ t r, r ∈ bound_reviews_for_evaluation t (state c') pr' →
                     review_head_sha r = Some h
            else pr' = pr
  | (Err _, c') => state c' = state c
  end.
Proof.
  intros Hc Hok. pose proof (refresh_moves o n ref_ h c (state c) Hc eq_refl Hok) as Hrun.
  unfold wp in Hrun. destruct (refresh_pull_request_heads_for_ref _ _ _ _ _) as [[prs|e] c']; [|done].
  cbn [fst snd] in Hrun. intros key pr' Hpr'. destruct (Hrun key pr' Hpr') as (pr & Hpr & Hif).
  exists pr. split; [done|]. destruct (ok_pulls _ Hok _ _ Hpr) as (Hkey & _).
  assert (Hiff : key ∈ head_keys o n ref_ (state c) ↔ follows o n ref_ key pr).
  { assert (Hk1 : key.1 = (pr_owner pr, pr_repo pr)) by (by rewrite <-Hkey).
    rewrite elem_of_head_keys. unfold follows. rewrite Hk1. split.
    - intros (q & Hq & <- & <- & Href & Hopen). rewrite Hpr in Hq. by injection Hq as <-.
    - intros ([= <- <-] & Href & Hopen). by exists pr. }
  destruct (decide (follows o n ref_ key pr)) as [Hf|Hf].
  - rewrite decide_True in Hif by by apply Hiff. destruct Hif as [Hh _]. split; [done|].
    intros t r (e & _ & _ & _ & Hsha & _)%bound_reviews_source. by rewrite Hsha, Hh.
  - by rewrite decide_False in Hif by by rewrite Hiff.
Qed.

(** ** Creation in two commits *)

(** The world answers no error from some question on. *)
Definition quiet (k : nat) : Prop :=
  ∀ i, k ≤ i →
    process_error i = None ∧ ordinary_error i = None ∧ persist_error i = None
    ∧ (∀ o n b, validate_repository o n b i = None) ∧ ∀ r, materialize_repository r i = None.

Lemma bind_ok {A B} (m : M A) (k : A → M B) c x c' : m c = (Ok x, c') → bind m k c = k x c'.
Proof. intros H. unfold bind. by rewrite H. Qed.

Definition ask_again (c : Core) : Core :=
  {| state := state c; stored := stored c; asked := S (asked c) |}.

Lemma guard_passes f c : f (asked c) = None → guard f c = (Ok tt, ask_again c).
Proof. intros Hf. unfold guard, ask. erewrite bind_ok by done. by rewrite Hf. Qed.

Lemma commit_passes s c :
  persist_error (asked c) = None → ∃ c', commit s c = (Ok tt, c') ∧ state c' = s.
Proof.
  intros Hp. unfold commit. destruct (stored c); [rewrite Hp|]; by eexists.
Qed.

(** The row of a creation, as the first commit leaves it. *)
Definition journaled (id : Uuid) (owner : string) (req : CreateRepositoryRequest) (done_ : bool)
    (r : Repository) (s : State) : Prop :=
  repository_creations s !! id
  = Some {| creation_repository_id := id; creation_owner := owner; creation_request := req;
            materialized := done_ |}
  ∧ repos s !! (owner, new_name req) = Some r ∧ repo_id r = id
  ∧ require_repository_admissible s id true = Ok tt.

Lemma admissible_by_id s id w : require_repository_admissible s id w = Ok tt →
  is_Some (repository_by_id s id).
Proof. unfold require_repository_admissible. by destruct (repository_by_id s id). Qed.

(** Asking again for a creation finishes it, or finds it finished. *)
Lemma create_again id owner req d r c :
  is_nil_uuid id = false → is_ok (require_name "repository name" (new_name req)) = true →
  journaled id owner req d r (state c) → quiet (asked c) →
  ∃ c', create_repository_with_id id owner req c = (Ok r, c')
    ∧ state c' = if d then state c
                 else set_repository_creations
                        (alter mark_materialized id (repository_creations (state c))) (state c).
Proof.
  intros Hnil Hname (Hj & Hr & Hid & Hadm) Hq.
  destruct (Hq (asked c)) as (Hp & _); [lia|].
  destruct (Hq (S (asked c))) as (_ & _ & _ & Hv & _); [lia|].
  destruct (Hq (S (S (asked c)))) as (_ & _ & _ & _ & Hm); [lia|].
  destruct (Hq (S (S (S (asked c))))) as (_ & _ & Hpe & _); [lia|].
  unfold create_repository_with_id. erewrite bind_ok by by apply guard_passes.
  erewrite bind_ok by done. cbn [state ask_again].
  destruct (admissible_by_id _ _ _ Hadm) as [q Hby]. rewrite Hby, Hadm. erewrite bind_ok by done.
  unfold create_repository_with_id_admitted.
  destruct (require_name _ _) as [[]|] eqn:Hn; [|done]. erewrite bind_ok by done. rewrite Hnil.
  erewrite bind_ok by by apply guard_passes.
  assert (Hrow : ∀ c1, state c1 = state c → creation_row id owner req c1 = (Ok (r, d), c1)).
  { intros c1 Hc1. unfold creation_row. erewrite bind_ok by done. rewrite Hc1, Hj. cbn.
    rewrite !bool_decide_eq_true_2 by done. cbn. by rewrite Hr, Hid, N.eqb_refl. }
  erewrite bind_ok by by apply Hrow. destruct d; cbn [fst snd]; [by eexists|].
  erewrite bind_ok by by apply guard_passes. erewrite bind_ok by done. cbn [state ask_again].
  rewrite Hr, Hid, N.eqb_refl.
  destruct (commit_passes (set_repository_creations
    (alter mark_materialized id (repository_creations (state c))) (state c))
    (ask_again (ask_again (ask_again c)))) as (c' & Hc' & Hs'); [done|].
  erewrite bind_ok by exact Hc'. by exists c'.
Qed.

(** What a first attempt that fails leaves: nothing, or the row. *)
Lemma create_attempt id owner req c s :
  saved c → state c = s → repository_creations s !! id = None →
  wp (create_repository_with_id id owner req)
    (λ r c', match r with
             | Ok _ => True
             | Err _ => state c' = s
                 ∨ is_nil_uuid id = false
                   ∧ is_ok (require_name "repository name" (new_name req)) = true
                   ∧ repository_by_id s id = None ∧ repos s !! (owner, new_name req) = None
                   ∧ ∃ t t', state c' = add_repository id owner req (new_repository id owner req t) t' s
             end) c.
Proof.
  intros Hc Hs Hj. unfold create_repository_with_id, create_repository_with_id_admitted, creation_row.
  repeat (wp_step; try done; try (by left); try congruence).
  all: right.
  all: repeat match goal with H : _ || _ = false |- _ => apply orb_false_iff in H as [? ?] end.
  all: repeat match goal with H : bool_decide _ = false |- _ => apply bool_decide_eq_false in H end.
  all: repeat match goal with H : ¬ is_Some _ |- _ => apply eq_None_not_Some in H end.
  all: try congruence.
  all: split_and!; try done; by eexists _, _.
Qed.

Lemma add_repository_rows id owner req r t s :
  repos (add_repository id owner req r t s) = <[(owner, new_name req) := r]> (repos s)
  ∧ repository_mutation_blocks (add_repository id owner req r t s) = repository_mutation_blocks s
  ∧ repository_creations (add_repository id owner req r t s)
    = <[id := {| creation_repository_id := id; creation_owner := owner; creation_request := req;
                 materialized := false |}]> (repository_creations s).
Proof.
  unfold add_repository, ensure_default_branch_protection. cbn.
  by destruct (branch_protections s !! _).
Qed.

Lemma attempt_journaled id owner req t t' s :
  state_ok s → repository_by_id s id = None → repos s !! (owner, new_name req) = None →
  repository_mutation_blocks s !! id = None →
  journaled id owner req false (new_repository id owner req t)
    (add_repository id owner req (new_repository id owner req t) t' s).
Proof.
  intros Hok Hid Hkey Hblock.
  destruct (add_repository_rows id owner req (new_repository id owner req t) t' s) as (Hr & Hb & Hj).
  assert (Hok' : state_ok (add_repository id owner req (new_repository id owner req t) t' s))
    by by apply ok_add_repository.
  assert (Hrow : repos (add_repository id owner req (new_repository id owner req t) t' s)
            !! (owner, new_name req) = Some (new_repository id owner req t))
    by by rewrite Hr, lookup_insert_eq.
  split; [by rewrite Hj, lookup_insert_eq|]. split; [done|]. split; [done|].
  pose proof (by_id_of _ _ _ Hok' Hrow) as Hby. cbn [repo_id new_repository] in Hby.
  unfold require_repository_admissible. rewrite Hby, Hb, Hblock. done.
Qed.

(** C19: a creation that failed halfway is finished by asking again. If the first attempt under
    an identity was refused after its row was saved (the materializer or the database
    failed), then, once the world answers, the same request under the same identity succeeds
    with the stored repository and marks it materialized; and asking once more changes
    nothing and answers the same. *)
Theorem creation_resumes id owner req c :
  saved c → state_ok (state c) → repository_creations (state c) !! id = None →
  repository_mutation_blocks (state c) !! id = None →
  match create_repository_with_id id owner req c with
  | (Err _, c1) =>
      is_Some (repository_creations (state c1) !! id) → quiet (asked c1) →
      ∃ r c2, create_repository_with_id id owner req c1 = (Ok r, c2)
        ∧ repo_id r = id ∧ repos (state c2) !! (owner, new_name req) = Some r
        ∧ materialized <$> repository_creations (state c2) !! id = Some true
        ∧ (quiet (asked c2) →
           ∃ c3, create_repository_with_id id owner req c2 = (Ok r, c3) ∧ state c3 = state c2)
  | (Ok _, _) => True
  end.
Proof.
  intros Hc Hok Hnew Hblock.
  pose proof (create_attempt id owner req c (state c) Hc eq_refl Hnew) as Hrun. unfold wp in Hrun.
  destruct (create_repository_with_id id owner req c) as [[r|e] c1]; [done|].
  cbn [fst snd] in Hrun. intros Hsome Hq1.
  destruct Hrun as [Heq|(Hnil & Hname & Hid & Hkey & t & t' & Heq)].
  { rewrite Heq, Hnew in Hsome. by destruct Hsome. }
  pose proof (attempt_journaled id owner req t t' (state c) Hok Hid Hkey Hblock) as Hj.
  rewrite <-Heq in Hj.
  destruct (create_again id owner req false _ c1 Hnil Hname Hj Hq1) as (c2 & Hrun2 & Hs2).
  destruct Hj as (Hj & Hr & Hrid & Hadm). exists (new_repository id owner req t), c2.
  assert (Hj2 : journaled id owner req true (new_repository id owner req t) (state c2)).
  { rewrite Hs2. split; [|done]. cbn. by rewrite lookup_alter, decide_True, Hj. }
  split; [done|]. split; [done|]. split; [apply Hj2|]. split; [by destruct Hj2 as [-> _]|].
  intros Hq2. destruct (create_again id owner req true _ c2 Hnil Hname Hj2 Hq2) as (c3 & Hrun3 & Hs3).
  by exists c3.
Qed.

End advisory.
