(* ===== verification/ForgeScores.v ===== *)
(** ForgeScores: the score history of a branch (engine/jankurai.rs) is bounded: one entry for
    a commit, the oldest entries going first, the other branches left alone. *)

From S2P Require Import Prelude Text Clock BranchProtection ForgeState Forge.

(** The first entry that passes, with its index. *)
Lemma find_indexed {A} (p : A → bool) (l : list A) (off : nat) :
  match find_first (λ ix, p ix.2) (zip (seq off (length l)) l) with
  | Some (i, x) => ∃ l1 l2, l = l1 ++ x :: l2 ∧ i = off + length l1 ∧ p x = true
                            ∧ Forall (λ y, p y = false) l1
  | None => Forall (λ y, p y = false) l
  end.
Proof.
  revert off. induction l as [|y l IH]; intros off; [by constructor|]. cbn. destruct (p y) eqn:Hy.
  - exists [], l. cbn. split_and!; [done|lia|done|done].
  - specialize (IH (S off)). destruct (find_first _ _) as [[i x]|]; [|by constructor].
    destruct IH as (l1 & l2 & -> & -> & Hx & Hl1). exists (y :: l1), l2. cbn.
    split_and!; [done|lia|done|by constructor].
Qed.

Section scores.
Context `{CS : ChronoSpec}.

Definition older (x y : JankuraiScore) : Prop :=
  dt_leb (score_created_at x) (score_created_at y) = true.

Lemma elem_of_on_branch b l x : x ∈ on_branch b l ↔ score_branch x = b ∧ x ∈ l.
Proof. unfold on_branch. by rewrite list_elem_of_filter. Qed.

Lemma oldest_exists (l : list JankuraiScore) : l ≠ [] → ∃ x, x ∈ l ∧ ∀ y, y ∈ l → older x y.
Proof.
  induction l as [|x l IH]; [done|]. intros _. destruct l as [|z l].
  - exists x. split; [apply list_elem_of_here|]. intros y ->%list_elem_of_singleton.
    unfold older. by destruct (dt_leb_total (score_created_at x) (score_created_at x)).
  - destruct IH as (m & Hm & Hle); [done|].
    destruct (dt_leb_total (score_created_at x) (score_created_at m)) as [Hx|Hx].
    + exists x. split; [apply list_elem_of_here|]. intros y [->|Hy]%elem_of_cons.
      * unfold older. by destruct (dt_leb_total (score_created_at x) (score_created_at x)).
      * by eapply dt_leb_trans, Hle.
    + exists m. split; [by apply list_elem_of_further|]. intros y [->|Hy]%elem_of_cons; [done|].
      by apply Hle.
Qed.

Definition oldest_of (b : string) (l : list JankuraiScore) (x : JankuraiScore) : Prop :=
  score_branch x = b ∧ ∀ y, y ∈ on_branch b l → older x y.

(** The entry that goes is the first of the oldest of its branch. *)
Lemma remove_oldest_spec b l :
  on_branch b l ≠ [] →
  ∃ l1 x l2, l = l1 ++ x :: l2 ∧ remove_oldest b l = l1 ++ l2 ∧ oldest_of b l x
    ∧ Forall (λ y, ¬ oldest_of b l y) l1.
Proof.
  intros Hne. unfold remove_oldest.
  set (p := λ x, bool_decide (score_branch x = b)
                 && forallb (λ y, dt_leb (score_created_at x) (score_created_at y)) (on_branch b l)).
  assert (Hp : ∀ x, p x = true ↔ oldest_of b l x).
  { intros x. unfold p, oldest_of. rewrite andb_true_iff, bool_decide_eq_true, forallb_forall.
    by setoid_rewrite <-list_elem_of_In. }
  pose proof (find_indexed p l 0) as Hf. change (find_first _ _) with
    (find_first (λ ix, p ix.2) (zip (seq 0 (length l)) l)).
  destruct (find_first _ _) as [[i x]|].
  - destruct Hf as (l1 & l2 & Hl & -> & Hx & Hl1). exists l1, x, l2. split; [done|].
    split; [by rewrite Hl at 1; rewrite Nat.add_0_l, delete_middle|]. split; [by apply Hp|].
    eapply Forall_impl; [exact Hl1|]. intros y Hy Ho. apply Hp in Ho. by rewrite Hy in Ho.
  - destruct (oldest_exists _ Hne) as (m & Hm & Hle). rewrite Forall_forall in Hf.
    apply elem_of_on_branch in Hm as [Hb Hm]. specialize (Hf m Hm).
    assert (p m = true) as Heq by by apply Hp. by rewrite Hf in Heq.
Qed.

(** What trimming keeps, by its invariant. *)
Record trimmed (b : string) (l l' : list JankuraiScore) : Prop := {
  tr_sub : l' `sublist_of` l;
  tr_other b' : b' ≠ b → on_branch b' l' = on_branch b' l;
  tr_oldest x y : x ∈ on_branch b l → x ∉ l' → y ∈ on_branch b l' → older x y
}.

Lemma on_branch_app b l1 l2 : on_branch b (l1 ++ l2) = on_branch b l1 ++ on_branch b l2.
Proof. apply filter_app. Qed.

Lemma trimmed_refl b l : trimmed b l l.
Proof. split; [done|done|]. by intros x y [_ Hx]%elem_of_on_branch Hn. Qed.

Lemma sublist_on_branch b l l' x : l' `sublist_of` l → x ∈ on_branch b l' → x ∈ on_branch b l.
Proof.
  intros Hs. rewrite !elem_of_on_branch. intros [? Hx]. split; [done|].
  by eapply elem_of_sublist.
Qed.

Lemma trimmed_step b l l' :
  on_branch b l ≠ [] → trimmed b (remove_oldest b l) l' → trimmed b l l'.
Proof.
  intros Hne Ht. destruct (remove_oldest_spec b l Hne) as (l1 & x & l2 & Hl & Hr & [Hb Hold] & _).
  rewrite Hr in Ht. destruct Ht as [Hsub Hother Ho].
  assert (Hmid : l1 ++ l2 `sublist_of` l).
  { rewrite Hl. apply sublist_app; [done|by apply sublist_cons]. }
  split.
  - by etrans.
  - intros b' Hb'. rewrite (Hother b' Hb'), Hl, !on_branch_app. f_equal. unfold on_branch.
    rewrite filter_cons_False; [done|]. by rewrite Hb.
  - intros y z Hy Hn Hz.
    assert (Hcase : y = x ∨ y ∈ l1 ++ l2).
    { apply elem_of_on_branch in Hy as [_ Hy]. rewrite Hl, elem_of_app, elem_of_cons in Hy.
      rewrite elem_of_app. naive_solver. }
    destruct Hcase as [->|Hin].
    + apply Hold. eapply sublist_on_branch; [|exact Hz]. by etrans.
    + apply Ho; [|done|done]. apply elem_of_on_branch in Hy as [? _].
      by apply elem_of_on_branch.
Qed.

Lemma remove_oldest_length b l :
  on_branch b l ≠ [] → length l = S (length (remove_oldest b l)).
Proof.
  intros Hne. destruct (remove_oldest_spec b l Hne) as (l1 & x & l2 & -> & -> & _).
  rewrite !length_app. cbn. lia.
Qed.

Lemma trim_scores_spec fuel b l :
  length l ≤ fuel →
  trimmed b l (trim_scores fuel b l)
  ∧ length (on_branch b (trim_scores fuel b l)) ≤ MAX_SCORES_PER_BRANCH.
Proof.
  revert l. induction fuel as [|fuel IH]; intros l Hf; cbn [trim_scores].
  - destruct l; [|cbn in Hf; lia]. split; [apply trimmed_refl|]. cbn. lia.
  - destruct (Nat.ltb_spec MAX_SCORES_PER_BRANCH (length (on_branch b l))) as [Hlt|Hge].
    + assert (Hne : on_branch b l ≠ []) by (intros Heq; rewrite Heq in Hlt; cbn in Hlt; lia).
      pose proof (remove_oldest_length b l Hne).
      destruct (IH (remove_oldest b l)) as [Ht Hlen]; [lia|].
      split; [by apply trimmed_step|done].
    + split; [apply trimmed_refl|lia].
Qed.

Lemma trim_scores_exact fuel b l :
  length l ≤ fuel → length (on_branch b l) ≤ MAX_SCORES_PER_BRANCH → trim_scores fuel b l = l.
Proof.
  intros Hf Hle. destruct fuel as [|fuel]; [done|]. cbn [trim_scores].
  destruct (Nat.ltb_spec MAX_SCORES_PER_BRANCH (length (on_branch b l))); [lia|done].
Qed.

(** The score history of a branch is bounded: at most two hundred entries, one for a
    commit, the new record replacing the earlier ones of its commit. What is dropped beyond
    that is no newer than anything of the branch that is kept, nothing is dropped as long as
    there is room, the order is kept, and the other branches of the repository are exactly
    as they were. *)
Theorem score_history_bounded x l :
  let others := filter (λ y, ¬ (score_branch y = score_branch x ∧ score_commit y = score_commit x)) l in
  let l' := add_score x l in
  length (on_branch (score_branch x) l') ≤ MAX_SCORES_PER_BRANCH
  ∧ l' `sublist_of` others ++ [x]
  ∧ (∀ b, b ≠ score_branch x → on_branch b l' = on_branch b l)
  ∧ (∀ y z, y ∈ on_branch (score_branch x) (others ++ [x]) → y ∉ l' →
       z ∈ on_branch (score_branch x) l' → older y z)
  ∧ (length (on_branch (score_branch x) (others ++ [x])) ≤ MAX_SCORES_PER_BRANCH →
       l' = others ++ [x]).
Proof.
  intros others l'. unfold l', add_score. fold others.
  destruct (trim_scores_spec (length (others ++ [x])) (score_branch x) (others ++ [x]) (le_n _))
    as [[Hsub Hother Hold] Hlen].
  split_and!; [done|done| |done|by apply trim_scores_exact].
  intros b Hb. rewrite (Hother b Hb), on_branch_app. unfold on_branch.
  rewrite (filter_cons_False _ x []), app_nil_r by congruence.
  unfold others. by rewrite list_filter_filter_l by naive_solver.
Qed.

End scores.
