(* ===== verification/ForgeQueries.v ===== *)
(** ForgeQueries: what the forge answers without changing anything: lists and lookups of
    [engine/]. The lists that the code sorts are shown to be exact and in order. *)

From S2P Require Import Prelude Text Clock BranchProtection ForgeState Forge ForgeLaws.
From S2P Require Import ForgeInvariant.
Local Open Scope forge_scope.

Section queries.
Context `{E : ForgeEnv}.

Definition list_repositories (s : State) (owner : option string) : list Repository :=
  isort (λ a b, String.leb (full_name a) (full_name b))
    (filter (λ r, matches owner (repo_owner r) = true) (map_to_list (repos s)).*2).

Definition repository_creations_list (s : State) : list RepositoryCreation :=
  isort (λ a b, (creation_repository_id a <=? creation_repository_id b)%N)
    (map_to_list (repository_creations s)).*2.

Definition repository_mutation_block (id : Uuid) : M (option RepositoryMutationBlock) :=
  _ <<- guard process_error;;
  s <<- read_state;;
  match repository_by_id s id with
  | None => throw (NotFound ("repository UUID " +:+ show_N id))
  | Some _ => ret (repository_mutation_blocks s !! id)
  end.

Definition list_labels (s : State) (owner repo : string) : result (list Label) ForgeError :=
  match get_repository s owner repo with
  | Err e => Err e
  | Ok _ =>
      Ok (isort (λ a b, String.leb (label_name a) (label_name b))
            (filter (λ kl, kl.1.1 = (owner, repo)) (map_to_list (labels s))).*2)
  end.

Definition get_user (s : State) (login : string) : result User ForgeError :=
  match users s !! login with
  | Some u => Ok u
  | None => Err (NotFound ("user " +:+ login))
  end.

Definition get_organization (s : State) (login : string) : result Organization ForgeError :=
  match organizations s !! login with
  | Some o => Ok o
  | None => Err (NotFound ("organization " +:+ login))
  end.

(** In the order of a hash map, which is any order. *)
Definition list_teams (s : State) (org : string) : result (list Team) ForgeError :=
  match organizations s !! org with
  | None => Err (NotFound ("organization " +:+ org))
  | Some _ => Ok (filter (λ t, team_organization t = org) (map_to_list (teams s)).*2)
  end.

Definition get_issue (s : State) (owner repo : string) (n : N) : result Issue ForgeError :=
  match issues s !! (owner, repo, n) with
  | Some i => Ok i
  | None => Err (issue_missing owner repo n)
  end.

Definition list_issue_comments (s : State) (owner repo : string) (n : N) :
    result (list IssueComment) ForgeError :=
  match get_issue s owner repo n with
  | Err e => Err e
  | Ok _ => Ok (issue_comments_of s (owner, repo, n))
  end.

Definition list_reviews (t : DateTime) (s : State) (owner repo : string) (n : N) :
    result (list Review) ForgeError :=
  match get_pull_request t s owner repo n with
  | Err e => Err e
  | Ok _ => Ok (reviews_of s (owner, repo, n))
  end.

Definition list_review_comments (t : DateTime) (s : State) (owner repo : string) (n : N) :
    result (list ReviewComment) ForgeError :=
  match get_pull_request t s owner repo n with
  | Err e => Err e
  | Ok _ => Ok (comments_of s (owner, repo, n))
  end.

Definition get_codeowners (s : State) (owner repo : string) : result string ForgeError :=
  match get_repository s owner repo with
  | Err e => Err e
  | Ok _ =>
      match codeowners_ s !! (owner, repo) with
      | Some c => Ok c
      | None => Err (NotFound ("CODEOWNERS " +:+ slug owner repo))
      end
  end.

Definition get_repository_readme (s : State) (owner repo : string) :
    result (option string) ForgeError :=
  match get_repository s owner repo with
  | Err e => Err e
  | Ok _ => Ok (readmes s !! (owner, repo))
  end.

Definition readme_or_default (s : State) (owner repo default_text : string) :
    result string ForgeError :=
  match get_repository_readme s owner repo with
  | Err e => Err e
  | Ok o => Ok (or_else o default_text)
  end.

Definition list_webhooks (s : State) (owner repo : string) : result (list Webhook) ForgeError :=
  match get_repository s owner repo with
  | Err e => Err e
  | Ok _ => Ok (hooks_of s owner repo)
  end.

Definition list_webhook_deliveries (s : State) (owner repo : string) :
    result (list WebhookDelivery) ForgeError :=
  match get_repository s owner repo with
  | Err e => Err e
  | Ok _ =>
      Ok (filter (λ d, delivery_owner d = owner ∧ delivery_repo d = repo) (webhook_deliveries s))
  end.

Record CombinedStatus : Type := {
  combined : CommitStatusState; total_count : nat; combined_statuses : list CommitStatus
}.

Definition combined_status (s : State) (owner repo sha_ : string) :
    result CombinedStatus ForgeError :=
  match get_repository s owner repo with
  | Err e => Err e
  | Ok _ =>
      let l := statuses_of s owner repo sha_ in
      Ok {| combined := combined_state l; total_count := length l; combined_statuses := l |}
  end.

(** * Check suites (engine/check_runs.rs) *)

Definition list_check_runs (s : State) (owner repo : string) (head_sha : option string) :
    result (list CheckRun) ForgeError :=
  match get_repository s owner repo with
  | Err e => Err e
  | Ok _ => Ok (filter (λ r, matches head_sha (run_head_sha r) = true) (runs_of s owner repo))
  end.

Record CheckSuite : Type := {
  suite_id : Uuid; suite_owner : string; suite_repo : string; suite_head : string;
  suite_status : CheckRunStatus; suite_conclusion : option CheckConclusion;
  suite_runs : list CheckRun
}.

(** [entry(sha).or_default().push(run)] for each run. *)
Definition group_runs (runs : list CheckRun) : gmap string (list CheckRun) :=
  foldl (λ g r, <[run_head_sha r := or_else (g !! run_head_sha r) [] ++ [r]]> g) ∅ runs.

Definition status_of_suite (runs : list CheckRun) : CheckRunStatus :=
  if forallb (λ r, bool_decide (run_status r = CRS_Completed)) runs then CRS_Completed
  else if existsb (λ r, bool_decide (run_status r = CRS_InProgress)) runs then CRS_InProgress
  else CRS_Queued.

Definition conclusion_of_suite (runs : list CheckRun) : option CheckConclusion :=
  if bool_decide (status_of_suite runs = CRS_Completed) then
    if forallb (λ r, bool_decide (run_conclusion r = Some CC_Success)) runs
    then Some CC_Success else Some CC_Failure
  else None.

Fixpoint suites (owner repo : string) (groups : list (string * list CheckRun)) :
    M (list CheckSuite) :=
  match groups with
  | [] => ret []
  | (sha_, runs) :: groups =>
      id <<- new_v4;;
      rest <<- suites owner repo groups;;
      ret ({| suite_id := id; suite_owner := owner; suite_repo := repo; suite_head := sha_;
              suite_status := status_of_suite runs; suite_conclusion := conclusion_of_suite runs;
              suite_runs := runs |} :: rest)
  end.

(** In the order of a hash map, which is any order; the ids are drawn for the answer. *)
Definition check_suites (owner repo : string) (head_sha : option string) : M (list CheckSuite) :=
  s <<- read_state;;
  runs <<- lift (list_check_runs s owner repo head_sha);;
  suites owner repo (map_to_list (group_runs runs)).

Record WorkflowRun : Type := {
  wf_id : Uuid; wf_name : string; wf_head_sha : string; wf_status : CheckRunStatus;
  wf_conclusion : option CheckConclusion; wf_runs : list CheckRun
}.

Definition workflow_of_suite (x : CheckSuite) : WorkflowRun :=
  {| wf_id := suite_id x; wf_name := "Phase 2 checks"; wf_head_sha := suite_head x;
     wf_status := suite_status x; wf_conclusion := suite_conclusion x; wf_runs := suite_runs x |}.

Definition workflow_runs (owner repo : string) : M (nat * list WorkflowRun) :=
  l <<- check_suites owner repo None;;
  ret (length l, map workflow_of_suite l).

(** * The lists are exact *)

Lemma elem_of_values {K} `{Countable K} {V} (m : gmap K V) v :
  v ∈ (map_to_list m).*2 ↔ ∃ k, m !! k = Some v.
Proof.
  rewrite list_elem_of_fmap. split.
  - intros ([k x] & -> & Hin%elem_of_map_to_list). by exists k.
  - intros [k Hk]. exists (k, v). split; [done|]. by apply elem_of_map_to_list.
Qed.

(** Values that name their key are all different. *)
Lemma values_NoDup {K} `{Countable K} {V} (m : gmap K V) (key : V → K) :
  (∀ k v, m !! k = Some v → key v = k) → NoDup (map_to_list m).*2.
Proof.
  intros Hkey. apply (NoDup_fmap_1 key). rewrite <-list_fmap_compose.
  rewrite (list_fmap_ext (key ∘ snd) fst); [apply NoDup_fst_map_to_list|].
  intros i [k v] Hi. apply Hkey. apply elem_of_map_to_list. by eapply list_elem_of_lookup_2.
Qed.

(** Increasing in the numbers, so without repetition. *)
Definition in_order {A} (f : A → N) (l : list A) : Prop := StronglySorted (λ a b, f a ≤ f b)%N l.

Lemma isort_in_order {A} (f : A → N) (l : list A) :
  in_order f (isort (λ a b, (f a <=? f b)%N) l).
Proof.
  unfold in_order.
  assert (Hs : StronglySorted (λ a b, (f a <=? f b)%N = true) (isort (λ a b, (f a <=? f b)%N) l)).
  { apply isort_sorted; intros; rewrite ?N.leb_le in *; lia. }
  induction Hs as [|x xs Hs IH Hall]; constructor; [done|].
  eapply Forall_impl; [exact Hall|]. by intros y ?%N.leb_le.
Qed.

(** The listing of the issues of a repository is exact: on a well-formed state, if the
    repository exists, the answer is in the order of the issue numbers and holds exactly the
    issues stored under the repository whose state is the one asked for (all of them when no
    state is), each under its own number; if it does not exist the answer is not found. *)
Theorem list_issues_exact s owner repo st :
  state_ok s →
  match list_issues s owner repo st with
  | Ok l =>
      is_Some (repos s !! (owner, repo)) ∧ in_order issue_no l ∧ NoDup l
      ∧ ∀ i, i ∈ l ↔ issues s !! (owner, repo, issue_no i) = Some i
                     ∧ ∀ x, st = Some x → issue_state i = x
  | Err e => repos s !! (owner, repo) = None
             ∧ e = NotFound ("repository " +:+ slug owner repo)
  end.
Proof.
  intros Hok. unfold list_issues, get_repository.
  destruct (repos s !! (owner, repo)) as [r|] eqn:Hr; [|done].
  split; [by eexists|]. split; [apply isort_in_order|]. split.
  - rewrite isort_perm. apply NoDup_filter, (values_NoDup _ (λ i, (issue_owner i, issue_repo i, issue_no i))).
    intros key i Hi. by destruct (ok_issues _ Hok _ _ Hi) as [<- _].
  - intros i. rewrite elem_of_isort, list_elem_of_filter, elem_of_values. split.
    + intros [(<- & <- & Hst) [key Hi]]. destruct (ok_issues _ Hok _ _ Hi) as [Hkey _].
      rewrite Hkey. split; [done|]. by intros x ->.
    + intros [Hi Hst]. destruct (ok_issues _ Hok _ _ Hi) as [[= Ho Hn] _].
      split; [|by eexists]. split; [done|]. split; [done|]. destruct st as [x|]; [|done].
      by rewrite (Hst x).
Qed.

End queries.
