(* ===== verification/BoundReviews.v ===== *)
(** BoundReviews: authenticated source reviews (engine/bound_reviews.rs, engine/actors.rs and
    engine/storage/bound_reviews.rs): a credential is turned into an actor, the actor asks
    for a challenge that freezes what is reviewed, and a verdict consumes the challenge.

    The challenge, event and audit tables live in the database beside the saved state, so the
    machine here is the core of [Forge] with these tables; a transaction on them happens
    whole or not at all. The secrets and digests (token hash, nonce, SHA-256 of the canonical
    JSON) and the Git observer are parameters. *)

From Stdlib Require Import Ascii.
From S2P Require Import Prelude Text Clock BranchProtection Paths ForgeState Forge.
Local Open Scope forge_scope.

Section bound.
Context `{E : ForgeEnv}.

(** * Data *)

Inductive ActorCredential : Type :=
  | AC_PersonalAccessToken (secret : string)
  | AC_Session (token_ csrf : string)
  | AC_SessionReadOnly (token_ : string).

(** The handle names the runtime it was minted by; here there is one. *)
Record AuthenticatedActor : Type := {
  actor_binding : ReviewActorBinding; mutation_authorized : bool
}.

Record ReviewChallenge : Type := {
  challenge_id : Uuid; nonce : string; challenge_created_at : DateTime;
  challenge_expires_at : DateTime; challenge_snapshot : ReviewSnapshot;
  snapshot_sha256 : string; merge_qualified : bool; challenge_blockers : list string
}.

Record SubmitBoundReviewRequest : Type := {
  sb_challenge : Uuid; sb_nonce : string; sb_expected_head : string; sb_event : ReviewState;
  sb_body : option string; sb_comments : list ReviewCommentInput
}.

Record DismissBoundReviewRequest : Type := {
  db_challenge : Uuid; db_nonce : string; db_expected_head : string; db_review : Uuid;
  db_reason : string
}.

#[export] Instance ReviewSnapshot_eq_dec : EqDecision ReviewSnapshot.
Proof.
  assert (EqDecision RepoAccessGrant) by solve_decision.
  assert (EqDecision PullRequestCommit) by solve_decision.
  assert (EqDecision Review) by solve_decision.
  assert (EqDecision CommitStatus) by solve_decision.
  assert (EqDecision CheckRunOutput) by solve_decision.
  assert (EqDecision CheckRun) by solve_decision.
  solve_decision.
Defined.

#[export] Instance ReviewChallenge_eq_dec : EqDecision ReviewChallenge.
Proof. solve_decision. Defined.

(** The columns of an audit row; the two shapes of its detail. *)
Inductive AuditDetail : Type :=
  | AD_Challenge (challenge : Uuid) (sha_ : string) (actor : ReviewActorBinding)
  | AD_Event (e : BoundReviewEvent).

Record AuditEntry : Type := {
  entry_id : Uuid; occurred_at : DateTime; audit_actor : string; audit_action : string;
  audit_subject : Uuid; audit_phase : string; audit_detail : AuditDetail
}.

(** What the code relies on outside this crate. *)
Class ReviewEnv := {
  token_hash_of : string → string;
  random_secret : nat → result string ForgeError;
  observer : option (ReviewGitTarget → nat → result ReviewGitObservation ForgeError);
  storage_root_of : option string;
  sha_snapshot : ReviewSnapshot → string;
  sha_submit : SubmitBoundReviewRequest → string;
  sha_dismiss : DismissBoundReviewRequest → string;
  sha_policy : option BranchProtectionRule → option string → string;
  store_error : nat → option ForgeError
}.

Context `{R : !ReviewEnv}.

Record ReviewCore : Type := {
  core : Core;
  challenges : gmap Uuid (ReviewChallenge * option BoundReviewEvent);
  audits : list AuditEntry
}.

Definition B (A : Type) : Type := ReviewCore → result A ForgeError * ReviewCore.

Definition bret {A} (x : A) : B A := λ c, (Ok x, c).
Definition bthrow {A} (e : ForgeError) : B A := λ c, (Err e, c).
Definition bbind {A X} (m : B A) (k : A → B X) : B X :=
  λ c, match m c with (Ok x, c') => k x c' | (Err e, c') => (Err e, c') end.
Definition blift {A} (r : result A ForgeError) : B A :=
  match r with Ok x => bret x | Err e => bthrow e end.

(** A step of the engine; the review tables stay. *)
Definition engine {A} (m : M A) : B A :=
  λ c, match m (core c) with
       | (r, k) => (r, {| core := k; challenges := challenges c; audits := audits c |})
       end.

End bound.

Notation "x <~ c ;; k" := (bbind c (λ x, k))
  (at level 100, c at next level, right associativity) : forge_scope.

Section reviews.
Context `{E : ForgeEnv} {R : ReviewEnv}.

(** * Credentials (engine/actors.rs) *)

Fixpoint byte_diff (a b : string) : N :=
  match a, b with
  | String x a, String y b => N.lor (N.lxor (code x) (code y)) (byte_diff a b)
  | _, _ => 0%N
  end.

Definition constant_time_eq (a b : string) : bool :=
  (String.length a =? String.length b) && (byte_diff a b =? 0)%N.

Definition validate_actor_locked (at_ : DateTime) (s : State) (a : AuthenticatedActor)
    (mutation : bool) : result ReviewActorBinding ForgeError :=
  if mutation && negb (mutation_authorized a)
  then Err (Forbidden "read-only session proof cannot authorize mutations")
  else validate_actor_binding at_ s (actor_binding a).

Record Proof_ : Type := {
  proof_login : string; proof_kind : ReviewCredentialKind; proof_id : Uuid; proof_epoch : N;
  proof_mutation : bool
}.

Definition session_proof (mutation : bool) (x : WebSession) : Proof_ :=
  {| proof_login := session_login x; proof_kind := CK_Session; proof_id := session_id x;
     proof_epoch := session_epoch x; proof_mutation := mutation |}.

(** The account behind a credential. Of tokens with equal hashes a hash map may yield any. *)
Definition credential_proof (at_ : DateTime) (s : State) (c : ActorCredential) :
    result Proof_ ForgeError :=
  match c with
  | AC_PersonalAccessToken secret =>
      match find_first (λ t, constant_time_eq (token_hash t) (token_hash_of secret)
                             && unexpired at_ (token_expires_at t))
              (map_to_list (personal_tokens s)).*2 with
      | Some t => Ok {| proof_login := token_login t; proof_kind := CK_PersonalAccessToken;
                        proof_id := token_id t; proof_epoch := token_epoch t;
                        proof_mutation := true |}
      | None => Err invalid_credential
      end
  | AC_Session token_ csrf =>
      match sessions s !! token_hash_of token_ with
      | Some x =>
          if negb (dt_ltb at_ (session_expires_at x)) then Err invalid_credential
          else if negb (constant_time_eq (csrf_token x) csrf)
          then Err (Forbidden "session CSRF proof is invalid")
          else Ok (session_proof true x)
      | None => Err invalid_credential
      end
  | AC_SessionReadOnly token_ =>
      match sessions s !! token_hash_of token_ with
      | Some x => if dt_ltb at_ (session_expires_at x) then Ok (session_proof false x)
                  else Err invalid_credential
      | None => Err invalid_credential
      end
  end.

Definition actor_of (s : State) (p : Proof_) : result AuthenticatedActor ForgeError :=
  match accounts s !! proof_login p, users s !! proof_login p with
  | Some a, Some u =>
      Ok {| actor_binding :=
              {| actor_login := proof_login p; profile_id := user_id u;
                 actor_created_at := account_created_at a; actor_epoch := proof_epoch p;
                 credential_kind := proof_kind p; credential_id := proof_id p |};
            mutation_authorized := proof_mutation p |}
  | _, _ => Err invalid_credential
  end.

Definition authenticate_actor (c : ActorCredential) : M AuthenticatedActor :=
  _ <<- guard process_error;;
  s <<- read_state;;
  t <<- now;;
  p <<- lift (credential_proof t s c);;
  a <<- lift (actor_of s p);;
  t' <<- now;;
  _ <<- lift (validate_actor_locked t' s a false);;
  ret a.

(** * What is reviewed (engine/bound_reviews.rs) *)

Definition validate_oid (oid : string) : result unit ForgeError :=
  if negb (String.length oid =? 40) || negb (string_all is_lower_hex oid)
     || string_all (Ascii.eqb "0"%char) oid
  then Err (Validation "a full nonzero lowercase SHA-1 is required") else Ok tt.

Definition bad_ref_byte (c : ascii) : bool :=
  (code c <=? 32)%N || (code c =? 127)%N
  || existsb (Ascii.eqb c) ["~"; "^"; ":"; "?"; "*"; "["; "\"]%char.

Definition bad_ref_part (p : string) : bool :=
  str_is_empty p || starts_with p "." || ends_with p ".lock".

Definition branch_ref (branch : string) : result string ForgeError :=
  let full := if starts_with branch "refs/" then branch else "refs/heads/" +:+ branch in
  if negb (starts_with full "refs/heads/") || ends_with full "/" || ends_with full "."
     || str_contains ".." full || str_contains "@{" full || str_contains "//" full
     || negb (string_all (λ c, negb (bad_ref_byte c)) full)
     || existsb bad_ref_part (split_on "/"%char full)
  then Err (Validation "review refs must be full direct branch names") else Ok full.

Definition git_repository (r : Repository) : ReviewGitRepository :=
  {| git_repo_id := repo_id r; git_owner := repo_owner r; git_name := repo_name r |}.

(** The repositories and refs of a pull request. *)
Definition review_target (s : State) (id : Uuid) (n : N) :
    result (ReviewGitTarget * PullRequest) ForgeError :=
  match repository_by_id s id with
  | None => Err (NotFound ("repository " +:+ show_N id))
  | Some dest =>
      match pulls s !! (repo_owner dest, repo_name dest, n) with
      | None => Err (NotFound ("pull request " +:+ show_N id +:+ "#" +:+ show_N n))
      | Some pr =>
          let name := if str_is_empty (source_repository pr) then full_name dest
                      else source_repository pr in
          match split_once "/"%char name with
          | None => Err (Validation "invalid stored source repository")
          | Some on =>
              match repos s !! on with
              | None => Err (NotFound ("source repository " +:+ name))
              | Some source =>
                  match branch_ref (ref_name (head pr)), branch_ref (ref_name (base pr)) with
                  | Err e, _ | _, Err e => Err e
                  | Ok sref, Ok dref =>
                      Ok ({| git_source := git_repository source;
                             git_destination := git_repository dest;
                             source_ref := sref; destination_ref := dref |}, pr)
                  end
              end
          end
      end
  end.

(** The checks under the repository guards. *)
Definition admit_review (t : DateTime) (s : State) (a : AuthenticatedActor) (id : Uuid) (n : N)
    (mutation : bool) (hint : ReviewGitTarget) :
    result (ReviewGitTarget * PullRequest * ReviewActorBinding) ForgeError :=
  match validate_actor_locked t s a mutation with
  | Err e => Err e
  | Ok b =>
      match review_target s id n with
      | Err e => Err e
      | Ok (target, pr) =>
          if negb (bool_decide (target = hint))
          then Err (Conflict "review repository/ref identity changed")
          else
            match require_repository_admissible s (git_repo_id (git_destination target)) mutation with
            | Err e => Err e
            | Ok _ =>
                match require_repository_admissible s (git_repo_id (git_source target)) false with
                | Err e => Err e
                | Ok _ =>
                    match require_access s (actor_login b) (git_destination target) mutation with
                    | Err e => Err e
                    | Ok _ =>
                        match require_access s (actor_login b) (git_source target) false with
                        | Err e => Err e
                        | Ok _ => Ok (target, pr, b)
                        end
                    end
                end
            end
      end
  end.

Definition with_review_context {A} (a : AuthenticatedActor) (id : Uuid) (n : N) (mutation : bool)
    (operation : ReviewGitTarget → PullRequest → ReviewActorBinding → B A) : B A :=
  _ <~ engine (guard process_error);;
  s <~ engine read_state;;
  t <~ engine now;;
  _ <~ blift (validate_actor_locked t s a mutation);;
  hint <~ blift (review_target s id n);;
  _ <~ (if mutation then engine (guard ordinary_error) else bret tt);;
  s <~ engine read_state;;
  t <~ engine now;;
  x <~ blift (admit_review t s a id n mutation hint.1);;
  operation x.1.1 x.1.2 x.2.

(** [Option<&Path>] equality: paths are compared component by component. *)
Definition managed_root (root : string) : bool :=
  match storage_root_of with
  | Some managed => bool_decide (components root = components managed)
  | None => false
  end.

(** What the observer reported is of the right form and from managed custody. *)
Definition check_observed (o : ObservedReviewRef) : result unit ForgeError :=
  match validate_oid (observed_commit o) with
  | Err e => Err e
  | Ok _ =>
      match validate_oid (tree_sha o) with
      | Err e => Err e
      | Ok _ =>
          if managed_root (storage_root (identity o)) then Ok tt
          else Err (WriterUnavailable "observed Git root does not match managed custody")
      end
  end.

Definition check_git (target : ReviewGitTarget) (pr : PullRequest) (g : ReviewGitObservation) :
    result unit ForgeError :=
  match check_observed (observed_source g) with
  | Err e => Err e
  | Ok _ =>
      match check_observed (observed_destination g) with
      | Err e => Err e
      | Ok _ =>
          if negb (bool_decide (reference (observed_source g) = source_ref target))
             || negb (bool_decide (reference (observed_destination g) = destination_ref target))
             || negb (bool_decide (observed_commit (observed_source g) = sha (head pr)))
          then Err (Conflict "requested, stored and live pull head/ref must agree") else Ok tt
      end
  end.

Definition events_of (s : State) (repository : Uuid) (pr : PullRequest) : list BoundReviewEvent :=
  filter (λ e, event_repository e = repository ∧ event_pull e = pr_id pr) (bound_reviews s).

(** The snapshot of the state; the accesses are asked for before the role is read. *)
Definition snapshot_of (s : State) (target : ReviewGitTarget) (pr : PullRequest)
    (b : ReviewActorBinding) (g : ReviewGitObservation) : result ReviewSnapshot ForgeError :=
  let policy := protection_of s pr in
  let owners := codeowners_of s pr in
  let ids := map event_id (events_of s (git_repo_id (git_destination target)) pr) in
  let dest := git_destination target in
  let source := git_source target in
  match require_access s (actor_login b) dest true, require_access s (actor_login b) source false,
        accounts s !! actor_login b with
  | Err e, _, _ | _, Err e, _ => Err e
  | _, _, None => Err (Unauthenticated "account disappeared")
  | Ok da, Ok sa, Some a =>
      Ok {| snap_repository := git_repo_id dest; snap_pull := pr_id pr;
            snap_pull_number := number pr; snap_author := pr_author pr; snap_target := target;
            snap_git := g; stored_head_sha := sha (head pr); stored_base_sha := sha (base pr);
            snap_draft := draft pr; snap_policy := policy; snap_codeowners := owners;
            policy_revision := sha_policy policy owners; snap_reviewer := b;
            destination_access := da; source_access := sa; reviewer_role := role a;
            destination_grant := repo_grants s !! (actor_login b, git_owner dest, git_name dest);
            source_grant := repo_grants s !! (actor_login b, git_owner source, git_name source);
            bound_event_ids := ids;
            advisory_reviews :=
              filter (λ r, review_id r ∉ ids) (reviews_of s (pr_owner pr, pr_repo pr, number pr));
            advisory_statuses :=
              isort (λ x y, (status_id x <=? status_id y)%N)
                (statuses_of s (pr_owner pr) (pr_repo pr) (sha (head pr)));
            advisory_check_runs :=
              isort (λ x y, (run_id x <=? run_id y)%N)
                (filter (λ r, run_head_sha r = sha (head pr)) (runs_of s (pr_owner pr) (pr_repo pr)));
            advisory_commits := commits pr; snap_changed_files := changed_files pr |}
  end.

Definition observe_review_snapshot (target : ReviewGitTarget) (pr : PullRequest)
    (b : ReviewActorBinding) : B ReviewSnapshot :=
  if negb (is_open_pull pr) then bthrow (Conflict "closed pull request cannot accept a new review")
  else
    match observer with
    | None => bthrow (WriterUnavailable "managed Git review observer is unavailable")
    | Some observe =>
        r <~ engine (ask (observe target));;
        g <~ blift r;;
        _ <~ blift (check_git target pr g);;
        s <~ engine read_state;;
        blift (snapshot_of s target pr b g)
    end.

Definition review_storage : B unit :=
  λ c, match stored (core c) with
       | Some _ => (Ok tt, c)
       | None => (Err (WriterUnavailable "authenticated review events require durable storage"), c)
       end.

(** * Challenges (engine/bound_reviews.rs, engine/storage/bound_reviews.rs) *)

Definition unavailable_blockers : list string :=
  ["authoritative required-check attempts are unavailable; legacy checks are advisory";
   "Core-owned merge execution and fresh live-ref qualification are unavailable"].

(** A transaction on the review tables: all of it, or an error and nothing of it. *)
Definition transaction (rows : gmap Uuid (ReviewChallenge * option BoundReviewEvent))
    (audit : AuditEntry) (s : option State) : B unit :=
  λ c, match store_error (asked (core c)) with
       | Some e =>
           (Err e, {| core := {| state := state (core c); stored := stored (core c);
                                 asked := S (asked (core c)) |};
                      challenges := challenges c; audits := audits c |})
       | None =>
           (Ok tt, {| core := {| state := or_else s (state (core c));
                                 stored := match s with Some s => Some s | None => stored (core c) end;
                                 asked := S (asked (core c)) |};
                      challenges := rows; audits := audits c ++ [audit] |})
       end.

(** The rows as they are; opening the database or a query on it may fail. *)
Definition read_challenges : B (gmap Uuid (ReviewChallenge * option BoundReviewEvent)) :=
  _ <~ engine (guard store_error);;
  λ c, (Ok (challenges c), c).

Definition insert_review_challenge (ch : ReviewChallenge) : B unit :=
  rows <~ read_challenges;;
  id <~ engine new_v4;;
  match rows !! challenge_id ch with
  | Some _ => bthrow (Storage "UNIQUE constraint failed: forge_review_challenges.id")
  | None =>
      transaction (<[challenge_id ch := (ch, None)]> rows)
        {| entry_id := id; occurred_at := challenge_created_at ch;
           audit_actor := actor_login (snap_reviewer (challenge_snapshot ch));
           audit_action := "review.challenge";
           audit_subject := snap_repository (challenge_snapshot ch);
           audit_phase := "requested";
           audit_detail := AD_Challenge (challenge_id ch) (snapshot_sha256 ch)
                             (snap_reviewer (challenge_snapshot ch)) |} None
  end.

(** [decode_event]: the event agrees with itself. *)
Definition event_consistent (e : BoundReviewEvent) : bool :=
  let x := event_snapshot e in
  bool_decide (sha_snapshot x = event_snapshot_sha256 e)
  && bool_decide (snap_reviewer x = event_actor e)
  && (event_id e =? review_id (event_review e))%N
  && (snap_repository x =? event_repository e)%N
  && (snap_pull x =? event_pull e)%N
  && (snap_pull_number x =? event_pull_number e)%N
  && negb (sequence e =? 0)%N
  && bool_decide (review_author (event_review e) = actor_login (event_actor e))
  && bool_decide (review_head_sha (event_review e)
                  = Some (observed_commit (observed_source (snap_git x))))
  && forallb (λ c, (rc_review c =? event_id e)%N
                   && bool_decide (rc_author c = actor_login (event_actor e))) (event_comments e).

(** [load_challenge]: a row is read back only if it agrees with itself. *)
Definition load_challenge (rows : gmap Uuid (ReviewChallenge * option BoundReviewEvent))
    (id : Uuid) : result (ReviewChallenge * option BoundReviewEvent) ForgeError :=
  match rows !! id with
  | None => Err (NotFound ("review challenge " +:+ show_N id))
  | Some (ch, accepted) =>
      if negb (challenge_id ch =? id)%N
         || negb (bool_decide (sha_snapshot (challenge_snapshot ch) = snapshot_sha256 ch))
         || merge_qualified ch
      then Err (Storage "inconsistent persisted review challenge")
      else
        match accepted with
        | None => Ok (ch, None)
        | Some e =>
            if negb (event_consistent e) then
              Err (Storage "inconsistent persisted bound review event")
            else if negb (event_challenge e =? id)%N
                    || negb (bool_decide (event_snapshot e = challenge_snapshot ch))
            then Err (Storage "inconsistent consumed review challenge")
            else Ok (ch, Some e)
        end
  end.

(** The event consumes the challenge and the new state is saved, in one transaction. *)
Definition commit_bound_review (ch : ReviewChallenge) (e : BoundReviewEvent) (proposed : State) :
    B unit :=
  rows <~ read_challenges;;
  x <~ blift (load_challenge rows (challenge_id ch));;
  if negb (bool_decide (x.1 = ch)) || bool_decide (is_Some x.2)
  then bthrow (Conflict "review challenge changed before commit")
  else
    transaction (<[challenge_id ch := (ch, Some e)]> rows)
      {| entry_id := audit_id e; occurred_at := submitted_at (event_review e);
         audit_actor := actor_login (event_actor e); audit_action := "review.bound_event";
         audit_subject := event_repository e; audit_phase := "completed";
         audit_detail := AD_Event e |} (Some proposed).

(** The expiry is a panic where chrono cannot hold it. *)
Definition create_review_challenge (a : AuthenticatedActor) (id : Uuid) (n : N)
    (expected : string) : B ReviewChallenge :=
  _ <~ blift (validate_oid expected);;
  with_review_context a id n true (λ target pr b,
    x <~ observe_review_snapshot target pr b;;
    if negb (bool_decide (observed_commit (observed_source (snap_git x)) = expected))
    then bthrow (Conflict "requested, stored and live pull head must agree")
    else
      s <~ engine read_state;;
      t <~ engine now;;
      _ <~ blift (validate_actor_locked t s a true);;
      t <~ engine now;;
      cid <~ engine new_v4;;
      r <~ engine (ask random_secret);;
      nonce_ <~ blift r;;
      match add_minutes t 10 with
      | None => bthrow (Storage "DateTime + TimeDelta overflowed")
      | Some expiry =>
          let ch := {| challenge_id := cid; nonce := nonce_; challenge_created_at := t;
                       challenge_expires_at := expiry; challenge_snapshot := x;
                       snapshot_sha256 := sha_snapshot x; merge_qualified := false;
                       challenge_blockers := unavailable_blockers |} in
          _ <~ review_storage;;
          _ <~ insert_review_challenge ch;;
          bret ch
      end).

(** * Verdicts *)

Fixpoint bound_comments (inputs : list ReviewCommentInput) (id : Uuid) (pr : PullRequest) (n : N)
    (login : string) (t : DateTime) : B (list ReviewComment) :=
  match inputs with
  | [] => bret []
  | c :: inputs =>
      cid <~ engine new_v4;;
      rest <~ bound_comments inputs id pr n login t;;
      bret ({| rc_id := cid; rc_review := id; rc_owner := pr_owner pr; rc_repo := pr_repo pr;
               rc_pull := n; rc_path := input_path c; rc_line := input_line c;
               rc_author := login; rc_body := input_body c; rc_created_at := t |} :: rest)
  end.

(** The next number in the history of a pull request. *)
Definition next_sequence (s : State) (id : Uuid) (pr : PullRequest) : option N :=
  checked_add u64_max (foldr N.max 0%N (map sequence (events_of s id pr))) 1.

(** The challenge is the one this request is about. *)
Definition challenge_matches (ch : ReviewChallenge) (id : Uuid) (pr : PullRequest) (n : N)
    (b : ReviewActorBinding) (r : SubmitBoundReviewRequest) : bool :=
  let x := challenge_snapshot ch in
  (snap_repository x =? id)%N && (snap_pull x =? pr_id pr)%N && (snap_pull_number x =? n)%N
  && bool_decide (snap_reviewer x = b)
  && bool_decide (observed_commit (observed_source (snap_git x)) = sb_expected_head r)
  && constant_time_eq (nonce ch) (sb_nonce r).

(** A dismissal names a verdict in force, of the same reviewer. *)
Definition check_bound_dismissal (s : State) (pr : PullRequest) (b : ReviewActorBinding)
    (target : Uuid) : result unit ForgeError :=
  match find_first (λ e, (review_id (event_review e) =? target)%N) (reduced_bound_events s pr) with
  | None => Err (Conflict "dismissal target is not a current bound verdict")
  | Some e =>
      if negb (profile_id (event_actor e) =? profile_id b)%N
         || negb (bool_decide (actor_login (event_actor e) = actor_login b))
      then Err (Forbidden "reviewers may dismiss only their own verdicts") else Ok tt
  end.

Definition bound_review (id : Uuid) (pr : PullRequest) (n : N) (b : ReviewActorBinding)
    (r : SubmitBoundReviewRequest) (head_ : string) (dismissed : option Uuid) (t : DateTime) :
    Review :=
  {| review_id := id; review_owner := pr_owner pr; review_repo := pr_repo pr; pull_number := n;
     review_author := actor_login b; review_state := sb_event r; review_body := sb_body r;
     review_head_sha := Some head_; dismissed_review_id := dismissed; submitted_at := t |}.

(** The state with the event and its compatibility rows. *)
Definition propose (s : State) (pr : PullRequest) (n : N) (e : BoundReviewEvent) (t : DateTime) :
    State :=
  let key := (pr_owner pr, pr_repo pr, n) in
  let s1 := add_review key (event_review e) (event_comments e) s in
  let s2 := set_bound_reviews (bound_reviews s1 ++ [e]) s1 in
  put_pull key (reevaluate t s2 pr) s2.

Definition accept_review (ch : ReviewChallenge) (x : ReviewSnapshot) (id : Uuid) (n : N)
    (pr : PullRequest) (b : ReviewActorBinding) (r : SubmitBoundReviewRequest)
    (dismissed : option Uuid) (digest : string) : B BoundReviewEvent :=
  s <~ engine read_state;;
  _ <~ blift (match dismissed with
              | Some target => check_bound_dismissal s pr b target | None => Ok tt end);;
  t <~ engine now;;
  eid <~ engine new_v4;;
  cs <~ bound_comments (sb_comments r) eid pr n (actor_login b) t;;
  match next_sequence s id pr with
  | None => bthrow (Storage "bound review sequence exhausted")
  | Some q =>
      aid <~ engine new_v4;;
      let e := {| event_id := eid; event_repository := id; event_pull := pr_id pr;
                  event_pull_number := n; sequence := q; event_challenge := challenge_id ch;
                  event_actor := b; event_snapshot := x;
                  event_snapshot_sha256 := snapshot_sha256 ch; request_sha256 := digest;
                  event_review := bound_review eid pr n b r
                                    (observed_commit (observed_source (snap_git x))) dismissed t;
                  event_comments := cs; audit_id := aid |} in
      t' <~ engine now;;
      _ <~ commit_bound_review ch e (propose s pr n e t');;
      bret e
  end.

Definition record_bound_review (a : AuthenticatedActor) (id : Uuid) (n : N)
    (r : SubmitBoundReviewRequest) (dismissed : option Uuid) (digest : string) :
    B BoundReviewEvent :=
  _ <~ blift (validate_oid (sb_expected_head r));;
  with_review_context a id n true (λ target pr b,
    _ <~ review_storage;;
    rows <~ read_challenges;;
    ca <~ blift (load_challenge rows (sb_challenge r));;
    if negb (challenge_matches ca.1 id pr n b r)
    then bthrow (Conflict "review challenge binding does not match this request")
    else
      match ca.2 with
      | Some e =>
          if bool_decide (request_sha256 e = digest) then bret e
          else bthrow (Conflict "review challenge was consumed by a different request")
      | None =>
          t <~ engine now;;
          if dt_leb (challenge_expires_at ca.1) t
          then bthrow (Conflict "review challenge expired; obtain a fresh challenge")
          else
            x <~ observe_review_snapshot target pr b;;
            if negb (bool_decide (x = challenge_snapshot ca.1))
               || negb (bool_decide (sha_snapshot x = snapshot_sha256 ca.1))
            then bthrow (Conflict "review refs, policy, authority or evidence changed; obtain a fresh challenge")
            else
              t <~ engine now;;
              if dt_leb (challenge_expires_at ca.1) t
              then bthrow (Conflict "review challenge expired during Git observation")
              else
                s <~ engine read_state;;
                t <~ engine now;;
                _ <~ blift (validate_actor_locked t s a true);;
                if bool_decide (sb_event r = RS_Approved)
                   && eq_ignore_ascii_case (pr_author pr) (actor_login b)
                then bthrow (Forbidden "pull request authors cannot approve their own changes")
                else accept_review ca.1 x id n pr b r dismissed digest
      end).

Definition bad_comment (c : ReviewCommentInput) : bool :=
  str_is_empty (input_path c) || starts_with (input_path c) "/"
  || existsb (λ p, bool_decide (p ∈ [""; "."; ".."])) (split_on "/"%char (input_path c))
  || str_is_empty (trim (input_body c)) || bool_decide (input_line c = Some 0%N).

Definition submit_bound_review (a : AuthenticatedActor) (id : Uuid) (n : N)
    (r : SubmitBoundReviewRequest) : B BoundReviewEvent :=
  if bool_decide (sb_event r = RS_Dismissed)
  then bthrow (Validation "dismissal requires an explicit target review and reason")
  else if existsb bad_comment (sb_comments r)
  then bthrow (Validation "review comments require a relative path, nonempty body and positive line")
  else record_bound_review a id n r None (sha_submit r).

Definition dismiss_bound_review (a : AuthenticatedActor) (id : Uuid) (n : N)
    (r : DismissBoundReviewRequest) : B BoundReviewEvent :=
  if str_is_empty (trim (db_reason r))
  then bthrow (Validation "review dismissal requires a reason")
  else
    record_bound_review a id n
      {| sb_challenge := db_challenge r; sb_nonce := db_nonce r;
         sb_expected_head := db_expected_head r; sb_event := RS_Dismissed;
         sb_body := Some (db_reason r); sb_comments := [] |} (Some (db_review r)) (sha_dismiss r).

(** * Reading back *)

Record ReviewQualification : Type := {
  q_repository : Uuid; q_pull_number : N; q_head : string; effective_reviews : list Review;
  q_advisory : list Review; bound_review_ids : list Uuid; q_merge_qualified : bool;
  q_blockers : list string
}.

Definition qualification_locked (t : DateTime) (s : State) (pr : PullRequest) (id : Uuid) :
    ReviewQualification :=
  let ids := map (λ e, review_id (event_review e)) (events_of s id pr) in
  {| q_repository := id; q_pull_number := number pr; q_head := sha (head pr);
     effective_reviews := bound_reviews_for_evaluation t s pr;
     q_advisory := filter (λ r, review_id r ∉ ids)
                     (reviews_of s (pr_owner pr, pr_repo pr, number pr));
     bound_review_ids := ids; q_merge_qualified := false; q_blockers := unavailable_blockers |}.

Definition bound_review_history (a : AuthenticatedActor) (id : Uuid) (n : N) :
    B (list BoundReviewEvent * ReviewQualification) :=
  with_review_context a id n false (λ _ pr _,
    s <~ engine read_state;;
    t <~ engine now;;
    bret (events_of s id pr, qualification_locked t s pr id)).

Definition review_qualification (owner repo : string) (n : N) : M ReviewQualification :=
  _ <<- guard process_error;;
  s <<- read_state;;
  match repos s !! (owner, repo) with
  | None => throw (NotFound ("repository " +:+ slug owner repo))
  | Some r =>
      match pulls s !! (owner, repo, n) with
      | None => throw (pull_missing owner repo n)
      | Some pr => t <<- now;; ret (qualification_locked t s pr (repo_id r))
      end
  end.

End reviews.
