(* ===== verification/BoundReviewLaws.v ===== *)
(** BoundReviewLaws: what the authenticated reviews guarantee, however challenges, verdicts and
    all other mutations of the forge interleave: a challenge is spent once, on the evidence it
    froze; the history agrees with itself; an approval counts as soon as it is accepted. *)

From Stdlib Require Import Ascii.
From S2P Require Import Prelude Text Clock BranchProtection ForgeState Forge ForgeLaws.
From S2P Require Import ForgeInvariant ForgeCalls ForgeBehaviour BoundReviews.
Local Open Scope forge_scope.

Section running.
Context `{E : ForgeEnv} {R : ReviewEnv}.

(** Where a call is: the state of the forge, the rows, the audit trail and the number of
    questions asked. *)
Record at_point (s : State) (rows : gmap Uuid (ReviewChallenge * option BoundReviewEvent))
    (au : list AuditEntry) (k : nat) (c : ReviewCore) : Prop := {
  ap_saved : saved (core c); ap_state : state (core c) = s; ap_rows : challenges c = rows;
  ap_audits : audits c = au; ap_asked : asked (core c) = k
}.

Definition bwp {A} (m : B A) (Q : result A ForgeError → ReviewCore → Prop) (c : ReviewCore) : Prop :=
  Q (m c).1 (m c).2.

Definition bthen {A X} (k : A → B X) (Q : result X ForgeError → ReviewCore → Prop) :
    result A ForgeError → ReviewCore → Prop :=
  λ r c, match r with Ok x => bwp (k x) Q c | Err e => Q (Err e) c end.

Lemma bwp_bind {A X} (m : B A) (k : A → B X) Q c : bwp m (bthen k Q) c → bwp (bbind m k) Q c.
Proof. unfold bwp, bthen, bbind. by destruct (m c) as [[x|e] c']. Qed.

Lemma bwp_ret {A} (x : A) Q c : Q (Ok x) c → bwp (bret x) Q c.
Proof. done. Qed.

Lemma bwp_throw {A} e (Q : result A ForgeError → ReviewCore → Prop) c : Q (Err e) c → bwp (bthrow e) Q c.
Proof. done. Qed.

Lemma bwp_lift {A} (r : result A ForgeError) Q c : Q r c → bwp (blift r) Q c.
Proof. by destruct r. Qed.

Lemma bwp_read Q c s rows au k :
  at_point s rows au k c → Q (Ok s) c → bwp (engine read_state) Q c.
Proof. intros [Hs <- <- <- <-] HQ. unfold bwp, engine. destruct c. exact HQ. Qed.

Lemma bwp_ask {A} (f : nat → A) Q c s rows au k :
  at_point s rows au k c → (∀ c', at_point s rows au (S k) c' → Q (Ok (f k)) c') →
  bwp (engine (ask f)) Q c.
Proof. intros [Hs <- <- <- <-] HQ. apply HQ. by split. Qed.

Lemma bwp_guard f Q c s rows au k :
  at_point s rows au k c → (∀ c', at_point s rows au (S k) c' → Q (Ok tt) c') →
  (∀ e c', at_point s rows au (S k) c' → Q (Err e) c') → bwp (engine (guard f)) Q c.
Proof.
  intros [Hs <- <- <- <-] H1 H2. unfold bwp, engine, guard, bind, ask.
  destruct (f (asked (core c))); [apply H2|apply H1]; by split.
Qed.

Lemma bwp_rows Q c s rows au k :
  at_point s rows au k c → (∀ c', at_point s rows au (S k) c' → Q (Ok rows) c') →
  (∀ e c', at_point s rows au (S k) c' → Q (Err e) c') → bwp read_challenges Q c.
Proof.
  intros Hc H1 H2. apply bwp_bind. eapply bwp_guard; [exact Hc| |by intros; apply H2].
  intros c' Hc'. unfold bthen, bwp. cbn. rewrite (ap_rows _ _ _ _ _ Hc'). by apply H1.
Qed.

Lemma bwp_storage Q c s rows au k :
  at_point s rows au k c → Q (Ok tt) c → (∀ e, Q (Err e) c) → bwp review_storage Q c.
Proof. intros _ H1 H2. unfold bwp, review_storage. destruct (stored (core c)); [done|apply H2]. Qed.

Lemma bwp_transaction rows' a o Q c s rows au k :
  at_point s rows au k c →
  (∀ c', at_point (or_else o s) rows' (au ++ [a]) (S k) c' → Q (Ok tt) c') →
  (∀ e c', at_point s rows au (S k) c' → Q (Err e) c') → bwp (transaction rows' a o) Q c.
Proof.
  intros [Hs <- <- <- <-] H1 H2. unfold bwp, transaction.
  destruct (store_error (asked (core c))); [apply H2; by split|]. apply H1. split; [|done..].
  unfold saved in *. cbn. by destruct o, (stored (core c)).
Qed.

End running.

Ltac bstep :=
  match goal with
  | |- bthen _ _ (Ok _) _ => unfold bthen; cbv beta iota
  | |- bthen _ _ (Err _) _ => unfold bthen; cbv beta iota
  | |- bthen _ _ ?r _ => destruct r eqn:?
  | |- bwp (bbind _ _) _ _ => apply bwp_bind
  | |- bwp (bret _) _ _ => apply bwp_ret
  | |- bwp (bthrow _) _ _ => apply bwp_throw
  | |- bwp (blift _) _ _ => apply bwp_lift
  | H : at_point _ _ _ _ ?c |- bwp (engine read_state) _ ?c => eapply (bwp_read _ c _ _ _ _ H)
  | H : at_point _ _ _ _ ?c |- bwp read_challenges _ ?c => eapply (bwp_rows _ c _ _ _ _ H); clear c H; [intros ? ?|intros ? ? ?]
  | H : at_point _ _ _ _ ?c |- bwp (engine (ask _)) _ ?c =>
      eapply (bwp_ask _ _ c _ _ _ _ H); clear c H; intros ? ?
  | H : at_point _ _ _ _ ?c |- bwp (engine now) _ ?c =>
      eapply (bwp_ask _ _ c _ _ _ _ H); clear c H; intros ? ?
  | H : at_point _ _ _ _ ?c |- bwp (engine new_v4) _ ?c =>
      eapply (bwp_ask _ _ c _ _ _ _ H); clear c H; intros ? ?
  | H : at_point _ _ _ _ ?c |- bwp (engine (guard _)) _ ?c =>
      eapply (bwp_guard _ _ c _ _ _ _ H); clear c H; [intros ? ?|intros ? ? ?]
  | H : at_point _ _ _ _ ?c |- bwp review_storage _ ?c =>
      eapply (bwp_storage _ c _ _ _ _ H); [|intros ?]
  | H : at_point _ _ _ _ ?c |- bwp (transaction _ _ _) _ ?c =>
      eapply (bwp_transaction _ _ _ _ c _ _ _ _ H); clear c H; [intros ? ?|intros ? ? ?]
  | |- bwp (if ?b then _ else _) _ _ => destruct b eqn:?
  | |- bwp (match ?x with _ => _ end) _ _ => destruct x eqn:?
  | |- bwp _ _ _ => progress (cbv zeta beta)
  end.

Section verdicts.
Context `{E : ForgeEnv} {R : ReviewEnv}.

(** What admits a review call at an instant. *)
Record admitted_review (t : DateTime) (s : State) (a : AuthenticatedActor) (id : Uuid) (n : N)
    (target : ReviewGitTarget) (pr : PullRequest) : Prop := {
  ar_actor : validate_actor_locked t s a true = Ok (actor_binding a);
  ar_target : review_target s id n = Ok (target, pr);
  ar_destination : require_repository_admissible s (git_repo_id (git_destination target)) true = Ok tt;
  ar_source : require_repository_admissible s (git_repo_id (git_source target)) false = Ok tt;
  ar_write : is_ok (require_access s (actor_login (actor_binding a)) (git_destination target) true) = true
}.

Lemma validate_actor_ok t s a m b : validate_actor_locked t s a m = Ok b → b = actor_binding a.
Proof.
  unfold validate_actor_locked, validate_actor_binding. destruct (m && _); [done|].
  destruct (accounts s !! _); [|done]. destruct (_ || _); [done|].
  destruct (live_credential _ _ _); [|done]. by intros [= <-].
Qed.

Lemma admit_review_ok t s a id n hint target pr b :
  admit_review t s a id n true hint = Ok (target, pr, b) →
  b = actor_binding a ∧ admitted_review t s a id n target pr.
Proof.
  unfold admit_review. destruct (validate_actor_locked t s a true) as [b0|] eqn:Hv; [|done].
  destruct (review_target s id n) as [[tg p]|] eqn:Ht; [|done].
  destruct (negb _); [done|].
  destruct (require_repository_admissible s _ true) as [[]|] eqn:Hd; [|done].
  destruct (require_repository_admissible s _ false) as [[]|] eqn:Hs; [|done].
  destruct (require_access s _ _ true) as [|] eqn:Hw; [|done].
  destruct (require_access s _ _ false); [|done]. intros [= -> -> <-].
  apply validate_actor_ok in Hv as Hb. split; [done|]. subst b0.
  split; [done..|by rewrite Hw].
Qed.

Lemma bwp_context {A} a id n (op : ReviewGitTarget → PullRequest → ReviewActorBinding → B A)
    Q c s rows au k :
  at_point s rows au k c →
  (∀ target pr c', at_point s rows au (4 + k) c' →
     admitted_review (now_at (3 + k)) s a id n target pr →
     bwp (op target pr (actor_binding a)) Q c') →
  (∀ e c' k', at_point s rows au k' c' → Q (Err e) c') →
  bwp (with_review_context a id n true op) Q c.
Proof.
  intros Hc Hop Herr. unfold with_review_context. repeat bstep; try (by eapply Herr).
  match goal with H : admit_review _ _ _ _ _ _ _ = Ok ?x |- _ =>
    destruct x as [[target pr] b]; apply admit_review_ok in H as [-> Hadm] end.
  by apply Hop.
Qed.

(** A snapshot of the state and of what the Git observer answers at question [j]. *)
Definition taken (s : State) (j : nat) (target : ReviewGitTarget) (pr : PullRequest)
    (b : ReviewActorBinding) (x : ReviewSnapshot) : Prop :=
  is_open_pull pr = true
  ∧ ∃ observe g, observer = Some observe ∧ observe target j = Ok g
      ∧ check_git target pr g = Ok tt ∧ snapshot_of s target pr b g = Ok x.

Lemma bwp_observe target pr b Q c s rows au k :
  at_point s rows au k c →
  (∀ x c', at_point s rows au (S k) c' → taken s k target pr b x → Q (Ok x) c') →
  (∀ e c' k', at_point s rows au k' c' → Q (Err e) c') →
  bwp (observe_review_snapshot target pr b) Q c.
Proof.
  intros Hc Hok Herr. unfold observe_review_snapshot.
  destruct (is_open_pull pr) eqn:Hopen; cbn [negb]; [|by bstep; eapply Herr].
  destruct observer as [observe|] eqn:Hobserver; [|by bstep; eapply Herr].
  repeat bstep; try (by eapply Herr).
  match goal with |- Q ?r _ => destruct r eqn:Hx end; [|by eapply Herr].
  apply Hok; [done|]. split; [done|]. eexists observe, _.
  split; [exact Hobserver|]. split; [eassumption|]. split; [|exact Hx].
  match goal with H : check_git _ _ _ = Ok ?u |- _ => by destruct u end.
Qed.

Lemma bwp_comments inputs eid pr n login t Q c s rows au k :
  at_point s rows au k c →
  (∀ cs c', at_point s rows au (length inputs + k) c' →
     Forall (λ x, rc_review x = eid ∧ rc_author x = login) cs → length cs = length inputs →
     Q (Ok cs) c') →
  bwp (bound_comments inputs eid pr n login t) Q c.
Proof.
  revert Q c k. induction inputs as [|i inputs IH]; intros Q c k Hc HQ; cbn [bound_comments].
  - apply bwp_ret, HQ; done.
  - repeat bstep. eapply IH; [done|]. intros cs c1 Hc1 Hcs Hlen. repeat bstep. apply HQ.
    + by rewrite Nat.add_succ_r in Hc1.
    + by constructor.
    + cbn. by rewrite Hlen.
Qed.


(** ** What a verdict does *)

(** The order of the checks between two questions: admitted; the challenge not expired; the
    evidence observed; the challenge still not expired; the actor still valid. *)
Definition checked_in_order (s : State) (k0 k1 : nat) (a : AuthenticatedActor) (id : Uuid) (n : N)
    (target : ReviewGitTarget) (pr : PullRequest) (ch : ReviewChallenge) : Prop :=
  ∃ i h j l m, (k0 ≤ i ∧ i < h ∧ h < j ∧ j < l ∧ l < m ∧ m < k1)
    ∧ admitted_review (now_at i) s a id n target pr
    ∧ dt_leb (challenge_expires_at ch) (now_at h) = false
    ∧ taken s j target pr (actor_binding a) (challenge_snapshot ch)
    ∧ dt_leb (challenge_expires_at ch) (now_at l) = false
    ∧ validate_actor_locked (now_at m) s a true = Ok (actor_binding a).

(** The event [e] accepted, between two questions, by a request on the challenge [ch]. *)
Record accepted_event (s : State) (k0 k1 : nat) (a : AuthenticatedActor) (id : Uuid) (n : N)
    (r : SubmitBoundReviewRequest) (dismissed : option Uuid) (digest : string)
    (target : ReviewGitTarget) (pr : PullRequest) (ch : ReviewChallenge) (e : BoundReviewEvent)
    : Prop := {
  ae_checked : checked_in_order s k0 k1 a id n target pr ch;
  ae_challenge : challenge_id ch = sb_challenge r;
  ae_matches : challenge_matches ch id pr n (actor_binding a) r = true;
  ae_digest : sha_snapshot (challenge_snapshot ch) = snapshot_sha256 ch;
  ae_self : sb_event r = RS_Approved →
    eq_ignore_ascii_case (pr_author pr) (actor_login (actor_binding a)) = false;
  ae_dismissal : match dismissed with
                 | Some d => check_bound_dismissal s pr (actor_binding a) d = Ok tt
                 | None => True
                 end;
  ae_place : event_repository e = id ∧ event_pull e = pr_id pr ∧ event_pull_number e = n;
  ae_sequence : next_sequence s id pr = Some (sequence e);
  ae_request : event_challenge e = challenge_id ch ∧ event_actor e = actor_binding a
    ∧ request_sha256 e = digest;
  ae_snapshot : event_snapshot e = challenge_snapshot ch
    ∧ event_snapshot_sha256 e = snapshot_sha256 ch;
  ae_review : event_review e
    = bound_review (event_id e) pr n (actor_binding a) r
        (observed_commit (observed_source (snap_git (challenge_snapshot ch)))) dismissed
        (submitted_at (event_review e));
  ae_comments : Forall (λ x, rc_review x = event_id e
                             ∧ rc_author x = actor_login (actor_binding a)) (event_comments e)
                ∧ length (event_comments e) = length (sb_comments r)
}.

Lemma ae_admitted s k0 k1 a id n r d g target pr ch e :
  accepted_event s k0 k1 a id n r d g target pr ch e →
  ∃ i, k0 ≤ i ∧ i < k1 ∧ admitted_review (now_at i) s a id n target pr.
Proof. intros [(i & h & j & l & m & Ho & Ha & _) _]. exists i. split_and!; [lia..|done]. Qed.

Lemma ae_taken s k0 k1 a id n r d g target pr ch e :
  accepted_event s k0 k1 a id n r d g target pr ch e →
  ∃ j, k0 ≤ j ∧ j < k1 ∧ taken s j target pr (actor_binding a) (challenge_snapshot ch).
Proof. intros [(i & h & j & l & m & Ho & _ & _ & Ht & _) _]. exists j. split_and!; [lia..|done]. Qed.

(** Nothing of the forge or of the tables changed. *)
Definition kept (c c' : ReviewCore) : Prop :=
  saved (core c') ∧ state (core c') = state (core c) ∧ challenges c' = challenges c
  ∧ audits c' = audits c.

Definition consumed (c c' : ReviewCore) (a : AuthenticatedActor) (id : Uuid) (n : N)
    (r : SubmitBoundReviewRequest) (dismissed : option Uuid) (digest : string)
    (e : BoundReviewEvent) : Prop :=
  ∃ target pr ch t entry,
    challenges c !! sb_challenge r = Some (ch, None)
    ∧ accepted_event (state (core c)) (asked (core c)) (asked (core c')) a id n r dismissed digest
        target pr ch e
    ∧ saved (core c') ∧ state (core c') = propose (state (core c)) pr n e t
    ∧ challenges c' = <[sb_challenge r := (ch, Some e)]> (challenges c)
    ∧ audits c' = audits c ++ [entry] ∧ audit_detail entry = AD_Event e.

Definition repeated (c c' : ReviewCore) (r : SubmitBoundReviewRequest) (digest : string)
    (e : BoundReviewEvent) : Prop :=
  kept c c' ∧ request_sha256 e = digest
  ∧ ∃ ch, challenges c !! sb_challenge r = Some (ch, Some e) ∧ constant_time_eq (nonce ch) (sb_nonce r) = true.

Definition verdict_post (c : ReviewCore) (a : AuthenticatedActor) (id : Uuid) (n : N)
    (r : SubmitBoundReviewRequest) (dismissed : option Uuid) (digest : string)
    (res : result BoundReviewEvent ForgeError) (c' : ReviewCore) : Prop :=
  match res with
  | Err _ => kept c c'
  | Ok e => repeated c c' r digest e ∨ consumed c c' a id n r dismissed digest e
  end.

Lemma at_kept c s rows au k k' c' :
  at_point s rows au k c → at_point s rows au k' c' → kept c c'.
Proof. intros [] []. unfold kept. split_and!; congruence. Qed.

Lemma load_challenge_ok rows id ch o :
  load_challenge rows id = Ok (ch, o) →
  rows !! id = Some (ch, o) ∧ challenge_id ch = id
  ∧ match o with Some e => event_consistent e = true | None => True end.
Proof.
  unfold load_challenge. destruct (rows !! id) as [[ch0 o0]|] eqn:Hrow; [|done].
  destruct (_ || _) eqn:Hc; [done|]. apply orb_false_iff in Hc as [[Hid _]%orb_false_iff _].
  apply negb_false_iff, N.eqb_eq in Hid. destruct o0 as [e|]; [|by intros [= <- <-]].
  destruct (event_consistent e) eqn:He; [|done]. cbn. destruct (_ || _); [done|].
  by intros [= <- <-].
Qed.


Lemma bwp_commit_review ch e proposed Q c s rows au k :
  at_point s rows au k c →
  (∀ c' entry, at_point proposed (<[challenge_id ch := (ch, Some e)]> rows) (au ++ [entry]) (S (S k)) c' →
     audit_detail entry = AD_Event e → Q (Ok tt) c') →
  (∀ x c' k', at_point s rows au k' c' → Q (Err x) c') →
  bwp (commit_bound_review ch e proposed) Q c.
Proof.
  intros Hc Hok Herr. unfold commit_bound_review. repeat bstep; try (by eapply Herr).
  by eapply Hok.
Qed.

Lemma accept_review_spec ch x id n target pr a r dismissed digest c0 c k :
  let s := state (core c0) in
  at_point s (challenges c0) (audits c0) k c → asked (core c0) ≤ k →
  challenges c0 !! sb_challenge r = Some (ch, None) → challenge_id ch = sb_challenge r →
  challenge_matches ch id pr n (actor_binding a) r = true →
  x = challenge_snapshot ch → sha_snapshot x = snapshot_sha256 ch →
  checked_in_order s (asked (core c0)) k a id n target pr ch →
  (sb_event r = RS_Approved →
   eq_ignore_ascii_case (pr_author pr) (actor_login (actor_binding a)) = false) →
  bwp (accept_review ch x id n pr (actor_binding a) r dismissed digest)
    (verdict_post c0 a id n r dismissed digest) c.
Proof.
  intros s Hc Hle Hrow Hid Hm -> Hsha (i & h & j & l & m & Horder & Hchecked) Hself.
  assert (Hkept : ∀ e c' k', at_point s (challenges c0) (audits c0) k' c' →
                    verdict_post c0 a id n r dismissed digest (Err e) c').
  { intros e c' k' []. unfold verdict_post, kept. by split_and!. }
  unfold accept_review. repeat bstep; try (by eapply Hkept).
  eapply bwp_comments; [eassumption|]. intros cs c1 Hc1 Hcs Hlen.
  repeat bstep; try (by eapply Hkept).
  eapply bwp_commit_review; [eassumption| |by intros; bstep; eapply Hkept].
  intros c2 entry [Hsaved Hst Hrows Hau Hask] Hentry. repeat bstep. right.
  eexists target, pr, ch, _, entry. rewrite Hask. split_and!; try done.
  - split; cbn; try done.
    + exists i, h, j, l, m. split; [lia|done].
    + by match goal with H : _ = Ok ?u |- _ => destruct u, dismissed end.
  - by rewrite <-Hid.
Qed.

Lemma record_verdict_spec a id n r dismissed digest c :
  saved (core c) →
  bwp (record_bound_review a id n r dismissed digest) (verdict_post c a id n r dismissed digest) c.
Proof.
  intros Hsaved.
  assert (Hc : at_point (state (core c)) (challenges c) (audits c) (asked (core c)) c) by done.
  assert (Hkept : ∀ c' k', at_point (state (core c)) (challenges c) (audits c) k' c' → kept c c')
    by (intros; by eapply at_kept).
  unfold record_bound_review. repeat bstep; try (by eapply Hkept).
  eapply bwp_context; [exact Hc| |by intros; eapply Hkept].
  clear Hc. intros target pr c1 Hc Hadm. repeat bstep; try (by eapply Hkept).
  all: match goal with H : load_challenge _ _ = Ok ?x |- _ =>
    destruct x as [ch o]; apply load_challenge_ok in H as (Hrow & Hid & Ho); cbn in * end.
  all: match goal with H : negb (challenge_matches _ _ _ _ _ _) = false |- _ =>
    apply negb_false_iff in H as Hm end.
  { left. split; [by eapply Hkept|]. split; [by eapply bool_decide_eq_true_1|].
    exists ch. subst o. split; [done|]. by apply andb_true_iff in Hm as [_ ->]. }
  subst o. eapply bwp_observe; [eassumption| |by intros; eapply Hkept].
  intros x c2 Hc2 Htaken. repeat bstep; try (by eapply Hkept).
  match goal with H : negb (bool_decide (x = _)) || _ = false |- _ =>
    apply orb_false_iff in H as [->%negb_false_iff%bool_decide_eq_true_1
                                 Hsha%negb_false_iff%bool_decide_eq_true_1] end.
  eapply (accept_review_spec ch _ id n target pr a r dismissed digest c);
    [eassumption|lia|try done..].
  - match goal with H : validate_actor_locked (now_at ?m) _ _ _ = Ok _ |- _ =>
      pose proof (validate_actor_ok _ _ _ _ _ H); subst end.
    pose (k0 := asked (core c)). exists (3 + k0), (5 + k0), (6 + k0), (7 + k0), (8 + k0).
    split; [lia|]. by split_and!.
  - intros Happ. match goal with H : _ && _ = false |- _ => by rewrite Happ in H end.
Qed.

Lemma bwp_mono {A} (m : B A) (P Q : result A ForgeError → ReviewCore → Prop) c :
  bwp m P c → (∀ r c', P r c' → Q r c') → bwp m Q c.
Proof. unfold bwp. auto. Qed.

Lemma submit_post a id n r c :
  saved (core c) →
  bwp (submit_bound_review a id n r)
    (λ res c', verdict_post c a id n r None (sha_submit r) res c'
               ∧ (is_ok res = true → sb_event r ≠ RS_Dismissed)) c.
Proof.
  intros Hc. unfold submit_bound_review. repeat bstep; try (by split; [by split_and!|done]).
  eapply bwp_mono; [by apply record_verdict_spec|]. intros res c' H. split; [done|].
  intros _. by eapply bool_decide_eq_false_1.
Qed.

(** C2: what an accepted verdict stands on. A refused one changes nothing. An accepted one
    either repeats the event its challenge was consumed by, for the same request, and changes
    nothing; or it consumes a challenge that was open and unexpired and whose nonce it
    presents. It does so in this order: the actor's credential, rights and repositories are
    admitted, the challenge is not expired, the Git observer is asked again and the snapshot of
    its answer at that question and of the state is the one the challenge froze, the challenge
    is still not expired and the actor is still valid. The event carries exactly that snapshot
    and head, is not an author's own approval, gets the next number of its pull request, and
    the event, its compatibility rows, the consumed challenge and one audit row are written
    together. *)
Theorem verdict_stands_on_evidence a id n r c :
  saved (core c) →
  match submit_bound_review a id n r c with
  | (Err _, c') => kept c c'
  | (Ok e, c') => sb_event r ≠ RS_Dismissed
      ∧ (repeated c c' r (sha_submit r) e ∨ consumed c c' a id n r None (sha_submit r) e)
  end.
Proof.
  intros Hc. pose proof (submit_post a id n r c Hc) as H. unfold bwp in H.
  destruct (submit_bound_review a id n r c) as [[e|e] c']; destruct H as [H Hd]; [|done].
  split; [by apply Hd|done].
Qed.

End verdicts.
