(* ===== verification/RequiredAttempts.v ===== *)
(** RequiredAttempts: the values of required attempts and of the publishers enrolled to make
    them (engine/required_attempts.rs, engine/publisher_enrollment.rs): a reservation binds a
    repository, a commit and a context to an enrolled publisher; its completion receives the
    bytes of its artifacts. An enrollment names what its publisher may reserve, who issued it
    and who reviewed it. *)

From Stdlib Require Import Ascii.
From S2P Require Import Prelude Text Clock BranchProtection ForgeState Forge BoundReviews.
Local Open Scope forge_scope.

(** * Data *)

Definition MAX_SAFE_INTEGER : N := 9007199254740991.

Inductive RequiredAuthorityOrigin : Type := RO_Ordinary | RO_ReviewedStagingCandidate.

Inductive RequiredAttemptConclusion : Type := RC_Success | RC_Failure | RC_Cancelled.

Inductive RequiredAttemptStatus : Type :=
  | AS_Pending | AS_Success | AS_Failure | AS_Cancelled | AS_Expired.

#[export] Instance RequiredAuthorityOrigin_eq_dec : EqDecision RequiredAuthorityOrigin.
Proof. solve_decision. Defined.
#[export] Instance RequiredAttemptConclusion_eq_dec : EqDecision RequiredAttemptConclusion.
Proof. solve_decision. Defined.
#[export] Instance RequiredAttemptStatus_eq_dec : EqDecision RequiredAttemptStatus.
Proof. solve_decision. Defined.

Record ReceivedRequiredArtifact : Type := {
  received_name : string; received_sha256 : string; size_bytes : N
}.

#[export] Instance ReceivedRequiredArtifact_eq_dec : EqDecision ReceivedRequiredArtifact.
Proof. solve_decision. Defined.

(** The bytes of an artifact are the characters of a string. *)
Record RequiredArtifactBytes : Type := { artifact_name : string; artifact_bytes : string }.

Record RequiredPublisherScope : Type := {
  scope_repository : Uuid; scope_source_ref : string; scope_commit : string;
  scope_tree : string; scope_context : string
}.

#[export] Instance RequiredPublisherScope_eq_dec : EqDecision RequiredPublisherScope.
Proof. solve_decision. Defined.

Section data.
Context `{C : Chrono}.

Record RequiredAttemptBinding : Type := {
  binding_repository : Uuid; binding_commit : string; binding_tree : string;
  binding_context : string; binding_publisher : Uuid; binding_actor : ReviewActorBinding;
  binding_runtime : string; binding_origin : RequiredAuthorityOrigin;
  binding_enrollment : string; binding_evidence_contract : string
}.

#[export] Instance RequiredAttemptBinding_eq_dec : EqDecision RequiredAttemptBinding.
Proof. solve_decision. Defined.

Record RequiredAttemptReservation : Type := {
  binding : RequiredAttemptBinding; idempotency_key : string; reservation_expires_at : DateTime
}.

#[export] Instance RequiredAttemptReservation_eq_dec : EqDecision RequiredAttemptReservation.
Proof. solve_decision. Defined.

Record RequiredAttemptCompletion : Type := {
  conclusion : RequiredAttemptConclusion; received_artifacts : list ReceivedRequiredArtifact;
  completed_at : DateTime; completion_audit : Uuid; completion_event : Uuid
}.

#[export] Instance RequiredAttemptCompletion_eq_dec : EqDecision RequiredAttemptCompletion.
Proof. solve_decision. Defined.

Record DurableRequiredAttempt : Type := {
  attempt_id : Uuid; ordinal : N; reservation : RequiredAttemptReservation;
  reservation_sha256 : string; reserved_at : DateTime; attempt_audit : Uuid;
  completion : option RequiredAttemptCompletion
}.

#[export] Instance DurableRequiredAttempt_eq_dec : EqDecision DurableRequiredAttempt.
Proof. solve_decision. Defined.

Record RequiredPublisherEnrollment : Type := {
  schema : string; publisher_id : Uuid; revision : N; publisher_actor : ReviewActorBinding;
  scopes : list RequiredPublisherScope; runtime_sha256 : string;
  authority_origin : RequiredAuthorityOrigin; authority_contract_sha256 : string;
  evidence_contract_sha256 : string; issued_at : DateTime; enrollment_expires_at : DateTime;
  issuer : ReviewActorBinding; enrollment_reviewer : ReviewActorBinding;
  issuer_acceptance_sha256 : string; reviewer_acceptance_sha256 : string
}.

#[export] Instance RequiredPublisherEnrollment_eq_dec : EqDecision RequiredPublisherEnrollment.
Proof. solve_decision. Defined.

Record RequiredPublisherRevocation : Type := {
  revocation_operation : Uuid; revocation_actor : ReviewActorBinding; revoked_at : DateTime;
  revocation_reason : string
}.

#[export] Instance RequiredPublisherRevocation_eq_dec : EqDecision RequiredPublisherRevocation.
Proof. solve_decision. Defined.

Record DurableRequiredPublisher : Type := {
  enrollment : RequiredPublisherEnrollment; enrollment_sha256 : string;
  installation_operation : Uuid; expected_previous : option string; installed_at : DateTime;
  publisher_audit : Uuid; revocation : option RequiredPublisherRevocation
}.

#[export] Instance DurableRequiredPublisher_eq_dec : EqDecision DurableRequiredPublisher.
Proof. solve_decision. Defined.

End data.

(** * Texts *)

Definition invalid {A} (message : string) : result A ForgeError := Err (Validation message).

(** [char::is_control] on some character: below the space, the delete, and the two-byte
    characters from 80 to 9f. *)
Fixpoint has_control (s : string) : bool :=
  match s with
  | EmptyString => false
  | String c s' =>
      (code c <? 32)%N || (code c =? 127)%N
      || (code c =? 194)%N && match s' with
                              | String d _ => in_range 128 159 (code d)
                              | EmptyString => false
                              end
      || has_control s'
  end.

Definition safe_text (value : string) (limit : nat) : bool :=
  negb (str_is_empty (trim value)) && (String.length value <=? limit)
  && String.eqb (trim value) value && negb (has_control value).

Definition full_oid (value : string) : bool :=
  ((String.length value =? 40) || (String.length value =? 64))
  && negb (string_all (Ascii.eqb "0"%char) value) && string_all is_lower_hex value.

Definition full_sha256 (value : string) : bool :=
  (String.length value =? 64) && string_all is_lower_hex value.

Definition direct_ref_byte (c : ascii) : bool :=
  is_ascii_alphanumeric c || existsb (Ascii.eqb c) ["/"; "."; "_"; "-"]%char.

Definition direct_source_ref (value : string) : bool :=
  (String.length value <=? 1024) && starts_with value "refs/heads/"
  && negb (ends_with value "/") && negb (ends_with value ".")
  && negb (str_contains ".." value) && negb (str_contains "@{" value)
  && forallb (λ part, negb (str_is_empty part) && negb (starts_with part ".")
                      && negb (ends_with part ".lock")) (split_on "/"%char value)
  && string_all direct_ref_byte value.

(** * Reservations *)

Section reservations.
Context `{C : Chrono}.

Definition reservation_malformed (r : RequiredAttemptReservation) : bool :=
  let b := binding r in
  is_nil_uuid (binding_repository b) || is_nil_uuid (binding_publisher b)
  || is_nil_uuid (profile_id (binding_actor b)) || is_nil_uuid (credential_id (binding_actor b))
  || str_is_empty (trim (actor_login (binding_actor b)))
  || (MAX_SAFE_INTEGER <? actor_epoch (binding_actor b))%N
  || negb (full_oid (binding_commit b)) || negb (full_oid (binding_tree b))
  || negb (String.length (binding_commit b) =? String.length (binding_tree b))
  || negb (safe_text (binding_context b) 256) || negb (safe_text (idempotency_key r) 256)
  || negb (full_sha256 (binding_runtime b)) || negb (full_sha256 (binding_enrollment b))
  || negb (full_sha256 (binding_evidence_contract b)).

Definition validate_reservation (r : RequiredAttemptReservation) : result unit ForgeError :=
  if reservation_malformed r then invalid "incomplete or malformed required-attempt binding"
  else Ok tt.

Definition status_at (a : DurableRequiredAttempt) (now : DateTime) : RequiredAttemptStatus :=
  match conclusion <$> completion a with
  | Some RC_Success => AS_Success
  | Some RC_Failure => AS_Failure
  | Some RC_Cancelled => AS_Cancelled
  | None => if dt_leb (reservation_expires_at (reservation a)) now then AS_Expired else AS_Pending
  end.

End reservations.

(** * Artifacts *)

Section artifacts.
Context (sha_bytes : string → string).

Definition artifact_name_byte (c : ascii) : bool :=
  is_ascii_alphanumeric c || existsb (Ascii.eqb c) ["."; "_"; "-"]%char.

Definition bad_artifact (names : list string) (a : RequiredArtifactBytes) : bool :=
  let n := artifact_name a in
  str_is_empty n || (128 <? String.length n) || negb (string_all artifact_name_byte n)
  || String.eqb n "." || String.eqb n ".." || bool_decide (n ∈ names)
  || str_is_empty (artifact_bytes a).

Definition bytes_len (s : string) : N := N.of_nat (String.length s).

Definition EVIDENCE_LIMIT : N := 16777216.

Definition receipt_of (a : RequiredArtifactBytes) : ReceivedRequiredArtifact :=
  {| received_name := artifact_name a; received_sha256 := sha_bytes (artifact_bytes a);
     size_bytes := bytes_len (artifact_bytes a) |}.

(** The loop over the artifacts: the names and the total before. *)
Fixpoint receive_go (names : list string) (total : N) (l : list RequiredArtifactBytes) :
    result (list ReceivedRequiredArtifact) ForgeError :=
  match l with
  | [] => Ok []
  | a :: l =>
      if bad_artifact names a then invalid "invalid or duplicate required artifact name/bytes"
      else
        match checked_add u64_max total (bytes_len (artifact_bytes a)) with
        | Some total' =>
            if (total' <=? EVIDENCE_LIMIT)%N
            then match receive_go (artifact_name a :: names) total' l with
                 | Ok received => Ok (receipt_of a :: received)
                 | Err e => Err e
                 end
            else invalid "required evidence exceeds admitted 16 MiB limit"
        | None => invalid "required evidence exceeds admitted 16 MiB limit"
        end
  end.

Definition received_leb (a b : ReceivedRequiredArtifact) : bool :=
  String.leb (received_name a) (received_name b).

Definition receive_artifacts (l : list RequiredArtifactBytes) :
    result (list ReceivedRequiredArtifact) ForgeError :=
  match l with
  | [] => invalid "required completion needs between 1 and 64 artifacts"
  | _ =>
      if 64 <? length l then invalid "required completion needs between 1 and 64 artifacts"
      else match receive_go [] 0 l with
           | Ok received => Ok (isort received_leb received)
           | Err e => Err e
           end
  end.

End artifacts.

(** * Enrollments *)

Section enrollments.
Context `{C : Chrono}.

Definition actor_shape (a : ReviewActorBinding) : result unit ForgeError :=
  if is_nil_uuid (profile_id a) || is_nil_uuid (credential_id a)
     || (MAX_SAFE_INTEGER <? actor_epoch a)%N || str_is_empty (actor_login a)
     || (256 <? String.length (actor_login a))
     || negb (String.eqb (trim (actor_login a)) (actor_login a)) || has_control (actor_login a)
  then invalid "invalid enrollment principal binding" else Ok tt.

Definition covers (repository : Uuid) (commit context : string) (s : RequiredPublisherScope) : bool :=
  (scope_repository s =? repository)%N && String.eqb (scope_commit s) commit
  && String.eqb (scope_context s) context.

(** The scope for exactly this source and context. *)
Definition scope (e : RequiredPublisherEnrollment) (repository : Uuid) (commit context : string) :
    result RequiredPublisherScope ForgeError :=
  match find_first (covers repository commit context) (scopes e) with
  | Some s => Ok s
  | None => Err (Forbidden "publisher enrollment does not cover the exact source/context")
  end.

Definition enrolled_reservation (e : RequiredPublisherEnrollment) (s : RequiredPublisherScope)
    (key : string) (expires : DateTime) (digest : string) : RequiredAttemptReservation :=
  {| binding :=
       {| binding_repository := scope_repository s; binding_commit := scope_commit s;
          binding_tree := scope_tree s; binding_context := scope_context s;
          binding_publisher := publisher_id e; binding_actor := publisher_actor e;
          binding_runtime := runtime_sha256 e; binding_origin := authority_origin e;
          binding_enrollment := digest; binding_evidence_contract := evidence_contract_sha256 e |};
     idempotency_key := key; reservation_expires_at := expires |}.

Definition two_equal (a b c : Uuid) : bool := (a =? b)%N || (a =? c)%N || (b =? c)%N.

(** The loop over the scopes; [seen] are the keys before. *)
Fixpoint validate_scopes (e : RequiredPublisherEnrollment) (seen : list (Uuid * string * string))
    (l : list RequiredPublisherScope) : result unit ForgeError :=
  match l with
  | [] => Ok tt
  | s :: l =>
      let key := (scope_repository s, scope_context s, scope_commit s) in
      if negb (direct_source_ref (scope_source_ref s)) || bool_decide (key ∈ seen)
      then invalid "invalid or duplicate publisher source scope"
      else
        match validate_reservation
                (enrolled_reservation e s "enrollment-shape-check" (enrollment_expires_at e)
                   (string_repeat "f"%char 64)) with
        | Ok _ => validate_scopes e (key :: seen) l
        | Err err => Err err
        end
  end.

Definition enrollment_malformed (e : RequiredPublisherEnrollment) : bool :=
  negb (String.eqb (schema e) "jeryu.required-publisher-enrollment/v1")
  || is_nil_uuid (publisher_id e) || (revision e =? 0)%N || (MAX_SAFE_INTEGER <? revision e)%N
  || match scopes e with [] => true | _ => false end || (256 <? length (scopes e))
  || dt_leb (enrollment_expires_at e) (issued_at e)
  || negb (bool_decide (credential_kind (publisher_actor e) = CK_PersonalAccessToken))
  || negb (full_sha256 (authority_contract_sha256 e))
  || negb (full_sha256 (issuer_acceptance_sha256 e))
  || negb (full_sha256 (reviewer_acceptance_sha256 e)).

Definition validate_enrollment (e : RequiredPublisherEnrollment) : result unit ForgeError :=
  if enrollment_malformed e then invalid "invalid required publisher enrollment"
  else
    (let? _ := actor_shape (publisher_actor e) in
     let? _ := actor_shape (issuer e) in
     let? _ := actor_shape (enrollment_reviewer e) in
     if two_equal (profile_id (publisher_actor e)) (profile_id (issuer e))
          (profile_id (enrollment_reviewer e))
     then invalid "publisher, enrollment issuer and reviewer must differ"
     else if two_equal (credential_id (publisher_actor e)) (credential_id (issuer e))
               (credential_id (enrollment_reviewer e))
     then invalid "independent enrollment holders require distinct credentials"
     else validate_scopes e [] (scopes e))%result.

Definition require_current (p : DurableRequiredPublisher) (now : DateTime) :
    result unit ForgeError :=
  (let? _ := validate_enrollment (enrollment p) in
   if bool_decide (is_Some (revocation p)) then Err (Forbidden "publisher enrollment is revoked")
   else if dt_ltb now (installed_at p) || dt_ltb now (issued_at (enrollment p))
           || dt_leb (enrollment_expires_at (enrollment p)) now
   then Err (Conflict "publisher enrollment is outside its fixed window")
   else Ok tt)%result.

End enrollments.
