(* ===== verification/RequiredStore.v ===== *)
(** RequiredStore: the tables of required attempts and of enrolled publishers
    (engine/storage/required_attempts.rs, engine/storage/publisher_enrollment.rs), beside the
    saved state and never part of it.

    A row holds the values its JSON columns stand for; SHA-256 of canonical JSON and of bytes
    is a parameter, and so is what SQLite says of a violated constraint or a missing row. A
    transaction happens whole or not at all. *)

From Stdlib Require Import Ascii.
From S2P Require Import Prelude Text Clock BranchProtection ForgeState Forge BoundReviews RequiredAttempts.
Local Open Scope forge_scope.

(** * Custody and authority *)

Record PublisherResourceIdentity : Type := {
  resource_path : string; device : N; inode : N; resource_owner : N; group : N; mode : N
}.

Record PublisherHeldFileIdentity : Type := {
  held_resource : PublisherResourceIdentity; descriptor : Z
}.

Record RequiredPublisherCustody : Type := {
  database : PublisherHeldFileIdentity; custody_root : PublisherResourceIdentity;
  writer_leases : list PublisherHeldFileIdentity; process_id : N
}.

Inductive RequiredPublisherAction : Type :=
  | PA_Reserve | PA_Complete | PA_TerminalReplay | PA_Snapshot.

#[export] Instance PublisherResourceIdentity_eq_dec : EqDecision PublisherResourceIdentity.
Proof. solve_decision. Defined.
#[export] Instance PublisherHeldFileIdentity_eq_dec : EqDecision PublisherHeldFileIdentity.
Proof. solve_decision. Defined.
#[export] Instance RequiredPublisherCustody_eq_dec : EqDecision RequiredPublisherCustody.
Proof. solve_decision. Defined.
#[export] Instance RequiredPublisherAction_eq_dec : EqDecision RequiredPublisherAction.
Proof. solve_decision. Defined.

Section tables.
Context `{C : Chrono}.

(** The installed service that verifies a publisher; [authority_id] is its address. *)
Record RequiredPublisherAuthority : Type := {
  authority_id : N; authority_custody : RequiredPublisherCustody;
  authority_validate : RequiredPublisherCustody → DurableRequiredPublisher →
    RequiredPublisherAction → DateTime → nat → result unit ForgeError
}.

(** * Rows (db/migrations/0016_required_attempts.sql, 0017_required_publishers.sql) *)

Record AttemptRow : Type := {
  row_repository : Uuid; row_commit : string; row_context : string; row_ordinal : N;
  row_key : string; row_reservation : RequiredAttemptReservation;
  row_attempt : DurableRequiredAttempt; row_completed : bool
}.

Record ArtifactRow : Type := { row_sha256 : string; row_size : N; content : string }.

(** The outbox, under the attempt, which is unique in it. *)
Record AttemptEvent : Type := {
  event_row : Uuid; event_row_repository : Uuid; event_attempt : DurableRequiredAttempt
}.

Record PublisherRow : Type := {
  row_enrollment_sha256 : string; row_operation : Uuid; row_record : DurableRequiredPublisher;
  row_revoked : bool
}.

Inductive RequiredAuditDetail : Type :=
  | RD_Attempt (a : DurableRequiredAttempt)
  | RD_Installed (p : DurableRequiredPublisher) (previous : option string)
  | RD_Revoked (p : DurableRequiredPublisher).

Record RequiredAudit : Type := {
  trail_id : Uuid; trail_at : DateTime; trail_actor : string; trail_action : string;
  trail_subject : Uuid; trail_phase : string; trail_detail : RequiredAuditDetail
}.

Record Tables : Type := {
  attempts : gmap Uuid AttemptRow;
  artifacts : gmap Uuid (gmap string ArtifactRow);
  attempt_outbox : gmap Uuid AttemptEvent;
  publishers : gmap (Uuid * N) PublisherRow;
  trail : list RequiredAudit
}.

Definition set_attempts (v : gmap Uuid AttemptRow) (t : Tables) : Tables :=
  {| attempts := v; artifacts := artifacts t; attempt_outbox := attempt_outbox t;
     publishers := publishers t; trail := trail t |}.
Definition set_artifacts (v : gmap Uuid (gmap string ArtifactRow)) (t : Tables) : Tables :=
  {| attempts := attempts t; artifacts := v; attempt_outbox := attempt_outbox t;
     publishers := publishers t; trail := trail t |}.
Definition set_outbox (v : gmap Uuid AttemptEvent) (t : Tables) : Tables :=
  {| attempts := attempts t; artifacts := artifacts t; attempt_outbox := v;
     publishers := publishers t; trail := trail t |}.
Definition set_publishers (v : gmap (Uuid * N) PublisherRow) (t : Tables) : Tables :=
  {| attempts := attempts t; artifacts := artifacts t; attempt_outbox := attempt_outbox t;
     publishers := v; trail := trail t |}.
Definition set_trail (v : list RequiredAudit) (t : Tables) : Tables :=
  {| attempts := attempts t; artifacts := artifacts t; attempt_outbox := attempt_outbox t;
     publishers := publishers t; trail := v |}.

End tables.

(** * The world *)

Class RequiredEnv `{E : ForgeEnv} := {
  sha_bytes : string → string;
  sha_reservation : RequiredAttemptReservation → string;
  sha_enrollment : RequiredPublisherEnrollment → string;
  sha_branch_policy : string → option BranchProtectionRule → string;
  constraint_failed : ForgeError;
  no_rows : ForgeError;
  table_error : nat → option ForgeError;
  custody_at : nat → result RequiredPublisherCustody ForgeError
}.

Section machine.
Context `{R : RequiredEnv}.

Record AttemptCore : Type := {
  forge : Core; tables : Tables; attached : option RequiredPublisherAuthority
}.

Definition A (X : Type) : Type := AttemptCore → result X ForgeError * AttemptCore.

Definition aret {X} (x : X) : A X := λ c, (Ok x, c).
Definition athrow {X} (e : ForgeError) : A X := λ c, (Err e, c).
Definition abind {X Y} (m : A X) (k : X → A Y) : A Y :=
  λ c, match m c with (Ok x, c') => k x c' | (Err e, c') => (Err e, c') end.
Definition alift {X} (r : result X ForgeError) : A X :=
  match r with Ok x => aret x | Err e => athrow e end.

(** A step of the engine; the tables stay. *)
Definition within {X} (m : M X) : A X :=
  λ c, match m (forge c) with
       | (r, k) => (r, {| forge := k; tables := tables c; attached := attached c |})
       end.

End machine.

Notation "x <~~ c ;; k" := (abind c (λ x, k))
  (at level 100, c at next level, right associativity) : forge_scope.

Section store.
Context `{R : RequiredEnv}.

Definition storage_error (e : ForgeError) : ForgeError := Storage (ForgeError_to_string e).

Definition read_tables : A Tables := λ c, (Ok (tables c), c).

(** A connection with its transaction, or why there is none. *)
Definition connect : A unit := within (guard table_error).

(** The end of a transaction: all its writes, or an error and nothing of them. *)
Definition tx_commit (t : Tables) : A unit :=
  λ c, match table_error (asked (forge c)) with
       | Some e =>
           (Err e, {| forge := {| state := state (forge c); stored := stored (forge c);
                                  asked := S (asked (forge c)) |};
                      tables := tables c; attached := attached c |})
       | None =>
           (Ok tt, {| forge := {| state := state (forge c); stored := stored (forge c);
                                  asked := S (asked (forge c)) |};
                      tables := t; attached := attached c |})
       end.

Definition insert_trail (a : RequiredAudit) (t : Tables) : result Tables ForgeError :=
  if existsb (λ x, (trail_id x =? trail_id a)%N) (trail t) then Err constraint_failed
  else Ok (set_trail (trail t ++ [a]) t).

(** * Attempts (engine/storage/required_attempts.rs) *)

Definition attempt_rows (t : Tables) : list (Uuid * AttemptRow) := map_to_list (attempts t).

Definition of_source (repository : Uuid) (commit context : string) (r : AttemptRow) : bool :=
  (row_repository r =? repository)%N && String.eqb (row_commit r) commit
  && String.eqb (row_context r) context.

(** The columns of a row and what its attempt says of itself. *)
Definition completion_inconsistent (a : DurableRequiredAttempt) : bool :=
  match completion a with
  | Some x =>
      is_nil_uuid (completion_audit x) || is_nil_uuid (completion_event x)
      || dt_ltb (completed_at x) (reserved_at a)
      || dt_leb (reservation_expires_at (reservation a)) (completed_at x)
  | None => false
  end.

Definition row_inconsistent (id : Uuid) (row : AttemptRow) : bool :=
  let a := row_attempt row in
  let r := reservation a in
  negb (attempt_id a =? id)%N || (ordinal a =? 0)%N || (MAX_SAFE_INTEGER <? ordinal a)%N
  || negb (ordinal a =? row_ordinal row)%N || is_nil_uuid (attempt_audit a)
  || negb (binding_repository (binding r) =? row_repository row)%N
  || negb (String.eqb (binding_commit (binding r)) (row_commit row))
  || negb (String.eqb (binding_context (binding r)) (row_context row))
  || negb (String.eqb (idempotency_key r) (row_key row))
  || negb (bool_decide (r = row_reservation row))
  || negb (String.eqb (sha_reservation (row_reservation row)) (reservation_sha256 a))
  || negb (Bool.eqb (bool_decide (is_Some (completion a))) (row_completed row))
  || dt_leb (reservation_expires_at r) (reserved_at a)
  || completion_inconsistent a.

(** The stored artifacts of an attempt by name. *)
Definition stored_artifacts (t : Tables) (id : Uuid) : list (string * ArtifactRow) :=
  bt_iter (default ∅ (artifacts t !! id)).

Definition stored_bytes (x : string * ArtifactRow) : RequiredArtifactBytes :=
  {| artifact_name := x.1; artifact_bytes := content x.2 |}.

Definition zip_differs (received : list ReceivedRequiredArtifact)
    (stored : list (string * ArtifactRow)) : bool :=
  existsb (λ p, negb (String.eqb (received_sha256 p.1) (row_sha256 p.2.2))
                || negb (size_bytes p.1 =? row_size p.2.2)%N) (zip received stored).

Definition check_outbox (t : Tables) (a : DurableRequiredAttempt) (x : RequiredAttemptCompletion) :
    result unit ForgeError :=
  match attempt_outbox t !! attempt_id a with
  | None => Err no_rows
  | Some e =>
      if negb (event_row e =? completion_event x)%N
         || negb (event_row_repository e =? binding_repository (binding (reservation a)))%N
         || negb (bool_decide (event_attempt e = a))
      then Err (Storage "inconsistent required-attempt outbox") else Ok tt
  end.

Definition check_artifacts (t : Tables) (a : DurableRequiredAttempt) : result unit ForgeError :=
  let stored := stored_artifacts t (attempt_id a) in
  match completion a with
  | Some x =>
      match receive_artifacts sha_bytes (map stored_bytes stored) with
      | Err e => Err (storage_error e)
      | Ok received =>
          if negb (bool_decide (received = received_artifacts x)) || zip_differs received stored
          then Err (Storage "required artifact receiving bytes changed")
          else check_outbox t a x
      end
  | None =>
      match stored with
      | [] => Ok tt
      | _ => Err (Storage "pending required attempt has terminal artifacts")
      end
  end.

Definition load_attempt (t : Tables) (id : Uuid) : result DurableRequiredAttempt ForgeError :=
  match attempts t !! id with
  | None => Err (NotFound ("required attempt " +:+ show_N id))
  | Some row =>
      match validate_reservation (reservation (row_attempt row)) with
      | Err e => Err (storage_error e)
      | Ok _ =>
          if row_inconsistent id row then Err (Storage "inconsistent required-attempt record")
          else match check_artifacts t (row_attempt row) with
               | Ok _ => Ok (row_attempt row)
               | Err e => Err e
               end
      end
  end.

(** [audit]: of the reservation, or of the completion once there is one. *)
Definition attempt_trail (a : DurableRequiredAttempt) (terminal : bool) : RequiredAudit :=
  let done_ := if terminal then completion a else None in
  {| trail_id := match done_ with Some x => completion_audit x | None => attempt_audit a end;
     trail_at := match done_ with Some x => completed_at x | None => reserved_at a end;
     trail_actor := actor_login (binding_actor (binding (reservation a)));
     trail_action := "required_attempt";
     trail_subject := binding_repository (binding (reservation a));
     trail_phase := if terminal then "completed" else "requested";
     trail_detail := RD_Attempt a |}.

Definition max_ordinal (t : Tables) (b : RequiredAttemptBinding) : N :=
  foldr N.max 0%N
    (map (λ x, row_ordinal x.2)
       (filter (λ x, of_source (binding_repository b) (binding_commit b) (binding_context b) x.2 = true)
          (attempt_rows t))).

Definition row_of (a : DurableRequiredAttempt) : AttemptRow :=
  let b := binding (reservation a) in
  {| row_repository := binding_repository b; row_commit := binding_commit b;
     row_context := binding_context b; row_ordinal := ordinal a;
     row_key := idempotency_key (reservation a); row_reservation := reservation a;
     row_attempt := a; row_completed := bool_decide (is_Some (completion a)) |}.

(** The primary key, the positive ordinal and the unique columns. *)
Definition insert_attempt (id : Uuid) (row : AttemptRow) (t : Tables) : result Tables ForgeError :=
  if bool_decide (is_Some (attempts t !! id)) || (row_ordinal row =? 0)%N
     || existsb (λ x, (row_repository x.2 =? row_repository row)%N
                      && (String.eqb (row_key x.2) (row_key row)
                          || (String.eqb (row_commit x.2) (row_commit row)
                              && String.eqb (row_context x.2) (row_context row)
                              && (row_ordinal x.2 =? row_ordinal row)%N))) (attempt_rows t)
  then Err constraint_failed else Ok (set_attempts (<[id := row]> (attempts t)) t).

Definition new_attempt (r : RequiredAttemptReservation) (id audit : Uuid) (n : N) (now : DateTime) :
    DurableRequiredAttempt :=
  {| attempt_id := id; ordinal := n; reservation := r; reservation_sha256 := sha_reservation r;
     reserved_at := now; attempt_audit := audit; completion := None |}.

Definition same_key (r : RequiredAttemptReservation) (x : Uuid * AttemptRow) : bool :=
  (row_repository x.2 =? binding_repository (binding r))%N
  && String.eqb (row_key x.2) (idempotency_key r).

Definition next_ordinal (t : Tables) (b : RequiredAttemptBinding) : option N :=
  match checked_add u64_max (max_ordinal t b) 1 with
  | Some n => if (n <=? MAX_SAFE_INTEGER)%N then Some n else None
  | None => None
  end.

Definition store_reserve (r : RequiredAttemptReservation) (now : DateTime) :
    A DurableRequiredAttempt :=
  _ <~~ alift (validate_reservation r);;
  _ <~~ connect;;
  t <~~ read_tables;;
  match find_first (same_key r) (attempt_rows t) with
  | Some (id, _) =>
      existing <~~ alift (load_attempt t id);;
      if bool_decide (reservation existing = r) then aret existing
      else athrow (Conflict "attempt idempotency key has different immutable input")
  | None =>
      if dt_leb (reservation_expires_at r) now
      then athrow (Conflict "required-attempt reservation is expired")
      else
        match next_ordinal t (binding r) with
        | None => athrow (Conflict "required-attempt ordinal exhausted")
        | Some n =>
            id <~~ within new_v4;;
            audit <~~ within new_v4;;
            let a := new_attempt r id audit n now in
            t <~~ alift (insert_attempt id (row_of a) t);;
            t <~~ alift (insert_trail (attempt_trail a false) t);;
            _ <~~ tx_commit t;;
            aret a
        end
  end.

(** One insertion into the artifacts: the primary key and the checks of the table. *)
Definition insert_artifact (id : Uuid) (a : RequiredArtifactBytes) (x : ReceivedRequiredArtifact)
    (t : Tables) : result Tables ForgeError :=
  let rows := default ∅ (artifacts t !! id) in
  if bool_decide (is_Some (rows !! received_name x)) || negb (String.length (received_sha256 x) =? 64)
     || (size_bytes x =? 0)%N || negb (bytes_len (artifact_bytes a) =? size_bytes x)%N
  then Err constraint_failed
  else Ok (set_artifacts
             (<[id := <[received_name x := {| row_sha256 := received_sha256 x; row_size := size_bytes x;
                                             content := artifact_bytes a |}]> rows]> (artifacts t)) t).

(** The loop over the contents; the receipt of each is looked up by name, and the code panics
    where there is none. *)
Fixpoint insert_artifacts (id : Uuid) (received : list ReceivedRequiredArtifact)
    (l : list RequiredArtifactBytes) (t : Tables) : result Tables ForgeError :=
  match l with
  | [] => Ok t
  | a :: l =>
      match find_first (λ x, String.eqb (received_name x) (artifact_name a)) received with
      | None => Err (Storage "receiving inventory matches validated input")
      | Some x => match insert_artifact id a x t with
                  | Ok t => insert_artifacts id received l t
                  | Err e => Err e
                  end
      end
  end.

Definition with_completion (a : DurableRequiredAttempt) (x : RequiredAttemptCompletion) :
    DurableRequiredAttempt :=
  {| attempt_id := attempt_id a; ordinal := ordinal a; reservation := reservation a;
     reservation_sha256 := reservation_sha256 a; reserved_at := reserved_at a;
     attempt_audit := attempt_audit a; completion := Some x |}.

(** The update of the row, which must not be completed yet. *)
Definition update_attempt (id : Uuid) (a : DurableRequiredAttempt) (t : Tables) :
    result Tables ForgeError :=
  match attempts t !! id with
  | Some row =>
      if row_completed row then Err (Conflict "required attempt completed concurrently")
      else Ok (set_attempts
                 (<[id := {| row_repository := row_repository row; row_commit := row_commit row;
                             row_context := row_context row; row_ordinal := row_ordinal row;
                             row_key := row_key row; row_reservation := row_reservation row;
                             row_attempt := a; row_completed := true |}]> (attempts t)) t)
  | None => Err (Conflict "required attempt completed concurrently")
  end.

(** The primary key of the outbox, and its one event of an attempt. *)
Definition insert_attempt_event (id : Uuid) (e : AttemptEvent) (t : Tables) : result Tables ForgeError :=
  if bool_decide (is_Some (attempt_outbox t !! id))
     || existsb (λ x, (event_row x.2 =? event_row e)%N) (map_to_list (attempt_outbox t))
  then Err constraint_failed else Ok (set_outbox (<[id := e]> (attempt_outbox t)) t).

(** All that a completion writes. *)
Definition write_completion (id : Uuid) (a : DurableRequiredAttempt) (x : RequiredAttemptCompletion)
    (contents : list RequiredArtifactBytes) (t : Tables) : result Tables ForgeError :=
  (let? t := insert_artifacts id (received_artifacts x) contents t in
   let? t := update_attempt id a t in
   let? t := insert_trail (attempt_trail a true) t in
   insert_attempt_event id
     {| event_row := completion_event x;
        event_row_repository := binding_repository (binding (reservation a));
        event_attempt := a |} t)%result.

Definition store_complete (id : Uuid) (expected : RequiredAttemptReservation)
    (outcome : RequiredAttemptConclusion) (contents : list RequiredArtifactBytes) (now : DateTime) :
    A DurableRequiredAttempt :=
  _ <~~ alift (validate_reservation expected);;
  received <~~ alift (receive_artifacts sha_bytes contents);;
  _ <~~ connect;;
  t <~~ read_tables;;
  a <~~ alift (load_attempt t id);;
  if negb (bool_decide (reservation a = expected))
  then athrow (Conflict "completion publisher/source/admission binding changed")
  else
    match completion a with
    | Some x =>
        if bool_decide (conclusion x = outcome) && bool_decide (received_artifacts x = received)
        then aret a
        else athrow (Conflict "terminal required-attempt completion is immutable")
    | None =>
        if dt_ltb now (reserved_at a) || dt_leb (reservation_expires_at (reservation a)) now
        then athrow (Conflict "required-attempt completion is outside its fixed window")
        else
          audit <~~ within new_v4;;
          event <~~ within new_v4;;
          let x := {| conclusion := outcome; received_artifacts := received; completed_at := now;
                      completion_audit := audit; completion_event := event |} in
          let a := with_completion a x in
          t <~~ alift (write_completion id a x contents t);;
          _ <~~ tx_commit t;;
          aret a
    end.

(** The newest attempt on a source. *)
Definition newest_row (t : Tables) (repository : Uuid) (commit context : string) :
    option (Uuid * AttemptRow) :=
  max_last (λ x y, (row_ordinal x.2 <=? row_ordinal y.2)%N)
    (filter (λ x, of_source repository commit context x.2 = true) (attempt_rows t)).

Definition latest_attempt (t : Tables) (repository : Uuid) (commit context : string) :
    result (option DurableRequiredAttempt) ForgeError :=
  match newest_row t repository commit context with
  | None => Ok None
  | Some (id, _) => match load_attempt t id with Ok a => Ok (Some a) | Err e => Err e end
  end.

Definition latest_required_attempt (repository : Uuid) (commit context : string) :
    A (option DurableRequiredAttempt) :=
  _ <~~ connect;;
  t <~~ read_tables;;
  alift (latest_attempt t repository commit context).

Definition get_required_attempt (id : Uuid) : A DurableRequiredAttempt :=
  _ <~~ connect;;
  t <~~ read_tables;;
  alift (load_attempt t id).

(** * Publishers (engine/storage/publisher_enrollment.rs) *)

Definition bad_reason (v : RequiredPublisherRevocation) : bool :=
  is_nil_uuid (revocation_operation v) || str_is_empty (trim (revocation_reason v))
  || (4096 <? N.of_nat (String.length (revocation_reason v)))%N || has_control (revocation_reason v).

Definition check_revocation (p : DurableRequiredPublisher) : result unit ForgeError :=
  match revocation p with
  | None => Ok tt
  | Some v =>
      match actor_shape (revocation_actor v) with
      | Err e => Err (storage_error e)
      | Ok _ =>
          if bad_reason v || dt_ltb (revoked_at v) (installed_at p)
          then Err (Storage "malformed durable publisher revocation") else Ok tt
      end
  end.

Definition publisher_inconsistent (id : Uuid) (n : N) (row : PublisherRow) : bool :=
  let p := row_record row in
  negb (publisher_id (enrollment p) =? id)%N || negb (revision (enrollment p) =? n)%N
  || negb (String.eqb (enrollment_sha256 p) (row_enrollment_sha256 row))
  || negb (String.eqb (row_enrollment_sha256 row) (sha_enrollment (enrollment p)))
  || negb (installation_operation p =? row_operation row)%N
  || is_nil_uuid (installation_operation p) || is_nil_uuid (publisher_audit p)
  || negb (Bool.eqb (bool_decide (is_Some (revocation p))) (row_revoked row))
  || dt_ltb (installed_at p) (issued_at (enrollment p))
  || dt_leb (enrollment_expires_at (enrollment p)) (installed_at p).

Definition load_publisher (t : Tables) (id : Uuid) (n : N) :
    result DurableRequiredPublisher ForgeError :=
  match publishers t !! (id, n) with
  | None => Err no_rows
  | Some row =>
      match validate_enrollment (enrollment (row_record row)) with
      | Err e => Err (storage_error e)
      | Ok _ =>
          match check_revocation (row_record row) with
          | Err e => Err e
          | Ok _ =>
              if publisher_inconsistent id n row
              then Err (Storage "publisher indexed identity disagrees with durable record")
              else Ok (row_record row)
          end
      end
  end.

Definition revisions (t : Tables) (id : Uuid) : list N :=
  map (λ x, x.1.2) (filter (λ x, x.1.1 = id) (map_to_list (publishers t))).

(** The record of the highest revision. *)
Definition latest (t : Tables) (id : Uuid) : result (option DurableRequiredPublisher) ForgeError :=
  match max_last N.leb (revisions t id) with
  | None => Ok None
  | Some n => match load_publisher t id n with Ok p => Ok (Some p) | Err e => Err e end
  end.

Definition latest_required_publisher (id : Uuid) : A (option DurableRequiredPublisher) :=
  _ <~~ connect;;
  t <~~ read_tables;;
  alift (latest t id).

(** The primary key, the positive revision, the length of the digest and the unique columns. *)
Definition insert_publisher (row : PublisherRow) (t : Tables) : result Tables ForgeError :=
  let e := enrollment (row_record row) in
  if bool_decide (is_Some (publishers t !! (publisher_id e, revision e))) || (revision e =? 0)%N
     || negb (String.length (row_enrollment_sha256 row) =? 64)
     || existsb (λ x, String.eqb (row_enrollment_sha256 x.2) (row_enrollment_sha256 row)
                      || (row_operation x.2 =? row_operation row)%N) (map_to_list (publishers t))
  then Err constraint_failed
  else Ok (set_publishers (<[(publisher_id e, revision e) := row]> (publishers t)) t).

(** The first revision on nothing, or the next one on the digest that was expected. *)
Definition follows (prior : option DurableRequiredPublisher) (previous : option string)
    (e : RequiredPublisherEnrollment) : bool :=
  match prior, previous with
  | None, None => (revision e =? 1)%N
  | Some p, Some d =>
      String.eqb (enrollment_sha256 p) d
      && bool_decide (checked_add u64_max (revision (enrollment p)) 1 = Some (revision e))
  | _, _ => false
  end.

Definition of_operation (operation : Uuid) (x : Uuid * N * PublisherRow) : bool :=
  (row_operation x.2 =? operation)%N.

Definition new_publisher (e : RequiredPublisherEnrollment) (previous : option string)
    (operation audit : Uuid) (now : DateTime) : DurableRequiredPublisher :=
  {| enrollment := e; enrollment_sha256 := sha_enrollment e; installation_operation := operation;
     expected_previous := previous; installed_at := now; publisher_audit := audit;
     revocation := None |}.

Definition publisher_row (p : DurableRequiredPublisher) : PublisherRow :=
  {| row_enrollment_sha256 := enrollment_sha256 p; row_operation := installation_operation p;
     row_record := p; row_revoked := bool_decide (is_Some (revocation p)) |}.

Definition install_trail (p : DurableRequiredPublisher) : RequiredAudit :=
  {| trail_id := publisher_audit p; trail_at := installed_at p;
     trail_actor := actor_login (issuer (enrollment p));
     trail_action := "required_publisher_enrollment"; trail_subject := publisher_id (enrollment p);
     trail_phase := "completed"; trail_detail := RD_Installed p (expected_previous p) |}.

Definition install_required_publisher (e : RequiredPublisherEnrollment) (previous : option string)
    (operation : Uuid) (now : DateTime) : A DurableRequiredPublisher :=
  _ <~~ alift (validate_enrollment e);;
  if is_nil_uuid operation
  then athrow (Validation "publisher installation operation is required")
  else
    _ <~~ connect;;
    t <~~ read_tables;;
    match find_first (of_operation operation) (map_to_list (publishers t)) with
    | Some (id, n, _) =>
        p <~~ alift (load_publisher t id n);;
        if negb (bool_decide (enrollment p = e)) || negb (String.eqb (enrollment_sha256 p) (sha_enrollment e))
           || negb (bool_decide (expected_previous p = previous))
        then athrow (Conflict "publisher operation id is bound to different enrollment")
        else aret p
    | None =>
        if dt_ltb now (issued_at e) || dt_leb (enrollment_expires_at e) now
        then athrow (Conflict "publisher installation is outside its fixed window")
        else
          prior <~~ alift (latest t (publisher_id e));;
          if negb (follows prior previous e)
          then athrow (Conflict "publisher installation expected state or revision changed")
          else
            audit <~~ within new_v4;;
            let p := new_publisher e previous operation audit now in
            t <~~ alift (insert_publisher (publisher_row p) t);;
            t <~~ alift (insert_trail (install_trail p) t);;
            _ <~~ tx_commit t;;
            aret p
    end.

Definition with_revocation (p : DurableRequiredPublisher) (v : RequiredPublisherRevocation) :
    DurableRequiredPublisher :=
  {| enrollment := enrollment p; enrollment_sha256 := enrollment_sha256 p;
     installation_operation := installation_operation p; expected_previous := expected_previous p;
     installed_at := installed_at p; publisher_audit := publisher_audit p; revocation := Some v |}.

(** The update of the row, which must not be revoked yet. *)
Definition update_publisher (id : Uuid) (p : DurableRequiredPublisher) (t : Tables) :
    result Tables ForgeError :=
  match publishers t !! (id, revision (enrollment p)) with
  | Some row =>
      if row_revoked row then Err (Conflict "publisher revocation raced")
      else Ok (set_publishers
                 (<[(id, revision (enrollment p)) :=
                      {| row_enrollment_sha256 := row_enrollment_sha256 row;
                         row_operation := row_operation row; row_record := p; row_revoked := true |}]>
                    (publishers t)) t)
  | None => Err (Conflict "publisher revocation raced")
  end.

Definition revocation_trail (id : Uuid) (p : DurableRequiredPublisher)
    (v : RequiredPublisherRevocation) : RequiredAudit :=
  {| trail_id := revocation_operation v; trail_at := revoked_at v;
     trail_actor := actor_login (revocation_actor v);
     trail_action := "required_publisher_revocation"; trail_subject := id;
     trail_phase := "completed"; trail_detail := RD_Revoked p |}.

Definition revoke_required_publisher (id : Uuid) (expected : string)
    (v : RequiredPublisherRevocation) : A DurableRequiredPublisher :=
  _ <~~ alift (actor_shape (revocation_actor v));;
  if bad_reason v
  then athrow (Validation "publisher revocation identity and reason are required")
  else
    _ <~~ connect;;
    t <~~ read_tables;;
    prior <~~ alift (latest t id);;
    match prior with
    | None => athrow (NotFound "publisher enrollment")
    | Some p =>
        if negb (String.eqb (enrollment_sha256 p) expected)
        then athrow (Conflict "publisher revocation expected enrollment changed")
        else
          match revocation p with
          | Some previous =>
              if bool_decide (previous = v) then aret p
              else athrow (Conflict "publisher revocation is immutable")
          | None =>
              if dt_ltb (revoked_at v) (installed_at p)
              then athrow (Conflict "publisher revocation precedes installation")
              else
                let p := with_revocation p v in
                t <~~ alift (update_publisher id p t);;
                t <~~ alift (insert_trail (revocation_trail id p v) t);;
                _ <~~ tx_commit t;;
                aret p
          end
    end.

End store.
