(* ===== verification/RequiredPublishers.v ===== *)
(** RequiredPublishers: the calls of enrolled publishers (engine/publisher_custody.rs,
    engine/required_publisher_controller.rs): an authority is attached once, a publisher
    reserves an attempt on a source that is observed there and completes it, and a snapshot
    says whether every required context of a commit has a successful newest attempt. *)

From Stdlib Require Import Ascii.
From S2P Require Import Prelude Text Clock BranchProtection ForgeState Forge BoundReviews RequiredAttempts RequiredStore.
Local Open Scope forge_scope.

Record ReserveRequiredAttemptRequest `{Chrono} : Type := {
  rs_publisher : Uuid; rs_expected_head : option string; rs_expected_tree : option string;
  rs_context : string; rs_key : option string; rs_expires_at : DateTime
}.

Record CompleteRequiredAttemptRequest : Type := {
  cr_expected_head : option string; cr_expected_reservation : option string;
  cr_conclusion : RequiredAttemptConclusion; cr_artifacts : list RequiredArtifactBytes
}.

Record RequiredContextSnapshot `{Chrono} : Type := {
  snapshot_context : string; newest_attempt : option DurableRequiredAttempt;
  snapshot_status : option RequiredAttemptStatus; context_satisfied : bool;
  context_blockers : list string
}.

Record RequiredAttemptSnapshot `{Chrono} : Type := {
  snapshot_repository : Uuid; snapshot_commit : string; snapshot_at : DateTime;
  policy_sha256 : string; contexts : list RequiredContextSnapshot; satisfied : bool;
  snapshot_blockers : list string
}.

#[export] Instance ObservedReviewRef_eq_dec : EqDecision ObservedReviewRef.
Proof. assert (EqDecision ManagedGitIdentity) by solve_decision. solve_decision. Defined.

Section controller.
Context `{E : ForgeEnv} `{V : !ReviewEnv} `{R : !RequiredEnv}.

Definition unavailable : ForgeError :=
  WriterUnavailable "verified publisher installation, managed source or durable enrollment custody is unavailable".

Definition required (value : option string) (field : string) : result string ForgeError :=
  match value with
  | Some v => if str_is_empty v then Err (PreconditionRequired (field +:+ " is required")) else Ok v
  | None => Err (PreconditionRequired (field +:+ " is required"))
  end.

Definition durable_storage : A unit :=
  λ c, match stored (forge c) with Some _ => (Ok tt, c) | None => (Err unavailable, c) end.

(** * Custody and authority *)

Definition required_publisher_custody : A RequiredPublisherCustody :=
  _ <~~ within (guard process_error);;
  _ <~~ (λ c, match stored (forge c) with
              | Some _ => (Ok tt, c)
              | None => (Err (WriterUnavailable "managed durable publisher custody is absent"), c)
              end);;
  r <~~ within (ask custody_at);;
  alift r.

Definition compare_required_custody (a : RequiredPublisherAuthority) : A RequiredPublisherCustody :=
  _ <~~ durable_storage;;
  r <~~ within (ask custody_at);;
  actual <~~ alift r;;
  if bool_decide (authority_custody a = actual) then aret actual
  else athrow (WriterUnavailable "publisher authority does not bind this database and storage incarnation").

Definition validate_required_authority (a : RequiredPublisherAuthority)
    (p : DurableRequiredPublisher) (action : RequiredPublisherAction) (now : DateTime) : A unit :=
  before <~~ compare_required_custody a;;
  r <~~ within (ask (authority_validate a before p action now));;
  _ <~~ alift r;;
  after <~~ compare_required_custody a;;
  if bool_decide (before = after) then aret tt
  else athrow (WriterUnavailable "publisher custody changed during validation").

Definition required_authority : A RequiredPublisherAuthority :=
  λ c, match attached c with Some a => (Ok a, c) | None => (Err unavailable, c) end.

Definition attach (a : RequiredPublisherAuthority) : A unit :=
  λ c, (Ok tt, {| forge := forge c; tables := tables c; attached := Some a |}).

Definition read_attached : A (option RequiredPublisherAuthority) := λ c, (Ok (attached c), c).

Definition with_required_publisher_authority (a : RequiredPublisherAuthority) : A unit :=
  _ <~~ within (guard process_error);;
  _ <~~ compare_required_custody a;;
  slot <~~ read_attached;;
  match slot with
  | Some current =>
      if (authority_id current =? authority_id a)%N then aret tt
      else athrow (Conflict "publisher authority is already attached")
  | None => attach a
  end.

(** * Admission of an actor *)

Definition required_access (s : State) (login owner name : string) (private_ mutation : bool) :
    result unit ForgeError :=
  match accounts s !! login with
  | None => Err (Unauthenticated "account disappeared")
  | Some a =>
      let acc :=
        if bool_decide (role a = UR_Admin) then Some RA_Admin
        else
          match repo_grants s !! (login, owner, name) with
          | Some g => Some (access g)
          | None => if negb mutation && negb private_ then Some RA_Read else None
          end in
      match acc with
      | Some l => if (if mutation then allows_write l else allows_read l) then Ok tt
                  else Err (Forbidden "current repository access is required")
      | None => Err (Forbidden "current repository access is required")
      end
  end.

Definition actor_admitted (t : DateTime) (s : State) (a : AuthenticatedActor) (id : Uuid)
    (mutation : bool) : result (ReviewGitRepository * ReviewActorBinding) ForgeError :=
  match validate_actor_locked t s a mutation with
  | Err e => Err e
  | Ok b =>
      match require_repository_admissible s id mutation with
      | Err e => Err e
      | Ok _ =>
          match repository_by_id s id with
          | None => Err (NotFound "repository")
          | Some r =>
              match required_access s (actor_login b) (repo_owner r) (repo_name r) (private r) mutation with
              | Err e => Err e
              | Ok _ => Ok (git_repository r, b)
              end
          end
      end
  end.

Definition required_actor_context (a : AuthenticatedActor) (id : Uuid) (mutation : bool) :
    A (ReviewGitRepository * ReviewActorBinding) :=
  s <~~ within read_state;;
  t <~~ within now;;
  alift (actor_admitted t s a id mutation).

Definition source_target (r : ReviewGitRepository) (s : RequiredPublisherScope) : ReviewGitTarget :=
  {| git_source := r; git_destination := r; source_ref := scope_source_ref s;
     destination_ref := scope_source_ref s |}.

(** The source is where the scope says, on both sides of the observation. *)
Definition source_moved (s : RequiredPublisherScope) (g : ReviewGitObservation) : bool :=
  negb (String.eqb (reference (observed_source g)) (scope_source_ref s))
  || negb (String.eqb (observed_commit (observed_source g)) (scope_commit s))
  || negb (String.eqb (tree_sha (observed_source g)) (scope_tree s))
  || negb (bool_decide (observed_destination g = observed_source g)).

Definition observe_required_source (r : ReviewGitRepository) (s : RequiredPublisherScope) : A unit :=
  match observer with
  | None => athrow unavailable
  | Some observe =>
      r <~~ within (ask (observe (source_target r s)));;
      g <~~ alift r;;
      if source_moved s g
      then athrow (Conflict "actual managed source ref/tree differs from enrolled scope") else aret tt
  end.

Definition require_publisher_actor (p : DurableRequiredPublisher) (b : ReviewActorBinding) :
    result unit ForgeError :=
  if bool_decide (publisher_actor (enrollment p) = b) then Ok tt
  else Err (Forbidden "authenticated principal/credential/epoch differs from enrolled publisher").

(** [a.signed_duration_since(b) > Duration::seconds(7200)]; no instant is 7200 seconds after
    one that near the end of time. *)
Definition beyond_two_hours (a b : DateTime) : bool :=
  match add_seconds b 7200 with Some limit => dt_ltb limit a | None => false end.

Definition validate_attempt_enrollment (p : DurableRequiredPublisher) (a : DurableRequiredAttempt) :
    result RequiredPublisherScope ForgeError :=
  let r := reservation a in
  let e := enrollment p in
  match scope e (binding_repository (binding r)) (binding_commit (binding r))
          (binding_context (binding r)) with
  | Err err => Err err
  | Ok s =>
      if negb (bool_decide (r = enrolled_reservation e s (idempotency_key r)
                                  (reservation_expires_at r) (enrollment_sha256 p)))
         || dt_ltb (reserved_at a) (installed_at p) || dt_ltb (reserved_at a) (issued_at e)
         || dt_ltb (enrollment_expires_at e) (reservation_expires_at r)
         || beyond_two_hours (reservation_expires_at r) (reserved_at a)
      then Err (Conflict "durable attempt differs from enrolled binding or fixed window")
      else Ok s
  end.

(** * Reserving *)

Definition reserve_malformed (repository : Uuid) (publisher : Uuid) (head tree context key : string) :
    bool :=
  is_nil_uuid repository || is_nil_uuid publisher || negb (full_oid head) || negb (full_oid tree)
  || negb (String.length head =? String.length tree) || negb (safe_text context 256)
  || negb (safe_text key 256).

(** A reservation ends after now, within the enrollment and within two hours. *)
Definition window_bad (p : DurableRequiredPublisher) (expires now : DateTime) : bool :=
  dt_leb expires now || dt_ltb (enrollment_expires_at (enrollment p)) expires
  || beyond_two_hours expires now.

Definition enrolled (id : Uuid) (message : string) : A DurableRequiredPublisher :=
  p <~~ latest_required_publisher id;;
  match p with Some p => aret p | None => athrow (Forbidden message) end.

Definition reserve_required_attempt (actor : AuthenticatedActor) (repository : Uuid)
    (request : ReserveRequiredAttemptRequest) : A DurableRequiredAttempt :=
  head <~~ alift (required (rs_expected_head request) "expected_head_sha");;
  tree <~~ alift (required (rs_expected_tree request) "expected_tree_sha");;
  key <~~ alift (required (rs_key request) "idempotency_key");;
  if reserve_malformed repository (rs_publisher request) head tree (rs_context request) key
  then athrow (Validation "malformed exact publisher reservation scope")
  else
    _ <~~ within (guard process_error);;
    _ <~~ within (guard ordinary_error);;
    rb <~~ required_actor_context actor repository true;;
    _ <~~ durable_storage;;
    p <~~ enrolled (rs_publisher request) "publisher is not enrolled";;
    t <~~ within now;;
    _ <~~ alift (require_current p t);;
    _ <~~ alift (require_publisher_actor p rb.2);;
    s <~~ alift (scope (enrollment p) repository head (rs_context request));;
    if negb (String.eqb (scope_tree s) tree)
    then athrow (Conflict "requested tree differs from enrolled source")
    else if window_bad p (rs_expires_at request) t
    then athrow (Conflict "required attempt must fit the fixed enrolled window and 7200-second maximum")
    else
      authority <~~ required_authority;;
      _ <~~ validate_required_authority authority p PA_Reserve t;;
      _ <~~ observe_required_source rb.1 s;;
      _ <~~ required_actor_context actor repository true;;
      t <~~ within now;;
      _ <~~ alift (require_current p t);;
      _ <~~ validate_required_authority authority p PA_Reserve t;;
      store_reserve
        (enrolled_reservation (enrollment p) s key (rs_expires_at request) (enrollment_sha256 p)) t.

(** * Completing *)

(** The bytes of all artifacts fit; [None] is an overflow. *)
Definition upload_size (l : list RequiredArtifactBytes) : option N :=
  foldl (λ total a, match total with
                    | Some n => checked_add u64_max n (bytes_len (artifact_bytes a))
                    | None => None
                    end) (Some 0%N) l.

Definition upload_bad (l : list RequiredArtifactBytes) : bool :=
  match l with [] => true | _ => false end || (64 <? length l)
  || match upload_size l with Some n => (EVIDENCE_LIMIT <? n)%N | None => true end.

Definition complete_malformed (repository attempt : Uuid) (head digest : string) : bool :=
  is_nil_uuid repository || is_nil_uuid attempt || negb (full_oid head) || negb (full_sha256 digest).

Definition action_of (a : DurableRequiredAttempt) : RequiredPublisherAction :=
  match completion a with Some _ => PA_TerminalReplay | None => PA_Complete end.

(** A replay asks for less than a completion. *)
Definition when_completing (a : DurableRequiredAttempt) (m : A unit) : A unit :=
  match action_of a with PA_Complete => m | _ => aret tt end.

Definition complete_required_attempt (actor : AuthenticatedActor) (repository id : Uuid)
    (request : CompleteRequiredAttemptRequest) : A DurableRequiredAttempt :=
  head <~~ alift (required (cr_expected_head request) "expected_head_sha");;
  digest <~~ alift (required (cr_expected_reservation request) "expected_reservation_sha256");;
  if complete_malformed repository id head digest
  then athrow (Validation "malformed required completion preconditions")
  else if upload_bad (cr_artifacts request)
  then athrow (Validation "required receiving evidence exceeds count or byte limit")
  else
    _ <~~ within (guard process_error);;
    rb <~~ required_actor_context actor repository true;;
    _ <~~ durable_storage;;
    a <~~ get_required_attempt id;;
    let r := reservation a in
    if negb (binding_repository (binding r) =? repository)%N
       || negb (String.eqb (binding_commit (binding r)) head)
       || negb (String.eqb (reservation_sha256 a) digest)
    then athrow (Conflict "completion repository/head/reservation precondition changed")
    else
      p <~~ enrolled (binding_publisher (binding r)) "publisher enrollment disappeared";;
      _ <~~ alift (require_publisher_actor p rb.2);;
      if negb (String.eqb (enrollment_sha256 p) (binding_enrollment (binding r)))
         || bool_decide (is_Some (revocation p))
      then athrow (Forbidden "publisher enrollment rotated or revoked")
      else
        s <~~ alift (validate_attempt_enrollment p a);;
        _ <~~ when_completing a (within (guard ordinary_error));;
        authority <~~ required_authority;;
        t <~~ within now;;
        _ <~~ validate_required_authority authority p (action_of a) t;;
        _ <~~ when_completing a
                (t <~~ within now;;
                 _ <~~ alift (require_current p t);;
                 observe_required_source rb.1 s);;
        _ <~~ required_actor_context actor repository true;;
        t <~~ within now;;
        _ <~~ when_completing a (alift (require_current p t));;
        _ <~~ validate_required_authority authority p (action_of a) t;;
        store_complete id r (cr_conclusion request) (cr_artifacts request) t.

(** * Snapshots *)

(** What one check says against a context. *)
Definition failure_of {X} (r : result X ForgeError) : list string :=
  match r with Ok _ => [] | Err e => [ForgeError_to_string e] end.

(** A call whose error is an answer. *)
Definition attempt_of {X} (m : A X) : A (result X ForgeError) :=
  λ c, match m c with (r, c') => (Ok r, c') end.

(** What speaks against the newest attempt of a context. *)
Definition enrollment_failures (authority : RequiredPublisherAuthority) (now_ : DateTime)
    (a : DurableRequiredAttempt) : A (list string) :=
  p <~~ latest_required_publisher (binding_publisher (binding (reservation a)));;
  let gone := "newest attempt publisher enrollment is absent, revoked or rotated" in
  match p with
  | Some p =>
      if bool_decide (revocation p = None)
         && String.eqb (enrollment_sha256 p) (binding_enrollment (binding (reservation a)))
      then
        s <~~ within read_state;;
        t <~~ within now;;
        r <~~ attempt_of (validate_required_authority authority p PA_Snapshot now_);;
        aret (failure_of (validate_attempt_enrollment p a)
              ++ failure_of (validate_actor_binding t s (publisher_actor (enrollment p)))
              ++ failure_of r)
      else aret [gone]
  | None => aret [gone]
  end.

Definition context_snapshot (authority : RequiredPublisherAuthority) (now_ : DateTime)
    (repository : Uuid) (commit context : string) : A RequiredContextSnapshot :=
  newest <~~ latest_required_attempt repository commit context;;
  let status := (λ a, status_at a now_) <$> newest in
  failures <~~ match newest with
               | Some a => enrollment_failures authority now_ a
               | None => aret ["no authoritative attempt exists for this exact commit/context"]
               end;;
  let failures :=
    failures ++ (if bool_decide (status = Some AS_Success) then []
                 else ["newest authoritative attempt is not successful"]) in
  aret {| snapshot_context := context; newest_attempt := newest; snapshot_status := status;
          context_satisfied := match failures with [] => true | _ => false end;
          context_blockers := failures |}.

Fixpoint context_snapshots (authority : RequiredPublisherAuthority) (now_ : DateTime)
    (repository : Uuid) (commit : string) (l : list string) : A (list RequiredContextSnapshot) :=
  match l with
  | [] => aret []
  | context :: l =>
      x <~~ context_snapshot authority now_ repository commit context;;
      xs <~~ context_snapshots authority now_ repository commit l;;
      aret (x :: xs)
  end.

Definition required_contexts (policy : option BranchProtectionRule) : list string :=
  match policy with Some p => required_status_checks p | None => [] end.

(** The default branch of the repository and its rule. *)
Definition default_policy (s : State) (r : ReviewGitRepository) :
    result (string * option BranchProtectionRule) ForgeError :=
  match repos s !! (git_owner r, git_name r) with
  | None => Err (Conflict "repository catalog changed")
  | Some repo =>
      Ok (default_branch repo,
          branch_protections s !! (git_owner r, git_name r, default_branch repo))
  end.

Definition required_attempt_snapshot (actor : AuthenticatedActor) (repository : Uuid)
    (commit : string) : A RequiredAttemptSnapshot :=
  if is_nil_uuid repository || negb (full_oid commit)
  then athrow (Validation "full exact commit is required")
  else
    _ <~~ within (guard process_error);;
    rb <~~ required_actor_context actor repository false;;
    _ <~~ durable_storage;;
    s <~~ within read_state;;
    bp <~~ alift (default_policy s rb.1);;
    let blockers := match required_contexts bp.2 with
                    | [] => ["required context policy is absent"]
                    | _ => []
                    end in
    authority <~~ required_authority;;
    t <~~ within now;;
    results <~~ context_snapshots authority t repository commit (required_contexts bp.2);;
    aret {| snapshot_repository := repository; snapshot_commit := commit; snapshot_at := t;
            policy_sha256 := sha_branch_policy bp.1 bp.2;
            satisfied := match blockers with [] => true | _ => false end
                         && match results with [] => false | _ => true end
                         && forallb context_satisfied results;
            contexts := results; snapshot_blockers := blockers |}.

End controller.
