(* ===== verification/RequiredLaws.v ===== *)
(** RequiredLaws: what single calls on required attempts and publishers do: evidence received
    once reads back whatever order it is stored in, a transaction makes one of four moves on
    the tables, and every call of the controller makes one of them or none. *)

From Stdlib Require Import Ascii.
From S2P Require Import Prelude Text Clock BranchProtection ForgeState Forge BoundReviews RequiredAttempts RequiredStore RequiredPublishers.
Local Open Scope forge_scope.

(** * Evidence *)

Section evidence.
Context (sha : string → string).

Definition bad_form (a : RequiredArtifactBytes) : bool := bad_artifact [] a.

Definition total_bytes (l : list RequiredArtifactBytes) : N :=
  foldr (λ a n, (bytes_len (artifact_bytes a) + n)%N) 0%N l.

Lemma bad_artifact_split names a :
  bad_artifact names a = bad_form a || bool_decide (artifact_name a ∈ names).
Proof.
  unfold bad_form, bad_artifact. rewrite (bool_decide_eq_false_2 (_ ∈ [])) by apply not_elem_of_nil.
  rewrite orb_false_r. by destruct (bool_decide (artifact_name a ∈ names)), (str_is_empty (artifact_bytes a));
    rewrite ?orb_true_r, ?orb_false_r.
Qed.

Definition receivable (names : list string) (total : N) (l : list RequiredArtifactBytes) : Prop :=
  Forall (λ a, bad_form a = false) l ∧ NoDup (map artifact_name l)
  ∧ (∀ n, n ∈ map artifact_name l → n ∉ names) ∧ (total + total_bytes l ≤ EVIDENCE_LIMIT)%N.

Lemma receivable_cons names total a l :
  receivable names total (a :: l) ↔
  bad_artifact names a = false ∧ (total + bytes_len (artifact_bytes a) ≤ EVIDENCE_LIMIT)%N
  ∧ receivable (artifact_name a :: names) (total + bytes_len (artifact_bytes a)) l.
Proof.
  unfold receivable. rewrite bad_artifact_split, orb_false_iff, bool_decide_eq_false.
  rewrite Forall_cons. simpl. rewrite NoDup_cons. setoid_rewrite elem_of_cons. split.
  - intros ((H1 & H2) & (H3 & H4) & H5 & H6). split_and!; try done; try lia; [by apply H5; left|].
    intros n Hn [->|Hm]; [done|]. by eapply H5; [right|].
  - intros ((H1 & H2) & H3 & H4 & H5 & H6 & H7). split_and!; try done; try lia.
    + intros Hin. eapply H6; [done|by left].
    + intros n [->|Hn]; [done|]. intros Hm. eapply H6; [done|by right].
Qed.

Lemma receive_go_spec names total l r :
  (total ≤ EVIDENCE_LIMIT)%N →
  receive_go sha names total l = Ok r ↔ r = map (receipt_of sha) l ∧ receivable names total l.
Proof.
  revert names total r. induction l as [|a l IH]; intros names total r Ht.
  - simpl. split; [|by intros [-> _]]. intros [= <-]. split; [done|].
    split; [by constructor|]. split; [by constructor|]. split; [by intros n Hn%not_elem_of_nil|].
    by rewrite N.add_0_r.
  - rewrite receivable_cons. simpl. destruct (bad_artifact names a); [naive_solver|].
    unfold checked_add. assert (Hu : (EVIDENCE_LIMIT < u64_max)%N) by done.
    destruct (N.leb_spec (total + bytes_len (artifact_bytes a)) u64_max) as [_|Hgt].
    2:{ split; [done|]. intros (_ & _ & H & _). lia. }
    destruct (N.leb_spec (total + bytes_len (artifact_bytes a)) EVIDENCE_LIMIT) as [Hl|Hl].
    2:{ split; [done|]. intros (_ & _ & H & _). lia. }
    pose proof (λ r, IH (artifact_name a :: names) _ r Hl) as IH'.
    destruct (receive_go _ _ _ l) as [r'|e].
    + destruct (proj1 (IH' r') eq_refl) as [-> Hr]. split; [intros [= <-]; by split_and!|].
      by intros (-> & _).
    + split; [done|]. intros (_ & _ & _ & Hr).
      by pose proof (proj2 (IH' _) (conj eq_refl Hr)).
Qed.

Lemma total_bytes_perm l l' : l ≡ₚ l' → total_bytes l = total_bytes l'.
Proof. intros Hp. induction Hp; simpl; lia. Qed.

Lemma receivable_perm names total l l' : l ≡ₚ l' → receivable names total l → receivable names total l'.
Proof.
  intros Hp (H1 & H2 & H3 & H4). unfold receivable.
  rewrite <-(total_bytes_perm l l') by done. pose proof (Permutation_map artifact_name Hp) as Hm.
  split; [by rewrite <-Hp|]. split; [by rewrite <-Hm|]. split; [|done].
  intros n Hn. apply H3. by rewrite Hm.
Qed.

(** What is received is the receipts in the order of their names. *)
Lemma receive_spec l r :
  receive_artifacts sha l = Ok r ↔
  (1 ≤ length l ≤ 64) ∧ receivable [] 0 l ∧ r = isort received_leb (map (receipt_of sha) l).
Proof.
  unfold receive_artifacts. destruct l as [|a l]; [simpl; split; [done|lia]|].
  destruct (Nat.ltb_spec 64 (length (a :: l))) as [Hlt|Hle]; [split; [done|lia]|].
  pose proof (λ r, receive_go_spec [] 0 (a :: l) r ltac:(done)) as Hs.
  destruct (receive_go _ _ _ _) as [r'|e].
  - destruct (proj1 (Hs r') eq_refl) as [-> Hr]. split; [intros [= <-]|by intros (_ & _ & ->)].
    split; [|done]. simpl in *. lia.
  - split; [done|]. intros (_ & Hr & _). by pose proof (proj2 (Hs _) (conj eq_refl Hr)).
Qed.

Lemma received_unique l l' :
  NoDup (map artifact_name l) → l ≡ₚ l' →
  isort received_leb (map (receipt_of sha) l) = isort received_leb (map (receipt_of sha) l').
Proof.
  intros Hn Hp. apply isort_unique.
  - intros x y. apply string_leb_total.
  - intros x y z. apply string_leb_trans.
  - intros x y Hx Hy H1 H2. apply list_elem_of_In, in_map_iff in Hx as (a & <- & Ha).
    apply list_elem_of_In, in_map_iff in Hy as (b & <- & Hb). simpl in *.
    f_equal. apply (NoDup_fmap_eq artifact_name l); [done|by apply list_elem_of_In..|].
    by apply string_leb_antisym.
  - by apply Permutation_map.
Qed.

(** Evidence is received alike in whatever order its artifacts come. *)
Lemma receive_perm l l' r :
  l ≡ₚ l' → receive_artifacts sha l = Ok r → receive_artifacts sha l' = Ok r.
Proof.
  rewrite !receive_spec. intros Hp (H1 & H2 & ->).
  split; [by rewrite <-Hp|]. split; [by eapply receivable_perm|]. apply received_unique; [apply H2|done].
Qed.

End evidence.

(** * Running the calls *)

Section running.
Context `{E : ForgeEnv} `{V : !ReviewEnv} `{R : !RequiredEnv}.

(** Where a call that began at [c0] is: the saved state is as it was. *)
Record at_att (c0 : AttemptCore) (t : Tables) (c : AttemptCore) : Prop := {
  aa_state : state (forge c) = state (forge c0); aa_stored : stored (forge c) = stored (forge c0);
  aa_tables : tables c = t; aa_attached : attached c = attached c0
}.

Definition qwp {X} (m : A X) (Q : result X ForgeError → AttemptCore → Prop) (c : AttemptCore) : Prop :=
  Q (m c).1 (m c).2.

Definition athen {X Y} (k : X → A Y) (Q : result Y ForgeError → AttemptCore → Prop) :
    result X ForgeError → AttemptCore → Prop :=
  λ r c, match r with Ok x => qwp (k x) Q c | Err e => Q (Err e) c end.

Lemma qwp_bind {X Y} (m : A X) (k : X → A Y) Q c : qwp m (athen k Q) c → qwp (abind m k) Q c.
Proof. unfold qwp, athen, abind. by destruct (m c) as [[x|e] c']. Qed.

Lemma qwp_mono {X} (m : A X) (Q Q' : result X ForgeError → AttemptCore → Prop) c :
  qwp m Q c → (∀ r c', Q r c' → Q' r c') → qwp m Q' c.
Proof. unfold qwp. auto. Qed.

Lemma qwp_ret {X} (x : X) (Q : result X ForgeError → AttemptCore → Prop) c :
  Q (Ok x) c → qwp (aret x) Q c.
Proof. done. Qed.

Lemma qwp_throw {X} e (Q : result X ForgeError → AttemptCore → Prop) c :
  Q (Err e) c → qwp (athrow e) Q c.
Proof. done. Qed.

Lemma qwp_lift {X} (r : result X ForgeError) Q c : Q r c → qwp (alift r) Q c.
Proof. by destruct r. Qed.

Lemma qwp_state Q c0 t c :
  at_att c0 t c → Q (Ok (state (forge c0))) c → qwp (within read_state) Q c.
Proof. intros [Hs _ _ _] HQ. unfold qwp, within. rewrite <-Hs in HQ. by destruct c. Qed.

Lemma qwp_tables Q c0 t c : at_att c0 t c → Q (Ok t) c → qwp read_tables Q c.
Proof. by intros [_ _ <- _]. Qed.

Lemma qwp_attached Q c0 t c : at_att c0 t c → Q (Ok (attached c0)) c → qwp read_attached Q c.
Proof. by intros [_ _ _ <-]. Qed.

Lemma qwp_authority Q c0 t c :
  at_att c0 t c → (∀ a, attached c0 = Some a → Q (Ok a) c) → (∀ e, Q (Err e) c) →
  qwp required_authority Q c.
Proof.
  intros [_ _ _ Ha] H1 H2. unfold qwp, required_authority. rewrite Ha.
  destruct (attached c0); [by apply H1|apply H2].
Qed.

Lemma qwp_ask {X} (f : nat → X) Q c0 t c :
  at_att c0 t c → (∀ n c', at_att c0 t c' → Q (Ok (f n)) c') → qwp (within (ask f)) Q c.
Proof. intros [] HQ. apply HQ. by split. Qed.

Lemma qwp_guard f Q c0 t c :
  at_att c0 t c → (∀ c', at_att c0 t c' → Q (Ok tt) c') →
  (∀ e c', at_att c0 t c' → Q (Err e) c') → qwp (within (guard f)) Q c.
Proof.
  intros [] H1 H2. unfold qwp, within, guard, bind, ask.
  destruct (f (asked (forge c))); [apply H2|apply H1]; by split.
Qed.

Lemma qwp_durable Q c0 t c :
  at_att c0 t c → Q (Ok tt) c → (∀ e, Q (Err e) c) → qwp durable_storage Q c.
Proof. intros _ H1 H2. unfold qwp, durable_storage. destruct (stored (forge c)); [done|apply H2]. Qed.

Lemma qwp_commit t' Q c0 t c :
  at_att c0 t c → (∀ c', at_att c0 t' c' → Q (Ok tt) c') →
  (∀ e c', at_att c0 t c' → Q (Err e) c') → qwp (tx_commit t') Q c.
Proof.
  intros [] H1 H2. unfold qwp, tx_commit.
  destruct (table_error _); [apply H2|apply H1]; by split.
Qed.

Lemma at_begin c : at_att c (tables c) c.
Proof. by split. Qed.

End running.

Ltac astep :=
  match goal with
  | |- athen _ _ (Ok _) _ => unfold athen; cbv beta iota
  | |- athen _ _ (Err _) _ => unfold athen; cbv beta iota
  | |- athen _ _ ?r _ => destruct r eqn:?
  | |- qwp (abind _ _) _ _ => apply qwp_bind
  | |- qwp (aret _) _ _ => apply qwp_ret
  | |- qwp (athrow _) _ _ => apply qwp_throw
  | |- qwp (alift _) _ _ => apply qwp_lift
  | H : at_att _ _ ?c |- qwp (within read_state) _ ?c => eapply (qwp_state _ _ _ c H)
  | H : at_att _ _ ?c |- qwp read_tables _ ?c => eapply (qwp_tables _ _ _ c H)
  | H : at_att _ _ ?c |- qwp read_attached _ ?c => eapply (qwp_attached _ _ _ c H)
  | H : at_att _ _ ?c |- qwp required_authority _ ?c =>
      eapply (qwp_authority _ _ _ c H); [intros ? ?|intros ?]
  | H : at_att _ _ ?c |- qwp (within (ask _)) _ ?c =>
      eapply (qwp_ask _ _ _ _ c H); clear c H; intros ? ? ?
  | H : at_att _ _ ?c |- qwp (within now) _ ?c =>
      eapply (qwp_ask _ _ _ _ c H); clear c H; intros ? ? ?
  | H : at_att _ _ ?c |- qwp (within new_v4) _ ?c =>
      eapply (qwp_ask _ _ _ _ c H); clear c H; intros ? ? ?
  | H : at_att _ _ ?c |- qwp (within (guard _)) _ ?c =>
      eapply (qwp_guard _ _ _ _ c H); clear c H; [intros ? ?|intros ? ? ?]
  | H : at_att _ _ ?c |- qwp connect _ ?c =>
      eapply (qwp_guard _ _ _ _ c H); clear c H; [intros ? ?|intros ? ? ?]
  | H : at_att _ _ ?c |- qwp durable_storage _ ?c =>
      eapply (qwp_durable _ _ _ c H); [|intros ?]
  | H : at_att _ _ ?c |- qwp (tx_commit _) _ ?c =>
      eapply (qwp_commit _ _ _ _ c H); clear c H; [intros ? ?|intros ? ? ?]
  | |- qwp (if ?b then _ else _) _ _ => destruct b eqn:?
  | |- qwp (match ?x with _ => _ end) _ _ => destruct x eqn:?
  | |- qwp _ _ _ => progress (cbv zeta beta)
  end.

Section moves.
Context `{E : ForgeEnv} `{V : !ReviewEnv} `{R : !RequiredEnv}.

(** * What one call does to the tables *)

(** A row was inserted with its audit row. *)
Record attempt_reserved (t : Tables) (r : RequiredAttemptReservation) (now : DateTime)
    (a : DurableRequiredAttempt) (t' : Tables) : Prop := {
  ar_fresh : find_first (same_key r) (attempt_rows t) = None;
  ar_valid : validate_reservation r = Ok tt;
  ar_open : dt_leb (reservation_expires_at r) now = false;
  ar_ordinal : next_ordinal t (binding r) = Some (ordinal a);
  ar_new : ∃ n m, a = new_attempt r (uuid_at n) (uuid_at m) (ordinal a) now;
  ar_tables : ∃ t1, insert_attempt (attempt_id a) (row_of a) t = Ok t1
                ∧ insert_trail (attempt_trail a false) t1 = Ok t'
}.

(** The completion of a pending attempt was written, with its bytes, its audit row and its
    event. *)
Record attempt_completed (t : Tables) (id : Uuid) (contents : list RequiredArtifactBytes)
    (a : DurableRequiredAttempt) (x : RequiredAttemptCompletion) (t' : Tables) : Prop := {
  ac_load : load_attempt t id = Ok a;
  ac_pending : completion a = None;
  ac_received : receive_artifacts sha_bytes contents = Ok (received_artifacts x);
  ac_window : dt_ltb (completed_at x) (reserved_at a) = false
              ∧ dt_leb (reservation_expires_at (reservation a)) (completed_at x) = false;
  ac_new : ∃ n m, completion_audit x = uuid_at n ∧ completion_event x = uuid_at m;
  ac_tables : write_completion id (with_completion a x) x contents t = Ok t'
}.

(** The next revision of a publisher was written. *)
Record publisher_installed (t : Tables) (e : RequiredPublisherEnrollment) (previous : option string)
    (operation : Uuid) (now : DateTime) (p : DurableRequiredPublisher) (t' : Tables) : Prop := {
  pi_valid : validate_enrollment e = Ok tt;
  pi_operation : is_nil_uuid operation = false;
  pi_window : dt_ltb now (issued_at e) = false ∧ dt_leb (enrollment_expires_at e) now = false;
  pi_follows : ∃ prior, latest t (publisher_id e) = Ok prior ∧ follows prior previous e = true;
  pi_new : ∃ n, p = new_publisher e previous operation (uuid_at n) now;
  pi_tables : ∃ t1, insert_publisher (publisher_row p) t = Ok t1
                ∧ insert_trail (install_trail p) t1 = Ok t'
}.

(** The latest revision of a publisher was revoked. *)
Record publisher_revoked (t : Tables) (id : Uuid) (v : RequiredPublisherRevocation)
    (p : DurableRequiredPublisher) (t' : Tables) : Prop := {
  pr_latest : latest t id = Ok (Some p);
  pr_open : revocation p = None;
  pr_actor : actor_shape (revocation_actor v) = Ok tt;
  pr_reason : bad_reason v = false;
  pr_after : dt_ltb (revoked_at v) (installed_at p) = false;
  pr_tables : ∃ t1, update_publisher id (with_revocation p v) t = Ok t1
                ∧ insert_trail (revocation_trail id (with_revocation p v) v) t1 = Ok t'
}.

Inductive tmove (t t' : Tables) : Prop :=
  | tm_same : t' = t → tmove t t'
  | tm_reserved r now a : attempt_reserved t r now a t' → tmove t t'
  | tm_completed id contents a x : attempt_completed t id contents a x t' → tmove t t'
  | tm_installed e previous operation now p :
      publisher_installed t e previous operation now p t' → tmove t t'
  | tm_revoked id v p : publisher_revoked t id v p t' → tmove t t'.

Lemma store_reserve_spec r now c0 t c :
  at_att c0 t c →
  qwp (store_reserve r now)
    (λ x c', match x with
       | Err _ => at_att c0 t c'
       | Ok a => reservation a = r
           ∧ ((at_att c0 t c' ∧ ∃ id, load_attempt t id = Ok a)
              ∨ ∃ t', at_att c0 t' c' ∧ attempt_reserved t r now a t')
       end) c.
Proof.
  intros Hc. unfold store_reserve. repeat astep; try done.
  - match goal with H : bool_decide _ = true |- _ => apply bool_decide_eq_true_1 in H end.
    split; [done|]. left. split; [done|by eexists].
  - split; [done|]. right. eexists. split; [done|]. destruct a. split; try done.
    + by eexists _, _.
    + by eexists.
Qed.

Lemma store_complete_spec id r outcome contents now c0 t c :
  at_att c0 t c →
  qwp (store_complete id r outcome contents now)
    (λ y c', match y with
       | Err _ => at_att c0 t c'
       | Ok a' => reservation a' = r ∧ (∃ x, completion a' = Some x ∧ conclusion x = outcome
                    ∧ receive_artifacts sha_bytes contents = Ok (received_artifacts x))
           ∧ ((at_att c0 t c' ∧ load_attempt t id = Ok a')
              ∨ ∃ t' a x, at_att c0 t' c' ∧ a' = with_completion a x ∧ completed_at x = now
                  ∧ attempt_completed t id contents a x t')
       end) c.
Proof.
  intros Hc. unfold store_complete. repeat astep; try done.
  all: match goal with H : negb (bool_decide _) = false |- _ =>
         apply negb_false_iff, bool_decide_eq_true_1 in H; subst r end.
  - match goal with H : _ && _ = true |- _ => apply andb_prop in H as [H1 H2];
      apply bool_decide_eq_true_1 in H1, H2 end. subst.
    split; [done|]. split; [by eexists|]. by left.
  - split; [done|]. split; [by eexists|]. right. eexists _, _, _. split_and!; [done..|].
    match goal with H : _ || _ = false |- _ => apply orb_false_iff in H as [H1 H2] end.
    split; try done. by eexists _, _.
Qed.

Lemma install_spec e previous operation now c0 t c :
  at_att c0 t c →
  qwp (install_required_publisher e previous operation now)
    (λ x c', match x with
       | Err _ => at_att c0 t c'
       | Ok p => enrollment p = e ∧ (at_att c0 t c'
           ∨ ∃ t', at_att c0 t' c' ∧ publisher_installed t e previous operation now p t')
       end) c.
Proof.
  intros Hc. unfold install_required_publisher. repeat astep; try done.
  - match goal with H : _ || _ || _ = false |- _ =>
      apply orb_false_iff in H as [[H _]%orb_false_iff _] end.
    match goal with H : negb _ = false |- _ => apply negb_false_iff, bool_decide_eq_true_1 in H end.
    split; [done|by left].
  - split; [done|]. right. eexists. split; [done|].
    match goal with H : dt_ltb _ _ || _ = false |- _ => apply orb_false_iff in H as [H1 H2] end.
    match goal with H : negb (follows _ _ _) = false |- _ => apply negb_false_iff in H end.
    match goal with H : validate_enrollment e = Ok ?u |- _ => destruct u end.
    split; try done; by eexists.
Qed.

Lemma revoke_spec id digest v c0 t c :
  at_att c0 t c →
  qwp (revoke_required_publisher id digest v)
    (λ x c', match x with
       | Err _ => at_att c0 t c'
       | Ok p' => revocation p' = Some v ∧ enrollment_sha256 p' = digest
           ∧ ((at_att c0 t c' ∧ latest t id = Ok (Some p'))
              ∨ ∃ t' p, at_att c0 t' c' ∧ p' = with_revocation p v ∧ publisher_revoked t id v p t')
       end) c.
Proof.
  intros Hc. unfold revoke_required_publisher. repeat astep; try done.
  all: match goal with H : negb (String.eqb _ _) = false |- _ =>
         apply negb_false_iff, String.eqb_eq in H end.
  - match goal with H : bool_decide _ = true |- _ => apply bool_decide_eq_true_1 in H end. subst.
    split; [done|]. split; [done|]. by left.
  - split; [done|]. split; [done|]. right. eexists _, _. split; [done|]. split; [done|].
    match goal with H : actor_shape _ = Ok ?u |- _ => destruct u end.
    split; try done. by eexists.
Qed.

End moves.

(** * The controller *)

Section controller.
Context `{E : ForgeEnv} `{V : !ReviewEnv} `{R : !RequiredEnv}.

Lemma qwp_custody_compare a Q c0 t c :
  at_att c0 t c → (∀ c', at_att c0 t c' → Q (Ok (authority_custody a)) c') →
  (∀ e c', at_att c0 t c' → Q (Err e) c') → qwp (compare_required_custody a) Q c.
Proof.
  intros Hc H1 H2. unfold compare_required_custody. repeat astep; auto.
  match goal with H : bool_decide _ = true |- _ => apply bool_decide_eq_true_1 in H as <- end. auto.
Qed.

(** The authority said yes, asked about the custody it is bound to. *)
Definition authorised (a : RequiredPublisherAuthority) (p : DurableRequiredPublisher)
    (action : RequiredPublisherAction) (now : DateTime) : Prop :=
  ∃ n, authority_validate a (authority_custody a) p action now n = Ok tt.

Lemma qwp_validate a p action now Q c0 t c :
  at_att c0 t c → (∀ c', at_att c0 t c' → authorised a p action now → Q (Ok tt) c') →
  (∀ e c', at_att c0 t c' → Q (Err e) c') → qwp (validate_required_authority a p action now) Q c.
Proof.
  intros Hc H1 H2. unfold validate_required_authority. apply qwp_bind.
  eapply qwp_custody_compare; [done|clear c Hc; intros c Hc|intros e c1 Hc1; by apply H2].
  repeat astep; auto. eapply qwp_custody_compare; [done|clear dependent c'; intros c1 Hc1|intros; by apply H2].
  repeat astep; auto. apply H1; [done|].
  match goal with H : authority_validate _ _ _ _ _ ?k = Ok ?u |- _ => destruct u; by exists k end.
Qed.

Lemma qwp_actor a id mutation Q c0 t c :
  at_att c0 t c →
  (∀ n x c', at_att c0 t c' →
     actor_admitted (now_at n) (state (forge c0)) a id mutation = Ok x → Q (Ok x) c') →
  (∀ e c', at_att c0 t c' → Q (Err e) c') → qwp (required_actor_context a id mutation) Q c.
Proof.
  intros Hc H1 H2. unfold required_actor_context. repeat astep.
  destruct (actor_admitted _ _ _ _ _) eqn:?; eauto.
Qed.

Lemma qwp_latest_publisher id Q c0 t c :
  at_att c0 t c → (∀ c', at_att c0 t c' → Q (latest t id) c') →
  (∀ e c', at_att c0 t c' → Q (Err e) c') → qwp (latest_required_publisher id) Q c.
Proof. intros Hc H1 H2. unfold latest_required_publisher. repeat astep; auto. Qed.

Lemma qwp_latest_attempt repository commit context Q c0 t c :
  at_att c0 t c → (∀ c', at_att c0 t c' → Q (latest_attempt t repository commit context) c') →
  (∀ e c', at_att c0 t c' → Q (Err e) c') →
  qwp (latest_required_attempt repository commit context) Q c.
Proof. intros Hc H1 H2. unfold latest_required_attempt. repeat astep; auto. Qed.

Lemma qwp_get_attempt id Q c0 t c :
  at_att c0 t c → (∀ c', at_att c0 t c' → Q (load_attempt t id) c') →
  (∀ e c', at_att c0 t c' → Q (Err e) c') → qwp (get_required_attempt id) Q c.
Proof. intros Hc H1 H2. unfold get_required_attempt. repeat astep; auto. Qed.

Lemma qwp_enrolled id m Q c0 t c :
  at_att c0 t c →
  (∀ p c', at_att c0 t c' → latest t id = Ok (Some p) → Q (Ok p) c') →
  (∀ e c', at_att c0 t c' → Q (Err e) c') → qwp (enrolled id m) Q c.
Proof.
  intros Hc H1 H2. unfold enrolled. apply qwp_bind.
  eapply qwp_latest_publisher; [done|intros c' Hc'|intros e c' Hc'; by apply H2].
  destruct (latest t id) as [[p|]|e] eqn:Hl; repeat astep; auto.
Qed.

(** Git was found to hold the source of the scope where the scope says. *)
Definition source_observed (r : ReviewGitRepository) (s : RequiredPublisherScope) : Prop :=
  ∃ observe n g, observer = Some observe ∧ observe (source_target r s) n = Ok g
    ∧ source_moved s g = false.

Lemma qwp_observe r s Q c0 t c :
  at_att c0 t c → (∀ c', at_att c0 t c' → source_observed r s → Q (Ok tt) c') →
  (∀ e c', at_att c0 t c' → Q (Err e) c') → qwp (observe_required_source r s) Q c.
Proof.
  intros Hc H1 H2. unfold observe_required_source. repeat astep; auto.
  apply H1; [done|]. by eexists _, _, _.
Qed.

Lemma actor_admitted_actor t s a id mutation x :
  actor_admitted t s a id mutation = Ok x →
  actor_admitted t s a id mutation = Ok (x.1, actor_binding a) ∧ x.2 = actor_binding a.
Proof.
  intros Hx. enough (x.2 = actor_binding a) as <-; [split; [by destruct x|done]|]. revert Hx.
  unfold actor_admitted, validate_actor_locked. destruct (mutation && _); [done|].
  unfold validate_actor_binding. destruct (accounts s !! _); [|done].
  destruct (_ || _); [done|]. destruct (live_credential _ _ _); [|done].
  repeat (case_match; [|done]). by intros [= <-].
Qed.

Lemma publisher_actor_checked p b : require_publisher_actor p b = Ok tt → publisher_actor (enrollment p) = b.
Proof. unfold require_publisher_actor. by case_bool_decide. Qed.

Lemma required_field v f x : required v f = Ok x → v = Some x.
Proof. unfold required. destruct v; [|done]. destruct (str_is_empty _); [done|]. by intros [= ->]. Qed.

End controller.

Ltac cstep :=
  match goal with
  | H : at_att _ _ ?c |- qwp (validate_required_authority _ _ _ _) _ ?c =>
      eapply (qwp_validate _ _ _ _ _ _ _ c H); clear c H; [intros ? ? ?|intros ? ? ?]
  | H : at_att _ _ ?c |- qwp (required_actor_context _ _ _) _ ?c =>
      eapply (qwp_actor _ _ _ _ _ _ c H); clear c H; [intros ? ? ? ? ?|intros ? ? ?]
  | H : at_att _ _ ?c |- qwp (enrolled _ _) _ ?c =>
      eapply (qwp_enrolled _ _ _ _ _ c H); clear c H; [intros ? ? ? ?|intros ? ? ?]
  | H : at_att _ _ ?c |- qwp (observe_required_source _ _) _ ?c =>
      eapply (qwp_observe _ _ _ _ _ c H); clear c H; [intros ? ? ?|intros ? ? ?]
  | H : at_att _ _ ?c |- qwp (get_required_attempt _) _ ?c =>
      eapply (qwp_get_attempt _ _ _ _ c H); clear c H; [intros ? ?|intros ? ? ?]
  | H : at_att _ _ ?c |- qwp (latest_required_publisher _) _ ?c =>
      eapply (qwp_latest_publisher _ _ _ _ c H); clear c H; [intros ? ?|intros ? ? ?]
  | H : at_att _ _ ?c |- qwp (latest_required_attempt _ _ _) _ ?c =>
      eapply (qwp_latest_attempt _ _ _ _ _ _ c H); clear c H; [intros ? ?|intros ? ? ?]
  | |- qwp (when_completing _ _) _ _ => unfold when_completing; destruct (action_of _) eqn:?
  | _ => astep
  end.

Section publishing.
Context `{E : ForgeEnv} `{V : !ReviewEnv} `{R : !RequiredEnv}.

(** What stands behind a publication: the latest enrollment of the publisher is of this actor,
    who may write to the repository, neither revoked nor outside its window, its source is
    observed and the authority agrees, at instants of the call. *)
Record publication_admitted (c : AttemptCore) (actor : AuthenticatedActor) (repository id : Uuid)
    (p : DurableRequiredPublisher) (s : RequiredPublisherScope) (action : RequiredPublisherAction)
    (now : DateTime) : Prop := {
  pa_latest : latest (tables c) id = Ok (Some p);
  pa_actor : publisher_actor (enrollment p) = actor_binding actor;
  pa_current : require_current p now = Ok tt;
  pa_source : ∃ n r, actor_admitted (now_at n) (state (forge c)) actor repository true
                       = Ok (r, actor_binding actor) ∧ source_observed r s;
  pa_authority : ∃ a, attached c = Some a ∧ authorised a p action now
}.

Definition same_engine (c c' : AttemptCore) : Prop :=
  state (forge c') = state (forge c) ∧ stored (forge c') = stored (forge c)
  ∧ attached c' = attached c.

Lemma at_same_engine c t c' : at_att c t c' → same_engine c c' ∧ tables c' = t.
Proof. by intros []. Qed.

Lemma reserve_spec actor repository q c0 c :
  at_att c0 (tables c0) c →
  qwp (reserve_required_attempt actor repository q)
    (λ x c', match x with
       | Err _ => at_att c0 (tables c0) c'
       | Ok a =>
           ∃ p s now head key,
             publication_admitted c0 actor repository (rs_publisher q) p s PA_Reserve now
             ∧ rs_expected_head q = Some head
             ∧ scope (enrollment p) repository head (rs_context q) = Ok s
             ∧ reservation a = enrolled_reservation (enrollment p) s key (rs_expires_at q)
                                 (enrollment_sha256 p)
             ∧ ((at_att c0 (tables c0) c' ∧ ∃ id, load_attempt (tables c0) id = Ok a)
                ∨ ∃ t', at_att c0 t' c' ∧ attempt_reserved (tables c0) (reservation a) now a t')
       end) c.
Proof.
  intros Hc. unfold reserve_required_attempt.
  repeat cstep; try done.
  eapply qwp_mono; [by eapply store_reserve_spec|]. intros [b|e] c9; cbv beta iota; [|done].
  intros [Hr Hcase]. rewrite <-Hr in Hcase.
  repeat match goal with u : () |- _ => destruct u end.
  match goal with H : actor_admitted _ _ _ _ _ = Ok x |- _ =>
    apply actor_admitted_actor in H as [Hadm Hx] end.
  rewrite Hx in *.
  eexists p, _, _, _, _. split; [|split; [by eapply required_field|]; split; [done|]; split; [done|]; exact Hcase].
  split; [done|by apply publisher_actor_checked|done|by eexists _, _|by eexists].
Qed.

Lemma complete_attempt_spec actor repository id q c0 c :
  at_att c0 (tables c0) c →
  qwp (complete_required_attempt actor repository id q)
    (λ y c', match y with
       | Err _ => at_att c0 (tables c0) c'
       | Ok a' =>
           ∃ a p s, load_attempt (tables c0) id = Ok a ∧ reservation a' = reservation a
             ∧ binding_repository (binding (reservation a)) = repository
             ∧ latest (tables c0) (binding_publisher (binding (reservation a))) = Ok (Some p)
             ∧ publisher_actor (enrollment p) = actor_binding actor ∧ revocation p = None
             ∧ enrollment_sha256 p = binding_enrollment (binding (reservation a))
             ∧ validate_attempt_enrollment p a = Ok s
             ∧ (∃ x, completion a' = Some x ∧ conclusion x = cr_conclusion q
                  ∧ receive_artifacts sha_bytes (cr_artifacts q) = Ok (received_artifacts x))
             ∧ ((at_att c0 (tables c0) c' ∧ a' = a)
                ∨ ∃ t' x, at_att c0 t' c' ∧ a' = with_completion a x
                    ∧ attempt_completed (tables c0) id (cr_artifacts q) a x t'
                    ∧ publication_admitted c0 actor repository
                        (binding_publisher (binding (reservation a))) p s PA_Complete (completed_at x))
       end) c.
Proof.
  intros Hc. unfold complete_required_attempt.
  repeat cstep; try done.
  all: eapply qwp_mono; [by eapply store_complete_spec|]; intros [b|e] c9; cbv beta iota; [|done].
  all: intros (Hr & Hdone & Hcase).
  all: repeat match goal with u : () |- _ => destruct u end.
  all: match goal with H : actor_admitted _ _ _ _ _ = Ok ?y, _ : require_publisher_actor _ ?y.2 = _ |- _ =>
         apply actor_admitted_actor in H as [Hadm Hx] end; rewrite Hx in *.
  all: match goal with H : _ || bool_decide (is_Some (revocation _)) = false |- _ =>
         apply orb_false_iff in H as [Hd%negb_false_iff%String.eqb_eq Hv%bool_decide_eq_false_1] end;
       apply eq_None_not_Some in Hv.
  all: match goal with H : _ || _ || _ = false |- _ =>
         apply orb_false_iff in H as [[Hrepo%negb_false_iff%N.eqb_eq _]%orb_false_iff _] end.
  all: match goal with H : load_attempt _ _ = Ok ?a, K : validate_attempt_enrollment ?p _ = Ok ?s |- _ =>
         exists a, p, s; split; [done|]; split; [done|]; split; [done|]; split; [done|];
         split; [by apply publisher_actor_checked|]; split; [done|]; split; [done|]; split; [done|];
         split; [done|]; rename H into Hload end.
  all: destruct Hcase as [(Hc9 & Hb)|(t' & a5 & x5 & Hc9 & -> & Hnow & Hdone5)];
       [left; split; [done|congruence]|].
  all: pose proof (ac_load _ _ _ _ _ _ Hdone5) as Hload5; rewrite Hload in Hload5;
       injection Hload5 as <-.
  all: match goal with H : action_of _ = _ |- _ => unfold action_of in H;
         rewrite (ac_pending _ _ _ _ _ _ Hdone5) in H; try done end.
  right. exists t', x5. split; [done|]. split; [done|]. split; [done|]. rewrite Hnow.
  split; [done|by apply publisher_actor_checked|done|by eexists _, _|by eexists].
Qed.

End publishing.

(** * Snapshots *)

Section snapshots.
Context `{E : ForgeEnv} `{V : !ReviewEnv} `{R : !RequiredEnv}.

(** An attempt whose publisher is enrolled as it was, whose actor is still admitted and for
    which the authority stands. *)
Definition attempt_backed (c : AttemptCore) (au : RequiredPublisherAuthority) (now : DateTime)
    (a : DurableRequiredAttempt) : Prop :=
  ∃ p s n b, latest (tables c) (binding_publisher (binding (reservation a))) = Ok (Some p)
    ∧ revocation p = None ∧ enrollment_sha256 p = binding_enrollment (binding (reservation a))
    ∧ validate_attempt_enrollment p a = Ok s
    ∧ validate_actor_binding (now_at n) (state (forge c)) (publisher_actor (enrollment p)) = Ok b
    ∧ authorised au p PA_Snapshot now.

Lemma failure_of_nil {X} (r : result X ForgeError) : failure_of r = [] → ∃ x, r = Ok x.
Proof. destruct r as [x|]; [by exists x|done]. Qed.

Lemma enrollment_failures_spec au now a c0 c :
  at_att c0 (tables c0) c →
  qwp (enrollment_failures au now a)
    (λ r c', at_att c0 (tables c0) c' ∧ (r = Ok [] → attempt_backed c0 au now a)) c.
Proof.
  intros Hc. unfold enrollment_failures. apply qwp_bind.
  eapply qwp_latest_publisher; [done|clear dependent c; intros c Hc|by intros e c' Hc'].
  destruct (latest (tables c0) _) as [[p|]|e] eqn:Hl; repeat astep; try by split.
  match goal with H : _ && _ = true |- _ =>
    apply andb_prop in H as [Hv%bool_decide_eq_true_1 Hd%String.eqb_eq] end.
  unfold attempt_of, qwp at 1.
  match goal with H : at_att _ _ ?c |- context [validate_required_authority ?a ?p ?x ?y ?c] =>
    assert (Hq : qwp (validate_required_authority a p x y)
              (λ r c', at_att c0 (tables c0) c' ∧ (r = Ok tt → authorised a p x y)) c) end.
  { eapply qwp_validate; [done|by intros; split|by intros; split]. }
  unfold qwp in Hq. destruct (validate_required_authority _ _ _ _ _) as [r c2]. cbn in Hq |- *.
  destruct Hq as [Hc2 Hr]. split; [done|]. intros [= Hnil].
  apply app_eq_nil in Hnil as [[s Hs]%failure_of_nil [[b Hb]%failure_of_nil [[] Ha]%failure_of_nil]%app_eq_nil].
  exists p, s, n, b. split_and!; auto.
Qed.

Record context_sound (c : AttemptCore) (au : RequiredPublisherAuthority) (now : DateTime)
    (repository : Uuid) (commit : string) (x : RequiredContextSnapshot) : Prop := {
  cs_newest : latest_attempt (tables c) repository commit (snapshot_context x) = Ok (newest_attempt x);
  cs_backed : context_satisfied x = true → ∃ a, newest_attempt x = Some a
    ∧ (∃ y, completion a = Some y ∧ conclusion y = RC_Success) ∧ attempt_backed c au now a
}.

Lemma status_success a now : status_at a now = AS_Success → ∃ y, completion a = Some y ∧ conclusion y = RC_Success.
Proof.
  unfold status_at. destruct (completion a) as [y|]; cbn; [|by destruct (dt_leb _ _)].
  destruct (conclusion y) eqn:Hy; try done. by exists y.
Qed.

Lemma context_snapshot_spec au now repository commit context c0 c :
  at_att c0 (tables c0) c →
  qwp (context_snapshot au now repository commit context)
    (λ r c', at_att c0 (tables c0) c'
       ∧ ∀ x, r = Ok x → snapshot_context x = context ∧ context_sound c0 au now repository commit x) c.
Proof.
  intros Hc. unfold context_snapshot. apply qwp_bind.
  eapply qwp_latest_attempt; [done|clear dependent c; intros c Hc|by intros e c' Hc'].
  destruct (latest_attempt _ _ _ _) as [[a|]|e] eqn:Hl; unfold athen; [| |by split].
  - apply qwp_bind. eapply qwp_mono; [by apply enrollment_failures_spec|].
    intros [fs|e] c1 [Hc1 Hb]; unfold athen; [|by split]. repeat astep. split; [done|].
    intros x [= <-]. split; [done|]. split; cbn; [done|]. case_bool_decide as Hs; [|by destruct fs].
    injection Hs as Hs. intros Hnil. exists a. split; [done|]. split; [by eapply status_success|].
    apply Hb. destruct fs; [done|by rewrite app_nil_r in Hnil].
  - repeat astep. split; [done|]. by intros x [= <-].
Qed.

Lemma context_snapshots_spec au now repository commit l c0 c :
  at_att c0 (tables c0) c →
  qwp (context_snapshots au now repository commit l)
    (λ r c', at_att c0 (tables c0) c'
       ∧ ∀ xs, r = Ok xs → map snapshot_context xs = l
           ∧ Forall (context_sound c0 au now repository commit) xs) c.
Proof.
  revert c. induction l as [|context l IH]; intros c Hc; simpl.
  - astep. split; [done|]. intros xs [= <-]. by split; [|constructor].
  - apply qwp_bind. eapply qwp_mono; [by apply context_snapshot_spec|].
    intros [x|e] c1 [Hc1 Hx]; unfold athen; [|by split]. destruct (Hx x eq_refl) as [Hn Hs].
    apply qwp_bind. eapply qwp_mono; [by apply IH|]. intros [xs|e] c2 [Hc2 Hxs]; unfold athen; [|by split].
    destruct (Hxs xs eq_refl) as [Hm Hf]. astep. split; [done|]. intros ys [= <-]. simpl.
    by rewrite Hn, Hm; split; [|constructor].
Qed.

Lemma snapshot_spec actor repository commit c0 c :
  at_att c0 (tables c0) c →
  qwp (required_attempt_snapshot actor repository commit)
    (λ r c', at_att c0 (tables c0) c' ∧ ∀ snap, r = Ok snap →
       snapshot_commit snap = commit
       ∧ ∃ n g b au branch policy,
           actor_admitted (now_at n) (state (forge c0)) actor repository false = Ok (g, b)
           ∧ default_policy (state (forge c0)) g = Ok (branch, policy) ∧ attached c0 = Some au
           ∧ map snapshot_context (contexts snap) = required_contexts policy
           ∧ Forall (context_sound c0 au (snapshot_at snap) repository commit) (contexts snap)
           ∧ (satisfied snap = true ↔ contexts snap ≠ []
                ∧ Forall (λ x, context_satisfied x = true) (contexts snap))) c.
Proof.
  intros Hc. unfold required_attempt_snapshot. repeat cstep; try by split.
  eapply qwp_mono; [by apply context_snapshots_spec|]. intros [xs|e] c9 [Hc9 Hxs]; unfold athen; [|by split].
  destruct (Hxs xs eq_refl) as [Hm Hf]. repeat astep. split; [done|]. intros snap [= <-]. cbn. split; [done|].
  match goal with H : actor_admitted _ _ _ _ _ = Ok ?x, K : default_policy _ ?x.1 = Ok ?y |- _ =>
    destruct x as [g b], y as [branch policy]; cbn in * end.
  eexists _, g, b, _, branch, policy. split_and!; try done.
  rewrite <-Hm. destruct xs as [|x xs]; cbn; [naive_solver|].
  rewrite andb_true_iff, forallb_forall, Forall_cons. split.
  - intros [Hx Hall]. split; [done|]. split; [done|]. apply Forall_forall. intros y Hy.
    by apply Hall, list_elem_of_In.
  - intros (_ & Hx & Hall). split; [done|]. intros y Hy. rewrite Forall_forall in Hall.
    by apply Hall, list_elem_of_In.
Qed.

End snapshots.
