(* ===== verification/RequiredHistory.v ===== *)
(** RequiredHistory: required attempts and publishers through any calls: every row can be read
    back, a completion stands for good, an enrollment that was revoked or superseded never
    publishes again, and a commit is satisfied only by successful attempts of publishers whose
    enrollment is the current one. *)

From Stdlib Require Import Ascii.
From S2P Require Import Prelude Text Clock BranchProtection ForgeState Forge BoundReviews RequiredAttempts RequiredStore RequiredPublishers RequiredLaws.
Local Open Scope forge_scope.

(** The documented form of random UUIDs: their version bits are set. *)
Class UuidSpec `{E : ForgeEnv} : Prop := { uuid_not_nil n : is_nil_uuid (uuid_at n) = false }.

Section rows.
Context `{E : ForgeEnv} `{R : !RequiredEnv}.

(** * The tables *)

(** The row of an artifact is its receipt with its bytes. *)
Definition row_for (bytes : string) : ArtifactRow :=
  {| row_sha256 := sha_bytes bytes; row_size := bytes_len bytes; content := bytes |}.

Definition lawful (rows : gmap string ArtifactRow) : Prop :=
  map_Forall (λ _ row, row = row_for (content row)) rows.

Definition rows_of (t : Tables) (id : Uuid) : gmap string ArtifactRow := default ∅ (artifacts t !! id).

(** Two tables agree but for the artifacts of an attempt. *)
Record same_but_artifacts (id : Uuid) (t t' : Tables) : Prop := {
  sb_attempts : attempts t' = attempts t; sb_outbox : attempt_outbox t' = attempt_outbox t;
  sb_publishers : publishers t' = publishers t; sb_trail : trail t' = trail t;
  sb_artifacts id' : id' ≠ id → artifacts t' !! id' = artifacts t !! id'
}.

Lemma insert_artifact_spec id a t t' :
  insert_artifact id a (receipt_of sha_bytes a) t = Ok t' →
  same_but_artifacts id t t' ∧ rows_of t id !! artifact_name a = None
  ∧ rows_of t' id = <[artifact_name a := row_for (artifact_bytes a)]> (rows_of t id).
Proof.
  unfold insert_artifact. destruct (_ || _) eqn:Hc; [done|]. intros [= <-].
  apply orb_false_iff in Hc as [[[Hn%bool_decide_eq_false_1 _]%orb_false_iff _]%orb_false_iff _].
  apply eq_None_not_Some in Hn. split; [|split; [done|]].
  - split; try done. intros id' Hne. cbn. by rewrite lookup_insert_ne.
  - unfold rows_of. cbn. by rewrite lookup_insert_eq.
Qed.

Lemma insert_artifacts_spec id received l t t' :
  (∀ a x, a ∈ l → x ∈ received → received_name x = artifact_name a → x = receipt_of sha_bytes a) →
  insert_artifacts id received l t = Ok t' →
  same_but_artifacts id t t'
  ∧ map stored_bytes (map_to_list (rows_of t' id)) ≡ₚ l ++ map stored_bytes (map_to_list (rows_of t id))
  ∧ (lawful (rows_of t id) → lawful (rows_of t' id)).
Proof.
  revert t. induction l as [|a l IH]; intros t Hrec; simpl.
  - intros [= <-]. by split_and!.
  - destruct (find_first _ received) as [x|] eqn:Hf; [|done].
    apply find_first_Some in Hf as (l1 & l2 & -> & Hx%String.eqb_eq & _).
    assert (x = receipt_of sha_bytes a) as ->.
    { apply Hrec; [left|apply elem_of_app; right; left|done]. }
    destruct (insert_artifact _ _ _ t) as [t1|] eqn:Hi; [|done].
    apply insert_artifact_spec in Hi as ([] & Hnone & Hrows). intros Hgo.
    destruct (IH t1) as ([] & Hp & Hl).
    { intros b y Hb Hy. apply Hrec; [by right|done]. }
    { done. }
    split; [|split].
    + split; try congruence. intros id' Hne. rewrite sb_artifacts1 by done. by apply sb_artifacts0.
    + rewrite Hp, Hrows, (map_to_list_insert _ _ _ Hnone). simpl.
      assert (stored_bytes (artifact_name a, row_for (artifact_bytes a)) = a) as -> by by destruct a.
      by rewrite Permutation_middle.
    + intros Hlaw. apply Hl. rewrite Hrows. by apply map_Forall_insert_2.
Qed.

(** What is read of the artifacts of an attempt is what was received. *)
Lemma artifacts_read_back contents received (rows : gmap string ArtifactRow) :
  receive_artifacts sha_bytes contents = Ok received → lawful rows →
  map stored_bytes (map_to_list rows) ≡ₚ contents →
  receive_artifacts sha_bytes (map stored_bytes (bt_iter rows)) = Ok received
  ∧ zip_differs received (bt_iter rows) = false.
Proof.
  intros Hrec Hlaw Hp.
  assert (Hb : receive_artifacts sha_bytes (map stored_bytes (bt_iter rows)) = Ok received).
  { eapply receive_perm; [|done]. by rewrite <-Hp, bt_iter_perm. }
  split; [done|]. apply receive_spec in Hb as (_ & _ & ->).
  assert (Hs : isort received_leb (map (receipt_of sha_bytes) (map stored_bytes (bt_iter rows)))
               = map (receipt_of sha_bytes) (map stored_bytes (bt_iter rows))).
  { apply (StronglySorted_unique_strong (λ a b, received_leb a b = true)).
    - intros x y Hx Hy H1 H2. rewrite elem_of_isort in Hx.
      apply list_elem_of_In, in_map_iff in Hx as (a & <- & Ha).
      apply list_elem_of_In, in_map_iff in Hy as (b & <- & Hb2).
      apply in_map_iff in Ha as (p & <- & Hpr). apply in_map_iff in Hb2 as (p2 & <- & Hpr2).
      assert (p.1 = p2.1) as Heq by by apply string_leb_antisym.
      f_equal. f_equal. apply (NoDup_fmap_eq fst (bt_iter rows)); [apply bt_iter_NoDup_keys|by apply list_elem_of_In..|done].
    - apply isort_sorted; [intros; apply string_leb_total|intros *; apply string_leb_trans].
    - pose proof (bt_iter_sorted rows) as Hsort. clear -Hsort.
      induction Hsort as [|x l Hl IH Hf]; simpl; [constructor|]. constructor; [done|].
      apply Forall_forall. intros y Hy. apply list_elem_of_In, in_map_iff in Hy as (a & <- & Ha).
      apply in_map_iff in Ha as (p & <- & Hpr). rewrite Forall_forall in Hf.
      by apply Hf, list_elem_of_In.
    - apply isort_perm. }
  rewrite Hs. unfold zip_differs. rewrite <-not_true_iff_false, existsb_exists. intros ([x p] & Hin & Hd).
  assert (x = receipt_of sha_bytes (stored_bytes p) ∧ p ∈ bt_iter rows) as [-> Hpin].
  { clear -Hin. induction (bt_iter rows) as [|q l IH]; simpl in *; [done|].
    destruct Hin as [[= <- <-]|Hin]; [split; [done|left]|]. destruct (IH Hin). by split; [|right]. }
  destruct p as [n row]. apply elem_of_bt_iter, Hlaw in Hpin. cbn in *.
  rewrite Hpin in Hd. cbn in Hd. by rewrite String.eqb_refl, N.eqb_refl in Hd.
Qed.

(** ** Well-formed tables *)

Record tables_ok (t : Tables) : Prop := {
  to_attempts id row : attempts t !! id = Some row → load_attempt t id = Ok (row_attempt row);
  to_keys id1 id2 r1 r2 : attempts t !! id1 = Some r1 → attempts t !! id2 = Some r2 →
    row_repository r1 = row_repository r2 → row_key r1 = row_key r2 → id1 = id2;
  to_ordinals id1 id2 r1 r2 : attempts t !! id1 = Some r1 → attempts t !! id2 = Some r2 →
    row_repository r1 = row_repository r2 → row_commit r1 = row_commit r2 →
    row_context r1 = row_context r2 → row_ordinal r1 = row_ordinal r2 → id1 = id2;
  to_outbox id e : attempt_outbox t !! id = Some e →
    ∃ row, attempts t !! id = Some row ∧ row_completed row = true;
  to_artifacts id : rows_of t id ≠ ∅ →
    ∃ row, attempts t !! id = Some row ∧ row_completed row = true;
  to_lawful id : lawful (rows_of t id);
  to_publishers id n row : publishers t !! (id, n) = Some row →
    load_publisher t id n = Ok (row_record row);
  to_revisions id n m : is_Some (publishers t !! (id, n)) → (1 ≤ m ≤ n)%N →
    is_Some (publishers t !! (id, m));
  to_digests k1 k2 r1 r2 : publishers t !! k1 = Some r1 → publishers t !! k2 = Some r2 →
    row_enrollment_sha256 r1 = row_enrollment_sha256 r2 → k1 = k2;
  to_trail : NoDup (map trail_id (trail t))
}.

Definition empty_tables : Tables :=
  {| attempts := ∅; artifacts := ∅; attempt_outbox := ∅; publishers := ∅; trail := [] |}.

Lemma empty_tables_ok : tables_ok empty_tables.
Proof.
  split; try by intros; simplify_map_eq. constructor.
Qed.

(** Reading an attempt asks for its own rows only. *)
Lemma load_attempt_ext t t' id :
  attempts t' !! id = attempts t !! id → rows_of t' id = rows_of t id →
  attempt_outbox t' !! id = attempt_outbox t !! id →
  (∀ row, attempts t !! id = Some row → attempt_id (row_attempt row) = id) →
  load_attempt t' id = load_attempt t id.
Proof.
  intros Ha Hr Ho Hid. unfold load_attempt. rewrite Ha. destruct (attempts t !! id) as [row|]; [|done].
  specialize (Hid row eq_refl).
  unfold check_artifacts, stored_artifacts, check_outbox. fold (rows_of t' (attempt_id (row_attempt row))).
  fold (rows_of t (attempt_id (row_attempt row))). by rewrite Hid, Hr, Ho.
Qed.

Lemma load_attempt_row t id a :
  load_attempt t id = Ok a →
  ∃ row, attempts t !! id = Some row ∧ a = row_attempt row ∧ attempt_id a = id
    ∧ validate_reservation (reservation a) = Ok tt ∧ row_inconsistent id row = false
    ∧ check_artifacts t a = Ok tt.
Proof.
  unfold load_attempt. destruct (attempts t !! id) as [row|]; [|done].
  destruct (validate_reservation _) as [[]|] eqn:Hv; [|done].
  destruct (row_inconsistent id row) eqn:Hi; [done|].
  destruct (check_artifacts t _) as [[]|] eqn:Hc; [|done]. intros [= <-].
  exists row. split_and!; try done.
  unfold row_inconsistent in Hi. repeat (apply orb_false_iff in Hi as [Hi _]).
  by apply negb_false_iff, N.eqb_eq in Hi.
Qed.

(** ** The moves keep them *)

Lemma rows_of_same t t' id : artifacts t' !! id = artifacts t !! id → rows_of t' id = rows_of t id.
Proof. unfold rows_of. by intros ->. Qed.

Lemma insert_trail_spec x t t' :
  insert_trail x t = Ok t' →
  attempts t' = attempts t ∧ artifacts t' = artifacts t ∧ attempt_outbox t' = attempt_outbox t
  ∧ publishers t' = publishers t ∧ trail t' = trail t ++ [x]
  ∧ (NoDup (map trail_id (trail t)) → NoDup (map trail_id (trail t'))).
Proof.
  unfold insert_trail. destruct (existsb _ _) eqn:He; [done|]. intros [= <-]. split_and!; try done.
  intros Hn. cbn. rewrite map_app. apply NoDup_app. split; [done|]. split; [|apply NoDup_singleton].
  intros i Hi ->%list_elem_of_singleton. apply list_elem_of_In, in_map_iff in Hi as (y & Hy & Hin).
  rewrite <-not_true_iff_false, existsb_exists in He. apply He. exists y. split; [done|].
  by apply N.eqb_eq.
Qed.

Lemma insert_attempt_spec id row t t' :
  insert_attempt id row t = Ok t' →
  attempts t !! id = None ∧ t' = set_attempts (<[id := row]> (attempts t)) t
  ∧ ∀ id' row', attempts t !! id' = Some row' → row_repository row' = row_repository row →
      row_key row' ≠ row_key row
      ∧ (row_commit row' = row_commit row → row_context row' = row_context row →
         row_ordinal row' ≠ row_ordinal row).
Proof.
  unfold insert_attempt. destruct (_ || _) eqn:Hc; [done|]. intros [= <-].
  apply orb_false_iff in Hc as [[Hn%bool_decide_eq_false_1 _]%orb_false_iff Hr].
  apply eq_None_not_Some in Hn. split; [done|]. split; [done|]. intros id' row' Hrow Heq.
  rewrite <-not_true_iff_false, existsb_exists in Hr.
  split.
  - intros Hk. apply Hr. exists (id', row'). split; [by apply list_elem_of_In, elem_of_map_to_list|].
    cbn. by rewrite Heq, Hk, N.eqb_refl, String.eqb_refl.
  - intros Hcm Hcx Ho. apply Hr. exists (id', row').
    split; [by apply list_elem_of_In, elem_of_map_to_list|].
    cbn. by rewrite Heq, Hcm, Hcx, Ho, !N.eqb_refl, !String.eqb_refl, orb_true_r.
Qed.

Lemma next_ordinal_spec t b n :
  next_ordinal t b = Some n →
  (1 ≤ n ≤ MAX_SAFE_INTEGER)%N
  ∧ ∀ id row, attempts t !! id = Some row →
      of_source (binding_repository b) (binding_commit b) (binding_context b) row = true →
      (row_ordinal row < n)%N.
Proof.
  unfold next_ordinal. destruct (checked_add _ _ _) as [k|] eqn:Ha; [|done].
  apply checked_add_Some in Ha as [-> _]. destruct (N.leb_spec (max_ordinal t b + 1) MAX_SAFE_INTEGER); [|done].
  intros [= <-]. split; [lia|]. intros id row Hrow Hs.
  enough (row_ordinal row ≤ max_ordinal t b)%N by lia. unfold max_ordinal.
  assert (Hin : (id, row) ∈ filter (λ x, of_source (binding_repository b) (binding_commit b)
                              (binding_context b) x.2 = true) (attempt_rows t)).
  { apply list_elem_of_filter. split; [done|]. by apply elem_of_map_to_list. }
  revert Hin. generalize (filter (λ x, of_source (binding_repository b) (binding_commit b)
                              (binding_context b) x.2 = true) (attempt_rows t)) as l.
  induction l as [|y l IH]; intros Hin; [by apply not_elem_of_nil in Hin|].
  apply elem_of_cons in Hin as [<-|Hin]; simpl; [lia|]. specialize (IH Hin). lia.
Qed.

Lemma same_key_fresh t r :
  find_first (same_key r) (attempt_rows t) = None →
  ∀ id row, attempts t !! id = Some row → row_repository row = binding_repository (binding r) →
    row_key row ≠ idempotency_key r.
Proof.
  intros Hf id row Hrow Hrepo Hk. rewrite find_first_None, Forall_forall in Hf.
  specialize (Hf (id, row)). unfold same_key in Hf. cbn in Hf.
  rewrite Hrepo, Hk, N.eqb_refl, String.eqb_refl in Hf.
  by specialize (Hf (proj2 (elem_of_map_to_list _ _ _) Hrow)).
Qed.

Lemma no_rows_unknown t id : tables_ok t → attempts t !! id = None → rows_of t id = ∅.
Proof.
  intros Hok Hn. destruct (decide (rows_of t id = ∅)) as [|Hne]; [done|].
  destruct (to_artifacts t Hok id Hne) as (row & Hrow & _). congruence.
Qed.

Lemma attempt_id_ok t id row : tables_ok t → attempts t !! id = Some row → attempt_id (row_attempt row) = id.
Proof.
  intros Hok Hrow. pose proof (to_attempts t Hok _ _ Hrow) as Hl.
  apply load_attempt_row in Hl as (? & _ & _ & Hid & _). done.
Qed.

Lemma load_attempt_same t t' id row :
  tables_ok t → attempts t !! id = Some row → attempts t' !! id = Some row →
  rows_of t' id = rows_of t id → attempt_outbox t' !! id = attempt_outbox t !! id →
  load_attempt t' id = Ok (row_attempt row).
Proof.
  intros Hok H1 H2 H3 H4. rewrite (load_attempt_ext t t'); [by apply to_attempts|congruence|done|done|].
  intros row' H5. rewrite H1 in H5. injection H5 as <-. by eapply attempt_id_ok.
Qed.

Lemma bt_iter_empty {X} : bt_iter (∅ : gmap string X) = [].
Proof. unfold bt_iter. by rewrite map_to_list_empty. Qed.

(** A row that was made from its attempt agrees with it. *)
Lemma row_of_consistent a :
  (1 ≤ ordinal a ≤ MAX_SAFE_INTEGER)%N → is_nil_uuid (attempt_audit a) = false →
  reservation_sha256 a = sha_reservation (reservation a) →
  dt_leb (reservation_expires_at (reservation a)) (reserved_at a) = false →
  completion_inconsistent a = false → row_inconsistent (attempt_id a) (row_of a) = false.
Proof.
  intros Ho Ha Hs Hw Hc. unfold row_inconsistent. cbn.
  rewrite Ha, Hs, Hw, Hc, !N.eqb_refl, !String.eqb_refl, (bool_decide_eq_true_2 (reservation a = reservation a)) by done.
  rewrite eqb_reflx. rewrite (proj2 (N.eqb_neq (ordinal a) 0)) by lia.
  by rewrite (proj2 (N.ltb_ge MAX_SAFE_INTEGER (ordinal a))) by lia.
Qed.

(** What it takes to be read back. *)
Record attempt_sound (a : DurableRequiredAttempt) : Prop := {
  as_valid : validate_reservation (reservation a) = Ok tt;
  as_ordinal : (1 ≤ ordinal a ≤ MAX_SAFE_INTEGER)%N;
  as_audit : is_nil_uuid (attempt_audit a) = false;
  as_digest : reservation_sha256 a = sha_reservation (reservation a);
  as_window : dt_leb (reservation_expires_at (reservation a)) (reserved_at a) = false;
  as_completion : completion_inconsistent a = false
}.

Lemma row_inconsistent_inv id row :
  row_inconsistent id row = false →
  let a := row_attempt row in
  attempt_id a = id ∧ row = row_of a ∧ (validate_reservation (reservation a) = Ok tt → attempt_sound a).
Proof.
  unfold row_inconsistent. intros H. do 13 (apply orb_false_iff in H as [H ?]).
  repeat match goal with
  | H : negb _ = false |- _ => apply negb_false_iff in H
  | H : (_ =? _)%N = true |- _ => apply N.eqb_eq in H
  | H : (_ =? _)%N = false |- _ => apply N.eqb_neq in H
  | H : (_ <? _)%N = false |- _ => apply N.ltb_ge in H
  | H : String.eqb _ _ = true |- _ => apply String.eqb_eq in H
  | H : bool_decide _ = true |- _ => apply bool_decide_eq_true_1 in H
  | H : Bool.eqb _ _ = true |- _ => apply eqb_prop in H
  end.
  cbv zeta. split; [done|]. split.
  - unfold row_of. destruct row; cbn in *; congruence.
  - intros Hv. split; try done; [lia|congruence].
Qed.

Lemma load_attempt_inv t id a :
  load_attempt t id = Ok a →
  attempt_id a = id ∧ attempts t !! id = Some (row_of a) ∧ attempt_sound a ∧ check_artifacts t a = Ok tt.
Proof.
  intros (row & Hrow & -> & Hid & Hv & Hi & Hc)%load_attempt_row.
  apply row_inconsistent_inv in Hi as (_ & Heq & Hs). split; [done|]. rewrite <-Heq. auto.
Qed.

Lemma load_attempt_intro t id a :
  attempt_id a = id → attempts t !! id = Some (row_of a) → attempt_sound a →
  check_artifacts t a = Ok tt → load_attempt t id = Ok a.
Proof.
  intros <- Ha [Hv Ho Hn Hs Hw Hc] Hchk. unfold load_attempt. rewrite Ha. cbn.
  by rewrite Hv, row_of_consistent, Hchk.
Qed.

Record moved_to (t : Tables) (id : Uuid) (row : AttemptRow) (t' : Tables) : Prop := {
  mv_attempts : attempts t' = <[id := row]> (attempts t);
  mv_artifacts id' : id' ≠ id → rows_of t' id' = rows_of t id';
  mv_outbox id' : id' ≠ id → attempt_outbox t' !! id' = attempt_outbox t !! id';
  mv_publishers : publishers t' = publishers t;
  mv_trail : NoDup (map trail_id (trail t)) → NoDup (map trail_id (trail t'))
}.

(** Writing one row keeps the tables well formed where the row reads back and has a key and
    an ordinal of its own. *)
Lemma moved_to_ok t id row t' :
  tables_ok t → moved_to t id row t' →
  load_attempt t' id = Ok (row_attempt row) →
  (∀ id' row', id' ≠ id → attempts t !! id' = Some row' → row_repository row' = row_repository row →
     row_key row' ≠ row_key row ∧ (row_commit row' = row_commit row → row_context row' = row_context row →
       row_ordinal row' ≠ row_ordinal row)) →
  (row_completed row = true ∨ attempts t !! id = None ∧ rows_of t' id = ∅ ∧ attempt_outbox t' !! id = None) →
  lawful (rows_of t' id) → tables_ok t'.
Proof.
  intros Hok [Ha Hr Ho Hp Ht] Hload Hnew Hdone Hlaw.
  assert (Hother : ∀ id', id' ≠ id → attempts t' !! id' = attempts t !! id').
  { intros id' Hne. by rewrite Ha, lookup_insert_ne. }
  assert (Hhere : attempts t' !! id = Some row) by by rewrite Ha, lookup_insert_eq.
  split.
  - intros id' row' Hrow. destruct (decide (id' = id)) as [->|Hne].
    + rewrite Hhere in Hrow. by injection Hrow as <-.
    + pose proof Hrow as Hold. rewrite Hother in Hold by done.
      apply (load_attempt_same t); auto.
  - intros id1 id2 r1 r2 H1 H2 Hrepo Hkey. rewrite Ha in H1, H2.
    rewrite lookup_insert_Some in H1, H2. destruct H1 as [[<- <-]|[N1 H1]], H2 as [[<- <-]|[N2 H2]].
    + done.
    + by destruct (Hnew _ _ (not_eq_sym N2) H2 (eq_sym Hrepo)).
    + by destruct (Hnew _ _ (not_eq_sym N1) H1 Hrepo).
    + by eapply to_keys.
  - intros id1 id2 r1 r2 H1 H2 Hrepo Hc Hx Hn. rewrite Ha in H1, H2.
    rewrite lookup_insert_Some in H1, H2. destruct H1 as [[<- <-]|[N1 H1]], H2 as [[<- <-]|[N2 H2]].
    + done.
    + by destruct (proj2 (Hnew _ _ (not_eq_sym N2) H2 (eq_sym Hrepo))).
    + by destruct (proj2 (Hnew _ _ (not_eq_sym N1) H1 Hrepo)).
    + by eapply to_ordinals.
  - intros id' e He. destruct (decide (id' = id)) as [->|Hne].
    + exists row. split; [done|]. destruct Hdone as [|(_ & _ & Hn)]; [done|congruence].
    + rewrite Ho in He by done. destruct (to_outbox t Hok _ _ He) as (row' & H1 & H2).
      exists row'. by rewrite Hother.
  - intros id' He. destruct (decide (id' = id)) as [->|Hne].
    + exists row. split; [done|]. by destruct Hdone as [|(_ & Hn & _)].
    + rewrite Hr in He by done. destruct (to_artifacts t Hok _ He) as (row' & H1 & H2).
      exists row'. by rewrite Hother.
  - intros id'. destruct (decide (id' = id)) as [->|Hne]; [done|].
    rewrite Hr by done. by apply to_lawful.
  - intros pid n prow. rewrite Hp. intros H1. pose proof (to_publishers t Hok _ _ _ H1) as H2.
    revert H2. unfold load_publisher. by rewrite Hp.
  - rewrite Hp. apply (to_revisions t Hok).
  - rewrite Hp. apply (to_digests t Hok).
  - by apply Ht, to_trail.
Qed.

End rows.

Section preservation.
Context `{E : ForgeEnv} `{V : !ReviewEnv} `{R : !RequiredEnv} {U : UuidSpec}.

Lemma reserved_moved t r now a t' :
  tables_ok t → attempt_reserved t r now a t' →
  attempts t !! attempt_id a = None ∧ moved_to t (attempt_id a) (row_of a) t'
  ∧ artifacts t' = artifacts t ∧ attempt_outbox t' = attempt_outbox t
  ∧ ∀ id' row', attempts t !! id' = Some row' → row_repository row' = row_repository (row_of a) →
     row_key row' ≠ row_key (row_of a) ∧ (row_commit row' = row_commit (row_of a) →
       row_context row' = row_context (row_of a) → row_ordinal row' ≠ row_ordinal (row_of a)).
Proof.
  intros Hok [_ _ _ _ _ (t1 & Hi & Ht)].
  apply insert_attempt_spec in Hi as (Hn & -> & Hnew).
  apply insert_trail_spec in Ht as (T1 & T2 & T3 & T4 & T5 & T6). cbn in *.
  split; [done|]. split; [|by split_and!]. split; try done.
  - intros id' _. apply rows_of_same. by rewrite T2.
  - intros id' _. by rewrite T3.
Qed.

Lemma reserved_loads t r now a t' :
  tables_ok t → attempt_reserved t r now a t' → load_attempt t' (attempt_id a) = Ok a.
Proof.
  intros Hok Hres. destruct (reserved_moved _ _ _ _ _ Hok Hres) as (Hn & [Ha _ _ _ _] & Har & _ & _).
  destruct Hres as [_ Hv Hw Ho (n & m & Hnew) _].
  assert (Hr : reservation a = r) by by rewrite Hnew.
  assert (Hc : completion a = None) by by rewrite Hnew.
  apply load_attempt_intro; [done|by rewrite Ha, lookup_insert_eq|split|].
  - by rewrite Hr.
  - apply next_ordinal_spec in Ho as [? _]. done.
  - rewrite Hnew. apply uuid_not_nil.
  - by rewrite Hr, Hnew.
  - rewrite Hr. by rewrite Hnew.
  - by rewrite Hnew.
  - unfold check_artifacts. rewrite Hc. unfold stored_artifacts.
    fold (rows_of t' (attempt_id a)). rewrite (rows_of_same t t') by by rewrite Har.
    by rewrite (no_rows_unknown t), bt_iter_empty.
Qed.

Lemma reserved_ok t r now a t' : tables_ok t → attempt_reserved t r now a t' → tables_ok t'.
Proof.
  intros Hok Hres. destruct (reserved_moved _ _ _ _ _ Hok Hres) as (Hn & Hmv & Har & Hbox & Hnew).
  assert (Hr : rows_of t' (attempt_id a) = ∅).
  { rewrite (rows_of_same t t') by by rewrite Har. by apply no_rows_unknown. }
  eapply moved_to_ok; [done|done|by eapply reserved_loads|by intros id' row' _; apply Hnew| |].
  - right. split; [done|]. split; [done|]. rewrite Hbox.
    destruct (attempt_outbox t !! attempt_id a) as [e|] eqn:He; [|done].
    destruct (to_outbox t Hok _ _ He) as (row & Hrow & _). congruence.
  - rewrite Hr. apply map_Forall_empty.
Qed.

Lemma update_attempt_spec id a b t t' :
  attempts t !! id = Some (row_of a) → completion a = None →
  update_attempt id (with_completion a b) t = Ok t' →
  t' = set_attempts (<[id := row_of (with_completion a b)]> (attempts t)) t.
Proof.
  unfold update_attempt. intros -> Hc. cbn. rewrite Hc, bool_decide_eq_false_2 by by intros [].
  by intros [= <-].
Qed.

Lemma insert_event_inv id e t t' :
  insert_attempt_event id e t = Ok t' →
  attempt_outbox t !! id = None ∧ t' = set_outbox (<[id := e]> (attempt_outbox t)) t.
Proof.
  unfold insert_attempt_event. destruct (_ || _) eqn:Hc; [done|]. intros [= <-].
  apply orb_false_iff in Hc as [Hn%bool_decide_eq_false_1 _]. by apply eq_None_not_Some in Hn.
Qed.

(** A receipt that was received is the one of its artifact. *)
Lemma received_receipts contents received a x :
  receive_artifacts sha_bytes contents = Ok received → a ∈ contents → x ∈ received →
  received_name x = artifact_name a → x = receipt_of sha_bytes a.
Proof.
  intros (_ & (_ & Hn & _) & ->)%receive_spec Ha Hx Hname. rewrite elem_of_isort in Hx.
  apply list_elem_of_In, in_map_iff in Hx as (b & <- & Hb). cbn in Hname. f_equal.
  apply (NoDup_fmap_eq artifact_name contents); [done|by apply list_elem_of_In|done|done].
Qed.

Lemma completed_moved t id contents a x t' :
  tables_ok t → attempt_completed t id contents a x t' →
  attempt_id a = id ∧ attempts t !! id = Some (row_of a)
  ∧ moved_to t id (row_of (with_completion a x)) t'
  ∧ lawful (rows_of t' id) ∧ map stored_bytes (map_to_list (rows_of t' id)) ≡ₚ contents
  ∧ attempt_outbox t' !! id
    = Some {| event_row := completion_event x;
              event_row_repository := binding_repository (binding (reservation a));
              event_attempt := with_completion a x |}.
Proof.
  intros Hok [Hl Hp Hrec _ _ Hw]. apply load_attempt_inv in Hl as (Hid & Ha & _ & Hchk).
  assert (Hempty : rows_of t id = ∅).
  { destruct (decide (rows_of t id = ∅)) as [|Hne]; [done|].
    destruct (to_artifacts t Hok id Hne) as (row & Hrow & Hdone). rewrite Ha in Hrow.
    injection Hrow as <-. cbn in Hdone. rewrite Hp in Hdone. by apply bool_decide_eq_true_1 in Hdone as []. }
  unfold write_completion in Hw.
  destruct (insert_artifacts id _ _ t) as [t1|] eqn:H1; [|done].
  apply insert_artifacts_spec in H1 as ([A1 A2 A3 A4 A5] & Hperm & Hlaw);
    [|intros b y; by eapply received_receipts].
  destruct (update_attempt id _ t1) as [t2|] eqn:H2; [|done].
  apply update_attempt_spec in H2 as ->; [|by rewrite A1|done].
  destruct (insert_trail _ _) as [t3|] eqn:H3; [|done].
  apply insert_trail_spec in H3 as (T1 & T2 & T3 & T4 & T5 & T6).
  apply insert_event_inv in Hw as (Hnone & ->). cbn in *.
  assert (Hrows : rows_of t3 id = rows_of t1 id) by by apply rows_of_same; rewrite T2.
  split; [done|]. split; [done|]. split; [|split; [|split]].
  - split; cbn.
    + by rewrite T1, A1.
    + intros id' Hne. apply rows_of_same. cbn. rewrite T2. by apply A5.
    + intros id' Hne. rewrite lookup_insert_ne by done. by rewrite T3, A2.
    + by rewrite T4, A3.
    + intros Hn. apply T6. by rewrite A4.
  - change (lawful (rows_of t3 id)). rewrite Hrows. apply Hlaw. rewrite Hempty. apply map_Forall_empty.
  - change (map stored_bytes (map_to_list (rows_of t3 id)) ≡ₚ contents).
    rewrite Hrows, Hperm, Hempty, map_to_list_empty. by rewrite app_nil_r.
  - apply lookup_insert_eq.
Qed.

Lemma completed_loads t id contents a x t' :
  tables_ok t → attempt_completed t id contents a x t' → load_attempt t' id = Ok (with_completion a x).
Proof.
  intros Hok Hdone. destruct (completed_moved _ _ _ _ _ _ Hok Hdone) as (Hid & Ha & [Hm _ _ _ _] & Hlaw & Hperm & Hbox).
  destruct Hdone as [Hl Hp Hrec [Hw1 Hw2] (n & m & Hn & Hmm) _].
  apply load_attempt_inv in Hl as (_ & _ & [] & _).
  apply load_attempt_intro; [done|by rewrite Hm, lookup_insert_eq|split; try done|].
  - unfold completion_inconsistent. cbn. rewrite Hw1, Hw2, Hn, Hmm. by rewrite !uuid_not_nil.
  - unfold check_artifacts. cbn. unfold stored_artifacts. rewrite Hid. fold (rows_of t' id).
    destruct (artifacts_read_back contents _ _ Hrec Hlaw Hperm) as [-> ->].
    rewrite bool_decide_eq_true_2 by done. cbn. unfold check_outbox. cbn. rewrite Hid, Hbox. cbn.
    by rewrite !N.eqb_refl, bool_decide_eq_true_2.
Qed.

Lemma completed_ok t id contents a x t' :
  tables_ok t → attempt_completed t id contents a x t' → tables_ok t'.
Proof.
  intros Hok Hdone. destruct (completed_moved _ _ _ _ _ _ Hok Hdone) as (Hid & Ha & Hmv & Hlaw & Hperm & Hbox).
  eapply moved_to_ok; [done|done|by eapply completed_loads| |by left|done].
  intros id' row' Hne Hrow Hrepo. split.
  - intros Hk. apply Hne. by eapply to_keys.
  - intros Hc Hx Ho. apply Hne. by eapply to_ordinals.
Qed.

(** ** Publishers *)

Lemma elem_of_revisions t id n : n ∈ revisions t id ↔ is_Some (publishers t !! (id, n)).
Proof.
  unfold revisions. split.
  - intros (([i m] & row) & <- & Hin)%list_elem_of_In%in_map_iff.
    apply list_elem_of_In, list_elem_of_filter in Hin as [Hi Hm]. cbn in *. subst.
    apply elem_of_map_to_list in Hm. by eexists.
  - intros [row Hrow]. apply list_elem_of_In, in_map_iff. exists (id, n, row). split; [done|].
    apply list_elem_of_In, list_elem_of_filter. split; [done|]. by apply elem_of_map_to_list.
Qed.

Lemma max_last_N l n : max_last N.leb l = Some n → n ∈ l ∧ ∀ m, m ∈ l → (m ≤ n)%N.
Proof.
  intros Hm. apply max_last_Some in Hm as (l1 & l2 & -> & H1 & H2).
  - split; [apply elem_of_app; right; left|]. intros m. rewrite elem_of_app, elem_of_cons.
    rewrite Forall_forall in H1, H2. intros [Hm|[->|Hm]]; [by apply N.leb_le, H1|done|].
    apply H2, N.leb_gt in Hm. lia.
  - intros a b. destruct (N.leb_spec a b); [by left|right]. apply N.leb_le. lia.
  - intros a b c Hab%N.leb_le Hbc%N.leb_le. apply N.leb_le. lia.
Qed.

(** The latest enrollment of a publisher is the one no other comes after. *)
Lemma latest_Some t id p :
  latest t id = Ok (Some p) ↔
  ∃ n, load_publisher t id n = Ok p ∧ is_Some (publishers t !! (id, n))
    ∧ ∀ m, is_Some (publishers t !! (id, m)) → (m ≤ n)%N.
Proof.
  unfold latest. destruct (max_last N.leb (revisions t id)) as [n|] eqn:Hm.
  - apply max_last_N in Hm as [Hin Hmax]. rewrite elem_of_revisions in Hin.
    setoid_rewrite elem_of_revisions in Hmax. split.
    + destruct (load_publisher t id n) as [q|] eqn:Hl; [|done]. intros [= <-]. by exists n.
    + intros (k & Hl & Hk & Hkm). assert (k = n) as -> by (apply N.le_antisymm; auto).
      by rewrite Hl.
  - apply max_last_None in Hm. split; [done|]. intros (k & _ & Hk%elem_of_revisions & _).
    rewrite Hm in Hk. by apply not_elem_of_nil in Hk.
Qed.

Lemma latest_None t id : latest t id = Ok None → ∀ n, publishers t !! (id, n) = None.
Proof.
  unfold latest. destruct (max_last N.leb (revisions t id)) as [n|] eqn:Hm.
  - by destruct (load_publisher t id n).
  - apply max_last_None in Hm. intros _ n. apply eq_None_not_Some.
    rewrite <-elem_of_revisions, Hm. apply not_elem_of_nil.
Qed.

(** What it takes for a publisher to be read back. *)
Record publisher_sound (p : DurableRequiredPublisher) : Prop := {
  ps_valid : validate_enrollment (enrollment p) = Ok tt;
  ps_revocation : check_revocation p = Ok tt;
  ps_digest : enrollment_sha256 p = sha_enrollment (enrollment p);
  ps_operation : is_nil_uuid (installation_operation p) = false;
  ps_audit : is_nil_uuid (publisher_audit p) = false;
  ps_window : dt_ltb (installed_at p) (issued_at (enrollment p)) = false
              ∧ dt_leb (enrollment_expires_at (enrollment p)) (installed_at p) = false
}.

Lemma load_publisher_spec t id n p :
  load_publisher t id n = Ok p ↔
  publisher_id (enrollment p) = id ∧ revision (enrollment p) = n
  ∧ publishers t !! (id, n) = Some (publisher_row p) ∧ publisher_sound p.
Proof.
  unfold load_publisher. split.
  - destruct (publishers t !! (id, n)) as [row|]; [|done].
    destruct (validate_enrollment _) as [[]|] eqn:Hv; [|done].
    destruct (check_revocation _) as [[]|] eqn:Hc; [|done].
    destruct (publisher_inconsistent id n row) eqn:Hi; [done|]. intros [= <-].
    unfold publisher_inconsistent in Hi. do 9 (apply orb_false_iff in Hi as [Hi ?]).
    repeat match goal with
    | H : negb _ = false |- _ => apply negb_false_iff in H
    | H : (_ =? _)%N = true |- _ => apply N.eqb_eq in H
    | H : String.eqb _ _ = true |- _ => apply String.eqb_eq in H
    | H : Bool.eqb _ _ = true |- _ => apply eqb_prop in H
    end.
    split; [done|]. split; [done|]. split; [|split; try done; congruence].
    f_equal. unfold publisher_row. destruct row; cbn in *; congruence.
  - intros (<- & <- & -> & [Hv Hc Hd Ho Ha [Hw1 Hw2]]). cbn. rewrite Hv, Hc.
    unfold publisher_inconsistent. cbn.
    by rewrite <-Hd, Ho, Ha, Hw1, Hw2, !N.eqb_refl, !String.eqb_refl, eqb_reflx.
Qed.

Lemma attempts_untouched_ok t t' :
  tables_ok t → attempts t' = attempts t → artifacts t' = artifacts t →
  attempt_outbox t' = attempt_outbox t →
  (∀ id n row, publishers t' !! (id, n) = Some row → load_publisher t' id n = Ok (row_record row)) →
  (∀ id n m, is_Some (publishers t' !! (id, n)) → (1 ≤ m ≤ n)%N → is_Some (publishers t' !! (id, m))) →
  (∀ k1 k2 r1 r2, publishers t' !! k1 = Some r1 → publishers t' !! k2 = Some r2 →
     row_enrollment_sha256 r1 = row_enrollment_sha256 r2 → k1 = k2) →
  NoDup (map trail_id (trail t')) → tables_ok t'.
Proof.
  intros Hok Ha Hr Ho H1 H2 H3 H4.
  assert (Hrows : ∀ id, rows_of t' id = rows_of t id) by (intros id; apply rows_of_same; by rewrite Hr).
  split; try done; rewrite ?Ha, ?Ho.
  - intros id row Hrow. apply (load_attempt_same t); [done|done|by rewrite Ha|done|by rewrite Ho].
  - apply (to_keys t Hok).
  - apply (to_ordinals t Hok).
  - apply (to_outbox t Hok).
  - intros id. rewrite Hrows. apply (to_artifacts t Hok).
  - intros id. rewrite Hrows. apply (to_lawful t Hok).
Qed.

Lemma follows_revision prior previous e :
  follows prior previous e = true →
  match prior with
  | None => revision e = 1%N
  | Some p => revision e = (revision (enrollment p) + 1)%N
  end.
Proof.
  unfold follows. destruct prior as [p|], previous as [d|]; try done; [|by intros ?%N.eqb_eq].
  intros [_ H%bool_decide_eq_true_1]%andb_prop. by apply checked_add_Some in H as [-> _].
Qed.

Lemma installed_tables t e previous operation now p t' :
  publisher_installed t e previous operation now p t' →
  enrollment p = e ∧ publishers t !! (publisher_id e, revision e) = None
  ∧ publishers t' = <[(publisher_id e, revision e) := publisher_row p]> (publishers t)
  ∧ attempts t' = attempts t ∧ artifacts t' = artifacts t ∧ attempt_outbox t' = attempt_outbox t
  ∧ (NoDup (map trail_id (trail t)) → NoDup (map trail_id (trail t')))
  ∧ ∀ k row, publishers t !! k = Some row → row_enrollment_sha256 row ≠ enrollment_sha256 p.
Proof.
  intros [_ _ _ _ (n & Hp) (t1 & Hi & Ht)].
  assert (He : enrollment p = e) by by rewrite Hp.
  unfold insert_publisher in Hi. cbn in Hi. rewrite He in Hi. destruct (_ || _) eqn:Hc in Hi; [done|].
  injection Hi as <-. apply insert_trail_spec in Ht as (T1 & T2 & T3 & T4 & T5 & T6). cbn in *.
  apply orb_false_iff in Hc as [[[Hn%bool_decide_eq_false_1 _]%orb_false_iff _]%orb_false_iff Hr].
  apply eq_None_not_Some in Hn. split_and!; try done. intros k row Hrow Heq.
  rewrite <-not_true_iff_false, existsb_exists in Hr. apply Hr. exists (k, row).
  split; [by apply list_elem_of_In, elem_of_map_to_list|]. cbn. by rewrite Heq, String.eqb_refl.
Qed.

Lemma installed_ok t e previous operation now p t' :
  tables_ok t → publisher_installed t e previous operation now p t' → tables_ok t'.
Proof.
  intros Hok Hin. destruct (installed_tables _ _ _ _ _ _ _ Hin) as (He & Hn & Hp & Ha & Hr & Ho & Ht & Hd).
  destruct Hin as [Hv Hop Hw (prior & Hl & Hf%follows_revision) (k & Hnew) _].
  assert (Hrec : row_record (publisher_row p) = p) by done.
  assert (Hsound : publisher_sound p).
  { rewrite Hnew. split; try done. cbn. apply uuid_not_nil. }
  apply (attempts_untouched_ok t); try done; [| | |by apply Ht, to_trail].
  - intros id n row Hrow. apply load_publisher_spec. rewrite Hp in *.
    rewrite lookup_insert_Some in Hrow. destruct Hrow as [[[= <- <-] <-]|[Hne Hrow]].
    + cbn. by rewrite lookup_insert_eq, He.
    + rewrite lookup_insert_ne by done. by apply load_publisher_spec, to_publishers.
  - intros id n m. rewrite Hp, !lookup_insert_is_Some.
    destruct (decide ((publisher_id e, revision e) = (id, m))) as [|Hne]; [by left|].
    intros [[= <- <-]|[_ Hs]] Hm; right; (split; [done|]).
    + destruct prior as [q|].
      * apply latest_Some in Hl as (j & Hj & Hs & _). apply load_publisher_spec in Hj as (_ & Hq & _).
        eapply to_revisions; [done|done|]. assert (m ≠ revision e) by congruence. lia.
      * assert (m = revision e) by lia. congruence.
    + by eapply to_revisions.
  - intros k1 k2 r1 r2. rewrite Hp, !lookup_insert_Some.
    intros [[<- <-]|[N1 H1]] [[<- <-]|[N2 H2]] Heq; [done| | |by eapply to_digests].
    + by destruct (Hd _ _ H2).
    + by destruct (Hd _ _ H1).
Qed.

Lemma revoked_tables t id v p t' :
  publisher_revoked t id v p t' →
  publisher_id (enrollment p) = id
  ∧ publishers t !! (id, revision (enrollment p)) = Some (publisher_row p)
  ∧ publishers t' = <[(id, revision (enrollment p)) := publisher_row (with_revocation p v)]> (publishers t)
  ∧ attempts t' = attempts t ∧ artifacts t' = artifacts t ∧ attempt_outbox t' = attempt_outbox t
  ∧ (NoDup (map trail_id (trail t)) → NoDup (map trail_id (trail t'))) ∧ publisher_sound p.
Proof.
  intros [Hl Hr _ _ _ (t1 & Hu & Ht)]. apply latest_Some in Hl as (n & Hload & _ & _).
  apply load_publisher_spec in Hload as (Hid & <- & Hrow & Hs).
  unfold update_publisher in Hu. cbn in Hu. rewrite Hrow in Hu. cbn in Hu.
  rewrite Hr in Hu. rewrite bool_decide_eq_false_2 in Hu by by intros []. injection Hu as <-.
  apply insert_trail_spec in Ht as (T1 & T2 & T3 & T4 & T5 & T6). cbn in *.
  split_and!; try done.
Qed.

Lemma revoked_ok t id v p t' : tables_ok t → publisher_revoked t id v p t' → tables_ok t'.
Proof.
  intros Hok Hrev. destruct (revoked_tables _ _ _ _ _ Hrev) as (Hid & Hrow & Hp & Ha & Hr & Ho & Ht & Hs).
  destruct Hrev as [_ _ Hact Hreason Hafter _].
  assert (Hsound : publisher_sound (with_revocation p v)).
  { destruct Hs. split; try done. unfold check_revocation. cbn. by rewrite Hact, Hreason, Hafter. }
  apply (attempts_untouched_ok t); try done; [| | |by apply Ht, to_trail].
  - intros id' n row Hrow'. apply load_publisher_spec. rewrite Hp in *.
    rewrite lookup_insert_Some in Hrow'. destruct Hrow' as [[[= <- <-] <-]|[Hne Hrow']].
    + cbn. by rewrite lookup_insert_eq.
    + rewrite lookup_insert_ne by done. by apply load_publisher_spec, to_publishers.
  - intros id' n m. rewrite Hp, !lookup_insert_is_Some.
    destruct (decide ((id, revision (enrollment p)) = (id', m))) as [|Hne]; [by left|].
    intros Hn Hm. right. split; [done|]. eapply to_revisions; [done| |done].
    destruct Hn as [[= <- <-]|[_ Hn]]; [by eexists|done].
  - intros k1 k2 r1 r2. rewrite Hp, !lookup_insert_Some.
    intros [[<- <-]|[N1 H1]] [[<- <-]|[N2 H2]] Heq; [done| | |by eapply to_digests].
    + by eapply (to_digests t Hok _ _ _ _ Hrow H2).
    + by eapply (to_digests t Hok _ _ _ _ H1 Hrow).
Qed.

Lemma tmove_ok t t' : tables_ok t → tmove t t' → tables_ok t'.
Proof.
  intros Hok [->|r now a H|id cs a x H|e pr op now p H|id v p H];
    [done|by eapply reserved_ok|by eapply completed_ok|by eapply installed_ok|by eapply revoked_ok].
Qed.

End preservation.

(** * Histories *)

Section histories.
Context `{E : ForgeEnv} `{V : !ReviewEnv} `{R : !RequiredEnv} {U : UuidSpec}.

Inductive rcall : Type :=
  | RQ_Reserve (actor : AuthenticatedActor) (repository : Uuid) (q : ReserveRequiredAttemptRequest)
  | RQ_Complete (actor : AuthenticatedActor) (repository id : Uuid) (q : CompleteRequiredAttemptRequest)
  | RQ_Snapshot (actor : AuthenticatedActor) (repository : Uuid) (commit : string)
  | RQ_Attach (a : RequiredPublisherAuthority)
  | RQ_Custody
  | RQ_Install (e : RequiredPublisherEnrollment) (previous : option string) (operation : Uuid)
      (now : DateTime)
  | RQ_Revoke (id : Uuid) (digest : string) (v : RequiredPublisherRevocation).

Definition rserve (q : rcall) (c : AttemptCore) : AttemptCore :=
  match q with
  | RQ_Reserve a r q => (reserve_required_attempt a r q c).2
  | RQ_Complete a r id q => (complete_required_attempt a r id q c).2
  | RQ_Snapshot a r k => (required_attempt_snapshot a r k c).2
  | RQ_Attach a => (with_required_publisher_authority a c).2
  | RQ_Custody => (required_publisher_custody c).2
  | RQ_Install e d o t => (install_required_publisher e d o t c).2
  | RQ_Revoke id d v => (revoke_required_publisher id d v c).2
  end.

(** One call, or whatever the rest of the forge does to its own state meanwhile. *)
Inductive rstep (c c' : AttemptCore) : Prop :=
  | rs_call q : c' = rserve q c → rstep c c'
  | rs_forge k : c' = {| forge := k; tables := tables c; attached := attached c |} → rstep c c'.

Lemma qwp_run {X} (m : A X) Q c : qwp m Q c → Q (m c).1 (m c).2.
Proof. done. Qed.

Lemma attach_spec a c0 t c :
  at_att c0 t c → qwp (with_required_publisher_authority a) (λ _ c', tables c' = t) c.
Proof.
  intros Hc. assert (Hd : ∀ c', at_att c0 t c' → tables c' = t) by by intros c' [].
  unfold with_required_publisher_authority. repeat astep; auto.
  eapply qwp_custody_compare; [done|clear dependent c'; intros c' Hc'|by auto].
  repeat astep; auto. unfold qwp, attach. cbn. auto.
Qed.

Lemma custody_tables c : tables (required_publisher_custody c).2 = tables c.
Proof.
  unfold required_publisher_custody, abind, within, guard, bind, ask.
  destruct (process_error _); [done|]. cbn. destruct (stored (forge c)); [|done]. cbn.
  by destruct (custody_at _).
Qed.

Lemma rserve_move q c : tmove (tables c) (tables (rserve q c)).
Proof.
  destruct q as [a r q|a r id q|a r k|a| |e d o t|id d v]; simpl.
  - pose proof (qwp_run _ _ _ (reserve_spec a r q c c (at_begin c))) as H. cbv beta in H.
    destruct (reserve_required_attempt a r q c) as [[b|e] c']; cbn in *; [|by apply tm_same; destruct H].
    destruct H as (p & s & now & hd & key & _ & _ & _ & _ & [[[] _]|(t' & [_ _ <- _] & Hres)]);
      [by apply tm_same|by eapply tm_reserved].
  - pose proof (qwp_run _ _ _ (complete_attempt_spec a r id q c c (at_begin c))) as H. cbv beta in H.
    destruct (complete_required_attempt a r id q c) as [[b|e] c']; cbn in *; [|by apply tm_same; destruct H].
    destruct H as (a' & p & s & _ & _ & _ & _ & _ & _ & _ & _ & _ & [[[] _]|(t' & x & [_ _ <- _] & _ & Hd & _)]);
      [by apply tm_same|by eapply tm_completed].
  - pose proof (qwp_run _ _ _ (snapshot_spec a r k c c (at_begin c))) as [[] _]. by apply tm_same.
  - by apply tm_same, (qwp_run _ _ _ (attach_spec a c _ c (at_begin c))).
  - apply tm_same, custody_tables.
  - pose proof (qwp_run _ _ _ (install_spec e d o t c (tables c) c (at_begin c))) as H. cbv beta in H.
    destruct (install_required_publisher e d o t c) as [[b|er] c']; cbn in *; [|by apply tm_same; destruct H].
    destruct H as (_ & [[]|(t' & [_ _ <- _] & Hin)]); [by apply tm_same|by eapply tm_installed].
  - pose proof (qwp_run _ _ _ (revoke_spec id d v c (tables c) c (at_begin c))) as H. cbv beta in H.
    destruct (revoke_required_publisher id d v c) as [[b|er] c']; cbn in *; [|by apply tm_same; destruct H].
    destruct H as (_ & _ & [[[] _]|(t' & p & [_ _ <- _] & _ & Hrev)]); [by apply tm_same|by eapply tm_revoked].
Qed.

Lemma rstep_move c c' : rstep c c' → tmove (tables c) (tables c').
Proof. intros [q ->|k ->]; [apply rserve_move|by apply tm_same]. Qed.

(** A fact of the tables that the moves keep is kept by every history. *)
Lemma history_keeps (P : Tables → Prop) c c' :
  (∀ t t', tables_ok t → tmove t t' → P t → P t') →
  tables_ok (tables c) → rtc rstep c c' → P (tables c) → tables_ok (tables c') ∧ P (tables c').
Proof.
  intros Hkeep Hok Hr HP. induction Hr as [c|c c1 c2 Hs%rstep_move _ IH]; [done|].
  apply IH; [by eapply tmove_ok|by eapply Hkeep].
Qed.

(** What may become of an attempt. *)
Definition attempt_later (a a' : DurableRequiredAttempt) : Prop :=
  a' = a ∨ completion a = None ∧ ∃ x, a' = with_completion a x
    ∧ dt_ltb (completed_at x) (reserved_at a) = false
    ∧ dt_leb (reservation_expires_at (reservation a)) (completed_at x) = false.

Lemma attempt_later_trans a1 a2 a3 : attempt_later a1 a2 → attempt_later a2 a3 → attempt_later a1 a3.
Proof.
  intros [->|(H1 & x & -> & Hx)]; [done|]. intros [->|(H2 & _)]; [by right; split; [|exists x]|done].
Qed.

Lemma load_kept t t' id a :
  tables_ok t → tmove t t' → load_attempt t id = Ok a →
  ∃ a', load_attempt t' id = Ok a' ∧ attempt_later a a'.
Proof.
  intros Hok Hm Hl. pose proof (load_attempt_inv _ _ _ Hl) as (Hid & Hrow & _ & _).
  assert (Hother : ∀ i row t2, moved_to t i row t2 → id ≠ i → load_attempt t2 id = Ok a).
  { intros i row t2 [M1 M2 M3 _ _] Hne.
    change a with (row_attempt (row_of a)). apply (load_attempt_same t); [done|done| | |].
    - by rewrite M1, lookup_insert_ne.
    - by apply M2.
    - by apply M3. }
  assert (Hsame : attempts t' = attempts t → artifacts t' = artifacts t →
                  attempt_outbox t' = attempt_outbox t → load_attempt t' id = Ok a).
  { intros H1 H2 H3. change a with (row_attempt (row_of a)).
    apply (load_attempt_same t); [done|done|by rewrite H1|apply rows_of_same; by rewrite H2|by rewrite H3]. }
  destruct Hm as [->|r now b H|i cs b x H|e pr op now p H|i v p H].
  - exists a. by split; [|left].
  - destruct (reserved_moved _ _ _ _ _ Hok H) as (Hn & Hmv & _). exists a. split; [|by left].
    eapply Hother; [done|]. intros ->. congruence.
  - destruct (completed_moved _ _ _ _ _ _ Hok H) as (Hi & Hb & Hmv & _).
    destruct (decide (id = i)) as [->|Hne]; [|exists a; split; [by eapply Hother|by left]].
    exists (with_completion b x). split; [by eapply completed_loads|]. right.
    destruct H as [Hlb Hp _ Hw _ _]. rewrite Hl in Hlb. injection Hlb as <-. split; [done|]. by exists x.
  - destruct (installed_tables _ _ _ _ _ _ _ H) as (_ & _ & _ & H1 & H2 & H3 & _).
    exists a. split; [by apply Hsame|by left].
  - destruct (revoked_tables _ _ _ _ _ H) as (_ & _ & _ & H1 & H2 & H3 & _).
    exists a. split; [by apply Hsame|by left].
Qed.

(** An enrollment that was revoked or has a successor. *)
Definition retired (t : Tables) (id : Uuid) (n : N) (digest : string) : Prop :=
  ∃ p, load_publisher t id n = Ok p ∧ enrollment_sha256 p = digest
    ∧ (is_Some (revocation p) ∨ ∃ m, (n < m)%N ∧ is_Some (publishers t !! (id, m))).

Lemma retired_kept t t' id n d : tables_ok t → tmove t t' → retired t id n d → retired t' id n d.
Proof.
  intros Hok Hm (p & Hl & Hd & Hr). pose proof (proj1 (load_publisher_spec _ _ _ _) Hl) as (Hid & Hn & Hrow & Hs).
  assert (Hsame : publishers t' = publishers t → retired t' id n d).
  { intros Hp. exists p. rewrite Hp. split_and!; try done. apply load_publisher_spec. by rewrite Hp. }
  assert (Hok' : tables_ok t') by by eapply tmove_ok.
  destruct Hm as [->|r now b H|i cs b x H|e pr op now q H|i v q H].
  - by exists p.
  - apply Hsame. destruct (reserved_moved _ _ _ _ _ Hok H) as (_ & [] & _). done.
  - apply Hsame. destruct (completed_moved _ _ _ _ _ _ Hok H) as (_ & _ & [] & _). done.
  - destruct (installed_tables _ _ _ _ _ _ _ H) as (_ & Hnone & Hp & _).
    exists p. split; [|split; [done|]].
    + apply load_publisher_spec. rewrite Hp, lookup_insert_ne by congruence. done.
    + destruct Hr as [Hr|(m & Hm & Hs2)]; [by left|right]. exists m. split; [done|].
      rewrite Hp. apply lookup_insert_is_Some. destruct (decide ((publisher_id e, revision e) = (id, m))); [by left|by right].
  - destruct (revoked_tables _ _ _ _ _ H) as (_ & Hq & Hp & _).
    assert (Hsome : ∀ k, is_Some (publishers t !! k) → is_Some (publishers t' !! k)).
    { intros k Hk. rewrite Hp. apply lookup_insert_is_Some.
      destruct (decide ((i, revision (enrollment q)) = k)); [by left|by right]. }
    destruct (decide ((i, revision (enrollment q)) = (id, n))) as [Heq|Hne].
    + exists (with_revocation q v). rewrite Heq in Hq, Hp. rewrite Hrow in Hq.
      assert (p = q) as <- by (injection Hq; by destruct p, q).
      split; [|split; [done|by left; eexists]].
      apply (to_publishers _ Hok' id n (publisher_row (with_revocation p v))). by rewrite Hp, lookup_insert_eq.
    + exists p. split; [|split; [done|]].
      * apply load_publisher_spec. by rewrite Hp, lookup_insert_ne.
      * destruct Hr as [Hr|(m & Hm & Hs2)]; [by left|right; exists m; auto].
Qed.

(** It is not the enrollment anything is published under. *)
Lemma retired_not_current t id n d id' q :
  tables_ok t → retired t id n d → latest t id' = Ok (Some q) → revocation q = None →
  enrollment_sha256 q ≠ d.
Proof.
  intros Hok (p & Hl & <- & Hr) Hq Hnone Heq.
  apply latest_Some in Hq as (m & Hlq & _ & Hmax).
  apply load_publisher_spec in Hl as (Hid & Hn & Hrow & _).
  apply load_publisher_spec in Hlq as (Hid' & Hm & Hrow' & _).
  assert ((id', m) = (id, n)) as [= -> ->] by by eapply to_digests.
  rewrite Hrow in Hrow'. assert (p = q) as -> by (injection Hrow'; by destruct p, q).
  destruct Hr as [[v Hv]|(k & Hk & Hs)]; [congruence|]. apply Hmax in Hs. lia.
Qed.

End histories.

(** * What holds through any calls *)

Section claims.
Context `{E : ForgeEnv} `{V : !ReviewEnv} `{R : !RequiredEnv} {U : UuidSpec}.

Lemma completed_has_event t id a x :
  load_attempt t id = Ok a → completion a = Some x →
  ∃ e, attempt_outbox t !! id = Some e ∧ event_row e = completion_event x ∧ event_attempt e = a
  ∧ receive_artifacts sha_bytes (map stored_bytes (stored_artifacts t id)) = Ok (received_artifacts x).
Proof.
  intros Hl Hx. apply load_attempt_inv in Hl as (Hid & _ & _ & Hc). unfold check_artifacts in Hc.
  rewrite Hx, Hid in Hc. destruct (receive_artifacts _ _) as [rec|] eqn:Hrec; [|done].
  destruct (_ || _) eqn:Hz in Hc; [done|].
  apply orb_false_iff in Hz as [Hz%negb_false_iff%bool_decide_eq_true_1 _]. subst rec.
  unfold check_outbox in Hc. rewrite Hid in Hc. destruct (attempt_outbox t !! id) as [e|]; [|done].
  destruct (_ || _) eqn:Hz in Hc; [done|].
  apply orb_false_iff in Hz as [[He%negb_false_iff%N.eqb_eq _]%orb_false_iff Ha%negb_false_iff].
  apply bool_decide_eq_true_1 in Ha. by exists e.
Qed.

(** C17: through any calls, and whatever the forge does meanwhile, every attempt and every
    enrollment that was stored can be read back as it was stored; a repository has one attempt
    for a key, a source and context one for an ordinal; a completed attempt has its event and
    the bytes it was received with, and no other attempt has either; the revisions of a
    publisher have no gap, and no two enrollments share a digest. *)
Theorem required_journal_invariant c c' :
  tables c = empty_tables → rtc rstep c c' →
  let t := tables c' in
  (∀ id row, attempts t !! id = Some row → load_attempt t id = Ok (row_attempt row))
  ∧ (∀ id n row, publishers t !! (id, n) = Some row → load_publisher t id n = Ok (row_record row))
  ∧ (∀ id1 id2 a1 a2, load_attempt t id1 = Ok a1 → load_attempt t id2 = Ok a2 →
       binding_repository (binding (reservation a1)) = binding_repository (binding (reservation a2)) →
       idempotency_key (reservation a1) = idempotency_key (reservation a2)
       ∨ binding_commit (binding (reservation a1)) = binding_commit (binding (reservation a2))
         ∧ binding_context (binding (reservation a1)) = binding_context (binding (reservation a2))
         ∧ ordinal a1 = ordinal a2 → id1 = id2)
  ∧ (∀ id a, load_attempt t id = Ok a →
       match completion a with
       | Some x => ∃ e, attempt_outbox t !! id = Some e ∧ event_row e = completion_event x
           ∧ event_attempt e = a
           ∧ receive_artifacts sha_bytes (map stored_bytes (stored_artifacts t id))
             = Ok (received_artifacts x)
       | None => attempt_outbox t !! id = None ∧ stored_artifacts t id = []
       end)
  ∧ (∀ id n m, is_Some (publishers t !! (id, n)) → (1 ≤ m ≤ n)%N → is_Some (publishers t !! (id, m)))
  ∧ (∀ id1 n1 id2 n2 p1 p2, load_publisher t id1 n1 = Ok p1 → load_publisher t id2 n2 = Ok p2 →
       enrollment_sha256 p1 = enrollment_sha256 p2 → id1 = id2 ∧ n1 = n2).
Proof.
  intros Hempty Hr. cbv zeta.
  destruct (history_keeps (λ _, True) c c') as [Hok _]; try done; [rewrite Hempty; apply empty_tables_ok|].
  revert Hok. generalize (tables c') as t. intros t Hok.
  split; [by apply to_attempts|]. split; [by apply to_publishers|]. split; [|split; [|split; [by apply to_revisions|]]].
  - intros id1 id2 a1 a2 (_ & H1 & _)%load_attempt_inv (_ & H2 & _)%load_attempt_inv Hrepo [Hk|(Hc & Hx & Ho)];
      [by eapply (to_keys t Hok _ _ _ _ H1 H2)|by eapply (to_ordinals t Hok _ _ _ _ H1 H2)].
  - intros id a Hl. destruct (completion a) as [x|] eqn:Hx; [by eapply completed_has_event|].
    apply load_attempt_inv in Hl as (Hid & Hrow & _ & Hc).
    assert (Hnot : ∀ row, attempts t !! id = Some row → row_completed row = true → False).
    { intros row Hrow2 Hd. rewrite Hrow in Hrow2. injection Hrow2 as <-. cbn in Hd.
      rewrite Hx in Hd. by apply bool_decide_eq_true_1 in Hd as []. }
    split.
    + destruct (attempt_outbox t !! id) as [e|] eqn:He; [|done].
      destruct (to_outbox t Hok _ _ He) as (row & Hrow2 & Hd). by destruct (Hnot row).
    + unfold check_artifacts in Hc. rewrite Hx, Hid in Hc. by destruct (stored_artifacts t id).
  - intros id1 n1 id2 n2 p1 p2 (_ & _ & H1 & _)%load_publisher_spec (_ & _ & H2 & _)%load_publisher_spec Hd.
    by pose proof (to_digests t Hok _ _ _ _ H1 H2 Hd) as [= -> ->].
Qed.

(** C18: an attempt is never lost. Through any calls it keeps its reservation, its ordinal and
    its instants, and it changes at most once, from pending to completed within its window;
    after that every completion of it answers the same attempt or is refused, and changes
    nothing. *)
Theorem completion_stands c c' id a :
  tables_ok (tables c) → load_attempt (tables c) id = Ok a → rtc rstep c c' →
  ∃ a', load_attempt (tables c') id = Ok a'
    ∧ (a' = a ∨ completion a = None ∧ ∃ x, a' = with_completion a x
         ∧ dt_ltb (completed_at x) (reserved_at a) = false
         ∧ dt_ltb (completed_at x) (reservation_expires_at (reservation a)) = true)
    ∧ (is_Some (completion a') → ∀ actor repository q,
         let (r, c'') := complete_required_attempt actor repository id q c' in
         tables c'' = tables c' ∧ ∀ b, r = Ok b → b = a').
Proof.
  intros Hok Hl Hr.
  destruct (history_keeps (λ t, ∃ a', load_attempt t id = Ok a' ∧ attempt_later a a') c c')
    as [Hok' (a' & Hl' & Hlater)]; [|done..| |].
  { intros t t' Ht Hm (a1 & H1 & H2). destruct (load_kept _ _ _ _ Ht Hm H1) as (a2 & H3 & H4).
    exists a2. split; [done|]. by eapply attempt_later_trans. }
  { exists a. by split; [|left]. }
  exists a'. split; [done|]. split.
  - destruct Hlater as [->|(Hn & x & -> & H1 & H2)]; [by left|right]. split; [done|]. exists x.
    split; [done|]. split; [done|]. unfold dt_ltb. by rewrite H2.
  - intros [x Hx] actor repository q.
    pose proof (qwp_run _ _ _ (complete_attempt_spec actor repository id q c' c' (at_begin c'))) as H.
    cbv beta in H. destruct (complete_required_attempt actor repository id q c') as [[b|e] c2]; cbn in *.
    + destruct H as (a1 & p & s & H1 & _ & _ & _ & _ & _ & _ & _ & _ & [[[] ->]|(t' & y & _ & _ & Hd & _)]).
      * split; [done|]. intros b [= <-]. congruence.
      * destruct Hd as [Hl2 Hp _ _ _ _]. congruence.
    + destruct H. by split.
Qed.

(** C16: an enrollment that was revoked, or that has a successor, publishes nothing: through any
    later calls no reservation and no completion under it succeeds, not even a repeated one,
    and no context whose newest attempt was made under it is satisfied. *)
Theorem retired_enrollment_powerless c c' id n p :
  tables_ok (tables c) → load_publisher (tables c) id n = Ok p →
  is_Some (revocation p) ∨ (∃ m, (n < m)%N ∧ is_Some (publishers (tables c) !! (id, m))) →
  rtc rstep c c' →
  let under a := binding_enrollment (binding (reservation a)) = enrollment_sha256 p in
  (∀ actor repository q a, (reserve_required_attempt actor repository q c').1 = Ok a → ¬ under a)
  ∧ (∀ actor repository i q a, (complete_required_attempt actor repository i q c').1 = Ok a → ¬ under a)
  ∧ (∀ actor repository commit snap x a,
       (required_attempt_snapshot actor repository commit c').1 = Ok snap → x ∈ contexts snap →
       newest_attempt x = Some a → under a → context_satisfied x = false).
Proof.
  intros Hok Hl Hret Hr. cbv zeta.
  destruct (history_keeps (λ t, retired t id n (enrollment_sha256 p)) c c') as [Hok' Hret'];
    [by intros; eapply retired_kept|done..|by exists p|].
  split; [|split].
  - intros actor repository q a Ha Hu.
    pose proof (qwp_run _ _ _ (reserve_spec actor repository q c' c' (at_begin c'))) as H. cbv beta in H.
    rewrite Ha in H. destruct H as (p' & s & now & hd & key & [Hlat _ Hcur _ _] & _ & _ & Hres & _).
    eapply retired_not_current; [done|done|exact Hlat| |by rewrite <-Hu, Hres].
    unfold require_current in Hcur. destruct (validate_enrollment _); [|done].
    case_bool_decide as Hv; [done|]. by apply eq_None_not_Some.
  - intros actor repository i q a Ha Hu.
    pose proof (qwp_run _ _ _ (complete_attempt_spec actor repository i q c' c' (at_begin c'))) as H.
    cbv beta in H. rewrite Ha in H.
    destruct H as (a1 & p' & s & _ & Hsame & _ & Hlat & _ & Hv & Hd & _).
    eapply retired_not_current; [done|done|exact Hlat|done|]. by rewrite Hd, <-Hsame.
  - intros actor repository commit snap x a Hs Hx Ha Hu.
    pose proof (qwp_run _ _ _ (snapshot_spec actor repository commit c' c' (at_begin c'))) as [_ H].
    destruct (H _ Hs) as (_ & k & g & b & au & branch & policy & _ & _ & _ & _ & Hf & _).
    rewrite Forall_forall in Hf. destruct (Hf _ Hx) as [_ Hb].
    destruct (context_satisfied x); [|done]. destruct (Hb eq_refl) as (a' & Ha' & _ & p' & s & j & b' & Hlat & Hv & Hd & _).
    rewrite Ha in Ha'. injection Ha' as <-.
    by destruct (retired_not_current _ _ _ _ _ _ Hok' Hret' Hlat Hv); rewrite Hd.
Qed.

(** The newest attempt of a source and context. *)
Definition newest_on (t : Tables) (repository : Uuid) (commit context : string)
    (a : DurableRequiredAttempt) : Prop :=
  load_attempt t (attempt_id a) = Ok a
  ∧ binding_repository (binding (reservation a)) = repository
  ∧ binding_commit (binding (reservation a)) = commit
  ∧ binding_context (binding (reservation a)) = context
  ∧ ∀ id b, load_attempt t id = Ok b → binding_repository (binding (reservation b)) = repository →
      binding_commit (binding (reservation b)) = commit → binding_context (binding (reservation b)) = context →
      b = a ∨ (ordinal b < ordinal a)%N.

Lemma of_source_true r k x row :
  of_source r k x row = true ↔ row_repository row = r ∧ row_commit row = k ∧ row_context row = x.
Proof. unfold of_source. rewrite !andb_true_iff, N.eqb_eq, !String.eqb_eq. tauto. Qed.

Lemma latest_attempt_newest t repository commit context a :
  tables_ok t → latest_attempt t repository commit context = Ok (Some a) →
  newest_on t repository commit context a.
Proof.
  intros Hok. unfold latest_attempt. destruct (newest_row _ _ _ _) as [[id row]|] eqn:Hn; [|done].
  destruct (load_attempt t id) as [b|] eqn:Hl; [|done]. intros [= <-].
  apply load_attempt_inv in Hl as Hinv. destruct Hinv as (Hid & Hrow & _ & _).
  unfold newest_row in Hn. apply max_last_Some in Hn as (l1 & l2 & Heq & H1 & H2).
  2: intros x y; destruct (N.leb_spec (row_ordinal x.2) (row_ordinal y.2)); [by left|right; apply N.leb_le; lia].
  2: intros x y z Hxy%N.leb_le Hyz%N.leb_le; apply N.leb_le; lia.
  assert (Hin : (id, row) ∈ filter (λ x, of_source repository commit context x.2 = true) (attempt_rows t)).
  { rewrite Heq. apply elem_of_app. right. left. }
  apply list_elem_of_filter in Hin as [Hs%of_source_true Hin%elem_of_map_to_list]. cbn in Hs.
  rewrite Hrow in Hin. injection Hin as <-. cbn in Hs. destruct Hs as (S1 & S2 & S3).
  split; [by rewrite Hid|]. split_and!; try done.
  intros i b2 Hb Hr Hc Hx. apply load_attempt_inv in Hb as Hinv. destruct Hinv as (Hi & Hbrow & _ & _).
  assert (Hle : (ordinal b2 ≤ ordinal b)%N).
  { assert (Hin : (i, row_of b2) ∈ filter (λ x, of_source repository commit context x.2 = true) (attempt_rows t)).
    { apply list_elem_of_filter. split; [by apply of_source_true|by apply elem_of_map_to_list]. }
    rewrite Heq, elem_of_app, elem_of_cons in Hin. rewrite Forall_forall in H1, H2.
    destruct Hin as [Hin|[Hrr|Hin]].
    - by apply H1, N.leb_le in Hin.
    - apply (f_equal (λ p, row_ordinal p.2)) in Hrr. cbn in Hrr. lia.
    - apply H2, N.leb_gt in Hin. cbn in Hin. lia. }
  destruct (N.lt_ge_cases (ordinal b2) (ordinal b)) as [|Hge]; [by right|left].
  assert (i = id) as ->.
  { eapply (to_ordinals t Hok _ _ _ _ Hbrow Hrow); cbn; congruence || lia. }
  rewrite Hl in Hb. by injection Hb.
Qed.

(** C15: a commit is satisfied only when the rule of the default branch asks for contexts, and
    for each of them the newest attempt on this commit succeeded, with the bytes it was
    received with still stored, under the latest enrollment of its publisher, which is not
    revoked and covers it, whose actor is still admitted and for which the attached authority
    stands. *)
Theorem satisfied_commit_sound c actor repository commit snap :
  tables_ok (tables c) →
  (required_attempt_snapshot actor repository commit c).1 = Ok snap → satisfied snap = true →
  ∃ n g b branch rule au,
    actor_admitted (now_at n) (state (forge c)) actor repository false = Ok (g, b)
    ∧ default_policy (state (forge c)) g = Ok (branch, Some rule)
    ∧ attached c = Some au ∧ required_status_checks rule ≠ []
    ∧ ∀ context, context ∈ required_status_checks rule →
        ∃ a x, newest_on (tables c) repository commit context a
          ∧ completion a = Some x ∧ conclusion x = RC_Success
          ∧ receive_artifacts sha_bytes (map stored_bytes (stored_artifacts (tables c) (attempt_id a)))
            = Ok (received_artifacts x)
          ∧ attempt_backed c au (snapshot_at snap) a.
Proof.
  intros Hok Hs Hsat.
  pose proof (qwp_run _ _ _ (snapshot_spec actor repository commit c c (at_begin c))) as [_ H].
  destruct (H _ Hs) as (_ & k & g & b & au & branch & policy & Hadm & Hpol & Hat & Hm & Hf & Hiff).
  apply Hiff in Hsat as [Hne Hall].
  assert (Hnz : required_contexts policy ≠ []).
  { rewrite <-Hm. by destruct (contexts snap). }
  destruct policy as [rule|]; [|done].
  exists k, g, b, branch, rule, au. split_and!; try done.
  intros context Hc. change (required_status_checks rule) with (required_contexts (Some rule)) in Hc.
  rewrite <-Hm in Hc. apply list_elem_of_In, in_map_iff in Hc as (x & <- & Hx%list_elem_of_In).
  rewrite Forall_forall in Hf, Hall. destruct (Hf _ Hx) as [Hnew Hb].
  destruct (Hb (Hall _ Hx)) as (a & Ha & (y & Hy & Hsucc) & Hback). rewrite Ha in Hnew.
  pose proof (latest_attempt_newest _ _ _ _ _ Hok Hnew) as Hnewest.
  exists a, y. split_and!; try done.
  destruct Hnewest as [Hl _]. by destruct (completed_has_event _ _ _ _ Hl Hy) as (e & _ & _ & _ & ?).
Qed.

(** A reservation is made, or answered again, only for the actor of the latest enrollment of
    the publisher, who may write to the repository, on a source its scope names and that was
    observed there within the call, while the enrollment is current and the authority stands;
    a new attempt has a key of its own and an ordinal above every other of its source and
    context, and a refused call leaves the tables as they were. *)
Theorem reservation_stands_on_enrollment c actor repository q :
  tables_ok (tables c) →
  let (r, c') := reserve_required_attempt actor repository q c in
  same_engine c c' ∧
  match r with
  | Err _ => tables c' = tables c
  | Ok a =>
      ∃ p s now head key,
        publication_admitted c actor repository (rs_publisher q) p s PA_Reserve now
        ∧ rs_expected_head q = Some head
        ∧ scope (enrollment p) repository head (rs_context q) = Ok s
        ∧ reservation a = enrolled_reservation (enrollment p) s key (rs_expires_at q) (enrollment_sha256 p)
        ∧ load_attempt (tables c') (attempt_id a) = Ok a
        ∧ (tables c' = tables c
           ∨ completion a = None ∧ reserved_at a = now ∧ attempts (tables c) !! attempt_id a = None
             ∧ ∀ id b, load_attempt (tables c) id = Ok b →
                 binding_repository (binding (reservation b)) = repository →
                 idempotency_key (reservation b) ≠ key
                 ∧ (binding_commit (binding (reservation b)) = head →
                    binding_context (binding (reservation b)) = rs_context q →
                    (ordinal b < ordinal a)%N))
  end.
Proof.
  intros Hok.
  pose proof (qwp_run _ _ _ (reserve_spec actor repository q c c (at_begin c))) as H. cbv beta in H.
  destruct (reserve_required_attempt actor repository q c) as [[a|e] c']; cbn in *;
    [|by apply at_same_engine in H].
  destruct H as (p & s & now & hd & key & Hp & Hhd & Hsc & Hres & Hcase).
  assert (Hcov : scope_repository s = repository ∧ scope_commit s = hd ∧ scope_context s = rs_context q).
  { unfold scope in Hsc. destruct (find_first _ _) as [s'|] eqn:Hf; [|done]. injection Hsc as ->.
    apply find_first_Some in Hf as (_ & _ & _ & Hc & _). unfold covers in Hc.
    apply andb_prop in Hc as [[H1%N.eqb_eq H2%String.eqb_eq]%andb_prop H3%String.eqb_eq]. done. }
  destruct Hcov as (C1 & C2 & C3).
  destruct Hcase as [[Hat [id Hl]]|(t' & Hat & Hr)]; apply at_same_engine in Hat as [He Ht];
    (split; [done|]); exists p, s, now, hd, key; split_and!; try done; rewrite Ht.
  - apply load_attempt_inv in Hl as Hinv. destruct Hinv as (Hid & _). by rewrite Hid.
  - by left.
  - by eapply reserved_loads.
  - right. destruct Hr as [Hfresh _ _ Hn (i & j & Hnew) (t1 & Hi & _)].
    apply insert_attempt_spec in Hi as (Hnone & _ & _). split; [by rewrite Hnew|].
    split; [by rewrite Hnew|]. split; [done|].
    intros id b Hb Hrepo. apply load_attempt_inv in Hb as (_ & Hrow & _ & _).
    pose proof (same_key_fresh _ _ Hfresh _ _ Hrow) as Hk. cbn in Hk. rewrite Hres in Hk. cbn in Hk.
    split; [by apply Hk; congruence|]. intros Hc Hx.
    apply next_ordinal_spec in Hn as [_ Hn]. apply (Hn _ _ Hrow). apply of_source_true.
    rewrite Hres. cbn. split_and!; congruence.
Qed.

End claims.
