(* ===== verification/Json.v ===== *)
(** Json: the value type of serde_json as the code inspects it. An object is the list of its
    members in the order of its map, a number its text. *)

From S2P Require Import Prelude Text.

Inductive Value : Type :=
  | V_Null
  | V_Bool (b : bool)
  | V_Number (text : string)
  | V_String (s : string)
  | V_Array (l : list Value)
  | V_Object (m : list (string * Value)).

#[export] Instance Value_eq_dec : EqDecision Value.
Proof.
  refine (fix go (x y : Value) : Decision (x = y) :=
    match x, y with
    | V_Null, V_Null => left eq_refl
    | V_Bool a, V_Bool b => cast_if (decide (a = b))
    | V_Number a, V_Number b | V_String a, V_String b => cast_if (decide (a = b))
    | V_Array l, V_Array m => cast_if (@list_eq_dec _ go l m)
    | V_Object l, V_Object m => cast_if (@list_eq_dec _ (@prod_eq_dec _ _ _ go) l m)
    | _, _ => right _
    end); congruence.
Defined.

(** ** What the code asks of a value *)

Definition as_str (v : Value) : option string :=
  match v with V_String s => Some s | _ => None end.
Definition as_array (v : Value) : option (list Value) :=
  match v with V_Array l => Some l | _ => None end.
Definition as_object (v : Value) : option (list (string * Value)) :=
  match v with V_Object m => Some m | _ => None end.

(** [Value::get] with a key: only an object has members. *)
Definition get (v : Value) (key : string) : option Value :=
  m ← as_object v; snd <$> find_first (λ x, String.eqb x.1 key) m.
