(* ===== verification/RefOperations.v ===== *)
(** RefOperations: the journal of Git ref operations (engine/ref_operations.rs,
    engine/storage/ref_operations.rs): an operation is prepared before Git is touched, what
    Git is found to hold afterwards classifies it, and a committed operation publishes the new
    state, its outcome, its audit row and its event in one transaction.

    The tables live in the database beside the saved state. A row holds the values its JSON
    columns stand for; SHA-256 of canonical JSON is a parameter, and so is what SQLite says of a
    violated constraint. A transaction happens whole or not at all. *)

From Stdlib Require Import Ascii.
From S2P Require Import Prelude Text Clock Json BranchProtection ForgeState Forge BoundReviews.
Local Open Scope forge_scope.

(** * Data *)

Inductive RefValue : Type := RV_Absent | RV_Exact (oid : string).

#[export] Instance RefValue_eq_dec : EqDecision RefValue.
Proof. solve_decision. Defined.

Record RefChangeIntent : Type := {
  change_reference : string; change_expected : RefValue; change_result : RefValue
}.

Inductive DurableRefOperationKind : Type :=
  | RK_Merge (pull_request source_repository : Uuid) (source_ref_ source_head : string)
  | RK_RefUpdate.

Inductive DurableRefOperationState : Type :=
  | OS_Prepared | OS_Committed | OS_AbortedNotApplied | OS_ReconciliationRequired.

Record ObservedRef : Type := { seen_reference : string; seen_value : RefValue }.

Inductive RefOperationObservation : Type :=
  | RO_Observed (refs : list ObservedRef) (marker : RefValue) (additional_application_evidence : bool)
  | RO_Unavailable (reason : string).

#[export] Instance RefChangeIntent_eq_dec : EqDecision RefChangeIntent.
Proof. solve_decision. Defined.
#[export] Instance DurableRefOperationKind_eq_dec : EqDecision DurableRefOperationKind.
Proof. solve_decision. Defined.
#[export] Instance DurableRefOperationState_eq_dec : EqDecision DurableRefOperationState.
Proof. solve_decision. Defined.
#[export] Instance ObservedRef_eq_dec : EqDecision ObservedRef.
Proof. solve_decision. Defined.
#[export] Instance RefOperationObservation_eq_dec : EqDecision RefOperationObservation.
Proof. solve_decision. Defined.

Section data.
Context `{C : Chrono}.

Record RefOperationIntent : Type := {
  intent_repository : Uuid; intent_key : string; intent_actor : string;
  intent_operation : DurableRefOperationKind; intent_changes : list RefChangeIntent;
  qualification_snapshot : Value; intent_expires_at : DateTime
}.

Record RefOperationOutcome : Type := {
  outcome_observation : RefOperationObservation; recorded_at : DateTime; outcome_audit : Uuid;
  outcome_event : option Uuid
}.

#[export] Instance RefOperationIntent_eq_dec : EqDecision RefOperationIntent.
Proof. solve_decision. Defined.
#[export] Instance RefOperationOutcome_eq_dec : EqDecision RefOperationOutcome.
Proof. solve_decision. Defined.

Record DurableRefOperation : Type := {
  operation_id : Uuid; intent : RefOperationIntent; intent_sha256 : string;
  qualification_sha256 : string; marker_ref : string; marker : string;
  operation_prepared_at : DateTime; prepared_audit : Uuid;
  operation_state : DurableRefOperationState; outcome : option RefOperationOutcome
}.

#[export] Instance DurableRefOperation_eq_dec : EqDecision DurableRefOperation.
Proof. solve_decision. Defined.

Record RefOperationEvent : Type := {
  ref_event_id : Uuid; event_operation_id : Uuid; ref_event_repository : Uuid;
  event_created_at : DateTime; event_operation : DurableRefOperation;
  delivered_at : option DateTime; delivery_receipt : option string
}.

Record MergeOperationReadback : Type := {
  read_operation : DurableRefOperation; read_delivery : option RefOperationEvent;
  observed_at : DateTime
}.

(** The columns of the journal, but for the id, which is its key. *)
Record OperationRow : Type := {
  row_repository : Uuid; row_key : string; row_intent : RefOperationIntent;
  row_intent_sha256 : string; row_qualification_sha256 : string; row_marker_ref : string;
  row_marker : string; row_prepared_at : DateTime; row_prepared_audit : Uuid;
  row_state : string; row_outcome : option RefOperationOutcome
}.

(** The columns of the outbox, but for the id. *)
Record OutboxRow : Type := {
  box_operation : Uuid; box_repository : Uuid; box_created_at : DateTime;
  box_payload : RefOperationEvent; box_delivered_at : option DateTime;
  box_receipt : option string
}.

(** The audit rows of the journal. *)
Record RefAudit : Type := {
  ref_audit_id : Uuid; ref_audit_at : DateTime; ref_audit_actor : string;
  ref_audit_repository : Uuid; ref_audit_phase : string; ref_audit_detail : DurableRefOperation
}.

End data.

(** * The world *)

Class RefEnv `{E : ForgeEnv} := {
  sha_intent : RefOperationIntent → string;
  sha_qualification : Value → string;
  (** [Uuid::parse_str]. *)
  parse_uuid : string → option Uuid;
  constraint_failed : ForgeError;
  journal_error : nat → option ForgeError
}.

(** * Intents *)

Section intents.
Context `{R : RefEnv}.

Definition invalid {A} (message : string) : result A ForgeError := Err (Validation message).

Definition validate_object (oid : string) : result unit ForgeError :=
  if negb (String.length oid =? 40) || string_all (Ascii.eqb "0"%char) oid
     || negb (string_all is_lower_hex oid)
  then invalid "full nonzero lowercase SHA1 object ID required" else Ok tt.

Definition validate_value (v : RefValue) : result unit ForgeError :=
  match v with RV_Absent => Ok tt | RV_Exact oid => validate_object oid end.

Definition ref_byte (c : ascii) : bool :=
  is_ascii_alphanumeric c || existsb (Ascii.eqb c) ["/"; "."; "_"; "-"]%char.

Definition validate_ref (reference : string) : result unit ForgeError :=
  if negb (starts_with reference "refs/heads/" || starts_with reference "refs/tags/")
     || (1024 <? String.length reference) || ends_with reference "/" || ends_with reference "."
     || str_contains ".." reference || str_contains "//" reference
     || existsb (λ part, starts_with part "." || ends_with part ".lock")
          (split_on "/"%char reference)
     || negb (string_all ref_byte reference)
  then invalid "unsupported full head/tag ref name" else Ok tt.

(** The loop over the changes; [refs] are the references before. *)
Fixpoint validate_changes (refs : list string) (changes : list RefChangeIntent) :
    result unit ForgeError :=
  match changes with
  | [] => Ok tt
  | c :: changes =>
      (let? _ := validate_ref (change_reference c) in
       let? _ := validate_value (change_expected c) in
       let? _ := validate_value (change_result c) in
       if bool_decide (change_reference c ∈ refs) || bool_decide (change_expected c = change_result c)
       then invalid "duplicate ref or non-changing ref operation"
       else validate_changes (change_reference c :: refs) changes)%result
  end.

(** A merge moves one existing branch to its source head. *)
Definition moves_to_source (changes : list RefChangeIntent) (source_head : string) : bool :=
  match changes with
  | [c] => starts_with (change_reference c) "refs/heads/"
           && (match change_expected c with RV_Exact _ => true | RV_Absent => false end)
           && bool_decide (change_result c = RV_Exact source_head)
  | _ => false
  end.

Definition validate_merge (i : RefOperationIntent) : result unit ForgeError :=
  match intent_operation i with
  | RK_RefUpdate => Ok tt
  | RK_Merge pull_request source_repository source_ref_ source_head =>
      if (pull_request =? 0)%N || (source_repository =? 0)%N
      then invalid "merge requires exact PR and source repository UUIDs"
      else
        (let? _ := validate_ref source_ref_ in
         if negb (starts_with source_ref_ "refs/heads/")
         then invalid "merge source must be a branch"
         else
           let? _ := validate_object source_head in
           if negb (moves_to_source (intent_changes i) source_head)
           then invalid "merge must update one existing branch to its exact source head"
           else Ok tt)%result
  end.

(** The snapshot is complete and names no blocker. *)
Definition unblocked (snapshot : Value) : bool :=
  (match get snapshot "policy_revision" ≫= as_str with
   | Some s => negb (str_is_empty (trim s)) | None => false end)
  && (match get snapshot "policy" with Some (V_Object _) => true | _ => false end)
  && (match get snapshot "actor_authorization" ≫= as_object with
      | Some (_ :: _) => true | _ => false end)
  && (match get snapshot "blockers" ≫= as_array with Some [] => true | _ => false end).

(** The identities in a list are UUIDs, not nil, and different. *)
Fixpoint validate_identities (unique : list Uuid) (ids : list Value) : result unit ForgeError :=
  match ids with
  | [] => Ok tt
  | v :: ids =>
      match as_str v ≫= parse_uuid with
      | Some id =>
          if (id =? 0)%N then invalid "invalid qualification evidence UUID"
          else if bool_decide (id ∈ unique) then invalid "duplicate qualification evidence UUID"
          else validate_identities (id :: unique) ids
      | None => invalid "invalid qualification evidence UUID"
      end
  end.

Definition validate_evidence (snapshot : Value) (key : string) : result unit ForgeError :=
  match get snapshot key ≫= as_array with
  | None => invalid "qualification review/attempt identities required"
  | Some ids => validate_identities [] ids
  end.

Definition incomplete (i : RefOperationIntent) : bool :=
  (intent_repository i =? 0)%N || str_is_empty (trim (intent_key i))
  || (256 <? String.length (intent_key i)) || str_is_empty (trim (intent_actor i))
  || match intent_changes i with [] => true | _ => false end
  || (1024 <? length (intent_changes i)).

Definition validate_intent (i : RefOperationIntent) : result unit ForgeError :=
  if incomplete i then invalid "incomplete ref operation identity or changes"
  else
    (let? _ := validate_changes [] (intent_changes i) in
     let? _ := validate_merge i in
     if negb (unblocked (qualification_snapshot i))
     then invalid "complete unblocked qualification snapshot required"
     else
       let? _ := validate_evidence (qualification_snapshot i) "review_ids" in
       validate_evidence (qualification_snapshot i) "attempt_ids")%result.

Definition repositories_of (i : RefOperationIntent) : list Uuid :=
  intent_repository i ::
  match intent_operation i with RK_Merge _ source _ _ => [source] | RK_RefUpdate => [] end.

(** * What Git was found to hold *)

(** The references are those of the changes, once each, at their results or where they were. *)
Definition refs_match (changes : list RefChangeIntent) (refs : list ObservedRef) (result_ : bool) : bool :=
  (length refs =? length changes) && bool_decide (NoDup (map seen_reference refs))
  && forallb (λ c, existsb (λ r, bool_decide (seen_reference r = change_reference c)
       && bool_decide (seen_value r = if result_ then change_result c else change_expected c)) refs)
       changes.

Definition classify (o : DurableRefOperation) (x : RefOperationObservation) :
    DurableRefOperationState :=
  match x with
  | RO_Unavailable _ => OS_ReconciliationRequired
  | RO_Observed refs m additional =>
      if bool_decide (m = RV_Exact (marker o)) && refs_match (intent_changes (intent o)) refs true
      then OS_Committed
      else if bool_decide (m = RV_Absent) && negb additional
              && refs_match (intent_changes (intent o)) refs false
      then OS_AbortedNotApplied
      else OS_ReconciliationRequired
  end.

(** The object the marker ref is bound to. *)
Definition marker_oid (i : RefOperationIntent) : result string ForgeError :=
  match find_first (λ v, match v with RV_Exact _ => true | RV_Absent => false end)
          (map change_result (intent_changes i) ++ map change_expected (intent_changes i)) with
  | Some (RV_Exact oid) => Ok oid
  | _ => invalid "operation marker needs a bound Git object"
  end.

Definition state_name (st : DurableRefOperationState) : string :=
  match st with
  | OS_Prepared => "prepared"
  | OS_Committed => "committed"
  | OS_AbortedNotApplied => "aborted_not_applied"
  | OS_ReconciliationRequired => "reconciliation_required"
  end.

Definition state_of_name (name : string) : option DurableRefOperationState :=
  if String.eqb name "prepared" then Some OS_Prepared
  else if String.eqb name "committed" then Some OS_Committed
  else if String.eqb name "aborted_not_applied" then Some OS_AbortedNotApplied
  else if String.eqb name "reconciliation_required" then Some OS_ReconciliationRequired
  else None.

Definition marker_ref_of (id : Uuid) : string := "refs/jeryu/operations/" +:+ show_N id.

End intents.

(** * The machine *)

Section machine.
Context `{R : RefEnv}.

Record OpCore : Type := {
  forge : Core; operations : gmap Uuid OperationRow; outbox : gmap Uuid OutboxRow;
  ref_audits : list RefAudit
}.

Definition O (A : Type) : Type := OpCore → result A ForgeError * OpCore.

Definition oret {A} (x : A) : O A := λ c, (Ok x, c).
Definition othrow {A} (e : ForgeError) : O A := λ c, (Err e, c).
Definition obind {A X} (m : O A) (k : A → O X) : O X :=
  λ c, match m c with (Ok x, c') => k x c' | (Err e, c') => (Err e, c') end.
Definition olift {A} (r : result A ForgeError) : O A :=
  match r with Ok x => oret x | Err e => othrow e end.

(** A step of the engine; the journal stays. *)
Definition within {A} (m : M A) : O A :=
  λ c, match m (forge c) with
       | (r, k) => (r, {| forge := k; operations := operations c; outbox := outbox c;
                          ref_audits := ref_audits c |})
       end.

End machine.

Notation "x <<~ c ;; k" := (obind c (λ x, k))
  (at level 100, c at next level, right associativity) : forge_scope.

Section journal.
Context `{R : RefEnv}.

Definition read_operations : O (gmap Uuid OperationRow) := λ c, (Ok (operations c), c).
Definition read_outbox : O (gmap Uuid OutboxRow) := λ c, (Ok (outbox c), c).
Definition read_audits : O (list RefAudit) := λ c, (Ok (ref_audits c), c).

(** A connection, or why there is none. *)
Definition connect : O unit := within (guard journal_error).

(** The end of a transaction: all its writes, with the new state if it has one, or an error
    and nothing of them. *)
Definition tx_commit (ops : gmap Uuid OperationRow) (box : gmap Uuid OutboxRow)
    (audits : list RefAudit) (s : option State) : O unit :=
  λ c, let k := forge c in
       match journal_error (asked k) with
       | Some e =>
           (Err e, {| forge := {| state := state k; stored := stored k; asked := S (asked k) |};
                      operations := operations c; outbox := outbox c; ref_audits := ref_audits c |})
       | None =>
           (Ok tt, {| forge := {| state := or_else s (state k);
                                  stored := match s with Some s => Some s | None => stored k end;
                                  asked := S (asked k) |};
                      operations := ops; outbox := box; ref_audits := audits |})
       end.

Definition operation_storage : O unit :=
  λ c, match stored (forge c) with
       | Some _ => (Ok tt, c)
       | None => (Err (WriterUnavailable "durable ref operations require the admitted SQLite store"), c)
       end.

(** ** Reading rows *)

Definition of_row (id : Uuid) (row : OperationRow) (st : DurableRefOperationState) :
    DurableRefOperation :=
  {| operation_id := id; intent := row_intent row; intent_sha256 := row_intent_sha256 row;
     qualification_sha256 := row_qualification_sha256 row; marker_ref := row_marker_ref row;
     marker := row_marker row; operation_prepared_at := row_prepared_at row;
     prepared_audit := row_prepared_audit row; operation_state := st; outcome := row_outcome row |}.

(** A row and its operation agree with each other and the operation with itself. *)
Definition row_binding (row : OperationRow) (o : DurableRefOperation) (oid : string) : bool :=
  (intent_repository (intent o) =? row_repository row)%N
  && bool_decide (intent_key (intent o) = row_key row)
  && bool_decide (intent_sha256 o = sha_intent (intent o))
  && bool_decide (qualification_sha256 o = sha_qualification (qualification_snapshot (intent o)))
  && bool_decide (marker_ref o = marker_ref_of (operation_id o))
  && bool_decide (marker o = oid)
  && Bool.eqb (bool_decide (outcome o = None)) (bool_decide (operation_state o = OS_Prepared))
  && match outcome o with
     | None => true
     | Some x =>
         bool_decide (classify o (outcome_observation x) = operation_state o)
         && Bool.eqb (bool_decide (is_Some (outcome_event x)))
              (bool_decide (operation_state o = OS_Committed))
     end.

Definition decode_operation (id : Uuid) (row : OperationRow) :
    result DurableRefOperation ForgeError :=
  match validate_intent (row_intent row) with
  | Err e => Err (Storage ("invalid stored ref intent: " +:+ ForgeError_to_string e))
  | Ok _ =>
      match state_of_name (row_state row) with
      | None => Err (Storage "unknown stored ref operation state")
      | Some st =>
          match marker_oid (row_intent row) with
          | Err e => Err e
          | Ok oid =>
              if negb (row_binding row (of_row id row st) oid)
              then Err (Storage "stored ref operation binding does not match its immutable evidence")
              else Ok (of_row id row st)
          end
      end
  end.

Definition load_by_key (ops : gmap Uuid OperationRow) (repository : Uuid) (key : string) :
    result (option DurableRefOperation) ForgeError :=
  match find_first (λ x, (row_repository x.2 =? repository)%N && String.eqb (row_key x.2) key)
          (map_to_list ops) with
  | None => Ok None
  | Some (id, row) =>
      match decode_operation id row with Ok o => Ok (Some o) | Err e => Err e end
  end.

Definition operation_missing (repository id : Uuid) : ForgeError :=
  NotFound ("ref operation " +:+ show_N id +:+ " in repository " +:+ show_N repository).

Definition load_operation (ops : gmap Uuid OperationRow) (repository id : Uuid) :
    result DurableRefOperation ForgeError :=
  match ops !! id with
  | Some row =>
      if (row_repository row =? repository)%N then decode_operation id row
      else Err (operation_missing repository id)
  | None => Err (operation_missing repository id)
  end.

Definition event_missing (id : Uuid) : ForgeError := NotFound ("ref operation event " +:+ show_N id).

(** The event is the one its committed operation announced, and its columns agree. *)
Definition event_binding (id repository : Uuid) (row : OutboxRow) (o : DurableRefOperation) : bool :=
  let e := box_payload row in
  (ref_event_id e =? id)%N && (ref_event_repository e =? repository)%N
  && (event_operation_id e =? operation_id o)%N && bool_decide (event_operation e = o)
  && bool_decide (event_created_at e = box_created_at row)
  && bool_decide (delivered_at e = None) && bool_decide (delivery_receipt e = None)
  && bool_decide (operation_state o = OS_Committed)
  && bool_decide (outcome o ≫= outcome_event = Some id)
  && Bool.eqb (bool_decide (is_Some (box_delivered_at row))) (bool_decide (is_Some (box_receipt row))).

Definition with_delivery (e : RefOperationEvent) (t : option DateTime) (receipt : option string) :
    RefOperationEvent :=
  {| ref_event_id := ref_event_id e; event_operation_id := event_operation_id e;
     ref_event_repository := ref_event_repository e; event_created_at := event_created_at e;
     event_operation := event_operation e; delivered_at := t; delivery_receipt := receipt |}.

Definition load_event (ops : gmap Uuid OperationRow) (box : gmap Uuid OutboxRow)
    (repository id : Uuid) : result RefOperationEvent ForgeError :=
  match box !! id with
  | Some row =>
      if (box_repository row =? repository)%N then
        match load_operation ops repository (box_operation row) with
        | Err e => Err e
        | Ok o =>
            if negb (event_binding id repository row o)
            then Err (Storage "outbox event does not match its committed operation")
            else Ok (with_delivery (box_payload row) (box_delivered_at row) (box_receipt row))
        end
      else Err (event_missing id)
  | None => Err (event_missing id)
  end.

(** ** What the schema refuses (db/migrations/0014_ref_operation_journal.sql) *)

Definition unresolved_row (row : OperationRow) : bool :=
  String.eqb (row_state row) "prepared" || String.eqb (row_state row) "reconciliation_required".

Definition rows_exist {V} (p : V → bool) (m : gmap Uuid V) : bool := existsb p (map_to_list m).*2.

Definition audit_exists (id : Uuid) (audits : list RefAudit) : bool :=
  existsb (λ a, (ref_audit_id a =? id)%N) audits.

(** The primary key, the unique columns, the one unresolved operation of a repository. *)
Definition insert_row (id : Uuid) (row : OperationRow) (ops : gmap Uuid OperationRow) :
    result (gmap Uuid OperationRow) ForgeError :=
  if bool_decide (is_Some (ops !! id))
     || rows_exist (λ x, ((row_repository x =? row_repository row)%N
          && (String.eqb (row_key x) (row_key row) || (unresolved_row x && unresolved_row row)))
          || String.eqb (row_marker_ref x) (row_marker_ref row)
          || (row_prepared_audit x =? row_prepared_audit row)%N) ops
  then Err constraint_failed else Ok (<[id := row]> ops).

(** The trigger: the operation of an event is committed. *)
Definition committed_exists (row : OutboxRow) (ops : gmap Uuid OperationRow) : bool :=
  match ops !! box_operation row with
  | Some o => (row_repository o =? box_repository row)%N && String.eqb (row_state o) "committed"
  | None => false
  end.

(** The primary key, the one event of an operation, and the trigger. *)
Definition insert_event (id : Uuid) (row : OutboxRow) (ops : gmap Uuid OperationRow)
    (box : gmap Uuid OutboxRow) : result (gmap Uuid OutboxRow) ForgeError :=
  if bool_decide (is_Some (box !! id))
     || rows_exist (λ x, (box_operation x =? box_operation row)%N) box
     || negb (committed_exists row ops)
  then Err constraint_failed else Ok (<[id := row]> box).

Definition insert_operation_audit (o : DurableRefOperation) (id : Uuid) (phase : string)
    (t : DateTime) (audits : list RefAudit) : result (list RefAudit) ForgeError :=
  if audit_exists id audits then Err constraint_failed
  else
    Ok (audits ++ [{| ref_audit_id := id; ref_audit_at := t;
                      ref_audit_actor := intent_actor (intent o);
                      ref_audit_repository := intent_repository (intent o);
                      ref_audit_phase := phase; ref_audit_detail := o |}]).

(** ** Transactions (engine/storage/ref_operations.rs) *)

Definition row_of (o : DurableRefOperation) : OperationRow :=
  {| row_repository := intent_repository (intent o); row_key := intent_key (intent o);
     row_intent := intent o; row_intent_sha256 := intent_sha256 o;
     row_qualification_sha256 := qualification_sha256 o; row_marker_ref := marker_ref o;
     row_marker := marker o; row_prepared_at := operation_prepared_at o;
     row_prepared_audit := prepared_audit o; row_state := state_name (operation_state o);
     row_outcome := outcome o |}.

Definition different_input : ForgeError :=
  Conflict "ref operation idempotency key has different immutable input".

Definition new_operation (i : RefOperationIntent) (id audit : Uuid) (t : DateTime) (oid : string) :
    DurableRefOperation :=
  {| operation_id := id; intent := i; intent_sha256 := sha_intent i;
     qualification_sha256 := sha_qualification (qualification_snapshot i);
     marker_ref := marker_ref_of id; marker := oid; operation_prepared_at := t;
     prepared_audit := audit; operation_state := OS_Prepared; outcome := None |}.

Definition store_prepare (i : RefOperationIntent) (t : DateTime) : O DurableRefOperation :=
  _ <<~ olift (validate_intent i);;
  _ <<~ connect;;
  ops <<~ read_operations;;
  existing <<~ olift (load_by_key ops (intent_repository i) (intent_key i));;
  match existing with
  | Some o => if bool_decide (intent o = i) then oret o else othrow different_input
  | None =>
      if rows_exist (λ x, (row_repository x =? intent_repository i)%N && unresolved_row x) ops
      then othrow (WriterUnavailable "repository has an unresolved ref operation")
      else if dt_leb (intent_expires_at i) t
      then othrow (Validation "new ref operation intent has expired")
      else
        id <<~ within new_v4;;
        oid <<~ olift (marker_oid i);;
        audit <<~ within new_v4;;
        let o := new_operation i id audit t oid in
        ops' <<~ olift (insert_row id (row_of o) ops);;
        audits <<~ read_audits;;
        audits' <<~ olift (insert_operation_audit o audit "requested" t audits);;
        box <<~ read_outbox;;
        _ <<~ tx_commit ops' box audits' None;;
        oret o
  end.

Definition with_outcome (o : DurableRefOperation) (st : DurableRefOperationState)
    (x : RefOperationOutcome) : DurableRefOperation :=
  {| operation_id := operation_id o; intent := intent o; intent_sha256 := intent_sha256 o;
     qualification_sha256 := qualification_sha256 o; marker_ref := marker_ref o;
     marker := marker o; operation_prepared_at := operation_prepared_at o;
     prepared_audit := prepared_audit o; operation_state := st; outcome := Some x |}.

(** The update of the row, which must still be prepared. *)
Definition update_outcome (repository id : Uuid) (o : DurableRefOperation)
    (ops : gmap Uuid OperationRow) : result (gmap Uuid OperationRow) ForgeError :=
  match ops !! id with
  | Some row =>
      if (row_repository row =? repository)%N && String.eqb (row_state row) "prepared"
      then
        Ok (<[id := {| row_repository := row_repository row; row_key := row_key row;
                       row_intent := row_intent row; row_intent_sha256 := row_intent_sha256 row;
                       row_qualification_sha256 := row_qualification_sha256 row;
                       row_marker_ref := row_marker_ref row; row_marker := row_marker row;
                       row_prepared_at := row_prepared_at row;
                       row_prepared_audit := row_prepared_audit row;
                       row_state := state_name (operation_state o);
                       row_outcome := outcome o |}]> ops)
      else Err (Conflict "ref operation changed during outcome persistence")
  | None => Err (Conflict "ref operation changed during outcome persistence")
  end.

Definition new_event (id repository operation : Uuid) (o : DurableRefOperation) (t : DateTime) :
    RefOperationEvent :=
  {| ref_event_id := id; event_operation_id := operation; ref_event_repository := repository;
     event_created_at := t; event_operation := o; delivered_at := None; delivery_receipt := None |}.

Definition insert_event_of (repository id : Uuid) (o : DurableRefOperation) (x : RefOperationOutcome)
    (ops : gmap Uuid OperationRow) (box : gmap Uuid OutboxRow) :
    result (gmap Uuid OutboxRow) ForgeError :=
  match outcome_event x with
  | None => Ok box
  | Some e =>
      insert_event e
        {| box_operation := id; box_repository := repository; box_created_at := recorded_at x;
           box_payload := new_event e repository id o (recorded_at x);
           box_delivered_at := None; box_receipt := None |} ops box
  end.

(** The new state is made by [on_committed] from the current one, for a committed outcome only. *)
Definition store_reconcile (repository id : Uuid) (x : RefOperationObservation)
    (on_committed : State → result State ForgeError) : O DurableRefOperation :=
  _ <<~ connect;;
  ops <<~ read_operations;;
  o <<~ olift (load_operation ops repository id);;
  match outcome o with
  | Some y =>
      if bool_decide (outcome_observation y = x) then oret o
      else othrow (Conflict "ref operation already has an immutable outcome; reconciliation requires separate authority")
  | None =>
      let st := classify o x in
      s <<~ within read_state;;
      proposed <<~ olift (if bool_decide (st = OS_Committed)
                          then match on_committed s with Ok s' => Ok (Some s') | Err e => Err e end
                          else Ok None);;
      t <<~ within now;;
      audit <<~ within new_v4;;
      event <<~ (if bool_decide (st = OS_Committed)
                 then e <<~ within new_v4;; oret (Some e) else oret None);;
      let y := {| outcome_observation := x; recorded_at := t; outcome_audit := audit;
                  outcome_event := event |} in
      let o' := with_outcome o st y in
      ops' <<~ olift (update_outcome repository id o' ops);;
      audits <<~ read_audits;;
      audits' <<~ olift (insert_operation_audit o' audit
                           (if bool_decide (st = OS_Committed) then "completed" else "failed") t audits);;
      box <<~ read_outbox;;
      box' <<~ olift (insert_event_of repository id o' y ops' box);;
      _ <<~ tx_commit ops' box' audits' proposed;;
      oret o'
  end.

Definition deliver (row : OutboxRow) (t : DateTime) (receipt : string) : OutboxRow :=
  {| box_operation := box_operation row; box_repository := box_repository row;
     box_created_at := box_created_at row; box_payload := box_payload row;
     box_delivered_at := Some t; box_receipt := Some receipt |}.

Definition update_delivery (repository id : Uuid) (t : DateTime) (receipt : string)
    (box : gmap Uuid OutboxRow) : result (gmap Uuid OutboxRow) ForgeError :=
  match box !! id with
  | Some row =>
      if (box_repository row =? repository)%N && bool_decide (box_delivered_at row = None)
      then Ok (<[id := deliver row t receipt]> box)
      else Err (Conflict "outbox delivery changed")
  | None => Err (Conflict "outbox delivery changed")
  end.

Definition store_acknowledge (repository id : Uuid) (receipt : string) : O RefOperationEvent :=
  _ <<~ connect;;
  ops <<~ read_operations;;
  box <<~ read_outbox;;
  e <<~ olift (load_event ops box repository id);;
  match delivery_receipt e with
  | Some existing =>
      if String.eqb existing receipt then oret e
      else othrow (Conflict "outbox event already has a different delivery receipt")
  | None =>
      t <<~ within now;;
      box' <<~ olift (update_delivery repository id t receipt box);;
      audits <<~ read_audits;;
      _ <<~ tx_commit ops box' audits None;;
      oret (with_delivery e (Some t) (Some receipt))
  end.

(** Oldest first; instants are compared as the text of the column. *)
Definition pending_leb (a b : Uuid * OutboxRow) : bool :=
  let x := to_rfc3339 (box_created_at a.2) in
  let y := to_rfc3339 (box_created_at b.2) in
  if String.eqb x y then (a.1 <=? b.1)%N else String.leb x y.

Definition pending_ids (box : gmap Uuid OutboxRow) (repository : Uuid) (limit : N) : list Uuid :=
  map fst (take (N.to_nat limit) (isort pending_leb
    (filter (λ x, box_repository x.2 = repository ∧ box_delivered_at x.2 = None) (map_to_list box)))).

Fixpoint load_events (ops : gmap Uuid OperationRow) (box : gmap Uuid OutboxRow) (repository : Uuid)
    (ids : list Uuid) : result (list RefOperationEvent) ForgeError :=
  match ids with
  | [] => Ok []
  | id :: ids =>
      (let? e := load_event ops box repository id in
       let? l := load_events ops box repository ids in Ok (e :: l))%result
  end.

Definition store_pending (repository : Uuid) (limit : N) : O (list RefOperationEvent) :=
  _ <<~ connect;;
  ops <<~ read_operations;;
  box <<~ read_outbox;;
  olift (load_events ops box repository (pending_ids box repository limit)).

Definition is_merge (o : DurableRefOperation) : bool :=
  match intent_operation (intent o) with RK_Merge _ _ _ _ => true | RK_RefUpdate => false end.

Definition read_event (ops : gmap Uuid OperationRow) (box : gmap Uuid OutboxRow) (repository : Uuid)
    (o : DurableRefOperation) : result (option RefOperationEvent) ForgeError :=
  match outcome o ≫= outcome_event with
  | None => Ok None
  | Some id => match load_event ops box repository id with Ok e => Ok (Some e) | Err e => Err e end
  end.

(** [event.operation != operation] compares what is stored with what is read. *)
Definition foreign_event (repository : Uuid) (o : DurableRefOperation) (e : RefOperationEvent) : bool :=
  negb (ref_event_repository e =? repository)%N || negb (event_operation_id e =? operation_id o)%N
  || negb (bool_decide (event_operation e = o)).

Definition store_readback (repository id : Uuid) : O MergeOperationReadback :=
  _ <<~ connect;;
  ops <<~ read_operations;;
  box <<~ read_outbox;;
  o <<~ olift (load_operation ops repository id);;
  if negb (is_merge o) then othrow (Validation "operation is not a merge operation")
  else
    e <<~ olift (read_event ops box repository o);;
    if match e with Some e => foreign_event repository o e | None => false end
    then othrow (Storage "merge readback delivery belongs to a different operation")
    else
      t <<~ within now;;
      _ <<~ connect;;
      oret {| read_operation := o; read_delivery := e; observed_at := t |}.

(** * Calls (engine/ref_operations.rs) *)

Definition get_ref_operation (repository id : Uuid) : O DurableRefOperation :=
  _ <<~ within (guard process_error);;
  _ <<~ operation_storage;;
  _ <<~ connect;;
  ops <<~ read_operations;;
  olift (load_operation ops repository id).

Definition get_ref_operation_by_key (repository : Uuid) (key : string) :
    O (option DurableRefOperation) :=
  _ <<~ within (guard process_error);;
  _ <<~ operation_storage;;
  _ <<~ connect;;
  ops <<~ read_operations;;
  olift (load_by_key ops repository key).

Definition pending_ref_operation_events (repository : Uuid) (limit : N) : O (list RefOperationEvent) :=
  _ <<~ within (guard process_error);;
  if (limit =? 0)%N || (1000 <? limit)%N
  then othrow (Validation "outbox limit must be between1 and1000")
  else
    _ <<~ operation_storage;;
    store_pending repository limit.

Fixpoint all_admissible (s : State) (writes : Uuid → bool) (ids : list Uuid) : result unit ForgeError :=
  match ids with
  | [] => Ok tt
  | id :: ids =>
      (let? _ := require_repository_admissible s id (writes id) in all_admissible s writes ids)%result
  end.

Definition prepare_ref_operation (i : RefOperationIntent) : O DurableRefOperation :=
  _ <<~ within (guard process_error);;
  _ <<~ olift (validate_intent i);;
  _ <<~ operation_storage;;
  _ <<~ connect;;
  ops <<~ read_operations;;
  existing <<~ olift (load_by_key ops (intent_repository i) (intent_key i));;
  match existing with
  | Some o => if bool_decide (intent o = i) then oret o else othrow different_input
  | None =>
      _ <<~ within (guard ordinary_error);;
      s <<~ within read_state;;
      _ <<~ olift (require_repository_admissible s (intent_repository i) true);;
      _ <<~ olift (all_admissible s (λ id, (id =? intent_repository i)%N) (repositories_of i));;
      t <<~ within now;;
      store_prepare i t
  end.

Definition reconcile_ref_operation (repository id : Uuid) (x : RefOperationObservation)
    (on_committed : State → result State ForgeError) : O DurableRefOperation :=
  _ <<~ within (guard process_error);;
  _ <<~ operation_storage;;
  _ <<~ connect;;
  ops <<~ read_operations;;
  _ <<~ olift (load_operation ops repository id);;
  _ <<~ within (guard ordinary_error);;
  store_reconcile repository id x on_committed.

Definition acknowledge_ref_operation_event (repository id : Uuid) (receipt : string) :
    O RefOperationEvent :=
  _ <<~ within (guard process_error);;
  if negb (String.length receipt =? 64) || negb (string_all is_lower_hex receipt)
  then othrow (Validation "delivery receipt must be a full lowercase SHA256")
  else
    _ <<~ within (guard ordinary_error);;
    _ <<~ operation_storage;;
    store_acknowledge repository id receipt.

Definition require_operation_read_access (s : State) (login : string) (administrator : bool)
    (repository : Uuid) : result unit ForgeError :=
  if administrator then Ok tt
  else
    match repository_by_id s repository with
    | None => Err (Forbidden "current repository read access is required")
    | Some r =>
        if private r
           && negb match repo_grants s !! (login, repo_owner r, repo_name r) with
                   | Some g => allows_read (access g) | None => false end
        then Err (Forbidden "current repository read access is required") else Ok tt
    end.

Definition read_source (s : State) (login : string) (administrator : bool) (o : DurableRefOperation) :
    result unit ForgeError :=
  match intent_operation (intent o) with
  | RK_Merge _ source _ _ => require_operation_read_access s login administrator source
  | RK_RefUpdate => Ok tt
  end.

Definition merge_operation (a : AuthenticatedActor) (repository id : Uuid) : O MergeOperationReadback :=
  if (repository =? 0)%N || (id =? 0)%N
  then othrow (Validation "full nonnil repository and operation UUIDs are required")
  else
    _ <<~ within (guard process_error);;
    s <<~ within read_state;;
    t <<~ within now;;
    b <<~ olift (validate_actor_locked t s a false);;
    match accounts s !! actor_login b with
    | None => othrow (Unauthenticated "account disappeared")
    | Some u =>
        let administrator := bool_decide (role u = UR_Admin) in
        _ <<~ olift (require_operation_read_access s (actor_login b) administrator repository);;
        _ <<~ operation_storage;;
        r <<~ store_readback repository id;;
        _ <<~ olift (read_source s (actor_login b) administrator (read_operation r));;
        t' <<~ within now;;
        _ <<~ olift (validate_actor_locked t' s a false);;
        _ <<~ within (guard process_error);;
        oret r
    end.

End journal.
