(* ===== verification/RefOperationLaws.v ===== *)
(** RefOperationLaws: what the journal of ref operations guarantees: its rows can always be
    read back, an outcome is written once and never again, and the state moves with the
    outcome or not at all. *)

From Stdlib Require Import Ascii.
From S2P Require Import Prelude Text Clock Json BranchProtection ForgeState Forge ForgeLaws.
From S2P Require Import ForgeInvariant ForgeCalls BoundReviews RefOperations.
Local Open Scope forge_scope.

Section rows.
Context `{R : RefEnv}.

(** ** Rows and operations *)

Lemma state_name_read st : state_of_name (state_name st) = Some st.
Proof. by destruct st. Qed.

Lemma state_read_name n st : state_of_name n = Some st → n = state_name st.
Proof.
  unfold state_of_name. repeat (case_match eqn:Hn; [apply String.eqb_eq in Hn as ->; by intros [= <-]|clear Hn]).
  done.
Qed.

(** An operation that agrees with itself. *)
Record sound (o : DurableRefOperation) : Prop := {
  so_valid : validate_intent (intent o) = Ok tt;
  so_marker : marker_oid (intent o) = Ok (marker o);
  so_intent : intent_sha256 o = sha_intent (intent o);
  so_qualification : qualification_sha256 o = sha_qualification (qualification_snapshot (intent o));
  so_ref : marker_ref o = marker_ref_of (operation_id o);
  so_open : outcome o = None ↔ operation_state o = OS_Prepared;
  so_outcome y : outcome o = Some y →
    classify o (outcome_observation y) = operation_state o
    ∧ (is_Some (outcome_event y) ↔ operation_state o = OS_Committed)
}.

Lemma eqb_iff (a b : bool) (P Q : Prop) `{Decision P, Decision Q} :
  Bool.eqb (bool_decide P) (bool_decide Q) = true ↔ (P ↔ Q).
Proof. rewrite eqb_true_iff. do 2 case_bool_decide; naive_solver. Qed.

Lemma row_binding_spec row o oid :
  row_binding row o oid = true ↔
  intent_repository (intent o) = row_repository row ∧ intent_key (intent o) = row_key row
  ∧ intent_sha256 o = sha_intent (intent o)
  ∧ qualification_sha256 o = sha_qualification (qualification_snapshot (intent o))
  ∧ marker_ref o = marker_ref_of (operation_id o) ∧ marker o = oid
  ∧ (outcome o = None ↔ operation_state o = OS_Prepared)
  ∧ ∀ y, outcome o = Some y → classify o (outcome_observation y) = operation_state o
      ∧ (is_Some (outcome_event y) ↔ operation_state o = OS_Committed).
Proof.
  unfold row_binding. rewrite !andb_true_iff, N.eqb_eq, !bool_decide_eq_true, eqb_iff by exact true.
  destruct (outcome o) as [y|].
  - rewrite andb_true_iff, bool_decide_eq_true, eqb_iff by exact true. naive_solver.
  - naive_solver.
Qed.

(** A row is read back exactly if it is the row of an operation that agrees with itself. *)
Lemma decode_spec id row o :
  decode_operation id row = Ok o ↔ operation_id o = id ∧ row = row_of o ∧ sound o.
Proof.
  unfold decode_operation. split.
  - destruct (validate_intent _) as [[]|] eqn:Hv; [|done].
    destruct (state_of_name _) as [st|] eqn:Hst; [|done].
    destruct (marker_oid _) as [oid|] eqn:Hm; [|done].
    destruct (row_binding _ _ _) eqn:Hb; [|done]. intros [= <-]. apply row_binding_spec in Hb.
    destruct Hb as (H1 & H2 & H3 & H4 & H5 & H6 & H7 & H8). cbn in *. subst oid.
    split; [done|]. split; [|by split; cbn].
    unfold row_of. cbn. rewrite <-(state_read_name _ _ Hst), H1, H2. by destruct row.
  - intros (<- & -> & []). change (row_intent (row_of o)) with (intent o).
    change (row_state (row_of o)) with (state_name (operation_state o)).
    rewrite so_valid0, state_name_read, so_marker0.
    assert (Heq : of_row (operation_id o) (row_of o) (operation_state o) = o) by by destruct o.
    rewrite Heq, (proj2 (row_binding_spec (row_of o) o (marker o))); [done|by split_and!].
Qed.

End rows.

(** ** Running the calls *)

Section running.
Context `{R : RefEnv}.

(** Where a call that began at [c0] is. *)
Record at_op (c0 : OpCore) (s : State) (ops : gmap Uuid OperationRow) (box : gmap Uuid OutboxRow)
    (au : list RefAudit) (c : OpCore) : Prop := {
  ao_saved : saved (forge c0) → saved (forge c); ao_state : state (forge c) = s;
  ao_operations : operations c = ops; ao_outbox : outbox c = box; ao_audits : ref_audits c = au
}.

Definition owp {A} (m : O A) (Q : result A ForgeError → OpCore → Prop) (c : OpCore) : Prop :=
  Q (m c).1 (m c).2.

Definition othen {A X} (k : A → O X) (Q : result X ForgeError → OpCore → Prop) :
    result A ForgeError → OpCore → Prop :=
  λ r c, match r with Ok x => owp (k x) Q c | Err e => Q (Err e) c end.

Lemma owp_bind {A X} (m : O A) (k : A → O X) Q c : owp m (othen k Q) c → owp (obind m k) Q c.
Proof. unfold owp, othen, obind. by destruct (m c) as [[x|e] c']. Qed.

Lemma owp_mono {A} (m : O A) (Q Q' : result A ForgeError → OpCore → Prop) c :
  owp m Q c → (∀ r c', Q r c' → Q' r c') → owp m Q' c.
Proof. unfold owp. auto. Qed.

Lemma owp_ret {A} (x : A) (Q : result A ForgeError → OpCore → Prop) c : Q (Ok x) c → owp (oret x) Q c.
Proof. done. Qed.

Lemma owp_throw {A} e (Q : result A ForgeError → OpCore → Prop) c : Q (Err e) c → owp (othrow e) Q c.
Proof. done. Qed.

Lemma owp_lift {A} (r : result A ForgeError) Q c : Q r c → owp (olift r) Q c.
Proof. by destruct r. Qed.

Lemma owp_state Q c c0 s ops box au :
  at_op c0 s ops box au c → Q (Ok s) c → owp (within read_state) Q c.
Proof. intros [Hs <- <- <- <-] HQ. unfold owp, within. destruct c. exact HQ. Qed.

Lemma owp_operations Q c c0 s ops box au : at_op c0 s ops box au c → Q (Ok ops) c → owp read_operations Q c.
Proof. by intros [_ _ <- _ _]. Qed.

Lemma owp_outbox Q c c0 s ops box au : at_op c0 s ops box au c → Q (Ok box) c → owp read_outbox Q c.
Proof. by intros [_ _ _ <- _]. Qed.

Lemma owp_audits Q c c0 s ops box au : at_op c0 s ops box au c → Q (Ok au) c → owp read_audits Q c.
Proof. by intros [_ _ _ _ <-]. Qed.

Lemma owp_ask {A} (f : nat → A) Q c c0 s ops box au :
  at_op c0 s ops box au c → (∀ x c', at_op c0 s ops box au c' → Q (Ok x) c') →
  owp (within (ask f)) Q c.
Proof. intros [Hs <- <- <- <-] HQ. apply HQ. by split. Qed.

Lemma owp_guard f Q c c0 s ops box au :
  at_op c0 s ops box au c → (∀ c', at_op c0 s ops box au c' → Q (Ok tt) c') →
  (∀ e c', at_op c0 s ops box au c' → Q (Err e) c') → owp (within (guard f)) Q c.
Proof.
  intros [Hs <- <- <- <-] H1 H2. unfold owp, within, guard, bind, ask.
  destruct (f (asked (forge c))); [apply H2|apply H1]; by split.
Qed.

Lemma owp_storage Q c : Q (Ok tt) c → (∀ e, Q (Err e) c) → owp operation_storage Q c.
Proof. intros H1 H2. unfold owp, operation_storage. destruct (stored (forge c)); [done|apply H2]. Qed.

Lemma owp_commit ops' box' au' o Q c c0 s ops box au :
  at_op c0 s ops box au c →
  (∀ c', at_op c0 (or_else o s) ops' box' au' c' → Q (Ok tt) c') →
  (∀ e c', at_op c0 s ops box au c' → Q (Err e) c') → owp (tx_commit ops' box' au' o) Q c.
Proof.
  intros [Hs <- <- <- <-] H1 H2. unfold owp, tx_commit.
  destruct (journal_error _); [apply H2; by split|]. apply H1. split; try done.
  intros Hc%Hs. unfold saved in *. cbn. by destruct o, (stored (forge c)).
Qed.

End running.

Ltac ostep :=
  match goal with
  | |- othen _ _ (Ok _) _ => unfold othen; cbv beta iota
  | |- othen _ _ (Err _) _ => unfold othen; cbv beta iota
  | |- othen _ _ ?r _ => destruct r eqn:?
  | |- owp (obind _ _) _ _ => apply owp_bind
  | |- owp (oret _) _ _ => apply owp_ret
  | |- owp (othrow _) _ _ => apply owp_throw
  | |- owp (olift _) _ _ => apply owp_lift
  | H : at_op _ _ _ _ _ ?c |- owp (within read_state) _ ?c => eapply (owp_state _ c _ _ _ _ _ H)
  | H : at_op _ _ _ _ _ ?c |- owp read_operations _ ?c => eapply (owp_operations _ c _ _ _ _ _ H)
  | H : at_op _ _ _ _ _ ?c |- owp read_outbox _ ?c => eapply (owp_outbox _ c _ _ _ _ _ H)
  | H : at_op _ _ _ _ _ ?c |- owp read_audits _ ?c => eapply (owp_audits _ c _ _ _ _ _ H)
  | H : at_op _ _ _ _ _ ?c |- owp (within (ask _)) _ ?c =>
      eapply (owp_ask _ _ c _ _ _ _ _ H); clear c H; intros ? ? ?
  | H : at_op _ _ _ _ _ ?c |- owp (within now) _ ?c =>
      eapply (owp_ask _ _ c _ _ _ _ _ H); clear c H; intros ? ? ?
  | H : at_op _ _ _ _ _ ?c |- owp (within new_v4) _ ?c =>
      eapply (owp_ask _ _ c _ _ _ _ _ H); clear c H; intros ? ? ?
  | H : at_op _ _ _ _ _ ?c |- owp (within (guard _)) _ ?c =>
      eapply (owp_guard _ _ c _ _ _ _ _ H); clear c H; [intros ? ?|intros ? ? ?]
  | H : at_op _ _ _ _ _ ?c |- owp connect _ ?c =>
      eapply (owp_guard _ _ c _ _ _ _ _ H); clear c H; [intros ? ?|intros ? ? ?]
  | |- owp operation_storage _ _ => apply owp_storage; [|intros ?]
  | H : at_op _ _ _ _ _ ?c |- owp (tx_commit _ _ _ _) _ ?c =>
      eapply (owp_commit _ _ _ _ _ c _ _ _ _ _ H); clear c H; [intros ? ?|intros ? ? ?]
  | |- owp (if ?b then _ else _) _ _ => destruct b eqn:?
  | |- owp (match ?x with _ => _ end) _ _ => destruct x eqn:?
  | |- owp _ _ _ => progress (cbv zeta beta)
  end.

Section steps.
Context `{R : RefEnv}.

(** ** What one call does to the journal *)

(** A row was inserted with its audit row. *)
Record row_prepared (c : OpCore) (i : RefOperationIntent) (o : DurableRefOperation) (c' : OpCore) :
    Prop := {
  rp_none : load_by_key (operations c) (intent_repository i) (intent_key i) = Ok None;
  rp_fresh : rows_exist (λ x, (row_repository x =? intent_repository i)%N && unresolved_row x)
               (operations c) = false;
  rp_valid : validate_intent i = Ok tt;
  rp_new : ∃ t oid, dt_leb (intent_expires_at i) t = false ∧ marker_oid i = Ok oid
             ∧ o = new_operation i (operation_id o) (prepared_audit o) t oid;
  rp_rows : insert_row (operation_id o) (row_of o) (operations c) = Ok (operations c');
  rp_audit : insert_operation_audit o (prepared_audit o) "requested" (operation_prepared_at o)
               (ref_audits c) = Ok (ref_audits c');
  rp_box : outbox c' = outbox c
}.

(** The outcome of an open operation was written, with its audit row and its event. *)
Record outcome_written (c : OpCore) (repository id : Uuid) (x : RefOperationObservation)
    (o o' : DurableRefOperation) (c' : OpCore) : Prop := {
  ow_load : load_operation (operations c) repository id = Ok o;
  ow_open : outcome o = None;
  ow_new : ∃ y, o' = with_outcome o (classify o x) y ∧ outcome_observation y = x
             ∧ (is_Some (outcome_event y) ↔ classify o x = OS_Committed)
             ∧ insert_operation_audit o' (outcome_audit y)
                 (if bool_decide (classify o x = OS_Committed) then "completed" else "failed")
                 (recorded_at y) (ref_audits c) = Ok (ref_audits c')
             ∧ insert_event_of repository id o' y (operations c') (outbox c) = Ok (outbox c');
  ow_rows : update_outcome repository id o' (operations c) = Ok (operations c')
}.

(** The delivery of an event was written. *)
Record delivery_written (c : OpCore) (repository id : Uuid) (t : DateTime) (receipt : string)
    (c' : OpCore) : Prop := {
  dw_load : ∃ e, load_event (operations c) (outbox c) repository id = Ok e ∧ delivery_receipt e = None;
  dw_box : update_delivery repository id t receipt (outbox c) = Ok (outbox c');
  dw_rows : operations c' = operations c; dw_audits : ref_audits c' = ref_audits c
}.

Definition same_journal (c c' : OpCore) : Prop :=
  operations c' = operations c ∧ outbox c' = outbox c ∧ ref_audits c' = ref_audits c.

(** Nothing happened, here and in the forge. *)
Definition untouched_op (c c' : OpCore) : Prop :=
  same_journal c c' ∧ state (forge c') = state (forge c) ∧ (saved (forge c) → saved (forge c')).

Lemma at_start c : at_op c (state (forge c)) (operations c) (outbox c) (ref_audits c) c.
Proof. by split. Qed.

Lemma at_untouched c c' :
  at_op c (state (forge c)) (operations c) (outbox c) (ref_audits c) c' → untouched_op c c'.
Proof. intros []. by split_and!. Qed.

Lemma store_prepare_spec i t c0 c :
  at_op c0 (state (forge c0)) (operations c0) (outbox c0) (ref_audits c0) c →
  owp (store_prepare i t)
    (λ r c', match r with
       | Err _ => untouched_op c0 c'
       | Ok o =>
           (untouched_op c0 c'
            ∧ load_by_key (operations c0) (intent_repository i) (intent_key i) = Ok (Some o)
            ∧ intent o = i)
           ∨ (row_prepared c0 i o c' ∧ state (forge c') = state (forge c0)
              ∧ (saved (forge c0) → saved (forge c')))
       end) c.
Proof.
  intros Hc. unfold store_prepare. repeat ostep; try by apply at_untouched.
  - left. split; [by apply at_untouched|]. split; [done|]. by eapply bool_decide_eq_true_1.
  - right. match goal with H : at_op c0 _ _ _ _ c' |- _ => destruct H as [Hs Hst Hops Hbox Hau] end.
    split; [|by split]. destruct a. split; rewrite ?Hops, ?Hbox, ?Hau; try done.
    by eexists _, _.
Qed.

Lemma prepare_ref_spec i c0 c :
  at_op c0 (state (forge c0)) (operations c0) (outbox c0) (ref_audits c0) c →
  owp (prepare_ref_operation i)
    (λ r c', match r with
       | Err _ => untouched_op c0 c'
       | Ok o =>
           (untouched_op c0 c'
            ∧ load_by_key (operations c0) (intent_repository i) (intent_key i) = Ok (Some o)
            ∧ intent o = i)
           ∨ (row_prepared c0 i o c' ∧ state (forge c') = state (forge c0)
              ∧ (saved (forge c0) → saved (forge c'))
              ∧ all_admissible (state (forge c0)) (λ id, (id =? intent_repository i)%N)
                  (repositories_of i) = Ok tt)
       end) c.
Proof.
  intros Hc. unfold prepare_ref_operation. repeat ostep; try by apply at_untouched.
  - left. split; [by apply at_untouched|]. split; [done|]. by eapply bool_decide_eq_true_1.
  - match goal with H : all_admissible _ _ _ = Ok ?u |- _ => destruct u end.
    eapply owp_mono; [by eapply store_prepare_spec|]. intros [o|e] c1; cbv beta iota; [|done].
    intros [(_ & H1 & _)|(H1 & H2 & H3)]; [congruence|right]. by split_and!.
Qed.

Lemma store_reconcile_spec repository id x f c0 c :
  at_op c0 (state (forge c0)) (operations c0) (outbox c0) (ref_audits c0) c →
  owp (store_reconcile repository id x f)
    (λ r c', match r with
       | Err _ => untouched_op c0 c'
       | Ok o' =>
           ∃ o, load_operation (operations c0) repository id = Ok o
             ∧ ((untouched_op c0 c' ∧ o' = o ∧ ∃ y, outcome o = Some y ∧ outcome_observation y = x)
                ∨ (outcome_written c0 repository id x o o' c'
                   ∧ (saved (forge c0) → saved (forge c'))
                   ∧ if bool_decide (classify o x = OS_Committed)
                     then f (state (forge c0)) = Ok (state (forge c'))
                     else state (forge c') = state (forge c0)))
       end) c.
Proof.
  intros Hc. unfold store_reconcile. repeat ostep; try by apply at_untouched.
  all: eexists; split; [done|].
  - left. split; [by apply at_untouched|]. split; [done|]. eexists. split; [done|].
    by eapply bool_decide_eq_true_1.
  - right. match goal with H : at_op c0 _ _ _ _ c' |- _ => destruct H as [Hs Hst Hops Hbox Hau] end.
    match goal with H : bool_decide (classify _ _ = _) = true |- _ => rename H into Hcls end.
    split; [|split; [done|]].
    + split; rewrite ?Hops, ?Hbox, ?Hau; try done. eexists. split; [done|]. split; [done|].
      rewrite Hcls. split; [|by split]. cbn. split; [intros _; by eapply bool_decide_eq_true_1|by eexists].
    + rewrite Hcls. rewrite Hst.
      match goal with H : match f ?s with _ => _ end = Ok ?p |- _ => destruct (f s); [|done] end.
      by simplify_eq.
  - right. match goal with H : at_op c0 _ _ _ _ c' |- _ => destruct H as [Hs Hst Hops Hbox Hau] end.
    match goal with H : bool_decide (classify _ _ = _) = false |- _ => rename H into Hcls end.
    split; [|split; [done|]].
    + split; rewrite ?Hops, ?Hbox, ?Hau; try done. eexists. split; [done|]. split; [done|].
      rewrite Hcls. split; [|by split]. cbn. apply bool_decide_eq_false_1 in Hcls.
      split; [by intros [? ?]|done].
    + rewrite Hcls, Hst. by simplify_eq.
Qed.

Lemma reconcile_spec repository id x f c0 c :
  at_op c0 (state (forge c0)) (operations c0) (outbox c0) (ref_audits c0) c →
  owp (reconcile_ref_operation repository id x f)
    (λ r c', match r with
       | Err _ => untouched_op c0 c'
       | Ok o' =>
           ∃ o, load_operation (operations c0) repository id = Ok o
             ∧ ((untouched_op c0 c' ∧ o' = o ∧ ∃ y, outcome o = Some y ∧ outcome_observation y = x)
                ∨ (outcome_written c0 repository id x o o' c'
                   ∧ (saved (forge c0) → saved (forge c'))
                   ∧ if bool_decide (classify o x = OS_Committed)
                     then f (state (forge c0)) = Ok (state (forge c'))
                     else state (forge c') = state (forge c0)))
       end) c.
Proof.
  intros Hc. unfold reconcile_ref_operation. repeat ostep; try by apply at_untouched.
  eapply owp_mono; [by eapply store_reconcile_spec|]. intros [o|e] c1; cbv beta iota; [|done].
  intros (o0 & H0 & H1). exists o0. split; [congruence|done].
Qed.

Lemma acknowledge_spec repository id receipt c0 c :
  at_op c0 (state (forge c0)) (operations c0) (outbox c0) (ref_audits c0) c →
  owp (acknowledge_ref_operation_event repository id receipt)
    (λ r c', state (forge c') = state (forge c0) ∧ (saved (forge c0) → saved (forge c'))
       ∧ match r with
         | Err _ => same_journal c0 c'
         | Ok e =>
             (same_journal c0 c' ∧ load_event (operations c0) (outbox c0) repository id = Ok e
              ∧ delivery_receipt e = Some receipt)
             ∨ ∃ t, delivery_written c0 repository id t receipt c'
                 ∧ delivered_at e = Some t ∧ delivery_receipt e = Some receipt
         end) c.
Proof.
  intros Hc. unfold acknowledge_ref_operation_event, store_acknowledge.
  assert (Hsame : ∀ c1, at_op c0 (state (forge c0)) (operations c0) (outbox c0) (ref_audits c0) c1 →
    state (forge c1) = state (forge c0) ∧ (saved (forge c0) → saved (forge c1)) ∧ same_journal c0 c1)
    by (intros c1 []; by split_and!).
  repeat ostep; try by apply Hsame.
  - destruct (Hsame _ H) as (H1 & H2 & H3). split; [done|]. split; [done|]. left. split; [done|].
    split; [done|]. match goal with H : String.eqb _ _ = true |- _ => apply String.eqb_eq in H as <- end. done.
  - match goal with H : at_op c0 _ _ _ _ c' |- _ => destruct H as [Hs Hst Hops Hbox Hau] end.
    split; [done|]. split; [done|]. right. eexists. split; [|by split].
    split; rewrite ?Hops, ?Hbox, ?Hau; try done. by eexists.
Qed.

(** ** The machine: the forge and its journal *)

Inductive OCall : Type :=
  | Op_engine (call : Call)
  | Op_prepare (i : RefOperationIntent)
  | Op_reconcile (repository id : Uuid) (x : RefOperationObservation)
      (on_committed : State → result State ForgeError)
  | Op_acknowledge (repository id : Uuid) (receipt : string)
  | Op_get (repository id : Uuid)
  | Op_get_by_key (repository : Uuid) (key : string)
  | Op_pending (repository : Uuid) (limit : N)
  | Op_readback (a : AuthenticatedActor) (repository id : Uuid).

Definition odiscard {A} (m : O A) : O unit := _ <<~ m;; oret tt.

Definition orun (call : OCall) : O unit :=
  match call with
  | Op_engine call => within (run call)
  | Op_prepare i => odiscard (prepare_ref_operation i)
  | Op_reconcile repository id x f => odiscard (reconcile_ref_operation repository id x f)
  | Op_acknowledge repository id receipt =>
      odiscard (acknowledge_ref_operation_event repository id receipt)
  | Op_get repository id => odiscard (get_ref_operation repository id)
  | Op_get_by_key repository key => odiscard (get_ref_operation_by_key repository key)
  | Op_pending repository limit => odiscard (pending_ref_operation_events repository limit)
  | Op_readback a repository id => odiscard (merge_operation a repository id)
  end.

Fixpoint oserve (calls : list OCall) (c : OpCore) : OpCore :=
  match calls with
  | [] => c
  | call :: calls => oserve calls (orun call c).2
  end.

Inductive journal_step (c c' : OpCore) : Prop :=
  | Js_same : same_journal c c' → journal_step c c'
  | Js_prepared i o : row_prepared c i o c' → journal_step c c'
  | Js_outcome repository id x o o' : outcome_written c repository id x o o' c' → journal_step c c'
  | Js_delivered repository id t receipt :
      delivery_written c repository id t receipt c' → journal_step c c'.

Lemma owp_discard {A} (m : O A) (Q : OpCore → Prop) c :
  owp m (λ _, Q) c → owp (odiscard m) (λ _, Q) c.
Proof. intros H. apply owp_bind. unfold owp, othen in *. by destruct (m c) as [[x|e] c']. Qed.

Lemma orun_step call c : journal_step c (orun call c).2.
Proof.
  pose proof (at_start c) as Hc.
  assert (Hread : ∀ A (m : O A),
    (∀ c1, at_op c (state (forge c)) (operations c) (outbox c) (ref_audits c) c1 →
       owp m (λ _, same_journal c) c1) → journal_step c (odiscard m c).2).
  { intros A m Hm. apply Js_same. apply (owp_discard m (same_journal c)), Hm, Hc. }
  assert (Hat : ∀ c', at_op c (state (forge c)) (operations c) (outbox c) (ref_audits c) c' →
                  same_journal c c') by by intros c' [].
  assert (Hcase : ∀ A (m : O A), owp m (λ _, journal_step c) c → journal_step c (odiscard m c).2).
  { intros A m Hm. by apply (owp_discard m (journal_step c)). }
  destruct call as [call|i|r id x f|r id receipt|r id|r key|r limit|a r id]; cbn [orun].
  - apply Js_same. unfold within. destruct (run call (forge c)). by split_and!.
  - apply Hcase. eapply owp_mono; [by apply prepare_ref_spec|]. intros [o|e] c'; cbv beta iota.
    + intros [[[H _] _]|[H _]]; [by apply Js_same|by eapply Js_prepared].
    + intros [H _]. by apply Js_same.
  - apply Hcase. eapply owp_mono; [by apply reconcile_spec|]. intros [o|e] c'; cbv beta iota.
    + intros (o0 & _ & [[[H _] _]|[H _]]); [by apply Js_same|by eapply Js_outcome].
    + intros [H _]. by apply Js_same.
  - apply Hcase. eapply owp_mono; [by apply acknowledge_spec|]. intros [e|e] c' (_ & _ & H).
    + destruct H as [[H _]|(t & H & _)]; [by apply Js_same|by eapply Js_delivered].
    + by apply Js_same.
  - apply Hread. intros c1 H1. unfold get_ref_operation. repeat ostep; by apply Hat.
  - apply Hread. intros c1 H1. unfold get_ref_operation_by_key. repeat ostep; by apply Hat.
  - apply Hread. intros c1 H1. unfold pending_ref_operation_events, store_pending. repeat ostep; by apply Hat.
  - apply Hread. intros c1 H1. unfold merge_operation, store_readback. repeat ostep; by apply Hat.
Qed.

End steps.
