(* ===== verification/RefOperationHistory.v ===== *)
(** RefOperationHistory: the forge and its journal of ref operations through any calls: every
    row can be read back, a repository has one unresolved operation at most, an outcome stands
    for good, and the state of the forge moves exactly with a committed outcome. *)

From Stdlib Require Import Ascii.
From S2P Require Import Prelude Text Clock Json BranchProtection ForgeState Forge ForgeLaws.
From S2P Require Import BoundReviews RefOperations RefOperationLaws.
Local Open Scope forge_scope.

Section history.
Context `{R : RefEnv}.

(** ** Tables *)

Lemma rows_exist_false {V} (p : V → bool) (m : gmap Uuid V) :
  rows_exist p m = false ↔ ∀ id v, m !! id = Some v → p v = false.
Proof.
  unfold rows_exist. rewrite <-not_true_iff_false, existsb_exists. split.
  - intros Hno id v Hv. destruct (p v) eqn:Hp; [|done]. exfalso. apply Hno. exists v. split; [|done].
    apply list_elem_of_In, list_elem_of_fmap. exists (id, v). split; [done|]. by apply elem_of_map_to_list.
  - intros H (v & Hin & Hp). apply list_elem_of_In, list_elem_of_fmap in Hin as ([id w] & -> & Hw).
    apply elem_of_map_to_list in Hw. cbn in Hp. by rewrite (H _ _ Hw) in Hp.
Qed.

Lemma not_Some_None {A} (x : option A) : bool_decide (is_Some x) = false → x = None.
Proof. intros H%bool_decide_eq_false_1. by apply eq_None_not_Some. Qed.

Lemma insert_row_spec id row ops ops' :
  insert_row id row ops = Ok ops' →
  ops !! id = None ∧ ops' = <[id := row]> ops
  ∧ ∀ id' row', ops !! id' = Some row' → row_repository row' = row_repository row →
      row_key row' ≠ row_key row ∧ (unresolved_row row' && unresolved_row row) = false.
Proof.
  unfold insert_row. destruct (_ || _) eqn:Hc; [done|]. intros [= <-].
  apply orb_false_iff in Hc as [Hn%not_Some_None Hr]. rewrite rows_exist_false in Hr.
  split; [done|]. split; [done|]. intros id' row' Hrow Heq. specialize (Hr _ _ Hrow).
  rewrite Heq, N.eqb_refl in Hr. cbn in Hr.
  apply orb_false_iff in Hr as [[[Hk%String.eqb_neq Hu]%orb_false_iff _]%orb_false_iff _]. done.
Qed.

Lemma insert_audit_spec o id phase t au au' :
  insert_operation_audit o id phase t au = Ok au' →
  (∀ a, a ∈ au → ref_audit_id a ≠ id)
  ∧ ∃ a, au' = au ++ [a] ∧ ref_audit_id a = id ∧ ref_audit_phase a = phase ∧ ref_audit_detail a = o.
Proof.
  unfold insert_operation_audit, audit_exists. destruct (existsb _ _) eqn:Hc; [done|]. intros [= <-].
  split; [|by eexists]. intros a Ha Heq. rewrite <-not_true_iff_false, existsb_exists in Hc. apply Hc.
  exists a. split; [by apply list_elem_of_In|by apply N.eqb_eq].
Qed.

Lemma insert_event_spec e b ops box box' :
  insert_event e b ops box = Ok box' →
  box !! e = None ∧ box' = <[e := b]> box
  ∧ ∀ e' b', box !! e' = Some b' → box_operation b' ≠ box_operation b.
Proof.
  unfold insert_event. destruct (_ || _) eqn:Hc; [done|]. intros [= <-].
  apply orb_false_iff in Hc as [[Hn%not_Some_None Hr]%orb_false_iff _]. rewrite rows_exist_false in Hr.
  split; [done|]. split; [done|]. intros e' b' Hb. by apply Hr, N.eqb_neq in Hb.
Qed.

(** ** The invariant *)

(** The journal holds the operation. *)
Definition holds_operation (c : OpCore) (o : DurableRefOperation) : Prop :=
  operations c !! operation_id o = Some (row_of o) ∧ sound o.

(** The outbox row announces the operation. *)
Definition announces (e : Uuid) (b : OutboxRow) (o : DurableRefOperation) : Prop :=
  box_operation b = operation_id o ∧ box_repository b = intent_repository (intent o)
  ∧ event_binding e (box_repository b) b o = true.

Definition audited (c : OpCore) (o : DurableRefOperation) : Prop :=
  (∃ a, a ∈ ref_audits c ∧ ref_audit_id a = prepared_audit o ∧ ref_audit_phase a = "requested"
     ∧ intent (ref_audit_detail a) = intent o)
  ∧ ∀ y, outcome o = Some y →
      ∃ a, a ∈ ref_audits c ∧ ref_audit_id a = outcome_audit y ∧ ref_audit_detail a = o.

Record journal_ok (c : OpCore) : Prop := {
  jo_rows id row : operations c !! id = Some row → ∃ o, operation_id o = id ∧ row = row_of o ∧ sound o;
  jo_unique o o' : holds_operation c o → holds_operation c o' →
    intent_repository (intent o) = intent_repository (intent o') →
    intent_key (intent o) = intent_key (intent o')
    ∨ (unresolved_row (row_of o) && unresolved_row (row_of o')) = true → o = o';
  jo_events e b : outbox c !! e = Some b → ∃ o, holds_operation c o ∧ announces e b o;
  jo_announced o e : holds_operation c o → outcome o ≫= outcome_event = Some e →
    ∃ b, outbox c !! e = Some b ∧ box_operation b = operation_id o;
  jo_once e e' b b' : outbox c !! e = Some b → outbox c !! e' = Some b' →
    box_operation b = box_operation b' → e = e';
  jo_audits : NoDup (map ref_audit_id (ref_audits c));
  jo_audited o : holds_operation c o → audited c o
}.

Lemma row_of_inj o o' : operation_id o = operation_id o' → row_of o = row_of o' → o = o'.
Proof.
  intros Hid Heq. assert (Hst : state_name (operation_state o) = state_name (operation_state o'))
    by (change (row_state (row_of o) = row_state (row_of o')); congruence).
  apply (f_equal state_of_name) in Hst. rewrite !state_name_read in Hst.
  destruct o, o'. cbn in *. unfold row_of in Heq. cbn in Heq. congruence.
Qed.

Lemma holds_same c o o' :
  holds_operation c o → holds_operation c o' → operation_id o = operation_id o' → o = o'.
Proof. intros [H _] [H' _] Heq. rewrite Heq in H. apply row_of_inj; congruence. Qed.

Lemma holds_load c o repository :
  holds_operation c o → intent_repository (intent o) = repository →
  load_operation (operations c) repository (operation_id o) = Ok o.
Proof.
  intros [Hrow Hs] <-. unfold load_operation. rewrite Hrow.
  change (row_repository (row_of o)) with (intent_repository (intent o)). rewrite N.eqb_refl.
  by apply decode_spec.
Qed.

Lemma load_holds c repository id o :
  load_operation (operations c) repository id = Ok o →
  holds_operation c o ∧ operation_id o = id ∧ intent_repository (intent o) = repository.
Proof.
  unfold load_operation. destruct (operations c !! id) as [row|] eqn:Hrow; [|done].
  destruct (N.eqb_spec (row_repository row) repository) as [Heq|]; [|done].
  intros (Hid & -> & Hs)%decode_spec. split; [|by split]. split; [|done]. congruence.
Qed.

(** An event that is announced can be read. *)
Lemma announced_load c e b o :
  outbox c !! e = Some b → holds_operation c o → announces e b o →
  load_event (operations c) (outbox c) (box_repository b) e
  = Ok (with_delivery (box_payload b) (box_delivered_at b) (box_receipt b)).
Proof.
  intros Hb Ho (Hop & Hrepo & Hbind). unfold load_event. rewrite Hb, N.eqb_refl, Hop.
  rewrite (holds_load c o) by done. by rewrite Hbind.
Qed.

(** ** Every step keeps the invariant *)

Lemma holds_step c c' o :
  (∀ id, operations c !! id ≠ None → operations c' !! id = operations c !! id) →
  holds_operation c o → holds_operation c' o.
Proof. intros H [Hrow Hs]. split; [|done]. rewrite H; [done|by rewrite Hrow]. Qed.

Lemma nodup_snoc (au : list RefAudit) a :
  NoDup (map ref_audit_id au) → (∀ x, x ∈ au → ref_audit_id x ≠ ref_audit_id a) →
  NoDup (map ref_audit_id (au ++ [a])).
Proof.
  intros Hnd Hno. rewrite map_app. apply NoDup_app. split; [done|]. split; [|by apply NoDup_singleton].
  intros x (y & -> & Hy)%list_elem_of_fmap Hx. apply list_elem_of_singleton in Hx. by eapply Hno.
Qed.

Lemma audited_more c c' o a : ref_audits c' = ref_audits c ++ [a] → audited c o → audited c' o.
Proof.
  intros Heq [(x & Hx & H) Hy]. unfold audited. rewrite Heq. split.
  - exists x. split; [by apply elem_of_app; left|done].
  - intros y (z & Hz & H')%Hy. exists z. split; [by apply elem_of_app; left|done].
Qed.

Lemma same_journal_ok c c' : same_journal c c' → journal_ok c → journal_ok c'.
Proof.
  intros (H1 & H2 & H3) []. split; unfold holds_operation, audited in *; rewrite ?H1, ?H2, ?H3; done.
Qed.

Lemma new_sound i id audit t oid :
  validate_intent i = Ok tt → marker_oid i = Ok oid → sound (new_operation i id audit t oid).
Proof. intros Hv Hm. by split. Qed.

Lemma prepared_ok c i o c' : row_prepared c i o c' → journal_ok c → journal_ok c'.
Proof.
  intros [Hnone Hfresh Hv (t & oid & Ht & Hm & Ho) Hrow Haud Hbox] Hok.
  apply insert_row_spec in Hrow as (Hfree & Hops & Hclash).
  apply insert_audit_spec in Haud as (Hnew & a & Hau & Hid & Hph & Hdet).
  assert (Hso : sound o) by (rewrite Ho; by apply new_sound).
  assert (Hout : outcome o = None) by by rewrite Ho.
  assert (Hold : ∀ x, holds_operation c x → holds_operation c' x).
  { intros x. apply holds_step. intros id Hne. rewrite Hops. apply lookup_insert_ne. congruence. }
  assert (Hcase : ∀ x, holds_operation c' x → x = o ∨ holds_operation c x).
  { intros x [Hx Hs]. rewrite Hops in Hx. apply lookup_insert_Some in Hx as [[Hi Hr]|[_ Hx]]; [|by right].
    left. symmetry. by apply row_of_inj. }
  assert (Hsep : ∀ x, holds_operation c x → intent_repository (intent x) = intent_repository (intent o) →
    intent_key (intent x) ≠ intent_key (intent o) ∧ (unresolved_row (row_of x) && unresolved_row (row_of o)) = false).
  { intros x [Hx _] Heq. by apply (Hclash _ _ Hx). }
  split.
  - intros id row. rewrite Hops. intros [[<- <-]|[_ H]]%lookup_insert_Some; [by exists o|by apply Hok].
  - intros x y Hx%Hcase Hy%Hcase Heq Hkey. destruct Hx as [->|Hx], Hy as [->|Hy]; [done| | |by apply Hok].
    + destruct (Hsep y Hy (eq_sym Heq)) as [H1 H2]. rewrite andb_comm in H2.
      destruct Hkey as [Hkey|Hkey]; congruence.
    + destruct (Hsep x Hx Heq) as [H1 H2]. destruct Hkey as [Hkey|Hkey]; congruence.
  - intros e b. rewrite Hbox. intros Hb. destruct (jo_events _ Hok _ _ Hb) as (x & Hx & Hann).
    exists x. split; [by apply Hold|done].
  - intros x e Hx%Hcase He. rewrite Hbox. destruct Hx as [->|Hx]; [by rewrite Hout in He|].
    by apply (jo_announced _ Hok).
  - rewrite Hbox. apply Hok.
  - rewrite Hau. apply nodup_snoc; [apply Hok|]. intros x Hx. rewrite Hid. by apply Hnew.
  - intros x Hx%Hcase. destruct Hx as [->|Hx]; [|by eapply audited_more, Hok].
    split; [|by rewrite Hout]. exists a. split; [rewrite Hau; apply elem_of_app; right; by apply list_elem_of_singleton|].
    by rewrite Hdet.
Qed.

Lemma classify_closed o x : classify o x ≠ OS_Prepared.
Proof. unfold classify. destruct x; [|done]. by repeat case_match. Qed.

Lemma classify_with o st y x : classify (with_outcome o st y) x = classify o x.
Proof. done. Qed.

Lemma outcome_sound o st y :
  sound o → classify o (outcome_observation y) = st →
  (is_Some (outcome_event y) ↔ st = OS_Committed) → sound (with_outcome o st y).
Proof.
  intros [] Hst Hev. split; try done; cbn.
  - split; [done|]. intros ->. by apply classify_closed in Hst.
  - intros z [= <-]. rewrite classify_with. by split.
Qed.

Lemma update_outcome_spec repository o st y ops ops' :
  ops !! operation_id o = Some (row_of o) →
  update_outcome repository (operation_id o) (with_outcome o st y) ops = Ok ops' →
  ops' = <[operation_id o := row_of (with_outcome o st y)]> ops.
Proof. intros Hrow. unfold update_outcome. rewrite Hrow. destruct (_ && _); [|done]. by intros [= <-]. Qed.

(** The new event announces the operation it was made for. *)
Lemma new_event_announces e t o :
  operation_state o = OS_Committed → outcome o ≫= outcome_event = Some e →
  announces e {| box_operation := operation_id o; box_repository := intent_repository (intent o);
                 box_created_at := t;
                 box_payload := new_event e (intent_repository (intent o)) (operation_id o) o t;
                 box_delivered_at := None; box_receipt := None |} o.
Proof.
  intros Hst Hev. split; [done|]. split; [done|]. unfold event_binding. cbn.
  rewrite !N.eqb_refl, Hst, Hev. by rewrite !bool_decide_eq_true_2.
Qed.

(** What the write of an outcome leaves. *)
Lemma outcome_facts c repository id x o o' c' :
  outcome_written c repository id x o o' c' →
  holds_operation c o ∧ operation_id o = id ∧ intent_repository (intent o) = repository
  ∧ holds_operation c' o' ∧ operations c' = <[id := row_of o']> (operations c)
  ∧ operation_id o' = id ∧ intent o' = intent o ∧ prepared_audit o' = prepared_audit o
  ∧ operation_state o' = classify o x ∧ outcome o = None
  ∧ (∃ y, outcome o' = Some y ∧ outcome_observation y = x)
  ∧ (∃ a, ref_audits c' = ref_audits c ++ [a] ∧ ref_audit_detail a = o'
      ∧ (∀ z, z ∈ ref_audits c → ref_audit_id z ≠ ref_audit_id a)
      ∧ ∀ y, outcome o' = Some y → ref_audit_id a = outcome_audit y)
  ∧ match outcome o' ≫= outcome_event with
    | None => outbox c' = outbox c ∧ classify o x ≠ OS_Committed
    | Some e => classify o x = OS_Committed ∧ outbox c !! e = None
        ∧ (∀ e' b', outbox c !! e' = Some b' → box_operation b' ≠ id)
        ∧ ∃ b, outbox c' = <[e := b]> (outbox c) ∧ announces e b o'
            ∧ box_delivered_at b = None
    end.
Proof.
  intros [Hload Hopen (y & -> & Hx & Hev & Haud & Hbox) Hrows].
  apply load_holds in Hload as ([Hrow Hs] & Hid & Hrepo). subst id repository.
  apply update_outcome_spec in Hrows as Hops; [|done].
  apply insert_audit_spec in Haud as (Hnew & a & Hau & Haid & _ & Hdet).
  assert (Hs' : sound (with_outcome o (classify o x) y)) by (apply outcome_sound; [done|by rewrite Hx|done]).
  split; [by split|]. split; [done|]. split; [done|]. split.
  { split; [|done]. change (operation_id (with_outcome _ _ _)) with (operation_id o).
    rewrite Hops. apply lookup_insert_eq. }
  do 6 (split; [done|]). split; [by exists y|]. split.
  { exists a. split; [done|]. split; [done|]. split; [by rewrite Haid|]. by intros z [= <-]. }
  cbn. unfold insert_event_of in Hbox. destruct (outcome_event y) as [e|] eqn:He.
  - assert (Hc : classify o x = OS_Committed) by by apply Hev. split; [done|].
    apply insert_event_spec in Hbox as (Hfree & Hbox & Hclash). split; [done|]. split; [exact Hclash|].
    eexists. split; [exact Hbox|]. split; [|done].
    apply (new_event_announces e (recorded_at y) (with_outcome o (classify o x) y)); [done|].
    cbn. by rewrite He.
  - injection Hbox as ->. split; [done|]. intros Hc. apply Hev in Hc. by destruct Hc.
Qed.

Lemma unresolved_prepared o : operation_state o = OS_Prepared → unresolved_row (row_of o) = true.
Proof. unfold unresolved_row, row_of. cbn. by intros ->. Qed.

Lemma written_ok c repository id x o o' c' :
  outcome_written c repository id x o o' c' → journal_ok c → journal_ok c'.
Proof.
  intros Hw Hok. pose proof (outcome_facts _ _ _ _ _ _ _ Hw) as
    (Ho & Hid & Hrepo & Ho' & Hops & Hid' & Hi & Hpa & Hst & Hopen & (y & Hy & _)
     & (a & Hau & Hdet & Hnew & Haid) & Hbox).
  assert (Hprep : unresolved_row (row_of o) = true) by (apply unresolved_prepared, (so_open _ (proj2 Ho)), Hopen).
  assert (Hcase : ∀ z, holds_operation c' z → z = o' ∨ (holds_operation c z ∧ operation_id z ≠ id)).
  { intros z [Hz Hs]. rewrite Hops in Hz. apply lookup_insert_Some in Hz as [[Hi' Hr]|[Hi' Hz]]; [|right].
    - left. symmetry. apply row_of_inj; congruence.
    - split; [by split|]. congruence. }
  assert (Hold : ∀ z, holds_operation c z → operation_id z ≠ id → holds_operation c' z).
  { intros z [Hz Hs] Hne. split; [|done]. by rewrite Hops, lookup_insert_ne by congruence. }
  assert (Hkeep : ∀ e b, outbox c !! e = Some b → outbox c' !! e = Some b).
  { intros e b Hb. destruct (outcome o' ≫= outcome_event) as [e'|]; [|by destruct Hbox as [-> _]].
    destruct Hbox as (_ & Hfree & _ & b' & -> & _). rewrite lookup_insert_ne; [done|congruence]. }
  assert (Hann : ∀ e b z, outbox c !! e = Some b → holds_operation c z → announces e b z → operation_id z ≠ id).
  { intros e b z Hb Hz (_ & _ & Hbind) Heq. assert (z = o) as -> by (eapply holds_same; [done..|congruence]).
    unfold event_binding in Hbind. rewrite Hopen in Hbind. cbn in Hbind.
    rewrite (bool_decide_eq_false_2 (None = Some e)) in Hbind by done.
    by rewrite andb_false_r in Hbind. }
  split.
  - intros id0 row. rewrite Hops. intros [[<- <-]|[_ H]]%lookup_insert_Some; [|by apply Hok].
    exists o'. by split_and!; [..|apply Ho'].
  - intros u v Hu%Hcase Hv%Hcase Heq Hkey. destruct Hu as [->|[Hu Hnu]], Hv as [->|[Hv Hnv]]; [done| | |by apply Hok].
    + exfalso. apply Hnv. rewrite <-Hid. f_equal. apply (jo_unique _ Hok); [done..|congruence|].
      rewrite Hi in Hkey. destruct Hkey as [Hkey|[_ Hkey]%andb_true_iff]; [by left|right]. by rewrite Hprep, Hkey.
    + exfalso. apply Hnu. rewrite <-Hid. f_equal. apply (jo_unique _ Hok); [done..|congruence|].
      rewrite Hi in Hkey. destruct Hkey as [Hkey|[Hkey _]%andb_true_iff]; [by left|right]. by rewrite Hprep, Hkey.
  - intros e b Hb. destruct (outcome o' ≫= outcome_event) as [e'|] eqn:He'.
    + destruct Hbox as (_ & Hfree & Hno & b' & Heq & Hann' & _). rewrite Heq in Hb.
      apply lookup_insert_Some in Hb as [[<- <-]|[_ Hb]]; [by exists o'|].
      destruct (jo_events _ Hok _ _ Hb) as (z & Hz & Ha). exists z. split; [|done].
      apply Hold; [done|]. by eapply Hann.
    + destruct Hbox as [Heq _]. rewrite Heq in Hb. destruct (jo_events _ Hok _ _ Hb) as (z & Hz & Ha).
      exists z. split; [|done]. apply Hold; [done|]. by eapply Hann.
  - intros z e Hz%Hcase He. destruct Hz as [->|[Hz _]].
    + rewrite He in Hbox. destruct Hbox as (_ & _ & _ & b & -> & (Hb & _) & _).
      exists b. by rewrite lookup_insert_eq.
    + destruct (jo_announced _ Hok _ _ Hz He) as (b & Hb & Hop). exists b. split; [by apply Hkeep|done].
  - intros e e' b b' Hb Hb' Heq. destruct (outcome o' ≫= outcome_event) as [e0|]; [|destruct Hbox as [Hb0 _];
      rewrite Hb0 in *; by eapply (jo_once _ Hok)].
    destruct Hbox as (_ & _ & Hno & b0 & Hb0 & (Hop & _) & _). rewrite Hb0 in *.
    apply lookup_insert_Some in Hb as [[<- <-]|[_ Hb]], Hb' as [[<- <-]|[_ Hb']]; [done| | |by eapply (jo_once _ Hok)].
    + exfalso. eapply Hno; [exact Hb'|congruence].
    + exfalso. eapply Hno; [exact Hb|congruence].
  - rewrite Hau. apply nodup_snoc; [apply Hok|done].
  - intros z Hz%Hcase. destruct Hz as [->|[Hz _]]; [|by eapply audited_more, Hok].
    destruct (audited_more _ c' _ _ Hau (jo_audited _ Hok _ Ho)) as [Hreq _]. unfold audited. rewrite Hi, Hpa.
    split; [exact Hreq|]. intros y' Hy'. exists a. split; [rewrite Hau; apply elem_of_app; right; by apply list_elem_of_singleton|].
    split; [by apply Haid|done].
Qed.

Lemma delivered_ok c repository id t receipt c' :
  delivery_written c repository id t receipt c' → journal_ok c → journal_ok c'.
Proof.
  intros [_ Hbox Hops Hau] Hok. unfold update_delivery in Hbox.
  destruct (outbox c !! id) as [b|] eqn:Hb; [|done].
  destruct (_ && _) eqn:Hc; [|done]. injection Hbox as Hbox.
  assert (Hcase : ∀ e b', outbox c' !! e = Some b' →
    ∃ b0, outbox c !! e = Some b0 ∧ box_operation b' = box_operation b0
      ∧ ∀ o, announces e b0 o → announces e b' o).
  { intros e b'. rewrite <-Hbox. intros [[<- <-]|[_ H]]%lookup_insert_Some; [|by exists b'].
    exists b. split; [done|]. split; [done|]. intros o (H1 & H2 & H3). split; [done|]. split; [done|].
    unfold event_binding in *. cbn. apply andb_true_iff in H3 as [H3 H4]. by rewrite H3. }
  assert (Hh : ∀ o, holds_operation c' o ↔ holds_operation c o) by (intros o; unfold holds_operation; by rewrite Hops).
  split.
  - rewrite Hops. apply Hok.
  - intros o o'. rewrite !Hh. apply Hok.
  - intros e b' (b0 & H0 & _ & Hann)%Hcase. destruct (jo_events _ Hok _ _ H0) as (o & Ho & Ha).
    exists o. rewrite Hh. auto.
  - intros o e Ho%Hh He. destruct (jo_announced _ Hok _ _ Ho He) as (b0 & H0 & Hop). rewrite <-Hbox.
    destruct (decide (e = id)) as [->|Hne]; [|exists b0; by rewrite lookup_insert_ne].
    exists (deliver b t receipt). rewrite lookup_insert_eq. split; [done|]. simplify_eq. done.
  - intros e e' b1 b2 (x1 & H1 & E1 & _)%Hcase (x2 & H2 & E2 & _)%Hcase Heq.
    eapply (jo_once _ Hok); [done..|congruence].
  - rewrite Hau. apply Hok.
  - intros o Ho%Hh. unfold audited. rewrite Hau. by apply (jo_audited _ Hok).
Qed.

Lemma ref_step_ok c c' : journal_step c c' → journal_ok c → journal_ok c'.
Proof.
  destruct 1; [by apply same_journal_ok|by eapply prepared_ok|by eapply written_ok|by eapply delivered_ok].
Qed.

Lemma oserve_ok calls c : journal_ok c → journal_ok (oserve calls c).
Proof. revert c. induction calls as [|call calls IH]; intros c Hc; [done|]. apply IH. by eapply ref_step_ok, Hc; apply orun_step. Qed.

(** ** What stands for good *)

Lemma settled_step c c' o y :
  journal_step c c' → holds_operation c o → outcome o = Some y → holds_operation c' o.
Proof.
  intros Hstep Ho Hy. destruct Hstep as [(H & _ & _)|i o' [_ _ _ _ Hrow _ _]|r id x o0 o' Hw|r id t rc [_ _ Hops _]].
  - by apply (holds_step c); [by rewrite H|].
  - apply insert_row_spec in Hrow as (Hfree & Hops & _). apply (holds_step c); [|done].
    intros id Hne. rewrite Hops. apply lookup_insert_ne. congruence.
  - apply outcome_facts in Hw as (H0 & Hid & _ & _ & Hops & _ & _ & _ & _ & Hopen & _).
    destruct Ho as [Hrow Hs]. split; [|done]. rewrite Hops, lookup_insert_ne; [done|]. intros Heq.
    assert (o0 = o) by (eapply holds_same; [exact H0|by split|congruence]). congruence.
  - apply (holds_step c); [by rewrite Hops|done].
Qed.

Lemma settled_oserve calls c o y :
  holds_operation c o → outcome o = Some y → holds_operation (oserve calls c) o.
Proof.
  intros Ho Hy. revert c Ho. induction calls as [|call calls IH]; intros c Ho; [done|].
  apply IH. eapply settled_step; [apply orun_step|done|done].
Qed.

Lemma load_by_key_holds c o :
  journal_ok c → holds_operation c o →
  load_by_key (operations c) (intent_repository (intent o)) (intent_key (intent o)) = Ok (Some o).
Proof.
  intros Hok Ho. unfold load_by_key. destruct (find_first _ _) as [[id row]|] eqn:Hf.
  - apply find_first_Some in Hf as (l1 & l2 & Hl & [Hr%N.eqb_eq Hk%String.eqb_eq]%andb_true_iff & _).
    assert (Hrow : operations c !! id = Some row).
    { apply elem_of_map_to_list. rewrite Hl. apply elem_of_app. right. by left. }
    destruct (jo_rows _ Hok _ _ Hrow) as (o' & <- & -> & Hs). cbn in Hr, Hk.
    rewrite (proj2 (decode_spec _ _ o')) by done.
    by rewrite (jo_unique _ Hok o' o); [|by split|done|done|left].
  - exfalso. assert (Hin : (operation_id o, row_of o) ∈ map_to_list (operations c))
      by (apply elem_of_map_to_list, Ho).
    apply find_first_None in Hf. rewrite Forall_forall in Hf. apply Hf in Hin. cbn in Hin. by rewrite N.eqb_refl, String.eqb_refl in Hin.
Qed.

Lemma load_event_inv ops box r e ev :
  load_event ops box r e = Ok ev →
  ∃ b o, box !! e = Some b ∧ box_repository b = r ∧ load_operation ops r (box_operation b) = Ok o
    ∧ event_binding e r b o = true ∧ ev = with_delivery (box_payload b) (box_delivered_at b) (box_receipt b).
Proof.
  unfold load_event. destruct (box !! e) as [b|] eqn:Hb; [|done].
  destruct (N.eqb_spec (box_repository b) r) as [Hr|]; [|done].
  destruct (load_operation ops r (box_operation b)) as [o|] eqn:Ho; [|done].
  destruct (event_binding e r b o) eqn:Hbind; [|done]. intros [= <-]. by exists b, o.
Qed.

Lemma binding_facts e r b o :
  event_binding e r b o = true →
  event_operation (box_payload b) = o ∧ event_operation_id (box_payload b) = operation_id o
  ∧ operation_state o = OS_Committed ∧ outcome o ≫= outcome_event = Some e.
Proof.
  unfold event_binding. rewrite !andb_true_iff, !bool_decide_eq_true, !N.eqb_eq. naive_solver.
Qed.

(** The operation with its one event. *)
Definition announced_once (c : OpCore) (r : Uuid) (o : DurableRefOperation) : Prop :=
  ∃ e ev, load_event (operations c) (outbox c) r e = Ok ev ∧ event_operation ev = o
    ∧ ∀ e' ev', load_event (operations c) (outbox c) r e' = Ok ev' →
        event_operation_id ev' = operation_id o → e' = e.

Definition unresolved (o : DurableRefOperation) : Prop :=
  operation_state o = OS_Prepared ∨ operation_state o = OS_ReconciliationRequired.

Lemma unresolved_row_of o : unresolved_row (row_of o) = true ↔ unresolved o.
Proof. unfold unresolved_row, row_of, unresolved. cbn. destruct (operation_state o); naive_solver. Qed.

Lemma committed_announced c o :
  journal_ok c → holds_operation c o → operation_state o = OS_Committed →
  announced_once c (intent_repository (intent o)) o.
Proof.
  intros Hok Ho Hst. destruct (outcome o) as [y|] eqn:Hy; [|by apply (so_open _ (proj2 Ho)) in Hy; congruence].
  destruct (so_outcome _ (proj2 Ho) _ Hy) as [_ Hev]. destruct (proj2 Hev Hst) as [e He].
  assert (Hbind : outcome o ≫= outcome_event = Some e) by (rewrite Hy; exact He).
  destruct (jo_announced _ Hok _ _ Ho Hbind) as (b & Hb & Hop).
  destruct (jo_events _ Hok _ _ Hb) as (o' & Ho' & Hann).
  assert (o' = o) as -> by (eapply holds_same; [done..|]; destruct Hann; congruence).
  pose proof Hann as (_ & Hrepo & Hbd). exists e, (with_delivery (box_payload b) (box_delivered_at b) (box_receipt b)).
  split; [rewrite <-Hrepo; by eapply announced_load|]. split; [by apply binding_facts in Hbd as [? _]|].
  intros e' ev' (b' & o' & Hb' & Hr' & Hl' & Hbd' & ->)%load_event_inv Heq.
  apply binding_facts in Hbd' as (_ & Hid' & _). apply load_holds in Hl' as (_ & Hid & _).
  eapply (jo_once _ Hok); [done..|]. change (event_operation_id (with_delivery _ _ _)) with
    (event_operation_id (box_payload b')) in Heq. congruence.
Qed.

(** C14: the journal of ref operations stays in order through any calls of the forge and of the
    journal. Every row can be read back; of one repository no two operations have the same key
    and no two are unresolved; a committed operation has exactly one event, and every event
    belongs to a committed operation. *)
Theorem ref_journal_invariant calls c :
  journal_ok c →
  let c' := oserve calls c in
  let load r id := load_operation (operations c') r id in
  let event r e := load_event (operations c') (outbox c') r e in
  journal_ok c'
  ∧ (∀ id row, operations c' !! id = Some row → ∃ o, load (row_repository row) id = Ok o)
  ∧ (∀ e b, outbox c' !! e = Some b → ∃ ev, event (box_repository b) e = Ok ev)
  ∧ (∀ r id id' o o', load r id = Ok o → load r id' = Ok o' →
       intent_key (intent o) = intent_key (intent o') ∨ (unresolved o ∧ unresolved o') → id = id')
  ∧ (∀ r id o, load r id = Ok o → operation_state o = OS_Committed → announced_once c' r o)
  ∧ (∀ r e ev, event r e = Ok ev → operation_state (event_operation ev) = OS_Committed
       ∧ load r (event_operation_id ev) = Ok (event_operation ev)).
Proof.
  intros Hc c' load event. assert (Hok : journal_ok c') by by apply oserve_ok.
  split; [done|]. split_and!.
  - intros id row Hrow. destruct (jo_rows _ Hok _ _ Hrow) as (o & <- & -> & Hs). exists o.
    by apply (holds_load c' o).
  - intros e b Hb. destruct (jo_events _ Hok _ _ Hb) as (o & Ho & Hann). eexists. by eapply announced_load.
  - intros r id id' o o' (Ho & Hid & Hr)%load_holds (Ho' & Hid' & Hr')%load_holds Hkey.
    rewrite <-Hid, <-Hid'. f_equal. apply (jo_unique _ Hok); [done..|congruence|].
    destruct Hkey as [Hkey|[H1 H2]]; [by left|right]. by rewrite andb_true_iff, !unresolved_row_of.
  - intros r id o (Ho & _ & <-)%load_holds. by apply committed_announced.
  - intros r e ev (b & o & _ & _ & Hl & Hbd & ->)%load_event_inv.
    apply binding_facts in Hbd as (Ho & Hid & Hst & _). cbn. rewrite Ho, Hid. split; [done|].
    apply load_holds in Hl as Hh. destruct Hh as (_ & -> & _). exact Hl.
Qed.

(** The outcome of a ref operation stands for good. Through any calls that follow the
    operation is read back as it is; reporting an observation again answers it, if it is the
    recorded one, or is refused, and does not run the publication; preparing under its key
    again answers it, to the same intent, or is refused; and none of these changes anything. *)
Theorem outcome_is_final r id o y calls c :
  journal_ok c → load_operation (operations c) r id = Ok o → outcome o = Some y →
  let c' := oserve calls c in
  load_operation (operations c') r id = Ok o
  ∧ (∀ x f, let (res, c2) := reconcile_ref_operation r id x f c' in
       untouched_op c' c2 ∧ ∀ o', res = Ok o' → o' = o ∧ outcome_observation y = x)
  ∧ (∀ i, intent_repository i = r → intent_key i = intent_key (intent o) →
       let (res, c2) := prepare_ref_operation i c' in
       untouched_op c' c2 ∧ ∀ o', res = Ok o' → o' = o ∧ intent o = i).
Proof.
  intros Hok (Ho & <- & <-)%load_holds Hy c'.
  assert (Hok' : journal_ok c') by by apply oserve_ok.
  assert (Ho' : holds_operation c' o) by by eapply settled_oserve.
  assert (Hload : load_operation (operations c') (intent_repository (intent o)) (operation_id o) = Ok o)
    by by apply holds_load.
  split; [done|]. split.
  - intros x f. pose proof (reconcile_spec (intent_repository (intent o)) (operation_id o) x f c' c' (at_start c')) as H.
    unfold owp in H. destruct (reconcile_ref_operation _ _ x f c') as [[o'|e] c2]; cbn in H; [|by split].
    destruct H as (o0 & H0 & H1). assert (o0 = o) as -> by congruence.
    destruct H1 as [(H1 & -> & y' & Hy' & Hx)|([_ Hopen _ _] & _)]; [|congruence].
    split; [done|]. intros o' [= <-]. split; [done|congruence].
  - intros i Hr Hk. pose proof (load_by_key_holds c' o Hok' Ho') as Hkey. rewrite <-Hr, <-Hk in Hkey.
    pose proof (prepare_ref_spec i c' c' (at_start c')) as H. unfold owp in H.
    destruct (prepare_ref_operation i c') as [[o'|e] c2]; cbn in H; [|by split].
    destruct H as [(H1 & H2 & H3)|([H1 _ _ _ _ _ _] & _)]; [|congruence].
    split; [done|]. intros o1 [= <-]. assert (o' = o) as -> by congruence. done.
Qed.

(** The references are those of the changes, once each, at these values. *)
Definition refs_at (value : RefChangeIntent → RefValue) (changes : list RefChangeIntent)
    (refs : list ObservedRef) : Prop :=
  length refs = length changes ∧ NoDup (map seen_reference refs)
  ∧ ∀ c, c ∈ changes → ∃ r, r ∈ refs ∧ seen_reference r = change_reference c ∧ seen_value r = value c.

(** Git shows the operation, or shows that it was not applied. *)
Definition applied (o : DurableRefOperation) (x : RefOperationObservation) : Prop :=
  ∃ refs more, x = RO_Observed refs (RV_Exact (marker o)) more
    ∧ refs_at change_result (intent_changes (intent o)) refs.

Definition not_applied (o : DurableRefOperation) (x : RefOperationObservation) : Prop :=
  ∃ refs, x = RO_Observed refs RV_Absent false ∧ refs_at change_expected (intent_changes (intent o)) refs.

Lemma refs_match_spec changes refs (b : bool) :
  refs_match changes refs b = true ↔ refs_at (if b then change_result else change_expected) changes refs.
Proof.
  unfold refs_match, refs_at. rewrite !andb_true_iff, Nat.eqb_eq, bool_decide_eq_true, forallb_forall.
  split.
  - intros [[H1 H2] H3]. split_and!; [done..|]. intros c Hc%list_elem_of_In. apply H3 in Hc.
    apply existsb_exists in Hc as (r & Hr%list_elem_of_In & [H4%bool_decide_eq_true_1 H5%bool_decide_eq_true_1]%andb_true_iff).
    exists r. split_and!; [done..|]. by destruct b.
  - intros (H1 & H2 & H3). split; [done|]. intros c Hc%list_elem_of_In. destruct (H3 c Hc) as (r & Hr & H4 & H5).
    apply existsb_exists. exists r. split; [by apply list_elem_of_In|].
    apply andb_true_iff. split; apply bool_decide_eq_true; [done|]. by destruct b.
Qed.

Lemma classify_spec o x :
  (classify o x = OS_Committed ↔ applied o x)
  ∧ (classify o x = OS_AbortedNotApplied ↔ not_applied o x).
Proof.
  unfold classify, applied, not_applied. destruct x as [refs m more|why]; [|by split; naive_solver].
  destruct (bool_decide_reflect (m = RV_Exact (marker o))) as [->|Hm].
  - destruct (refs_match _ _ true) eqn:Ht; cbn.
    + apply refs_match_spec in Ht. split; [|naive_solver]. split; [|done]. intros _. by eexists _, _.
    + split; [|naive_solver]. split; [done|]. intros (? & ? & [= -> ->] & H).
      apply (refs_match_spec _ _ true) in H. congruence.
  - cbn. destruct (_ && refs_match _ _ false) eqn:Hf.
    + apply andb_true_iff in Hf as [[->%bool_decide_eq_true_1 Hmore%negb_true_iff]%andb_true_iff Hf%refs_match_spec].
      subst more. split; [naive_solver|]. split; [|done]. intros _. by eexists.
    + split; [naive_solver|]. split; [done|]. intros (? & [= <- -> ->] & H).
      apply (refs_match_spec _ _ false) in H. rewrite bool_decide_eq_true_2 in Hf by done. cbn in Hf. congruence.
Qed.

(** C13: the forge moves exactly with a committed outcome. Reporting what Git holds either
    changes nothing, in the forge and in the journal (a refusal, or a replay that answers the
    recorded operation), or writes the outcome of an operation that was still open. Only when
    Git shows the marker and every ref of the operation at its result does the forge move to
    the state the publication made, and then it is saved together with the outcome and one
    undelivered event; when Git shows the refs where they were and no trace of the operation
    it is aborted, and in any other case it waits for reconciliation, and in both cases
    the forge and the outbox stay as they were. *)
Theorem reconcile_publishes r id x f c :
  journal_ok c → saved (forge c) →
  let (res, c') := reconcile_ref_operation r id x f c in
  match res with
  | Err _ => untouched_op c c'
  | Ok o' =>
      load_operation (operations c') r id = Ok o' ∧ saved (forge c')
      ∧ outcome_observation <$> outcome o' = Some x
      ∧ (untouched_op c c'
         ∨ ∃ o, load_operation (operations c) r id = Ok o ∧ outcome o = None ∧ intent o' = intent o
             ∧ ((applied o x ∧ operation_state o' = OS_Committed
                 ∧ f (state (forge c)) = Ok (state (forge c')) ∧ announced_once c' r o'
                 ∧ ∃ e b, outbox c !! e = None ∧ outbox c' = <[e := b]> (outbox c)
                     ∧ box_delivered_at b = None)
                ∨ (¬ applied o x ∧ state (forge c') = state (forge c) ∧ outbox c' = outbox c
                   ∧ ((not_applied o x ∧ operation_state o' = OS_AbortedNotApplied)
                      ∨ (¬ not_applied o x ∧ operation_state o' = OS_ReconciliationRequired)))))
  end.
Proof.
  intros Hok Hsaved. pose proof (reconcile_spec r id x f c c (at_start c)) as H. unfold owp in H.
  destruct (reconcile_ref_operation r id x f c) as [[o'|e] c']; cbn in H; [|done].
  destruct H as (o & Hload & [(H1 & -> & y & Hy & Hx)|(Hw & Hs & Hst)]).
  - split; [by destruct H1 as ((-> & _) & _)|]. split; [by apply H1|]. rewrite Hy. cbn. rewrite Hx. by split; [|left].
  - pose proof (written_ok _ _ _ _ _ _ _ Hw Hok) as Hok'.
    apply outcome_facts in Hw as (Ho & Hid & Hr & Ho' & _ & Hid' & Hi & _ & Hcls & Hopen & (y & Hy & Hx) & _ & Hbox).
    assert (Hl : load_operation (operations c') r id = Ok o').
    { rewrite <-Hid'. apply holds_load; [done|congruence]. }
    split; [done|]. split; [by apply Hs|]. rewrite Hy. cbn. rewrite Hx. split; [done|]. right. exists o.
    split; [done|]. split; [done|]. split; [done|]. destruct (classify_spec o x) as [Hcom Hab].
    destruct (decide (classify o x = OS_Committed)) as [Hc|Hc].
    + left. rewrite bool_decide_eq_true_2 in Hst by done. rewrite Hc in Hcls.
      split; [by apply Hcom|]. split; [done|]. split; [done|]. split.
      * rewrite <-Hr, <-Hi. by apply committed_announced.
      * destruct (outcome o' ≫= outcome_event) as [e|]; [|by destruct Hbox].
        destruct Hbox as (_ & Hfree & _ & b & Hb & _ & Hd). by exists e, b.
    + right. rewrite bool_decide_eq_false_2 in Hst by done. split; [by rewrite <-Hcom|]. split; [done|]. split.
      * destruct (outcome o' ≫= outcome_event) as [e|]; [by destruct Hbox|]. by destruct Hbox.
      * rewrite Hcls. destruct (classify o x) eqn:Hk; [by apply classify_closed in Hk|done| |].
        -- left. by split; [apply Hab|].
        -- right. split; [|done]. by intros ?%Hab.
Qed.

End history.
