(* ===== verification/Accounts.v ===== *)
(** Accounts: accounts and what proves them (engine/auth.rs, engine/auth/crypto.rs): passwords,
    web sessions, personal access tokens, invitations and their activation, account status,
    and the grants on repositories.

    A password hash, a digest and a random secret come from outside ([AuthEnv], [ReviewEnv]).
    The calls run on the core of [Forge]; where the code changes the live state and then
    returns early, without saving, the model does the same ([set_live]). *)

From Stdlib Require Import Ascii.
From S2P Require Import Prelude Text Clock BranchProtection ForgeState Forge BoundReviews.
Local Open Scope forge_scope.

Class AuthEnv `{C : Chrono} := {
  (** Argon2id with a fresh salt, in PHC form; the check of a password against such a form. *)
  hash_password : string → nat → result string ForgeError;
  password_matches : string → string → bool;
  (** [checked_add_signed] of a duration in nanoseconds. *)
  checked_add_signed : DateTime → Z → option DateTime
}.

Section auth.
Context `{E : ForgeEnv} {R : ReviewEnv} {A : AuthEnv}.

(** * Data (model/auth.rs) *)

Record AccountSummary : Type := {
  sum_login : string; sum_display_name : string; sum_role : UserRole;
  sum_status : AccountStatus; sum_epoch : N; sum_must_change : bool;
  sum_created_at : DateTime; sum_updated_at : DateTime
}.

Definition summary (a : UserAccount) : AccountSummary :=
  {| sum_login := canonical_login a; sum_display_name := display_name a; sum_role := role a;
     sum_status := account_status a; sum_epoch := auth_epoch a;
     sum_must_change := must_change_password a; sum_created_at := account_created_at a;
     sum_updated_at := account_updated_at a |}.

Record SessionReceipt : Type := { receipt_session : WebSession; receipt_token : string }.

Record PersonalAccessTokenReceipt : Type := {
  receipt_pat : PersonalAccessToken; receipt_secret : string
}.

Record PersonalAccessTokenSummary : Type := {
  pat_id : Uuid; pat_login : string; pat_name : string; pat_created_at : DateTime;
  pat_expires_at : option DateTime
}.

Definition pat_summary (t : PersonalAccessToken) : PersonalAccessTokenSummary :=
  {| pat_id := token_id t; pat_login := token_login t; pat_name := token_name t;
     pat_created_at := token_created_at t; pat_expires_at := token_expires_at t |}.

Record AccountInvitationSummary : Type := {
  inv_id : Uuid; inv_login : string; inv_name : string; inv_issuer : string;
  inv_bindings : InvitationBindings; inv_created_at : DateTime; inv_expires_at : DateTime;
  inv_consumed_at : option DateTime; inv_revoked_at : option DateTime; inv_attempts : N
}.

Definition invitation_summary (i : AccountInvitation) : AccountInvitationSummary :=
  {| inv_id := invitation_id i; inv_login := invited_login i; inv_name := invited_name i;
     inv_issuer := issuer_principal i; inv_bindings := intended_bindings i;
     inv_created_at := invited_at i; inv_expires_at := invitation_expires_at i;
     inv_consumed_at := invitation_consumed_at i; inv_revoked_at := revoked_at i;
     inv_attempts := attempt_count i |}.

Record AccountInvitationReceipt : Type := {
  receipt_invitation : AccountInvitationSummary; activation_secret : string
}.

Record ActivationStartReceipt : Type := {
  started_challenge : string; started_expires_at : DateTime
}.

(** * Constants *)

Definition SESSION_TTL_SECS : Z := 60 * 60 * 24 * 14.
Definition PAT_DEFAULT_TTL_DAYS : Z := 90.
Definition PAT_MAX_TTL_DAYS : Z := 365.
Definition INVITATION_MAX_TTL_HOURS : Z := 24.
Definition ACTIVATION_CHALLENGE_TTL_MINUTES : Z := 10.
Definition ACTIVATION_MAX_ATTEMPTS : N := 5.
Definition activation_error : ForgeError := Validation "activation could not be completed".
Definition invalid_login : ForgeError := Validation "invalid login or password".

(** Where chrono panics. *)
Definition out_of_range : ForgeError := Storage "DateTime + TimeDelta overflowed".

(** * Secrets, passwords, bindings (engine/auth/crypto.rs) *)

Definition secret : M string := r <<- ask random_secret;; lift r.

Definition generate_one_time_password : M string :=
  s <<- secret;;
  ret ("jeryu-" +:+ String.substring 0 32 s).

Definition require_password (password : string) : result unit ForgeError :=
  if String.length password <? 12 then Err (Validation "password must be at least 12 bytes")
  else Ok tt.

Definition hash (password : string) : M string :=
  r <<- ask (hash_password password);; lift r.

Definition verify_password (password stored_hash : string) : result unit ForgeError :=
  if password_matches password stored_hash then Ok tt else Err invalid_login.

Definition next_auth_epoch (current : N) : result N ForgeError :=
  match checked_add u64_max current 1 with
  | Some n => Ok n
  | None => Err (Storage "account auth epoch overflow")
  end.

Definition binding_error : ForgeError :=
  Validation "team binding must be canonical organization/team".

Definition split_team_binding (b : string) : result (string * string) ForgeError :=
  match split_once "/"%char b with
  | None => Err binding_error
  | Some (organization, team) =>
      if str_is_empty organization || str_is_empty team || str_contains "/" team
      then Err binding_error else Ok (organization, team)
  end.

Definition normalize_team_binding (b : string) : result string ForgeError :=
  match split_team_binding (trim b) with
  | Err e => Err e
  | Ok (organization, team) =>
      match require_login organization, require_login team with
      | Err e, _ | _, Err e => Err e
      | Ok _, Ok _ => Ok (organization +:+ "/" +:+ team)
      end
  end.

Fixpoint normalize_bindings (bs : list string) : result (list string) ForgeError :=
  match bs with
  | [] => Ok []
  | b :: bs =>
      match normalize_team_binding b with
      | Err e => Err e
      | Ok x => match normalize_bindings bs with Err e => Err e | Ok l => Ok (x :: l) end
      end
  end.

Definition normalize_team_bindings (bs : list string) : result (list string) ForgeError :=
  match normalize_bindings bs with Err e => Err e | Ok l => Ok (sort_dedup l) end.

Definition validate_pat_expiry (e : option DateTime) : M DateTime :=
  t <<- now;;
  d <<- lift (match e with
              | Some d => Ok d
              | None => match add_seconds t (86400 * PAT_DEFAULT_TTL_DAYS) with
                        | Some d => Ok d | None => Err out_of_range end
              end);;
  if dt_leb d t then throw (Validation "token expiry must be in the future")
  else
    match add_seconds t (86400 * PAT_MAX_TTL_DAYS) with
    | None => throw out_of_range
    | Some last =>
        if dt_ltb last d then throw (Validation "token expiry may not exceed 365 days")
        else ret d
    end.

(** The live state changes, the database does not. *)
Definition set_live (s : State) : M unit :=
  λ c, (Ok tt, {| state := s; stored := stored c; asked := asked c |}).

(** * Accounts *)

Definition account_missing (login : string) : ForgeError := NotFound ("account " +:+ login).

Definition get_account (s : State) (login : string) : result AccountSummary ForgeError :=
  match accounts s !! login with
  | Some a => Ok (summary a)
  | None => Err (account_missing login)
  end.

Definition list_accounts (s : State) : list AccountSummary :=
  isort (λ a b, String.leb (sum_login a) (sum_login b)) (map summary (map_to_list (accounts s)).*2).

Definition put_account (login : string) (a : UserAccount) (s : State) : State :=
  set_accounts (<[login := a]> (accounts s)) s.

(** [entry(login).or_insert_with]: the identity is drawn only where there is none. *)
Definition profile_entry (login : string) (name : option string) (t : DateTime) (s : State) :
    M State :=
  match users s !! login with
  | Some _ => ret s
  | None =>
      id <<- new_v4;;
      ret (set_users (<[login := {| user_id := id; user_login := login; user_name := name;
                                    user_email := None; user_created_at := t |}]> (users s)) s)
  end.

Definition create_account_admitted (login password : string) (role_ : UserRole) :
    M AccountSummary :=
  _ <<- lift (require_login login);;
  _ <<- lift (require_password password);;
  s <<- read_state;;
  match accounts s !! login with
  | Some _ => throw (Conflict ("account " +:+ login))
  | None =>
      t <<- now;;
      h <<- hash password;;
      let a := {| canonical_login := login; display_name := login; password_hash := h;
                  role := role_; account_status := AS_Active; auth_epoch := 0;
                  must_change_password := false; account_created_at := t;
                  account_updated_at := t |} in
      s' <<- profile_entry login None t s;;
      _ <<- commit (put_account login a s');;
      ret (summary a)
  end.

Definition create_account (login password : string) (role_ : UserRole) : M AccountSummary :=
  with_global_mutation (create_account_admitted login password role_).

(** [retain]: the sessions and tokens of the login go. *)
Definition drop_credentials (login : string) (s : State) : State :=
  let s := set_sessions (filter (λ x, session_login x.2 ≠ login) (sessions s)) s in
  set_personal_tokens (filter (λ x, token_login x.2 ≠ login) (personal_tokens s)) s.

Definition edit_account (a : UserAccount) (h : string) (st : AccountStatus) (epoch : N)
    (must_change : bool) (t : DateTime) : UserAccount :=
  {| canonical_login := canonical_login a; display_name := display_name a; password_hash := h;
     role := role a; account_status := st; auth_epoch := epoch;
     must_change_password := must_change; account_created_at := account_created_at a;
     account_updated_at := t |}.

(** The account as the fields before the epoch leave it; the epoch is raised, all that was
    issued under the old one goes, and the state is saved. *)
Definition raise_epoch (login : string) (a : UserAccount) (h : string) (st : AccountStatus)
    (must_change : bool) : M AccountSummary :=
  s <<- read_state;;
  match next_auth_epoch (auth_epoch a) with
  | Err e =>
      _ <<- set_live (put_account login
              (edit_account a h st (auth_epoch a) must_change (account_updated_at a)) s);;
      throw e
  | Ok epoch =>
      t <<- now;;
      let a' := edit_account a h st epoch must_change t in
      _ <<- commit (drop_credentials login (put_account login a' s));;
      ret (summary a')
  end.

Definition force_password_change_admitted (login : string) (forced : bool) : M AccountSummary :=
  s <<- read_state;;
  match accounts s !! login with
  | None => throw (account_missing login)
  | Some a =>
      if forced then raise_epoch login a (password_hash a) (account_status a) true
      else
        t <<- now;;
        let a' := edit_account a (password_hash a) (account_status a) (auth_epoch a) false t in
        _ <<- commit (put_account login a' s);;
        ret (summary a')
  end.

Definition force_password_change (login : string) (forced : bool) : M AccountSummary :=
  with_global_mutation (force_password_change_admitted login forced).

(** Two commits. *)
Definition create_temporary_account (login password : string) (role_ : UserRole) :
    M AccountSummary :=
  with_global_mutation
    (account <<- create_account_admitted login password role_;;
     _ <<- force_password_change_admitted login true;;
     s <<- read_state;;
     ret (match get_account s login with Ok a => a | Err _ => account end)).

Definition authenticate_password (s : State) (login password : string) :
    result AccountSummary ForgeError :=
  match accounts s !! login with
  | None => Err invalid_login
  | Some a =>
      if negb (permits_authentication (account_status a)) then Err invalid_login
      else match verify_password password (password_hash a) with
           | Err e => Err e
           | Ok _ => Ok (summary a)
           end
  end.

Definition reset_account_password (login new_password : string) : M AccountSummary :=
  with_global_mutation
    (_ <<- lift (require_password new_password);;
     s <<- read_state;;
     match accounts s !! login with
     | None => throw (account_missing login)
     | Some a =>
         h <<- hash new_password;;
         raise_epoch login a h (account_status a) true
     end).

Definition change_account_password (login current_password new_password : string) :
    M AccountSummary :=
  with_global_mutation
    (_ <<- lift (require_password new_password);;
     s <<- read_state;;
     match accounts s !! login with
     | None => throw (account_missing login)
     | Some a =>
         if negb (permits_authentication (account_status a)) then throw invalid_login
         else
           _ <<- lift (verify_password current_password (password_hash a));;
           h <<- hash new_password;;
           raise_epoch login a h (account_status a) false
     end).


(** * Sessions *)

Definition require_active_account (s : State) (login : string) :
    result AccountSummary ForgeError :=
  match get_account s login with
  | Err e => Err e
  | Ok a => if permits_authentication (sum_status a) then Ok a
            else Err (Validation "account is not active")
  end.

Definition create_session_admitted (login : string) (ttl : Z) : M SessionReceipt :=
  if (ttl <=? 0)%Z then throw (Validation "session ttl must be positive")
  else
    s <<- read_state;;
    a <<- lift (require_active_account s login);;
    token_ <<- secret;;
    csrf <<- secret;;
    t <<- now;;
    match checked_add_signed t ttl with
    | None => throw (Validation "session ttl is out of range")
    | Some expiry =>
        id <<- new_v4;;
        let x := {| session_id := id; session_login := login; session_epoch := sum_epoch a;
                    session_token_hash := token_hash_of token_; csrf_token := csrf;
                    session_created_at := t; session_expires_at := expiry |} in
        s <<- read_state;;
        _ <<- commit (set_sessions (<[session_token_hash x := x]> (sessions s)) s);;
        ret {| receipt_session := x; receipt_token := token_ |}
    end.

(** A refused password is reported in one way, whatever the reason. *)
Definition create_session_with_ttl (login password : string) (ttl : Z) : M SessionReceipt :=
  with_global_mutation
    (s <<- read_state;;
     match authenticate_password s login password with
     | Err _ => throw (Unauthenticated "invalid login or password")
     | Ok _ => create_session_admitted login ttl
     end).

Definition create_session (login password : string) : M SessionReceipt :=
  create_session_with_ttl login password (1000000000 * SESSION_TTL_SECS).

Definition session_for_token (t : DateTime) (s : State) (token_ : string) :
    option (AccountSummary * WebSession) :=
  match sessions s !! token_hash_of token_ with
  | None => None
  | Some x =>
      if dt_leb (session_expires_at x) t then None
      else
        match accounts s !! session_login x with
        | None => None
        | Some a =>
            if negb (permits_authentication (account_status a))
               || negb (auth_epoch a =? session_epoch x)%N
            then None else Some (summary a, x)
        end
  end.

Definition authenticate_session (t : DateTime) (s : State) (token_ : string) :
    option AccountSummary := fst <$> session_for_token t s token_.

Definition session_csrf_matches (t : DateTime) (s : State) (token_ csrf : string) : bool :=
  match session_for_token t s token_ with
  | Some (_, x) => constant_time_eq (csrf_token x) csrf
  | None => false
  end.

Definition revoke_session (token_ : string) : M unit :=
  with_global_mutation
    (s <<- read_state;;
     commit (set_sessions (delete (token_hash_of token_) (sessions s)) s)).

(** * Personal access tokens *)

Definition create_personal_access_token (a : AuthenticatedActor) (name_ : string)
    (expires_at : option DateTime) : M PersonalAccessTokenReceipt :=
  with_global_mutation
    (s <<- read_state;;
     t <<- now;;
     b <<- lift (validate_actor_locked t s a true);;
     account <<- lift (require_active_account s (actor_login b));;
     _ <<- lift (require_name "token name" name_);;
     expiry <<- validate_pat_expiry expires_at;;
     x <<- secret;;
     let secret_ := "jpat_" +:+ x in
     id <<- new_v4;;
     t' <<- now;;
     let token_ := {| token_id := id; token_login := actor_login b;
                      token_epoch := sum_epoch account; token_name := trim name_;
                      token_hash := token_hash_of secret_; token_created_at := t';
                      token_expires_at := Some expiry |} in
     s <<- read_state;;
     _ <<- commit (set_personal_tokens (<[id := token_]> (personal_tokens s)) s);;
     ret {| receipt_pat := token_; receipt_secret := secret_ |}).

(** The latest first, then by name. *)
Definition pat_leb (a b : PersonalAccessTokenSummary) : bool :=
  if bool_decide (pat_created_at a = pat_created_at b) then String.leb (pat_name a) (pat_name b)
  else dt_leb (pat_created_at b) (pat_created_at a).

Definition list_personal_access_tokens (s : State) (login : string) :
    result (list PersonalAccessTokenSummary) ForgeError :=
  match get_account s login with
  | Err e => Err e
  | Ok _ =>
      Ok (isort pat_leb
            (map pat_summary (filter (λ t, token_login t = login)
                                (map_to_list (personal_tokens s)).*2)))
  end.

Definition revoke_personal_access_token (login : string) (id : Uuid) : M bool :=
  with_global_mutation
    (s <<- read_state;;
     _ <<- lift (get_account s login);;
     let removed := match personal_tokens s !! id with
                    | Some t => bool_decide (token_login t = login) | None => false end in
     _ <<- commit (if removed then set_personal_tokens (delete id (personal_tokens s)) s else s);;
     ret removed).

(** Of tokens with equal digests a hash map may yield any. *)
Definition authenticate_personal_access_token (t : DateTime) (s : State) (token_ : string) :
    option AccountSummary :=
  match find_first (λ x, bool_decide (token_hash x = token_hash_of token_)
                         && unexpired t (token_expires_at x))
          (map_to_list (personal_tokens s)).*2 with
  | None => None
  | Some x =>
      match accounts s !! token_login x with
      | None => None
      | Some a =>
          if negb (permits_authentication (account_status a))
             || negb (auth_epoch a =? token_epoch x)%N
          then None else Some (summary a)
      end
  end.

(** * Status *)

Definition status_refused (st : AccountStatus) : ForgeError :=
  Validation
    match st with
    | AS_PendingMfa => "only disabled or locked accounts may be reactivated"
    | AS_Active => "account is not pending MFA enrollment"
    | _ => "account status transition is not allowed"
    end.

Definition transition_account_status (login : string) (st : AccountStatus)
    (allowed : option (list AccountStatus)) : M AccountSummary :=
  with_global_mutation
    (s <<- read_state;;
     match accounts s !! login with
     | None => throw (account_missing login)
     | Some a =>
         if match allowed with
            | Some l => negb (bool_decide (account_status a ∈ l)) | None => false end
         then throw (status_refused st)
         else if bool_decide (account_status a = st) then ret (summary a)
         else raise_epoch login a (password_hash a) st (must_change_password a)
     end).

Definition disable_account (login : string) : M AccountSummary :=
  transition_account_status login AS_Disabled None.
Definition lock_account (login : string) : M AccountSummary :=
  transition_account_status login AS_Locked None.
Definition reactivate_account (login : string) : M AccountSummary :=
  transition_account_status login AS_PendingMfa (Some [AS_Disabled; AS_Locked]).
Definition mark_account_mfa_active (login : string) : M AccountSummary :=
  transition_account_status login AS_Active (Some [AS_PendingMfa]).


(** * Invitations *)

(** Neither consumed nor revoked. *)
Definition open_invitation (i : AccountInvitation) : bool :=
  bool_decide (invitation_consumed_at i = None) && bool_decide (revoked_at i = None).

Definition expired_invitation (t : DateTime) (i : AccountInvitation) : bool :=
  open_invitation i && dt_leb (invitation_expires_at i) t.

Definition revoke_invitation (t : DateTime) (i : AccountInvitation) : AccountInvitation :=
  {| invitation_id := invitation_id i; invited_login := invited_login i;
     invited_name := invited_name i; activation_secret_hash := activation_secret_hash i;
     issuer_principal := issuer_principal i; intended_bindings := intended_bindings i;
     invited_at := invited_at i; invitation_expires_at := invitation_expires_at i;
     invitation_consumed_at := invitation_consumed_at i; revoked_at := Some t;
     attempt_count := attempt_count i; bootstrap_owner := bootstrap_owner i |}.

Definition count_attempt (i : AccountInvitation) : AccountInvitation :=
  {| invitation_id := invitation_id i; invited_login := invited_login i;
     invited_name := invited_name i; activation_secret_hash := activation_secret_hash i;
     issuer_principal := issuer_principal i; intended_bindings := intended_bindings i;
     invited_at := invited_at i; invitation_expires_at := invitation_expires_at i;
     invitation_consumed_at := invitation_consumed_at i; revoked_at := revoked_at i;
     attempt_count := attempt_count i + 1; bootstrap_owner := bootstrap_owner i |}.

Definition consume_invitation (t : DateTime) (i : AccountInvitation) : AccountInvitation :=
  {| invitation_id := invitation_id i; invited_login := invited_login i;
     invited_name := invited_name i; activation_secret_hash := activation_secret_hash i;
     issuer_principal := issuer_principal i; intended_bindings := intended_bindings i;
     invited_at := invited_at i; invitation_expires_at := invitation_expires_at i;
     invitation_consumed_at := Some t; revoked_at := revoked_at i;
     attempt_count := attempt_count i; bootstrap_owner := bootstrap_owner i |}.

Definition consume_challenge (t : DateTime) (c : ActivationChallenge) : ActivationChallenge :=
  {| activation_id := activation_id c; activation_invitation := activation_invitation c;
     challenge_hash := challenge_hash c; activation_created_at := activation_created_at c;
     activation_expires_at := activation_expires_at c; activation_consumed_at := Some t |}.

(** [values().any]. *)
Definition any_value {K} `{Countable K} {V} (p : V → bool) (m : gmap K V) : bool :=
  existsb p (map_to_list m).*2.

Definition has_admin (s : State) : bool :=
  any_value (λ a, bool_decide (role a = UR_Admin)) (accounts s).

(** Each binding names a team there is. *)
Fixpoint check_teams (s : State) (missing : string → ForgeError) (bs : list string) :
    result unit ForgeError :=
  match bs with
  | [] => Ok tt
  | b :: bs =>
      match split_team_binding b with
      | Err e => Err e
      | Ok team => if bool_decide (is_Some (teams s !! team)) then check_teams s missing bs
                   else Err (missing b)
      end
  end.

Definition create_account_invitation_inner (issuer login display : string)
    (bindings : InvitationBindings) (expires_at : DateTime) (bootstrap : bool) :
    M AccountInvitationReceipt :=
  with_global_mutation
    (_ <<- lift (require_login login);;
     _ <<- lift (require_name "display name" display);;
     _ <<- lift (require_name "issuer principal" issuer);;
     bound <<- lift (normalize_team_bindings (bound_teams bindings));;
     t <<- now;;
     if dt_leb expires_at t then throw (Validation "invitation expiry must be in the future")
     else
       match add_seconds t (3600 * INVITATION_MAX_TTL_HOURS) with
       | None => throw out_of_range
       | Some last =>
           if dt_ltb last expires_at
           then throw (Validation "invitation expiry may not exceed 24 hours")
           else
             x <<- secret;;
             s <<- read_state;;
             if bool_decide (is_Some (accounts s !! login))
             then throw (Conflict ("account " +:+ login))
             else if bootstrap && (bootstrap_owner_consumed s || has_admin s)
             then throw (Conflict "owner bootstrap has already been consumed")
             else
               _ <<- lift (check_teams s (λ b, NotFound ("team " +:+ b)) bound);;
               let standing i := open_invitation i && negb (expired_invitation t i) in
               if any_value (λ i, bool_decide (invited_login i = login) && standing i)
                    (invitations s)
               then throw (Conflict ("active invitation for " +:+ login))
               else if bootstrap
                       && any_value (λ i, bootstrap_owner i && standing i) (invitations s)
               then throw (Conflict "active owner bootstrap invitation")
               else
                 let kept := (λ i, if expired_invitation t i then revoke_invitation t i else i)
                             <$> invitations s in
                 id <<- new_v4;;
                 let i := {| invitation_id := id; invited_login := login;
                             invited_name := trim display;
                             activation_secret_hash := token_hash_of x;
                             issuer_principal := trim issuer;
                             intended_bindings := {| bound_role := bound_role bindings;
                                                     bound_teams := bound |};
                             invited_at := t; invitation_expires_at := expires_at;
                             invitation_consumed_at := None; revoked_at := None;
                             attempt_count := 0; bootstrap_owner := bootstrap |} in
                 _ <<- commit (set_invitations (<[id := i]> kept) s);;
                 ret {| receipt_invitation := invitation_summary i; activation_secret := x |}
       end).

Definition create_account_invitation (issuer login display : string)
    (bindings : InvitationBindings) (expires_at : DateTime) : M AccountInvitationReceipt :=
  create_account_invitation_inner issuer login display bindings expires_at false.

Definition create_bootstrap_owner_invitation (login display : string) (expires_at : DateTime) :
    M AccountInvitationReceipt :=
  create_account_invitation_inner "local-operator" login display
    {| bound_role := UR_Admin; bound_teams := [] |} expires_at true.

Definition invitation_leb (a b : AccountInvitationSummary) : bool :=
  if bool_decide (inv_created_at a = inv_created_at b) then String.leb (inv_login a) (inv_login b)
  else dt_leb (inv_created_at b) (inv_created_at a).

Definition list_account_invitations (s : State) : list AccountInvitationSummary :=
  isort invitation_leb (map invitation_summary (map_to_list (invitations s)).*2).

Definition revoke_account_invitation (id : Uuid) : M bool :=
  with_global_mutation
    (s <<- read_state;;
     match invitations s !! id with
     | Some i =>
         if open_invitation i then
           t <<- now;;
           _ <<- commit (set_invitations (<[id := revoke_invitation t i]> (invitations s)) s);;
           ret true
         else _ <<- commit s;; ret false
     | None => _ <<- commit s;; ret false
     end).

(** A wrong secret is counted and saved; of several open invitations of a login a hash map
    may yield any. *)
Definition start_account_activation (login secret_ : string) : M ActivationStartReceipt :=
  with_global_mutation
    (match require_login login with
     | Err _ => throw activation_error
     | Ok _ =>
         ch <<- secret;;
         t <<- now;;
         s <<- read_state;;
         match find_first (λ i, bool_decide (invited_login i = login) && open_invitation i
                                && dt_ltb t (invitation_expires_at i))
                 (map_to_list (invitations s)).*2 with
         | None => throw activation_error
         | Some i =>
             if (ACTIVATION_MAX_ATTEMPTS <=? attempt_count i)%N then throw activation_error
             else
               let s1 := set_invitations
                           (<[invitation_id i := count_attempt i]> (invitations s)) s in
               if negb (constant_time_eq (token_hash_of secret_) (activation_secret_hash i))
               then _ <<- commit s1;; throw activation_error
               else
                 match add_minutes t ACTIVATION_CHALLENGE_TTL_MINUTES with
                 | None => _ <<- set_live s1;; throw out_of_range
                 | Some expiry =>
                     id <<- new_v4;;
                     let c := {| activation_id := id; activation_invitation := invitation_id i;
                                 challenge_hash := token_hash_of ch;
                                 activation_created_at := t; activation_expires_at := expiry;
                                 activation_consumed_at := None |} in
                     _ <<- commit (set_activation_challenges
                                     (<[challenge_hash c := c]> (activation_challenges s1)) s1);;
                     ret {| started_challenge := ch; started_expires_at := expiry |}
                 end
         end
     end).

(** The teams of the bindings with the login among their members. *)
Definition add_member (login : string) (m : gmap (string * string) Team) (b : string) :
    gmap (string * string) Team :=
  match split_team_binding b with
  | Err _ => m
  | Ok key =>
      alter (λ team,
        {| team_id := team_id team; team_organization := team_organization team;
           team_slug := team_slug team; team_name := team_name team;
           team_members := if bool_decide (login ∈ team_members team) then team_members team
                           else isort String.leb (team_members team ++ [login]);
           team_created_at := team_created_at team |}) key m
  end.

Definition complete_account_activation (challenge_ password : string) : M AccountSummary :=
  with_global_mutation
    (_ <<- lift (require_password password);;
     h <<- hash password;;
     t <<- now;;
     s <<- read_state;;
     match activation_challenges s !! token_hash_of challenge_ with
     | None => throw activation_error
     | Some c =>
         if negb (bool_decide (activation_consumed_at c = None)
                  && dt_ltb t (activation_expires_at c)) then throw activation_error
         else
           match invitations s !! activation_invitation c with
           | None => throw activation_error
           | Some i =>
               if negb (open_invitation i && dt_ltb t (invitation_expires_at i)
                        && (attempt_count i <=? ACTIVATION_MAX_ATTEMPTS)%N)
                  || bool_decide (is_Some (accounts s !! invited_login i))
               then throw activation_error
               else
                 let bound := bound_teams (intended_bindings i) in
                 _ <<- lift (check_teams s (λ _, activation_error) bound);;
                 if bootstrap_owner i && (bootstrap_owner_consumed s || has_admin s)
                 then throw activation_error
                 else
                   let a := {| canonical_login := invited_login i;
                               display_name := invited_name i; password_hash := h;
                               role := bound_role (intended_bindings i);
                               account_status := AS_PendingMfa; auth_epoch := 0;
                               must_change_password := false; account_created_at := t;
                               account_updated_at := t |} in
                   let s := set_activation_challenges
                              (<[token_hash_of challenge_ := consume_challenge t c]>
                                 (activation_challenges s)) s in
                   let s := set_invitations
                              (<[invitation_id i := consume_invitation t i]> (invitations s)) s in
                   s <<- profile_entry (invited_login i) (Some (invited_name i)) t s;;
                   let s := set_teams (foldl (add_member (invited_login i)) (teams s) bound) s in
                   let s := if bootstrap_owner i then set_bootstrap_owner_consumed true s else s in
                   _ <<- commit (put_account (invited_login i) a s);;
                   ret (summary a)
           end
     end).

(** * Grants on repositories *)

Definition grant_repo_access_admitted (actor login owner repo : string)
    (level : RepoAccessLevel) : M RepoAccessGrant :=
  s <<- read_state;;
  _ <<- lift (get_account s login);;
  _ <<- lift (get_repository s owner repo);;
  t <<- now;;
  let g := {| grant_login := login; grant_owner := owner; grant_repo := repo; access := level;
              granted_by := actor; granted_at := t |} in
  _ <<- commit (set_repo_grants (<[(login, owner, repo) := g]> (repo_grants s)) s);;
  ret g.

Definition grant_repo_access (actor login owner repo : string) (level : RepoAccessLevel) :
    M RepoAccessGrant :=
  with_repository_mutation owner repo (grant_repo_access_admitted actor login owner repo level).

Definition repo_access_for (s : State) (login owner repo : string) : option RepoAccessLevel :=
  match accounts s !! login with
  | None => None
  | Some a =>
      if negb (permits_authentication (account_status a)) then None
      else if bool_decide (role a = UR_Admin) then Some RA_Admin
      else access <$> repo_grants s !! (login, owner, repo)
  end.

Definition user_can_read_repo (s : State) (login owner repo : string) : bool :=
  match repo_access_for s login owner repo with Some l => allows_read l | None => false end.
Definition user_can_write_repo (s : State) (login owner repo : string) : bool :=
  match repo_access_for s login owner repo with Some l => allows_write l | None => false end.
Definition user_can_admin_repo (s : State) (login owner repo : string) : bool :=
  match repo_access_for s login owner repo with Some l => allows_admin l | None => false end.

Definition require_repo_admin (s : State) (actor owner repo : string) : result unit ForgeError :=
  match get_repository s owner repo with
  | Err e => Err e
  | Ok _ => if user_can_admin_repo s actor owner repo then Ok tt
            else Err (BranchProtected "repo admin access required")
  end.

Definition grant_repo_access_checked (actor login owner repo : string)
    (level : RepoAccessLevel) : M RepoAccessGrant :=
  with_repository_mutation owner repo
    (s <<- read_state;;
     _ <<- lift (require_repo_admin s actor owner repo);;
     grant_repo_access_admitted actor login owner repo level).

Definition revoke_repo_access_admitted (login owner repo : string) : M bool :=
  s <<- read_state;;
  _ <<- commit (set_repo_grants (delete (login, owner, repo) (repo_grants s)) s);;
  ret (bool_decide (is_Some (repo_grants s !! (login, owner, repo)))).

Definition revoke_repo_access (login owner repo : string) : M bool :=
  with_repository_mutation owner repo (revoke_repo_access_admitted login owner repo).

Definition revoke_repo_access_checked (actor login owner repo : string) : M bool :=
  with_repository_mutation owner repo
    (s <<- read_state;;
     _ <<- lift (require_repo_admin s actor owner repo);;
     revoke_repo_access_admitted login owner repo).

Definition list_repo_access (s : State) (owner repo : string) : list RepoAccessGrant :=
  isort (λ a b, String.leb (grant_login a) (grant_login b))
    (filter (λ g, grant_owner g = owner ∧ grant_repo g = repo) (map_to_list (repo_grants s)).*2).

Definition list_repo_access_checked (s : State) (actor owner repo : string) :
    result (list RepoAccessGrant) ForgeError :=
  match require_repo_admin s actor owner repo with
  | Err e => Err e
  | Ok _ => Ok (list_repo_access s owner repo)
  end.

End auth.
