(* ===== verification/AccountLaws.v ===== *)
(** AccountLaws: what the calls of [Accounts] do to the state. Each is a sequence of
    [account_change]s, and interleaves with the calls of the engine in [aserve]. *)

From Stdlib Require Import Ascii.
From S2P Require Import Prelude Text Clock BranchProtection ForgeState Forge ForgeLaws.
From S2P Require Import ForgeInvariant ForgeCalls BoundReviews BoundReviewLaws Accounts.
Local Open Scope forge_scope.

(** The clock stays clear of the end of time, where [now + 10 minutes] panics. *)
Class AuthEnvSpec `{E : ForgeEnv} : Prop := {
  clock_in_range i : is_Some (add_minutes (now_at i) ACTIVATION_CHALLENGE_TTL_MINUTES)
}.

(** The two profiles an activation can leave, with and without the owner's flag. *)
Ltac activated :=
  match goal with H : _ = _ ∨ (∃ _, _) |- _ => destruct H as [->|(? & _ & _ & ->)] end;
  match goal with i : AccountInvitation |- _ => destruct (bootstrap_owner i) end.

Section changes.
Context `{E : ForgeEnv} {R : ReviewEnv} {A : AuthEnv}.

(** ** The changes *)

Definition fresh_account (login : string) (a : UserAccount) : Prop :=
  canonical_login a = login ∧ auth_epoch a = 0%N.

(** Two invitations of which one may be open: for one login, or for the owner. *)
Definition rival (i j : AccountInvitation) : Prop :=
  invited_login i = invited_login j ∨ (bootstrap_owner i = true ∧ bootstrap_owner j = true).

Inductive account_change (s : State) : State → Prop :=
  | Ac_account login a :
      accounts s !! login = None → fresh_account login a → account_change s (put_account login a s)
  | Ac_profile login u :
      users s !! login = None → user_login u = login →
      account_change s (set_users (<[login := u]> (users s)) s)
  | Ac_raise login a h st mc t :
      accounts s !! login = Some a → (auth_epoch a < u64_max)%N →
      account_change s
        (drop_credentials login
           (put_account login (edit_account a h st (auth_epoch a + 1) mc t) s))
  | Ac_unforced login a t :
      accounts s !! login = Some a →
      account_change s
        (put_account login
           (edit_account a (password_hash a) (account_status a) (auth_epoch a) false t) s)
  | Ac_session x a :
      accounts s !! session_login x = Some a → account_status a = AS_Active →
      session_epoch x = auth_epoch a →
      account_change s (set_sessions (<[session_token_hash x := x]> (sessions s)) s)
  | Ac_unsession h : account_change s (set_sessions (delete h (sessions s)) s)
  | Ac_token x a :
      accounts s !! token_login x = Some a → account_status a = AS_Active →
      token_epoch x = auth_epoch a →
      account_change s (set_personal_tokens (<[token_id x := x]> (personal_tokens s)) s)
  | Ac_untoken id : account_change s (set_personal_tokens (delete id (personal_tokens s)) s)
  | Ac_invite i t :
      accounts s !! invited_login i = None → open_invitation i = true → attempt_count i = 0%N →
      (∀ j id, invitations s !! id = Some j → open_invitation j = true →
         expired_invitation t j = false → ¬ rival j i) →
      (bootstrap_owner i = true → bound_role (intended_bindings i) = UR_Admin) →
      account_change s
        (set_invitations
           (<[invitation_id i := i]>
              ((λ j, if expired_invitation t j then revoke_invitation t j else j) <$> invitations s)) s)
  | Ac_revoke id i t :
      invitations s !! id = Some i → open_invitation i = true →
      account_change s (set_invitations (<[id := revoke_invitation t i]> (invitations s)) s)
  | Ac_attempt i :
      invitations s !! invitation_id i = Some i → open_invitation i = true →
      (attempt_count i < ACTIVATION_MAX_ATTEMPTS)%N →
      account_change s (set_invitations (<[invitation_id i := count_attempt i]> (invitations s)) s)
  | Ac_challenge c i :
      invitations s !! activation_invitation c = Some i → open_invitation i = true →
      invitation_id i = activation_invitation c → (attempt_count i < ACTIVATION_MAX_ATTEMPTS)%N →
      activation_consumed_at c = None →
      let s1 := set_invitations (<[invitation_id i := count_attempt i]> (invitations s)) s in
      account_change s
        (set_activation_challenges (<[challenge_hash c := c]> (activation_challenges s1)) s1)
  | Ac_activate h c i a t s3 :
      activation_challenges s !! h = Some c → activation_consumed_at c = None →
      invitations s !! activation_invitation c = Some i → open_invitation i = true →
      accounts s !! invited_login i = None → fresh_account (invited_login i) a →
      account_status a = AS_PendingMfa → role a = bound_role (intended_bindings i) →
      (bootstrap_owner i = true → bootstrap_owner_consumed s = false ∧ has_admin s = false) →
      let s1 := set_activation_challenges
                  (<[h := consume_challenge t c]> (activation_challenges s)) s in
      let s2 := set_invitations (<[invitation_id i := consume_invitation t i]> (invitations s1)) s1 in
      (s3 = s2 ∨ ∃ x, users s2 !! invited_login i = None ∧ user_login x = invited_login i
                      ∧ s3 = set_users (<[invited_login i := x]> (users s2)) s2) →
      let s4 := set_teams (foldl (add_member (invited_login i)) (teams s3)
                             (bound_teams (intended_bindings i))) s3 in
      let s5 := if bootstrap_owner i then set_bootstrap_owner_consumed true s4 else s4 in
      account_change s (put_account (invited_login i) a s5)
  | Ac_grant login o n g :
      is_Some (accounts s !! login) → is_Some (repos s !! (o, n)) →
      account_change s (set_repo_grants (<[(login, o, n) := g]> (repo_grants s)) s)
  | Ac_ungrant k : account_change s (set_repo_grants (delete k (repo_grants s)) s).

(** Epochs that can still be raised so many times. *)
Definition epochs_below (k : N) (s : State) : Prop :=
  (k < u64_max)%N ∧ ∀ login a, accounts s !! login = Some a → (auth_epoch a + k < u64_max)%N.

(** ** What holds of the tables *)

Definition admin_there (s : State) : Prop :=
  ∃ login a, accounts s !! login = Some a ∧ role a = UR_Admin.

(** An epoch the account has had. *)
Definition epoch_had (s : State) (login : string) (e : N) : Prop :=
  ∃ a, accounts s !! login = Some a ∧ (e ≤ auth_epoch a)%N.

Definition invitation_ok (s : State) (id : Uuid) (i : AccountInvitation) : Prop :=
  invitation_id i = id ∧ (attempt_count i ≤ ACTIVATION_MAX_ATTEMPTS)%N
  ∧ (bootstrap_owner i = true → bound_role (intended_bindings i) = UR_Admin)
  ∧ (invitation_consumed_at i ≠ None → is_Some (accounts s !! invited_login i)).

Record accounts_ok (s : State) : Prop := {
  ao_accounts login a : accounts s !! login = Some a → canonical_login a = login;
  ao_sessions h x : sessions s !! h = Some x →
    session_token_hash x = h ∧ epoch_had s (session_login x) (session_epoch x);
  ao_tokens id x : personal_tokens s !! id = Some x →
    token_id x = id ∧ epoch_had s (token_login x) (token_epoch x);
  ao_invitations id i : invitations s !! id = Some i → invitation_ok s id i;
  ao_open id j i i' : invitations s !! id = Some i → invitations s !! j = Some i' →
    open_invitation i = true → open_invitation i' = true → rival i i' → id = j;
  ao_challenges h c : activation_challenges s !! h = Some c →
    challenge_hash c = h ∧ is_Some (invitations s !! activation_invitation c);
  ao_owner : bootstrap_owner_consumed s = true → admin_there s
}.

(** What the rest of the forge may not touch. *)
Record same_auth (s s' : State) : Prop := {
  sa_accounts : accounts s' = accounts s; sa_sessions : sessions s' = sessions s;
  sa_tokens : personal_tokens s' = personal_tokens s; sa_invitations : invitations s' = invitations s;
  sa_challenges : activation_challenges s' = activation_challenges s;
  sa_bootstrap : bootstrap_owner_consumed s' = bootstrap_owner_consumed s
}.

Lemma same_auth_ok s s' : same_auth s s' → accounts_ok s → accounts_ok s'.
Proof.
  intros [H1 H2 H3 H4 H5 H6] []. unfold invitation_ok, epoch_had, admin_there in *.
  split; unfold invitation_ok, epoch_had, admin_there; rewrite ?H1, ?H2, ?H3, ?H4, ?H5, ?H6; done.
Qed.

(** Accounts stay; the role does not change, the epoch does not fall, and the status does not
    change without it. *)
Record still (a a' : UserAccount) : Prop := {
  st_login : canonical_login a' = canonical_login a; st_role : role a' = role a;
  st_created : account_created_at a' = account_created_at a;
  st_epoch : (auth_epoch a ≤ auth_epoch a')%N;
  st_status : auth_epoch a' = auth_epoch a → account_status a' = account_status a
}.

Lemma still_refl a : still a a.
Proof. by split. Qed.

Lemma still_trans a1 a2 a3 : still a1 a2 → still a2 a3 → still a1 a3.
Proof.
  intros [H1 H2 H3 H4 H5] [J1 J2 J3 J4 J5]. split; [congruence..|lia|]. intros He.
  rewrite J5, H5 by lia. done.
Qed.

Definition accounts_kept (s s' : State) : Prop :=
  ∀ login a, accounts s !! login = Some a → ∃ a', accounts s' !! login = Some a' ∧ still a a'.

#[export] Instance accounts_kept_trans : Transitive accounts_kept.
Proof.
  intros s1 s2 s3 H1 H2 login a Ha. destruct (H1 _ _ Ha) as (b & Hb & ?).
  destruct (H2 _ _ Hb) as (d & Hd & ?). exists d. split; [done|by eapply still_trans].
Qed.

Lemma kept_same s s' : accounts s' = accounts s → accounts_kept s s'.
Proof. intros H login a Ha. exists a. rewrite H. split; [done|apply still_refl]. Qed.

Lemma kept_new login a s s' :
  accounts s !! login = None → accounts s' = <[login := a]> (accounts s) → accounts_kept s s'.
Proof.
  intros Hn H l b Hb. exists b. rewrite H, lookup_insert_ne by congruence. split; [done|apply still_refl].
Qed.

Lemma kept_edit login a a' s s' :
  accounts s !! login = Some a → accounts s' = <[login := a']> (accounts s) → still a a' →
  accounts_kept s s'.
Proof.
  intros Ha H Hstill l b Hb. rewrite H. destruct (decide (login = l)) as [<-|Hne].
  - exists a'. rewrite lookup_insert_eq. assert (b = a) as -> by congruence. by split.
  - exists b. rewrite lookup_insert_ne by done. split; [done|apply still_refl].
Qed.

Lemma account_change_kept s s' : account_change s s' → accounts_kept s s'.
Proof.
  destruct 1; try (by apply kept_same).
  - by eapply (kept_new login a).
  - eapply (kept_edit login a); [done|reflexivity|]. split; cbn; [done..|lia|lia].
  - eapply (kept_edit login a); [done|reflexivity|]. by split.
  - eapply (kept_new (invited_login i) a); [done|]. by subst s5 s4; activated.
Qed.

Lemma epoch_had_kept s s' login e : accounts_kept s s' → epoch_had s login e → epoch_had s' login e.
Proof.
  intros Hk (a & Ha & He). destruct (Hk _ _ Ha) as (a' & Ha' & [_ _ _ Hle _]). exists a'. split; [done|lia].
Qed.

Lemma is_account_kept s s' login :
  accounts_kept s s' → is_Some (accounts s !! login) → is_Some (accounts s' !! login).
Proof. intros Hk [a Ha]. destruct (Hk _ _ Ha) as (a' & Ha' & _). by exists a'. Qed.

Lemma admin_kept s s' : accounts_kept s s' → admin_there s → admin_there s'.
Proof.
  intros Hk (l & a & Ha & Hr). destruct (Hk _ _ Ha) as (a' & Ha' & [_ Hr' _ _ _]). exists l, a'.
  split; congruence.
Qed.

Lemma invitation_ok_kept s s' id i : accounts_kept s s' → invitation_ok s id i → invitation_ok s' id i.
Proof.
  intros Hk (H1 & H2 & H3 & H4). split_and!; [done..|]. intros Hc. by eapply is_account_kept, H4.
Qed.

(** Only accounts and credentials change. *)
Lemma ok_credentials s s' :
  accounts_ok s → accounts_kept s s' →
  (∀ login a, accounts s' !! login = Some a → canonical_login a = login) →
  (∀ h x, sessions s' !! h = Some x → sessions s !! h = Some x ∨
     session_token_hash x = h ∧ epoch_had s' (session_login x) (session_epoch x)) →
  (∀ id x, personal_tokens s' !! id = Some x → personal_tokens s !! id = Some x ∨
     token_id x = id ∧ epoch_had s' (token_login x) (token_epoch x)) →
  invitations s' = invitations s → activation_challenges s' = activation_challenges s →
  bootstrap_owner_consumed s' = bootstrap_owner_consumed s → accounts_ok s'.
Proof.
  intros [H1 H2 H3 H4 H5 H6 H7] Hk Ha Hs Ht Hi Hc Hb. split; rewrite ?Hi, ?Hc, ?Hb; try done.
  - intros h x [[? ?]%H2|?]%Hs; [|done]. split; [done|]. by eapply epoch_had_kept.
  - intros id x [[? ?]%H3|?]%Ht; [|done]. split; [done|]. by eapply epoch_had_kept.
  - intros id i H. eapply invitation_ok_kept; [done|by apply H4].
  - intros H. by eapply admin_kept, H7.
Qed.

(** Only invitations change. *)
Lemma ok_invitations s s' :
  accounts_ok s → accounts s' = accounts s → sessions s' = sessions s →
  personal_tokens s' = personal_tokens s →
  bootstrap_owner_consumed s' = bootstrap_owner_consumed s →
  (∀ id i, invitations s' !! id = Some i → invitation_ok s id i) →
  (∀ id j i i', invitations s' !! id = Some i → invitations s' !! j = Some i' →
    open_invitation i = true → open_invitation i' = true → rival i i' → id = j) →
  (∀ h c, activation_challenges s' !! h = Some c →
    challenge_hash c = h ∧ is_Some (invitations s' !! activation_invitation c)) → accounts_ok s'.
Proof.
  intros [H1 H2 H3 H4 H5 H6 H7] Ha Hs Ht Hb Hi Ho Hc. assert (Hk : accounts_kept s s') by by apply kept_same.
  split; rewrite ?Ha, ?Hs, ?Ht, ?Hb; try done.
  - intros h x [? ?]%H2. split; [done|]. by eapply epoch_had_kept.
  - intros id x [? ?]%H3. split; [done|]. by eapply epoch_had_kept.
  - intros id i H. by eapply invitation_ok_kept, Hi.
  - intros H. by eapply admin_kept, H7.
Qed.

Lemma rival_sym i j : rival i j → rival j i.
Proof. intros [H|[H1 H2]]; [by left|by right]. Qed.

(** An invitation edited in place. *)
Lemma open_edited s id i i' :
  accounts_ok s → invitations s !! id = Some i → (∀ j, rival i' j → rival i j) →
  (open_invitation i' = true → open_invitation i = true) →
  ∀ id1 id2 j1 j2, <[id := i']> (invitations s) !! id1 = Some j1 →
    <[id := i']> (invitations s) !! id2 = Some j2 → open_invitation j1 = true →
    open_invitation j2 = true → rival j1 j2 → id1 = id2.
Proof.
  intros Hok Hi Hl Ho id1 id2 j1 j2 [[<- <-]|[_ H1]]%lookup_insert_Some [[<- <-]|[_ H2]]%lookup_insert_Some
    Ho1 Ho2 He; [done|..].
  - by eapply (ao_open _ Hok id id2); eauto.
  - eapply (ao_open _ Hok id1 id); eauto. by apply rival_sym, Hl, rival_sym.
  - by eapply (ao_open _ Hok).
Qed.

Lemma challenges_edited s id i' :
  accounts_ok s → ∀ h c, activation_challenges s !! h = Some c →
  challenge_hash c = h ∧ is_Some (<[id := i']> (invitations s) !! activation_invitation c).
Proof.
  intros Hok h c [Hh Hi]%(ao_challenges _ Hok). split; [done|].
  destruct (decide (id = activation_invitation c)) as [<-|Hne]; [by rewrite lookup_insert_eq|].
  by rewrite lookup_insert_ne.
Qed.

(** An account put under its name. *)
Lemma named_put login a (m : gmap string UserAccount) :
  canonical_login a = login → (∀ l b, m !! l = Some b → canonical_login b = l) →
  ∀ l b, <[login := a]> m !! l = Some b → canonical_login b = l.
Proof. intros Ha Hm l b [[<- <-]|[_ H]]%lookup_insert_Some; [done|by apply Hm]. Qed.

(** The changes of accounts, sessions, tokens and grants. *)
Lemma credential_change_ok s s' :
  account_change s s' → accounts_ok s →
  invitations s' = invitations s → activation_challenges s' = activation_challenges s →
  bootstrap_owner_consumed s' = bootstrap_owner_consumed s → accounts_ok s'.
Proof.
  intros Hch Hok Hi Hc Hb. apply (ok_credentials s); [done|by eapply account_change_kept|..|done|done|done];
    clear Hi Hc Hb; destruct Hch; cbn; try (by left); try (by apply (ao_accounts _ Hok)).
  all: try (subst s5 s4 s2 s1; activated; cbn).
  all: try (apply named_put; [|by apply (ao_accounts _ Hok)]).
  all: try (match goal with |- canonical_login _ = _ => by cbn; eapply (ao_accounts _ Hok) end).
  all: try by (match goal with H : fresh_account _ _ |- _ => destruct H end).
  all: try by (intros ? ? [? _]%map_lookup_filter_Some; left).
  all: try by (intros ? ? [_ ?]%lookup_delete_Some; left).
  all: try by (intros ? ?; left).
  all: intros ? ? [[<- <-]|[_ ?]]%lookup_insert_Some; [right|by left].
  all: split; [done|]; eexists; split; [eassumption|lia].
Qed.

Lemma ok_revoke s id i t :
  accounts_ok s → invitations s !! id = Some i → open_invitation i = true →
  accounts_ok (set_invitations (<[id := revoke_invitation t i]> (invitations s)) s).
Proof.
  intros Hok Hi Ho. pose proof (ao_invitations _ Hok _ _ Hi) as (H1 & H2 & H3 & H4).
  apply (ok_invitations s); [done..| | |exact (challenges_edited s _ _ Hok)]; cbn.
  - intros j x [[<- <-]|[_ Hx]]%lookup_insert_Some; [by split_and!|by apply (ao_invitations _ Hok)].
  - eapply open_edited; [done..|]. unfold open_invitation at 1. cbn. by rewrite andb_false_r.
Qed.

Lemma attempt_invitation s i :
  accounts_ok s → invitations s !! invitation_id i = Some i →
  (attempt_count i < ACTIVATION_MAX_ATTEMPTS)%N → invitation_ok s (invitation_id i) (count_attempt i).
Proof.
  intros Hok Hi Hlt. pose proof (ao_invitations _ Hok _ _ Hi) as (H1 & H2 & H3 & H4).
  split_and!; [done| |done|done]. cbn. lia.
Qed.

Lemma ok_attempt s i :
  accounts_ok s → invitations s !! invitation_id i = Some i →
  (attempt_count i < ACTIVATION_MAX_ATTEMPTS)%N →
  accounts_ok (set_invitations (<[invitation_id i := count_attempt i]> (invitations s)) s).
Proof.
  intros Hok Hi Hlt. apply (ok_invitations s); [done..| | |exact (challenges_edited s _ _ Hok)]; cbn.
  - intros j x [[<- <-]|[_ Hx]]%lookup_insert_Some; [by apply attempt_invitation|by apply (ao_invitations _ Hok)].
  - by eapply open_edited.
Qed.

Lemma ok_challenge s c :
  accounts_ok s → is_Some (invitations s !! activation_invitation c) →
  accounts_ok (set_activation_challenges (<[challenge_hash c := c]> (activation_challenges s)) s).
Proof.
  intros Hok Hi. apply (ok_invitations s); [done..| | |]; cbn.
  - apply (ao_invitations _ Hok).
  - apply (ao_open _ Hok).
  - intros h x [[<- <-]|[_ Hx]]%lookup_insert_Some; [done|by apply (ao_challenges _ Hok)].
Qed.

(** The invitations that have run out are revoked and a new one is made. *)
Lemma ok_invite s i t :
  accounts_ok s → open_invitation i = true → attempt_count i = 0%N →
  (∀ j id, invitations s !! id = Some j → open_invitation j = true →
     expired_invitation t j = false → ¬ rival j i) →
  (bootstrap_owner i = true → bound_role (intended_bindings i) = UR_Admin) →
  accounts_ok (set_invitations (<[invitation_id i := i]>
    ((λ j, if expired_invitation t j then revoke_invitation t j else j) <$> invitations s)) s).
Proof.
  intros Hok Ho Hat Hone Hrole. set (f := λ j, _).
  assert (Hf : ∀ j, open_invitation (f j) = true →
            f j = j ∧ expired_invitation t j = false).
  { intros j. unfold f. destruct (expired_invitation t j); [|done].
    unfold open_invitation. cbn. by rewrite andb_false_r. }
  apply (ok_invitations s); [done..| | |]; cbn.
  - intros id x [[<- <-]|[_ (j & <- & Hj)%lookup_fmap_Some]]%lookup_insert_Some.
    + split_and!; [done|rewrite Hat; done|done|]. unfold open_invitation in Ho.
      apply andb_true_iff in Ho as [Ho%bool_decide_eq_true_1 _]. by rewrite Ho.
    + pose proof (ao_invitations _ Hok _ _ Hj) as (?&?&?&?). unfold f.
      destruct (expired_invitation t j); by split_and!.
  - intros id j x y [[<- <-]|[_ (x0 & <- & Hx)%lookup_fmap_Some]]%lookup_insert_Some
      [[<- <-]|[_ (y0 & <- & Hy)%lookup_fmap_Some]]%lookup_insert_Some Hox Hoy Hl; [done|..].
    + destruct (Hf _ Hoy) as [He Hexp]. rewrite He in *. destruct (Hone _ _ Hy Hoy Hexp). by apply rival_sym.
    + destruct (Hf _ Hox) as [He Hexp]. rewrite He in *. by destruct (Hone _ _ Hx Hox Hexp).
    + destruct (Hf _ Hox) as [He _], (Hf _ Hoy) as [He' _]. rewrite He, He' in *.
      by eapply (ao_open _ Hok).
  - intros h c [Hh Hc]%(ao_challenges _ Hok). split; [done|].
    destruct (decide (invitation_id i = activation_invitation c)) as [<-|Hne];
      [by rewrite lookup_insert_eq|]. rewrite lookup_insert_ne, lookup_fmap by done.
    destruct Hc as [x Hx]. by rewrite Hx.
Qed.

(** The account of an invitation, which is consumed with its challenge. *)
Lemma ok_activate s s' h c i a t :
  accounts_ok s → activation_challenges s !! h = Some c →
  invitations s !! activation_invitation c = Some i → accounts s !! invited_login i = None →
  fresh_account (invited_login i) a → role a = bound_role (intended_bindings i) →
  accounts s' = <[invited_login i := a]> (accounts s) → sessions s' = sessions s →
  personal_tokens s' = personal_tokens s →
  invitations s' = <[invitation_id i := consume_invitation t i]> (invitations s) →
  activation_challenges s' = <[h := consume_challenge t c]> (activation_challenges s) →
  bootstrap_owner_consumed s' = (bootstrap_owner i || bootstrap_owner_consumed s) → accounts_ok s'.
Proof.
  intros Hok Hc Hi Hnone [Hn He] Hr Ha Hs Ht Hinv Hch Hb.
  pose proof (ao_invitations _ Hok _ _ Hi) as (H1 & H2 & H3 & H4).
  destruct (ao_challenges _ Hok _ _ Hc) as [Hh _].
  assert (Hk : accounts_kept s s') by by eapply kept_new.
  split; rewrite ?Ha, ?Hs, ?Ht, ?Hinv, ?Hch, ?Hb.
  - apply named_put; [done|apply (ao_accounts _ Hok)].
  - intros ? x [? ?]%(ao_sessions _ Hok). split; [done|]. by eapply epoch_had_kept.
  - intros ? x [? ?]%(ao_tokens _ Hok). split; [done|]. by eapply epoch_had_kept.
  - intros id x [[<- <-]|[_ Hx]]%lookup_insert_Some.
    + split_and!; [done..|]. intros _. by rewrite Ha, lookup_insert_eq.
    + eapply invitation_ok_kept; [done|by apply (ao_invitations _ Hok)].
  - rewrite H1. eapply (open_edited _ _ _ _ Hok Hi); [done|]. unfold open_invitation at 1. cbn. done.
  - rewrite H1. intros h' x [[<- <-]|[_ Hx]]%lookup_insert_Some.
    + split; [done|]. cbn. by rewrite lookup_insert_eq.
    + by eapply challenges_edited.
  - destruct (bootstrap_owner i) eqn:Hboot; cbn; intros Hq.
    + exists (invited_login i), a. rewrite Ha, lookup_insert_eq, Hr. split; [done|by apply H3].
    + by eapply admin_kept, (ao_owner _ Hok).
Qed.

Lemma account_change_ok s s' : account_change s s' → accounts_ok s → accounts_ok s'.
Proof.
  intros Hch Hok. pose proof (λ a b c, credential_change_ok _ _ Hch Hok a b c) as Hcred.
  destruct Hch as [| | | | | | | |i t H1 H2 H3 H4 H5|id i t H1 H2|i H1 H2 H3
    |c i H3 H4 H5 H6 H7|h c i a t s3 H1 H2 H3 H4 H5 H6 H7 H8 H9 s1 s2 H10| |];
    try (by apply Hcred); clear Hcred.
  - by eapply ok_invite.
  - by apply ok_revoke.
  - by apply ok_attempt.
  - apply ok_challenge; [apply ok_attempt; [done|by rewrite H5|done]|]. cbn. rewrite H5, lookup_insert_eq. by eexists.
  - eapply (ok_activate s _ h c i a t); try done; subst s5 s4; by activated.
Qed.

(** What the calls leave alone. *)
Record same_rows (s s' : State) : Prop := {
  sr_repos : repos s' = repos s; sr_issues : issues s' = issues s;
  sr_pulls : pulls s' = pulls s; sr_reviews : reviews s' = reviews s;
  sr_bound : bound_reviews s' = bound_reviews s; sr_counters : counters s' = counters s;
  sr_blocks : repository_mutation_blocks s' = repository_mutation_blocks s;
  sr_transfers : repository_transfers s' = repository_transfers s
}.

#[export] Instance same_rows_trans : Transitive same_rows.
Proof. intros s1 s2 s3 [] []. split; congruence. Qed.

#[export] Instance same_rows_refl : Reflexive same_rows.
Proof. by split. Qed.

Lemma account_change_rows s s' : account_change s s' → same_rows s s'.
Proof. destruct 1; try done. by subst s5 s4; activated. Qed.

Lemma account_steps_rows s s' : rtc account_change s s' → same_rows s s'.
Proof. induction 1 as [|s s1 s' H%account_change_rows _ IH]; [done|]. by etrans. Qed.

Lemma account_steps_kept s s' : rtc account_change s s' → accounts_kept s s'.
Proof.
  induction 1 as [|s s1 s' H%account_change_kept _ IH]; [by apply kept_same|]. by etrans.
Qed.

Lemma account_steps_ok s s' : rtc account_change s s' → accounts_ok s → accounts_ok s'.
Proof. induction 1; eauto using account_change_ok. Qed.

(** ** Running the calls *)

Record at_core (s : State) (k : nat) (c : Core) : Prop := {
  ac_saved : saved c; ac_state : state c = s; ac_asked : asked c = k
}.

Lemma awp_read Q c s k : at_core s k c → Q (Ok s) c → wp read_state Q c.
Proof. by intros [_ <- _]. Qed.

Lemma awp_ask {X} (f : nat → X) Q c s k :
  at_core s k c → (∀ c', at_core s (S k) c' → Q (Ok (f k)) c') → wp (ask f) Q c.
Proof. intros [Hc <- <-] H. apply H. by split. Qed.

Lemma awp_guard f Q c s k :
  at_core s k c → (∀ c', at_core s (S k) c' → Q (Ok tt) c') →
  (∀ e c', at_core s (S k) c' → f k = Some e → Q (Err e) c') → wp (guard f) Q c.
Proof.
  intros [Hc <- <-] H1 H2. unfold wp, guard, bind, ask.
  destruct (f (asked c)); [apply H2|apply H1]; by try split.
Qed.

Lemma awp_commit s' Q c s k :
  at_core s k c → (∀ c' k', at_core s' k' c' → k ≤ k' → Q (Ok tt) c') →
  (∀ e c' k', at_core s k' c' → k ≤ k' → k' = S k ∧ persist_error k = Some e → Q (Err e) c') →
  wp (commit s') Q c.
Proof.
  intros [Hc <- <-] H1 H2. unfold wp, commit. destruct (stored c) as [s0|] eqn:Hst.
  - destruct (persist_error (asked c)) as [e|] eqn:He.
    + eapply H2; [|apply Nat.le_succ_diag_r|by split]. split; [|done|done]. unfold saved in *. cbn. by rewrite Hst in *.
    + eapply H1; [|apply Nat.le_succ_diag_r]. by split.
  - eapply H1; [|done]. by split.
Qed.

End changes.

Ltac astep :=
  match goal with
  | |- then_ _ _ (Ok _) _ => unfold then_; cbv beta iota
  | |- then_ _ _ (Err _) _ => unfold then_; cbv beta iota
  | |- then_ _ _ ?r _ => destruct r eqn:?
  | |- wp (bind _ _) _ _ => apply wp_bind
  | |- wp (ret _) _ _ => apply wp_ret
  | |- wp (throw _) _ _ => apply wp_throw
  | |- wp (lift _) _ _ => apply wp_lift
  | H : at_core _ _ ?c |- wp read_state _ ?c => eapply (awp_read _ c _ _ H)
  | H : at_core _ _ ?c |- wp (guard _) _ ?c =>
      eapply (awp_guard _ _ c _ _ H); clear c H;
        [intros ? ?|let Hw := fresh "Hworld" in intros ? ? ? Hw]
  | H : at_core _ _ ?c |- wp (ask _) _ ?c => eapply (awp_ask _ _ c _ _ H); clear c H; intros ? ?
  | H : at_core _ _ ?c |- wp now _ ?c => eapply (awp_ask _ _ c _ _ H); clear c H; intros ? ?
  | H : at_core _ _ ?c |- wp new_v4 _ ?c => eapply (awp_ask _ _ c _ _ H); clear c H; intros ? ?
  | H : at_core _ _ ?c |- wp (commit _) _ ?c =>
      eapply (awp_commit _ _ c _ _ H); clear c H;
        [intros ? ? ? ?|let Hw := fresh "Hworld" in intros ? ? ? ? ? Hw]
  | |- wp secret _ _ => unfold secret
  | |- wp (hash _) _ _ => unfold hash
  | |- wp (with_global_mutation _) _ _ => unfold with_global_mutation
  | |- wp (validate_pat_expiry _) _ _ => unfold validate_pat_expiry
  | |- wp (if ?b then _ else _) _ _ => destruct b eqn:?
  | |- wp (match ?x with _ => _ end) _ _ => destruct x eqn:?
  | |- match ?x with Ok _ => _ | Err _ => _ end => destruct x eqn:?
  | |- wp _ _ _ => progress (cbv zeta beta)
  end.

Section calls.
Context `{E : ForgeEnv} {R : ReviewEnv} {A : AuthEnv} {AS : AuthEnvSpec}.

(** What a call that raises epochs at most [q] times leaves behind. *)
Definition account_post {X} (q : N) (s0 : State) (_ : result X ForgeError) (c : Core) : Prop :=
  saved c ∧ rtc account_change s0 (state c)
  ∧ ∀ k, epochs_below (q + k) s0 → epochs_below k (state c).

Lemma epochs_mono j k s : (j ≤ k)%N → epochs_below k s → epochs_below j s.
Proof. intros Hle [Hk H]. split; [lia|]. intros l a Ha. specialize (H l a Ha). lia. Qed.

(** One account at a higher epoch, or a new one. *)
Lemma epochs_put q login a s s' k :
  accounts s' = <[login := a]> (accounts s) →
  (auth_epoch a = 0 ∨ ∃ b, accounts s !! login = Some b ∧ auth_epoch a ≤ auth_epoch b + q)%N →
  epochs_below (q + k) s → epochs_below k s'.
Proof.
  intros Hs Ha [Hk H]. split; [lia|]. rewrite Hs. intros l b [[<- <-]|[_ Hb]]%lookup_insert_Some.
  - destruct Ha as [->|(b & Hb & Hle)]; [lia|]. specialize (H _ _ Hb). lia.
  - specialize (H _ _ Hb). lia.
Qed.

Lemma epochs_same s s' k : accounts s' = accounts s → epochs_below k s → epochs_below k s'.
Proof. intros Hs [Hk H]. split; [done|]. by rewrite Hs. Qed.

Lemma account_change_epochs s s' k :
  account_change s s' → epochs_below (1 + k) s → epochs_below k s'.
Proof.
  destruct 1; try (intros He; eapply epochs_same; [|eapply epochs_mono; [|exact He]; lia]; done).
  - apply (epochs_put 1 login a); [done|]. left. by destruct H0.
  - eapply (epochs_put 1 login); [reflexivity|]. right. exists a. split; [done|]. cbn. lia.
  - eapply (epochs_put 1 login); [reflexivity|]. right. exists a. split; [done|]. cbn. lia.
  - apply (epochs_put 1 (invited_login i) a); [by subst s5 s4; activated|]. left. by destruct H4.
Qed.

Lemma post_kept {X} q s0 (r : result X ForgeError) c k : at_core s0 k c → account_post q s0 r c.
Proof. intros [Hc <- _]. split_and!; [done..|]. intros j. apply epochs_mono. lia. Qed.

Lemma post_change {X} s0 s1 (r : result X ForgeError) c k :
  at_core s1 k c → account_change s0 s1 → account_post 1 s0 r c.
Proof.
  intros [Hc <- _] Hch. split_and!; [done|by apply rtc_once|]. intros j. by apply account_change_epochs.
Qed.

(** What a call may assume: the live state is saved and epochs can be raised. *)
Definition ready (s : State) : Prop := epochs_below 1 s ∧ accounts_ok s.

Definition accounted {X} (m : M X) : Prop :=
  ∀ c, saved c → ready (state c) → wp m (account_post 1 (state c)) c.

Lemma accounted_at {X} (m : M X) :
  (∀ c s k, at_core s k c → ready s → wp m (account_post 1 s) c) → accounted m.
Proof. intros H c Hc He. by apply (H c _ (asked c)). Qed.

Lemma next_epoch_ok e : (e < u64_max)%N → next_auth_epoch e = Ok (e + 1)%N.
Proof.
  intros H. unfold next_auth_epoch. destruct (checked_add _ _ _) as [n|] eqn:Hn.
  - by apply checked_add_Some in Hn as [-> _].
  - apply checked_add_None in Hn. lia.
Qed.

Lemma awp_raise login a h st mc (Q : result AccountSummary ForgeError → Core → Prop) c s k :
  at_core s k c → (auth_epoch a < u64_max)%N →
  (∀ c' k' t, let a' := edit_account a h st (auth_epoch a + 1) mc t in
     at_core (drop_credentials login (put_account login a' s)) k' c' → k ≤ k' →
     Q (Ok (summary a')) c') →
  (∀ e c' k', at_core s k' c' → k ≤ k' → Q (Err e) c') →
  wp (raise_epoch login a h st mc) Q c.
Proof.
  intros Hc Hlt Hok Herr. unfold raise_epoch. rewrite (next_epoch_ok _ Hlt).
  repeat astep; [eapply Hok|eapply Herr]; try done; lia.
Qed.

Lemma awp_profile login name t (Q : result State ForgeError → Core → Prop) c s0 s k :
  at_core s0 k c →
  (∀ s' c' k', at_core s0 k' c' → k ≤ k' →
     s' = s ∨ (∃ u, users s !! login = None ∧ user_login u = login
                    ∧ s' = set_users (<[login := u]> (users s)) s) → Q (Ok s') c') →
  wp (profile_entry login name t s) Q c.
Proof.
  intros Hc HQ. unfold profile_entry. destruct (users s !! login) as [u|] eqn:Hu.
  - astep. eapply HQ; [done|done|by left].
  - repeat astep. eapply HQ; [eassumption|lia|]. right. eexists. split_and!; [reflexivity| |reflexivity]. done.
Qed.

Ltac kept := eapply post_kept; eassumption.

Lemma put_profile login a u s :
  put_account login a (set_users u s) = set_users u (put_account login a s).
Proof. done. Qed.

Lemma create_account_spec login password role_ c s k :
  at_core s k c →
  wp (create_account_admitted login password role_)
    (λ r c', ∃ k', asked c' = k' ∧ k ≤ k' ∧
       match r with
       | Err _ => at_core s k' c'
       | Ok _ => ∃ a s1, accounts s !! login = None ∧ fresh_account login a
           ∧ (s1 = s ∨ ∃ u, users s !! login = None ∧ user_login u = login
                            ∧ s1 = set_users (<[login := u]> (users s)) s)
           ∧ at_core (put_account login a s1) k' c'
       end) c.
Proof.
  intros Hc. unfold create_account_admitted.
  repeat astep; try (eexists; split; [by eapply ac_asked|split; [lia|eassumption]]).
  eapply awp_profile; [eassumption|]. intros s' c1 k1 Hc1 Hle Hs'.
  repeat astep; (eexists; split; [by eapply ac_asked|]); (split; [lia|]); [|eassumption].
  eexists _, s'. split; [done|]. apply and_comm. split; [split; [exact Hs'|eassumption]|by split].
Qed.

(** The account, with its profile if there was none. *)
Lemma new_account_steps s login a s1 :
  accounts s !! login = None → fresh_account login a →
  s1 = s ∨ (∃ u, users s !! login = None ∧ user_login u = login
                 ∧ s1 = set_users (<[login := u]> (users s)) s) →
  rtc account_change s (put_account login a s1).
Proof.
  intros Hnone Ha Hs1. apply (rtc_r _ s1).
  - destruct Hs1 as [->|(u & Hu & Hl & ->)]; [done|]. by apply rtc_once, Ac_profile.
  - apply Ac_account; [|done]. by destruct Hs1 as [->|(u & _ & _ & ->)].
Qed.

Lemma create_admitted_post login password role_ c s k :
  at_core s k c → wp (create_account_admitted login password role_) (account_post 0 s) c.
Proof.
  intros Hc. eapply wp_mono; [by eapply create_account_spec|]. cbv beta.
  intros [x|e] c2 (k' & Hk & Hle & Hr); [|by kept].
  destruct Hr as (a & s1 & Hnone & Ha & Hs1 & Hc1). pose proof (ac_state _ _ _ Hc1) as Hst.
  split_and!; [by eapply ac_saved|rewrite Hst; by apply new_account_steps|].
  intros j. rewrite Hst. apply (epochs_put 0 login a); [|left; apply Ha].
  by destruct Hs1 as [->|(u & _ & _ & ->)].
Qed.

(** ** Every call *)

Lemma can_raise s login a : ready s → accounts s !! login = Some a → (auth_epoch a < u64_max)%N.
Proof. intros [[_ He] _] Ha. specialize (He login a Ha). lia. Qed.

Lemma accounted_run {X} (m : M X) c s k :
  accounted m → at_core s k c → ready s → wp m (account_post 1 s) c.
Proof. intros H [Hc <- _] He. by apply H. Qed.

Lemma accounted_global {X} (m : M X) : accounted m → accounted (with_global_mutation m).
Proof.
  intros H. apply accounted_at. intros c s k Hc He. repeat astep; try kept.
  all: by eapply accounted_run.
Qed.

Lemma create_account_accounted login password role_ : accounted (create_account login password role_).
Proof.
  apply accounted_global, accounted_at. intros c s k Hc _.
  eapply wp_mono; [by eapply create_admitted_post|]. intros r c' (Hs & Hr & He). split_and!; [done..|].
  intros j Hj. apply He. by eapply epochs_mono; [|exact Hj]; lia.
Qed.

Lemma raise_accounted login a h st mc c s k :
  at_core s k c → ready s → accounts s !! login = Some a →
  wp (raise_epoch login a h st mc) (account_post 1 s) c.
Proof.
  intros Hc He Ha. eapply awp_raise; [eassumption|by eapply can_raise| |].
  - intros c1 k1 t a' Hc1 Hle1. eapply post_change; [eassumption|].
    eapply Ac_raise; [eassumption|by eapply can_raise].
  - intros e c1 k1 Hc1 Hle1. kept.
Qed.

Ltac raised := eapply raise_accounted; eassumption.
Ltac changed rule := eapply post_change; [eassumption|eapply rule; eauto].

Lemma force_admitted_accounted login forced : accounted (force_password_change_admitted login forced).
Proof.
  apply accounted_at. intros c s k Hc He. unfold force_password_change_admitted.
  repeat astep; try kept; [raised|]. changed Ac_unforced.
Qed.

Lemma force_accounted login forced : accounted (force_password_change login forced).
Proof. apply accounted_global, force_admitted_accounted. Qed.

Lemma reset_accounted login password : accounted (reset_account_password login password).
Proof.
  apply accounted_global, accounted_at. intros c s k Hc He. repeat astep; try kept. raised.
Qed.

Lemma change_accounted login current password :
  accounted (change_account_password login current password).
Proof.
  apply accounted_global, accounted_at. intros c s k Hc He. repeat astep; try kept. raised.
Qed.

Lemma transition_accounted login st allowed : accounted (transition_account_status login st allowed).
Proof.
  apply accounted_global, accounted_at. intros c s k Hc He. repeat astep; try kept. all: raised.
Qed.

Lemma permits_active st : permits_authentication st = true → st = AS_Active.
Proof. apply bool_decide_eq_true_1. Qed.

Lemma require_active_Ok s login x :
  require_active_account s login = Ok x →
  ∃ a, accounts s !! login = Some a ∧ account_status a = AS_Active ∧ sum_epoch x = auth_epoch a.
Proof.
  unfold require_active_account, get_account. destruct (accounts s !! login) as [a|]; [|done].
  destruct (permits_authentication (sum_status (summary a))) eqn:Hp; [|done].
  intros [= <-]. exists a. split_and!; [done|by apply permits_active|done].
Qed.

Lemma create_session_accounted login password ttl :
  accounted (create_session_with_ttl login password ttl).
Proof.
  apply accounted_global, accounted_at. intros c s k Hc He.
  unfold create_session_admitted. repeat astep; try kept.
  match goal with H : require_active_account _ _ = Ok _ |- _ =>
    apply require_active_Ok in H as (acc & Hacc & Hst & Hep) end.
  eapply post_change; [eassumption|]. by eapply Ac_session.
Qed.

Lemma revoke_session_accounted token_ : accounted (revoke_session token_).
Proof.
  apply accounted_global, accounted_at. intros c s k Hc He. repeat astep; try kept.
  changed Ac_unsession.
Qed.

Lemma create_token_accounted b name_ expires_at :
  accounted (create_personal_access_token b name_ expires_at).
Proof.
  apply accounted_global, accounted_at. intros c s k Hc He. repeat astep; try kept.
  match goal with H : require_active_account _ _ = Ok _ |- _ =>
    apply require_active_Ok in H as (acc & Hacc & Hst & Hep) end.
  eapply post_change; [eassumption|]. by eapply Ac_token.
Qed.

Lemma revoke_token_accounted login id : accounted (revoke_personal_access_token login id).
Proof.
  apply accounted_global, accounted_at. intros c s k Hc He. repeat astep; try kept.
  match goal with H : at_core (if ?b then _ else _) _ _ |- _ => destruct b end; [|kept].
  changed Ac_untoken.
Qed.

Lemma revoke_invitation_accounted id : accounted (revoke_account_invitation id).
Proof.
  apply accounted_global, accounted_at. intros c s k Hc He. repeat astep; try kept.
  changed Ac_revoke.
Qed.

Lemma first_invitation s p i :
  accounts_ok s → find_first p (map_to_list (invitations s)).*2 = Some i →
  p i = true ∧ invitations s !! invitation_id i = Some i.
Proof.
  intros Hok (l1 & l2 & Hl & Hp & _)%find_first_Some. split; [done|].
  assert (Hin : i ∈ (map_to_list (invitations s)).*2) by (rewrite Hl; apply elem_of_app; right; by left).
  apply list_elem_of_fmap in Hin as ([id j] & -> & Hj%elem_of_map_to_list). cbn.
  pose proof (ao_invitations _ Hok _ _ Hj) as (Hid & _). by rewrite Hid.
Qed.

Lemma start_accounted login secret_ : accounted (start_account_activation login secret_).
Proof.
  apply accounted_global, accounted_at. intros c s k Hc He. repeat astep; try kept.
  all: match goal with H : find_first _ _ = Some _ |- _ =>
    apply first_invitation in H as [[[_ Hopen]%andb_true_iff _]%andb_true_iff Hi]; [|apply He] end.
  all: match goal with H : (_ <=? _)%N = false |- _ => apply N.leb_gt in H end.
  - changed Ac_attempt.
  - eapply post_change; [eassumption|]. by apply Ac_challenge with (i := a1).
  - match goal with H : add_minutes (now_at ?i) _ = None |- _ =>
      destruct (clock_in_range i) as [? Hd]; by rewrite Hd in H end.
Qed.

Lemma any_value_false `{Countable K} {V} (p : V → bool) (m : gmap K V) k v :
  any_value p m = false → m !! k = Some v → p v = false.
Proof.
  unfold any_value. intros Hp Hk. destruct (p v) eqn:Hv; [|done].
  assert (He : existsb p (map_to_list m).*2 = true); [|congruence].
  apply existsb_exists. exists v. split; [|done]. apply list_elem_of_In, list_elem_of_fmap.
  exists (k, v). split; [done|]. by apply elem_of_map_to_list.
Qed.

Lemma absent_account {K} `{Countable K} {B} (m : gmap K B) k :
  bool_decide (is_Some (m !! k)) = false → m !! k = None.
Proof. intros Hno%bool_decide_eq_false_1. by apply eq_None_not_Some. Qed.

Lemma complete_accounted challenge_ password :
  accounted (complete_account_activation challenge_ password).
Proof.
  apply accounted_global, accounted_at. intros c s k Hc He. repeat astep; try kept.
  eapply awp_profile; [eassumption|]. intros s' c1 k1 Hc1 Hle Hs'. repeat astep; [|kept].
  repeat match goal with
    | H : negb _ = false |- _ => apply negb_false_iff in H
    | H : (_ || _) = false |- _ => apply orb_false_iff in H as [? ?]
    | H : (_ && _) = true |- _ => apply andb_true_iff in H as [? ?]
    | H : bool_decide (is_Some _) = false |- _ => apply absent_account in H
    | H : bool_decide (_ = None) = true |- _ => apply bool_decide_eq_true_1 in H
    end.
  eapply post_change; [eassumption|].
  eapply (Ac_activate s (token_hash_of challenge_) a1 a2 _ (now_at (S k)) s'); try done.
  intros Hboot. rewrite Hboot in Heqb1. by apply orb_false_iff in Heqb1.
Qed.

Lemma accounted_repository {X} o n (m : M X) : accounted m → accounted (with_repository_mutation o n m).
Proof.
  intros H. apply accounted_at. intros c s k Hc He.
  unfold with_repository_mutation, with_named_mutation, admitted. repeat astep; try kept.
  all: by eapply accounted_run.
Qed.

Lemma get_repository_Ok s o n r : get_repository s o n = Ok r → repos s !! (o, n) = Some r.
Proof. unfold get_repository. destruct (repos s !! (o, n)); [by intros [= ->]|done]. Qed.

Lemma get_account_Ok s login x : get_account s login = Ok x → is_Some (accounts s !! login).
Proof. unfold get_account. destruct (accounts s !! login); [by eexists|done]. Qed.

Lemma grant_admitted_accounted actor login o n level :
  accounted (grant_repo_access_admitted actor login o n level).
Proof.
  apply accounted_at. intros c s k Hc He. unfold grant_repo_access_admitted. repeat astep; try kept.
  eapply post_change; [eassumption|]. apply Ac_grant; [by eapply get_account_Ok|].
  eexists. by eapply get_repository_Ok.
Qed.

Lemma grant_accounted actor login o n level : accounted (grant_repo_access actor login o n level).
Proof. apply accounted_repository, grant_admitted_accounted. Qed.

Lemma grant_checked_accounted actor login o n level :
  accounted (grant_repo_access_checked actor login o n level).
Proof.
  apply accounted_repository, accounted_at. intros c s k Hc He. repeat astep; try kept.
  by eapply accounted_run; [apply grant_admitted_accounted|..].
Qed.

Lemma revoke_admitted_accounted login o n : accounted (revoke_repo_access_admitted login o n).
Proof.
  apply accounted_at. intros c s k Hc He. unfold revoke_repo_access_admitted. repeat astep; try kept.
  changed Ac_ungrant.
Qed.

Lemma revoke_accounted login o n : accounted (revoke_repo_access login o n).
Proof. apply accounted_repository, revoke_admitted_accounted. Qed.

Lemma revoke_checked_accounted actor login o n : accounted (revoke_repo_access_checked actor login o n).
Proof.
  apply accounted_repository, accounted_at. intros c s k Hc He. repeat astep; try kept.
  by eapply accounted_run; [apply revoke_admitted_accounted|..].
Qed.

Lemma invite_accounted issuer login display bindings expires_at boot :
  (boot = true → bound_role bindings = UR_Admin) →
  accounted (create_account_invitation_inner issuer login display bindings expires_at boot).
Proof.
  intros Hrole. apply accounted_global, accounted_at. intros c s k Hc He. repeat astep; try kept.
  eapply post_change; [eassumption|]. apply Ac_invite; [by apply absent_account|done|done| |done].
  intros j id Hj Ho Hexp [Hl|[Hb1 Hb2]]; cbn in *.
  - match goal with H : any_value _ _ = false |- _ => eapply any_value_false in H; [|exact Hj] end.
    revert Heqb3. by rewrite Ho, Hexp, bool_decide_eq_true_2.
  - subst boot.
    match goal with H : true && any_value _ _ = false |- _ => eapply any_value_false in H; [|exact Hj] end.
    by rewrite Hb1, Ho, Hexp in *.
Qed.


(** Two commits; the first holds when the second fails. *)
Lemma create_temporary_accounted login password role_ :
  accounted (create_temporary_account login password role_).
Proof.
  apply accounted_global, accounted_at. intros c s k Hc [He Hok]. apply wp_bind.
  eapply wp_mono; [by eapply create_admitted_post|]. cbv beta.
  intros r c1 (Hs1 & Hr1 & He1). assert (Hready : ready (state c1)).
  { split; [by apply He1|by eapply account_steps_ok]. }
  assert (Hfirst : ∀ r' : result AccountSummary ForgeError, account_post 1 s r' c1).
  { intros r'. split_and!; [done..|]. intros j Hj. apply He1. by eapply epochs_mono; [|exact Hj]; lia. }
  destruct r as [x|e]; [|apply Hfirst]. cbn. apply wp_bind.
  eapply wp_mono; [by apply force_admitted_accounted|]. cbv beta. intros r c2 (Hs2 & Hr2 & He2).
  assert (Hboth : ∀ r' : result AccountSummary ForgeError, account_post 1 s r' c2).
  { intros r'. split_and!; [done|by etrans|]. intros j Hj. by apply He2, He1. }
  destruct r as [y|e]; [|apply Hboth]. cbn. apply wp_bind. unfold wp, read_state. cbn. apply Hboth.
Qed.

(** ** The calls as a type *)

Inductive ACall : Type :=
  | Acc_create (login password : string) (r : UserRole)
  | Acc_temporary (login password : string) (r : UserRole)
  | Acc_reset (login password : string)
  | Acc_change (login current password : string)
  | Acc_force (login : string) (forced : bool)
  | Acc_session (login password : string) (ttl : Z)
  | Acc_unsession (token_ : string)
  | Acc_token (b : AuthenticatedActor) (name_ : string) (expires_at : option DateTime)
  | Acc_untoken (login : string) (id : Uuid)
  | Acc_disable (login : string)
  | Acc_lock (login : string)
  | Acc_reactivate (login : string)
  | Acc_mfa_active (login : string)
  | Acc_invite (issuer login display : string) (b : InvitationBindings) (expires_at : DateTime)
  | Acc_bootstrap (login display : string) (expires_at : DateTime)
  | Acc_uninvite (id : Uuid)
  | Acc_start (login secret_ : string)
  | Acc_complete (challenge_ password : string)
  | Acc_grant (actor login o n : string) (level : RepoAccessLevel)
  | Acc_grant_checked (actor login o n : string) (level : RepoAccessLevel)
  | Acc_ungrant (login o n : string)
  | Acc_ungrant_checked (actor login o n : string).

Definition arun (call : ACall) : M unit :=
  match call with
  | Acc_create login password r => discard (create_account login password r)
  | Acc_temporary login password r => discard (create_temporary_account login password r)
  | Acc_reset login password => discard (reset_account_password login password)
  | Acc_change login current password => discard (change_account_password login current password)
  | Acc_force login forced => discard (force_password_change login forced)
  | Acc_session login password ttl => discard (create_session_with_ttl login password ttl)
  | Acc_unsession token_ => revoke_session token_
  | Acc_token b name_ expires_at => discard (create_personal_access_token b name_ expires_at)
  | Acc_untoken login id => discard (revoke_personal_access_token login id)
  | Acc_disable login => discard (disable_account login)
  | Acc_lock login => discard (lock_account login)
  | Acc_reactivate login => discard (reactivate_account login)
  | Acc_mfa_active login => discard (mark_account_mfa_active login)
  | Acc_invite issuer login display b expires_at =>
      discard (create_account_invitation issuer login display b expires_at)
  | Acc_bootstrap login display expires_at =>
      discard (create_bootstrap_owner_invitation login display expires_at)
  | Acc_uninvite id => discard (revoke_account_invitation id)
  | Acc_start login secret_ => discard (start_account_activation login secret_)
  | Acc_complete challenge_ password => discard (complete_account_activation challenge_ password)
  | Acc_grant actor login o n level => discard (grant_repo_access actor login o n level)
  | Acc_grant_checked actor login o n level =>
      discard (grant_repo_access_checked actor login o n level)
  | Acc_ungrant login o n => discard (revoke_repo_access login o n)
  | Acc_ungrant_checked actor login o n => discard (revoke_repo_access_checked actor login o n)
  end.

Lemma accounted_discard {X} (m : M X) : accounted m → accounted (discard m).
Proof.
  intros H c Hc He. specialize (H c Hc He). unfold discard, wp, bind, ret in *.
  by destruct (m c) as [[x|e] c'].
Qed.

Lemma arun_accounted call : accounted (arun call).
Proof.
  destruct call; cbn [arun]; try apply accounted_discard.
  - apply create_account_accounted.
  - apply create_temporary_accounted.
  - apply reset_accounted.
  - apply change_accounted.
  - apply force_accounted.
  - apply create_session_accounted.
  - apply revoke_session_accounted.
  - apply create_token_accounted.
  - apply revoke_token_accounted.
  - apply transition_accounted.
  - apply transition_accounted.
  - apply transition_accounted.
  - apply transition_accounted.
  - by apply invite_accounted.
  - by apply invite_accounted.
  - apply revoke_invitation_accounted.
  - apply start_accounted.
  - apply complete_accounted.
  - apply grant_accounted.
  - apply grant_checked_accounted.
  - apply revoke_accounted.
  - apply revoke_checked_accounted.
Qed.

End calls.
