(* ===== verification/TransferLaws.v ===== *)
(** TransferLaws: what the calls of [Transfers] do to the state. Each makes at most one
    [transfer_change], a change keeps the state well formed, and a closed journal entry is
    never written again. *)

From Stdlib Require Import Ascii.
From S2P Require Import Prelude Text Clock BranchProtection ForgeState Forge ForgeLaws.
From S2P Require Import ForgeInvariant BoundReviews Accounts AccountLaws Transfers.
Local Open Scope forge_scope.

(** * Where the rows of a table are after a move *)

(** Rows under the old name are under the new one, updated; the others stay. *)
Definition moved_rows {K} `{Countable K} {V} (old new : string * string) (update : V → V)
    (m m' : gmap ((string * string) * K) V) : Prop :=
  ∀ p k, m' !! (p, k) =
    if decide (p = new) then match m !! (old, k) with Some v => Some (update v) | None => m !! (new, k) end
    else if decide (p = old) then None else m !! (p, k).

(** The general move: [from] finds the old key of a new one. *)
Lemma rekey_fold {K} `{Countable K} {V} (to : K → K) (from : K → option K) (update : V → V) ks :
  (∀ x y, from x = Some y → to y = x) → (∀ y, y ∈ ks → from (to y) = Some y) →
  (∀ x y, from x = Some y → x ∉ ks) → NoDup ks →
  ∀ (m : gmap K V) x,
    foldl (rekey_one to update) m ks !! x =
    if decide (x ∈ ks) then None
    else match from x with
         | Some y => if decide (y ∈ ks) then match m !! y with Some v => Some (update v) | None => m !! x end
                     else m !! x
         | None => m !! x
         end.
Proof.
  intros Hfrom Hto Hsep. induction ks as [|q ks IH]; intros Hnd m x.
  { rewrite decide_False by apply not_elem_of_nil. cbn. destruct (from x) as [y|]; [|done].
    by rewrite decide_False by apply not_elem_of_nil. }
  apply NoDup_cons in Hnd as [Hno Hnd]. cbn.
  rewrite IH; [|by intros y Hy; apply Hto; right|by intros a y Ha Hin; eapply Hsep; [|right]|done].
  assert (Hqto : ∀ y, y ∈ q :: ks → to q = y → False).
  { intros y Hy Heq. eapply Hsep; [apply (Hto q); by left|]. by rewrite Heq. }
  unfold rekey_one at 1 2 3 4. destruct (decide (x ∈ ks)) as [Hx|Hx].
  { by rewrite decide_True by (by right). }
  destruct (decide (x = q)) as [->|Hxq].
  { rewrite (decide_True (P := q ∈ q :: ks)) by by left.
    destruct (from q) as [y|] eqn:Hq; [by exfalso; eapply Hsep; [|left]|].
    destruct (m !! q) as [v|] eqn:Hv; [|done].
    rewrite lookup_insert_ne by (intros Heq; eapply (Hqto q); [by left|done]). apply lookup_delete_eq. }
  rewrite (decide_False (P := x ∈ q :: ks)) by (by intros [?|?]%elem_of_cons).
  destruct (from x) as [y|] eqn:Hy.
  - apply Hfrom in Hy as Hyx. destruct (decide (y = q)) as [->|Hyq].
    + rewrite (decide_False (P := q ∈ ks)), (decide_True (P := q ∈ q :: ks)) by (done || by left).
      destruct (m !! q) as [v|] eqn:Hv; [|done]. rewrite Hyx. by rewrite lookup_insert_eq.
    + assert (Htq : to q ≠ x).
      { intros Heq. assert (Hq : from (to q) = Some q) by (apply Hto; by left). rewrite Heq in Hq. congruence. }
      assert (Hiff : y ∈ q :: ks ↔ y ∈ ks) by (rewrite elem_of_cons; naive_solver).
      assert (Hrow : ∀ z, z ≠ q → z ≠ to q →
        match m !! q with Some v => <[to q := update v]> (delete q m) | None => m end !! z = m !! z).
      { intros z Hz Hz'. destruct (m !! q); [|done]. by rewrite lookup_insert_ne, lookup_delete_ne by done. }
      rewrite (Hrow x) by done. destruct (decide (y ∈ ks)) as [Hin|Hin].
      * rewrite (decide_True (P := y ∈ q :: ks)) by by apply Hiff.
        rewrite (Hrow y); [done|done|]. intros ->. eapply (Hqto (to q)); [by right|done].
      * by rewrite (decide_False (P := y ∈ q :: ks)) by (by rewrite Hiff).
  - assert (Htq : to q ≠ x).
    { intros Heq. assert (Hq : from (to q) = Some q) by (apply Hto; by left). rewrite Heq in Hq. congruence. }
    destruct (m !! q); [|done]. by rewrite lookup_insert_ne, lookup_delete_ne by done.
Qed.

(** A key of the table that is old is among those moved. *)
Lemma old_key_listed {K} `{Countable K} {V} (P : K → Prop) `{∀ k, Decision (P k)} (m : gmap K V) k :
  P k → is_Some (m !! k) → k ∈ filter P (map_to_list m).*1.
Proof.
  intros HP [v Hv]. apply list_elem_of_filter. split; [done|]. apply list_elem_of_fmap.
  exists (k, v). split; [done|]. by apply elem_of_map_to_list.
Qed.

Lemma rekey_triples_moves {K} `{Countable K} {V} (old new : string * string) (update : V → V)
    (m : gmap ((string * string) * K) V) :
  old ≠ new → moved_rows old new update m (rekey_triples m old new update).
Proof.
  intros Hne p k. unfold rekey_triples.
  set (ks := filter _ _). assert (Hold : ∀ key, key ∈ ks → key.1 = old).
  { intros key. by intros [Hk _]%(list_elem_of_filter (λ key, key.1 = old)). }
  rewrite (rekey_fold _ (λ x, if decide (x.1 = new) then Some (old, x.2) else None)).
  - cbn. destruct (decide ((p, k) ∈ ks)) as [Hin|Hin].
    + apply Hold in Hin. cbn in Hin. subst p. by rewrite decide_False, decide_True by done.
    + destruct (decide (p = new)) as [->|Hp].
      * destruct (decide ((old, k) ∈ ks)) as [Hin'|Hin']; [done|].
        destruct (m !! (old, k)) as [v|] eqn:Hv; [|done]. exfalso. apply Hin'.
        by apply old_key_listed; [|rewrite Hv].
      * destruct (decide (p = old)) as [->|]; [|done]. destruct (m !! (old, k)) as [v|] eqn:Hv; [|done].
        exfalso. apply Hin. by apply old_key_listed; [|rewrite Hv].
  - intros [q z] y. cbn. destruct (decide _) as [->|]; [|done]. by intros [= <-].
  - intros [q z] Hy. apply Hold in Hy. cbn in *. subst q. by rewrite decide_True.
  - intros [q z] y. cbn. destruct (decide _) as [->|]; [|done]. intros _ Hin%Hold. by apply Hne.
  - apply NoDup_filter, NoDup_fst_map_to_list.
Qed.

(** The same for a table with one row for a repository. *)
Definition moved_row {V} (old new : string * string) (update : V → V)
    (m m' : gmap (string * string) V) : Prop :=
  ∀ p, m' !! p =
    if decide (p = new) then match m !! old with Some v => Some (update v) | None => m !! new end
    else if decide (p = old) then None else m !! p.

Lemma rekey_pairs_moves {V} (old new : string * string) (update : V → V) (m : gmap (string * string) V) :
  old ≠ new → moved_row old new update m (rekey_pairs m old new update).
Proof.
  intros Hne p. unfold rekey_pairs. destruct (m !! old) as [v|] eqn:Hv.
  - destruct (decide (p = new)) as [->|]; [by rewrite lookup_insert_eq|].
    rewrite lookup_insert_ne by done.
    destruct (decide (p = old)) as [->|]; [by rewrite lookup_delete_eq|]. by rewrite lookup_delete_ne.
  - destruct (decide (p = new)) as [->|]; [done|]. by destruct (decide (p = old)) as [->|].
Qed.

(** And for the grants. *)
Definition moved_grants (old new : string * string)
    `{C : Chrono} (m m' : gmap (string * string * string) RepoAccessGrant) : Prop :=
  ∀ login p, m' !! (login, p.1, p.2) =
    if decide (p = new)
    then match m !! (login, old.1, old.2) with
         | Some g => Some (move_grant new g) | None => m !! (login, new.1, new.2) end
    else if decide (p = old) then None else m !! (login, p.1, p.2).

Lemma rekey_grants_moves `{C : Chrono} (old new : string * string) m :
  old ≠ new → moved_grants old new m (rekey_grants old new m).
Proof.
  intros Hne login p. unfold rekey_grants.
  set (ks := filter _ _). assert (Hold : ∀ key, key ∈ ks → (key.1.2, key.2) = old).
  { intros key. by intros [Hk _]%(list_elem_of_filter (λ key, (key.1.2, key.2) = old)). }
  destruct old as [o1 o2], new as [n1 n2], p as [p1 p2]. cbn in *.
  rewrite (rekey_fold _ (λ x, if decide ((x.1.2, x.2) = (n1, n2)) then Some (x.1.1, o1, o2) else None)).
  - cbn. destruct (decide ((login, p1, p2) ∈ ks)) as [Hin|Hin].
    + apply Hold in Hin. cbn in Hin. injection Hin as -> ->. by rewrite decide_False, decide_True by done.
    + destruct (decide ((p1, p2) = (n1, n2))) as [[= -> ->]|Hp].
      * destruct (decide ((login, o1, o2) ∈ ks)) as [Hin'|Hin']; [done|].
        destruct (m !! (login, o1, o2)) as [v|] eqn:Hv; [|done]. exfalso. apply Hin'.
        by apply old_key_listed; [|rewrite Hv].
      * destruct (decide ((p1, p2) = (o1, o2))) as [[= -> ->]|]; [|done].
        destruct (m !! (login, o1, o2)) as [v|] eqn:Hv; [|done].
        exfalso. apply Hin. by apply old_key_listed; [|rewrite Hv].
  - intros [[q z] w] y. cbn. destruct (decide _) as [[= -> ->]|]; [|done]. by intros [= <-].
  - intros [[q z] w] Hy. apply Hold in Hy. cbn in *. injection Hy as -> ->. by rewrite decide_True.
  - intros [[q z] w] y. cbn. destruct (decide _) as [[= -> ->]|]; [|done]. intros _ Hin%Hold. by apply Hne.
  - apply NoDup_filter, NoDup_fst_map_to_list.
Qed.

#[local] Arguments rekey_triples : simpl never.
#[local] Arguments rekey_pairs : simpl never.
#[local] Arguments rekey_grants : simpl never.

Section laws.
Context `{E : ForgeEnv}.

(** Every table of a repository, before and after it moved. *)
Record moved_tables (old new : string * string) (s s' : State) : Prop := {
  mt_labels : moved_rows old new id (labels s) (labels s');
  mt_issues : moved_rows old new (move_issue new) (issues s) (issues s');
  mt_comments : moved_rows old new (map (move_comment new)) (issue_comments s) (issue_comments s');
  mt_pulls : moved_rows old new (move_pull old new) (pulls s) (pulls s');
  mt_reviews : moved_rows old new (map (move_review new)) (reviews s) (reviews s');
  mt_review_comments :
    moved_rows old new (map (move_review_comment new)) (review_comments s) (review_comments s');
  mt_rules : moved_rows old new (move_rule new) (branch_protections s) (branch_protections s');
  mt_codeowners : moved_row old new id (codeowners_ s) (codeowners_ s');
  mt_readmes : moved_row old new id (readmes s) (readmes s');
  mt_statuses : moved_rows old new (map (move_status new)) (statuses s) (statuses s');
  mt_runs : moved_row old new (map (move_run new)) (check_runs s) (check_runs s');
  mt_hooks : moved_row old new (map (move_hook new)) (webhooks s) (webhooks s');
  mt_counters : moved_row old new id (counters s) (counters s');
  mt_scores : moved_row old new (map (move_score new)) (jankurai_scores s) (jankurai_scores s');
  mt_grants : moved_grants old new (repo_grants s) (repo_grants s');
  mt_deliveries : webhook_deliveries s' = map (move_delivery old new) (webhook_deliveries s)
}.

Lemma rekey_moves t r old new s : old ≠ new → moved_tables old new s (rekey_repository t r old new s).
Proof.
  intros Hne. split.
  - exact (rekey_triples_moves old new id (labels s) Hne).
  - exact (rekey_triples_moves old new (move_issue new) (issues s) Hne).
  - exact (rekey_triples_moves old new (map (move_comment new)) (issue_comments s) Hne).
  - exact (rekey_triples_moves old new (move_pull old new) (pulls s) Hne).
  - exact (rekey_triples_moves old new (map (move_review new)) (reviews s) Hne).
  - exact (rekey_triples_moves old new (map (move_review_comment new)) (review_comments s) Hne).
  - exact (rekey_triples_moves old new (move_rule new) (branch_protections s) Hne).
  - exact (rekey_pairs_moves old new id (codeowners_ s) Hne).
  - exact (rekey_pairs_moves old new id (readmes s) Hne).
  - exact (rekey_triples_moves old new (map (move_status new)) (statuses s) Hne).
  - exact (rekey_pairs_moves old new (map (move_run new)) (check_runs s) Hne).
  - exact (rekey_pairs_moves old new (map (move_hook new)) (webhooks s) Hne).
  - exact (rekey_pairs_moves old new id (counters s) Hne).
  - exact (rekey_pairs_moves old new (map (move_score new)) (jankurai_scores s) Hne).
  - exact (rekey_grants_moves old new (repo_grants s) Hne).
  - reflexivity.
Qed.

Lemma rekey_repos t r old new s :
  repos (rekey_repository t r old new s) = <[new := move_repo new t r]> (delete old (repos s)).
Proof. done. Qed.

(** ** A move keeps the state well formed *)

Lemma moved_here {K} `{Countable K} {V} (old new : string * string) (update : V → V) (m m' : gmap ((string * string) * K) V) k v :
  moved_rows old new update m m' → m !! (new, k) = None → m' !! (new, k) = Some v →
  ∃ v0, m !! (old, k) = Some v0 ∧ v = update v0.
Proof.
  intros Hm Hno Hv. rewrite (Hm new k), decide_True in Hv by done.
  destruct (m !! (old, k)) as [v0|]; [|congruence]. injection Hv as <-. by exists v0.
Qed.

Lemma moved_elsewhere {K} `{Countable K} {V} (old new : string * string) (update : V → V)
    (m m' : gmap ((string * string) * K) V) p k :
  moved_rows old new update m m' → p ≠ old → p ≠ new → m' !! (p, k) = m !! (p, k).
Proof. intros Hm H1 H2. by rewrite (Hm p k), !decide_False. Qed.

Lemma moved_away {K} `{Countable K} {V} (old new : string * string) (update : V → V)
    (m m' : gmap ((string * string) * K) V) k :
  moved_rows old new update m m' → old ≠ new → m' !! (old, k) = None.
Proof. intros Hm H1. by rewrite (Hm old k), decide_False, decide_True. Qed.

(** Nothing is filed under a name without a repository. *)
Lemma no_rows s p k :
  state_ok s → repos s !! p = None →
  issues s !! (p, k) = None ∧ pulls s !! (p, k) = None ∧ reviews s !! (p, k) = None.
Proof.
  intros Hok Hp.
  assert (Hpulls : pulls s !! (p, k) = None).
  { destruct (pulls s !! (p, k)) as [pr|] eqn:Hpr; [|done]. exfalso.
    destruct (ok_pulls _ Hok _ _ Hpr) as (_ & _ & [r Hr] & _). cbn in Hr. congruence. }
  split_and!; [|done|].
  - destruct (issues s !! (p, k)) as [i|] eqn:Hi; [|done]. exfalso.
    destruct (ok_issues _ Hok _ _ Hi) as (_ & _ & [r Hr]). cbn in Hr. congruence.
  - destruct (reviews s !! (p, k)) as [l|] eqn:Hl; [|done]. exfalso.
    destruct (ok_reviews _ Hok _ _ Hl) as (pr & Hpr & _). congruence.
Qed.

(** The counters of a repository with rows go with it. *)
Lemma moved_counters old new s s' o n :
  moved_row old new id (counters s) (counters s') →
  counters_of s' o n =
    if decide ((o, n) = new)
    then match counters s !! old with Some c => c | None => counters_of s o n end
    else if decide ((o, n) = old) then Counters_default else counters_of s o n.
Proof.
  intros Hm. unfold counters_of. rewrite (Hm (o, n)). destruct (decide _) as [<-|].
  - by destruct (counters s !! old).
  - by destruct (decide _).
Qed.

Lemma moved_ok old new s s' r t :
  state_ok s → moved_tables old new s s' → old ≠ new →
  repos s !! old = Some r → repos s !! new = None →
  repos s' = <[new := move_repo new t r]> (delete old (repos s)) → state_ok s'.
Proof.
  intros Hok Hm Hne Hr Hnew Hrepos.
  assert (Hno : ∀ k, issues s !! (new, k) = None ∧ pulls s !! (new, k) = None ∧ reviews s !! (new, k) = None)
    by (intros k; by apply no_rows).
  assert (Hrs : ∀ p x, repos s' !! p = Some x →
            (p = new ∧ x = move_repo new t r) ∨ (p ≠ new ∧ p ≠ old ∧ repos s !! p = Some x)).
  { intros p x. rewrite Hrepos. intros [[<- <-]|[H1 [H2 H3]%lookup_delete_Some]]%lookup_insert_Some; [by left|].
    right. by split_and!. }
  assert (Hnewrepo : is_Some (repos s' !! new)) by (rewrite Hrepos, lookup_insert_eq; by eexists).
  assert (Hother : ∀ p, p ≠ old → p ≠ new → is_Some (repos s !! p) → is_Some (repos s' !! p)).
  { intros p H1 H2 H3. by rewrite Hrepos, lookup_insert_ne, lookup_delete_ne. }
  assert (Hcount : ∀ p, counters_of s' p.1 p.2 =
    if decide (p = new) then match counters s !! old with Some c => c | None => counters_of s p.1 p.2 end
    else if decide (p = old) then Counters_default else counters_of s p.1 p.2).
  { intros [o n]. cbn. apply moved_counters, Hm. }
  assert (Hnum : ∀ (f : Counters → N) k, f Counters_default = 0%N →
            (1 ≤ k ≤ f (counters_of s old.1 old.2))%N → (1 ≤ k ≤ f (counters_of s' new.1 new.2))%N).
  { intros f k Hf Hk. rewrite Hcount, decide_True by done. unfold counters_of in Hk.
    rewrite <-surjective_pairing in Hk. destruct (counters s !! old); [done|]. cbn in Hk. lia. }
  assert (Hsame : ∀ p, p ≠ old → p ≠ new → counters_of s' p.1 p.2 = counters_of s p.1 p.2).
  { intros p H1 H2. by rewrite Hcount, !decide_False. }
  split.
  - intros p x [[-> ->]|(_ & _ & H)]%Hrs; [by destruct new|by apply (ok_repos _ Hok)].
  - intros p q x y [[-> ->]|(Hp1 & Hp2 & Hp)]%Hrs [[-> ->]|(Hq1 & Hq2 & Hq)]%Hrs Hid; [done|..].
    + destruct Hq2. by apply (ok_ids _ Hok q old y r).
    + destruct Hp2. by apply (ok_ids _ Hok p old x r).
    + by apply (ok_ids _ Hok p q x y).
  - intros [p k] i Hi. destruct (decide (p = new)) as [->|H1].
    + destruct (moved_here _ _ _ _ _ _ _ (mt_issues _ _ _ _ Hm) (proj1 (Hno k)) Hi) as (i0 & Hi0 & ->).
      destruct (ok_issues _ Hok _ _ Hi0) as ([= He1 He2] & Hk & _). cbn in Hk.
      split; [by destruct new; cbn; rewrite He2|]. split; [exact (Hnum issue_counter k eq_refl Hk)|done].
    + destruct (decide (p = old)) as [->|H2].
      { by rewrite (moved_away _ _ _ _ _ _ (mt_issues _ _ _ _ Hm) Hne) in Hi. }
      rewrite (moved_elsewhere _ _ _ _ _ _ _ (mt_issues _ _ _ _ Hm) H2 H1) in Hi.
      destruct (ok_issues _ Hok _ _ Hi) as (He & Hk & Hex). cbn in Hk, Hex.
      split; [done|]. split; [cbn; by rewrite Hsame|by apply Hother].
  - intros [p k] pr Hp. destruct (decide (p = new)) as [->|H1].
    + destruct (moved_here _ _ _ _ _ _ _ (mt_pulls _ _ _ _ Hm) (proj1 (proj2 (Hno k))) Hp)
        as (pr0 & Hp0 & ->).
      destruct (ok_pulls _ Hok _ _ Hp0) as ([= He1 He2] & Hk & _ & i & Hi & Hmark). cbn in Hk, Hi.
      split; [by destruct new; cbn; rewrite He2|]. split; [exact (Hnum pull_counter k eq_refl Hk)|].
      split; [done|]. exists (move_issue new i). split; [|done]. cbn.
      by rewrite (mt_issues _ _ _ _ Hm new), decide_True, Hi.
    + destruct (decide (p = old)) as [->|H2].
      { by rewrite (moved_away _ _ _ _ _ _ (mt_pulls _ _ _ _ Hm) Hne) in Hp. }
      rewrite (moved_elsewhere _ _ _ _ _ _ _ (mt_pulls _ _ _ _ Hm) H2 H1) in Hp.
      destruct (ok_pulls _ Hok _ _ Hp) as (He & Hk & Hex & i & Hi & Hmark). cbn in Hk, Hex, Hi.
      split; [done|]. split; [cbn; by rewrite Hsame|]. split; [by apply Hother|].
      exists i. split; [|done]. cbn. by rewrite (moved_elsewhere _ _ _ _ _ _ _ (mt_issues _ _ _ _ Hm) H2 H1).
  - intros [p k] l Hl. destruct (decide (p = new)) as [->|H1].
    + destruct (moved_here _ _ _ _ _ _ _ (mt_reviews _ _ _ _ Hm) (proj2 (proj2 (Hno k))) Hl)
        as (l0 & Hl0 & ->).
      destruct (ok_reviews _ Hok _ _ Hl0) as (pr & Hpr & Hall). exists (move_pull old new pr).
      split; [by rewrite (mt_pulls _ _ _ _ Hm new), decide_True, Hpr|].
      apply Forall_forall. intros x (x0 & -> & Hx)%list_elem_of_fmap. rewrite Forall_forall in Hall.
      destruct (Hall x0 Hx) as ([= He1 He2] & Hself). split; [|done]. by destruct new; cbn; rewrite He2.
    + destruct (decide (p = old)) as [->|H2].
      { by rewrite (moved_away _ _ _ _ _ _ (mt_reviews _ _ _ _ Hm) Hne) in Hl. }
      rewrite (moved_elsewhere _ _ _ _ _ _ _ (mt_reviews _ _ _ _ Hm) H2 H1) in Hl.
      destruct (ok_reviews _ Hok _ _ Hl) as (pr & Hpr & Hall). exists pr. split; [|done].
      by rewrite (moved_elsewhere _ _ _ _ _ _ _ (mt_pulls _ _ _ _ Hm) H2 H1).
Qed.


(** ** The changes *)

Definition fresh_journal (key : string) (j : RepositoryTransferJournal) : Prop :=
  idempotency_key j = key ∧ moved_from j ≠ moved_to j ∧ transfer_status j = RTS_Prepared.

(** The state a committed transfer leaves. *)
Definition committed_state (s : State) (key : string) (j : RepositoryTransferJournal) (r : Repository)
    (t t' t'' : DateTime) (id : Uuid) (receipt : string) : State :=
  let s1 := rekey_repository t r (moved_from j) (moved_to j) s in
  let s2 := set_repository_aliases
              (<[moved_from j := new_alias j id t']>
                 (retarget_alias j <$> repository_aliases s1)) s1 in
  put_transfer key (close_journal j RTS_Committed t'' (transfer_failure j) (Some receipt)) s2.

Inductive transfer_change (s : State) : State → Prop :=
  | Tc_prepare key j :
      repository_transfers s !! key = None → fresh_journal key j →
      transfer_change s (put_transfer key j s)
  | Tc_commit key j r t t' t'' id receipt :
      repository_transfers s !! key = Some j → transfer_status j = RTS_Prepared →
      rekey_source s j = Ok r →
      transfer_change s (committed_state s key j r t t' t'' id receipt)
  | Tc_fail key j t reason receipt :
      repository_transfers s !! key = Some j → transfer_status j = RTS_Prepared →
      transfer_change s (put_transfer key (close_journal j RTS_Failed t (Some reason) receipt) s).

Definition transfers_ok (s : State) : Prop :=
  ∀ key j, repository_transfers s !! key = Some j → idempotency_key j = key ∧ moved_from j ≠ moved_to j.

(** A closed entry. *)
Definition closed (s : State) (key : string) (j : RepositoryTransferJournal) : Prop :=
  repository_transfers s !! key = Some j ∧ transfer_status j ≠ RTS_Prepared.

Lemma rekey_source_Ok s j r :
  rekey_source s j = Ok r →
  repos s !! moved_from j = Some r ∧ repos s !! moved_to j = None
  ∧ repository_aliases s !! moved_to j = None ∧ repo_id r = transfer_repository j.
Proof.
  unfold rekey_source. destruct (_ || _) eqn:Hfree; [done|].
  apply orb_false_iff in Hfree as [H1%absent_account H2%absent_account].
  destruct (repos s !! moved_from j) as [x|]; [|done].
  destruct (N.eqb_spec (repo_id x) (transfer_repository j)); [|done]. by intros [= ->].
Qed.

Lemma moved_set_aliases old new s s' v :
  moved_tables old new s s' → moved_tables old new s (set_repository_aliases v s').
Proof. intros []. by split. Qed.

Lemma moved_put_transfer old new s s' key j :
  moved_tables old new s s' → moved_tables old new s (put_transfer key j s').
Proof. intros []. by split. Qed.

(** What a journal entry and the aliases leave alone. *)
Record same_store (s s' : State) : Prop := {
  ss_repos : repos s' = repos s; ss_issues : issues s' = issues s; ss_pulls : pulls s' = pulls s;
  ss_reviews : reviews s' = reviews s; ss_counters : counters s' = counters s;
  ss_bound : bound_reviews s' = bound_reviews s; ss_users : users s' = users s;
  ss_blocks : repository_mutation_blocks s' = repository_mutation_blocks s;
  ss_auth : same_auth s s'
}.

Lemma put_store key j v s : same_store s (put_transfer key j (set_repository_aliases v s)).
Proof. by repeat split. Qed.

(** What a move leaves alone. *)
Lemma rekey_frame t r old new s :
  let s' := rekey_repository t r old new s in
  bound_reviews s' = bound_reviews s ∧ users s' = users s
  ∧ repository_mutation_blocks s' = repository_mutation_blocks s ∧ same_auth s s'.
Proof. intros s'. split; [reflexivity|]. split; [reflexivity|]. split; [reflexivity|]. split; reflexivity. Qed.

(** What a committed transfer leaves in the state. *)
Lemma committed_facts s key j r t t' t'' id receipt :
  let s' := committed_state s key j r t t' t'' id receipt in
  moved_from j ≠ moved_to j →
  moved_tables (moved_from j) (moved_to j) s s'
  ∧ repos s' = <[moved_to j := move_repo (moved_to j) t r]> (delete (moved_from j) (repos s)).
Proof.
  intros s' Hne. split; [|exact (eq_trans (ss_repos _ _ (put_store _ _ _ _)) (rekey_repos _ _ _ _ _))].
  apply moved_put_transfer, moved_set_aliases, rekey_moves, Hne.
Qed.

Lemma put_transfer_ok key j s : state_ok s → state_ok (put_transfer key j s).
Proof. by apply ok_frame. Qed.

Lemma transfer_state_ok s s' : transfer_change s s' → transfers_ok s → state_ok s → state_ok s'.
Proof.
  destruct 1 as [key j Hnone Hj|key j r t t' t'' id receipt Hj Hst Hr|key j t reason receipt Hj Hst];
    intros Htr Hok; [by apply put_transfer_ok| |by apply put_transfer_ok].
  apply rekey_source_Ok in Hr as (Hfrom & Hto & _ & _). destruct (Htr _ _ Hj) as [_ Hne].
  destruct (committed_facts s key j r t t' t'' id receipt Hne) as [Hm Hrepos].
  by eapply moved_ok.
Qed.

Lemma transfer_journals s s' :
  transfer_change s s' →
  ∃ key j, repository_transfers s' = <[key := j]> (repository_transfers s)
    ∧ ((repository_transfers s !! key = None ∧ fresh_journal key j)
       ∨ ∃ j0, repository_transfers s !! key = Some j0 ∧ transfer_status j0 = RTS_Prepared
           ∧ transfer_status j ≠ RTS_Prepared
           ∧ idempotency_key j = idempotency_key j0
           ∧ moved_from j = moved_from j0 ∧ moved_to j = moved_to j0).
Proof.
  destruct 1 as [key j Hnone Hj|key j r t t' t'' id receipt Hj Hst Hr|key j t reason receipt Hj Hst];
    eexists key, _; (split; [reflexivity|]); [by left|right; by exists j..].
Qed.

Lemma transfer_transfers_ok s s' : transfer_change s s' → transfers_ok s → transfers_ok s'.
Proof.
  intros (key & j & Heq & Hj)%transfer_journals Hok key' j'. rewrite Heq.
  intros [[<- <-]|[_ H]]%lookup_insert_Some; [|by apply Hok].
  destruct Hj as [[_ (? & ? & _)]|(j0 & H0 & _ & _ & -> & -> & ->)]; [done|]. by apply Hok.
Qed.

Lemma transfer_closed s s' key j : transfer_change s s' → closed s key j → closed s' key j.
Proof.
  intros (k & j' & Heq & Hj)%transfer_journals [H1 H2]. split; [|done]. rewrite Heq, lookup_insert_ne; [done|].
  intros ->. destruct Hj as [[H _]|(j0 & H & Hst & _)]; congruence.
Qed.

Lemma transfer_room s s' k : transfer_change s s' → transfers_ok s → (k < 18446744073709551616)%N →
  room k s → room k s'.
Proof.
  intros Hch Htr Hk Hroom. destruct Hch as [key j _ _|key j r t t' t'' id receipt Hj _ _|key j t reason receipt _ _];
    [exact Hroom| |exact Hroom].
  destruct (Htr _ _ Hj) as [_ Hne].
  destruct (committed_facts s key j r t t' t'' id receipt Hne) as [Hm _].
  intros o n. rewrite (moved_counters _ _ _ _ o n (mt_counters _ _ _ _ Hm)).
  destruct (decide _) as [_|_].
  - destruct (counters s !! moved_from j) as [c|] eqn:Hc; [|apply Hroom].
    pose proof (Hroom (moved_from j).1 (moved_from j).2) as H. unfold counters_of in H.
    by rewrite <-surjective_pairing, Hc in H.
  - destruct (decide _); [cbn; lia|apply Hroom].
Qed.

(** Accounts and reviews are not concerned. *)
Lemma transfer_frame s s' :
  transfer_change s s' →
  same_auth s s' ∧ bound_reviews s' = bound_reviews s
  ∧ repository_mutation_blocks s' = repository_mutation_blocks s ∧ users s' = users s.
Proof.
  destruct 1 as [key j _ _|key j r t t' t'' id receipt _ _ _|key j t reason receipt _ _];
    [by repeat split| |by repeat split].
  destruct (rekey_frame t r (moved_from j) (moved_to j) s) as (H1 & H2 & H3 & [A1 A2 A3 A4 A5 A6]).
  destruct (put_store key (close_journal j RTS_Committed t'' (transfer_failure j) (Some receipt))
    (<[moved_from j := new_alias j id t']> (retarget_alias j <$>
       repository_aliases (rekey_repository t r (moved_from j) (moved_to j) s)))
    (rekey_repository t r (moved_from j) (moved_to j) s)) as [_ _ _ _ _ B1 B2 B3 [C1 C2 C3 C4 C5 C6]].
  split; [|split; [exact (eq_trans B1 H1)|split; [exact (eq_trans B3 H3)|exact (eq_trans B2 H2)]]].
  split; [exact (eq_trans C1 A1)|exact (eq_trans C2 A2)|exact (eq_trans C3 A3)|exact (eq_trans C4 A4)
    |exact (eq_trans C5 A5)|exact (eq_trans C6 A6)].
Qed.

(** ** The calls *)

Lemma find_transfer s id key j :
  transfer_of_id s id = Some (key, j) →
  repository_transfers s !! key = Some j ∧ transaction_id j = id.
Proof.
  intros (l1 & l2 & Hl & Hid & _)%find_first_Some. apply N.eqb_eq in Hid. split; [|done].
  apply elem_of_map_to_list. rewrite Hl. apply elem_of_app. right. by left.
Qed.

Lemma transfer_key_Ok s id key :
  transfer_key_for_id s id = Ok key → ∃ j, repository_transfers s !! key = Some j ∧ transaction_id j = id.
Proof.
  unfold transfer_key_for_id. destruct (transfer_of_id s id) as [[k j]|] eqn:H; [|done].
  intros [= ->]. exists j. by apply find_transfer.
Qed.

(** A preparation answers with the entry under its key, or makes one. *)
Definition prepared (s : State) (r : PrepareRepositoryTransfer) (j : RepositoryTransferJournal)
    (s' : State) : Prop :=
  (s' = s ∧ repository_transfers s !! prepare_key r = Some j
     ∧ transfer_repository j = prepare_repository r ∧ request_fingerprint j = prepare_fingerprint r)
  ∨ (repository_transfers s !! prepare_key r = None ∧ s' = put_transfer (prepare_key r) j s
     ∧ fresh_journal (prepare_key r) j ∧ transfer_repository j = prepare_repository r
     ∧ moved_to j = (prepare_destination r, expected_source_name r)
     ∧ moved_from j = (expected_source_owner r, expected_source_name r)
     ∧ repos s !! moved_to j = None).

Lemma repository_by_id_Some s id r :
  repository_by_id s id = Some r → repo_id r = id ∧ ∃ key, repos s !! key = Some r.
Proof.
  unfold repository_by_id. intros (l1 & l2 & Hl & Hid & _)%find_first_Some. apply N.eqb_eq in Hid.
  split; [done|]. assert (Hin : r ∈ (map_to_list (repos s)).*2) by (rewrite Hl; apply elem_of_app; right; by left).
  apply list_elem_of_fmap in Hin as ([key x] & -> & Hx%elem_of_map_to_list). by exists key.
Qed.

Lemma prepare_spec r c s k :
  at_core s k c →
  wp (prepare_repository_transfer r)
    (λ x c', saved c' ∧ match x with Ok j => prepared s r j (state c') | Err _ => state c' = s end) c.
Proof.
  intros Hc. unfold prepare_repository_transfer, with_transfer_prepare_mutation.
  repeat astep; try (split; [by eapply ac_saved|by eapply ac_state]).
  - split; [by eapply ac_saved|]. left. split; [by eapply ac_state|]. split; [done|].
    match goal with H : (negb _ || negb _) = false |- _ =>
      by apply orb_false_iff in H as [H1%negb_false_iff%N.eqb_eq H2%negb_false_iff%String.eqb_eq] end.
  - split; [by eapply ac_saved|]. right.
    match goal with H : at_core (put_transfer _ _ _) _ _ |- _ => rewrite (ac_state _ _ _ H) end.
    match goal with H : get_repository_by_id s _ = Ok ?x |- _ =>
      unfold get_repository_by_id in H; destruct (repository_by_id s _) as [y|] eqn:Hy; [|done];
      injection H as -> ; apply repository_by_id_Some in Hy as [Hid _] end.
    repeat match goal with
      | H : (_ || _) = false |- _ => apply orb_false_iff in H as [? ?]
      | H : negb _ = false |- _ => apply negb_false_iff, String.eqb_eq in H
      | H : bool_decide (is_Some _) = false |- _ => apply absent_account in H
      | H : String.eqb _ _ = false |- _ => apply String.eqb_neq in H
      end.
    unfold fresh_journal, moved_from, moved_to. cbn. split_and!; try done; congruence.
Qed.

(** A commit answers with a committed entry, or commits one that was prepared. *)
Definition committed (s : State) (id : Uuid) (receipt : string) (j' : RepositoryTransferJournal)
    (s' : State) : Prop :=
  ∃ key j, repository_transfers s !! key = Some j ∧ transaction_id j = id
    ∧ ((s' = s ∧ j' = j ∧ transfer_status j = RTS_Committed)
       ∨ ∃ r t t' t'', transfer_status j = RTS_Prepared ∧ rekey_source s j = Ok r
           ∧ j' = close_journal j RTS_Committed t'' (transfer_failure j) (Some receipt)
           ∧ s' = committed_state s key j r t t' t'' id receipt).

Lemma commit_spec id receipt c s k :
  at_core s k c →
  wp (commit_repository_transfer id receipt)
    (λ x c', saved c' ∧ match x with Ok j => committed s id receipt j (state c') | Err _ => state c' = s end) c.
Proof.
  intros Hc. unfold commit_repository_transfer, with_transfer_mutation, with_repository_id_mutation.
  repeat astep; try (split; [by eapply ac_saved|by eapply ac_state]).
  all: match goal with H : transfer_key_for_id _ _ = Ok _ |- _ =>
         apply transfer_key_Ok in H as (j0 & Hj0 & Hid) end.
  all: match goal with H : repository_transfers _ !! _ = Some ?x, H' : repository_transfers _ !! _ = Some ?y |- _ =>
         assert (x = y) as -> by congruence end.
  - split; [by eapply ac_saved|].
    match goal with H : at_core _ _ c' |- _ => rewrite (ac_state _ _ _ H) end.
    eexists _, _. split; [done|]. split; [done|]. right. by eexists _, _, _, _.
  - split; [by eapply ac_saved|]. eexists _, _. split; [done|]. split; [done|]. left.
    split; [by eapply ac_state|done].
Qed.

(** A failure answers with an entry that failed so, or closes one that was prepared. *)
Definition failed (s : State) (id : Uuid) (reason : string) (j' : RepositoryTransferJournal)
    (s' : State) : Prop :=
  ∃ key j, repository_transfers s !! key = Some j ∧ transaction_id j = id
    ∧ ((s' = s ∧ j' = j ∧ transfer_status j = RTS_Failed ∧ transfer_failure j = Some reason)
       ∨ ∃ t, transfer_status j = RTS_Prepared
           ∧ j' = close_journal j RTS_Failed t (Some reason) (transfer_receipt j)
           ∧ s' = put_transfer key j' s).

Lemma fail_spec id reason c s k :
  at_core s k c →
  wp (fail_repository_transfer id reason)
    (λ x c', saved c' ∧ match x with Ok j => failed s id reason j (state c') | Err _ => state c' = s end) c.
Proof.
  intros Hc. unfold fail_repository_transfer, with_transfer_mutation, with_repository_id_mutation.
  repeat astep; try (split; [by eapply ac_saved|by eapply ac_state]).
  all: match goal with H : transfer_key_for_id _ _ = Ok _ |- _ =>
         apply transfer_key_Ok in H as (j0 & Hj0 & Hid) end.
  all: match goal with H : repository_transfers _ !! _ = Some ?x, H' : repository_transfers _ !! _ = Some ?y |- _ =>
         assert (x = y) as -> by congruence end.
  - split; [by eapply ac_saved|].
    match goal with H : at_core _ _ c' |- _ => rewrite (ac_state _ _ _ H) end.
    eexists _, _. split; [done|]. split; [done|]. right. by eexists.
  - split; [by eapply ac_saved|]. eexists _, _. split; [done|]. split; [done|]. left.
    match goal with H : bool_decide (transfer_failure _ = _) = true |- _ => apply bool_decide_eq_true_1 in H end.
    by split_and!; [eapply ac_state|..].
Qed.

(** ** The calls as a type *)

Inductive TCall : Type :=
  | Tr_prepare (r : PrepareRepositoryTransfer)
  | Tr_commit (id : Uuid) (receipt : string)
  | Tr_fail (id : Uuid) (reason : string).

Definition trun (call : TCall) : M RepositoryTransferJournal :=
  match call with
  | Tr_prepare r => prepare_repository_transfer r
  | Tr_commit id receipt => commit_repository_transfer id receipt
  | Tr_fail id reason => fail_repository_transfer id reason
  end.

Lemma trun_post call c :
  saved c → wp (trun call) (λ r c', saved c' ∧ (state c' = state c ∨ transfer_change (state c) (state c'))) c.
Proof.
  intros Hc. assert (Hat : at_core (state c) (asked c) c) by by split. destruct call; cbn [trun].
  - eapply wp_mono; [by eapply prepare_spec|]. cbv beta. intros x c' [Hs H]. split; [done|].
    destruct x as [j|e]; [|by left]. destruct H as [(H & _)|(Hno & -> & Hj & _)]; [by left|right].
    by apply Tc_prepare.
  - eapply wp_mono; [by eapply commit_spec|]. cbv beta. intros x c' [Hs H]. split; [done|].
    destruct x as [j|e]; [|by left].
    destruct H as (key & j0 & Hj & _ & [[H _]|(x & t & t' & t'' & Hst & Hr & _ & ->)]); [by left|right].
    by apply Tc_commit.
  - eapply wp_mono; [by eapply fail_spec|]. cbv beta. intros x c' [Hs H]. split; [done|].
    destruct x as [j|e]; [|by left].
    destruct H as (key & j0 & Hj & _ & [[H _]|(t & Hst & -> & ->)]); [by left|right]. by apply Tc_fail.
Qed.

End laws.
