(* ===== verification/ReviewHistory.v ===== *)
(** ReviewHistory: the forge, its accounts and its authenticated reviews as one machine.

    [BCall] is a call of the engine, of the accounts, of the transfers or of the reviews and
    [bserve] a sequence of them, in any order. Through any such sequence the tables and the history agree
    ([history_ok]) and the accounts with what was issued to them ([accounts_ok]), a consumed
    challenge stays consumed by the same event, and a verdict counts as soon as it is
    accepted. *)

From S2P Require Import Prelude Text Clock BranchProtection ForgeState Forge ForgeLaws.
From S2P Require Import ForgeInvariant ForgeCalls ForgeBehaviour BoundReviews BoundReviewLaws.
From S2P Require Import Accounts AccountLaws Transfers TransferLaws.
Local Open Scope forge_scope.

Section history.
Context `{ES : ForgeEnvSpec} {R : ReviewEnv} {AE : AuthEnv} {AS : AuthEnvSpec}.

(** ** Engine calls leave the history and the accounts alone *)

Record aside (s s' : State) : Prop := {
  as_bound : bound_reviews s' = bound_reviews s; as_auth : same_auth s s';
  as_transfers : repository_transfers s' = repository_transfers s
}.

Lemma aside_refl s : aside s s.
Proof. by repeat split. Qed.

Lemma aside_trans s1 s2 s3 : aside s1 s2 → aside s2 s3 → aside s1 s3.
Proof. intros [H1 [] T1] [H2 [] T2]. split; [congruence| |congruence]. split; congruence. Qed.

Lemma repo_change_aside o n s s' : repo_change o n s s' → aside s s'.
Proof. by destruct 1; repeat split. Qed.

Lemma creation_aside s s' : creation_change s s' → aside s s'.
Proof.
  destruct 1; [|by repeat split]. unfold add_repository, ensure_default_branch_protection.
  by destruct (branch_protections _ !! _); repeat split.
Qed.

Lemma opening_aside o n s s' : opening o n s s' → aside s s'.
Proof.
  destruct 1 as [id id' author r t t' i k s1 s2 Hi Hk|id author r t i s1 Hi].
  - injection Hi as _ <-. injection Hk as _ <-. by repeat split.
  - injection Hi as _ <-. by repeat split.
Qed.

Lemma rtc_aside {T : State → State → Prop} s s' :
  (∀ a b, T a b → aside a b) → rtc T s s' → aside s s'.
Proof.
  intros HT. induction 1 as [|s s1 s' H1 _ IH]; [apply aside_refl|].
  by eapply aside_trans; [apply HT|].
Qed.

Lemma user_aside s s' : user_change s s' → aside s s'.
Proof. by destruct 1; repeat split. Qed.

Lemma change_aside s s' : change s s' → aside s s'.
Proof.
  intros [s1 Hu|s1 Hg|s1 Hc|id b _ _|o n s1 s2 s3 Hu _ Ho Hr].
  - exact (rtc_aside _ _ user_aside Hu).
  - by destruct Hg; repeat split.
  - exact (rtc_aside _ _ creation_aside Hc).
  - by repeat split.
  - eapply aside_trans; [exact (rtc_aside _ _ user_aside Hu)|].
    eapply aside_trans; [|exact (rtc_aside _ _ (repo_change_aside o n) Hr)].
    destruct Ho as [->|Ho]; [apply aside_refl|by eapply opening_aside].
Qed.

Lemma leftover_aside call s s' : leftover call s s' → aside s s'.
Proof.
  intros Hl. destruct call; cbn in Hl;
    exact (rtc_aside _ _ user_aside Hl) || exact (rtc_aside _ _ creation_aside Hl).
Qed.

(** ** The machine *)

Inductive BCall : Type :=
  | BC_engine (call : Call)
  | BC_account (call : ACall)
  | BC_transfer (call : TCall)
  | BC_authenticate (credential : ActorCredential)
  | BC_challenge (a : AuthenticatedActor) (id : Uuid) (n : N) (expected : string)
  | BC_submit (a : AuthenticatedActor) (id : Uuid) (n : N) (r : SubmitBoundReviewRequest)
  | BC_dismiss (a : AuthenticatedActor) (id : Uuid) (n : N) (r : DismissBoundReviewRequest)
  | BC_history (a : AuthenticatedActor) (id : Uuid) (n : N).

Definition bdiscard {A} (m : B A) : B unit := _ <~ m;; bret tt.

Definition brun (call : BCall) : B unit :=
  match call with
  | BC_engine call => engine (run call)
  | BC_account call => engine (arun call)
  | BC_transfer call => bdiscard (engine (trun call))
  | BC_authenticate credential => bdiscard (engine (authenticate_actor credential))
  | BC_challenge a id n expected => bdiscard (create_review_challenge a id n expected)
  | BC_submit a id n r => bdiscard (submit_bound_review a id n r)
  | BC_dismiss a id n r => bdiscard (dismiss_bound_review a id n r)
  | BC_history a id n => bdiscard (bound_review_history a id n)
  end.

Fixpoint bserve (calls : list BCall) (c : ReviewCore) : ReviewCore :=
  match calls with
  | [] => c
  | call :: calls => bserve calls (brun call c).2
  end.

(** Everything the calls may rely on, with numbers and epochs left for [k] of them. *)
Record forge_ready (k : N) (c : ReviewCore) : Prop := {
  fr_saved : saved (core c); fr_state : state_ok (state (core c));
  fr_room : room k (state (core c)); fr_accounts : accounts_ok (state (core c));
  fr_epochs : epochs_below k (state (core c)); fr_transfers : transfers_ok (state (core c))
}.

(** What lasts: the accounts, and the closed entries of the transfer journal. *)
Record lasting (s s' : State) : Prop := {
  la_accounts : accounts_kept s s'; la_transfers : ∀ key j, closed s key j → closed s' key j
}.

#[export] Instance lasting_refl : Reflexive lasting.
Proof. split; [by apply kept_same|done]. Qed.

#[export] Instance lasting_trans : Transitive lasting.
Proof. intros s1 s2 s3 [] []. split; [by etrans|auto]. Qed.

Lemma lasting_same s s' :
  accounts_kept s s' → repository_transfers s' = repository_transfers s → lasting s s'.
Proof. intros Ha Ht. split; [done|]. unfold closed. by rewrite Ht. Qed.

Lemma transfers_ok_same s s' :
  repository_transfers s' = repository_transfers s → transfers_ok s → transfers_ok s'.
Proof. unfold transfers_ok. by intros ->. Qed.

(** What one call does to the tables and the history. *)
Inductive bstepped (c c' : ReviewCore) : Prop :=
  | Bs_engine :
      challenges c' = challenges c → bound_reviews (state (core c')) = bound_reviews (state (core c)) →
      bstepped c c'
  | Bs_challenge ch :
      challenges c !! challenge_id ch = None → sha_snapshot (challenge_snapshot ch) = snapshot_sha256 ch →
      merge_qualified ch = false → state (core c') = state (core c) →
      challenges c' = <[challenge_id ch := (ch, None)]> (challenges c) → bstepped c c'
  | Bs_verdict a id n r dismissed digest e :
      consumed c c' a id n r dismissed digest e → bstepped c c'.


(** ** One call *)

Definition same_forge (c c' : ReviewCore) : Prop :=
  saved (core c') ∧ state (core c') = state (core c).

Lemma ready_mono j k c : (j ≤ k)%N → forge_ready k c → forge_ready j c.
Proof.
  intros Hle [H1 H2 H3 H4 H5 H6]. split; [done..|by eapply room_mono|done|by eapply epochs_mono|done].
Qed.

Lemma ready_same k c c' : same_forge c c' → forge_ready k c → forge_ready k c'.
Proof. intros [Hc Hs] []. split; rewrite ?Hs; done. Qed.

Lemma kept_stepped c c' : kept c c' → bstepped c c' ∧ same_forge c c'.
Proof. intros (Hs & Hst & Hr & _). split; [apply Bs_engine; [done|by rewrite Hst]|by split]. Qed.

Lemma bwp_discard {A} (m : B A) (Q : ReviewCore → Prop) c :
  bwp m (λ _, Q) c → bwp (bdiscard m) (λ _, Q) c.
Proof. intros H. apply bwp_bind. unfold bwp, bthen in *. by destruct (m c) as [[x|e] c']. Qed.

Lemma here c : saved (core c) → at_point (state (core c)) (challenges c) (audits c) (asked (core c)) c.
Proof. by intros. Qed.

Lemma authenticate_kept credential c :
  saved (core c) → bwp (engine (authenticate_actor credential)) (λ _, kept c) c.
Proof.
  intros Hc.
  assert (H : wp (authenticate_actor credential) (λ _ k, saved k ∧ state k = state (core c)) (core c)).
  { unfold authenticate_actor. assert (Hs : state (core c) = state (core c)) by done. revert Hc Hs.
    generalize (state (core c)) at 2 3 as s. generalize (core c) as k. intros k s Hc Hs.
    repeat wp_step; by split. }
  unfold wp in H. unfold bwp, engine. destruct (authenticate_actor credential (core c)) as [r k].
  destruct H as [H1 H2]. by split_and!.
Qed.

Lemma history_kept a id n c0 c k :
  at_point (state (core c0)) (challenges c0) (audits c0) k c →
  bwp (bound_review_history a id n) (λ _, kept c0) c.
Proof.
  intros Hc.
  assert (Hkept : ∀ c' k', at_point (state (core c0)) (challenges c0) (audits c0) k' c' → kept c0 c')
    by (intros ? ? []; by split_and!).
  unfold bound_review_history, with_review_context. repeat bstep; by eapply Hkept.
Qed.

Definition challenged (c c' : ReviewCore) (expected : string) (ch : ReviewChallenge)
    (target : ReviewGitTarget) (pr : PullRequest) (b : ReviewActorBinding) : Prop :=
  challenges c !! challenge_id ch = None ∧ challenges c' = <[challenge_id ch := (ch, None)]> (challenges c)
  ∧ same_forge c c' ∧ sha_snapshot (challenge_snapshot ch) = snapshot_sha256 ch
  ∧ merge_qualified ch = false
  ∧ (∃ j, asked (core c) ≤ j ∧ j < asked (core c') ∧ taken (state (core c)) j target pr b (challenge_snapshot ch))
  ∧ observed_commit (observed_source (snap_git (challenge_snapshot ch))) = expected
  ∧ add_minutes (challenge_created_at ch) 10 = Some (challenge_expires_at ch).

Lemma challenge_spec a id n expected c :
  saved (core c) →
  bwp (create_review_challenge a id n expected)
    (λ r c', match r with
             | Err _ => kept c c'
             | Ok ch => ∃ target pr, challenged c c' expected ch target pr (actor_binding a)
             end) c.
Proof.
  intros Hc%here.
  assert (Hkept : ∀ c' k', at_point (state (core c)) (challenges c) (audits c) k' c' → kept c c')
    by (intros; by eapply at_kept).
  unfold create_review_challenge. repeat bstep; try (by eapply Hkept).
  eapply bwp_context; [exact Hc| |by intros; eapply Hkept].
  clear Hc. intros target pr c1 Hc Hadm. repeat bstep. eapply bwp_observe; [exact Hc| |by intros; eapply Hkept].
  clear c1 Hc. intros x c1 Hc Htaken. repeat bstep; try (by eapply Hkept).
  unfold insert_review_challenge. repeat bstep; try (by eapply Hkept).
  exists target, pr. unfold challenged, same_forge.
  match goal with H : at_point _ _ _ _ c' |- _ => destruct H as [Hs Hst Hr _ Hask] end.
  cbn in *. split_and!; try done.
  - exists (4 + asked (core c)). rewrite Hask. split_and!; [lia..|done].
  - by eapply bool_decide_eq_true_1, negb_false_iff.
Qed.


Lemma verdict_stepped c c' a id n r dismissed digest res :
  verdict_post c a id n r dismissed digest res c' →
  kept c c' ∨ ∃ e, consumed c c' a id n r dismissed digest e.
Proof. destruct res as [e|e]; [|by left]. intros [[H _]|H]; [by left|right; by exists e]. Qed.

(** Nothing, or one challenge consumed. *)
Definition decided (c c' : ReviewCore) : Prop :=
  kept c c' ∨ ∃ a id n r dismissed digest e, consumed c c' a id n r dismissed digest e.

Lemma submit_stepped a id n r c :
  saved (core c) →
  bwp (submit_bound_review a id n r) (λ _, decided c) c.
Proof.
  intros Hc. unfold submit_bound_review. repeat bstep; try (by left; split_and!).
  eapply bwp_mono; [by apply record_verdict_spec|]. intros res c' [H|[e H]]%verdict_stepped; [by left|].
  right. by eexists _, _, _, _, _, _, _.
Qed.

Lemma dismiss_stepped a id n r c :
  saved (core c) →
  bwp (dismiss_bound_review a id n r) (λ _, decided c) c.
Proof.
  intros Hc. unfold dismiss_bound_review. repeat bstep; try (by left; split_and!).
  eapply bwp_mono; [by apply record_verdict_spec|]. intros res c' [H|[e H]]%verdict_stepped; [by left|].
  right. by eexists _, _, _, _, _, _, _.
Qed.

(** The pull request under review is a row of its own repository. *)
Lemma review_target_row s id n target pr :
  state_ok s → review_target s id n = Ok (target, pr) →
  pulls s !! (pr_owner pr, pr_repo pr, n) = Some pr ∧ number pr = n
  ∧ git_repo_id (git_destination target) = id
  ∧ repository_by_id s id ≠ None.
Proof.
  intros Hok. unfold review_target. destruct (repository_by_id s id) as [dest|] eqn:Hid; [|done].
  destruct (pulls s !! _) as [p|] eqn:Hp; [|done].
  destruct (split_once _ _) as [on|]; [|done]. destruct (repos s !! on) as [src|]; [|done].
  destruct (branch_ref _) as [sref|]; [|by intros ?]. destruct (branch_ref _) as [dref|]; [|by intros ?].
  intros [= <- ->]. destruct (ok_pulls _ Hok _ _ Hp) as ([= -> -> ->] & _).
  split_and!; [done|done| |done]. cbn. apply find_first_Some in Hid as (_ & _ & _ & Heq & _).
  by apply N.eqb_eq.
Qed.

Lemma propose_frame s pr n e t :
  bound_reviews (propose s pr n e t) = bound_reviews s ++ [e]
  ∧ counters (propose s pr n e t) = counters s.
Proof. done. Qed.

Lemma propose_ok s a id n target pr e t i :
  state_ok s → admitted_review i s a id n target pr →
  (review_owner (event_review e), review_repo (event_review e), pull_number (event_review e))
    = (pr_owner pr, pr_repo pr, n) →
  self_approval (Some (pr_author pr)) (event_review e) = false →
  state_ok (propose s pr n e t).
Proof.
  intros Hok Hadm Hkey Hself. destruct (review_target_row s id n target pr Hok) as (Hpr & Hn & _).
  { apply Hadm. }
  unfold propose. eapply ok_put_pull; [|exact Hpr|apply same_reevaluate].
  eapply (ok_frame (add_review (pr_owner pr, pr_repo pr, n) (event_review e) (event_comments e) s));
    [done..|]. by eapply ok_add_review.
Qed.

Lemma consumed_ok c c' a id n r dismissed digest e :
  state_ok (state (core c)) → consumed c c' a id n r dismissed digest e →
  state_ok (state (core c')).
Proof.
  intros Hok (target & pr & ch & t & entry & _ & Hacc & _ & -> & _).
  destruct (ae_admitted _ _ _ _ _ _ _ _ _ _ _ _ _ Hacc) as (i & _ & _ & Hadm).
  eapply propose_ok; [exact Hok|exact Hadm| |].
  - by rewrite (ae_review _ _ _ _ _ _ _ _ _ _ _ _ _ Hacc).
  - rewrite (ae_review _ _ _ _ _ _ _ _ _ _ _ _ _ Hacc). unfold self_approval. cbn.
    case_bool_decide; [|done]. cbn. rewrite eq_ignore_case_sym. by eapply ae_self.
Qed.

(** A call of the engine. *)
Lemma engine_stepped call c k :
  forge_ready (1 + k) c →
  let c' := (engine (run call) c).2 in
  bstepped c c' ∧ forge_ready k c' ∧ lasting (state (core c)) (state (core c')).
Proof.
  intros [Hc Hok Hroom Ha He Ht]. destruct (run_ok call (core c) k Hc Hok Hroom) as (H1 & H2 & H3).
  pose proof (run_refines call (core c) Hc Hok) as [_ Hpost]. unfold engine.
  destruct (run call (core c)) as [res k'] eqn:Hrun. cbn in *.
  assert (Haside : aside (state (core c)) (state k')).
  { destruct res; [by apply change_aside|by eapply leftover_aside]. }
  destruct Haside as [Hb Hauth Htr]. split; [by apply Bs_engine|].
  split; [|by apply lasting_same; [apply kept_same, Hauth|]].
  split; [done..|by eapply same_auth_ok| |by eapply transfers_ok_same].
  eapply epochs_same; [apply Hauth|]. eapply epochs_mono; [|exact He]. lia.
Qed.

(** A call of the accounts. *)
Lemma account_stepped call c k :
  forge_ready (1 + k) c →
  let c' := (engine (arun call) c).2 in
  bstepped c c' ∧ forge_ready k c' ∧ lasting (state (core c)) (state (core c')).
Proof.
  intros [Hc Hok Hroom Ha He Ht]. pose proof (arun_accounted call (core c) Hc) as H.
  destruct H as (Hs & Hr & Hk); [split; [|done]; eapply epochs_mono; [|exact He]; lia|].
  unfold engine. destruct (arun call (core c)) as [res k']. cbn in *.
  destruct (account_steps_rows _ _ Hr) as [R1 R2 R3 R4 R5 R6 R7 R8].
  split; [by apply Bs_engine|]. split; [|by apply lasting_same; [apply account_steps_kept|]].
  split; cbn; [done|by eapply ok_frame| |by eapply account_steps_ok|by apply Hk|by eapply transfers_ok_same].
  intros o n. unfold counters_of. rewrite R6. apply (room_mono _ (1 + k)); [lia|done].
Qed.

(** A call of the transfers. *)
Lemma transfer_stepped call c k :
  forge_ready (1 + k) c →
  let c' := (engine (trun call) c).2 in
  bstepped c c' ∧ forge_ready k c' ∧ lasting (state (core c)) (state (core c')).
Proof.
  intros Hready. assert (Hk : forge_ready k c) by (eapply ready_mono; [|exact Hready]; lia).
  destruct Hk as [Hc Hok Hroom Ha He Ht]. pose proof (trun_post call (core c) Hc) as H.
  unfold wp, engine in *. destruct (trun call (core c)) as [res k']. cbn in *.
  destruct H as [Hs [Hst|Hch]].
  - rewrite Hst. split; [by apply Bs_engine; cbn; rewrite ?Hst|]. split; [|done].
    by split; cbn; rewrite ?Hst.
  - destruct (transfer_frame _ _ Hch) as (Hauth & Hb & _ & _). split; [by apply Bs_engine|].
    split; [|split; [by apply kept_same, Hauth|intros key j; by apply transfer_closed]].
    split; cbn; [done|by eapply transfer_state_ok| |by eapply same_auth_ok| |by eapply transfer_transfers_ok].
    + eapply transfer_room; [exact Hch|done| |done]. destruct He as [He _].
      change u64_max with 18446744073709551615%N in He. lia.
    + eapply epochs_same; [apply Hauth|done].
Qed.

(** A verdict leaves the accounts alone. *)
Lemma consumed_ready c c' a id n r d g e k :
  forge_ready k c → consumed c c' a id n r d g e →
  forge_ready k c' ∧ lasting (state (core c)) (state (core c')).
Proof.
  intros [Hc Hok Hroom Ha He Ht] H. pose proof (consumed_ok _ _ _ _ _ _ _ _ _ Hok H) as Hok'.
  destruct H as (? & ? & ? & ? & ? & _ & _ & Hs & Hst & _). rewrite Hst in *.
  split; [|by apply lasting_same; [apply kept_same|]].
  split; rewrite ?Hst; [done|done|exact Hroom| | |by eapply transfers_ok_same].
  - eapply same_auth_ok; [|exact Ha]. by split.
  - eapply epochs_same; [|exact He]. done.
Qed.

Lemma brun_stepped call c k :
  forge_ready (1 + k) c →
  let c' := (brun call c).2 in
  bstepped c c' ∧ forge_ready k c' ∧ lasting (state (core c)) (state (core c')).
Proof.
  intros Hready. pose proof (fr_saved _ _ Hready) as Hc. pose proof (fr_state _ _ Hready) as Hok.
  assert (Hk : forge_ready k c) by (eapply ready_mono; [|exact Hready]; lia).
  assert (Hsame : ∀ c', same_forge c c' →
            forge_ready k c' ∧ lasting (state (core c)) (state (core c'))).
  { intros c' H. split; [by eapply ready_same|]. by destruct H as [_ ->]. }
  assert (Hkept : ∀ c', kept c c' → bstepped c c' ∧ forge_ready k c'
                        ∧ lasting (state (core c)) (state (core c'))).
  { intros c' [H ?%Hsame]%kept_stepped. by split. }
  assert (Hverdict : ∀ c', decided c c' → bstepped c c' ∧ forge_ready k c'
                        ∧ lasting (state (core c)) (state (core c'))).
  { intros c' [H|(a & id & n & r & d & g & e & H)]; [by apply Hkept|].
    split; [by eapply Bs_verdict|by eapply consumed_ready]. }
  destruct call as [call|call|call|credential|a id n expected|a id n r|a id n r|a id n]; cbn [brun].
  - by apply engine_stepped.
  - by apply account_stepped.
  - destruct (transfer_stepped call c k Hready) as (H1 & H2 & H3). unfold bdiscard, bbind, bret in *.
    by destruct (engine (trun call) c) as [[j|e] c'].
  - apply Hkept. by apply bwp_discard, authenticate_kept.
  - pose proof (challenge_spec a id n expected c Hc) as H. unfold bwp, bdiscard, bbind in *.
    destruct (create_review_challenge a id n expected c) as [[ch|e] c']; [|by apply Hkept].
    destruct H as (target & pr & Hnone & Hins & Hf & Hsha & Hm & _).
    split; [|by apply Hsame]. apply (Bs_challenge _ _ ch); try done. apply Hf.
  - apply Hverdict. by apply bwp_discard, submit_stepped.
  - apply Hverdict. by apply bwp_discard, dismiss_stepped.
  - apply Hkept. by eapply bwp_discard, history_kept, here.
Qed.


(** ** The tables and the history agree *)

(** Of two verdicts on a pull request the later one has the higher number. *)
Definition earlier (e e' : BoundReviewEvent) : Prop :=
  event_repository e = event_repository e' → event_pull e = event_pull e' →
  (sequence e < sequence e')%N.

Definition own_approval (e : BoundReviewEvent) : bool :=
  bool_decide (review_state (event_review e) = RS_Approved)
  && eq_ignore_ascii_case (snap_author (event_snapshot e)) (actor_login (event_actor e)).

Record history_ok (c : ReviewCore) : Prop := {
  ho_readable id ch o : challenges c !! id = Some (ch, o) → load_challenge (challenges c) id = Ok (ch, o);
  ho_rows id ch e : challenges c !! id = Some (ch, Some e) → e ∈ bound_reviews (state (core c));
  ho_events e : e ∈ bound_reviews (state (core c)) →
    own_approval e = false ∧ ∃ ch, challenges c !! event_challenge e = Some (ch, Some e);
  ho_once : NoDup (map event_challenge (bound_reviews (state (core c))));
  ho_order : StronglySorted earlier (bound_reviews (state (core c)))
}.

Lemma readable_row (rows : gmap Uuid (ReviewChallenge * option BoundReviewEvent)) id ch o :
  rows !! id = Some (ch, o) → challenge_id ch = id →
  sha_snapshot (challenge_snapshot ch) = snapshot_sha256 ch → merge_qualified ch = false →
  match o with
  | Some e => event_consistent e = true ∧ event_challenge e = id
              ∧ event_snapshot e = challenge_snapshot ch
  | None => True
  end → load_challenge rows id = Ok (ch, o).
Proof.
  intros Hrow Hid Hsha Hm Ho. unfold load_challenge. rewrite Hrow, Hid, N.eqb_refl, Hm.
  rewrite bool_decide_eq_true_2 by done. cbn. destruct o as [e|]; [|done].
  destruct Ho as (-> & -> & ->). by rewrite N.eqb_refl, bool_decide_eq_true_2.
Qed.

Lemma load_same (rows rows' : gmap Uuid (ReviewChallenge * option BoundReviewEvent)) id :
  rows' !! id = rows !! id → load_challenge rows' id = load_challenge rows id.
Proof. unfold load_challenge. by intros ->. Qed.

Lemma load_facts rows id ch o :
  load_challenge rows id = Ok (ch, o) →
  challenge_id ch = id ∧ sha_snapshot (challenge_snapshot ch) = snapshot_sha256 ch
  ∧ merge_qualified ch = false.
Proof.
  unfold load_challenge. destruct (rows !! id) as [[ch0 o0]|]; [|done].
  destruct (_ || _) eqn:Hc; [done|].
  apply orb_false_iff in Hc as [[Hid%negb_false_iff%N.eqb_eq
    Hsha%negb_false_iff%bool_decide_eq_true_1]%orb_false_iff Hm].
  destruct o0 as [e|]; [|by intros [= -> _]].
  destruct (negb _); [done|]. destruct (_ || _); [done|]. by intros [= -> _].
Qed.

Lemma max_sequence e (l : list BoundReviewEvent) :
  e ∈ l → (sequence e ≤ foldr N.max 0 (map sequence l))%N.
Proof.
  induction l as [|x l IH]; [by intros ?%elem_of_nil|].
  intros [->|H]%elem_of_cons; cbn; [lia|]. specialize (IH H). lia.
Qed.

Lemma next_sequence_above s id pr q e :
  next_sequence s id pr = Some q → e ∈ bound_reviews s → event_repository e = id →
  event_pull e = pr_id pr → (sequence e < q)%N.
Proof.
  intros [-> _]%checked_add_Some He Hid Hp.
  assert (H : e ∈ events_of s id pr) by (by apply list_elem_of_filter).
  apply max_sequence in H. lia.
Qed.

(** The event an accepted verdict makes agrees with itself. *)
Lemma accepted_consistent s k0 k1 a id n r d g target pr ch e :
  accepted_event s k0 k1 a id n r d g target pr ch e → event_consistent e = true.
Proof.
  intros H. unfold event_consistent.
  pose proof (ae_matches _ _ _ _ _ _ _ _ _ _ _ _ _ H) as Hm. unfold challenge_matches in Hm.
  rewrite !andb_true_iff in Hm. destruct Hm as [[[[[H1 H2] H3] H4] H5] _].
  destruct (ae_place _ _ _ _ _ _ _ _ _ _ _ _ _ H) as (-> & -> & ->).
  destruct (ae_request _ _ _ _ _ _ _ _ _ _ _ _ _ H) as (_ & -> & _).
  destruct (ae_snapshot _ _ _ _ _ _ _ _ _ _ _ _ _ H) as (-> & ->).
  rewrite (ae_review _ _ _ _ _ _ _ _ _ _ _ _ _ H). cbn.
  rewrite H1, H2, H3, H4, !bool_decide_eq_true_2, N.eqb_refl by (done || by apply H).
  pose proof (ae_sequence _ _ _ _ _ _ _ _ _ _ _ _ _ H) as [Hq _]%checked_add_Some.
  replace (sequence e =? 0)%N with false by (symmetry; apply N.eqb_neq; lia). cbn.
  apply forallb_forall. intros x Hx%list_elem_of_In.
  destruct (ae_comments _ _ _ _ _ _ _ _ _ _ _ _ _ H) as [Hc _]. rewrite Forall_forall in Hc.
  destruct (Hc x Hx) as [-> ->]. by rewrite N.eqb_refl, bool_decide_eq_true_2.
Qed.


Lemma snapshot_author s target pr b git x :
  snapshot_of s target pr b git = Ok x → snap_author x = pr_author pr.
Proof.
  unfold snapshot_of. destruct (require_access _ _ _ true) as [da|]; [|done].
  destruct (require_access _ _ _ false) as [sa|]; [|done].
  destruct (accounts s !! _); [|done]. by intros [= <-].
Qed.

Lemma sorted_snoc e (l : list BoundReviewEvent) :
  StronglySorted earlier l → (∀ x, x ∈ l → earlier x e) → StronglySorted earlier (l ++ [e]).
Proof.
  induction 1 as [|x l Hs IH Hx]; intros He; cbn; [by repeat constructor|].
  constructor; [apply IH; intros y Hy; apply He; by right|].
  apply Forall_app. split; [done|]. constructor; [|done]. apply He. by left.
Qed.

Lemma history_verdict c c' a id n r d g e :
  history_ok c → state_ok (state (core c)) → consumed c c' a id n r d g e → history_ok c'.
Proof.
  intros [H1 H2 H3 H4 H5] Hok (target & pr & ch & t & entry & Hrow & Hacc & _ & Hst & Hins & _).
  pose proof (accepted_consistent _ _ _ _ _ _ _ _ _ _ _ _ _ Hacc) as Hcons.
  destruct (ae_request _ _ _ _ _ _ _ _ _ _ _ _ _ Hacc) as (Hch & _).
  pose proof (ae_challenge _ _ _ _ _ _ _ _ _ _ _ _ _ Hacc) as Hid. rewrite Hid in Hch.
  destruct (load_facts _ _ _ _ (H1 _ _ _ Hrow)) as (_ & Hsha & Hm).
  assert (Hb : bound_reviews (state (core c')) = bound_reviews (state (core c)) ++ [e])
    by (by rewrite Hst).
  assert (Hfresh : ∀ x, x ∈ bound_reviews (state (core c)) → event_challenge x ≠ sb_challenge r).
  { intros x Hx Heq. destruct (H3 x Hx) as (_ & ch' & Hx'). rewrite Heq, Hrow in Hx'. congruence. }
  split; rewrite ?Hb, ?Hins.
  - intros i ch' o [[<- [= <- <-]]|[Hne Hl]]%lookup_insert_Some.
    + apply readable_row; [by rewrite lookup_insert_eq|done..|]. split_and!; [done|done|].
      by apply (ae_snapshot _ _ _ _ _ _ _ _ _ _ _ _ _ Hacc).
    + rewrite (load_same (challenges c)); [by apply H1|by rewrite lookup_insert_ne].
  - intros i ch' x [[<- [= <- <-]]|[Hne Hl]]%lookup_insert_Some; apply elem_of_app;
      [right; by left|left; by eapply H2].
  - intros x [Hx| ->%list_elem_of_singleton]%elem_of_app.
    + destruct (H3 x Hx) as (Hown & ch' & Hl). split; [done|]. exists ch'.
      by rewrite lookup_insert_ne by (by apply not_eq_sym, Hfresh).
    + split; [|exists ch; by rewrite Hch, lookup_insert_eq]. unfold own_approval.
      case_bool_decide as Happ; [|done]. cbn.
      rewrite (ae_review _ _ _ _ _ _ _ _ _ _ _ _ _ Hacc) in Happ.
      destruct (ae_snapshot _ _ _ _ _ _ _ _ _ _ _ _ _ Hacc) as [-> _].
      destruct (ae_request _ _ _ _ _ _ _ _ _ _ _ _ _ Hacc) as (_ & -> & _).
      destruct (ae_taken _ _ _ _ _ _ _ _ _ _ _ _ _ Hacc) as (j & _ & _ & _ & observe & git & _ & _ & _ & Hx).
      rewrite (snapshot_author _ _ _ _ _ _ Hx). by apply (ae_self _ _ _ _ _ _ _ _ _ _ _ _ _ Hacc).
  - rewrite map_app. apply NoDup_app. split_and!; [done| |by apply NoDup_singleton].
    intros i (x & -> & Hx)%list_elem_of_fmap Heq%list_elem_of_singleton. rewrite Hch in Heq.
    by eapply Hfresh.
  - apply sorted_snoc; [done|]. intros x Hx Hr Hp.
    destruct (ae_place _ _ _ _ _ _ _ _ _ _ _ _ _ Hacc) as (Hei & Hep & _).
    eapply next_sequence_above; [apply (ae_sequence _ _ _ _ _ _ _ _ _ _ _ _ _ Hacc)|done|congruence..].
Qed.

Lemma history_stepped c c' :
  history_ok c → state_ok (state (core c)) → bstepped c c' → history_ok c'.
Proof.
  intros Hh Hok [Hrows Hb|ch Hnone Hsha Hm Hst Hrows|a id n r d g e Hcons].
  - destruct Hh. by split; rewrite ?Hrows, ?Hb.
  - destruct Hh as [H1 H2 H3 H4 H5]. split; rewrite ?Hrows, ?Hst; [| | |done|done].
    + intros i ch' o [[<- [= <- <-]]|[Hne Hl]]%lookup_insert_Some.
      * by apply readable_row; [by rewrite lookup_insert_eq|..].
      * rewrite (load_same (challenges c)); [by apply H1|by rewrite lookup_insert_ne].
    + intros i ch' x [[_ [=]]|[_ Hl]]%lookup_insert_Some. by eapply H2.
    + intros x Hx. destruct (H3 x Hx) as (Hown & ch' & Hl). split; [done|]. exists ch'.
      rewrite lookup_insert_ne; [done|]. intros Heq. by rewrite Heq, Hl in Hnone.
  - by eapply history_verdict.
Qed.

(** A consumed row is for good. *)
Lemma stepped_keeps c c' id ch e :
  bstepped c c' → challenges c !! id = Some (ch, Some e) → challenges c' !! id = Some (ch, Some e).
Proof.
  intros [Hrows Hb|ch' Hnone Hsha Hm Hst Hrows|a i n r d g e' Hcons] Hl; [by rewrite Hrows|..].
  - rewrite Hrows, lookup_insert_ne; [done|]. congruence.
  - destruct Hcons as (target & pr & ch' & t & entry & Hrow & _ & _ & _ & -> & _).
    rewrite lookup_insert_ne; [done|]. congruence.
Qed.


(** ** A verdict takes effect *)

Lemma isort_insert_snoc {A} (le : A → A → bool) x e (l : list A) :
  le x e = true → isort_insert le x (l ++ [e]) = isort_insert le x l ++ [e].
Proof.
  intros Hx. induction l as [|y l IH]; cbn; [by rewrite Hx|]. destruct (le x y); [done|]. by rewrite IH.
Qed.

(** Sorting keeps the greatest last. *)
Lemma isort_snoc {A} (le : A → A → bool) e (l : list A) :
  (∀ x, x ∈ l → le x e = true) → isort le (l ++ [e]) = isort le l ++ [e].
Proof.
  unfold isort. induction l as [|x l IH]; intros Hmax; [done|]. cbn.
  rewrite IH by (intros; apply Hmax; by right). apply isort_insert_snoc, Hmax. by left.
Qed.

(** Each verdict in force stands under its reviewer's profile. *)
Definition by_profile (m : gmap Uuid BoundReviewEvent) : Prop :=
  ∀ u x, m !! u = Some x → profile_id (event_actor x) = u.

Lemma reduce_by_profile pr m e : by_profile m → by_profile (reduce_event pr m e).
Proof.
  intros Hm. assert (Hins : by_profile (<[profile_id (event_actor e) := e]> m)).
  { intros u x [[<- <-]|[_ Hx]]%lookup_insert_Some; [done|by apply Hm]. }
  unfold reduce_event. destruct (review_state _); [|done|done|].
  - by destruct (eq_ignore_ascii_case _ _).
  - destruct (m !! _) as [cur|]; [|done]. case_bool_decide; [|done].
    intros u x [_ Hx]%lookup_delete_Some. by apply Hm.
Qed.

Lemma fold_by_profile pr (l : list BoundReviewEvent) m :
  by_profile m → by_profile (foldl (reduce_event pr) m l).
Proof. revert m. induction l as [|e l IH]; intros m Hm; [done|]. by apply IH, reduce_by_profile. Qed.

(** The verdicts in force of the other reviewers and of this one. *)
Lemma reduced_snoc s s' pr pr' e :
  bound_reviews s' = bound_reviews s ++ [e] → event_pull e = pr_id pr →
  review_head_sha (event_review e) = Some (sha (head pr)) →
  (pr_id pr', sha (head pr'), pr_author pr') = (pr_id pr, sha (head pr), pr_author pr) →
  (∀ x, x ∈ bound_reviews s → event_pull x = pr_id pr → (sequence x < sequence e)%N) →
  ∃ latest : gmap Uuid BoundReviewEvent,
    by_profile latest ∧ reduced_bound_events s pr = uuid_values latest
    ∧ reduced_bound_events s' pr' = uuid_values (reduce_event pr' latest e).
Proof.
  intros Hb Hp Hh [= Hid Hsha Hau] Hmax.
  exists (foldl (reduce_event pr) ∅ (events_at_head s pr)). split; [by apply fold_by_profile|]. split; [done|].
  unfold reduced_bound_events. f_equal.
  assert (Hev : events_at_head s' pr' = events_at_head s pr ++ [e]).
  { unfold events_at_head. rewrite Hb, Hid, Hsha, filter_app.
    rewrite (filter_cons_True _ e []) by done. apply isort_snoc.
    intros x [[Hx _] Hin]%list_elem_of_filter. apply N.leb_le. specialize (Hmax x Hin Hx). lia. }
  rewrite Hev, foldl_app. cbn. f_equal. generalize (events_at_head s pr) as l.
  intros l. generalize (∅ : gmap Uuid BoundReviewEvent). induction l as [|x l IH]; intros m; [done|].
  cbn. rewrite IH. f_equal. unfold reduce_event. by rewrite Hau.
Qed.



Lemma elem_of_uuid_values {V} (m : gmap Uuid V) x : x ∈ uuid_values m ↔ ∃ u, m !! u = Some x.
Proof.
  unfold uuid_values. rewrite list_elem_of_fmap. split.
  - intros ([u y] & -> & Hu). rewrite elem_of_isort in Hu. exists u. by apply elem_of_map_to_list in Hu.
  - intros [u Hu%elem_of_map_to_list]. exists (u, x). by rewrite elem_of_isort.
Qed.

Lemma same_verdict_pull t s pr :
  let q := reevaluate t s pr in
  (pr_id q, sha (head q), pr_author q) = (pr_id pr, sha (head pr), pr_author pr)
  ∧ (pr_owner q, pr_repo q, base q) = (pr_owner pr, pr_repo pr, base pr).
Proof.
  unfold reevaluate, apply_evaluation.
  by destruct (merged pr || _); [|destruct (bool_decide (pr_state pr = PRS_Closed))].
Qed.

Lemma taken_facts s j target pr b x :
  taken s j target pr b x →
  observed_commit (observed_source (snap_git x)) = sha (head pr)
  ∧ snap_policy x = protection_of s pr ∧ snap_codeowners x = codeowners_of s pr
  ∧ snap_target x = target.
Proof.
  intros (_ & observe & git & _ & _ & Hg & Hx). unfold snapshot_of in Hx.
  destruct (require_access _ _ _ true) as [da|]; [|done].
  destruct (require_access _ _ _ false) as [sa|]; [|done].
  destruct (accounts s !! _); [|done]. injection Hx as <-. cbn. split; [|done].
  unfold check_git in Hg. destruct (check_observed _) as [|]; [|done].
  destruct (check_observed _) as [|]; [|done]. destruct (_ || _) eqn:Hc; [done|].
  apply orb_false_iff in Hc as [_ Hc]. by apply negb_false_iff, bool_decide_eq_true_1 in Hc.
Qed.

(** What a consumed challenge leaves in force. *)
Lemma consumed_effect c c' a id n r d g e :
  state_ok (state (core c)) → consumed c c' a id n r d g e →
  (∀ x, x ∈ bound_reviews (state (core c)) → event_pull x = event_pull e → event_repository x = id) →
  ∃ pr pr' target ch k latest,
    accepted_event (state (core c)) (asked (core c)) k a id n r d g target pr ch e
    ∧ pulls (state (core c')) !! (pr_owner pr, pr_repo pr, n) = Some pr'
    ∧ pr_id pr' = event_pull e ∧ pr_author pr' = pr_author pr
    ∧ protection_of (state (core c')) pr' = protection_of (state (core c)) pr
    ∧ codeowners_of (state (core c')) pr' = codeowners_of (state (core c)) pr
    ∧ (∀ l dest w, require_access (state (core c')) l dest w = require_access (state (core c)) l dest w)
    ∧ by_profile latest ∧ reduced_bound_events (state (core c)) pr = uuid_values latest
    ∧ reduced_bound_events (state (core c')) pr' = uuid_values (reduce_event pr' latest e).
Proof.
  intros Hok (target & pr & ch & t & entry & Hrow & Hacc & _ & Hst & _) Hrepo. rewrite !Hst. clear Hst.
  destruct (ae_place _ _ _ _ _ _ _ _ _ _ _ _ _ Hacc) as (Hei & Hep & _).
  set (s := state (core c)) in *. set (q := reevaluate t
    (set_bound_reviews (bound_reviews s ++ [e])
       (add_review (pr_owner pr, pr_repo pr, n) (event_review e) (event_comments e) s)) pr).
  destruct (same_verdict_pull t (set_bound_reviews (bound_reviews s ++ [e])
    (add_review (pr_owner pr, pr_repo pr, n) (event_review e) (event_comments e) s)) pr) as [Hq Hq'].
  fold q in Hq, Hq'.
  destruct (ae_taken _ _ _ _ _ _ _ _ _ _ _ _ _ Hacc) as (j & _ & _ & Htaken).
  destruct (taken_facts _ _ _ _ _ _ Htaken) as (Hhead & _).
  destruct (reduced_snoc s (propose s pr n e t) pr q e) as (latest & Hby & Hold & Hnew); [done|done|
    |done| |].
  { by rewrite (ae_review _ _ _ _ _ _ _ _ _ _ _ _ _ Hacc), <-Hhead. }
  { intros x Hx Hxp. eapply next_sequence_above; [apply (ae_sequence _ _ _ _ _ _ _ _ _ _ _ _ _ Hacc)|done| |done].
    apply Hrepo; [done|congruence]. }
  injection Hq as Hq1 Hq2 Hq3. injection Hq' as Hq4 Hq5 Hq6.
  exists pr, q, target, ch, (asked (core c')), latest. split_and!; try done.
  - unfold propose, put_pull. cbn. by rewrite lookup_insert_eq.
  - by rewrite Hq1.
  - unfold protection_of. by rewrite Hq4, Hq5, Hq6.
  - unfold codeowners_of. by rewrite Hq4, Hq5.
Qed.


Lemma fresh_consumed c a id n r d g res c' ch e :
  verdict_post c a id n r d g res c' → res = Ok e →
  challenges c !! sb_challenge r = Some (ch, None) → consumed c c' a id n r d g e.
Proof. intros Hpost -> Hrow. destruct Hpost as [(_ & _ & ch' & Hl & _)|H]; [|done]. congruence. Qed.

Lemma run_stepped call calls k c :
  forge_ready (N.of_nat (length (call :: calls)) + k) c →
  let c' := (brun call c).2 in
  bstepped c c' ∧ forge_ready (N.of_nat (length calls) + k) c'
  ∧ lasting (state (core c)) (state (core c')).
Proof.
  intros Hready. apply brun_stepped.
  replace (1 + _)%N with (N.of_nat (length (call :: calls)) + k)%N by (cbn [length]; lia). done.
Qed.

Lemma bserve_ok calls c k :
  forge_ready (N.of_nat (length calls) + k) c → history_ok c →
  forge_ready k (bserve calls c) ∧ history_ok (bserve calls c)
  ∧ lasting (state (core c)) (state (core (bserve calls c))).
Proof.
  revert c. induction calls as [|call calls IH]; intros c Hready Hh.
  - by split_and!.
  - destruct (run_stepped call calls k c Hready) as (Hstep & Hready' & Hkept).
    destruct (IH _ Hready') as (H1 & H2 & H3); [by eapply history_stepped; [| |exact Hstep]; [|apply Hready]|].
    split; [done|]. split; [done|]. by etrans.
Qed.

(** C1: the forge, its accounts and its review tables as one machine: through any sequence of
    calls, of the engine, of the accounts, of the transfers and of the reviews in any order, the
    state stays well formed and saved. Every row of the tables can be read back, every consumed challenge
    has its one event in the history and every event its consumed challenge, no challenge was
    spent twice, the verdicts on a pull request are numbered in the order they were accepted,
    and no event in the history is the approval of a pull request by its own author. Sessions
    and tokens belong to an account that has had their epoch, an invitation was tried at most
    five times and, once consumed, has its account, and of the open ones each login has one
    and the owner one. *)
Theorem review_history_invariant calls c :
  forge_ready (N.of_nat (length calls)) c → history_ok c →
  forge_ready 0 (bserve calls c) ∧ history_ok (bserve calls c).
Proof.
  intros Hready Hh. rewrite <-(N.add_0_r (N.of_nat _)) in Hready.
  by destruct (bserve_ok calls c 0 Hready Hh) as (? & ? & _).
Qed.

(** C5: a challenge is spent once. Once an event consumed it, its row stays, and the event
    stays in the history, through any calls that follow, deletions included; and a verdict
    submitted on it later answers with that event or is refused, and changes nothing. *)
Theorem challenge_consumed_once calls c cid ch e a id n r :
  forge_ready (N.of_nat (length calls)) c → history_ok c →
  challenges c !! cid = Some (ch, Some e) → sb_challenge r = cid →
  let c' := bserve calls c in
  challenges c' !! cid = Some (ch, Some e) ∧ e ∈ bound_reviews (state (core c'))
  ∧ match submit_bound_review a id n r c' with
    | (Ok e', c2) => e' = e ∧ kept c' c2
    | (Err _, c2) => kept c' c2
    end.
Proof.
  revert c. induction calls as [|call calls IH]; intros c Hready Hh Hrow Hr.
  - cbn. split; [done|]. split; [by eapply ho_rows|].
    pose proof (submit_post a id n r c (fr_saved _ _ Hready)) as H. unfold bwp in H.
    destruct (submit_bound_review a id n r c) as [[e'|x] c']; destruct H as [H _]; [|done].
    destruct H as [(Hkept & _ & ch' & Hl & _)|(target & pr & ch' & t & entry & Hl & _)];
      rewrite Hr, Hrow in Hl; [|done]. by injection Hl as _ <-.
  - rewrite <-(N.add_0_r (N.of_nat _)) in Hready.
    destruct (run_stepped call calls 0 c Hready) as (Hstep & Hready' & _).
    rewrite N.add_0_r in Hready'.
    apply IH; [done| |by eapply stepped_keeps|done]. eapply history_stepped; [done|apply Hready|done].
Qed.

(** The events of a pull request name one repository. *)
Definition one_repository (s : State) (pull id : Uuid) : Prop :=
  ∀ x, x ∈ bound_reviews s → event_pull x = pull → event_repository x = id.

(** A verdict counts as soon as it is accepted. After a call that accepts an approval or a
    request for changes, the evaluation of the pull request counts it, at every instant at
    which the reviewer's credential is still good. *)
Theorem verdict_counts_at_once a id n r c e c' ch t :
  saved (core c) → state_ok (state (core c)) → submit_bound_review a id n r c = (Ok e, c') →
  challenges c !! sb_challenge r = Some (ch, None) → sb_event r ≠ RS_Commented →
  one_repository (state (core c)) (event_pull e) id →
  is_ok (validate_actor_binding t (state (core c')) (actor_binding a)) = true →
  ∃ pr, pulls (state (core c')) !! (review_owner (event_review e), review_repo (event_review e), n)
        = Some pr
    ∧ pr_id pr = event_pull e ∧ review_state (event_review e) = sb_event r
    ∧ event_review e ∈ bound_reviews_for_evaluation t (state (core c')) pr.
Proof.
  intros Hc Hok Hrun Hrow Hev Hrepo Hlive. pose proof (submit_post a id n r c Hc) as [H Hd].
  rewrite Hrun in H, Hd. cbn [fst snd] in H, Hd. eapply fresh_consumed in H; [|done..].
  destruct (consumed_effect _ _ _ _ _ _ _ _ _ Hok H Hrepo)
    as (pr & pr' & target & ch' & k & latest & Hacc & Hp & Hid & Hau & Hprot & Hco & Haccess & _ & _ & Hred).
  exists pr'. pose proof (ae_review _ _ _ _ _ _ _ _ _ _ _ _ _ Hacc) as Hreview.
  destruct (ae_request _ _ _ _ _ _ _ _ _ _ _ _ _ Hacc) as (_ & Hactor & _).
  destruct (ae_snapshot _ _ _ _ _ _ _ _ _ _ _ _ _ Hacc) as [Hsnap _].
  destruct (ae_taken _ _ _ _ _ _ _ _ _ _ _ _ _ Hacc) as (j & _ & _ & Htaken).
  destruct (taken_facts _ _ _ _ _ _ Htaken) as (_ & Hpol & Hown & Htg).
  destruct (ae_admitted _ _ _ _ _ _ _ _ _ _ _ _ _ Hacc) as (i & _ & _ & Hadm).
  rewrite Hreview at 1 2 3. split; [done|]. split; [done|]. split; [done|].
  unfold bound_reviews_for_evaluation. apply list_elem_of_fmap. exists e. split; [done|].
  apply (list_elem_of_filter (λ e, event_counts t (state (core c')) pr' e = true)). split.
  - unfold event_counts. rewrite Hsnap, Hpol, Hown, Hprot, Hco, Htg, Haccess, Hactor, Hlive.
    rewrite (ar_write _ _ _ _ _ _ _ Hadm), !(bool_decide_eq_true_2 (_ = _ :> option _)) by done.
    apply orb_true_r.
  - rewrite Hred. apply elem_of_uuid_values. exists (profile_id (event_actor e)). unfold reduce_event.
    assert (Hst : review_state (event_review e) = sb_event r) by (by rewrite Hreview).
    specialize (Hd eq_refl). rewrite Hst, Hau, Hactor.
    destruct (sb_event r) eqn:Hr; [|by rewrite lookup_insert_eq|done|done].
    rewrite (ae_self _ _ _ _ _ _ _ _ _ _ _ _ _ Hacc Hr). by rewrite lookup_insert_eq.
Qed.

End history.
