(* ===== verification/AccountHistory.v ===== *)
(** AccountHistory: what the accounts promise through any later calls. A call that cuts off an
    account's credentials does so for good, an account is there for good once it is made, an
    invitation turns into an account in one way, and grants come from administrators. *)

From Stdlib Require Import Ascii.
From S2P Require Import Prelude Text Clock BranchProtection ForgeState Forge ForgeLaws.
From S2P Require Import ForgeInvariant ForgeCalls BoundReviews BoundReviewLaws.
From S2P Require Import Accounts AccountLaws ReviewHistory.
Local Open Scope forge_scope.

Section account_history.
Context `{ES : ForgeEnvSpec} {R : ReviewEnv} {AE : AuthEnv} {AS : AuthEnvSpec}.

(** ** Calls that cut off *)

(** The calls that end what was issued to a login. *)
Inductive revoking (login : string) : M AccountSummary → Prop :=
  | Rv_reset password : revoking login (reset_account_password login password)
  | Rv_change current password : revoking login (change_account_password login current password)
  | Rv_force : revoking login (force_password_change login true)
  | Rv_disable : revoking login (disable_account login)
  | Rv_lock : revoking login (lock_account login)
  | Rv_reactivate : revoking login (reactivate_account login)
  | Rv_mfa_active : revoking login (mark_account_mfa_active login).

(** The account at a higher epoch than it was, or at the same one and not active. *)
Definition severed (login : string) (s s' : State) : Prop :=
  ∃ a a', accounts s !! login = Some a ∧ accounts s' !! login = Some a'
    ∧ ((auth_epoch a < auth_epoch a')%N
       ∨ auth_epoch a' = auth_epoch a ∧ permits_authentication (account_status a') = false).

Definition severed_if_ok (login : string) (s : State) (r : result AccountSummary ForgeError)
    (c : Core) : Prop :=
  is_ok r = true → severed login s (state c).

Lemma raise_severs login a h st mc c s k :
  at_core s k c → ready s → accounts s !! login = Some a →
  wp (raise_epoch login a h st mc) (severed_if_ok login s) c.
Proof.
  intros Hc He Ha. eapply awp_raise; [eassumption|by eapply can_raise| |done].
  intros c1 k1 t a' Hc1 _ _. rewrite (ac_state _ _ _ Hc1).
  exists a, a'. split; [done|]. split; [by apply lookup_insert_eq|]. left. cbn. lia.
Qed.

Ltac severs := first [done|eapply raise_severs; eassumption].

(** A call that leaves the account as it is leaves it inactive. *)
Lemma transition_severs login st allowed c s k :
  at_core s k c → ready s →
  (st = AS_Active → allowed = Some [AS_PendingMfa]) →
  wp (transition_account_status login st allowed) (severed_if_ok login s) c.
Proof.
  intros Hc He Hst. unfold transition_account_status. repeat astep; try severs.
  intros _. rewrite (ac_state _ _ _ H). exists u, u. split; [done|]. split; [done|]. right. split; [done|].
  apply bool_decide_eq_true_1 in Heqb0. rewrite Heqb0. unfold permits_authentication.
  apply bool_decide_eq_false_2. intros Hact. rewrite (Hst Hact) in Heqb.
  apply negb_false_iff, bool_decide_eq_true_1, list_elem_of_singleton in Heqb. congruence.
Qed.

Lemma revoking_severs login m c s k :
  revoking login m → at_core s k c → ready s → wp m (severed_if_ok login s) c.
Proof.
  intros Hm Hc He. destruct Hm;
    [unfold reset_account_password|unfold change_account_password
    |unfold force_password_change, force_password_change_admitted|by eapply transition_severs..];
    repeat astep; severs.
Qed.

(** ** What is cut off stays cut off *)

(** In a later state the account has another epoch than a credential of before, or is not
    active. *)
Lemma severed_later login s s' s2 e :
  severed login s s' → accounts_kept s' s2 → epoch_had s login e →
  ∀ a, accounts s2 !! login = Some a → permits_authentication (account_status a) = true →
  auth_epoch a ≠ e.
Proof.
  intros (a0 & a1 & Ha0 & Ha1 & Hcut) Hk (b & Hb & Hle) a Ha Hp.
  destruct (Hk _ _ Ha1) as (a2 & Ha2 & [_ _ _ Hep Hst]).
  assert (b = a0) as -> by congruence. assert (a2 = a) as -> by congruence.
  destruct Hcut as [Hlt|[He Hno]]; [lia|]. intros Heq. rewrite Hst in Hp by lia. congruence.
Qed.

Lemma session_answer t s token_ a x :
  session_for_token t s token_ = Some (a, x) →
  sessions s !! token_hash_of token_ = Some x ∧ ∃ u, accounts s !! session_login x = Some u
  ∧ permits_authentication (account_status u) = true ∧ auth_epoch u = session_epoch x ∧ a = summary u.
Proof.
  unfold session_for_token. destruct (sessions s !! _) as [y|] eqn:Hy; [|done].
  destruct (dt_leb _ _); [done|]. destruct (accounts s !! session_login y) as [u|] eqn:Hu; [|done].
  destruct (_ || _) eqn:Hc; [done|]. intros [= <- <-]. split; [done|].
  apply orb_false_iff in Hc as [Hp%negb_false_iff He%negb_false_iff%N.eqb_eq]. by exists u.
Qed.

Lemma token_answer t s secret_ a :
  authenticate_personal_access_token t s secret_ = Some a →
  ∃ id x u, personal_tokens s !! id = Some x ∧ token_hash x = token_hash_of secret_
  ∧ accounts s !! token_login x = Some u ∧ permits_authentication (account_status u) = true
  ∧ auth_epoch u = token_epoch x ∧ a = summary u.
Proof.
  unfold authenticate_personal_access_token. destruct (find_first _ _) as [x|] eqn:Hx; [|done].
  apply find_first_Some in Hx as (l1 & l2 & Hl & [Hh%bool_decide_eq_true_1 _]%andb_true_iff & _).
  destruct (accounts s !! token_login x) as [u|] eqn:Hu; [|done]. destruct (_ || _) eqn:Hc; [done|].
  intros [= <-]. apply orb_false_iff in Hc as [Hp%negb_false_iff He%negb_false_iff%N.eqb_eq].
  assert (Hin : x ∈ (map_to_list (personal_tokens s)).*2) by (rewrite Hl; apply elem_of_app; right; by left).
  apply list_elem_of_fmap in Hin as ([id y] & -> & Hid%elem_of_map_to_list). by exists id, y, u.
Qed.

Lemma binding_answer t s b :
  is_ok (validate_actor_binding t s b) = true →
  ∃ u, accounts s !! actor_login b = Some u ∧ permits_authentication (account_status u) = true
       ∧ auth_epoch u = actor_epoch b.
Proof.
  unfold validate_actor_binding. destruct (accounts s !! _) as [u|]; [|done].
  destruct (_ || _) eqn:Hc; [done|]. intros _. exists u. split; [done|].
  by apply orb_false_iff in Hc as [[[[Hp%negb_false_iff _]%orb_false_iff
    He%negb_false_iff%N.eqb_eq]%orb_false_iff _]%orb_false_iff _].
Qed.

Lemma bserve_ready calls c k :
  forge_ready (N.of_nat (length calls) + k) c →
  forge_ready k (bserve calls c) ∧ lasting (state (core c)) (state (core (bserve calls c))).
Proof.
  revert c. induction calls as [|call calls IH]; intros c Hready; [done|].
  destruct (run_stepped call calls k c Hready) as (_ & Hready' & Hkept).
  destruct (IH _ Hready') as (H1 & H2). split; [done|]. by etrans.
Qed.

(** The call as one of the machine. *)
Lemma revoking_call login m : revoking login m → ∃ call, ∀ k, (arun call k).2 = (m k).2.
Proof.
  assert (Hd : ∀ m : M AccountSummary, ∀ k, (discard m k).2 = (m k).2).
  { intros m' k. unfold discard, bind, ret. by destruct (m' k) as [[x|e] k']. }
  destruct 1; [exists (Acc_reset login password)|exists (Acc_change login current password)
    |exists (Acc_force login true)|exists (Acc_disable login)|exists (Acc_lock login)
    |exists (Acc_reactivate login)|exists (Acc_mfa_active login)]; apply Hd.
Qed.

Lemma revoked login m x c calls :
  revoking login m → forge_ready (1 + N.of_nat (length calls)) c → (m (core c)).1 = Ok x →
  let c1 := (engine m c).2 in
  severed login (state (core c)) (state (core c1))
  ∧ accounts_kept (state (core c1)) (state (core (bserve calls c1)))
  ∧ accounts_ok (state (core (bserve calls c1))).
Proof.
  intros Hm Hready Hok c1. destruct (revoking_call _ _ Hm) as [call Hcall].
  assert (Hc1 : core (engine (arun call) c).2 = core c1).
  { subst c1. unfold engine. specialize (Hcall (core c)).
    by destruct (arun call (core c)), (m (core c)). }
  destruct (account_stepped call c _ Hready) as (_ & Hr1 & _).
  assert (Hr : forge_ready (N.of_nat (length calls) + 0) c1).
  { rewrite N.add_0_r. destruct Hr1. split; by rewrite <-Hc1. }
  destruct (bserve_ready calls c1 0 Hr) as [H1 H2]. split; [|split; [apply H2|apply H1]].
  pose proof (revoking_severs login m (core c) (state (core c)) (asked (core c)) Hm) as Hs.
  assert (Hat : at_core (state (core c)) (asked (core c)) (core c)) by (split; [apply Hready|done..]).
  destruct Hready as [_ _ _ Ha He _]. subst c1. unfold engine. revert Hs Hok. unfold wp.
  destruct (m (core c)) as [r k]. cbn. intros Hs ->. apply Hs; [done| |done].
  split; [|done]. eapply epochs_mono; [|exact He]. lia.
Qed.

(** C8: revocation is final. After a reset, a change or a forced change of the password, or a
    change of status, that succeeds, and through any calls that follow it, no session, no
    access token and no actor from before the call is ever accepted for that login again. What
    is accepted later is a session or a token that is stored then, at the account's epoch, and
    that was not stored at the call. *)
Theorem revocation_is_final login m x c calls :
  revoking login m → forge_ready (1 + N.of_nat (length calls)) c → (m (core c)).1 = Ok x →
  let s := state (core c) in let s' := state (core (bserve calls (engine m c).2)) in
  (∀ t token_ a y, session_for_token t s' token_ = Some (a, y) → session_login y = login →
     sessions s' !! token_hash_of token_ = Some y ∧ ∀ h, sessions s !! h ≠ Some y)
  ∧ (∀ t secret_ a, authenticate_personal_access_token t s' secret_ = Some a → sum_login a = login →
       ∃ id y u, personal_tokens s' !! id = Some y ∧ token_hash y = token_hash_of secret_
         ∧ token_login y = login ∧ accounts s' !! login = Some u ∧ token_epoch y = auth_epoch u
         ∧ ∀ id', personal_tokens s !! id' ≠ Some y)
  ∧ (∀ t t' b, actor_login b = login → is_ok (validate_actor_binding t s b) = true →
       is_ok (validate_actor_binding t' s' b) = false).
Proof.
  intros Hm Hready Hrun s s'. destruct (revoked login m x c calls Hm Hready Hrun) as (Hcut & Hk & Hok).
  pose proof (fr_accounts _ _ Hready) as Hok0. pose proof (λ e, severed_later _ _ _ _ e Hcut Hk) as Hlate.
  split_and!.
  - intros t token_ a y (Hin & u & Hu & Hp & He & _)%session_answer <-. split; [done|]. intros h Hh.
    destruct (ao_sessions _ Hok0 _ _ Hh) as [_ Hhad]. by eapply Hlate.
  - intros t secret_ a (id & y & u & Hy & Hhash & Hu & Hp & He & ->)%token_answer Hl.
    cbn in Hl. rewrite (ao_accounts _ Hok _ _ Hu) in Hl. exists id, y, u.
    do 3 (split; [done|]). split; [by rewrite <-Hl|]. split; [done|]. intros id' Hid. destruct (ao_tokens _ Hok0 _ _ Hid) as [_ Hhad]. rewrite Hl in Hu, Hhad.
    by eapply Hlate.
  - intros t t' b <- (u & Hu & _ & He)%binding_answer.
    destruct (is_ok (validate_actor_binding t' s' b)) eqn:Hlive; [|done].
    apply binding_answer in Hlive as (u' & Hu' & Hp & He'). exfalso.
    eapply (Hlate (actor_epoch b)); [|exact Hu'|done|done]. exists u. split; [done|lia].
Qed.


(** ** Accounts stay *)

(** The call fails and changes nothing. *)
Definition refused {X} (m : M X) (c : Core) : Prop :=
  is_ok (m c).1 = false ∧ state (m c).2 = state c.

Lemma refused_at {X} (m : M X) c :
  saved c → (∀ c0 s k, c0 = c → at_core s k c0 → wp m (λ r c', is_ok r = false ∧ state c' = s) c0) →
  refused m c.
Proof. intros Hc H. by apply (H c (state c) (asked c)). Qed.

Ltac refuses := match goal with H : at_core _ _ ?c |- is_ok _ = false ∧ state ?c = _ =>
  split; [done|exact (ac_state _ _ _ H)] end.

Lemma has_admin_there s : admin_there s → has_admin s = true.
Proof.
  intros (l & a & Ha & Hr). apply existsb_exists. exists a. rewrite Hr, bool_decide_eq_true_2 by done.
  split; [|done]. apply list_elem_of_In, list_elem_of_fmap. exists (l, a). split; [done|].
  by apply elem_of_map_to_list.
Qed.

Lemma create_refused login password r c :
  saved c → is_Some (accounts (state c) !! login) → refused (create_account login password r) c.
Proof.
  intros Hc [a Ha]. apply refused_at; [done|]. intros c0 s k -> Hat.
  rewrite (ac_state _ _ _ Hat) in Ha. clear Hc.
  unfold create_account, create_account_admitted. repeat astep; try refuses. congruence.
Qed.

Lemma complete_refused challenge_ password c :
  saved c →
  (∀ d i, activation_challenges (state c) !! token_hash_of challenge_ = Some d →
     invitations (state c) !! activation_invitation d = Some i →
     is_Some (accounts (state c) !! invited_login i)
     ∨ bootstrap_owner i = true ∧ admin_there (state c)) →
  refused (complete_account_activation challenge_ password) c.
Proof.
  intros Hc Hno. apply refused_at; [done|]. intros c0 s k -> Hat.
  rewrite (ac_state _ _ _ Hat) in Hno. clear Hc.
  unfold complete_account_activation. repeat astep; try refuses.
  exfalso. destruct (Hno _ _ eq_refl Heqo0) as [Ha|[Hb Had%has_admin_there]].
  - apply orb_false_iff in Heqb0 as [_ Hx%bool_decide_eq_false_1]. done.
  - by rewrite Hb, Had, orb_true_r in Heqb1.
Qed.

Lemma bootstrap_refused login display expires_at c :
  saved c → admin_there (state c) →
  refused (create_bootstrap_owner_invitation login display expires_at) c.
Proof.
  intros Hc Had%has_admin_there. apply refused_at; [done|]. intros c0 s k -> Hat.
  rewrite (ac_state _ _ _ Hat) in Had. clear Hc.
  unfold create_bootstrap_owner_invitation, create_account_invitation_inner.
  repeat astep; try refuses; by rewrite Had, orb_true_r in *.
Qed.

(** An account is there for good. Through any calls that follow, its login, its role and
    the time it was made stand, its epoch does not fall and its status does not change without it;
    nobody can create it again or activate an invitation for its login; and while an
    administrator is there, no owner can be bootstrapped. *)
Theorem account_stays login a c calls :
  accounts (state (core c)) !! login = Some a → forge_ready (N.of_nat (length calls)) c →
  let k := core (bserve calls c) in
  (∃ a', accounts (state k) !! login = Some a' ∧ still a a')
  ∧ (∀ password r, refused (create_account login password r) k)
  ∧ (∀ challenge_ password d i, activation_challenges (state k) !! token_hash_of challenge_ = Some d →
       invitations (state k) !! activation_invitation d = Some i →
       invited_login i = login ∨ bootstrap_owner i = true ∧ role a = UR_Admin →
       refused (complete_account_activation challenge_ password) k)
  ∧ (role a = UR_Admin → ∀ login' display expires_at,
       refused (create_bootstrap_owner_invitation login' display expires_at) k).
Proof.
  intros Ha Hready k. rewrite <-(N.add_0_r (N.of_nat _)) in Hready.
  destruct (bserve_ready calls c 0 Hready) as [[Hc _ _ _ _ _] [Hk _]].
  destruct (Hk _ _ Ha) as (a' & Ha' & Hstill). fold k in Hc, Ha'.
  assert (Hadmin : role a = UR_Admin → admin_there (state k)).
  { intros Hr. exists login, a'. split; [done|]. by rewrite (st_role _ _ Hstill). }
  split_and!; [by exists a'|..].
  - intros password r. apply create_refused; [done|by eexists].
  - intros challenge_ password d i Hd Hi Hwhy. apply complete_refused; [done|]. intros d' i' Hd' Hi'.
    assert (d' = d) as -> by congruence. assert (i' = i) as -> by congruence.
    destruct Hwhy as [->|[Hb Hr]]; [left; by eexists|right; auto].
  - intros Hr login' display expires_at. by apply bootstrap_refused; [|apply Hadmin].
Qed.


(** ** From an invitation to an account *)

(** The invitation a secret is tried on. *)
Definition tried (s : State) (login : string) (t : DateTime) (i : AccountInvitation) : Prop :=
  invitations s !! invitation_id i = Some i ∧ invited_login i = login ∧ open_invitation i = true
  ∧ dt_ltb t (invitation_expires_at i) = true ∧ (attempt_count i < ACTIVATION_MAX_ATTEMPTS)%N.

Definition counted (s : State) (i : AccountInvitation) : State :=
  set_invitations (<[invitation_id i := count_attempt i]> (invitations s)) s.

(** The world refused one of its questions between [k0] and [k1]: the two of the admission, the
    secret or password hash [q] that the call asks for next, or the save, which is its last. *)
Definition world_refused {X} (q : nat → result X ForgeError) (k0 k1 : nat) (e : ForgeError) : Prop :=
  process_error k0 = Some e ∨ ordinary_error (1 + k0) = Some e ∨ q (2 + k0) = Err e
  ∨ ∃ i, k1 = S i ∧ 3 + k0 < i ∧ persist_error i = Some e.

(** What a right secret leaves: the attempt, and a challenge for ten minutes. *)
Definition challenge_issued (s : State) (t : DateTime) (login secret_ : string)
    (r : ActivationStartReceipt) (s' : State) : Prop :=
  ∃ i d, tried s login t i
    ∧ constant_time_eq (token_hash_of secret_) (activation_secret_hash i) = true
    ∧ activation_invitation d = invitation_id i ∧ activation_consumed_at d = None
    ∧ challenge_hash d = token_hash_of (started_challenge r)
    ∧ activation_expires_at d = started_expires_at r
    ∧ add_minutes t ACTIVATION_CHALLENGE_TTL_MINUTES = Some (started_expires_at r)
    ∧ s' = set_activation_challenges
             (<[challenge_hash d := d]> (activation_challenges (counted s i))) (counted s i).

(** A wrong secret is counted. Nothing changes only where the world refused or the login has
    no invitation to try at the instant the call read. *)
Definition start_failed (s : State) (k0 k1 : nat) (login secret_ : string) (e : ForgeError)
    (s' : State) : Prop :=
  (s' = s ∧ (world_refused random_secret k0 k1 e
             ∨ e = activation_error
               ∧ (is_ok (require_login login) = false ∨ ∀ i, ¬ tried s login (now_at (3 + k0)) i)))
  ∨ e = activation_error ∧ ∃ i, tried s login (now_at (3 + k0)) i
    ∧ constant_time_eq (token_hash_of secret_) (activation_secret_hash i) = false ∧ s' = counted s i.

(** A login has one open invitation, so what holds of the one found holds of all. *)
Lemma no_try s login t :
  find_first (λ i, bool_decide (invited_login i = login) && open_invitation i
                   && dt_ltb t (invitation_expires_at i)) (map_to_list (invitations s)).*2 = None →
  ∀ i, ¬ tried s login t i.
Proof.
  intros Hnone i (Hi & Hl & Ho & Hexp & _).
  assert (Hin : i ∈ (map_to_list (invitations s)).*2).
  { apply list_elem_of_fmap. exists (invitation_id i, i). split; [done|]. by apply elem_of_map_to_list. }
  apply find_first_None, Forall_forall with (x := i) in Hnone; [|done].
  by rewrite bool_decide_eq_true_2, Ho, Hexp in Hnone.
Qed.

Lemma exhausted_try s login t i :
  accounts_ok s → invitations s !! invitation_id i = Some i → invited_login i = login →
  open_invitation i = true → (ACTIVATION_MAX_ATTEMPTS ≤ attempt_count i)%N →
  ∀ j, ¬ tried s login t j.
Proof.
  intros Hok Hi Hl Ho Hmax j (Hj & Hlj & Hoj & _ & Hlt).
  assert (invitation_id i = invitation_id j) as Heq by (eapply (ao_open _ Hok); try done; left; congruence).
  rewrite Heq in Hi. assert (i = j) as -> by congruence. lia.
Qed.

Lemma save_refused {X} (q : nat → result X ForgeError) k0 k k' e c s :
  at_core s k' c → k' = S k ∧ persist_error k = Some e → 3 + k0 < k →
  world_refused q k0 (asked c) e.
Proof. intros Hc [-> He] Hlt. do 3 right. exists k. by rewrite (ac_asked _ _ _ Hc). Qed.

(** Closes a case in which the world refused the call. *)
Ltac world :=
  first [by left|by right; left|by right; right; left|eapply save_refused; [eassumption..|lia]].

Lemma start_spec login secret_ c s k :
  at_core s k c → accounts_ok s →
  wp (start_account_activation login secret_)
    (λ r c', match r with
             | Ok r => challenge_issued s (now_at (3 + k)) login secret_ r (state c')
             | Err e => start_failed s k (asked c') login secret_ e (state c')
             end) c.
Proof.
  intros Hc Hok. unfold start_account_activation.
  repeat astep.
  all: try (left; split; [by eapply ac_state|left; world]).
  all: try match goal with H : find_first _ _ = Some _ |- _ =>
    apply first_invitation in H as [[[Hl%bool_decide_eq_true_1 Hopen]%andb_true_iff Hexp]%andb_true_iff Hi];
      [|done] end.
  all: try match goal with H : (_ <=? _)%N = false |- _ => apply N.leb_gt in H end.
  - left. split; [by eapply ac_state|]. right. split; [done|]. right. by eapply exhausted_try, N.leb_le.
  - right. rewrite (ac_state _ _ _ H). split; [done|]. apply negb_true_iff in Heqb0. by exists a1.
  - rewrite (ac_state _ _ _ H). apply negb_false_iff in Heqb0. exists a1.
    exists {| activation_id := uuid_at (S (S (S (S k)))); activation_invitation := invitation_id a1;
              challenge_hash := token_hash_of a0; activation_created_at := now_at (S (S (S k)));
              activation_expires_at := d; activation_consumed_at := None |}.
    by split_and!.
  - match goal with H : add_minutes (now_at ?i) _ = None |- _ =>
      destruct (clock_in_range i) as [? Hd]; by rewrite Hd in H end.
  - left. split; [by eapply ac_state|]. right. split; [done|]. right. by apply no_try.
  - left. split; [by eapply ac_state|]. right. split; [done|]. left.
    by match goal with H : require_login _ = _ |- _ => rewrite H end.
Qed.

Lemma add_member_In login m b key :
  is_Some (m !! key) → is_Some (add_member login m b !! key)
  ∧ (∀ team, m !! key = Some team → login ∈ team_members team →
       ∃ team', add_member login m b !! key = Some team' ∧ login ∈ team_members team')
  ∧ (split_team_binding b = Ok key → ∃ team', add_member login m b !! key = Some team'
                                              ∧ login ∈ team_members team').
Proof.
  intros [team Hteam]. unfold add_member. destruct (split_team_binding b) as [key'|e]; [|by naive_solver].
  destruct (decide (key' = key)) as [->|Hne].
  - rewrite lookup_alter_eq, Hteam. cbn. split; [by eexists|].
    assert (Hin : login ∈ (if bool_decide (login ∈ team_members team) then team_members team
                           else isort String.leb (team_members team ++ [login]))).
    { case_bool_decide; [done|]. apply elem_of_isort, elem_of_app. right. by left. }
    split; intros; by eexists.
  - rewrite lookup_alter_ne by done. rewrite Hteam. split; [by eexists|]. split; [by eauto|]. congruence.
Qed.

(** Every team that is named has the login among its members at the end. *)
Lemma members_added login bound key m :
  is_Some (m !! key) →
  (∃ team, m !! key = Some team ∧ login ∈ team_members team)
  ∨ (∃ b, b ∈ bound ∧ split_team_binding b = Ok key) →
  ∃ team, foldl (add_member login) m bound !! key = Some team ∧ login ∈ team_members team.
Proof.
  revert m. induction bound as [|b bound IH]; intros m Hm [H|(x & Hx & Hkey)]; cbn; [done|by apply elem_of_nil in Hx|..];
    destruct (add_member_In login m b key Hm) as (H1 & H2 & H3); apply IH; try done.
  - left. destruct H as (team & Ht & Hin). by eapply H2.
  - apply elem_of_cons in Hx as [->|Hx]; [left; by apply H3|right; by exists x].
Qed.

Lemma check_teams_Ok s missing bs x b key :
  check_teams s missing bs = Ok x → b ∈ bs → split_team_binding b = Ok key → is_Some (teams s !! key).
Proof.
  induction bs as [|y bs IH]; cbn; intros H Hb Hk; [by apply elem_of_nil in Hb|].
  destruct (split_team_binding y) as [ky|] eqn:Hy; [|done]. case_bool_decide; [|done].
  apply elem_of_cons in Hb as [->|Hb]; [congruence|by apply IH].
Qed.


(** What a challenge must be to make an account at an instant. *)
Definition completable (s : State) (t : DateTime) (challenge_ : string) (d : ActivationChallenge)
    (i : AccountInvitation) : Prop :=
  activation_challenges s !! token_hash_of challenge_ = Some d ∧ activation_consumed_at d = None
  ∧ dt_ltb t (activation_expires_at d) = true
  ∧ invitations s !! activation_invitation d = Some i ∧ open_invitation i = true
  ∧ dt_ltb t (invitation_expires_at i) = true ∧ (attempt_count i ≤ ACTIVATION_MAX_ATTEMPTS)%N
  ∧ accounts s !! invited_login i = None
  ∧ (∀ b, b ∈ bound_teams (intended_bindings i) →
       ∃ key, split_team_binding b = Ok key ∧ is_Some (teams s !! key))
  ∧ (bootstrap_owner i = true → bootstrap_owner_consumed s = false ∧ has_admin s = false).

(** What an activation leaves: one account, pending its second factor, with the role and the
    teams it was invited to; its challenge and its invitation are spent. *)
Definition account_activated (s : State) (t : DateTime) (challenge_ : string) (x : AccountSummary)
    (s' : State) : Prop :=
  ∃ d i a, completable s t challenge_ d i
    ∧ x = summary a ∧ canonical_login a = invited_login i ∧ account_status a = AS_PendingMfa
    ∧ role a = bound_role (intended_bindings i) ∧ auth_epoch a = 0%N
    ∧ accounts s' = <[invited_login i := a]> (accounts s)
    ∧ activation_challenges s' !! token_hash_of challenge_ = Some (consume_challenge t d)
    ∧ invitations s' !! invitation_id i = Some (consume_invitation t i)
    ∧ bootstrap_owner_consumed s' = (bootstrap_owner i || bootstrap_owner_consumed s)
    ∧ ∀ b key, b ∈ bound_teams (intended_bindings i) → split_team_binding b = Ok key →
        ∃ team, teams s' !! key = Some team ∧ invited_login i ∈ team_members team.

(** A refused activation: the world, the password, or no challenge that could make an account. *)
Definition complete_failed (s : State) (k0 k1 : nat) (challenge_ password : string)
    (e : ForgeError) (s' : State) : Prop :=
  s' = s ∧ (world_refused (hash_password password) k0 k1 e ∨ require_password password = Err e
            ∨ ∀ d i, ¬ completable s (now_at (3 + k0)) challenge_ d i).

Lemma check_teams_all s missing bs :
  (∀ b, b ∈ bs → ∃ key, split_team_binding b = Ok key ∧ is_Some (teams s !! key)) →
  check_teams s missing bs = Ok tt.
Proof.
  induction bs as [|b bs IH]; intros H; [done|]. cbn. destruct (H b) as (key & -> & Hkey); [by left|].
  rewrite bool_decide_eq_true_2 by done. apply IH. intros x Hx. apply H. by right.
Qed.

Lemma teams_checked s missing bs x b :
  check_teams s missing bs = Ok x → b ∈ bs →
  ∃ key, split_team_binding b = Ok key ∧ is_Some (teams s !! key).
Proof.
  induction bs as [|y bs IH]; cbn; intros H Hb; [by apply elem_of_nil in Hb|].
  destruct (split_team_binding y) as [ky|] eqn:Hy; [|done]. case_bool_decide; [|done].
  apply elem_of_cons in Hb as [->|Hb]; [by exists ky|by apply IH].
Qed.

(** The profile entry leaves everything but the profiles. *)
Lemma profile_frame s s' login :
  s' = s ∨ (∃ u, users s !! login = None ∧ user_login u = login
                 ∧ s' = set_users (<[login := u]> (users s)) s) →
  accounts s' = accounts s ∧ activation_challenges s' = activation_challenges s
  ∧ invitations s' = invitations s ∧ bootstrap_owner_consumed s' = bootstrap_owner_consumed s
  ∧ teams s' = teams s.
Proof. by intros [->|(u & _ & _ & ->)]. Qed.

(** The checks of the code, on a challenge that can make an account. *)
Lemma completable_checks s t challenge_ d i missing :
  completable s t challenge_ d i →
  activation_challenges s !! token_hash_of challenge_ = Some d
  ∧ invitations s !! activation_invitation d = Some i
  ∧ negb (bool_decide (activation_consumed_at d = None) && dt_ltb t (activation_expires_at d)) = false
  ∧ negb (open_invitation i && dt_ltb t (invitation_expires_at i)
          && (attempt_count i <=? ACTIVATION_MAX_ATTEMPTS)%N)
    || bool_decide (is_Some (accounts s !! invited_login i)) = false
  ∧ check_teams s missing (bound_teams (intended_bindings i)) = Ok tt
  ∧ bootstrap_owner i && (bootstrap_owner_consumed s || has_admin s) = false.
Proof.
  intros (Hd & Hc & Hdexp & Hi & Ho & Hexp & Hn%N.leb_le & Ha & Ht & Hb).
  rewrite Hc, Hdexp, Ho, Hexp, Hn, Ha, (check_teams_all _ _ _ Ht). split_and!; try done.
  destruct (bootstrap_owner i); [|done]. by destruct (Hb eq_refl) as [-> ->].
Qed.

(** Closes a case in which a check of the code failed. *)
Ltac not_completable :=
  let Hk := fresh "Hk" in
  intros ? ? Hk; apply (completable_checks _ _ _ _ _ (λ _, activation_error)) in Hk;
  cbn [Nat.add] in Hk; destruct Hk as (? & ? & ? & ? & ? & ?);
  repeat match goal with H1 : ?a = Some ?x, H2 : ?a = Some ?y |- _ =>
    rewrite H1 in H2; injection H2 as <- end;
  match goal with H1 : ?a = _, H2 : ?a = _ |- _ => rewrite H1 in H2; discriminate end.

Lemma complete_spec challenge_ password c s k :
  at_core s k c →
  wp (complete_account_activation challenge_ password)
    (λ r c', match r with
             | Ok x => account_activated s (now_at (3 + k)) challenge_ x (state c')
             | Err e => complete_failed s k (asked c') challenge_ password e (state c')
             end) c.
Proof.
  intros Hc. unfold complete_account_activation. repeat astep.
  all: try (split; [by eapply ac_state|left; world]).
  all: try (split; [by eapply ac_state|right; by left]).
  all: try (split; [by eapply ac_state|right; right; not_completable]).
  eapply awp_profile; [eassumption|]. intros s' c1 k1 Hc1 Hle Hs'%profile_frame.
  repeat astep; [|split; [by eapply ac_state|left; world]]. rewrite (ac_state _ _ _ H0).
  destruct Hs' as (Ha' & Hch' & Hi' & Hb' & Ht').
  apply negb_false_iff, andb_true_iff in Heqb as [Hd%bool_decide_eq_true_1 Hdexp].
  apply orb_false_iff in Heqb0 as [[[Ho Hiexp]%andb_true_iff Hn]%negb_false_iff%andb_true_iff
                                   Hnone%absent_account].
  eexists a1, a2, _. split.
  { split_and!; try done; [by apply N.leb_le|by intros; eapply teams_checked|].
    intros Hboot. rewrite Hboot in Heqb1. by apply orb_false_iff in Heqb1. }
  split; [reflexivity|].
  do 4 (split; [done|]). split; [by destruct (bootstrap_owner a2); cbn; rewrite Ha'|].
  split; [destruct (bootstrap_owner a2); cbn; rewrite Hch'; by apply lookup_insert_eq|].
  split; [destruct (bootstrap_owner a2); cbn; rewrite Hi'; by apply lookup_insert_eq|].
  split; [destruct (bootstrap_owner a2); cbn; [done|by rewrite Hb']|].
  intros b key Hb Hkey. assert (Hteam : is_Some (teams s !! key)) by (by eapply check_teams_Ok).
  destruct (members_added (invited_login a2) (bound_teams (intended_bindings a2)) key (teams s'))
    as (team & Htm & Hin); [by rewrite Ht'|right; by exists b|].
  exists team. by destruct (bootstrap_owner a2).
Qed.

(** C9: an invitation becomes an account in one way. Its secret, while the invitation is open,
    unexpired and tried fewer than five times at the instant the call reads, buys a challenge
    for ten minutes. A wrong secret against such an invitation always costs one of the five
    tries, and nothing else changes; a refusal that changes nothing is the world refusing a
    question or the save, or a login with no such invitation. The challenge, once, makes the
    account: pending its second factor, with the role and in the teams of the invitation,
    which is spent; an activation is refused, and changes nothing, only where the world or the
    password rule refuses or no challenge could make an account. *)
Theorem activation_spec c login secret_ challenge_ password :
  saved c → accounts_ok (state c) →
  match start_account_activation login secret_ c with
  | (Ok r, c') => challenge_issued (state c) (now_at (3 + asked c)) login secret_ r (state c')
  | (Err e, c') => start_failed (state c) (asked c) (asked c') login secret_ e (state c')
  end
  ∧ match complete_account_activation challenge_ password c with
    | (Ok x, c') => account_activated (state c) (now_at (3 + asked c)) challenge_ x (state c')
    | (Err e, c') => complete_failed (state c) (asked c) (asked c') challenge_ password e (state c')
    end.
Proof.
  intros Hc Hok. assert (Hat : at_core (state c) (asked c) c) by by split. split.
  - pose proof (start_spec login secret_ c _ _ Hat Hok) as H. unfold wp in H.
    by destruct (start_account_activation login secret_ c) as [[r|e] c'].
  - pose proof (complete_spec challenge_ password c _ _ Hat) as H. unfold wp in H.
    by destruct (complete_account_activation challenge_ password c) as [[x|e] c'].
Qed.

(** ** Grants *)

Lemma admin_required s actor o n x :
  require_repo_admin s actor o n = Ok x →
  is_Some (repos s !! (o, n)) ∧ user_can_admin_repo s actor o n = true.
Proof.
  unfold require_repo_admin, get_repository. destruct (repos s !! (o, n)) as [r|]; [|done].
  destruct (user_can_admin_repo s actor o n); [|done]. intros _. split; [by eexists|done].
Qed.

(** What a checked grant and a checked revocation leave. *)
Definition granted (s : State) (actor login o n : string) (level : RepoAccessLevel)
    (g : RepoAccessGrant) (s' : State) : Prop :=
  user_can_admin_repo s actor o n = true ∧ access g = level ∧ granted_by g = actor
  ∧ repo_grants s' = <[(login, o, n) := g]> (repo_grants s)
  ∧ ∀ a, accounts s !! login = Some a → permits_authentication (account_status a) = true →
      role a ≠ UR_Admin → repo_access_for s' login o n = Some level.

Definition ungranted (s : State) (actor login o n : string) (b : bool) (s' : State) : Prop :=
  user_can_admin_repo s actor o n = true
  ∧ b = bool_decide (is_Some (repo_grants s !! (login, o, n)))
  ∧ repo_grants s' = delete (login, o, n) (repo_grants s)
  ∧ ∀ a, accounts s !! login = Some a → role a ≠ UR_Admin → repo_access_for s' login o n = None.

Lemma grant_checked_spec actor login o n level c s k :
  at_core s k c →
  wp (grant_repo_access_checked actor login o n level)
    (λ r c', match r with
             | Ok g => granted s actor login o n level g (state c')
             | Err _ => state c' = s
             end) c.
Proof.
  intros Hc. unfold grant_repo_access_checked, grant_repo_access_admitted, with_repository_mutation,
    with_named_mutation, admitted.
  repeat astep; try (by eapply ac_state).
  match goal with H : require_repo_admin _ _ _ _ = Ok _ |- _ => apply admin_required in H as [_ Hadm] end.
  match goal with H : at_core _ _ ?c' |- granted _ _ _ _ _ _ _ (state ?c') => rewrite (ac_state _ _ _ H) end.
  split_and!; [done..|]. intros a' Ha Hp Hr. unfold repo_access_for. cbn.
  by rewrite Ha, Hp, bool_decide_eq_false_2, lookup_insert_eq.
Qed.

Lemma revoke_checked_spec actor login o n c s k :
  at_core s k c →
  wp (revoke_repo_access_checked actor login o n)
    (λ r c', match r with
             | Ok b => ungranted s actor login o n b (state c')
             | Err _ => state c' = s
             end) c.
Proof.
  intros Hc. unfold revoke_repo_access_checked, revoke_repo_access_admitted, with_repository_mutation,
    with_named_mutation, admitted.
  repeat astep; try (by eapply ac_state).
  match goal with H : require_repo_admin _ _ _ _ = Ok _ |- _ => apply admin_required in H as [_ Hadm] end.
  match goal with H : at_core _ _ ?c' |- ungranted _ _ _ _ _ _ (state ?c') => rewrite (ac_state _ _ _ H) end.
  split_and!; [done..|]. intros a' Ha Hr. unfold repo_access_for. cbn.
  rewrite Ha, bool_decide_eq_false_2, lookup_delete_eq by done.
  by destruct (negb (permits_authentication (account_status a'))).
Qed.

(** Access is given and taken by administrators of the repository. A checked grant that
    succeeds was asked for by an active account that is an administrator or holds an admin
    grant there, and gives an active account exactly the level asked for; a checked
    revocation takes the grant away; no other row of access changes, and a refused call
    changes nothing. *)
Theorem checked_grants_spec actor login o n level c :
  saved c →
  match grant_repo_access_checked actor login o n level c with
  | (Ok g, c') => granted (state c) actor login o n level g (state c')
  | (Err _, c') => state c' = state c
  end
  ∧ match revoke_repo_access_checked actor login o n c with
    | (Ok b, c') => ungranted (state c) actor login o n b (state c')
    | (Err _, c') => state c' = state c
    end.
Proof.
  intros Hc. assert (Hat : at_core (state c) (asked c) c) by by split. split.
  - pose proof (grant_checked_spec actor login o n level c _ _ Hat) as H. unfold wp in H.
    by destruct (grant_repo_access_checked actor login o n level c) as [[g|e] c'].
  - pose proof (revoke_checked_spec actor login o n c _ _ Hat) as H. unfold wp in H.
    by destruct (revoke_repo_access_checked actor login o n c) as [[b|e] c'].
Qed.

End account_history.
