(* ===== verification/TransferHistory.v ===== *)
(** TransferHistory: what moving a repository guarantees: a commit moves every table to the new
    name at once, and a closed entry of the journal is the answer for good, through any calls. *)

From S2P Require Import Prelude Text Clock BranchProtection ForgeState Forge ForgeLaws.
From S2P Require Import ForgeInvariant BoundReviews Accounts AccountLaws Transfers TransferLaws.
From S2P Require Import ReviewHistory AccountHistory.
Local Open Scope forge_scope.

Section history.
Context `{ES : ForgeEnvSpec} {R : ReviewEnv} {AE : AuthEnv} {AS : AuthEnvSpec}.

(** The state after a commit that moved the repository [r] at the time [t]. *)
Record repository_moved (s s' : State) (j : RepositoryTransferJournal) (r : Repository)
    (t : DateTime) : Prop := {
  rm_open : ∃ j0, repository_transfers s !! idempotency_key j = Some j0
                  ∧ transfer_status j0 = RTS_Prepared;
  rm_from : repos s !! moved_from j = Some r;
  rm_same : repo_id r = transfer_repository j;
  rm_free : repos s !! moved_to j = None ∧ get_repository_alias s (moved_to j).1 (moved_to j).2 = None;
  rm_repos : repos s' = <[moved_to j := move_repo (moved_to j) t r]> (delete (moved_from j) (repos s));
  rm_tables : moved_tables (moved_from j) (moved_to j) s s';
  rm_alias : ∃ a, get_repository_alias s' (moved_from j).1 (moved_from j).2 = Some a
    ∧ alias_repository a = repo_id r ∧ (canonical_owner a, canonical_name a) = moved_to j;
  rm_aliases p : p ≠ moved_from j →
    repository_aliases s' !! p = retarget_alias j <$> repository_aliases s !! p;
  rm_rest : same_auth s s' ∧ bound_reviews s' = bound_reviews s
    ∧ repository_mutation_blocks s' = repository_mutation_blocks s;
  rm_ok : state_ok s' ∧ transfers_ok s'
}.

Lemma committed_aliases s key j r t t' t'' id receipt :
  repository_aliases (committed_state s key j r t t' t'' id receipt)
  = <[moved_from j := new_alias j id t']> (retarget_alias j <$> repository_aliases s).
Proof. reflexivity. Qed.

Lemma committed_journal s key j r t t' t'' id receipt :
  repository_transfers (committed_state s key j r t t' t'' id receipt)
  = <[key := close_journal j RTS_Committed t'' (transfer_failure j) (Some receipt)]>
      (repository_transfers s).
Proof. reflexivity. Qed.

Lemma committed_moved s key j r t t' t'' id receipt :
  repository_transfers s !! key = Some j → transfer_status j = RTS_Prepared →
  rekey_source s j = Ok r → transfers_ok s → state_ok s →
  let s' := committed_state s key j r t t' t'' id receipt in
  let j' := close_journal j RTS_Committed t'' (transfer_failure j) (Some receipt) in
  repository_transfers s' !! idempotency_key j' = Some j' ∧ repository_moved s s' j' r t.
Proof.
  intros Hj Hst Hr Htr Hok s' j'. pose proof (Tc_commit s key j r t t' t'' id receipt Hj Hst Hr) as Hch.
  destruct (Htr _ _ Hj) as [Hkey Hne]. destruct (committed_facts s key j r t t' t'' id receipt Hne) as [Hm Hrepos].
  destruct (rekey_source_Ok _ _ _ Hr) as (H1 & H2 & H3 & H4).
  destruct (transfer_frame _ _ Hch) as (Ha & Hb & Hl & _).
  change (idempotency_key j') with (idempotency_key j). rewrite Hkey.
  split; [unfold s'; rewrite committed_journal; apply lookup_insert_eq|]. split.
  - exists j. change (idempotency_key j') with (idempotency_key j). by rewrite Hkey.
  - exact H1.
  - exact H4.
  - split; [exact H2|exact H3].
  - exact Hrepos.
  - exact Hm.
  - exists (new_alias j id t'). split; [|split; [exact (eq_sym H4)|reflexivity]].
    unfold get_repository_alias, s'. rewrite committed_aliases. apply lookup_insert_eq.
  - intros p Hp. unfold s'. rewrite committed_aliases, lookup_insert_ne by (intros Heq; by apply Hp).
    apply lookup_fmap.
  - by split_and!.
  - split; [by eapply transfer_state_ok|by eapply transfer_transfers_ok].
Qed.

(** C12: committing a transfer moves the repository once and whole. The answer is a committed
    entry of the journal under the transaction that was asked for; when the entry was still
    prepared, the new name was free of repositories and aliases, every table of the repository has
    its rows under the new name and none under the old, the same repository is there, the old
    name is an alias of the new one, and so are the aliases it had; accounts, verdicts
    and blocks stand and the tables still agree. A committed entry answers again without a
    change, and a refused commit changes nothing. *)
Theorem transfer_moves_repository id receipt c k :
  forge_ready k c →
  let k' := commit_repository_transfer id receipt (core c) in
  let s := state (core c) in let s' := state k'.2 in
  saved k'.2
  ∧ match k'.1 with
    | Err _ => s' = s
    | Ok j => transfer_status j = RTS_Committed ∧ transaction_id j = id
        ∧ repository_transfers s' !! idempotency_key j = Some j
        ∧ (s' = s ∨ transfer_receipt j = Some receipt ∧ ∃ r t, repository_moved s s' j r t)
    end.
Proof.
  intros [Hc Hok _ _ _ Htr] k' s s'.
  assert (Hat : at_core s (asked (core c)) (core c)) by by split.
  pose proof (commit_spec id receipt _ _ _ Hat) as H. unfold wp in H. subst k' s'.
  destruct (commit_repository_transfer id receipt (core c)) as [[j|e] k1]; [|exact H].
  destruct H as (Hs & key & j0 & Hj & Hid & [(H1 & -> & Hst)|(r & t & t' & t'' & Hst & Hr & -> & H1)]);
    (split; [exact Hs|]); cbn [fst snd] in *.
  - split; [exact Hst|]. split; [exact Hid|]. split; [|by left]. rewrite H1. by destruct (Htr _ _ Hj) as [-> _].
  - destruct (committed_moved s key j0 r t t' t'' id receipt Hj Hst Hr Htr Hok) as [H2 H3].
    rewrite H1. split; [reflexivity|]. split; [exact Hid|]. split; [exact H2|].
    right. split; [reflexivity|]. by exists r, t.
Qed.

(** A closed transfer is closed for good. Whatever calls follow, its entry stands as it is;
    preparing again under its key answers that entry, to the request that made it and to no
    other; and committing or failing its transaction answers it or is refused; none of the three
    changes the state. *)
Theorem closed_transfer_is_final key j c calls :
  closed (state (core c)) key j → forge_ready (N.of_nat (length calls)) c →
  let k := core (bserve calls c) in
  closed (state k) key j
  ∧ (∀ r, prepare_key r = key →
       let (x, k') := prepare_repository_transfer r k in
       state k' = state k
       ∧ ∀ j', x = Ok j' → j' = j ∧ transfer_repository j = prepare_repository r
           ∧ request_fingerprint j = prepare_fingerprint r)
  ∧ ((∀ key' j', repository_transfers (state k) !! key' = Some j' →
        transaction_id j' = transaction_id j → key' = key) →
     (∀ receipt, let (x, k') := commit_repository_transfer (transaction_id j) receipt k in
        state k' = state k ∧ ∀ j', x = Ok j' → j' = j ∧ transfer_status j = RTS_Committed)
     ∧ ∀ reason, let (x, k') := fail_repository_transfer (transaction_id j) reason k in
        state k' = state k ∧ ∀ j', x = Ok j' → j' = j ∧ transfer_status j = RTS_Failed
                                     ∧ transfer_failure j = Some reason).
Proof.
  intros Hcl Hready k. rewrite <-(N.add_0_r (N.of_nat _)) in Hready.
  destruct (bserve_ready calls c 0 Hready) as [[Hc _ _ _ _ _] [_ Hk]]. specialize (Hk _ _ Hcl).
  fold k in Hc, Hk. assert (Hat : at_core (state k) (asked k) k) by by split.
  split; [exact Hk|]. destruct Hk as [Hrow Hst]. split; [|intros Huniq; split].
  - intros r Hkey. pose proof (prepare_spec r _ _ _ Hat) as H. unfold wp in H.
    destruct (prepare_repository_transfer r k) as [[x|e] k']; [|by destruct H].
    destruct H as (_ & [(H1 & H2 & H3 & H4)|(H1 & _)]); rewrite Hkey in *; [|congruence].
    split; [done|]. intros j' [= <-]. assert (x = j) as -> by congruence. done.
  - intros receipt. pose proof (commit_spec (transaction_id j) receipt _ _ _ Hat) as H. unfold wp in H.
    destruct (commit_repository_transfer _ receipt k) as [[x|e] k']; [|by destruct H].
    destruct H as (_ & key' & j0 & Hj & Hid & H). pose proof (Huniq _ _ Hj Hid). subst key'.
    assert (j0 = j) as -> by congruence.
    destruct H as [(H1 & -> & H2)|(? & ? & ? & ? & H & _)]; [|done]. split; [done|]. by intros j' [= <-].
  - intros reason. pose proof (fail_spec (transaction_id j) reason _ _ _ Hat) as H. unfold wp in H.
    destruct (fail_repository_transfer _ reason k) as [[x|e] k']; [|by destruct H].
    destruct H as (_ & key' & j0 & Hj & Hid & H). pose proof (Huniq _ _ Hj Hid). subst key'.
    assert (j0 = j) as -> by congruence.
    destruct H as [(H1 & -> & H2 & H3)|(? & H & _)]; [|done]. split; [done|]. by intros j' [= <-].
Qed.

End history.
