(* ===== verification/GitGuard.v ===== *)
(** GitGuard: which git commands a confined agent may run.

    jeryu-git-guard (jeryu-release-ops/crates/jeryu-git-guard/src): the refusals and their
    text (error.rs), the deny and allow sets (policy.rs), the verdict on a command line
    (decision.rs, subcommands.rs) and the wrapper that stands for git on the path of the
    agent (bin/jeryu-git.rs). The wrapper is a function of its environment to the things it
    does in order and how it ends; what the audit program and exec answer is the class
    [GuardHost]. [Permitted] says declaratively what the verdict lets through. *)

From Stdlib Require Import Ascii.
From S2P Require Import Prelude Text.

(** * Refusals *)

Record GitGuardError : Type := {
  purpose : string;
  reason : string;
  common_fixes : list string;
  docs_url : string;
  repair_hint : string;
  command : string
}.

Inductive GitDecision : Type :=
  | Allow
  | Deny (error : GitGuardError).

Definition is_allowed (d : GitDecision) : bool :=
  match d with Allow => true | Deny _ => false end.

Definition NETWORK_FIXES : list string :=
  ["commit locally on your branch; jeryu publishes it on export/review";
   "you cannot push/fetch/clone — the cell has no network and jeryu mediates git"].
Definition WORKTREE_FIXES : list string :=
  ["you get exactly one branch in one runner";
   "need a second line of work? ask jeryu to start another runner — do not add worktrees"].
Definition INTEGRATION_FIXES : list string :=
  ["do not merge/rebase/cherry-pick — jeryu rebases your branch on main and integrates";
   "just commit your work; jeryu handles integration and conflict resolution"].
Definition BRANCH_FIXES : list string :=
  ["you are pinned to your assigned branch (JERYU_BRANCH)";
   "do not create/delete/rename/switch branches — request another runner for parallel work"].
Definition CONFIG_WRITE_FIXES : list string :=
  ["config is read-only inside the cell (identity/options are preset by jeryu)";
   "aliases and credential/remote config cannot be written from inside the cell"].
Definition GLOBAL_FLAG_FIXES : list string :=
  ["drop the -c/--config-env/--git-dir/--work-tree/--exec-path option";
   "run plain git subcommands inside your workspace; jeryu controls the repo layout"].
Definition SUBCOMMAND_FIXES : list string :=
  ["only branch-local commands are allowed (status/diff/log/show/add/commit/revert/reset/restore/stash)";
   "if you reached here via a git alias, it is refused: aliases can run arbitrary commands"].
Definition COMMIT_VERIFY_FIXES : list string :=
  ["drop --no-verify/-n: the jankurai audit gate must run on every commit";
   "if the gate blocked you, fix the introduced caps/findings and commit again"].

Definition GitGuardError_new (purpose_ reason_ : string) (common_fixes_ : list string)
    (repair_hint_ command_ : string) : GitGuardError :=
  {| purpose := purpose_; reason := reason_; common_fixes := common_fixes_;
     docs_url := "docs/errors.md#git-guard"; repair_hint := repair_hint_;
     command := command_ |}.

Definition render (e : GitGuardError) : string :=
  "jeryu-git: refused `" +:+ command e +:+ "` — " +:+ reason e +:+ newline_str
  +:+ "  why: " +:+ purpose e +:+ newline_str +:+ "  fixes:" +:+ newline_str
  +:+ foldr (λ fix_ out, "    - " +:+ fix_ +:+ newline_str +:+ out) "" (common_fixes e)
  +:+ "  hint: " +:+ repair_hint e +:+ newline_str +:+ "  docs: " +:+ docs_url e.

Definition network (c : string) : GitGuardError :=
  GitGuardError_new "reach the network or another repo via git"
    "git_network_denied" NETWORK_FIXES
    "commit locally; jeryu publishes and integrates your branch" c.
Definition worktree (c : string) : GitGuardError :=
  GitGuardError_new "create an extra worktree / submodule checkout"
    "git_worktree_denied" WORKTREE_FIXES
    "more worktrees → fire up more runners (one branch per runner)" c.
Definition integration (c : string) : GitGuardError :=
  GitGuardError_new "rewrite history or integrate other refs"
    "git_integration_denied" INTEGRATION_FIXES
    "just commit; jeryu rebases on main and integrates" c.
Definition branch (c : string) : GitGuardError :=
  GitGuardError_new "create, delete, rename, or switch branches"
    "git_branch_denied" BRANCH_FIXES
    "you are confined to one branch; request another runner for more" c.
Definition config_write (c : string) : GitGuardError :=
  GitGuardError_new "write git config (remote/credential/alias/identity)"
    "git_config_write_denied" CONFIG_WRITE_FIXES
    "git config is read-only in the cell" c.
Definition global_flag (c : string) : GitGuardError :=
  GitGuardError_new "use a config-injecting or repo-redirecting global flag"
    "git_global_flag_denied" GLOBAL_FLAG_FIXES
    "remove the -c/--git-dir/--work-tree/--exec-path/--config-env option" c.
Definition subcommand (c : string) : GitGuardError :=
  GitGuardError_new "run a git subcommand outside the branch-local allowlist"
    "git_subcommand_denied" SUBCOMMAND_FIXES
    "use a branch-local command, or ask jeryu for the operation you need" c.
Definition commit_unverified (c : string) : GitGuardError :=
  GitGuardError_new "skip the pre-commit jankurai audit gate"
    "git_commit_unverified_denied" COMMIT_VERIFY_FIXES
    "remove --no-verify; resolve the audit findings instead" c.

(** * Deny and allow sets *)

Definition NETWORK_DENY : list string :=
  ["push"; "fetch"; "pull"; "clone"; "remote"; "ls-remote"; "fetch-pack"; "send-pack";
   "receive-pack"; "upload-pack"; "upload-archive"; "daemon"; "credential";
   "credential-cache"; "credential-store"; "credential-helper"; "request-pull";
   "format-patch"; "send-email"; "imap-send"; "p4"; "svn"; "archive"; "http-fetch";
   "http-push"; "remote-ext"; "remote-fd"; "remote-http"; "remote-https"; "remote-ftp";
   "remote-ftps"].

Definition WORKTREE_DENY : list string :=
  ["worktree"; "submodule"].

Definition INTEGRATION_DENY : list string :=
  ["merge"; "rebase"; "cherry-pick"; "am"; "apply"; "revert-sequencer"; "gc"; "fsck";
   "filter-branch"; "filter-repo"; "replace"; "fast-import"; "fast-export"; "bundle";
   "prune"; "prune-packed"; "repack"; "pack-objects"; "pack-refs"; "update-ref";
   "symbolic-ref"; "update-index"; "write-tree"; "commit-tree"; "merge-tree"; "read-tree";
   "reset-sequencer"].

Definition ALLOWED_LOCAL : list string :=
  ["status"; "diff"; "show"; "log"; "add"; "revert"; "restore"; "rm"; "mv"; "reset";
   "stash"; "blame"; "grep"; "shortlog"; "describe"; "rev-parse"; "rev-list"; "cat-file";
   "ls-files"; "ls-tree"; "show-ref"; "for-each-ref"; "merge-base"; "name-rev";
   "diff-tree"; "diff-index"; "whatchanged"; "count-objects"; "verify-commit"; "cherry";
   "range-diff"; "check-ignore"; "check-attr"; "var"; "hash-object"; "annotate";
   "show-branch"; "diff-files"; "verify-tag"].

Definition one_of (l : list string) (s : string) : bool := bool_decide (s ∈ l).

(** [token.starts_with('-')]. *)
Definition is_option (s : string) : bool := starts_with s "-".

(** * Subcommands that read and write *)

Definition CONFIG_WRITE_FLAGS : list string :=
  ["--add"; "--unset"; "--unset-all"; "--replace-all"; "--edit"; "-e"; "--rename-section";
   "--remove-section"].

(** The loop of config_decision: whether a write flag is met, and the positionals. *)
Fixpoint config_positionals (args : list string) : option nat :=
  match args with
  | [] => Some 0
  | a :: args =>
      if one_of CONFIG_WRITE_FLAGS a then None
      else (λ n, if is_option a then n else S n) <$> config_positionals args
  end.

Definition config_decision (args : list string) (c : string) : GitDecision :=
  match config_positionals args with
  | None => Deny (config_write c)
  | Some positionals => if 2 <=? positionals then Deny (config_write c) else Allow
  end.

Definition BRANCH_MUTATION : list string :=
  ["-d"; "-D"; "--delete"; "-m"; "-M"; "--move"; "-c"; "-C"; "--copy"; "-f"; "--force";
   "--set-upstream-to"; "-u"; "--unset-upstream"; "--edit-description"].
Definition BRANCH_VALUE_FLAGS : list string :=
  ["--contains"; "--no-contains"; "--merged"; "--no-merged"; "--points-at"; "--format";
   "--sort"; "--color"; "--abbrev"].

Fixpoint branch_decision (args : list string) (c : string) : GitDecision :=
  match args with
  | [] => Allow
  | a :: args =>
      if one_of BRANCH_MUTATION a then Deny (branch c)
      else if one_of BRANCH_VALUE_FLAGS a then
        match args with [] => Allow | _ :: args => branch_decision args c end
      else if is_option a then branch_decision args c
      else Deny (branch c)
  end.

Definition CHECKOUT_CREATE : list string :=
  ["-b"; "-B"; "--orphan"; "--detach"].

(** A positional argument of checkout and switch: [-] names the previous branch. *)
Definition is_positional (a : string) : bool := negb (is_option a) || bool_decide (a = "-").

(** The loop of checkout_decision up to [--]: [None] when a branch would be created;
    whether [--] was met, and the positionals before it. *)
Fixpoint checkout_scan (args : list string) : option (bool * list string) :=
  match args with
  | [] => Some (false, [])
  | a :: args =>
      if bool_decide (a = "--") then Some (true, [])
      else if one_of CHECKOUT_CREATE a then None
      else (λ '(dd, ps), (dd, if is_positional a then a :: ps else ps)) <$> checkout_scan args
  end.

Definition checkout_decision (args : list string) (assigned c : string) : GitDecision :=
  match checkout_scan args with
  | None => Deny (branch c)
  | Some (true, _) => Allow
  | Some (false, positionals) =>
      if bool_decide (positionals = [])
         || forallb (λ p, bool_decide (p = ".") || bool_decide (p = assigned)) positionals
      then Allow else Deny (branch c)
  end.

Definition SWITCH_CREATE : list string :=
  ["-c"; "-C"; "--create"; "--orphan"; "--detach"].

Fixpoint switch_scan (args : list string) : option (list string) :=
  match args with
  | [] => Some []
  | a :: args =>
      if one_of SWITCH_CREATE a then None
      else (λ ps, if is_positional a then a :: ps else ps) <$> switch_scan args
  end.

Definition switch_decision (args : list string) (assigned c : string) : GitDecision :=
  match switch_scan args with
  | None => Deny (branch c)
  | Some positionals =>
      if bool_decide (positionals = []) || forallb (λ p, bool_decide (p = assigned)) positionals
      then Allow else Deny (branch c)
  end.

Definition TAG_CREATE : list string :=
  ["-a"; "--annotate"; "-s"; "--sign"; "-d"; "--delete"; "-m"; "--message"; "-f";
   "--force"; "-u"; "--local-user"; "-F"; "--file"; "--create-reflog"].
Definition TAG_LIST_FLAGS : list string :=
  ["-l"; "--list"; "-n"; "--contains"; "--no-contains"; "--points-at"; "--merged";
   "--no-merged"; "--sort"; "--format"; "--color"].

(** The loop of tag_decision: [None] on a writing flag; a list flag, a positional. *)
Fixpoint tag_scan (args : list string) : option (bool * bool) :=
  match args with
  | [] => Some (false, false)
  | a :: args =>
      if one_of TAG_CREATE a then None
      else (λ '(lf, p), if one_of TAG_LIST_FLAGS a then (true, p)
                        else if is_option a then (lf, p) else (lf, true)) <$> tag_scan args
  end.

Definition tag_decision (args : list string) (c : string) : GitDecision :=
  match tag_scan args with
  | None => Deny (branch c)
  | Some (has_list_flag, has_positional) =>
      if has_positional && negb has_list_flag then Deny (branch c) else Allow
  end.

Definition reflog_decision (args : list string) (c : string) : GitDecision :=
  match args with
  | a :: _ =>
      if bool_decide (a = "expire") || bool_decide (a = "delete") then Deny (integration c)
      else Allow
  | [] => Allow
  end.

(** * The verdict *)

Definition DENIED_EXACT : list string :=
  ["-c"; "--config-env"; "--namespace"; "--bare"; "--super-prefix"].
Definition DENIED_PREFIX : list string :=
  ["--config-env="; "--git-dir"; "--work-tree"; "--exec-path="; "--namespace=";
   "--super-prefix="].

Definition is_denied_global (token : string) : bool :=
  (one_of DENIED_EXACT token || bool_decide (token = "--git-dir")
   || bool_decide (token = "--work-tree"))
  || existsb (starts_with token) DENIED_PREFIX.

Definition global_takes_value (token : string) : bool := bool_decide (token = "-C").

Definition BENIGN_GLOBALS : list string :=
  ["--no-pager"; "--paginate"; "-p"; "--no-replace-objects"; "--literal-pathspecs";
   "--no-literal-pathspecs"; "--glob-pathspecs"; "--noglob-pathspecs"; "--icase-pathspecs";
   "--no-optional-locks"; "--html-path"; "--man-path"; "--info-path"; "--exec-path";
   "--version"; "--help"; "-P"].

Definition is_benign_global (token : string) : bool := one_of BENIGN_GLOBALS token.

(** The loop over the global options: [None] when one is refused, otherwise what is left
    of the arguments, subcommand first. *)
Fixpoint skip_globals (argv : list string) : option (list string) :=
  match argv with
  | [] => Some []
  | token :: argv' =>
      if negb (is_option token) then Some argv
      else if is_denied_global token then None
      else if global_takes_value token then
        match argv' with [] => Some [] | _ :: argv'' => skip_globals argv'' end
      else if is_benign_global token then skip_globals argv'
      else None
  end.

Definition render_command (argv : list string) : string :=
  foldl (λ rendered argument, rendered +:+ " " +:+ argument) "git" argv.

(** A short option cluster that holds [n], or [--no-verify]. *)
Definition skips_gate (token : string) : bool :=
  bool_decide (token = "--no-verify")
  || (is_option token && negb (starts_with token "--") && str_contains "n" token).

Fixpoint commit_decision (rest : list string) (c : string) : GitDecision :=
  match rest with
  | [] => Allow
  | token :: rest =>
      if bool_decide (token = "--") then Allow
      else if skips_gate token then Deny (commit_unverified c)
      else commit_decision rest c
  end.

Definition subcommand_decision (sub : string) (rest : list string) (assigned c : string) :
    GitDecision :=
  if one_of NETWORK_DENY sub then Deny (network c)
  else if one_of WORKTREE_DENY sub then Deny (worktree c)
  else if one_of INTEGRATION_DENY sub then Deny (integration c)
  else if bool_decide (sub = "commit") then commit_decision rest c
  else if bool_decide (sub = "config") then config_decision rest c
  else if bool_decide (sub = "branch") then branch_decision rest c
  else if bool_decide (sub = "checkout") then checkout_decision rest assigned c
  else if bool_decide (sub = "switch") then switch_decision rest assigned c
  else if bool_decide (sub = "tag") then tag_decision rest c
  else if bool_decide (sub = "reflog") then reflog_decision rest c
  else if one_of ALLOWED_LOCAL sub then Allow
  else Deny (subcommand c).

Definition git_command_decision (argv : list string) (assigned_branch : string) :
    GitDecision :=
  let rendered := render_command argv in
  match skip_globals argv with
  | None => Deny (global_flag rendered)
  | Some [] => Allow
  | Some (sub :: rest) => subcommand_decision sub rest assigned_branch rendered
  end.

Fixpoint leading_subcommand (argv : list string) : option string :=
  match argv with
  | [] => None
  | token :: argv' =>
      if negb (is_option token) then Some token
      else if global_takes_value token then
        match argv' with [] => None | _ :: argv'' => leading_subcommand argv'' end
      else leading_subcommand argv'
  end.

(** * The wrapper *)

Definition DENY_EXIT_CODE : Z := 13.

(** What the wrapper does: it prints to stderr, runs a program to its end, or replaces
    itself by one. *)
Inductive Event : Type :=
  | Printed (text : string)
  | Ran (program : string) (args : list string) (env : gmap string string)
  | Execed (program : string) (args : list string).

(** How it ends: as the program it exec'd, or with an exit code. *)
Inductive Outcome : Type :=
  | Replaced
  | Exited (exit_code : Z).

Class GuardHost : Type := {
  (** [Command::status]: whether the program succeeded, or why it could not be run. *)
  status : string → list string → gmap string string → result bool string;
  (** [Command::exec]: the error, if it returns. *)
  exec_error : string → list string → option string
}.

Section wrapper.
Context `{GuardHost}.

(** [Ok(v) if !v.trim().is_empty()] of [std::env::var]. *)
Definition required (env : gmap string string) (name : string) : option string :=
  match env !! name with
  | Some v => if str_is_empty (trim v) then None else Some v
  | None => None
  end.

(** The gate: what it does, and the exit code unless it lets the commit pass. *)
Definition run_commit_gate (env : gmap string string) : list Event * option Z :=
  match required env "JERYU_JANKURAI_BIN" with
  | None =>
      ([Printed ("jeryu-git: refused `git commit` — git_commit_gate_unavailable"
          +:+ newline_str +:+ "  why: the jankurai audit gate must run on every commit, but JERYU_JANKURAI_BIN is unset"
          +:+ newline_str +:+ "  hint: this is a sandbox misconfiguration; the auditor is baked into the agent image")],
       Some DENY_EXIT_CODE)
  | Some jankurai =>
      let base := match required env "JANKURAI_DIFF_BASE" with Some b => b | None => "HEAD" end in
      let args := ["diff-audit"; "."; "--base-ref"; base; "--skip-proof"] in
      let env' := <["JANKURAI_SKIP_HOOKS" := "0"]> (delete "JANKURAI_SKIP_HOOKS" env) in
      let ran := Ran jankurai args env' in
      match status jankurai args env' with
      | Ok true => ([ran], None)
      | Ok false =>
          ([ran; Printed ("jeryu-git: refused `git commit` — git_commit_audit_failed"
              +:+ newline_str +:+ "  why: this change introduces jankurai caps/hard findings (see the diff-audit output above and target/jankurai/diff/diff-score.md)"
              +:+ newline_str +:+ "  fixes:" +:+ newline_str
              +:+ "    - resolve the flagged findings, then commit again" +:+ newline_str
              +:+ "    - run `jankurai diff-audit . --base-ref " +:+ base +:+ "` to re-check"
              +:+ newline_str +:+ "  hint: the audit gate blocks new caps before they enter the system")],
           Some DENY_EXIT_CODE)
      | Err err =>
          ([ran; Printed ("jeryu-git: refused `git commit` — git_commit_gate_unavailable"
              +:+ newline_str +:+ "  why: could not run the jankurai audit gate (" +:+ jankurai
              +:+ "): " +:+ err +:+ newline_str
              +:+ "  hint: fail-closed; the auditor must be runnable for a commit to land")],
           Some DENY_EXIT_CODE)
      end
  end.

(** The exec at the end of an allowed command. *)
Definition exec_real_git (env : gmap string string) (argv : list string) :
    list Event * Outcome :=
  match required env "JERYU_REAL_GIT" with
  | None => ([Printed "jeryu-git: missing required JERYU_REAL_GIT"], Exited 2)
  | Some real_git =>
      match exec_error real_git argv with
      | None => ([Execed real_git argv], Replaced)
      | Some err =>
          ([Execed real_git argv;
            Printed ("jeryu-git: failed to exec real git (" +:+ real_git +:+ "): " +:+ err)],
           Exited 127)
      end
  end.

Definition main (env : gmap string string) (argv : list string) : list Event * Outcome :=
  match required env "JERYU_BRANCH" with
  | None => ([Printed "jeryu-git: missing required JERYU_BRANCH"], Exited 2)
  | Some assigned_branch =>
      match git_command_decision argv assigned_branch with
      | Allow =>
          let (events, stop) :=
            if bool_decide (leading_subcommand argv = Some "commit") then run_commit_gate env
            else ([], None) in
          match stop with
          | Some c => (events, Exited c)
          | None => let (events', o) := exec_real_git env argv in (events ++ events', o)
          end
      | Deny error => ([Printed (render error)], Exited DENY_EXIT_CODE)
      end
  end.
End wrapper.

(** * What the verdict lets through

    Written out apart from the tables and the tests of the verdict: the words, the options
    that write, what is an option, and which of them skip the audit. *)

Definition benign_globals : list string :=
  ["--no-pager"; "--paginate"; "-p"; "-P"; "--no-replace-objects"; "--literal-pathspecs";
   "--no-literal-pathspecs"; "--glob-pathspecs"; "--noglob-pathspecs"; "--icase-pathspecs";
   "--no-optional-locks"; "--html-path"; "--man-path"; "--info-path"; "--exec-path";
   "--version"; "--help"].

(** Commands that read, and those that edit the files or the index of the branch. *)
Definition local_commands : list string :=
  ["status"; "diff"; "show"; "log"; "blame"; "grep"; "shortlog"; "describe"; "rev-parse";
   "rev-list"; "cat-file"; "ls-files"; "ls-tree"; "show-ref"; "for-each-ref"; "merge-base";
   "name-rev"; "diff-tree"; "diff-index"; "diff-files"; "whatchanged"; "count-objects";
   "verify-commit"; "verify-tag"; "cherry"; "range-diff"; "check-ignore"; "check-attr";
   "var"; "hash-object"; "annotate"; "show-branch";
   "add"; "revert"; "restore"; "rm"; "mv"; "reset"; "stash"].

Definition config_writes : list string :=
  ["--add"; "--replace-all"; "--unset"; "--unset-all"; "--rename-section";
   "--remove-section"; "-e"; "--edit"].

Definition branch_writes : list string :=
  ["-d"; "-D"; "--delete"; "-m"; "-M"; "--move"; "-c"; "-C"; "--copy"; "-f"; "--force";
   "-u"; "--set-upstream-to"; "--unset-upstream"; "--edit-description"].
Definition branch_values : list string :=
  ["--contains"; "--no-contains"; "--merged"; "--no-merged"; "--points-at"; "--format";
   "--sort"; "--color"; "--abbrev"].

Definition checkout_creates : list string := ["-b"; "-B"; "--orphan"; "--detach"].
Definition switch_creates : list string := ["-c"; "-C"; "--create"; "--orphan"; "--detach"].

Definition tag_writes : list string :=
  ["-a"; "--annotate"; "-s"; "--sign"; "-u"; "--local-user"; "-f"; "--force"; "-d";
   "--delete"; "-m"; "--message"; "-F"; "--file"; "--create-reflog"].
Definition tag_lists : list string :=
  ["-l"; "--list"; "-n"; "--contains"; "--no-contains"; "--merged"; "--no-merged";
   "--points-at"; "--sort"; "--format"; "--color"].

Definition dashed (a : string) : Prop := String.get 0 a = Some "-"%char.

(** The long option, or short options with an n among them. *)
Definition skips_audit (a : string) : Prop :=
  a = "--no-verify"
  ∨ dashed a ∧ String.get 1 a ≠ Some "-"%char ∧ ∃ i, String.get i a = Some "n"%char.

Definition positionals (args : list string) : list string := filter (λ a, ¬ dashed a) args.

(** Of checkout and switch, where a dash alone names the previous branch. *)
Definition operands (args : list string) : list string :=
  filter (λ a, ¬ dashed a ∨ a = "-") args.

(** Global options the guard reads past: each benign, or [-C] with its directory. *)
Inductive Globals : list string → Prop :=
  | G_nil : Globals []
  | G_benign g gs : g ∈ benign_globals → Globals gs → Globals (g :: gs)
  | G_dir d gs : Globals gs → Globals ("-C" :: d :: gs).

(** Arguments of branch that only list. *)
Inductive Lists : list string → Prop :=
  | L_nil : Lists []
  | L_value f v l : f ∈ branch_values → Lists l → Lists (f :: v :: l)
  | L_last f : f ∈ branch_values → Lists [f]
  | L_flag f l : dashed f → f ∉ branch_writes → f ∉ branch_values → Lists l → Lists (f :: l).

Inductive Permitted (assigned : string) : string → list string → Prop :=
  | P_local sub rest : sub ∈ local_commands → Permitted assigned sub rest
  | P_commit before after :
      (∀ t, t ∈ before → ¬ skips_audit t) → "--" ∉ before →
      after = [] ∨ head after = Some "--" →
      Permitted assigned "commit" (before ++ after)
  | P_config args :
      (∀ f, f ∈ config_writes → f ∉ args) → length (positionals args) ≤ 1 →
      Permitted assigned "config" args
  | P_branch args : Lists args → Permitted assigned "branch" args
  | P_checkout_paths before after :
      "--" ∉ before → (∀ f, f ∈ checkout_creates → f ∉ before) →
      Permitted assigned "checkout" (before ++ "--" :: after)
  | P_checkout args :
      "--" ∉ args → (∀ f, f ∈ checkout_creates → f ∉ args) →
      (∀ p, p ∈ operands args → p = "." ∨ p = assigned) →
      Permitted assigned "checkout" args
  | P_switch args :
      (∀ f, f ∈ switch_creates → f ∉ args) → (∀ p, p ∈ operands args → p = assigned) →
      Permitted assigned "switch" args
  | P_tag args :
      (∀ f, f ∈ tag_writes → f ∉ args) →
      (∃ f, f ∈ args ∧ f ∈ tag_lists) ∨ positionals args = [] →
      Permitted assigned "tag" args
  | P_reflog args :
      head args ≠ Some "expire" → head args ≠ Some "delete" →
      Permitted assigned "reflog" args.

(** What may be run: globals alone, or globals and a permitted subcommand. *)
Definition Allowed (b : string) (argv : list string) : Prop :=
  ∃ gs, Globals gs ∧
    (argv = gs ∨ argv = gs ++ ["-C"]
     ∨ ∃ sub rest, argv = gs ++ sub :: rest ∧ Permitted b sub rest).

(** * Lemmas *)

Lemma one_of_true l s : one_of l s = true ↔ s ∈ l.
Proof. apply bool_decide_eq_true. Qed.

Lemma one_of_false l s : one_of l s = false ↔ s ∉ l.
Proof. apply bool_decide_eq_false. Qed.

#[local] Hint Rewrite one_of_true one_of_false : guard.

(** The tables of the verdict hold the words written out above. *)
Lemma same_words l1 l2 a :
  forallb (one_of l2) l1 && forallb (one_of l1) l2 = true → one_of l1 a = one_of l2 a.
Proof.
  rewrite andb_true_iff, !forallb_forall. intros [H1 H2]. apply bool_decide_ext.
  split; intros Ha%list_elem_of_In; apply one_of_true; auto.
Qed.

Lemma benign_table a : one_of BENIGN_GLOBALS a = one_of benign_globals a.
Proof. by apply same_words. Qed.
Lemma local_table a : one_of ALLOWED_LOCAL a = one_of local_commands a.
Proof. by apply same_words. Qed.
Lemma config_table a : one_of CONFIG_WRITE_FLAGS a = one_of config_writes a.
Proof. by apply same_words. Qed.
Lemma branch_table a : one_of BRANCH_MUTATION a = one_of branch_writes a.
Proof. by apply same_words. Qed.
Lemma branch_value_table a : one_of BRANCH_VALUE_FLAGS a = one_of branch_values a.
Proof. by apply same_words. Qed.
Lemma checkout_table a : one_of CHECKOUT_CREATE a = one_of checkout_creates a.
Proof. by apply same_words. Qed.
Lemma switch_table a : one_of SWITCH_CREATE a = one_of switch_creates a.
Proof. by apply same_words. Qed.
Lemma tag_table a : one_of TAG_CREATE a = one_of tag_writes a.
Proof. by apply same_words. Qed.
Lemma tag_list_table a : one_of TAG_LIST_FLAGS a = one_of tag_lists a.
Proof. by apply same_words. Qed.

#[local] Hint Rewrite benign_table local_table config_table branch_table branch_value_table
  checkout_table switch_table tag_table tag_list_table : tables.

Lemma is_option_dashed a : is_option a = true ↔ dashed a.
Proof.
  unfold is_option, dashed. rewrite starts_with_spec. destruct a as [|c a]; cbn.
  - split; [by intros []|done].
  - split; [by intros [t [= -> _]]|intros [= ->]; by exists a].
Qed.

Lemma is_option_false a : is_option a = false ↔ ¬ dashed a.
Proof. rewrite <-is_option_dashed. by destruct (is_option a). Qed.

Lemma str_contains_char c s : str_contains (String c "") s = true ↔ ∃ i, String.get i s = Some c.
Proof.
  induction s as [|a s IH]; cbn [str_contains]; rewrite orb_true_iff, starts_with_spec.
  - split; [by intros [[]|]|by intros [[]]].
  - rewrite IH. split.
    + intros [[t [= -> _]]|[i Hi]]; [by exists 0|by exists (S i)].
    + intros [[|i] Hi]; [injection Hi as ->; left; by exists s|right; by exists i].
Qed.

Lemma skips_gate_spec a : skips_gate a = true ↔ skips_audit a.
Proof.
  unfold skips_gate, skips_audit.
  rewrite orb_true_iff, bool_decide_eq_true, !andb_true_iff, is_option_dashed, str_contains_char.
  assert (dashed a → (negb (starts_with a "--") = true ↔ String.get 1 a ≠ Some "-"%char)) as Hdd.
  { unfold dashed. rewrite negb_true_iff, <-not_true_iff_false, starts_with_spec. intros Hd.
    apply not_iff_compat. destruct a as [|x [|y a]]; cbn in *; [done| |].
    - split; [by intros []|done].
    - injection Hd as ->. split; [by intros [t [= -> _]]|intros [= ->]; by exists a]. }
  naive_solver.
Qed.

Lemma positionals_cons a args :
  positionals (a :: args) = if is_option a then positionals args else a :: positionals args.
Proof.
  unfold positionals. rewrite filter_cons. pose proof (is_option_dashed a).
  destruct (is_option a), (decide (¬ dashed a)); naive_solver.
Qed.

Lemma operands_cons a args :
  operands (a :: args) = if is_positional a then a :: operands args else operands args.
Proof.
  unfold operands, is_positional. rewrite filter_cons. pose proof (is_option_dashed a).
  case_bool_decide; destruct (is_option a), (decide (¬ dashed a ∨ a = "-")); naive_solver.
Qed.

Lemma apart l1 l2 : forallb (λ x, negb (one_of l2 x)) l1 = true → ∀ x, x ∈ l1 → x ∉ l2.
Proof.
  intros H x Hx. rewrite forallb_forall in H. apply list_elem_of_In, H in Hx.
  by rewrite negb_true_iff, one_of_false in Hx.
Qed.

Lemma none_of_cons (l : list string) a args :
  (∀ f, f ∈ l → f ∉ a :: args) ↔ a ∉ l ∧ ∀ f, f ∈ l → f ∉ args.
Proof. set_solver. Qed.

Lemma config_positionals_spec args n :
  config_positionals args = Some n ↔
  (∀ f, f ∈ config_writes → f ∉ args) ∧ n = length (positionals args).
Proof.
  revert n. induction args as [|a args IH]; intros n; simpl; [set_solver|].
  rewrite none_of_cons, positionals_cons. autorewrite with tables.
  destruct (one_of _ a) eqn:Ha; autorewrite with guard in Ha; [naive_solver|].
  rewrite fmap_Some. setoid_rewrite IH.
  destruct (is_option a); simpl; naive_solver.
Qed.

Lemma branch_decision_spec args c : branch_decision args c = Allow ↔ Lists args.
Proof.
  split.
  - remember (length args) as n eqn:Hn. revert args Hn.
    induction (lt_wf n) as [n _ IH]; intros [|a args] ->; [constructor|].
    simpl. autorewrite with tables.
    destruct (one_of _ a) eqn:Hm; [done|]. destruct (one_of branch_values a) eqn:Hv.
    all: autorewrite with guard in Hm, Hv.
    + destruct args as [|v args]; intros H; [by constructor|].
      constructor; [done|]. apply (IH (length args)); [simpl; lia|done|done].
    + destruct (is_option a) eqn:Ho; [|done]. intros H.
      constructor; try done; [by apply is_option_dashed|].
      apply (IH (length args)); [simpl; lia|done|done].
  - induction 1 as [|f v l Hf Hl IH|f Hf|f l Ho%is_option_dashed Hm Hv Hl IH]; simpl;
      autorewrite with tables; [done|..].
    + rewrite (proj2 (one_of_true _ _) Hf). rewrite (proj2 (one_of_false _ _)); [done|].
      by apply (apart branch_values).
    + rewrite (proj2 (one_of_true _ _) Hf). rewrite (proj2 (one_of_false _ _)); [done|].
      by apply (apart branch_values).
    + by rewrite (proj2 (one_of_false _ _) Hm), (proj2 (one_of_false _ _) Hv), Ho.
Qed.

Lemma checkout_scan_open args ps :
  checkout_scan args = Some (false, ps) ↔
  "--" ∉ args ∧ (∀ f, f ∈ checkout_creates → f ∉ args) ∧ ps = operands args.
Proof.
  revert ps. induction args as [|a args IH]; intros ps; simpl; [set_solver|].
  rewrite none_of_cons, not_elem_of_cons, operands_cons. autorewrite with tables.
  case_bool_decide as Hd; [naive_solver|].
  destruct (one_of _ a) eqn:Ha; autorewrite with guard in Ha; [naive_solver|].
  rewrite fmap_Some. split.
  - intros ([dd qs]&Hs&[= <- ->]). apply IH in Hs as (?&?&->).
    destruct (is_positional a); naive_solver.
  - intros ([? ?]&[? ?]&->). eexists (false, _).
    split; [by apply IH|]. by destruct (is_positional a).
Qed.

Lemma checkout_scan_closed args :
  (∃ ps, checkout_scan args = Some (true, ps)) ↔
  ∃ before after, args = before ++ "--" :: after ∧ "--" ∉ before
    ∧ ∀ f, f ∈ checkout_creates → f ∉ before.
Proof.
  induction args as [|a args IH]; simpl.
  { split; [by intros []|]. by intros ([]&?&?&_). }
  case_bool_decide as Hd; [subst; split; [|by eauto]|].
  { intros _. exists [], args. set_solver. }
  autorewrite with tables. transitivity (a ∉ checkout_creates ∧ ∃ ps, checkout_scan args = Some (true, ps)).
  - destruct (one_of _ a) eqn:Ha; autorewrite with guard in Ha; [naive_solver|].
    setoid_rewrite fmap_Some. split; [by intros (?&[]&?&[= <- _]); eauto|].
    intros (_&ps&Hs). by eexists _, (true, ps).
  - rewrite IH. split.
    + intros (Ha&before&after&->&Hb&Hc). exists (a :: before), after.
      rewrite not_elem_of_cons, none_of_cons. naive_solver.
    + intros ([|b before]&after&Heq&Hb&Hc); [naive_solver|].
      injection Heq as -> ->. rewrite not_elem_of_cons in Hb. rewrite none_of_cons in Hc.
      naive_solver.
Qed.

Lemma switch_scan_spec args ps :
  switch_scan args = Some ps ↔
  (∀ f, f ∈ switch_creates → f ∉ args) ∧ ps = operands args.
Proof.
  revert ps. induction args as [|a args IH]; intros ps; simpl; [set_solver|].
  rewrite none_of_cons, operands_cons. autorewrite with tables.
  destruct (one_of _ a) eqn:Ha; autorewrite with guard in Ha; [naive_solver|].
  rewrite fmap_Some. setoid_rewrite IH. destruct (is_positional a); naive_solver.
Qed.

Lemma tag_scan_spec args lf p :
  tag_scan args = Some (lf, p) →
  (∀ f, f ∈ tag_writes → f ∉ args)
  ∧ lf = existsb (one_of tag_lists) args
  ∧ (lf = false → (p = false ↔ positionals args = [])).
Proof.
  revert lf p. induction args as [|a args IH]; intros lf p; simpl.
  { intros [= <- <-]. set_solver. }
  rewrite none_of_cons, positionals_cons. autorewrite with tables.
  destruct (one_of tag_writes a) eqn:Ha; autorewrite with guard in Ha; [done|].
  intros ([lf' p']&Hs&Heq)%fmap_Some. destruct (IH _ _ Hs) as (Hc&->&Hp).
  destruct (one_of tag_lists a); [injection Heq as -> ->; by split_and!|].
  destruct (is_option a); simpl in *; injection Heq as -> ->; by split_and!.
Qed.

Lemma tag_scan_total args :
  (∀ f, f ∈ tag_writes → f ∉ args) → is_Some (tag_scan args).
Proof.
  induction args as [|a args IH]; [by eexists|]. rewrite none_of_cons. intros [Ha Hc].
  simpl. autorewrite with tables. rewrite (proj2 (one_of_false _ _) Ha). by apply fmap_is_Some, IH.
Qed.

Lemma tag_decision_spec args c :
  tag_decision args c = Allow ↔
  (∀ f, f ∈ tag_writes → f ∉ args)
  ∧ ((∃ f, f ∈ args ∧ f ∈ tag_lists) ∨ positionals args = []).
Proof.
  unfold tag_decision. destruct (tag_scan args) as [[lf p]|] eqn:Hs.
  - destruct (tag_scan_spec _ _ _ Hs) as (Hc&Hl&Hp).
    assert ((∃ f, f ∈ args ∧ f ∈ tag_lists) ↔ lf = true) as ->.
    { rewrite Hl, existsb_exists. setoid_rewrite list_elem_of_In at 1.
      by setoid_rewrite one_of_true. }
    clear Hl. destruct lf, p; simpl; naive_solver.
  - split; [done|]. intros [Hc _]. apply tag_scan_total in Hc as [? ?]. congruence.
Qed.

Lemma commit_decision_spec rest c :
  commit_decision rest c = Allow ↔
  ∃ before after, rest = before ++ after ∧ (∀ t, t ∈ before → ¬ skips_audit t)
    ∧ "--" ∉ before ∧ (after = [] ∨ head after = Some "--").
Proof.
  induction rest as [|t rest IH]; simpl.
  { split; [|done]. intros _. exists [], []. set_solver. }
  case_bool_decide as Hd.
  { split; [|done]. intros _. exists [], (t :: rest). subst. set_solver. }
  destruct (skips_gate t) eqn:Ht; rewrite ?IH; (split; [try done|]).
  - intros ([|? b]&after&Heq&Hb&_&Ha); [naive_solver|].
    injection Heq as <- _. apply skips_gate_spec in Ht. destruct (Hb t); [by constructor|done].
  - intros (b&after&->&Hb&Hn&Ha). exists (t :: b), after.
    split; [done|]. rewrite not_elem_of_cons. split_and!; [|done..].
    intros u [->|Hu]%elem_of_cons; [|by auto]. by rewrite <-skips_gate_spec, Ht.
  - intros ([|? b]&after&Heq&Hb&Hn&Ha); [naive_solver|].
    injection Heq as <- ->. exists b, after. rewrite not_elem_of_cons in Hn.
    split_and!; [done| |naive_solver|done]. intros u Hu. apply Hb. by constructor.
Qed.

Lemma checkout_decision_spec args b c :
  checkout_decision args b c = Allow ↔ Permitted b "checkout" args.
Proof.
  unfold checkout_decision. split.
  - destruct (checkout_scan args) as [[[] ps]|] eqn:Hs; [|..|done].
    + intros _. destruct (proj1 (checkout_scan_closed args)) as (x&y&->&?&?); [by eauto|].
      by constructor.
    + apply checkout_scan_open in Hs as (?&?&->). intros Hif. apply P_checkout; [done..|].
      intros p Hp. case_match eqn:Hb; [|done]. apply orb_true_iff in Hb as [Hb|Hb].
      { apply bool_decide_eq_true in Hb. rewrite Hb in Hp. by apply elem_of_nil in Hp. }
      rewrite forallb_forall in Hb. apply list_elem_of_In, Hb, orb_true_iff in Hp.
      by rewrite !bool_decide_eq_true in Hp.
  - inversion 1 as [? ? Hl| | | |before after Hd Hc|? Hd Hc Hp| | |]; subst.
    + by apply (apart local_commands ["checkout"]) in Hl; [set_solver|].
    + destruct (proj2 (checkout_scan_closed (before ++ "--" :: after))) as [ps ->]; eauto 10.
    + rewrite (proj2 (checkout_scan_open args (operands args))) by done.
      enough (forallb (λ p, bool_decide (p = ".") || bool_decide (p = b)) (operands args) = true)
        as -> by by rewrite orb_true_r.
      apply forallb_forall. intros p Hin. apply list_elem_of_In, Hp in Hin.
      by rewrite orb_true_iff, !bool_decide_eq_true.
Qed.

Lemma switch_decision_spec args b c :
  switch_decision args b c = Allow ↔
  (∀ f, f ∈ switch_creates → f ∉ args) ∧ ∀ p, p ∈ operands args → p = b.
Proof.
  unfold switch_decision. destruct (switch_scan args) as [ps|] eqn:Hs.
  - apply switch_scan_spec in Hs as [Hc ->].
    transitivity (∀ p, p ∈ operands args → p = b); [|naive_solver]. split.
    + case_match eqn:Hb; [intros _|done]. apply orb_true_iff in Hb as [Hb|Hb].
      { apply bool_decide_eq_true in Hb. rewrite Hb. by intros p ?%elem_of_nil. }
      rewrite forallb_forall in Hb. intros p Hp. apply list_elem_of_In, Hb in Hp.
      by apply bool_decide_eq_true in Hp.
    + intros Hp. enough (forallb (λ p, bool_decide (p = b)) (operands args) = true)
        as -> by by rewrite orb_true_r.
      apply forallb_forall. intros p Hin. apply list_elem_of_In, Hp in Hin.
      by apply bool_decide_eq_true.
  - split; [done|]. intros [Hc _].
    by rewrite (proj2 (switch_scan_spec _ _) (conj Hc eq_refl)) in Hs.
Qed.

Lemma config_decision_spec args c :
  config_decision args c = Allow ↔
  (∀ f, f ∈ config_writes → f ∉ args) ∧ length (positionals args) ≤ 1.
Proof.
  unfold config_decision. destruct (config_positionals args) as [n|] eqn:Hn.
  - apply config_positionals_spec in Hn as [Hc ->].
    destruct (Nat.leb_spec 2 (length (positionals args))); split; try done; [lia|].
    intros _. split; [done|lia].
  - split; [done|]. intros [Hc _].
    by rewrite (proj2 (config_positionals_spec _ _) (conj Hc eq_refl)) in Hn.
Qed.

Lemma local_allowed sub rest b c :
  sub ∈ local_commands → subcommand_decision sub rest b c = Allow.
Proof.
  revert sub. apply Forall_forall. unfold local_commands.
  repeat (constructor; [reflexivity|]). constructor.
Qed.

(** The subcommands with a decision of their own are in no deny set. *)
Lemma own_decisions rest b c :
  subcommand_decision "commit" rest b c = commit_decision rest c
  ∧ subcommand_decision "config" rest b c = config_decision rest c
  ∧ subcommand_decision "branch" rest b c = branch_decision rest c
  ∧ subcommand_decision "checkout" rest b c = checkout_decision rest b c
  ∧ subcommand_decision "switch" rest b c = switch_decision rest b c
  ∧ subcommand_decision "tag" rest b c = tag_decision rest c
  ∧ subcommand_decision "reflog" rest b c = reflog_decision rest c.
Proof. by split_and!. Qed.

Lemma reflog_decision_spec args c :
  reflog_decision args c = Allow ↔ head args ≠ Some "expire" ∧ head args ≠ Some "delete".
Proof.
  destruct args as [|a args]; simpl; [done|]. case_match eqn:Hb; split; try done.
  - rewrite orb_true_iff, !bool_decide_eq_true in Hb. naive_solver.
  - rewrite orb_false_iff, !bool_decide_eq_false in Hb. naive_solver.
Qed.

Lemma subcommand_decision_spec sub rest b c :
  subcommand_decision sub rest b c = Allow ↔ Permitted b sub rest.
Proof.
  destruct (own_decisions rest b c) as (Hcm&Hcf&Hbr&Hco&Hsw&Htg&Hrl). split.
  - unfold subcommand_decision. do 3 (case_match; [done|]).
    repeat (case_bool_decide; [subst sub|]).
    + intros (x&y&->&?&?&?)%commit_decision_spec. by constructor.
    + intros []%config_decision_spec. by constructor.
    + intros ?%branch_decision_spec. by constructor.
    + apply checkout_decision_spec.
    + intros []%switch_decision_spec. by constructor.
    + intros []%tag_decision_spec. by constructor.
    + intros []%reflog_decision_spec. by constructor.
    + case_match eqn:Ha; [|done]. intros _. constructor. apply one_of_true. by rewrite <-local_table.
  - intros Hp. pose proof Hp as Hp'. destruct Hp as [| | | |x y Hd Hc|args Hd Hc Ho| | |].
    + by apply local_allowed.
    + rewrite Hcm. apply commit_decision_spec. eauto 10.
    + rewrite Hcf. by apply config_decision_spec.
    + rewrite Hbr. by apply branch_decision_spec.
    + rewrite Hco. by apply checkout_decision_spec.
    + rewrite Hco. by apply checkout_decision_spec.
    + rewrite Hsw. by apply switch_decision_spec.
    + rewrite Htg. by apply tag_decision_spec.
    + rewrite Hrl. by apply reflog_decision_spec.
Qed.

(** A benign option is one, is not refused, and takes no value. *)
Lemma benign_read g :
  g ∈ benign_globals →
  is_option g = true ∧ is_denied_global g = false ∧ global_takes_value g = false
  ∧ is_benign_global g = true.
Proof.
  revert g. apply Forall_forall. unfold benign_globals.
  repeat (constructor; [by split_and!|]). constructor.
Qed.

Lemma skip_globals_app gs r : Globals gs → skip_globals (gs ++ r) = skip_globals r.
Proof.
  induction 1 as [|g gs Hg _ IH|d gs _ IH]; simpl; [done| |done].
  by apply benign_read in Hg as (-> & -> & -> & ->).
Qed.

Lemma leading_subcommand_app gs r :
  Globals gs → leading_subcommand (gs ++ r) = leading_subcommand r.
Proof.
  induction 1 as [|g gs Hg _ IH|d gs _ IH]; simpl; [done| |done].
  by apply benign_read in Hg as (-> & _ & -> & _).
Qed.

Lemma permitted_not_option b sub rest : Permitted b sub rest → is_option sub = false.
Proof.
  destruct 1 as [sub rest Hl| | | | | | | |]; try reflexivity. revert sub Hl.
  apply Forall_forall. unfold local_commands. repeat (constructor; [reflexivity|]). constructor.
Qed.

Lemma skip_globals_spec argv r :
  skip_globals argv = Some r →
  ∃ gs, Globals gs ∧ ((argv = gs ++ r ∧ (∀ t, head r = Some t → is_option t = false))
                      ∨ (r = [] ∧ argv = gs ++ ["-C"])).
Proof.
  remember (length argv) as n eqn:Hn. revert argv Hn.
  induction (lt_wf n) as [n _ IH]; intros [|t argv] -> H.
  { injection H as <-. exists []. split; [constructor|]. by left. }
  simpl in H. destruct (is_option t) eqn:Ho; simpl in H.
  2:{ injection H as <-. exists []. split; [constructor|]. left. naive_solver. }
  destruct (is_denied_global t) eqn:Hd; [done|].
  unfold global_takes_value in H. case_bool_decide as Ht; [subst t|].
  - destruct argv as [|d argv].
    { injection H as <-. exists []. split; [constructor|]. by right. }
    destruct (IH (length argv) ltac:(simpl; lia) argv eq_refl H) as (gs&Hg&Hr).
    exists ("-C" :: d :: gs). split; [by constructor|].
    destruct Hr as [[-> ?]|[-> ->]]; [left|right]; done.
  - destruct (is_benign_global t) eqn:Hb; [|done].
    destruct (IH (length argv) ltac:(simpl; lia) argv eq_refl H) as (gs&Hg&Hr).
    exists (t :: gs). unfold is_benign_global in Hb. rewrite benign_table, one_of_true in Hb.
    split; [by constructor|].
    destruct Hr as [[-> ?]|[-> ->]]; [left|right]; done.
Qed.

Lemma decision_allowed argv assigned :
  git_command_decision argv assigned = Allow ↔ Allowed assigned argv.
Proof.
  unfold git_command_decision, Allowed. split.
  - destruct (skip_globals argv) as [r|] eqn:Hs; [|done].
    apply skip_globals_spec in Hs as (gs&Hg&[[-> Hr]|[-> ->]]); [|by eauto].
    destruct r as [|sub rest]; intros H; exists gs; [rewrite app_nil_r; by eauto|].
    apply subcommand_decision_spec in H. eauto 10.
  - intros (gs&Hg&[->|[->|(sub&rest&->&Hp)]]).
    + rewrite <-(app_nil_r gs), skip_globals_app by done. done.
    + by rewrite skip_globals_app.
    + rewrite skip_globals_app by done. simpl. rewrite (permitted_not_option _ _ _ Hp).
      by apply subcommand_decision_spec.
Qed.


(** Forms of the refused operations that the verdict does not recognise. *)
Lemma unrecognised_forms b :
  Forall (λ argv, git_command_decision argv b = Allow)
    [["checkout"; "-bnew"]; ["checkout"; "--orphan=new"]; ["checkout"; "main"; "--"];
     ["switch"; "-cnew"]; ["switch"; "--create=new"]; ["stash"; "branch"; "new"];
     ["branch"; "--set-upstream-to=origin/x"]; ["commit"; "--no-verif"]; ["config"; "edit"]].
Proof. repeat (constructor; [reflexivity|]). constructor. Qed.

Section wrapper_laws.
Context `{GuardHost}.

Lemma required_Some env name v :
  required env name = Some v → env !! name = Some v ∧ trim v ≠ "".
Proof.
  unfold required. destruct (env !! name) as [u|]; [|done]. case_match eqn:Hu; [done|].
  intros [= <-]. split; [done|]. by apply bool_decide_eq_false in Hu.
Qed.

(** The gate passes only after the audit program succeeded with its hooks on. *)
Lemma gate_cases env events stop :
  run_commit_gate env = (events, stop) →
  (∀ p args, Execed p args ∉ events)
  ∧ (stop = Some DENY_EXIT_CODE
     ∨ stop = None ∧ ∃ p args env', events = [Ran p args env'] ∧ status p args env' = Ok true
         ∧ env !! "JERYU_JANKURAI_BIN" = Some p ∧ head args = Some "diff-audit"
         ∧ env' !! "JANKURAI_SKIP_HOOKS" = Some "0").
Proof.
  unfold run_commit_gate. destruct (required env "JERYU_JANKURAI_BIN") as [p|] eqn:Hp.
  2:{ intros [= <- <-]. split; [|by left]. intros ? ?. by rewrite list_elem_of_singleton. }
  apply required_Some in Hp as [Hp _]. destruct (status _ _ _) as [[]|err] eqn:Hs.
  all: intros [= <- <-]; split; [intros ? ?; rewrite ?elem_of_cons, elem_of_nil; naive_solver|].
  - right. split; [done|]. eexists _, _, _. rewrite lookup_insert_eq. by split_and!.
  - by left.
  - by left.
Qed.

Lemma exec_cases env argv events o :
  exec_real_git env argv = (events, o) →
  (o = Exited 2 ∧ ∀ p args, Execed p args ∉ events)
  ∨ ∃ p, head events = Some (Execed p argv) ∧ (o = Replaced ∨ o = Exited 127)
      ∧ env !! "JERYU_REAL_GIT" = Some p
      ∧ ∀ p' args, Execed p' args ∈ events → p' = p ∧ args = argv.
Proof.
  unfold exec_real_git. destruct (required env "JERYU_REAL_GIT") as [p|] eqn:Hp.
  2:{ intros [= <- <-]. left. split; [done|]. intros ? ?. by rewrite list_elem_of_singleton. }
  apply required_Some in Hp as [Hp _].
  case_match; intros [= <- <-]; right; exists p; (split_and!; [done|by auto|done|]);
    intros ? ?; rewrite ?elem_of_cons, elem_of_nil; naive_solver.
Qed.

(** Neither variable of the wrapper has a default. *)
Lemma no_default env argv b :
  required env "JERYU_BRANCH" = Some b → git_command_decision argv b = Allow →
  leading_subcommand argv ≠ Some "commit" → env !! "JERYU_REAL_GIT" = None →
  (main env argv).2 = Exited 2.
Proof.
  intros Hb Hd Hc Hgit. unfold main. rewrite Hb, Hd, bool_decide_eq_false_2 by done.
  unfold exec_real_git, required. by rewrite Hgit.
Qed.

End wrapper_laws.

(** * Samples *)

(** An audit program that finds nothing, and a git that can be exec'd. *)
#[local] Instance clean_host : GuardHost :=
  {| status := λ _ _ _, Ok true; exec_error := λ _ _, None |}.

Definition sample_env : gmap string string :=
  {["JERYU_BRANCH" := "agents/a"; "JERYU_REAL_GIT" := "/usr/bin/git";
    "JERYU_JANKURAI_BIN" := "/bin/jankurai"]}.


(** The audit refused: the commit is not run. *)
Lemma failed_audit_blocks :
  (@main {| status := λ _ _ _, Ok false; exec_error := λ _ _, None |}
     sample_env ["commit"]).2 = Exited DENY_EXIT_CODE.
Proof. reflexivity. Qed.
