(* ===== verification/BugTracker.v ===== *)
(** BugTracker: bug reports, their intake, their triage and the in-memory store.

    jeryu-bugtracker (jeryu-core/crates/jeryu-bugtracker/src): domain/enums.rs, types.rs,
    records.rs and ops.rs, store/memory.rs and render.rs. Every operation holds the one lock of
    the store and is a step; it takes the instants it reads. Then the store through any calls:
    every bug was validated and can be shown with its whole history, a closed bug stays closed,
    a key submits once, and the list of ready bugs is exact and ranked. *)

From Stdlib Require Import ZArith Ascii.
From S2P Require Import Prelude Text Clock Floats.

(** * Enumerations (domain/enums.rs) *)

Inductive BugSeverity : Type := S0 | S1 | S2 | S3 | S4.
Inductive BugPriority : Type := P0 | P1 | P2 | P3 | P4.

Inductive BugStatus : Type :=
  | NeedsTriage | NeedsInfo | Accepted | Ready | InProgress | Blocked | FixProposed | Reviewing
  | Verifying | Done | Duplicate | Invalid | CannotReproduce | WontDo.

Inductive BugSort : Type :=
  | ByRank | BySeverity | ByPriority | ByDifficulty | ByReady | ByUpdated | ByAttempts.

Inductive AttemptStatus : Type :=
  | AT_Pending | AT_Started | AT_Failed | AT_FixProposed | AT_Verified | AT_Abandoned.

#[export] Instance BugStatus_eq_dec : EqDecision BugStatus.
Proof. solve_decision. Defined.

Definition severity_label (s : BugSeverity) : string :=
  match s with S0 => "S0" | S1 => "S1" | S2 => "S2" | S3 => "S3" | S4 => "S4" end.

Definition priority_label (p : BugPriority) : string :=
  match p with P0 => "P0" | P1 => "P1" | P2 => "P2" | P3 => "P3" | P4 => "P4" end.

Definition to_ascii_uppercase (c : ascii) : ascii :=
  if is_ascii_lower c then ascii_of_N (code c - 32) else c.

Definition uppercase (s : string) : string := string_map to_ascii_uppercase s.

(** A text among the names of some values, or an error that names it. *)
Definition parse_among {A} (names : list (string * A)) (what input : string) : result A string :=
  match find_first (λ x, String.eqb x.1 input) names with
  | Some x => Ok x.2
  | None => Err ("unknown " +:+ what +:+ " '" +:+ input +:+ "'")
  end.

Definition named {A} (name : A → string) (l : list A) : list (string * A) :=
  map (λ x, (name x, x)) l.

Definition severities : list BugSeverity := [S0; S1; S2; S3; S4].
Definition priorities : list BugPriority := [P0; P1; P2; P3; P4].

Definition severity_parse (input : string) : result BugSeverity string :=
  parse_among (named severity_label severities) "bug severity" (uppercase input).

Definition priority_parse (input : string) : result BugPriority string :=
  parse_among (named priority_label priorities) "bug priority" (uppercase input).

Definition status_as_str (s : BugStatus) : string :=
  match s with
  | NeedsTriage => "needs_triage" | NeedsInfo => "needs_info" | Accepted => "accepted"
  | Ready => "ready" | InProgress => "in_progress" | Blocked => "blocked"
  | FixProposed => "fix_proposed" | Reviewing => "reviewing" | Verifying => "verifying"
  | Done => "done" | Duplicate => "duplicate" | Invalid => "invalid"
  | CannotReproduce => "cannot_reproduce" | WontDo => "wont_do"
  end.

Definition is_terminal (s : BugStatus) : bool :=
  match s with Done | Duplicate | Invalid | CannotReproduce | WontDo => true | _ => false end.

Definition statuses : list BugStatus :=
  [NeedsTriage; NeedsInfo; Accepted; Ready; InProgress; Blocked; FixProposed; Reviewing; Verifying;
   Done; Duplicate; Invalid; CannotReproduce; WontDo].

Definition status_parse (input : string) : result BugStatus string :=
  parse_among (named status_as_str statuses) "bug status" input.

Definition sort_names : list (string * BugSort) :=
  [("rank", ByRank); ("severity", BySeverity); ("priority", ByPriority);
   ("difficulty", ByDifficulty); ("ready", ByReady); ("updated", ByUpdated);
   ("attempts", ByAttempts)].

Definition sort_parse (input : string) : result BugSort string :=
  parse_among sort_names "bug sort" input.

Definition attempt_as_str (s : AttemptStatus) : string :=
  match s with
  | AT_Pending => "pending" | AT_Started => "started" | AT_Failed => "failed"
  | AT_FixProposed => "fix_proposed" | AT_Verified => "verified" | AT_Abandoned => "abandoned"
  end.

Definition attempt_statuses : list AttemptStatus :=
  [AT_Pending; AT_Started; AT_Failed; AT_FixProposed; AT_Verified; AT_Abandoned].

Definition attempt_parse (input : string) : result AttemptStatus string :=
  parse_among (named attempt_as_str attempt_statuses) "attempt status" input.

(** * Reports and records (domain/types.rs, records.rs) *)

Record BugEvidenceInput : Type := {
  kind : string; summary : string; path : option string; url : option string;
  digest : option string; redacted : bool
}.

Record CanonicalBugReport : Type := {
  report_target : string; report_source : string; report_title : string;
  report_component : option string; current_behavior : string; expected_behavior : string;
  environment : string; frequency : string; report_impact : string; security_privacy : string;
  no_secrets_confirmed : bool; reproduction_steps : list string;
  evidence : list BugEvidenceInput; acceptance_criteria : list string;
  report_severity : BugSeverity; report_priority : BugPriority; report_difficulty : N
}.

Definition default_difficulty : N := 3.

Record BugProjectInput : Type := {
  in_alias : string; in_repo_root : string; in_repo_slug : string; in_provider_kind : string;
  in_provider_project : option string; in_default_branch : string
}.

Record BugProject : Type := {
  alias : string; repo_root : string; repo_slug : string; provider_kind : string;
  provider_project_id : option string; default_branch : string;
  project_created_at : string; project_updated_at : string
}.

Record BugRecord : Type := {
  id : string; title : string; source_project : string; target_project : string;
  component : option string; status : BugStatus; severity : BugSeverity; priority : BugPriority;
  difficulty : N; impact : string; security : bool; owner : option string;
  body : CanonicalBugReport; created_at : string; updated_at : string;
  attempt_count : Z; failed_attempt_count : Z
}.

(** The payload of an event, by its keys. *)
Inductive Payload : Type :=
  | PL_Submitted (status : string)
  | PL_Triaged (status severity priority : string) (component owner : option string)
  | PL_Attempt (status : string) (attempt_id : Z).

Record BugEvent : Type := {
  event_id : Z; event_bug : string; event_type : string; event_actor : string;
  payload : Payload; event_created_at : string
}.

Record BugAttemptInput : Type := {
  in_agent : option string; in_status_ : AttemptStatus; in_sandbox_path : option string;
  in_branch : option string; in_base_sha : option string; in_head_sha : option string;
  in_pr_url : option string; in_ci_evidence : option string; in_notes : option string
}.

Record BugAttempt : Type := {
  attempt_id : Z; attempt_bug : string; agent : option string; attempt_status : AttemptStatus;
  sandbox_path : option string; branch : option string; base_sha : option string;
  head_sha : option string; pr_url : option string; ci_evidence : option string;
  notes : option string; attempt_created_at : string; attempt_updated_at : string
}.

Record BugDetail : Type := {
  bug : BugRecord; events_of_bug : list BugEvent; attempts_of_bug : list BugAttempt
}.

Definition require_text (field value : string) : result unit string :=
  if str_is_empty (trim value) then Err (field +:+ " is required") else Ok tt.

Definition validate (r : CanonicalBugReport) : result BugStatus string :=
  (let? _ := require_text "target_project" (report_target r) in
   let? _ := require_text "source_project" (report_source r) in
   let? _ := require_text "title" (report_title r) in
   let? _ := require_text "current_behavior" (current_behavior r) in
   let? _ := require_text "expected_behavior" (expected_behavior r) in
   let? _ := require_text "environment" (environment r) in
   let? _ := require_text "frequency" (frequency r) in
   let? _ := require_text "impact" (report_impact r) in
   let? _ := require_text "security_privacy" (security_privacy r) in
   if negb (no_secrets_confirmed r)
   then Err "no_secrets_confirmed must be true before a bug can be stored"
   else if negb ((1 <=? report_difficulty r)%N && (report_difficulty r <=? 5)%N)
   then Err "difficulty must be between 1 and 5"
   else match reproduction_steps r, evidence r with
        | [], [] => Ok NeedsInfo
        | _, _ => Ok NeedsTriage
        end)%result.

Definition is_security_sensitive (r : CanonicalBugReport) : bool :=
  negb (existsb (String.eqb (lowercase (trim (security_privacy r))))
          ["no"; "none"; "no security impact"; "no privacy impact"]).

(** * Triage (domain/ops.rs) *)

Definition slug_char (c : ascii) : ascii :=
  if is_ascii_alphanumeric c then to_ascii_lowercase c else "-"%char.

Definition slug (title : string) : string :=
  join "-" (take 6 (filter (λ part, part ≠ "") (split_on "-"%char (string_map slug_char title)))).

Definition branch_name (bug_id title : string) : string :=
  "bug/" +:+ bug_id +:+ "-" +:+ (if str_is_empty (slug title) then "fix" else slug title).

Definition validate_transition (from to : BugStatus) : result unit string :=
  if is_terminal from && negb (bool_decide (from = to))
  then Err ("terminal bug status " +:+ status_as_str from +:+ " cannot transition to "
            +:+ status_as_str to)
  else Ok tt.

Definition severity_rank (s : BugSeverity) : Z :=
  match s with S0 => 0 | S1 => 1 | S2 => 2 | S3 => 3 | S4 => 4 end.

Definition priority_rank (p : BugPriority) : Z :=
  match p with P0 => 0 | P1 => 1 | P2 => 2 | P3 => 3 | P4 => 4 end.

Definition ready_rank (s : BugStatus) : Z :=
  match s with
  | Ready => 0
  | Accepted | NeedsTriage => 1
  | Blocked | NeedsInfo => 3
  | s => if is_terminal s then 5 else 2
  end.

(** The numbers of the key, compared from the left, and the text after them. *)
Definition ranking_key (b : BugRecord) : list Z * string :=
  ([severity_rank (severity b); priority_rank (priority b); ready_rank (status b);
    Z.of_N (difficulty b); (- failed_attempt_count b)%Z], updated_at b).

Fixpoint numbers_leb (k l : list Z) (rest : bool) : bool :=
  match k, l with
  | x :: k, y :: l => (x <? y)%Z || (x =? y)%Z && numbers_leb k l rest
  | _, _ => rest
  end.

Definition key_leb (k l : list Z * string) : bool := numbers_leb k.1 l.1 (String.leb k.2 l.2).

Definition sort_leb (sort : BugSort) (a b : BugRecord) : bool :=
  match sort with
  | ByRank => key_leb (ranking_key a) (ranking_key b)
  | BySeverity => (severity_rank (severity a) <=? severity_rank (severity b))%Z
  | ByPriority => (priority_rank (priority a) <=? priority_rank (priority b))%Z
  | ByDifficulty => (difficulty a <=? difficulty b)%N
  | ByReady => bool_decide (status a = Ready) || negb (bool_decide (status b = Ready))
  | ByUpdated => String.leb (updated_at b) (updated_at a)
  | ByAttempts => (- attempt_count a <=? - attempt_count b)%Z
  end.

(** The sorts of the standard library are stable, and so is this one. *)
Definition sort_bugs (sort : BugSort) (l : list BugRecord) : list BugRecord :=
  isort (sort_leb sort) l.

(** * The store (store/memory.rs) *)

Record State : Type := {
  projects : gmap string BugProject; bugs : gmap string BugRecord; events : list BugEvent;
  attempts : list BugAttempt; idempotency : gmap string string;
  next_event_id : Z; next_attempt_id : Z
}.

Definition State_default : State :=
  {| projects := ∅; bugs := ∅; events := []; attempts := []; idempotency := ∅;
     next_event_id := 0; next_attempt_id := 0 |}.

Definition set_projects (v : gmap string BugProject) (s : State) : State :=
  {| projects := v; bugs := bugs s; events := events s; attempts := attempts s;
     idempotency := idempotency s; next_event_id := next_event_id s;
     next_attempt_id := next_attempt_id s |}.
Definition set_bugs (v : gmap string BugRecord) (s : State) : State :=
  {| projects := projects s; bugs := v; events := events s; attempts := attempts s;
     idempotency := idempotency s; next_event_id := next_event_id s;
     next_attempt_id := next_attempt_id s |}.
Definition set_idempotency (v : gmap string string) (s : State) : State :=
  {| projects := projects s; bugs := bugs s; events := events s; attempts := attempts s;
     idempotency := v; next_event_id := next_event_id s; next_attempt_id := next_attempt_id s |}.
Definition push_event (n : Z) (e : BugEvent) (s : State) : State :=
  {| projects := projects s; bugs := bugs s; events := events s ++ [e]; attempts := attempts s;
     idempotency := idempotency s; next_event_id := n; next_attempt_id := next_attempt_id s |}.
Definition push_attempt (n : Z) (a : BugAttempt) (s : State) : State :=
  {| projects := projects s; bugs := bugs s; events := events s; attempts := attempts s ++ [a];
     idempotency := idempotency s; next_event_id := next_event_id s; next_attempt_id := n |}.

(** [+= 1] on an [i64], as a release build wraps it. *)
Definition i64_succ (z : Z) : Z := if (z =? i64_max)%Z then (- i64_max - 1)%Z else (z + 1)%Z.

Section store.
Context `{C : Chrono}.

(** SHA-256 in hex, and [timestamp_nanos_opt]. *)
Context (sha_hex : string → string) (timestamp_nanos : DateTime → option Z).

Definition show_Z (z : Z) : string :=
  if (z <? 0)%Z then "-" +:+ show_N (Z.to_N (- z)) else show_N (Z.to_N z).

Definition nul : string := String "000"%char "".

Definition id_text (r : CanonicalBugReport) (now : DateTime) : string :=
  report_target r +:+ nul +:+ report_source r +:+ nul +:+ report_title r +:+ nul
  +:+ show_Z (default 0%Z (timestamp_nanos now)).

(** Five bytes of the digest are ten hex digits. *)
Definition generate_bug_id (r : CanonicalBugReport) (now : DateTime) : string :=
  "bug-" +:+ String.substring 0 10 (sha_hex (id_text r now)).

Definition append_event (s : State) (bug_id type actor : string) (p : Payload) (now : DateTime) :
    State :=
  let n := i64_succ (next_event_id s) in
  push_event n
    {| event_id := n; event_bug := bug_id; event_type := type; event_actor := actor;
       payload := p; event_created_at := to_rfc3339 now |} s.

Definition of_bug (k : string) (a : BugAttempt) : bool := String.eqb (attempt_bug a) k.

Definition failed (a : BugAttempt) : bool := String.eqb (attempt_as_str (attempt_status a)) "failed".

Definition attach_attempt_counts (s : State) (b : BugRecord) : BugRecord :=
  let mine := filter (λ a, of_bug (id b) a = true) (attempts s) in
  {| id := id b; title := title b; source_project := source_project b;
     target_project := target_project b; component := component b; status := status b;
     severity := severity b; priority := priority b; difficulty := difficulty b;
     impact := impact b; security := security b; owner := owner b; body := body b;
     created_at := created_at b; updated_at := updated_at b;
     attempt_count := Z.of_nat (length mine);
     failed_attempt_count := Z.of_nat (length (filter (λ a, failed a = true) mine)) |}.

Definition add_project (i : BugProjectInput) (now : DateTime) (s : State) : BugProject * State :=
  let p := {| alias := in_alias i; repo_root := in_repo_root i; repo_slug := in_repo_slug i;
              provider_kind := in_provider_kind i; provider_project_id := in_provider_project i;
              default_branch := in_default_branch i;
              project_created_at := match projects s !! in_alias i with
                                    | Some p => project_created_at p
                                    | None => to_rfc3339 now
                                    end;
              project_updated_at := to_rfc3339 now |} in
  (p, set_projects (<[in_alias i := p]> (projects s)) s).

Definition project (a : string) (s : State) : result BugProject string :=
  match projects s !! a with Some p => Ok p | None => Err ("load bug project " +:+ a) end.

Definition list_projects (s : State) : list BugProject := bt_values (projects s).

Definition new_bug (r : CanonicalBugReport) (k : string) (st : BugStatus) (now : DateTime) :
    BugRecord :=
  {| id := k; title := report_title r; source_project := report_source r;
     target_project := report_target r; component := report_component r; status := st;
     severity := report_severity r; priority := report_priority r;
     difficulty := report_difficulty r; impact := report_impact r;
     security := is_security_sensitive r; owner := None; body := r;
     created_at := to_rfc3339 now; updated_at := to_rfc3339 now;
     attempt_count := 0; failed_attempt_count := 0 |}.

(** The bug a key was used for. *)
Definition existing (key : option string) (s : State) : option BugRecord :=
  match key with
  | Some k => match idempotency s !! k with Some i => bugs s !! i | None => None end
  | None => None
  end.

(** What a submission stores; the event reads the clock again. *)
Definition store_bug (r : CanonicalBugReport) (key : option string) (actor : string) (st : BugStatus)
    (now now' : DateTime) (s : State) : BugRecord * State :=
  let k := generate_bug_id r now in
  let b := new_bug r k st now in
  let s := set_bugs (<[k := b]> (bugs s)) s in
  let s := match key with
           | Some key => set_idempotency (<[key := k]> (idempotency s)) s
           | None => s
           end in
  let s := append_event s k "submitted" actor (PL_Submitted (status_as_str st)) now' in
  (attach_attempt_counts s b, s).

Definition submit_bug (r : CanonicalBugReport) (key : option string) (actor : string)
    (now now' : DateTime) (s : State) : result BugRecord string * State :=
  match validate r with
  | Err e => (Err e, s)
  | Ok st =>
      match existing key s with
      | Some b => (Ok (attach_attempt_counts s b), s)
      | None => let (b, s') := store_bug r key actor st now now' s in (Ok b, s')
      end
  end.

Definition in_project (p : option string) (b : BugRecord) : bool :=
  match p with
  | Some p => if negb (String.eqb p "all") then String.eqb (target_project b) p else true
  | None => true
  end.

Definition in_status (st : option BugStatus) (b : BugRecord) : bool :=
  match st with Some st => bool_decide (status b = st) | None => true end.

Definition list_bugs (p : option string) (st : option BugStatus) (sort : BugSort) (s : State) :
    list BugRecord :=
  sort_bugs sort
    (map (attach_attempt_counts s)
       (filter (λ b, in_project p b && in_status st b = true) (bt_values (bugs s)))).

Definition ready_bugs (p : option string) (s : State) : list BugRecord :=
  filter (λ b, (failed_attempt_count b <? 3)%Z = true) (list_bugs p (Some Ready) ByRank s).

Definition load_failed (k : string) : string := "load bug " +:+ k.

Definition show_bug (k : string) (s : State) : result BugDetail string :=
  match bugs s !! k with
  | None => Err (load_failed k)
  | Some b =>
      Ok {| bug := attach_attempt_counts s b;
            events_of_bug := isort (λ x y, (event_id x <=? event_id y)%Z)
                               (filter (λ e, event_bug e = k) (events s));
            attempts_of_bug := isort (λ x y, (attempt_id x <=? attempt_id y)%Z)
                                 (filter (λ a, attempt_bug a = k) (attempts s)) |}
  end.

Record BugUpdate : Type := {
  up_status : option BugStatus; up_severity : option BugSeverity; up_priority : option BugPriority;
  up_component : option string; up_owner : option string
}.

Definition or_else {A} (x y : option A) : option A := match x with Some _ => x | None => y end.

Definition updated (b : BugRecord) (u : BugUpdate) (now : DateTime) : BugRecord :=
  {| id := id b; title := title b; source_project := source_project b;
     target_project := target_project b; component := or_else (up_component u) (component b);
     status := default (status b) (up_status u); severity := default (severity b) (up_severity u);
     priority := default (priority b) (up_priority u); difficulty := difficulty b;
     impact := impact b; security := security b; owner := or_else (up_owner u) (owner b);
     body := body b; created_at := created_at b; updated_at := to_rfc3339 now;
     attempt_count := attempt_count b; failed_attempt_count := failed_attempt_count b |}.

Definition triage_payload (b : BugRecord) : Payload :=
  PL_Triaged (status_as_str (status b)) (severity_label (severity b)) (priority_label (priority b))
    (component b) (owner b).

Definition update_bug (k : string) (u : BugUpdate) (actor : string) (now now' : DateTime) (s : State) :
    result BugRecord string * State :=
  match bugs s !! k with
  | None => (Err (load_failed k), s)
  | Some before =>
      match validate_transition (status before) (default (status before) (up_status u)) with
      | Err e => (Err e, s)
      | Ok _ =>
          let b := updated before u now in
          let s := append_event (set_bugs (<[k := b]> (bugs s)) s) k "triaged" actor
                     (triage_payload b) now' in
          (Ok (attach_attempt_counts s b), s)
      end
  end.

Definition new_attempt (n : Z) (k : string) (i : BugAttemptInput) (now : DateTime) : BugAttempt :=
  {| attempt_id := n; attempt_bug := k; agent := in_agent i; attempt_status := in_status_ i;
     sandbox_path := in_sandbox_path i; branch := in_branch i; base_sha := in_base_sha i;
     head_sha := in_head_sha i; pr_url := in_pr_url i; ci_evidence := in_ci_evidence i;
     notes := in_notes i; attempt_created_at := to_rfc3339 now;
     attempt_updated_at := to_rfc3339 now |}.

Definition record_attempt (k : string) (i : BugAttemptInput) (actor : string) (now now' : DateTime)
    (s : State) : result BugAttempt string * State :=
  match bugs s !! k with
  | None => (Err (load_failed k), s)
  | Some _ =>
      let n := i64_succ (next_attempt_id s) in
      let a := new_attempt n k i now in
      (Ok a, append_event (push_attempt n a s) k "attempt_recorded" actor
               (PL_Attempt (attempt_as_str (in_status_ i)) n) now')
  end.

End store.

(** * Rendering (render.rs) *)

Definition nl : string := newline_str.

Definition section (title body : string) : string := "## " +:+ title +:+ nl +:+ trim body +:+ nl +:+ nl.

(** The steps from the number given. *)
Fixpoint numbered (n : N) (l : list string) : string :=
  match l with
  | [] => ""
  | s :: l => show_N n +:+ ". " +:+ s +:+ nl +:+ numbered (n + 1) l
  end.

Definition evidence_line (e : BugEvidenceInput) : string :=
  "- " +:+ kind e +:+ ": " +:+ summary e
  +:+ match path e with Some p => " path=" +:+ p | None => "" end
  +:+ match url e with Some u => " url=" +:+ u | None => "" end
  +:+ (if redacted e then " redacted=true" else "") +:+ nl.

Definition canonical_markdown (r : CanonicalBugReport) : string :=
  "# " +:+ trim (report_title r) +:+ nl +:+ nl
  +:+ "Target project: `" +:+ report_target r +:+ "`" +:+ nl
  +:+ "Source project: `" +:+ report_source r +:+ "`" +:+ nl
  +:+ match report_component r with Some c => "Component: `" +:+ c +:+ "`" +:+ nl | None => "" end
  +:+ nl
  +:+ section "Current behavior" (current_behavior r)
  +:+ section "Expected behavior" (expected_behavior r)
  +:+ section "Environment" (environment r)
  +:+ section "Frequency" (frequency r)
  +:+ section "Impact" (report_impact r)
  +:+ section "Security/privacy" (security_privacy r)
  +:+ nl +:+ "No secrets confirmed: " +:+ show_bool (no_secrets_confirmed r) +:+ nl +:+ nl
  +:+ "## Reproduction" +:+ nl
  +:+ match reproduction_steps r with [] => "- Not provided" +:+ nl | l => numbered 1 l end
  +:+ nl +:+ "## Evidence" +:+ nl
  +:+ match evidence r with
      | [] => "- Not provided" +:+ nl
      | l => foldr (λ e out, evidence_line e +:+ out) "" l
      end
  +:+ nl +:+ "## Acceptance criteria" +:+ nl
  +:+ match acceptance_criteria r with
      | [] => "- Fix restores expected behavior" +:+ nl
      | l => foldr (λ c out, "- " +:+ c +:+ nl +:+ out) "" l
      end.

(** * Names *)

Lemma parse_among_named {A} (name : A → string) (l : list A) what x :
  (∀ y z, y ∈ l → z ∈ l → name y = name z → y = z) → x ∈ l →
  parse_among (named name l) what (name x) = Ok x.
Proof.
  intros Hinj Hx. unfold parse_among.
  destruct (find_first _ _) as [[k y]|] eqn:Hf.
  - apply find_first_Some in Hf as (l1 & l2 & Heq & Hk & _). cbn in Hk. apply String.eqb_eq in Hk. cbn.
    f_equal. assert (Hy : (k, y) ∈ named name l) by (rewrite Heq; apply elem_of_app; right; left).
    apply list_elem_of_In, in_map_iff in Hy as (z & Heqz & Hz%list_elem_of_In).
    injection Heqz as <- <-. by apply Hinj.
  - rewrite find_first_None, Forall_forall in Hf. specialize (Hf (name x, x)). cbn in Hf.
    rewrite String.eqb_refl in Hf. discriminate Hf. apply list_elem_of_In, in_map_iff.
    exists x. split; [done|by apply list_elem_of_In].
Qed.

Lemma parse_among_inv {A} (name : A → string) (l : list A) what input x :
  parse_among (named name l) what input = Ok x → input = name x.
Proof.
  unfold parse_among. destruct (find_first _ _) as [[k y]|] eqn:Hf; [|done]. intros [= <-].
  apply find_first_Some in Hf as (l1 & l2 & Heq & Hk & _). cbn in Hk. apply String.eqb_eq in Hk. subst k. cbn.
  assert (Hy : (input, y) ∈ named name l) by (rewrite Heq; apply elem_of_app; right; left).
  apply list_elem_of_In, in_map_iff in Hy as (z & Heqz & _). by injection Heqz as <- <-.
Qed.

(** A status is the text it prints as and nothing else: what is printed parses back, and only
    a printed text parses. *)
Theorem status_text_exact input st : status_parse input = Ok st ↔ input = status_as_str st.
Proof.
  split; [apply parse_among_inv|intros ->].
  apply (parse_among_named status_as_str statuses).
  - intros y z _ _ Hn. destruct y, z; (reflexivity || discriminate Hn).
  - apply list_elem_of_In. destruct st; cbn; tauto.
Qed.

(** * Sorting what is sorted *)

Lemma isort_id {A} (le : A → A → bool) l :
  StronglySorted (λ a b, le a b = true) l → isort le l = l.
Proof.
  induction 1 as [|x l Hs IH Hall]; [done|].
  change (isort le (x :: l)) with (isort_insert le x (isort le l)). rewrite IH.
  destruct l as [|y l]; [done|]. cbn. inversion Hall as [|? ? Hxy ?]; subst. by rewrite Hxy.
Qed.

Lemma sorted_filter {A} (R : A → A → Prop) (P : A → Prop) `{∀ x, Decision (P x)} l :
  StronglySorted R l → StronglySorted R (filter P l).
Proof.
  induction 1 as [|x l Hs IH Hall]; [constructor|]. rewrite filter_cons. case_decide; [|done].
  constructor; [done|]. rewrite Forall_forall in *. intros y [_ Hy]%list_elem_of_filter. by apply Hall.
Qed.

Lemma omap_snoc {A B} (f : A → option B) l x :
  omap f (l ++ [x]) = omap f l ++ match f x with Some y => [y] | None => [] end.
Proof. induction l as [|y l IH]; cbn; [by destruct (f x)|]. destruct (f y); cbn; by rewrite IH. Qed.

Lemma last_omap_snoc {A B} (f : A → option B) l x :
  last (omap f (l ++ [x])) = match f x with Some y => Some y | None => last (omap f l) end.
Proof.
  rewrite omap_snoc. destruct (f x); [apply last_snoc|by rewrite app_nil_r].
Qed.

(** * The rank *)

Lemma numbers_leb_total k l r1 r2 :
  length k = length l → r1 = true ∨ r2 = true → numbers_leb k l r1 = true ∨ numbers_leb l k r2 = true.
Proof.
  revert l. induction k as [|x k IH]; intros [|y l]; try done. cbn. intros [= Hl] Hr.
  destruct (Z.lt_trichotomy x y) as [Hxy|[->|Hxy]].
  - left. by rewrite (proj2 (Z.ltb_lt x y) Hxy).
  - rewrite !Z.ltb_irrefl, !Z.eqb_refl. by apply IH.
  - right. by rewrite (proj2 (Z.ltb_lt y x) Hxy).
Qed.

Lemma numbers_leb_trans k l m r1 r2 r3 :
  length k = length l → length l = length m → (r1 = true → r2 = true → r3 = true) →
  numbers_leb k l r1 = true → numbers_leb l m r2 = true → numbers_leb k m r3 = true.
Proof.
  revert l m. induction k as [|x k IH]; intros [|y l] [|z m]; try done; cbn.
  intros [= Hl] [= Hm] Hr H1 H2.
  apply orb_prop in H1 as [H1%Z.ltb_lt|[H1%Z.eqb_eq H1']%andb_prop];
    apply orb_prop in H2 as [H2%Z.ltb_lt|[H2%Z.eqb_eq H2']%andb_prop].
  - by rewrite (proj2 (Z.ltb_lt x z)) by lia.
  - by rewrite (proj2 (Z.ltb_lt x z)) by lia.
  - by rewrite (proj2 (Z.ltb_lt x z)) by lia.
  - subst. rewrite Z.ltb_irrefl, Z.eqb_refl. cbn. by eapply IH.
Qed.

Lemma rank_total a b : sort_leb ByRank a b = true ∨ sort_leb ByRank b a = true.
Proof. apply numbers_leb_total; [done|]. apply string_leb_total. Qed.

Lemma rank_trans a b c :
  sort_leb ByRank a b = true → sort_leb ByRank b c = true → sort_leb ByRank a c = true.
Proof. apply numbers_leb_trans; [done|done|]. apply string_leb_trans. Qed.

Section laws.
Context `{C : Chrono} (sha_hex : string → string) (timestamp_nanos : DateTime → option Z).

Local Notation generate_bug_id := (generate_bug_id sha_hex timestamp_nanos).
Local Notation submit_bug := (submit_bug sha_hex timestamp_nanos).

(** * Calls *)

Inductive bug_call : Type :=
  | BC_Project (i : BugProjectInput) (now : DateTime)
  | BC_Submit (r : CanonicalBugReport) (key : option string) (actor : string) (now now' : DateTime)
  | BC_Update (k : string) (u : BugUpdate) (actor : string) (now now' : DateTime)
  | BC_Attempt (k : string) (i : BugAttemptInput) (actor : string) (now now' : DateTime).

Definition bug_serve (s : State) (q : bug_call) : State :=
  match q with
  | BC_Project i t => (add_project i t s).2
  | BC_Submit r key a t t' => (submit_bug r key a t t' s).2
  | BC_Update k u a t t' => (update_bug k u a t t' s).2
  | BC_Attempt k i a t t' => (record_attempt k i a t t' s).2
  end.

Definition bug_run (l : list bug_call) (s : State) : State := fold_left bug_serve l s.

(** What a call does to the bugs, the keys, the events and the attempts. *)
Inductive bug_move (s s' : State) : Prop :=
  | bm_other : bugs s' = bugs s → idempotency s' = idempotency s → events s' = events s →
      attempts s' = attempts s → next_event_id s' = next_event_id s →
      next_attempt_id s' = next_attempt_id s → bug_move s s'
  | bm_submit r key actor st now now' :
      validate r = Ok st → existing key s = None →
      s' = (store_bug sha_hex timestamp_nanos r key actor st now now' s).2 → bug_move s s'
  | bm_update k b u actor now now' :
      bugs s !! k = Some b →
      validate_transition (status b) (default (status b) (up_status u)) = Ok tt →
      s' = append_event (set_bugs (<[k := updated b u now]> (bugs s)) s) k "triaged" actor
             (triage_payload (updated b u now)) now' → bug_move s s'
  | bm_attempt k b i actor now now' :
      bugs s !! k = Some b →
      s' = append_event (push_attempt (i64_succ (next_attempt_id s))
                           (new_attempt (i64_succ (next_attempt_id s)) k i now) s)
             k "attempt_recorded" actor
             (PL_Attempt (attempt_as_str (in_status_ i)) (i64_succ (next_attempt_id s))) now' →
      bug_move s s'.

Lemma bm_same s : bug_move s s.
Proof. by apply bm_other. Qed.

Lemma bug_serve_move s q : bug_move s (bug_serve s q).
Proof.
  destruct q as [i t|r key a t t'|k u a t t'|k i a t t']; cbn.
  - by apply bm_other.
  - unfold submit_bug. destruct (validate r) as [st|e] eqn:Hv; [|apply bm_same].
    destruct (existing key s) eqn:He; [apply bm_same|].
    destruct (store_bug _ _ _ _ _ _ _ _ _) as [b s'] eqn:Hs.
    eapply bm_submit; [exact Hv|exact He|]. by rewrite Hs.
  - unfold update_bug. destruct (bugs s !! k) as [b|] eqn:Hb; [|apply bm_same].
    destruct (validate_transition _ _) as [[]|e] eqn:Hv; [|apply bm_same].
    by eapply bm_update.
  - unfold record_attempt. destruct (bugs s !! k) as [b|] eqn:Hb; [|apply bm_same].
    by eapply bm_attempt.
Qed.

Lemma bug_run_keeps (P : State → Prop) l s :
  (∀ s s', bug_move s s' → P s → P s') → P s → P (bug_run l s).
Proof.
  intros Hk. revert s. induction l as [|q l IH]; intros s Hs; [done|].
  apply IH. eapply Hk; [apply bug_serve_move|done].
Qed.

(** * The invariant *)

(** What a stored bug owes to its report. *)
Record bug_sound (b : BugRecord) : Prop := {
  bs_valid : is_ok (validate (body b)) = true;
  bs_title : title b = report_title (body b);
  bs_source : source_project b = report_source (body b);
  bs_target : target_project b = report_target (body b);
  bs_difficulty : difficulty b = report_difficulty (body b);
  bs_security : security b = is_security_sensitive (body b)
}.

(** The status an event tells of a bug. *)
Definition told (k : string) (e : BugEvent) : option string :=
  if bool_decide (event_bug e = k)
  then match payload e with
       | PL_Submitted st | PL_Triaged st _ _ _ _ => Some st
       | PL_Attempt _ _ => None
       end
  else None.

Definition told_attempt (e : BugEvent) : option (string * string * Z) :=
  match payload e with PL_Attempt st n => Some (event_bug e, st, n) | _ => None end.

Definition attempt_key (a : BugAttempt) : string * string * Z :=
  (attempt_bug a, attempt_as_str (attempt_status a), attempt_id a).

Record bugs_ok (s : State) : Prop := {
  bo_bugs k b : bugs s !! k = Some b → id b = k ∧ bug_sound b;
  bo_keys key k : idempotency s !! key = Some k → is_Some (bugs s !! k);
  bo_events e : e ∈ events s → is_Some (bugs s !! event_bug e);
  bo_status k b : bugs s !! k = Some b →
    last (omap (told k) (events s)) = Some (status_as_str (status b));
  bo_attempts : omap told_attempt (events s) = map attempt_key (attempts s)
}.

Lemma bugs_ok_default : bugs_ok State_default.
Proof. split; try by intros; simplify_map_eq. intros e He. by apply elem_of_nil in He. Qed.

Lemma told_new_self k e st :
  event_bug e = k →
  match payload e with PL_Submitted st' | PL_Triaged st' _ _ _ _ => st' = st | PL_Attempt _ _ => False end →
  told k e = Some st.
Proof.
  intros He. unfold told. rewrite bool_decide_eq_true_2 by done. by destruct (payload e); try intros ->.
Qed.

Lemma new_bug_sound r k st t : validate r = Ok st → bug_sound (new_bug r k st t).
Proof. intros Hv. by split; cbn; rewrite ?Hv. Qed.

Lemma updated_sound b u t : bug_sound b → bug_sound (updated b u t).
Proof. by intros []. Qed.

Lemma existing_None key s k i :
  bugs_ok s → existing key s = None → key = Some k → idempotency s !! k = Some i → False.
Proof.
  intros Hok He -> Hi. cbn in He. rewrite Hi in He. destruct (bo_keys s Hok _ _ Hi). congruence.
Qed.

(** One bug is put under [k], and told of. *)
Lemma bugs_ok_put s k b s' e :
  bugs_ok s → bugs s' = <[k := b]> (bugs s) → events s' = events s ++ [e] →
  attempts s' = attempts s → id b = k → bug_sound b → event_bug e = k →
  told k e = Some (status_as_str (status b)) → told_attempt e = None →
  (∀ key i, idempotency s' !! key = Some i → i = k ∨ idempotency s !! key = Some i) →
  bugs_ok s'.
Proof.
  intros [H1 H2 H3 H4 H5] Hb He Ha Hid Hs Hek Ht Hta Hi. split; rewrite ?Hb, ?He, ?Ha.
  - intros k' b' [[<- <-]|[_ Hl]]%lookup_insert_Some; [done|by apply H1].
  - intros key i Hl. apply lookup_insert_is_Some'. destruct (Hi _ _ Hl) as [->|Hl']; [by left|].
    right. by eapply H2.
  - intros e' [He'| ->%list_elem_of_singleton]%elem_of_app; apply lookup_insert_is_Some'; [|by left].
    right. by apply H3.
  - intros k' b' Hl. rewrite last_omap_snoc.
    apply lookup_insert_Some in Hl as [[<- <-]|[Hne Hl]]; [by rewrite Ht|].
    unfold told at 1. rewrite bool_decide_eq_false_2 by congruence. by apply H4.
  - rewrite omap_snoc, Hta, app_nil_r. done.
Qed.

Lemma bugs_ok_move s s' : bug_move s s' → bugs_ok s → bugs_ok s'.
Proof.
  intros Hm Hok. destruct Hm as [Hb Hi He Ha _ _|r key actor st t t' Hv Hx ->|k b u actor t t' Hb Hv ->|k b i actor t t' Hb ->].
  - destruct Hok as [H1 H2 H3 H4 H5]. split; rewrite ?Hb, ?Hi, ?He, ?Ha; done.
  - unfold store_bug. cbn [snd]. destruct key as [key|];
      (eapply bugs_ok_put; [exact Hok|reflexivity|reflexivity|reflexivity|reflexivity
        |by apply new_bug_sound|reflexivity|by apply told_new_self|reflexivity|]); cbn; [|by right].
    intros key' i [[_ <-]|[_ Hl]]%lookup_insert_Some; [by left|by right].
  - destruct (bo_bugs s Hok _ _ Hb) as [Hid Hs].
    eapply bugs_ok_put; [exact Hok|reflexivity|reflexivity|reflexivity|exact Hid
        |by apply updated_sound|reflexivity|by apply told_new_self|reflexivity|]. cbn. by right.
  - destruct Hok as [H1 H2 H3 H4 H5]. split; cbn.
    + apply H1.
    + apply H2.
    + intros e [He| ->%list_elem_of_singleton]%elem_of_app; [by apply H3|].
      cbn. by rewrite Hb.
    + intros k' b' Hl. rewrite last_omap_snoc. unfold told at 1. cbn.
      case_bool_decide; by apply H4.
    + rewrite omap_snoc, H5, map_app. done.
Qed.

Lemma bugs_ok_run l s : bugs_ok s → bugs_ok (bug_run l s).
Proof. apply bug_run_keeps. apply bugs_ok_move. Qed.

(** * Numbers *)

(** The events and the attempts are numbered from one while the counters have room. *)
Record numbered_ok (s : State) : Prop := {
  no_event : next_event_id s = Z.of_nat (length (events s));
  no_attempt : next_attempt_id s = Z.of_nat (length (attempts s));
  no_events i e : events s !! i = Some e → event_id e = (Z.of_nat i + 1)%Z;
  no_attempts i a : attempts s !! i = Some a → attempt_id a = (Z.of_nat i + 1)%Z;
  no_fewer : length (attempts s) ≤ length (events s)
}.

Lemma i64_succ_room z : (0 ≤ z < i64_max)%Z → i64_succ z = (z + 1)%Z.
Proof. intros Hz. unfold i64_succ. by destruct (Z.eqb_spec z i64_max); [lia|]. Qed.

Lemma lookup_snoc_Some' {A} (l : list A) x i y (P : nat → A → Prop) :
  (∀ i y, l !! i = Some y → P i y) → P (length l) x → (l ++ [x]) !! i = Some y → P i y.
Proof. intros Hl Hx [Hi|[-> <-]]%lookup_snoc_Some; [by apply Hl; destruct Hi|done]. Qed.

Lemma numbered_event s k ty a p t :
  (Z.of_nat (length (events s)) < i64_max)%Z → numbered_ok s →
  numbered_ok (append_event s k ty a p t) ∧ length (events (append_event s k ty a p t)) = S (length (events s)).
Proof.
  intros Hr [H1 H2 H3 H4 H5]. unfold append_event. rewrite i64_succ_room by lia.
  split; [|cbn; rewrite length_app; cbn; lia]. split; cbn; rewrite ?length_app; cbn.
  - lia.
  - done.
  - intros i e. apply (lookup_snoc_Some' _ _ _ _ (λ i e, event_id e = (Z.of_nat i + 1)%Z)); [done|cbn; lia].
  - done.
  - lia.
Qed.

Lemma numbered_move s s' :
  (Z.of_nat (length (events s)) < i64_max)%Z → bug_move s s' → numbered_ok s →
  numbered_ok s' ∧ length (events s') ≤ S (length (events s)).
Proof.
  intros Hr Hm Hok. destruct Hm as [_ _ He Ha Hn1 Hn2|r key actor st t t' Hv Hx ->|k b u actor t t' Hb Hv ->|k b i actor t t' Hb ->].
  - destruct Hok as [H1 H2 H3 H4 H5]. split; [|rewrite He; lia]. by split; rewrite ?He, ?Ha, ?Hn1, ?Hn2.
  - unfold store_bug. cbn [snd].
    match goal with |- numbered_ok (append_event ?s1 _ _ _ _ _) ∧ _ =>
      assert (Hok1 : numbered_ok s1) by (destruct key; destruct Hok; by split);
      assert (He : events s1 = events s) by by destruct key end.
    rewrite <-He in Hr |- *. edestruct numbered_event as [? ->]; [exact Hr|exact Hok1|]. by split.
  - edestruct numbered_event as [? ->]; [| |split; [done|done]]; [done|]. destruct Hok; by split.
  - destruct Hok as [H1 H2 H3 H4 H5]. unfold append_event. cbn. rewrite !i64_succ_room by lia.
    split; [|rewrite length_app; cbn; lia]. split; cbn; rewrite ?length_app; cbn.
    + lia.
    + lia.
    + intros j e. apply (lookup_snoc_Some' _ _ _ _ (λ i e, event_id e = (Z.of_nat i + 1)%Z)); [done|cbn; lia].
    + intros j a. apply (lookup_snoc_Some' _ _ _ _ (λ i a, attempt_id a = (Z.of_nat i + 1)%Z)); [done|cbn; lia].
    + lia.
Qed.

Lemma numbered_run l s :
  (Z.of_nat (length (events s) + length l) ≤ i64_max)%Z → numbered_ok s → numbered_ok (bug_run l s).
Proof.
  revert s. induction l as [|q l IH]; intros s Hr Hok; [done|]. cbn in Hr.
  destruct (numbered_move s (bug_serve s q)) as [Hok' Hle]; [lia|apply bug_serve_move|done|].
  apply IH; [lia|done].
Qed.

Lemma numbered_default : numbered_ok State_default.
Proof. by split. Qed.

(** A log whose entries are numbered by their places is sorted, and so is each part of it. *)
Lemma numbered_sorted {A} (n : A → Z) (l : list A) (k : Z) :
  (∀ i x, l !! i = Some x → n x = (Z.of_nat i + k)%Z) →
  StronglySorted (λ x y, (n x <=? n y)%Z = true) l.
Proof.
  revert k. induction l as [|x l IH]; intros k Hn; [constructor|]. constructor.
  - apply (IH (k + 1)%Z). intros i y Hy. rewrite (Hn (S i) y Hy). lia.
  - rewrite Forall_forall. intros y [i Hi]%list_elem_of_lookup. apply Z.leb_le.
    rewrite (Hn 0 x eq_refl), (Hn (S i) y Hi). lia.
Qed.

(** * Claims *)

Definition failures (l : list BugAttempt) : list BugAttempt :=
  filter (λ a, failed a = true) l.

Lemma filter_of_bug k (l : list BugAttempt) :
  filter (λ a, of_bug k a = true) l = filter (λ a, attempt_bug a = k) l.
Proof. apply list_filter_iff. intros a. unfold of_bug. by rewrite String.eqb_eq. Qed.

Lemma filter_told k (l : list BugEvent) :
  omap (told k) (filter (λ e, event_bug e = k) l) = omap (told k) l.
Proof.
  induction l as [|e l IH]; [done|]. rewrite filter_cons. case_decide as He; cbn.
  - destruct (told k e); by rewrite IH.
  - unfold told at 2. by rewrite bool_decide_eq_false_2.
Qed.

Lemma omap_told_attempt k (l : list BugEvent) :
  omap told_attempt (filter (λ e, event_bug e = k) l)
  = filter (λ x, x.1.1 = k) (omap told_attempt l).
Proof.
  induction l as [|e l IH]; [done|]. rewrite filter_cons. cbn.
  assert (Hk : ∀ x, told_attempt e = Some x → x.1.1 = event_bug e).
  { unfold told_attempt. destruct (payload e); try done. by intros x [= <-]. }
  case_decide as He; cbn; destruct (told_attempt e) as [x|]; rewrite ?filter_cons, ?IH; try done;
    specialize (Hk _ eq_refl); case_decide; congruence.
Qed.

Lemma filter_attempt_key k (l : list BugAttempt) :
  filter (λ x, x.1.1 = k) (map attempt_key l) = map attempt_key (filter (λ a, attempt_bug a = k) l).
Proof.
  induction l as [|a l IH]; [done|]. cbn [map]. rewrite !filter_cons. cbn. case_decide; cbn; by rewrite IH.
Qed.

(** Through any calls, while the counters have room, every bug can be shown, and what is shown
    is the whole truth: a validated report behind it, every event of it in the order they
    happened, the last of them that speaks of a status telling the one it has, and every
    attempt, each told by one event, with their numbers counted; every key leads to a bug. *)
Theorem bug_journal_invariant l :
  (Z.of_nat (length l) ≤ i64_max)%Z →
  let s := bug_run l State_default in
  (∀ k b, bugs s !! k = Some b →
     ∃ d, show_bug k s = Ok d ∧ id (bug d) = k ∧ bug_sound (bug d) ∧ status (bug d) = status b
       ∧ events_of_bug d = filter (λ e, event_bug e = k) (events s)
       ∧ last (omap (told k) (events_of_bug d)) = Some (status_as_str (status b))
       ∧ attempts_of_bug d = filter (λ a, attempt_bug a = k) (attempts s)
       ∧ omap told_attempt (events_of_bug d) = map attempt_key (attempts_of_bug d)
       ∧ attempt_count (bug d) = Z.of_nat (length (attempts_of_bug d))
       ∧ failed_attempt_count (bug d) = Z.of_nat (length (failures (attempts_of_bug d))))
  ∧ (∀ key k, idempotency s !! key = Some k → is_Some (bugs s !! k))
  ∧ (∀ e, e ∈ events s → is_Some (bugs s !! event_bug e)).
Proof.
  intros Hl. cbv zeta.
  pose proof (bugs_ok_run l _ bugs_ok_default) as Hok.
  pose proof (numbered_run l State_default Hl numbered_default) as Hn.
  revert Hok Hn. generalize (bug_run l State_default) as s. intros s Hok [_ _ Hev Hat _].
  split; [|split; [apply bo_keys, Hok|apply bo_events, Hok]].
  intros k b Hb. destruct (bo_bugs s Hok _ _ Hb) as [Hid Hs]. unfold show_bug. rewrite Hb.
  eexists. split; [reflexivity|]. cbn.
  rewrite !isort_id by (apply sorted_filter; by apply (numbered_sorted _ _ 1)).
  rewrite Hid, filter_told, omap_told_attempt, (bo_attempts s Hok), filter_attempt_key, !filter_of_bug.
  split_and!; try done; [by destruct Hs|by apply (bo_status s Hok)].
Qed.

(** A bug that was closed stays closed as it was, through any calls but a submission that is
    given its id. *)
Theorem closed_bug_stays_closed l s k b :
  bugs s !! k = Some b → is_terminal (status b) = true →
  (∀ r key a t t', BC_Submit r key a t t' ∈ l → generate_bug_id r t ≠ k) →
  ∃ b', bugs (bug_run l s) !! k = Some b' ∧ status b' = status b
    ∧ ∀ u a t t', default (status b') (up_status u) ≠ status b' →
        is_ok (update_bug k u a t t' (bug_run l s)).1 = false
        ∧ (update_bug k u a t t' (bug_run l s)).2 = bug_run l s.
Proof.
  intros Hb Ht. revert s b Hb Ht. induction l as [|q l IH]; intros s b Hb Ht Hno.
  - exists b. split; [done|]. split; [done|]. intros u a t t' Hne. cbn [bug_run fold_left]. unfold update_bug. rewrite Hb.
    unfold validate_transition. rewrite Ht, bool_decide_eq_false_2 by congruence. done.
  - assert (∃ b1, bugs (bug_serve s q) !! k = Some b1 ∧ status b1 = status b) as (b1 & Hb1 & Hst).
    { destruct q as [i t|r key a t t'|j u a t t'|j i a t t']; cbn.
      - by exists b.
      - unfold submit_bug. destruct (validate r); [|by exists b].
        destruct (existing key s); [by exists b|]. cbn.
        assert (Hne : generate_bug_id r t ≠ k) by by apply (Hno r key a t t'), list_elem_of_here.
        destruct key; cbn; rewrite lookup_insert_ne by done; by exists b.
      - unfold update_bug. destruct (bugs s !! j) as [b0|] eqn:Hj; [|by exists b].
        destruct (validate_transition _ _) eqn:Hv; [|by exists b]. cbn.
        destruct (decide (j = k)) as [->|Hne]; [|rewrite lookup_insert_ne by done; by exists b].
        rewrite Hb in Hj. injection Hj as <-. rewrite lookup_insert_eq. eexists. split; [done|]. cbn.
        unfold validate_transition in Hv. rewrite Ht in Hv. case_bool_decide as Heq; [|done].
        by rewrite <-Heq.
      - unfold record_attempt. destruct (bugs s !! j); by exists b. }
    destruct (IH (bug_serve s q) b1 Hb1) as (b' & H1 & H2 & H3).
    + by rewrite Hst.
    + intros r key a t t' Hin. apply (Hno r key a t t'). by right.
    + exists b'. split; [exact H1|]. split; [congruence|]. exact H3.
Qed.

Lemma key_kept s s' key k :
  bugs_ok s → bug_move s s' → idempotency s !! key = Some k → idempotency s' !! key = Some k.
Proof.
  intros Hok Hm Hk. destruct Hm as [_ Hi _ _ _ _|r key' actor st t t' Hv Hx ->|k' b u actor t t' Hb Hv ->|k' b i actor t t' Hb ->];
    [by rewrite Hi| |done|done].
  unfold store_bug. cbn. destruct key' as [key'|]; cbn; [|done].
  destruct (decide (key' = key)) as [->|Hne]; [|by rewrite lookup_insert_ne].
  by destruct (existing_None _ _ _ _ Hok Hx eq_refl Hk).
Qed.

(** A key submits once: after a submission under it that succeeded, and through any later
    calls, every valid report under the key answers with the same bug and stores nothing. *)
Theorem key_submits_once l0 r key a t t' l :
  let s := bug_run l0 State_default in
  match submit_bug r (Some key) a t t' s with
  | (Err _, s') => s' = s
  | (Ok b, s') =>
      ∀ r2 a2 t2 t2', is_ok (validate r2) = true →
        ∃ b2, submit_bug r2 (Some key) a2 t2 t2' (bug_run l s') = (Ok b2, bug_run l s')
          ∧ id b2 = id b
  end.
Proof.
  cbv zeta. pose proof (bugs_ok_run l0 _ bugs_ok_default) as Hok. revert Hok.
  generalize (bug_run l0 State_default) as s. intros s Hok.
  destruct (submit_bug r (Some key) a t t' s) as [[b|e] s'] eqn:Hs.
  2: { unfold submit_bug in Hs. destruct (validate r); [|by injection Hs].
       destruct (existing _ s); [done|]. by destruct (store_bug _ _ _ _ _ _ _ _ _). }
  assert (Hk : idempotency s' !! key = Some (id b)).
  { unfold submit_bug in Hs. destruct (validate r) as [st|]; [|done].
    destruct (existing (Some key) s) as [b0|] eqn:Hx; [|].
    - injection Hs as <- <-. cbn in Hx. destruct (idempotency s !! key) as [k|] eqn:Hi; [|done].
      destruct (bo_bugs s Hok _ _ Hx) as [Hid _]. cbn. congruence.
    - unfold store_bug in Hs. injection Hs as <- <-. cbn. apply lookup_insert_eq. }
  assert (Hok' : bugs_ok s').
  { pose proof (bugs_ok_move s s' (eq_rect _ (bug_move s)
      (bug_serve_move s (BC_Submit r (Some key) a t t')) _ (f_equal snd Hs)) Hok). done. }
  assert (Hend : bugs_ok (bug_run l s') ∧ idempotency (bug_run l s') !! key = Some (id b)).
  { apply (bug_run_keeps (λ s, bugs_ok s ∧ idempotency s !! key = Some (id b))); [|done].
    intros s1 s2 Hm [H1 H2]. split; [by eapply bugs_ok_move|by eapply key_kept]. }
  revert Hend. generalize (bug_run l s') as s2. intros s2 [Hok2 Hk2] r2 a2 t2 t2' Hv.
  unfold submit_bug. destruct (validate r2); [|done]. cbn. rewrite Hk2.
  destruct (bo_keys s2 Hok2 _ _ Hk2) as [b2 Hb2]. rewrite Hb2. eexists. split; [reflexivity|].
  cbn. by destruct (bo_bugs s2 Hok2 _ _ Hb2) as [-> _].
Qed.

(** The bugs offered as ready are, in the order of their rank and each once, exactly those of
    the project that are ready and have fewer than three failed attempts. *)
Theorem ready_bugs_exact l p :
  let s := bug_run l State_default in
  StronglySorted (λ x y, key_leb (ranking_key x) (ranking_key y) = true) (ready_bugs p s)
  ∧ NoDup (map id (ready_bugs p s))
  ∧ ∀ x, x ∈ ready_bugs p s ↔
      ∃ b, bugs s !! id x = Some b ∧ x = attach_attempt_counts s b ∧ status b = Ready
        ∧ in_project p b = true
        ∧ length (failures (filter (λ a, attempt_bug a = id x) (attempts s))) < 3.
Proof.
  cbv zeta. pose proof (bugs_ok_run l _ bugs_ok_default) as Hok. revert Hok.
  generalize (bug_run l State_default) as s. intros s Hok.
  unfold ready_bugs, list_bugs, sort_bugs. split; [|split].
  - apply sorted_filter. apply (isort_sorted (sort_leb ByRank)); [apply rank_total|apply rank_trans].
  - assert (Hkeys : ∀ kbs, (∀ k b, (k, b) ∈ kbs → id b = k) → NoDup kbs.*1 →
      NoDup (map id (map (attach_attempt_counts s) (filter (λ b, in_project p b && in_status (Some Ready) b = true) kbs.*2)))).
    { intros kbs. induction kbs as [|[k b] kbs IH]; intros Hid Hnd; [constructor|].
      cbn in Hnd. apply NoDup_cons in Hnd as [Hni Hnd].
      change ((k, b) :: kbs).*2 with (b :: kbs.*2). rewrite filter_cons.
      case_decide; [|apply IH; [|done]; intros; apply Hid; by right].
      cbn. constructor; [|apply IH; [|done]; intros; apply Hid; by right].
      intros Hin. apply Hni. rewrite map_map in Hin.
      apply list_elem_of_In, in_map_iff in Hin as (b' & Heq & Hb'%list_elem_of_In). cbn in Heq.
      apply list_elem_of_filter in Hb' as [_ Hb']. apply list_elem_of_fmap in Hb' as ([k' b''] & -> & Hin).
      apply list_elem_of_fmap. exists (k', b''). split; [|done]. cbn in *.
      rewrite <-(Hid k b) by left. rewrite <-Heq. apply Hid. by right. }
    specialize (Hkeys (bt_iter (bugs s))). fold (bt_values (bugs s)) in Hkeys.
    eapply sublist_NoDup; [|apply (fmap_sublist id), sublist_filter].
    rewrite (isort_perm (sort_leb ByRank)).
    apply Hkeys; [|apply bt_iter_NoDup_keys].
    intros k b Hin%elem_of_bt_iter. by apply (bo_bugs s Hok).
  - intros x. rewrite list_elem_of_filter, elem_of_isort, Z.ltb_lt. split.
    + intros [Hf (b & <- & Hb)%list_elem_of_In%in_map_iff]. apply list_elem_of_In in Hb.
      apply list_elem_of_filter in Hb as [[Hp Hst]%andb_prop (k & Hk)%elem_of_bt_values].
      destruct (bo_bugs s Hok _ _ Hk) as [Hid _]. exists b. cbn in *. rewrite Hid.
      split; [done|]. split; [done|]. split; [by apply bool_decide_eq_true_1 in Hst|]. split; [done|].
      rewrite filter_of_bug, Hid in Hf. unfold failures. lia.
    + intros (b & Hb & -> & Hst & Hp & Hf). cbn in *. rewrite filter_of_bug. unfold failures in Hf.
      split; [lia|]. apply list_elem_of_In, in_map_iff. exists b. split; [done|].
      apply list_elem_of_In, list_elem_of_filter. split; [|apply elem_of_bt_values; by eexists].
      rewrite Hp. cbn. by rewrite bool_decide_eq_true_2.
Qed.

(** Nothing asks whether the id of a new bug is taken: a submission whose five bytes of digest
    are those of a stored bug puts a new one in its place, closed or not. *)
Lemma submission_replaces r key a t t' s st :
  validate r = Ok st → existing key s = None →
  bugs (submit_bug r key a t t' s).2 !! generate_bug_id r t
  = Some (new_bug r (generate_bug_id r t) st t).
Proof.
  intros Hv He. unfold submit_bug. rewrite Hv, He. cbn.
  destruct key; cbn; apply lookup_insert_eq.
Qed.

End laws.

(** * Samples *)

Module BugSamples.
Definition report : CanonicalBugReport :=
  {| report_target := "redlinedb"; report_source := "veox"; report_title := "writes are lost";
     report_component := None; current_behavior := "bad"; expected_behavior := "good";
     environment := "local"; frequency := "always"; report_impact := "blocks";
     security_privacy := " None "; no_secrets_confirmed := true; reproduction_steps := ["run test"];
     evidence := []; acceptance_criteria := []; report_severity := S1; report_priority := P1;
     report_difficulty := 3 |}.

(** A ready bug, its last update and its failed attempts. *)
Definition ready (k updated : string) (failed : Z) : BugRecord :=
  {| id := k; title := report_title report; source_project := "veox"; target_project := "redlinedb";
     component := None; status := Ready; severity := S1; priority := P1; difficulty := 3;
     impact := "blocks"; security := false; owner := None; body := report; created_at := "2026-01-01";
     updated_at := updated; attempt_count := failed; failed_attempt_count := failed |}.
End BugSamples.

Example report_accepted :
  validate BugSamples.report = Ok NeedsTriage ∧ is_security_sensitive BugSamples.report = false
  ∧ branch_name "bug-0123456789" "Adapter loses Writes!!" = "bug/bug-0123456789-adapter-loses-writes"
  ∧ branch_name "bug-0123456789" "???" = "bug/bug-0123456789-fix".
Proof. vm_compute. split_and!; reflexivity. Qed.

(** The rank puts first, of bugs that are otherwise alike, the one with more failed attempts,
    and then the one that was updated longest ago. *)
Example rank_prefers_failures :
  map id (sort_bugs ByRank [BugSamples.ready "fresh" "2026-01-03" 0;
                            BugSamples.ready "stale" "2026-01-02" 0;
                            BugSamples.ready "failed-twice" "2026-01-04" 2])
  = ["failed-twice"; "stale"; "fresh"].
Proof. vm_compute. reflexivity. Qed.
