(* ===== verification/Phase11.v ===== *)
(** Phase11: what the release tools share: identifiers, versions, reports that fail closed,
    and the ledger of receipts.

    jeryu-phase11-core and jeryu-phase11-audit (jeryu-release-ops/crates). The clock is a
    function from the number of receipts in the ledger to the second at which the next one
    is made. *)

From Stdlib Require Import Ascii DecimalString DecimalN.
From S2P Require Import Prelude Text CiIr.

(** * Identifiers (validation.rs, ids.rs) *)

Record ValidationError : Type := { field : string; message : string }.

Definition ValidationError_to_string (e : ValidationError) : string :=
  field e +:+ ": " +:+ message e.

Definition invalid (f m : string) : ValidationError := {| field := f; message := m |}.

(** [c.is_ascii_alphanumeric() || matches!(c, '-' | '_' | '.')], of the bytes. *)
Definition slug_char (c : ascii) : bool :=
  is_ascii_alphanumeric c || Ascii.eqb c "-" || Ascii.eqb c "_" || Ascii.eqb c ".".

Definition validate_slug (f value : string) : result () ValidationError :=
  if str_is_empty value then Err (invalid f "empty")
  else if 128 <? String.length value then Err (invalid f "too long")
  else if string_all slug_char value then Ok tt
  else Err (invalid f "invalid character").

(** [TenantId]: the string in it went through [TenantId_new]. *)
Definition TenantId : Type := string.

Definition TenantId_new (value : string) : result TenantId ValidationError :=
  match validate_slug "tenant_id" value with Ok _ => Ok value | Err e => Err e end.

(** [Digest::from_text]. *)
Definition Digest : Type := string.

Definition Digest_from_text (prefix text : string) : Digest :=
  prefix +:+ ":" +:+ hex16 (fnv_loop fnv_offset text).

#[global] Arguments Digest_from_text : simpl never.

Record Version : Type := { major : N; minor : N; patch : N }.

Definition Version_new (a b c : N) : Version := {| major := a; minor := b; patch := c |}.

Definition u16_max : N := 65535.

Definition parse_u16 (f : string) (value : option string) : result N ValidationError :=
  match value with
  | None => Err (invalid f "missing")
  | Some raw => match parse_uint u16_max raw with
                | Some n => Ok n
                | None => Err (invalid f "not a u16")
                end
  end.

#[local] Open Scope result_scope.

Definition Version_parse (input : string) : result Version ValidationError :=
  let parts := split_on "." input in
  let? a := parse_u16 "major" (parts !! 0) in
  let? b := parse_u16 "minor" (parts !! 1) in
  let? c := parse_u16 "patch" (parts !! 2) in
  if bool_decide (is_Some (parts !! 3)) then Err (invalid "version" "too many components")
  else Ok (Version_new a b c).

Definition Version_to_string (v : Version) : string :=
  show_N (major v) +:+ "." +:+ show_N (minor v) +:+ "." +:+ show_N (patch v).

Inductive UpgradeRing : Type :=
  | Ring_Dev | Ring_Canary | Ring_Internal | Ring_Enterprise | Ring_Global.

#[export] Instance UpgradeRing_eq_dec : EqDecision UpgradeRing.
Proof. solve_decision. Defined.

Definition ordered : list UpgradeRing :=
  [Ring_Dev; Ring_Canary; Ring_Internal; Ring_Enterprise; Ring_Global].

Definition UpgradeRing_as_str (r : UpgradeRing) : string :=
  match r with
  | Ring_Dev => "dev" | Ring_Canary => "canary" | Ring_Internal => "internal"
  | Ring_Enterprise => "enterprise" | Ring_Global => "global"
  end.

Inductive ExportFormat : Type := EF_Json | EF_Markdown | EF_Bundle.

Definition ExportFormat_as_str (f : ExportFormat) : string :=
  match f with EF_Json => "json" | EF_Markdown => "markdown" | EF_Bundle => "bundle" end.

(** * JSON text (json.rs) *)

Definition dquote : string := String "034" "".

(** [\u{:04x}]. *)
Definition unicode_escape (n : N) : string := "\u" +:+ pad_left 4 (hex_digits 2 n).

Definition quote_ascii (c : ascii) : string :=
  if Ascii.eqb c "034" then "\" +:+ dquote
  else if Ascii.eqb c "\" then "\\"
  else if Ascii.eqb c "010" then "\n"
  else if Ascii.eqb c "013" then "\r"
  else if Ascii.eqb c "009" then "\t"
  else if (code c <? 32)%N || (code c =? 127)%N then unicode_escape (code c)
  else String c "".

(** The characters of [value]: those that take two bytes and are controls are the ones from
    80 to 9f, encoded after the byte c2. *)
Fixpoint quote_chars (value : string) : string :=
  match value with
  | "" => ""
  | String c rest =>
      match rest with
      | String d rest' =>
          if (code c =? 194)%N && (code d <? 160)%N
          then unicode_escape (code d) +:+ quote_chars rest'
          else quote_ascii c +:+ quote_chars rest
      | "" => quote_ascii c
      end
  end.

Definition quote (value : string) : string := dquote +:+ quote_chars value +:+ dquote.

Definition json_array (values : list string) : string :=
  "[" +:+ join "," (quote <$> values) +:+ "]".

(** A member of an object: its name, then its value as text. *)
Definition member (name value : string) : string := quote name +:+ ":" +:+ value.

(** An object with members in the order given. *)
Definition object (members : list (string * string)) : string :=
  "{" +:+ join "," ((λ m, member m.1 m.2) <$> members) +:+ "}".

(** * Severity and health (severity.rs) *)

Inductive Severity : Type := Info | Warning | Degraded | Critical | Blocked.

#[export] Instance Severity_eq_dec : EqDecision Severity.
Proof. solve_decision. Defined.

Definition Severity_as_str (s : Severity) : string :=
  match s with
  | Info => "info" | Warning => "warning" | Degraded => "degraded"
  | Critical => "critical" | Blocked => "blocked"
  end.

(** The derived order. *)
Definition rank (s : Severity) : nat :=
  match s with Info => 0 | Warning => 1 | Degraded => 2 | Critical => 3 | Blocked => 4 end.

Definition severity_max (a b : Severity) : Severity := if rank a <=? rank b then b else a.

Definition fails (s : Severity) : bool :=
  match s with Critical | Blocked => true | _ => false end.

Inductive HealthState : Type := HS_Healthy | HS_Degraded | HS_Failing | HS_Blocked.

#[export] Instance HealthState_eq_dec : EqDecision HealthState.
Proof. solve_decision. Defined.

Definition from_severity (s : Severity) : HealthState :=
  match s with
  | Info | Warning => HS_Healthy
  | Degraded => HS_Degraded
  | Critical => HS_Failing
  | Blocked => HS_Blocked
  end.

Definition HealthState_as_str (s : HealthState) : string :=
  match s with
  | HS_Healthy => "healthy" | HS_Degraded => "degraded" | HS_Failing => "failing"
  | HS_Blocked => "blocked"
  end.

(** * Findings and reports (report.rs) *)

Record Finding : Type := {
  finding_code : string;
  severity : Severity;
  finding_message : string;
  finding_receipt_id : option string
}.

Definition Finding_new (c : string) (s : Severity) (m : string) : Finding :=
  {| finding_code := c; severity := s; finding_message := m; finding_receipt_id := None |}.

Definition with_receipt (f : Finding) (id : string) : Finding :=
  {| finding_code := finding_code f; severity := severity f;
     finding_message := finding_message f; finding_receipt_id := Some id |}.

Definition Finding_to_json (f : Finding) : string :=
  object [("code", quote (finding_code f)); ("severity", quote (Severity_as_str (severity f)));
          ("message", quote (finding_message f));
          ("receipt_id", match finding_receipt_id f with Some id => quote id | None => "null" end)].

Inductive PolicyDecision : Type :=
  | PD_Allow (reason receipt_id : string)
  | PD_Deny (reason : string) (finding : Finding).

Definition is_allowed (d : PolicyDecision) : bool :=
  match d with PD_Allow _ _ => true | PD_Deny _ _ => false end.

Record Report : Type := { name : string; state : HealthState; findings : list Finding }.

Definition Report_new (n : string) : Report :=
  {| name := n; state := HS_Healthy; findings := [] |}.

Definition highest (l : list Finding) : Severity := foldr severity_max Info (severity <$> l).

Definition highest_severity (r : Report) : Severity := highest (findings r).

Definition code_leb (a b : Finding) : bool := String.leb (finding_code a) (finding_code b).

Definition push (r : Report) (f : Finding) : Report :=
  {| name := name r;
     state := if rank (highest_severity r) <? rank (severity f)
              then from_severity (severity f) else state r;
     findings := isort code_leb (findings r ++ [f]) |}.

(** [if condition { report.push(..) }]. *)
Definition push_if (b : bool) (f : Finding) (r : Report) : Report := if b then push r f else r.

(** [if report.findings.is_empty() { report.push(..) }]: the closing finding of a report, when there is nothing else to say. *)
Definition push_if_none (f : Finding) (r : Report) : Report :=
  push_if (bool_decide (findings r = [])) f r.

Definition fails_closed (r : Report) : bool := fails (highest_severity r).

Definition Report_to_json (r : Report) : string :=
  object [("name", quote (name r)); ("state", quote (HealthState_as_str (state r)));
          ("highest_severity", quote (Severity_as_str (highest_severity r)));
          ("findings", "[" +:+ join "," (Finding_to_json <$> findings r) +:+ "]")].

(** * Receipts (jeryu-phase11-audit) *)

Inductive AuditKind : Type :=
  | AK_Operation | AK_ComplianceExport | AK_UpgradePlan | AK_RollbackPlan | AK_TenantDecision
  | AK_ReplayVerification | AK_Readiness.

Definition AuditKind_as_str (k : AuditKind) : string :=
  match k with
  | AK_Operation => "operation" | AK_ComplianceExport => "jeryu_compliance_export"
  | AK_UpgradePlan => "upgrade_plan" | AK_RollbackPlan => "rollback_plan"
  | AK_TenantDecision => "tenant_decision" | AK_ReplayVerification => "replay_verification"
  | AK_Readiness => "readiness"
  end.

Record Receipt : Type := {
  receipt_id : string;
  tenant : string;
  kind : AuditKind;
  actor : string;
  subject : string;
  evidence : list string;
  timestamp_unix : N;
  digest : Digest
}.

Definition receipt_text (t : TenantId) (k : AuditKind) (a s : string) (ev : list string)
    (now : N) : string :=
  t +:+ "|" +:+ AuditKind_as_str k +:+ "|" +:+ a +:+ "|" +:+ s +:+ "|" +:+ join ";" ev
  +:+ "|" +:+ show_N now.

Definition Receipt_new (t : TenantId) (k : AuditKind) (a s : string) (ev : list string)
    (now : N) : Receipt :=
  let d := Digest_from_text "receipt" (receipt_text t k a s ev now) in
  {| receipt_id := replace_char ":" "_" d; tenant := t; kind := k; actor := a; subject := s;
     evidence := ev; timestamp_unix := now; digest := d |}.

#[global] Arguments Receipt_new : simpl never.

Definition Receipt_to_json (r : Receipt) : string :=
  object [("id", quote (receipt_id r)); ("tenant", quote (tenant r));
          ("kind", quote (AuditKind_as_str (kind r))); ("actor", quote (actor r));
          ("subject", quote (subject r)); ("evidence", json_array (evidence r));
          ("timestamp_unix", show_N (timestamp_unix r)); ("digest", quote (digest r))].

Definition AuditLedger : Type := list Receipt.

Definition append (l : AuditLedger) (r : Receipt) : string * AuditLedger :=
  (receipt_id r, l ++ [r]).

Definition find (l : AuditLedger) (id : string) : option Receipt :=
  find_first (λ r, bool_decide (receipt_id r = id)) l.

Fixpoint ledger_validate (l : AuditLedger) : result () Finding :=
  match l with
  | [] => Ok tt
  | r :: l =>
      if bool_decide (evidence r = []) then
        Err (Finding_new "audit.evidence_missing" Blocked "receipt has no evidence")
      else if str_is_empty (trim (actor r)) then
        Err (Finding_new "audit.actor_missing" Blocked "receipt has no actor")
      else ledger_validate l
  end.

Definition ledger_to_json (l : AuditLedger) : string :=
  "[" +:+ join "," (Receipt_to_json <$> l) +:+ "]".

Section record.
Context (now_unix_seconds : nat → N).

Definition record (l : AuditLedger) (t : TenantId) (k : AuditKind) (a s : string)
    (ev : list string) : string * AuditLedger :=
  append l (Receipt_new t k a s ev (now_unix_seconds (length l))).
End record.

#[global] Arguments record : simpl never.

(** * Lemmas *)

(** ** Versions *)

Lemma parse_digits_uint (d : Decimal.uint) (p : positive) :
  parse_digits (NilEmpty.string_of_uint d) (N.pos p) = Some (N.pos (Pos.of_uint_acc d p)).
Proof.
  revert p. induction d; intros p; [done|..]; cbn [NilEmpty.string_of_uint parse_digits];
    (replace (is_ascii_digit _) with true by done); cbv iota;
    cbn [Pos.of_uint_acc]; rewrite <-IHd; f_equal; vm_compute code; lia.
Qed.

Lemma parse_digits_zero (d : Decimal.uint) :
  parse_digits (NilEmpty.string_of_uint d) 0 = Some (N.of_uint d).
Proof.
  induction d; [done|exact IHd|..]; cbn [NilEmpty.string_of_uint parse_digits];
    (replace (is_ascii_digit _) with true by done); cbv iota;
    exact (parse_digits_uint d _).
Qed.

Lemma show_N_nil n : NilZero.string_of_uint (N.to_uint n) = NilEmpty.string_of_uint (N.to_uint n).
Proof. pose proof (N_to_uint_nonnil n). by destruct (N.to_uint n). Qed.

Lemma string_of_uint_digits (d : Decimal.uint) :
  string_all is_ascii_digit (NilEmpty.string_of_uint d) = true.
Proof. induction d; simpl; try (rewrite IHd); done. Qed.

Lemma show_N_digits n : string_all is_ascii_digit (show_N n) = true ∧ show_N n ≠ "".
Proof.
  unfold show_N. rewrite show_N_nil. split; [apply string_of_uint_digits|].
  pose proof (N_to_uint_nonnil n). by destruct (N.to_uint n).
Qed.

Lemma parse_show max n : (n ≤ max)%N → parse_uint max (show_N n) = Some n.
Proof.
  intros Hn. destruct (show_N_digits n) as [Hd Hne]. unfold parse_uint.
  assert (match show_N n with String "+"%char s' => s' | _ => show_N n end = show_N n) as ->.
  { destruct (show_N n) as [|c s]; [done|]. simpl in Hd.
    apply andb_prop in Hd as [Hc _]. destruct c as [[] [] [] [] [] [] [] []]; done. }
  destruct (str_is_empty (show_N n)) eqn:He; [by apply str_is_empty_spec in He|].
  unfold show_N. rewrite show_N_nil, parse_digits_zero, DecimalN.Unsigned.of_to.
  by rewrite (proj2 (N.leb_le n max) Hn).
Qed.

Lemma split_on_pieces c a b :
  string_all (λ d, negb (Ascii.eqb d c)) a = true →
  split_on c (a +:+ String c b) = a :: split_on c b.
Proof.
  induction a as [|x a IH]; simpl; rewrite ?append_nil_l, ?append_cons; intros Ha.
  - simpl. by rewrite Ascii.eqb_refl.
  - apply andb_prop in Ha as [Hx Ha]. simpl. rewrite IH by done.
    by destruct (Ascii.eqb x c).
Qed.

Lemma split_on_none c a :
  string_all (λ d, negb (Ascii.eqb d c)) a = true → split_on c a = [a].
Proof.
  induction a as [|x a IH]; simpl; [done|]. intros [Hx Ha]%andb_prop.
  rewrite IH by done. by destruct (Ascii.eqb x c).
Qed.

Lemma digits_no_dot s :
  string_all is_ascii_digit s = true → string_all (λ d, negb (Ascii.eqb d ".")) s = true.
Proof. apply string_all_impl. intros c Hc. by destruct (Ascii.eqb_spec c "."); subst. Qed.

Definition version_fits (v : Version) : Prop :=
  (major v ≤ u16_max ∧ minor v ≤ u16_max ∧ patch v ≤ u16_max)%N.

Lemma parse_u16_Ok f o n : parse_u16 f o = Ok n → (n ≤ u16_max)%N ∧ is_Some o.
Proof.
  unfold parse_u16, parse_uint. destruct o as [raw|]; [|done].
  destruct (str_is_empty _); [done|]. destruct (parse_digits _ _) as [k|]; [|done].
  destruct (N.leb_spec k u16_max); [|done]. intros [= <-]. by split.
Qed.

(** A version reads back from its text; what is read always fits, and its text has as
    many components as a version has. *)
Theorem version_round_trip v :
  (version_fits v ↔ Version_parse (Version_to_string v) = Ok v)
  ∧ ∀ s w, Version_parse s = Ok w → version_fits w ∧ length (split_on "." s) = 3.
Proof.
  assert (∀ s w, Version_parse s = Ok w → version_fits w ∧ length (split_on "." s) = 3) as Hfit.
  { intros s w. unfold Version_parse. set (parts := split_on "." s). clearbody parts.
    destruct (parse_u16 "major" _) as [a|] eqn:Ha; [|done].
    destruct (parse_u16 "minor" _) as [b|] eqn:Hb; [|done].
    destruct (parse_u16 "patch" _) as [c|] eqn:Hc; [|done].
    case_bool_decide as H3; [done|]. intros [= <-].
    apply parse_u16_Ok in Ha as [Ha _], Hb as [Hb _], Hc as [Hc Hl].
    apply lookup_lt_is_Some in Hl. apply eq_None_not_Some, lookup_ge_None in H3.
    split; [by split_and!|lia]. }
  split; [|done]. split; [|by intros [? _]%Hfit].
  destruct v as [a b c]. intros (Ha&Hb&Hc). simpl in *. unfold Version_parse, Version_to_string.
  simpl. pose proof (λ n, digits_no_dot _ (proj1 (show_N_digits n))) as Hd.
  change ("." +:+ show_N b +:+ "." +:+ show_N c)
    with (String "." (show_N b +:+ String "." (show_N c))).
  rewrite !split_on_pieces, split_on_none by apply Hd. simpl.
  by rewrite !parse_show.
Qed.

(** ** Slugs *)

Lemma validate_slug_spec f s :
  validate_slug f s = Ok tt ↔ s ≠ "" ∧ String.length s ≤ 128 ∧ string_all slug_char s = true.
Proof.
  unfold validate_slug. destruct (str_is_empty s) eqn:He.
  { apply str_is_empty_spec in He. naive_solver. }
  assert (s ≠ "") by (intros ->; done).
  destruct (Nat.ltb_spec 128 (String.length s)); [split; [done|lia]|].
  destruct (string_all slug_char s); split; naive_solver.
Qed.

(** ** Reports *)

Lemma rank_max a b : rank (severity_max a b) = rank a `max` rank b.
Proof. unfold severity_max. by destruct a, b. Qed.

Lemma rank_inj a b : rank a = rank b → a = b.
Proof. by destruct a, b. Qed.

Lemma highest_rank l : ∀ n, n < rank (highest l) ↔ ∃ f, f ∈ l ∧ n < rank (severity f).
Proof.
  intros n. induction l as [|f l IH]; [split; [simpl; lia|set_solver]|].
  change (highest (f :: l)) with (severity_max (severity f) (highest l)).
  rewrite rank_max, Nat.max_lt_iff, IH. setoid_rewrite elem_of_cons. naive_solver.
Qed.

Lemma highest_perm l l' : l ≡ₚ l' → highest l = highest l'.
Proof.
  intros Hp. apply rank_inj. assert (∀ n, n < rank (highest l) ↔ n < rank (highest l')) as H.
  { intros n. rewrite !highest_rank. by setoid_rewrite Hp. }
  pose proof (proj2 (H (rank (highest l)))). pose proof (proj1 (H (rank (highest l')))). lia.
Qed.

Lemma highest_snoc l f : highest (l ++ [f]) = severity_max (highest l) (severity f).
Proof.
  rewrite (highest_perm (l ++ [f]) (f :: l)) by apply Permutation_app_comm.
  change (highest (f :: l)) with (severity_max (severity f) (highest l)).
  apply rank_inj. rewrite !rank_max. lia.
Qed.

Lemma push_findings r f : findings (push r f) ≡ₚ f :: findings r.
Proof. simpl. rewrite isort_perm. apply Permutation_app_comm. Qed.

(** A report as [push] keeps it. *)
Record report_ok (r : Report) : Prop := {
  ok_state : state r = from_severity (highest_severity r);
  ok_sorted : StronglySorted (λ a b, code_leb a b = true) (findings r)
}.

Lemma report_ok_new n : report_ok (Report_new n).
Proof. split; [done|constructor]. Qed.

Lemma report_ok_push r f : report_ok r → report_ok (push r f).
Proof.
  intros [Hs _]. split.
  - unfold highest_severity. simpl.
    rewrite (highest_perm _ (findings r ++ [f])) by (by rewrite isort_perm).
    rewrite highest_snoc. unfold highest_severity, severity_max in *.
    destruct (Nat.ltb_spec (rank (highest (findings r))) (rank (severity f))).
    + by rewrite (proj2 (Nat.leb_le _ _)) by lia.
    + rewrite Hs. destruct (Nat.leb_spec (rank (highest (findings r))) (rank (severity f)));
        [|done]. f_equal. apply rank_inj. lia.
  - apply isort_sorted; intros; [apply string_leb_total|by eapply string_leb_trans].
Qed.

Lemma report_ok_push_if b f r : report_ok r → report_ok (push_if b f r).
Proof. destruct b; [apply report_ok_push|done]. Qed.

Lemma report_ok_foldl {A} (step : Report → A → Report) l r :
  (∀ r a, report_ok r → report_ok (step r a)) → report_ok r → report_ok (foldl step r l).
Proof. intros Hstep. revert r. induction l as [|a l IH]; intros r Hr; simpl; auto. Qed.

#[export] Hint Resolve report_ok_new report_ok_push report_ok_push_if : jeryu.

(** A report that was built by pushing findings holds exactly those findings, ordered by
    their codes; its state is that of the worst of them; and it fails closed exactly when one
    of them is critical or blocked. *)
Theorem report_fails_closed n fs :
  let r := foldl push (Report_new n) fs in
  findings r ≡ₚ fs ∧ StronglySorted (λ a b, code_leb a b = true) (findings r)
  ∧ state r = from_severity (highest fs)
  ∧ (fails_closed r = true ↔ ∃ f, f ∈ fs ∧ (severity f = Critical ∨ severity f = Blocked)).
Proof.
  cbv zeta. assert (∀ r, findings (foldl push r fs) ≡ₚ findings r ++ fs) as Hp.
  { induction fs as [|f fs IH]; intros r; simpl; [by rewrite app_nil_r|].
    rewrite IH, push_findings. apply (Permutation_middle (findings r) fs f). }
  specialize (Hp (Report_new n)). simpl in Hp.
  destruct (report_ok_foldl push fs (Report_new n) ltac:(auto with jeryu) (report_ok_new n))
    as [Hs Ho].
  split_and!; [done|done| |].
  - rewrite Hs. f_equal. by apply highest_perm.
  - unfold fails_closed, highest_severity. rewrite (highest_perm _ _ Hp).
    transitivity (2 < rank (highest fs)); [by destruct (highest fs); simpl; split; try lia|].
    rewrite highest_rank. split; intros (f&Hf&Hr); exists f; (split; [done|]);
      destruct (severity f); simpl in *; try lia; naive_solver.
Qed.

(** How failing closed is computed along a sequence of pushes. *)
Lemma push_fails r f : fails_closed (push r f) = fails (severity f) || fails_closed r.
Proof.
  unfold fails_closed, highest_severity. rewrite (highest_perm _ _ (push_findings r f)).
  change (highest (f :: findings r)) with (severity_max (severity f) (highest (findings r))).
  unfold severity_max. by destruct (severity f), (highest (findings r)).
Qed.

Lemma push_if_fails b f r :
  fails_closed (push_if b f r) = b && fails (severity f) || fails_closed r.
Proof. destruct b; [apply push_fails|done]. Qed.

Lemma foldl_fails {A} (bad : A → bool) (step : Report → A → Report) l r :
  (∀ r a, fails_closed (step r a) = bad a || fails_closed r) →
  fails_closed (foldl step r l) = existsb bad l || fails_closed r.
Proof.
  intros Hstep. revert r. induction l as [|a l IH]; intros r; simpl; [done|].
  rewrite IH, Hstep. by destruct (bad a), (existsb bad l).
Qed.

Lemma push_if_none_fails f r :
  fails (severity f) = false → fails_closed (push_if_none f r) = fails_closed r.
Proof. intros Hf. unfold push_if_none. rewrite push_if_fails, Hf. by rewrite andb_false_r. Qed.

Lemma report_ok_push_if_none f r : report_ok r → report_ok (push_if_none f r).
Proof. apply report_ok_push_if. Qed.

#[export] Hint Resolve report_ok_push_if_none : jeryu.

(** ** Receipts *)

Lemma record_spec now l t k a s ev :
  (record now l t k a s ev).2 = l ++ [Receipt_new t k a s ev (now (length l))]
  ∧ (record now l t k a s ev).1 = receipt_id (Receipt_new t k a s ev (now (length l))).
Proof. done. Qed.

(** The receipt a goal records, by name. *)
Ltac take_receipt r :=
  lazymatch goal with
  | |- context [record ?now ?l ?t ?k ?a ?s ?ev] =>
      let H1 := fresh in let H2 := fresh in
      destruct (record_spec now l t k a s ev) as [H1 H2];
      destruct (record now l t k a s ev) as [? ?]; cbn [fst snd] in H1, H2; subst;
      set (r := Receipt_new t k a s ev (now (length l))) in *
  end.

(** The receipt is found under the identifier it got, or an earlier one with the same. *)
Lemma record_find now l t k a s ev :
  is_Some (find (record now l t k a s ev).2 (record now l t k a s ev).1).
Proof.
  unfold find. destruct (find_first _ _) eqn:Hf; [by eexists|].
  rewrite find_first_None, Forall_forall in Hf. specialize (Hf (Receipt_new t k a s ev (now (length l)))).
  rewrite bool_decide_eq_false in Hf. exfalso. apply Hf; [|done].
  simpl. apply elem_of_app. right. by constructor.
Qed.

Lemma ledger_validate_spec l :
  ledger_validate l = Ok tt ↔ ∀ r, r ∈ l → evidence r ≠ [] ∧ trim (actor r) ≠ "".
Proof.
  induction l as [|r l IH]; simpl; [split; [set_solver|done]|]. setoid_rewrite elem_of_cons.
  case_bool_decide as He; [naive_solver|].
  destruct (str_is_empty _) eqn:Ha; [apply str_is_empty_spec in Ha; naive_solver|].
  assert (trim (actor r) ≠ "") by (by intros Heq; rewrite Heq in Ha). rewrite IH. naive_solver.
Qed.

(** ** Samples *)

Lemma version_samples :
  Version_to_string (Version_new 0 11 0) = "0.11.0"
  ∧ is_ok (Version_parse "0.11") = false ∧ is_ok (Version_parse "0.11.x") = false
  ∧ Version_parse "+1.02.3" = Ok (Version_new 1 2 3).
Proof. by vm_compute. Qed.

(** The same decision twice in a second is two receipts with one identifier. *)
Lemma receipts_collide t k a s ev :
  let (id1, l) := record (λ _, 1000%N) [] t k a s ev in
  let (id2, l') := record (λ _, 1000%N) l t k a s ev in
  id1 = id2 ∧ length l' = 2.
Proof. done. Qed.

Lemma version_round_trip_witness :
  version_fits (Version_new 0 11 0)
  ∧ Version_parse (Version_to_string (Version_new 0 11 0)) = Ok (Version_new 0 11 0).
Proof.
  destruct (version_round_trip (Version_new 0 11 0)) as [H1 H2].
  assert (Version_parse "0.11.0" = Ok (Version_new 0 11 0)) as Hp by by vm_compute.
  split; [exact (proj1 (H2 _ _ Hp))|]. apply H1. exact (proj1 (H2 _ _ Hp)).
Defined.
