(* ===== verification/Operations.v ===== *)
(** Operations: the release tools over Phase11.

    jeryu-tenant, jeryu-ops, jeryu-compliance-export, jeryu-lifecycle, jeryu-replay-verifier
    and jeryu-kernel (jeryu-release-ops/crates): who may act for a tenant, whether services
    are healthy, whether evidence is complete, upgrade and rollback plans, replayable claims,
    and the readiness report that puts them together. *)

From Stdlib Require Import Ascii.
From S2P Require Import Prelude Text Floats Phase11.

Section operations.
Context (now_unix_seconds : nat → N).

Notation record := (record now_unix_seconds).

(** * Tenants (jeryu-tenant) *)

Inductive Role : Type :=
  | Role_Viewer | Role_Operator | Role_Auditor | Role_Admin | Role_BreakGlass.

#[export] Instance Role_eq_dec : EqDecision Role.
Proof. solve_decision. Defined.

Definition Role_as_str (r : Role) : string :=
  match r with
  | Role_Viewer => "viewer" | Role_Operator => "operator" | Role_Auditor => "auditor"
  | Role_Admin => "admin" | Role_BreakGlass => "break_glass"
  end.

Inductive TenantAction : Type :=
  | ReadEvidence | ExportCompliance | PlanUpgrade | ApplyUpgrade | PlanRollback | UpdateQuota
  | ReadReplay.

#[export] Instance TenantAction_eq_dec : EqDecision TenantAction.
Proof. solve_decision. Defined.

Definition TenantAction_as_str (a : TenantAction) : string :=
  match a with
  | ReadEvidence => "read_evidence" | ExportCompliance => "export_compliance"
  | PlanUpgrade => "plan_upgrade" | ApplyUpgrade => "apply_upgrade"
  | PlanRollback => "plan_rollback" | UpdateQuota => "update_quota"
  | ReadReplay => "read_replay"
  end.

Record QuotaLimit : Type := {
  max_repos : N; max_runners : N; max_storage_gib : N; max_audit_exports_per_day : N
}.

Definition QuotaLimit_default : QuotaLimit :=
  {| max_repos := 10000; max_runners := 1000; max_storage_gib := 50000;
     max_audit_exports_per_day := 100 |}.

Record QuotaUsage : Type := {
  repos : N; runners : N; storage_gib : N; audit_exports_today : N
}.

Definition QuotaUsage_zero : QuotaUsage :=
  {| repos := 0; runners := 0; storage_gib := 0; audit_exports_today := 0 |}.

Record TenantPolicyInput : Type := {
  input_tenant : TenantId;
  input_actor : string;
  role : Role;
  action : TenantAction;
  quota : QuotaLimit;
  usage : QuotaUsage;
  break_glass_ticket : option string
}.

Definition TenantPolicyInput_to_json (i : TenantPolicyInput) : string :=
  object [("tenant", quote (input_tenant i)); ("actor", quote (input_actor i));
          ("role", quote (Role_as_str (role i)));
          ("action", quote (TenantAction_as_str (action i)));
          ("repos", show_N (repos (usage i))); ("runners", show_N (runners (usage i)));
          ("storage_gib", show_N (storage_gib (usage i)));
          ("audit_exports_today", show_N (audit_exports_today (usage i)))].

Definition deny (c m : string) : PolicyDecision := PD_Deny m (Finding_new c Blocked m).

Definition over_quota (u : QuotaUsage) (q : QuotaLimit) : bool :=
  ((max_repos q <? repos u) || (max_runners q <? runners u)
   || (max_storage_gib q <? storage_gib u)
   || (max_audit_exports_per_day q <? audit_exports_today u))%N.

Definition role_allows (r : Role) (a : TenantAction) : bool :=
  match r with
  | Role_Viewer => match a with ReadEvidence | ReadReplay => true | _ => false end
  | Role_Auditor =>
      match a with ReadEvidence | ExportCompliance | ReadReplay => true | _ => false end
  | Role_Operator =>
      match a with ReadEvidence | PlanUpgrade | PlanRollback | ReadReplay => true | _ => false end
  | Role_Admin => match a with ApplyUpgrade => false | _ => true end
  | Role_BreakGlass => true
  end.

Definition ticket_missing (i : TenantPolicyInput) : bool :=
  match break_glass_ticket i with Some s => str_is_empty (trim s) | None => true end.

Definition decide_tenant (i : TenantPolicyInput) (ledger : AuditLedger) :
    PolicyDecision * AuditLedger :=
  if str_is_empty (trim (input_actor i)) then
    (deny "tenant.actor_missing" "actor is required", ledger)
  else if over_quota (usage i) (quota i) then
    (deny "tenant.quota_exceeded" "tenant is over quota", ledger)
  else if bool_decide (role i = Role_BreakGlass) && ticket_missing i then
    (deny "tenant.break_glass_ticket_missing" "break-glass access requires a ticket", ledger)
  else if negb (role_allows (role i) (action i)) then
    (deny "tenant.role_denied" "role does not allow requested action", ledger)
  else
    let (id, ledger) := record ledger (input_tenant i) AK_TenantDecision (input_actor i)
      (TenantAction_as_str (action i))
      ["role=" +:+ Role_as_str (role i); "decision=allow"] in
    (PD_Allow "tenant policy allowed action" id, ledger).

(** * Health (jeryu-ops) *)

Record ServiceSignal : Type := {
  service : string;
  p95_ms : N;
  error_rate_per_million : N;
  queue_depth : N;
  stale_heartbeat_seconds : N
}.

Record SloThresholds : Type := {
  max_p95_ms : N;
  max_error_rate_per_million : N;
  max_queue_depth : N;
  max_stale_heartbeat_seconds : N
}.

Definition SloThresholds_default : SloThresholds :=
  {| max_p95_ms := 1000; max_error_rate_per_million := 1000; max_queue_depth := 500;
     max_stale_heartbeat_seconds := 60 |}.

Record RemediationAction : Type := {
  action_name : string; safe_automatic : bool; command_hint : string
}.

Definition RemediationAction_to_json (a : RemediationAction) : string :=
  object [("name", quote (action_name a)); ("safe_automatic", show_bool (safe_automatic a));
          ("command_hint", quote (command_hint a))].

Record OpsPlan : Type := {
  ops_report : Report; actions : list RemediationAction; ops_receipt_id : string
}.

Definition OpsPlan_to_json (p : OpsPlan) : string :=
  object [("receipt_id", quote (ops_receipt_id p)); ("report", Report_to_json (ops_report p));
          ("actions", "[" +:+ join "," (RemediationAction_to_json <$> actions p) +:+ "]")].

Definition slow (t : SloThresholds) (s : ServiceSignal) : bool := (max_p95_ms t <? p95_ms s)%N.
Definition failing (t : SloThresholds) (s : ServiceSignal) : bool :=
  (max_error_rate_per_million t <? error_rate_per_million s)%N.
Definition queued (t : SloThresholds) (s : ServiceSignal) : bool :=
  (max_queue_depth t <? queue_depth s)%N.
Definition silent (t : SloThresholds) (s : ServiceSignal) : bool :=
  (max_stale_heartbeat_seconds t <? stale_heartbeat_seconds s)%N.

Definition signal_report (t : SloThresholds) (r : Report) (s : ServiceSignal) : Report :=
  push_if (silent t s)
    (Finding_new ("ops." +:+ service s +:+ ".heartbeat") Blocked
      ("heartbeat silent for " +:+ show_N (stale_heartbeat_seconds s) +:+ " seconds"))
  (push_if (queued t s)
    (Finding_new ("ops." +:+ service s +:+ ".queue") Degraded
      ("queue depth " +:+ show_N (queue_depth s) +:+ " exceeds " +:+ show_N (max_queue_depth t)))
  (push_if (failing t s)
    (Finding_new ("ops." +:+ service s +:+ ".errors") Critical
      ("error rate " +:+ show_N (error_rate_per_million s) +:+ " ppm exceeds "
       +:+ show_N (max_error_rate_per_million t) +:+ " ppm"))
  (push_if (slow t s)
    (Finding_new ("ops." +:+ service s +:+ ".latency") Degraded
      ("p95 " +:+ show_N (p95_ms s) +:+ " ms exceeds " +:+ show_N (max_p95_ms t) +:+ " ms")) r))).

Definition remedy (n : string) (safe : bool) (hint : string) : RemediationAction :=
  {| action_name := n; safe_automatic := safe; command_hint := hint |}.

Definition signal_actions (t : SloThresholds) (s : ServiceSignal) : list RemediationAction :=
  (if slow t s then [remedy "scale-read-path" true "jit ops scale api --ring current"] else [])
  ++ (if failing t s then [remedy "page-owner" false "jit ops page --service affected"] else [])
  ++ (if queued t s
      then [remedy "shed-noncritical-work" true "jit ops shed --class best-effort"] else [])
  ++ (if silent t s
      then [remedy "revoke-runner-lease" true "jit runner lease revoke --unresponsive"] else []).

Definition dedupe_actions (l : list RemediationAction) : list RemediationAction :=
  foldl (λ out a, if existsb (λ x, bool_decide (action_name x = action_name a)) out
                  then out else out ++ [a]) [] l.

Definition evaluate_operations (t : TenantId) (a : string) (signals : list ServiceSignal)
    (th : SloThresholds) (ledger : AuditLedger) : OpsPlan * AuditLedger :=
  let none := bool_decide (signals = []) in
  let report := push_if none
    (Finding_new "ops.signals_missing" Blocked "no service signals were supplied")
    (Report_new "phase11.operations") in
  let hold := if none then [remedy "hold-merges" false "jit ops hold --reason missing-signals"]
              else [] in
  let report := foldl (signal_report th) report signals in
  let report := push_if_none
    (Finding_new "ops.healthy" Info "all service signals are within thresholds") report in
  let (id, ledger) := record ledger t AK_Operation a "ops-evaluation"
    ["signals=" +:+ show_N (N.of_nat (length signals));
     "state=" +:+ HealthState_as_str (state report)] in
  ({| ops_report := report;
      actions := dedupe_actions (hold ++ flat_map (signal_actions th) signals);
      ops_receipt_id := id |}, ledger).

Definition mutation_gate (s : HealthState) : bool :=
  match s with HS_Healthy | HS_Degraded => true | _ => false end.

(** * Compliance (jeryu-compliance-export) *)

Inductive ControlFamily : Type :=
  | AccessControl | ChangeManagement | IncidentResponse | Availability | Provenance
  | TenantIsolation.

Definition ControlFamily_as_str (f : ControlFamily) : string :=
  match f with
  | AccessControl => "access_control" | ChangeManagement => "change_management"
  | IncidentResponse => "incident_response" | Availability => "availability"
  | Provenance => "provenance" | TenantIsolation => "tenant_isolation"
  end.

Record Control : Type := {
  control_id : string; family : ControlFamily; title : string; required_evidence : list string
}.

Definition Control_new (i : string) (f : ControlFamily) (t : string) (r : list string) : Control :=
  {| control_id := i; family := f; title := t; required_evidence := r |}.

Record EvidenceRecord : Type := {
  label : string; record_receipt_id : string; record_digest : Digest
}.

Definition EvidenceRecord_from_text (l id text : string) : EvidenceRecord :=
  {| label := l; record_receipt_id := id; record_digest := Digest_from_text "evidence" text |}.

Definition EvidenceRecord_to_json (e : EvidenceRecord) : string :=
  object [("label", quote (label e)); ("receipt_id", quote (record_receipt_id e));
          ("digest", quote (record_digest e))].

Record EvidenceBundle : Type := {
  bundle_tenant : string;
  format : ExportFormat;
  controls : list Control;
  bundle_evidence : list EvidenceRecord;
  bundle_receipt_id : string;
  bundle_digest : Digest
}.

Definition Control_to_json (c : Control) : string :=
  object [("id", quote (control_id c)); ("family", quote (ControlFamily_as_str (family c)));
          ("title", quote (title c)); ("required_evidence", json_array (required_evidence c))].

Definition EvidenceBundle_to_json (b : EvidenceBundle) : string :=
  object [("tenant", quote (bundle_tenant b));
          ("format", quote (ExportFormat_as_str (format b)));
          ("receipt_id", quote (bundle_receipt_id b));
          ("bundle_digest", quote (bundle_digest b));
          ("controls", "[" +:+ join "," (Control_to_json <$> controls b) +:+ "]");
          ("evidence", "[" +:+ join "," (EvidenceRecord_to_json <$> bundle_evidence b) +:+ "]")].

Definition default_controls : list Control :=
  [Control_new "P11-AC-001" AccessControl "Scoped admin and operator access"
     ["rbac_decision"; "tenant_policy"];
   Control_new "P11-CM-001" ChangeManagement "Ringed reversible upgrades"
     ["upgrade_plan"; "rollback_plan"];
   Control_new "P11-IR-001" IncidentResponse "Operational runbook receipts" ["ops_plan"];
   Control_new "P11-AV-001" Availability "SLO evidence and fail-closed gates" ["ops_report"];
   Control_new "P11-PV-001" Provenance "Replayable benchmark and release claims"
     ["replay_verdict"];
   Control_new "P11-TI-001" TenantIsolation "Tenant quota and isolation enforcement"
     ["tenant_policy"]].

Definition has_evidence (b : EvidenceBundle) (l : string) : bool :=
  existsb (λ e, bool_decide (label e = l)) (bundle_evidence b).

Definition control_report (b : EvidenceBundle) (r : Report) (c : Control) : Report :=
  foldl (λ r l, push_if (negb (has_evidence b l))
    (Finding_new ("compliance." +:+ control_id c +:+ ".missing." +:+ l) Blocked
      ("control " +:+ control_id c +:+ " is missing required evidence " +:+ l)) r)
    r (required_evidence c).

Definition validate_bundle (b : EvidenceBundle) : Report :=
  push_if_none (Finding_new "compliance.complete" Info "all controls have required evidence")
    (foldl (control_report b) (Report_new "phase11.compliance") (controls b)).

Definition export_bundle (t : TenantId) (a : string) (f : ExportFormat) (cs : list Control)
    (ev : list EvidenceRecord) (ledger : AuditLedger) : EvidenceBundle * AuditLedger :=
  let d := Digest_from_text "bundle"
    (join ";" ((λ e, label e +:+ "=" +:+ record_digest e) <$> ev)) in
  let (id, ledger) := record ledger t AK_ComplianceExport a "phase11-jeryu_compliance_export"
    (label <$> ev) in
  ({| bundle_tenant := t; format := f; controls := cs; bundle_evidence := ev;
      bundle_receipt_id := id; bundle_digest := d |}, ledger).

(** * Upgrades (jeryu-lifecycle) *)

Record MigrationStep : Type := {
  step_name : string;
  idempotency_key : string;
  forward : string;
  rollback : string;
  requires_quiescence : bool
}.

Definition MigrationStep_new (n k f r : string) (q : bool) : MigrationStep :=
  {| step_name := n; idempotency_key := k; forward := f; rollback := r;
     requires_quiescence := q |}.

Definition reversible (s : MigrationStep) : bool := negb (str_is_empty (trim (rollback s))).

Definition MigrationStep_to_json (s : MigrationStep) : string :=
  object [("name", quote (step_name s)); ("idempotency_key", quote (idempotency_key s));
          ("forward", quote (forward s)); ("rollback", quote (rollback s));
          ("requires_quiescence", show_bool (requires_quiescence s))].

Record UpgradePlan : Type := {
  from : Version;
  to : Version;
  rings : list UpgradeRing;
  migrations : list MigrationStep;
  upgrade_receipt_id : string
}.

Definition keyless (s : MigrationStep) : bool := str_is_empty (trim (idempotency_key s)).

Definition step_report (r : Report) (s : MigrationStep) : Report :=
  push_if (negb (reversible s))
    (Finding_new ("lifecycle." +:+ step_name s +:+ ".rollback_missing") Blocked
      "migration lacks rollback")
  (push_if (keyless s)
    (Finding_new ("lifecycle." +:+ step_name s +:+ ".idempotency_missing") Blocked
      "migration lacks idempotency key") r).

Definition UpgradePlan_validate (p : UpgradePlan) : Report :=
  let report := push_if (bool_decide (Version_to_string (to p) = Version_to_string (from p)))
    (Finding_new "lifecycle.noop_upgrade" Warning "upgrade target equals current version")
    (Report_new "phase11.lifecycle") in
  let report := push_if (bool_decide (rings p ≠ ordered))
    (Finding_new "lifecycle.rings_incomplete" Blocked
      "upgrade must pass through all rings in order") report in
  let report := push_if (bool_decide (migrations p = []))
    (Finding_new "lifecycle.migrations_missing" Blocked
      "upgrade plan must declare migrations") report in
  push_if_none (Finding_new "lifecycle.valid" Info "upgrade plan is ringed and reversible")
    (foldl step_report report (migrations p)).

Definition UpgradePlan_to_json (p : UpgradePlan) : string :=
  object [("from", quote (Version_to_string (from p))); ("to", quote (Version_to_string (to p)));
          ("rings", json_array (UpgradeRing_as_str <$> rings p));
          ("receipt_id", quote (upgrade_receipt_id p));
          ("migrations", "[" +:+ join "," (MigrationStep_to_json <$> migrations p) +:+ "]")].

Record RollbackPlan : Type := {
  target : Version; rollback_steps : list string; rollback_receipt_id : string
}.

Definition RollbackPlan_to_json (p : RollbackPlan) : string :=
  object [("target", quote (Version_to_string (target p)));
          ("receipt_id", quote (rollback_receipt_id p));
          ("steps", json_array (rollback_steps p))].

Definition plan_upgrade (t : TenantId) (a : string) (f to_ : Version) (ms : list MigrationStep)
    (ledger : AuditLedger) : UpgradePlan * AuditLedger :=
  let (id, ledger) := record ledger t AK_UpgradePlan a "phase11-upgrade"
    ["from=" +:+ Version_to_string f; "to=" +:+ Version_to_string to_;
     "migrations=" +:+ show_N (N.of_nat (length ms))] in
  ({| from := f; to := to_; rings := ordered; migrations := ms; upgrade_receipt_id := id |},
   ledger).

Definition plan_rollback (t : TenantId) (a : string) (u : UpgradePlan) (ledger : AuditLedger) :
    RollbackPlan * AuditLedger :=
  let steps := rollback <$> rev (migrations u) in
  let steps := if bool_decide (steps = [])
               then ["no rollback steps available; hold rollout"] else steps in
  let (id, ledger) := record ledger t AK_RollbackPlan a "phase11-rollback"
    ["target=" +:+ Version_to_string (from u)] in
  ({| target := from u; rollback_steps := steps; rollback_receipt_id := id |}, ledger).

Definition default_phase11_migrations : list MigrationStep :=
  [MigrationStep_new "audit-ledger-index" "p11-audit-ledger-index-v1"
     "create audit receipt lookup index" "drop audit receipt lookup index" false;
   MigrationStep_new "tenant-quota-ledger" "p11-tenant-quota-ledger-v1"
     "create tenant quota snapshots" "archive tenant quota snapshots" false;
   MigrationStep_new "replay-receipt-catalog" "p11-replay-receipt-catalog-v1"
     "create replay receipt catalog" "drop replay receipt catalog" true].

(** * Replayable claims (jeryu-replay-verifier) *)

Record ReplayClaim : Type := {
  claim_id : string;
  competitor : string;
  jeryu_runner : string;
  fixture : string;
  scenario : string;
  hardware : string;
  cache_state : string;
  git_sha : string;
  pipeline_ir_hash : string;
  duration_ms : N;
  speedup_vs_baseline : f32;
  false_cache_hits : N;
  artifact_digest : string;
  reproduce : string
}.

Definition claim_digest (c : ReplayClaim) : Digest :=
  Digest_from_text "replay" (join "|"
    [claim_id c; competitor c; jeryu_runner c; fixture c; scenario c; hardware c; cache_state c;
     git_sha c; pipeline_ir_hash c; show_N (duration_ms c); show_f32 (speedup_vs_baseline c);
     show_N (false_cache_hits c); artifact_digest c]).

Definition ReplayClaim_to_json (c : ReplayClaim) : string :=
  object [("claim_id", quote (claim_id c)); ("competitor", quote (competitor c));
          ("jeryu_runner", quote (jeryu_runner c)); ("fixture", quote (fixture c));
          ("scenario", quote (scenario c)); ("hardware", quote (hardware c));
          ("cache_state", quote (cache_state c)); ("git_sha", quote (git_sha c));
          ("pipeline_ir_hash", quote (pipeline_ir_hash c));
          ("duration_ms", show_N (duration_ms c));
          ("speedup_vs_baseline", show_f32 (speedup_vs_baseline c));
          ("false_cache_hits", show_N (false_cache_hits c));
          ("artifact_digest", quote (artifact_digest c)); ("reproduce", quote (reproduce c));
          ("digest", quote (claim_digest c))].

Record ReplayVerdict : Type := { verdict_report : Report; verdict_receipt_id : string }.

Definition ReplayVerdict_to_json (v : ReplayVerdict) : string :=
  object [("receipt_id", quote (verdict_receipt_id v));
          ("report", Report_to_json (verdict_report v))].

Definition claim_fields (c : ReplayClaim) : list (string * string) :=
  [("claim_id", claim_id c); ("competitor", competitor c); ("jeryu_runner", jeryu_runner c);
   ("fixture", fixture c); ("scenario", scenario c); ("hardware", hardware c);
   ("cache_state", cache_state c); ("git_sha", git_sha c);
   ("pipeline_ir_hash", pipeline_ir_hash c); ("artifact_digest", artifact_digest c);
   ("reproduce", reproduce c)].

Definition blank (kv : string * string) : bool := str_is_empty (trim kv.2).

Definition field_report (r : Report) (kv : string * string) : Report :=
  push_if (blank kv)
    (Finding_new ("replay." +:+ kv.1 +:+ ".missing") Blocked (kv.1 +:+ " is required")) r.

Definition claim_report (c : ReplayClaim) (min_speedup : f32) : Report :=
  let r := foldl field_report (Report_new "phase11.replay") (claim_fields c) in
  let r := push_if (duration_ms c =? 0)%N
    (Finding_new "replay.duration_zero" Blocked "duration must be non-zero") r in
  let r := push_if (SFltb (speedup_vs_baseline c) min_speedup)
    (Finding_new "replay.speedup_insufficient" Critical
      ("speedup " +:+ show_f32 (speedup_vs_baseline c) +:+ " is below required "
       +:+ show_f32 min_speedup)) r in
  let r := push_if (negb (false_cache_hits c =? 0)%N)
    (Finding_new "replay.false_cache_hits" Blocked "false cache hits are not tolerated") r in
  let r := push_if (negb (str_contains ":" (pipeline_ir_hash c)))
    (Finding_new "replay.ir_hash_format" Blocked
      "pipeline IR hash must include algorithm prefix") r in
  let r := push_if (negb (str_contains ":" (artifact_digest c)))
    (Finding_new "replay.artifact_digest_format" Blocked
      "artifact digest must include algorithm prefix") r in
  push_if_none (Finding_new "replay.verified" Info "claim is replayable under Phase 11 law") r.

Definition verify_claim (t : TenantId) (a : string) (c : ReplayClaim) (min_speedup : f32)
    (ledger : AuditLedger) : ReplayVerdict * AuditLedger :=
  let r := claim_report c min_speedup in
  let (id, ledger) := record ledger t AK_ReplayVerification a (claim_id c)
    [claim_digest c; "state=" +:+ HealthState_as_str (state r)] in
  ({| verdict_report := r; verdict_receipt_id := id |}, ledger).

Definition fixture_claim : ReplayClaim :=
  {| claim_id := "bench_phase11_fixture"; competitor := "baseline-runner-container";
     jeryu_runner := "native-rust-hot"; fixture := "rust-medium";
     scenario := "private-function-change-warm-cache"; hardware := "32c/128gb/nvme";
     cache_state := "warm_project_cache"; git_sha := "abc123";
     pipeline_ir_hash := "blake3:fixture"; duration_ms := 18231;
     speedup_vs_baseline := f32_decimal 48 (-1); false_cache_hits := 0;
     artifact_digest := "sha256:fixture";
     reproduce := "jit bench replay bench_phase11_fixture" |}.

(** * Readiness (jeryu-kernel) *)

Record Phase11Readiness : Type := {
  readiness_tenant : string;
  overall : Report;
  audit_receipts_json : string;
  ops_json : string;
  compliance_json : string;
  lifecycle_json : string;
  rollback_json : string;
  replay_json : string
}.

Definition Phase11Readiness_to_json (r : Phase11Readiness) : string :=
  object [("tenant", quote (readiness_tenant r)); ("overall", Report_to_json (overall r));
          ("ops", ops_json r); ("compliance", compliance_json r);
          ("lifecycle", lifecycle_json r); ("rollback", rollback_json r);
          ("replay", replay_json r); ("audit_receipts", audit_receipts_json r)].

Definition tenant_decision_to_finding (d : PolicyDecision) : option Finding :=
  match d with
  | PD_Allow _ id =>
      Some (with_receipt (Finding_new "tenant.allowed" Info
              "tenant policy allowed compliance export") id)
  | PD_Deny _ f => Some f
  end.

Definition policy_receipt (d : PolicyDecision) : string :=
  match d with PD_Allow _ id => id | PD_Deny _ f => finding_code f end.

Definition merge_findings (r : Report) (f : option Finding) : Report :=
  match f with Some f => push r f | None => r end.

Definition readiness_signals : list ServiceSignal :=
  [{| service := "jeryu_api"; p95_ms := 85; error_rate_per_million := 5; queue_depth := 12;
      stale_heartbeat_seconds := 2 |};
   {| service := "jeryu_runnerd"; p95_ms := 120; error_rate_per_million := 0; queue_depth := 4;
      stale_heartbeat_seconds := 3 |};
   {| service := "jeryu_cache"; p95_ms := 95; error_rate_per_million := 1; queue_depth := 7;
      stale_heartbeat_seconds := 1 |}].

Definition readiness_evidence (d : PolicyDecision) (u : UpgradePlan) (b : RollbackPlan)
    (o : OpsPlan) (v : ReplayVerdict) : list EvidenceRecord :=
  [EvidenceRecord_from_text "rbac_decision" (policy_receipt d) "auditor export allowed";
   EvidenceRecord_from_text "tenant_policy" (policy_receipt d) "tenant policy enforced";
   EvidenceRecord_from_text "upgrade_plan" (upgrade_receipt_id u) (UpgradePlan_to_json u);
   EvidenceRecord_from_text "rollback_plan" (rollback_receipt_id b) (RollbackPlan_to_json b);
   EvidenceRecord_from_text "ops_plan" (ops_receipt_id o) (OpsPlan_to_json o);
   EvidenceRecord_from_text "ops_report" (ops_receipt_id o) (Report_to_json (ops_report o));
   EvidenceRecord_from_text "replay_verdict" (verdict_receipt_id v) (ReplayVerdict_to_json v)].

Definition readiness (t : TenantId) (a : string) : Phase11Readiness * AuditLedger :=
  let (decision, ledger) := decide_tenant
    {| input_tenant := t; input_actor := a; role := Role_Auditor; action := ExportCompliance;
       quota := QuotaLimit_default; usage := QuotaUsage_zero; break_glass_ticket := None |} [] in
  let (ops, ledger) :=
    evaluate_operations t a readiness_signals SloThresholds_default ledger in
  let (upgrade, ledger) := plan_upgrade t a (Version_new 0 10 0) (Version_new 0 11 0)
    default_phase11_migrations ledger in
  let (back, ledger) := plan_rollback t a upgrade ledger in
  let (replay, ledger) := verify_claim t a fixture_claim (f32_decimal 2 0) ledger in
  let (bundle, ledger) := export_bundle t a EF_Json default_controls
    (readiness_evidence decision upgrade back ops replay) ledger in
  let r := merge_findings (Report_new "phase11.readiness")
    (tenant_decision_to_finding decision) in
  let r := foldl (λ r report, foldl push r (findings report)) r
    [ops_report ops; validate_bundle bundle; UpgradePlan_validate upgrade;
     verdict_report replay] in
  let r := push_if (forallb (λ f, bool_decide (severity f = Info)) (findings r))
    (Finding_new "phase11.ready" Info "Phase 11 readiness gates are satisfied") r in
  let (id, ledger) := record ledger t AK_Readiness a "phase11-readiness"
    ["state=" +:+ HealthState_as_str (state r)] in
  let r := push r (with_receipt (Finding_new "phase11.readiness_receipt" Info
             "readiness receipt emitted") id) in
  ({| readiness_tenant := t; overall := r; audit_receipts_json := ledger_to_json ledger;
      ops_json := OpsPlan_to_json ops; compliance_json := EvidenceBundle_to_json bundle;
      lifecycle_json := UpgradePlan_to_json upgrade;
      rollback_json := RollbackPlan_to_json back;
      replay_json := ReplayVerdict_to_json replay |}, ledger).

(** * Tenants: who is allowed *)

(** The conditions under which a tenant's action is allowed. *)
Definition permitted (i : TenantPolicyInput) : bool :=
  negb (str_is_empty (trim (input_actor i))) && negb (over_quota (usage i) (quota i))
  && (negb (bool_decide (role i = Role_BreakGlass)) || negb (ticket_missing i))
  && role_allows (role i) (action i).

(** A tenant decision is an allowance exactly when the actor is named, no quota is
    exceeded, break-glass has its ticket and the role covers the action; the ledger then has
    one more receipt, that the allowance names, of this tenant, actor and action; a refusal
    is a blocking finding and leaves the ledger as it was. Applying an upgrade takes
    break-glass and its ticket. *)
Theorem tenant_decision_spec i ledger :
  let (d, ledger') := decide_tenant i ledger in
  is_allowed d = permitted i
  ∧ match d with
    | PD_Allow _ id =>
        ∃ r, ledger' = ledger ++ [r] ∧ id = receipt_id r ∧ tenant r = input_tenant i
          ∧ actor r = input_actor i ∧ kind r = AK_TenantDecision
          ∧ subject r = TenantAction_as_str (action i)
          ∧ evidence r = ["role=" +:+ Role_as_str (role i); "decision=allow"]
    | PD_Deny _ f => ledger' = ledger ∧ severity f = Blocked
    end
  ∧ (if is_allowed d && bool_decide (action i = ApplyUpgrade)
     then role i = Role_BreakGlass ∧ ticket_missing i = false else True).
Proof.
  unfold decide_tenant, permitted.
  destruct (str_is_empty (trim (input_actor i))); [done|].
  destruct (over_quota _ _); [done|].
  destruct (bool_decide (role i = Role_BreakGlass) && ticket_missing i) eqn:Hb.
  { apply andb_prop in Hb as [-> ->]. by rewrite andb_false_r. }
  assert (negb (bool_decide (role i = Role_BreakGlass)) || negb (ticket_missing i) = true) as ->.
  { by destruct (bool_decide _), (ticket_missing i). }
  destruct (role_allows _ _) eqn:Hr; [|done]. take_receipt r. cbn [negb andb is_allowed].
  split; [done|]. split; [exists r; by split_and!|]. destruct (bool_decide (action i = ApplyUpgrade)) eqn:Ha; [|exact I].
  apply bool_decide_eq_true in Ha. rewrite Ha in Hr.
  by destruct (role i).
Qed.

(** * Reports: when they fail closed *)

Definition failing_signal (t : SloThresholds) (s : ServiceSignal) : bool :=
  failing t s || silent t s.

Lemma signal_report_fails t r s :
  fails_closed (signal_report t r s) = failing_signal t s || fails_closed r.
Proof.
  unfold signal_report, failing_signal. rewrite !push_if_fails. simpl.
  by destruct (slow t s), (failing t s), (queued t s), (silent t s).
Qed.

Lemma ops_report_ok t a ss th l : report_ok (ops_report (evaluate_operations t a ss th l).1).
Proof.
  unfold evaluate_operations. take_receipt r. simpl. apply report_ok_push_if_none, report_ok_foldl; [|auto with jeryu].
  intros r' s Hr. unfold signal_report. auto with jeryu.
Qed.

(** The health of a tenant fails closed exactly when there is no signal at all, or a
    service has too many errors or has gone silent, and exactly then mutations may not
    continue. *)
Theorem operations_fail_closed t a ss th l :
  let (plan, l') := evaluate_operations t a ss th l in
  fails_closed (ops_report plan) = bool_decide (ss = []) || existsb (failing_signal th) ss
  ∧ mutation_gate (state (ops_report plan)) = negb (fails_closed (ops_report plan))
  ∧ length l' = S (length l).
Proof.
  pose proof (ops_report_ok t a ss th l) as Hok. unfold evaluate_operations in *.
  revert Hok. take_receipt r. intros Hok. simpl in *. split_and!.
  - rewrite push_if_none_fails, (foldl_fails (failing_signal th)) by (done || apply signal_report_fails).
    rewrite push_if_fails. simpl. by destruct ss; [|rewrite orb_false_r].
  - rewrite (ok_state _ Hok). unfold fails_closed. by destruct (highest_severity _).
  - rewrite length_app. simpl. lia.
Qed.

Lemma dedupe_actions_NoDup l :
  NoDup (action_name <$> dedupe_actions l).
Proof.
  unfold dedupe_actions.
  assert (∀ out, NoDup (action_name <$> out) → NoDup (action_name <$>
    foldl (λ out a, if existsb (λ x, bool_decide (action_name x = action_name a)) out
                    then out else out ++ [a]) out l)) as H; [|apply H; constructor].
  induction l as [|a l IH]; intros out Hn; simpl; [done|]. apply IH.
  destruct (existsb _ out) eqn:He; [done|]. rewrite fmap_app. apply NoDup_app. split_and!; [done| |].
  - intros x (y&->&Hy)%list_elem_of_fmap [Hx|Hx]%elem_of_cons; [|by apply elem_of_nil in Hx].
    enough (false = true) by done. rewrite <-He. apply existsb_exists. exists y.
    split; [by apply list_elem_of_In|by apply bool_decide_eq_true].
  - apply NoDup_singleton.
Qed.

Lemma control_report_fails b r c :
  fails_closed (control_report b r c)
  = existsb (λ l, negb (has_evidence b l)) (required_evidence c) || fails_closed r.
Proof.
  apply foldl_fails. intros r' l. rewrite push_if_fails. simpl. by rewrite andb_true_r.
Qed.

(** A bundle of evidence is complete, and its report does not fail closed, exactly when
    every label that a control requires is among the evidence. *)
Theorem bundle_complete b :
  fails_closed (validate_bundle b) = false ↔
  ∀ c l, c ∈ controls b → l ∈ required_evidence c →
    ∃ e, e ∈ bundle_evidence b ∧ label e = l.
Proof.
  unfold validate_bundle. rewrite push_if_none_fails by done.
  rewrite (foldl_fails _ _ _ _ (control_report_fails b)), orb_false_r.
  rewrite <-not_true_iff_false, existsb_exists. setoid_rewrite existsb_exists.
  setoid_rewrite <-list_elem_of_In. unfold has_evidence. setoid_rewrite negb_true_iff.
  setoid_rewrite <-not_true_iff_false. setoid_rewrite existsb_exists.
  setoid_rewrite <-list_elem_of_In. setoid_rewrite bool_decide_eq_true. split.
  - intros H c l Hc Hl. destruct (decide (Exists (λ e, label e = l) (bundle_evidence b)))
      as [He|He]; [by apply Exists_exists in He|].
    destruct H. exists c. split; [done|]. exists l. split; [done|].
    intros (e&?&?). apply He, Exists_exists. by exists e.
  - intros H (c&Hc&l&Hl&Hn). by apply Hn, (H c).
Qed.

Lemma step_report_fails r s :
  fails_closed (step_report r s) = (keyless s || negb (reversible s)) || fails_closed r.
Proof.
  unfold step_report. rewrite !push_if_fails. simpl. by destruct (keyless s), (reversible s).
Qed.

(** An upgrade plan is refused exactly when it skips or reorders a ring, declares no
    migration, or has one without an idempotency key or a rollback; the plans that are made
    here pass through every ring, so only their migrations can be wrong, and the rollback of
    a plan with migrations undoes them in the opposite order. *)
Theorem upgrade_plan_checked p :
  fails_closed (UpgradePlan_validate p)
  = bool_decide (rings p ≠ ordered) || bool_decide (migrations p = [])
    || existsb (λ s, keyless s || negb (reversible s)) (migrations p)
  ∧ (∀ t a f v ms l, rings (plan_upgrade t a f v ms l).1 = ordered)
  ∧ ∀ t a l, rollback_steps (plan_rollback t a p l).1
             = match migrations p with
               | [] => ["no rollback steps available; hold rollout"]
               | ms => rev (rollback <$> ms)
               end.
Proof.
  split_and!.
  - unfold UpgradePlan_validate. rewrite push_if_none_fails by done.
    rewrite (foldl_fails _ _ _ _ step_report_fails), !push_if_fails. simpl.
    rewrite !andb_true_r, andb_false_r, !orb_false_r. simpl.
    by destruct (existsb _ _), (bool_decide (migrations p = [])), (bool_decide _).
  - intros t a f v ms l. unfold plan_upgrade. by take_receipt r.
  - intros t a l. unfold plan_rollback. take_receipt r. simpl. destruct (migrations p) as [|m ms]; [done|]. simpl.
    rewrite fmap_app, map_rev. case_bool_decide as He; [|done].
    by apply (f_equal length) in He; rewrite length_app in He; simpl in He; lia.
Qed.

Lemma field_report_fails r kv :
  fails_closed (field_report r kv) = blank kv || fails_closed r.
Proof. unfold field_report. rewrite push_if_fails. simpl. by rewrite andb_true_r. Qed.

(** A claim is held back exactly when a field is blank, its duration is zero, its speedup
    compares below the required one, the cache answered falsely, or a hash has no algorithm;
    and whatever the verdict it is receipted. *)
Theorem claim_verified t a c m l :
  let (v, l') := verify_claim t a c m l in
  fails_closed (verdict_report v)
  = existsb blank (claim_fields c) || (duration_ms c =? 0)%N
    || SFltb (speedup_vs_baseline c) m || negb (false_cache_hits c =? 0)%N
    || negb (str_contains ":" (pipeline_ir_hash c)) || negb (str_contains ":" (artifact_digest c))
  ∧ ∃ r, l' = l ++ [r] ∧ verdict_receipt_id v = receipt_id r ∧ subject r = claim_id c.
Proof.
  unfold verify_claim. take_receipt r. cbn [verdict_report verdict_receipt_id].
  split; [|by exists r]. unfold claim_report. rewrite push_if_none_fails by done.
  rewrite !push_if_fails, (foldl_fails _ _ _ _ field_report_fails).
  cbn [fails severity Finding_new]. rewrite !andb_true_r.
  replace (fails_closed (Report_new "phase11.replay")) with false by done. rewrite orb_false_r.
  by destruct (existsb blank _), (duration_ms c =? 0)%N, (SFltb _ _),
    (false_cache_hits c =? 0)%N, (str_contains _ (pipeline_ir_hash c)),
    (str_contains _ (artifact_digest c)).
Qed.

(** A speedup that is not a number is not below any other. *)
Lemma nan_speedup_verified t a m l :
  fails_closed (verdict_report (verify_claim t a
    {| claim_id := "c"; competitor := "b"; jeryu_runner := "r"; fixture := "f";
       scenario := "s"; hardware := "h"; cache_state := "w"; git_sha := "g";
       pipeline_ir_hash := "blake3:x"; duration_ms := 1; speedup_vs_baseline := S754_nan;
       false_cache_hits := 0; artifact_digest := "sha256:y"; reproduce := "cmd" |} m l).1)
  = false.
Proof. by vm_compute. Qed.

Lemma foldl_push_fails r fs :
  fails_closed (foldl push r fs) = existsb (λ f, fails (severity f)) fs || fails_closed r.
Proof. apply foldl_fails. intros r' f. apply push_fails. Qed.

(** * Readiness *)

Lemma fails_findings r :
  fails_closed r = existsb (λ f, fails (severity f)) (findings r).
Proof.
  unfold fails_closed, highest_severity. induction (findings r) as [|f l IH]; [done|].
  change (highest (f :: l)) with (severity_max (severity f) (highest l)). simpl.
  rewrite <-IH. unfold severity_max. by destruct (severity f), (highest l).
Qed.

Lemma merge_reports_fails l r :
  fails_closed (foldl (λ r report, foldl push r (findings report)) r l)
  = existsb fails_closed l || fails_closed r.
Proof.
  apply foldl_fails. intros r' report. by rewrite foldl_push_fails, <-fails_findings.
Qed.

Lemma bundle_fails b :
  fails_closed (validate_bundle b)
  = existsb (λ c, existsb (λ l, negb (bool_decide (l ∈ label <$> bundle_evidence b)))
                    (required_evidence c)) (controls b).
Proof.
  unfold validate_bundle. rewrite push_if_none_fails by done.
  rewrite (foldl_fails _ _ _ _ (control_report_fails b)), orb_false_r.
  induction (controls b) as [|c cs IH]; [done|]. simpl. rewrite IH. f_equal.
  induction (required_evidence c) as [|l ls IHl]; [done|]. simpl. rewrite IHl. do 2 f_equal.
  apply eq_true_iff_eq. unfold has_evidence.
  rewrite existsb_exists, bool_decide_eq_true, list_elem_of_fmap.
  setoid_rewrite <-list_elem_of_In. setoid_rewrite bool_decide_eq_true. naive_solver.
Qed.

Definition readiness_labels : list string :=
  ["rbac_decision"; "tenant_policy"; "upgrade_plan"; "rollback_plan"; "ops_plan"; "ops_report";
   "replay_verdict"].

Lemma readiness_bundle_complete b :
  controls b = default_controls → label <$> bundle_evidence b = readiness_labels →
  fails_closed (validate_bundle b) = false.
Proof. intros Hc Hl. by rewrite bundle_fails, Hc, Hl. Qed.

(** With its built-in signals, plan and claim, readiness fails closed exactly when the
    actor is blank, which is when the tenant policy refuses; every step leaves one receipt of
    the tenant and the actor, the refused decision none. *)
Theorem readiness_fails_closed t a :
  let (r, ledger) := readiness t a in
  fails_closed (overall r) = str_is_empty (trim a)
  ∧ length ledger = (if str_is_empty (trim a) then 6 else 7)
  ∧ Forall (λ r, tenant r = t ∧ actor r = a) ledger.
Proof.
  unfold readiness, decide_tenant. cbn [input_actor usage quota role action].
  replace (over_quota _ _) with false by done.
  replace (bool_decide (Role_Auditor = Role_BreakGlass)) with false by done.
  destruct (str_is_empty (trim a)) eqn:Ha; cbn [andb negb role_allows];
    [|take_receipt r0]; unfold evaluate_operations, plan_upgrade, plan_rollback, verify_claim,
      export_bundle.
  all: cbv zeta; take_receipt r1; take_receipt r2; take_receipt r3; take_receipt r4;
    take_receipt r5; take_receipt r6; cbn [overall].
  all: split; [|split; [done|repeat (constructor; [done|]); constructor]].
  all: rewrite push_fails, push_if_fails, merge_reports_fails; cbn [severity fails with_receipt Finding_new existsb orb].
  all: rewrite andb_false_r, readiness_bundle_complete by reflexivity.
  all: done.
Qed.
End operations.

(** * Samples *)

(** Readiness with the defaults. *)
Lemma readiness_sample :
  let (r, ledger) := readiness (λ n, 1700000000 + N.of_nat n)%N "tenant-a" "ops-bot" in
  state (overall r) = HS_Healthy ∧ length (findings (overall r)) = 7
  ∧ ledger_validate ledger = Ok tt.
Proof. by vm_compute. Qed.
