(* ===== verification/Observability.v ===== *)
(** Observability: the audit log and its hash chain, drills, soaks, objectives and dashboard.

    jeryu-obs (jeryu-release-ops/crates/jeryu-obs/src): audit.rs, chaos.rs, soak.rs, slo.rs and
    dashboards.rs. *)

From Stdlib Require Import Ascii.
From S2P Require Import Prelude Text CiIr Floats.

(** * The audit log (audit.rs) *)

(** The byte that ends each part, which no UTF-8 text contains. *)
Definition part_end : ascii := "254".

Definition absorb (hash : N) (part : string) : N := fnv_step (fnv_loop hash part) part_end.

Definition digest (parts : list string) : string :=
  "audit:" +:+ hex16 (foldl absorb fnv_offset parts).

Record AuditEvent : Type := {
  sequence : N;
  actor : string;
  action : string;
  tenant : string;
  resource : string;
  decision : string;
  previous_hash : string;
  event_hash : string
}.

Definition event_parts (seq : N) (a act t r d prev : string) : list string :=
  [show_N seq; a; act; t; r; d; prev].

Definition AuditEvent_new (seq : N) (a act t r d prev : string) : AuditEvent :=
  {| sequence := seq; actor := a; action := act; tenant := t; resource := r; decision := d;
     previous_hash := prev; event_hash := digest (event_parts seq a act t r d prev) |}.

Definition AuditLog : Type := list AuditEvent.

(** The hash a next event continues from. *)
Definition tip (log : AuditLog) : string :=
  match last log with Some e => event_hash e | None => "genesis" end.

Definition append (log : AuditLog) (a act t r d : string) : AuditEvent * AuditLog :=
  let e := AuditEvent_new (N.of_nat (length log) + 1) a act t r d (tip log) in
  (e, log ++ [e]).

(** The event computed again from its own fields. *)
Definition expected (e : AuditEvent) : AuditEvent :=
  AuditEvent_new (sequence e) (actor e) (action e) (tenant e) (resource e) (decision e)
    (previous_hash e).

Fixpoint verify_from (idx : N) (previous : string) (log : AuditLog) : bool :=
  match log with
  | [] => true
  | e :: log =>
      if negb (sequence e =? idx + 1)%N then false
      else if negb (bool_decide (previous_hash e = previous)) then false
      else if negb (bool_decide (event_hash (expected e) = event_hash e)) then false
      else verify_from (idx + 1) (event_hash e) log
  end.

Definition verify (log : AuditLog) : bool := verify_from 0 "genesis" log.

(** * Drills (chaos.rs) *)

Inductive DrillKind : Type := DatabaseFailover | ObjectStoreLatency | ControlPlaneRestart.

Record ChaosDrill : Type := {
  drill_kind : DrillKind; drill_name : string; blast_radius : string; expected_recovery_ms : N
}.

Record ChaosResult : Type := {
  drill : ChaosDrill; observed_recovery_ms : N; data_loss : bool; receipt : string
}.

Definition db_failover : ChaosDrill :=
  {| drill_kind := DatabaseFailover; drill_name := "db-failover";
     blast_radius := "primary-postgres"; expected_recovery_ms := 30000 |}.

Definition object_store_latency : ChaosDrill :=
  {| drill_kind := ObjectStoreLatency; drill_name := "object-store-latency";
     blast_radius := "artifact-cas"; expected_recovery_ms := 10000 |}.

Definition simulate (d : ChaosDrill) (observed : N) (loss : bool) : ChaosResult :=
  {| drill := d; observed_recovery_ms := observed; data_loss := loss;
     receipt := "chaos:" +:+ drill_name d +:+ ":" +:+ show_N observed +:+ ":"
                +:+ (if loss then "loss" else "no-loss") |}.

Definition drill_passed (r : ChaosResult) : bool :=
  negb (data_loss r) && (observed_recovery_ms r <=? expected_recovery_ms (drill r))%N.

(** * Soaks (soak.rs) *)

Record ReliabilityRun : Type := {
  run_id : N; scheduler_ok : bool; audit_ok : bool; cache_safe : bool; receipt_written : bool
}.

Definition run_passed (r : ReliabilityRun) : bool :=
  scheduler_ok r && audit_ok r && cache_safe r && receipt_written r.

Record ReliabilitySoak : Type := { runs : list ReliabilityRun }.

Definition phase10_100_run : ReliabilitySoak := {| runs :=
  (λ i, {| run_id := N.of_nat i; scheduler_ok := true; audit_ok := true; cache_safe := true;
           receipt_written := true |}) <$> seq 1 100 |}.

Definition passing_runs (s : ReliabilitySoak) : nat :=
  length (filter (λ r, run_passed r = true) (runs s)).

Definition passes_phase10_gate (s : ReliabilitySoak) : bool :=
  (100 <=? length (runs s)) && (passing_runs s =? length (runs s)).

(** * Objectives and the dashboard (slo.rs, dashboards.rs) *)

Record Slo : Type := { slo_name : string; objective : f64; window : string; query : string }.

Record SloMeasurement : Type := { measured_name : string; value : f64; measured_objective : f64 }.

Definition slo_passes (m : SloMeasurement) : bool := SFleb (measured_objective m) (value m).

Definition Slo_new (n : string) (o : f64) (w q : string) : Slo :=
  {| slo_name := n; objective := o; window := w; query := q |}.

Definition phase10_slos : list Slo :=
  [Slo_new "benchmark_replay_success" (f64_decimal 999 (-3)) "30d"
     "sum(rate(bench_replay_ok[30d])) / sum(rate(bench_replay_total[30d]))";
   Slo_new "audit_log_append_success" (f64_decimal 9999 (-4)) "30d"
     "sum(rate(audit_append_ok[30d])) / sum(rate(audit_append_total[30d]))";
   Slo_new "rbac_decision_latency" (f64_decimal 995 (-3)) "7d"
     "histogram_quantile(0.995, rbac_decision_seconds_bucket) < 0.050";
   Slo_new "tenant_isolation_gate" (f64_of_N 1) "30d" "tenant_escape_total == 0";
   Slo_new "backup_restore_drill_success" (f64_decimal 99 (-2)) "90d"
     "sum(restore_drill_ok) / sum(restore_drill_total)";
   Slo_new "upgrade_rollback_drill_success" (f64_decimal 99 (-2)) "90d"
     "sum(rollback_drill_ok) / sum(rollback_drill_total)"].

Record DashboardPanel : Type := { panel_title : string; panel_query : string }.

Definition dquote : string := String "034" "".

Definition escape (input : string) : string :=
  replace_char "034" ("\" +:+ dquote) (replace_char "\" "\\" input).

Definition quoted (s : string) : string := dquote +:+ s +:+ dquote.

Definition panel_line (len index : nat) (p : DashboardPanel) : string :=
  "    { " +:+ quoted "id" +:+ ": " +:+ show_N (N.of_nat (index + 1)) +:+ ", "
  +:+ quoted "title" +:+ ": " +:+ quoted (escape (panel_title p)) +:+ ", " +:+ quoted "type"
  +:+ ": " +:+ quoted "timeseries" +:+ ", " +:+ quoted "targets" +:+ ": [{ " +:+ quoted "expr"
  +:+ ": " +:+ quoted (escape (panel_query p)) +:+ " }] }"
  +:+ (if index + 1 =? len then "" else ",") +:+ newline_str.

Definition panels : list DashboardPanel :=
  (λ s, {| panel_title := slo_name s +:+ " (" +:+ window s +:+ ")"; panel_query := query s |})
    <$> phase10_slos.

Definition phase10_grafana_dashboard : string :=
  "{" +:+ newline_str +:+ "  " +:+ quoted "title" +:+ ": " +:+ quoted "Jeryu Phase 10" +:+ ","
  +:+ newline_str +:+ "  " +:+ quoted "schemaVersion" +:+ ": 39," +:+ newline_str +:+ "  "
  +:+ quoted "panels" +:+ ": [" +:+ newline_str
  +:+ String.concat "" (imap (panel_line (length panels)) panels)
  +:+ "  ]" +:+ newline_str +:+ "}" +:+ newline_str.

(** * The chain *)

Lemma absorb_bound h p : (absorb h p < u64_modulus)%N.
Proof. apply fnv_step_bound. Qed.

Lemma absorb_inj h h' p :
  (h < u64_modulus)%N → (h' < u64_modulus)%N → absorb h p = absorb h' p → h = h'.
Proof.
  unfold absorb. intros Hh Hh' Heq. apply fnv_step_inj in Heq; [|by apply fnv_loop_bound..].
  apply (f_equal (λ x, N.lxor x (code part_end))) in Heq.
  rewrite !N.lxor_assoc, N.lxor_nilpotent, !N.lxor_0_r in Heq. by apply fnv_loop_inj in Heq.
Qed.

Lemma absorb_all_inj h h' ps :
  (h < u64_modulus)%N → (h' < u64_modulus)%N → foldl absorb h ps = foldl absorb h' ps → h = h'.
Proof.
  revert h h'. induction ps as [|p ps IH]; intros h h' Hh Hh'; simpl; [done|].
  intros Heq%IH; [|apply absorb_bound..]. by apply absorb_inj in Heq.
Qed.

Lemma absorb_all_bound h ps :
  (h < u64_modulus)%N → (foldl absorb h ps < u64_modulus)%N.
Proof.
  revert h. induction ps as [|p ps IH]; intros h Hh; simpl; [done|]. apply IH, absorb_bound.
Qed.

(** A digest tells apart parts that differ in one byte. *)
Lemma digest_byte_change ps s c c' t qs :
  c ≠ c' → digest (ps ++ (s +:+ String c t) :: qs) ≠ digest (ps ++ (s +:+ String c' t) :: qs).
Proof.
  intros Hne Heq. apply Hne. unfold digest in Heq. apply append_inj_l in Heq.
  apply hex_digits_inj in Heq; [|by apply absorb_all_bound..].
  rewrite !foldl_app in Heq. simpl in Heq. apply absorb_all_inj in Heq; [|apply absorb_bound..].
  unfold absorb in Heq. set (h := foldl absorb fnv_offset ps) in Heq.
  assert (h < u64_modulus)%N as Hh by by apply absorb_all_bound.
  rewrite !fnv_loop_app in Heq. simpl in Heq.
  apply fnv_step_inj in Heq; [|apply fnv_loop_bound, fnv_step_bound..].
  apply (f_equal (λ x, N.lxor x (code part_end))) in Heq.
  rewrite !N.lxor_assoc, N.lxor_nilpotent, !N.lxor_0_r in Heq.
  apply fnv_loop_inj in Heq; [|apply fnv_step_bound..].
  apply fnv_step_inj in Heq; [|by apply fnv_loop_bound..].
  apply code_inj. apply (f_equal (N.lxor (fnv_loop h s))) in Heq.
  by rewrite <-!N.lxor_assoc, N.lxor_nilpotent, !N.lxor_0_l in Heq.
Qed.

(** What verification asks of a log, event by event. *)
Definition chained (log : AuditLog) : Prop :=
  ∀ i e, log !! i = Some e →
    sequence e = (N.of_nat i + 1)%N ∧ previous_hash e = tip (take i log)
    ∧ event_hash e = event_hash (expected e).

Lemma verify_from_spec log done_ :
  verify_from (N.of_nat (length done_)) (tip done_) log = true ↔
  ∀ i e, log !! i = Some e →
    sequence e = (N.of_nat (length done_ + i) + 1)%N
    ∧ previous_hash e = tip (done_ ++ take i log) ∧ event_hash e = event_hash (expected e).
Proof.
  revert done_. induction log as [|e log IH]; intros done_; [by split|].
  assert (tip (done_ ++ [e]) = event_hash e) as Htip by (unfold tip; by rewrite last_snoc).
  specialize (IH (done_ ++ [e])). rewrite Htip, length_app in IH. cbn [length] in IH.
  replace (N.of_nat (length done_ + 1)) with (N.of_nat (length done_) + 1)%N in IH by lia.
  cbn [verify_from]. transitivity
    (sequence e = (N.of_nat (length done_) + 1)%N ∧ previous_hash e = tip done_
     ∧ event_hash e = event_hash (expected e)
     ∧ verify_from (N.of_nat (length done_) + 1) (event_hash e) log = true).
  - destruct (N.eqb_spec (sequence e) (N.of_nat (length done_) + 1)); simpl; [|naive_solver].
    case_bool_decide; simpl; [|naive_solver]. case_bool_decide; simpl; naive_solver.
  - rewrite IH. split.
    + intros (Hs&Hp&Hh&H) [|i] x; simpl.
      * intros [= <-]. by rewrite Nat.add_0_r, app_nil_r.
      * intros Hx. destruct (H i x Hx) as (?&?&?). rewrite <-app_assoc in *. split_and!; try done.
        lia.
    + intros H. destruct (H 0 e eq_refl) as (?&?&?). rewrite Nat.add_0_r, app_nil_r in *.
      split_and!; try done. intros i x Hx. destruct (H (S i) x Hx) as (?&?&?).
      rewrite <-app_assoc. split_and!; [lia|done|done].
Qed.

Lemma verify_chained log : verify log = true ↔ chained log.
Proof. exact (verify_from_spec log []). Qed.

Lemma append_chained log a act t r d : chained log → chained (append log a act t r d).2.
Proof.
  intros H i e. simpl. rewrite lookup_app_Some. intros [Hi|[Hl Hi]].
  - pose proof (lookup_lt_Some _ _ _ Hi). rewrite take_app_le by lia. by apply H.
  - apply list_lookup_singleton_Some in Hi as [Hi <-].
    assert (i = length log) as -> by lia. by rewrite take_app_length.
Qed.

(** One entry to write: who did what, where, and what was decided. *)
Record Entry : Type := {
  entry_actor : string; entry_action : string; entry_tenant : string;
  entry_resource : string; entry_decision : string
}.

Definition write (log : AuditLog) (n : Entry) : AuditLog :=
  (append log (entry_actor n) (entry_action n) (entry_tenant n) (entry_resource n)
     (entry_decision n)).2.

Lemma write_chained ns log : chained log → chained (foldl write log ns).
Proof.
  revert log. induction ns as [|n ns IH]; intros log H; simpl; [done|].
  apply IH. by apply append_chained.
Qed.

(** C28: a log written by appending verifies, and so does every prefix of it; in a log that
    verifies, an event whose recorded hash is kept while one byte of its actor, action,
    tenant, resource, decision or previous hash is replaced is found out. *)
Theorem tampering_found ns log i e e' ps qs s c c' t :
  verify (foldl write [] ns) = true
  ∧ (∀ n, verify log = true → verify (take n log) = true)
  ∧ (verify log = true → log !! i = Some e → event_hash e' = event_hash e →
     event_parts (sequence e) (actor e) (action e) (tenant e) (resource e) (decision e)
       (previous_hash e) = ps ++ (s +:+ String c t) :: qs →
     event_parts (sequence e') (actor e') (action e') (tenant e') (resource e') (decision e')
       (previous_hash e') = ps ++ (s +:+ String c' t) :: qs →
     c ≠ c' → verify (<[i := e']> log) = false).
Proof.
  split_and!.
  - apply verify_chained, write_chained. by intros ? ?.
  - intros n. rewrite !verify_chained. intros H j x Hx.
    apply lookup_take_Some in Hx as [Hx Hj]. destruct (H j x Hx) as (?&?&?).
    rewrite take_take, Nat.min_l by lia. by split_and!.
  - intros Hv Hi Hh Hp Hp' Hne. apply not_true_iff_false. intros Hv'.
    apply verify_chained in Hv, Hv'.
    destruct (Hv i e Hi) as (_&_&He).
    destruct (Hv' i e') as (_&_&He').
    { apply list_lookup_insert_eq. by eapply lookup_lt_Some. }
    rewrite Hh, He in He'. unfold expected, AuditEvent_new in He'. cbn [event_hash] in He'.
    rewrite Hp, Hp' in He'. by apply digest_byte_change in He'.
Qed.

Lemma gate_spec s :
  passes_phase10_gate s = true ↔ 100 ≤ length (runs s) ∧ ∀ r, r ∈ runs s → run_passed r = true.
Proof.
  destruct s as [s]. cbn [runs].
  unfold passes_phase10_gate, passing_runs. cbn [runs].
  rewrite andb_true_iff, Nat.leb_le, Nat.eqb_eq, <-Forall_forall. split; intros [H1 H2];
    (split; [done|]); clear H1.
  - induction s as [|r s IH]; [constructor|]. rewrite filter_cons in H2.
    pose proof (length_filter (λ r, run_passed r = true) s).
    case_decide; simpl in *; [|lia]. constructor; [done|]. apply IH. lia.
  - induction H2 as [|r s Hr _ IH]; [done|]. rewrite filter_cons_True by done. simpl. lia.
Qed.

(** * Samples *)

Definition sample_entries : list Entry :=
  [{| entry_actor := "alice"; entry_action := "merge"; entry_tenant := "acme";
      entry_resource := "pr/1"; entry_decision := "allow" |};
   {| entry_actor := "bob"; entry_action := "merge"; entry_tenant := "acme";
      entry_resource := "pr/2"; entry_decision := "deny" |}].

Definition forged (e : AuditEvent) : AuditEvent :=
  {| sequence := sequence e; actor := "blice"; action := action e; tenant := tenant e;
     resource := resource e; decision := decision e; previous_hash := previous_hash e;
     event_hash := event_hash e |}.

Lemma tampering_found_witness :
  ∃ e, foldl write [] sample_entries !! 0 = Some e
    ∧ verify (<[0 := forged e]> (foldl write [] sample_entries)) = false.
Proof.
  destruct (foldl write [] sample_entries !! 0) as [e|] eqn:He; [|by vm_compute in He].
  exists e. split; [done|].
  assert (event_parts (sequence e) (actor e) (action e) (tenant e) (resource e) (decision e)
            (previous_hash e) = ["1"; "alice"; "merge"; "acme"; "pr/1"; "allow"; "genesis"]
          ∧ sequence e = 1%N) as [Hp Hs].
  { vm_compute in He. injection He as <-. by vm_compute. }
  refine (proj2 (proj2 (tampering_found [] (foldl write [] sample_entries) 0 e (forged e)
    ["1"] ["merge"; "acme"; "pr/1"; "allow"; "genesis"] "" "a" "b" "lice")) _ He eq_refl Hp _ _).
  - by vm_compute.
  - injection Hp as _ _ Ha Ht Hr Hd Hpr. unfold forged, event_parts. cbn.
    by rewrite Hs, Ha, Ht, Hr, Hd, Hpr.
  - done.
Defined.

Lemma obs_samples :
  drill_passed (simulate db_failover 30000 false) = true
  ∧ drill_passed (simulate db_failover 30001 false) = false
  ∧ receipt (simulate object_store_latency 5 true) = "chaos:object-store-latency:5:loss"
  ∧ passes_phase10_gate phase10_100_run = true
  ∧ escape ("a" +:+ dquote +:+ "\") = "a\" +:+ dquote +:+ "\\".
Proof. by vm_compute. Qed.
