(* ===== verification/ForgeSamples.v ===== *)
(** ForgeSamples: the forge at work on concrete states: a world whose materializer fails once,
    a run of calls, a pull request with an authenticated approval; and the behaviours that
    surprise. *)

From Stdlib Require Import ZArith.
From S2P Require Import Prelude Text Clock BranchProtection ForgeState Forge ForgeLaws.
From S2P Require Import ForgeInvariant ForgeCalls ForgeBehaviour ForgeScores ForgeQueries.
Local Open Scope forge_scope.

#[export] Instance sample_chrono : Chrono :=
  {| DateTime := Z; DateTime_eq_dec := _; dt_leb := Z.leb;
     add_minutes := λ t m, Some (t + 60000 * m)%Z; add_seconds := λ t s, Some (t + 1000 * s)%Z;
     timestamp_millis := λ t, t; to_rfc3339 := λ t, show_N (Z.to_N t) |}.

#[export] Instance sample_chrono_spec : ChronoSpec.
Proof. split; cbn; lia. Defined.

(** Question number 5 is the first creation's materialization: it fails. *)
#[export] Instance sample_env : ForgeEnv :=
  {| now_at := λ i, Z.of_nat i; uuid_at := λ i, N.of_nat (1000 + i);
     process_error := λ _, None; ordinary_error := λ _, None; persist_error := λ _, None;
     validate_repository := λ _ _ _ _, None;
     materialize_repository := λ _ i, if i =? 5 then Some (Storage "no space") else None;
     hmac_hex := λ secret bytes, secret +:+ bytes; to_vec := action; audit_env := None; next_nanosecond := λ t, Some (t + 1)%Z;
     pull_order := λ l, l |}.

#[export] Instance sample_env_spec : ForgeEnvSpec.
Proof. split. done. Defined.

(** A fresh forge with its database. *)
Definition fresh : Core :=
  {| state := State_default; stored := Some State_default; asked := 0 |}.

Lemma fresh_ok : saved fresh ∧ state_ok (state fresh).
Proof.
  split; [done|]. split; cbn; intros;
    match goal with H : _ = Some _ |- _ => by rewrite lookup_empty in H end.
Qed.

Lemma fresh_room k : (k < 18446744073709551616)%N → room k (state fresh).
Proof. intros Hk o n. change (counters_of (state fresh) o n) with Counters_default. cbn. lia. Qed.

Definition new_repo : CreateRepositoryRequest :=
  {| new_name := "web"; new_private := false; new_description := None;
     new_default_branch := None |}.

Definition fix_typo : CreatePullRequestRequest :=
  {| cp_title := "fix"; cp_body := None; cp_head := "topic"; cp_base := "main";
     cp_head_sha := Some "aaa"; cp_base_sha := Some "bbb"; cp_source := Some "fork/web";
     cp_draft := false; cp_commits := []; cp_files := [] |}.

(** The first creation fails halfway and is asked for again. *)
Definition setup : list Call :=
  [C_create_repository_with_id 7%N "org" new_repo; C_create_repository_with_id 7%N "org" new_repo;
   C_create_repository_with_id 8%N "fork" new_repo;
   C_create_pull_request "org" "web" "ann" fix_typo].

Definition sample : Core := serve setup fresh.

Lemma sample_ok k :
  (4 + k < 18446744073709551616)%N → saved sample ∧ state_ok (state sample) ∧ room k (state sample).
Proof. intros Hk. apply serve_ok; [apply fresh_ok|apply fresh_ok|]. by apply fresh_room. Qed.

(** * Runs *)

Definition report_bug : CreateIssueRequest :=
  {| ci_title := "bug"; ci_body := None; ci_labels := []; ci_assignees := [];
     ci_milestone := None |}.

Lemma forge_calls_refine_witness :
  (run (C_create_issue "org" "web" "bob" report_bug) sample).1 = Ok tt
  ∧ change (state sample) (state (run (C_create_issue "org" "web" "bob" report_bug) sample).2).
Proof.
  destruct (sample_ok 0) as (Hs & Hok & _); [lia|].
  pose proof (forge_calls_refine (C_create_issue "org" "web" "bob" report_bug) sample Hs Hok) as [_ H].
  assert (Hrun : (run (C_create_issue "org" "web" "bob" report_bug) sample).1 = Ok tt)
    by (vm_compute; reflexivity).
  rewrite Hrun in H. split; [exact Hrun|exact H].
Defined.

Lemma forge_invariant_witness : saved (serve setup fresh) ∧ state_ok (state (serve setup fresh)).
Proof. apply (forge_invariant setup fresh); [apply fresh_ok|apply fresh_ok|by apply fresh_room]. Defined.

(** Repository 7 is put into custody; a label, a deletion and an issue are then refused. *)
Definition custody : RepositoryMutationBlock := ReadOnly "custody" "ticket 3".

Definition frozen : Core := serve [C_block_repository_mutations 7%N custody] sample.

Definition attempts : list Call :=
  [C_create_label "org" "web" "bug" "red" None; C_delete_repository "org" "web";
   C_create_issue "fork" "web" "bob" report_bug].

Lemma restricted_repository_frozen_witness :
  same_repo "org" "web" (state frozen) (state (serve attempts frozen))
  ∧ length (map_to_list (issues (state (serve attempts frozen)))) = 2.
Proof.
  split; [|vm_compute; reflexivity].
  destruct (sample_ok 4) as (Hs & Hok & Hr); [lia|].
  destruct (serve_ok [C_block_repository_mutations 7%N custody] sample 3 Hs Hok Hr) as (Hs' & Hok' & Hr').
  eapply (restricted_repository_frozen attempts frozen "org" "web"); [exact Hs'|exact Hok'|exact Hr'|].
  eexists. split; vm_compute; reflexivity.
Defined.

Lemma deletion_complete_witness :
  is_ok (delete_repository "org" "web" sample).1 = true
  ∧ match delete_repository "org" "web" sample with
    | (Ok d, c') =>
        repos (state sample) !! ("org", "web") = Some (deleted d)
        ∧ cleared "org" "web" (state c')
        ∧ ∀ o' n', (o', n') ≠ ("org", "web") → same_repo o' n' (state sample) (state c')
    | (Err _, c') => state c' = state sample
    end.
Proof.
  split; [vm_compute; reflexivity|]. apply (deletion_complete "org" "web" sample).
  by destruct (sample_ok 0) as (Hs & _); [lia|].
Defined.

Lemma push_moves_heads_witness :
  map (λ kp, sha (head kp.2)) (map_to_list (pulls (state
    (refresh_pull_request_heads_for_ref "org" "web" "topic" "ccc" sample).2))) = ["ccc"]
  ∧ match refresh_pull_request_heads_for_ref "org" "web" "topic" "ccc" sample with
    | (Ok _, c') =>
        ∀ key pr', pulls (state c') !! key = Some pr' →
          ∃ pr, pulls (state sample) !! key = Some pr
            ∧ if decide (follows "org" "web" "topic" key pr)
              then sha (head pr') = "ccc"
                   ∧ ∀ t r, r ∈ bound_reviews_for_evaluation t (state c') pr' →
                       review_head_sha r = Some "ccc"
              else pr' = pr
    | (Err _, c') => state c' = state sample
    end.
Proof.
  split; [vm_compute; reflexivity|].
  destruct (sample_ok 0) as (Hs & Hok & _); [lia|].
  apply (push_moves_heads "org" "web" "topic" "ccc" sample Hs Hok).
Defined.

(** The first creation of repository 7 leaves its row; it is then finished. *)
Definition halfway : Core := (create_repository_with_id 7%N "org" new_repo fresh).2.

Lemma halfway_quiet : quiet (asked halfway).
Proof.
  intros i Hi. assert (Hh : asked halfway = 6) by (vm_compute; reflexivity). rewrite Hh in Hi.
  split_and!; try done. intros r. cbn. destruct (Nat.eqb_spec i 5); [lia|done].
Qed.

Lemma creation_resumes_witness :
  is_ok (create_repository_with_id 7%N "org" new_repo fresh).1 = false
  ∧ ∃ r c2, create_repository_with_id 7%N "org" new_repo halfway = (Ok r, c2)
      ∧ repo_id r = 7%N ∧ repos (state c2) !! ("org", "web") = Some r.
Proof.
  split; [vm_compute; reflexivity|].
  pose proof (creation_resumes 7%N "org" new_repo fresh (proj1 fresh_ok) (proj2 fresh_ok)
                eq_refl eq_refl) as H.
  assert (Hrun : create_repository_with_id 7%N "org" new_repo fresh
    = (Err (Storage "no space"), halfway)).
  { apply injective_projections; [vm_compute; reflexivity|reflexivity]. }
  rewrite Hrun in H. destruct H as (r & c2 & H2 & Hid & Hr & _); [|apply halfway_quiet|].
  - eexists. vm_compute. reflexivity.
  - exists r, c2. split; [exact H2|split; [exact Hid|exact Hr]].
Defined.

Lemma score_history_bounded_witness :
  let x := {| score_id := 1%N; score_owner := "org"; score_repo := "web"; score_branch := "main";
              score_commit := "aaa"; score := Some 90%N; hard_findings := 0%N;
              decision := "pass"; caps_applied := []; report_json := None;
              score_created_at := 5%Z |} in
  add_score x [x; x] = [x].
Proof.
  intros x. apply (score_history_bounded x [x; x]). vm_compute. lia.
Defined.

Lemma list_issues_exact_witness :
  ∃ l, list_issues (state sample) "org" "web" (Some IS_Open) = Ok l ∧ length l = 1
       ∧ in_order issue_no l ∧ ∀ i, i ∈ l → issues (state sample) !! ("org", "web", issue_no i) = Some i.
Proof.
  destruct (sample_ok 0) as (_ & Hok & _); [lia|].
  pose proof (list_issues_exact (state sample) "org" "web" (Some IS_Open) Hok) as H.
  assert (Hq : match list_issues (state sample) "org" "web" (Some IS_Open) with
               | Ok l => length l | Err _ => 0 end = 1) by (vm_compute; reflexivity).
  destruct (list_issues (state sample) "org" "web" (Some IS_Open)) as [l|e]; [|discriminate Hq].
  destruct H as (_ & Hs & _ & H). exists l. split; [reflexivity|]. split; [exact Hq|].
  split; [exact Hs|]. intros i Hi. apply H, Hi.
Defined.

(** * An approved pull request *)

Definition reviewer : UserAccount :=
  {| canonical_login := "rex"; display_name := "Rex"; password_hash := "h"; role := UR_User;
     account_status := AS_Active; auth_epoch := 1; must_change_password := false;
     account_created_at := 1%Z; account_updated_at := 1%Z |}.

Definition profile : User :=
  {| user_id := 50%N; user_login := "rex"; user_name := None; user_email := None;
     user_created_at := 1%Z |}.

Definition token : PersonalAccessToken :=
  {| token_id := 60%N; token_login := "rex"; token_epoch := 1; token_name := "cli";
     token_hash := "t"; token_created_at := 1%Z; token_expires_at := Some 1000%Z |}.

Definition binding : ReviewActorBinding :=
  {| actor_login := "rex"; profile_id := 50%N; actor_created_at := 1%Z; actor_epoch := 1;
     credential_kind := CK_PersonalAccessToken; credential_id := 60%N |}.

Definition grant : RepoAccessGrant :=
  {| grant_login := "rex"; grant_owner := "org"; grant_repo := "web"; access := RA_Write;
     granted_by := "root"; granted_at := 1%Z |}.

Definition two_eyes : BranchProtectionRule :=
  {| rule_owner := "org"; rule_repo := "web"; rule_branch := "main"; required_status_checks := [];
     required_approving_review_count := 1; enforce_admins := true;
     required_linear_history := false; allow_force_pushes := false; allow_deletions := false;
     require_signed_commits := false; require_jankurai_proof := false; rule_updated_at := 2%Z |}.

Definition topic : PullRequest :=
  {| pr_id := 70%N; pr_owner := "org"; pr_repo := "web"; number := 1; issue_number := 1;
     title := "fix"; pr_body := None; pr_state := PRS_Open; draft := false; pr_author := "ann";
     source_repository := "org/web"; head := GitBranchRef_new "topic" "aaa";
     base := GitBranchRef_new "main" "bbb"; mergeable := false; mergeable_state := "unknown";
     merged := false; merged_at := None; merge_commit_sha := None; commits := [];
     changed_files := []; pr_created_at := 3%Z; pr_updated_at := 3%Z |}.

Definition here : ReviewGitRepository :=
  {| git_repo_id := 7%N; git_owner := "org"; git_name := "web" |}.

Definition seen (ref_ commit : string) : ObservedReviewRef :=
  {| reference := ref_; observed_commit := commit; tree_sha := "tree";
     identity := {| storage_root := "/git"; root_device := 1; root_inode := 2;
                    repository_path := "/git/org/web"; repository_device := 1;
                    repository_inode := 3; git_executable := "/usr/bin/git";
                    git_executable_sha256 := "g" |} |}.

Definition snapshot : ReviewSnapshot :=
  {| snap_repository := 7%N; snap_pull := 70%N; snap_pull_number := 1; snap_author := "ann";
     snap_target := {| git_source := here; git_destination := here; source_ref := "topic";
                       destination_ref := "main" |};
     snap_git := {| observed_source := seen "topic" "aaa"; observed_destination := seen "main" "bbb" |};
     stored_head_sha := "aaa"; stored_base_sha := "bbb"; snap_draft := false;
     snap_policy := Some two_eyes; snap_codeowners := None; policy_revision := "p";
     snap_reviewer := binding; destination_access := RA_Write; source_access := RA_Write;
     reviewer_role := UR_User; destination_grant := Some grant; source_grant := Some grant;
     bound_event_ids := []; advisory_reviews := []; advisory_statuses := [];
     advisory_check_runs := []; advisory_commits := []; snap_changed_files := [] |}.

Definition approval : BoundReviewEvent :=
  {| event_id := 80%N; event_repository := 7%N; event_pull := 70%N; event_pull_number := 1;
     sequence := 1; event_challenge := 81%N; event_actor := binding; event_snapshot := snapshot;
     event_snapshot_sha256 := "s"; request_sha256 := "r";
     event_review := {| review_id := 82%N; review_owner := "org"; review_repo := "web";
       pull_number := 1; review_author := "rex"; review_state := RS_Approved;
       review_body := None; review_head_sha := Some "aaa"; dismissed_review_id := None;
       submitted_at := 4%Z |};
     event_comments := []; audit_id := 83%N |}.

Definition with_bound_reviews (bs : list BoundReviewEvent) : State :=
  {| users := {["rex" := profile]}; accounts := {["rex" := reviewer]}; sessions := ∅;
     personal_tokens := {[60%N := token]};
     invitations := ∅; activation_challenges := ∅; bootstrap_owner_consumed := false;
     repo_grants := {[("rex", "org", "web") := grant]};
     organizations := ∅; teams := ∅;
     repos := {[("org", "web") := new_repository 7%N "org" new_repo 1%Z]};
     repository_creations := ∅; labels := ∅; issues := ∅; issue_comments := ∅;
     pulls := {[("org", "web", 1%N) := topic]}; reviews := ∅; bound_reviews := bs;
     review_comments := ∅; branch_protections := {[("org", "web", "main") := two_eyes]};
     codeowners_ := ∅; readmes := ∅; statuses := ∅; check_runs := ∅; webhooks := ∅;
     webhook_deliveries := []; counters := ∅; jankurai_scores := ∅;
     repository_aliases := ∅; repository_transfers := ∅; repository_mutation_blocks := ∅ |}.

Definition approved : State := with_bound_reviews [approval].

Definition at_ (z : Z) : DateTime := z.

Lemma mergeable_needs_bound_approvals_witness :
  eval_mergeable (evaluate_locked (at_ 10) approved topic None) = true
  ∧ ∃ approvers : gset string,
      (1 ≤ N.of_nat (size approvers))%N
      ∧ ∀ u, u ∈ approvers → ∃ e, e ∈ bound_reviews approved
          ∧ review_author (event_review e) = u
          ∧ review_head_sha (event_review e) = Some "aaa".
Proof.
  split; [vm_compute; reflexivity|].
  destruct (mergeable_needs_bound_approvals (at_ 10) approved topic None two_eyes) as (X & Hn & HX).
  - vm_compute. reflexivity.
  - vm_compute. reflexivity.
  - exists X. split; [exact Hn|]. intros u Hu. destruct (HX u Hu) as [e [He _ Ha _ Hh _ _ _ _ _]].
    by exists e.
Defined.

(** Once the token has expired the approval counts no more. *)
Example expired_token_blocks :
  eval_mergeable (evaluate_locked (at_ 1000) approved topic None) = false.
Proof. vm_compute. reflexivity. Qed.

Definition approved_core : Core := {| state := approved; stored := None; asked := 0 |}.

Definition reject : CreateReviewRequest :=
  {| cr_body := None; cr_event := RS_ChangesRequested; cr_comments := []; cr_expected_head := None |}.

Lemma advisory_rows_inert_witness :
  evaluate_pull_request (at_ 10)
    (state (run (C_create_review "org" "web" 1 "rex" reject) approved_core).2) "org" "web" 1 None
  = evaluate_pull_request (at_ 10) approved "org" "web" 1 None.
Proof.
  apply (advisory_rows_inert (C_create_review "org" "web" 1 "rex" reject) approved_core (at_ 10)
           "org" "web" 1 None).
  - done.
  - reflexivity.
  - vm_compute. by eexists.
Defined.

(** * Surprises *)

Definition set_draft (d : option bool) (st : option PullRequestState) : UpdatePullRequestRequest :=
  {| up_title := None; up_body := None; up_state := st; up_draft := d; up_commits := None;
     up_files := None |}.

Definition after_update (calls : list UpdatePullRequestRequest) : option (PullRequestState * bool) :=
  (λ pr, (pr_state pr, merged pr)) <$>
  pulls (state (serve (map (C_update_pull_request "org" "web" 1) calls) sample)) !! ("org", "web", 1%N).

(** Clearing the draft flag of a closed pull request opens it again, without asking for a
    state. *)
Example undraft_reopens :
  after_update [set_draft None (Some PRS_Closed)] = Some (PRS_Closed, false)
  ∧ after_update [set_draft None (Some PRS_Closed); set_draft (Some false) None]
    = Some (PRS_Mergeable, false).
Proof. split; vm_compute; reflexivity. Qed.

(** An update may set the merged state of a pull request that was never merged. *)
Example merged_without_merge :
  after_update [set_draft None (Some PRS_Merged)] = Some (PRS_Merged, false).
Proof. vm_compute. reflexivity. Qed.

(** The pull request of [setup] comes from fork/web; a push to the branch of the same name in
    org/web moves its head all the same. *)
Example push_moves_a_fork :
  (λ pr, (source_repository pr, sha (head pr))) <$>
  pulls (state (serve [C_refresh_pull_request_heads_for_ref "org" "web" "topic" "ccc"] sample))
    !! ("org", "web", 1%N) = Some ("fork/web", "ccc").
Proof. vm_compute. reflexivity. Qed.

(** A list of open pull requests may hold none that is open: the filter reads the stored
    state, the answer the re-evaluated one. *)
Example open_list_answers_blocked :
  match list_pull_requests (at_ 10) (with_bound_reviews []) "org" "web" (Some PRS_Open) with
  | Ok l => map pr_state l
  | Err _ => []
  end = [PRS_BlockedByChecks].
Proof. vm_compute. reflexivity. Qed.
