(* ===== verification/ReviewSamples.v ===== *)
(** ReviewSamples: the authenticated reviews at work: a reviewer with a token asks for a
    challenge, approves, and the approval counts; what a repeated and a late verdict get. *)

From Stdlib Require Import ZArith.
From S2P Require Import Prelude Text Clock BranchProtection ForgeState Forge ForgeLaws.
From S2P Require Import ForgeInvariant Transfers TransferLaws ForgeCalls ForgeBehaviour BoundReviews BoundReviewLaws.
From S2P Require Import Accounts AccountLaws ReviewHistory ForgeSamples.
Local Open Scope forge_scope.

Definition head_oid : string := "aaaaaaaaaaaaaaaaaaaaaaaaaaaaaaaaaaaaaaaa".
Definition base_oid : string := "bbbbbbbbbbbbbbbbbbbbbbbbbbbbbbbbbbbbbbbb".

Definition observed_ref (ref_ commit : string) : ObservedReviewRef :=
  {| reference := ref_; observed_commit := commit; tree_sha := base_oid;
     identity := identity (seen ref_ commit) |}.

#[export] Instance sample_review_env : ReviewEnv :=
  {| token_hash_of := λ s, s; random_secret := λ _, Ok "nonce";
     observer := Some (λ target _,
       Ok {| observed_source := observed_ref (source_ref target) head_oid;
             observed_destination := observed_ref (destination_ref target) base_oid |});
     storage_root_of := Some "/git"; sha_snapshot := snap_author;
     sha_submit := sb_nonce; sha_dismiss := db_nonce; sha_policy := λ _ _, "policy";
     store_error := λ _, None |}.

#[export] Instance sample_auth_env : AuthEnv :=
  {| hash_password := λ p i, Ok ("$" +:+ p); password_matches := λ p h, bool_decide (h = "$" +:+ p);
     checked_add_signed := λ t d, Some (t + d / 1000000)%Z |}.

#[export] Instance sample_auth_spec : AuthEnvSpec.
Proof. split. intros i. by eexists. Defined.

(** Accounts before any repository. *)
Definition seeded : State :=
  {| users := {["rex" := profile]}; accounts := {["rex" := reviewer]}; sessions := ∅;
     personal_tokens := {[60%N := token]};
     invitations := ∅; activation_challenges := ∅; bootstrap_owner_consumed := false;
     repo_grants := {[("rex", "org", "web") := grant]};
     organizations := ∅; teams := ∅; repos := ∅; repository_creations := ∅; labels := ∅;
     issues := ∅; issue_comments := ∅; pulls := ∅; reviews := ∅; bound_reviews := [];
     review_comments := ∅; branch_protections := ∅; codeowners_ := ∅; readmes := ∅;
     statuses := ∅; check_runs := ∅; webhooks := ∅; webhook_deliveries := []; counters := ∅;
     jankurai_scores := ∅; repository_aliases := ∅; repository_transfers := ∅;
     repository_mutation_blocks := ∅ |}.

Definition started : ReviewCore :=
  {| core := {| state := seeded; stored := Some seeded; asked := 6 |}; challenges := ∅; audits := [] |}.

Definition topic_request : CreatePullRequestRequest :=
  {| cp_title := "fix"; cp_body := None; cp_head := "topic"; cp_base := "main";
     cp_head_sha := Some head_oid; cp_base_sha := Some base_oid; cp_source := None;
     cp_draft := false; cp_commits := []; cp_files := [] |}.

Definition rex : AuthenticatedActor := {| actor_binding := binding; mutation_authorized := true |}.

Definition opened : list BCall :=
  [BC_engine (C_create_repository_with_id 7%N "org" new_repo);
   BC_engine (C_create_pull_request "org" "web" "ann" topic_request);
   BC_authenticate (AC_PersonalAccessToken (token_hash token));
   BC_challenge rex 7%N 1 head_oid].

Definition with_challenge : ReviewCore := bserve opened started.

Definition rows_of (c : ReviewCore) : list (Uuid * bool) :=
  map (λ x, (x.1, bool_decide (is_Some x.2.2))) (map_to_list (challenges c)).

Definition the_challenge : Uuid := match rows_of with_challenge with [(i, _)] => i | _ => 0%N end.

Definition approve : SubmitBoundReviewRequest :=
  {| sb_challenge := the_challenge; sb_nonce := "nonce"; sb_expected_head := head_oid;
     sb_event := RS_Approved; sb_body := None; sb_comments := [] |}.

(** * Runs *)

(** Statements about a table with one row. *)
Lemma single_row `{Countable K} {V} (P : K → V → Prop) k v :
  P k v → ∀ k' v', ({[k := v]} : gmap K V) !! k' = Some v' → P k' v'.
Proof. intros HP k' v' [<- <-]%lookup_singleton_Some. exact HP. Qed.

Lemma no_row `{Countable K} {V} (P : K → V → Prop) :
  ∀ k v, (∅ : gmap K V) !! k = Some v → P k v.
Proof. intros k v Hl. by rewrite lookup_empty in Hl. Qed.

Lemma started_accounts : accounts_ok seeded.
Proof.
  split; cbn; try apply no_row; try apply single_row; try done.
  split; [done|]. exists reviewer. by split.
Qed.

Lemma started_history : history_ok started.
Proof.
  split; cbn; try apply no_row; try (by intros ? ?%elem_of_nil); try constructor.
  - intros id ch o H. by rewrite lookup_empty in H.
  - intros id ch o H. by rewrite lookup_empty in H.
Qed.

Lemma started_ready k : (k + 10 < u64_max)%N → forge_ready k started.
Proof.
  intros Hk. split; [reflexivity| | |exact started_accounts| |].
  - split; cbn; try apply no_row. intros key key' r r' H. by rewrite lookup_empty in H.
  - intros o n. change (counters_of (state (core started)) o n) with Counters_default. cbn.
    change u64_max with 18446744073709551615%N in Hk. lia.
  - split; [lia|]. cbn. apply (single_row (λ _ a, (auth_epoch a + k < u64_max)%N)).
    change (auth_epoch reviewer) with 1%N. lia.
  - exact (no_row (λ key (j : RepositoryTransferJournal), idempotency_key j = key ∧ moved_from j ≠ moved_to j)).
Qed.

Lemma opened_ready k :
  (k + 20 < u64_max)%N → forge_ready k with_challenge ∧ history_ok with_challenge.
Proof.
  intros Hk. destruct (bserve_ok opened started k) as (H1 & H2 & _); [|exact started_history|by split].
  apply started_ready. change (N.of_nat (length opened)) with 4%N. lia.
Qed.

Lemma review_history_invariant_witness :
  rows_of (bserve (opened ++ [BC_submit rex 7%N 1 approve]) started) = [(the_challenge, true)]
  ∧ history_ok (bserve (opened ++ [BC_submit rex 7%N 1 approve]) started).
Proof.
  split; [vm_compute; reflexivity|].
  apply (review_history_invariant (opened ++ [BC_submit rex 7%N 1 approve]) started);
    [apply started_ready; vm_compute; reflexivity|exact started_history].
Defined.

Lemma verdict_stands_on_evidence_witness :
  ∃ e, (submit_bound_review rex 7%N 1 approve with_challenge).1 = Ok e
    ∧ sequence e = 1%N
    ∧ (repeated with_challenge (submit_bound_review rex 7%N 1 approve with_challenge).2 approve
         (sha_submit approve) e
       ∨ consumed with_challenge (submit_bound_review rex 7%N 1 approve with_challenge).2 rex 7%N 1
           approve None (sha_submit approve) e).
Proof.
  destruct (opened_ready 1) as [[Hc _ _ _ _] _]; [vm_compute; reflexivity|].
  pose proof (verdict_stands_on_evidence rex 7%N 1 approve with_challenge Hc) as H.
  destruct (submit_bound_review rex 7%N 1 approve with_challenge) as [[e|x] c'] eqn:Hrun.
  - exists e. destruct H as [_ H]. split; [reflexivity|]. split; [|exact H].
    assert (Hq : match (submit_bound_review rex 7%N 1 approve with_challenge).1 with
                 | Ok e => sequence e | Err _ => 0%N end = 1%N) by (vm_compute; reflexivity).
    rewrite Hrun in Hq. exact Hq.
  - exfalso. assert (Hq : is_ok (submit_bound_review rex 7%N 1 approve with_challenge).1 = true)
      by (vm_compute; reflexivity). rewrite Hrun in Hq. discriminate Hq.
Defined.

Definition spent : ReviewCore := bserve (opened ++ [BC_submit rex 7%N 1 approve]) started.

Lemma spent_ready k : (k + 20 < u64_max)%N → forge_ready k spent ∧ history_ok spent.
Proof.
  intros Hk. destruct (bserve_ok (opened ++ [BC_submit rex 7%N 1 approve]) started k)
    as (H1 & H2 & _); [|exact started_history|by split].
  apply started_ready. change (N.of_nat (length (opened ++ _))) with 5%N. lia.
Qed.

(** The repository is deleted; the spent challenge and its event remain. *)
Lemma challenge_consumed_once_witness :
  ∃ ch e, challenges spent !! the_challenge = Some (ch, Some e)
    ∧ challenges (bserve [BC_engine (C_delete_repository "org" "web")] spent) !! the_challenge
      = Some (ch, Some e)
    ∧ e ∈ bound_reviews (state (core (bserve [BC_engine (C_delete_repository "org" "web")] spent))).
Proof.
  destruct (spent_ready 1) as [Hready Hh]; [vm_compute; reflexivity|].
  destruct (challenges spent !! the_challenge) as [[ch [e|]]|] eqn:Hrow.
  - exists ch, e. split; [reflexivity|].
    destruct (challenge_consumed_once [BC_engine (C_delete_repository "org" "web")] spent
                the_challenge ch e rex 7%N 1 approve Hready Hh Hrow eq_refl) as (H1 & H2 & _).
    split; [exact H1|exact H2].
  - exfalso. assert (Hq : match challenges spent !! the_challenge with
                          | Some (_, Some _) => true | _ => false end = true)
      by (vm_compute; reflexivity). rewrite Hrow in Hq. discriminate Hq.
  - exfalso. assert (Hq : match challenges spent !! the_challenge with
                          | Some (_, Some _) => true | _ => false end = true)
      by (vm_compute; reflexivity). rewrite Hrow in Hq. discriminate Hq.
Defined.

Lemma verdict_counts_at_once_witness :
  ∃ pr e, (submit_bound_review rex 7%N 1 approve with_challenge).1 = Ok e
    ∧ pulls (state (core (submit_bound_review rex 7%N 1 approve with_challenge).2))
        !! (review_owner (event_review e), review_repo (event_review e), 1%N) = Some pr
    ∧ event_review e ∈ bound_reviews_for_evaluation (at_ 100)
        (state (core (submit_bound_review rex 7%N 1 approve with_challenge).2)) pr.
Proof.
  destruct (opened_ready 1) as [[Hc Hok _ _ _] _]; [vm_compute; reflexivity|].
  destruct (challenges with_challenge !! the_challenge) as [[ch [e0|]]|] eqn:Hrow.
  - exfalso. assert (Hq : match challenges with_challenge !! the_challenge with
                          | Some (_, None) => true | _ => false end = true)
      by (vm_compute; reflexivity). rewrite Hrow in Hq. discriminate Hq.
  - destruct (submit_bound_review rex 7%N 1 approve with_challenge) as [[e|x] c'] eqn:Hrun.
    + destruct (verdict_counts_at_once rex 7%N 1 approve with_challenge e c' ch (at_ 100) Hc Hok Hrun Hrow)
        as (pr & Hp & _ & _ & He).
      * discriminate.
      * replace (bound_reviews (state (core with_challenge))) with (@nil BoundReviewEvent)
          by (vm_compute; reflexivity). intros y Hy. apply elem_of_nil in Hy. destruct Hy.
      * assert (Hq : is_ok (validate_actor_binding (at_ 100)
          (state (core (submit_bound_review rex 7%N 1 approve with_challenge).2))
          (actor_binding rex)) = true) by (vm_compute; reflexivity).
        rewrite Hrun in Hq. exact Hq.
      * exists pr, e. split; [reflexivity|]. split; [exact Hp|exact He].
    + exfalso. assert (Hq : is_ok (submit_bound_review rex 7%N 1 approve with_challenge).1 = true)
        by (vm_compute; reflexivity). rewrite Hrun in Hq. discriminate Hq.
  - exfalso. assert (Hq : match challenges with_challenge !! the_challenge with
                          | Some (_, None) => true | _ => false end = true)
      by (vm_compute; reflexivity). rewrite Hrow in Hq. discriminate Hq.
Defined.
