(* ===== verification/RequiredSamples.v ===== *)
(** RequiredSamples: required attempts at work: a publisher is enrolled, reserves an attempt on
    the head of the default branch and completes it; the commit is then satisfied, until the
    enrollment is revoked. *)

From Stdlib Require Import ZArith Ascii.
From S2P Require Import Prelude Text Clock BranchProtection ForgeState Forge ForgeLaws BoundReviews ForgeSamples RequiredAttempts RequiredStore RequiredPublishers RequiredLaws RequiredHistory.
Local Open Scope forge_scope.

(** * The world *)

Definition oid (c : ascii) : string := string_repeat c 40.
Definition digest (c : ascii) : string := string_repeat c 64.

Definition head_oid : string := oid "a".
Definition tree_oid : string := oid "b".

Definition head_seen : ObservedReviewRef :=
  {| reference := "refs/heads/main"; observed_commit := head_oid; tree_sha := tree_oid;
     identity := identity (seen "refs/heads/main" head_oid) |}.

#[export] Instance required_review_env : ReviewEnv :=
  {| token_hash_of := λ s, s; random_secret := λ _, Ok "nonce";
     observer := Some (λ _ _, Ok {| observed_source := head_seen; observed_destination := head_seen |});
     storage_root_of := Some "/git"; sha_snapshot := snap_author;
     sha_submit := sb_nonce; sha_dismiss := db_nonce; sha_policy := λ _ _, "policy";
     store_error := λ _, None |}.

Definition file_at (path : string) (i : N) : PublisherResourceIdentity :=
  {| resource_path := path; device := 1; inode := i; resource_owner := 0; group := 0; mode := 448 |}.

Definition managed : RequiredPublisherCustody :=
  {| database := {| held_resource := file_at "/git/forge.db" 5; descriptor := 3 |};
     custody_root := file_at "/git" 2;
     writer_leases := [{| held_resource := file_at "/git/lease" 6; descriptor := 4 |}];
     process_id := 99 |}.

#[export] Instance required_env : RequiredEnv :=
  {| sha_bytes := λ s, digest (ascii_of_nat (48 + String.length s mod 10));
     sha_reservation := λ _, digest "c";
     sha_enrollment := λ e, digest (ascii_of_N (48 + revision e)%N);
     sha_branch_policy := λ branch _, branch;
     constraint_failed := Storage "constraint failed"; no_rows := Storage "no rows";
     table_error := λ _, None; custody_at := λ _, Ok managed |}.

#[export] Instance sample_uuid_spec : UuidSpec.
Proof. split. intros n. unfold is_nil_uuid. cbn. by destruct n. Defined.

(** The installed service accepts what it is asked. *)
Definition service : RequiredPublisherAuthority :=
  {| authority_id := 1; authority_custody := managed; authority_validate := λ _ _ _ _ _, Ok tt |}.

(** * A protected repository and an enrollment *)

Definition needs_ci : BranchProtectionRule :=
  {| rule_owner := "org"; rule_repo := "web"; rule_branch := "main"; required_status_checks := ["ci"];
     required_approving_review_count := 1; enforce_admins := true;
     required_linear_history := false; allow_force_pushes := false; allow_deletions := false;
     require_signed_commits := false; require_jankurai_proof := false; rule_updated_at := 2%Z |}.

Definition protected : State :=
  {| users := {["rex" := profile]}; accounts := {["rex" := reviewer]}; sessions := ∅;
     personal_tokens := {[60%N := token]};
     invitations := ∅; activation_challenges := ∅; bootstrap_owner_consumed := false;
     repo_grants := {[("rex", "org", "web") := grant]};
     organizations := ∅; teams := ∅;
     repos := {[("org", "web") := new_repository 7%N "org" new_repo 1%Z]};
     repository_creations := ∅; labels := ∅; issues := ∅; issue_comments := ∅;
     pulls := ∅; reviews := ∅; bound_reviews := [];
     review_comments := ∅; branch_protections := {[("org", "web", "main") := needs_ci]};
     codeowners_ := ∅; readmes := ∅; statuses := ∅; check_runs := ∅; webhooks := ∅;
     webhook_deliveries := []; counters := ∅; jankurai_scores := ∅;
     repository_aliases := ∅; repository_transfers := ∅; repository_mutation_blocks := ∅ |}.

Definition begun : AttemptCore :=
  {| forge := {| state := protected; stored := Some protected; asked := 30 |};
     tables := empty_tables; attached := None |}.

Definition holder (login : string) (n : N) : ReviewActorBinding :=
  {| actor_login := login; profile_id := n; actor_created_at := 1%Z; actor_epoch := 1;
     credential_kind := CK_PersonalAccessToken; credential_id := (n + 1)%N |}.

Definition enrolled_ci : RequiredPublisherEnrollment :=
  {| schema := "jeryu.required-publisher-enrollment/v1"; publisher_id := 90%N; revision := 1;
     publisher_actor := ForgeSamples.binding;
     scopes := [{| scope_repository := 7%N; scope_source_ref := "refs/heads/main";
                   scope_commit := head_oid; scope_tree := tree_oid; scope_context := "ci" |}];
     runtime_sha256 := digest "d"; authority_origin := RO_Ordinary;
     authority_contract_sha256 := digest "e"; evidence_contract_sha256 := digest "f";
     issued_at := 5%Z; enrollment_expires_at := 900%Z;
     issuer := holder "ida" 52%N; enrollment_reviewer := holder "rob" 54%N;
     issuer_acceptance_sha256 := digest "a"; reviewer_acceptance_sha256 := digest "b" |}.

Definition reserve_ci (key : string) : ReserveRequiredAttemptRequest :=
  {| rs_publisher := 90%N; rs_expected_head := Some head_oid; rs_expected_tree := Some tree_oid;
     rs_context := "ci"; rs_key := Some key; rs_expires_at := 800%Z |}.

Definition passed : CompleteRequiredAttemptRequest :=
  {| cr_expected_head := Some head_oid; cr_expected_reservation := Some (digest "c");
     cr_conclusion := RC_Success;
     cr_artifacts := [{| artifact_name := "log.txt"; artifact_bytes := "all green" |}] |}.

Definition rex : AuthenticatedActor := {| actor_binding := ForgeSamples.binding; mutation_authorized := true |}.

Definition rrun (l : list rcall) (c : AttemptCore) : AttemptCore := fold_left (λ c q, rserve q c) l c.

Lemma rrun_steps l c : rtc rstep c (rrun l c).
Proof.
  revert c. induction l as [|q l IH]; intros c; [done|].
  eapply rtc_l; [by apply (rs_call c _ q)|apply IH].
Qed.

Definition reserved : AttemptCore :=
  rrun [RQ_Attach service; RQ_Install enrolled_ci None 91%N 20%Z; RQ_Reserve rex 7%N (reserve_ci "k1")] begun.

(** The one attempt. *)
Definition the_id : Uuid :=
  match map_to_list (attempts (tables reserved)) with [(i, _)] => i | _ => 0%N end.

Definition completed : AttemptCore := rrun [RQ_Complete rex 7%N the_id passed] reserved.

Definition revoke_ci : RequiredPublisherRevocation :=
  {| revocation_operation := 93%N; revocation_actor := holder "ida" 52%N; revoked_at := 60%Z;
     revocation_reason := "key lost" |}.

Definition revoked : AttemptCore := rrun [RQ_Revoke 90%N (digest "1") revoke_ci] completed.

Definition satisfied_now (c : AttemptCore) : option bool :=
  match (required_attempt_snapshot rex 7%N head_oid c).1 with Ok s => Some (satisfied s) | Err _ => None end.

(** Nothing is satisfied before the completion, and nothing after the revocation. *)
Example satisfied_once : map satisfied_now [reserved; completed; revoked] = [Some false; Some true; Some false].
Proof. vm_compute. reflexivity. Qed.

Lemma reached_ok l : tables_ok (tables (rrun l begun)).
Proof.
  apply (history_keeps (λ _, True) begun); [done|apply empty_tables_ok|apply rrun_steps|done].
Qed.

(** What a decidable question answers with. *)
Definition ok_of {A} (r : result A ForgeError) : option A := match r with Ok x => Some x | Err _ => None end.

Lemma ok_of_Some {A} (r : result A ForgeError) x : ok_of r = Some x → r = Ok x.
Proof. destruct r; [|done]. by intros [= ->]. Qed.

(** * The claims *)

Lemma required_journal_invariant_witness :
  map satisfied_now [completed; revoked] = [Some true; Some false]
  ∧ load_publisher (tables revoked) 90%N 1%N
    = Ok (with_revocation (new_publisher enrolled_ci None 91%N
            (publisher_audit (default (new_publisher enrolled_ci None 91%N 0%N 20%Z)
               (ok_of (load_publisher (tables revoked) 90%N 1%N)))) 20%Z) revoke_ci)
  ∧ (∀ id a, load_attempt (tables revoked) id = Ok a →
       match completion a with
       | Some x => ∃ e, attempt_outbox (tables revoked) !! id = Some e ∧ event_row e = completion_event x
           ∧ event_attempt e = a
           ∧ receive_artifacts sha_bytes (map stored_bytes (stored_artifacts (tables revoked) id))
             = Ok (received_artifacts x)
       | None => attempt_outbox (tables revoked) !! id = None ∧ stored_artifacts (tables revoked) id = []
       end).
Proof.
  split; [vm_compute; reflexivity|]. split; [vm_compute; reflexivity|].
  assert (Hr : rtc rstep begun revoked).
  { transitivity reserved; [apply rrun_steps|]. transitivity completed; apply rrun_steps. }
  destruct (required_journal_invariant begun revoked eq_refl Hr) as (_ & _ & _ & H & _). exact H.
Defined.

Lemma finished_ok : tables_ok (tables completed).
Proof.
  apply (history_keeps (λ _, True) begun); [done|apply empty_tables_ok| |done].
  transitivity reserved; apply rrun_steps.
Qed.

Definition the_attempt (c : AttemptCore) : option DurableRequiredAttempt :=
  ok_of (load_attempt (tables c) the_id).

Definition is_completed (c : AttemptCore) : bool :=
  match the_attempt c with Some a => bool_decide (is_Some (completion a)) | None => false end.

Lemma completion_stands_witness :
  is_completed completed = true
  ∧ ∃ a, the_attempt completed = Some a ∧ ∃ a', load_attempt (tables revoked) the_id = Ok a' ∧ a' = a
    ∧ ∀ actor repository q,
        let (r, c'') := complete_required_attempt actor repository the_id q revoked in
        tables c'' = tables revoked ∧ ∀ b, r = Ok b → b = a'.
Proof.
  split; [vm_compute; reflexivity|].
  assert (Hd : is_completed completed = true) by (vm_compute; reflexivity). unfold is_completed in Hd.
  destruct (the_attempt completed) as [a|] eqn:Ha; [|discriminate Hd].
  exists a. split; [reflexivity|]. apply ok_of_Some in Ha. apply bool_decide_eq_true_1 in Hd.
  destruct (completion_stands completed revoked the_id a finished_ok Ha
              (rrun_steps _ _)) as (a' & Hl & Hor & Hc).
  exists a'. split; [exact Hl|]. destruct Hor as [->|(Hn & _)].
  - split; [reflexivity|]. apply Hc. exact Hd.
  - rewrite Hn in Hd. destruct Hd as [? Hd]. discriminate Hd.
Defined.

Lemma retired_enrollment_powerless_witness :
  satisfied_now completed = Some true
  ∧ ∀ actor repository q a,
      (reserve_required_attempt actor repository q revoked).1 = Ok a →
      ¬ binding_enrollment (binding (reservation a)) = digest "1".
Proof.
  split; [vm_compute; reflexivity|].
  destruct (ok_of (load_publisher (tables revoked) 90%N 1%N)) as [p|] eqn:Hp;
    [|exfalso; revert Hp; vm_compute; discriminate].
  assert (Hq : (λ p, (bool_decide (is_Some (revocation p)), enrollment_sha256 p)) <$>
                 ok_of (load_publisher (tables revoked) 90%N 1%N) = Some (true, digest "1"))
    by (vm_compute; reflexivity).
  rewrite Hp in Hq. cbn in Hq. injection Hq as Hrev Hdig. apply bool_decide_eq_true_1 in Hrev.
  assert (Hok : tables_ok (tables revoked)).
  { apply (history_keeps (λ _, True) completed); [done|apply finished_ok|apply rrun_steps|done]. }
  destruct (retired_enrollment_powerless revoked revoked 90%N 1%N p Hok (ok_of_Some _ _ Hp)
              (or_introl Hrev) (rtc_refl _ _)) as [H _].
  intros actor repository q a Ha Hu. apply (H actor repository q a Ha). rewrite Hu, Hdig. reflexivity.
Defined.

Lemma satisfied_commit_sound_witness :
  satisfied_now completed = Some true
  ∧ ∃ context a x, newest_on (tables completed) 7%N head_oid context a ∧ completion a = Some x
      ∧ conclusion x = RC_Success.
Proof.
  assert (Hs : satisfied_now completed = Some true) by (vm_compute; reflexivity).
  split; [exact Hs|]. unfold satisfied_now in Hs.
  destruct (required_attempt_snapshot rex 7%N head_oid completed).1 as [snap|] eqn:Hr; [|discriminate Hs].
  injection Hs as Hs.
  destruct (satisfied_commit_sound completed rex 7%N head_oid snap finished_ok Hr Hs)
    as (n & g & b & branch & rule & au & _ & _ & _ & Hne & H).
  destruct (required_status_checks rule) as [|k l]; [destruct (Hne eq_refl)|].
  destruct (H k) as (a & x & Hnew & Hx & Hsucc & _); [apply list_elem_of_here|].
  exists k, a, x. split; [exact Hnew|]. split; [exact Hx|exact Hsucc].
Defined.

Lemma reservation_stands_on_enrollment_witness :
  bool_decide (is_Some (ok_of (reserve_required_attempt rex 7%N (reserve_ci "k2") completed).1)) = true
  ∧ let (r, c') := reserve_required_attempt rex 7%N (reserve_ci "k2") completed in
    same_engine completed c' ∧ match r with Err _ => tables c' = tables completed | Ok _ => True end.
Proof.
  split; [vm_compute; reflexivity|].
  pose proof (reservation_stands_on_enrollment completed rex 7%N (reserve_ci "k2") finished_ok) as H.
  destruct (reserve_required_attempt rex 7%N (reserve_ci "k2") completed) as [[a|e] c'].
  - destruct H as [H _]. by split.
  - exact H.
Defined.
