(* ===== verification/AccountSamples.v ===== *)
(** AccountSamples: the accounts at work: an owner is bootstrapped, activated and signs in, a
    password reset ends the session for good; and two saves that surprise. *)

From Stdlib Require Import ZArith.
From S2P Require Import Prelude Text Clock BranchProtection ForgeState Forge ForgeLaws.
From S2P Require Import ForgeInvariant ForgeCalls BoundReviews BoundReviewLaws.
From S2P Require Import Accounts AccountLaws ReviewHistory AccountHistory ForgeSamples.
Local Open Scope forge_scope.

(** Digests are the text itself, and secrets are numbered. *)
#[export] Instance account_review_env : ReviewEnv :=
  {| token_hash_of := λ s, s; random_secret := λ i, Ok ("secret-" +:+ show_N (N.of_nat i));
     observer := None; storage_root_of := None; sha_snapshot := snap_author;
     sha_submit := sb_nonce; sha_dismiss := db_nonce; sha_policy := λ _ _, "policy";
     store_error := λ _, None |}.

#[export] Instance account_auth_env : AuthEnv :=
  {| hash_password := λ p i, Ok ("$" +:+ p); password_matches := λ p h, bool_decide (h = "$" +:+ p);
     checked_add_signed := λ t d, Some (t + d / 1000000)%Z |}.

#[export] Instance account_auth_spec : AuthEnvSpec.
Proof. split. intros i. by eexists. Defined.

Definition empty_forge : ReviewCore := {| core := fresh; challenges := ∅; audits := [] |}.

Definition long_password : string := "correct horse battery".
Definition day : DateTime := 86400000%Z.

(** The owner's invitation, its secret and the challenge the secret buys. *)
Definition invited : ReviewCore := bserve [BC_account (Acc_bootstrap "ada" "Ada" day)] empty_forge.

Definition the_secret : string :=
  match create_bootstrap_owner_invitation "ada" "Ada" day fresh with
  | (Ok r, _) => activation_secret r | (Err _, _) => "" end.

Definition start_result := start_account_activation "ada" the_secret (core invited).
Definition the_challenge_text : string :=
  match start_result with (Ok r, _) => started_challenge r | (Err _, _) => "" end.

(** The owner is active. *)
Definition to_owner : list BCall :=
  [BC_account (Acc_bootstrap "ada" "Ada" day); BC_account (Acc_start "ada" the_secret);
   BC_account (Acc_complete the_challenge_text long_password);
   BC_account (Acc_mfa_active "ada")].

Definition owned : ReviewCore := bserve to_owner empty_forge.

(** Signed in, with the token of the session. *)
Definition session_result := create_session_with_ttl "ada" long_password 1000000000000 (core owned).
Definition session_token : string :=
  match session_result with (Ok r, _) => receipt_token r | (Err _, _) => "" end.

Definition signed_in : ReviewCore :=
  bserve (to_owner ++ [BC_account (Acc_session "ada" long_password 1000000000000)]) empty_forge.

(** * Runs *)

Lemma empty_ready k : (k < u64_max)%N → forge_ready k empty_forge.
Proof.
  intros Hk. split; [apply fresh_ok|apply fresh_ok| | | |].
  - apply fresh_room. change u64_max with 18446744073709551615%N in Hk. lia.
  - split; cbn; try (intros ? ? H; by rewrite lookup_empty in H);
      try (intros ? ? ? ? H; by rewrite lookup_empty in H); done.
  - split; [done|]. intros login a H. change (accounts _) with (∅ : gmap string UserAccount) in H.
    by rewrite lookup_empty in H.
  - intros key j H. change (repository_transfers _) with (∅ : gmap string RepositoryTransferJournal) in H.
    by rewrite lookup_empty in H.
Qed.

Lemma signed_in_ready k : (k + 20 < u64_max)%N → forge_ready k signed_in.
Proof.
  intros Hk. apply (bserve_ready (to_owner ++ [_]) empty_forge k).
  apply empty_ready. change (N.of_nat (length (to_owner ++ _))) with 5%N. lia.
Qed.

Example owner_signs_in :
  (session_for_token 100%Z (state (core signed_in)) session_token) ≠ None
  ∧ bootstrap_owner_consumed (state (core signed_in)) = true.
Proof. split; vm_compute; [discriminate|reflexivity]. Qed.

(** The reset, and what was signed in before. *)
Definition reset : M AccountSummary := reset_account_password "ada" "another passphrase".

Lemma revocation_is_final_witness :
  is_ok (reset (core signed_in)).1 = true
  ∧ ∀ calls, length calls ≤ 1000 →
    let s' := state (core (bserve calls (engine reset signed_in).2)) in
    ∀ t a y, session_for_token t s' session_token = Some (a, y) → session_login y = "ada" →
    sessions s' !! token_hash_of session_token = Some y
    ∧ ∀ h, sessions (state (core signed_in)) !! h ≠ Some y.
Proof.
  assert (Hok : is_ok (reset (core signed_in)).1 = true) by (vm_compute; reflexivity).
  split; [exact Hok|]. intros calls Hlen.
  destruct (reset (core signed_in)) as [[x|e] k] eqn:Hrun; [|discriminate Hok].
  destruct (revocation_is_final "ada" reset x signed_in calls) as (H & _).
  - apply Rv_reset.
  - apply signed_in_ready. change u64_max with 18446744073709551615%N. lia.
  - rewrite Hrun. reflexivity.
  - intros t a y. apply H.
Defined.

Lemma account_stays_witness :
  ∃ a, accounts (state (core owned)) !! "ada" = Some a ∧ role a = UR_Admin
  ∧ let k := core (bserve [BC_account (Acc_lock "ada")] owned) in
    refused (create_account "ada" long_password UR_User) k
    ∧ refused (create_bootstrap_owner_invitation "eve" "Eve" day) k.
Proof.
  destruct (accounts (state (core owned)) !! "ada") as [a|] eqn:Ha.
  - assert (Hr : role a = UR_Admin).
    { assert (Hq : (role <$> accounts (state (core owned)) !! "ada") = Some UR_Admin)
        by (vm_compute; reflexivity). rewrite Ha in Hq. injection Hq as Hq. exact Hq. }
    exists a. split; [reflexivity|]. split; [exact Hr|].
    destruct (account_stays "ada" a owned [BC_account (Acc_lock "ada")] Ha) as (_ & H1 & _ & H2).
    + apply (bserve_ready to_owner empty_forge). apply empty_ready. vm_compute. reflexivity.
    + split; [apply H1|apply (H2 Hr)].
  - exfalso. assert (Hq : is_Some (accounts (state (core owned)) !! "ada"))
      by (vm_compute; eexists; reflexivity). rewrite Ha in Hq. destruct Hq as [? Hq]. discriminate Hq.
Defined.

(** The right secret buys a challenge, a wrong one costs a try. *)
Lemma activation_spec_witness :
  (∃ r, (start_account_activation "ada" the_secret (core invited)).1 = Ok r
    ∧ challenge_issued (state (core invited)) (now_at (3 + asked (core invited))) "ada" the_secret r
        (state (start_account_activation "ada" the_secret (core invited)).2))
  ∧ is_ok (start_account_activation "ada" "guess" (core invited)).1 = false
  ∧ map attempt_count (map_to_list (invitations
      (state (start_account_activation "ada" "guess" (core invited)).2))).*2 = [1%N].
Proof.
  split; [|split; vm_compute; reflexivity].
  assert (Hready : forge_ready 1 invited).
  { apply (bserve_ready [_] empty_forge). apply empty_ready. vm_compute. reflexivity. }
  destruct (activation_spec (core invited) "ada" the_secret "" "") as [H _];
    [apply Hready|apply Hready|].
  assert (Hq : is_ok (start_account_activation "ada" the_secret (core invited)).1 = true)
    by (vm_compute; reflexivity).
  destruct (start_account_activation "ada" the_secret (core invited)) as [[r|e] c'];
    [|discriminate Hq]. exists r. split; [reflexivity|exact H].
Defined.

Definition with_repository : ReviewCore :=
  bserve [BC_engine (C_create_repository_with_id 7%N "org" new_repo);
          BC_engine (C_create_repository_with_id 7%N "org" new_repo);
          BC_account (Acc_create "bob" long_password UR_User)] owned.

Lemma checked_grants_spec_witness :
  (∃ g, (grant_repo_access_checked "ada" "bob" "org" "web" RA_Write (core with_repository)).1 = Ok g
    ∧ granted (state (core with_repository)) "ada" "bob" "org" "web" RA_Write g
        (state (grant_repo_access_checked "ada" "bob" "org" "web" RA_Write (core with_repository)).2))
  ∧ is_ok (grant_repo_access_checked "bob" "bob" "org" "web" RA_Write (core with_repository)).1 = false.
Proof.
  split; [|vm_compute; reflexivity].
  assert (Hready : forge_ready 1 with_repository).
  { apply (bserve_ready [_; _; _] owned), (bserve_ready to_owner empty_forge).
    apply empty_ready. vm_compute. reflexivity. }
  destruct (checked_grants_spec "ada" "bob" "org" "web" RA_Write (core with_repository)) as [H _];
    [apply Hready|].
  assert (Hq : is_ok (grant_repo_access_checked "ada" "bob" "org" "web" RA_Write
                        (core with_repository)).1 = true) by (vm_compute; reflexivity).
  destruct (grant_repo_access_checked "ada" "bob" "org" "web" RA_Write (core with_repository))
    as [[g|e] c']; [|discriminate Hq]. exists g. split; [reflexivity|exact H].
Defined.

(** * Saves that surprise *)

(** A world in which the second save of a temporary account fails. *)
Definition failing_env : ForgeEnv :=
  {| now_at := λ i, Z.of_nat i; uuid_at := λ i, N.of_nat (1000 + i);
     process_error := λ _, None; ordinary_error := λ _, None;
     persist_error := λ i, if i <? 6 then None else Some (Storage "disk full");
     validate_repository := λ _ _ _ _, None; materialize_repository := λ _ _, None;
     hmac_hex := λ secret bytes, secret +:+ bytes; to_vec := action; audit_env := None;
     next_nanosecond := λ t, Some (t + 1)%Z; pull_order := λ l, l |}.

(** The call fails, but the account is there, saved, active and not asked to change its
    password. *)
Example temporary_account_half_made :
  let c := (@create_temporary_account _ failing_env account_auth_env
              "tmp" long_password UR_User fresh) in
  is_ok c.1 = false
  ∧ ((λ a, (account_status a, must_change_password a)) <$> accounts (state c.2) !! "tmp")
    = Some (AS_Active, false)
  ∧ ((λ s, is_ok (get_account s "tmp")) <$> stored c.2) = Some true.
Proof. vm_compute. repeat split. Qed.

(** An account at the last epoch. *)
Definition worn : Core :=
  let a := {| canonical_login := "old"; display_name := "old"; password_hash := "$first password";
              role := UR_User; account_status := AS_Active; auth_epoch := u64_max;
              must_change_password := false; account_created_at := 1%Z;
              account_updated_at := 1%Z |} in
  let s := set_accounts {["old" := a]} State_default in
  {| state := s; stored := Some s; asked := 0 |}.

(** The reset fails at the epoch, but the new password is already live, and not saved. *)
Example failed_reset_is_live :
  let c := reset_account_password "old" "second password" worn in
  c.1 = Err (Storage "account auth epoch overflow")
  ∧ is_ok (authenticate_password (state c.2) "old" "second password") = true
  ∧ (password_hash <$> (stored c.2 ≫= λ s, accounts s !! "old")) = Some "$first password".
Proof. vm_compute. repeat split. Qed.
