(* ===== verification/TransferSamples.v ===== *)
(** TransferSamples: a repository with an issue and a pull request moves to another owner; a
    replay, a late failure; and two behaviours that surprise. *)

From Stdlib Require Import ZArith.
From S2P Require Import Prelude Text Clock BranchProtection ForgeState Forge ForgeLaws.
From S2P Require Import ForgeInvariant ForgeCalls BoundReviews Accounts AccountLaws Transfers TransferLaws.
From S2P Require Import ReviewHistory AccountHistory TransferHistory ForgeSamples AccountSamples.
Local Open Scope forge_scope.

Definition to_newco : PrepareRepositoryTransfer :=
  {| prepare_repository := 7%N; expected_source_owner := "org"; expected_source_name := "web";
     prepare_destination := "newco"; prepare_fingerprint := "fp"; prepare_key := "key-1" |}.

Definition building : list BCall :=
  map BC_engine setup
    ++ [BC_engine (C_create_issue "org" "web" "bob" report_bug); BC_transfer (Tr_prepare to_newco)].

Definition prepared_forge : ReviewCore := bserve building empty_forge.

Definition the_transfer : Uuid :=
  match repository_transfers (state (core prepared_forge)) !! "key-1" with
  | Some j => transaction_id j | None => 0%N end.

Definition moved_forge : ReviewCore :=
  bserve [BC_transfer (Tr_commit the_transfer "moved on disk")] prepared_forge.

Lemma prepared_ready k : (k + 20 < u64_max)%N → forge_ready k prepared_forge.
Proof.
  intros Hk. apply (bserve_ready building empty_forge k). apply empty_ready.
  change (N.of_nat (length building)) with 6%N. lia.
Qed.

Lemma moved_ready k : (k + 21 < u64_max)%N → forge_ready k moved_forge.
Proof.
  intros Hk. apply (bserve_ready [_] prepared_forge k), prepared_ready.
  change (N.of_nat (length [_])) with 1%N. lia.
Qed.

(** * Runs *)

Definition moved_names (c : ReviewCore) : list (string * string * N) * list (string * string * N) :=
  ((map_to_list (issues (state (core c)))).*1, (map_to_list (pulls (state (core c)))).*1).

Lemma transfer_moves_repository_witness :
  moved_names moved_forge = ([("newco", "web", 2%N); ("newco", "web", 1%N)], [("newco", "web", 1%N)])
  ∧ ∃ j r t, (commit_repository_transfer the_transfer "moved on disk" (core prepared_forge)).1 = Ok j
    ∧ repository_moved (state (core prepared_forge))
        (state (commit_repository_transfer the_transfer "moved on disk" (core prepared_forge)).2) j r t.
Proof.
  split; [vm_compute; reflexivity|].
  pose proof (transfer_moves_repository the_transfer "moved on disk" prepared_forge 0) as H.
  assert (Hr : forge_ready 0 prepared_forge) by (apply prepared_ready; reflexivity).
  specialize (H Hr). destruct H as [_ H].
  assert (Hq : is_ok (commit_repository_transfer the_transfer "moved on disk" (core prepared_forge)).1 = true)
    by (vm_compute; reflexivity).
  assert (Hd : bool_decide (is_Some (repos
      (state (commit_repository_transfer the_transfer "moved on disk" (core prepared_forge)).2)
        !! ("org", "web"))) = false) by (vm_compute; reflexivity).
  assert (Hd' : bool_decide (is_Some (repos (state (core prepared_forge)) !! ("org", "web"))) = true)
    by (vm_compute; reflexivity).
  destruct (commit_repository_transfer the_transfer "moved on disk" (core prepared_forge)) as [[j|e] c'];
    [|discriminate Hq]. cbn [fst snd] in *. destruct H as (_ & _ & _ & [H|(_ & r & t & H)]).
  - exfalso. rewrite H in Hd. rewrite Hd in Hd'. discriminate Hd'.
  - exists j, r, t. split; [reflexivity|exact H].
Defined.

(** The entry of the finished transfer. *)
Definition moved_entry : RepositoryTransferJournal :=
  match repository_transfers (state (core moved_forge)) !! "key-1" with
  | Some j => j
  | None => {| transaction_id := 0%N; idempotency_key := ""; request_fingerprint := "";
               transfer_repository := 0%N; source_owner := ""; source_name := "";
               destination_owner := ""; destination_name := ""; transfer_status := RTS_Prepared;
               prepared_at := 0%Z; transfer_completed_at := None; transfer_failure := None;
               transfer_receipt := None |}
  end.

(** Later the repository is used on; a replay answers the entry, another request is refused. *)
Definition later : list BCall :=
  [BC_engine (C_create_issue "newco" "web" "bob" report_bug); BC_transfer (Tr_fail the_transfer "late")].

Lemma closed_transfer_is_final_witness :
  (let (x, k') := prepare_repository_transfer to_newco (core (bserve later moved_forge)) in
   x = Ok moved_entry ∧ state k' = state (core (bserve later moved_forge)))
  ∧ is_ok (prepare_repository_transfer {| prepare_repository := 7%N; expected_source_owner := "newco";
      expected_source_name := "web"; prepare_destination := "third"; prepare_fingerprint := "other";
      prepare_key := "key-1" |} (core moved_forge)).1 = false.
Proof.
  split; [|vm_compute; reflexivity].
  assert (Hr : forge_ready (N.of_nat (length later)) moved_forge) by (apply moved_ready; reflexivity).
  assert (Hcl : closed (state (core moved_forge)) "key-1" moved_entry).
  { split; vm_compute; [reflexivity|discriminate]. }
  destruct (closed_transfer_is_final "key-1" moved_entry moved_forge later Hcl Hr) as (_ & H & _).
  specialize (H to_newco eq_refl).
  assert (Hq : is_ok (prepare_repository_transfer to_newco (core (bserve later moved_forge))).1 = true)
    by (vm_compute; reflexivity).
  destruct (prepare_repository_transfer to_newco (core (bserve later moved_forge))) as [[j|e] k'];
    [|discriminate Hq]. destruct H as [H1 H2]. destruct (H2 j eq_refl) as [-> _]. split; [reflexivity|exact H1].
Defined.

(** * Behaviours that surprise *)

(** The old name is an alias of the moved repository, and free for a new one all the same. *)
Example old_name_taken_again :
  let s := state (core (bserve [BC_engine (C_create_repository_with_id 9%N "org" new_repo)] moved_forge)) in
  (alias_repository <$> get_repository_alias s "org" "web") = Some 7%N
  ∧ (repo_id <$> repos s !! ("org", "web")) = Some 9%N
  ∧ (repo_id <$> repos s !! ("newco", "web")) = Some 7%N.
Proof. vm_compute. repeat split. Qed.

(** A pull request whose source is the moved repository, in another repository: it keeps the
    old name, so its review target is gone. *)
Definition fork_to_newco : PrepareRepositoryTransfer :=
  {| prepare_repository := 8%N; expected_source_owner := "fork"; expected_source_name := "web";
     prepare_destination := "newco"; prepare_fingerprint := "fp"; prepare_key := "key-2" |}.

Definition fork_prepared : ReviewCore :=
  bserve (map BC_engine setup ++ [BC_transfer (Tr_prepare fork_to_newco)]) empty_forge.

Definition fork_transfer : Uuid :=
  match repository_transfers (state (core fork_prepared)) !! "key-2" with
  | Some j => transaction_id j | None => 0%N end.

Example moved_fork_loses_its_reviews :
  let c := core (bserve [BC_transfer (Tr_commit fork_transfer "moved on disk")] fork_prepared) in
  (source_repository <$> pulls (state c) !! ("org", "web", 1%N)) = Some "fork/web"
  ∧ is_ok (review_target (state (core fork_prepared)) 7%N 1%N) = true
  ∧ is_ok (review_target (state c) 7%N 1%N) = false
  ∧ (repo_id <$> repos (state c) !! ("newco", "web")) = Some 8%N.
Proof. vm_compute. repeat split. Qed.

(** Moving back is refused: the old name is an alias. *)
Example no_way_back :
  (prepare_repository_transfer
     {| prepare_repository := 7%N; expected_source_owner := "newco"; expected_source_name := "web";
        prepare_destination := "org"; prepare_fingerprint := "fp2"; prepare_key := "key-3" |}
     (core moved_forge)).1 = Err (Conflict "destination repository org/web").
Proof. vm_compute. reflexivity. Qed.
