(* ===== verification/RefOperationSamples.v ===== *)
(** RefOperationSamples: a merge in the journal: prepared, found applied, published and
    delivered; and what a half-applied one leaves. *)

From Stdlib Require Import ZArith.
From S2P Require Import Prelude Text Clock Json BranchProtection ForgeState Forge ForgeLaws.
From S2P Require Import ForgeInvariant ForgeCalls BoundReviews RefOperations RefOperationLaws RefOperationHistory ForgeSamples.
Local Open Scope forge_scope.

#[export] Instance sample_ref_env : RefEnv :=
  {| sha_intent := intent_key; sha_qualification := λ _, "qualification";
     parse_uuid := parse_uint u64_max; constraint_failed := Storage "UNIQUE constraint failed";
     journal_error := λ _, None |}.

Definition old_oid : string := "bbbbbbbbbbbbbbbbbbbbbbbbbbbbbbbbbbbbbbbb".
Definition new_oid : string := "aaaaaaaaaaaaaaaaaaaaaaaaaaaaaaaaaaaaaaaa".

Definition evidence : Value :=
  V_Object [("actor_authorization", V_Object [("login", V_String "ann")]);
            ("attempt_ids", V_Array []); ("blockers", V_Array []);
            ("policy", V_Object []); ("policy_revision", V_String "r1");
            ("review_ids", V_Array [V_String "41"; V_String "42"])].

(** The branch [topic] of repository 8 is merged into [main] of repository 7. *)
Definition merge_intent : RefOperationIntent :=
  {| intent_repository := 7%N; intent_key := "merge-1"; intent_actor := "ann";
     intent_operation := RK_Merge 1001%N 8%N "refs/heads/topic" new_oid;
     intent_changes := [{| change_reference := "refs/heads/main";
                           change_expected := RV_Exact old_oid; change_result := RV_Exact new_oid |}];
     qualification_snapshot := evidence; intent_expires_at := 100000%Z |}.

Definition at_main (v : RefValue) : ObservedRef := {| seen_reference := "refs/heads/main"; seen_value := v |}.

Definition seen_applied : RefOperationObservation :=
  RO_Observed [at_main (RV_Exact new_oid)] (RV_Exact new_oid) false.

(** The publication: the deliveries that wait are dropped. *)
Definition publish (s : State) : result State ForgeError := Ok (set_webhook_deliveries [] s).

Definition quiet_forge : OpCore := {| forge := sample; operations := ∅; outbox := ∅; ref_audits := [] |}.

Definition with_intent : OpCore := oserve [Op_prepare merge_intent] quiet_forge.

Definition the_operation : Uuid :=
  match map_to_list (operations with_intent) with (id, _) :: _ => id | [] => 0%N end.

Definition published : OpCore := oserve [Op_reconcile 7%N the_operation seen_applied publish] with_intent.

Definition the_event : Uuid :=
  match map_to_list (outbox published) with (id, _) :: _ => id | [] => 0%N end.

Definition receipt_text : string := new_oid +:+ "aaaaaaaaaaaaaaaaaaaaaaaa".

Lemma nothing_held o : ¬ holds_operation quiet_forge o.
Proof. intros [H _]. by apply (lookup_empty_Some (M := gmap Uuid) (operation_id o) (row_of o)) in H. Qed.

Lemma quiet_ok : journal_ok quiet_forge.
Proof.
  split.
  - intros id row H. by apply (lookup_empty_Some (M := gmap Uuid) id row) in H.
  - by intros o o' ?%nothing_held.
  - intros e b H. by apply (lookup_empty_Some (M := gmap Uuid) e b) in H.
  - by intros o e ?%nothing_held.
  - intros e e' b b' H. by apply (lookup_empty_Some (M := gmap Uuid) e b) in H.
  - constructor.
  - by intros o ?%nothing_held.
Qed.

Lemma intent_ok : journal_ok with_intent.
Proof. by apply oserve_ok, quiet_ok. Qed.

Lemma intent_saved : saved (forge with_intent).
Proof.
  pose proof (prepare_ref_spec merge_intent quiet_forge quiet_forge (at_start quiet_forge)) as H.
  destruct (sample_ok 0) as (Hs & _); [lia|]. change sample with (forge quiet_forge) in Hs.
  unfold with_intent. cbn [oserve orun]. unfold owp, odiscard, obind, oret in *.
  destruct (prepare_ref_operation merge_intent quiet_forge) as [[o|e] c]; cbn [fst snd] in *.
  - by destruct H as [((_ & _ & H) & _)|(_ & _ & H & _)]; apply H.
  - by destruct H as (_ & _ & H); apply H.
Qed.

(** * Runs *)

Definition everything : list OCall :=
  [Op_prepare merge_intent; Op_reconcile 7%N the_operation seen_applied publish;
   Op_acknowledge 7%N the_event receipt_text; Op_engine (C_create_issue "org" "web" "bob" report_bug)].

Lemma ref_journal_invariant_witness :
  journal_ok (oserve everything quiet_forge)
  ∧ map (λ x, (row_state x.2, box_receipt <$> outbox (oserve everything quiet_forge) !! the_event))
      (map_to_list (operations (oserve everything quiet_forge))) = [("committed", Some (Some receipt_text))].
Proof.
  split; [|vm_compute; reflexivity].
  apply (ref_journal_invariant everything quiet_forge). exact quiet_ok.
Defined.

Lemma reconcile_publishes_witness :
  ∃ o', (reconcile_ref_operation 7%N the_operation seen_applied publish with_intent).1 = Ok o'
    ∧ announced_once (reconcile_ref_operation 7%N the_operation seen_applied publish with_intent).2 7%N o'
    ∧ publish (state (forge with_intent))
      = Ok (state (forge (reconcile_ref_operation 7%N the_operation seen_applied publish with_intent).2)).
Proof.
  pose proof (reconcile_publishes 7%N the_operation seen_applied publish with_intent intent_ok intent_saved) as H.
  assert (Hq : is_ok (reconcile_ref_operation 7%N the_operation seen_applied publish with_intent).1 = true)
    by (vm_compute; reflexivity).
  assert (Hn : length (map_to_list (outbox
     (reconcile_ref_operation 7%N the_operation seen_applied publish with_intent).2)) = 1)
    by (vm_compute; reflexivity).
  assert (Hn' : length (map_to_list (outbox with_intent)) = 0) by (vm_compute; reflexivity).
  destruct (reconcile_ref_operation 7%N the_operation seen_applied publish with_intent) as [[o'|e] c'];
    [|discriminate Hq]. cbn [fst snd] in *. exists o'. split; [reflexivity|].
  destruct H as (_ & _ & _ & [((_ & Hbox & _) & _)|(o & _ & _ & _ & [H|H])]).
  - exfalso. rewrite Hbox in Hn. rewrite Hn in Hn'. discriminate Hn'.
  - split; apply H.
  - exfalso. destruct H as (_ & _ & Hbox & _). rewrite Hbox in Hn. rewrite Hn in Hn'. discriminate Hn'.
Defined.

(** The operation after its outcome. *)
Definition published_operation : DurableRefOperation :=
  match load_operation (operations published) 7%N the_operation with
  | Ok o => o | Err _ => new_operation merge_intent 0%N 0%N 0%Z "" end.

Definition later_calls : list OCall :=
  [Op_acknowledge 7%N the_event receipt_text; Op_prepare merge_intent;
   Op_engine (C_delete_repository "org" "web")].

Lemma outcome_is_final_witness :
  load_operation (operations (oserve later_calls published)) 7%N the_operation = Ok published_operation
  ∧ ∀ i, intent_repository i = 7%N → intent_key i = "merge-1" → i ≠ merge_intent →
      ∃ e c2, prepare_ref_operation i (oserve later_calls published) = (Err e, c2).
Proof.
  assert (Hok : journal_ok published) by (apply oserve_ok; exact intent_ok).
  assert (Hload : load_operation (operations published) 7%N the_operation = Ok published_operation)
    by (vm_compute; reflexivity).
  assert (Hy : bool_decide (is_Some (outcome published_operation)) = true) by (vm_compute; reflexivity).
  destruct (outcome published_operation) as [y|] eqn:Hout; [|discriminate Hy].
  destruct (outcome_is_final 7%N the_operation published_operation y later_calls published Hok Hload Hout)
    as (H1 & _ & H2). split; [exact H1|]. intros i Hr Hk Hne. specialize (H2 i Hr Hk).
  destruct (prepare_ref_operation i (oserve later_calls published)) as [[o|e] c2]; [|by eexists _, _].
  exfalso. destruct H2 as [_ H2]. destruct (H2 o eq_refl) as [_ Hi]. apply Hne. rewrite <-Hi. vm_compute. reflexivity.
Defined.

(** The ref moved but the marker is missing: nobody knows whether the operation ran. The forge
    stays, and the repository takes no further operation, though it takes other calls. *)
Definition half_applied : RefOperationObservation :=
  RO_Observed [at_main (RV_Exact new_oid)] RV_Absent false.

Definition second_intent : RefOperationIntent :=
  {| intent_repository := 7%N; intent_key := "merge-2"; intent_actor := "ann";
     intent_operation := RK_RefUpdate; intent_changes := intent_changes merge_intent;
     qualification_snapshot := evidence; intent_expires_at := 100000%Z |}.

Example half_applied_blocks :
  let c := oserve [Op_reconcile 7%N the_operation half_applied publish] with_intent in
  map (λ x, row_state x.2) (map_to_list (operations c)) = ["reconciliation_required"]
  ∧ (prepare_ref_operation second_intent c).1
    = Err (WriterUnavailable "repository has an unresolved ref operation")
  ∧ is_ok (run (C_create_issue "org" "web" "bob" report_bug) (forge c)).1 = true.
Proof. vm_compute. repeat split. Qed.
